(* ===== verification/_CoqProject ===== *)
-Q . S2P
Prelude.v
CoreTypes.v
Clock.v
BarGrid.v
Ring.v
FillLaw.v
QueueLaw.v
QueueProofs.v
LedgerBase.v
LedgerResting.v
RestingProofs.v
LedgerInst.v
InstProofs.v
Ledger.v
LedgerProofs.v
BookTable.v
Halt.v
Route.v
Router.v
RouterProofs.v
RouterLaws.v
Split.v
SplitProofs.v
PmRoll.v
Ladder.v
LadderProofs.v
Held.v
HeldProofs.v
AmmU256.v
AmmLimbs.v
AmmDivision.v
AmmArith.v
AmmTick.v
AmmTickProofs.v
AmmTickLog.v
AmmStep.v
AmmStepProofs.v
AmmTypes.v
AmmMapProofs.v
AmmPrice.v
AmmSwap.v
AmmSwapProofs.v
AmmFill.v
AmmFillProofs.v
AmmPayload.v
AmmPayloadProofs.v
AmmLaws.v
AmmBook.v
AmmBookProofs.v
AmmTheorems.v
Parse.v
ParseProofs.v
ParseJson.v
ParsePb.v
WsFrame.v
WsProofs.v
WsStream.v
Timer.v
TimerProofs.v
TimerLaws.v
Gateway.v
GatewayProofs.v
GatewayWindows.v
Duplex.v
Regime.v
RuleTable.v
Vm.v
VmProofs.v
VmLaws.v
VmOrders.v
VmSamples.v
FeatureEngine.v
FeatureProofs.v
FeatureSpec.v
FeatureRings.v
FeatureRefine.v
VmSim.v
FeatureLaws.v
Settle.v
SettleProofs.v
