(* ===== verification/Prelude.v ===== *)
(** * Multivenue trading engine: a verification library of its core laws

    The repository is a trading engine that reads several venues, runs
    strategies in sixteen slots, and sends their orders to a paper matcher or
    to live venue arms. This development models the parts in between, where
    the money is decided: the data every part shares, the queues between
    threads, the clocks, the order books, the paper fill laws, the automated
    market makers, the ruleset machine that decides orders, the risk ledger,
    the router that gates every live order and halts a slot, and the gateway
    a live arm runs on.

    ** The parts and how they meet

    A session reads whole WebSocket messages off a byte window ([WsFrame]);
    an ingress thread scans them in place ([Parse], [ParsePb]) into
    ticks and events, judged by a feed clock ([Clock]), kept as books ([BookTable], [Ladder]) and handed
    over rings and mailboxes ([Ring]). The feature engine ([FeatureEngine])
    keeps what a ruleset reads of them; the ruleset machine ([Vm]), over the
    rule grammar ([RuleTable]) and the market regime ([Regime]), turns it
    into orders. An order goes to the router ([Router]), which looks the slot
    up in the route table ([Route]), asks the ledger ([Ledger], over
    [LedgerResting] and [LedgerInst]) what the order would do to exposure,
    day turnover and resting notional, and sends it to one of two arms. The
    live arm may be a composite of arms ([Split]). The paper arm fills orders
    by the laws of [FillLaw], [QueueLaw] and [Held], and a swap on a pool by
    the pool book ([AmmBook]) over the swap arithmetic of core-amm. Live fills
    come back into the ledger. The router polls the live arm's signal,
    latches halts and holds ([Halt]), cancels a halted slot, and keeps the
    halt file. A venue arm runs on the gateway's deadline queue ([Timer]),
    in-flight table, windows and connection pair ([Gateway]) behind two rings
    ([Duplex]). A rolling market rotates through a pool of symbols ([PmRoll])
    and settles by the law of [Settle].

    ** Files and what they model (paths under src/crates)

    Shared data and transport:
    - [Prelude]: machine integers, arrays, sums, folds, results.
    - [CoreTypes]: core-types/src/lib.rs: sides, symbols, ticks, fills,
      events, the roll codec, execution health. [PmRoll]: pm_roll.rs.
      [Regime]: regime.rs with the view of core-regime/src/lib.rs.
      [RuleTable]: the rules and commands of core-types/src/lib.rs.
    - [Clock]: core-time/src/lib.rs: FeedClock, WallAnchor, BarClock,
      HotWindow. [BarGrid]: core-time/src/barclock.rs: the bar grid of every
      timeframe, weeks and calendar months included.
    - [Parse]: core-parse/src/lib.rs: integers, decimals, numbers, fields and
      the JSON skipper over lists of bytes. [ParseProofs] relates the numbers
      to their text, [ParseJson] the skipper to a grammar of JSON.
      [ParsePb]: pb.rs: protobuf fields.
    - [WsFrame]: core-net/src/ws_frame.rs, iobuf.rs, ws_conn.rs (the framer),
      keepalive.rs and subs.rs. A part that renders itself is the class
      [WsPart], its law [LawfulPart]. [WsProofs] is about the frame codec;
      [WsStream] runs sessions of the framer.
    - [Ring]: core-ring/src/lib.rs and mailbox.rs: the SPSC ring with stale
      index loads as a step relation, and the one-slot mailbox.

    Books and paper fills:
    - [Ladder], [LadderProofs]: book-builder/src/ladder.rs.
    - [BookTable]: book-builder/src/lib.rs.
    - [FillLaw]: core-fill/src/lib.rs: the verdict functions.
    - [QueueLaw], [QueueProofs]: core-fill/src/queue.rs: QueueBook.
    - [Held], [HeldProofs]: core-fill/src/held.rs: the delayed book.
    - [Settle], [SettleProofs]: core-settle/src/lib.rs.

    Automated market makers (core-amm/src, core-fill/src/amm.rs):
    - [AmmU256]: u256.rs, limb by limb; [AmmLimbs], [AmmDivision] and
      [AmmArith] show that it computes on the integers.
    - [AmmTick]: tick_math.rs; [AmmTickProofs] the ladder of constants,
      [AmmTickLog] the logarithm, measured over the reals.
    - [AmmStep], [AmmStepProofs]: sqrt_price_math.rs.
    - [AmmTypes], [AmmMapProofs]: types.rs: the pool, the tick map and its
      positions.
    - [AmmPrice]: price.rs. [AmmSwap], [AmmSwapProofs]: swap.rs, both loops.
    - [AmmFill], [AmmFillProofs]: fill.rs and arb.rs.
    - [AmmPayload], [AmmPayloadProofs]: payload.rs.
    - [AmmBook], [AmmBookProofs]: core-fill/src/amm.rs. [BookOp] is the type
      of its calls, [book_run] makes them.
    - [AmmLaws], [AmmTheorems]: a pool and its map under swaps, mints and
      burns, and the properties of all of these.

    Strategy:
    - [Vm]: strategy-vm/src/lib.rs. The feature engine and the dispatcher
      context are the interfaces it is proved over; [VmProofs], [VmLaws],
      [VmOrders] are its laws, [VmSamples] its runs.
    - [FeatureEngine]: strategy-vm/src/features.rs and
      core-regime/src/math.rs. [FeatureSpec] is its specification, a map of
      symbols; [FeatureProofs], [FeatureRings] and [FeatureRefine] refine it;
      [VmSim] and [FeatureLaws] carry the refinement through the machine.

    Risk and routing (exec-router/src unless said):
    - [LedgerBase], [LedgerResting], [LedgerInst], [Ledger] with
      [RestingProofs], [InstProofs], [LedgerProofs]: ledger.rs: the resting
      table, the instrument rows, the family rows, the day, fills and the
      order probe. [LedgerOp] is the type of its calls and [run_ledger] makes
      one.
    - [Halt]: halt.rs and HaltSignal of clob-dispatcher/src/lib.rs.
    - [Route]: route.rs, mode.rs, counters.rs, and the route aliases of
      clob-dispatcher/src/lib.rs.
    - [Router], [RouterProofs], [RouterLaws]: routed.rs. The trait
      OrderDispatch is the class [OrderDispatch]; every theorem holds of any
      two arms that implement it. [RouterOp] is the type of the router's
      calls, [run_router] makes one.
    - [Split], [SplitProofs]: split.rs, venue_split.rs, null.rs and the
      absent arm of clob-dispatcher/src/lib.rs, as instances of the class.

    Gateway (exec-gateway/src):
    - [Timer], [TimerProofs], [TimerLaws]: timer.rs.
    - [Gateway], [GatewayProofs], [GatewayWindows]: pending.rs, rate.rs,
      rtt.rs, idle.rs, mbb.rs, and core-net/src/backoff.rs.
    - [Duplex]: duplex.rs and the words of stats.rs that decide.

    A struct is a Record of the same fields, less padding; a method that
    changes state is a function from the old state to the new one, paired
    with what it returns; a loop is a Fixpoint over the array it walks or a
    fold over its indices; a fallible method returns [result] or [option].
    Integers are [Z], reduced or clamped where the code wraps or saturates.

    ** What the theorems show

    - Transport: the ring is a bounded FIFO that never overwrites the lent
      slot; the mailbox is exclusive and loses nothing.
    - Sessions: a client frame is read back, the reader's verdict is final, and
      a server's stream may be cut anywhere: its messages are delivered in
      order, once and whole, its pings answered in order, and it fails only at
      a frame that ends it or a ping there is no room to answer.
    - Wire and time: decimals and numbers are read exactly, a skipped value is
      one JSON text, protobuf fields are read back as written and stay in the
      buffer; the bars of a timeframe partition time, their distance counts
      them, and below a week they are BarClock's.
    - Books: the ladder is the bounded reference book and shows the venue's
      best levels up to a stated number of deletes; the table is a map.
    - Paper fills: one tick's fills share its displayed size; the queue law
      lands, prints and modifies lawfully, and its events never overflow; a
      held order is judged once, in submit order, and a sweep takes what its
      limit reaches.
    - Market makers: the 256-bit arithmetic is exact; the tick of a price is
      the largest whose ratio is within it; a step charges what it moves;
      from a pool and map that agree, every swap after any history is refused
      or lawful; a position moves both its ends or none and its opposite
      restores the map; the event payload is a bijection; a verdict keeps to
      its order, a broken stream is not judged, and an arbitrage quote clears
      its gas.
    - Strategy: every order of the ruleset machine opens in law or closes
      what is held, a due exit closes or says why, the feature engine is a
      map of symbols and the machine over it trades as over the map.
    - Ledger: the caches never drift from what they summarise, the search is
      a scan, exits are exits, projections are what fills book, the day's
      spend is never refunded, and every reachable ledger is well formed.
    - Router: the arms are sent only what the route and the gate allow; a
      halted slot never places again; what the gate passes stays inside the
      caps; exits pass it; a cancel ends only with the arm's word; every
      submit is answered once; the router moves its ledger only by the
      ledger's own operations; reports drain in order and to the end; each
      arm of a split serves its slots and venues only, sent the router's
      calls unchanged, and hides no fault; halts survive the restart unless
      others changed the halt file between.
    - Gateway: the heap is a deadline queue whose handles stay dead; the
      in-flight table is a map; the connection pair makes before it breaks;
      the windows are exact; a lost event halts the arm.
    - Settlement: the in-place law is the sorted one for any lawful
      selection, and few outliers cannot move it. A roll names its market.

    Runs are lists of calls folded from the initial state, or closures of a
    step relation, so an invariant proved of them holds of every state the
    code can reach.

    ** Bounds and fuel

    [lower_bound] of the ledger halves at most 256 times (the table holds 256
    rows) and that of the tick map as often as its range is long;
    [isqrt_from] counts up with fuel [n], the number itself; the Newton roots
    halve their distance, so 129 steps cover [2 ^ 128]; [advance_from] has
    the grid points left as fuel; a sift has the heap's size, a probe of the
    symbol table the table's size, a pass over held orders their number;
    Knuth's estimate comes down at most twice; the swap walk takes the 512
    steps the code allows and one to see that they are spent; a varint takes
    ten bytes, the JSON skipper and the field search the bytes left and one
    more, the frame loop the window's bytes and one more; a report drain
    takes 64 of each kind a poll, as the code does. Each is shown to be
    enough by the theorem that uses it. Table sizes that are const generics
    ([N]) are any size below [2 ^ 32], and runs of the deadline queue and the
    rings are of fewer than [2 ^ 64] operations where an index could come
    round to itself.

    ** Code that is not modelled

    Code outside src/ is a parameter: [SelectNth] is the standard library's
    select_nth_unstable with its documented contract, and memchr's substring
    search an argument of the field search with its first-match law. How a poll sees the files
    it reads and whether a write lands are arguments; the bytes of the halt
    file are state. Left out: clock readers,
    sockets, TLS, HTTP, venue message layouts and signing, which are I/O or
    third-party primitives; the volatility and regime detectors and the
    coded strategies, members that decide orders above the laws
    proved here; the TWAP-lock pricing, floating point; the Pine tool-chain,
    the backtests, the metrics and the user interfaces, which never touch an
    order. *)

From stdpp Require Export base tactics list numbers option sets.
From Stdlib Require Export ZArith Lia.

Declare Scope machine_scope.
Delimit Scope machine_scope with mach.

#[global] Open Scope Z_scope.

(** ** Results of fallible operations ([Result<T, E>]) *)

Inductive result (A E : Type) : Type :=
| Ok (a : A)
| Err (e : E).
Arguments Ok {A E} a.
Arguments Err {A E} e.

Definition is_ok {A E} (r : result A E) : bool :=
  match r with Ok _ => true | Err _ => false end.

(** ** Machine integers

    A [w]-bit integer is a [Z]; the operations spell out what the release
    build does: [wrapping_*] and the plain operators reduce modulo the
    width (the crates build with [overflow-checks = false]),
    [saturating_*] clamp. *)

Definition i64_min : Z := -9223372036854775808.
Definition i64_max : Z := 9223372036854775807.
Definition u64_max : Z := 18446744073709551615.
Definition u32_max : Z := 4294967295.
Definition u16_max : Z := 65535.
Definition i128_min : Z := -170141183460469231731687303715884105728.
Definition i128_max : Z := 170141183460469231731687303715884105727.

Abbreviation in_i64 z := (i64_min <= z <= i64_max).
Abbreviation in_u64 z := (0 <= z <= u64_max).
Abbreviation in_u32 z := (0 <= z <= u32_max).

(** [Ord::clamp] to an interval. *)
Definition clamp (lo hi z : Z) : Z := Z.max lo (Z.min hi z).

Definition sat_i64 (z : Z) : Z := clamp i64_min i64_max z.
Definition sat_u64 (z : Z) : Z := clamp 0 u64_max z.
Definition sat_i128 (z : Z) : Z := clamp i128_min i128_max z.
Definition sat_u32 (z : Z) : Z := clamp 0 u32_max z.

Notation "a +| b" := (sat_i64 (a + b)) (at level 50, left associativity) : machine_scope.
Notation "a -| b" := (sat_i64 (a - b)) (at level 50, left associativity) : machine_scope.

(** [i64::saturating_abs]: the magnitude of [i64::MIN] is [i64::MAX]. *)
Definition sat_abs (z : Z) : Z := sat_i64 (Z.abs z).

Definition wrap_u64 (z : Z) : Z := z mod 18446744073709551616.
Definition wrap_u32 (z : Z) : Z := z mod 4294967296.
Definition wrap_u16 (z : Z) : Z := z mod 65536.
Definition wrap_i32 (z : Z) : Z := (z + 2147483648) mod 4294967296 - 2147483648.
Definition wrap_i64 (z : Z) : Z :=
  (z + 9223372036854775808) mod 18446744073709551616 - 9223372036854775808.
Definition wrap_i128 (z : Z) : Z :=
  (z + 170141183460469231731687303715884105728) mod 340282366920938463463374607431768211456
  - 170141183460469231731687303715884105728.

(** Truncating division, as Rust's [/] on signed integers. *)
Notation "a /t b" := (Z.quot a b) (at level 40, left associativity) : machine_scope.

(** The bounds a proof about machine integers unfolds before [lia]. *)
Ltac unfold_int :=
  unfold sat_abs, sat_i64, sat_u64, sat_i128, sat_u32, clamp, wrap_u64,
    wrap_u32, wrap_u16, wrap_i64, i64_min, i64_max, u64_max, u32_max, u16_max,
    i128_min, i128_max in *.
Ltac int_lia := unfold_int; Z.to_euclidean_division_equations; lia.
Ltac ilia := unfold_int; lia.

Create HintDb machine.

Lemma sat_i64_range z : in_i64 (sat_i64 z).
Proof. ilia. Qed.

Lemma sat_i64_id z : in_i64 z -> sat_i64 z = z.
Proof. ilia. Qed.

Lemma sat_i64_mono a b : a <= b -> sat_i64 a <= sat_i64 b.
Proof. ilia. Qed.

Lemma sat_abs_nonneg z : 0 <= sat_abs z.
Proof. ilia. Qed.

Lemma wrap_u64_range z : in_u64 (wrap_u64 z).
Proof. int_lia. Qed.

Lemma wrap_u64_id z : in_u64 z -> wrap_u64 z = z.
Proof. int_lia. Qed.

Lemma wrap_i64_id z : in_i64 z -> wrap_i64 z = z.
Proof. intros H. unfold wrap_i64, i64_min, i64_max in *. rewrite Z.mod_small; lia. Qed.

Lemma wrap_i128_id z : i128_min <= z <= i128_max -> wrap_i128 z = z.
Proof. intros H. unfold wrap_i128, i128_min, i128_max in *. rewrite Z.mod_small; lia. Qed.

Lemma wrap_u16_id z : 0 <= z <= u16_max -> wrap_u16 z = z.
Proof. intros H. unfold wrap_u16, u16_max in *. apply Z.mod_small. lia. Qed.

Lemma wrap_u64_add_l a b : wrap_u64 (wrap_u64 a + b) = wrap_u64 (a + b).
Proof. unfold wrap_u64. by rewrite Zplus_mod_idemp_l. Qed.

Lemma wrap_u64_add_r a b : wrap_u64 (a + wrap_u64 b) = wrap_u64 (a + b).
Proof. unfold wrap_u64. by rewrite Zplus_mod_idemp_r. Qed.

Lemma wrap_u64_sub a b : wrap_u64 (wrap_u64 a - wrap_u64 b) = wrap_u64 (a - b).
Proof. unfold wrap_u64. by rewrite <- Zminus_mod. Qed.

#[export] Hint Resolve sat_i64_range sat_abs_nonneg wrap_u64_range : machine.

(** A field shifted above a smaller one is their sum. *)
Lemma lor_shiftl a b n : 0 <= n -> 0 <= b < 2 ^ n -> Z.lor (Z.shiftl a n) b = a * 2 ^ n + b.
Proof.
  intros Hn Hb. rewrite <- Z.shiftl_mul_pow2 by done. symmetry. apply Z.add_nocarry_lor.
  apply Z.bits_inj'. intros i Hi. rewrite Z.land_spec, Z.bits_0.
  destruct (Z.ltb_spec i n); [by rewrite Z.shiftl_spec_low by lia|].
  destruct (Z.eq_dec b 0) as [->|]; [by rewrite Z.bits_0, andb_false_r|].
  rewrite (Z.bits_above_log2 b), andb_false_r; [done|lia|].
  apply Z.log2_lt_pow2; [lia|]. apply Z.lt_le_trans with (2 ^ n); [lia|].
  apply Z.pow_le_mono_r; lia.
Qed.

(** ** Newton's step for the integer root

    It never falls below the root, and halves the distance to it. *)

Lemma newton_above v x : 0 < x -> 0 <= v -> Z.sqrt v <= Z.shiftr (x + Z.quot v x) 1.
Proof.
  intros Hx Hv. rewrite Z.quot_div_nonneg by lia. rewrite Z.shiftr_div_pow2 by lia. change (2 ^ 1) with 2.
  apply Z.div_le_lower_bound; [lia|]. pose proof (Z.sqrt_spec v Hv) as [S _]. set (s := Z.sqrt v) in *.
  pose proof (Z.sqrt_nonneg v) as Hs. fold s in Hs.
  destruct (Z.le_gt_cases (2 * s) x) as [|G]; [pose proof (Z.div_pos v x Hv Hx); lia|].
  assert (2 * s - x <= v / x); [|lia]. apply Z.div_le_lower_bound; [done|]. pose proof (Z.square_nonneg (s - x)). lia.
Qed.

Lemma newton_below v x : 0 <= v -> Z.sqrt v < x -> Z.shiftr (x + Z.quot v x) 1 - Z.sqrt v <= (x - Z.sqrt v) / 2.
Proof.
  intros Hv Hx. pose proof (Z.sqrt_nonneg v) as Hs. rewrite Z.quot_div_nonneg by lia.
  rewrite Z.shiftr_div_pow2 by lia. change (2 ^ 1) with 2. pose proof (Z.sqrt_spec v Hv) as [_ S].
  set (s := Z.sqrt v) in *. assert (v / x < s + 1) by (apply Z.div_lt_upper_bound; nia).
  assert ((x + v / x) / 2 <= (x + s) / 2) by (apply Z.div_le_mono; lia).
  replace (x + s) with (x - s + s * 2) in * by lia. rewrite Z.div_add in * by lia. lia.
Qed.

(** ** Counting and summing over arrays *)

Section Sums.
Context {A : Type}.
Local Open Scope nat_scope.

(** How many elements pass a test. *)
Fixpoint countb (f : A -> bool) (l : list A) : nat :=
  match l with
  | [] => 0
  | x :: l' => (if f x then 1 else 0) + countb f l'
  end.

Fixpoint sumZ (f : A -> Z) (l : list A) : Z :=
  match l with
  | [] => 0%Z
  | x :: l' => (f x + sumZ f l')%Z
  end.

Lemma countb_app f l1 l2 : countb f (l1 ++ l2) = countb f l1 + countb f l2.
Proof. induction l1; simpl; lia. Qed.

Lemma sumZ_app f l1 l2 : sumZ f (l1 ++ l2) = (sumZ f l1 + sumZ f l2)%Z.
Proof. induction l1; simpl; lia. Qed.

Lemma countb_le f l : countb f l <= length l.
Proof. induction l as [|x l IH]; simpl; [lia|]. destruct (f x); lia. Qed.

Lemma countb_all f l : (forall x, x ∈ l -> f x = true) -> countb f l = length l.
Proof.
  induction l as [|x l IH]; intros H; [done|]. simpl. rewrite H by by left. rewrite IH; [done|]. intros y Hy. apply H. by right.
Qed.

Lemma sumZ_ext f g l : (forall x, x ∈ l -> f x = g x) -> sumZ f l = sumZ g l.
Proof.
  induction l as [|x l IH]; intros H; simpl; [done|].
  rewrite (H x), IH; [done|set_solver..].
Qed.

Lemma countb_ext f g l : (forall x, x ∈ l -> f x = g x) -> countb f l = countb g l.
Proof.
  induction l as [|x l IH]; intros H; simpl; [done|].
  rewrite (H x), IH; [done|set_solver..].
Qed.

Lemma sumZ_nonneg f l : (forall x, x ∈ l -> 0 <= f x)%Z -> (0 <= sumZ f l)%Z.
Proof.
  induction l as [|x l IH]; intros H; simpl; [lia|].
  pose proof (H x ltac:(set_solver)). specialize (IH ltac:(set_solver)). lia.
Qed.

Lemma sumZ_le f l b :
  (forall x, x ∈ l -> f x <= b)%Z -> (sumZ f l <= Z.of_nat (length l) * b)%Z.
Proof.
  induction l as [|x l IH]; intros H; simpl length; simpl sumZ; [lia|].
  pose proof (H x ltac:(set_solver)). specialize (IH ltac:(set_solver)). lia.
Qed.

(** Replacing one element moves a sum by the difference. *)
Lemma sumZ_insert f l i x y :
  l !! i = Some x -> sumZ f (<[i:=y]> l) = (sumZ f l - f x + f y)%Z.
Proof.
  revert i. induction l as [|z l IH]; intros [|i] H; simplify_eq/=; [lia|].
  rewrite (IH i H). lia.
Qed.

Lemma countb_insert f l i x y :
  l !! i = Some x ->
  countb f (<[i:=y]> l) + (if f x then 1 else 0) = countb f l + (if f y then 1 else 0).
Proof.
  revert i. induction l as [|z l IH]; intros [|i] H; simplify_eq/=; [lia|].
  pose proof (IH i H). lia.
Qed.

Lemma sumZ_lookup_le f l i x :
  (forall x, x ∈ l -> 0 <= f x)%Z -> l !! i = Some x -> (f x <= sumZ f l)%Z.
Proof.
  revert i. induction l as [|z l IH]; intros [|i] Hp H; simplify_eq/=.
  - pose proof (sumZ_nonneg f l ltac:(set_solver)). lia.
  - pose proof (IH i ltac:(set_solver) H). pose proof (Hp z ltac:(set_solver)). lia.
Qed.

End Sums.

(** The index of the first element passing a test: a [while] scan that breaks. *)
Fixpoint first_index {A} (f : A -> bool) (l : list A) : option nat :=
  match l with
  | [] => None
  | x :: l' => if f x then Some 0%nat else S <$> first_index f l'
  end.

Lemma first_index_Some {A} (f : A -> bool) l i :
  first_index f l = Some i ->
  exists x, l !! i = Some x /\ f x = true /\ forall j y, (j < i)%nat -> l !! j = Some y -> f y = false.
Proof.
  revert i. induction l as [|x l IH]; intros i H; simplify_eq/=.
  destruct (f x) eqn:E; simplify_eq/=.
  - exists x. split_and!; [done..|]. intros j y Hj. lia.
  - destruct (first_index f l) as [k|]; simplify_eq/=. destruct (IH k eq_refl) as (z & ? & ? & Hlt).
    exists z. split_and!; [done..|]. intros [|j] y Hj Hy; simplify_eq/=; [done|]. apply (Hlt j); [lia|done].
Qed.

Lemma first_index_only {A} (f : A -> bool) l i x :
  l !! i = Some x -> f x = true -> (forall j y, j <> i -> l !! j = Some y -> f y = false) ->
  first_index f l = Some i.
Proof.
  revert i. induction l as [|y l IH]; intros [|i] Hx Hf Hu; simplify_eq/=; [by rewrite Hf|].
  rewrite (Hu 0%nat y) by done. rewrite (IH i); [done..|]. intros j z Hj. apply (Hu (S j)). lia.
Qed.

Lemma first_index_None {A} (f : A -> bool) l : first_index f l = None <-> forall x, x ∈ l -> f x = false.
Proof.
  induction l as [|x l IH]; simpl; [set_solver|]. destruct (f x) eqn:E; simpl.
  - split; [done|]. intros H. rewrite (H x) in E; [done|left].
  - destruct (first_index f l); simpl.
    + split; [done|]. intros H. exfalso. assert (Some n = None) by (apply IH; set_solver). done.
    + split; [|done]. intros _ y [->|Hy]%elem_of_cons; [done|]. by apply IH.
Qed.

Lemma forallb_lookup {A} (f : A -> bool) l i x : forallb f l = true -> l !! i = Some x -> f x = true.
Proof.
  revert i. induction l as [|y l IH]; intros [|i] H Hx; simplify_eq/=; apply andb_true_iff in H as [H1 H2]; [done|].
  by apply (IH i).
Qed.

(** A [[i64; N]] read and written at an index the code has checked. *)
Definition get (l : list Z) (i : nat) : Z := default 0%Z (l !! i).
Definition upd (f : Z -> Z) (i : nat) (l : list Z) : list Z := alter f i l.

Lemma get_upd f i l : (i < length l)%nat -> get (upd f i l) i = f (get l i).
Proof.
  intros H. unfold get, upd. rewrite list_lookup_alter_eq. destruct (lookup_lt_is_Some_2 l i H) as [x Hx].
  by rewrite Hx.
Qed.

Lemma get_upd_ne f i j l : i <> j -> get (upd f i l) j = get l j.
Proof. intros H. unfold get, upd. by rewrite list_lookup_alter_ne. Qed.

Lemma get_insert_eq l i x : (i < length l)%nat -> get (<[i := x]> l) i = x.
Proof. intros Hi. unfold get. by rewrite list_lookup_insert_eq. Qed.

Lemma get_insert_ne l i j x : i <> j -> get (<[i := x]> l) j = get l j.
Proof. intros Hi. unfold get. by rewrite list_lookup_insert_ne. Qed.

Lemma get_lookup (l : list Z) i : (i < length l)%nat -> l !! i = Some (get l i).
Proof. intros Hi. unfold get. by destruct (lookup_lt_is_Some_2 l i Hi) as [x ->]. Qed.

Lemma get_repeat x n i : (i < n)%nat -> get (replicate n x) i = x.
Proof. intros H. unfold get. by rewrite lookup_replicate_2. Qed.

Lemma length_upd f i l : length (upd f i l) = length l.
Proof. apply length_alter. Qed.

(** [orders[i].field = ..] rewrites the one element it finds. *)
Lemma alter_as_insert {A} (f : A -> A) (l : list A) i x :
  l !! i = Some x -> alter f i l = <[i := f x]> l.
Proof.
  intros H. rewrite list_insert_alter. apply list_alter_ext; [|done]. intros y Hy. congruence.
Qed.

Lemma filter_all {A} (P : A -> Prop) `{forall x, Decision (P x)} (l : list A) :
  Forall P l -> filter P l = l.
Proof.
  induction 1 as [|x l Hx _ IH]; [done|]. rewrite filter_cons_True by done. by rewrite IH.
Qed.

(** What every step of a fold keeps, the fold keeps. *)
Lemma foldl_keeps {A B} (P : A -> Prop) (f : A -> B -> A) (l : list B) (a : A) :
  (forall a x, x ∈ l -> P a -> P (f a x)) -> P a -> P (foldl f a l).
Proof.
  revert a. induction l as [|x l IH]; intros a Hf Ha; cbn [foldl]; [done|].
  apply IH; [|apply Hf; [left|done]]. intros b y Hy. apply Hf. by right.
Qed.

(** Case analysis on every test of a goal, innermost first. *)
Ltac case_ifs :=
  repeat match goal with
  | |- context [if ?b then _ else _] =>
      lazymatch b with
      | context [if _ then _ else _] => fail
      | _ => destruct b eqn:?
      end
  end.
