(* ===== verification/CoreTypes.v ===== *)
(** * The shared PODs and codecs of [crates/core-types]

    [Side], the namespaced [SymbolId], the fields of [Tick], [Fill] and
    [OptSummary] the modelled components read, the order-event vocabulary
    and the two pricing helpers the risk ledger shares with the
    reconcilers. Prices and quantities are [i64] fixed point ([x1e6]). *)

From S2P Require Import Prelude.

(** ** Sides *)

Inductive Side : Type := Bid | Ask.

#[global] Instance side_eq_dec : EqDecision Side.
Proof. solve_decision. Defined.

Definition side_eqb (a b : Side) : bool :=
  match a, b with Bid, Bid | Ask, Ask => true | _, _ => false end.

Lemma side_eqb_eq a b : side_eqb a b = true <-> a = b.
Proof. destruct a, b; simpl; split; congruence. Qed.

(** ** Symbols: venue byte over a 24-bit ordinal *)

Definition SYMBOL_ID_NONE : Z := 4294967295.
Definition SYMBOL_VENUE_SHIFT : Z := 24.
Definition SYMBOL_ORDINAL_MASK : Z := 16777215.

Definition make_symbol_id (venue ordinal : Z) : Z :=
  Z.lor (Z.shiftl venue SYMBOL_VENUE_SHIFT) (Z.land ordinal SYMBOL_ORDINAL_MASK).

Definition symbol_venue_byte (sym : Z) : Z :=
  Z.land (Z.shiftr sym SYMBOL_VENUE_SHIFT) 255.

Definition symbol_ordinal (sym : Z) : Z := Z.land sym SYMBOL_ORDINAL_MASK.

(** The venue byte mixed into the low bits. *)
Definition symbol_bucket_mix (sym : Z) : Z := Z.lxor sym (Z.shiftr sym SYMBOL_VENUE_SHIFT).

(** [VenueId] as its raw byte; the queue law's venue is Hyperliquid. *)
Definition VENUE_COUNT : nat := 11.
Definition VENUE_BINANCE : Z := 1.
Definition VENUE_OKX : Z := 2.
Definition VENUE_DERIBIT : Z := 3.
Definition VENUE_HYPERLIQUID : Z := 4.
Definition VENUE_BYBIT : Z := 6.
Definition VENUE_MEXC : Z := 7.

(** The funding-print period of a venue's byte, seconds; 0 for none. *)
Definition funding_period_s (venue : Z) : Z :=
  if existsb (Z.eqb venue) [VENUE_BINANCE; VENUE_OKX; VENUE_BYBIT; VENUE_MEXC] then 28800
  else if venue =? VENUE_HYPERLIQUID then 3600 else 0.

Definition funding_print_divisor (venue : Z) : Z := if venue =? VENUE_DERIBIT then 8 else 1.

(** ** Ticks and fills *)

Definition TICK_FLAG_STALE : Z := 1.

Record Tick := mkTick {
  tk_sym : Z;
  tk_venue_seq : Z;
  tk_bid_px : Z;
  tk_bid_qty : Z;
  tk_ask_px : Z;
  tk_ask_qty : Z;
  tk_flags : Z
}.

Definition is_stale (t : Tick) : bool :=
  negb (Z.land (tk_flags t) TICK_FLAG_STALE =? 0).

Definition FILL_ORIGIN_VENUE : Z := 0.
Definition FILL_ORIGIN_PAPER : Z := 1.
Definition FILL_FLAG_SETTLEMENT : Z := 1.
Definition FILL_FLAG_ADOPTED : Z := 2.

Record Fill := mkFill {
  fl_ts_ns : Z;
  fl_sym : Z;
  fl_side : Side;
  fl_strategy_id : nat;
  fl_origin : Z;
  fl_flags : Z;
  fl_px : Z;
  fl_qty : Z;
  fl_order_id : Z
}.

Definition is_settlement (f : Fill) : bool :=
  negb (Z.land (fl_flags f) FILL_FLAG_SETTLEMENT =? 0).

Definition is_adopted (f : Fill) : bool :=
  negb (Z.land (fl_flags f) FILL_FLAG_ADOPTED =? 0).

Definition OPT_SUMMARY_FLAG_MARK_PX : Z := 1.

(** The fields of an options summary the modelled code reads. *)
Record OptSummary := mkOptSummary {
  os_ts_ns : Z;
  os_sym : Z;
  os_flags : Z;
  os_mark_px_1e9 : Z;
  os_mark_iv_1e9 : Z;
  os_underlying_px_1e9 : Z
}.

(** ** Order events *)

Definition ORDER_EVENT_RESTING : Z := 1.
Definition ORDER_EVENT_REJECTED : Z := 2.
Definition ORDER_EVENT_CANCELED : Z := 3.
Definition ORDER_EVENT_FILLED : Z := 4.

Definition ORDER_EVENT_REASON_NONE : Z := 0.
Definition ORDER_EVENT_REASON_CANCEL_REQUESTED : Z := 1.
Definition ORDER_EVENT_REASON_REPLACED : Z := 2.
Definition ORDER_EVENT_REASON_EXPIRED : Z := 3.
Definition ORDER_EVENT_REASON_BAD_ALO_PX : Z := 4.
Definition ORDER_EVENT_REASON_OTHER : Z := 255.

Definition ORDER_FLAG_POST_ONLY : Z := 2.

(** ** Venue events *)

Definition CHANNEL_MARK : Z := 2.
Definition CHANNEL_FUNDING : Z := 3.
Definition CHANNEL_ASSET_CTX : Z := 5.
Definition CHANNEL_INSTRUMENT_ROLL : Z := 13.

Record ChannelEvent := mkEvent {
  ev_ts_ns : Z;
  ev_sym : Z;
  ev_venue : Z;
  ev_channel : Z;
  ev_venue_seq : Z;
  ev_venue_time_ms : Z;
  ev_v0 : Z;
  ev_v1 : Z
}.

(** *** The roll [venue_seq] codec *)

Definition ROLL_KIND_CREATED : Z := 0.
Definition ROLL_KIND_SETTLED : Z := 1.

(** The arguments are a [u32], a [u32], a [usize] and a [bool]. *)
Definition pack_roll_seq (outcome twap_s family_idx : Z) (settled : bool) : Z :=
  Z.lor (Z.lor (Z.lor outcome (Z.shiftl (Z.land twap_s 65535) 32)) (Z.shiftl (Z.land family_idx 255) 48))
        (Z.shiftl (if settled then 1 else 0) 56).

Definition unpack_roll_seq (seq : Z) : Z * Z * Z * bool :=
  (Z.land seq 4294967295, Z.land (Z.shiftr seq 32) 65535, Z.land (Z.shiftr seq 48) 255,
   negb (Z.land (Z.shiftr seq 56) 1 =? 0)).

Definition roll_kind (seq : Z) : Z := Z.land (Z.shiftr seq 56) 255.

Definition roll_kind_strict (seq : Z) : option bool :=
  if roll_kind seq =? ROLL_KIND_SETTLED then Some true
  else if roll_kind seq =? ROLL_KIND_CREATED then Some false
  else None.

(** ** Execution health *)

Definition EXEC_BLOCKED_HALTED : Z := 1.
Definition EXEC_BLOCKED_OFF : Z := 2.
Definition EXEC_BLOCKED_UNSEEDED : Z := 4.
Definition EXEC_BLOCKED_HELD : Z := 32.

Record ExecHealth := mkHealth { eh_blocked : Z; eh_congestion : Z; eh_rtt_ms : Z }.

Definition HEALTHY : ExecHealth := mkHealth 0 0 0.

Definition worst (a b : ExecHealth) : ExecHealth :=
  mkHealth (Z.lor (eh_blocked a) (eh_blocked b)) (Z.max (eh_congestion a) (eh_congestion b))
    (Z.max (eh_rtt_ms a) (eh_rtt_ms b)).

(** ** Pricing helpers *)

Section Pricing.
Local Open Scope machine_scope.

(** HIP-4 exposure of one outcome: [|yes - no|], saturating. *)
Definition net_exposure_1e8 (yes no : Z) : Z := sat_abs (yes -| no).

(** An option's no-arbitrage band per contract. The intermediate values are
    [i128]; for [i64] arguments none of them overflows. *)
Definition option_mark_band (index strike unit : Z) (call : bool) : Z * Z :=
  let intrinsic := if call then index - strike else strike - index in
  let intrinsic := if 0 <? intrinsic then intrinsic else 0 in
  ((intrinsic - index /t 100) * unit /t 1000000,
   (if call then index else strike) * unit /t 1000000).

End Pricing.

Lemma net_exposure_nonneg y n : 0 <= net_exposure_1e8 y n.
Proof. apply sat_abs_nonneg. Qed.

Lemma net_exposure_le_max y n : net_exposure_1e8 y n <= i64_max.
Proof. unfold net_exposure_1e8. ilia. Qed.

#[export] Hint Resolve net_exposure_nonneg net_exposure_le_max : machine.

Lemma symbol_ordinal_range sym : 0 <= sym -> 0 <= symbol_ordinal sym <= SYMBOL_ORDINAL_MASK.
Proof.
  intros. unfold symbol_ordinal, SYMBOL_ORDINAL_MASK. change 16777215 with (Z.ones 24).
  rewrite Z.land_ones by lia. change (Z.ones 24) with 16777215. change (2 ^ 24) with 16777216.
  pose proof (Z.mod_pos_bound sym 16777216 ltac:(lia)). lia.
Qed.

(** The ordinal field survives composition with any venue byte. *)
Lemma symbol_ordinal_make v o :
  0 <= v -> 0 <= o <= SYMBOL_ORDINAL_MASK -> symbol_ordinal (make_symbol_id v o) = o.
Proof.
  intros Hv Ho. unfold symbol_ordinal, make_symbol_id, SYMBOL_ORDINAL_MASK, SYMBOL_VENUE_SHIFT in *.
  rewrite Z.land_lor_distr_l, <- Z.land_assoc, Z.land_diag.
  change 16777215 with (Z.ones 24). rewrite !Z.land_ones, Z.shiftl_mul_pow2 by lia.
  change (2 ^ 24) with 16777216.
  rewrite Z.mod_mul by lia. rewrite Z.lor_0_l. apply Z.mod_small. lia.
Qed.
