(* ===== verification/Clock.v ===== *)
(** * [crates/core-time]: the feed clock, the wall anchor, bar grids, hot windows

    [FeedClock] judges each venue message against the least-delayed message
    of its connection; [WallAnchor] maps the monotonic clock to wall time;
    [BarClock] lays a UTC bar grid over it; [HotWindow] is the recurring
    window in which a thread never parks. All of it is integer code: [u64]
    stamps wrap where the source says [wrapping_*], [i64] milliseconds
    saturate. *)

From S2P Require Import Prelude.

Local Open Scope machine_scope.

(** ** FeedClock *)

Record FeedClock := mkFeedClock {
  off_ms : Z;
  decay_at_ms : Z;
  stale_after_ms : Z;
  delay_ema_x16 : Z
}.

Record FeedJudgement := mkFeedJudgement { delay_ms : Z; stale : bool }.

Definition UNLEARNED : Z := i64_min.
Definition DECAY_MS_PER_MIN : Z := 1.
Definition MS_PER_MIN : Z := 60000.
Definition EMA_SHIFT : Z := 4.

Definition FeedClock_new (stale_after : Z) : FeedClock :=
  mkFeedClock UNLEARNED 0 stale_after 0.

Definition FeedClock_reset (c : FeedClock) : FeedClock :=
  mkFeedClock UNLEARNED 0 (stale_after_ms c) (delay_ema_x16 c).

Definition learned (c : FeedClock) : bool := negb (off_ms c =? UNLEARNED).

Definition delay_ema_ms (c : FeedClock) : Z := wrap_u32 (Z.shiftr (delay_ema_x16 c) EMA_SHIFT).

(** The [as i64] of a venue stamp, clamped at [i64::MAX]. *)
Definition venue_ms_of (venue_time_ms : Z) : Z :=
  if i64_max <? venue_time_ms then i64_max else venue_time_ms.

(** [venue_ms.saturating_sub(mono_ms)]. *)
Definition raw_offset (venue_time_ms mono_ns : Z) : Z :=
  venue_ms_of venue_time_ms -| mono_ns / 1000000.

(** The offset after one stamped message: learn, or decay then take the max. *)
Definition learn (c : FeedClock) (raw mono_ms : Z) : Z * Z :=
  if off_ms c =? UNLEARNED then (raw, mono_ms)
  else
    let elapsed_min := (mono_ms -| decay_at_ms c) /t MS_PER_MIN in
    let '(off, at_ms) :=
      if 0 <? elapsed_min
      then (off_ms c -| elapsed_min * DECAY_MS_PER_MIN,
            decay_at_ms c +| elapsed_min * MS_PER_MIN)
      else (off_ms c, decay_at_ms c) in
    (if off <? raw then raw else off, at_ms).

Definition judge (c : FeedClock) (venue_time_ms mono_ns : Z) : FeedClock * FeedJudgement :=
  if venue_time_ms =? 0 then (c, mkFeedJudgement 0 false)
  else
    let mono_ms := mono_ns / 1000000 in
    let raw := raw_offset venue_time_ms mono_ns in
    let '(off, at_ms) := learn c raw mono_ms in
    let delay := off -| raw in
    let ema := delay_ema_x16 c +| (delay - Z.shiftr (delay_ema_x16 c) EMA_SHIFT) in
    (mkFeedClock off at_ms (stale_after_ms c) ema,
     mkFeedJudgement (if u32_max <? delay then u32_max else delay)
       ((0 <? stale_after_ms c) && (stale_after_ms c <? delay))).

(** A connection's messages, judged in arrival order. *)
Fixpoint judge_all (c : FeedClock) (msgs : list (Z * Z)) : FeedClock * list FeedJudgement :=
  match msgs with
  | [] => (c, [])
  | (v, m) :: rest =>
      let '(c1, j) := judge c v m in
      let '(c2, js) := judge_all c1 rest in
      (c2, j :: js)
  end.

(** ** WallAnchor and BarClock *)

Record WallAnchor := mkWallAnchor { mono_ns : Z; wall_ns : Z }.

Definition wall_of (a : WallAnchor) (m : Z) : Z :=
  wrap_u64 (wall_ns a + wrap_u64 (m - mono_ns a)).

Definition mono_of (a : WallAnchor) (w : Z) : Z :=
  wrap_u64 (mono_ns a + wrap_u64 (w - wall_ns a)).

Record BarClock := mkBarClock { anchor : WallAnchor; tf_ns : Z; delta_ns : Z }.

Definition bar_id (b : BarClock) (m : Z) : Z := wall_of (anchor b) m / tf_ns b.
Definition open_wall (b : BarClock) (id : Z) : Z := wrap_u64 (id * tf_ns b).
Definition open_mono (b : BarClock) (id : Z) : Z := mono_of (anchor b) (open_wall b id).
Definition decision_mono (b : BarClock) (id : Z) : Z := wrap_u64 (open_mono b id + delta_ns b).
Definition close_mono (b : BarClock) (id : Z) : Z := wrap_u64 (open_mono b id + tf_ns b).
Definition ttl_to_close (b : BarClock) (id m : Z) : Z := sat_u64 (close_mono b id - m).

(** ** HotWindow *)

Record HotWindow := mkHotWindow { period_ms : Z; open_ms : Z; close_ms : Z }.

Definition HotWindow_OFF : HotWindow := mkHotWindow 0 0 0.

Definition HotWindow_new (period open close : Z) : option HotWindow :=
  if (period =? 0) || (u32_max <? period) || (period <? open) || (u16_max <? open)
     || (open <=? close)
  then None
  else Some (mkHotWindow period open close).

Definition hw_contains (w : HotWindow) (wall_ms : Z) : bool :=
  if period_ms w =? 0 then false
  else
    let r := wall_ms mod period_ms w in
    (period_ms w - open_ms w <=? r) && (r <? period_ms w - close_ms w).

Definition is_off (w : HotWindow) : bool := period_ms w =? 0.

Definition duty_ppm (w : HotWindow) : Z :=
  if period_ms w =? 0 then 0
  else (open_ms w - close_ms w) * 1000000 / period_ms w.

Definition to_word (w : HotWindow) : Z :=
  Z.lor (Z.lor (Z.shiftl (period_ms w) 32) (Z.shiftl (open_ms w) 16)) (close_ms w).

Definition from_word (w : Z) : HotWindow :=
  mkHotWindow (wrap_u32 (Z.shiftr w 32)) (wrap_u16 (Z.shiftr w 16)) (wrap_u16 w).

(** ** The feed clock's closed form *)

(** Whole minutes from the connection's first stamp [t0] to [t] (ms). *)
Definition minute (t0 t : Z) : Z := (t - t0) / MS_PER_MIN.

Definition msg_raw (m : Z * Z) : Z := raw_offset m.1 m.2.
Definition msg_ms (m : Z * Z) : Z := m.2 / 1000000.

(** One message's offset as it counts at instant [now]: what it showed when
    it arrived, less one millisecond per minute since. *)
Definition aged (t0 now : Z) (m : Z * Z) : Z :=
  msg_raw m - DECAY_MS_PER_MIN * (minute t0 now - minute t0 (msg_ms m)).

(** The best (largest) aged offset of a non-empty history. *)
Definition best_offset (t0 now : Z) (first : Z * Z) (rest : list (Z * Z)) : Z :=
  foldr (fun m acc => Z.max (aged t0 now m) acc) (aged t0 now first) rest.

(** A stamped message: both stamps are [u64] and the venue's is known. *)
Definition stamped (m : Z * Z) : Prop := 1 <= m.1 <= u64_max /\ in_u64 m.2.

(** The monotonic clock never runs backwards along a history. *)
Fixpoint mono_from (t : Z) (msgs : list (Z * Z)) : Prop :=
  match msgs with
  | [] => True
  | m :: rest => t <= m.2 /\ mono_from m.2 rest
  end.

Definition last_mono (t : Z) (msgs : list (Z * Z)) : Z :=
  foldl (fun _ m => m.2) t msgs.

Definition run (c : FeedClock) (msgs : list (Z * Z)) : FeedClock :=
  foldl (fun c m => (judge c m.1 m.2).1) c msgs.

Lemma msg_raw_range m : stamped m -> -20000000000000 <= msg_raw m <= i64_max.
Proof.
  intros [[] []]. unfold msg_raw, raw_offset, venue_ms_of.
  destruct (Z.ltb_spec i64_max m.1); int_lia.
Qed.

Lemma msg_ms_range m : stamped m -> 0 <= msg_ms m <= 20000000000000.
Proof. intros [_ []]. unfold msg_ms. int_lia. Qed.

Lemma mono_from_snoc t msgs m :
  mono_from t (msgs ++ [m]) <-> mono_from t msgs /\ last_mono t msgs <= m.2.
Proof.
  unfold last_mono. revert t. induction msgs as [|x xs IH]; intros t; simpl; [naive_solver|].
  rewrite IH. tauto.
Qed.

Lemma last_mono_ge t msgs : mono_from t msgs -> t <= last_mono t msgs.
Proof.
  unfold last_mono. revert t. induction msgs as [|x xs IH]; simpl; [lia|].
  intros t [? H]. specialize (IH _ H). lia.
Qed.

Lemma last_mono_in_u64 t msgs : in_u64 t -> Forall stamped msgs -> in_u64 (last_mono t msgs).
Proof.
  unfold last_mono. revert t. induction msgs as [|x xs IH]; simpl; [done|].
  intros t Ht H. apply Forall_cons_1 in H as [[_ ?] ?]. auto.
Qed.

Lemma minute_mono t0 a b : a <= b -> minute t0 a <= minute t0 b.
Proof. intros. unfold minute, MS_PER_MIN. apply Z.div_le_mono; lia. Qed.

Lemma aged_shift t0 a b m : aged t0 b m = aged t0 a m - (minute t0 b - minute t0 a).
Proof. unfold aged, DECAY_MS_PER_MIN. lia. Qed.

Lemma aged_now t0 m : aged t0 (msg_ms m) m = msg_raw m.
Proof. unfold aged. lia. Qed.

Lemma best_offset_shift t0 a b f rest :
  best_offset t0 b f rest = best_offset t0 a f rest - (minute t0 b - minute t0 a).
Proof.
  unfold best_offset. induction rest as [|x xs IH]; simpl; rewrite (aged_shift t0 a b); lia.
Qed.

Lemma best_offset_snoc t0 now f rest m :
  best_offset t0 now f (rest ++ [m]) = Z.max (aged t0 now m) (best_offset t0 now f rest).
Proof. unfold best_offset. induction rest as [|x xs IH]; simpl; lia. Qed.

Lemma best_offset_bounds t0 now f rest :
  stamped f -> Forall stamped rest -> t0 = msg_ms f ->
  Forall (fun m => minute t0 (msg_ms m) <= minute t0 now) (f :: rest) ->
  aged t0 now f <= best_offset t0 now f rest <= i64_max.
Proof.
  intros Hf Hr -> Hm. apply Forall_cons_1 in Hm as [Hmf Hmr].
  assert (forall m, stamped m -> minute (msg_ms f) (msg_ms m) <= minute (msg_ms f) now ->
    aged (msg_ms f) now m <= i64_max) as Hle.
  { intros m Hs ?. pose proof (msg_raw_range m Hs). unfold aged, DECAY_MS_PER_MIN. lia. }
  unfold best_offset. induction rest as [|x xs IH]; simpl.
  - split; [lia|auto].
  - apply Forall_cons_1 in Hr as [? ?]. apply Forall_cons_1 in Hmr as [? ?].
    specialize (IH ltac:(done) ltac:(done)).
    pose proof (Hle x). naive_solver lia.
Qed.

(** The learned state after a non-empty history that starts at [f]. *)
Definition at_history (f : Z * Z) (rest : list (Z * Z)) (c : FeedClock) : Prop :=
  let t0 := msg_ms f in
  let now := last_mono f.2 rest / 1000000 in
  off_ms c = best_offset t0 now f rest /\
  decay_at_ms c = t0 + MS_PER_MIN * minute t0 now.

Lemma run_snoc c msgs m : run c (msgs ++ [m]) = (judge (run c msgs) m.1 m.2).1.
Proof. unfold run. by rewrite foldl_app. Qed.

Lemma judge_learn c m :
  stamped m ->
  off_ms (judge c m.1 m.2).1 = (learn c (msg_raw m) (msg_ms m)).1 /\
  decay_at_ms (judge c m.1 m.2).1 = (learn c (msg_raw m) (msg_ms m)).2.
Proof.
  intros [[] _]. unfold judge. rewrite (proj2 (Z.eqb_neq m.1 0)) by lia.
  fold (msg_raw m) (msg_ms m). by destruct (learn c (msg_raw m) (msg_ms m)).
Qed.

(** The [if]s of [learn] collapse: the elapsed minutes are never negative
    along a monotone history, and nothing saturates. *)
Lemma learn_closed c t0 prev raw now :
  0 <= t0 -> t0 <= prev -> prev <= now -> now <= 20000000000000 ->
  -20000000000000 <= raw -> -30000000000000 <= off_ms c <= i64_max ->
  decay_at_ms c = t0 + MS_PER_MIN * minute t0 prev ->
  learn c raw now = (Z.max raw (off_ms c - (minute t0 now - minute t0 prev)),
                     t0 + MS_PER_MIN * minute t0 now).
Proof.
  intros H0 Hp Hn Hmax Hraw Hoff Hat. unfold learn.
  destruct (Z.eqb_spec (off_ms c) UNLEARNED) as [E|_]; [unfold UNLEARNED in E; ilia|].
  pose proof (minute_mono t0 prev now Hn) as Hmono.
  assert (0 <= minute t0 prev) by (unfold minute, MS_PER_MIN; apply Z.div_pos; lia).
  assert ((now -| decay_at_ms c) /t MS_PER_MIN = minute t0 now - minute t0 prev) as ->.
  { rewrite Hat. unfold minute, MS_PER_MIN in *. int_lia. }
  assert (minute t0 now <= 20000000000000 /\ MS_PER_MIN * minute t0 now <= 20000000000000) as [].
  { unfold minute, MS_PER_MIN. Z.to_euclidean_division_equations. lia. }
  destruct (Z.ltb_spec 0 (minute t0 now - minute t0 prev)) as [Hpos|Hz].
  - rewrite Hat. unfold DECAY_MS_PER_MIN, MS_PER_MIN in *.
    rewrite !sat_i64_id by ilia.
    destruct (Z.ltb_spec (off_ms c - (minute t0 now - minute t0 prev) * 1) raw); f_equal; lia.
  - destruct (Z.ltb_spec (off_ms c) raw); f_equal;
      rewrite ?Hat; unfold MS_PER_MIN in *; lia.
Qed.

Lemma mono_from_minutes t0 t rest :
  mono_from t rest ->
  Forall (fun m => minute t0 (msg_ms m) <= minute t0 (last_mono t rest / 1000000)) rest /\
  minute t0 (t / 1000000) <= minute t0 (last_mono t rest / 1000000).
Proof.
  revert t. induction rest as [|x xs IH]; intros t; [simpl; split; [constructor|lia]|].
  intros [Hle Hm]. destruct (IH _ Hm) as [HF Hx].
  pose proof (last_mono_ge _ _ Hm). unfold last_mono in *; simpl in *. fold (last_mono x.2 xs) in *.
  split; [constructor; [exact Hx|exact HF]|].
  apply minute_mono, Z.div_le_mono; lia.
Qed.

Lemma run_history c f rest :
  off_ms c = UNLEARNED -> stamped f -> Forall stamped rest -> mono_from f.2 rest ->
  at_history f rest (run c (f :: rest)).
Proof.
  intros Hc Hf. induction rest as [|m rest IH] using rev_ind; intros Hr Hm.
  - unfold at_history, run, last_mono, best_offset; simpl. destruct (judge_learn c f Hf) as [-> ->].
    unfold learn. rewrite Hc, Z.eqb_refl; simpl. fold (msg_ms f). rewrite aged_now.
    unfold minute. rewrite Z.sub_diag. split; [done|].
    rewrite Z.div_0_l, Z.mul_0_r by done. lia.
  - apply Forall_app in Hr as [Hr Hsm]. rewrite Forall_singleton in Hsm.
    apply mono_from_snoc in Hm as [Hm Hlast].
    destruct (IH Hr Hm) as [Hoff Hat]. clear IH.
    rewrite app_comm_cons, run_snoc. unfold at_history.
    set (t0 := msg_ms f) in *. set (prev := last_mono f.2 rest) in *.
    assert (last_mono f.2 (rest ++ [m]) / 1000000 = msg_ms m) as ->.
    { unfold last_mono. by rewrite foldl_app. }
    destruct (judge_learn (run c (f :: rest)) m Hsm) as [-> ->].
    destruct (mono_from_minutes t0 f.2 rest Hm) as [HF Hf0]. fold prev in HF, Hf0.
    destruct (best_offset_bounds t0 (prev / 1000000) f rest Hf Hr eq_refl) as [Hlo Hhi].
    { constructor; [exact Hf0|exact HF]. }
    pose proof (msg_raw_range f Hf). pose proof (msg_raw_range m Hsm).
    pose proof (msg_ms_range f Hf). pose proof (msg_ms_range m Hsm).
    assert (t0 <= prev / 1000000).
    { apply Z.div_le_mono; [lia|]. by apply last_mono_ge. }
    assert (prev / 1000000 <= msg_ms m) by (apply Z.div_le_mono; lia).
    rewrite (learn_closed _ t0 (prev / 1000000)); try done; try lia; cbn [fst snd].
    + rewrite best_offset_snoc, aged_now, (best_offset_shift t0 (prev / 1000000) (msg_ms m)).
      rewrite Hoff. done.
    + rewrite Hoff. split; [|done]. revert Hlo. unfold aged, DECAY_MS_PER_MIN.
      fold t0. assert (minute t0 t0 = 0) as -> by (unfold minute; by rewrite Z.sub_diag).
      assert (minute t0 (prev / 1000000) <= 1000000000); [|lia].
      unfold minute, MS_PER_MIN. Z.to_euclidean_division_equations. lia.
Qed.

Lemma judge_verdict c m :
  stamped m ->
  let delay := off_ms (judge c m.1 m.2).1 -| msg_raw m in
  (judge c m.1 m.2).2 =
    mkFeedJudgement (if u32_max <? delay then u32_max else delay)
      ((0 <? stale_after_ms c) && (stale_after_ms c <? delay)).
Proof.
  intros [[] _] delay. subst delay. unfold judge. rewrite (proj2 (Z.eqb_neq m.1 0)) by lia.
  fold (msg_raw m) (msg_ms m). by destruct (learn c (msg_raw m) (msg_ms m)).
Qed.

Lemma judge_keeps_threshold c v m : stale_after_ms (judge c v m).1 = stale_after_ms c.
Proof. unfold judge. destruct (v =? 0); [done|]. by destruct (learn c _ _). Qed.

Lemma run_keeps_threshold c msgs : stale_after_ms (run c msgs) = stale_after_ms c.
Proof.
  unfold run. revert c. induction msgs as [|x xs IH]; intros c; [done|].
  simpl. by rewrite IH, judge_keeps_threshold.
Qed.

(** What the verdict's machine arithmetic computes from the two offsets. *)
Lemma verdict_arith best raw s :
  in_u32 s -> -20000000000000 <= raw -> raw <= i64_max -> best <= i64_max ->
  let delay := Z.max raw best -| raw in
  let d := Z.max 0 (best - raw) in
  mkFeedJudgement (if u32_max <? delay then u32_max else delay) ((0 <? s) && (s <? delay)) =
  mkFeedJudgement (Z.min u32_max d) (bool_decide (0 < s < d)).
Proof.
  intros Hs ?? ? delay d. subst delay d.
  assert (Z.max raw best -| raw = Z.min i64_max (Z.max 0 (best - raw))) as -> by ilia.
  f_equal.
  - destruct (Z.ltb_spec u32_max (Z.min i64_max (Z.max 0 (best - raw)))); ilia.
  - case_bool_decide; ilia.
Qed.

(** The streaming estimator's delay for a message is its distance from
    the best venue offset seen, each older offset aged by the decay of one
    millisecond per elapsed minute: the O(1) state computes the maximum over
    the whole history. *)
Theorem feed_clock_judges_against_best_message s f rest m :
  in_u32 s -> stamped f -> Forall stamped (rest ++ [m]) -> mono_from f.2 (rest ++ [m]) ->
  let delay := Z.max 0 (best_offset (msg_ms f) (msg_ms m) f rest - msg_raw m) in
  (judge (run (FeedClock_new s) (f :: rest)) m.1 m.2).2 =
    mkFeedJudgement (Z.min u32_max delay) (bool_decide (0 < s < delay)).
Proof.
  intros Hs Hf Hall Hmono delay.
  pose proof (run_history (FeedClock_new s) f (rest ++ [m]) eq_refl Hf Hall Hmono) as [Hoff _].
  rewrite app_comm_cons, run_snoc in Hoff.
  assert (last_mono f.2 (rest ++ [m]) / 1000000 = msg_ms m) as E.
  { unfold last_mono. by rewrite foldl_app. }
  rewrite E, best_offset_snoc, aged_now in Hoff.
  apply Forall_app in Hall as [Hr Hm]. rewrite Forall_singleton in Hm.
  rewrite (judge_verdict _ m Hm), Hoff, run_keeps_threshold. simpl.
  pose proof (msg_raw_range m Hm) as [Hlo Hhi].
  apply verdict_arith; try done.
  pose proof (mono_from_minutes (msg_ms f) f.2 (rest ++ [m]) Hmono) as [HF Hf0].
  rewrite E in HF, Hf0. apply Forall_app in HF as [HF _].
  apply (best_offset_bounds (msg_ms f) (msg_ms m) f rest Hf Hr eq_refl).
  by constructor.
Qed.

(** Three messages a minute apart: the second is the fastest, the third
    trails it by 450 ms less the one decayed millisecond. *)
Lemma feed_clock_judges_against_best_message_witness :
  (judge (run (FeedClock_new 400) [(1000, 5000000); (61200, 60005000000)]) 121149 120405000000).2
  = mkFeedJudgement 450 true.
Proof.
  apply (feed_clock_judges_against_best_message 400 (1000, 5000000)
    [(61200, 60005000000)] (121149, 120405000000)).
  - unfold u32_max; lia.
  - unfold stamped, u64_max; simpl; lia.
  - repeat constructor; unfold u64_max; simpl; lia.
  - simpl; lia.
Defined.

(** ** The bar grid *)

Lemma wall_of_eq a m : wall_of a m = wrap_u64 (wall_ns a - mono_ns a + m).
Proof. unfold wall_of. rewrite wrap_u64_add_r. f_equal. lia. Qed.

Lemma mono_of_eq a w : mono_of a w = wrap_u64 (mono_ns a - wall_ns a + w).
Proof. unfold mono_of. rewrite wrap_u64_add_r. f_equal. lia. Qed.

Lemma wall_of_add a m d : wall_of a (m + d) = wrap_u64 (wall_of a m + d).
Proof. rewrite !wall_of_eq, wrap_u64_add_l. f_equal. lia. Qed.

(** The two clock maps are inverse to each other on [u64]. *)
Lemma wall_of_mono_of a w : in_u64 w -> wall_of a (mono_of a w) = w.
Proof.
  intros Hw. transitivity (wrap_u64 w); [|by apply wrap_u64_id].
  rewrite wall_of_eq, mono_of_eq, wrap_u64_add_r. f_equal. lia.
Qed.

Lemma mono_of_wall_of a m : in_u64 m -> mono_of a (wall_of a m) = m.
Proof.
  intros Hw. transitivity (wrap_u64 m); [|by apply wrap_u64_id].
  rewrite mono_of_eq, wall_of_eq, wrap_u64_add_r. f_equal. lia.
Qed.

(** The monotonic image of a wall instant, relative to another instant. *)
Lemma mono_of_rel a w m : mono_of a w = wrap_u64 (m + (w - wall_of a m)).
Proof.
  rewrite mono_of_eq, wall_of_eq. unfold wrap_u64.
  rewrite (Z.add_sub_assoc m w), Zminus_mod_idemp_r. f_equal. lia.
Qed.

(** Every instant lies inside the bar its id names: between that bar's
    open and close on the monotonic clock, with the open aligned to the
    wall-clock grid, and the time left to the close is exact. *)
Theorem bar_grid_holds_its_instant b m :
  in_u64 m -> in_u64 (mono_ns (anchor b)) -> in_u64 (wall_ns (anchor b)) ->
  0 < tf_ns b -> (bar_id b m + 1) * tf_ns b <= u64_max ->
  m + tf_ns b <= u64_max ->
  let id := bar_id b m in
  open_wall b id <= wall_of (anchor b) m < open_wall b id + tf_ns b /\
  close_mono b id = m + (open_wall b id + tf_ns b - wall_of (anchor b) m) /\
  1 <= ttl_to_close b id m <= tf_ns b /\
  wall_of (anchor b) (m + ttl_to_close b id m) = open_wall b (id + 1).
Proof.
  intros Hm Ha Hw Htf Hover Hroom id. set (w := wall_of (anchor b) m).
  assert (in_u64 w) as Hwr by apply wrap_u64_range.
  assert (id = w / tf_ns b) as Hid by done.
  assert (id * tf_ns b <= w < (id + 1) * tf_ns b) as Hin.
  { rewrite Hid. pose proof (Z.div_mod w (tf_ns b) ltac:(lia)).
    pose proof (Z.mod_pos_bound w (tf_ns b) ltac:(lia)). lia. }
  assert (0 <= id) as Hid0 by (rewrite Hid; apply Z.div_pos; lia).
  fold id in Hover.
  assert (open_wall b id = id * tf_ns b) as Ho by (apply wrap_u64_id; nia).
  assert (open_wall b (id + 1) = (id + 1) * tf_ns b) as Ho1 by (apply wrap_u64_id; nia).
  assert (close_mono b id = m + (id * tf_ns b + tf_ns b - w)) as Hclose.
  { unfold close_mono, open_mono. rewrite Ho, (mono_of_rel _ _ m), wrap_u64_add_l. fold w.
    transitivity (wrap_u64 (m + (id * tf_ns b + tf_ns b - w)));
      [f_equal; lia|apply wrap_u64_id; lia]. }
  rewrite Ho. assert (ttl_to_close b id m = id * tf_ns b + tf_ns b - w) as Httl.
  { unfold ttl_to_close. rewrite Hclose. unfold sat_u64, clamp in *. lia. }
  rewrite Httl, Hclose, Ho1, wall_of_add. fold w.
  repeat split; try lia.
  transitivity (wrap_u64 ((id + 1) * tf_ns b)); [f_equal; lia|apply wrap_u64_id; nia].
Qed.

(** A 15-minute grid, seen 420 s after a boot at 1,700,000,000 s. *)
Lemma bar_grid_holds_its_instant_witness :
  let b := mkBarClock (mkWallAnchor 1000 1700000000000000000) 900000000000 0 in
  wall_of (anchor b) (420000001000 + ttl_to_close b (bar_id b 420000001000) 420000001000) =
  open_wall b (bar_id b 420000001000 + 1).
Proof.
  intros b. apply (bar_grid_holds_its_instant b 420000001000);
    unfold u64_max; simpl; vm_compute; intuition congruence.
Defined.

(** ** Hot windows *)

(** Milliseconds of [[0, n)] that are hot. *)
Definition hot_count (w : HotWindow) (n : nat) : nat :=
  countb (fun t => hw_contains w (Z.of_nat t)) (seq 0 n).

Lemma hot_count_S w n :
  hot_count w (S n) = (hot_count w n + if hw_contains w (Z.of_nat n) then 1 else 0)%nat.
Proof. unfold hot_count. rewrite seq_S, countb_app. simpl. lia. Qed.

Lemma HotWindow_new_Some p o c w :
  0 <= p -> 0 <= c -> HotWindow_new p o c = Some w ->
  w = mkHotWindow p o c /\ 0 < p <= u32_max /\ c < o <= p /\ o <= u16_max.
Proof.
  unfold HotWindow_new. intros Hp Hc H.
  destruct (p =? 0) eqn:E0; [done|]. destruct (u32_max <? p) eqn:E1; [done|].
  destruct (p <? o) eqn:E2; [done|]. destruct (u16_max <? o) eqn:E3; [done|].
  destruct (o <=? c) eqn:E4; [done|]. simpl in H. simplify_eq. split; [done|lia].
Qed.

Lemma hot_count_prefix w n :
  0 < period_ms w -> 0 <= close_ms w < open_ms w -> open_ms w <= period_ms w ->
  Z.of_nat n <= period_ms w ->
  Z.of_nat (hot_count w n) =
    Z.max 0 (Z.min (Z.of_nat n) (period_ms w - close_ms w) - (period_ms w - open_ms w)).
Proof.
  intros Hp Hc Ho. induction n as [|n IH]; intros Hn; [simpl; unfold hot_count; simpl; lia|].
  rewrite hot_count_S. specialize (IH ltac:(lia)).
  unfold hw_contains. rewrite (proj2 (Z.eqb_neq _ _)) by lia.
  rewrite (Z.mod_small (Z.of_nat n)) by lia.
  destruct (Z.leb_spec (period_ms w - open_ms w) (Z.of_nat n));
    destruct (Z.ltb_spec (Z.of_nat n) (period_ms w - close_ms w)); simpl; lia.
Qed.

Lemma from_word_to_word p o c :
  in_u32 p -> 0 <= o <= u16_max -> 0 <= c <= u16_max ->
  from_word (to_word (mkHotWindow p o c)) = mkHotWindow p o c.
Proof.
  intros Hp Ho Hc. unfold u32_max, u16_max in *. unfold to_word; cbn [period_ms open_ms close_ms].
  rewrite <- Z.lor_assoc, (lor_shiftl o c 16), (lor_shiftl p) by (cbn; lia).
  change (2 ^ 32) with 4294967296. change (2 ^ 16) with 65536.
  unfold from_word, wrap_u32, wrap_u16. rewrite !Z.shiftr_div_pow2 by lia.
  change (2 ^ 32) with 4294967296. change (2 ^ 16) with 65536.
  f_equal; Z.to_euclidean_division_equations; lia.
Qed.

(** A constructed hot window contains exactly close minus open of every
    period's milliseconds, its word encoding decodes to itself, and duty_ppm
    is that share rounded down. *)
Theorem hot_window_duty_is_exact p o c w k :
  0 <= p -> 0 <= c -> HotWindow_new p o c = Some w -> 0 <= k ->
  Z.of_nat (hot_count w (Z.to_nat p)) = o - c /\
  duty_ppm w = Z.of_nat (hot_count w (Z.to_nat p)) * 1000000 / p /\
  hw_contains w (k + p) = hw_contains w k /\
  hw_contains w (k * p + (p - o)) = true /\
  hw_contains w (k * p + (p - c)) = bool_decide (c = 0 /\ o = p) /\
  from_word (to_word w) = w.
Proof.
  intros Hp Hc Hnew Hk. apply HotWindow_new_Some in Hnew as (-> & Hp' & Ho & Hu); [|done..].
  pose proof (hot_count_prefix (mkHotWindow p o c) (Z.to_nat p)) as Hcnt. simpl in Hcnt.
  rewrite Z2Nat.id in Hcnt by done. specialize (Hcnt ltac:(lia) ltac:(lia) ltac:(lia) ltac:(lia)).
  assert (Z.of_nat (hot_count (mkHotWindow p o c) (Z.to_nat p)) = o - c) as Hcount by lia.
  rewrite Hcount. unfold duty_ppm, hw_contains; simpl. rewrite (proj2 (Z.eqb_neq p 0)) by lia.
  repeat split.
  - replace (k + p) with (k + 1 * p) by lia. by rewrite Z.mod_add by lia.
  - rewrite Z.add_comm, Z.mod_add by lia. rewrite Z.mod_small by lia.
    rewrite andb_true_iff. lia.
  - rewrite Z.add_comm, Z.mod_add by lia. case_bool_decide as E.
    + destruct E as [-> ->]. rewrite Z.sub_0_r, Z.mod_same by lia. simpl. lia.
    + apply andb_false_iff. destruct (Z.eq_dec c 0) as [->|].
      * rewrite Z.sub_0_r, Z.mod_same by lia. lia.
      * rewrite Z.mod_small by lia. lia.
  - apply from_word_to_word; [unfold u32_max in *|..]; lia.
Qed.

(** BIN15's window: hot from 30 s to 1 s before every quarter hour. *)
Lemma hot_window_duty_is_exact_witness :
  HotWindow_new 900000 30000 1000 = Some (mkHotWindow 900000 30000 1000) /\
  duty_ppm (mkHotWindow 900000 30000 1000) = 32222.
Proof.
  split; [reflexivity|].
  destruct (hot_window_duty_is_exact 900000 30000 1000 (mkHotWindow 900000 30000 1000) 3
    ltac:(lia) ltac:(lia) eq_refl ltac:(lia)) as (Hn & -> & _).
  rewrite Hn. reflexivity.
Defined.
