(* ===== verification/BarGrid.v ===== *)
(** * The bar grid of a timeframe (crates/core-time/src/barclock.rs)

    Opens, closes and distances of bars on UTC milliseconds: epoch-aligned
    below a week, anchored on Monday for the week, calendar-exact for the
    month. The functions are total; the asserts of a debug build are the
    hypotheses of the theorems. *)

From S2P Require Import Prelude.
From S2P Require Import Clock.

#[local] Open Scope machine_scope.

Definition WEEK_ANCHOR_MS : Z := 345600000.
Definition TF_MONTH_S : Z := 2629746.
Definition ALLOWED_TF_S : list Z :=
  [60; 180; 300; 900; 1800; 3600; 7200; 14400; 21600; 43200; 86400; 604800; TF_MONTH_S].
Definition DAY_MS : Z := 86400000.
Definition WEEK_MS : Z := 604800000.
Definition WEEK_S : Z := 604800.
Definition T_ABS_MAX_MS : Z := Z.shiftl 1 62.

Definition is_allowed (tf_s : Z) : bool := existsb (fun a => a =? tf_s) ALLOWED_TF_S.

(** [/] and [%] on i64 truncate; [div_euclid] and [rem_euclid] floor. *)
Definition days_from_civil (y m d : Z) : Z :=
  let y := if m <=? 2 then y - 1 else y in
  let era := y / 400 in
  let yoe := y - era * 400 in
  let mp := Z.rem (m + 9) 12 in
  let doy := Z.quot (153 * mp + 2) 5 + d - 1 in
  let doe := yoe * 365 + Z.quot yoe 4 - Z.quot yoe 100 + doy in
  era * 146097 + doe - 719468.

Definition civil_from_days (z : Z) : Z * Z * Z :=
  let z := z + 719468 in
  let era := z / 146097 in
  let doe := z - era * 146097 in
  let yoe := Z.quot (doe - Z.quot doe 1460 + Z.quot doe 36524 - Z.quot doe 146096) 365 in
  let y := yoe + era * 400 in
  let doy := doe - (365 * yoe + Z.quot yoe 4 - Z.quot yoe 100) in
  let mp := Z.quot (5 * doy + 2) 153 in
  let d := doy - Z.quot (153 * mp + 2) 5 + 1 in
  let m := if mp <? 10 then mp + 3 else mp - 9 in
  (if m <=? 2 then y + 1 else y, m, d).

Definition bar_len (tf_s : Z) : Z := if tf_s =? 0 then 1 else tf_s * 1000.

Definition open_ms (t_ms tf_s : Z) : Z :=
  if tf_s =? TF_MONTH_S then
    let days := t_ms / DAY_MS in
    let '(y, m, _) := civil_from_days days in
    sat_i64 (days_from_civil y m 1 * DAY_MS)
  else if tf_s =? WEEK_S then
    let off := (t_ms -| WEEK_ANCHOR_MS) mod WEEK_MS in
    t_ms -| off
  else t_ms -| t_ms mod bar_len tf_s.

Definition close_ms (open tf_s : Z) : Z :=
  if tf_s =? TF_MONTH_S then
    let '(y, m, _) := civil_from_days (open / DAY_MS) in
    let '(ny, nm) := if m =? 12 then (y + 1, 1) else (y, m + 1) in
    sat_i64 (days_from_civil ny nm 1 * DAY_MS)
  else if tf_s =? WEEK_S then open +| WEEK_MS
  else open +| bar_len tf_s.

Definition month_index (t_ms : Z) : Z :=
  let '(y, m, _) := civil_from_days (t_ms / DAY_MS) in y * 12 + (m - 1).

Definition bars_between (a_open_ms b_open_ms tf_s : Z) : Z :=
  if tf_s =? TF_MONTH_S then month_index b_open_ms -| month_index a_open_ms
  else
    let len := if tf_s =? WEEK_S then WEEK_MS else bar_len tf_s in
    (b_open_ms -| a_open_ms) / len.

(** ** The civil calendar *)

(** Quotients and remainders as their equations. *)
Ltac dlia := Z.to_euclidean_division_equations; lia.

Definition leap (y : Z) : bool := (y mod 4 =? 0) && (negb (y mod 100 =? 0) || (y mod 400 =? 0)).

Definition month_days (y m : Z) : Z :=
  if m =? 2 then (if leap y then 29 else 28)
  else if (m =? 4) || (m =? 6) || (m =? 9) || (m =? 11) then 30 else 31.

Definition civil (y m d : Z) : Prop := 1 <= m <= 12 /\ 1 <= d <= month_days y m.

(** The days before the year [k] of a 400-year era, whose years open in March,
    and the year of a day of the era. *)
Definition era_days (k : Z) : Z := 365 * k + k / 4 - k / 100.
Definition era_year (doe : Z) : Z := (doe - doe / 1460 + doe / 36524 - doe / 146096) / 365.

Lemma era_year_step x : 0 <= x -> x + 1 < 146097 -> era_year x <= era_year (x + 1).
Proof.
  intros H1 H2. unfold era_year. apply Z.div_le_mono; [lia|]. destruct (Z.eq_dec (x + 1) 146096) as [E|N].
  - rewrite E. replace x with 146095 by lia. vm_compute. discriminate.
  - rewrite !(Z.div_small _ 146096) by lia. assert (x / 36524 <= (x + 1) / 36524) by (apply Z.div_le_mono; lia).
    assert ((x + 1) / 1460 <= x / 1460 + 1) by dlia. lia.
Qed.

Lemma era_year_mono a b : 0 <= a -> a <= b -> b < 146097 -> era_year a <= era_year b.
Proof.
  intros Ha Hab. pattern b. revert b Hab. apply Zlt_lower_bound_ind. intros b IH Hab Hb.
  destruct (Z.eq_dec a b) as [->|]; [lia|]. transitivity (era_year (b - 1)); [apply IH; lia|].
  replace b with (b - 1 + 1) at 2 by lia. apply era_year_step; lia.
Qed.

(** A year of the era has the days from its first one to its last one. *)
Definition era_year_ok (k : Z) : bool :=
  (era_year (era_days k) =? k) && (era_year (Z.min 146096 (era_days (k + 1) - 1)) =? k) && (era_days k <=? era_days (k + 1) - 1).

Lemma era_years_ok k : 0 <= k < 400 -> era_year_ok k = true.
Proof.
  intros H. assert (forallb era_year_ok (seqZ 0 400) = true) as A by (vm_compute; reflexivity).
  rewrite forallb_forall in A. apply A. apply list_elem_of_In, elem_of_seqZ. lia.
Qed.

Lemma era_year_of k doy : 0 <= k < 400 -> 0 <= doy -> era_days k + doy < era_days (k + 1) \/ (k = 399 /\ era_days k + doy < 146097) ->
  era_days k + doy < 146097 -> era_year (era_days k + doy) = k.
Proof.
  intros Hk Hd Hn H. pose proof (era_years_ok k Hk) as A. unfold era_year_ok in A. rewrite !andb_true_iff, !Z.eqb_eq, Z.leb_le in A.
  destruct A as ((A1 & A2) & A3). assert (0 <= era_days k) by (unfold era_days; dlia).
  pose proof (era_year_mono (era_days k) (era_days k + doy) ltac:(lia) ltac:(lia) ltac:(lia)).
  assert (era_days k + doy <= Z.min 146096 (era_days (k + 1) - 1) \/ k = 399) as [Hm| ->] by lia.
  - pose proof (era_year_mono (era_days k + doy) (Z.min 146096 (era_days (k + 1) - 1)) ltac:(lia) Hm ltac:(lia)). lia.
  - pose proof (era_year_mono (era_days 399 + doy) 146096 ltac:(lia) ltac:(lia) ltac:(lia)). assert (era_year 146096 = 399) by (vm_compute; reflexivity). lia.
Qed.

(** The year that opens on the first of March of [y0], from its day [doy]: the
    month [mp] after March and the day [d] of the month. *)
Definition march_open (mp : Z) : Z := (153 * mp + 2) / 5.
Definition march_len (y0 mp : Z) : Z := if mp =? 11 then (if leap (y0 + 1) then 29 else 28) else march_open (mp + 1) - march_open mp.
Definition march_day (y0 mp d : Z) : Z := y0 / 400 * 146097 + era_days (y0 mod 400) + march_open mp + d - 1 - 719468.
Definition march_ok (y0 mp d : Z) : Prop := 0 <= mp <= 11 /\ 1 <= d <= march_len y0 mp.
Definition march_civil (y0 mp d : Z) : Z * Z * Z :=
  (if mp <? 10 then y0 else y0 + 1, if mp <? 10 then mp + 3 else mp - 9, d).

(** The days of that year, a leap year's February being its last month. *)
Definition march_year (y0 : Z) : Z := if leap (y0 + 1) then 366 else 365.

Lemma leap_mod y : leap y = leap (y mod 400).
Proof.
  unfold leap. rewrite Z.mod_mod by lia. replace ((y mod 400) mod 4) with (y mod 4) by dlia. by replace ((y mod 400) mod 100) with (y mod 100) by dlia.
Qed.

Lemma leap_spec y : leap y = true <-> y mod 4 = 0 /\ (y mod 100 <> 0 \/ y mod 400 = 0).
Proof. unfold leap. rewrite andb_true_iff, orb_true_iff, negb_true_iff, !Z.eqb_eq, Z.eqb_neq. done. Qed.

Lemma leap_next y : leap (y + 1) = leap (y mod 400 + 1).
Proof. rewrite leap_mod, (leap_mod (y mod 400 + 1)). f_equal. dlia. Qed.

Lemma march_year_era y : march_year (y mod 400) = march_year y.
Proof. unfold march_year. by rewrite (leap_next y). Qed.

(** An era's year from its first day to the next year's. *)
Lemma era_year_days k : 0 <= k < 400 -> era_days k + march_year k = (if k =? 399 then 146097 else era_days (k + 1)).
Proof.
  intros H. unfold march_year, era_days. destruct (leap (k + 1)) eqn:E.
  - apply leap_spec in E. destruct (Z.eqb_spec k 399); [subst; reflexivity|dlia].
  - assert (~ leap (k + 1) = true) as N by (by rewrite E). rewrite leap_spec in N. destruct (Z.eqb_spec k 399); [subst; by vm_compute in E|dlia].
Qed.

Lemma era_split doe : 0 <= doe < 146097 -> exists k, 0 <= k < 400 /\ era_days k <= doe < era_days k + march_year k.
Proof.
  intros H. assert (forall n, 0 <= n <= 400 -> doe < (if n =? 400 then 146097 else era_days n) -> exists k, 0 <= k < n /\ era_days k <= doe < era_days k + march_year k) as G.
  { intros n Hn. assert (0 <= n) as Hn0 by lia. revert Hn. pattern n. apply Zlt_lower_bound_ind with (z := 0); [|done]. clear n Hn0.
    intros n IH H0 Hn Hd. destruct (Z.eq_dec n 0) as [->|]; [change (doe < 0) in Hd; lia|].
    destruct (Z.lt_ge_cases doe (era_days (n - 1))) as [Hlt|Hge].
    - destruct (IH (n - 1) ltac:(lia) ltac:(lia)) as (k & Hk & B); [by rewrite (proj2 (Z.eqb_neq _ _)) by lia|]. exists k. lia.
    - exists (n - 1). split; [lia|]. split; [done|]. rewrite era_year_days by lia. replace (n - 1 + 1) with n by lia.
      by replace (n - 1 =? 399) with (n =? 400) by (apply eq_true_iff_eq; rewrite !Z.eqb_eq; lia). }
  apply (G 400); [lia|]. change (doe < 146097). lia.
Qed.

Lemma era_year_in k doy : 0 <= k < 400 -> 0 <= doy < march_year k -> era_year (era_days k + doy) = k.
Proof.
  intros Hk Hd. pose proof (era_year_days k Hk) as E. assert (era_days k + doy < 146097).
  { destruct (Z.eqb_spec k 399); [lia|]. assert (era_days (k + 1) <= 146096) by (unfold era_days; dlia). lia. }
  apply era_year_of; [done|lia| |done]. destruct (Z.eqb_spec k 399); [right|left]; lia.
Qed.

Lemma march_of_doy y0 doy : 0 <= doy < march_year y0 -> let mp := (5 * doy + 2) / 153 in march_ok y0 mp (doy - march_open mp + 1).
Proof.
  intros H. cbv zeta. unfold march_ok, march_len, march_open, march_year in *. destruct (Z.eqb_spec ((5 * doy + 2) / 153) 11) as [E|E]; destruct (leap (y0 + 1)); dlia.
Qed.

Lemma doy_of_march y0 mp d : march_ok y0 mp d -> 0 <= march_open mp + d - 1 < march_year y0 /\ (5 * (march_open mp + d - 1) + 2) / 153 = mp.
Proof.
  intros (Hm & Hd). unfold march_len, march_open, march_year in *. destruct (Z.eqb_spec mp 11) as [->|E]; [|]; destruct (leap (y0 + 1)); dlia.
Qed.

Lemma era_days_bounds k : 0 <= k < 400 -> 0 <= era_days k /\ era_days k + march_year k <= 146097.
Proof.
  intros H. rewrite era_year_days by done. destruct (Z.eqb_spec k 399) as [->|]; [vm_compute; split; discriminate|].
  unfold era_days. split; dlia.
Qed.

(** The era of a March day, its year of the era and its day of the year. *)
Lemma march_parts y0 doy : 0 <= doy < march_year y0 -> let doe := era_days (y0 mod 400) + doy in
  (y0 / 400 * 146097 + doe) / 146097 = y0 / 400 /\ 0 <= doe < 146097 /\ era_year doe = y0 mod 400.
Proof.
  intros H. cbv zeta. pose proof (Z.mod_pos_bound y0 400 ltac:(lia)) as B. pose proof (era_days_bounds _ B) as D. rewrite march_year_era in D.
  split_and!; [|lia|lia|by apply era_year_in; [|rewrite march_year_era]]. rewrite Z.div_add_l by lia. rewrite (Z.div_small (era_days _ + doy)) by lia. lia.
Qed.

Lemma civil_march y0 mp d : march_ok y0 mp d -> civil_from_days (march_day y0 mp d) = march_civil y0 mp d.
Proof.
  intros M. pose proof M as (Hm & Hd). destruct (doy_of_march y0 mp d M) as [Hy Em]. destruct (march_parts y0 _ Hy) as (Pe & Pd & Py). cbv zeta in *.
  set (doy := march_open mp + d - 1) in *. set (k := y0 mod 400) in *.
  assert (march_day y0 mp d + 719468 = y0 / 400 * 146097 + (era_days k + doy)) as E by (unfold march_day; subst k doy; lia).
  unfold civil_from_days. cbv zeta. rewrite E, Pe. replace (y0 / 400 * 146097 + (era_days k + doy) - y0 / 400 * 146097) with (era_days k + doy) by lia.
  set (doe := era_days k + doy) in *. assert (0 <= k) by (subst k; apply Z.mod_pos_bound; lia).
  assert (0 <= doe - doe / 1460 + doe / 36524 - doe / 146096) by dlia.
  rewrite !(Z.quot_div_nonneg doe) by lia. rewrite (Z.quot_div_nonneg _ 365) by lia. fold (era_year doe). rewrite Py.
  rewrite !(Z.quot_div_nonneg k) by lia. replace (doe - (365 * k + k / 4 - k / 100)) with doy by (subst doe; unfold era_days; lia).
  rewrite (Z.quot_div_nonneg (5 * doy + 2)), Em by lia. rewrite (Z.quot_div_nonneg (153 * mp + 2)) by lia. fold (march_open mp).
  replace (k + y0 / 400 * 400) with y0 by (subst k; dlia). replace (doy - march_open mp + 1) with d by (subst doy; lia).
  unfold march_civil. destruct (Z.ltb_spec mp 10); [by rewrite (proj2 (Z.leb_gt (mp + 3) 2)) by lia|by rewrite (proj2 (Z.leb_le (mp - 9) 2)) by lia].
Qed.

Lemma march_of_days z : exists y0 mp d, march_ok y0 mp d /\ z = march_day y0 mp d.
Proof.
  destruct (era_split ((z + 719468) mod 146097) (Z.mod_pos_bound (z + 719468) 146097 ltac:(lia))) as (k & Hk & Hd).
  set (doe := (z + 719468) mod 146097) in *. set (y0 := k + (z + 719468) / 146097 * 400). assert (y0 mod 400 = k) as Ey by (subst y0; dlia).
  assert (y0 / 400 = (z + 719468) / 146097) as Eq by (subst y0; dlia).
  assert (0 <= doe - era_days k < march_year y0) as B by (rewrite <- march_year_era, Ey; lia).
  exists y0, ((5 * (doe - era_days k) + 2) / 153), (doe - era_days k - march_open ((5 * (doe - era_days k) + 2) / 153) + 1). split; [by apply march_of_doy|].
  unfold march_day. rewrite Ey, Eq. set (p := march_open _). subst doe. dlia.
Qed.

Lemma march_days y0 mp d : 0 <= mp <= 11 -> let '(y, m, _) := march_civil y0 mp d in days_from_civil y m d = march_day y0 mp d.
Proof.
  intros Hm. unfold march_civil, days_from_civil. cbv zeta.
  assert ((if (if mp <? 10 then mp + 3 else mp - 9) <=? 2 then (if mp <? 10 then y0 else y0 + 1) - 1 else if mp <? 10 then y0 else y0 + 1) = y0) as ->.
  { destruct (Z.ltb_spec mp 10); [rewrite (proj2 (Z.leb_gt (mp + 3) 2)) by lia|rewrite (proj2 (Z.leb_le (mp - 9) 2)) by lia]; lia. }
  assert (Z.rem ((if mp <? 10 then mp + 3 else mp - 9) + 9) 12 = mp) as -> by (destruct (Z.ltb_spec mp 10); dlia).
  replace (y0 - y0 / 400 * 400) with (y0 mod 400) by dlia. pose proof (Z.mod_pos_bound y0 400 ltac:(lia)) as B.
  rewrite !(Z.quot_div_nonneg _ _) by lia. unfold march_day, era_days, march_open. lia.
Qed.

(** A civil date is a March date. *)
Lemma civil_is_march y m d : 1 <= m <= 12 -> exists y0 mp, 0 <= mp <= 11 /\ march_civil y0 mp d = (y, m, d) /\ march_len y0 mp = month_days y m.
Proof.
  intros Hm. destruct (Z.leb_spec m 2) as [L|L].
  - exists (y - 1), (m + 9). split; [lia|]. unfold march_civil. rewrite (proj2 (Z.ltb_ge (m + 9) 10)) by lia. replace (y - 1 + 1) with y by lia.
    replace (m + 9 - 9) with m by lia. split; [done|]. assert (m = 1 \/ m = 2) as [-> | ->] by lia; [done|]. unfold march_len. by replace (y - 1 + 1) with y by lia.
  - exists y, (m - 3). split; [lia|]. unfold march_civil. replace (m - 3 + 3) with m by lia.
    assert (m = 3 \/ m = 4 \/ m = 5 \/ m = 6 \/ m = 7 \/ m = 8 \/ m = 9 \/ m = 10 \/ m = 11 \/ m = 12) as C by lia.
    by repeat destruct C as [-> |C]; try subst m.
Qed.

(** [civil_from_days] and [days_from_civil] are inverse on every day. *)
Lemma civil_of_days z : let '(y, m, d) := civil_from_days z in civil y m d /\ days_from_civil y m d = z.
Proof.
  destruct (march_of_days z) as (y0 & mp & d & M & ->). rewrite (civil_march _ _ _ M). pose proof (march_days y0 mp d (proj1 M)) as D.
  destruct (march_civil y0 mp d) as [[y m] d'] eqn:E. unfold march_civil in E. injection E as <- <- <-. split; [|exact D]. destruct M as [Hm Hd].
  assert (1 <= (if mp <? 10 then mp + 3 else mp - 9) <= 12) as Hc by (destruct (Z.ltb_spec mp 10); lia). split; [done|].
  destruct (civil_is_march (if mp <? 10 then y0 else y0 + 1) _ d Hc) as (y1 & mp1 & H1 & E1 & <-).
  assert (mp1 = mp /\ y1 = y0) as [-> ->]; [|done]. unfold march_civil in E1. injection E1 as E1 E2. destruct (Z.ltb_spec mp 10), (Z.ltb_spec mp1 10); lia.
Qed.

Lemma days_of_civil y m d : civil y m d -> civil_from_days (days_from_civil y m d) = (y, m, d).
Proof.
  intros [Hm Hd]. destruct (civil_is_march y m d Hm) as (y0 & mp & H0 & E & L). pose proof (march_days y0 mp d H0) as D. rewrite E in D.
  rewrite D, civil_march; [done|]. split; [done|]. by rewrite L.
Qed.

Definition next_month (y m : Z) : Z * Z := if m =? 12 then (y + 1, 1) else (y, m + 1).

(** The day number grows with the day, and a month ends where the next opens. *)
Lemma days_linear y m d : days_from_civil y m d = days_from_civil y m 1 + d - 1.
Proof. unfold days_from_civil. lia. Qed.

(** The day that opens the March year [y0]. *)
Definition year_day (y0 : Z) : Z := y0 / 400 * 146097 + era_days (y0 mod 400).

Lemma days_by_year y m d : days_from_civil y m d = year_day (if m <=? 2 then y - 1 else y) + Z.quot (153 * Z.rem (m + 9) 12 + 2) 5 + d - 1 - 719468.
Proof.
  unfold days_from_civil, year_day, era_days. cbv zeta. set (y0 := if m <=? 2 then y - 1 else y). replace (y0 - y0 / 400 * 400) with (y0 mod 400) by dlia.
  pose proof (Z.mod_pos_bound y0 400 ltac:(lia)). rewrite !(Z.quot_div_nonneg (y0 mod 400)) by lia. lia.
Qed.

Lemma year_day_next y : year_day (y + 1) = year_day y + march_year y.
Proof.
  unfold year_day. pose proof (Z.mod_pos_bound y 400 ltac:(lia)) as B. pose proof (era_year_days _ B) as E. rewrite march_year_era in E.
  destruct (Z.eqb_spec (y mod 400) 399).
  - replace ((y + 1) mod 400) with 0 by dlia. replace ((y + 1) / 400) with (y / 400 + 1) by dlia. change (era_days 0) with 0. lia.
  - replace ((y + 1) mod 400) with (y mod 400 + 1) by dlia. replace ((y + 1) / 400) with (y / 400) by dlia. lia.
Qed.

(** The comparisons of constants, computed. *)
Ltac constant_tests :=
  repeat match goal with
  | |- context [?a <=? ?b] => let v := eval vm_compute in (a <=? b) in change (a <=? b) with v
  | |- context [?a =? ?b] => let v := eval vm_compute in (a =? b) in change (a =? b) with v
  end; cbv beta iota delta [orb].

Lemma month_ends y m : 1 <= m <= 12 -> let '(ny, nm) := next_month y m in
  1 <= nm <= 12 /\ days_from_civil ny nm 1 = days_from_civil y m 1 + month_days y m.
Proof.
  intros Hm. unfold next_month. destruct (Z.eqb_spec m 12) as [->|N].
  - split; [lia|]. rewrite !days_by_year. unfold month_days. constant_tests. replace (y + 1 - 1) with y by lia. dlia.
  - split; [lia|]. rewrite !days_by_year. pose proof (year_day_next (y - 1)) as Y. unfold march_year in Y. replace (y - 1 + 1) with y in Y by lia.
    assert (m = 2 \/ m = 1 \/ m = 3 \/ m = 4 \/ m = 5 \/ m = 6 \/ m = 7 \/ m = 8 \/ m = 9 \/ m = 10 \/ m = 11) as C by lia. unfold month_days.
    repeat destruct C as [-> |C]; try subst m; constant_tests; [destruct (leap y); dlia|dlia..].
Qed.

(** ** The grid

    Bars are numbered; bar [i] is left-closed at [bar_start i] and right-open
    at [bar_start (i + 1)]. *)

Definition grid_anchor (tf : Z) : Z := if tf =? WEEK_S then WEEK_ANCHOR_MS else 0.
Definition grid_len (tf : Z) : Z := if tf =? WEEK_S then WEEK_MS else bar_len tf.

Definition bar_index (tf t : Z) : Z := if tf =? TF_MONTH_S then month_index t else (t - grid_anchor tf) / grid_len tf.

Definition bar_start (tf i : Z) : Z :=
  if tf =? TF_MONTH_S then days_from_civil (i / 12) (i mod 12 + 1) 1 * DAY_MS else grid_anchor tf + i * grid_len tf.

Lemma bar_index_month t : bar_index TF_MONTH_S t = month_index t.
Proof. unfold bar_index. by rewrite Z.eqb_refl. Qed.

Lemma close_ms_month o : close_ms o TF_MONTH_S =
  let '(y, m, _) := civil_from_days (o / DAY_MS) in let '(ny, nm) := next_month y m in sat_i64 (days_from_civil ny nm 1 * DAY_MS).
Proof. unfold close_ms. by rewrite Z.eqb_refl. Qed.

(** What no saturation touches: the domain of the code and more. *)
Definition wide (t : Z) : Prop := Z.abs t <= 2 ^ 62 + 2 ^ 50.

Lemma wide_domain t : Z.abs t <= T_ABS_MAX_MS -> wide t.
Proof. change T_ABS_MAX_MS with (2 ^ 62). unfold wide. lia. Qed.

Lemma allowed_len tf : is_allowed tf = true -> tf <> TF_MONTH_S -> 60000 <= grid_len tf <= WEEK_MS.
Proof.
  unfold is_allowed. rewrite existsb_exists. intros (a & I & E) N. apply Z.eqb_eq in E. subst a. cbn in I.
  repeat (destruct I as [<- |I]; [try done; vm_compute; split; discriminate|]). done.
Qed.

Lemma month_index_start i : 0 <= i mod 12 + 1 - 1 < 12 /\ civil (i / 12) (i mod 12 + 1) 1.
Proof.
  pose proof (Z.mod_pos_bound i 12 ltac:(lia)). split; [lia|]. split; [lia|]. unfold month_days. split; [lia|].
  destruct (_ =? 2); [destruct (leap _); lia|]. destruct (_ || _); lia.
Qed.

Lemma month_start y m : 1 <= m <= 12 -> bar_start TF_MONTH_S (y * 12 + (m - 1)) = days_from_civil y m 1 * DAY_MS.
Proof.
  intros H. unfold bar_start. rewrite Z.eqb_refl. replace ((y * 12 + (m - 1)) / 12) with y by dlia. by replace ((y * 12 + (m - 1)) mod 12 + 1) with m by dlia.
Qed.

Lemma month_next y m : 1 <= m <= 12 -> let '(ny, nm) := next_month y m in
  1 <= nm <= 12 /\ y * 12 + (m - 1) + 1 = ny * 12 + (nm - 1).
Proof. intros H. unfold next_month. destruct (Z.eqb_spec m 12); lia. Qed.

(** A month holds its days. *)
Lemma month_days_bounds y m : 28 <= month_days y m <= 31.
Proof. unfold month_days. destruct (m =? 2); [destruct (leap y); lia|]. destruct (_ || _); lia. Qed.

Lemma bar_step tf i : is_allowed tf = true -> 60000 <= bar_start tf (i + 1) - bar_start tf i <= 31 * DAY_MS.
Proof.
  intros A. destruct (Z.eq_dec tf TF_MONTH_S) as [->|N].
  - destruct (month_index_start i) as [_ [Hm _]]. set (m := i mod 12 + 1) in *. replace i with (i / 12 * 12 + (m - 1)) by (subst m; dlia).
    pose proof (month_next (i / 12) m Hm) as X. pose proof (month_ends (i / 12) m Hm) as E. destruct (next_month (i / 12) m) as [ny nm].
    destruct X as [Hn ->]. destruct E as [_ E]. rewrite !month_start by done. rewrite E. pose proof (month_days_bounds (i / 12) m). unfold DAY_MS. lia.
  - pose proof (allowed_len tf A N). unfold bar_start. rewrite (proj2 (Z.eqb_neq _ _) N). unfold WEEK_MS, DAY_MS in *. lia.
Qed.

Lemma bar_start_lt tf i j : is_allowed tf = true -> i < j -> bar_start tf i < bar_start tf j.
Proof.
  intros A H. assert (i + 1 <= j) as L by lia. clear H. pattern j. revert j L. apply Zlt_lower_bound_ind.
  intros j IH Hj. destruct (Z.eq_dec j (i + 1)) as [->|]; [pose proof (bar_step tf i A); lia|].
  pose proof (IH (j - 1) ltac:(lia)). pose proof (bar_step tf (j - 1) A) as S. replace (j - 1 + 1) with j in S by lia. lia.
Qed.

Lemma starts_apart tf i j : is_allowed tf = true -> i <= j -> (j - i) * 60000 <= bar_start tf j - bar_start tf i.
Proof.
  intros A L. pattern j. revert j L. apply Zlt_lower_bound_ind. intros j IH Hj. destruct (Z.eq_dec j i) as [->|]; [lia|].
  pose proof (IH (j - 1) ltac:(lia)). pose proof (bar_step tf (j - 1) A) as S. replace (j - 1 + 1) with j in S by lia. lia.
Qed.

(** The bar of an instant holds it. *)
Lemma bar_holds tf t : is_allowed tf = true -> bar_start tf (bar_index tf t) <= t < bar_start tf (bar_index tf t + 1).
Proof.
  intros A. destruct (Z.eq_dec tf TF_MONTH_S) as [->|N].
  - unfold bar_index. rewrite Z.eqb_refl. unfold month_index. pose proof (civil_of_days (t / DAY_MS)) as C.
    destruct (civil_from_days (t / DAY_MS)) as [[y m] d]. destruct C as [[Hm Hd] C]. rewrite days_linear in C.
    pose proof (month_next y m Hm) as X. pose proof (month_ends y m Hm) as E. destruct (next_month y m) as [ny nm].
    destruct X as [Hn ->]. destruct E as [_ E]. rewrite !month_start by done. rewrite E. unfold DAY_MS in *. dlia.
  - pose proof (allowed_len tf A N). unfold bar_index, bar_start. rewrite (proj2 (Z.eqb_neq _ _) N).
    pose proof (Z.div_mod (t - grid_anchor tf) (grid_len tf) ltac:(lia)). pose proof (Z.mod_pos_bound (t - grid_anchor tf) (grid_len tf) ltac:(lia)). lia.
Qed.

Lemma bar_index_unique tf t i : is_allowed tf = true -> bar_start tf i <= t < bar_start tf (i + 1) -> bar_index tf t = i.
Proof.
  intros A H. pose proof (bar_holds tf t A). destruct (Z.lt_trichotomy (bar_index tf t) i) as [L|[E|L]]; [|done|].
  - destruct (Z.eq_dec (bar_index tf t + 1) i) as [<-|]; [lia|]. pose proof (bar_start_lt tf (bar_index tf t + 1) i A ltac:(lia)). lia.
  - destruct (Z.eq_dec (i + 1) (bar_index tf t)) as [E|]; [rewrite E in *; lia|]. pose proof (bar_start_lt tf (i + 1) (bar_index tf t) A ltac:(lia)). lia.
Qed.

Lemma bar_index_start tf i : is_allowed tf = true -> bar_index tf (bar_start tf i) = i.
Proof. intros A. apply bar_index_unique; [done|]. pose proof (bar_step tf i A). lia. Qed.

(** ** The code on the grid *)

Lemma grid_sat z : Z.abs z <= 2 ^ 62 + 2 ^ 51 -> sat_i64 z = z.
Proof. intros H. apply sat_i64_id. unfold i64_min, i64_max. lia. Qed.

Lemma start_near tf t : is_allowed tf = true -> wide t ->
  Z.abs (bar_start tf (bar_index tf t)) <= 2 ^ 62 + 2 ^ 51 /\ Z.abs (bar_start tf (bar_index tf t + 1)) <= 2 ^ 62 + 2 ^ 51.
Proof. intros A W. pose proof (bar_holds tf t A). pose proof (bar_step tf (bar_index tf t) A). unfold wide, DAY_MS in *. lia. Qed.

(** The bar's open and close of the code are those of the numbered grid. *)
Lemma open_on_grid tf t : is_allowed tf = true -> wide t -> open_ms t tf = bar_start tf (bar_index tf t).
Proof.
  intros A W. pose proof (start_near tf t A W) as [B _]. destruct (Z.eq_dec tf TF_MONTH_S) as [->|N].
  - unfold open_ms. rewrite Z.eqb_refl. unfold bar_index in *. rewrite Z.eqb_refl in *. unfold month_index in *. pose proof (civil_of_days (t / DAY_MS)) as C.
    destruct (civil_from_days (t / DAY_MS)) as [[y m] d]. destruct C as [[Hm Hd] C]. rewrite month_start in * by done. by apply grid_sat.
  - pose proof (allowed_len tf A N) as L. unfold open_ms, bar_index, bar_start, grid_anchor, grid_len, bar_len in *. rewrite (proj2 (Z.eqb_neq _ _) N) in *.
    destruct (tf =? WEEK_S); cbv zeta.
    + unfold WEEK_ANCHOR_MS, WEEK_MS, wide in *. rewrite (grid_sat (t - 345600000)) by lia. pose proof (Z.mod_pos_bound (t - 345600000) 604800000 ltac:(lia)).
      rewrite grid_sat by lia. dlia.
    + rewrite grid_sat; [|revert B]; pose proof (Z.div_mod (t - 0) (if tf =? 0 then 1 else tf * 1000) ltac:(lia)) as D; rewrite Z.sub_0_r in *; lia.
Qed.

Lemma month_of_start i : exists y m, 1 <= m <= 12 /\ i = y * 12 + (m - 1) /\ civil_from_days (bar_start TF_MONTH_S i / DAY_MS) = (y, m, 1).
Proof.
  destruct (month_index_start i) as [_ C]. set (m := i mod 12 + 1) in *. exists (i / 12), m. pose proof (proj1 C) as Hm. split; [done|].
  assert (i = i / 12 * 12 + (m - 1)) as E by (subst m; dlia). split; [done|]. rewrite E at 1. rewrite month_start by done. rewrite Z.div_mul by done.
  by apply days_of_civil.
Qed.

Lemma close_on_month i : wide (bar_start TF_MONTH_S i) -> close_ms (bar_start TF_MONTH_S i) TF_MONTH_S = bar_start TF_MONTH_S (i + 1).
Proof.
  intros W. pose proof (start_near TF_MONTH_S _ eq_refl W) as [_ B]. rewrite bar_index_start in B by done. rewrite close_ms_month.
  destruct (month_of_start i) as (y & m & Hm & E & ->). pose proof (month_next y m Hm) as X. destruct (next_month y m) as [ny nm]. destruct X as [Hn X].
  rewrite <- E in X. rewrite X, month_start in B |- * by done. by apply grid_sat.
Qed.

Lemma close_on_grid tf i : is_allowed tf = true -> wide (bar_start tf i) -> close_ms (bar_start tf i) tf = bar_start tf (i + 1).
Proof.
  intros A W. pose proof (start_near tf _ A W) as [_ B]. rewrite bar_index_start in B by done. destruct (Z.eq_dec tf TF_MONTH_S) as [->|N]; [by apply close_on_month|].
  unfold close_ms. rewrite (proj2 (Z.eqb_neq _ _) N). assert (bar_start tf i + grid_len tf = bar_start tf (i + 1)) as S.
  { unfold bar_start. rewrite (proj2 (Z.eqb_neq _ _) N). lia. }
  unfold grid_len in S. destruct (tf =? WEEK_S); rewrite S; by apply grid_sat.
Qed.

Lemma between_on_grid tf i j : is_allowed tf = true -> wide (bar_start tf i) -> wide (bar_start tf j) -> in_i64 (bar_start tf j - bar_start tf i) ->
  bars_between (bar_start tf i) (bar_start tf j) tf = j - i.
Proof.
  intros A Wi Wj D. unfold bars_between. destruct (Z.eq_dec tf TF_MONTH_S) as [->|N].
  - rewrite Z.eqb_refl. pose proof (bar_index_start TF_MONTH_S i A) as Ei. pose proof (bar_index_start TF_MONTH_S j A) as Ej. rewrite bar_index_month in Ei, Ej.
    rewrite Ei, Ej. apply grid_sat.
    destruct (Z.le_ge_cases i j) as [H|H]; pose proof (starts_apart TF_MONTH_S _ _ A H); unfold i64_min, i64_max in D; lia.
  - rewrite (proj2 (Z.eqb_neq _ _) N). pose proof (allowed_len tf A N) as L. rewrite (sat_i64_id _ D).
    assert (bar_start tf j - bar_start tf i = (j - i) * grid_len tf) as -> by (unfold bar_start; rewrite (proj2 (Z.eqb_neq _ _) N); lia).
    fold (grid_len tf). apply Z.div_mul. lia.
Qed.

Lemma open_wide tf t : is_allowed tf = true -> Z.abs t <= T_ABS_MAX_MS -> wide (bar_start tf (bar_index tf t)).
Proof. intros A H. pose proof (bar_holds tf t A). pose proof (bar_step tf (bar_index tf t) A). change T_ABS_MAX_MS with (2 ^ 62) in H. unfold wide, DAY_MS in *. lia. Qed.

Lemma iter_close tf i n : is_allowed tf = true -> wide (bar_start tf i) -> wide (bar_start tf (i + Z.of_nat n)) ->
  Nat.iter n (fun o => close_ms o tf) (bar_start tf i) = bar_start tf (i + Z.of_nat n).
Proof.
  intros A Wi. induction n as [|n IH]; intros Wn; [cbn; by rewrite Z.add_0_r|]. rewrite Nat2Z.inj_succ in *. rewrite <- Z.add_1_r, Z.add_assoc in *.
  assert (wide (bar_start tf (i + Z.of_nat n))) as W.
  { pose proof (starts_apart tf i (i + Z.of_nat n) A ltac:(lia)). pose proof (bar_step tf (i + Z.of_nat n) A). unfold wide in *. lia. }
  rewrite Nat.iter_succ, (IH W). by apply close_on_grid.
Qed.

(** C40. The bars of every allowed timeframe, the calendar month included,
    partition time: the bar an instant opens is left-closed and right-open,
    holds the instant, is the bar of each of its instants, and ends where
    the next bar opens. *)
Theorem bars_partition_time t tf : Z.abs t <= T_ABS_MAX_MS -> is_allowed tf = true ->
  let o := open_ms t tf in let c := close_ms o tf in
  o <= t < c /\ open_ms c tf = c /\ (forall u, o <= u < c -> open_ms u tf = o).
Proof.
  intros H A. pose proof (open_wide tf t A H) as W. cbv zeta. rewrite (open_on_grid tf t A (wide_domain t H)), (close_on_grid tf _ A W).
  set (i := bar_index tf t) in *. assert (forall u, bar_start tf i <= u <= bar_start tf (i + 1) -> wide u) as Wu.
  { intros u Hu. pose proof (bar_holds tf t A). pose proof (bar_step tf i A). change T_ABS_MAX_MS with (2 ^ 62) in H. subst i. unfold wide, DAY_MS in *. lia. }
  split; [by apply bar_holds|]. split.
  - rewrite open_on_grid, bar_index_start by (done || apply Wu; pose proof (bar_step tf i A); lia). done.
  - intros u Hu. rewrite open_on_grid by (done || apply Wu; lia). by rewrite (bar_index_unique tf u i A Hu).
Qed.

(** The distance of two bar opens is the number of closes that lead from
    the first to the second, whatever the lengths of the months on the way, so
    a hole of [k] missing bars gives [k + 1]; backwards it is the opposite. *)
Theorem bars_between_counts_closes t u tf : Z.abs t <= T_ABS_MAX_MS -> Z.abs u <= T_ABS_MAX_MS -> is_allowed tf = true ->
  let a := open_ms t tf in let b := open_ms u tf in a <= b -> b - a <= i64_max ->
  exists n, b = Nat.iter n (fun o => close_ms o tf) a /\ bars_between a b tf = Z.of_nat n /\ bars_between b a tf = - Z.of_nat n.
Proof.
  intros Ht Hu A. cbv zeta. rewrite (open_on_grid tf t A (wide_domain t Ht)), (open_on_grid tf u A (wide_domain u Hu)). intros L D.
  pose proof (open_wide tf t A Ht) as Wt. pose proof (open_wide tf u A Hu) as Wu. set (i := bar_index tf t) in *. set (j := bar_index tf u) in *.
  assert (i <= j) as Hij by (destruct (Z.le_gt_cases i j) as [|G]; [done|pose proof (bar_start_lt tf j i A G); lia]).
  exists (Z.to_nat (j - i)). assert (i + Z.of_nat (Z.to_nat (j - i)) = j) as E by lia. split_and!.
  - rewrite iter_close; rewrite ?E; done.
  - rewrite between_on_grid by (done || unfold i64_min in *; lia). lia.
  - rewrite between_on_grid by (done || unfold i64_min, i64_max in *; lia). lia.
Qed.

(** Below a week the grid is [BarClock]'s: the wall-clock open of the bar
    an instant is in is the open of that bar in milliseconds. *)
Theorem bar_grid_is_the_bar_clocks b m tf : is_allowed tf = true -> tf < WEEK_S -> tf_ns b = tf * 1000000000 ->
  open_wall b (bar_id b m) = open_ms (wall_of (anchor b) m / 1000000) tf * 1000000.
Proof.
  intros A L E. assert (0 <= wall_of (anchor b) m <= u64_max) as W by apply wrap_u64_range. set (w := wall_of (anchor b) m) in *. unfold u64_max, WEEK_S in *. rewrite open_on_grid; [|done|unfold wide; dlia].
  unfold open_wall, bar_id. fold w. rewrite E. pose proof (allowed_len tf A ltac:(unfold TF_MONTH_S; lia)) as B. unfold bar_start, bar_index, grid_anchor, grid_len, bar_len, wrap_u64 in *.
  assert (tf <> 0) by (intros ->; done).
  rewrite (proj2 (Z.eqb_neq tf TF_MONTH_S)), (proj2 (Z.eqb_neq tf WEEK_S)), (proj2 (Z.eqb_neq tf 0)) in * by (unfold TF_MONTH_S, WEEK_S; lia).
  rewrite Z.sub_0_r, Z.div_div by lia. replace (1000000 * (tf * 1000)) with (tf * 1000000000) by lia.
  pose proof (Z.div_mod w (tf * 1000000000) ltac:(lia)). pose proof (Z.mod_pos_bound w (tf * 1000000000) ltac:(lia)).
  assert (0 <= w / (tf * 1000000000)) by (apply Z.div_pos; lia). rewrite Z.mod_small; nia.
Qed.

(** ** Witnesses *)

Lemma bars_partition_time_witness : let o := open_ms 1709210000000 TF_MONTH_S in let c := close_ms o TF_MONTH_S in
  o <= 1709210000000 < c /\ open_ms c TF_MONTH_S = c /\ (forall u, o <= u < c -> open_ms u TF_MONTH_S = o).
Proof. apply (bars_partition_time 1709210000000 TF_MONTH_S); [vm_compute; discriminate|reflexivity]. Defined.

Lemma bars_between_counts_closes_witness : exists n, 1709251200000 = Nat.iter n (fun o => close_ms o TF_MONTH_S) (-2678400000) /\
  bars_between (-2678400000) 1709251200000 TF_MONTH_S = Z.of_nat n /\ bars_between 1709251200000 (-2678400000) TF_MONTH_S = - Z.of_nat n.
Proof.
  apply (bars_between_counts_closes (-1) 1709251200001 TF_MONTH_S); vm_compute; first [reflexivity | discriminate].
Defined.

Lemma bar_grid_is_the_bar_clocks_witness :
  let b := mkBarClock (mkWallAnchor 1000 1700000000000000000) 900000000000 0 in
  open_wall b (bar_id b 420000001000) = open_ms (wall_of (anchor b) 420000001000 / 1000000) 900 * 1000000.
Proof. intros b. apply (bar_grid_is_the_bar_clocks b 420000001000 900); vm_compute; reflexivity. Defined.
