(* ===== verification/Ring.v ===== *)
(** * [crates/core-ring]: the SPSC ring and the mailbox

    The ring is modelled at the grain at which the two threads interleave:
    the producer's slot write and its [head] publication are separate steps,
    so are the consumer's lending of a slot and the release of its guard,
    and every Acquire load of the other side's index may return any value
    between the one last seen and the current one (a stale load). Positions
    are [usize] and wrap at [2^64].

    The executable handle operations ([push_slot], [try_push_ref],
    [pop_slot], [try_pop_ref], [drop_popped]) are shared by the step
    relation and by the sequential refinement of a bounded FIFO queue. *)

From S2P Require Import Prelude.

Section Ring.
Context {T : Type}.

(** [Ring<T, N>]: the shared indices and the slots. *)
Record Ring := mkRing { r_head : Z; r_tail : Z; r_buf : list T; r_split : bool }.
(** [Producer<T, N>]: its own index and the cache of the consumer's. *)
Record Producer := mkProducer { p_head : Z; tail_cache : Z }.
(** [Consumer<T, N>]: its own index and the cache of the producer's. *)
Record Consumer := mkConsumer { c_tail : Z; head_cache : Z }.

(** [Ring::new]: the slots hold whatever the allocator gave. *)
Definition Ring_new (junk : list T) : Ring := mkRing 0 0 junk false.

(** [Ring::split]: [None] is the panic of a second split. *)
Definition split (r : Ring) : option (Ring * Producer * Consumer) :=
  if r_split r then None
  else Some (mkRing (r_head r) (r_tail r) (r_buf r) true, mkProducer 0 0, mkConsumer 0 0).

(** [Ring::slot]: position [pos] masked to [pos & (N - 1)]. *)
Definition slot (N pos : Z) : nat := Z.to_nat (Z.land pos (N - 1)).

(** [try_push_ref] up to the write: the position to write and the producer
    with its refreshed cache, or [None] when the ring is full. [loaded] is
    what the Acquire load of [tail] returns, if it is reached. *)
Definition push_slot (N : Z) (p : Producer) (loaded : Z) : option (Z * Producer) :=
  if N <=? wrap_u64 (p_head p - tail_cache p) then
    if N <=? wrap_u64 (p_head p - loaded) then None
    else Some (p_head p, mkProducer (p_head p) loaded)
  else Some (p_head p, p).

(** The copy into the slot. *)
Definition write_slot (N : Z) (r : Ring) (pos : Z) (src : T) : Ring :=
  mkRing (r_head r) (r_tail r) (<[slot N pos := src]> (r_buf r)) (r_split r).

(** The Release store of [head]. *)
Definition publish (r : Ring) (p : Producer) : Ring * Producer :=
  let next := wrap_u64 (p_head p + 1) in
  (mkRing next (r_tail r) (r_buf r) (r_split r), mkProducer next (tail_cache p)).

(** [Producer::try_push_ref], whole. *)
Definition try_push_ref (N : Z) (r : Ring) (p : Producer) (loaded : Z) (src : T)
  : Ring * Producer * bool :=
  match push_slot N p loaded with
  | None => (r, p, false)
  | Some (pos, p') => (publish (write_slot N r pos src) p', true)
  end.

Definition published (p : Producer) : Z := p_head p.
Definition producer_len (r : Ring) (p : Producer) : Z := wrap_u64 (p_head p - r_tail r).
Definition producer_is_empty (r : Ring) (p : Producer) : bool := producer_len r p =? 0.

(** [Consumer::try_pop_ref]: the position lent, or [None] when empty. *)
Definition pop_slot (c : Consumer) (loaded : Z) : option (Z * Consumer) :=
  if c_tail c =? head_cache c then
    if loaded =? c_tail c then None
    else Some (c_tail c, mkConsumer (c_tail c) loaded)
  else Some (c_tail c, c).

(** [Popped::deref]: the slot itself. *)
Definition deref (N : Z) (r : Ring) (pos : Z) : option T := r_buf r !! slot N pos.

(** [Popped::drop]: the Release store of [tail]. *)
Definition drop_popped (r : Ring) (c : Consumer) (pos : Z) : Ring * Consumer :=
  let next := wrap_u64 (pos + 1) in
  (mkRing (r_head r) next (r_buf r) (r_split r), mkConsumer next (head_cache c)).

(** [try_pop_ref] whose guard is read and dropped at once. *)
Definition try_pop_ref (N : Z) (r : Ring) (c : Consumer) (loaded : Z)
  : Ring * Consumer * option T :=
  match pop_slot c loaded with
  | None => (r, c, None)
  | Some (pos, c') => (drop_popped r c' pos, deref N r pos)
  end.

Definition consumer_len (r : Ring) (c : Consumer) : Z := wrap_u64 (r_head r - c_tail c).
Definition consumer_is_empty (r : Ring) (c : Consumer) : bool := consumer_len r c =? 0.

(** ** The two threads *)

(** The shared ring, the two handles, what each thread has in flight, and
    the history: every element ever written ([pushed]), every element the
    consumer released ([consumed]), and the true (unwrapped) counts behind
    the two caches. *)
Record Sys := mkSys {
  ring : Ring;
  prod : Producer;
  cons : Consumer;
  writing : bool;
  lent : option Z;
  pushed : list T;
  consumed : list T;
  seen_tail : nat;
  seen_head : nat
}.

(** Elements published so far. *)
Definition n_published (s : Sys) : nat :=
  if writing s then pred (length (pushed s)) else length (pushed s).

Definition init (junk : list T) : Sys :=
  mkSys (mkRing 0 0 junk true) (mkProducer 0 0) (mkConsumer 0 0) false None [] [] 0 0.

Variable N : Z.

(** One step of either thread. [t] and [h] are the counts a (possibly stale)
    load observes. *)
Inductive step : Sys -> Sys -> Prop :=
| step_write s src t pos p' :
    writing s = false ->
    (seen_tail s <= t <= length (consumed s))%nat ->
    push_slot N (prod s) (wrap_u64 (Z.of_nat t)) = Some (pos, p') ->
    step s (mkSys (write_slot N (ring s) pos src) p' (cons s) true (lent s)
              (pushed s ++ [src]) (consumed s)
              (if N <=? wrap_u64 (p_head (prod s) - tail_cache (prod s)) then t else seen_tail s)
              (seen_head s))
| step_publish s r' p' :
    writing s = true ->
    publish (ring s) (prod s) = (r', p') ->
    step s (mkSys r' p' (cons s) false (lent s) (pushed s) (consumed s)
              (seen_tail s) (seen_head s))
| step_full s t :
    writing s = false ->
    (seen_tail s <= t <= length (consumed s))%nat ->
    push_slot N (prod s) (wrap_u64 (Z.of_nat t)) = None ->
    step s s
| step_lend s h pos c' :
    lent s = None ->
    (seen_head s <= h <= n_published s)%nat ->
    pop_slot (cons s) (wrap_u64 (Z.of_nat h)) = Some (pos, c') ->
    step s (mkSys (ring s) (prod s) c' (writing s) (Some pos) (pushed s) (consumed s)
              (seen_tail s)
              (if c_tail (cons s) =? head_cache (cons s) then h else seen_head s))
| step_empty s h :
    lent s = None ->
    (seen_head s <= h <= n_published s)%nat ->
    pop_slot (cons s) (wrap_u64 (Z.of_nat h)) = None ->
    step s s
| step_drop s pos x r' c' :
    lent s = Some pos ->
    deref N (ring s) pos = Some x ->
    drop_popped (ring s) (cons s) pos = (r', c') ->
    step s (mkSys r' (prod s) c' (writing s) None (pushed s) (consumed s ++ [x])
              (seen_tail s) (seen_head s))
| step_forget s pos :
    lent s = Some pos ->
    step s (mkSys (ring s) (prod s) (cons s) (writing s) None (pushed s) (consumed s)
              (seen_tail s) (seen_head s)).

Inductive reachable (junk : list T) : Sys -> Prop :=
| reach_init : reachable junk (init junk)
| reach_step s s' : reachable junk s -> step s s' -> reachable junk s'.

End Ring.

Arguments Ring : clear implicits.
Arguments Sys : clear implicits.

(** ** Positions *)

(** [N] is a power of two the compile-time assertion of [Ring::new] admits. *)
Definition pow2_capacity (N : Z) : Prop := exists n, 1 <= n <= 63 /\ N = 2 ^ n.

Lemma pow2_capacity_range N : pow2_capacity N -> 2 <= N <= 9223372036854775808.
Proof.
  intros (n & Hn & ->). split.
  - change 2 with (2 ^ 1) at 1. apply Z.pow_le_mono_r; lia.
  - change 9223372036854775808 with (2 ^ 63). apply Z.pow_le_mono_r; lia.
Qed.

Lemma slot_wrap N k : pow2_capacity N -> 0 <= k -> slot N (wrap_u64 k) = Z.to_nat (k mod N).
Proof.
  intros (n & Hn & ->) Hk. unfold slot. f_equal.
  replace (2 ^ n - 1) with (Z.ones n) by (rewrite Z.ones_equiv; lia).
  rewrite Z.land_ones by lia. unfold wrap_u64.
  change 18446744073709551616 with (2 ^ 64).
  replace 64 with (n + (64 - n)) by lia. rewrite Z.pow_add_r by lia.
  rewrite Z.rem_mul_r by (try apply Z.pow_nonzero; lia || apply Z.pow_pos_nonneg; lia).
  rewrite (Z.mul_comm (2 ^ n)), Z.mod_add by (apply Z.pow_nonzero; lia).
  by rewrite Z.mod_mod by (apply Z.pow_nonzero; lia).
Qed.

Lemma slot_lt N k : pow2_capacity N -> 0 <= k -> (Z.to_nat (k mod N) < Z.to_nat N)%nat.
Proof.
  intros HN Hk. pose proof (pow2_capacity_range N HN). pose proof (Z.mod_pos_bound k N). lia.
Qed.

(** Two positions less than [N] apart never share a slot. *)
Lemma slot_distinct N a b : 0 < N -> 0 <= a -> a < b < a + N -> Z.to_nat (a mod N) <> Z.to_nat (b mod N).
Proof.
  intros HN Ha Hb E. apply Z2Nat.inj in E; [|apply Z.mod_pos_bound; lia..].
  assert ((b - a) mod N = 0) as E2 by (rewrite Zminus_mod, E, Z.sub_diag; apply Z.mod_0_l; lia).
  rewrite Z.mod_small in E2; lia.
Qed.

Lemma wrap_dist a b :
  0 <= a - b <= 9223372036854775808 -> wrap_u64 (wrap_u64 a - wrap_u64 b) = a - b.
Proof. intros. rewrite wrap_u64_sub. apply wrap_u64_id. unfold u64_max. lia. Qed.

Lemma wrap_succ a : wrap_u64 (wrap_u64 a + 1) = wrap_u64 (a + 1).
Proof. apply wrap_u64_add_l. Qed.

(** Two counts less than 2^64 apart are equal when their positions are. *)
Lemma wrap_eq_close a b :
  a <= b <= a + 9223372036854775808 -> wrap_u64 a = wrap_u64 b <-> a = b.
Proof.
  intros H. split; [|by intros ->]. intros E.
  pose proof (wrap_dist b a ltac:(lia)) as D. rewrite E, Z.sub_diag in D.
  change (wrap_u64 0) with 0 in D. lia.
Qed.

(** ** The invariant *)

Section Invariant.
Context {T : Type} (N : Z) (HN : pow2_capacity N).
Implicit Types s : Sys T.

Abbreviation zlen l := (Z.of_nat (length l)).

Record inv s : Prop := {
  inv_head : r_head (ring s) = wrap_u64 (Z.of_nat (n_published s));
  inv_tail : r_tail (ring s) = wrap_u64 (zlen (consumed s));
  inv_phead : p_head (prod s) = wrap_u64 (Z.of_nat (n_published s));
  inv_ctail : c_tail (cons s) = wrap_u64 (zlen (consumed s));
  inv_tcache : tail_cache (prod s) = wrap_u64 (Z.of_nat (seen_tail s));
  inv_hcache : head_cache (cons s) = wrap_u64 (Z.of_nat (seen_head s));
  inv_order : (seen_tail s <= length (consumed s) <= seen_head s)%nat /\
              (seen_head s <= n_published s)%nat;
  inv_room : Z.of_nat (n_published s) - Z.of_nat (seen_tail s) <= N;
  inv_writing : writing s = true ->
    length (pushed s) = S (n_published s) /\
    Z.of_nat (n_published s) - Z.of_nat (seen_tail s) < N;
  inv_buf : length (r_buf (ring s)) = Z.to_nat N;
  inv_slots : forall k x, (length (consumed s) <= k)%nat -> pushed s !! k = Some x ->
    r_buf (ring s) !! Z.to_nat (Z.of_nat k mod N) = Some x;
  inv_lent : forall pos, lent s = Some pos ->
    pos = wrap_u64 (zlen (consumed s)) /\ (length (consumed s) < seen_head s)%nat;
  inv_fifo : consumed s = take (length (consumed s)) (pushed s)
}.

Lemma n_published_idle s : writing s = false -> n_published s = length (pushed s).
Proof. unfold n_published. by intros ->. Qed.

(** Every element not yet released, the pending one included, fits. *)
Lemma inv_occupancy s : inv s -> zlen (pushed s) - zlen (consumed s) <= N.
Proof.
  intros I. destruct (inv_order s I), (writing s) eqn:E.
  - destruct (inv_writing s I E). lia.
  - rewrite <- (n_published_idle s E). pose proof (inv_room s I). lia.
Qed.

(** What a granted write knows: the cache it leaves is a true lower bound
    with room below it. *)
Lemma push_slot_spec s t pos p' :
  inv s -> writing s = false -> (seen_tail s <= t <= length (consumed s))%nat ->
  push_slot N (prod s) (wrap_u64 (Z.of_nat t)) = Some (pos, p') ->
  let t' := if N <=? wrap_u64 (p_head (prod s) - tail_cache (prod s)) then t else seen_tail s in
  pos = p_head (prod s) /\ p_head p' = p_head (prod s) /\
  tail_cache p' = wrap_u64 (Z.of_nat t') /\ (seen_tail s <= t' <= length (consumed s))%nat /\
  Z.of_nat (n_published s) - Z.of_nat t' < N.
Proof.
  intros I Hw Ht Hp. pose proof (pow2_capacity_range N HN) as HR.
  destruct (inv_order s I). pose proof (inv_room s I). unfold push_slot in Hp.
  rewrite (inv_phead s I), (inv_tcache s I) in *.
  rewrite wrap_dist in * by lia. rewrite wrap_dist in Hp by lia.
  destruct (Z.leb_spec N (Z.of_nat (n_published s) - Z.of_nat (seen_tail s))) as [Hc|Hc].
  - destruct (Z.leb_spec N (Z.of_nat (n_published s) - Z.of_nat t)); simplify_eq/=.
    repeat split; try done; lia.
  - simplify_eq/=. repeat split; try done; try lia; first [by rewrite (inv_phead s I)|apply (inv_tcache s I)].
Qed.

Lemma pop_slot_spec s h pos c' :
  inv s -> (seen_head s <= h <= n_published s)%nat ->
  pop_slot (cons s) (wrap_u64 (Z.of_nat h)) = Some (pos, c') ->
  let h' := if c_tail (cons s) =? head_cache (cons s) then h else seen_head s in
  pos = c_tail (cons s) /\ c_tail c' = c_tail (cons s) /\
  head_cache c' = wrap_u64 (Z.of_nat h') /\
  (length (consumed s) < h')%nat /\ (h' <= n_published s)%nat.
Proof.
  intros I Hh Hp. pose proof (pow2_capacity_range N HN) as HR.
  destruct (inv_order s I). pose proof (inv_room s I). unfold pop_slot in Hp.
  destruct (Z.eqb_spec (c_tail (cons s)) (head_cache (cons s))) as [Hc|Hc].
  - destruct (Z.eqb_spec (wrap_u64 (Z.of_nat h)) (c_tail (cons s))) as [|Hne]; simplify_eq/=.
    repeat split; try done; try lia. rewrite (inv_ctail s I) in Hne.
    assert (length (consumed s) <> h) by (intros E; apply Hne; by rewrite E). lia.
  - simplify_eq/=. repeat split; try done; try apply (inv_hcache s I).
    rewrite (inv_ctail s I), (inv_hcache s I) in Hc.
    assert (length (consumed s) <> seen_head s) by (intros E; apply Hc; by rewrite E). lia.
Qed.

Lemma inv_init junk : length junk = Z.to_nat N -> inv (init junk).
Proof.
  intros Hj. pose proof (pow2_capacity_range N HN).
  split; simpl; try done; try lia. unfold n_published; simpl. lia.
Qed.

(** The slot a granted write takes holds no unreleased element. *)
Lemma write_keeps_slots s src :
  inv s -> writing s = false ->
  Z.of_nat (n_published s) - zlen (consumed s) < N ->
  forall k x, (length (consumed s) <= k)%nat -> (pushed s ++ [src]) !! k = Some x ->
  <[slot N (p_head (prod s)) := src]> (r_buf (ring s)) !! Z.to_nat (Z.of_nat k mod N) = Some x.
Proof.
  intros I Hw Hroom k x Hk Hx. pose proof (pow2_capacity_range N HN) as HR.
  rewrite (inv_phead s I), slot_wrap by (done || lia). rewrite n_published_idle in * by done.
  apply lookup_snoc_Some in Hx as [[Hlt Hx]|[-> ->]].
  - rewrite list_lookup_insert_ne; [by apply (inv_slots s I)|].
    intros E. symmetry in E. revert E. apply slot_distinct; lia.
  - apply list_lookup_insert_eq. rewrite (inv_buf s I). apply slot_lt; [done|lia].
Qed.

Lemma inv_step s s' : inv s -> step N s s' -> inv s'.
Proof.
  intros I Hstep. pose proof (pow2_capacity_range N HN) as HR.
  pose proof (inv_order s I) as [Ho1 Ho2].
  destruct Hstep as [s src t pos p' Hw Ht Hp|s r' p' Hw Hpub|s t Hw Ht Hp
    |s h pos c' Hl Hh Hp|s h Hl Hh Hp|s pos x r' c' Hl Hd Hdr|s pos Hl]; try exact I.
  - destruct (push_slot_spec s t pos p' I Hw Ht Hp) as (-> & E1 & E2 & Ht' & Hroom).
    pose proof (n_published_idle s Hw) as En.
    assert (n_published (mkSys (write_slot N (ring s) (p_head (prod s)) src) p' (cons s) true
      (lent s) (pushed s ++ [src]) (consumed s)
      (if N <=? wrap_u64 (p_head (prod s) - tail_cache (prod s)) then t else seen_tail s)
      (seen_head s)) = n_published s) as Epub.
    { unfold n_published at 1; simpl. rewrite length_app; simpl. lia. }
    split; rewrite ?Epub; simpl; try solve [apply I]; try done; try lia.
    + by rewrite E1, (inv_phead s I).
    + intros _. rewrite length_app; simpl. lia.
    + rewrite length_insert. apply I.
    + apply write_keeps_slots; [done..|lia].
    + rewrite take_app_le by lia. apply I.
  - unfold publish in Hpub. simplify_eq. destruct (inv_writing s I Hw) as [El Hr].
    assert (n_published s = pred (length (pushed s))) as En by (unfold n_published; by rewrite Hw).
    split; unfold n_published; simpl; try solve [apply I]; try done; try lia.
    + rewrite (inv_phead s I), wrap_succ. f_equal. lia.
    + rewrite (inv_phead s I), wrap_succ. f_equal. lia.
  - destruct (pop_slot_spec s h pos c' I Hh Hp) as (-> & E1 & E2 & Hh1 & Hh2).
    split; simpl; try solve [apply I]; try done; try lia.
    + by rewrite E1, (inv_ctail s I).
    + split; [lia|exact Hh2].
    + intros pos' [= <-]. split; [apply (inv_ctail s I)|exact Hh1].
  - destruct (inv_lent s I pos Hl) as [-> Hlt]. unfold drop_popped in Hdr. simplify_eq.
    assert (pushed s !! length (consumed s) = Some x) as Hx.
    { destruct (lookup_lt_is_Some_2 (pushed s) (length (consumed s))) as [y Hy].
      { unfold n_published in Ho2. destruct (writing s); lia. }
      pose proof (inv_slots s I _ _ ltac:(reflexivity) Hy) as Hb.
      unfold deref in Hd. rewrite slot_wrap in Hd by (done || lia). congruence. }
    split; simpl; rewrite ?length_app; simpl; try solve [apply I]; try done.
    + rewrite wrap_succ. f_equal. lia.
    + rewrite wrap_succ. f_equal. lia.
    + unfold n_published in *; simpl. lia.
    + intros k y Hk. apply (inv_slots s I). lia.
    + rewrite Nat.add_1_r, (take_S_r _ _ x) by done. f_equal. apply I.
  - split; simpl; try solve [apply I]; try done.
Qed.

Lemma reachable_inv junk s :
  length junk = Z.to_nat N -> reachable N junk s -> inv s.
Proof. intros Hj. induction 1; eauto using inv_init, inv_step. Qed.

End Invariant.

(** ** What the two threads are promised *)

(** The queue a consumer has still to see. *)
Definition queue {T} (s : Sys T) : list T := drop (length (consumed s)) (pushed s).

Definition idle {T} (s : Sys T) : Prop := writing s = false /\ lent s = None.

Section Promises.
Context {T : Type} (N : Z) (HN : pow2_capacity N) (junk : list T).
Context (Hj : length junk = Z.to_nat N).
Implicit Types s : Sys T.

Lemma lookup_queue_0 s : queue s !! 0%nat = pushed s !! length (consumed s).
Proof. unfold queue. rewrite lookup_drop. f_equal. lia. Qed.

Lemma queue_length s : inv N s -> Z.of_nat (length (queue s)) = Z.of_nat (length (pushed s)) - Z.of_nat (length (consumed s)).
Proof.
  intros I. destruct (inv_order N s I). unfold queue. rewrite length_drop.
  unfold n_published in *. destruct (writing s); lia.
Qed.

(** The lent slot holds the oldest message still queued. *)
Lemma lent_is_oldest s pos :
  reachable N junk s -> lent s = Some pos -> deref N (ring s) pos = head (queue s) /\ queue s <> [].
Proof.
  intros Hr Hl. pose proof (reachable_inv N HN junk s Hj Hr) as I.
  destruct (inv_lent N s I pos Hl) as [-> Hlt]. destruct (inv_order N s I) as [_ Hh].
  destruct (lookup_lt_is_Some_2 (pushed s) (length (consumed s))) as [y Hy].
  { unfold n_published in *. destruct (writing s); lia. }
  pose proof (inv_slots N s I _ _ ltac:(reflexivity) Hy) as Hb.
  unfold deref. rewrite slot_wrap, Hb by (done || lia).
  rewrite <- lookup_queue_0 in Hy. by destruct (queue s); simplify_eq/=.
Qed.

(** C31. In every reachable state of the SPSC ring the messages pushed are
    those consumed followed by those queued, at most the capacity are
    queued, and a lent slot holds the oldest of them. *)
Theorem ring_is_fifo s :
  reachable N junk s ->
  pushed s = consumed s ++ queue s /\
  Z.of_nat (length (queue s)) <= N /\
  forall pos, lent s = Some pos -> deref N (ring s) pos = head (queue s) /\ queue s <> [].
Proof.
  intros Hr. pose proof (reachable_inv N HN junk s Hj Hr) as I. split_and!.
  - transitivity (take (length (consumed s)) (pushed s) ++ queue s); [symmetry; apply take_drop|].
    f_equal. symmetry. apply (inv_fifo N s I).
  - rewrite (queue_length s I). by apply inv_occupancy.
  - intros pos Hl. by apply lent_is_oldest.
Qed.

(** C26. In every reachable state of the SPSC ring, with any stale view of
    the consumer's index the producer may have loaded, a push writes a slot
    inside the buffer and never the one lent to the consumer, whose message
    is unchanged by the write. *)
Theorem ring_never_overwrites_lent_slot s t pos p' lpos :
  reachable N junk s -> lent s = Some lpos -> writing s = false ->
  (seen_tail s <= t <= length (consumed s))%nat ->
  push_slot N (prod s) (wrap_u64 (Z.of_nat t)) = Some (pos, p') ->
  slot N pos <> slot N lpos /\ (slot N pos < length (r_buf (ring s)))%nat /\
  forall src, deref N (write_slot N (ring s) pos src) lpos = deref N (ring s) lpos.
Proof.
  intros Hr Hl Hw Ht Hp. pose proof (reachable_inv N HN junk s Hj Hr) as I.
  pose proof (pow2_capacity_range N HN) as HR.
  destruct (push_slot_spec N HN s t pos p' I Hw Ht Hp) as (-> & _ & _ & Ht' & Hroom).
  destruct (inv_lent N s I lpos Hl) as [-> Hlt]. destruct (inv_order N s I) as [_ Hh].
  assert (slot N (p_head (prod s)) <> slot N (wrap_u64 (Z.of_nat (length (consumed s))))) as Hne.
  { rewrite (inv_phead N s I), !slot_wrap by (done || lia).
    intros E. symmetry in E. revert E. apply slot_distinct; lia. }
  split_and!; [done| |].
  - rewrite (inv_buf N s I), (inv_phead N s I), slot_wrap by (done || lia).
    apply slot_lt; [done|lia].
  - intros src. unfold deref, write_slot; simpl. by apply list_lookup_insert_ne.
Qed.

(** The publication that completes a write, as one sequential push. *)
Lemma push_reaches s src pos p' :
  reachable N junk s -> idle s ->
  push_slot N (prod s) (r_tail (ring s)) = Some (pos, p') ->
  exists s', reachable N junk s' /\ idle s' /\
    (ring s', prod s') = publish (write_slot N (ring s) pos src) p' /\
    cons s' = cons s /\ pushed s' = pushed s ++ [src] /\ consumed s' = consumed s.
Proof.
  intros Hr [Hw Hl] Hp. pose proof (reachable_inv N HN junk s Hj Hr) as I.
  rewrite (inv_tail N s I) in Hp. destruct (inv_order N s I).
  pose proof (step_write N s src (length (consumed s)) pos p' Hw ltac:(lia) Hp) as S1.
  destruct (publish (write_slot N (ring s) pos src) p') as [r2 p2] eqn:E2.
  eexists. split; [eapply reach_step; [eapply reach_step; [exact Hr|exact S1]|]|].
  { by apply (step_publish N _ r2 p2). }
  by split_and!.
Qed.

Lemma pop_reaches s pos c' :
  reachable N junk s -> idle s -> pop_slot (cons s) (r_head (ring s)) = Some (pos, c') ->
  exists s' x, reachable N junk s' /\ idle s' /\ head (queue s) = Some x /\
    (ring s', cons s') = drop_popped (ring s) c' pos /\ deref N (ring s) pos = Some x /\
    prod s' = prod s /\ pushed s' = pushed s /\ consumed s' = consumed s ++ [x].
Proof.
  intros Hr [Hw Hl] Hp. pose proof (reachable_inv N HN junk s Hj Hr) as I.
  rewrite (inv_head N s I) in Hp. destruct (inv_order N s I).
  pose proof (step_lend N s (n_published s) pos c' Hl ltac:(lia) Hp) as S1.
  match type of S1 with step _ _ ?t => set (s1 := t) in S1 end.
  assert (reachable N junk s1) as Hr1 by (eapply reach_step; eauto).
  destruct (lent_is_oldest s1 pos Hr1 eq_refl) as [Hd1 Hne].
  change (queue s1) with (queue s) in *. change (ring s1) with (ring s) in Hd1.
  destruct (queue s) as [|x q]; [done|]. simpl in Hd1.
  destruct (drop_popped (ring s) c' pos) as [r2 c2] eqn:E2.
  exists (mkSys r2 (prod s) c2 (writing s) None (pushed s) (consumed s ++ [x]) (seen_tail s)
    (seen_head s1)), x.
  split; [|by split_and!]. eapply reach_step; [exact Hr1|]. by apply (step_drop N s1 pos x).
Qed.

(** With the current index loaded, a push is refused exactly on a full ring
    and a pop exactly on an empty one. *)
Lemma push_slot_none s :
  reachable N junk s -> idle s ->
  push_slot N (prod s) (r_tail (ring s)) = None <-> N <= Z.of_nat (length (queue s)).
Proof.
  intros Hr [Hw Hl]. pose proof (reachable_inv N HN junk s Hj Hr) as I.
  pose proof (pow2_capacity_range N HN) as HR. pose proof (inv_room N s I).
  destruct (inv_order N s I). rewrite (queue_length s I), <- (n_published_idle s Hw).
  unfold push_slot. rewrite (inv_phead N s I), (inv_tcache N s I), (inv_tail N s I), !wrap_dist by lia.
  destruct (Z.leb_spec N (Z.of_nat (n_published s) - Z.of_nat (seen_tail s))).
  - destruct (Z.leb_spec N (Z.of_nat (n_published s) - Z.of_nat (length (consumed s))));
      (split; intros; (done || lia)).
  - split; intros; (done || lia).
Qed.

Lemma pop_slot_none s :
  reachable N junk s -> idle s ->
  pop_slot (cons s) (r_head (ring s)) = None <-> queue s = [].
Proof.
  intros Hr [Hw Hl]. pose proof (reachable_inv N HN junk s Hj Hr) as I.
  pose proof (pow2_capacity_range N HN) as HR. pose proof (inv_room N s I).
  destruct (inv_order N s I). rewrite <- length_zero_iff_nil.
  pose proof (queue_length s I) as Hq. rewrite <- (n_published_idle s Hw) in Hq.
  unfold pop_slot. rewrite (inv_ctail N s I), (inv_hcache N s I), (inv_head N s I).
  destruct (Z.eqb_spec (wrap_u64 (Z.of_nat (length (consumed s)))) (wrap_u64 (Z.of_nat (seen_head s)))) as [E|E].
  - destruct (Z.eqb_spec (wrap_u64 (Z.of_nat (n_published s))) (wrap_u64 (Z.of_nat (length (consumed s)))))
      as [E2|E2]; [pose proof (proj1 (wrap_eq_close (Z.of_nat (length (consumed s)))
        (Z.of_nat (n_published s)) ltac:(lia)) (eq_sym E2)); split; intros; (done || lia)|].
    split; [done|]. intros Hz. exfalso. apply E2. f_equal. lia.
  - split; [done|]. intros Hz. exfalso. apply E. f_equal. lia.
Qed.

Lemma push_refines s x :
  reachable N junk s -> idle s ->
  let room := bool_decide (Z.of_nat (length (queue s)) < N) in
  exists s', reachable N junk s' /\ idle s' /\
    try_push_ref N (ring s) (prod s) (r_tail (ring s)) x = (ring s', prod s', room) /\
    cons s' = cons s /\ queue s' = if room then queue s ++ [x] else queue s.
Proof.
  intros Hr Hi room. subst room. pose proof (reachable_inv N HN junk s Hj Hr) as I.
  destruct Hi as [Hw Hl]. assert (idle s) as Hi by done. pose proof (inv_order N s I).
  unfold try_push_ref. destruct (push_slot N (prod s) (r_tail (ring s))) as [[pos p']|] eqn:E.
  - rewrite bool_decide_true by (apply Z.nle_gt; rewrite <- push_slot_none; [by rewrite E|done..]).
    destruct (push_reaches s x pos p' Hr Hi E) as (s' & ? & ? & Ep & Ec & Epu & Eco).
    exists s'. split_and!; try done; [by rewrite <- Ep|].
    unfold queue. rewrite Epu, Eco, drop_app_le; [done|].
    rewrite <- (n_published_idle s Hw). lia.
  - rewrite bool_decide_false by (apply Z.nlt_ge, push_slot_none; done). by exists s.
Qed.

Lemma pop_refines s :
  reachable N junk s -> idle s ->
  exists s', reachable N junk s' /\ idle s' /\
    try_pop_ref N (ring s) (cons s) (r_head (ring s)) = (ring s', cons s', head (queue s)) /\
    prod s' = prod s /\ queue s' = tail (queue s).
Proof.
  intros Hr Hi. unfold try_pop_ref. destruct (pop_slot (cons s) (r_head (ring s))) as [[pos c']|] eqn:E.
  - destruct (pop_reaches s pos c' Hr Hi E) as (s' & y & ? & ? & Hhd & Ep & Ed & Epr & Epu & Eco).
    exists s'. split_and!; try done; [by rewrite <- Ep, Ed, Hhd|].
    unfold queue. rewrite Epu, Eco, length_app, <- drop_drop. simpl.
    by destruct (drop (length (consumed s)) (pushed s)).
  - apply pop_slot_none in E; [|done..]. exists s. by rewrite E.
Qed.

Lemma lengths_refine s :
  reachable N junk s -> idle s ->
  producer_len (ring s) (prod s) = Z.of_nat (length (queue s)) /\
  consumer_len (ring s) (cons s) = Z.of_nat (length (queue s)).
Proof.
  intros Hr [Hw Hl]. pose proof (reachable_inv N HN junk s Hj Hr) as I.
  pose proof (pow2_capacity_range N HN) as HR. destruct (inv_order N s I) as [Ho1 Ho2]. pose proof (inv_room N s I).
  split.
  - unfold producer_len. rewrite (inv_phead N s I), (inv_tail N s I), wrap_dist by lia.
    by rewrite (queue_length s I), (n_published_idle s Hw).
  - unfold consumer_len. rewrite (inv_head N s I), (inv_ctail N s I), wrap_dist by lia.
    by rewrite (queue_length s I), (n_published_idle s Hw).
Qed.

(** Run one call at a time, the ring's push, pop and length are those
    of a bounded FIFO queue: a push succeeds exactly below capacity, a pop
    returns the oldest message exactly when there is one. *)
Theorem ring_refines_bounded_queue s x :
  reachable N junk s -> idle s ->
  let room := bool_decide (Z.of_nat (length (queue s)) < N) in
  (exists s', reachable N junk s' /\ idle s' /\
     try_push_ref N (ring s) (prod s) (r_tail (ring s)) x = (ring s', prod s', room) /\
     cons s' = cons s /\ queue s' = if room then queue s ++ [x] else queue s) /\
  (exists s', reachable N junk s' /\ idle s' /\
     try_pop_ref N (ring s) (cons s) (r_head (ring s)) = (ring s', cons s', head (queue s)) /\
     prod s' = prod s /\ queue s' = tail (queue s)) /\
  producer_len (ring s) (prod s) = Z.of_nat (length (queue s)) /\
  consumer_len (ring s) (cons s) = Z.of_nat (length (queue s)).
Proof.
  intros Hr Hi room. split; [by apply push_refines|]. split; [by apply pop_refines|by apply lengths_refine].
Qed.

End Promises.

(** A two-slot ring after one push, as the witnesses use it. *)
Definition sample_ring : Sys Z :=
  mkSys (mkRing 1 0 [7; 0] true) (mkProducer 1 0) (mkConsumer 0 0) false None [7] [] 0 0.

Lemma pow2_capacity_2 : pow2_capacity 2.
Proof. exists 1. split; [lia|done]. Qed.

(** [sample_ring] between the slot write and its publication. *)
Definition sample_writing : Sys Z :=
  mkSys (mkRing 0 0 [7; 0] true) (mkProducer 0 0) (mkConsumer 0 0) true None [7] [] 0 0.

Lemma sample_ring_reachable : reachable 2 [0; 0] sample_ring.
Proof.
  apply (reach_step 2 [0; 0] sample_writing);
    [apply (reach_step 2 [0; 0] (init [0; 0])); [apply reach_init|]|].
  - exact (step_write 2 (init [0; 0]) 7 0 0 (mkProducer 0 0) eq_refl (conj (le_n 0) (le_n 0)) eq_refl).
  - exact (step_publish 2 sample_writing (mkRing 1 0 [7; 0] true) (mkProducer 1 0) eq_refl eq_refl).
Qed.

Lemma sample_ring_lent_reachable :
  reachable 2 [0; 0]
    (mkSys (mkRing 1 0 [7; 0] true) (mkProducer 1 0) (mkConsumer 0 1) false (Some 0) [7] [] 0 1).
Proof.
  eapply reach_step; [apply sample_ring_reachable|].
  exact (step_lend 2 sample_ring 1 0 (mkConsumer 0 1) eq_refl (conj (le_S _ _ (le_n 0)) (le_n 1)) eq_refl).
Qed.

Lemma ring_is_fifo_witness : reachable 2 [0; 0] sample_ring /\ pushed sample_ring = [] ++ [7].
Proof.
  split; [apply sample_ring_reachable|].
  apply (ring_is_fifo 2 pow2_capacity_2 [0; 0] eq_refl sample_ring sample_ring_reachable).
Defined.

Lemma ring_never_overwrites_lent_slot_witness : slot 2 1 <> slot 2 0.
Proof.
  refine (proj1 (ring_never_overwrites_lent_slot 2 pow2_capacity_2 [0; 0] eq_refl _ 0 1
    (mkProducer 1 0) 0 sample_ring_lent_reachable eq_refl eq_refl _ eq_refl)).
  simpl; lia.
Defined.

Lemma ring_refines_bounded_queue_witness :
  consumer_len (ring sample_ring) (cons sample_ring) = Z.of_nat (length (queue sample_ring)).
Proof.
  refine (proj2 (proj2 (proj2 (ring_refines_bounded_queue 2 pow2_capacity_2 [0; 0] eq_refl
    sample_ring 9 sample_ring_reachable _)))).
  split; reflexivity.
Defined.

(** ** The mailbox

    One slot handed back and forth: FREE is the producer's, FULL the
    consumer's. A load may be stale only towards refusal (a thread never
    reads a state older than its own last store), so a refused [try_fill]
    or [try_take] is a step that changes nothing. *)

Module Mailbox.

Definition FREE : Z := 0.
Definition FULL : Z := 1.

Section Mailbox.
Context {T : Type}.

(** The shared state and slot, the two live guards, and the history of
    committed and freed messages. *)
Record MB := mkMB {
  mb_state : Z;
  mb_slot : T;
  filling : bool;
  taken : bool;
  committed : list T;
  freed : list T
}.

Definition new (v : T) : MB := mkMB FREE v false false [] [].

(** [MailboxTx::try_fill]: a [Filling] guard, only while FREE. *)
Definition try_fill (m : MB) : option MB :=
  if negb (mb_state m =? FREE) then None
  else Some (mkMB (mb_state m) (mb_slot m) true (taken m) (committed m) (freed m)).

(** [Filling::deref_mut]: a write through the guard. *)
Definition fill (m : MB) (v : T) : MB :=
  mkMB (mb_state m) v (filling m) (taken m) (committed m) (freed m).

(** [Filling::commit]. *)
Definition commit (m : MB) : MB :=
  mkMB FULL (mb_slot m) false (taken m) (committed m ++ [mb_slot m]) (freed m).

(** A [Filling] dropped without [commit]. *)
Definition abandon (m : MB) : MB :=
  mkMB (mb_state m) (mb_slot m) false (taken m) (committed m) (freed m).

(** [MailboxRx::try_take]: a [Taken] guard, only while FULL. *)
Definition try_take (m : MB) : option MB :=
  if negb (mb_state m =? FULL) then None
  else Some (mkMB (mb_state m) (mb_slot m) (filling m) true (committed m) (freed m)).

(** [Taken::keep]: the guard goes, the slot stays FULL. *)
Definition keep (m : MB) : MB :=
  mkMB (mb_state m) (mb_slot m) (filling m) false (committed m) (freed m).

(** [Taken::drop]. *)
Definition drop_taken (m : MB) : MB :=
  mkMB FREE (mb_slot m) (filling m) false (committed m) (freed m ++ [mb_slot m]).

Definition is_full (m : MB) : bool := mb_state m =? FULL.

(** The [&mut] receivers: a handle lends one guard at a time. *)
Inductive step : MB -> MB -> Prop :=
| step_fill m m' : filling m = false -> try_fill m = Some m' -> step m m'
| step_write m v : filling m = true -> step m (fill m v)
| step_commit m : filling m = true -> step m (commit m)
| step_abandon m : filling m = true -> step m (abandon m)
| step_take m m' : taken m = false -> try_take m = Some m' -> step m m'
| step_keep m : taken m = true -> step m (keep m)
| step_drop m : taken m = true -> step m (drop_taken m)
| step_refused m : step m m.

Inductive reachable (v : T) : MB -> Prop :=
| reach_new : reachable v (new v)
| reach_step m m' : reachable v m -> step m m' -> reachable v m'.

(** In every reachable state of the single-slot mailbox producer and
    consumer never hold the slot at once, and what the consumer took is what
    the producer committed, in order and without loss. *)
Theorem mailbox_exclusive_and_lossless v m :
  reachable v m ->
  (filling m = true -> mb_state m = FREE) /\
  (taken m = true -> mb_state m = FULL) /\
  filling m && taken m = false /\
  committed m = freed m ++ (if is_full m then [mb_slot m] else []).
Proof.
  induction 1 as [|m m' _ (Hf & Ht & Hx & Hc) Hs]; [done|].
  unfold is_full in *.
  destruct Hs as [m m' Hg E|m w Hg|m Hg|m Hg|m m' Hg E|m Hg|m Hg|m]; simpl; try by split_and!.
  - unfold try_fill in E. destruct (Z.eqb_spec (mb_state m) FREE) as [Es|]; simplify_eq/=.
    split_and!; try done. destruct (taken m); [|done]. specialize (Ht eq_refl). by rewrite Es in Ht.
  - specialize (Hf Hg). rewrite Hf in *. destruct (taken m) eqn:Et; [by specialize (Ht eq_refl)|].
    by split_and!.
  - specialize (Hf Hg). rewrite Hf in *. rewrite Hg in Hx. simpl in *.
    rewrite app_nil_r in Hc. subst. by rewrite Hc, Hx.
  - unfold try_take in E. destruct (Z.eqb_spec (mb_state m) FULL) as [Es|]; simplify_eq/=.
    split_and!; try done; [|by rewrite Es in *].
    destruct (filling m); [|done]. specialize (Hf eq_refl). by rewrite Es in Hf.
  - split_and!; try done. apply andb_false_r.
  - specialize (Ht Hg). rewrite Ht in *. destruct (filling m) eqn:Ef; [by specialize (Hf eq_refl)|].
    split_and!; try done. simpl in *. by rewrite app_nil_r.
Qed.

End Mailbox.
End Mailbox.

Lemma mailbox_exclusive_and_lossless_witness :
  let m := Mailbox.commit (Mailbox.fill (Mailbox.mkMB 0 3 true false [] []) 5) in
  Mailbox.committed m = Mailbox.freed m ++ [5].
Proof.
  intros m. apply (Mailbox.mailbox_exclusive_and_lossless 3 m).
  eapply Mailbox.reach_step; [eapply Mailbox.reach_step;
    [eapply Mailbox.reach_step; [apply Mailbox.reach_new|]|]|].
  - by apply (Mailbox.step_fill (Mailbox.new 3) (Mailbox.mkMB 0 3 true false [] [])).
  - by apply (Mailbox.step_write _ 5).
  - by apply Mailbox.step_commit.
Defined.
