(* ===== verification/FillLaw.v ===== *)
(** * [crates/core-fill/src/lib.rs]: the one modelled fill law

    Touch evidence, expiry, and the two verdicts a tick gives an order: an
    immediate-or-cancel taker judged once at the touch, and a resting maker
    judged by strict cross. Both decrement the budgets (the tick's displayed
    sizes) every order of that tick shares. *)

From S2P Require Import Prelude CoreTypes.

Definition ORDER_KIND_MAKER : Z := 0.
Definition ORDER_KIND_IOC : Z := 1.
Definition ORDER_KIND_AMM_SWAP : Z := 2.

(** The Binance European options' ordinal block. *)
Definition BN_OPTION_ORDINALS : Z * Z := (1025, 2048).

Definition signal_only_sym (sym : Z) : bool :=
  let ord := symbol_ordinal sym in
  (symbol_venue_byte sym =? VENUE_BINANCE)
  && (fst BN_OPTION_ORDINALS <=? ord) && (ord <? snd BN_OPTION_ORDINALS).

Definition MAX_OPEN_PER_SYM : nat := 8.
Definition MAX_OPEN_TOTAL : nat := 64.
Definition MS : Z := 1000000.

(** Activation delay per venue byte, ns. *)
Definition ACTIVATION_NS_DEFAULT : list Z :=
  [200 * MS; 130 * MS; 130 * MS; 220 * MS; 340 * MS; 0; 60 * MS; 150 * MS;
   1000 * MS; 130 * MS; 0].

Definition QUEUE_VENUE : list bool :=
  [false; false; false; false; true; false; false; false; false; false; false].

Definition queue_venue (venue : nat) : bool :=
  (venue <? VENUE_COUNT)%nat && default false (QUEUE_VENUE !! venue).

Definition judged_by_queue (venue : nat) (kind flags : Z) : bool :=
  (kind =? ORDER_KIND_MAKER)
  && negb (Z.land flags ORDER_FLAG_POST_ONLY =? 0)
  && queue_venue venue.

Record Touch := mkTouch {
  bid_1e6 : Z;
  ask_1e6 : Z;
  bid_qty_1e6 : Z;
  ask_qty_1e6 : Z
}.

#[global] Instance touch_eq_dec : EqDecision Touch.
Proof. solve_decision. Defined.

(** [Touch::of]: negative sizes clamp to zero. *)
Definition touch_of (t : Tick) : Touch :=
  mkTouch (tk_bid_px t) (tk_ask_px t)
    (if 0 <? tk_bid_qty t then tk_bid_qty t else 0)
    (if 0 <? tk_ask_qty t then tk_ask_qty t else 0).

Definition two_sided (t : Touch) : bool := (0 <? bid_1e6 t) && (0 <? ask_1e6 t).

Inductive Verdict : Type :=
| Wait
| Filled (px qty : Z)
| Cancel.

Definition is_fill_evidence (t : Tick) : bool :=
  negb (is_stale t) && (0 <? tk_bid_px t) && (0 <? tk_ask_px t).

Definition expiry_at (emit_ns ttl_ns : Z) : Z :=
  if ttl_ns =? 0 then 0 else sat_u64 (emit_ns + ttl_ns).

Definition expired_at (now_ns expiry_ns : Z) : bool :=
  negb (expiry_ns =? 0) && (expiry_ns <=? now_ns).

Definition ttl_expired (now_ns emit_ns ttl_ns : Z) : bool :=
  expired_at now_ns (expiry_at emit_ns ttl_ns).

(** The shared budgets: the printed ask size, the printed bid size. *)
Record Budgets := mkBudgets { ask_budget : Z; bid_budget : Z }.

Definition judge_ioc (side : Side) (px remaining : Z) (t : Touch) (b : Budgets)
  : Verdict * Budgets :=
  match side with
  | Bid =>
      if (ask_1e6 t <=? px) && (0 <? ask_budget b) then
        let q := if remaining <? ask_budget b then remaining else ask_budget b in
        if q <=? 0 then (Cancel, b)
        else (Filled (ask_1e6 t) q, mkBudgets (ask_budget b - q) (bid_budget b))
      else (Cancel, b)
  | Ask =>
      if (px <=? bid_1e6 t) && (0 <? bid_budget b) then
        let q := if remaining <? bid_budget b then remaining else bid_budget b in
        if q <=? 0 then (Cancel, b)
        else (Filled (bid_1e6 t) q, mkBudgets (ask_budget b) (bid_budget b - q))
      else (Cancel, b)
  end.

Definition judge_maker (side : Side) (px remaining : Z) (t : Touch) (b : Budgets)
  : Verdict * Budgets :=
  match side with
  | Bid =>
      if (ask_1e6 t <? px) && (0 <? ask_budget b) then
        let q := if remaining <? ask_budget b then remaining else ask_budget b in
        if q <=? 0 then (Wait, b)
        else (Filled px q, mkBudgets (ask_budget b - q) (bid_budget b))
      else (Wait, b)
  | Ask =>
      if (px <? bid_1e6 t) && (0 <? bid_budget b) then
        let q := if remaining <? bid_budget b then remaining else bid_budget b in
        if q <=? 0 then (Wait, b)
        else (Filled px q, mkBudgets (ask_budget b) (bid_budget b - q))
      else (Wait, b)
  end.

(** ** The law over one tick *)

(** One order of the tick's symbol: its kind, side, limit and remainder. *)
Record TickOrder := mkTickOrder { to_ioc : bool; to_side : Side; to_px : Z; to_rem : Z }.

Definition judge_order (t : Touch) (b : Budgets) (o : TickOrder) : Verdict * Budgets :=
  (if to_ioc o then judge_ioc else judge_maker) (to_side o) (to_px o) (to_rem o) t b.

(** The tick's orders in emit order, sharing one pair of budgets. *)
Fixpoint judge_fifo (t : Touch) (b : Budgets) (os : list TickOrder) : list Verdict * Budgets :=
  match os with
  | [] => ([], b)
  | o :: os' =>
      let '(v, b1) := judge_order t b o in
      let '(vs, b2) := judge_fifo t b1 os' in
      (v :: vs, b2)
  end.

Definition verdict_qty (v : Verdict) : Z := match v with Filled _ q => q | _ => 0 end.

(** What the orders of one side filled on the tick. *)
Definition side_filled (s : Side) (ovs : list (TickOrder * Verdict)) : Z :=
  sumZ (fun ov => if side_eqb (to_side ov.1) s then verdict_qty ov.2 else 0) ovs.

(** What a fill owes its order: the limit is honoured (a taker takes the
    touch, a maker gets its own limit on a strict cross), the size is
    positive and no larger than the remainder. *)
Definition fill_honours (t : Touch) (o : TickOrder) (px q : Z) : Prop :=
  0 < q <= to_rem o /\
  match to_side o with
  | Bid => if to_ioc o then px = ask_1e6 t /\ px <= to_px o else px = to_px o /\ ask_1e6 t < px
  | Ask => if to_ioc o then px = bid_1e6 t /\ to_px o <= px else px = to_px o /\ px < bid_1e6 t
  end.

Definition verdict_ok (t : Touch) (o : TickOrder) (v : Verdict) : Prop :=
  match v with
  | Wait => to_ioc o = false
  | Cancel => to_ioc o = true
  | Filled px q => fill_honours t o px q
  end.

Lemma judge_order_spec t b o v b' :
  judge_order t b o = (v, b') ->
  verdict_ok t o v /\
  ask_budget b' = ask_budget b - (if side_eqb (to_side o) Bid then verdict_qty v else 0) /\
  bid_budget b' = bid_budget b - (if side_eqb (to_side o) Ask then verdict_qty v else 0) /\
  (0 <= ask_budget b -> 0 <= ask_budget b') /\ (0 <= bid_budget b -> 0 <= bid_budget b').
Proof.
  unfold judge_order, judge_ioc, judge_maker, verdict_ok, fill_honours.
  cbv zeta. destruct (to_ioc o), (to_side o); case_ifs; intros [= <- <-]; simpl; split_and!; (done || lia).
Qed.

(** An order that could trade is never left untouched while its budget lasts. *)
Lemma judge_order_fills t b o :
  0 < to_rem o ->
  match to_side o with
  | Bid => ask_1e6 t < to_px o /\ 0 < ask_budget b
  | Ask => to_px o < bid_1e6 t /\ 0 < bid_budget b
  end ->
  verdict_qty (judge_order t b o).1 =
    Z.min (to_rem o) (match to_side o with Bid => ask_budget b | Ask => bid_budget b end).
Proof.
  intros Hr. unfold judge_order, judge_ioc, judge_maker.
  cbv zeta. destruct (to_ioc o), (to_side o); intros [H1 H2]; case_ifs; simpl; lia.
Qed.

(** The orders judged on one tick, in order, are filled on each side
    for no more than the size the tick displays, each at a price its own
    limit allows, an IOC never resting and a maker only on a strict cross. *)
Theorem tick_fills_share_one_displayed_size t os vs b' :
  0 <= ask_qty_1e6 t -> 0 <= bid_qty_1e6 t ->
  judge_fifo t (mkBudgets (ask_qty_1e6 t) (bid_qty_1e6 t)) os = (vs, b') ->
  Forall2 (verdict_ok t) os vs /\
  side_filled Bid (zip os vs) = ask_qty_1e6 t - ask_budget b' /\ 0 <= ask_budget b' /\
  side_filled Ask (zip os vs) = bid_qty_1e6 t - bid_budget b' /\ 0 <= bid_budget b'.
Proof.
  intros Ha Hb H.
  assert (forall b, 0 <= ask_budget b -> 0 <= bid_budget b -> judge_fifo t b os = (vs, b') ->
    Forall2 (verdict_ok t) os vs /\
    side_filled Bid (zip os vs) = ask_budget b - ask_budget b' /\ 0 <= ask_budget b' /\
    side_filled Ask (zip os vs) = bid_budget b - bid_budget b' /\ 0 <= bid_budget b') as Hgen.
  { clear H Ha Hb. revert vs. induction os as [|o os IH]; intros vs b Ha Hb H; simplify_eq/=.
    - split_and!; try done; unfold side_filled; simpl; lia.
    - destruct (judge_order t b o) as [v b1] eqn:E1. destruct (judge_fifo t b1 os) as [vs1 b2] eqn:E2.
      simplify_eq. destruct (judge_order_spec _ _ _ _ _ E1) as (Hok & Ea & Eb & Pa & Pb).
      destruct (IH _ _ (Pa Ha) (Pb Hb) E2) as (HF & Sa & ? & Sb & ?).
      unfold side_filled in *; simpl. split_and!; try done; [by constructor|lia..]. }
  exact (Hgen (mkBudgets _ _) Ha Hb H).
Qed.

(** Two bids and an offer against one tick: the second bid gets the rest. *)
Lemma tick_fills_share_one_displayed_size_witness :
  let t := mkTouch 99 100 5 10 in
  let os := [mkTickOrder true Bid 100 7; mkTickOrder false Bid 101 6; mkTickOrder true Ask 99 2] in
  judge_fifo t (mkBudgets 10 5) os = ([Filled 100 7; Filled 101 3; Filled 99 2], mkBudgets 0 3) /\
  side_filled Bid (zip os [Filled 100 7; Filled 101 3; Filled 99 2]) = 10.
Proof.
  split; [reflexivity|].
  destruct (tick_fills_share_one_displayed_size (mkTouch 99 100 5 10)
    [mkTickOrder true Bid 100 7; mkTickOrder false Bid 101 6; mkTickOrder true Ask 99 2]
    [Filled 100 7; Filled 101 3; Filled 99 2] (mkBudgets 0 3)) as (_ & H & _);
    [simpl; lia|simpl; lia|reflexivity|exact H].
Defined.

(** An order expires exactly at the end of its time to live. *)
Lemma ttl_expired_spec now emit ttl :
  0 <= now -> 0 <= emit -> 0 <= ttl -> emit + ttl <= u64_max ->
  ttl_expired now emit ttl = bool_decide (0 < ttl /\ emit + ttl <= now).
Proof.
  intros Hn He Ht Hm. unfold ttl_expired, expired_at, expiry_at.
  destruct (Z.eqb_spec ttl 0) as [->|Hz].
  - by rewrite bool_decide_false by lia.
  - unfold sat_u64, clamp, u64_max in *. rewrite Z.min_r, Z.max_r by lia.
    rewrite (proj2 (Z.eqb_neq _ 0)) by lia. simpl.
    destruct (Z.leb_spec (emit + ttl) now); symmetry;
      [apply bool_decide_eq_true|apply bool_decide_eq_false]; lia.
Qed.

(** Every option of the Binance block is a signal leg, nothing else on the
    venue is, and a queue venue is Hyperliquid alone. *)
Lemma signal_only_block o :
  0 <= o <= SYMBOL_ORDINAL_MASK ->
  signal_only_sym (make_symbol_id VENUE_BINANCE o) = bool_decide (1025 <= o < 2048).
Proof.
  intros Ho. unfold signal_only_sym. rewrite symbol_ordinal_make by (done || unfold VENUE_BINANCE; lia).
  assert (symbol_venue_byte (make_symbol_id VENUE_BINANCE o) = VENUE_BINANCE) as ->.
  { unfold symbol_venue_byte, make_symbol_id, SYMBOL_VENUE_SHIFT, VENUE_BINANCE, SYMBOL_ORDINAL_MASK in *.
    change 16777215 with (Z.ones 24). rewrite Z.land_ones by lia.
    change (2 ^ 24) with 16777216. rewrite Z.mod_small by lia.
    rewrite lor_shiftl by (change (2 ^ 24) with 16777216; lia).
    rewrite Z.shiftr_div_pow2 by lia. change (2 ^ 24) with 16777216.
    replace ((1 * 16777216 + o) / 16777216) with 1; [done|].
    Z.to_euclidean_division_equations. lia. }
  simpl. case_bool_decide; lia.
Qed.

Lemma queue_venue_is_hyperliquid v : queue_venue v = bool_decide (v = Z.to_nat VENUE_HYPERLIQUID).
Proof. do 11 (destruct v as [|v]; [done|]). unfold queue_venue, VENUE_COUNT. by simpl. Qed.
