(* ===== verification/QueueLaw.v ===== *)
(** * [crates/core-fill/src/queue.rs]: a post-only order in a price-time queue

    [QueueBook]: the held orders in emit order, the last touch per symbol
    and the events waiting for the consumer. The held prefix [orders[..len]]
    with its parallel [links] is a list of orders (a removal shifts the tail
    left, nothing reads past [len]); the out ring [out[out_head..]] is the
    list of its [out_len] waiting events, with the capacity test of [emit].
    The loops that remove while they scan are recursions on the part of the
    table not yet visited. *)

From S2P Require Import Prelude CoreTypes FillLaw.

Definition QUEUE_MAX_ORDERS : nat := 32.
Definition QUEUE_MAX_SYMS : nat := 8.
Definition QUEUE_OUT_CAP : nat := 3 * QUEUE_MAX_ORDERS.
Definition QUEUE_AHEAD_UNKNOWN : Z := -1.
Definition QUEUE_NEVER : Z := u64_max.
Definition QUEUE_EVENT_FILL : Z := 16.

(** [ST_PENDING] / [ST_RESTING]. *)
Inductive OrderState : Type := Pending | Resting.

#[global] Instance order_state_eq_dec : EqDecision OrderState.
Proof. solve_decision. Defined.

Definition is_pending (s : OrderState) : bool := match s with Pending => true | Resting => false end.

(** One held order; [q_link] is its entry of [links] (0 = a plain placement). *)
Record QueueOrder := mkQueueOrder {
  q_oid : Z;
  q_px : Z;
  q_remaining : Z;
  q_ahead : Z;
  q_ready : Z;
  q_cancel : Z;
  q_sym : Z;
  q_side : Side;
  q_slot : Z;
  q_state : OrderState;
  q_reason : Z;
  q_expiry : Z;
  q_link : Z
}.

Definition set_remaining (r : Z) (o : QueueOrder) : QueueOrder :=
  mkQueueOrder (q_oid o) (q_px o) r (q_ahead o) (q_ready o) (q_cancel o) (q_sym o)
    (q_side o) (q_slot o) (q_state o) (q_reason o) (q_expiry o) (q_link o).

Definition set_ahead (a : Z) (o : QueueOrder) : QueueOrder :=
  mkQueueOrder (q_oid o) (q_px o) (q_remaining o) a (q_ready o) (q_cancel o) (q_sym o)
    (q_side o) (q_slot o) (q_state o) (q_reason o) (q_expiry o) (q_link o).

Definition set_resting (o : QueueOrder) : QueueOrder :=
  mkQueueOrder (q_oid o) (q_px o) (q_remaining o) (q_ahead o) (q_ready o) (q_cancel o) (q_sym o)
    (q_side o) (q_slot o) Resting (q_reason o) (q_expiry o) (q_link o).

Definition set_cancel (t reason : Z) (o : QueueOrder) : QueueOrder :=
  mkQueueOrder (q_oid o) (q_px o) (q_remaining o) (q_ahead o) (q_ready o) t (q_sym o)
    (q_side o) (q_slot o) (q_state o) reason (q_expiry o) (q_link o).

Definition set_link (l : Z) (o : QueueOrder) : QueueOrder :=
  mkQueueOrder (q_oid o) (q_px o) (q_remaining o) (q_ahead o) (q_ready o) (q_cancel o) (q_sym o)
    (q_side o) (q_slot o) (q_state o) (q_reason o) (q_expiry o) l.

Record QueuePlace := mkQueuePlace {
  pl_oid : Z;
  pl_sym : Z;
  pl_side : Side;
  pl_slot : Z;
  pl_px : Z;
  pl_qty : Z;
  pl_ready : Z;
  pl_expiry : Z
}.

Inductive QueueRefusal : Type := Invalid | Full | SymsFull | NoSuchOrder | Ambiguous.

Record QueueEvent := mkQueueEvent {
  ev_t : Z;
  ev_oid : Z;
  ev_px : Z;
  ev_qty : Z;
  ev_sym : Z;
  ev_side : Side;
  ev_slot : Z;
  ev_kind : Z;
  ev_reason : Z
}.

Record QueueCounters := mkQueueCounters {
  n_placed : Z;
  n_refused : Z;
  n_rested : Z;
  n_rejected_alo : Z;
  n_dropped_touch : Z;
  n_canceled : Z;
  n_fills : Z;
  n_filled : Z;
  n_out_overflow : Z;
  n_stale_modify : Z
}.

(** Which counter an operation bumps ([wrapping_add(1)] on [u64]). *)
Inductive counter : Type :=
| C_placed | C_refused | C_rested | C_rejected_alo | C_dropped_touch
| C_canceled | C_fills | C_filled | C_out_overflow | C_stale_modify.

Definition bump (k : counter) (c : QueueCounters) : QueueCounters :=
  let i k' v := match k, k' with
    | C_placed, C_placed | C_refused, C_refused | C_rested, C_rested
    | C_rejected_alo, C_rejected_alo | C_dropped_touch, C_dropped_touch
    | C_canceled, C_canceled | C_fills, C_fills | C_filled, C_filled
    | C_out_overflow, C_out_overflow | C_stale_modify, C_stale_modify => wrap_u64 (v + 1)
    | _, _ => v end in
  mkQueueCounters (i C_placed (n_placed c)) (i C_refused (n_refused c)) (i C_rested (n_rested c))
    (i C_rejected_alo (n_rejected_alo c)) (i C_dropped_touch (n_dropped_touch c))
    (i C_canceled (n_canceled c)) (i C_fills (n_fills c)) (i C_filled (n_filled c))
    (i C_out_overflow (n_out_overflow c)) (i C_stale_modify (n_stale_modify c)).

Record SymTouch := mkSymTouch { st_sym : Z; st_known : bool; st_touch : Touch }.

(** What every loop of the book threads: the waiting events and the counters. *)
Record Log := mkLog { lg_out : list QueueEvent; lg_counters : QueueCounters }.

Record QueueBook := mkQueueBook {
  held : list QueueOrder;
  syms : list SymTouch;
  qlog : Log;
  parity_sim : bool
}.

Definition QueueBook_new : QueueBook :=
  mkQueueBook [] [] (mkLog [] (mkQueueCounters 0 0 0 0 0 0 0 0 0 0)) false.

Definition set_held (h : list QueueOrder) (b : QueueBook) : QueueBook :=
  mkQueueBook h (syms b) (qlog b) (parity_sim b).
Definition set_syms (s : list SymTouch) (b : QueueBook) : QueueBook :=
  mkQueueBook (held b) s (qlog b) (parity_sim b).
Definition set_log (l : Log) (b : QueueBook) : QueueBook :=
  mkQueueBook (held b) (syms b) l (parity_sim b).

(** [parity_sim] is a public field: the parity gate sets it. *)
Definition set_parity_sim (on : bool) (b : QueueBook) : QueueBook :=
  mkQueueBook (held b) (syms b) (qlog b) on.

Definition count (k : counter) (l : Log) : Log := mkLog (lg_out l) (bump k (lg_counters l)).
Definition count_book (k : counter) (b : QueueBook) : QueueBook := set_log (count k (qlog b)) b.

(** [emit]: append one event, or count an overflow. *)
Definition emit (t : Z) (o : QueueOrder) (kind reason qty : Z) (l : Log) : Log :=
  if (QUEUE_OUT_CAP <=? length (lg_out l))%nat then count C_out_overflow l
  else mkLog (lg_out l ++ [mkQueueEvent t (q_oid o) (q_px o) qty (q_sym o) (q_side o)
                             (q_slot o) kind reason])
         (lg_counters l).

(** [try_next_event]: pop, FIFO. *)
Definition try_next_event (b : QueueBook) : QueueBook * option QueueEvent :=
  match lg_out (qlog b) with
  | [] => (b, None)
  | e :: out => (set_log (mkLog out (lg_counters (qlog b))) b, Some e)
  end.

(** ** Lookup *)

Definition same_key (oid slot : Z) (o : QueueOrder) : bool :=
  (q_oid o =? oid) && (q_slot o =? slot).

(** [find]: the scan, remembering the one match seen so far. *)
Fixpoint find_from (oid slot : Z) (i : nat) (found : option nat) (os : list QueueOrder)
  : result nat QueueRefusal :=
  match os with
  | [] => match found with Some j => Ok j | None => Err NoSuchOrder end
  | o :: os' =>
      if same_key oid slot o then
        match found with
        | Some _ => Err Ambiguous
        | None => find_from oid slot (S i) (Some i) os'
        end
      else find_from oid slot (S i) found os'
  end.

Definition find (oid slot : Z) (os : list QueueOrder) : result nat QueueRefusal :=
  find_from oid slot 0 None os.

(** [lookup] and [get]. *)
Definition qb_lookup (b : QueueBook) (oid slot : Z) : result QueueOrder QueueRefusal :=
  match find oid slot (held b) with
  | Ok i => match held b !! i with Some o => Ok o | None => Err NoSuchOrder end
  | Err e => Err e
  end.

Definition qb_get (b : QueueBook) (oid slot : Z) : option QueueOrder :=
  match find oid slot (held b) with Ok i => held b !! i | Err _ => None end.

Definition is_resting (b : QueueBook) (oid slot : Z) : bool :=
  match qb_get b oid slot with Some o => negb (is_pending (q_state o)) | None => false end.

Fixpoint sym_index (sym : Z) (ss : list SymTouch) : option nat :=
  match ss with
  | [] => None
  | s :: ss' => if st_sym s =? sym then Some 0%nat else S <$> sym_index sym ss'
  end.

Definition track (sym : Z) (b : QueueBook) : QueueBook * result unit QueueRefusal :=
  match sym_index sym (syms b) with
  | Some _ => (b, Ok tt)
  | None =>
      if (QUEUE_MAX_SYMS <=? length (syms b))%nat then (b, Err SymsFull)
      else (set_syms (syms b ++ [mkSymTouch sym false (mkTouch 0 0 0 0)]) b, Ok tt)
  end.

(** ** Placements, cancels, modifies *)

Definition place (p : QueuePlace) (b : QueueBook) : QueueBook * result unit QueueRefusal :=
  if (pl_px p <=? 0) || (pl_qty p <=? 0) then (count_book C_refused b, Err Invalid)
  else if (QUEUE_MAX_ORDERS <=? length (held b))%nat then (count_book C_refused b, Err Full)
  else
    match track (pl_sym p) b with
    | (b1, Err e) => (count_book C_refused b1, Err e)
    | (b1, Ok _) =>
        let o := mkQueueOrder (pl_oid p) (pl_px p) (pl_qty p) QUEUE_AHEAD_UNKNOWN (pl_ready p)
                   (pl_expiry p) (pl_sym p) (pl_side p) (pl_slot p) Pending
                   ORDER_EVENT_REASON_EXPIRED (pl_expiry p) 0 in
        (count_book C_placed (set_held (held b1 ++ [o]) b1), Ok tt)
    end.

(** An earlier scheduled cancel is kept, with its own reason. *)
Definition schedule (t reason : Z) (o : QueueOrder) : QueueOrder :=
  if t <? q_cancel o then set_cancel t reason o else o.

Definition schedule_cancel (oid slot t reason : Z) (b : QueueBook)
  : QueueBook * result unit QueueRefusal :=
  match find oid slot (held b) with
  | Err e => (b, Err e)
  | Ok i => (set_held (alter (schedule t reason) i (held b)) b, Ok tt)
  end.

Definition qb_cancel (oid slot t : Z) (b : QueueBook) : QueueBook * result unit QueueRefusal :=
  schedule_cancel oid slot t ORDER_EVENT_REASON_CANCEL_REQUESTED b.

Definition with_expiry (e : Z) (p : QueuePlace) : QueuePlace :=
  mkQueuePlace (pl_oid p) (pl_sym p) (pl_side p) (pl_slot p) (pl_px p) (pl_qty p) (pl_ready p) e.

Definition modify (prev : Z) (new : QueuePlace) (b : QueueBook)
  : QueueBook * result unit QueueRefusal :=
  if (pl_px new <=? 0) || (pl_qty new <=? 0) then (count_book C_refused b, Err Invalid)
  else
    match find prev (pl_slot new) (held b) with
    | Err e => (b, Err e)
    | Ok i =>
        if (QUEUE_MAX_ORDERS <=? length (held b))%nat then (count_book C_refused b, Err Full)
        else
          let b1 := set_held (alter (schedule (pl_ready new) ORDER_EVENT_REASON_REPLACED) i (held b)) b in
          let expiry := match held b !! i with Some o => q_expiry o | None => pl_expiry new end in
          match place (with_expiry expiry new) b1 with
          | (b2, Err e) => (b2, Err e)
          | (b2, Ok _) =>
              (set_held (alter (set_link prev) (pred (length (held b2))) (held b2)) b2, Ok tt)
          end
    end.

(** ** Landing what is due *)

Definition crosses (known : bool) (tb : Touch) (o : QueueOrder) : bool :=
  known && match q_side o with
           | Bid => ask_1e6 tb <=? q_px o
           | Ask => q_px o <=? bid_1e6 tb
           end.

Definition touch_px (tb : Touch) (s : Side) : Z :=
  match s with Bid => bid_1e6 tb | Ask => ask_1e6 tb end.
Definition touch_qty (tb : Touch) (s : Side) : Z :=
  match s with Bid => bid_qty_1e6 tb | Ask => ask_qty_1e6 tb end.

Definition improves (tb : Touch) (o : QueueOrder) : bool :=
  match q_side o with
  | Bid => touch_px tb Bid <? q_px o
  | Ask => q_px o <? touch_px tb Ask
  end.

(** The queue ahead of an order as it lands. *)
Definition ahead_at_landing (known : bool) (tb : Touch) (o : QueueOrder) : Z :=
  if negb known then QUEUE_AHEAD_UNKNOWN
  else if q_px o =? touch_px tb (q_side o) then touch_qty tb (q_side o)
  else if improves tb o then 0
  else QUEUE_AHEAD_UNKNOWN.

(** What landing does to one due placement, in the table [table] as it stands. *)
Inductive landing : Type :=
| Land_reject (reason : Z) (k : counter)
| Land_rest (ahead : Z).

Definition land (parity known : bool) (tb : Touch) (table : list QueueOrder) (o : QueueOrder) : landing :=
  if negb (q_link o =? 0) && negb (is_ok (find (q_link o) (q_slot o) table))
  then Land_reject ORDER_EVENT_REASON_OTHER C_stale_modify
  else if crosses known tb o then Land_reject ORDER_EVENT_REASON_BAD_ALO_PX C_rejected_alo
  else if parity && (negb known || negb (q_px o =? touch_px tb (q_side o)))
  then Land_reject ORDER_EVENT_REASON_OTHER C_dropped_touch
  else Land_rest (ahead_at_landing known tb o).

(** Not a due placement of [sym]: the first loop of [advance] skips it. *)
Definition not_due (sym t : Z) (o : QueueOrder) : bool :=
  negb (q_sym o =? sym) || negb (is_pending (q_state o)) || (t <? q_ready o).

(** The placement loop: [done] is the table below the cursor. *)
Fixpoint place_loop (parity known : bool) (tb : Touch) (sym t : Z)
    (done todo : list QueueOrder) (l : Log) : list QueueOrder * Log :=
  match todo with
  | [] => (done, l)
  | o :: todo' =>
      if not_due sym t o then place_loop parity known tb sym t (done ++ [o]) todo' l
      else
        match land parity known tb (done ++ o :: todo') o with
        | Land_reject reason k =>
            place_loop parity known tb sym t done todo'
              (count k (emit t o ORDER_EVENT_REJECTED reason 0 l))
        | Land_rest a =>
            place_loop parity known tb sym t (done ++ [set_resting (set_ahead a o)]) todo'
              (count C_rested (emit t o ORDER_EVENT_RESTING ORDER_EVENT_REASON_NONE 0 l))
        end
  end.

Definition cancel_due (sym t : Z) (o : QueueOrder) : bool :=
  (q_sym o =? sym) && negb (is_pending (q_state o)) && (q_cancel o <=? t).

(** The cancel loop. *)
Fixpoint cancel_loop (sym t : Z) (todo : list QueueOrder) (l : Log) : list QueueOrder * Log :=
  match todo with
  | [] => ([], l)
  | o :: todo' =>
      if cancel_due sym t o then
        cancel_loop sym t todo' (count C_canceled (emit t o ORDER_EVENT_CANCELED (q_reason o) 0 l))
      else
        let '(kept, l') := cancel_loop sym t todo' l in (o :: kept, l')
  end.

Definition advance (sym t : Z) (b : QueueBook) : QueueBook :=
  match sym_index sym (syms b) with
  | None => b
  | Some k =>
      match syms b !! k with
      | None => b
      | Some s =>
          let '(h1, l1) := place_loop (parity_sim b) (st_known s) (st_touch s) sym t [] (held b) (qlog b) in
          let '(h2, l2) := cancel_loop sym t h1 l1 in
          set_log l2 (set_held h2 b)
      end
  end.

(** Every other tracked symbol of the record's venue. *)
Definition advance_venue (record_sym t : Z) (b : QueueBook) : QueueBook :=
  if parity_sim b || (length (held b) =? 0)%nat then b
  else
    foldl (fun b s =>
      if negb (st_sym s =? record_sym)
         && (symbol_venue_byte (st_sym s) =? symbol_venue_byte record_sym)
      then advance (st_sym s) t b else b) b (syms b).

(** ** Books and prints *)

Definition remember (k : nat) (touch : Touch) (b : QueueBook) : QueueBook :=
  set_syms (alter (fun s => mkSymTouch (st_sym s) true touch) k (syms b)) b.

(** An order behind the touch joins its queue when the touch reaches it. *)
Definition join_queue (sym : Z) (tb : Touch) (o : QueueOrder) : QueueOrder :=
  if (q_sym o =? sym) && negb (is_pending (q_state o)) && (q_ahead o =? QUEUE_AHEAD_UNKNOWN)
     && (q_px o =? touch_px tb (q_side o))
  then set_ahead (touch_qty tb (q_side o)) o
  else o.

Definition on_book (sym : Z) (touch : Touch) (t : Z) (b : QueueBook) : QueueBook :=
  let b0 := advance_venue sym t b in
  match sym_index sym (syms b0) with
  | None => b0
  | Some k =>
      let ts := two_sided touch in
      let b1 := if parity_sim b0 && ts then remember k touch b0 else b0 in
      let b2 := advance sym t b1 in
      let b3 := if negb (parity_sim b2) && ts then remember k touch b2 else b2 in
      match syms b3 !! k with
      | Some s =>
          if st_known s then set_held (map (join_queue sym (st_touch s)) (held b3)) b3 else b3
      | None => b3
      end
  end.

Definition through (hit : Side) (px : Z) (o : QueueOrder) : bool :=
  match hit with Bid => px <? q_px o | Ask => q_px o <? px end.

(** What one print does to one order it can reach: the fill, the queue ahead
    it leaves, and the print's size left for the orders behind. *)
Definition print_one (hit : Side) (px left : Z) (o : QueueOrder) : Z * Z * Z :=
  if through hit px o then (q_remaining o, q_ahead o, left)
  else if (px =? q_px o) && negb (q_ahead o =? QUEUE_AHEAD_UNKNOWN) then
    let take := if q_ahead o <? left then q_ahead o else left in
    let left1 := left - take in
    let f := if q_remaining o <? left1 then q_remaining o else left1 in
    (f, q_ahead o - take, left1 - f)
  else (0, q_ahead o, left).

Definition print_skips (sym : Z) (hit : Side) (o : QueueOrder) : bool :=
  negb (q_sym o =? sym) || is_pending (q_state o) || negb (side_eqb (q_side o) hit).

Fixpoint print_loop (sym px : Z) (hit : Side) (t left : Z) (todo : list QueueOrder) (l : Log)
  : list QueueOrder * Log :=
  match todo with
  | [] => ([], l)
  | o :: todo' =>
      if print_skips sym hit o then
        let '(kept, l') := print_loop sym px hit t left todo' l in (o :: kept, l')
      else
        let '(fill, ahead, left') := print_one hit px left o in
        if fill <=? 0 then
          let '(kept, l') := print_loop sym px hit t left' todo' l in (set_ahead ahead o :: kept, l')
        else
          let l1 := count C_fills (emit t o QUEUE_EVENT_FILL ORDER_EVENT_REASON_NONE fill l) in
          let rem := q_remaining o - fill in
          if 0 <? rem then
            let '(kept, l') := print_loop sym px hit t left' todo' l1 in
            (set_remaining rem (set_ahead ahead o) :: kept, l')
          else
            print_loop sym px hit t left' todo'
              (count C_filled (emit t o ORDER_EVENT_FILLED ORDER_EVENT_REASON_NONE 0 l1))
  end.

Definition on_print (sym px qty : Z) (sell_aggressor : bool) (t : Z) (b : QueueBook) : QueueBook :=
  let b0 := advance_venue sym t b in
  match sym_index sym (syms b0) with
  | None => b0
  | Some _ =>
      let b1 := advance sym t b0 in
      if (px <=? 0) || (qty <=? 0) then b1
      else
        let hit := if sell_aggressor then Bid else Ask in
        let '(h, l) := print_loop sym px hit t qty (held b1) (qlog b1) in
        set_log l (set_held h b1)
  end.
