(* ===== verification/QueueProofs.v ===== *)
(** * Theorems of the queue law

    The type invariant every operation keeps, the bound that makes the event
    ring never overflow, the landing law (post-only, queue ahead, fail-closed
    modify), the liveness of a block (everything due lands, venue-wide), and
    the conservation law of a print. *)

From S2P Require Import Prelude CoreTypes FillLaw QueueLaw.

(** ** The event budget

    An order that has not landed owes at most three events in one call (it
    lands, a fill, FILLED), a resting one two. *)

Definition owed (o : QueueOrder) : nat := if is_pending (q_state o) then 3 else 2.

Fixpoint load (os : list QueueOrder) : nat :=
  match os with [] => 0 | o :: os' => owed o + load os' end.

Definition waiting (l : Log) : nat := length (lg_out l).
Definition overflowed (l : Log) : Z := n_out_overflow (lg_counters l).

Lemma load_app a b : load (a ++ b) = (load a + load b)%nat.
Proof. induction a; simpl; lia. Qed.

Lemma owed_range o : (2 <= owed o <= 3)%nat.
Proof. unfold owed. destruct (is_pending _); lia. Qed.

Lemma load_le os : (load os <= 3 * length os)%nat.
Proof. induction os as [|o os IH]; simpl; [lia|]. pose proof (owed_range o). lia. Qed.

Lemma load_map_le f os : (forall o, q_state (f o) = q_state o) -> load (map f os) = load os.
Proof. intros Hf. induction os as [|o os IH]; simpl; [done|]. unfold owed. by rewrite Hf, IH. Qed.

Lemma emit_room t o k r q l :
  (waiting l < QUEUE_OUT_CAP)%nat ->
  waiting (emit t o k r q l) = S (waiting l) /\ overflowed (emit t o k r q l) = overflowed l.
Proof.
  unfold waiting, overflowed, emit. intros H. case_ifs; [rewrite Nat.leb_le in *; lia|].
  simpl. rewrite length_app. simpl. split; [lia|done].
Qed.

Lemma count_room k l :
  k <> C_out_overflow -> waiting (count k l) = waiting l /\ overflowed (count k l) = overflowed l.
Proof. intros Hk. by destruct k. Qed.

(** The step every loop takes: emit, then count something else. *)
Lemma emit_count_room t o k r q c l :
  c <> C_out_overflow -> (waiting l < QUEUE_OUT_CAP)%nat ->
  waiting (count c (emit t o k r q l)) = S (waiting l) /\
  overflowed (count c (emit t o k r q l)) = overflowed l.
Proof.
  intros Hc Hl. destruct (emit_room t o k r q l Hl) as [<- <-].
  by apply (count_room c).
Qed.

(** A loop spends its budget: what waits after plus what is still owed is no
    more than before, and nothing overflows. *)
Definition spends (l l' : Log) (before after : nat) : Prop :=
  (waiting l + before <= QUEUE_OUT_CAP)%nat ->
  (waiting l' + after <= waiting l + before)%nat /\ overflowed l' = overflowed l.

Lemma spends_refl l n : spends l l n n.
Proof. done. Qed.

Lemma spends_trans l1 l2 l3 a b c : spends l1 l2 a b -> spends l2 l3 b c -> spends l1 l3 a c.
Proof. unfold spends. intros H1 H2 H. destruct (H1 H) as [? <-]. destruct H2; [lia|]. split; [lia|done]. Qed.

Lemma spends_frame l l' a b n : spends l l' a b -> spends l l' (n + a) (n + b).
Proof. unfold spends. intros H ?. destruct H; [lia|]. split; [lia|done]. Qed.

Lemma spends_weaken l l' a b a' b' :
  (a <= a')%nat -> (b' <= b + (a' - a))%nat -> spends l l' a b -> spends l l' a' b'.
Proof. unfold spends. intros ?? H ?. destruct H; [lia|]. split; [lia|done]. Qed.

(** One emission spends one unit at least. *)
Lemma spends_emit t o k r q c l a b :
  c <> C_out_overflow -> (b < a)%nat -> spends l (count c (emit t o k r q l)) a b.
Proof.
  intros Hc Hab H. destruct (emit_count_room t o k r q c l Hc) as [E1 E2]; [lia|]. split; [lia|done].
Qed.

Lemma land_reject_counter parity known tb table o r k :
  land parity known tb table o = Land_reject r k -> k <> C_out_overflow.
Proof. unfold land. case_ifs; intros [= <- <-]; discriminate. Qed.

Lemma place_loop_spends parity known tb sym t done todo l :
  let r := place_loop parity known tb sym t done todo l in
  spends l r.2 (load (done ++ todo)) (load r.1) /\ (length r.1 <= length (done ++ todo))%nat.
Proof.
  revert done l. induction todo as [|o todo IH]; intros done l; simpl.
  { rewrite app_nil_r. split; [apply spends_refl|lia]. }
  destruct (not_due sym t o) eqn:Hd.
  { destruct (IH (done ++ [o]) l) as [H1 H2]. by rewrite <- app_assoc in H1, H2. }
  assert (owed o = 3%nat) as Ho.
  { unfold owed, not_due in *. destruct (is_pending (q_state o)); [done|].
    by destruct (q_sym o =? sym). }
  destruct (land parity known tb (done ++ o :: todo) o) as [r k|a] eqn:Hl.
  - destruct (IH done (count k (emit t o ORDER_EVENT_REJECTED r 0 l))) as [H1 H2].
    rewrite length_app in *. simpl. split; [|lia].
    eapply spends_trans; [|exact H1]. rewrite !load_app. simpl. rewrite Ho.
    apply spends_emit; [by eapply land_reject_counter|lia].
  - destruct (IH (done ++ [set_resting (set_ahead a o)])
      (count C_rested (emit t o ORDER_EVENT_RESTING ORDER_EVENT_REASON_NONE 0 l))) as [H1 H2].
    rewrite <- app_assoc in H1, H2. rewrite length_app in *. simpl in *. split; [|lia].
    eapply spends_trans; [|exact H1]. rewrite !load_app. simpl. rewrite Ho.
    apply spends_emit; [discriminate|lia].
Qed.

Lemma cancel_loop_spends sym t todo l :
  let r := cancel_loop sym t todo l in
  spends l r.2 (load todo) (load r.1) /\ (length r.1 <= length todo)%nat.
Proof.
  revert l. induction todo as [|o todo IH]; intros l; simpl; [split; [apply spends_refl|lia]|].
  pose proof (owed_range o).
  destruct (cancel_due sym t o).
  - destruct (IH (count C_canceled (emit t o ORDER_EVENT_CANCELED (q_reason o) 0 l))) as [H1 H2].
    split; [|lia]. eapply spends_trans; [|exact H1].
    apply spends_emit; [discriminate|lia].
  - specialize (IH l). destruct (cancel_loop sym t todo l) as [kept l'].
    destruct IH as [H1 H2]. simpl in *. split; [|lia]. by apply spends_frame.
Qed.

Definition book_spends (b b' : QueueBook) : Prop :=
  spends (qlog b) (qlog b') (load (held b)) (load (held b')) /\
  (length (held b') <= length (held b))%nat.

Lemma book_spends_refl b : book_spends b b.
Proof. split; [apply spends_refl|lia]. Qed.

Lemma book_spends_trans a b c : book_spends a b -> book_spends b c -> book_spends a c.
Proof. intros [? ?] [? ?]. split; [by eapply spends_trans|lia]. Qed.

Lemma advance_spends sym t b : book_spends b (advance sym t b).
Proof.
  unfold advance. destruct (sym_index sym (syms b)) as [k|]; [|apply book_spends_refl].
  destruct (syms b !! k) as [s|]; [|apply book_spends_refl].
  pose proof (place_loop_spends (parity_sim b) (st_known s) (st_touch s) sym t [] (held b) (qlog b)) as [P1 P2].
  destruct (place_loop _ _ _ _ _ _ _ _) as [h1 l1]. simpl in *.
  pose proof (cancel_loop_spends sym t h1 l1) as [C1 C2].
  destruct (cancel_loop _ _ _ _) as [h2 l2]. simpl in *.
  split; simpl; [by eapply spends_trans|lia].
Qed.

Lemma advance_venue_spends sym t b : book_spends b (advance_venue sym t b).
Proof.
  unfold advance_venue. destruct (_ || _); [apply book_spends_refl|].
  apply (foldl_keeps (book_spends b)); [|apply book_spends_refl]. intros b' s _ H.
  destruct (negb _ && _); [|done]. eapply book_spends_trans; [exact H|apply advance_spends].
Qed.

Lemma print_loop_spends sym px hit t left todo l :
  let r := print_loop sym px hit t left todo l in
  spends l r.2 (load todo) 0 /\ (length r.1 <= length todo)%nat.
Proof.
  revert left l. induction todo as [|o todo IH]; intros left l; simpl; [split; [apply spends_refl|lia]|].
  pose proof (owed_range o).
  assert (forall left l, let r := print_loop sym px hit t left todo l in
    spends l r.2 (owed o + load todo) 0) as Hskip.
  { intros left' l'. destruct (IH left' l') as [H1 _]. apply (spends_weaken _ _ (load todo) 0); [lia|lia|exact H1]. }
  destruct (print_skips sym hit o).
  { specialize (Hskip left l). destruct (IH left l) as [_ H2].
    destruct (print_loop sym px hit t left todo l). simpl in *. split; [done|lia]. }
  destruct (print_one hit px left o) as [[fill ahead] left']. destruct (fill <=? 0).
  { specialize (Hskip left' l). destruct (IH left' l) as [_ H2].
    destruct (print_loop sym px hit t left' todo l). simpl in *. split; [done|lia]. }
  set (l1 := count C_fills (emit t o QUEUE_EVENT_FILL ORDER_EVENT_REASON_NONE fill l)).
  assert (spends l l1 (owed o + load todo) (1 + load todo)) as S1.
  { apply spends_emit; [discriminate|lia]. }
  destruct (0 <? q_remaining o - fill).
  - destruct (IH left' l1) as [H1 H2].
    destruct (print_loop sym px hit t left' todo l1). simpl in *. split; [|lia].
    eapply spends_trans; [exact S1|].
    apply (spends_weaken _ _ (load todo) 0); [lia|lia|exact H1].
  - destruct (IH left' (count C_filled (emit t o ORDER_EVENT_FILLED ORDER_EVENT_REASON_NONE 0 l1)))
      as [H1 H2]. split; [|lia]. eapply spends_trans; [exact S1|].
    eapply spends_trans; [|exact H1].
    apply spends_emit; [discriminate|lia].
Qed.

(** Remembering a touch and joining queues emit nothing. *)
Lemma remember_spends k touch b : book_spends b (remember k touch b).
Proof. split; [apply spends_refl|done]. Qed.

Lemma join_queue_state sym tb o : q_state (join_queue sym tb o) = q_state o.
Proof. unfold join_queue. by destruct (_ && _ && _ && _). Qed.

Lemma on_book_spends sym touch t b : book_spends b (on_book sym touch t b).
Proof.
  unfold on_book. eapply book_spends_trans; [apply (advance_venue_spends sym t)|].
  generalize (advance_venue sym t b) as b0. intros b0.
  destruct (sym_index sym (syms b0)) as [k|]; [|apply book_spends_refl].
  set (b1 := if parity_sim b0 && two_sided touch then remember k touch b0 else b0).
  assert (book_spends b0 b1) as H1 by (unfold b1; case_ifs; first [apply book_spends_refl|apply remember_spends]).
  eapply book_spends_trans; [exact H1|].
  eapply book_spends_trans; [apply (advance_spends sym t)|].
  generalize (advance sym t b1) as b2. intros b2.
  set (b3 := if negb (parity_sim b2) && two_sided touch then remember k touch b2 else b2).
  assert (book_spends b2 b3) as H3 by (unfold b3; case_ifs; first [apply book_spends_refl|apply remember_spends]).
  eapply book_spends_trans; [exact H3|].
  destruct (syms b3 !! k) as [s|]; [|apply book_spends_refl].
  destruct (st_known s); [|apply book_spends_refl]. split; simpl.
  - rewrite load_map_le by apply join_queue_state. apply spends_refl.
  - by rewrite length_map.
Qed.

Lemma on_print_spends sym px qty sell t b :
  spends (qlog b) (qlog (on_print sym px qty sell t b)) (load (held b)) 0 /\
  (length (held (on_print sym px qty sell t b)) <= length (held b))%nat.
Proof.
  unfold on_print. pose proof (advance_venue_spends sym t b) as [V1 V2].
  revert V1 V2. generalize (advance_venue sym t b) as b0. intros b0 V1 V2.
  assert (forall l l' a c, spends l l' a c -> spends l l' a 0) as Hzero.
  { intros l l' a c Hs Hroom. destruct (Hs Hroom). split; [lia|done]. }
  destruct (sym_index sym (syms b0)) as [k|]; [|split; [by eapply Hzero|done]].
  pose proof (advance_spends sym t b0) as [A1 A2].
  revert A1 A2. generalize (advance sym t b0) as b1. intros b1 A1 A2.
  pose proof (spends_trans _ _ _ _ _ _ V1 A1) as S1.
  destruct ((px <=? 0) || (qty <=? 0)); [split; [by eapply Hzero|lia]|].
  pose proof (print_loop_spends sym px (if sell then Bid else Ask) t qty (held b1) (qlog b1)) as [P1 P2].
  destruct (print_loop _ _ _ _ _ _ _) as [h l]. simpl in *. split; [by eapply spends_trans|lia].
Qed.

(** With the event ring drained before each record, one book update or
    print emits at most three events per held order, so a table of at most
    32 orders never overflows the 96-event ring. *)
Theorem queue_events_never_overflow b sym touch px qty sell t :
  (length (held b) <= QUEUE_MAX_ORDERS)%nat -> lg_out (qlog b) = [] ->
  overflowed (qlog (on_book sym touch t b)) = overflowed (qlog b) /\
  overflowed (qlog (on_print sym px qty sell t b)) = overflowed (qlog b) /\
  (waiting (qlog (on_book sym touch t b)) <= 3 * length (held b))%nat /\
  (waiting (qlog (on_print sym px qty sell t b)) <= 3 * length (held b))%nat.
Proof.
  intros Hlen Hout. pose proof (load_le (held b)).
  assert (waiting (qlog b) = 0%nat) as Hw by (unfold waiting; by rewrite Hout).
  destruct (on_book_spends sym touch t b) as [SB _]. destruct (on_print_spends sym px qty sell t b) as [SP _].
  unfold QUEUE_MAX_ORDERS in Hlen. unfold spends, QUEUE_OUT_CAP, QUEUE_MAX_ORDERS in SB, SP.
  destruct SB as [SB ->]; [lia|]. destruct SP as [SP ->]; [lia|]. split_and!; try done; lia.
Qed.

(** ** The type invariant *)

Definition order_ok (ss : list SymTouch) (o : QueueOrder) : Prop :=
  0 < q_px o /\ 0 < q_remaining o /\ QUEUE_AHEAD_UNKNOWN <= q_ahead o /\
  q_sym o ∈ (st_sym <$> ss).

Definition touch_nonneg (tb : Touch) : Prop := 0 <= bid_qty_1e6 tb /\ 0 <= ask_qty_1e6 tb.

Definition sym_ok (s : SymTouch) : Prop :=
  st_known s = true -> two_sided (st_touch s) = true /\ touch_nonneg (st_touch s).

Record qb_wf (b : QueueBook) : Prop := {
  wf_len : (length (held b) <= QUEUE_MAX_ORDERS)%nat;
  wf_syms : (length (syms b) <= QUEUE_MAX_SYMS)%nat;
  wf_nodup : NoDup (st_sym <$> syms b);
  wf_touch : Forall sym_ok (syms b);
  wf_orders : Forall (order_ok (syms b)) (held b)
}.

Lemma sym_index_Some sym ss k :
  sym_index sym ss = Some k -> exists s, ss !! k = Some s /\ st_sym s = sym.
Proof.
  revert k. induction ss as [|s ss IH]; intros k H; simplify_eq/=.
  destruct (Z.eqb_spec (st_sym s) sym); simplify_eq/=; [by exists s|].
  destruct (sym_index sym ss) as [j|]; simplify_eq/=. by apply IH.
Qed.

Lemma sym_index_None sym ss : sym_index sym ss = None <-> sym ∉ (st_sym <$> ss).
Proof.
  induction ss as [|s ss IH]; simpl; [split; [set_solver|done]|].
  destruct (Z.eqb_spec (st_sym s) sym) as [->|Hne].
  - split; [done|]. set_solver.
  - destruct (sym_index sym ss); simpl in *; [|set_solver].
    split; [done|]. intros H. exfalso. apply not_elem_of_cons in H as [_ H].
    apply IH in H. done.
Qed.

Lemma sym_index_syms sym ss ss' :
  st_sym <$> ss = st_sym <$> ss' -> sym_index sym ss = sym_index sym ss'.
Proof.
  revert ss'. induction ss as [|s ss IH]; intros [|s' ss'] H; try discriminate H; [done|].
  injection H as Hs Hss. simpl. by rewrite Hs, (IH ss' Hss).
Qed.

Lemma remember_syms k touch b : st_sym <$> syms (remember k touch b) = st_sym <$> syms b.
Proof.
  unfold remember; simpl. rewrite (list_fmap_alter st_sym _ id).
  - by apply list_alter_id.
  - by apply Forall_true.
Qed.

Lemma advance_syms sym t b : syms (advance sym t b) = syms b /\ parity_sim (advance sym t b) = parity_sim b.
Proof.
  unfold advance. destruct (sym_index sym (syms b)); [|done]. destruct (syms b !! n); [|done].
  destruct (place_loop _ _ _ _ _ _ _ _). by destruct (cancel_loop _ _ _ _).
Qed.

Lemma advance_venue_syms sym t b :
  syms (advance_venue sym t b) = syms b /\ parity_sim (advance_venue sym t b) = parity_sim b.
Proof.
  unfold advance_venue. destruct (_ || _); [done|].
  apply (foldl_keeps (fun b' => syms b' = syms b /\ parity_sim b' = parity_sim b)); [|done].
  intros b' s _ [<- <-]. destruct (negb _ && _); [apply advance_syms|done].
Qed.

(** ** The landing loops, member by member *)

(** Where an order of the table after the placement loop comes from. *)
Definition landed_from (parity known : bool) (tb : Touch) (sym t : Z)
    (table : list QueueOrder) (o o' : QueueOrder) : Prop :=
  not_due sym t o = false /\
  o' = set_resting (set_ahead (ahead_at_landing known tb o) o) /\
  crosses known tb o = false /\
  (q_link o <> 0 -> exists p, p ∈ table /\ same_key (q_link o) (q_slot o) p = true).

Lemma find_from_ok oid slot i found os j :
  find_from oid slot i found os = Ok j ->
  found = Some j \/ exists o, o ∈ os /\ same_key oid slot o = true.
Proof.
  revert i found. induction os as [|o os IH]; intros i found H; simpl in H.
  - destruct found; simplify_eq. by left.
  - destruct (same_key oid slot o) eqn:E; [right; exists o; split; [set_solver|done]|].
    destruct (IH _ _ H) as [?|(o' & ? & ?)]; [by left|right]. exists o'. split; [set_solver|done].
Qed.

Lemma find_ok_key oid slot os :
  is_ok (find oid slot os) = true -> exists o, o ∈ os /\ same_key oid slot o = true.
Proof.
  unfold find. destruct (find_from _ _ _ _ _) as [j|] eqn:E; [|done].
  intros _. by destruct (find_from_ok _ _ _ _ _ _ E).
Qed.

(** A table entry and the order it came from share their key. *)
Lemma place_loop_mem parity known tb sym t table done todo l o' :
  (forall o, o ∈ done ++ todo -> exists p, p ∈ table /\
     same_key (q_oid o) (q_slot o) p = true) ->
  o' ∈ (place_loop parity known tb sym t done todo l).1 ->
  o' ∈ done \/ (o' ∈ todo /\ not_due sym t o' = true) \/
  exists o, o ∈ todo /\ landed_from parity known tb sym t table o o'.
Proof.
  revert done l. induction todo as [|o todo IH]; intros done l Htab H; simpl in H; [by left|].
  destruct (not_due sym t o) eqn:Hd.
  { apply IH in H as [H|[[H1 H2]|(p & H1 & H2)]].
    - apply elem_of_app in H as [H|H%list_elem_of_singleton]; [by left|]. subst. right. left. set_solver.
    - right. left. set_solver.
    - right. right. exists p. set_solver.
    - intros q Hq. apply Htab. set_solver. }
  destruct (land parity known tb (done ++ o :: todo) o) as [r k|a] eqn:Hl.
  { apply IH in H as [H|[[H1 H2]|(p & H1 & H2)]].
    - by left.
    - right. left. set_solver.
    - right. right. exists p. set_solver.
    - intros q Hq. apply Htab. set_solver. }
  apply IH in H as [H|[[H1 H2]|(p & H1 & H2)]].
  - apply elem_of_app in H as [H|H%list_elem_of_singleton]; [by left|]. right. right.
    exists o. split; [set_solver|]. unfold land in Hl.
    destruct (q_link o =? 0) eqn:El; simpl in Hl.
    + destruct (crosses known tb o) eqn:Ec; [done|]. destruct (parity && _); simplify_eq.
      repeat split; try done. lia.
    + destruct (is_ok (find (q_link o) (q_slot o) (done ++ o :: todo))) eqn:Ef; [|done]. simpl in Hl.
      destruct (crosses known tb o) eqn:Ec; [done|]. destruct (parity && _); simplify_eq.
      repeat split; try done. intros _. apply find_ok_key in Ef as (q & Hq & Hk).
      destruct (Htab q Hq) as (p & Hp & Hpk). exists p. split; [done|].
      unfold same_key in *. lia.
  - right. left. set_solver.
  - right. right. exists p. set_solver.
  - intros q Hq. rewrite <- app_assoc in Hq. simpl in Hq.
    assert (q ∈ done ++ o :: todo \/ q = set_resting (set_ahead a o)) as [Hq'| ->] by set_solver.
    + by apply Htab.
    + apply (Htab o). set_solver.
Qed.

Lemma cancel_loop_mem sym t todo l o' :
  o' ∈ (cancel_loop sym t todo l).1 <-> o' ∈ todo /\ cancel_due sym t o' = false.
Proof.
  revert l. induction todo as [|o todo IH]; intros l; simpl; [set_solver|].
  destruct (cancel_due sym t o) eqn:Hd.
  - rewrite IH, elem_of_cons. split; [tauto|]. intros [[->|?] ?]; [congruence|done].
  - specialize (IH l). destruct (cancel_loop sym t todo l) as [kept l']. simpl in *.
    rewrite !elem_of_cons, IH. split; [|tauto]. intros [->|[??]]; auto.
Qed.

(** Where a held order comes from when [advance] returns. *)
Lemma advance_mem sym t b o' :
  o' ∈ held (advance sym t b) ->
  (o' ∈ held b /\ (sym ∈ (st_sym <$> syms b) -> not_due sym t o' = true /\ cancel_due sym t o' = false)) \/
  exists s o, s ∈ syms b /\ st_sym s = sym /\ o ∈ held b /\ cancel_due sym t o' = false /\
    landed_from (parity_sim b) (st_known s) (st_touch s) sym t (held b) o o'.
Proof.
  unfold advance. destruct (sym_index sym (syms b)) as [k|] eqn:Ek.
  2: { intros H. left. split; [done|]. intros ?. by apply sym_index_None in Ek. }
  destruct (sym_index_Some _ _ _ Ek) as (s & Hs & <-). rewrite Hs.
  destruct (place_loop _ _ _ _ _ _ _ _) as [h1 l1] eqn:P.
  destruct (cancel_loop _ _ _ _) as [h2 l2] eqn:C. simpl. intros H.
  replace h2 with ((cancel_loop (st_sym s) t h1 l1).1) in H by (by rewrite C).
  apply cancel_loop_mem in H as [H Hc].
  replace h1 with ((place_loop (parity_sim b) (st_known s) (st_touch s) (st_sym s) t [] (held b) (qlog b)).1) in H
    by (by rewrite P).
  apply (place_loop_mem _ _ _ _ _ (held b)) in H as [H|[[H Hd]|(o & Ho & Hl)]].
  - by apply elem_of_nil in H.
  - left. split; [done|]. intros _. done.
  - right. exists s, o. split_and!; try done. by eapply list_elem_of_lookup_2.
  - intros o Ho. exists o. split; [done|]. unfold same_key. by rewrite !Z.eqb_refl.
Qed.

Lemma ahead_at_landing_range known tb o :
  (known = true -> touch_nonneg tb) -> QUEUE_AHEAD_UNKNOWN <= ahead_at_landing known tb o.
Proof.
  intros Ht. unfold ahead_at_landing, QUEUE_AHEAD_UNKNOWN. destruct known; simpl; [|lia].
  destruct (Ht eq_refl). destruct (_ =? _); [destruct (q_side o); simpl; lia|]. case_ifs; lia.
Qed.

Lemma order_ok_land ss known tb o :
  (known = true -> touch_nonneg tb) -> order_ok ss o ->
  order_ok ss (set_resting (set_ahead (ahead_at_landing known tb o) o)).
Proof.
  intros Ht (? & ? & ? & ?). split_and!; try done. by apply ahead_at_landing_range.
Qed.

Lemma advance_wf sym t b : qb_wf b -> qb_wf (advance sym t b).
Proof.
  intros [W1 W2 W3 W4 W5]. destruct (advance_syms sym t b) as [Es _].
  destruct (advance_spends sym t b) as [_ Hl]. constructor; rewrite ?Es; try done; [lia|].
  apply Forall_forall. intros o' Ho. destruct (advance_mem _ _ _ _ Ho) as [[H _]|(s & o & Hs & <- & H & _ & Hl')].
  - by eapply Forall_forall in W5.
  - destruct Hl' as (_ & -> & _). apply order_ok_land; [|by eapply Forall_forall in W5].
    intros Hk. eapply Forall_forall in W4; [|exact Hs]. by apply W4.
Qed.

Lemma advance_venue_wf sym t b : qb_wf b -> qb_wf (advance_venue sym t b).
Proof.
  intros H. unfold advance_venue. destruct (_ || _); [done|]. apply foldl_keeps; [|done].
  intros b' s _ Hb. destruct (negb _ && _); [by apply advance_wf|done].
Qed.

Lemma order_ok_syms ss ss' o : st_sym <$> ss ⊆ st_sym <$> ss' -> order_ok ss o -> order_ok ss' o.
Proof. intros Hs (? & ? & ? & ?). split_and!; try done. by apply Hs. Qed.

Lemma remember_wf k touch b :
  two_sided touch = true -> touch_nonneg touch -> qb_wf b -> qb_wf (remember k touch b).
Proof.
  intros Ht Hn [W1 W2 W3 W4 W5]. pose proof (remember_syms k touch b) as Es.
  constructor; [done| |by rewrite Es| |].
  - unfold remember; simpl. by rewrite length_alter.
  - unfold remember; simpl. apply Forall_alter; [done|]. intros s _ _ _. by split.
  - eapply Forall_impl; [exact W5|]. intros o. apply order_ok_syms. by rewrite Es.
Qed.

Lemma held_wf h b :
  (length h <= QUEUE_MAX_ORDERS)%nat -> Forall (order_ok (syms b)) h -> qb_wf b -> qb_wf (set_held h b).
Proof. intros ?? []. by constructor. Qed.

Lemma log_wf l b : qb_wf b -> qb_wf (set_log l b).
Proof. intros []. by constructor. Qed.

Lemma join_queue_ok ss sym tb o :
  touch_nonneg tb -> order_ok ss o -> order_ok ss (join_queue sym tb o).
Proof.
  intros [H1 H2] (? & ? & ? & ?). unfold join_queue. destruct (_ && _ && _ && _); [|done].
  split_and!; try done. unfold QUEUE_AHEAD_UNKNOWN. simpl. destruct (q_side o); simpl; lia.
Qed.

Lemma on_book_wf sym touch t b : touch_nonneg touch -> qb_wf b -> qb_wf (on_book sym touch t b).
Proof.
  intros Hn H. unfold on_book. apply (advance_venue_wf sym t) in H. revert H.
  generalize (advance_venue sym t b) as b0. intros b0 H0.
  destruct (sym_index sym (syms b0)) as [k|]; [|done].
  set (b1 := if parity_sim b0 && two_sided touch then remember k touch b0 else b0).
  assert (qb_wf b1) as H1.
  { unfold b1. destruct (parity_sim b0); simpl; [|done]. destruct (two_sided touch) eqn:?; [by apply remember_wf|done]. }
  apply (advance_wf sym t) in H1. revert H1. generalize (advance sym t b1) as b2. intros b2 H2.
  set (b3 := if negb (parity_sim b2) && two_sided touch then remember k touch b2 else b2).
  assert (qb_wf b3) as H3.
  { unfold b3. destruct (negb (parity_sim b2)); simpl; [|done]. destruct (two_sided touch) eqn:?; [by apply remember_wf|done]. }
  destruct (syms b3 !! k) as [s|] eqn:Es; [|done]. destruct (st_known s) eqn:Ek; [|done].
  pose proof H3 as [W1 _ _ W4 W5]. apply held_wf; [by rewrite length_map| |done].
  assert (sym_ok s) as Hs by (by eapply Forall_lookup in W4).
  apply Forall_forall. intros o' Ho. apply list_elem_of_fmap in Ho as (o & -> & Ho).
  apply join_queue_ok; [by apply Hs|]. by eapply Forall_forall in W5.
Qed.

(** ** Prints *)

Definition fill_event (t : Z) (o : QueueOrder) (kind reason qty : Z) : QueueEvent :=
  mkQueueEvent t (q_oid o) (q_px o) qty (q_sym o) (q_side o) (q_slot o) kind reason.

Lemma emit_out t o k r q c l :
  (waiting l < QUEUE_OUT_CAP)%nat ->
  lg_out (count c (emit t o k r q l)) = lg_out l ++ [fill_event t o k r q].
Proof. unfold waiting, emit. intros H. destruct (Nat.leb_spec QUEUE_OUT_CAP (length (lg_out l))); [lia|done]. Qed.

(** The quantity an event reports filled, all of it or the part at [px]. *)
Definition fill_qty (e : QueueEvent) : Z := if ev_kind e =? QUEUE_EVENT_FILL then ev_qty e else 0.
Definition fill_qty_at (px : Z) (e : QueueEvent) : Z := if ev_px e =? px then fill_qty e else 0.

(** The fill [e] is one the print may give: its order rests on the hit side
    of the symbol, and either the print is through its price, or it is at its
    price and what it gives comes after the whole known queue ahead. *)
Definition fill_ok (sym px qty : Z) (hit : Side) (os : list QueueOrder) (e : QueueEvent) : Prop :=
  ev_kind e = QUEUE_EVENT_FILL ->
  exists o, o ∈ os /\ print_skips sym hit o = false /\
    e = fill_event (ev_t e) o QUEUE_EVENT_FILL ORDER_EVENT_REASON_NONE (ev_qty e) /\
    0 < ev_qty e <= q_remaining o /\
    ((through hit px o = true /\ ev_qty e = q_remaining o) \/
     (q_px o = px /\ 0 <= q_ahead o /\ q_ahead o + ev_qty e <= qty)).

Lemma print_one_spec hit px left o fill ahead left' :
  print_one hit px left o = (fill, ahead, left') ->
  0 <= left -> 0 < q_remaining o -> QUEUE_AHEAD_UNKNOWN <= q_ahead o ->
  0 <= fill <= q_remaining o /\ 0 <= left' /\ QUEUE_AHEAD_UNKNOWN <= ahead /\
  ((through hit px o = true /\ fill = q_remaining o /\ left' = left) \/
   (fill = 0 /\ left' <= left) \/
   (q_px o = px /\ 0 <= q_ahead o /\ q_ahead o + fill <= left /\ left' + fill <= left)).
Proof.
  unfold print_one, QUEUE_AHEAD_UNKNOWN. intros H Hl Hr Ha.
  destruct (through hit px o) eqn:Ht; simplify_eq; [lia|].
  destruct (Z.eqb_spec px (q_px o)) as [->|]; simpl in H; simplify_eq; [|lia].
  destruct (Z.eqb_spec (q_ahead o) (-1)) as [->|]; simpl in H; simplify_eq; [lia|].
  destruct (Z.ltb_spec (q_ahead o) left); destruct (Z.ltb_spec (q_remaining o) (left - q_ahead o));
  destruct (Z.ltb_spec (q_remaining o) (left - left)); lia.
Qed.

Lemma through_px hit px o : through hit px o = true -> q_px o <> px.
Proof. unfold through. destruct hit; lia. Qed.

Lemma fill_ok_sub sym px q q' hit os os' e :
  os ⊆ os' -> q <= q' -> fill_ok sym px q hit os e -> fill_ok sym px q' hit os' e.
Proof.
  intros Hs Hq H Hk. destruct (H Hk) as (o & ? & ? & ? & ? & Hor). exists o.
  split_and!; try done; [by apply Hs|lia..|]. destruct Hor as [?|(? & ? & ?)]; [by left|right]. split_and!; lia.
Qed.

(** What one pass over a table gives out. *)
Record printed (sym px left : Z) (hit : Side) (ss : list SymTouch) (todo kept : list QueueOrder)
    (evs : list QueueEvent) : Prop := {
  pr_orders : Forall (order_ok ss) kept;
  pr_total : sumZ q_remaining todo = sumZ q_remaining kept + sumZ fill_qty evs;
  pr_budget : sumZ (fill_qty_at px) evs <= left;
  pr_fills : Forall (fill_ok sym px left hit todo) evs
}.

Lemma printed_keep sym px left left' hit ss o o' todo kept evs :
  printed sym px left' hit ss todo kept evs -> left' <= left ->
  order_ok ss o' -> q_remaining o' = q_remaining o ->
  printed sym px left hit ss (o :: todo) (o' :: kept) evs.
Proof.
  intros [H1 H2 H3 H4] Hle Ho Hr. constructor; [by constructor|simpl; lia|lia|].
  eapply Forall_impl; [exact H4|]. intros e. apply fill_ok_sub; [set_solver|done].
Qed.

(** The fill one order gets is a legal one, within the print's budget. *)
Lemma head_fill sym px left left' hit ss o t fill ahead todo :
  print_skips sym hit o = false -> order_ok ss o -> 0 <= left ->
  print_one hit px left o = (fill, ahead, left') -> 0 < fill ->
  let e := fill_event t o QUEUE_EVENT_FILL ORDER_EVENT_REASON_NONE fill in
  fill_ok sym px left hit (o :: todo) e /\ fill_qty_at px e + left' <= left /\ fill_qty e = fill.
Proof.
  intros Hs (Hp & Hr & Ha & _) Hl Hone Hf e.
  destruct (print_one_spec _ _ _ _ _ _ _ Hone Hl Hr Ha) as (H1 & H2 & H3 & Hcase).
  assert (fill_qty e = fill) as Hq by done. split_and!; [| |done].
  - intros _. exists o. split_and!; simpl; try done; [set_solver|lia|].
    destruct Hcase as [(? & ? & ?)|[[? ?]|(? & ? & ? & ?)]]; [by left|lia|by right].
  - unfold fill_qty_at. rewrite Hq. simpl. destruct (Z.eqb_spec (q_px o) px) as [Heq|Hne].
    + destruct Hcase as [(Ht & ? & ?)|[[? ?]|(? & ? & ? & ?)]]; [|lia..].
      by apply through_px in Ht.
    + destruct Hcase as [(Ht & ? & ?)|[[? ?]|(? & ? & ? & ?)]]; lia.
Qed.

Lemma print_loop_printed sym px hit ss t left todo l :
  Forall (order_ok ss) todo -> 0 <= left -> (waiting l + load todo <= QUEUE_OUT_CAP)%nat ->
  let r := print_loop sym px hit t left todo l in
  exists evs, lg_out r.2 = lg_out l ++ evs /\ printed sym px left hit ss todo r.1 evs.
Proof.
  intros Hok. revert left l. induction Hok as [|o todo Ho Hok IH]; intros left l Hl Hroom; cbn [print_loop].
  { exists []. rewrite app_nil_r. split; [done|]. constructor; simpl; [done|done|lia|done]. }
  pose proof (owed_range o). cbn [load] in Hroom.
  destruct (print_skips sym hit o) eqn:Hs.
  { destruct (IH left l) as (evs & E & P); [done|lia|]. exists evs.
    destruct (print_loop sym px hit t left todo l). split; [done|]. by eapply printed_keep. }
  destruct (print_one hit px left o) as [[fill ahead] left'] eqn:Hone.
  pose proof Ho as (Hp & Hr & Ha & Hsym).
  destruct (print_one_spec _ _ _ _ _ _ _ Hone Hl Hr Ha) as (Hf & Hl' & Ha' & Hcase).
  destruct (Z.leb_spec fill 0).
  { destruct (IH left' l) as (evs & E & P); [done|lia|]. exists evs.
    destruct (print_loop sym px hit t left' todo l). split; [done|].
    eapply printed_keep; [exact P|lia| |done]. by split_and!. }
  set (l1 := count C_fills (emit t o QUEUE_EVENT_FILL ORDER_EVENT_REASON_NONE fill l)).
  assert (waiting l1 = S (waiting l)) as W1 by (apply emit_count_room; [done|lia]).
  assert (lg_out l1 = lg_out l ++ [fill_event t o QUEUE_EVENT_FILL ORDER_EVENT_REASON_NONE fill]) as E1
    by (apply emit_out; lia).
  destruct (head_fill sym px left left' hit ss o t fill ahead todo) as (F1 & F2 & F3); [done..|lia|].
  assert (forall e, fill_ok sym px left' hit todo e -> fill_ok sym px left hit (o :: todo) e) as Hsub.
  { intros e. apply fill_ok_sub; [set_solver|]. lia. }
  destruct (Z.ltb_spec 0 (q_remaining o - fill)).
  - destruct (IH left' l1) as (evs & E & [P1 P2 P3 P4]); [done|lia|].
    eexists (_ :: evs). destruct (print_loop sym px hit t left' todo l1). simpl in *. split.
    { rewrite E, E1, <- app_assoc. done. }
    constructor; cbn [sumZ]; [constructor; [by split_and!|done]|simpl; lia|lia|].
    constructor; [done|]. eapply Forall_impl; [exact P4|done].
  - set (l2 := count C_filled (emit t o ORDER_EVENT_FILLED ORDER_EVENT_REASON_NONE 0 l1)).
    assert (waiting l2 = S (waiting l1)) as W2 by (apply emit_count_room; [done|lia]).
    assert (lg_out l2 = lg_out l1 ++ [fill_event t o ORDER_EVENT_FILLED ORDER_EVENT_REASON_NONE 0]) as E2
      by (apply emit_out; lia).
    destruct (IH left' l2) as (evs & E & [P1 P2 P3 P4]); [done|lia|].
    eexists (_ :: _ :: evs). split.
    { rewrite E, E2, E1, <- !app_assoc. done. }
    assert (forall px, fill_qty_at px (fill_event t o ORDER_EVENT_FILLED ORDER_EVENT_REASON_NONE 0) = 0) as Z0
      by (intros px0; unfold fill_qty_at; by case_ifs).
    constructor; cbn [sumZ]; [done| |rewrite Z0; lia|].
    + rewrite F3, P2. unfold fill_qty at 2. simpl. lia.
    + constructor; [done|]. constructor; [done|]. eapply Forall_impl; [exact P4|done].
Qed.

(** The table after a pass does not depend on what waits in the ring. *)
Lemma print_loop_table sym px hit t left todo l l' :
  (print_loop sym px hit t left todo l).1 = (print_loop sym px hit t left todo l').1.
Proof.
  revert left l l'. induction todo as [|o todo IH]; intros left l l'; cbn [print_loop]; [done|].
  assert (forall left o l l',
    (let '(kept, l1) := print_loop sym px hit t left todo l in (o :: kept, l1)).1 =
    (let '(kept, l1) := print_loop sym px hit t left todo l' in (o :: kept, l1)).1) as Hcons.
  { intros left0 o0 m m'. specialize (IH left0 m m').
    destruct (print_loop sym px hit t left0 todo m), (print_loop sym px hit t left0 todo m').
    simpl in *. by rewrite IH. }
  destruct (print_skips sym hit o); [apply Hcons|].
  destruct (print_one hit px left o) as [[fill ahead] left']. destruct (fill <=? 0); [apply Hcons|].
  destruct (0 <? _); [apply Hcons|apply IH].
Qed.

Lemma print_loop_wf sym px hit t left b :
  qb_wf b -> 0 <= left ->
  qb_wf (set_held (print_loop sym px hit t left (held b) (qlog b)).1 b).
Proof.
  intros W Hl. pose proof W as [W1 _ _ _ W5].
  destruct (print_loop_spends sym px hit t left (held b) (qlog b)) as [_ Hlen].
  rewrite (print_loop_table _ _ _ _ _ _ _ (qlog QueueBook_new)) in Hlen |- *.
  pose proof (load_le (held b)) as Hload.
  destruct (print_loop_printed sym px hit (syms b) t left (held b) (qlog QueueBook_new)) as (evs & _ & []).
  - done.
  - done.
  - unfold waiting, QUEUE_OUT_CAP. simpl length. lia.
  - apply held_wf; [lia|done|done].
Qed.

Lemma on_print_wf sym px qty sell t b : qb_wf b -> qb_wf (on_print sym px qty sell t b).
Proof.
  intros H. unfold on_print. apply (advance_venue_wf sym t) in H. revert H.
  generalize (advance_venue sym t b) as b0. intros b0 H0.
  destruct (sym_index sym (syms b0)); [|done]. apply (advance_wf sym t) in H0. revert H0.
  generalize (advance sym t b0) as b1. intros b1 H1.
  destruct (Z.leb_spec px 0), (Z.leb_spec qty 0); simpl; try done.
  pose proof (print_loop_wf sym px (if sell then Bid else Ask) t qty b1 H1) as H2.
  destruct (print_loop _ _ _ _ _ _ _) as [h l]. apply log_wf, H2. lia.
Qed.

(** ** Placements, cancels, modifies *)

Lemma track_wf sym b : qb_wf b -> qb_wf (track sym b).1.
Proof.
  intros [W1 W2 W3 W4 W5]. unfold track. destruct (sym_index sym (syms b)) eqn:E; [done|].
  destruct (Nat.leb_spec QUEUE_MAX_SYMS (length (syms b))); [done|]. apply sym_index_None in E.
  constructor; simpl; [done| | | |].
  - rewrite length_app. simpl. lia.
  - rewrite fmap_app. apply NoDup_app. split_and!; [done| |apply NoDup_singleton].
    intros x Hx Hx'. simpl in Hx'. apply list_elem_of_singleton in Hx'. by subst.
  - apply Forall_app. split; [done|]. by apply Forall_singleton.
  - eapply Forall_impl; [exact W5|]. intros o. apply order_ok_syms. rewrite fmap_app. set_solver.
Qed.

Lemma track_held sym b : held (track sym b).1 = held b /\ qlog (track sym b).1 = qlog b.
Proof. unfold track. destruct (sym_index _ _); [done|]. by destruct (_ <=? _)%nat. Qed.

Lemma track_ok sym b u : (track sym b).2 = Ok u -> sym ∈ (st_sym <$> syms (track sym b).1).
Proof.
  unfold track. destruct (sym_index sym (syms b)) eqn:E.
  - intros _. simpl. destruct (sym_index_Some _ _ _ E) as (s & Hs & <-).
    apply list_elem_of_fmap. exists s. split; [done|]. by eapply list_elem_of_lookup_2.
  - destruct (_ <=? _)%nat; [done|]. intros _. simpl. rewrite fmap_app. set_solver.
Qed.

Lemma place_wf p b : qb_wf b -> qb_wf (place p b).1.
Proof.
  intros W. unfold place. destruct (Z.leb_spec (pl_px p) 0), (Z.leb_spec (pl_qty p) 0);
    cbn [orb]; try (by apply log_wf).
  destruct (Nat.leb_spec QUEUE_MAX_ORDERS (length (held b))); [by apply log_wf|].
  pose proof (track_wf (pl_sym p) b W) as W1. destruct (track_held (pl_sym p) b) as [Eh _].
  pose proof (track_ok (pl_sym p) b) as Hin.
  destruct (track (pl_sym p) b) as [b1 [u|e]]; cbn [fst snd] in *; [|by apply log_wf].
  apply log_wf. apply held_wf; [rewrite length_app, Eh; simpl; lia| |done].
  apply Forall_app. split; [by apply wf_orders|]. apply Forall_singleton.
  split_and!; simpl; [done..|unfold QUEUE_AHEAD_UNKNOWN; lia|by apply (Hin u)].
Qed.

(** Rescheduling a cancel or tagging a link changes nothing the invariant sees. *)
Lemma alter_wf f i b :
  (forall o, q_px (f o) = q_px o /\ q_remaining (f o) = q_remaining o /\ q_ahead (f o) = q_ahead o /\
     q_sym (f o) = q_sym o) ->
  qb_wf b -> qb_wf (set_held (alter f i (held b)) b).
Proof.
  intros Hf W. apply held_wf; [rewrite length_alter; by apply wf_len| |done].
  apply Forall_alter; [by apply wf_orders|]. intros o _ Ho. unfold order_ok.
  by destruct (Hf o) as (-> & -> & -> & ->).
Qed.

Lemma schedule_keeps t r o :
  q_px (schedule t r o) = q_px o /\ q_remaining (schedule t r o) = q_remaining o /\
  q_ahead (schedule t r o) = q_ahead o /\ q_sym (schedule t r o) = q_sym o.
Proof. unfold schedule. by destruct (t <? q_cancel o). Qed.

Lemma schedule_cancel_wf oid slot t r b : qb_wf b -> qb_wf (schedule_cancel oid slot t r b).1.
Proof.
  intros W. unfold schedule_cancel. destruct (find _ _ _); [|done].
  apply alter_wf; [apply schedule_keeps|done].
Qed.

Lemma modify_wf prev new b : qb_wf b -> qb_wf (modify prev new b).1.
Proof.
  intros W. unfold modify. destruct (_ || _); [by apply log_wf|].
  destruct (find _ _ _) as [i|]; [|done]. destruct (_ <=? _)%nat; [by apply log_wf|].
  set (b1 := set_held _ b). assert (qb_wf b1) as W1 by (apply alter_wf; [apply schedule_keeps|done]).
  set (p := with_expiry _ new). pose proof (place_wf p b1 W1) as W2.
  destruct (place p b1) as [b2 [u|e]]; [|done]. by apply alter_wf.
Qed.

(** ** The operations as one type, and what they reach *)

Inductive QueueOp : Type :=
| OpParity (on : bool)
| OpTrack (sym : Z)
| OpPlace (p : QueuePlace)
| OpCancel (oid slot t : Z)
| OpModify (prev : Z) (new : QueuePlace)
| OpBook (sym : Z) (touch : Touch) (t : Z)
| OpPrint (sym px qty : Z) (sell : bool) (t : Z)
| OpNext.

Definition run_op (b : QueueBook) (op : QueueOp) : QueueBook :=
  match op with
  | OpParity on => set_parity_sim on b
  | OpTrack sym => (track sym b).1
  | OpPlace p => (place p b).1
  | OpCancel oid slot t => (qb_cancel oid slot t b).1
  | OpModify prev new => (modify prev new b).1
  | OpBook sym touch t => on_book sym touch t b
  | OpPrint sym px qty sell t => on_print sym px qty sell t b
  | OpNext => (try_next_event b).1
  end.

(** The one thing asked of the feed: a touch shows no negative size. *)
Definition op_ok (op : QueueOp) : Prop :=
  match op with OpBook _ touch _ => touch_nonneg touch | _ => True end.

Lemma run_op_wf b op : op_ok op -> qb_wf b -> qb_wf (run_op b op).
Proof.
  intros Hop W. destruct op; simpl.
  - destruct W. by constructor.
  - by apply track_wf.
  - by apply place_wf.
  - by apply schedule_cancel_wf.
  - by apply modify_wf.
  - by apply on_book_wf.
  - by apply on_print_wf.
  - unfold try_next_event. destruct (lg_out _); [done|by apply log_wf].
Qed.

Lemma QueueBook_new_wf : qb_wf QueueBook_new.
Proof. constructor; simpl; [lia|lia|constructor..]. Qed.

(** Every queue book reachable through the public operations holds at
    most 32 orders on at most 8 distinct tracked symbols, each with a
    positive price and remaining quantity, a queue ahead that is unknown or
    non-negative, and remembered touches that are two-sided. *)
Theorem queue_book_always_well_formed ops :
  Forall op_ok ops -> qb_wf (foldl run_op QueueBook_new ops).
Proof.
  intros H. apply foldl_keeps; [|apply QueueBook_new_wf]. intros b op Hop.
  apply run_op_wf. by eapply Forall_forall in H.
Qed.

(** A session on one symbol: track, two-sided book, join the bid, a print. *)
Definition sample_ops : list QueueOp :=
  [OpTrack 5; OpBook 5 (mkTouch 100 102 7 9) 1;
   OpPlace (mkQueuePlace 1 5 Bid 0 100 4 2 50);
   OpBook 5 (mkTouch 100 102 7 9) 3; OpPrint 5 100 9 true 4].

Lemma queue_book_always_well_formed_witness :
  qb_wf (foldl run_op QueueBook_new sample_ops) /\
  (q_remaining <$> held (foldl run_op QueueBook_new sample_ops)) = [2].
Proof.
  split; [|reflexivity]. apply queue_book_always_well_formed.
  repeat constructor; simpl; lia.
Defined.

(** ** Landing *)

(** An order that comes to rest as a block lands was a due pending
    placement, is not due for cancel, rests strictly inside the opposite
    known touch (post-only), joins exactly the displayed queue at the touch
    and an empty one only at or inside it, and, if it is a modify, its
    predecessor was still held. *)
Theorem queue_landing_law sym t b o' :
  qb_wf b -> o' ∈ held (advance sym t b) -> o' ∉ held b ->
  exists s o, s ∈ syms b /\ st_sym s = sym /\ o ∈ held b /\
    q_sym o = sym /\ q_state o = Pending /\ q_ready o <= t /\
    o' = set_resting (set_ahead (ahead_at_landing (st_known s) (st_touch s) o) o) /\
    t < q_cancel o' /\
    (st_known s = true ->
      match q_side o' with
      | Bid => q_px o' < ask_1e6 (st_touch s)
      | Ask => bid_1e6 (st_touch s) < q_px o'
      end /\
      (q_px o' = touch_px (st_touch s) (q_side o') -> q_ahead o' = touch_qty (st_touch s) (q_side o')) /\
      (q_ahead o' = 0 -> q_px o' = touch_px (st_touch s) (q_side o') \/ improves (st_touch s) o' = true)) /\
    (q_link o' <> 0 -> exists p, p ∈ held b /\ q_oid p = q_link o' /\ q_slot p = q_slot o').
Proof.
  intros W Hin Hnew. destruct (advance_mem _ _ _ _ Hin) as [[? _]|(s & o & Hs & <- & Ho & Hc & Hl)]; [done|].
  destruct Hl as (Hd & -> & Hx & Hlink). exists s, o.
  unfold not_due in Hd. destruct (q_state o) eqn:Est.
  2: { by rewrite orb_true_r in Hd. }
  apply orb_false_iff in Hd as [Hd Ht]. apply orb_false_iff in Hd as [Hsym _].
  apply negb_false_iff, Z.eqb_eq in Hsym.
  unfold cancel_due in Hc. simpl in Hc. rewrite Hsym, Z.eqb_refl in Hc. simpl in Hc.
  split_and!; try done; [lia|simpl; lia| |].
  - intros Hk. unfold crosses in Hx. rewrite Hk in *. simpl in *. split_and!.
    + destruct (q_side o); lia.
    + intros Heq. unfold ahead_at_landing. rewrite Heq, Z.eqb_refl. done.
    + unfold ahead_at_landing. simpl. destruct (Z.eqb_spec (q_px o) (touch_px (st_touch s) (q_side o))); [by left|].
      unfold improves. simpl. destruct (q_side o) eqn:E; simpl; case_ifs; intros H; first [discriminate H | by right].
  - intros Hne. destruct (Hlink Hne) as (p & Hp & Hk). exists p. split; [done|].
    unfold same_key in Hk. simpl. lia.
Qed.

Lemma queue_landing_law_witness :
  let b := foldl run_op QueueBook_new (take 3 sample_ops) in
  let o' := mkQueueOrder 1 100 4 7 2 50 5 Bid 0 Resting ORDER_EVENT_REASON_EXPIRED 50 0 in
  qb_wf b /\ o' ∈ held (advance 5 3 b) /\
  (exists s o, s ∈ syms b /\ o ∈ held b /\ q_px o' < ask_1e6 (st_touch s)).
Proof.
  set (b := foldl run_op QueueBook_new (take 3 sample_ops)).
  set (o' := mkQueueOrder 1 100 4 7 2 50 5 Bid 0 Resting ORDER_EVENT_REASON_EXPIRED 50 0).
  assert (qb_wf b) as W.
  { unfold b. apply foldl_keeps; [|apply QueueBook_new_wf]. intros b' op Hop. apply run_op_wf.
    assert (Forall op_ok (take 3 sample_ops)) as H by (repeat constructor; simpl; lia).
    by eapply Forall_forall in H. }
  assert (o' ∈ held (advance 5 3 b)) as Hin by (vm_compute; left).
  split_and!; [exact W|exact Hin|].
  destruct (queue_landing_law 5 3 b o' W Hin) as (s & o & Hs & _ & Ho & _ & _ & _ & _ & _ & Hk & _).
  { intros H. vm_compute in H. apply list_elem_of_singleton in H. discriminate H. }
  exists s, o. split_and!; [exact Hs|exact Ho|]. apply Hk.
  vm_compute in Hs. apply list_elem_of_singleton in Hs. by rewrite Hs.
Defined.

(** ** Liveness of a block *)

(** Nothing of [sym] is left due at [t]: no placement still to land, no
    resting order whose cancel has taken effect. *)
Definition settled (sym t : Z) (h : list QueueOrder) : Prop :=
  forall o, o ∈ h -> not_due sym t o = true /\ cancel_due sym t o = false.

Lemma landed_not_due parity known tb sym' t' table o o' sym t :
  landed_from parity known tb sym' t' table o o' -> not_due sym t o' = true.
Proof.
  intros (_ & -> & _). unfold not_due. simpl. by rewrite orb_true_r.
Qed.

Lemma advance_settles sym t b :
  sym ∈ (st_sym <$> syms b) -> settled sym t (held (advance sym t b)).
Proof.
  intros Hs o Ho. destruct (advance_mem _ _ _ _ Ho) as [[_ H]|(s & p & _ & _ & _ & Hc & Hl)]; [by apply H|].
  split; [by eapply landed_not_due|done].
Qed.

Lemma advance_keeps_settled sym sym' t b :
  settled sym t (held b) -> settled sym t (held (advance sym' t b)).
Proof.
  intros Hset o Ho. destruct (Z.eq_dec sym sym') as [->|Hne].
  { destruct (decide (sym' ∈ (st_sym <$> syms b))) as [Hin|Hout]; [by apply advance_settles in Ho|].
    unfold advance in Ho. destruct (sym_index sym' (syms b)) as [k|] eqn:Ek; [|by apply Hset].
    destruct (sym_index_Some _ _ _ Ek) as (s & Hs & <-). destruct Hout.
    apply list_elem_of_fmap. exists s. split; [done|]. by eapply list_elem_of_lookup_2. }
  destruct (advance_mem _ _ _ _ Ho) as [[H _]|(s & p & _ & _ & Hp & _ & Hl)]; [by apply Hset|].
  split; [by eapply landed_not_due|]. destruct Hl as (Hd & -> & _).
  unfold not_due in Hd. unfold cancel_due. simpl. destruct (Z.eqb_spec (q_sym p) sym'); [|done].
  destruct (Z.eqb_spec (q_sym p) sym); [congruence|done].
Qed.

(** A fold whose steps each establish their own fact and keep the others. *)
Lemma foldl_establishes {A B} (P : B -> A -> Prop) (f : A -> B -> A) (l : list B) (a : A) :
  (forall a x, x ∈ l -> P x (f a x)) -> (forall a x y, P y a -> P y (f a x)) ->
  forall x, x ∈ l -> P x (foldl f a l).
Proof.
  revert a. induction l as [|y l IH]; intros a H1 H2 x Hx; [by apply elem_of_nil in Hx|].
  cbn [foldl]. apply elem_of_cons in Hx as [->|Hx].
  - apply foldl_keeps; [intros; by apply H2|]. apply H1. by left.
  - apply IH; [|done..]. intros a' z Hz. apply H1. by right.
Qed.

Definition same_venue (a b : Z) : bool := symbol_venue_byte a =? symbol_venue_byte b.

Lemma advance_venue_settles record_sym t b s :
  parity_sim b = false -> s ∈ syms b -> st_sym s <> record_sym -> same_venue (st_sym s) record_sym = true ->
  settled (st_sym s) t (held (advance_venue record_sym t b)).
Proof.
  intros Hp Hs Hne Hv. unfold advance_venue. rewrite Hp. cbn [orb].
  destruct (Nat.eqb_spec (length (held b)) 0) as [Hz|_].
  { apply length_zero_iff_nil in Hz. rewrite Hz. intros o Ho. by apply elem_of_nil in Ho. }
  set (f := fun _ _ => _).
  apply (foldl_establishes (fun x b' => syms b' = syms b -> st_sym x <> record_sym ->
    same_venue (st_sym x) record_sym = true -> settled (st_sym x) t (held b'))); try done.
  - intros b' x Hx Eb Hxne Hxv. unfold f, same_venue in *. rewrite Hxv.
    destruct (Z.eqb_spec (st_sym x) record_sym); [done|]. simpl. apply advance_settles.
    apply list_elem_of_fmap. exists x. split; [done|].
    unfold f in Eb. rewrite Hxv in Eb. destruct (Z.eqb_spec (st_sym x) record_sym); [done|]. simpl in Eb.
    destruct (advance_syms (st_sym x) t b') as [E _]. by rewrite <- E, Eb.
  - intros b' x y IH Eb Hyne Hyv. unfold f in Eb |- *. destruct (negb _ && _); [|by apply IH].
    destruct (advance_syms (st_sym x) t b') as [E _]. rewrite E in Eb.
    apply advance_keeps_settled. by apply IH.
  - apply foldl_keeps; [|done]. intros b' x _ Hb. unfold f. destruct (negb _ && _); [|done].
    by destruct (advance_syms (st_sym x) t b') as [-> _].
Qed.

(** A pass of a print or a book keeps what was settled. *)
Lemma settled_keeps sym t h h' :
  settled sym t h ->
  (forall o', o' ∈ h' -> exists o, o ∈ h /\ q_sym o' = q_sym o /\ q_state o' = q_state o /\
     q_ready o' = q_ready o /\ q_cancel o' = q_cancel o) ->
  settled sym t h'.
Proof.
  intros Hs Hfrom o' Ho. destruct (Hfrom o' Ho) as (o & Hin & E1 & E2 & E3 & E4).
  unfold not_due, cancel_due. rewrite E1, E2, E3, E4. by apply Hs.
Qed.

Lemma print_loop_mem sym px hit t left todo l o' :
  o' ∈ (print_loop sym px hit t left todo l).1 ->
  exists o, o ∈ todo /\ q_sym o' = q_sym o /\ q_state o' = q_state o /\
    q_ready o' = q_ready o /\ q_cancel o' = q_cancel o.
Proof.
  revert left l. induction todo as [|o todo IH]; intros left l H; cbn [print_loop] in H.
  { by apply elem_of_nil in H. }
  assert (forall left l o1,
    o' ∈ (let '(kept, l') := print_loop sym px hit t left todo l in (o1 :: kept, l')).1 ->
    q_sym o1 = q_sym o -> q_state o1 = q_state o -> q_ready o1 = q_ready o -> q_cancel o1 = q_cancel o ->
    exists o2, o2 ∈ o :: todo /\ q_sym o' = q_sym o2 /\ q_state o' = q_state o2 /\
      q_ready o' = q_ready o2 /\ q_cancel o' = q_cancel o2) as Hcons.
  { intros left0 l0 o1 Hin E1 E2 E3 E4. specialize (IH left0 l0).
    destruct (print_loop _ _ _ _ _ _ _) as [kept l']. apply elem_of_cons in Hin as [->|Hin].
    - exists o. split; [left|done].
    - destruct (IH Hin) as (o2 & ? & ?). exists o2. split; [by right|done]. }
  destruct (print_skips sym hit o); [by apply Hcons in H|].
  destruct (print_one hit px left o) as [[fill ahead] left']. destruct (fill <=? 0); [by apply Hcons in H|].
  destruct (0 <? _); [by apply Hcons in H|].
  destruct (IH _ _ H) as (o2 & ? & ?). exists o2. split; [by right|done].
Qed.

(** The record's own symbol and every other tracked one of its venue. *)
Definition venue_settled (b : QueueBook) (record_sym t : Z) (h : list QueueOrder) : Prop :=
  forall s, s ∈ syms b -> same_venue (st_sym s) record_sym = true -> settled (st_sym s) t h.

Lemma both_advances_settle record_sym t b :
  parity_sim b = false -> record_sym ∈ (st_sym <$> syms b) ->
  venue_settled b record_sym t (held (advance record_sym t (advance_venue record_sym t b))).
Proof.
  intros Hp Hin s Hs Hv. destruct (Z.eq_dec (st_sym s) record_sym) as [->|Hne].
  - apply advance_settles. by destruct (advance_venue_syms record_sym t b) as [-> _].
  - apply advance_keeps_settled. by apply advance_venue_settles.
Qed.

Lemma on_book_settles record_sym touch t b :
  parity_sim b = false -> record_sym ∈ (st_sym <$> syms b) ->
  venue_settled b record_sym t (held (on_book record_sym touch t b)).
Proof.
  intros Hp Hin. pose proof (both_advances_settle record_sym t b Hp Hin) as H.
  unfold on_book. destruct (advance_venue_syms record_sym t b) as [Es Ep].
  revert H Es Ep. generalize (advance_venue record_sym t b) as b0. intros b0 H Es Ep.
  rewrite Es, Ep, Hp. cbn [andb].
  destruct (sym_index record_sym (syms b)) as [k|] eqn:Ek; [|by apply sym_index_None in Ek].
  destruct (advance_syms record_sym t b0) as [_ Ep2]. revert H Ep2.
  generalize (advance record_sym t b0) as b2. intros b2 H Ep2. rewrite Ep2, Ep, Hp. cbn [negb andb].
  assert (forall k b, held (remember k touch b) = held b) as Hr by done.
  set (b3 := if two_sided touch then remember k touch b2 else b2).
  assert (held b3 = held b2) as E3 by (unfold b3; by destruct (two_sided touch)).
  destruct (syms b3 !! k) as [s|]; [|by rewrite E3]. destruct (st_known s); [|by rewrite E3].
  intros s' Hs' Hv. simpl. rewrite E3. apply (settled_keeps _ _ (held b2)); [by apply H|].
  intros o' Ho'. apply list_elem_of_fmap in Ho' as (o & -> & Ho). exists o. split; [done|].
  unfold join_queue. by destruct (_ && _ && _ && _).
Qed.

Lemma on_print_settles record_sym px qty sell t b :
  parity_sim b = false -> record_sym ∈ (st_sym <$> syms b) ->
  venue_settled b record_sym t (held (on_print record_sym px qty sell t b)).
Proof.
  intros Hp Hin. pose proof (both_advances_settle record_sym t b Hp Hin) as H.
  unfold on_print. destruct (advance_venue_syms record_sym t b) as [Es _].
  revert H Es. generalize (advance_venue record_sym t b) as b0. intros b0 H Es. rewrite Es.
  destruct (sym_index record_sym (syms b)) as [k|] eqn:Ek; [|by apply sym_index_None in Ek].
  destruct ((px <=? 0) || (qty <=? 0)); [done|]. revert H.
  generalize (advance record_sym t b0) as b1. intros b1 H.
  destruct (print_loop _ _ _ _ _ _ _) as [h l] eqn:E. intros s Hs Hv. simpl.
  apply (settled_keeps _ _ (held b1)); [by apply H|]. intros o' Ho'.
  apply (print_loop_mem record_sym px (if sell then Bid else Ask) t qty (held b1) (qlog b1)).
  by rewrite E.
Qed.

(** Outside the parity switch, a book or print record at t on a tracked
    symbol lands its whole venue: afterwards no order of any tracked symbol
    of that venue is still pending with a ready time reached, nor resting
    with its cancel time reached. *)
Theorem queue_record_leaves_nothing_due b record_sym touch px qty sell t :
  parity_sim b = false -> record_sym ∈ (st_sym <$> syms b) ->
  forall s o, s ∈ syms b -> same_venue (st_sym s) record_sym = true -> q_sym o = st_sym s ->
  o ∈ held (on_book record_sym touch t b) \/ o ∈ held (on_print record_sym px qty sell t b) ->
  match q_state o with Pending => t < q_ready o | Resting => t < q_cancel o end.
Proof.
  intros Hp Hin s o Hs Hv Hsym Ho.
  assert (not_due (st_sym s) t o = true /\ cancel_due (st_sym s) t o = false) as [Hd Hc].
  { destruct Ho as [Ho|Ho].
    - by apply (on_book_settles record_sym touch t b Hp Hin s Hs Hv).
    - by apply (on_print_settles record_sym px qty sell t b Hp Hin s Hs Hv). }
  unfold not_due, cancel_due in *. rewrite Hsym, Z.eqb_refl in *. destruct (q_state o); simpl in *; lia.
Qed.

Lemma queue_record_leaves_nothing_due_witness :
  let b := foldl run_op QueueBook_new (take 3 sample_ops) in
  (length (held b) = 1)%nat /\
  forall o, o ∈ held (on_book 5 (mkTouch 100 102 7 9) 3 b) -> q_sym o = 5 ->
  match q_state o with Pending => 3 < q_ready o | Resting => 3 < q_cancel o end.
Proof.
  split; [reflexivity|]. intros o Ho Hsym.
  apply (queue_record_leaves_nothing_due (foldl run_op QueueBook_new (take 3 sample_ops))
    5 (mkTouch 100 102 7 9) 0 0 true 3) with (s := mkSymTouch 5 true (mkTouch 100 102 7 9));
    [reflexivity|vm_compute; left|vm_compute; left|reflexivity|exact Hsym|by left].
Defined.

(** C7. A print takes off the resting orders exactly what its FILL events
    report; the fills at its own price share its size; and each fill goes to
    a resting order of the hit side that the print is through, or to one at
    the print's price whose whole known queue ahead plus the fill fits the
    print. *)
Theorem print_conserves_quantity b sym px qty sell t :
  qb_wf b -> lg_out (qlog b) = [] -> sym ∈ (st_sym <$> syms b) -> 0 < px -> 0 < qty ->
  let b1 := advance sym t (advance_venue sym t b) in
  let b2 := on_print sym px qty sell t b in
  exists evs, lg_out (qlog b2) = lg_out (qlog b1) ++ evs /\
    sumZ q_remaining (held b1) = sumZ q_remaining (held b2) + sumZ fill_qty evs /\
    sumZ (fill_qty_at px) evs <= qty /\
    Forall (fill_ok sym px qty (if sell then Bid else Ask) (held b1)) evs.
Proof.
  intros W Hout Hin Hpx Hqty b1 b2. unfold b2, b1, on_print.
  pose proof (advance_venue_wf sym t b W) as W0. destruct (advance_venue_syms sym t b) as [Es _].
  destruct (book_spends_trans _ _ _ (advance_venue_spends sym t b) (advance_spends sym t _)) as [Hsp Hlen].
  revert W0 Es Hsp Hlen. generalize (advance_venue sym t b) as b0. intros b0 W0 Es Hsp Hlen. rewrite Es.
  destruct (sym_index sym (syms b)) as [k|] eqn:Ek; [|by apply sym_index_None in Ek].
  apply (advance_wf sym t) in W0. revert W0 Hsp Hlen. generalize (advance sym t b0) as b3. intros b3 W3 Hsp Hlen.
  destruct (Z.leb_spec px 0); [lia|]. destruct (Z.leb_spec qty 0); [lia|]. cbn [orb].
  assert (waiting (qlog b) = 0%nat) as Hw by (unfold waiting; by rewrite Hout).
  pose proof (wf_len _ W) as Wl. pose proof (load_le (held b)) as Hload.
  assert (waiting (qlog b) + load (held b) <= QUEUE_OUT_CAP)%nat as Hroom
    by (unfold QUEUE_OUT_CAP, QUEUE_MAX_ORDERS in *; lia).
  destruct (Hsp Hroom) as [Hsp' _].
  destruct (print_loop_printed sym px (if sell then Bid else Ask) (syms b3) t qty (held b3) (qlog b3))
    as (evs & E & [_ P2 P3 P4]); [apply W3|lia|lia|].
  exists evs. by destruct (print_loop _ _ _ _ _ _ _) as [h l].
Qed.

Lemma print_conserves_quantity_witness :
  let b := set_log (qlog QueueBook_new) (foldl run_op QueueBook_new (take 4 sample_ops)) in
  (q_ahead <$> held b) = [7] /\
  exists evs, lg_out (qlog (on_print 5 100 9 true 4 b)) = evs /\
    4 = sumZ q_remaining (held (on_print 5 100 9 true 4 b)) + sumZ fill_qty evs.
Proof.
  set (b := set_log (qlog QueueBook_new) (foldl run_op QueueBook_new (take 4 sample_ops))).
  split; [reflexivity|].
  destruct (print_conserves_quantity b 5 100 9 true 4) as (evs & E & H & _).
  - apply log_wf. apply foldl_keeps; [|apply QueueBook_new_wf]. intros b' op Hop. apply run_op_wf.
    assert (Forall op_ok (take 4 sample_ops)) as Hok by (repeat constructor; simpl; lia).
    by eapply Forall_forall in Hok.
  - reflexivity.
  - vm_compute. left.
  - lia.
  - lia.
  - exists evs. split; [exact E|exact H].
Defined.

(** ** Lookup and modify *)

Lemma find_from_spec oid slot i found os :
  match find_from oid slot i found os with
  | Ok j => (found = Some j /\ countb (same_key oid slot) os = 0%nat) \/
      (found = None /\ countb (same_key oid slot) os = 1%nat /\ (i <= j)%nat /\
       exists o, os !! (j - i)%nat = Some o /\ same_key oid slot o = true)
  | Err NoSuchOrder => found = None /\ countb (same_key oid slot) os = 0%nat
  | Err Ambiguous => (2 <= countb (same_key oid slot) os + if found then 1 else 0)%nat
  | Err _ => False
  end.
Proof.
  revert i found. induction os as [|o os IH]; intros i found; simpl.
  { destruct found; [by left|done]. }
  destruct (same_key oid slot o) eqn:Hk.
  - destruct found as [j|]; [lia|]. specialize (IH (S i) (Some i)).
    destruct (find_from oid slot (S i) (Some i) os) as [j|[]]; simpl in *; try done; try lia.
    + destruct IH as [[[= ->] ->]|[? _]]; [|done]. right. rewrite Nat.sub_diag. split_and!; try done.
      by exists o.
    + by destruct IH.
  - specialize (IH (S i) found). destruct (find_from oid slot (S i) found os) as [j|[]]; simpl in *; try done.
    destruct IH as [?|(? & ? & ? & p & Hp & ?)]; [by left|right]. split_and!; [done|done|lia|].
    exists p. split; [|done]. replace (j - i)%nat with (S (j - S i)) by lia. done.
Qed.

(** A lookup by (client id, slot) answers Ok with the index of a
    matching order exactly when one order matches, NoSuchOrder when none
    does and Ambiguous when several do. *)
Theorem find_finds_the_only_match oid slot os :
  match find oid slot os with
  | Ok i => countb (same_key oid slot) os = 1%nat /\
      exists o, os !! i = Some o /\ q_oid o = oid /\ q_slot o = slot
  | Err NoSuchOrder => countb (same_key oid slot) os = 0%nat
  | Err Ambiguous => (2 <= countb (same_key oid slot) os)%nat
  | Err _ => False
  end.
Proof.
  unfold find. pose proof (find_from_spec oid slot 0 None os) as H.
  destruct (find_from oid slot 0 None os) as [i|[]]; simpl in *; try done; try lia.
  - destruct H as [[? _]|(_ & ? & _ & o & Ho & Hk)]; [done|]. rewrite Nat.sub_0_r in Ho.
    split; [done|]. exists o. unfold same_key in Hk. split; [done|lia].
Qed.

Lemma track_known sym b : sym ∈ (st_sym <$> syms b) -> track sym b = (b, Ok tt).
Proof.
  intros H. unfold track. destruct (sym_index sym (syms b)) eqn:E; [done|]. by apply sym_index_None in E.
Qed.

(** The order a placement writes. *)
Definition placed (p : QueuePlace) : QueueOrder :=
  mkQueueOrder (pl_oid p) (pl_px p) (pl_qty p) QUEUE_AHEAD_UNKNOWN (pl_ready p) (pl_expiry p)
    (pl_sym p) (pl_side p) (pl_slot p) Pending ORDER_EVENT_REASON_EXPIRED (pl_expiry p) 0.

Lemma place_known p b :
  pl_sym p ∈ (st_sym <$> syms b) -> 0 < pl_px p -> 0 < pl_qty p -> (length (held b) < QUEUE_MAX_ORDERS)%nat ->
  place p b = (count_book C_placed (set_held (held b ++ [placed p]) b), Ok tt).
Proof.
  intros Hs Hpx Hqty Hl. unfold place. destruct (Z.leb_spec (pl_px p) 0); [lia|].
  destruct (Z.leb_spec (pl_qty p) 0); [lia|]. destruct (Nat.leb_spec QUEUE_MAX_ORDERS (length (held b))); [lia|].
  cbn [orb]. by rewrite track_known.
Qed.

(** A modify on a tracked symbol either refuses and leaves the table
    exactly as it was, or schedules the old order's cancel no later than the
    new order's landing and appends the replacement last, linked to its
    predecessor and inheriting its expiry. *)
Theorem modify_replaces_or_leaves_alone prev new b :
  pl_sym new ∈ (st_sym <$> syms b) ->
  match modify prev new b with
  | (b', Ok _) => exists i old, find prev (pl_slot new) (held b) = Ok i /\ held b !! i = Some old /\
      syms b' = syms b /\ lg_out (qlog b') = lg_out (qlog b) /\
      held b' = <[i := schedule (pl_ready new) ORDER_EVENT_REASON_REPLACED old]> (held b) ++
        [set_link prev (placed (with_expiry (q_expiry old) new))] /\
      q_cancel (schedule (pl_ready new) ORDER_EVENT_REASON_REPLACED old) <= pl_ready new
  | (b', Err e) => held b' = held b /\ syms b' = syms b /\ lg_out (qlog b') = lg_out (qlog b) /\
      (e = Invalid \/ e = Full \/ find prev (pl_slot new) (held b) = Err e)
  end.
Proof.
  intros Hs. unfold modify. destruct (Z.leb_spec (pl_px new) 0); cbn [orb]; [by split_and!; auto|].
  destruct (Z.leb_spec (pl_qty new) 0); cbn [orb]; [by split_and!; auto|].
  pose proof (find_from_spec prev (pl_slot new) 0 None (held b)) as Hf. unfold find.
  destruct (find_from prev (pl_slot new) 0 None (held b)) as [i|e] eqn:Ef; [|by split_and!; auto].
  destruct Hf as [[? _]|(_ & _ & _ & old & Ho & _)]; [done|]. rewrite Nat.sub_0_r in Ho.
  destruct (Nat.leb_spec QUEUE_MAX_ORDERS (length (held b))); [by split_and!; auto|]. rewrite Ho.
  rewrite place_known; cbn [pl_sym pl_px pl_qty with_expiry syms held set_held];
    [|done|lia|lia|by rewrite length_alter].
  exists i, old. split_and!; try done.
  - cbn [held set_held count_book set_log]. rewrite length_app. cbn [length]. rewrite Nat.add_1_r. cbn [pred].
    rewrite alter_app_r_alt, Nat.sub_diag by lia. f_equal. by apply alter_as_insert.
  - unfold schedule. destruct (Z.ltb_spec (pl_ready new) (q_cancel old)); simpl; lia.
Qed.

Lemma modify_replaces_or_leaves_alone_witness :
  let b := foldl run_op QueueBook_new (take 4 sample_ops) in
  let new := mkQueuePlace 2 5 Bid 0 99 4 6 1000 in
  exists b', modify 1 new b = (b', Ok tt) /\
    q_expiry <$> held b' = [50; 50] /\ q_cancel <$> held b' = [6; 50] /\ q_link <$> held b' = [0; 1].
Proof.
  set (b := foldl run_op QueueBook_new (take 4 sample_ops)).
  set (new := mkQueuePlace 2 5 Bid 0 99 4 6 1000). simpl.
  assert (pl_sym new ∈ (st_sym <$> syms b)) as Hs by (vm_compute; left).
  pose proof (modify_replaces_or_leaves_alone 1 new b Hs) as H.
  destruct (modify 1 new b) as [b' [[]|e]] eqn:E; [|vm_compute in E; discriminate E].
  destruct H as (i & old & Hf & Ho & _ & _ & Hh & _). exists b'. rewrite Hh.
  assert (i = 0%nat) as -> by (vm_compute in Hf; congruence).
  assert (Some old = held b !! 0%nat) as E0 by done. vm_compute in E0. injection E0 as ->.
  split_and!; vm_compute; reflexivity.
Defined.

(** The premise above is needed: the symbol of [new] is read as the old
    order's, and not compared with it. A table tracking its eight symbols
    refuses a ninth after the old order's cancel is already rescheduled. *)
Lemma modify_on_another_symbol_is_not_whole :
  let b := foldl run_op QueueBook_new
    (map OpTrack [1; 2; 3; 4; 5; 6; 7; 8] ++ [OpPlace (mkQueuePlace 1 1 Bid 0 100 4 0 50)]) in
  let '(b', r) := modify 1 (mkQueuePlace 2 9 Bid 0 99 4 6 1000) b in
  r = Err SymsFull /\ q_cancel <$> held b = [50] /\ q_cancel <$> held b' = [6].
Proof. vm_compute. done. Qed.

Lemma queue_events_never_overflow_witness :
  let b := foldl run_op QueueBook_new (take 3 sample_ops) in
  (waiting (qlog (on_book 5 (mkTouch 100 102 7 9) 3 b)) = 1)%nat /\
  overflowed (qlog (on_book 5 (mkTouch 100 102 7 9) 3 b)) = 0.
Proof.
  split; [reflexivity|].
  apply (queue_events_never_overflow (foldl run_op QueueBook_new (take 3 sample_ops)) 5 (mkTouch 100 102 7 9) 0 0 true 3);
    [vm_compute; lia|reflexivity].
Defined.
