(* ===== verification/LedgerBase.v ===== *)
(** * [crates/exec-router/src/ledger.rs]: the ledger's shared units

    The slot count, the counters every table bumps, and [mul_1e6], the one
    product of two x1e6 magnitudes, clamped so that a sum over a whole table
    fits an [i64]. *)

From S2P Require Import Prelude CoreTypes.

(** [exec-router/src/route.rs]: [EXEC_SLOTS]. *)
Definition EXEC_SLOTS : nat := 16.
Definition LEDGER_ROWS : nat := 64.
Definition LEDGER_RESTING : nat := 1024.
Definition LEDGER_INSTRUMENTS : nat := 256.
Definition PERP_ROWS : nat := 8.
Definition DAY_NS : Z := 86400000000000.
Definition INST_EXPOSURE_MAX : Z := 9007199254740991.

Abbreviation in_exp z := (0 <= z <= INST_EXPOSURE_MAX).

(** A counter's [saturating_add(1)] on [u64]. *)
Definition tick_up (n : Z) : Z := sat_u64 (n + 1).

(** [mul_1e6]: [a * b / 1e6] in [i128], clamped to [0, INST_EXPOSURE_MAX]. *)
Definition mul_1e6 (a b : Z) : Z :=
  let p := Z.quot (sat_i128 (a * b)) 1000000 in
  if p <=? 0 then 0
  else if INST_EXPOSURE_MAX <=? p then INST_EXPOSURE_MAX
  else p.

Lemma mul_1e6_range a b : in_exp (mul_1e6 a b).
Proof. unfold mul_1e6, INST_EXPOSURE_MAX. case_ifs; lia. Qed.

Lemma mul_1e6_0_l b : mul_1e6 0 b = 0.
Proof. done. Qed.

(** On [i64] operands the [i128] product is exact. *)
Lemma mul_1e6_exact a b :
  in_i64 a -> in_i64 b -> mul_1e6 a b = clamp 0 INST_EXPOSURE_MAX (Z.quot (a * b) 1000000).
Proof.
  intros Ha Hb. unfold mul_1e6. replace (sat_i128 (a * b)) with (a * b).
  - unfold clamp, INST_EXPOSURE_MAX. case_ifs; lia.
  - unfold sat_i128, clamp, i128_min, i128_max, i64_min, i64_max in *. nia.
Qed.

(** Monotone in the magnitude: the clamp and the division keep the order. *)
Lemma mul_1e6_mono a b c : 0 <= a <= b -> 0 <= c -> mul_1e6 a c <= mul_1e6 b c.
Proof.
  intros Hab Hc. unfold mul_1e6.
  assert (sat_i128 (a * c) <= sat_i128 (b * c)) as H by (unfold sat_i128, clamp, i128_min, i128_max; nia).
  apply (Z.quot_le_mono _ _ 1000000) in H; [|lia]. unfold INST_EXPOSURE_MAX. case_ifs; lia.
Qed.

#[export] Hint Resolve mul_1e6_range : machine.

(** The whole table's terms fit: why the aggregates never wrap. *)
Lemma resting_fits : Z.of_nat LEDGER_RESTING * INST_EXPOSURE_MAX <= i64_max.
Proof. vm_compute. congruence. Qed.

Lemma instruments_fit : Z.of_nat LEDGER_INSTRUMENTS * INST_EXPOSURE_MAX <= i64_max.
Proof. vm_compute. congruence. Qed.
