(* ===== verification/LedgerResting.v ===== *)
(** * [crates/exec-router/src/ledger.rs]: the resting table

    The orders the router believes are working: 1024 rows with their four
    parallel price, size and id arrays (zipped here into one cell), the
    per-slot count and notional, and the high-water mark [resting_hi] that
    bounds every scan. [cl_live] is the code's [live] byte, which only ever
    holds 0 and 1; [cl_side] its side byte (0 on a free row). *)

From S2P Require Import Prelude CoreTypes LedgerBase.

Definition RESTING_BUY : Z := 1.
Definition RESTING_SELL : Z := 2.

Definition resting_side (buy : bool) : Z := if buy then RESTING_BUY else RESTING_SELL.

(** [RestingOrder] with [resting_px], [resting_px_asked], [resting_qty_asked]
    and [resting_asked_oid] of the same index. *)
Record Cell := mkCell {
  cl_oid : Z;
  cl_rem : Z;
  cl_sym : Z;
  cl_slot : nat;
  cl_live : bool;
  cl_side : Z;
  cl_px : Z;
  cl_px_asked : Z;
  cl_qty_asked : Z;
  cl_asked_oid : Z
}.

(** [RestingOrder::free()] with its arrays at zero. *)
Definition cell_free : Cell := mkCell 0 0 SYMBOL_ID_NONE 0 false 0 0 0 0 0.

Record Resting := mkResting {
  cells : list Cell;
  by_slot : list Z;
  usd : list Z;
  hi : nat;
  resting_full : Z;
  resting_ambiguous : Z;
  resting_unmatched : Z
}.

Definition Resting_new : Resting :=
  mkResting (replicate LEDGER_RESTING cell_free) (replicate EXEC_SLOTS 0) (replicate EXEC_SLOTS 0) 0 0 0 0.

Definition set_cells (c : list Cell) (r : Resting) : Resting :=
  mkResting c (by_slot r) (usd r) (hi r) (resting_full r) (resting_ambiguous r) (resting_unmatched r).
Definition set_by_slot (b : list Z) (r : Resting) : Resting :=
  mkResting (cells r) b (usd r) (hi r) (resting_full r) (resting_ambiguous r) (resting_unmatched r).
Definition set_usd (u : list Z) (r : Resting) : Resting :=
  mkResting (cells r) (by_slot r) u (hi r) (resting_full r) (resting_ambiguous r) (resting_unmatched r).
Definition set_hi (h : nat) (r : Resting) : Resting :=
  mkResting (cells r) (by_slot r) (usd r) h (resting_full r) (resting_ambiguous r) (resting_unmatched r).
Definition count_full (r : Resting) : Resting :=
  mkResting (cells r) (by_slot r) (usd r) (hi r) (tick_up (resting_full r)) (resting_ambiguous r) (resting_unmatched r).
Definition count_ambiguous (r : Resting) : Resting :=
  mkResting (cells r) (by_slot r) (usd r) (hi r) (resting_full r) (tick_up (resting_ambiguous r)) (resting_unmatched r).
Definition count_unmatched (r : Resting) : Resting :=
  mkResting (cells r) (by_slot r) (usd r) (hi r) (resting_full r) (resting_ambiguous r) (tick_up (resting_unmatched r)).

Definition cell (r : Resting) (i : nat) : Cell := default cell_free (cells r !! i).

(** [resting_qty] and [resting_term]. *)
Definition resting_qty (c : Cell) : Z := Z.max (Z.max (cl_rem c) (cl_qty_asked c)) 0.
Definition resting_term (c : Cell) : Z := mul_1e6 (resting_qty c) (Z.max (cl_px c) (cl_px_asked c)).

(** [usd[slot].saturating_sub(old).saturating_add(new)]. *)
Definition reterm_usd (old new u : Z) : Z := sat_i64 (sat_i64 (u - old) + new).

Definition resting_reterm (i : nat) (old : Z) (r : Resting) : Resting :=
  let slot := Nat.modulo (cl_slot (cell r i)) EXEC_SLOTS in
  set_usd (upd (reterm_usd old (resting_term (cell r i))) slot (usd r)) r.

(** [resting_end]. *)
Definition resting_end (r : Resting) : nat := hi r.

Definition occupy (i : nat) (row : Cell) (r : Resting) : Resting :=
  set_hi (Nat.max (hi r) (i + 1)) (set_cells (<[i := row]> (cells r)) r).

(** The scan of [release] past the run of free rows ending below [n]. *)
Fixpoint lower_mark (cs : list Cell) (n : nat) : nat :=
  match n with
  | O => O
  | S k => if cl_live (default cell_free (cs !! k)) then n else lower_mark cs k
  end.

Definition release (i : nat) (r : Resting) : Resting :=
  let slot := cl_slot (cell r i) in
  let old := resting_term (cell r i) in
  let cs := <[i := cell_free]> (cells r) in
  let r1 := set_cells cs r in
  let r2 :=
    if (slot <? EXEC_SLOTS)%nat then
      set_usd (upd (fun u => sat_i64 (u - old)) slot (usd r1))
        (set_by_slot (upd (fun n => sat_u32 (n - 1)) slot (by_slot r1)) r1)
    else r1 in
  if (i + 1 =? hi r)%nat then set_hi (lower_mark cs i) r2 else r2.

(** [Found]. *)
Inductive Found : Type := One (i : nat) | FNone | Many.

Definition has_key (oid : Z) (slot : nat) (c : Cell) : bool :=
  cl_live c && (cl_oid c =? oid) && (cl_slot c =? slot)%nat.

(** The pass of [locate]: how many rows matched, and the first of them. *)
Fixpoint locate_from (oid : Z) (slot i n : nat) (found : option nat) (cs : list Cell) : Found :=
  match cs with
  | [] =>
      if (1 <? n)%nat then Many
      else match found with None => FNone | Some j => One j end
  | c :: cs' =>
      if has_key oid slot c
      then locate_from oid slot (S i) (S n) (match found with None => Some i | Some j => Some j end) cs'
      else locate_from oid slot (S i) n found cs'
  end.

Definition locate (oid : Z) (slot : nat) (r : Resting) : Found :=
  if (EXEC_SLOTS <=? slot)%nat then FNone
  else locate_from oid slot 0 0 None (take (resting_end r) (cells r)).

(** [find]: [locate], counting an ambiguous key. *)
Definition find (oid : Z) (slot : nat) (r : Resting) : Resting * Found :=
  match locate oid slot r with
  | Many => (count_ambiguous r, Many)
  | f => (r, f)
  end.

(** The sum over a pass of [working_on]. *)
Record Work := mkWork { wk_total : Z; wk_held : Z; wk_hit : option Cell; wk_hits : nat }.

Definition work_step (slot : nat) (sym side : Z) (exclude : option Z) (w : Work) (c : Cell) : Work :=
  if cl_live c && (cl_slot c =? slot)%nat then
    if match exclude with Some oid => cl_oid c =? oid | None => false end
    then mkWork (wk_total w) (wk_held w) (Some c) (S (wk_hits w))
    else if (cl_sym c =? sym) && (cl_side c =? side)
    then mkWork (sat_i64 (wk_total w + Z.max (cl_rem c) 0)) (sat_i64 (wk_held w + resting_qty c))
           (wk_hit w) (wk_hits w)
    else w
  else w.

(** [working_on]: the side's working quantity, the same with queued
    modifies, and the replaced order's term. *)
Definition working_on (slot : nat) (sym : Z) (buy : bool) (exclude : option Z) (r : Resting) : Z * Z * Z :=
  let w := foldl (work_step slot sym (resting_side buy) exclude) (mkWork 0 0 None 0)
             (take (resting_end r) (cells r)) in
  (wk_total w, wk_held w,
   if (wk_hits w =? 1)%nat then match wk_hit w with Some c => resting_term c | None => 0 end else 0).

(** ** The order lifecycle *)

Definition on_submit (oid : Z) (slot : nat) (sym qty : Z) (buy : bool) (px : Z) (r : Resting) : Resting :=
  if (EXEC_SLOTS <=? slot)%nat then r
  else
    match first_index (fun c => negb (cl_live c)) (cells r) with
    | None =>
        let r1 := count_full r in
        set_usd (upd (fun u => sat_i64 (u + mul_1e6 qty px)) slot (usd r1))
          (set_by_slot (upd (fun n => sat_u32 (n + 1)) slot (by_slot r1)) r1)
    | Some free =>
        let r1 := occupy free (mkCell oid qty sym slot true (resting_side buy) px 0 0 0) r in
        let r2 := resting_reterm free 0 r1 in
        set_by_slot (upd (fun n => sat_u32 (n + 1)) slot (by_slot r2)) r2
    end.

Definition on_cancel (oid : Z) (slot : nat) (r : Resting) : Resting :=
  match find oid slot r with (r1, One i) => release i r1 | (r1, _) => r1 end.

(** A row holding a refused modify drops the hold. *)
Definition drop_hold (c : Cell) : Cell :=
  mkCell (cl_oid c) (cl_rem c) (cl_sym c) (cl_slot c) (cl_live c) (cl_side c) (cl_px c) 0 0 0.

Definition on_retired (oid : Z) (slot : nat) (r : Resting) : Resting :=
  match find oid slot r with
  | (r1, One i) => release i r1
  | (r1, Many) => r1
  | (r1, FNone) =>
      if oid =? 0 then r1
      else
        match first_index (fun c => (cl_asked_oid c =? oid) && cl_live c && (cl_slot c =? slot)%nat)
                (take (resting_end r1) (cells r1)) with
        | None => r1
        | Some i =>
            let old := resting_term (cell r1 i) in
            resting_reterm i old (set_cells (alter drop_hold i (cells r1)) r1)
        end
  end.

(** The row a confirmed modify leaves: new id, size, leg and side; the price
    given, else the price asked, else its own; no hold. *)
Definition modified (oid sym qty : Z) (buy : bool) (px : Z) (c : Cell) : Cell :=
  mkCell oid qty sym (cl_slot c) (cl_live c) (resting_side buy)
    (if 0 <? px then px else if 0 <? cl_px_asked c then cl_px_asked c else cl_px c) 0 0 0.

Definition on_modify (prev oid : Z) (slot : nat) (sym qty : Z) (buy : bool) (px : Z) (r : Resting) : Resting :=
  match find prev slot r with
  | (r1, One i) =>
      let old := resting_term (cell r1 i) in
      resting_reterm i old (set_cells (alter (modified oid sym qty buy px) i (cells r1)) r1)
  | (r1, FNone) => on_submit oid slot sym qty buy px r1
  | (r1, Many) => r1
  end.

(** The hold of a queued modify. *)
Definition asked (oid qty px : Z) (c : Cell) : Cell :=
  mkCell (cl_oid c) (cl_rem c) (cl_sym c) (cl_slot c) (cl_live c) (cl_side c) (cl_px c) px qty oid.

Definition on_modify_asked (prev oid : Z) (slot : nat) (qty px : Z) (r : Resting) : Resting :=
  match locate prev slot r with
  | One i =>
      let old := resting_term (cell r i) in
      resting_reterm i old (set_cells (alter (asked oid qty px) i (cells r)) r)
  | _ => r
  end.

Definition set_rem (q : Z) (c : Cell) : Cell :=
  mkCell (cl_oid c) q (cl_sym c) (cl_slot c) (cl_live c) (cl_side c) (cl_px c)
    (cl_px_asked c) (cl_qty_asked c) (cl_asked_oid c).

(** [consume_resting]: a fill of [qty] takes it off its order. *)
Definition consume_resting (oid : Z) (slot : nat) (qty : Z) (r : Resting) : Resting :=
  match find oid slot r with
  | (r1, FNone) => count_unmatched r1
  | (r1, Many) => r1
  | (r1, One i) =>
      let rem := sat_i64 (cl_rem (cell r1 i) - qty) in
      if rem <=? 0 then release i r1
      else
        let old := resting_term (cell r1 i) in
        resting_reterm i old (set_cells (alter (set_rem rem) i (cells r1)) r1)
  end.

(** A pass over the live prefix as it stands, releasing what [p] names. *)
Definition release_where (p : Cell -> bool) (r : Resting) : Resting :=
  foldl (fun r i => if cl_live (cell r i) && p (cell r i) then release i r else r) r
    (seq 0 (resting_end r)).

Definition drop_resting_on (sym_yes sym_no : Z) (r : Resting) : Resting :=
  release_where (fun c => (cl_sym c =? sym_yes) || (cl_sym c =? sym_no)) r.

Definition clear_resting_slot (slot : nat) (r : Resting) : Resting :=
  if (EXEC_SLOTS <=? slot)%nat then r
  else
    let r1 := release_where (fun c => (cl_slot c =? slot)%nat) r in
    set_usd (upd (fun _ => 0) slot (usd r1)) (set_by_slot (upd (fun _ => 0) slot (by_slot r1)) r1).

(** [slot_resting] and [resting_usd_1e6]. *)
Definition slot_resting (slot : nat) (r : Resting) : Z :=
  if (EXEC_SLOTS <=? slot)%nat then 0 else get (by_slot r) slot.
Definition resting_usd_1e6 (slot : nat) (r : Resting) : Z :=
  if (EXEC_SLOTS <=? slot)%nat then 0 else get (usd r) slot.
