(* ===== verification/RestingProofs.v ===== *)
(** * Theorems of the resting table

    The accounting invariant (each slot's count and notional against its live
    rows), the tightness of the high-water mark, that the bounded scans see
    the whole table, and what each operation does to an order's row. *)

From S2P Require Import Prelude CoreTypes LedgerBase LedgerResting.

Definition owns (s : nat) (c : Cell) : bool := cl_live c && (cl_slot c =? s)%nat.
Definition term_of (s : nat) (c : Cell) : Z := if owns s c then resting_term c else 0.

(** What the table itself holds of a slot. *)
Definition n_of (s : nat) (cs : list Cell) : Z := Z.of_nat (countb (owns s) cs).
Definition usd_of (s : nat) (cs : list Cell) : Z := sumZ (term_of s) cs.

(** A slot's running figures [n], [u] never read below its rows' [cn], [cu],
    and equal them as long as no order ever overflowed the table. *)
Definition accounts (full n u cn cu : Z) : Prop :=
  cn <= n <= u32_max /\ cu <= u <= i64_max /\ (full = 0 -> n = cn /\ u = cu).

Definition cell_ok (c : Cell) : Prop :=
  if cl_live c then (cl_slot c < EXEC_SLOTS)%nat else c = cell_free.

Record rt_ok (r : Resting) : Prop := {
  ok_cells : length (cells r) = LEDGER_RESTING;
  ok_by_slot : length (by_slot r) = EXEC_SLOTS;
  ok_usd : length (usd r) = EXEC_SLOTS;
  ok_full : 0 <= resting_full r;
  ok_each : Forall cell_ok (cells r);
  ok_above : forall i c, (hi r <= i)%nat -> cells r !! i = Some c -> cl_live c = false;
  ok_tight : hi r = 0%nat \/ exists c, cells r !! (pred (hi r)) = Some c /\ cl_live c = true;
  ok_acct : forall s, (s < EXEC_SLOTS)%nat ->
    accounts (resting_full r) (get (by_slot r) s) (get (usd r) s) (n_of s (cells r)) (usd_of s (cells r))
}.

(** ** Bounds of the sums *)

Lemma resting_term_range c : in_exp (resting_term c).
Proof. apply mul_1e6_range. Qed.

Lemma term_of_range s c : in_exp (term_of s c).
Proof. unfold term_of. destruct (owns s c); [apply resting_term_range|]. unfold INST_EXPOSURE_MAX. lia. Qed.

Lemma usd_of_range s cs : length cs = LEDGER_RESTING -> 0 <= usd_of s cs <= i64_max.
Proof.
  intros Hl. split; [apply sumZ_nonneg; intros c _; apply term_of_range|].
  pose proof (sumZ_le (term_of s) cs INST_EXPOSURE_MAX ltac:(intros c _; apply term_of_range)).
  rewrite Hl in *. pose proof resting_fits. unfold usd_of. lia.
Qed.

Lemma n_of_range s cs : length cs = LEDGER_RESTING -> 0 <= n_of s cs <= 1024.
Proof. intros Hl. pose proof (countb_le (owns s) cs). rewrite Hl in *. unfold n_of, LEDGER_RESTING in *. lia. Qed.

Definition b2z (b : bool) : Z := if b then 1 else 0.

Lemma n_of_insert s cs i c c' :
  cs !! i = Some c -> n_of s (<[i:=c']> cs) = n_of s cs - b2z (owns s c) + b2z (owns s c').
Proof.
  intros H. pose proof (countb_insert (owns s) cs i c c' H). unfold n_of, b2z.
  destruct (owns s c), (owns s c'); lia.
Qed.

Lemma usd_of_insert s cs i c c' :
  cs !! i = Some c -> usd_of s (<[i:=c']> cs) = usd_of s cs - term_of s c + term_of s c'.
Proof. intros H. by apply sumZ_insert. Qed.

Lemma term_le_usd s cs i c : cs !! i = Some c -> term_of s c <= usd_of s cs.
Proof. intros H. eapply sumZ_lookup_le; [|exact H]. intros x _. apply term_of_range. Qed.

Lemma owns_le_n s cs i c : cs !! i = Some c -> b2z (owns s c) <= n_of s cs.
Proof.
  intros H. pose proof (n_of_insert s cs i c cell_free H) as E. unfold n_of, b2z in *. simpl in E. lia.
Qed.

Lemma cell_lookup r i c : cells r !! i = Some c -> cell r i = c.
Proof. intros H. unfold cell. by rewrite H. Qed.

Lemma alter_cell (f : Cell -> Cell) r i c : cells r !! i = Some c -> alter f i (cells r) = <[i := f c]> (cells r).
Proof. apply alter_as_insert. Qed.

Lemma cell_ok_at r i c : rt_ok r -> cells r !! i = Some c -> cell_ok c.
Proof. intros W H. by apply (Forall_lookup_1 _ _ _ _ (ok_each r W) H). Qed.

Lemma live_below r i c : rt_ok r -> cells r !! i = Some c -> cl_live c = true -> (i < hi r)%nat.
Proof.
  intros W H Hl. destruct (decide (i < hi r)%nat) as [|Hge]; [done|].
  rewrite (ok_above r W i c) in Hl; [done|lia|done].
Qed.

(** ** Rewriting one live row *)

(** [resting_reterm] after the row at [i] became [c'], still live and its
    slot's. *)
Lemma reterm_ok r i c c' :
  rt_ok r -> cells r !! i = Some c -> cl_live c = true -> cl_live c' = true -> cl_slot c' = cl_slot c ->
  rt_ok (resting_reterm i (resting_term c) (set_cells (<[i:=c']> (cells r)) r)).
Proof.
  intros W Hc Hlive Hlive' Hslot.
  assert (i < length (cells r))%nat as Hi by (by apply lookup_lt_Some in Hc).
  pose proof (cell_ok_at r i c W Hc) as Hok. unfold cell_ok in Hok. rewrite Hlive in Hok.
  unfold resting_reterm. rewrite (cell_lookup _ i c') by (by apply list_lookup_insert_eq).
  rewrite Hslot, Nat.mod_small by done.
  destruct W as [W1 W2 W3 W4 W5 W6 W7 W8]. constructor; simpl.
  - by rewrite length_insert.
  - done.
  - by rewrite length_upd.
  - done.
  - apply Forall_insert; [done|]. unfold cell_ok. by rewrite Hlive', Hslot.
  - intros j d Hj Hd. destruct (decide (i = j)) as [<-|Hne].
    + rewrite (W6 i c) in Hlive; [done|lia|done].
    + rewrite list_lookup_insert_ne in Hd by done. by apply (W6 j).
  - destruct W7 as [|(d & Hd & Hdl)]; [by left|right].
    destruct (decide (i = pred (hi r))) as [<-|Hne].
    + exists c'. by rewrite list_lookup_insert_eq.
    + exists d. by rewrite list_lookup_insert_ne.
  - intros s Hs. destruct (W8 s Hs) as (A & B & C).
    pose proof (usd_of_insert s (cells r) i c c' Hc) as Eu. pose proof (n_of_insert s (cells r) i c c' Hc) as En.
    assert (owns s c' = owns s c) as Eo by (unfold owns; by rewrite Hlive, Hlive', Hslot).
    pose proof (usd_of_range s (<[i:=c']> (cells r)) ltac:(by rewrite length_insert)) as R.
    pose proof (term_le_usd s (cells r) i c Hc) as T. pose proof (term_of_range s c). pose proof (term_of_range s c').
    unfold accounts. rewrite En, Eo. destruct (decide (cl_slot c = s)) as [<-|Hne].
    + rewrite get_upd by lia. unfold reterm_usd. unfold term_of in *. rewrite Eo in *.
      unfold owns in *. rewrite Hlive, Nat.eqb_refl in *. simpl in *.
      split; [lia|]. unfold sat_i64, clamp, i64_min, i64_max in *. split; [lia|]. intros Hf. destruct (C Hf). lia.
    + rewrite get_upd_ne by done. rewrite Eu. unfold term_of in *. rewrite Eo in *.
      unfold owns in *. rewrite Hlive in *. destruct (Nat.eqb_spec (cl_slot c) s); [done|]. simpl in *.
      split; [lia|]. split; [lia|]. intros Hf. destruct (C Hf). lia.
Qed.

(** ** Taking and freeing a row *)

Lemma lower_mark_spec cs n :
  (lower_mark cs n <= n)%nat /\
  (forall j c, (lower_mark cs n <= j < n)%nat -> cs !! j = Some c -> cl_live c = false) /\
  (lower_mark cs n = 0%nat \/ exists c, cs !! pred (lower_mark cs n) = Some c /\ cl_live c = true).
Proof.
  induction n as [|n (IH1 & IH2 & IH3)]; simpl; [split_and!; [lia| |by left]; intros; lia|].
  destruct (cs !! n) as [c|] eqn:E; simpl; [destruct (cl_live c) eqn:El|].
  - split_and!; [lia|intros; lia|]. right. exists c. by split.
  - split_and!; [lia| |done]. intros j d Hj Hd. destruct (decide (j = n)) as [->|]; [congruence|].
    apply (IH2 j); [lia|done].
  - split_and!; [lia| |done]. intros j d Hj Hd. destruct (decide (j = n)) as [->|]; [congruence|].
    apply (IH2 j); [lia|done].
Qed.

Lemma owns_live_slot s c : cl_live c = true -> owns s c = (cl_slot c =? s)%nat.
Proof. unfold owns. by intros ->. Qed.

Lemma owns_dead s c : cl_live c = false -> owns s c = false.
Proof. unfold owns. by intros ->. Qed.

Lemma free_row_ok r i :
  rt_ok r -> (i < LEDGER_RESTING)%nat -> cell_ok (cell r i) /\
  exists c, cells r !! i = Some c /\ cell r i = c.
Proof.
  intros W Hi. destruct (lookup_lt_is_Some_2 (cells r) i) as [c Hc]; [by rewrite (ok_cells r W)|].
  rewrite (cell_lookup r i c Hc). split; [by eapply cell_ok_at|by exists c].
Qed.

Lemma release_ok r i c :
  rt_ok r -> cells r !! i = Some c -> cl_live c = true -> rt_ok (release i r).
Proof.
  intros W Hc Hlive. pose proof (live_below r i c W Hc Hlive) as Hbelow.
  assert (i < length (cells r))%nat as Hi by (by apply lookup_lt_Some in Hc).
  pose proof (cell_ok_at r i c W Hc) as Hok. unfold cell_ok in Hok. rewrite Hlive in Hok.
  unfold release. rewrite (cell_lookup r i c Hc). destruct (Nat.ltb_spec (cl_slot c) EXEC_SLOTS); [|lia].
  set (cs := <[i:=cell_free]> (cells r)).
  assert (forall j d, (hi r <= j)%nat -> cs !! j = Some d -> cl_live d = false) as Habove.
  { intros j d Hj Hd. unfold cs in Hd. rewrite list_lookup_insert_ne in Hd by lia. by apply (ok_above r W j). }
  assert (cs !! i = Some cell_free) as Hcsi by (unfold cs; by apply list_lookup_insert_eq).
  assert (forall h, rt_ok (set_hi h
    (set_usd (upd (fun u => sat_i64 (u - resting_term c)) (cl_slot c) (usd r))
      (set_by_slot (upd (fun n => sat_u32 (n - 1)) (cl_slot c) (by_slot r)) (set_cells cs r)))) <->
    (forall j d, (h <= j)%nat -> cs !! j = Some d -> cl_live d = false) /\
    (h = 0%nat \/ exists d, cs !! pred h = Some d /\ cl_live d = true)) as Hframe.
  { intros h. split; [intros H'; split; [apply (ok_above _ H')|apply (ok_tight _ H')]|].
    intros [Ha Ht]. destruct W as [W1 W2 W3 W4 W5 W6 W7 W8]. constructor; simpl; try done.
    - unfold cs. by rewrite length_insert.
    - by rewrite length_upd.
    - by rewrite length_upd.
    - unfold cs. by apply Forall_insert.
    - intros s Hs. destruct (W8 s Hs) as (A & B & C).
      pose proof (usd_of_insert s (cells r) i c cell_free Hc) as Eu.
      pose proof (n_of_insert s (cells r) i c cell_free Hc) as En.
      pose proof (usd_of_range s cs ltac:(unfold cs; by rewrite length_insert)) as R.
      pose proof (term_le_usd s (cells r) i c Hc) as T. pose proof (owns_le_n s (cells r) i c Hc) as N.
      pose proof (term_of_range s c). unfold accounts, cs. rewrite En, Eu.
      unfold term_of in *. simpl. rewrite (owns_live_slot s c Hlive) in *.
      destruct (Nat.eqb_spec (cl_slot c) s) as [->|Hne]; simpl in *.
      + rewrite !get_upd by lia. unfold sat_u32, sat_i64, clamp, u32_max, i64_min, i64_max in *.
        split_and!; try lia; intros Hf; destruct (C Hf); lia.
      + rewrite !get_upd_ne by done. split_and!; try lia; intros Hf; destruct (C Hf); lia. }
  simpl. change (set_usd _ (set_by_slot _ _)) with
    (set_hi (hi r) (set_usd (upd (fun u => sat_i64 (u - resting_term c)) (cl_slot c) (usd r))
      (set_by_slot (upd (fun n => sat_u32 (n - 1)) (cl_slot c) (by_slot r)) (set_cells cs r)))).
  destruct (Nat.eqb_spec (i + 1) (hi r)) as [He|Hne].
  - apply Hframe. destruct (lower_mark_spec cs i) as (L1 & L2 & L3). split; [|done].
    intros j d Hj Hd. destruct (decide (j < i)%nat); [apply (L2 j); [lia|done]|].
    destruct (decide (j = i)) as [->|]; [by rewrite Hcsi in Hd; injection Hd as <-|].
    apply (Habove j); [lia|done].
  - apply Hframe. split; [done|]. destruct (ok_tight r W) as [->|(d & Hd & Hdl)]; [lia|right].
    exists d. split; [|done]. unfold cs. rewrite list_lookup_insert_ne; [done|lia].
Qed.

Lemma submit_ok oid slot sym qty buy px r : rt_ok r -> rt_ok (on_submit oid slot sym qty buy px r).
Proof.
  intros W. unfold on_submit. destruct (Nat.leb_spec EXEC_SLOTS slot); [done|].
  pose proof W as [W1 W2 W3 W4 W5 W6 W7 W8].
  destruct (first_index _ (cells r)) as [i|] eqn:Ef.
  - destruct (first_index_Some _ _ _ Ef) as (c & Hc & Hfree & _). apply negb_true_iff in Hfree.
    assert (i < length (cells r))%nat as Hi by (by apply lookup_lt_Some in Hc).
    set (row := mkCell oid qty sym slot true (resting_side buy) px 0 0 0).
    unfold resting_reterm. rewrite (cell_lookup (occupy i row r) i row) by (by apply list_lookup_insert_eq).
    rewrite (Nat.mod_small (cl_slot row)) by done. constructor; simpl; try done.
    + by rewrite length_insert.
    + by rewrite length_upd.
    + by rewrite length_upd.
    + apply Forall_insert; [done|]. unfold cell_ok. simpl. lia.
    + intros j d Hj Hd. rewrite list_lookup_insert_ne in Hd by lia. apply (W6 j); [lia|done].
    + right. destruct (decide (hi r <= i)%nat) as [Hle|Hlt].
      * exists row. replace (pred (Nat.max (hi r) (i + 1))) with i by lia. by rewrite list_lookup_insert_eq.
      * replace (Nat.max (hi r) (i + 1)) with (hi r) by lia. destruct W7 as [|(d & Hd & Hdl)]; [lia|].
        exists d. rewrite list_lookup_insert_ne; [done|]. intros ->. congruence.
    + intros s Hs. destruct (W8 s Hs) as (A & B & C).
      pose proof (usd_of_insert s (cells r) i c row Hc) as Eu. pose proof (n_of_insert s (cells r) i c row Hc) as En.
      pose proof (usd_of_range s (<[i:=row]> (cells r)) ltac:(by rewrite length_insert)) as R.
      pose proof (n_of_range s (<[i:=row]> (cells r)) ltac:(by rewrite length_insert)) as R2.
      pose proof (term_of_range s row) as Hrow. unfold accounts. rewrite En, Eu in *. unfold term_of in *.
      rewrite (owns_dead s c Hfree) in *. simpl. rewrite (owns_live_slot s row eq_refl) in *. simpl in Hrow |- *.
      unfold row in *. simpl in *. destruct (Nat.eqb_spec slot s) as [->|Hne]; simpl in *.
      * rewrite !get_upd by lia. unfold reterm_usd, sat_u32, sat_i64, clamp, u32_max, i64_min, i64_max, INST_EXPOSURE_MAX in *.
        split_and!; try lia; intros Hf; destruct (C Hf); lia.
      * rewrite !get_upd_ne by done. split_and!; try lia; intros Hf; destruct (C Hf); lia.
  - constructor; simpl; try done.
    + by rewrite length_upd.
    + by rewrite length_upd.
    + unfold tick_up, sat_u64, clamp, u64_max. lia.
    + intros s Hs. destruct (W8 s Hs) as (A & B & C). pose proof (mul_1e6_range qty px) as Hm.
      pose proof (usd_of_range s (cells r) W1). unfold accounts, INST_EXPOSURE_MAX in *.
      destruct (decide (slot = s)) as [<-|Hne].
      * rewrite !get_upd by lia. unfold tick_up, sat_u64, sat_u32, sat_i64, clamp, u64_max, u32_max, i64_min, i64_max in *.
        pose proof (n_of_range slot (cells r) W1). lia.
      * rewrite !get_upd_ne by done. split_and!; try lia; intros Hf; unfold tick_up, sat_u64, clamp, u64_max in Hf; lia.
Qed.

(** ** Lookups: the bounded pass sees the whole table *)

Lemma locate_from_spec oid slot i n found cs :
  (n = 0%nat <-> found = None) ->
  let k := (n + countb (has_key oid slot) cs)%nat in
  match locate_from oid slot i n found cs with
  | FNone => k = 0%nat
  | Many => (2 <= k)%nat
  | One j => k = 1%nat /\
      (found = Some j \/ exists c, (i <= j)%nat /\ cs !! (j - i)%nat = Some c /\ has_key oid slot c = true)
  end.
Proof.
  revert i n found. induction cs as [|c cs IH]; intros i n found Hn; simpl.
  { destruct (Nat.ltb_spec 1 n); [lia|]. destruct found as [j|]; [|naive_solver lia].
    split; [|by left]. destruct n; [|lia]. destruct Hn as [Hn _]. by specialize (Hn eq_refl). }
  destruct (has_key oid slot c) eqn:Hk.
  - specialize (IH (S i) (S n) (match found with None => Some i | Some j => Some j end)
      ltac:(by destruct found)). simpl in IH.
    destruct (locate_from _ _ _ _ _ _) as [j| |]; [|lia..]. destruct IH as [Hc Hor].
    split; [lia|]. destruct found as [f|].
    + left. destruct Hor as [|(d & ? & Hd & _)]; [done|].
      exfalso. assert (n <> 0%nat) by (intros ->; destruct Hn as [Hn _]; by specialize (Hn eq_refl)). lia.
    + right. destruct Hor as [[= ->]|(d & ? & Hd & ?)].
      * exists c. rewrite Nat.sub_diag. by split_and!.
      * exists d. split_and!; [lia| |done]. by replace (j - i)%nat with (S (j - S i)) by lia.
  - specialize (IH (S i) n found Hn). simpl in IH. destruct (locate_from _ _ _ _ _ _) as [j| |]; [|done..].
    destruct IH as [? [|(d & ? & Hd & ?)]]; (split; [done|]); [by left|right].
    exists d. split_and!; [lia| |done]. by replace (j - i)%nat with (S (j - S i)) by lia.
Qed.

(** Rows at or above the mark carry no key. *)
Lemma countb_prefix r (f : Cell -> bool) :
  rt_ok r -> (forall c, cl_live c = false -> f c = false) ->
  countb f (take (hi r) (cells r)) = countb f (cells r).
Proof.
  intros W Hf. rewrite <- (take_drop (hi r) (cells r)) at 2. rewrite countb_app.
  enough (countb f (drop (hi r) (cells r)) = 0%nat) by lia.
  transitivity (countb (fun _ => false) (drop (hi r) (cells r))).
  - apply countb_ext. intros c Hc. apply list_elem_of_lookup in Hc as [j Hj].
    rewrite lookup_drop in Hj. apply Hf. apply (ok_above r W _ c) in Hj; [done|lia].
  - generalize (drop (hi r) (cells r)). intros l. by induction l.
Qed.

Lemma has_key_live oid slot c : has_key oid slot c = true -> cl_live c = true /\ cl_oid c = oid /\ cl_slot c = slot.
Proof. unfold has_key. rewrite !andb_true_iff, Z.eqb_eq, Nat.eqb_eq. tauto. Qed.

Lemma has_key_dead oid slot c : cl_live c = false -> has_key oid slot c = false.
Proof. unfold has_key. by intros ->. Qed.

Lemma locate_spec oid slot r :
  rt_ok r ->
  match locate oid slot r with
  | FNone => countb (has_key oid slot) (cells r) = 0%nat
  | Many => (2 <= countb (has_key oid slot) (cells r))%nat
  | One i => countb (has_key oid slot) (cells r) = 1%nat /\
      exists c, cells r !! i = Some c /\ has_key oid slot c = true
  end.
Proof.
  intros W. unfold locate. destruct (Nat.leb_spec EXEC_SLOTS slot) as [Hs|Hs].
  - transitivity (countb (fun _ => false) (cells r)).
    + apply countb_ext. intros c Hc. apply not_true_is_false. intros Hk.
      apply has_key_live in Hk as (Hl & _ & <-). pose proof (ok_each r W) as Hall.
      eapply Forall_forall in Hall; [|exact Hc]. unfold cell_ok in Hall. rewrite Hl in Hall. lia.
    + generalize (cells r). intros l. by induction l.
  - pose proof (locate_from_spec oid slot 0 0 None (take (hi r) (cells r)) ltac:(done)) as H. simpl in H.
    rewrite (countb_prefix r _ W (has_key_dead oid slot)) in H. unfold resting_end.
    destruct (locate_from _ _ _ _ _ _) as [i| |]; [|done..].
    destruct H as [Hc [|(c & _ & Hi & Hk)]]; [done|]. split; [done|]. exists c.
    rewrite Nat.sub_0_r in Hi. split; [|done]. by apply lookup_take_Some in Hi as [? _].
Qed.

Lemma find_spec oid slot r :
  find oid slot r = (match locate oid slot r with Many => count_ambiguous r | _ => r end, locate oid slot r).
Proof. unfold find. by destruct (locate oid slot r). Qed.

(** ** Every operation keeps the accounts *)

Lemma count_ambiguous_ok r : rt_ok r -> rt_ok (count_ambiguous r).
Proof. intros []. by constructor. Qed.

Lemma count_unmatched_ok r : rt_ok r -> rt_ok (count_unmatched r).
Proof. intros []. by constructor. Qed.

(** An update of one live row that keeps its slot. *)
Lemma update_ok f r i c :
  rt_ok r -> cells r !! i = Some c -> cl_live c = true ->
  cl_live (f c) = true -> cl_slot (f c) = cl_slot c ->
  rt_ok (resting_reterm i (resting_term (cell r i)) (set_cells (alter f i (cells r)) r)).
Proof.
  intros W Hc Hl Hl' Hs. rewrite (cell_lookup r i c Hc), (alter_cell f r i c Hc). by apply reterm_ok.
Qed.

(** Every verb that finds its order leaves the table in order. *)
Lemma find_cases (P : Resting -> Prop) oid slot r (on_one : nat -> Resting -> Resting) (on_none : Resting -> Resting) :
  rt_ok r ->
  (forall i c, cells r !! i = Some c -> cl_live c = true -> cl_slot c = slot -> P (on_one i r)) ->
  P (on_none r) -> P (count_ambiguous r) ->
  P (match find oid slot r with (r1, One i) => on_one i r1 | (r1, FNone) => on_none r1 | (r1, Many) => r1 end).
Proof.
  intros W H1 H2 H3. rewrite find_spec. pose proof (locate_spec oid slot r W) as Hl.
  destruct (locate oid slot r) as [i| |]; [|done..]. destruct Hl as (_ & c & Hc & Hk).
  apply has_key_live in Hk as (? & _ & ?). by eapply H1.
Qed.

Lemma cancel_ok oid slot r : rt_ok r -> rt_ok (on_cancel oid slot r).
Proof.
  intros W. unfold on_cancel.
  pose proof (find_cases rt_ok oid slot r release (fun r => r) W) as H.
  rewrite find_spec in *. destruct (locate oid slot r); apply H; try done; try (by apply count_ambiguous_ok).
  all: intros; by eapply release_ok.
Qed.

Lemma consume_ok oid slot qty r : rt_ok r -> rt_ok (consume_resting oid slot qty r).
Proof.
  intros W. unfold consume_resting.
  set (f := fun i r1 => if sat_i64 (cl_rem (cell r1 i) - qty) <=? 0 then release i r1
    else resting_reterm i (resting_term (cell r1 i))
      (set_cells (alter (set_rem (sat_i64 (cl_rem (cell r1 i) - qty))) i (cells r1)) r1)).
  pose proof (find_cases rt_ok oid slot r f count_unmatched W) as H.
  rewrite find_spec in *. destruct (locate oid slot r); apply H; try (by apply count_ambiguous_ok);
    try (by apply count_unmatched_ok); intros i' c Hc Hl Hs; unfold f;
    (destruct (_ <=? 0); [by eapply release_ok|by eapply update_ok]).
Qed.

Lemma modify_ok prev oid slot sym qty buy px r : rt_ok r -> rt_ok (on_modify prev oid slot sym qty buy px r).
Proof.
  intros W. unfold on_modify.
  set (f := fun i r1 => resting_reterm i (resting_term (cell r1 i))
      (set_cells (alter (modified oid sym qty buy px) i (cells r1)) r1)).
  pose proof (find_cases rt_ok prev slot r f (on_submit oid slot sym qty buy px) W) as H.
  rewrite find_spec in *. destruct (locate prev slot r); apply H; try (by apply count_ambiguous_ok);
    try (by apply submit_ok); intros i' c Hc Hl Hs; by eapply update_ok.
Qed.

Lemma modify_asked_ok prev oid slot qty px r : rt_ok r -> rt_ok (on_modify_asked prev oid slot qty px r).
Proof.
  intros W. unfold on_modify_asked. pose proof (locate_spec prev slot r W) as Hl.
  destruct (locate prev slot r) as [i| |]; [|done..]. destruct Hl as (_ & c & Hc & Hk).
  apply has_key_live in Hk as (? & _ & ?). by eapply update_ok.
Qed.

Lemma retired_ok oid slot r : rt_ok r -> rt_ok (on_retired oid slot r).
Proof.
  intros W. unfold on_retired. rewrite find_spec. pose proof (locate_spec oid slot r W) as Hl.
  destruct (locate oid slot r) as [i| |].
  - destruct Hl as (_ & c & Hc & Hk). apply has_key_live in Hk as (? & _ & _). by eapply release_ok.
  - destruct (oid =? 0); [done|]. destruct (first_index _ _) as [i|] eqn:Ef; [|done].
    destruct (first_index_Some _ _ _ Ef) as (c & Hc & Hp & _). apply lookup_take_Some in Hc as [Hc _].
    apply andb_true_iff in Hp as [Hp Hs]. apply andb_true_iff in Hp as [_ Hlive].
    by eapply update_ok.
  - by apply count_ambiguous_ok.
Qed.

Lemma release_where_ok p r : rt_ok r -> rt_ok (release_where p r).
Proof.
  intros W. unfold release_where. apply foldl_keeps; [|done]. intros r' i _ W'.
  unfold cell. destruct (cells r' !! i) as [c|] eqn:E; simpl; [|done].
  destruct (cl_live c) eqn:El; simpl; [|done]. destruct (p c); [by eapply release_ok|done].
Qed.

Lemma cells_release r i : cells (release i r) = <[i := cell_free]> (cells r).
Proof.
  unfold release. destruct (_ <? EXEC_SLOTS)%nat, (_ =? hi r)%nat; done.
Qed.

(** After the pass no live row the test names is left. *)
Lemma release_where_none p r i c :
  rt_ok r -> cells (release_where p r) !! i = Some c -> cl_live c = true -> p c = false.
Proof.
  intros W. unfold release_where, resting_end.
  assert (forall j d, cells r !! j = Some d -> cl_live d = true -> (j < hi r)%nat) as Hb
    by (intros j d; by apply live_below).
  assert (forall n, (n <= hi r)%nat ->
    let r' := foldl (fun r i => if cl_live (cell r i) && p (cell r i) then release i r else r) r (seq 0 n) in
    (forall j d, cells r' !! j = Some d -> cl_live d = true -> cells r !! j = Some d) /\
    (forall j d, (j < n)%nat -> cells r' !! j = Some d -> cl_live d = true -> p d = false)) as H.
  { induction n as [|n IH]; intros Hn; [split; [done|intros; lia]|].
    rewrite seq_S, foldl_app. cbn [foldl]. destruct (IH ltac:(lia)) as [I1 I2]. clear IH. simpl.
    set (r' := foldl _ r (seq 0 n)) in *.
    destruct (cl_live (cell r' n) && p (cell r' n)) eqn:E.
    - rewrite !cells_release. split; intros j d.
      + intros Hd Hl. apply list_lookup_insert_Some in Hd as [(-> & <- & _)|[_ Hd]]; [done|by apply I1].
      + intros Hj Hd Hl. apply list_lookup_insert_Some in Hd as [(-> & <- & _)|[? Hd]]; [done|].
        apply (I2 j); [lia|done..].
    - split; [done|]. intros j d Hj Hd Hl. destruct (decide (j = n)) as [->|]; [|apply (I2 j); [lia|done..]].
      rewrite (cell_lookup r' n d Hd), Hl in E. done. }
  intros Hc Hl. destruct (H (hi r) ltac:(lia)) as [H1 H2]. simpl in *. eapply H2; [|exact Hc|done].
  eapply Hb; [|exact Hl]. by apply H1.
Qed.

Lemma none_left_n s cs :
  (forall i c, cs !! i = Some c -> cl_live c = true -> (cl_slot c =? s)%nat = false) ->
  n_of s cs = 0 /\ usd_of s cs = 0.
Proof.
  intros H. assert (forall c, c ∈ cs -> owns s c = false) as Ho.
  { intros c Hc. apply list_elem_of_lookup in Hc as [i Hi]. unfold owns.
    destruct (cl_live c) eqn:El; [|done]. by apply (H i c). }
  unfold n_of, usd_of. rewrite (countb_ext (owns s) (fun _ => false) cs Ho).
  rewrite (sumZ_ext (term_of s) (fun _ => 0) cs) by (intros c Hc; unfold term_of; by rewrite Ho).
  clear. induction cs; simpl; lia.
Qed.

Lemma clear_slot_ok slot r : rt_ok r -> rt_ok (clear_resting_slot slot r).
Proof.
  intros W. unfold clear_resting_slot. destruct (Nat.leb_spec EXEC_SLOTS slot); [done|].
  pose proof (release_where_ok (fun c => (cl_slot c =? slot)%nat) r W) as W1.
  pose proof (release_where_none (fun c => (cl_slot c =? slot)%nat) r) as Hn.
  set (r1 := release_where _ r) in *. pose proof W1 as [A B C D E F G H1].
  destruct (none_left_n slot (cells r1)) as [N U]; [intros i c Hi Hl; by apply (Hn i c)|].
  constructor; simpl; try done.
  - by rewrite length_upd.
  - by rewrite length_upd.
  - intros s Hs. destruct (H1 s Hs) as (A1 & B1 & C1). destruct (decide (slot = s)) as [<-|Hne].
    + rewrite !get_upd by lia. unfold accounts, u32_max, i64_max. lia.
    + rewrite !get_upd_ne by done. done.
Qed.

(** ** The table under any sequence of calls *)

Inductive RestOp : Type :=
| R_submit (oid : Z) (slot : nat) (sym qty : Z) (buy : bool) (px : Z)
| R_cancel (oid : Z) (slot : nat)
| R_retired (oid : Z) (slot : nat)
| R_modify (prev oid : Z) (slot : nat) (sym qty : Z) (buy : bool) (px : Z)
| R_asked (prev oid : Z) (slot : nat) (qty px : Z)
| R_fill (oid : Z) (slot : nat) (qty : Z)
| R_roll (sym_yes sym_no : Z)
| R_clear (slot : nat).

Definition run_rest (r : Resting) (op : RestOp) : Resting :=
  match op with
  | R_submit oid slot sym qty buy px => on_submit oid slot sym qty buy px r
  | R_cancel oid slot => on_cancel oid slot r
  | R_retired oid slot => on_retired oid slot r
  | R_modify prev oid slot sym qty buy px => on_modify prev oid slot sym qty buy px r
  | R_asked prev oid slot qty px => on_modify_asked prev oid slot qty px r
  | R_fill oid slot qty => consume_resting oid slot qty r
  | R_roll y n => drop_resting_on y n r
  | R_clear slot => clear_resting_slot slot r
  end.

Lemma replicate_dead i c : replicate LEDGER_RESTING cell_free !! i = Some c -> c = cell_free.
Proof. intros H. by apply lookup_replicate_1 in H as [-> _]. Qed.

Lemma Resting_new_ok : rt_ok Resting_new.
Proof.
  constructor; cbn [cells by_slot usd hi resting_full Resting_new].
  - apply length_replicate.
  - apply length_replicate.
  - apply length_replicate.
  - done.
  - apply Forall_replicate. done.
  - intros i c _ Hc. by apply replicate_dead in Hc as ->.
  - by left.
  - intros s Hs. rewrite !get_repeat by done.
    destruct (none_left_n s (replicate LEDGER_RESTING cell_free)) as [-> ->].
    + intros i c Hc Hl. by apply replicate_dead in Hc as ->.
    + unfold accounts, u32_max, i64_max. lia.
Qed.

Lemma run_rest_ok r op : rt_ok r -> rt_ok (run_rest r op).
Proof.
  intros W. destruct op; simpl.
  - by apply submit_ok.
  - by apply cancel_ok.
  - by apply retired_ok.
  - by apply modify_ok.
  - by apply modify_asked_ok.
  - by apply consume_ok.
  - by apply release_where_ok.
  - by apply clear_slot_ok.
Qed.

Lemma runs_ok ops : rt_ok (foldl run_rest Resting_new ops).
Proof. apply foldl_keeps; [|apply Resting_new_ok]. intros r op _. apply run_rest_ok. Qed.

(** C8. After any sequence of submits, cancels, retirements, modifies,
    fills, rolls and clears, a slot's resting count and notional never read
    below its live rows, equal them exactly as long as no order overflowed
    the table, and the notional never saturates below the truth. *)
Theorem resting_accounts_for_every_order ops slot :
  (slot < EXEC_SLOTS)%nat ->
  let r := foldl run_rest Resting_new ops in
  n_of slot (cells r) <= slot_resting slot r /\
  usd_of slot (cells r) <= resting_usd_1e6 slot r <= i64_max /\
  (resting_full r = 0 ->
    slot_resting slot r = n_of slot (cells r) /\ resting_usd_1e6 slot r = usd_of slot (cells r)).
Proof.
  intros Hs r. pose proof (ok_acct r (runs_ok ops) slot Hs) as (A & B & C).
  unfold slot_resting, resting_usd_1e6. destruct (Nat.leb_spec EXEC_SLOTS slot); [lia|].
  split_and!; [lia|lia|lia|]. done.
Qed.

Definition sample_rest : list RestOp :=
  [R_submit 1 3 5 2000000 true 500000; R_submit 2 3 5 1000000 false 600000;
   R_asked 1 9 3 4000000 400000; R_fill 2 3 250000].

Lemma resting_accounts_for_every_order_witness :
  let r := foldl run_rest Resting_new sample_rest in
  slot_resting 3 r = 2 /\ n_of 3 (cells r) <= slot_resting 3 r /\ resting_usd_1e6 3 r = 2450000.
Proof.
  split; [vm_compute; reflexivity|]. split; [|vm_compute; reflexivity].
  apply (resting_accounts_for_every_order sample_rest 3). unfold EXEC_SLOTS. lia.
Defined.

(** ** The mark bounds every scan *)

Lemma locate_from_dead oid slot i n found cs ds :
  (forall c, c ∈ ds -> cl_live c = false) ->
  locate_from oid slot i n found (cs ++ ds) = locate_from oid slot i n found cs.
Proof.
  intros Hd. revert i n found. induction cs as [|c cs IH]; intros i n found; simpl.
  - revert i. induction ds as [|d ds IHd]; intros i; simpl; [done|].
    rewrite has_key_dead by (apply Hd; left). apply IHd. intros c Hc. apply Hd. by right.
  - destruct (has_key oid slot c); apply IH.
Qed.

Lemma foldl_work_dead slot sym side ex w ds :
  (forall c, c ∈ ds -> cl_live c = false) -> foldl (work_step slot sym side ex) w ds = w.
Proof.
  intros Hd. induction ds as [|d ds IH]; cbn [foldl]; [done|].
  unfold work_step at 2. rewrite (Hd d) by left. apply IH. intros c Hc. apply Hd. by right.
Qed.

Lemma drop_dead r c : rt_ok r -> c ∈ drop (hi r) (cells r) -> cl_live c = false.
Proof.
  intros W Hc. apply list_elem_of_lookup in Hc as [j Hj]. rewrite lookup_drop in Hj.
  apply (ok_above r W _ c) in Hj; [done|lia].
Qed.

Lemma work_prefix slot sym side ex w r :
  rt_ok r ->
  foldl (work_step slot sym side ex) w (take (resting_end r) (cells r)) =
  foldl (work_step slot sym side ex) w (cells r).
Proof.
  intros W. rewrite <- (take_drop (hi r) (cells r)) at 2. rewrite foldl_app. unfold resting_end.
  by rewrite (foldl_work_dead _ _ _ _ _ (drop (hi r) (cells r))) by (intros c; by apply drop_dead).
Qed.

(** The resting table's high-water mark is tight, and the lookups
    bounded by it return what a pass over all 1024 rows would, for single
    and ambiguous keys alike. *)
Theorem resting_mark_bounds_every_scan ops oid slot sym buy ex :
  let r := foldl run_rest Resting_new ops in
  (hi r <= LEDGER_RESTING)%nat /\
  (hi r = 0%nat \/ exists c, cells r !! pred (hi r) = Some c /\ cl_live c = true) /\
  locate oid slot r =
    (if (EXEC_SLOTS <=? slot)%nat then FNone else locate_from oid slot 0 0 None (cells r)) /\
  working_on slot sym buy ex r =
    working_on slot sym buy ex (set_hi LEDGER_RESTING r).
Proof.
  set (r := foldl run_rest Resting_new ops). pose proof (runs_ok ops : rt_ok r) as W. cbv zeta.
  split_and!.
  - destruct (ok_tight r W) as [->|(c & Hc & _)]; [lia|]. apply lookup_lt_Some in Hc.
    rewrite (ok_cells r W) in Hc. lia.
  - apply (ok_tight r W).
  - unfold locate. destruct (EXEC_SLOTS <=? slot)%nat; [done|].
    rewrite <- (take_drop (hi r) (cells r)) at 2. symmetry. apply locate_from_dead.
    intros c. by apply drop_dead.
  - unfold working_on. rewrite (work_prefix _ _ _ _ _ r W). unfold resting_end.
    cbn [hi set_hi cells]. by rewrite (take_ge (cells r)) by (by rewrite (ok_cells r W)).
Qed.

(** ** Round trip, and the queued modify *)

(** Nothing else holds the key of the row just written. *)
Lemma locate_written oid slot r i c row :
  cells r !! i = Some c -> cl_live c = false -> (slot < EXEC_SLOTS)%nat ->
  countb (has_key oid slot) (cells r) = 0%nat -> has_key oid slot row = true ->
  forall r', cells r' = <[i := row]> (cells r) -> rt_ok r' -> locate oid slot r' = One i.
Proof.
  intros Hc Hdead Hs H0 Hrow r' Hcells W.
  pose proof (countb_insert (has_key oid slot) (cells r) i c row Hc) as Hn.
  rewrite Hrow, (has_key_dead _ _ c Hdead), H0 in Hn.
  pose proof (locate_spec oid slot r' W) as H. rewrite Hcells in H.
  destruct (locate oid slot r') as [j| |]; [|lia..]. destruct H as (_ & d & Hd & Hk).
  apply list_lookup_insert_Some in Hd as [(-> & _ & _)|[Hne Hd]]; [done|].
  exfalso. pose proof (countb_insert (has_key oid slot) (cells r) j d cell_free Hd) as Hm.
  rewrite Hk in Hm. simpl in Hm. lia.
Qed.

Lemma upd_upd_id (f g : Z -> Z) i l :
  (i < length l)%nat -> f (g (get l i)) = get l i -> upd f i (upd g i l) = l.
Proof.
  intros Hi H. unfold upd, get in *. destruct (lookup_lt_is_Some_2 l i Hi) as [x Hx].
  rewrite Hx in H. simpl in H. rewrite (alter_as_insert g l i x Hx).
  rewrite (alter_as_insert f _ i (g x)) by (by apply list_lookup_insert_eq).
  rewrite list_insert_insert_eq, H. by apply list_insert_id.
Qed.

Lemma lower_mark_tight r n :
  rt_ok r -> (hi r <= n)%nat -> lower_mark (cells r) n = hi r.
Proof.
  intros W Hn. induction n as [|n IH]; simpl; [lia|].
  destruct (decide (hi r = S n)) as [He|Hne].
  - destruct (ok_tight r W) as [|(c & Hc & Hl)]; [lia|]. rewrite He in Hc. simpl in Hc. rewrite Hc. simpl.
    by rewrite Hl.
  - rewrite <- IH by lia. destruct (cells r !! n) as [c|] eqn:E; simpl; [|done].
    rewrite (ok_above r W n c); [done|lia|done].
Qed.

(** A submit that finds a free row, field by field. *)
Lemma submit_fields oid slot sym qty buy px r i c :
  (slot < EXEC_SLOTS)%nat -> first_index (fun c => negb (cl_live c)) (cells r) = Some i ->
  cells r !! i = Some c ->
  let row := mkCell oid qty sym slot true (resting_side buy) px 0 0 0 in
  on_submit oid slot sym qty buy px r =
  mkResting (<[i := row]> (cells r)) (upd (fun n => sat_u32 (n + 1)) slot (by_slot r))
    (upd (reterm_usd 0 (resting_term row)) slot (usd r)) (Nat.max (hi r) (i + 1))
    (resting_full r) (resting_ambiguous r) (resting_unmatched r).
Proof.
  intros Hs Ef Hc row. unfold on_submit. destruct (Nat.leb_spec EXEC_SLOTS slot); [lia|]. rewrite Ef.
  fold row. unfold resting_reterm. rewrite (cell_lookup (occupy i row r) i row).
  - by rewrite (Nat.mod_small (cl_slot row)).
  - apply list_lookup_insert_eq. by apply lookup_lt_Some in Hc.
Qed.

(** Submitting an order under a fresh key into a table that never
    overflowed adds one to its slot's count, and cancelling it gives back
    the identical table, high-water mark included. *)
Theorem resting_cancel_undoes_submit oid slot sym qty buy px r :
  rt_ok r -> resting_full r = 0 -> (slot < EXEC_SLOTS)%nat ->
  locate oid slot r = FNone -> first_index (fun c => negb (cl_live c)) (cells r) <> None ->
  let r1 := on_submit oid slot sym qty buy px r in
  slot_resting slot r1 = slot_resting slot r + 1 /\ on_cancel oid slot r1 = r.
Proof.
  intros W Hfull Hs Habs Hroom r1. pose proof (submit_ok oid slot sym qty buy px r W : rt_ok r1) as W1.
  destruct (first_index _ (cells r)) as [i|] eqn:Ef; [|done]. clear Hroom.
  destruct (first_index_Some _ _ _ Ef) as (c & Hc & Hfree & _). apply negb_true_iff in Hfree.
  assert (c = cell_free) as ->.
  { pose proof (cell_ok_at r i c W Hc) as H. unfold cell_ok in H. by rewrite Hfree in H. }
  assert (i < length (cells r))%nat as Hi by (by apply lookup_lt_Some in Hc).
  pose proof (locate_spec oid slot r W) as H0. rewrite Habs in H0.
  destruct (ok_acct r W slot Hs) as (_ & _ & Hacct). destruct (Hacct Hfull) as [En Eu]. clear Hacct.
  pose proof (n_of_range slot (cells r) (ok_cells r W)) as Rn.
  pose proof (submit_fields oid slot sym qty buy px r i cell_free Hs Ef Hc) as Er1. fold r1 in Er1.
  set (row := mkCell oid qty sym slot true (resting_side buy) px 0 0 0) in *. simpl in Er1.
  pose proof (usd_of_range slot (<[i:=row]> (cells r)) ltac:(rewrite length_insert; apply W)) as Ru.
  pose proof (usd_of_range slot (cells r) ltac:(apply W)) as Ru0.
  rewrite (usd_of_insert slot (cells r) i cell_free row Hc) in Ru.
  assert (term_of slot row = resting_term row) as Et by (unfold term_of, owns; simpl; by rewrite Nat.eqb_refl).
  rewrite Et in Ru. change (term_of slot cell_free) with 0 in Ru.
  pose proof (resting_term_range row) as Rt. pose proof (ok_by_slot r W) as Lb. pose proof (ok_usd r W) as Lu.
  assert (cells r1 = <[i:=row]> (cells r)) as Ec by (by rewrite Er1).
  assert (locate oid slot r1 = One i) as Hloc.
  { apply (locate_written oid slot r i cell_free row); try done.
    unfold has_key. simpl. by rewrite Z.eqb_refl, Nat.eqb_refl. }
  split.
  { unfold slot_resting. destruct (Nat.leb_spec EXEC_SLOTS slot); [lia|]. rewrite Er1. simpl.
    rewrite get_upd by lia. unfold sat_u32, clamp, u32_max. lia. }
  unfold on_cancel. rewrite find_spec, Hloc. unfold release.
  rewrite (cell_lookup r1 i row) by (rewrite Ec; by apply list_lookup_insert_eq). rewrite Er1. simpl.
  destruct (Nat.ltb_spec slot EXEC_SLOTS); [|lia]. rewrite list_insert_insert_eq.
  replace (<[i:=cell_free]> (cells r)) with (cells r) by (symmetry; by apply list_insert_id).
  unfold set_usd, set_by_slot, set_cells, set_hi. simpl.
  rewrite (upd_upd_id (fun n => sat_u32 (n - 1))) by
    first [lia|unfold sat_u32, clamp, u32_max in *; lia].
  rewrite (upd_upd_id (fun u => sat_i64 (u - resting_term row))) by
    first [lia|unfold reterm_usd, sat_i64, clamp, i64_min, i64_max, INST_EXPOSURE_MAX in *; lia].
  replace (if (i + 1 =? Nat.max (hi r) (i + 1))%nat then _ else _) with r; [done|].
  destruct (Nat.eqb_spec (i + 1) (Nat.max (hi r) (i + 1))) as [He|Hne].
  - destruct (decide (hi r <= i)%nat) as [Hle|Hgt].
    + rewrite (lower_mark_tight r i W Hle). by destruct r.
    + exfalso. destruct (ok_tight r W) as [|(d & Hd & Hdl)]; [lia|].
      replace (pred (hi r)) with i in Hd by lia. rewrite Hc in Hd. by injection Hd as <-.
  - replace (Nat.max (hi r) (i + 1)) with (hi r) by lia. by destruct r.
Qed.

Lemma resting_cancel_undoes_submit_witness :
  let r := foldl run_rest Resting_new sample_rest in
  slot_resting 3 r = 2 /\ on_cancel 7 3 (on_submit 7 3 5 1000000 true 500000 r) = r.
Proof.
  split; [vm_compute; reflexivity|].
  apply (resting_cancel_undoes_submit 7 3 5 1000000 true 500000 (foldl run_rest Resting_new sample_rest)).
  - apply runs_ok.
  - vm_compute. reflexivity.
  - unfold EXEC_SLOTS. lia.
  - vm_compute. reflexivity.
  - vm_compute. discriminate.
Defined.

(** The row a rewrite leaves, and the sums it moves. *)
Lemma reterm_fields f r i c :
  rt_ok r -> cells r !! i = Some c -> cl_live c = true -> cl_slot (f c) = cl_slot c ->
  resting_reterm i (resting_term (cell r i)) (set_cells (alter f i (cells r)) r) =
  mkResting (<[i := f c]> (cells r)) (by_slot r)
    (upd (reterm_usd (resting_term c) (resting_term (f c))) (cl_slot c) (usd r))
    (hi r) (resting_full r) (resting_ambiguous r) (resting_unmatched r).
Proof.
  intros W Hc Hl Hs. pose proof (cell_ok_at r i c W Hc) as Hok. unfold cell_ok in Hok. rewrite Hl in Hok.
  assert (i < length (cells r))%nat as Hi by (by apply lookup_lt_Some in Hc).
  rewrite (cell_lookup r i c Hc), (alter_cell f r i c Hc). unfold resting_reterm.
  rewrite (cell_lookup _ i (f c)) by (by apply list_lookup_insert_eq).
  by rewrite Hs, Nat.mod_small.
Qed.

Lemma countb_same_key oid slot cs i c c' :
  cs !! i = Some c -> has_key oid slot c' = has_key oid slot c ->
  countb (has_key oid slot) (<[i := c']> cs) = countb (has_key oid slot) cs.
Proof. intros Hc Hk. pose proof (countb_insert (has_key oid slot) cs i c c' Hc) as H. rewrite Hk in H. lia. Qed.

(** The lookup of one key sees one row: the row's own index. *)
Lemma locate_unique oid slot r i c :
  rt_ok r -> countb (has_key oid slot) (cells r) = 1%nat -> cells r !! i = Some c ->
  has_key oid slot c = true -> locate oid slot r = One i.
Proof.
  intros W H1 Hc Hk. pose proof (locate_spec oid slot r W) as H.
  destruct (locate oid slot r) as [j| |]; [|lia..]. destruct H as (_ & d & Hd & Hkd).
  destruct (decide (i = j)) as [->|Hne]; [done|]. exfalso.
  pose proof (countb_insert (has_key oid slot) (cells r) j d cell_free Hd) as Hm. rewrite Hkd in Hm. simpl in Hm.
  assert (<[j:=cell_free]> (cells r) !! i = Some c) as Hi by (by rewrite list_lookup_insert_ne).
  pose proof (countb_insert (has_key oid slot) _ i c cell_free Hi) as Hn. rewrite Hk in Hn. simpl in Hn. lia.
Qed.

Lemma mul_1e6_mono2 a b c d : 0 <= a <= b -> 0 <= c <= d -> mul_1e6 a c <= mul_1e6 b d.
Proof.
  intros H1 H2. transitivity (mul_1e6 b c); [apply mul_1e6_mono; lia|].
  unfold mul_1e6. rewrite !(Z.mul_comm b). apply mul_1e6_mono; lia.
Qed.

Lemma locate_absent oid slot r :
  rt_ok r -> countb (has_key oid slot) (cells r) = 0%nat -> locate oid slot r = FNone.
Proof. intros W H0. pose proof (locate_spec oid slot r W) as H. destruct (locate oid slot r); [lia|done|lia]. Qed.

(** Dropping the hold a queued modify wrote gives the table back. *)
Lemma retired_drops_hold oid slot qty px r i c held :
  rt_ok r -> resting_full r = 0 -> cells r !! i = Some c -> cl_live c = true -> cl_slot c = slot ->
  cl_px_asked c = 0 -> cl_qty_asked c = 0 -> cl_asked_oid c = 0 -> oid <> 0 ->
  locate oid slot r = FNone -> (forall d, d ∈ cells r -> cl_asked_oid d <> oid) -> rt_ok held ->
  held = mkResting (<[i := asked oid qty px c]> (cells r)) (by_slot r)
    (upd (reterm_usd (resting_term c) (resting_term (asked oid qty px c))) slot (usd r))
    (hi r) (resting_full r) (resting_ambiguous r) (resting_unmatched r) ->
  on_retired oid slot held = r.
Proof.
  intros W Hfull Hc Hl Hsl H1 H2 H3 Hoid Habs Hno Wh Eh.
  pose proof (cell_ok_at r i c W Hc) as Hok. unfold cell_ok in Hok. rewrite Hl, Hsl in Hok.
  assert (i < length (cells r))%nat as Hi by (by apply lookup_lt_Some in Hc).
  pose proof (live_below r i c W Hc Hl) as Hbelow.
  assert (cells held !! i = Some (asked oid qty px c)) as Hh by (rewrite Eh; by apply list_lookup_insert_eq).
  unfold on_retired. rewrite find_spec. pose proof (locate_spec oid slot r W) as H0. rewrite Habs in H0.
  rewrite (locate_absent oid slot held Wh) by (rewrite Eh; simpl; by rewrite (countb_same_key _ _ _ i c)).
  destruct (Z.eqb_spec oid 0); [done|].
  rewrite (first_index_only _ _ i (asked oid qty px c)).
  - rewrite (reterm_fields drop_hold held i (asked oid qty px c) Wh Hh Hl eq_refl).
    assert (drop_hold (asked oid qty px c) = c) as Ed by (destruct c; simpl in *; by subst).
    rewrite Ed, Eh. simpl. rewrite list_insert_insert_eq, list_insert_id by done. rewrite Hsl.
    destruct (ok_acct r W slot Hok) as (_ & Bu & Hacct). destruct (Hacct Hfull) as [_ Eu].
    pose proof (usd_of_range slot (<[i:=asked oid qty px c]> (cells r)) ltac:(rewrite length_insert; apply W)) as Ru.
    rewrite (usd_of_insert slot (cells r) i c _ Hc) in Ru. pose proof (term_le_usd slot (cells r) i c Hc) as Tc.
    assert (forall d, cl_live d = true -> cl_slot d = slot -> term_of slot d = resting_term d) as Et.
    { intros d Hd Hds. unfold term_of, owns. by rewrite Hd, Hds, Nat.eqb_refl. }
    rewrite (Et c Hl Hsl) in *. rewrite (Et (asked oid qty px c) Hl Hsl) in Ru.
    pose proof (resting_term_range c). pose proof (resting_term_range (asked oid qty px c)).
    rewrite upd_upd_id; [by destruct r|rewrite (ok_usd r W); done|].
    unfold reterm_usd, sat_i64, clamp, i64_min, i64_max in *. lia.
  - rewrite lookup_take_lt by (rewrite Eh; simpl; unfold resting_end; simpl; lia). done.
  - simpl. by rewrite Z.eqb_refl, Hl, Hsl, Nat.eqb_refl.
  - intros j y Hj Hy. apply lookup_take_Some in Hy as [Hy _]. rewrite Eh in Hy. simpl in Hy.
    rewrite list_lookup_insert_ne in Hy by done.
    destruct (Z.eqb_spec (cl_asked_oid y) oid) as [He|]; [|done].
    exfalso. apply (Hno y); [by eapply list_elem_of_lookup_2|done].
Qed.

(** While a queued modify is unconfirmed its order counts at no less
    than either the old or the asked size and price; a refusal gives the
    table back exactly, and a confirmation leaves the asked id, size and
    price; the order count never moves. *)
Theorem queued_modify_counts_the_worst prev oid slot qty px sym buy r i c :
  rt_ok r -> resting_full r = 0 -> locate prev slot r = One i -> cells r !! i = Some c ->
  0 < qty -> 0 < px -> 0 <= cl_px c -> 0 <= cl_rem c ->
  cl_px_asked c = 0 -> cl_qty_asked c = 0 -> cl_asked_oid c = 0 ->
  oid <> 0 -> locate oid slot r = FNone -> (forall d, d ∈ cells r -> cl_asked_oid d <> oid) ->
  let held := on_modify_asked prev oid slot qty px r in
  (resting_term c <= resting_term (cell held i) /\ mul_1e6 qty px <= resting_term (cell held i)) /\
  slot_resting slot held = slot_resting slot r /\
  on_retired oid slot held = r /\
  (let confirmed := on_modify prev oid slot sym qty buy 0 held in
   cell confirmed i = mkCell oid qty sym slot true (resting_side buy) px 0 0 0 /\
   resting_term (cell confirmed i) = mul_1e6 qty px /\
   slot_resting slot confirmed = slot_resting slot r).
Proof.
  intros W Hfull Hloc Hc Hq Hpx Hcpx Hrem H1 H2 H3 Hoid Habs Hno held.
  pose proof (locate_spec prev slot r W) as Hk. rewrite Hloc in Hk. destruct Hk as (Hone & c' & Hc' & Hkey).
  assert (c' = c) as -> by congruence. destruct (has_key_live _ _ _ Hkey) as (Hl & Ho & Hsl).
  pose proof (cell_ok_at r i c W Hc) as Hok. unfold cell_ok in Hok. rewrite Hl, Hsl in Hok.
  assert (i < length (cells r))%nat as Hi by (by apply lookup_lt_Some in Hc).
  assert (rt_ok held) as Wh by (by apply modify_asked_ok).
  assert (held = mkResting (<[i := asked oid qty px c]> (cells r)) (by_slot r)
    (upd (reterm_usd (resting_term c) (resting_term (asked oid qty px c))) slot (usd r))
    (hi r) (resting_full r) (resting_ambiguous r) (resting_unmatched r)) as Eh.
  { unfold held, on_modify_asked. rewrite Hloc. rewrite <- Hsl. by apply reterm_fields. }
  assert (cells held !! i = Some (asked oid qty px c)) as Hh by (rewrite Eh; by apply list_lookup_insert_eq).
  assert (cell held i = asked oid qty px c) as Ecell by (by apply cell_lookup).
  assert (resting_term c <= resting_term (asked oid qty px c) /\ mul_1e6 qty px <= resting_term (asked oid qty px c))
    as Hworst.
  { split; apply mul_1e6_mono2; unfold resting_qty; simpl; lia. }
  assert (slot_resting slot held = slot_resting slot r) as Hcount by (by rewrite Eh).
  rewrite Ecell. split; [done|]. split; [done|]. split; [by eapply retired_drops_hold|].
  unfold on_modify. rewrite find_spec, (locate_unique prev slot held i (asked oid qty px c) Wh); [|by rewrite Eh;
    simpl; rewrite (countb_same_key _ _ _ i c)|done|done].
  rewrite (reterm_fields (modified oid sym qty buy 0) held i (asked oid qty px c) Wh Hh Hl eq_refl).
  rewrite (cell_lookup _ i (modified oid sym qty buy 0 (asked oid qty px c))).
  - unfold modified. simpl. destruct (Z.ltb_spec 0 px); [|lia]. rewrite Hl, Hsl. split; [done|].
    split; [|by rewrite Eh]. unfold resting_term, resting_qty. simpl. f_equal; lia.
  - simpl. rewrite Eh. simpl. apply list_lookup_insert_eq. by rewrite length_insert.
Qed.

Lemma queued_modify_counts_the_worst_witness :
  let r := foldl run_rest Resting_new [R_submit 1 3 5 2000000 true 500000] in
  let held := on_modify_asked 1 9 3 1000000 600000 r in
  resting_usd_1e6 3 held = 1200000 /\ slot_resting 3 held = slot_resting 3 r /\ on_retired 9 3 held = r.
Proof.
  set (r := foldl run_rest Resting_new [R_submit 1 3 5 2000000 true 500000]).
  split; [vm_compute; reflexivity|].
  destruct (queued_modify_counts_the_worst 1 9 3 1000000 600000 5 true r 0
    (mkCell 1 2000000 5 3 true RESTING_BUY 500000 0 0 0)) as (_ & H1 & H2 & _);
    try (vm_compute; reflexivity); try (simpl; lia); try apply runs_ok; [| split; assumption].
  intros d Hd. assert (forallb (fun d => negb (cl_asked_oid d =? 9)) (cells r) = true) as H
    by (vm_compute; reflexivity).
  rewrite forallb_forall in H. apply list_elem_of_In in Hd. apply H in Hd. lia.
Defined.
