(* ===== verification/LedgerInst.v ===== *)
(** * [crates/exec-router/src/ledger.rs]: instrument rows

    The rows bound at boot (spot, linear, inverse, option, Hyperliquid perp),
    their sorted key array and its fixed-step search, each row's exposure at
    its own prices, and the per-slot aggregates every refresh keeps by exact
    adds and subtracts. The two mark counters of [LedgerCounters] live here. *)

From S2P Require Import Prelude CoreTypes LedgerBase.

Local Open Scope machine_scope.

Definition LAW_SPOT : Z := 1.
Definition LAW_LINEAR : Z := 2.
Definition LAW_INVERSE : Z := 3.
Definition LAW_OPTION : Z := 4.

Definition INST_WRITABLE : Z := 1.
Definition INST_CALL : Z := 2.
Definition INST_STALE : Z := 128.
Definition INST_PERP : Z := 64.
Definition INST_SEEDED : Z := 32.

Definition has_flag (flags bit : Z) : bool := negb (Z.land flags bit =? 0).
(** [flags &= !bit] on a byte. *)
Definition clear_flag (flags bit : Z) : Z := Z.land flags (Z.lxor 255 bit).

Definition OWNER_NONE : Z := 255.
Definition MARK_INDEX_MAX_DEV_1E6 : Z := 100000.
Definition MARK_STALE_NS : Z := 30000000000.

Record InstrumentSpec := mkSpec {
  sp_sym : Z;
  sp_law : Z;
  sp_flags : Z;
  sp_owner : Z;
  sp_unit : Z;
  sp_strike : Z
}.

Definition spec_new (sym law flags unit strike : Z) : InstrumentSpec :=
  mkSpec sym law flags OWNER_NONE unit strike.
Definition owned_by (slot : Z) (s : InstrumentSpec) : InstrumentSpec :=
  mkSpec (sp_sym s) (sp_law s) (sp_flags s) slot (sp_unit s) (sp_strike s).

Inductive InstrumentBindErr : Type := BindFull | BindDuplicate | BindBadSpec.
Inductive LedgerError : Type := EBind (e : InstrumentBindErr) | EPerpRowsFull | ENotPerp | ESeededTwice | EBadSeed.

Record InstrumentRow := mkRow {
  ir_sym : Z;
  ir_law : Z;
  ir_flags : Z;
  ir_unit : Z;
  ir_strike : Z;
  ir_mark : Z;
  ir_index : Z;
  ir_last_px : Z;
  ir_mark_ns : Z;
  ir_unmarked : Z;
  ir_owner : Z;
  ir_pos : list Z;
  ir_exp : list Z
}.

(** [InstrumentRow::FREE]. *)
Definition row_free : InstrumentRow :=
  mkRow SYMBOL_ID_NONE 0 0 0 0 0 0 0 0 0 OWNER_NONE (replicate EXEC_SLOTS 0) (replicate EXEC_SLOTS 0).

Definition set_flags (f : Z) (r : InstrumentRow) : InstrumentRow :=
  mkRow (ir_sym r) (ir_law r) f (ir_unit r) (ir_strike r) (ir_mark r) (ir_index r) (ir_last_px r)
    (ir_mark_ns r) (ir_unmarked r) (ir_owner r) (ir_pos r) (ir_exp r).
Definition set_mark (m ns : Z) (r : InstrumentRow) : InstrumentRow :=
  mkRow (ir_sym r) (ir_law r) (ir_flags r) (ir_unit r) (ir_strike r) m (ir_index r) (ir_last_px r)
    ns (ir_unmarked r) (ir_owner r) (ir_pos r) (ir_exp r).
Definition set_index (i : Z) (r : InstrumentRow) : InstrumentRow :=
  mkRow (ir_sym r) (ir_law r) (ir_flags r) (ir_unit r) (ir_strike r) (ir_mark r) i (ir_last_px r)
    (ir_mark_ns r) (ir_unmarked r) (ir_owner r) (ir_pos r) (ir_exp r).
Definition set_pos_px (p : list Z) (px : Z) (r : InstrumentRow) : InstrumentRow :=
  mkRow (ir_sym r) (ir_law r) (ir_flags r) (ir_unit r) (ir_strike r) (ir_mark r) (ir_index r) px
    (ir_mark_ns r) (ir_unmarked r) (ir_owner r) p (ir_exp r).
Definition set_cache (u : Z) (e : list Z) (r : InstrumentRow) : InstrumentRow :=
  mkRow (ir_sym r) (ir_law r) (ir_flags r) (ir_unit r) (ir_strike r) (ir_mark r) (ir_index r) (ir_last_px r)
    (ir_mark_ns r) u (ir_owner r) (ir_pos r) e.

(** ** Pricing one row *)

Definition px_ctx (r : InstrumentRow) : Z := if 0 <? ir_mark r then ir_mark r else ir_last_px r.

Definition cap_price (r : InstrumentRow) (px : Z) : Z := if px_ctx r <=? px then px else px_ctx r.

Definition one_price (r : InstrumentRow) (buy : bool) (px : Z) : Z :=
  if buy || has_flag (ir_flags r) INST_PERP then px else cap_price r px.

Definition short_im_per_contract (index strike mark unit : Z) (call : bool) : Z :=
  let otm := if call then strike - index else index - strike in
  let otm := if 0 <? otm then otm else 0 in
  let floor := index /t 10 in
  let rate := 3 * index /t 20 - otm in
  let per_unit := if floor <? rate then rate else floor in
  let per_unit := if 0 <? per_unit then per_unit else 0 in
  let m := if 0 <? mark then mark else 0 in
  let v := sat_i128 (per_unit * unit) /t 1000000 + m in
  if INST_EXPOSURE_MAX <=? v then INST_EXPOSURE_MAX else wrap_i64 v.

(** The index an option row is priced at: the strike until one arrives. *)
Definition index_or_strike (r : InstrumentRow) : Z := if 0 <? ir_index r then ir_index r else ir_strike r.

Definition row_im (r : InstrumentRow) (mark : Z) : Z :=
  short_im_per_contract (index_or_strike r) (ir_strike r) mark (ir_unit r) (has_flag (ir_flags r) INST_CALL).

Definition exposure_ctx (r : InstrumentRow) (pos : Z) : Z :=
  let mag := sat_abs pos in
  if (ir_law r =? LAW_SPOT) || (ir_law r =? LAW_LINEAR) then mul_1e6 mag (px_ctx r)
  else if ir_law r =? LAW_INVERSE then mul_1e6 mag (ir_unit r)
  else if ir_law r =? LAW_OPTION then
    if 0 <=? pos then mul_1e6 mag (px_ctx r) else mul_1e6 mag (row_im r (px_ctx r))
  else 0.

Definition option_mark_sane (mark index strike unit : Z) (call : bool) : bool :=
  if (mark <=? 0) || (index <=? 0) || (unit <=? 0) then false
  else
    let '(lo, hi) := option_mark_band index strike unit call in
    (lo <=? mark) && (mark <=? hi).

(** ** The table *)

Record Inst := mkInst {
  inst_keys : list Z;
  inst_rows : list InstrumentRow;
  inst_n : nat;
  inst_exposure_1e6 : list Z;
  inst_unmarked : list Z;
  perp_syms : list Z;
  perp_n : nat;
  marks_refused : Z;
  marks_expired : Z
}.

Definition Inst_new : Inst :=
  mkInst (replicate LEDGER_INSTRUMENTS SYMBOL_ID_NONE) (replicate LEDGER_INSTRUMENTS row_free) 0
    (replicate EXEC_SLOTS 0) (replicate EXEC_SLOTS 0) (replicate PERP_ROWS SYMBOL_ID_NONE) 0 0 0.

Definition row_at (t : Inst) (i : nat) : InstrumentRow := default row_free (inst_rows t !! i).
Definition key_at (keys : list Z) (i : nat) : Z := default SYMBOL_ID_NONE (keys !! i).

Definition set_rows (rs : list InstrumentRow) (t : Inst) : Inst :=
  mkInst (inst_keys t) rs (inst_n t) (inst_exposure_1e6 t) (inst_unmarked t) (perp_syms t) (perp_n t)
    (marks_refused t) (marks_expired t).
Definition set_sums (e u : list Z) (t : Inst) : Inst :=
  mkInst (inst_keys t) (inst_rows t) (inst_n t) e u (perp_syms t) (perp_n t) (marks_refused t) (marks_expired t).
Definition count_refused (t : Inst) : Inst :=
  mkInst (inst_keys t) (inst_rows t) (inst_n t) (inst_exposure_1e6 t) (inst_unmarked t) (perp_syms t) (perp_n t)
    (tick_up (marks_refused t)) (marks_expired t).
Definition count_expired (t : Inst) : Inst :=
  mkInst (inst_keys t) (inst_rows t) (inst_n t) (inst_exposure_1e6 t) (inst_unmarked t) (perp_syms t) (perp_n t)
    (marks_refused t) (tick_up (marks_expired t)).

(** The [while size > 1] of [inst_find], by [fuel] halvings. *)
Fixpoint lower_bound (fuel base size : nat) (keys : list Z) (sym : Z) : nat :=
  match fuel with
  | O => base
  | S f =>
      if (1 <? size)%nat then
        let half := Nat.div size 2 in
        let mid := (base + half)%nat in
        lower_bound f (if key_at keys mid <=? sym then mid else base) (size - half) keys sym
      else base
  end.

Definition inst_find (t : Inst) (sym : Z) : option nat :=
  if (inst_n t =? 0)%nat || (sym =? SYMBOL_ID_NONE) then None
  else
    let i := Nat.land (lower_bound LEDGER_INSTRUMENTS 0 LEDGER_INSTRUMENTS (inst_keys t) sym)
               (LEDGER_INSTRUMENTS - 1) in
    if key_at (inst_keys t) i =? sym then Some i else None.

Definition has_instrument (t : Inst) (sym : Z) : bool :=
  match inst_find t sym with Some _ => true | None => false end.

Definition instrument_position_1e6 (t : Inst) (slot : nat) (sym : Z) : option Z :=
  if (EXEC_SLOTS <=? slot)%nat then None
  else (fun i => get (ir_pos (row_at t i)) slot) <$> inst_find t sym.

Definition instrument_exposure_1e6 (t : Inst) (slot : nat) : Z :=
  if (EXEC_SLOTS <=? slot)%nat then 0 else get (inst_exposure_1e6 t) slot.

Definition unmarked_positions (t : Inst) (slot : nat) : Z :=
  if (EXEC_SLOTS <=? slot)%nat then 0 else get (inst_unmarked t) slot.

(** ** Binding *)

Definition bad_spec (s : InstrumentSpec) : bool :=
  let option := sp_law s =? LAW_OPTION in
  (sp_sym s =? SYMBOL_ID_NONE) || (sp_law s <? LAW_SPOT) || (LAW_OPTION <? sp_law s)
  || (((sp_law s =? LAW_INVERSE) || option) && (sp_unit s <=? 0))
  || (option && (sp_strike s <=? 0))
  || (option && negb (clear_flag (sp_flags s) (Z.lor INST_WRITABLE INST_CALL) =? 0))
  || (negb option && (negb (sp_flags s =? 0) || negb (sp_strike s =? 0)))
  || (negb (sp_owner s =? OWNER_NONE) && (Z.of_nat EXEC_SLOTS <=? sp_owner s)).

(** The shift loop: rows after the insertion point move one place right. *)
Fixpoint shift_right (sym : Z) (at_ : nat) (keys : list Z) (rows : list InstrumentRow)
  : nat * list Z * list InstrumentRow :=
  match at_ with
  | O => (O, keys, rows)
  | S k =>
      if sym <? key_at keys k
      then shift_right sym k (<[at_ := key_at keys k]> keys)
             (<[at_ := default row_free (rows !! k)]> rows)
      else (at_, keys, rows)
  end.

Definition bound_row (s : InstrumentSpec) : InstrumentRow :=
  mkRow (sp_sym s) (sp_law s)
    (Z.lor (sp_flags s) (if sp_law s =? LAW_OPTION then INST_STALE else 0))
    (sp_unit s) (sp_strike s) 0 0 0 0 0 (sp_owner s) (replicate EXEC_SLOTS 0) (replicate EXEC_SLOTS 0).

Definition bind_instrument (s : InstrumentSpec) (t : Inst) : Inst * result unit InstrumentBindErr :=
  if bad_spec s then (t, Err BindBadSpec)
  else
    match inst_find t (sp_sym s) with
    | Some _ => (t, Err BindDuplicate)
    | None =>
        if (LEDGER_INSTRUMENTS <=? inst_n t)%nat then (t, Err BindFull)
        else
          let '(p, keys, rows) := shift_right (sp_sym s) (inst_n t) (inst_keys t) (inst_rows t) in
          (mkInst (<[p := sp_sym s]> keys) (<[p := bound_row s]> rows) (inst_n t + 1)
             (inst_exposure_1e6 t) (inst_unmarked t) (perp_syms t) (perp_n t)
             (marks_refused t) (marks_expired t), Ok tt)
    end.

(** ** Re-pricing *)

(** One slot's turn of [refresh_instrument]. *)
Definition refresh_slot (bare : bool) (st : InstrumentRow * list Z * list Z) (s : nat)
  : InstrumentRow * list Z * list Z :=
  let '(r, sums, counts) := st in
  let pos := get (ir_pos r) s in
  let was := Z.testbit (ir_unmarked r) (Z.of_nat s) in
  if (pos =? 0) && (get (ir_exp r) s =? 0) && negb was then st
  else
    let e := exposure_ctx r pos in
    let sums' := upd (fun x => wrap_i64 (wrap_i64 (x - get (ir_exp r) s) + e)) s sums in
    let exp' := upd (fun _ => e) s (ir_exp r) in
    let unmarked := bare && negb (pos =? 0) in
    if eqb unmarked was then (set_cache (ir_unmarked r) exp' r, sums', counts)
    else
      (set_cache (Z.lxor (ir_unmarked r) (Z.shiftl 1 (Z.of_nat s))) exp' r, sums',
       upd (fun n => wrap_u16 (if unmarked then n + 1 else n - 1)) s counts).

(** A linear row no mark prices (a perp row never needs one). *)
Definition is_bare (r : InstrumentRow) : bool :=
  (ir_law r =? LAW_LINEAR) && (ir_mark r <=? 0) && negb (has_flag (ir_flags r) INST_PERP).

Definition refresh_instrument (i : nat) (t : Inst) : Inst :=
  let r := row_at t i in
  let '(r', sums, counts) :=
    foldl (refresh_slot (is_bare r)) (r, inst_exposure_1e6 t, inst_unmarked t) (seq 0 EXEC_SLOTS) in
  set_sums sums counts (set_rows (<[i := r']> (inst_rows t)) t).

Definition on_mark (sym mark index ts_ns : Z) (t : Inst) : Inst :=
  match inst_find t sym with
  | None => t
  | Some i =>
      let r := row_at t i in
      if (ir_law r =? LAW_OPTION) || has_flag (ir_flags r) INST_PERP then t
      else if (mark <=? 0) || (index <=? 0)
              || (MARK_INDEX_MAX_DEV_1E6 * index <? Z.abs (mark - index) * 1000000)
      then count_refused t
      else refresh_instrument i (set_rows (<[i := set_mark mark ts_ns r]> (inst_rows t)) t)
  end.

Definition expire_one (now_ns : Z) (t : Inst) (i : nat) : Inst :=
  let r := row_at t i in
  let old := MARK_STALE_NS <? sat_u64 (now_ns - ir_mark_ns r) in
  if ir_law r =? LAW_OPTION then
    if negb (has_flag (ir_flags r) INST_STALE) && old
    then count_expired (set_rows (<[i := set_flags (Z.lor (ir_flags r) INST_STALE) r]> (inst_rows t)) t)
    else t
  else if (0 <? ir_mark r) && old
  then refresh_instrument i
         (count_expired (set_rows (<[i := set_mark 0 (ir_mark_ns r) r]> (inst_rows t)) t))
  else t.

Definition expire_marks (now_ns : Z) (t : Inst) : Inst :=
  foldl (expire_one now_ns) t (seq 0 (inst_n t)).

Definition on_opt_summary (o : OptSummary) (t : Inst) : Inst :=
  match inst_find t (os_sym o) with
  | None => t
  | Some i =>
      let r := row_at t i in
      if negb (ir_law r =? LAW_OPTION) then t
      else
        let moved1 := 0 <? os_underlying_px_1e9 o in
        let r1 := if moved1 then set_index (os_underlying_px_1e9 o /t 1000) r else r in
        let carries := negb (Z.land (os_flags o) OPT_SUMMARY_FLAG_MARK_PX =? 0) in
        let mark := os_mark_px_1e9 o /t 1000 in
        let sane := option_mark_sane mark (ir_index r1) (ir_strike r1) (ir_unit r1)
                      (has_flag (ir_flags r1) INST_CALL) in
        let r2 := if carries && sane
                  then set_flags (clear_flag (ir_flags r1) INST_STALE) (set_mark mark (os_ts_ns o) r1)
                  else r1 in
        let t1 := set_rows (<[i := r2]> (inst_rows t)) t in
        let t2 := if carries && negb sane then count_refused t1 else t1 in
        if moved1 || (carries && sane) then refresh_instrument i t2 else t2
  end.

(** ** A fill on a row *)

(** How much of [qty] grows the position's magnitude. *)
Definition increase (pos qty : Z) (buy : bool) : Z :=
  let mag := sat_abs pos in
  let opposes := ((0 <? pos) && negb buy) || ((pos <? 0) && buy) in
  if opposes then (if mag <? qty then qty - mag else 0) else qty.

Definition move_pos (pos qty : Z) (buy : bool) : Z := if buy then pos +| qty else pos -| qty.

(** The row, the turnover it adds (none of an adopted position), and whether
    a spot row's floor was hit. *)
Definition book_row (f : Fill) (slot : nat) (r : InstrumentRow) : InstrumentRow * Z * bool :=
  let buy := side_eqb (fl_side f) Bid in
  if is_settlement f then (set_pos_px (upd (fun _ => 0) slot (ir_pos r)) (ir_last_px r) r, 0, false)
  else
    let pos := get (ir_pos r) slot in
    let inc := increase pos (fl_qty f) buy in
    let next := move_pos pos (fl_qty f) buy in
    let floored := (ir_law r =? LAW_SPOT) && (next <? 0) in
    (set_pos_px (upd (fun _ => if floored then 0 else next) slot (ir_pos r))
       (if 0 <? fl_px f then fl_px f else ir_last_px r) r,
     if is_adopted f then 0
     else if ir_law r =? LAW_INVERSE then mul_1e6 inc (ir_unit r) else mul_1e6 inc (fl_px f),
     floored).

Definition book_on_row (i : nat) (f : Fill) (slot : nat) (t : Inst) : Inst * Z * bool :=
  let '(r, add, floored) := book_row f slot (row_at t i) in
  (refresh_instrument i (set_rows (<[i := r]> (inst_rows t)) t), add, floored).

(** ** Hyperliquid perp rows *)

Definition perp_find (t : Inst) (sym : Z) : option nat :=
  if (perp_n t =? 0)%nat then None
  else
    match inst_find t sym with
    | Some i => if has_flag (ir_flags (row_at t i)) INST_PERP then Some i else None
    | None => None
    end.

Definition is_perp (t : Inst) (sym : Z) : bool := match perp_find t sym with Some _ => true | None => false end.
Definition perp_owner (t : Inst) (sym : Z) : option Z := (fun i => ir_owner (row_at t i)) <$> perp_find t sym.

Definition set_perps (p : list Z) (n : nat) (t : Inst) : Inst :=
  mkInst (inst_keys t) (inst_rows t) (inst_n t) (inst_exposure_1e6 t) (inst_unmarked t) p n
    (marks_refused t) (marks_expired t).

Definition bind_perp (sym slot : Z) (t : Inst) : Inst * result unit LedgerError :=
  if Z.of_nat EXEC_SLOTS <=? slot then (t, Err (EBind BindBadSpec))
  else if (PERP_ROWS <=? perp_n t)%nat then (t, Err EPerpRowsFull)
  else
    match bind_instrument (owned_by slot (spec_new sym LAW_LINEAR 0 0 0)) t with
    | (t1, Err e) => (t1, Err (EBind e))
    | (t1, Ok _) =>
        match inst_find t1 sym with
        | None => (t1, Err ENotPerp)
        | Some i =>
            let r := row_at t1 i in
            let t2 := set_rows (<[i := set_flags (Z.lor (ir_flags r) INST_PERP) r]> (inst_rows t1)) t1 in
            (set_perps (<[perp_n t1 := sym]> (perp_syms t1)) (perp_n t1 + 1) t2, Ok tt)
        end
    end.

(** The row's part of [seed_perp]; the slot whose day it charges. *)
Definition seed_row (sym pos avg_px day_open : Z) (t : Inst) : Inst * result nat LedgerError :=
  match perp_find t sym with
  | None => (t, Err ENotPerp)
  | Some i =>
      let r := row_at t i in
      if has_flag (ir_flags r) INST_SEEDED then (t, Err ESeededTwice)
      else if (day_open <? 0) || (pos =? i64_min) || (negb (pos =? 0) && (avg_px <=? 0))
      then (t, Err EBadSeed)
      else
        let slot := Z.to_nat (ir_owner r) in
        if (EXEC_SLOTS <=? slot)%nat then (t, Err ENotPerp)
        else
          let r1 := set_pos_px (upd (fun _ => pos) slot (ir_pos r))
                      (if 0 <? avg_px then avg_px else ir_last_px r)
                      (set_flags (Z.lor (ir_flags r) INST_SEEDED) r) in
          (refresh_instrument i (set_rows (<[i := r1]> (inst_rows t)) t), Ok slot)
  end.

(** The slot's perp rows, in bind order. *)
Definition perp_rows_of (t : Inst) (slot : Z) : list (Z * InstrumentRow) :=
  omap (fun k =>
    match inst_find t k with
    | Some i => if ir_owner (row_at t i) =? slot then Some (k, row_at t i) else None
    | None => None
    end) (take (Nat.min (perp_n t) PERP_ROWS) (perp_syms t)).

Definition perp_projection_1e6 (t : Inst) (slot : nat) (sym : Z) (side : Side) (qty px : Z) : Z * Z :=
  if (EXEC_SLOTS <=? slot)%nat then (0, 0)
  else
    foldl (fun '(cur, next) '(k, r) =>
      let pos := get (ir_pos r) slot in
      if k =? sym then
        (cur +| mul_1e6 (sat_abs pos) px,
         next +| mul_1e6 (sat_abs (move_pos pos qty (side_eqb side Bid))) px)
      else
        let e := mul_1e6 (sat_abs pos) (ir_last_px r) in (cur +| e, next +| e))
      (0, 0) (perp_rows_of t (Z.of_nat slot)).

Definition perp_opening_1e6 (t : Inst) (sym : Z) (side : Side) (qty px : Z) : Z :=
  match perp_find t sym with
  | None => 0
  | Some i =>
      let r := row_at t i in
      let s := Z.to_nat (ir_owner r) in
      if (EXEC_SLOTS <=? s)%nat || (qty <=? 0) || (px <=? 0) then 0
      else mul_1e6 (increase (get (ir_pos r) s) qty (side_eqb side Bid)) px
  end.

Definition perp_exposure_1e6 (t : Inst) (slot : nat) : Z :=
  if (EXEC_SLOTS <=? slot)%nat then 0
  else foldl (fun total '(_, r) => total +| get (ir_exp r) slot) 0 (perp_rows_of t (Z.of_nat slot)).

Record PerpVenuePos := mkVenuePos { vp_sym : Z; vp_szi : Z; vp_px : Z }.

Definition perp_drift_1e6 (t : Inst) (slot : nat) (venue : list PerpVenuePos) : Z :=
  if (EXEC_SLOTS <=? slot)%nat then 0
  else
    foldl (fun total '(k, r) =>
      let '(szi, vpx) :=
        match first_index (fun v => vp_sym v =? k) venue with
        | Some j => match venue !! j with Some v => (vp_szi v, vp_px v) | None => (0, 0) end
        | None => (0, 0)
        end in
      let px := if 0 <? ir_last_px r then ir_last_px r else vpx in
      let d := Z.min (Z.abs (get (ir_pos r) slot - szi)) i64_max in
      total +| mul_1e6 d px) 0 (perp_rows_of t (Z.of_nat slot)).
