(* ===== verification/InstProofs.v ===== *)
(** * Theorems of the instrument rows

    The search finds exactly the bound rows, the key array stays sorted, and
    the per-slot exposure and unmarked counts equal a full recompute after
    every operation: the exact adds and subtracts never drift. *)

From S2P Require Import Prelude CoreTypes LedgerBase LedgerInst.

Local Open Scope machine_scope.

Definition b2z (b : bool) : Z := if b then 1 else 0.

(** ** Exposure is bounded, nothing at zero *)

Lemma INST_EXPOSURE_MAX_pos : in_exp 0.
Proof. unfold INST_EXPOSURE_MAX. lia. Qed.

Lemma exposure_ctx_range r pos : in_exp (exposure_ctx r pos).
Proof. unfold exposure_ctx. case_ifs; auto using mul_1e6_range, INST_EXPOSURE_MAX_pos. Qed.

Lemma exposure_ctx_flat r : exposure_ctx r 0 = 0.
Proof. unfold exposure_ctx. case_ifs; done. Qed.

(** ** The refresh of one row *)

(** After the turns of slots below [k], from [r0] and the sums [S0], [C0]. *)
Definition refreshed (bare : bool) (r0 : InstrumentRow) (S0 C0 : list Z) (k : nat)
    (st : InstrumentRow * list Z * list Z) : Prop :=
  exists u e, st.1.1 = set_cache u e r0 /\ length e = EXEC_SLOTS /\
    length st.1.2 = EXEC_SLOTS /\ length st.2 = EXEC_SLOTS /\
    forall s, (s < EXEC_SLOTS)%nat ->
      get e s = (if (s <? k)%nat then exposure_ctx r0 (get (ir_pos r0) s) else get (ir_exp r0) s) /\
      Z.testbit u (Z.of_nat s) =
        (if (s <? k)%nat then bare && negb (get (ir_pos r0) s =? 0) else Z.testbit (ir_unmarked r0) (Z.of_nat s)) /\
      get st.1.2 s = get S0 s - get (ir_exp r0) s + get e s /\
      get st.2 s = get C0 s - b2z (Z.testbit (ir_unmarked r0) (Z.of_nat s)) + b2z (Z.testbit u (Z.of_nat s)).

(** What keeps the adds and subtracts exact: the other rows' share fits. *)
Definition room (r0 : InstrumentRow) (S0 C0 : list Z) : Prop :=
  forall s, (s < EXEC_SLOTS)%nat ->
    in_exp (get (ir_exp r0) s) /\
    0 <= get S0 s - get (ir_exp r0) s /\ get S0 s - get (ir_exp r0) s + INST_EXPOSURE_MAX <= i64_max /\
    0 <= get C0 s - b2z (Z.testbit (ir_unmarked r0) (Z.of_nat s)) < u16_max.

Lemma testbit_toggle u s j :
  Z.testbit (Z.lxor u (Z.shiftl 1 (Z.of_nat s))) (Z.of_nat j) =
  xorb (Z.testbit u (Z.of_nat j)) (s =? j)%nat.
Proof.
  rewrite Z.lxor_spec, Z.shiftl_1_l, Z.pow2_bits_eqb by lia. f_equal.
  destruct (Nat.eqb_spec s j), (Z.eqb_spec (Z.of_nat s) (Z.of_nat j)); lia.
Qed.

Lemma refresh_slot_step bare r0 S0 C0 k st :
  (k < EXEC_SLOTS)%nat -> room r0 S0 C0 -> refreshed bare r0 S0 C0 k st ->
  refreshed bare r0 S0 C0 (S k) (refresh_slot bare st k).
Proof.
  intros Hk Hroom. destruct st as [[r sums] counts]. intros (u & e & Hr & Le & Ls & Lc & H). simpl in *. subst r.
  destruct (H k Hk) as (He & Hu & HS & HC). destruct (Nat.ltb_spec k k); [lia|].
  destruct (Hroom k Hk) as (R1 & R2 & R3 & R4). set (pos := get (ir_pos r0) k) in *.
  assert (forall s, (s < EXEC_SLOTS)%nat -> s <> k -> (s <? S k)%nat = (s <? k)%nat) as Hlt.
  { intros s _ Hne. destruct (Nat.ltb_spec s (S k)), (Nat.ltb_spec s k); lia. }
  assert ((k <? S k)%nat = true) as Hkk by (apply Nat.ltb_lt; lia).
  pose proof (exposure_ctx_range r0 pos) as Hexp. fold pos. unfold refresh_slot. simpl. fold pos.
  destruct ((pos =? 0) && (get e k =? 0) && negb (Z.testbit u (Z.of_nat k))) eqn:Hskip.
  { apply andb_true_iff in Hskip as [Hskip Hb]. apply andb_true_iff in Hskip as [Hp Hz].
    exists u, e. split_and!; try done. simpl. intros s Hs. destruct (H s Hs) as (A & B & C & D).
    split_and!; try done; (destruct (decide (s = k)) as [->|Hne]; [rewrite Hkk|by rewrite Hlt]).
    - fold pos. apply Z.eqb_eq in Hp. rewrite Hp, exposure_ctx_flat. lia.
    - fold pos. rewrite Hp. rewrite andb_false_r. by destruct (Z.testbit u (Z.of_nat k)). }
  change (exposure_ctx (set_cache u e r0) pos) with (exposure_ctx r0 pos).
  set (E := exposure_ctx r0 pos) in *. set (nu := bare && negb (pos =? 0)) in *.
  assert (wrap_i64 (wrap_i64 (get sums k - get e k) + E) = get S0 k - get (ir_exp r0) k + E) as Hsum.
  { rewrite HS, He. unfold i64_max in R3. unfold INST_EXPOSURE_MAX in *.
    rewrite (wrap_i64_id (_ - _)), wrap_i64_id; unfold i64_min, i64_max; lia. }
  assert (forall s, (s < EXEC_SLOTS)%nat ->
    get (upd (fun x => wrap_i64 (wrap_i64 (x - get e k) + E)) k sums) s =
    get S0 s - get (ir_exp r0) s + get (upd (fun _ => E) k e) s) as Hsums.
  { intros s Hs. destruct (decide (k = s)) as [<-|Hne].
    - rewrite !get_upd by lia. done.
    - rewrite !get_upd_ne by done. apply H. done. }
  assert (forall s, (s < EXEC_SLOTS)%nat -> get (upd (fun _ => E) k e) s =
    (if (s <? S k)%nat then exposure_ctx r0 (get (ir_pos r0) s) else get (ir_exp r0) s)) as Hes.
  { intros s Hs. destruct (decide (k = s)) as [<-|Hne].
    - rewrite get_upd, Hkk by lia. done.
    - rewrite get_upd_ne, Hlt by done. apply H. done. }
  destruct (eqb nu (Z.testbit u (Z.of_nat k))) eqn:Heq.
  - apply eqb_prop in Heq. exists u, (upd (fun _ => E) k e). simpl. rewrite !length_upd.
    split_and!; try done. intros s Hs. destruct (H s Hs) as (_ & B & _ & D). split_and!; auto.
    destruct (decide (s = k)) as [->|Hne]; [by rewrite Hkk|by rewrite Hlt].
  - exists (Z.lxor u (Z.shiftl 1 (Z.of_nat k))), (upd (fun _ => E) k e). simpl. rewrite !length_upd.
    split_and!; try done. intros s Hs. destruct (H s Hs) as (_ & B & _ & D). rewrite testbit_toggle.
    split_and!; auto; destruct (decide (k = s)) as [<-|Hne].
    + rewrite Hkk, Nat.eqb_refl. fold pos nu. by destruct nu, (Z.testbit u (Z.of_nat k)).
    + destruct (Nat.eqb_spec k s); [done|]. rewrite xorb_false_r, Hlt by done. done.
    + rewrite get_upd by lia. rewrite Nat.eqb_refl, HC. unfold wrap_u16, b2z, u16_max in *.
      destruct nu, (Z.testbit u (Z.of_nat k)); simpl in Heq; try done;
      destruct (Z.testbit (ir_unmarked r0) (Z.of_nat k)); simpl in *; rewrite Z.mod_small; lia.
    + rewrite get_upd_ne by done. destruct (Nat.eqb_spec k s); [done|]. by rewrite xorb_false_r.
Qed.

Lemma refresh_slots r0 S0 C0 bare :
  length (ir_exp r0) = EXEC_SLOTS -> length S0 = EXEC_SLOTS -> length C0 = EXEC_SLOTS -> room r0 S0 C0 ->
  refreshed bare r0 S0 C0 EXEC_SLOTS (foldl (refresh_slot bare) (r0, S0, C0) (seq 0 EXEC_SLOTS)).
Proof.
  intros Le Ls Lc Hroom.
  enough (forall k, (k <= EXEC_SLOTS)%nat ->
    refreshed bare r0 S0 C0 k (foldl (refresh_slot bare) (r0, S0, C0) (seq 0 k))) as H by (by apply H).
  induction k as [|k IH]; intros Hk.
  - exists (ir_unmarked r0), (ir_exp r0). simpl. split_and!; try done; [by destruct r0|].
    intros s Hs. split_and!; [done|done|lia|lia].
  - rewrite seq_S, foldl_app. cbn [foldl]. apply refresh_slot_step; [lia|done|]. apply IH. lia.
Qed.

(** ** The table's invariant *)

(** A row's caches against a recompute from its position and prices. *)
Definition cached (r : InstrumentRow) : Prop :=
  forall s, (s < EXEC_SLOTS)%nat ->
    get (ir_exp r) s = exposure_ctx r (get (ir_pos r) s) /\
    Z.testbit (ir_unmarked r) (Z.of_nat s) = is_bare r && negb (get (ir_pos r) s =? 0).

Record row_shape (r : InstrumentRow) : Prop := {
  rs_pos : length (ir_pos r) = EXEC_SLOTS;
  rs_exp : length (ir_exp r) = EXEC_SLOTS;
  rs_range : forall s, (s < EXEC_SLOTS)%nat -> in_exp (get (ir_exp r) s)
}.

Definition exp_sum (s : nat) (rs : list InstrumentRow) : Z := sumZ (fun r => get (ir_exp r) s) rs.
Definition unmarked_count (s : nat) (rs : list InstrumentRow) : Z :=
  Z.of_nat (countb (fun r => Z.testbit (ir_unmarked r) (Z.of_nat s)) rs).

(** The rows and their aggregates, with the rows of [P] freshly priced. *)
Record rows_ok (P : nat -> Prop) (t : Inst) : Prop := {
  ro_len : length (inst_rows t) = LEDGER_INSTRUMENTS;
  ro_sums : length (inst_exposure_1e6 t) = EXEC_SLOTS;
  ro_counts : length (inst_unmarked t) = EXEC_SLOTS;
  ro_shape : Forall row_shape (inst_rows t);
  ro_cached : forall i r, inst_rows t !! i = Some r -> P i -> cached r;
  ro_sum : forall s, (s < EXEC_SLOTS)%nat -> get (inst_exposure_1e6 t) s = exp_sum s (inst_rows t);
  ro_count : forall s, (s < EXEC_SLOTS)%nat -> get (inst_unmarked t) s = unmarked_count s (inst_rows t)
}.

(** The key array: the bound ids, ascending, then the free tail. *)
Record keys_ok (t : Inst) : Prop := {
  ko_len : length (inst_keys t) = LEDGER_INSTRUMENTS;
  ko_n : (inst_n t <= LEDGER_INSTRUMENTS)%nat;
  ko_sorted : forall i j, (i < j < inst_n t)%nat -> key_at (inst_keys t) i < key_at (inst_keys t) j;
  ko_bound : forall i, (i < inst_n t)%nat -> key_at (inst_keys t) i < SYMBOL_ID_NONE;
  ko_tail : forall i, (inst_n t <= i)%nat -> key_at (inst_keys t) i = SYMBOL_ID_NONE;
  ko_sym : forall i r, inst_rows t !! i = Some r -> ir_sym r = key_at (inst_keys t) i;
  ko_free : forall i r, (inst_n t <= i)%nat -> inst_rows t !! i = Some r -> r = row_free
}.

Definition inst_ok (t : Inst) : Prop := keys_ok t /\ rows_ok (fun _ => True) t.

Lemma exp_sum_insert s rs i r r' :
  rs !! i = Some r -> exp_sum s (<[i:=r']> rs) = exp_sum s rs - get (ir_exp r) s + get (ir_exp r') s.
Proof. intros H. by apply (sumZ_insert (fun r => get (ir_exp r) s)). Qed.

Lemma unmarked_count_insert s rs i r r' :
  rs !! i = Some r ->
  unmarked_count s (<[i:=r']> rs) = unmarked_count s rs - b2z (Z.testbit (ir_unmarked r) (Z.of_nat s))
    + b2z (Z.testbit (ir_unmarked r') (Z.of_nat s)).
Proof.
  intros H. pose proof (countb_insert (fun r => Z.testbit (ir_unmarked r) (Z.of_nat s)) rs i r r' H) as E.
  unfold unmarked_count, b2z. simpl in E. do 2 destruct (Z.testbit _ _); lia.
Qed.

Lemma rows_room P t i r : rows_ok P t -> inst_rows t !! i = Some r ->
  room r (inst_exposure_1e6 t) (inst_unmarked t).
Proof.
  intros W Hr s Hs. pose proof (ro_shape P t W) as Hsh. pose proof (Forall_lookup_1 _ _ _ _ Hsh Hr) as Hrs.
  split; [by apply rs_range|]. rewrite (ro_sum P t W s Hs), (ro_count P t W s Hs).
  assert (forall x, row_shape x -> in_exp (get (ir_exp x) s)) as Hx by (intros x Hx; by apply rs_range).
  rewrite Forall_forall in Hsh.
  pose proof (sumZ_le (fun r => get (ir_exp r) s) (inst_rows t) INST_EXPOSURE_MAX
    ltac:(intros x Hin; apply Hx, Hsh, Hin)) as B.
  pose proof (sumZ_lookup_le (fun r => get (ir_exp r) s) (inst_rows t) i r
    ltac:(intros x Hin; apply Hx, Hsh, Hin) Hr) as L.
  pose proof (countb_le (fun r => Z.testbit (ir_unmarked r) (Z.of_nat s)) (inst_rows t)) as Cb.
  pose proof (countb_insert (fun r => Z.testbit (ir_unmarked r) (Z.of_nat s)) (inst_rows t) i r
    (set_cache 0 [] r) Hr) as Cp. cbn [ir_unmarked set_cache] in Cp. rewrite Z.testbit_0_l in Cp.
  rewrite (ro_len P t W) in *. unfold unmarked_count, exp_sum, b2z in *.
  unfold LEDGER_INSTRUMENTS, INST_EXPOSURE_MAX, i64_max, u16_max in *.
  cbv beta in *. pose proof (rs_range r Hrs s Hs) as Hp; unfold INST_EXPOSURE_MAX in Hp. destruct (Z.testbit (ir_unmarked r) (Z.of_nat s)); lia.
Qed.

(** Re-pricing the one row that moved makes the whole table fresh again. *)
Lemma refresh_ok t i r :
  rows_ok (fun j => j <> i) t -> inst_rows t !! i = Some r ->
  rows_ok (fun _ => True) (refresh_instrument i t) /\
  exists u e, inst_rows (refresh_instrument i t) = <[i := set_cache u e r]> (inst_rows t) /\
    inst_keys (refresh_instrument i t) = inst_keys t /\ inst_n (refresh_instrument i t) = inst_n t.
Proof.
  intros W Hr. pose proof (rows_room _ t i r W Hr) as Hroom. pose proof W as [W1 W2 W3 W4 W5 W6 W7].
  pose proof (Forall_lookup_1 _ _ _ _ W4 Hr) as Hrs. unfold refresh_instrument, row_at. rewrite Hr. cbn [default from_option id].
  pose proof (refresh_slots r _ _ (is_bare r) (rs_exp _ Hrs) W2 W3 Hroom) as H.
  destruct (foldl _ _ _) as [[r' sums] counts]. destruct H as (u & e & Hr' & Le & Ls & Lc & H). cbn [fst snd] in *. subst r'.
  split; [|by exists u, e]. constructor; simpl; try done.
  - by rewrite length_insert.
  - apply Forall_insert; [done|]. constructor; simpl; [apply Hrs|done|]. intros s Hs.
    destruct (H s Hs) as (-> & _). destruct (Nat.ltb_spec s EXEC_SLOTS); [apply exposure_ctx_range|lia].
  - intros j x Hj _. apply list_lookup_insert_Some in Hj as [(-> & <- & _)|[Hne Hj]]; [|by apply (W5 j)].
    intros s Hs. destruct (H s Hs) as (He & Hu & _). simpl. rewrite He, Hu.
    destruct (Nat.ltb_spec s EXEC_SLOTS); [done|lia].
  - intros s Hs. destruct (H s Hs) as (_ & _ & HS & _). rewrite HS, (W6 s Hs).
    by rewrite (exp_sum_insert s _ i r _ Hr).
  - intros s Hs. destruct (H s Hs) as (_ & _ & _ & HC). rewrite HC, (W7 s Hs).
    by rewrite (unmarked_count_insert s _ i r _ Hr).
Qed.

(** ** The search *)

Lemma lower_bound_finds fuel base size keys sym k :
  (base <= k < base + size)%nat -> (size <= S fuel)%nat ->
  (forall m, (m < base + size)%nat -> (key_at keys m <=? sym) = (m <=? k)%nat) ->
  lower_bound fuel base size keys sym = k.
Proof.
  revert base size. induction fuel as [|f IH]; intros base size Hk Hsize Hkey; cbn [lower_bound]; [lia|].
  destruct (Nat.ltb_spec 1 size) as [Hgt|]; [|lia].
  pose proof (Nat.div_lt size 2 ltac:(lia) ltac:(lia)) as Hlt.
  assert (1 <= size / 2)%nat as Hge by (apply Nat.div_le_lower_bound; lia).
  pose proof (Nat.Div0.mul_div_le size 2) as Hdouble. set (half := (size / 2)%nat) in *.
  rewrite Hkey by lia. destruct (Nat.leb_spec (base + half) k); (apply IH; [lia|lia|]; intros m Hm; apply Hkey; lia).
Qed.

Lemma key_mono t i j : keys_ok t -> (i <= j)%nat -> (j < inst_n t)%nat ->
  key_at (inst_keys t) i <= key_at (inst_keys t) j.
Proof.
  intros W Hij Hj. destruct (decide (i = j)) as [->|]; [lia|].
  pose proof (ko_sorted t W i j ltac:(lia)). lia.
Qed.

Lemma inst_find_Some t sym i :
  keys_ok t -> inst_find t sym = Some i <-> (i < inst_n t)%nat /\ key_at (inst_keys t) i = sym.
Proof.
  intros W. unfold inst_find. split.
  - destruct (Nat.eqb_spec (inst_n t) 0); cbn [orb]; [done|].
    destruct (Z.eqb_spec sym SYMBOL_ID_NONE) as [|Hne]; [done|].
    set (j := Nat.land _ _). destruct (Z.eqb_spec (key_at (inst_keys t) j) sym) as [He|]; [|done].
    intros [= <-]. split; [|done]. destruct (decide (j < inst_n t)%nat) as [|Hge]; [done|].
    destruct Hne. rewrite <- He. apply (ko_tail t W). lia.
  - intros [Hi He]. destruct (Nat.eqb_spec (inst_n t) 0); [lia|]. cbn [orb].
    pose proof (ko_bound t W i Hi) as Hb. rewrite He in Hb. destruct (Z.eqb_spec sym SYMBOL_ID_NONE); [lia|].
    pose proof (ko_n t W) as Hn.
    rewrite (lower_bound_finds _ 0 LEDGER_INSTRUMENTS _ sym i); [|unfold LEDGER_INSTRUMENTS in *; lia..|].
    + replace (Nat.land i (LEDGER_INSTRUMENTS - 1)) with i.
      * destruct (Z.eqb_spec (key_at (inst_keys t) i) sym); [done|congruence].
      * change (LEDGER_INSTRUMENTS - 1)%nat with (Nat.ones 8). rewrite Nat.land_ones.
        symmetry. apply Nat.mod_small. change (2 ^ 8)%nat with LEDGER_INSTRUMENTS. lia.
    + intros m _. destruct (decide (m < inst_n t)%nat) as [Hm|Hm].
      * destruct (Nat.leb_spec m i) as [Hle|Hgt].
        -- apply Z.leb_le. rewrite <- He. by apply key_mono.
        -- apply Z.leb_gt. rewrite <- He. apply (ko_sorted t W). lia.
      * rewrite (ko_tail t W m) by lia. destruct (Nat.leb_spec m i); [lia|]. apply Z.leb_gt. lia.
Qed.

Lemma inst_find_None t sym :
  keys_ok t -> inst_find t sym = None <-> forall i, (i < inst_n t)%nat -> key_at (inst_keys t) i <> sym.
Proof.
  intros W. destruct (inst_find t sym) as [j|] eqn:E.
  - apply inst_find_Some in E as [Hj He]; [|done]. split; [done|]. intros H. by destruct (H j Hj).
  - split; [|done]. intros _ i Hi He. assert (inst_find t sym = Some i) by (by apply inst_find_Some). congruence.
Qed.

(** What the code before the sorted array would be: a scan of the bound ids. *)
Definition find_by_scan (t : Inst) (sym : Z) : option nat :=
  first_index (fun k => k =? sym) (take (inst_n t) (inst_keys t)).

Lemma key_at_lookup keys i k : keys !! i = Some k -> key_at keys i = k.
Proof. unfold key_at. by intros ->. Qed.

Lemma find_is_scan t sym : keys_ok t -> inst_find t sym = find_by_scan t sym.
Proof.
  intros W. unfold find_by_scan. destruct (inst_find t sym) as [i|] eqn:E.
  - apply inst_find_Some in E as [Hi He]; [|done]. symmetry.
    destruct (lookup_lt_is_Some_2 (inst_keys t) i) as [k Hk].
    { rewrite (ko_len t W). pose proof (ko_n t W). lia. }
    rewrite (key_at_lookup _ _ _ Hk) in He. subst k.
    apply (first_index_only _ _ i sym); [by rewrite lookup_take_lt|by rewrite Z.eqb_refl|].
    intros j y Hj Hy. apply lookup_take_Some in Hy as [Hy Hlt].
    apply Z.eqb_neq. intros ->. apply key_at_lookup in Hy. apply key_at_lookup in Hk.
    destruct (decide (i < j)%nat).
    + pose proof (ko_sorted t W i j ltac:(lia)). lia.
    + pose proof (ko_sorted t W j i ltac:(lia)). lia.
  - symmetry. apply first_index_None. intros k Hk. apply list_elem_of_lookup in Hk as [i Hi].
    apply lookup_take_Some in Hi as [Hi Hlt]. rewrite inst_find_None in E by done.
    apply Z.eqb_neq. intros ->. apply (E i Hlt). by apply key_at_lookup.
Qed.

(** ** Binding a row *)

(** [l] with [x] inserted at [p], the free element at [n] dropped. *)
Definition inserted {A} (p n : nat) (x : A) (l : list A) : list A :=
  take p l ++ x :: drop p (take n l) ++ drop (S n) l.

Lemma inserted_step {A} (p k : nat) (x y : A) l :
  l !! k = Some y -> (p <= k)%nat -> (S k < length l)%nat ->
  inserted p k x (<[S k := y]> l) = inserted p (S k) x l.
Proof.
  intros Hk Hp Hl. unfold inserted. rewrite take_insert_ge by lia. f_equal. f_equal.
  rewrite take_insert_ge by lia. rewrite (take_S_r l k y Hk).
  rewrite drop_app_le by (rewrite length_take; lia). rewrite <- app_assoc. f_equal. simpl.
  rewrite (drop_S (<[S k:=y]> l) y (S k)) by (by apply list_lookup_insert_eq).
  by rewrite drop_insert_lt by lia.
Qed.

Lemma inserted_here {A} (p : nat) (x : A) l : (p < length l)%nat -> <[p := x]> l = inserted p p x l.
Proof.
  intros Hp. unfold inserted. rewrite drop_ge by (rewrite length_take; lia). simpl.
  by rewrite insert_take_drop.
Qed.

Lemma shift_right_spec sym a keys rows p K R kx rx :
  length keys = length rows -> (a < length keys)%nat ->
  shift_right sym a keys rows = (p, K, R) ->
  (p <= a)%nat /\ (p = 0%nat \/ key_at keys (pred p) <= sym) /\
  (forall j, (p <= j < a)%nat -> sym < key_at keys j) /\
  <[p := kx]> K = inserted p a kx keys /\ <[p := rx]> R = inserted p a rx rows.
Proof.
  revert keys rows. induction a as [|k IH]; intros keys rows Hlen Ha H; cbn [shift_right] in H.
  { injection H as <- <- <-. split_and!; [lia|by left|intros; lia|apply inserted_here..]; lia. }
  destruct (Z.ltb_spec sym (key_at keys k)) as [Hlt|Hge].
  - destruct (lookup_lt_is_Some_2 keys k ltac:(lia)) as [y Hy].
    destruct (lookup_lt_is_Some_2 rows k ltac:(lia)) as [z Hz]. rewrite Hz in H. cbn [default from_option] in H.
    apply IH in H as (I1 & I2 & I3 & I4 & I5); [|by rewrite !length_insert|rewrite length_insert; lia].
    assert (forall j, (j <= k)%nat -> key_at (<[S k:=key_at keys k]> keys) j = key_at keys j) as Hsame.
    { intros j Hj. unfold key_at at 1 3. by rewrite list_lookup_insert_ne by lia. }
    rewrite (key_at_lookup keys k y Hy) in *.
    split_and!; [lia| | |by rewrite I4, inserted_step|by rewrite I5, inserted_step by (done || lia)].
    + destruct I2 as [?|I2]; [by left|]. right. by rewrite Hsame in I2 by lia.
    + intros j Hj. destruct (decide (j = k)) as [->|]; [rewrite (key_at_lookup keys k y Hy); lia|].
      rewrite <- Hsame by lia. apply I3. lia.
  - injection H as <- <- <-. split_and!; [lia|by right|intros; lia|apply inserted_here..]; lia.
Qed.

Lemma inserted_lookup {A} p n (x : A) l j :
  (p <= n)%nat -> (n < length l)%nat ->
  inserted p n x l !! j =
  if (j <? p)%nat then l !! j else if (j =? p)%nat then Some x
  else if (j <=? n)%nat then l !! pred j else l !! j.
Proof.
  intros Hp Hn. unfold inserted. destruct (Nat.ltb_spec j p).
  { rewrite lookup_app_l by (rewrite length_take; lia). by rewrite lookup_take_lt. }
  rewrite lookup_app_r by (rewrite length_take; lia). rewrite length_take.
  replace (min p (length l)) with p by lia. destruct (Nat.eqb_spec j p) as [->|]; [by rewrite Nat.sub_diag|].
  replace (j - p)%nat with (S (j - p - 1)) by lia. simpl.
  destruct (Nat.leb_spec j n).
  - rewrite lookup_app_l by (rewrite length_drop, length_take; lia). rewrite lookup_drop, lookup_take_lt by lia.
    f_equal. lia.
  - rewrite lookup_app_r by (rewrite length_drop, length_take; lia). rewrite length_drop, length_take, lookup_drop.
    f_equal. lia.
Qed.

Lemma inserted_length {A} p n (x : A) l : (p <= n)%nat -> (n < length l)%nat -> length (inserted p n x l) = length l.
Proof.
  intros Hp Hn. unfold inserted. rewrite length_app. simpl.
  rewrite length_app, length_take, !length_drop, length_take. lia.
Qed.

(** Swapping the dropped element for the inserted one moves a sum by the difference. *)
Lemma split_around {A} p n (y : A) l :
  (p <= n)%nat -> l !! n = Some y -> l = take p l ++ drop p (take n l) ++ y :: drop (S n) l.
Proof.
  intros Hp Hy. rewrite <- (take_drop_middle l n y Hy) at 1.
  rewrite <- (take_drop p (take n l)) at 1. by rewrite take_take, Nat.min_l, <- app_assoc.
Qed.

Lemma inserted_sum {A} (f : A -> Z) p n x y l :
  (p <= n)%nat -> l !! n = Some y -> sumZ f (inserted p n x l) = sumZ f l - f y + f x.
Proof.
  intros Hp Hy. rewrite (split_around p n y l Hp Hy) at 2. unfold inserted.
  rewrite !sumZ_app. simpl. rewrite !sumZ_app. lia.
Qed.

Lemma inserted_count {A} (f : A -> bool) p n x y l :
  (p <= n)%nat -> l !! n = Some y -> f x = f y -> countb f (inserted p n x l) = countb f l.
Proof.
  intros Hp Hy Hxy. rewrite (split_around p n y l Hp Hy) at 2. unfold inserted.
  rewrite !countb_app. simpl. rewrite !countb_app, Hxy. lia.
Qed.

Lemma key_at_inserted p n x l j :
  (p <= n)%nat -> (n < length l)%nat ->
  key_at (inserted p n x l) j =
  if (j <? p)%nat then key_at l j else if (j =? p)%nat then x
  else if (j <=? n)%nat then key_at l (pred j) else key_at l j.
Proof.
  intros Hp Hn. unfold key_at. rewrite inserted_lookup by done.
  destruct (_ <? _)%nat; [done|]. destruct (_ =? _)%nat; [done|]. by destruct (_ <=? _)%nat.
Qed.

Lemma row_free_shape : row_shape row_free.
Proof.
  constructor; [apply length_replicate..|]. intros s Hs. change (ir_exp row_free) with (replicate EXEC_SLOTS 0). rewrite get_repeat by done.
  apply INST_EXPOSURE_MAX_pos.
Qed.

(** A row that has taken no position yet caches nothing. *)
Lemma flat_row_cached r :
  ir_pos r = replicate EXEC_SLOTS 0 -> ir_exp r = replicate EXEC_SLOTS 0 -> ir_unmarked r = 0 -> cached r.
Proof.
  intros Hp He Hu s Hs. rewrite Hp, He, Hu, !get_repeat by done.
  rewrite exposure_ctx_flat, Z.testbit_0_l, andb_false_r. done.
Qed.

Lemma flat_row_shape r :
  ir_pos r = replicate EXEC_SLOTS 0 -> ir_exp r = replicate EXEC_SLOTS 0 -> row_shape r.
Proof.
  intros Hp He. constructor; rewrite ?Hp, ?He; [apply length_replicate..|].
  intros s Hs. rewrite get_repeat by done. apply INST_EXPOSURE_MAX_pos.
Qed.

(** The table a successful bind leaves. *)
Lemma bind_instrument_ok_form spec t t' :
  keys_ok t -> length (inst_rows t) = LEDGER_INSTRUMENTS -> bind_instrument spec t = (t', Ok tt) ->
  bad_spec spec = false /\ inst_find t (sp_sym spec) = None /\ (inst_n t < LEDGER_INSTRUMENTS)%nat /\
  exists p, (p <= inst_n t)%nat /\
    (forall j, (j < p)%nat -> key_at (inst_keys t) j < sp_sym spec) /\
    (forall j, (p <= j < inst_n t)%nat -> sp_sym spec < key_at (inst_keys t) j) /\
    t' = mkInst (inserted p (inst_n t) (sp_sym spec) (inst_keys t))
      (inserted p (inst_n t) (bound_row spec) (inst_rows t)) (inst_n t + 1)
      (inst_exposure_1e6 t) (inst_unmarked t) (perp_syms t) (perp_n t) (marks_refused t) (marks_expired t).
Proof.
  intros W Hrows H. unfold bind_instrument in H. destruct (bad_spec spec); [done|].
  destruct (inst_find t (sp_sym spec)) as [?|] eqn:Ef; [done|].
  destruct (Nat.leb_spec LEDGER_INSTRUMENTS (inst_n t)); [done|].
  destruct (shift_right _ _ _ _) as [[p K] R] eqn:Es. injection H as <-. split_and!; try done.
  destruct (shift_right_spec (sp_sym spec) (inst_n t) (inst_keys t) (inst_rows t) p K R (sp_sym spec) (bound_row spec)
    ltac:(rewrite (ko_len t W); by rewrite Hrows) ltac:(rewrite (ko_len t W); lia) Es) as (S1 & S2 & S3 & -> & ->).
  exists p. split_and!; try done. intros j Hj. destruct S2 as [->|S2]; [lia|].
  assert (forall i, (i < inst_n t)%nat -> key_at (inst_keys t) i <> sp_sym spec) as Hne
    by (by apply inst_find_None).
  pose proof (key_mono t j (pred p) W ltac:(lia) ltac:(lia)). specialize (Hne (pred p) ltac:(lia)). lia.
Qed.

Lemma bind_instrument_unchanged spec t e : (bind_instrument spec t).2 = Err e -> (bind_instrument spec t).1 = t.
Proof.
  unfold bind_instrument. destruct (bad_spec spec); [done|]. destruct (inst_find _ _); [done|].
  destruct (_ <=? _)%nat; [done|]. by destruct (shift_right _ _ _ _) as [[p K] R].
Qed.

Lemma in_u32_spec spec : bad_spec spec = false -> in_u32 (sp_sym spec) -> sp_sym spec < SYMBOL_ID_NONE.
Proof.
  unfold bad_spec. intros H Hu. destruct (Z.eqb_spec (sp_sym spec) SYMBOL_ID_NONE) as [|Hne]; [done|].
  unfold SYMBOL_ID_NONE, u32_max in *. lia.
Qed.

Lemma bind_ok spec t : in_u32 (sp_sym spec) -> inst_ok t -> inst_ok (bind_instrument spec t).1.
Proof.
  intros Hu [K R]. destruct (bind_instrument spec t) as [t' [[]|e]] eqn:E; simpl.
  2: { pose proof (bind_instrument_unchanged spec t e) as H. rewrite E in H. simpl in H. by rewrite H. }
  destruct (bind_instrument_ok_form spec t t' K (ro_len _ t R) E) as (Hbad & Hnone & Hroom & p & Hp & Hlo & Hhi & ->).
  pose proof (in_u32_spec spec Hbad Hu) as Hsym.
  pose proof K as [K1 K2 K3 K4 K5 K6 K7]. pose proof R as [R1 R2 R3 R4 R5 R6 R7].
  destruct (lookup_lt_is_Some_2 (inst_rows t) (inst_n t)) as [f Hf]; [by rewrite R1|].
  assert (f = row_free) as -> by (apply (K7 (inst_n t)); [lia|done]).
  split; constructor; simpl; try done.
  - rewrite inserted_length; lia.
  - lia.
  - intros i j Hij. rewrite !key_at_inserted by lia.
    destruct (Nat.ltb_spec i p), (Nat.ltb_spec j p), (Nat.eqb_spec i p), (Nat.eqb_spec j p),
      (Nat.leb_spec i (inst_n t)), (Nat.leb_spec j (inst_n t)); try lia; try (apply K3; lia);
      try (apply Hlo; lia); try (apply Hhi; lia).
  - intros i Hi. rewrite key_at_inserted by lia.
    destruct (Nat.ltb_spec i p), (Nat.eqb_spec i p), (Nat.leb_spec i (inst_n t)); try lia; apply K4; lia.
  - intros i Hi. rewrite key_at_inserted by lia.
    destruct (Nat.ltb_spec i p), (Nat.eqb_spec i p), (Nat.leb_spec i (inst_n t)); try lia; apply K5; lia.
  - intros i r. rewrite inserted_lookup, key_at_inserted by lia.
    destruct (i <? p)%nat; [by apply K6|]. destruct (i =? p)%nat; [by intros [= <-]|].
    destruct (i <=? inst_n t)%nat; by apply K6.
  - intros i r Hi Hr. rewrite inserted_lookup in Hr by lia.
    destruct (Nat.ltb_spec i p); [lia|]. destruct (Nat.eqb_spec i p); [lia|].
    destruct (Nat.leb_spec i (inst_n t)); [lia|]. apply (K7 i); [lia|done].
  - rewrite inserted_length; lia.
  - apply Forall_lookup. intros i r. rewrite inserted_lookup by lia. rewrite Forall_lookup in R4.
    destruct (i <? p)%nat; [apply R4|]. destruct (i =? p)%nat; [intros [= <-]; by apply flat_row_shape|].
    destruct (i <=? inst_n t)%nat; apply R4.
  - intros i r Hr _. revert Hr. rewrite inserted_lookup by lia.
    destruct (i <? p)%nat; [intros Hr; by apply (R5 i)|].
    destruct (i =? p)%nat; [intros [= <-]; by apply flat_row_cached|].
    destruct (i <=? inst_n t)%nat; intros Hr; by eapply R5.
  - intros s Hs. rewrite R6 by done. unfold exp_sum. rewrite (inserted_sum _ _ _ _ row_free) by (done || lia).
    change (ir_exp row_free) with (replicate EXEC_SLOTS 0).
    change (ir_exp (bound_row spec)) with (replicate EXEC_SLOTS 0). lia.
  - intros s Hs. rewrite R7 by done. unfold unmarked_count.
    by rewrite (inserted_count _ _ _ _ row_free) by (done || lia).
Qed.

(** ** Moving one row's prices or positions *)

(** [r1] is [r] with prices, flags or positions moved, its caches not yet. *)
Definition touched (r r1 : InstrumentRow) : Prop :=
  ir_sym r1 = ir_sym r /\ ir_exp r1 = ir_exp r /\ ir_unmarked r1 = ir_unmarked r /\
  length (ir_pos r1) = EXEC_SLOTS.

Lemma touch_rows t i r r1 :
  inst_ok t -> inst_rows t !! i = Some r -> touched r r1 ->
  rows_ok (fun j => j <> i) (set_rows (<[i:=r1]> (inst_rows t)) t) /\
  (cached r1 -> rows_ok (fun _ => True) (set_rows (<[i:=r1]> (inst_rows t)) t)).
Proof.
  intros [_ [R1 R2 R3 R4 R5 R6 R7]] Hr (T1 & T2 & T3 & T4).
  assert (forall P : nat -> Prop, (P i -> cached r1) ->
    rows_ok P (set_rows (<[i:=r1]> (inst_rows t)) t)) as H.
  { intros P HP. pose proof (Forall_lookup_1 _ _ _ _ R4 Hr) as Hsh. constructor; simpl; try done.
    - by rewrite length_insert.
    - apply Forall_insert; [done|]. destruct Hsh. constructor; [done|by rewrite T2|]. by rewrite T2.
    - intros j x Hj Hx. apply list_lookup_insert_Some in Hj as [(-> & <- & _)|[Hne Hj]]; [by apply HP|by apply (R5 j)].
    - intros s Hs. rewrite (exp_sum_insert s _ i r r1 Hr), T2, R6 by done. lia.
    - intros s Hs. rewrite (unmarked_count_insert s _ i r r1 Hr), T3, R7 by done. lia. }
  split; [by apply H|]. intros Hc. by apply H.
Qed.

Lemma touch_keys t i r r1 :
  keys_ok t -> (i < inst_n t)%nat -> inst_rows t !! i = Some r -> ir_sym r1 = ir_sym r ->
  keys_ok (set_rows (<[i:=r1]> (inst_rows t)) t).
Proof.
  intros [K1 K2 K3 K4 K5 K6 K7] Hi Hr Hs. constructor; simpl; try done.
  - intros j x Hj. apply list_lookup_insert_Some in Hj as [(-> & <- & _)|[Hne Hj]]; [|by apply K6].
    rewrite Hs. by apply K6.
  - intros j x Hn Hj. apply list_lookup_insert_Some in Hj as [(-> & _ & _)|[Hne Hj]]; [lia|by apply (K7 j)].
Qed.

Lemma touch_refresh_ok t i r r1 :
  inst_ok t -> (i < inst_n t)%nat -> inst_rows t !! i = Some r -> touched r r1 ->
  inst_ok (refresh_instrument i (set_rows (<[i:=r1]> (inst_rows t)) t)).
Proof.
  intros W Hi Hr HT. destruct (touch_rows t i r r1 W Hr HT) as [H _]. destruct W as [K R].
  assert (inst_rows (set_rows (<[i:=r1]> (inst_rows t)) t) !! i = Some r1) as Hr1.
  { simpl. apply list_lookup_insert_eq. by apply lookup_lt_Some in Hr. }
  pose proof (touch_keys t i r r1 K Hi Hr ltac:(apply HT)) as K1.
  destruct (refresh_ok _ i r1 H Hr1) as [HR (u & e & E1 & E2 & E3)]. split; [|done].
  pose proof (touch_keys _ i r1 (set_cache u e r1) K1 Hi Hr1 eq_refl) as [L1 L2 L3 L4 L5 L6 L7].
  constructor; rewrite ?E1, ?E2, ?E3; done.
Qed.

Lemma count_refused_ok t : inst_ok t -> inst_ok (count_refused t).
Proof. intros [[] []]. by split; constructor. Qed.

Lemma count_expired_ok t : inst_ok t -> inst_ok (count_expired t).
Proof. intros [[] []]. by split; constructor. Qed.

Lemma found_row t sym i :
  inst_ok t -> inst_find t sym = Some i ->
  (i < inst_n t)%nat /\ exists r, inst_rows t !! i = Some r /\ row_at t i = r /\ ir_sym r = sym /\
    length (ir_pos r) = EXEC_SLOTS.
Proof.
  intros [K R] H. apply inst_find_Some in H as [Hi He]; [|done]. split; [done|].
  destruct (lookup_lt_is_Some_2 (inst_rows t) i) as [r Hr].
  { rewrite (ro_len _ _ R). pose proof (ko_n t K). lia. }
  exists r. split_and!; [done|unfold row_at; by rewrite Hr| |].
  - rewrite <- He. by apply (ko_sym t K).
  - apply rs_pos. by apply (Forall_lookup_1 _ _ _ _ (ro_shape _ _ R) Hr).
Qed.

Lemma on_mark_ok sym mark index ts t : inst_ok t -> inst_ok (on_mark sym mark index ts t).
Proof.
  intros W. unfold on_mark. destruct (inst_find t sym) as [i|] eqn:E; [|done].
  destruct (found_row t sym i W E) as (Hi & r & Hr & -> & _ & Hpos).
  destruct (_ || _); [done|]. destruct (_ || _ || _); [by apply count_refused_ok|].
  by apply (touch_refresh_ok t i r).
Qed.

Lemma expire_one_ok now t i : inst_ok t -> (i < inst_n t)%nat -> inst_ok (expire_one now t i).
Proof.
  intros W Hi. destruct (lookup_lt_is_Some_2 (inst_rows t) i) as [r Hr].
  { destruct W as [K R]. rewrite (ro_len _ _ R). pose proof (ko_n t K). lia. }
  assert (length (ir_pos r) = EXEC_SLOTS) as Hpos
    by (apply rs_pos; by apply (Forall_lookup_1 _ _ _ _ (ro_shape _ _ (proj2 W)) Hr)).
  unfold expire_one, row_at. rewrite Hr. cbn [default from_option id]. destruct (_ =? LAW_OPTION) eqn:Elaw.
  - destruct (_ && _); [|done]. apply count_expired_ok.
    set (r1 := set_flags _ r). assert (touched r r1) as HT by done.
    split; [by apply (touch_keys t i r); [apply W|..]|]. apply (touch_rows t i r r1 W Hr HT).
    pose proof (ro_cached _ _ (proj2 W) i r Hr I) as Hc. intros s Hs. destruct (Hc s Hs) as [He Hu].
    apply Z.eqb_eq in Elaw. unfold r1, set_flags, exposure_ctx, is_bare in *. simpl in *. rewrite Elaw in *. simpl in *.
    split; [|done]. rewrite He. unfold row_im, index_or_strike, px_ctx. simpl.
    replace (has_flag (Z.lor (ir_flags r) INST_STALE) INST_CALL) with (has_flag (ir_flags r) INST_CALL); [done|].
    unfold has_flag. rewrite Z.land_lor_distr_l. by rewrite Z.lor_0_r.
  - destruct (_ && _); [|done]. 
    change (count_expired (set_rows (<[i:=set_mark 0 (ir_mark_ns r) r]> (inst_rows t)) t))
      with (set_rows (<[i:=set_mark 0 (ir_mark_ns r) r]> (inst_rows (count_expired t))) (count_expired t)).
    apply (touch_refresh_ok (count_expired t) i r); [by apply count_expired_ok|done..].
Qed.

Lemma expire_one_n now t i : inst_n (expire_one now t i) = inst_n t.
Proof.
  unfold expire_one, refresh_instrument. destruct (_ =? LAW_OPTION); [by destruct (_ && _)|].
  destruct (_ && _); [|done]. by destruct (foldl _ _ _) as [[? ?] ?].
Qed.

Lemma expire_marks_ok now t : inst_ok t -> inst_ok (expire_marks now t).
Proof.
  intros W. unfold expire_marks.
  apply (foldl_keeps (fun t' => inst_ok t' /\ inst_n t' = inst_n t)); [|done].
  intros t' i Hin [W' Hn]. apply elem_of_seq in Hin. rewrite expire_one_n. split; [|done].
  apply expire_one_ok; [done|lia].
Qed.

Lemma set_rows_id t i r : inst_rows t !! i = Some r -> set_rows (<[i:=r]> (inst_rows t)) t = t.
Proof. intros H. rewrite list_insert_id by done. by destruct t. Qed.

Lemma on_opt_summary_ok o t : inst_ok t -> inst_ok (on_opt_summary o t).
Proof.
  intros W. unfold on_opt_summary. destruct (inst_find t (os_sym o)) as [i|] eqn:E; [|done].
  destruct (found_row t (os_sym o) i W E) as (Hi & r & Hr & -> & _ & Hpos).
  destruct (negb (ir_law r =? LAW_OPTION)); [done|].
  set (r1 := if 0 <? os_underlying_px_1e9 o then set_index (os_underlying_px_1e9 o /t 1000) r else r).
  assert (touched r r1) as T1 by (unfold r1; by destruct (_ <? _)).
  set (carries := negb (Z.land (os_flags o) OPT_SUMMARY_FLAG_MARK_PX =? 0)).
  set (sane := option_mark_sane _ _ _ _ _).
  set (r2 := if carries && sane then _ else r1).
  assert (touched r r2) as T2.
  { unfold r2. destruct (carries && sane); [|done]. destruct T1 as (A & B & C & D). by split_and!. }
  assert (inst_ok (if carries && negb sane then count_refused t else t)) as Wc
    by (destruct (carries && negb sane); [by apply count_refused_ok|done]).
  replace (if carries && negb sane then count_refused (set_rows (<[i:=r2]> (inst_rows t)) t)
           else set_rows (<[i:=r2]> (inst_rows t)) t)
    with (set_rows (<[i:=r2]> (inst_rows (if carries && negb sane then count_refused t else t)))
           (if carries && negb sane then count_refused t else t)) by (by destruct (carries && negb sane)).
  assert (inst_rows (if carries && negb sane then count_refused t else t) !! i = Some r) as Hrc
    by (by destruct (carries && negb sane)).
  destruct ((0 <? os_underlying_px_1e9 o) || (carries && sane)) eqn:Em.
  - apply (touch_refresh_ok _ i r); [done|by destruct (carries && negb sane)|done..].
  - apply orb_false_iff in Em as [Em1 Em2]. assert (r2 = r) as -> by (unfold r2, r1; by rewrite Em1, Em2).
    by rewrite set_rows_id.
Qed.

Lemma Inst_new_ok : inst_ok Inst_new.
Proof.
  assert (forall i r, inst_rows Inst_new !! i = Some r -> r = row_free) as Hfree.
  { intros i r H. by apply lookup_replicate_1 in H as [-> _]. }
  assert (forall i, key_at (inst_keys Inst_new) i = SYMBOL_ID_NONE) as Hkey.
  { intros i. unfold key_at. destruct (inst_keys Inst_new !! i) eqn:H; [|done].
    by apply lookup_replicate_1 in H as [-> _]. }
  split; constructor; try (intros; cbn [inst_n Inst_new] in *; lia).
  - apply length_replicate.
  - intros i _. apply Hkey.
  - intros i r H. rewrite Hkey. by rewrite (Hfree i r H).
  - intros i r _. apply Hfree.
  - apply length_replicate.
  - apply length_replicate.
  - apply length_replicate.
  - apply Forall_lookup. intros i r H. rewrite (Hfree i r H). apply row_free_shape.
  - intros i r H _. rewrite (Hfree i r H). by apply flat_row_cached.
  - intros s Hs. unfold exp_sum. cbn [inst_exposure_1e6 Inst_new]. rewrite get_repeat by done.
    symmetry. transitivity (sumZ (fun _ : InstrumentRow => 0) (inst_rows Inst_new)).
    + apply sumZ_ext. intros r Hr. apply list_elem_of_lookup in Hr as [i Hi]. rewrite (Hfree i r Hi).
      change (ir_exp row_free) with (replicate EXEC_SLOTS 0). by apply get_repeat.
    + generalize (inst_rows Inst_new). intros l. induction l; simpl; lia.
  - intros s Hs. unfold unmarked_count. cbn [inst_unmarked Inst_new]. rewrite get_repeat by done.
    symmetry. replace (countb _ _) with 0%nat; [done|].
    transitivity (countb (fun _ : InstrumentRow => false) (inst_rows Inst_new)).
    + generalize (inst_rows Inst_new). intros l. by induction l.
    + symmetry. apply countb_ext. intros r Hr. apply list_elem_of_lookup in Hr as [i Hi]. rewrite (Hfree i r Hi).
      apply Z.testbit_0_l.
Qed.

(** ** Fills, perp binds and seeds *)

Lemma book_row_touched f slot r : length (ir_pos r) = EXEC_SLOTS -> touched r (book_row f slot r).1.1.
Proof.
  intros H. unfold book_row. destruct (is_settlement f); split_and!; try done; simpl; unfold upd; by rewrite length_alter.
Qed.

Lemma book_on_row_ok i f slot t sym :
  inst_ok t -> inst_find t sym = Some i -> inst_ok (book_on_row i f slot t).1.1.
Proof.
  intros W E. destruct (found_row t sym i W E) as (Hi & r & Hr & Hat & _ & Hpos).
  unfold book_on_row. rewrite Hat. pose proof (book_row_touched f slot r Hpos) as HT.
  destruct (book_row f slot r) as [[r1 add] fl]. by apply (touch_refresh_ok t i r).
Qed.

Lemma bound_at spec t t' i :
  inst_ok t -> in_u32 (sp_sym spec) -> bind_instrument spec t = (t', Ok tt) ->
  inst_find t' (sp_sym spec) = Some i -> inst_rows t' !! i = Some (bound_row spec).
Proof.
  intros W Hu E Hf. pose proof (bind_ok spec t Hu W) as W'. rewrite E in W'. simpl in W'.
  destruct W as [K R]. destruct (bind_instrument_ok_form spec t t' K (ro_len _ t R) E)
    as (_ & _ & Hroom & p & Hp & Hlo & Hhi & ->).
  assert (length (inst_keys t) = LEDGER_INSTRUMENTS) as Lk by apply K.
  assert (length (inst_rows t) = LEDGER_INSTRUMENTS) as Lr by apply R.
  apply inst_find_Some in Hf as [Hi He]; [|apply W']. simpl in Hi, He. cbn [inst_rows].
  rewrite key_at_inserted in He by lia. rewrite inserted_lookup by lia.
  destruct (Nat.ltb_spec i p); [specialize (Hlo i ltac:(lia)); lia|].
  destruct (Nat.eqb_spec i p); [done|]. destruct (Nat.leb_spec i (inst_n t)); [|lia].
  specialize (Hhi (pred i) ltac:(lia)). lia.
Qed.

Lemma bind_perp_ok sym slot t : in_u32 sym -> inst_ok t -> inst_ok (bind_perp sym slot t).1.
Proof.
  intros Hu W. unfold bind_perp. destruct (_ <=? slot); [done|]. destruct (_ <=? _)%nat; [done|].
  set (spec := owned_by slot (spec_new sym LAW_LINEAR 0 0 0)).
  pose proof (bind_ok spec t Hu W) as W1. destruct (bind_instrument spec t) as [t1 [[]|e]] eqn:E; [|done].
  simpl in W1. destruct (inst_find t1 sym) as [i|] eqn:Ef; [|done].
  pose proof (bound_at spec t t1 i W Hu E Ef) as Hr.
  destruct (found_row t1 sym i W1 Ef) as (Hi & _). unfold row_at. rewrite Hr. cbn [default from_option id fst].
  set (r1 := set_flags _ (bound_row spec)).
  assert (touched (bound_row spec) r1) as HT by (split_and!; try done; apply length_replicate).
  destruct (touch_rows t1 i _ r1 W1 Hr HT) as [_ HR]. specialize (HR (flat_row_cached r1 eq_refl eq_refl eq_refl)).
  pose proof (touch_keys t1 i _ r1 (proj1 W1) Hi Hr eq_refl) as HK.
  destruct HK, HR. by split; constructor.
Qed.

Lemma perp_find_inst t sym i : perp_find t sym = Some i -> inst_find t sym = Some i.
Proof.
  unfold perp_find. destruct (_ =? _)%nat; [done|]. destruct (inst_find t sym); [|done].
  destruct (has_flag _ _); [|done]. by intros [= ->].
Qed.

Lemma seed_row_ok sym pos px day t : inst_ok t -> inst_ok (seed_row sym pos px day t).1.
Proof.
  intros W. unfold seed_row. destruct (perp_find t sym) as [i|] eqn:E; [|done]. apply perp_find_inst in E.
  destruct (found_row t sym i W E) as (Hi & r & Hr & -> & _ & Hpos).
  destruct (has_flag _ _); [done|]. destruct (_ || _); [done|]. destruct (_ <=? _)%nat; [done|].
  apply (touch_refresh_ok t i r); try done. split_and!; try done. simpl. by rewrite length_upd.
Qed.

(** Everything that moves an instrument row. *)
Inductive InstOp : Type :=
| I_bind (spec : InstrumentSpec)
| I_bind_perp (sym slot : Z)
| I_seed (sym pos avg_px day_open : Z)
| I_mark (sym mark index ts_ns : Z)
| I_summary (o : OptSummary)
| I_expire (now_ns : Z)
| I_fill (f : Fill) (slot : nat).

Definition run_inst (t : Inst) (op : InstOp) : Inst :=
  match op with
  | I_bind spec => (bind_instrument spec t).1
  | I_bind_perp sym slot => (bind_perp sym slot t).1
  | I_seed sym pos px day => (seed_row sym pos px day t).1
  | I_mark sym mark index ts => on_mark sym mark index ts t
  | I_summary o => on_opt_summary o t
  | I_expire now => expire_marks now t
  | I_fill f slot =>
      match inst_find t (fl_sym f) with Some i => (book_on_row i f slot t).1.1 | None => t end
  end.

(** The width of the ids a boot binds. *)
Definition inst_op_ok (op : InstOp) : Prop :=
  match op with I_bind spec => in_u32 (sp_sym spec) | I_bind_perp sym _ => in_u32 sym | _ => True end.

Lemma run_inst_ok t op : inst_op_ok op -> inst_ok t -> inst_ok (run_inst t op).
Proof.
  intros Hop W. destruct op; simpl.
  - by apply bind_ok.
  - by apply bind_perp_ok.
  - by apply seed_row_ok.
  - by apply on_mark_ok.
  - by apply on_opt_summary_ok.
  - by apply expire_marks_ok.
  - destruct (inst_find t (fl_sym f)) as [i|] eqn:E; [|done]. by eapply book_on_row_ok.
Qed.

Lemma runs_inst_ok ops : Forall inst_op_ok ops -> inst_ok (foldl run_inst Inst_new ops).
Proof.
  intros H. apply foldl_keeps; [|apply Inst_new_ok]. intros t op Hop. apply run_inst_ok.
  by eapply Forall_forall in H.
Qed.

(** C6. After any sequence of binds, seeds, marks, option summaries,
    expiries and fills, each slot's incrementally kept instrument exposure
    equals the sum of every row's exposure recomputed from its position and
    prices, the unmarked count equals the number of linear rows with a
    position no mark prices, and the sum fits an i64. *)
Theorem instrument_aggregates_never_drift ops slot :
  Forall inst_op_ok ops -> (slot < EXEC_SLOTS)%nat ->
  let t := foldl run_inst Inst_new ops in
  instrument_exposure_1e6 t slot = sumZ (fun r => exposure_ctx r (get (ir_pos r) slot)) (inst_rows t) /\
  unmarked_positions t slot =
    Z.of_nat (countb (fun r => is_bare r && negb (get (ir_pos r) slot =? 0)) (inst_rows t)) /\
  in_i64 (instrument_exposure_1e6 t slot).
Proof.
  intros Hops Hs t. destruct (runs_inst_ok ops Hops) as [K R]. fold t in K, R.
  assert (forall r, r ∈ inst_rows t -> get (ir_exp r) slot = exposure_ctx r (get (ir_pos r) slot) /\
    Z.testbit (ir_unmarked r) (Z.of_nat slot) = is_bare r && negb (get (ir_pos r) slot =? 0)) as Hc.
  { intros r Hr. apply list_elem_of_lookup in Hr as [i Hi]. by apply (ro_cached _ _ R i r Hi I). }
  unfold instrument_exposure_1e6, unmarked_positions. destruct (Nat.leb_spec EXEC_SLOTS slot); [lia|].
  rewrite (ro_sum _ _ R slot Hs), (ro_count _ _ R slot Hs). split_and!.
  - apply sumZ_ext. intros r Hr. by apply Hc.
  - unfold unmarked_count. f_equal. apply countb_ext. intros r Hr. by apply Hc.
  - transitivity 0; [done|]. apply sumZ_nonneg. intros r Hr. destruct (Hc r Hr) as [-> _]. apply exposure_ctx_range.
  - pose proof (sumZ_le (fun r => get (ir_exp r) slot) (inst_rows t) INST_EXPOSURE_MAX) as B.
    rewrite (ro_len _ _ R) in B. pose proof instruments_fit. unfold exp_sum.
    enough (sumZ (fun r => get (ir_exp r) slot) (inst_rows t) <= Z.of_nat LEDGER_INSTRUMENTS * INST_EXPOSURE_MAX) by lia.
    apply B. intros r Hr. destruct (Hc r Hr) as [-> _]. apply exposure_ctx_range.
Qed.

Definition sample_inst : list InstOp :=
  [I_bind (spec_new 9 LAW_LINEAR 0 0 0); I_bind (spec_new 4 LAW_OPTION 3 1000000 50000000);
   I_bind_perp 6 3; I_mark 9 2000000 2000000 5;
   I_fill (mkFill 1 9 Ask 3 0 0 3000000 4000000 1) 3;
   I_fill (mkFill 1 6 Bid 3 0 0 7000000 1000000 1) 3; I_expire 40000000000].

Lemma instrument_aggregates_never_drift_witness :
  let t := foldl run_inst Inst_new sample_inst in
  instrument_exposure_1e6 t 3 = 19000000 /\ unmarked_positions t 3 = 1 /\
  sumZ (fun r => exposure_ctx r (get (ir_pos r) 3)) (inst_rows t) = 19000000.
Proof.
  assert (instrument_exposure_1e6 (foldl run_inst Inst_new sample_inst) 3 = 19000000) as E
    by (vm_compute; reflexivity).
  split_and!; [exact E|vm_compute; reflexivity|]. rewrite <- E. symmetry.
  apply (instrument_aggregates_never_drift sample_inst 3).
  - repeat constructor; unfold u32_max; simpl; lia.
  - unfold EXEC_SLOTS. lia.
Defined.

(** After any sequence of operations the key array is strictly
    ascending over its bound prefix, and the branchless fixed-step search
    returns exactly what a linear scan of the bound ids would, always a row
    that carries the id. *)
Theorem instrument_search_is_a_scan ops sym :
  Forall inst_op_ok ops ->
  let t := foldl run_inst Inst_new ops in
  inst_find t sym = find_by_scan t sym /\
  (forall i, inst_find t sym = Some i ->
     (i < inst_n t)%nat /\ exists r, inst_rows t !! i = Some r /\ ir_sym r = sym) /\
  (forall i j, (i < j < inst_n t)%nat -> key_at (inst_keys t) i < key_at (inst_keys t) j).
Proof.
  intros Hops t. pose proof (runs_inst_ok ops Hops : inst_ok t) as W. split_and!.
  - apply find_is_scan, W.
  - intros i Hi. destruct (found_row t sym i W Hi) as (? & r & ? & _ & ? & _). split; [done|]. by exists r.
  - apply (ko_sorted t (proj1 W)).
Qed.

Lemma instrument_search_is_a_scan_witness :
  let t := foldl run_inst Inst_new sample_inst in
  inst_find t 6 = Some 1%nat /\ find_by_scan t 6 = Some 1%nat.
Proof.
  assert (inst_find (foldl run_inst Inst_new sample_inst) 6 = Some 1%nat) as E by (vm_compute; reflexivity).
  destruct (instrument_search_is_a_scan sample_inst 6) as [H _].
  - repeat constructor; unfold u32_max; simpl; lia.
  - split; [exact E|exact (eq_trans (eq_sym H) E)].
Defined.
