(* ===== verification/Ledger.v ===== *)
(** * [crates/exec-router/src/ledger.rs]: the router's ledger

    The family rows (HIP-4 outcomes), the day epoch, the seeding interlock,
    the fill path and the probe of an order on an instrument row, over the
    two tables of [LedgerResting] and [LedgerInst]. The fields of
    [LedgerCounters] those tables bump live there. *)

From S2P Require Import Prelude CoreTypes Clock LedgerBase LedgerResting LedgerInst.

Local Open Scope machine_scope.

Definition FAMILY_NONE : Z := 255.

Record FamilyRow := mkFamilyRow {
  fr_sym_yes : Z;
  fr_sym_no : Z;
  fr_outcome : Z;
  fr_family : Z;
  fr_venue : Z;
  fr_settled : bool;
  fr_yes : list Z;
  fr_no : list Z
}.

Definition family_free : FamilyRow :=
  mkFamilyRow SYMBOL_ID_NONE SYMBOL_ID_NONE 0 FAMILY_NONE 0 false
    (replicate EXEC_SLOTS 0) (replicate EXEC_SLOTS 0).

Definition is_bound (r : FamilyRow) : bool := negb (fr_family r =? FAMILY_NONE).

Record LedgerCounters := mkLedgerCounters {
  fills_booked : Z;
  fills_unbound : Z;
  fills_unattributed : Z;
  binds_refused : Z;
  settles_unmatched : Z;
  sells_below_zero : Z;
  binds : Z;
  instances_cleared : Z;
  day_rollovers : Z
}.

Inductive lcounter : Type :=
| L_booked | L_unbound | L_unattributed | L_binds_refused | L_settles_unmatched
| L_below_zero | L_binds | L_cleared | L_rollovers.

Definition lbump (k : lcounter) (c : LedgerCounters) : LedgerCounters :=
  let i k' v := match k, k' with
    | L_booked, L_booked | L_unbound, L_unbound | L_unattributed, L_unattributed
    | L_binds_refused, L_binds_refused | L_settles_unmatched, L_settles_unmatched
    | L_below_zero, L_below_zero | L_binds, L_binds | L_cleared, L_cleared
    | L_rollovers, L_rollovers => tick_up v
    | _, _ => v end in
  mkLedgerCounters (i L_booked (fills_booked c)) (i L_unbound (fills_unbound c))
    (i L_unattributed (fills_unattributed c)) (i L_binds_refused (binds_refused c))
    (i L_settles_unmatched (settles_unmatched c)) (i L_below_zero (sells_below_zero c))
    (i L_binds (binds c)) (i L_cleared (instances_cleared c)) (i L_rollovers (day_rollovers c)).

Record Ledger := mkLedger {
  rows : list FamilyRow;
  resting : Resting;
  inst : Inst;
  day_turnover : list Z;
  perp_day_open : list Z;
  day_epoch : Z;
  boot_anchor : WallAnchor;
  seeded : Z;
  lcounters : LedgerCounters
}.

Definition Ledger_new (a : WallAnchor) : Ledger :=
  mkLedger (replicate LEDGER_ROWS family_free) Resting_new Inst_new
    (replicate EXEC_SLOTS 0) (replicate EXEC_SLOTS 0) 0 a 0 (mkLedgerCounters 0 0 0 0 0 0 0 0 0).

Definition set_frows (rs : list FamilyRow) (l : Ledger) : Ledger :=
  mkLedger rs (resting l) (inst l) (day_turnover l) (perp_day_open l) (day_epoch l) (boot_anchor l) (seeded l) (lcounters l).
Definition set_resting (r : Resting) (l : Ledger) : Ledger :=
  mkLedger (rows l) r (inst l) (day_turnover l) (perp_day_open l) (day_epoch l) (boot_anchor l) (seeded l) (lcounters l).
Definition set_inst (t : Inst) (l : Ledger) : Ledger :=
  mkLedger (rows l) (resting l) t (day_turnover l) (perp_day_open l) (day_epoch l) (boot_anchor l) (seeded l) (lcounters l).
Definition set_day (turn open : list Z) (e : Z) (l : Ledger) : Ledger :=
  mkLedger (rows l) (resting l) (inst l) turn open e (boot_anchor l) (seeded l) (lcounters l).
Definition set_seeded (s : Z) (l : Ledger) : Ledger :=
  mkLedger (rows l) (resting l) (inst l) (day_turnover l) (perp_day_open l) (day_epoch l) (boot_anchor l) s (lcounters l).
Definition lcount (k : lcounter) (l : Ledger) : Ledger :=
  mkLedger (rows l) (resting l) (inst l) (day_turnover l) (perp_day_open l) (day_epoch l) (boot_anchor l) (seeded l)
    (lbump k (lcounters l)).

(** ** The seeding interlock *)

Definition mark_seeded (l : Ledger) : Ledger := set_seeded u16_max l.

Definition mark_slot_seeded (slot : nat) (l : Ledger) : Ledger :=
  if (slot <? EXEC_SLOTS)%nat then set_seeded (Z.lor (seeded l) (Z.shiftl 1 (Z.of_nat slot))) l else l.

Definition is_seeded (l : Ledger) : bool := negb (seeded l =? 0).

Definition is_slot_seeded (l : Ledger) (slot : nat) : bool :=
  (slot <? EXEC_SLOTS)%nat && negb (Z.land (seeded l) (Z.shiftl 1 (Z.of_nat slot)) =? 0).

(** ** Exposure *)

Definition apply (leg qty : Z) (buy : bool) : Z * bool :=
  if buy then (leg +| qty, false)
  else
    let v := leg -| qty in
    if v <? 0 then (0, true) else (v, false).

Definition family_exposure (l : Ledger) (slot : nat) : Z :=
  if (EXEC_SLOTS <=? slot)%nat then 0
  else
    foldl (fun total r =>
      if is_bound r then total +| net_exposure_1e8 (get (fr_yes r) slot) (get (fr_no r) slot) else total)
      0 (rows l).

Definition slot_exposure_1e6 (l : Ledger) (slot : nat) : Z :=
  if (EXEC_SLOTS <=? slot)%nat then 0
  else family_exposure l slot +| get (inst_exposure_1e6 (inst l)) slot.

(** One row's turn of the projection: the running sum, and whether a leg was hit. *)
Definition project_row (slot : nat) (sym qty : Z) (buy : bool) (st : Z * bool) (r : FamilyRow) : Z * bool :=
  let '(total, hit) := st in
  if is_bound r then
    let yes := get (fr_yes r) slot in
    let no := get (fr_no r) slot in
    if sym =? fr_sym_yes r then (total +| net_exposure_1e8 (apply yes qty buy).1 no, true)
    else if sym =? fr_sym_no r then (total +| net_exposure_1e8 yes (apply no qty buy).1, true)
    else (total +| net_exposure_1e8 yes no, hit)
  else st.

Definition projected_exposure_1e6 (l : Ledger) (slot : nat) (sym qty : Z) (buy : bool) : Z :=
  if (EXEC_SLOTS <=? slot)%nat then 0
  else
    let '(total, hit) := foldl (project_row slot sym qty buy) (0, false) (rows l) in
    (if negb hit && buy then total +| qty else total) +| get (inst_exposure_1e6 (inst l)) slot.

Definition slot_day_turnover_1e6 (l : Ledger) (slot : nat) : Z :=
  if (EXEC_SLOTS <=? slot)%nat then 0 else get (day_turnover l) slot.

Definition perp_day_open_1e6 (l : Ledger) (slot : nat) : Z :=
  if (EXEC_SLOTS <=? slot)%nat then 0 else get (perp_day_open l) slot.

Definition has_leg (sym : Z) (r : FamilyRow) : bool :=
  is_bound r && ((sym =? fr_sym_yes r) || (sym =? fr_sym_no r)).

Definition held_on_sym_1e6 (l : Ledger) (slot : nat) (sym : Z) : Z :=
  if (EXEC_SLOTS <=? slot)%nat then 0
  else
    match first_index (has_leg sym) (rows l) with
    | None => 0
    | Some i =>
        let r := default family_free (rows l !! i) in
        if sym =? fr_sym_yes r then get (fr_yes r) slot else get (fr_no r) slot
    end.

Definition position_1e6 (l : Ledger) (slot : nat) (outcome : Z) : option (Z * Z) :=
  if (EXEC_SLOTS <=? slot)%nat then None
  else
    match first_index (fun r => is_bound r && (fr_outcome r =? outcome)) (rows l) with
    | None => None
    | Some i =>
        let r := default family_free (rows l !! i) in Some (get (fr_yes r) slot, get (fr_no r) slot)
    end.

(** ** The day epoch *)

Definition roll_day (wall_ns : Z) (l : Ledger) : Ledger :=
  if wall_ns =? 0 then l
  else
    let epoch := wall_ns / DAY_NS in
    if day_epoch l =? 0 then set_day (day_turnover l) (perp_day_open l) epoch l
    else if day_epoch l <? epoch then
      lcount L_rollovers (set_day (replicate EXEC_SLOTS 0) (replicate EXEC_SLOTS 0) epoch l)
    else l.

Definition adopt_venue_day_turnover (slot : nat) (day bought : Z) (l : Ledger) : Ledger :=
  if (EXEC_SLOTS <=? slot)%nat || (day =? 0) then l
  else if negb (day_epoch l =? 0) && (day <? day_epoch l) then l
  else
    let l1 := roll_day (sat_u64 (day * DAY_NS)) l in
    if get (day_turnover l1) slot <? bought
    then set_day (upd (fun _ => bought) slot (day_turnover l1)) (perp_day_open l1) (day_epoch l1) l1
    else l1.

Definition observe_mono_clock (mono : Z) (l : Ledger) : Ledger :=
  if mono =? 0 then l else roll_day (wall_of (boot_anchor l) mono) l.

(** ** Rolls *)

Definition refuse_roll (l : Ledger) : Ledger := lcount L_binds_refused l.

Definition retire_row (i : nat) (outcome sym_yes sym_no : Z) (l : Ledger) : Ledger :=
  let r := default family_free (rows l !! i) in
  let l1 := set_resting (drop_resting_on (fr_sym_yes r) (fr_sym_no r) (resting l)) l in
  let r1 := mkFamilyRow sym_yes sym_no outcome (fr_family r) (fr_venue r) false
              (replicate EXEC_SLOTS 0) (replicate EXEC_SLOTS 0) in
  lcount L_binds (lcount L_cleared (set_frows (<[i := r1]> (rows l1)) l1)).

Definition bind (venue : Z) (family : nat) (outcome sym_yes : Z) (l : Ledger) : Ledger :=
  if (outcome =? 0) || (sym_yes =? SYMBOL_ID_NONE) || (LEDGER_ROWS <=? family)%nat
  then lcount L_binds_refused l
  else if SYMBOL_ORDINAL_MASK <=? symbol_ordinal sym_yes then lcount L_binds_refused l
  else
    let sym_no := sym_yes + 1 in
    match first_index (fun r => is_bound r && (fr_family r =? Z.of_nat family) && (fr_venue r =? venue)) (rows l) with
    | Some i =>
        let r := default family_free (rows l !! i) in
        if (fr_outcome r =? outcome) && negb (fr_settled r) then l
        else retire_row i outcome sym_yes sym_no l
    | None =>
        match first_index (fun r => negb (is_bound r)) (rows l) with
        | None => lcount L_binds_refused l
        | Some free =>
            lcount L_binds (set_frows
              (<[free := mkFamilyRow sym_yes sym_no outcome (Z.of_nat family) venue false
                   (replicate EXEC_SLOTS 0) (replicate EXEC_SLOTS 0)]> (rows l)) l)
        end
    end.

Definition settled_row (r : FamilyRow) : FamilyRow :=
  mkFamilyRow (fr_sym_yes r) (fr_sym_no r) (fr_outcome r) (fr_family r) (fr_venue r) true (fr_yes r) (fr_no r).

Definition settle (venue outcome : Z) (l : Ledger) : Ledger :=
  if outcome =? 0 then lcount L_settles_unmatched l
  else
    match first_index (fun r => is_bound r && (fr_outcome r =? outcome) && (fr_venue r =? venue)) (rows l) with
    | None => lcount L_settles_unmatched l
    | Some i =>
        let r := default family_free (rows l !! i) in
        if fr_settled r then l
        else
          let l1 := set_resting (drop_resting_on (fr_sym_yes r) (fr_sym_no r) (resting l)) l in
          lcount L_cleared (set_frows (<[i := settled_row r]> (rows l1)) l1)
    end.

(** ** Boot seeds *)

Definition seed_perp (sym pos avg_px day_open : Z) (l : Ledger) : Ledger * result unit LedgerError :=
  match seed_row sym pos avg_px day_open (inst l) with
  | (t, Err e) => (set_inst t l, Err e)
  | (t, Ok slot) =>
      (set_day (upd (fun x => x +| day_open) slot (day_turnover l))
         (upd (fun x => x +| day_open) slot (perp_day_open l)) (day_epoch l) (set_inst t l), Ok tt)
  end.

(** ** Fills *)

(** [book_instrument_fill]. *)
Definition book_instrument_fill (i : nat) (f : Fill) (slot : nat) (l : Ledger) : Ledger :=
  let perp := has_flag (ir_flags (row_at (inst l) i)) INST_PERP in
  let '(t, add, floored) := book_on_row i f slot (inst l) in
  let l1 := set_inst t l in
  let l2 := if floored then lcount L_below_zero l1 else l1 in
  let l3 :=
    if is_settlement f then l2
    else set_day (upd (fun x => x +| add) slot (day_turnover l2))
           (if perp then upd (fun x => x +| add) slot (perp_day_open l2) else perp_day_open l2)
           (day_epoch l2) l2 in
  let l4 := lcount L_booked l3 in
  if negb (is_settlement f) && negb (is_adopted f)
  then set_resting (consume_resting (fl_order_id f) slot (fl_qty f) (resting l4)) l4
  else l4.

(** The row after a fill on one of its legs, and whether the floor was hit. *)
Definition book_leg (sym qty : Z) (buy : bool) (slot : nat) (r : FamilyRow) : FamilyRow * bool :=
  if sym =? fr_sym_yes r then
    let '(next, floored) := apply (get (fr_yes r) slot) qty buy in
    (mkFamilyRow (fr_sym_yes r) (fr_sym_no r) (fr_outcome r) (fr_family r) (fr_venue r) (fr_settled r)
       (upd (fun _ => next) slot (fr_yes r)) (fr_no r), floored)
  else
    let '(next, floored) := apply (get (fr_no r) slot) qty buy in
    (mkFamilyRow (fr_sym_yes r) (fr_sym_no r) (fr_outcome r) (fr_family r) (fr_venue r) (fr_settled r)
       (fr_yes r) (upd (fun _ => next) slot (fr_no r)), floored).

(** [i64::try_from(px * qty / 1e6).unwrap_or(i64::MAX)], the product in [i128]. *)
Definition notional_1e6 (px qty : Z) : Z :=
  let p := sat_i128 (px * qty) /t 1000000 in
  if (i64_min <=? p) && (p <=? i64_max) then p else i64_max.

Definition book_fill (f : Fill) (l0 : Ledger) : Ledger :=
  if negb (fl_origin f =? FILL_ORIGIN_VENUE) then l0
  else
    let l := roll_day (fl_ts_ns f) l0 in
    let slot := fl_strategy_id f in
    if (EXEC_SLOTS <=? slot)%nat then lcount L_unattributed l
    else
      match inst_find (inst l) (fl_sym f) with
      | Some i => book_instrument_fill i f slot l
      | None =>
          let buy := side_eqb (fl_side f) Bid in
          let '(l1, on_settled_row) :=
            match first_index (has_leg (fl_sym f)) (rows l) with
            | None => (lcount L_unbound l, false)
            | Some i =>
                let r := default family_free (rows l !! i) in
                let '(r1, floored) := book_leg (fl_sym f) (fl_qty f) buy slot r in
                let l' := set_frows (<[i := r1]> (rows l)) l in
                (if floored then lcount L_below_zero l' else l', fr_settled r)
            end in
          let l2 :=
            if buy && negb on_settled_row && negb (is_adopted f)
            then set_day (upd (fun x => x +| notional_1e6 (fl_px f) (fl_qty f)) slot (day_turnover l1))
                   (perp_day_open l1) (day_epoch l1) l1
            else l1 in
          let l3 := lcount L_booked l2 in
          if is_adopted f then l3
          else set_resting (consume_resting (fl_order_id f) slot (fl_qty f) (resting l3)) l3
      end.

(** ** The probe *)

Inductive InstRefusal : Type := RNone | RShort | RUnpriced | RForeign.

#[global] Instance inst_refusal_eq_dec : EqDecision InstRefusal.
Proof. solve_decision. Defined.

Record InstProbe := mkProbe {
  refusal : InstRefusal;
  exit : bool;
  measure_1e6 : Z;
  current_1e6 : Z;
  projected_1e6 : Z;
  turnover_add_1e6 : Z;
  inventory_now_1e6 : Z;
  inventory_next_1e6 : Z;
  resting_next_1e6 : Z
}.

Definition refused (why : InstRefusal) : InstProbe := mkProbe why false 0 0 0 0 0 0 0.
Definition is_exit : InstProbe := mkProbe RNone true 0 0 0 0 0 0 0.

(** A position an order of the side is against. *)
Definition against (pos : Z) (buy : bool) : bool := ((0 <? pos) && negb buy) || ((pos <? 0) && buy).

(** The law's four numbers: exposure now and next, the measure, the turnover. *)
Definition judge_law (r : InstrumentRow) (pos next qty inc px px_at : Z) (buy : bool)
  : result (Z * Z * Z * Z) InstRefusal :=
  let mag := sat_abs pos in
  if (ir_law r =? LAW_SPOT) || (ir_law r =? LAW_LINEAR) then
    if (ir_law r =? LAW_SPOT) && (next <? 0) then Err RShort
    else if px <=? 0 then Err RUnpriced
    else Ok (mul_1e6 mag px_at, mul_1e6 (sat_abs next) px_at, mul_1e6 qty px_at, mul_1e6 inc px_at)
  else if ir_law r =? LAW_INVERSE then
    Ok (mul_1e6 mag (ir_unit r), mul_1e6 (sat_abs next) (ir_unit r), mul_1e6 qty (ir_unit r), mul_1e6 inc (ir_unit r))
  else if ir_law r =? LAW_OPTION then
    if px <=? 0 then Err RUnpriced
    else if has_flag (ir_flags r) INST_STALE then Err RUnpriced
    else
      let m := ir_mark r in
      let opens_short := negb buy && (next <? 0) in
      if opens_short && negb (has_flag (ir_flags r) INST_WRITABLE) then Err RShort
      else if opens_short && (ir_index r <=? 0) then Err RUnpriced
      else
        let im := if (pos <? 0) || (next <? 0) then row_im r m else 0 in
        let e_now := if 0 <=? pos then mul_1e6 mag m else mul_1e6 mag im in
        let e_next := if 0 <=? next then mul_1e6 next m else mul_1e6 (sat_abs next) im in
        let measure := if buy then mul_1e6 qty px else mul_1e6 inc im in
        Ok (e_now, e_next, measure, mul_1e6 inc px_at)
  else Err RUnpriced.

(** The probe on row [r], given what the slot has working there:
    [(working, held, replaced)]. *)
Definition probe_row (l : Ledger) (r : InstrumentRow) (slot : nat) (qty : Z) (buy : bool) (px : Z)
    (work : Z * Z * Z) (perp : bool) : InstProbe :=
  let filled := get (ir_pos r) slot in
  let '(working, held, replaced) := work in
  let side_working := if perp then held else working in
  let worked := move_pos filled side_working buy in
  let pos := if against filled buy then worked else filled in
  let mag := sat_abs pos in
  let opposes := against pos buy in
  if opposes && (qty <=? mag) then is_exit
  else
    let inc := if opposes then qty - mag else qty in
    let next := move_pos pos qty buy in
    let px_at := one_price r buy px in
    match judge_law r pos next qty inc px px_at buy with
    | Err why => refused why
    | Ok (e_now, e_next, measure, turnover) =>
        let others := family_exposure l slot
          +| wrap_i64 (get (inst_exposure_1e6 (inst l)) slot - get (ir_exp r) slot) in
        let next_inv := move_pos worked qty buy in
        let cap_px := cap_price r px in
        mkProbe RNone false measure (others +| e_now) (others +| e_next) turnover
          (if perp then mul_1e6 (sat_abs worked) cap_px else 0)
          (if perp then mul_1e6 (sat_abs next_inv) cap_px else 0)
          (if perp then get (usd (resting l)) slot -| replaced +| mul_1e6 qty px else 0)
    end.

Definition probe (l : Ledger) (sym : Z) (slot : nat) (qty : Z) (buy : bool) (px : Z)
    (exclude : option Z) (perp : bool) : option InstProbe :=
  match inst_find (inst l) sym with
  | None => None
  | Some i =>
      let r := row_at (inst l) i in
      if negb (ir_owner r =? OWNER_NONE) && negb (ir_owner r =? Z.of_nat slot) then Some (refused RForeign)
      else if (EXEC_SLOTS <=? slot)%nat || (qty <=? 0) || (perp && negb (ir_law r =? LAW_LINEAR))
      then Some (refused RUnpriced)
      else
        let work :=
          if against (get (ir_pos r) slot) buy || perp
          then working_on slot sym buy exclude (resting l) else (0, 0, 0) in
        Some (probe_row l r slot qty buy px work perp)
  end.

Definition probe_instrument (l : Ledger) sym slot qty buy px exclude : option InstProbe :=
  probe l sym slot qty buy px exclude false.
Definition probe_perp (l : Ledger) sym slot qty buy px exclude : option InstProbe :=
  probe l sym slot qty buy px exclude true.
