(* ===== verification/LedgerProofs.v ===== *)
(** * Theorems of the router's ledger

    The whole ledger's invariant under every call, the projection the clamp
    uses against what the fill then books, the orders no money clamp may
    refuse, and the day epoch that only moves forward. *)

From S2P Require Import Prelude CoreTypes Clock LedgerBase LedgerResting RestingProofs LedgerInst InstProofs Ledger.

Local Open Scope machine_scope.

(** ** The family rows *)

Record frow_ok (r : FamilyRow) : Prop := {
  fo_yes : length (fr_yes r) = EXEC_SLOTS;
  fo_no : length (fr_no r) = EXEC_SLOTS;
  fo_long : forall s, (s < EXEC_SLOTS)%nat -> 0 <= get (fr_yes r) s <= i64_max /\ 0 <= get (fr_no r) s <= i64_max
}.

Definition same_family (r r' : FamilyRow) : Prop := fr_family r = fr_family r' /\ fr_venue r = fr_venue r'.

Record ledger_ok (l : Ledger) : Prop := {
  lo_rows : length (rows l) = LEDGER_ROWS;
  lo_each : Forall frow_ok (rows l);
  lo_key : forall i j r r', rows l !! i = Some r -> rows l !! j = Some r' ->
    is_bound r = true -> is_bound r' = true -> same_family r r' -> i = j;
  lo_resting : rt_ok (resting l);
  lo_inst : inst_ok (inst l);
  lo_turn : length (day_turnover l) = EXEC_SLOTS;
  lo_open : length (perp_day_open l) = EXEC_SLOTS
}.

Lemma flat_frow_ok y n o f v st :
  frow_ok (mkFamilyRow y n o f v st (replicate EXEC_SLOTS 0) (replicate EXEC_SLOTS 0)).
Proof.
  constructor; [apply length_replicate..|]. intros s Hs. cbn [fr_yes fr_no]. rewrite !get_repeat by done.
  unfold i64_max. lia.
Qed.

(** Replacing a row by one of the same family. *)
Lemma set_row_ok l i r r1 :
  ledger_ok l -> rows l !! i = Some r -> frow_ok r1 ->
  (is_bound r = true -> is_bound r1 = true -> same_family r r1) ->
  (is_bound r = false -> is_bound r1 = true ->
    forall j r', rows l !! j = Some r' -> is_bound r' = true -> ~ same_family r1 r') ->
  ledger_ok (set_frows (<[i := r1]> (rows l)) l).
Proof.
  intros [L1 L2 L3 L4 L5 L6 L7] Hr Hok Hsame Hnew. constructor; simpl; try done.
  - by rewrite length_insert.
  - by apply Forall_insert.
  - assert (forall j r', rows l !! j = Some r' -> i <> j -> is_bound r1 = true -> is_bound r' = true ->
      same_family r1 r' -> False) as Hclash.
    { intros j r' Hj Hne B1 Bj Hsf. destruct (is_bound r) eqn:B.
      - apply Hne. apply (L3 i j r r'); try done. destruct (Hsame eq_refl B1), Hsf. split; congruence.
      - by apply (Hnew eq_refl B1 j r'). }
    intros j k a b Hj Hk Ba Bb Hs.
    apply list_lookup_insert_Some in Hj as [(-> & <- & _)|[Hnj Hj]];
    apply list_lookup_insert_Some in Hk as [(-> & <- & _)|[Hnk Hk]]; try done.
    + exfalso. by apply (Hclash k b).
    + exfalso. apply (Hclash j a); try done. destruct Hs. by split.
    + by apply (L3 j k a b).
Qed.

Lemma lcount_ok k l : ledger_ok l -> ledger_ok (lcount k l).
Proof. intros []. by constructor. Qed.

Lemma set_resting_ok r l : rt_ok r -> ledger_ok l -> ledger_ok (set_resting r l).
Proof. intros ? []. by constructor. Qed.

Lemma set_inst_ok t l : inst_ok t -> ledger_ok l -> ledger_ok (set_inst t l).
Proof. intros ? []. by constructor. Qed.

Lemma set_day_ok a b e l : length a = EXEC_SLOTS -> length b = EXEC_SLOTS -> ledger_ok l -> ledger_ok (set_day a b e l).
Proof. intros ?? []. by constructor. Qed.

Lemma roll_day_ok w l : ledger_ok l -> ledger_ok (roll_day w l).
Proof.
  intros W. unfold roll_day. destruct (w =? 0); [done|]. destruct (day_epoch l =? 0).
  - apply set_day_ok; [apply W..|done].
  - destruct (_ <? _); [|done]. apply lcount_ok, set_day_ok; [apply length_replicate..|done].
Qed.

Lemma apply_long leg qty buy : 0 <= qty -> 0 <= leg <= i64_max -> 0 <= (apply leg qty buy).1 <= i64_max.
Proof.
  intros Hq Hl. unfold apply. destruct buy; simpl; [ilia|].
  destruct (Z.ltb_spec (sat_i64 (leg - qty)) 0); simpl; unfold_int; lia.
Qed.

Lemma upd_long v slot l :
  (forall s, (s < EXEC_SLOTS)%nat -> 0 <= get l s <= i64_max) -> length l = EXEC_SLOTS -> 0 <= v <= i64_max ->
  forall s, (s < EXEC_SLOTS)%nat -> 0 <= get (upd (fun _ => v) slot l) s <= i64_max.
Proof.
  intros H Hl Hv s Hs. destruct (decide (slot = s)) as [->|Hne]; [rewrite get_upd; lia|rewrite get_upd_ne by done].
  by apply H.
Qed.

Lemma book_leg_ok sym qty buy slot r : 0 <= qty -> (slot < EXEC_SLOTS)%nat -> frow_ok r ->
  frow_ok (book_leg sym qty buy slot r).1.
Proof.
  intros Hq Hs [F1 F2 F3]. unfold book_leg.
  pose proof (apply_long (get (fr_yes r) slot) qty buy Hq ltac:(by apply F3)) as Hy.
  pose proof (apply_long (get (fr_no r) slot) qty buy Hq ltac:(by apply F3)) as Hn.
  destruct (sym =? fr_sym_yes r).
  - destruct (apply (get (fr_yes r) slot) qty buy) as [next fl]. simpl in Hy.
    constructor; simpl; [by rewrite length_upd|done|]. intros s Hs'. split; [|by apply F3].
    apply upd_long; try done. intros s0 Hs0. by apply F3.
  - destruct (apply (get (fr_no r) slot) qty buy) as [next fl]. simpl in Hn.
    constructor; simpl; [done|by rewrite length_upd|]. intros s Hs'. split; [by apply F3|].
    apply upd_long; try done. intros s0 Hs0. by apply F3.
Qed.

Lemma book_leg_family sym qty buy slot r : same_family r (book_leg sym qty buy slot r).1 /\
  is_bound (book_leg sym qty buy slot r).1 = is_bound r.
Proof. unfold book_leg. destruct (sym =? fr_sym_yes r); by destruct (apply _ _ _). Qed.

Lemma row_default l i r : rows l !! i = Some r -> default family_free (rows l !! i) = r.
Proof. by intros ->. Qed.

Lemma retire_row_ok i o y n l r :
  ledger_ok l -> rows l !! i = Some r -> is_bound r = true -> ledger_ok (retire_row i o y n l).
Proof.
  intros W Hr Hb. unfold retire_row. rewrite (row_default l i r Hr). apply lcount_ok, lcount_ok.
  apply (set_row_ok _ i r).
  - apply set_resting_ok; [apply release_where_ok; apply W|done].
  - done.
  - apply flat_frow_ok.
  - done.
  - congruence.
Qed.

Lemma bind_ledger_ok venue family outcome sym l :
  ledger_ok l -> ledger_ok (bind venue family outcome sym l).
Proof.
  intros W. unfold bind. destruct (_ || _ || _); [by apply lcount_ok|].
  destruct (_ <=? _); [by apply lcount_ok|].
  destruct (first_index _ (rows l)) as [i|] eqn:Ef.
  - destruct (first_index_Some _ _ _ Ef) as (r & Hr & Hp & _). rewrite (row_default l i r Hr).
    destruct ((fr_outcome r =? outcome) && negb (fr_settled r)); [exact W|]. apply (retire_row_ok i _ _ _ l r); [done..|].
    apply andb_true_iff in Hp as [Hp _]. by apply andb_true_iff in Hp as [Hp _].
  - destruct (first_index (fun r => negb (is_bound r)) (rows l)) as [free|] eqn:Eg; [|by apply lcount_ok].
    destruct (first_index_Some _ _ _ Eg) as (r & Hr & Hp & _). apply negb_true_iff in Hp.
    apply lcount_ok, (set_row_ok l free r); [done|done|apply flat_frow_ok|congruence|].
    intros _ _ j r' Hj Hb [Hf Hv]. rewrite first_index_None in Ef.
    specialize (Ef r' ltac:(by eapply list_elem_of_lookup_2)). simpl in Hf, Hv.
    rewrite Hb, <- Hf, <- Hv, !Z.eqb_refl in Ef. done.
Qed.

Lemma settle_ok venue outcome l : ledger_ok l -> ledger_ok (settle venue outcome l).
Proof.
  intros W. unfold settle. destruct (outcome =? 0); [by apply lcount_ok|].
  destruct (first_index _ (rows l)) as [i|] eqn:Ef; [|by apply lcount_ok].
  destruct (first_index_Some _ _ _ Ef) as (r & Hr & Hp & _). rewrite (row_default l i r Hr).
  destruct (fr_settled r); [done|]. apply lcount_ok.
  pose proof (Forall_lookup_1 _ _ _ _ (lo_each l W) Hr) as Hok.
  apply (set_row_ok _ i r).
  - apply set_resting_ok; [apply release_where_ok; apply W|done].
  - done.
  - by destruct Hok; constructor.
  - done.
  - apply andb_true_iff in Hp as [Hp _]. apply andb_true_iff in Hp as [Hp _]. congruence.
Qed.

(** ** Fills *)

Lemma book_instrument_fill_ok i f slot l :
  ledger_ok l -> inst_find (inst l) (fl_sym f) = Some i -> ledger_ok (book_instrument_fill i f slot l).
Proof.
  intros W E. unfold book_instrument_fill.
  pose proof (book_on_row_ok i f slot (inst l) (fl_sym f) (lo_inst l W) E) as Ht.
  destruct (book_on_row i f slot (inst l)) as [[t add] floored]. simpl in Ht.
  assert (ledger_ok (set_inst t l)) as W1 by (by apply set_inst_ok).
  set (l2 := if floored then lcount L_below_zero (set_inst t l) else set_inst t l).
  assert (ledger_ok l2) as W2 by (unfold l2; destruct floored; [by apply lcount_ok|done]).
  set (l3 := if is_settlement f then l2 else _).
  assert (ledger_ok l3) as W3.
  { unfold l3. destruct (is_settlement f); [done|]. apply set_day_ok; [by rewrite length_upd; apply W2| |done].
    destruct (has_flag _ _); [by rewrite length_upd; apply W2|apply W2]. }
  pose proof (lcount_ok L_booked l3 W3) as W4.
  destruct (negb (is_settlement f) && negb (is_adopted f)); [|done].
  apply set_resting_ok; [|done]. apply consume_ok, W4.
Qed.

(** The part of [book_fill] a family leg takes. *)
Lemma book_family_ok f l : 0 <= fl_qty f -> (fl_strategy_id f < EXEC_SLOTS)%nat -> ledger_ok l ->
  forall i r, rows l !! i = Some r ->
  ledger_ok (set_frows (<[i := (book_leg (fl_sym f) (fl_qty f) (side_eqb (fl_side f) Bid) (fl_strategy_id f) r).1]> (rows l)) l).
Proof.
  intros Hq Hs W i r Hr. pose proof (Forall_lookup_1 _ _ _ _ (lo_each l W) Hr) as Hok.
  destruct (book_leg_family (fl_sym f) (fl_qty f) (side_eqb (fl_side f) Bid) (fl_strategy_id f) r) as [Hf Hb].
  apply (set_row_ok l i r); [done|done|by apply book_leg_ok|done|]. rewrite Hb. congruence.
Qed.

Lemma book_fill_ok f l : 0 <= fl_qty f -> ledger_ok l -> ledger_ok (book_fill f l).
Proof.
  intros Hq W0. unfold book_fill. destruct (negb _); [done|].
  pose proof (roll_day_ok (fl_ts_ns f) l W0) as W. revert W. generalize (roll_day (fl_ts_ns f) l). intros l1 W.
  destruct (Nat.leb_spec EXEC_SLOTS (fl_strategy_id f)); [by apply lcount_ok|].
  destruct (inst_find (inst l1) (fl_sym f)) as [i|] eqn:E; [by apply book_instrument_fill_ok|].
  set (st := match first_index (has_leg (fl_sym f)) (rows l1) with Some i => _ | None => _ end).
  assert (ledger_ok st.1) as W1.
  { unfold st. destruct (first_index _ _) as [i|] eqn:Ef; [|by apply lcount_ok].
    destruct (first_index_Some _ _ _ Ef) as (r & Hr & _). rewrite (row_default l1 i r Hr).
    pose proof (book_family_ok f l1 Hq ltac:(lia) W i r Hr) as H1.
    destruct (book_leg _ _ _ _ r) as [r1 fl]. simpl in H1. destruct fl; [by apply lcount_ok|done]. }
  destruct st as [l2 settled_r]. simpl in W1.
  set (l3 := if _ && _ && _ then _ else l2).
  assert (ledger_ok l3) as W3.
  { unfold l3. destruct (_ && _ && _); [|done]. apply set_day_ok; [by rewrite length_upd; apply W1|apply W1|done]. }
  pose proof (lcount_ok L_booked l3 W3) as W4. destruct (is_adopted f); [done|].
  apply set_resting_ok; [|done]. apply consume_ok, W4.
Qed.

Lemma adopt_ok slot day b l : ledger_ok l -> ledger_ok (adopt_venue_day_turnover slot day b l).
Proof.
  intros W. unfold adopt_venue_day_turnover. destruct (_ || _); [done|]. destruct (_ && _); [done|].
  pose proof (roll_day_ok (sat_u64 (day * DAY_NS)) l W) as W1. destruct (_ <? b); [|done].
  apply set_day_ok; [by rewrite length_upd; apply W1|apply W1|done].
Qed.

(** ** Everything the router calls *)

Inductive LedgerOp : Type :=
| O_bind (venue : Z) (family : nat) (outcome sym_yes : Z)
| O_settle (venue outcome : Z)
| O_refuse_roll
| O_fill (f : Fill)
| O_rest (op : RestOp)
| O_inst (op : InstOp)
| O_seed_perp (sym pos avg_px day_open : Z)
| O_adopt (slot : nat) (day bought : Z)
| O_clock (mono : Z)
| O_seeded
| O_slot_seeded (slot : nat).

Definition run_ledger (l : Ledger) (op : LedgerOp) : Ledger :=
  match op with
  | O_bind venue family outcome sym => bind venue family outcome sym l
  | O_settle venue outcome => settle venue outcome l
  | O_refuse_roll => refuse_roll l
  | O_fill f => book_fill f l
  | O_rest op => set_resting (run_rest (resting l) op) l
  | O_inst op => set_inst (run_inst (inst l) op) l
  | O_seed_perp sym pos px day => (seed_perp sym pos px day l).1
  | O_adopt slot day bought => adopt_venue_day_turnover slot day bought l
  | O_clock mono => observe_mono_clock mono l
  | O_seeded => mark_seeded l
  | O_slot_seeded slot => mark_slot_seeded slot l
  end.

(** What the callers guarantee: a fill has a non-negative size and price, an
    id its width; fills reach the instrument rows through [O_fill] alone. *)
Definition ledger_op_ok (op : LedgerOp) : Prop :=
  match op with
  | O_fill f => 0 <= fl_qty f /\ 0 <= fl_px f
  | O_inst (I_fill _ _) => False
  | O_inst (I_seed _ _ _ _) => False
  | O_inst op => inst_op_ok op
  | _ => True
  end.

Lemma run_ledger_ok l op : ledger_op_ok op -> ledger_ok l -> ledger_ok (run_ledger l op).
Proof.
  intros Hop W. destruct op as [| | |f|op|op|sym pos px day|slot day b|mono| |slot]; simpl.
  - by apply bind_ledger_ok.
  - by apply settle_ok.
  - by apply lcount_ok.
  - apply book_fill_ok; [apply Hop|done].
  - apply set_resting_ok; [|done]. apply run_rest_ok, W.
  - apply set_inst_ok; [|done]. apply run_inst_ok; [by destruct op|apply W].
  - unfold seed_perp. pose proof (seed_row_ok sym pos px day (inst l) (lo_inst l W)) as Ht.
    destruct (seed_row sym pos px day (inst l)) as [t [slot|e]]; simpl in *; [|by apply set_inst_ok].
    apply set_day_ok; [by rewrite length_upd; apply W..|by apply set_inst_ok].
  - by apply adopt_ok.
  - unfold observe_mono_clock. destruct (mono =? 0); [done|by apply roll_day_ok].
  - destruct W. by constructor.
  - unfold mark_slot_seeded. destruct (_ <? _)%nat; [|done]. destruct W. by constructor.
Qed.

Lemma Ledger_new_ok a : ledger_ok (Ledger_new a).
Proof.
  assert (forall i r, rows (Ledger_new a) !! i = Some r -> r = family_free) as Hfree.
  { intros i r H. by apply lookup_replicate_1 in H as [-> _]. }
  constructor.
  - apply length_replicate.
  - apply Forall_lookup. intros i r H. rewrite (Hfree i r H). apply flat_frow_ok.
  - intros i j r r' H. rewrite (Hfree i r H). done.
  - apply Resting_new_ok.
  - apply Inst_new_ok.
  - apply length_replicate.
  - apply length_replicate.
Qed.

Lemma runs_ledger_ok a ops : Forall ledger_op_ok ops -> ledger_ok (foldl run_ledger (Ledger_new a) ops).
Proof.
  intros H. apply foldl_keeps; [|apply Ledger_new_ok]. intros l op Hop. apply run_ledger_ok.
  by eapply Forall_forall in H.
Qed.

(** Every reachable ledger keeps at most one row per (venue, family),
    legs that are never short, the resting table's accounts and the
    instrument rows' caches. *)
Theorem ledger_keeps_its_books a ops :
  Forall ledger_op_ok ops ->
  let l := foldl run_ledger (Ledger_new a) ops in
  ledger_ok l /\
  (forall i j r r', rows l !! i = Some r -> rows l !! j = Some r' ->
     is_bound r = true -> is_bound r' = true -> same_family r r' -> i = j) /\
  (forall i r s, rows l !! i = Some r -> (s < EXEC_SLOTS)%nat -> 0 <= get (fr_yes r) s /\ 0 <= get (fr_no r) s).
Proof.
  intros H l. pose proof (runs_ledger_ok a ops H : ledger_ok l) as W. split_and!; [done|apply W|].
  intros i r s Hr Hs. pose proof (Forall_lookup_1 _ _ _ _ (lo_each l W) Hr) as [_ _ F].
  destruct (F s Hs). lia.
Qed.

Definition sample_anchor : WallAnchor := mkWallAnchor 0 1700000000000000000.

Definition sample_fill (side : Side) (sym px qty oid : Z) : Fill :=
  mkFill 1700000000000000000 sym side 3 FILL_ORIGIN_VENUE 0 px qty oid.

Definition sample_ledger : list LedgerOp :=
  [O_bind 4 0 77 67108870; O_rest (R_submit 1 3 67108870 3000000 true 400000);
   O_fill (sample_fill Bid 67108870 400000 2000000 1);
   O_inst (I_bind (spec_new 9 LAW_LINEAR 0 0 0)); O_fill (sample_fill Ask 9 5000000 1000000 8)].

Lemma sample_ledger_legal : Forall ledger_op_ok sample_ledger.
Proof. repeat constructor; unfold u32_max; simpl; lia. Qed.

Lemma ledger_keeps_its_books_witness :
  let l := foldl run_ledger (Ledger_new sample_anchor) sample_ledger in
  slot_exposure_1e6 l 3 = 7000000 /\ ledger_ok l.
Proof.
  split; [vm_compute; reflexivity|].
  apply (ledger_keeps_its_books sample_anchor sample_ledger sample_ledger_legal).
Defined.

(** ** Exposure sums *)

Definition row_net (slot : nat) (r : FamilyRow) : Z :=
  if is_bound r then net_exposure_1e8 (get (fr_yes r) slot) (get (fr_no r) slot) else 0.

(** The row as an order on [sym] would leave it. *)
Definition after_order (slot : nat) (sym qty : Z) (buy : bool) (r : FamilyRow) : FamilyRow :=
  if has_leg sym r then (book_leg sym qty buy slot r).1 else r.

Lemma row_net_nonneg slot r : 0 <= row_net slot r.
Proof. unfold row_net. destruct (is_bound r); [apply net_exposure_nonneg|lia]. Qed.

Lemma sat_add_step t x : 0 <= t -> 0 <= x -> Z.min i64_max t +| x = Z.min i64_max (t + x).
Proof. ilia. Qed.

Lemma family_exposure_sum l slot :
  (slot < EXEC_SLOTS)%nat -> family_exposure l slot = Z.min i64_max (sumZ (row_net slot) (rows l)).
Proof.
  intros Hs. unfold family_exposure. destruct (Nat.leb_spec EXEC_SLOTS slot); [lia|].
  enough (forall t rs, 0 <= t ->
    foldl (fun total r => if is_bound r then total +| net_exposure_1e8 (get (fr_yes r) slot) (get (fr_no r) slot) else total)
      (Z.min i64_max t) rs = Z.min i64_max (t + sumZ (row_net slot) rs)) as Hgen by apply (Hgen 0 _ ltac:(lia)).
  intros t rs. revert t. induction rs as [|r rs IH]; intros t Ht; cbn [foldl sumZ]; [by rewrite Z.add_0_r|].
  pose proof (row_net_nonneg slot r). unfold row_net in *. destruct (is_bound r).
  - rewrite sat_add_step by done. rewrite IH by lia. f_equal. lia.
  - rewrite IH by done. f_equal.
Qed.

Lemma get_upd_const v i l : (i < length l)%nat -> get (upd (fun _ => v) i l) i = v.
Proof. intros H. by rewrite get_upd. Qed.

Lemma after_order_net slot sym qty buy r :
  frow_ok r -> (slot < EXEC_SLOTS)%nat -> has_leg sym r = true ->
  row_net slot (after_order slot sym qty buy r) =
  if sym =? fr_sym_yes r
  then net_exposure_1e8 (apply (get (fr_yes r) slot) qty buy).1 (get (fr_no r) slot)
  else net_exposure_1e8 (get (fr_yes r) slot) (apply (get (fr_no r) slot) qty buy).1.
Proof.
  intros [F1 F2 _] Hs Hl. unfold after_order. rewrite Hl. unfold has_leg in Hl. apply andb_true_iff in Hl as [Hb _].
  unfold book_leg, row_net. destruct (sym =? fr_sym_yes r); destruct (apply _ _ _) as [v fl]; simpl;
    unfold is_bound in *; simpl; rewrite Hb, get_upd_const by lia; done.
Qed.

Lemma project_fold slot sym qty buy rs :
  (slot < EXEC_SLOTS)%nat -> Forall frow_ok rs ->
  foldl (project_row slot sym qty buy) (0, false) rs =
  (Z.min i64_max (sumZ (fun r => row_net slot (after_order slot sym qty buy r)) rs),
   negb (countb (has_leg sym) rs =? 0)%nat).
Proof.
  intros Hs. enough (forall t h, 0 <= t -> Forall frow_ok rs ->
    foldl (project_row slot sym qty buy) (Z.min i64_max t, h) rs =
    (Z.min i64_max (t + sumZ (fun r => row_net slot (after_order slot sym qty buy r)) rs),
     h || negb (countb (has_leg sym) rs =? 0)%nat)) as Hgen by (intros Hall; apply (Hgen 0 false ltac:(lia) Hall)).
  induction rs as [|r rs IH]; intros t h Ht Hall; cbn [foldl sumZ countb].
  { by rewrite Z.add_0_r, orb_false_r. }
  apply Forall_cons in Hall as [Hr Hall].
  pose proof (row_net_nonneg slot (after_order slot sym qty buy r)) as Hnn.
  assert (project_row slot sym qty buy (Z.min i64_max t, h) r =
    (Z.min i64_max (t + row_net slot (after_order slot sym qty buy r)), h || has_leg sym r)) as ->.
  { destruct (has_leg sym r) eqn:Hl.
    - pose proof (after_order_net slot sym qty buy r Hr Hs Hl) as E. rewrite E in *.
      unfold has_leg in Hl. apply andb_true_iff in Hl as [Hb Hl]. unfold project_row. rewrite Hb, orb_true_r.
      destruct (sym =? fr_sym_yes r); [by rewrite sat_add_step|].
      simpl in Hl. rewrite Hl. by rewrite sat_add_step.
    - rewrite orb_false_r. unfold after_order in *. rewrite Hl in *. unfold has_leg in Hl. unfold project_row, row_net in *.
      destruct (is_bound r); [|by rewrite Z.add_0_r]. simpl in Hl. apply orb_false_iff in Hl as [-> ->].
      by rewrite sat_add_step. }
  rewrite IH by (done || lia). f_equal; [f_equal; lia|].
  destruct (has_leg sym r); simpl; [by rewrite !orb_true_r|by rewrite orb_false_r].
Qed.

Lemma row_net_le_max slot r : row_net slot r <= i64_max.
Proof. unfold row_net. destruct (is_bound r); [apply net_exposure_le_max|done]. Qed.

(** The projection, as a sum over the rows the order would leave. *)
Lemma projected_sum l slot sym qty buy :
  ledger_ok l -> (slot < EXEC_SLOTS)%nat -> (0 < countb (has_leg sym) (rows l))%nat ->
  projected_exposure_1e6 l slot sym qty buy =
  Z.min i64_max (sumZ (fun r => row_net slot (after_order slot sym qty buy r)) (rows l))
    +| get (inst_exposure_1e6 (inst l)) slot.
Proof.
  intros W Hs Hc. unfold projected_exposure_1e6. destruct (Nat.leb_spec EXEC_SLOTS slot); [lia|].
  rewrite project_fold by (done || apply W). destruct (Nat.eqb_spec (countb (has_leg sym) (rows l)) 0); [lia|done].
Qed.

Lemma slot_exposure_sum l slot :
  (slot < EXEC_SLOTS)%nat ->
  slot_exposure_1e6 l slot = Z.min i64_max (sumZ (row_net slot) (rows l)) +| get (inst_exposure_1e6 (inst l)) slot.
Proof.
  intros Hs. unfold slot_exposure_1e6. rewrite family_exposure_sum by done.
  by destruct (Nat.leb_spec EXEC_SLOTS slot); [lia|].
Qed.

(** An order that leaves its outcome no more exposed. *)
Definition closes (slot : nat) (sym qty : Z) (buy : bool) (r : FamilyRow) : Prop :=
  let this := if sym =? fr_sym_yes r then get (fr_yes r) slot else get (fr_no r) slot in
  let other := if sym =? fr_sym_yes r then get (fr_no r) slot else get (fr_yes r) slot in
  0 <= qty <= 2 * (if buy then other - this else this - other).

Lemma closes_reduces slot sym qty buy r :
  frow_ok r -> (slot < EXEC_SLOTS)%nat -> has_leg sym r = true -> closes slot sym qty buy r ->
  row_net slot (after_order slot sym qty buy r) <= row_net slot r.
Proof.
  intros F Hs Hl Hc. rewrite after_order_net by done. destruct F as [_ _ F]. destruct (F slot Hs) as [Fy Fn].
  unfold has_leg in Hl. apply andb_true_iff in Hl as [Hb _]. unfold row_net. rewrite Hb.
  unfold closes, apply, net_exposure_1e8 in *. destruct (sym =? fr_sym_yes r), buy; simpl in *.
  - unfold_int. lia.
  - destruct (Z.ltb_spec (get (fr_yes r) slot -| qty) 0); simpl; unfold_int; lia.
  - unfold_int. lia.
  - destruct (Z.ltb_spec (get (fr_no r) slot -| qty) 0); simpl; unfold_int; lia.
Qed.

(** The sum over every row, for the gate and the property below. *)
Lemma closing_never_raises l slot sym qty buy :
  ledger_ok l -> (slot < EXEC_SLOTS)%nat ->
  (exists i r, rows l !! i = Some r /\ has_leg sym r = true) ->
  (forall i r, rows l !! i = Some r -> has_leg sym r = true -> closes slot sym qty buy r) ->
  projected_exposure_1e6 l slot sym qty buy <= slot_exposure_1e6 l slot.
Proof.
  intros W Hs (i & r & Hr & Hl) Hcl.
  assert (0 < countb (has_leg sym) (rows l))%nat as Hc.
  { pose proof (countb_insert (has_leg sym) (rows l) i r family_free Hr) as H. rewrite Hl in H. simpl in H. lia. }
  rewrite projected_sum, slot_exposure_sum by done. apply sat_i64_mono.
  enough (sumZ (fun r => row_net slot (after_order slot sym qty buy r)) (rows l) <= sumZ (row_net slot) (rows l)) by lia.
  assert (forall rs, (forall r, r ∈ rs -> row_net slot (after_order slot sym qty buy r) <= row_net slot r) ->
    sumZ (fun r => row_net slot (after_order slot sym qty buy r)) rs <= sumZ (row_net slot) rs) as Hsum.
  { induction rs as [|x rs IH]; intros H; cbn [sumZ]; [lia|].
    pose proof (H x ltac:(left)). specialize (IH ltac:(intros y Hy; apply H; by right)). lia. }
  apply Hsum. intros x Hx. apply list_elem_of_lookup in Hx as [j Hj].
  pose proof (Forall_lookup_1 _ _ _ _ (lo_each l W) Hj) as Hok.
  destruct (has_leg sym x) eqn:Hlx; [apply closes_reduces; try done; by eapply Hcl|].
  unfold after_order. by rewrite Hlx.
Qed.

(** An order on a bound outcome leg that sells at most twice the leg's
    excess over its counter-leg, or buys at most twice its shortfall, never
    projects a higher slot exposure than the current one, so the exposure
    cap never traps a member in a position it is leaving. *)
Theorem closing_order_never_raises_exposure l slot sym qty buy :
  ledger_ok l -> (slot < EXEC_SLOTS)%nat ->
  (exists i r, rows l !! i = Some r /\ has_leg sym r = true) ->
  (forall i r, rows l !! i = Some r -> has_leg sym r = true -> closes slot sym qty buy r) ->
  projected_exposure_1e6 l slot sym qty buy <= slot_exposure_1e6 l slot.
Proof. exact (closing_never_raises l slot sym qty buy). Qed.

Lemma sample_ledger_ok : ledger_ok (foldl run_ledger (Ledger_new sample_anchor) sample_ledger).
Proof. apply runs_ledger_ok, sample_ledger_legal. Qed.

Lemma closing_order_never_raises_exposure_witness :
  let l := foldl run_ledger (Ledger_new sample_anchor) sample_ledger in
  projected_exposure_1e6 l 3 67108870 1500000 false = 5500000 /\
  projected_exposure_1e6 l 3 67108870 1500000 false <= slot_exposure_1e6 l 3.
Proof.
  split; [vm_compute; reflexivity|].
  apply closing_order_never_raises_exposure; [apply sample_ledger_ok|unfold EXEC_SLOTS; lia| |].
  - eexists 0%nat, _. split; [vm_compute; reflexivity|vm_compute; reflexivity].
  - intros i r Hr Hl.
    assert (i = 0%nat) as ->.
    { destruct i as [|i]; [done|]. exfalso.
      assert (forallb (fun r => negb (has_leg 67108870 r))
        (drop 1 (rows (foldl run_ledger (Ledger_new sample_anchor) sample_ledger))) = true) as H
        by (vm_compute; reflexivity).
      pose proof (forallb_lookup _ _ i r H) as Hr'. rewrite lookup_drop, Hl in Hr'. by specialize (Hr' Hr). }
    vm_compute in Hr. injection Hr as <-. unfold closes. vm_compute. split; discriminate.
Defined.

(** ** What the projection promised is what the fill books *)

Lemma roll_day_rows w l :
  rows (roll_day w l) = rows l /\ inst (roll_day w l) = inst l /\ resting (roll_day w l) = resting l.
Proof. unfold roll_day. destruct (w =? 0); [done|]. destruct (day_epoch l =? 0); [done|]. by destruct (_ <? _). Qed.

Lemma sum_one_row slot sym qty buy rs i r :
  countb (has_leg sym) rs = 1%nat -> rs !! i = Some r -> has_leg sym r = true ->
  sumZ (fun r => row_net slot (after_order slot sym qty buy r)) rs =
  sumZ (row_net slot) (<[i := after_order slot sym qty buy r]> rs).
Proof.
  revert i. induction rs as [|x rs IH]; intros [|i] Hc Hr Hl; simplify_eq/=.
  - f_equal. apply sumZ_ext. intros y Hy. unfold after_order. rewrite Hl in Hc. simpl in Hc.
    destruct (has_leg sym y) eqn:E; [|done]. exfalso. apply list_elem_of_lookup in Hy as [j Hj].
    pose proof (countb_insert (has_leg sym) rs j y family_free Hj) as H. rewrite E in H. simpl in H. lia.
  - pose proof (countb_insert (has_leg sym) rs i r family_free Hr) as H. rewrite Hl in H. simpl in H.
    destruct (has_leg sym x) eqn:E; [lia|]. rewrite (IH i) by done. f_equal. unfold after_order at 1. by rewrite E.
Qed.

(** What one fill on a bound leg leaves of the rows. *)
Lemma book_fill_rows f l :
  fl_origin f = FILL_ORIGIN_VENUE -> (fl_strategy_id f < EXEC_SLOTS)%nat -> inst_find (inst l) (fl_sym f) = None ->
  forall i r, first_index (has_leg (fl_sym f)) (rows l) = Some i -> rows l !! i = Some r ->
  rows (book_fill f l) =
    <[i := (book_leg (fl_sym f) (fl_qty f) (side_eqb (fl_side f) Bid) (fl_strategy_id f) r).1]> (rows l) /\
  inst (book_fill f l) = inst l.
Proof.
  intros Ho Hs Hn i r Hi Hr. unfold book_fill. rewrite Ho. cbn [FILL_ORIGIN_VENUE Z.eqb negb].
  destruct (roll_day_rows (fl_ts_ns f) l) as (E1 & E2 & _). rewrite E1, E2, Hn, Hi, (row_default l i r Hr).
  destruct (Nat.leb_spec EXEC_SLOTS (fl_strategy_id f)); [lia|].
  destruct (book_leg _ _ _ _ r) as [r1 fl]. simpl.
  destruct fl; destruct (side_eqb (fl_side f) Bid && negb (fr_settled r) && negb (is_adopted f));
    destruct (is_adopted f); simpl; by rewrite ?E1, ?E2.
Qed.

(** The projection, for the gate and the property below. *)
Lemma fill_books_projection f l :
  ledger_ok l -> fl_origin f = FILL_ORIGIN_VENUE -> (fl_strategy_id f < EXEC_SLOTS)%nat ->
  inst_find (inst l) (fl_sym f) = None -> countb (has_leg (fl_sym f)) (rows l) = 1%nat ->
  slot_exposure_1e6 (book_fill f l) (fl_strategy_id f) =
  projected_exposure_1e6 l (fl_strategy_id f) (fl_sym f) (fl_qty f) (side_eqb (fl_side f) Bid).
Proof.
  intros W Ho Hs Hn Hc. rewrite slot_exposure_sum, projected_sum by (done || lia).
  destruct (first_index (has_leg (fl_sym f)) (rows l)) as [i|] eqn:Hi.
  2: { exfalso. rewrite first_index_None in Hi.
       rewrite (countb_ext _ (fun _ => false)) in Hc by (intros; by apply Hi).
       clear -Hc. induction (rows l); simpl in *; [lia|auto]. }
  destruct (first_index_Some _ _ _ Hi) as (r & Hr & Hl & _).
  destruct (book_fill_rows f l Ho Hs Hn i r Hi Hr) as [-> ->].
  rewrite (sum_one_row _ _ _ _ _ i r Hc Hr Hl). unfold after_order. by rewrite Hl.
Qed.

(** For a leg bound in one family row, the slot exposure after book_fill
    books a venue fill equals the exposure projected_exposure_1e6 reported
    for the same order before it: what the clamp projects and what the fill
    does cannot drift apart. *)
Theorem projection_is_what_the_fill_books f l :
  ledger_ok l -> fl_origin f = FILL_ORIGIN_VENUE -> (fl_strategy_id f < EXEC_SLOTS)%nat ->
  inst_find (inst l) (fl_sym f) = None -> countb (has_leg (fl_sym f)) (rows l) = 1%nat ->
  slot_exposure_1e6 (book_fill f l) (fl_strategy_id f) =
  projected_exposure_1e6 l (fl_strategy_id f) (fl_sym f) (fl_qty f) (side_eqb (fl_side f) Bid).
Proof. exact (fill_books_projection f l). Qed.

Lemma projection_is_what_the_fill_books_witness :
  let l := foldl run_ledger (Ledger_new sample_anchor) sample_ledger in
  let f := sample_fill Bid 67108871 300000 2500000 5 in
  slot_exposure_1e6 (book_fill f l) 3 = 5500000 /\ projected_exposure_1e6 l 3 67108871 2500000 true = 5500000.
Proof.
  set (f := sample_fill Bid 67108871 300000 2500000 5).
  set (l := foldl run_ledger (Ledger_new sample_anchor) sample_ledger).
  assert (slot_exposure_1e6 (book_fill f l) 3 = 5500000) as E by (vm_compute; reflexivity).
  split; [exact E|].
  assert (projected_exposure_1e6 l (fl_strategy_id f) (fl_sym f) (fl_qty f) (side_eqb (fl_side f) Bid) = 5500000) as P;
    [|exact P].
  rewrite <- projection_is_what_the_fill_books; [exact E|apply sample_ledger_ok|reflexivity| |
    vm_compute; reflexivity|vm_compute; reflexivity].
  unfold EXEC_SLOTS. simpl. lia.
Defined.

(** ** The probe *)

Lemma working_on_range slot sym buy ex r :
  let '(total, held, _) := working_on slot sym buy ex r in 0 <= total <= i64_max /\ 0 <= held <= i64_max.
Proof.
  unfold working_on. set (w := foldl _ _ _).
  enough (0 <= wk_total w <= i64_max /\ 0 <= wk_held w <= i64_max) by done.
  apply (foldl_keeps (fun w => 0 <= wk_total w <= i64_max /\ 0 <= wk_held w <= i64_max)).
  - intros w' c _ [H1 H2]. unfold work_step. destruct (cl_live c && _); [|done].
    destruct (match ex with Some oid => cl_oid c =? oid | None => false end); [done|].
    destruct (_ && _); [|done]. unfold resting_qty. simpl. unfold_int. lia.
  - simpl. unfold i64_max. lia.
Qed.

(** The probe of a row the slot may trade, at a usable size. *)
Lemma probe_on_row l sym slot qty buy px ex i r :
  inst_find (inst l) sym = Some i -> row_at (inst l) i = r ->
  (ir_owner r = OWNER_NONE \/ ir_owner r = Z.of_nat slot) -> (slot < EXEC_SLOTS)%nat -> 0 < qty ->
  probe_instrument l sym slot qty buy px ex =
  Some (probe_row l r slot qty buy px
    (if against (get (ir_pos r) slot) buy then working_on slot sym buy ex (resting l) else (0, 0, 0)) false).
Proof.
  intros Hf <- Ho Hs Hq. unfold probe_instrument, probe. rewrite Hf.
  replace (negb (ir_owner (row_at (inst l) i) =? OWNER_NONE) &&
    negb (ir_owner (row_at (inst l) i) =? Z.of_nat slot)) with false by (destruct Ho as [->| ->]; rewrite Z.eqb_refl; [done|by rewrite andb_false_r]).
  destruct (Nat.leb_spec EXEC_SLOTS slot); [lia|]. destruct (Z.leb_spec qty 0); [lia|]. cbn [orb andb].
  by rewrite orb_false_r.
Qed.

Lemma probe_row_exit l r slot qty buy px w h rep :
  exit (probe_row l r slot qty buy px (w, h, rep) false) =
  (let filled := get (ir_pos r) slot in
   let pos := if against filled buy then move_pos filled w buy else filled in
   against pos buy && (qty <=? sat_abs pos)).
Proof.
  unfold probe_row. simpl. set (pos := if against _ _ then _ else _).
  destruct (against pos buy && (qty <=? sat_abs pos)); [done|].
  by destruct (judge_law _ _ _ _ _ _ _ _) as [[[[? ?] ?] ?]|].
Qed.

(** When a probe is an exit, for the gate and the property below. *)
Lemma exit_iff_room l sym slot qty buy px ex i r :
  inst_find (inst l) sym = Some i -> row_at (inst l) i = r ->
  (ir_owner r = OWNER_NONE \/ ir_owner r = Z.of_nat slot) -> (slot < EXEC_SLOTS)%nat -> 0 < qty ->
  - i64_max <= get (ir_pos r) slot <= i64_max ->
  let filled := get (ir_pos r) slot in
  let working := (working_on slot sym buy ex (resting l)).1.1 in
  exists p, probe_instrument l sym slot qty buy px ex = Some p /\
    (exit p = true <-> (if buy then filled < 0 else 0 < filled) /\ working + qty <= Z.abs filled).
Proof.
  intros Hf Hr Ho Hs Hq Hp filled working.
  eexists. split; [by eapply probe_on_row|].
  pose proof (working_on_range slot sym buy ex (resting l)) as Hw. unfold working in *.
  destruct (working_on slot sym buy ex (resting l)) as [[w h] rep]. destruct Hw as [Hw _]. simpl fst in *.
  fold filled. destruct (against filled buy) eqn:Ha.
  - rewrite probe_row_exit. fold filled. cbv zeta. rewrite Ha. unfold against, move_pos in *.
    rewrite andb_true_iff, Z.leb_le. destruct buy; simpl in *; rewrite ?andb_true_r, ?andb_false_r, ?orb_false_r in *;
      unfold_int; lia.
  - rewrite probe_row_exit. fold filled. cbv zeta. rewrite Ha, Ha. simpl.
    unfold against in Ha. destruct buy; simpl in Ha; rewrite ?andb_true_r, ?andb_false_r, ?orb_false_r in Ha; split; try done; lia.
Qed.

(** C1. An order on an instrument row is probed as an exit, which no money
    clamp may refuse, exactly when it opposes the slot's filled position and
    its size plus everything the slot has working on its side is no larger
    than that position: whatever its price and the row's marks, so exits
    that all fill can never flip a position unmeasured. *)
Theorem exit_iff_working_orders_leave_room l sym slot qty buy px ex i r :
  inst_find (inst l) sym = Some i -> row_at (inst l) i = r ->
  (ir_owner r = OWNER_NONE \/ ir_owner r = Z.of_nat slot) -> (slot < EXEC_SLOTS)%nat -> 0 < qty ->
  - i64_max <= get (ir_pos r) slot <= i64_max ->
  let filled := get (ir_pos r) slot in
  let working := (working_on slot sym buy ex (resting l)).1.1 in
  exists p, probe_instrument l sym slot qty buy px ex = Some p /\
    (exit p = true <-> (if buy then filled < 0 else 0 < filled) /\ working + qty <= Z.abs filled).
Proof. exact (exit_iff_room l sym slot qty buy px ex i r). Qed.

Lemma exit_iff_working_orders_leave_room_witness :
  let l := foldl run_ledger (Ledger_new sample_anchor)
    (sample_ledger ++ [O_rest (R_submit 20 3 9 600000 true 5000000)]) in
  exists p, probe_instrument l 9 3 400000 true 0 None = Some p /\ exit p = true.
Proof.
  set (l := foldl run_ledger (Ledger_new sample_anchor)
    (sample_ledger ++ [O_rest (R_submit 20 3 9 600000 true 5000000)])).
  assert (inst_find (inst l) 9 = Some 0%nat) as Hf by (vm_compute; reflexivity).
  assert (get (ir_pos (row_at (inst l) 0)) 3 = -1000000) as Hp by (vm_compute; reflexivity).
  assert ((working_on 3 9 true None (resting l)).1.1 = 600000) as Hw by (vm_compute; reflexivity).
  destruct (exit_iff_working_orders_leave_room l 9 3 400000 true 0 None 0 (row_at (inst l) 0) Hf eq_refl)
    as (p & E & H).
  - left. vm_compute. reflexivity.
  - unfold EXEC_SLOTS. lia.
  - lia.
  - rewrite Hp. unfold i64_max. lia.
  - exists p. split; [exact E|]. apply H. rewrite Hp, Hw. lia.
Defined.

(** ** The day *)

(** The day of [l'] is no earlier, and within one day nothing is refunded. *)
Definition spends_forward (l l' : Ledger) : Prop :=
  day_epoch l <= day_epoch l' /\
  (day_epoch l' = day_epoch l -> forall s, get (day_turnover l) s <= get (day_turnover l') s).

Lemma spends_same l l' : day_epoch l' = day_epoch l -> day_turnover l' = day_turnover l -> spends_forward l l'.
Proof. intros E1 E2. unfold spends_forward. rewrite E1, E2. split; [lia|]. intros _ s. lia. Qed.

Lemma spends_forward_trans a b c : spends_forward a b -> spends_forward b c -> spends_forward a c.
Proof.
  intros [A1 A2] [B1 B2]. split; [lia|]. intros E s. etransitivity; [apply A2; lia|apply B2; lia].
Qed.

Lemma roll_day_forward w l : 0 <= w -> 0 <= day_epoch l -> spends_forward l (roll_day w l).
Proof.
  intros Hw He. unfold roll_day. destruct (w =? 0); [by apply spends_same|].
  destruct (Z.eqb_spec (day_epoch l) 0) as [E|].
  - split; simpl; [|intros _ s; lia]. rewrite E. apply Z.div_pos; [lia|done].
  - destruct (Z.ltb_spec (day_epoch l) (w / DAY_NS)); [|by apply spends_same].
    split; simpl; [lia|]. intros E. lia.
Qed.

Lemma upd_grows f slot l : (forall s, in_i64 (get l s)) -> (forall x, in_i64 x -> x <= f x) ->
  forall s, get l s <= get (upd f slot l) s.
Proof.
  intros Hl Hf s. destruct (decide (slot = s)) as [->|Hne]; [|by rewrite get_upd_ne].
  destruct (decide (s < length l)%nat) as [Hs|Hs]; [rewrite get_upd by done; by apply Hf|].
  unfold get, upd. by rewrite list_lookup_alter_eq, lookup_ge_None_2 by lia.
Qed.

Lemma grow_forward slot add open l :
  0 <= add -> (forall s, in_i64 (get (day_turnover l) s)) ->
  spends_forward l (set_day (upd (fun x => x +| add) slot (day_turnover l)) open (day_epoch l) l).
Proof.
  intros Ha Hl. split; simpl; [lia|]. intros _. apply upd_grows; [done|]. intros x Hx. ilia.
Qed.

Lemma notional_nonneg px qty : 0 <= px -> 0 <= qty -> 0 <= notional_1e6 px qty.
Proof.
  intros Hp Hq. unfold notional_1e6.
  assert (0 <= sat_i128 (px * qty)) by (unfold sat_i128, clamp, i128_min, i128_max; nia).
  pose proof (Z.quot_pos (sat_i128 (px * qty)) 1000000 ltac:(done) ltac:(lia)).
  unfold i64_max. case_ifs; lia.
Qed.

Lemma book_row_add_nonneg f slot r : 0 <= (book_row f slot r).1.2.
Proof.
  unfold book_row. destruct (is_settlement f); simpl; [lia|]. destruct (is_adopted f); [lia|].
  destruct (_ =? _); apply mul_1e6_range.
Qed.

Lemma book_instrument_forward i f slot l :
  (forall s, in_i64 (get (day_turnover l) s)) -> spends_forward l (book_instrument_fill i f slot l).
Proof.
  intros Hl. unfold book_instrument_fill, book_on_row.
  pose proof (book_row_add_nonneg f slot (row_at (inst l) i)) as Ha.
  destruct (book_row f slot (row_at (inst l) i)) as [[r add] fl]. simpl in Ha.
  set (t := refresh_instrument _ _). set (l2 := if fl then lcount L_below_zero (set_inst t l) else set_inst t l).
  assert (day_epoch l2 = day_epoch l /\ day_turnover l2 = day_turnover l) as [E1 E2] by (unfold l2; by destruct fl).
  set (l3 := if is_settlement f then l2 else _).
  assert (spends_forward l l3) as H3.
  { unfold l3. destruct (is_settlement f); [by apply spends_same|].
    apply (spends_forward_trans _ l2); [by apply spends_same|]. apply grow_forward; [done|by rewrite E2]. }
  apply (spends_forward_trans _ l3); [done|].
  destruct (negb (is_settlement f) && negb (is_adopted f)); by apply spends_same.
Qed.

Lemma roll_turnover_range w l s :
  (forall s, in_i64 (get (day_turnover l) s)) -> in_i64 (get (day_turnover (roll_day w l)) s).
Proof.
  intros Hl. unfold roll_day. destruct (w =? 0); [done|]. destruct (day_epoch l =? 0); [done|].
  destruct (_ <? _); [|done]. change (in_i64 (get (replicate EXEC_SLOTS 0) s)). unfold get.
  destruct (replicate EXEC_SLOTS 0 !! s) as [x|] eqn:E; [|unfold i64_min, i64_max; simpl; lia].
  apply lookup_replicate_1 in E as [-> _]. unfold i64_min, i64_max. simpl. lia.
Qed.

Lemma book_fill_forward f l :
  0 <= fl_qty f -> 0 <= fl_px f -> 0 <= fl_ts_ns f -> 0 <= day_epoch l ->
  (forall s, in_i64 (get (day_turnover l) s)) -> spends_forward l (book_fill f l).
Proof.
  intros Hq Hp Ht He Hl. unfold book_fill. destruct (negb _); [by apply spends_same|].
  pose proof (roll_day_forward (fl_ts_ns f) l Ht He) as H0.
  pose proof (fun s => roll_turnover_range (fl_ts_ns f) l s Hl) as Hl1.
  apply (spends_forward_trans _ (roll_day (fl_ts_ns f) l)); [done|].
  revert Hl1. generalize (roll_day (fl_ts_ns f) l). intros l1 Hl1.
  destruct (_ <=? _)%nat; [by apply spends_same|].
  destruct (inst_find (inst l1) (fl_sym f)) as [i|]; [by apply book_instrument_forward|].
  set (st := match first_index (has_leg (fl_sym f)) (rows l1) with Some i => _ | None => _ end).
  assert (day_epoch st.1 = day_epoch l1 /\ day_turnover st.1 = day_turnover l1) as [E1 E2].
  { unfold st. destruct (first_index _ _); [|done]. destruct (book_leg _ _ _ _ _) as [r fl]. by destruct fl. }
  destruct st as [l2 sr]. simpl in E1, E2.
  apply (spends_forward_trans _ l2); [by apply spends_same|].
  set (l3 := if _ && _ && _ then _ else l2).
  assert (spends_forward l2 l3) as H3.
  { unfold l3. destruct (_ && _ && _); [|by apply spends_same]. apply grow_forward; [by apply notional_nonneg|by rewrite E2]. }
  apply (spends_forward_trans _ l3); [done|]. destruct (is_adopted f); by apply spends_same.
Qed.

(** The stamps an operation carries are unsigned. *)
Definition stamped_op (op : LedgerOp) : Prop :=
  match op with
  | O_fill f => 0 <= fl_ts_ns f
  | O_adopt _ day bought => 0 <= day /\ in_i64 bought
  | _ => True
  end.

Lemma book_rolls_forward l op :
  match op with O_bind _ _ _ _ | O_settle _ _ | O_refuse_roll | O_rest _ | O_inst _ | O_seeded | O_slot_seeded _ => True | _ => False end ->
  spends_forward l (run_ledger l op).
Proof.
  intros Hop. apply spends_same; destruct op; try done; simpl.
  - unfold bind, retire_row. destruct (_ || _ || _); [done|]. destruct (_ <=? _); [done|].
    destruct (first_index _ (rows l)) as [i|]; [by destruct (_ && negb _)|]. by destruct (first_index _ (rows l)).
  - unfold settle. destruct (outcome =? 0); [done|]. destruct (first_index _ (rows l)); [|done]. by destruct (fr_settled _).
  - unfold mark_slot_seeded. by destruct (_ <? _)%nat.
  - unfold bind, retire_row. destruct (_ || _ || _); [done|]. destruct (_ <=? _); [done|].
    destruct (first_index _ (rows l)) as [i|]; [by destruct (_ && negb _)|]. by destruct (first_index _ (rows l)).
  - unfold settle. destruct (outcome =? 0); [done|]. destruct (first_index _ (rows l)); [|done]. by destruct (fr_settled _).
  - unfold mark_slot_seeded. by destruct (_ <? _)%nat.
Qed.

(** C9. No ledger operation moves the day epoch backwards, and within one
    day none lowers a slot's day turnover: a late fill or a stale venue
    figure never wipes the spend the day cap is judged against. *)
Theorem day_spend_never_refunded l op :
  ledger_op_ok op -> stamped_op op -> 0 <= day_epoch l -> (forall s, in_i64 (get (day_turnover l) s)) ->
  spends_forward l (run_ledger l op).
Proof.
  intros Hop Hst He Hl. destruct op as [| | |f|op|op|sym pos px day|slot day b|mono| |slot];
    try (by apply book_rolls_forward); simpl in *.
  - apply book_fill_forward; [apply Hop|apply Hop|done..].
  - unfold seed_perp, seed_row. destruct (perp_find _ _); [|by apply spends_same].
    destruct (has_flag _ _); [by apply spends_same|].
    destruct (Z.ltb_spec day 0); cbn [orb]; [by apply spends_same|].
    destruct (_ || _); [by apply spends_same|]. destruct (_ <=? _)%nat; [by apply spends_same|]. simpl.
    split; simpl; [lia|]. intros _. apply upd_grows; [done|]. intros x Hx. ilia.
  - unfold adopt_venue_day_turnover. destruct (_ || _); [by apply spends_same|]. destruct (_ && _); [by apply spends_same|].
    pose proof (roll_day_forward (sat_u64 (day * DAY_NS)) l ltac:(unfold_int; lia) He) as H0.
    destruct (Z.ltb_spec (get (day_turnover (roll_day (sat_u64 (day * DAY_NS)) l)) slot) b) as [Hb|]; [|done].
    apply (spends_forward_trans _ (roll_day (sat_u64 (day * DAY_NS)) l)); [done|]. split; simpl; [lia|].
    intros _ s. destruct (decide (slot = s)) as [<-|Hne]; [|by rewrite get_upd_ne].
    destruct (decide (slot < length (day_turnover (roll_day (sat_u64 (day * DAY_NS)) l)))%nat).
    + rewrite get_upd by done. lia.
    + unfold get, upd. by rewrite list_lookup_alter_eq, lookup_ge_None_2 by lia.
  - unfold observe_mono_clock. destruct (mono =? 0); [by apply spends_same|]. apply roll_day_forward; [|done].
    apply wrap_u64_range.
Qed.

Lemma day_spend_never_refunded_witness :
  let l := foldl run_ledger (Ledger_new sample_anchor) sample_ledger in
  let late := mkFill 1699900000000000000 67108870 Bid 3 FILL_ORIGIN_VENUE 0 500000 1000000 2 in
  slot_day_turnover_1e6 l 3 = 5800000 /\ slot_day_turnover_1e6 (book_fill late l) 3 = 6300000 /\
  spends_forward l (run_ledger l (O_fill late)).
Proof.
  set (l := foldl run_ledger (Ledger_new sample_anchor) sample_ledger).
  set (late := mkFill 1699900000000000000 67108870 Bid 3 FILL_ORIGIN_VENUE 0 500000 1000000 2).
  split; [vm_compute; reflexivity|]. split; [vm_compute; reflexivity|].
  apply (day_spend_never_refunded l (O_fill late)).
  - simpl. lia.
  - simpl. lia.
  - vm_compute. discriminate.
  - intros s. assert (forallb (fun x => (i64_min <=? x) && (x <=? i64_max)) (day_turnover l) = true) as H
      by (vm_compute; reflexivity).
    unfold get. destruct (day_turnover l !! s) as [x|] eqn:E; [|unfold i64_min, i64_max; simpl; lia].
    pose proof (forallb_lookup _ _ s x H E) as Hx. cbv beta in Hx. cbn [default from_option id]. lia.
Defined.

(** ** Rolls *)

Lemma family_row_found l i r :
  ledger_ok l -> rows l !! i = Some r -> is_bound r = true ->
  first_index (fun x => is_bound x && (fr_family x =? fr_family r) && (fr_venue x =? fr_venue r)) (rows l) = Some i.
Proof.
  intros W Hr Hb. apply (first_index_only _ _ i r Hr); [by rewrite Hb, !Z.eqb_refl|].
  intros j y Hne Hy. apply not_true_is_false. intros H. apply andb_true_iff in H as [H Hv].
  apply andb_true_iff in H as [Hby Hf]. apply Hne. apply (lo_key l W j i y r); try done. split; lia.
Qed.

(** A created roll for a bound family is a no-op when it repeats the
    live instance; otherwise it rewrites that family's one row with the new
    legs at flat positions, drops every resting order on the old legs, and
    touches neither the instrument rows nor the day turnover. *)
Theorem roll_replaces_the_instance l i r outcome sym :
  ledger_ok l -> rows l !! i = Some r -> is_bound r = true -> 0 <= fr_family r < 64 ->
  outcome <> 0 -> sym <> SYMBOL_ID_NONE -> symbol_ordinal sym < SYMBOL_ORDINAL_MASK ->
  let l' := bind (fr_venue r) (Z.to_nat (fr_family r)) outcome sym l in
  if (fr_outcome r =? outcome) && negb (fr_settled r) then l' = l
  else
    rows l' = <[i := mkFamilyRow sym (sym + 1) outcome (fr_family r) (fr_venue r) false
                       (replicate EXEC_SLOTS 0) (replicate EXEC_SLOTS 0)]> (rows l) /\
    (forall j c, cells (resting l') !! j = Some c -> cl_live c = true ->
       cl_sym c <> fr_sym_yes r /\ cl_sym c <> fr_sym_no r) /\
    inst l' = inst l /\ day_turnover l' = day_turnover l.
Proof.
  intros W Hr Hb Hfam Ho Hsym Hord. cbv zeta. unfold bind.
  destruct (Z.eqb_spec outcome 0); [done|]. destruct (Z.eqb_spec sym SYMBOL_ID_NONE); [done|].
  destruct (Nat.leb_spec LEDGER_ROWS (Z.to_nat (fr_family r))) as [Hle|_]; [unfold LEDGER_ROWS in Hle; lia|].
  destruct (Z.leb_spec SYMBOL_ORDINAL_MASK (symbol_ordinal sym)); [lia|]. cbn [orb].
  rewrite Z2Nat.id by lia. rewrite (family_row_found l i r W Hr Hb), (row_default l i r Hr).
  destruct ((fr_outcome r =? outcome) && negb (fr_settled r)); [done|].
  unfold retire_row. rewrite (row_default l i r Hr). split_and!; try done.
  intros j c Hc Hl. simpl in Hc.
  pose proof (release_where_none (fun c => (cl_sym c =? fr_sym_yes r) || (cl_sym c =? fr_sym_no r))
    (resting l) j c (lo_resting l W) Hc Hl) as Hn. simpl in Hn. lia.
Qed.

Lemma roll_replaces_the_instance_witness :
  let l := foldl run_ledger (Ledger_new sample_anchor) sample_ledger in
  let l' := bind 4 0 78 67108872 l in
  slot_resting 3 (resting l) = 1 /\ slot_resting 3 (resting l') = 0 /\ held_on_sym_1e6 l' 3 67108872 = 0 /\
  day_turnover l' = day_turnover l.
Proof.
  set (l := foldl run_ledger (Ledger_new sample_anchor) sample_ledger).
  split; [vm_compute; reflexivity|]. split; [vm_compute; reflexivity|]. split; [vm_compute; reflexivity|].
  set (r := mkFamilyRow 67108870 67108871 77 0 4 false (upd (fun _ => 2000000) 3 (replicate EXEC_SLOTS 0))
    (replicate EXEC_SLOTS 0)).
  assert (rows l !! 0%nat = Some r) as Hr by (vm_compute; reflexivity).
  destruct (roll_replaces_the_instance l 0 r 78 67108872 sample_ledger_ok Hr eq_refl) as (_ & _ & _ & H).
  - simpl. lia.
  - discriminate.
  - discriminate.
  - vm_compute. reflexivity.
  - exact H.
Defined.
