(* ===== verification/BookTable.v ===== *)
(** * Top-of-book slots and their table ([crates/book-builder/src/lib.rs])

    [TopOfBook] with its sequence gate and counters, the fixed-capacity
    [MultiBook] over them, and the refinement of the table to a map from
    tracked symbols to books. *)

From stdpp Require Import gmap.
From S2P Require Import Prelude CoreTypes.

(** ** One market *)

Inductive ApplyOutcome : Type := Applied | AppliedGap | Stale | WrongSymbol.

Record TopOfBook := mkBook {
  tb_sym : Z;
  tb_venue_seq : Z;
  tb_bid_px : Z;
  tb_bid_qty : Z;
  tb_ask_px : Z;
  tb_ask_qty : Z;
  tb_gaps : Z;
  tb_stale_drops : Z
}.

Definition book_empty (sym : Z) : TopOfBook := mkBook sym 0 0 0 0 0 0 0.

Definition book_apply (tick : Tick) (b : TopOfBook) : TopOfBook * ApplyOutcome :=
  if negb (tk_sym tick =? tb_sym b) then (b, WrongSymbol)
  else if tk_venue_seq tick <=? tb_venue_seq b
  then (mkBook (tb_sym b) (tb_venue_seq b) (tb_bid_px b) (tb_bid_qty b) (tb_ask_px b) (tb_ask_qty b)
          (tb_gaps b) (wrap_u32 (tb_stale_drops b + 1)), Stale)
  else
    let gapped := negb (tb_venue_seq b =? 0) && (wrap_u32 (tb_venue_seq b + 1) <? tk_venue_seq tick) in
    (mkBook (tb_sym b) (tk_venue_seq tick) (tk_bid_px tick) (tk_bid_qty tick) (tk_ask_px tick) (tk_ask_qty tick)
       (wrap_u32 (tb_gaps b + if gapped then 1 else 0)) (tb_stale_drops b),
     if gapped then AppliedGap else Applied).

Definition has_quotes (b : TopOfBook) : bool := negb (tb_venue_seq b =? 0).

(** The integer mid rounds toward zero; the sum of the two prices wraps. *)
Definition mid (b : TopOfBook) : Z := Z.quot (wrap_i64 (tb_bid_px b + tb_ask_px b)) 2.

(** ** The table *)

Inductive BookErr : Type := Full | ReservedSymbol | AlreadyTracked.

Record MultiBook := mkTable { mb_entries : list TopOfBook; mb_count : Z }.

Section Table.
Context (N : nat).

Definition MultiBook_empty : MultiBook := mkTable (replicate N (book_empty SYMBOL_ID_NONE)) 0.

(** [&self.entries[..self.count as usize]] *)
Definition slots (t : MultiBook) : list TopOfBook := take (Z.to_nat (mb_count t)) (mb_entries t).

(** The linear scan every lookup makes: the first populated slot of [sym]. *)
Definition index_of (sym : Z) (t : MultiBook) : option nat :=
  first_index (fun b => tb_sym b =? sym) (slots t).

Definition track (sym : Z) (t : MultiBook) : MultiBook * result Z BookErr :=
  if sym =? SYMBOL_ID_NONE then (t, Err ReservedSymbol)
  else match index_of sym t with
       | Some _ => (t, Err AlreadyTracked)
       | None =>
           if (N <=? Z.to_nat (mb_count t))%nat then (t, Err Full)
           else (mkTable (<[Z.to_nat (mb_count t) := book_empty sym]> (mb_entries t)) (wrap_u32 (mb_count t + 1)),
                 Ok (mb_count t))
       end.

Definition apply_slot (i : nat) (tick : Tick) (t : MultiBook) : MultiBook * ApplyOutcome :=
  match mb_entries t !! i with
  | Some b => let '(b', o) := book_apply tick b in (mkTable (<[i := b']> (mb_entries t)) (mb_count t), o)
  | None => (t, WrongSymbol)
  end.

Definition mb_apply (tick : Tick) (t : MultiBook) : MultiBook * ApplyOutcome :=
  match index_of (tk_sym tick) t with
  | Some i => apply_slot i tick t
  | None => (t, WrongSymbol)
  end.

Definition apply_at (idx : nat) (tick : Tick) (t : MultiBook) : MultiBook * option ApplyOutcome :=
  if (Z.to_nat (mb_count t) <=? idx)%nat then (t, None)
  else match mb_entries t !! idx with
       | Some b =>
           if negb (tb_sym b =? tk_sym tick) then (t, None)
           else let '(t', o) := apply_slot idx tick t in (t', Some o)
       | None => (t, None)
       end.

Definition snapshot (sym : Z) (t : MultiBook) : option TopOfBook :=
  match index_of sym t with Some i => mb_entries t !! i | None => None end.

End Table.

(** ** What one slot shows *)

Section Slot.
Context (sym : Z).

Definition own (ts : list Tick) : list Tick := filter (fun t => tk_sym t = sym) ts.

(** The highest sequence number among ticks; 0 when there is none. *)
Definition top_seq (ts : list Tick) : Z := foldl (fun a t => Z.max a (tk_venue_seq t)) 0 ts.

(** The ticks that were no newer than one before them, and those that left
    a hole behind the newest before them. *)
Definition late (ts : list Tick) (i : nat) : bool :=
  match ts !! i with Some t => tk_venue_seq t <=? top_seq (take i ts) | None => false end.

Definition jumped (ts : list Tick) (i : nat) : bool :=
  match ts !! i with
  | Some t => negb (top_seq (take i ts) =? 0) && (top_seq (take i ts) + 1 <? tk_venue_seq t)
  | None => false
  end.

Definition applied_all (ts : list Tick) : TopOfBook :=
  foldl (fun b t => (book_apply t b).1) (book_empty sym) ts.

Lemma top_seq_snoc ts t : top_seq (ts ++ [t]) = Z.max (top_seq ts) (tk_venue_seq t).
Proof. unfold top_seq. by rewrite foldl_snoc. Qed.

Lemma top_seq_nonneg ts : 0 <= top_seq ts.
Proof. induction ts as [|t ts IH] using rev_ind; [done|]. rewrite top_seq_snoc. lia. Qed.

Lemma own_snoc ts t : own (ts ++ [t]) = own ts ++ (if decide (tk_sym t = sym) then [t] else []).
Proof. unfold own. rewrite filter_app, filter_cons. case_decide; by rewrite ?filter_nil. Qed.

(** An index test that looks back only counts alike in every longer run. *)
Lemma countb_snoc (f : list Tick -> nat -> bool) ts t :
  (forall i, (i < length ts)%nat -> f (ts ++ [t]) i = f ts i) ->
  countb (f (ts ++ [t])) (seq 0 (length (ts ++ [t]))) =
  (countb (f ts) (seq 0 (length ts)) + if f (ts ++ [t]) (length ts) then 1 else 0)%nat.
Proof.
  intros H. rewrite length_app. cbn [length]. rewrite Nat.add_1_r, seq_S, countb_app. cbn [countb Nat.add].
  rewrite Nat.add_0_r. f_equal. apply countb_ext. intros i [_ Hi]%elem_of_seq. by apply H.
Qed.

Lemma late_snoc ts t i : (i < length ts)%nat -> late (ts ++ [t]) i = late ts i.
Proof. intros H. unfold late. by rewrite lookup_app_l, take_app_le by lia. Qed.

Lemma jumped_snoc ts t i : (i < length ts)%nat -> jumped (ts ++ [t]) i = jumped ts i.
Proof. intros H. unfold jumped. by rewrite lookup_app_l, take_app_le by lia. Qed.

Lemma late_last ts t : late (ts ++ [t]) (length ts) = (tk_venue_seq t <=? top_seq ts).
Proof. unfold late. by rewrite list_lookup_middle, take_app_length by done. Qed.

Lemma jumped_last ts t :
  jumped (ts ++ [t]) (length ts) = negb (top_seq ts =? 0) && (top_seq ts + 1 <? tk_venue_seq t).
Proof. unfold jumped. by rewrite list_lookup_middle, take_app_length by done. Qed.

Definition count_where (f : list Tick -> nat -> bool) (ts : list Tick) : Z :=
  Z.of_nat (countb (f ts) (seq 0 (length ts))).

(** The quotes shown are [t]'s. *)
Definition shows (b : TopOfBook) (t : Tick) : Prop :=
  tb_venue_seq b = tk_venue_seq t /\ tb_bid_px b = tk_bid_px t /\ tb_bid_qty b = tk_bid_qty t /\
  tb_ask_px b = tk_ask_px t /\ tb_ask_qty b = tk_ask_qty t.

(** [t] is the first to carry the highest sequence number. *)
Definition first_newest (ts : list Tick) (t : Tick) : Prop :=
  exists before after, ts = before ++ t :: after /\ top_seq before < tk_venue_seq t /\ top_seq ts = tk_venue_seq t.

Lemma first_newest_snoc ts t u :
  first_newest ts t -> tk_venue_seq u <= top_seq ts -> first_newest (ts ++ [u]) t.
Proof.
  intros (before & after & -> & Hb & Ht) Hu. exists before, (after ++ [u]). split_and!.
  - by rewrite <- app_assoc.
  - done.
  - rewrite top_seq_snoc. lia.
Qed.

Lemma first_newest_last ts u : top_seq ts < tk_venue_seq u -> first_newest (ts ++ [u]) u.
Proof. intros H. exists ts, []. split_and!; [done|done|]. rewrite top_seq_snoc. lia. Qed.

(** The counters and the quotes after the ticks of the slot's own symbol. *)
Record slot_after (b : TopOfBook) (ts : list Tick) : Prop := {
  sa_sym : tb_sym b = sym;
  sa_seq : tb_venue_seq b = top_seq ts;
  sa_stale : tb_stale_drops b = wrap_u32 (count_where late ts);
  sa_gaps : tb_gaps b = wrap_u32 (count_where jumped ts);
  sa_quotes : tb_venue_seq b = 0 \/ exists t, first_newest ts t /\ shows b t
}.

Lemma wrap_u32_add_l a b : wrap_u32 (wrap_u32 a + b) = wrap_u32 (a + b).
Proof. unfold wrap_u32. by rewrite Zplus_mod_idemp_l. Qed.

Lemma wrap_u32_id z : 0 <= z <= u32_max -> wrap_u32 z = z.
Proof. int_lia. Qed.

Lemma count_where_snoc f ts t :
  (forall i, (i < length ts)%nat -> f (ts ++ [t]) i = f ts i) ->
  count_where f (ts ++ [t]) = count_where f ts + if f (ts ++ [t]) (length ts) then 1 else 0.
Proof. intros H. unfold count_where. rewrite countb_snoc by done. destruct (f _ _); lia. Qed.

(** The gap test of the code, on [u32] sequence numbers. *)
Lemma gap_test a s :
  0 <= a < s -> s <= u32_max -> (wrap_u32 (a + 1) <? s) = (a + 1 <? s).
Proof. intros Ha Hs. rewrite wrap_u32_id by lia. done. Qed.

Lemma slot_after_step b ts t :
  0 <= tk_venue_seq t <= u32_max -> tk_sym t = sym ->
  slot_after b ts -> slot_after (book_apply t b).1 (ts ++ [t]).
Proof.
  intros Ht He [Hsym Hseq Hst Hg Hq]. unfold book_apply. rewrite He, Hsym, Z.eqb_refl. cbn [negb].
  pose proof (top_seq_nonneg ts) as H0. rewrite Hseq in *.
  assert (Hl : count_where late (ts ++ [t]) = count_where late ts + if tk_venue_seq t <=? top_seq ts then 1 else 0).
  { rewrite count_where_snoc, late_last; [done|]. intros i Hi. by apply late_snoc. }
  assert (Hj : count_where jumped (ts ++ [t]) = count_where jumped ts +
    if negb (top_seq ts =? 0) && (top_seq ts + 1 <? tk_venue_seq t) then 1 else 0).
  { rewrite count_where_snoc, jumped_last; [done|]. intros i Hi. by apply jumped_snoc. }
  destruct (Z.leb_spec (tk_venue_seq t) (top_seq ts)) as [Hle|Hgt].
  - cbn [fst]. split; cbn [tb_sym tb_venue_seq tb_stale_drops tb_gaps].
    + done.
    + rewrite top_seq_snoc. lia.
    + by rewrite Hl, Hst, wrap_u32_add_l.
    + rewrite Hj, Hg. f_equal. rewrite (proj2 (Z.ltb_ge _ _)), andb_false_r by lia. lia.
    + destruct Hq as [?|(u & Hu & Hs)]; [by left|right]. exists u. split; [by apply first_newest_snoc|].
      unfold shows in *. cbn [tb_venue_seq tb_bid_px tb_bid_qty tb_ask_px tb_ask_qty]. by rewrite <- Hseq.
  - rewrite gap_test by lia. cbn [fst]. split; cbn [tb_sym tb_venue_seq tb_stale_drops tb_gaps].
    + done.
    + rewrite top_seq_snoc. lia.
    + rewrite Hl, Hst. f_equal. lia.
    + by rewrite Hj, Hg, wrap_u32_add_l.
    + right. exists t. split; [by apply first_newest_last|]. done.
Qed.

Lemma slot_after_other b ts t : tk_sym t <> sym -> slot_after b ts -> (book_apply t b).1 = b.
Proof. intros H [Hs _ _ _ _]. unfold book_apply. by rewrite Hs, (proj2 (Z.eqb_neq _ _) H). Qed.

End Slot.

(** A book fed any ticks shows the first tick of its symbol to carry
    the highest sequence number, counts every tick no newer than one before
    it as stale, and counts as gaps those that left a hole behind the
    newest. *)
Theorem book_shows_first_newest_tick (sym : Z) (ts : list Tick)
    (Hseq : Forall (fun t => 0 <= tk_venue_seq t <= u32_max) ts) :
  slot_after sym (applied_all sym ts) (own sym ts).
Proof.
  induction ts as [|t ts IH] using rev_ind.
  - split; try done. by left.
  - apply Forall_app in Hseq as [Hs Ht]. rewrite Forall_singleton in Ht. specialize (IH Hs).
    unfold applied_all in *. rewrite foldl_snoc, own_snoc. case_decide.
    + apply slot_after_step; [exact Ht|done|exact IH].
    + rewrite app_nil_r. by rewrite (slot_after_other sym _ (own sym ts)).
Qed.

(** ** The table is a map of books *)

Inductive TableOp : Type :=
| T_track (sym : Z) | T_apply (t : Tick) | T_apply_at (idx : nat) (t : Tick)
| T_snapshot (sym : Z) | T_index_of (sym : Z).

Inductive TableOut : Type :=
| Tracked (r : result Z BookErr) | Outcome (o : option ApplyOutcome)
| Snapshot (b : option TopOfBook) | Index (i : option nat).

Section Refinement.
Context (N : nat).

Definition run_table (t : MultiBook) (op : TableOp) : MultiBook * TableOut :=
  match op with
  | T_track sym => let '(t', r) := track N sym t in (t', Tracked r)
  | T_apply k => let '(t', o) := mb_apply k t in (t', Outcome (Some o))
  | T_apply_at i k => let '(t', o) := apply_at i k t in (t', Outcome o)
  | T_snapshot sym => (t, Snapshot (snapshot sym t))
  | T_index_of sym => (t, Index (index_of sym t))
  end.

(** The abstract table: the tracked symbols in order, and a book each. *)
Record BookMap := mkMap { bm_order : list Z; bm_books : gmap Z TopOfBook }.

Definition map_apply (k : Tick) (m : BookMap) : BookMap * ApplyOutcome :=
  match bm_books m !! tk_sym k with
  | Some b => let '(b', o) := book_apply k b in (mkMap (bm_order m) (<[tk_sym k := b']> (bm_books m)), o)
  | None => (m, WrongSymbol)
  end.

Definition run_map (m : BookMap) (op : TableOp) : BookMap * TableOut :=
  match op with
  | T_track sym =>
      if sym =? SYMBOL_ID_NONE then (m, Tracked (Err ReservedSymbol))
      else if bool_decide (sym ∈ bm_order m) then (m, Tracked (Err AlreadyTracked))
      else if (N <=? length (bm_order m))%nat then (m, Tracked (Err Full))
      else (mkMap (bm_order m ++ [sym]) (<[sym := book_empty sym]> (bm_books m)),
            Tracked (Ok (Z.of_nat (length (bm_order m)))))
  | T_apply k => let '(m', o) := map_apply k m in (m', Outcome (Some o))
  | T_apply_at i k =>
      if bool_decide (bm_order m !! i = Some (tk_sym k))
      then let '(m', o) := map_apply k m in (m', Outcome (Some o)) else (m, Outcome None)
  | T_snapshot sym => (m, Snapshot (bm_books m !! sym))
  | T_index_of sym => (m, Index (first_index (Z.eqb sym) (bm_order m)))
  end.

Record refines (t : MultiBook) (m : BookMap) : Prop := {
  rf_len : length (mb_entries t) = N;
  rf_count : mb_count t = Z.of_nat (length (bm_order m));
  rf_cap : (length (bm_order m) <= N)%nat;
  rf_order : bm_order m = tb_sym <$> slots t;
  rf_nodup : NoDup (bm_order m);
  rf_books : forall sym b, bm_books m !! sym = Some b <-> (b ∈ slots t /\ tb_sym b = sym)
}.

Lemma first_index_fmap {A B} (f : A -> B) (p : B -> bool) l : first_index p (f <$> l) = first_index (fun x => p (f x)) l.
Proof. induction l as [|x l IH]; [done|]. cbn [fmap list_fmap first_index]. by rewrite <- IH. Qed.

Lemma index_of_order t m sym : refines t m -> index_of sym t = first_index (Z.eqb sym) (bm_order m).
Proof.
  intros [_ _ _ Ho _ _]. rewrite Ho, first_index_fmap. unfold index_of.
  clear Ho. induction (slots t) as [|b l IH]; [done|]. cbn [first_index]. by rewrite (Z.eqb_sym sym), IH.
Qed.

Lemma slots_lookup t m i b : refines t m -> slots t !! i = Some b <-> ((i < length (bm_order m))%nat /\ mb_entries t !! i = Some b).
Proof. intros [_ Hc _ _ _ _]. unfold slots. rewrite Hc, Nat2Z.id, lookup_take_Some. tauto. Qed.

Lemma slot_of_order t m i sym :
  refines t m -> bm_order m !! i = Some sym -> exists b, slots t !! i = Some b /\ tb_sym b = sym /\ bm_books m !! sym = Some b.
Proof.
  intros [_ _ _ Ho _ Hb] Hi. rewrite Ho, list_lookup_fmap in Hi. destruct (slots t !! i) as [b|] eqn:E; [|done].
  injection Hi as <-. exists b. split_and!; [done..|]. apply Hb. split; [|done]. by apply list_elem_of_lookup_2 in E.
Qed.

Lemma book_apply_sym k b : tb_sym (book_apply k b).1 = tb_sym b.
Proof. unfold book_apply. by case_ifs. Qed.

(** Applying a tick to the slot of its symbol is applying it to the map. *)
Lemma apply_slot_refines t m i k :
  refines t m -> bm_order m !! i = Some (tk_sym k) ->
  refines (apply_slot i k t).1 (map_apply k m).1 /\ (apply_slot i k t).2 = (map_apply k m).2.
Proof.
  intros Hr Hi. destruct (slot_of_order t m i _ Hr Hi) as (b & Hb & Hs & Hm).
  pose proof (proj1 (slots_lookup t m i b Hr) Hb) as [Hlt He].
  unfold apply_slot, map_apply. rewrite He, Hm. pose proof (book_apply_sym k b) as Hsym.
  destruct (book_apply k b) as [b' o]. cbn [fst snd] in *. split; [|done].
  assert (Hsl : slots (mkTable (<[i := b']> (mb_entries t)) (mb_count t)) = <[i := b']> (slots t)).
  { unfold slots. cbn [mb_entries mb_count]. apply take_insert_lt. rewrite (rf_count t m Hr). lia. }
  destruct Hr as [Hl Hc Hcap Ho Hnd Hbk].
  split; cbn [mb_entries mb_count bm_order bm_books]; rewrite ?Hsl, ?length_insert; try done.
  - rewrite Ho, list_fmap_insert, Hsym. symmetry. apply list_insert_id. by rewrite list_lookup_fmap, Hb.
  - intros sym c. rewrite lookup_insert. rewrite list_elem_of_lookup. case_decide as Hd.
    + subst sym. split.
      * intros [= ->]. split; [|congruence]. exists i. apply list_lookup_insert_eq. by apply lookup_lt_Some in Hb.
      * intros [[j Hj] Hc']. destruct (decide (i = j)) as [->|Hne].
        { rewrite list_lookup_insert_eq in Hj by (by apply lookup_lt_Some in Hb). congruence. }
        rewrite list_lookup_insert_ne in Hj by done. exfalso. apply Hne.
        apply (NoDup_lookup (bm_order m) i j (tk_sym k)); [done..|]. by rewrite Ho, list_lookup_fmap, Hj, <- Hc'.
    + rewrite Hbk, list_elem_of_lookup. split; intros [[j Hj] Hc']; (split; [|done]); exists j.
      * rewrite list_lookup_insert_ne; [done|]. intros ->. congruence.
      * destruct (decide (i = j)) as [->|Hne]; [|by rewrite list_lookup_insert_ne in Hj].
        rewrite list_lookup_insert_eq in Hj by (by apply lookup_lt_Some in Hb). congruence.
Qed.

Lemma index_Some t m sym i : refines t m -> index_of sym t = Some i -> bm_order m !! i = Some sym.
Proof.
  intros Hr. rewrite (index_of_order t m) by done. intros (x & Hx & He & _)%first_index_Some.
  apply Z.eqb_eq in He as ->. done.
Qed.

Lemma index_None t m sym : refines t m -> index_of sym t = None <-> sym ∉ bm_order m.
Proof.
  intros Hr. rewrite (index_of_order t m), first_index_None by done. split.
  - intros H Hin. specialize (H sym Hin). by rewrite Z.eqb_refl in H.
  - intros H x Hx. apply Z.eqb_neq. by intros ->.
Qed.

Lemma untracked_has_no_book t m sym : refines t m -> sym ∉ bm_order m -> bm_books m !! sym = None.
Proof.
  intros [_ _ _ Ho _ Hb] Hn. destruct (bm_books m !! sym) as [b|] eqn:E; [|done]. exfalso. apply Hn.
  apply Hb in E as [Hin <-]. rewrite Ho. by apply list_elem_of_fmap_2.
Qed.

Lemma track_refines t m sym :
  Z.of_nat N <= u32_max -> refines t m -> sym ∉ bm_order m -> (length (bm_order m) < N)%nat ->
  refines (mkTable (<[Z.to_nat (mb_count t) := book_empty sym]> (mb_entries t)) (wrap_u32 (mb_count t + 1)))
    (mkMap (bm_order m ++ [sym]) (<[sym := book_empty sym]> (bm_books m))).
Proof.
  intros HN Hr Hn Hlt. pose proof (untracked_has_no_book t m sym Hr Hn) as Hnone.
  destruct Hr as [Hl Hc Hcap Ho Hnd Hb]. set (n := length (bm_order m)) in *. rewrite Hc, Nat2Z.id.
  assert (Hs : slots (mkTable (<[n := book_empty sym]> (mb_entries t)) (wrap_u32 (Z.of_nat n + 1)))
               = slots t ++ [book_empty sym]).
  { unfold slots. cbn [mb_entries mb_count]. rewrite wrap_u32_id by lia. rewrite Hc, Nat2Z.id.
    replace (Z.to_nat (Z.of_nat n + 1)) with (S n) by lia.
    rewrite (take_S_r _ _ (book_empty sym)) by (apply list_lookup_insert_eq; lia). by rewrite take_insert_ge by lia. }
  split; cbn [mb_entries mb_count bm_order bm_books]; rewrite ?Hs, ?length_insert, ?length_app; cbn [length].
  - done.
  - rewrite wrap_u32_id by lia. lia.
  - lia.
  - by rewrite fmap_app, <- Ho.
  - apply NoDup_app. split_and!; [done| |apply NoDup_singleton]. intros x Hx. rewrite list_elem_of_singleton. by intros ->.
  - intros s b. rewrite lookup_insert, elem_of_app, list_elem_of_singleton. case_decide as Hd.
    + subst s. split; [intros [= <-]; split; [by right|done]|]. intros [[Hin| ->] Hbs]; [|done].
      pose proof (proj2 (Hb sym b) (conj Hin Hbs)). congruence.
    + rewrite Hb. split; [intros [? ?]; split; [by left|done]|]. intros [[?| ->] Hbs]; [done|]. by cbn in Hbs.
Qed.

Lemma refines_empty : refines (MultiBook_empty N) (mkMap [] ∅).
Proof.
  split; cbn [MultiBook_empty mb_entries mb_count bm_order bm_books]; try done.
  - apply length_replicate.
  - cbn [length]. lia.
  - apply NoDup_nil_2.
  - intros s b. rewrite lookup_empty. split; [done|]. intros [Hin _]. by apply not_elem_of_nil in Hin.
Qed.

(** Every operation answers as the map does and keeps the correspondence. *)
Lemma run_refines t m op :
  Z.of_nat N <= u32_max -> refines t m ->
  refines (run_table t op).1 (run_map m op).1 /\ (run_table t op).2 = (run_map m op).2.
Proof.
  intros HN Hr. destruct op as [sym|k|i k|sym|sym]; cbn [run_table run_map].
  - unfold track. destruct (sym =? SYMBOL_ID_NONE); [done|]. destruct (index_of sym t) as [i|] eqn:E.
    + rewrite bool_decide_eq_true_2; [done|]. apply (index_Some t m) in E; [|done]. by apply list_elem_of_lookup_2 in E.
    + apply (index_None t m) in E; [|done]. rewrite bool_decide_eq_false_2 by done.
      rewrite (rf_count t m Hr), Nat2Z.id. destruct (Nat.leb_spec N (length (bm_order m))) as [|Hlt]; [done|].
      cbn [fst snd]. split; [|done]. pose proof (track_refines t m sym HN Hr E Hlt) as H.
      by rewrite (rf_count t m Hr), Nat2Z.id in H.
  - unfold mb_apply. destruct (index_of (tk_sym k) t) as [i|] eqn:E.
    + apply (index_Some t m) in E; [|done]. pose proof (apply_slot_refines t m i k Hr E) as [H1 H2].
      destruct (apply_slot i k t), (map_apply k m). cbn [fst snd] in *. by subst.
    + apply (index_None t m) in E; [|done]. unfold map_apply. by rewrite (untracked_has_no_book t m).
  - unfold apply_at. rewrite (rf_count t m Hr), Nat2Z.id.
    destruct (Nat.leb_spec (length (bm_order m)) i) as [Hge|Hlt].
    { rewrite bool_decide_eq_false_2; [done|]. by rewrite lookup_ge_None_2. }
    destruct (lookup_lt_is_Some_2 _ _ Hlt) as [sym Hi].
    destruct (slot_of_order t m i sym Hr Hi) as (b & Hb & Hs & _).
    rewrite (proj2 (proj1 (slots_lookup t m i b Hr) Hb)), Hi, Hs.
    destruct (Z.eqb_spec sym (tk_sym k)) as [->|Hne]; cbn [negb].
    + rewrite bool_decide_eq_true_2 by done. pose proof (apply_slot_refines t m i k Hr Hi) as [H1 H2].
      destruct (apply_slot i k t), (map_apply k m). cbn [fst snd] in *. by subst.
    + rewrite bool_decide_eq_false_2 by congruence. done.
  - split; [done|]. cbn [snd]. f_equal. unfold snapshot. destruct (index_of sym t) as [i|] eqn:E.
    + apply (index_Some t m) in E; [|done]. destruct (slot_of_order t m i sym Hr E) as (b & Hb & _ & ->).
      apply (slots_lookup t m i b Hr) in Hb as [_ ->]. done.
    + apply (index_None t m) in E; [|done]. by rewrite (untracked_has_no_book t m).
  - split; [done|]. cbn [snd]. by rewrite (index_of_order t m).
Qed.

End Refinement.

(** What a caller of the table sees, call by call. *)
Fixpoint answers {S} (run : S -> TableOp -> S * TableOut) (s : S) (ops : list TableOp) : list TableOut :=
  match ops with
  | [] => []
  | op :: ops => let '(s', o) := run s op in o :: answers run s' ops
  end.

(** Called in any sequence, the fixed table answers as a map from
    tracked symbols to books that keeps their tracking order: the same
    errors, the same apply outcomes, snapshots and indices, with a cached
    index applying exactly where its symbol still is. *)
Theorem table_is_a_map_of_books (N : nat) (ops : list TableOp) (HN : Z.of_nat N <= u32_max) :
  answers (run_table N) (MultiBook_empty N) ops = answers (run_map N) (mkMap [] ∅) ops.
Proof.
  assert (H : refines N (MultiBook_empty N) (mkMap [] ∅)) by apply refines_empty.
  revert H. generalize (MultiBook_empty N) (mkMap [] ∅). induction ops as [|op ops IH]; intros t m Hr; [done|].
  cbn [answers]. pose proof (run_refines N t m op HN Hr) as [H1 H2].
  destruct (run_table N t op), (run_map N m op). cbn [fst snd] in *. by rewrite H2, (IH _ _ H1).
Qed.

Definition quote (sym seq : Z) : Tick := mkTick sym seq 100 10 101 20 0.

Lemma book_shows_first_newest_tick_witness :
  slot_after 7 (applied_all 7 [quote 7 1; quote 8 5; quote 7 4; quote 7 2]) [quote 7 1; quote 7 4; quote 7 2] /\
  tb_gaps (applied_all 7 [quote 7 1; quote 8 5; quote 7 4; quote 7 2]) = 1.
Proof.
  split; [|vm_compute; reflexivity].
  apply (book_shows_first_newest_tick 7 [quote 7 1; quote 8 5; quote 7 4; quote 7 2]).
  repeat (apply Forall_cons; split; [vm_compute; split; discriminate|]). apply Forall_nil. exact I.
Defined.

Lemma table_is_a_map_of_books_witness :
  Z.of_nat 2 <= u32_max /\
  answers (run_table 2) (MultiBook_empty 2) [T_track 7; T_track 7; T_track 8; T_track 9; T_apply (quote 8 3); T_snapshot 8] =
  answers (run_map 2) (mkMap [] ∅) [T_track 7; T_track 7; T_track 8; T_track 9; T_apply (quote 8 3); T_snapshot 8].
Proof.
  assert (H : Z.of_nat 2 <= u32_max) by (vm_compute; discriminate). split; [exact H|].
  apply (table_is_a_map_of_books 2 [T_track 7; T_track 7; T_track 8; T_track 9; T_apply (quote 8 3); T_snapshot 8] H).
Defined.
