(* ===== verification/Halt.v ===== *)
(** * The sticky halt and the hold ([crates/exec-router/src/halt.rs])

    The triggers over an arm's signal ([HaltSignal] of
    [crates/clob-dispatcher]), the per-slot latch with its cancel cycle and
    hold masks, and the halt file: its render into the fixed buffer and its
    parser. Text is a list of Unicode scalar values. *)

From Stdlib Require Import String Ascii.
From stdpp Require Import list.
From S2P Require Import Prelude LedgerBase.
#[local] Open Scope Z_scope.

(** ** Reasons *)

Inductive HaltReason : Type :=
| HR_None | RejectStreak | BudgetFloor | ReconDrift | WsGap | AssetRefusals | Operator
| ReconStale | PnlGain | PnlLoss | VenueLock | MarginRisk | AloRejectRate | GatewayHalt.

#[export] Instance halt_reason_eq_dec : EqDecision HaltReason.
Proof. solve_decision. Defined.

Definition chars (s : string) : list Z := (fun c => Z.of_nat (nat_of_ascii c)) <$> list_ascii_of_string s.

Definition as_str (r : HaltReason) : list Z :=
  chars match r with
        | HR_None => "none"
        | RejectStreak => "reject-streak"
        | BudgetFloor => "budget-floor"
        | ReconDrift => "recon-drift"
        | WsGap => "ws-gap"
        | AssetRefusals => "asset-refusals"
        | Operator => "operator"
        | ReconStale => "recon-stale"
        | PnlGain => "pnl-gain"
        | PnlLoss => "pnl-loss"
        | VenueLock => "venue-lock"
        | MarginRisk => "margin-risk"
        | AloRejectRate => "alo-reject-rate"
        | GatewayHalt => "gateway-halt"
        end.

(** The words the parser knows; every other word means [Operator]. *)
Definition known_words : list HaltReason :=
  [RejectStreak; BudgetFloor; ReconDrift; WsGap; AssetRefusals; ReconStale; PnlGain; PnlLoss;
   VenueLock; MarginRisk; AloRejectRate; GatewayHalt].

Definition from_word (word : list Z) : HaltReason :=
  default Operator (list_find (fun r => as_str r = word) known_words ≫= fun x => Some x.2).

Definition reason_halted (r : HaltReason) : bool := match r with HR_None => false | _ => true end.

(** ** What an arm reports, and a slot's thresholds *)

Record HaltSignal := mkSignal {
  sg_ws_gap_ns : Z;
  sg_recon_drift : Z;
  sg_reject_streak : Z;
  sg_asset_refusals : Z;
  sg_budget_floor : Z;
  sg_reconciled : Z;
  sg_pnl_judged : Z;
  sg_venue_lock : Z;
  sg_margin_risk : Z;
  sg_gateway_halted : Z;
  sg_alo_permille : Z;
  sg_recon_age_ns : Z;
  sg_pnl_delta : Z;
  sg_resync_pending : Z
}.

Record HaltLimits := mkLimits {
  lm_recon_drift : Z;
  lm_ws_gap_ms : Z;
  lm_recon_stale_ms : Z;
  lm_reject_streak : Z;
  lm_asset_refusals : Z;
  lm_pnl_gain : Z;
  lm_pnl_loss : Z;
  lm_alo_permille : Z
}.

Definition flag (b : bool) : Z := if b then 1 else 0.
Definition either (a b : Z) : Z := flag (negb (Z.lor a b =? 0)).
Definition both (a b : Z) : Z := flag (negb (a =? 0) && negb (b =? 0)).

(** One slot's signal from two arms that both trade it. *)
Definition merged (a b : HaltSignal) : HaltSignal :=
  mkSignal (Z.max (sg_ws_gap_ns a) (sg_ws_gap_ns b)) (Z.max (sg_recon_drift a) (sg_recon_drift b))
    (Z.max (sg_reject_streak a) (sg_reject_streak b)) (Z.max (sg_asset_refusals a) (sg_asset_refusals b))
    (either (sg_budget_floor a) (sg_budget_floor b)) (both (sg_reconciled a) (sg_reconciled b))
    (both (sg_pnl_judged a) (sg_pnl_judged b)) (either (sg_venue_lock a) (sg_venue_lock b))
    (either (sg_margin_risk a) (sg_margin_risk b)) (either (sg_gateway_halted a) (sg_gateway_halted b))
    (Z.max (sg_alo_permille a) (sg_alo_permille b)) (Z.max (sg_recon_age_ns a) (sg_recon_age_ns b))
    (sat_i64 (sg_pnl_delta a + sg_pnl_delta b)) (either (sg_resync_pending a) (sg_resync_pending b)).

Definition trigger_for (sig : HaltSignal) (lim : HaltLimits) : HaltReason :=
  if negb (sg_venue_lock sig =? 0) then VenueLock
  else if negb (sg_margin_risk sig =? 0) then MarginRisk
  else if (0 <? lm_reject_streak lim) && (lm_reject_streak lim <=? sg_reject_streak sig) then RejectStreak
  else if (0 <? lm_asset_refusals lim) && (lm_asset_refusals lim <=? sg_asset_refusals sig) then AssetRefusals
  else if negb (sg_budget_floor sig =? 0) then BudgetFloor
  else if negb (sg_gateway_halted sig =? 0) then GatewayHalt
  else if (0 <? lm_alo_permille lim) && (lm_alo_permille lim <=? sg_alo_permille sig) then AloRejectRate
  else if (0 <? lm_recon_drift lim) && (lm_recon_drift lim <=? sg_recon_drift sig) then ReconDrift
  else if negb (sg_pnl_judged sig =? 0)
  then if (0 <? lm_pnl_gain lim) && (lm_pnl_gain lim <=? sg_pnl_delta sig) then PnlGain
       else if (0 <? lm_pnl_loss lim) && (sg_pnl_delta sig <=? wrap_i64 (- lm_pnl_loss lim)) then PnlLoss
       else HR_None
  else HR_None.

Definition HOLD_WS_GAP : Z := 1.
Definition HOLD_RECON_STALE : Z := 2.

(** A threshold of 0 is unset, a reading of 0 no observation. *)
Definition past_ms (limit_ms reading_ns : Z) : bool :=
  (0 <? limit_ms) && (0 <? reading_ns) && (limit_ms <=? wrap_i64 (reading_ns / 1000000)).

Definition hold_for (sig : HaltSignal) (lim : HaltLimits) : Z :=
  Z.lor (flag (past_ms (lm_ws_gap_ms lim) (sg_ws_gap_ns sig)) * HOLD_WS_GAP)
        (flag (past_ms (lm_recon_stale_ms lim) (sg_recon_age_ns sig)) * HOLD_RECON_STALE).

Definition hold_clear (sig : HaltSignal) (lim : HaltLimits) : bool :=
  (sg_resync_pending sig =? 0) && (hold_for sig lim =? 0).

(** ** The per-slot latch *)

Definition CANCEL_NONE : Z := 0.
Definition CANCEL_WANTED : Z := 1.
Definition CANCEL_ASKED : Z := 2.
Definition CANCEL_RETRY : Z := 3.

Inductive CancelPhase : Type := CP_None | CP_Wanted | CP_Asked | CP_Retry.

#[export] Instance cancel_phase_eq_dec : EqDecision CancelPhase.
Proof. solve_decision. Defined.

Record HaltState := mkHalt {
  hs_reasons : list HaltReason;
  hs_pending : list Z;
  hs_halts : Z;
  hs_failures : Z;
  hs_stranded : Z;
  hs_held_gap : Z;
  hs_held_stale : Z;
  hs_holds : Z
}.

Definition HaltState_new : HaltState :=
  mkHalt (replicate EXEC_SLOTS HR_None) (replicate EXEC_SLOTS 0) 0 0 0 0 0 0.

Definition reason (slot : nat) (h : HaltState) : HaltReason := default HR_None (hs_reasons h !! slot).
Definition is_halted (slot : nat) (h : HaltState) : bool := reason_halted (reason slot h).
Definition any_halted (h : HaltState) : bool := existsb reason_halted (hs_reasons h).
Definition cancel_outstanding (h : HaltState) : bool := existsb (fun p => negb (p =? 0)) (hs_pending h).

Definition set_pending (slot : nat) (p : Z) (h : HaltState) : HaltState :=
  mkHalt (hs_reasons h) (<[slot := p]> (hs_pending h)) (hs_halts h) (hs_failures h) (hs_stranded h)
    (hs_held_gap h) (hs_held_stale h) (hs_holds h).

Definition latch (slot : nat) (why : HaltReason) (h : HaltState) : HaltState * bool :=
  if (EXEC_SLOTS <=? slot)%nat || negb (reason_halted why) || is_halted slot h then (h, false)
  else (mkHalt (<[slot := why]> (hs_reasons h)) (<[slot := CANCEL_WANTED]> (hs_pending h))
          (sat_u64 (hs_halts h + 1)) (hs_failures h) (hs_stranded h)
          (hs_held_gap h) (hs_held_stale h) (hs_holds h), true).

Definition cancel_cleared (slot : nat) (h : HaltState) : HaltState :=
  if (slot <? EXEC_SLOTS)%nat then set_pending slot CANCEL_NONE h else h.

Definition cancel_requested (slot : nat) (h : HaltState) : HaltState :=
  if (slot <? EXEC_SLOTS)%nat &&
     ((get (hs_pending h) slot =? CANCEL_WANTED) || (get (hs_pending h) slot =? CANCEL_RETRY))
  then set_pending slot CANCEL_ASKED h else h.

Definition cancel_phase (slot : nat) (h : HaltState) : CancelPhase :=
  if (EXEC_SLOTS <=? slot)%nat then CP_None
  else if get (hs_pending h) slot =? CANCEL_WANTED then CP_Wanted
  else if get (hs_pending h) slot =? CANCEL_ASKED then CP_Asked
  else if get (hs_pending h) slot =? CANCEL_RETRY then CP_Retry
  else CP_None.

Definition cancel_failed (slot : nat) (h : HaltState) : HaltState :=
  let h := mkHalt (hs_reasons h) (hs_pending h) (hs_halts h) (sat_u64 (hs_failures h + 1)) (hs_stranded h)
             (hs_held_gap h) (hs_held_stale h) (hs_holds h) in
  if (slot <? EXEC_SLOTS)%nat && (get (hs_pending h) slot =? CANCEL_ASKED) then set_pending slot CANCEL_RETRY h else h.

Definition cancel_stranded (h : HaltState) : HaltState :=
  mkHalt (hs_reasons h) (hs_pending h) (hs_halts h) (hs_failures h) (sat_u64 (hs_stranded h + 1))
    (hs_held_gap h) (hs_held_stale h) (hs_holds h).

(** [m * u16::from(b)] with [m = 1 << slot]. *)
Definition slot_bit (slot : nat) (b : bool) : Z := Z.shiftl 1 (Z.of_nat slot) * flag b.

Definition is_held (slot : nat) (h : HaltState) : bool :=
  (slot <? EXEC_SLOTS)%nat &&
  negb (Z.land (Z.lor (hs_held_gap h) (hs_held_stale h)) (Z.shiftl 1 (Z.of_nat slot)) =? 0).

Definition held_bits (slot : nat) (h : HaltState) : Z :=
  if (EXEC_SLOTS <=? slot)%nat then 0
  else Z.lor (flag (negb (Z.land (hs_held_gap h) (Z.shiftl 1 (Z.of_nat slot)) =? 0)) * HOLD_WS_GAP)
             (flag (negb (Z.land (hs_held_stale h) (Z.shiftl 1 (Z.of_nat slot)) =? 0)) * HOLD_RECON_STALE).

Definition hold (slot : nat) (bits : Z) (h : HaltState) : HaltState * bool :=
  if (EXEC_SLOTS <=? slot)%nat || (bits =? 0) then (h, false)
  else
    let was := is_held slot h in
    let gap := Z.lor (hs_held_gap h) (slot_bit slot (negb (Z.land bits HOLD_WS_GAP =? 0))) in
    let stale := Z.lor (hs_held_stale h) (slot_bit slot (negb (Z.land bits HOLD_RECON_STALE =? 0))) in
    if was then (mkHalt (hs_reasons h) (hs_pending h) (hs_halts h) (hs_failures h) (hs_stranded h) gap stale (hs_holds h), false)
    else
      let pending := if get (hs_pending h) slot =? CANCEL_NONE
                     then <[slot := CANCEL_WANTED]> (hs_pending h) else hs_pending h in
      (mkHalt (hs_reasons h) pending (hs_halts h) (hs_failures h) (hs_stranded h) gap stale (sat_u32 (hs_holds h + 1)), true).

Definition release (slot : nat) (h : HaltState) : HaltState * bool :=
  if negb (is_held slot h) || negb (get (hs_pending h) slot =? CANCEL_NONE) then (h, false)
  else
    let keep := 65535 - Z.shiftl 1 (Z.of_nat slot) in
    (mkHalt (hs_reasons h) (hs_pending h) (hs_halts h) (hs_failures h) (hs_stranded h)
       (Z.land (hs_held_gap h) keep) (Z.land (hs_held_stale h) keep) (hs_holds h), true).

(** ** The halt file *)

Definition HALT_FILE_MAX : nat := 640.

Definition NEWLINE : Z := 10.

(** [put]: what fits of [bytes] after the used prefix of the buffer. *)
Definition put_bytes (used bytes : list Z) : list Z := used ++ take (HALT_FILE_MAX - length used) bytes.

Definition HEADER_1 : list Z := chars "# exec.HALT - engine-written. Delete it and restart to clear." ++ [NEWLINE].
Definition HEADER_2 : list Z := chars "# A line is `slot=<n> reason=<word>`; a bare number works too." ++ [NEWLINE].

(** One turn of the render loop. *)
Definition render_slot (reasons : list HaltReason) (used : list Z) (slot : nat) : list Z :=
  let why := default HR_None (reasons !! slot) in
  if reason_halted why then
    let used := put_bytes used (chars "slot=") in
    let used := if (10 <=? slot)%nat then put_bytes used [48 + Z.of_nat (slot / 10)] else used in
    let used := put_bytes used [48 + Z.of_nat (slot mod 10)] in
    let used := put_bytes used (chars " reason=") in
    let used := put_bytes used (as_str why) in
    put_bytes used [NEWLINE]
  else used.

(** The used prefix of the buffer, [buf[..n]]. *)
Definition render_halt_file (reasons : list HaltReason) : list Z :=
  foldl (render_slot reasons) (put_bytes (put_bytes [] HEADER_1) HEADER_2) (seq 0 EXEC_SLOTS).

(** *** Reading text, as [str] does *)

(** [str::from_utf8]: the scalar values, or nothing where a sequence is cut,
    overlong, a surrogate or past U+10FFFF. *)
Definition within (lo hi c : Z) : bool := (lo <=? c) && (c <=? hi).
Definition continues (c : Z) : bool := within 128 191 c.

Definition second_of_three (b0 b1 : Z) : bool :=
  if b0 =? 224 then within 160 191 b1
  else if b0 =? 237 then within 128 159 b1
  else within 225 239 b0 && continues b1.

Definition second_of_four (b0 b1 : Z) : bool :=
  if b0 =? 240 then within 144 191 b1
  else if b0 =? 244 then within 128 143 b1
  else within 241 243 b0 && continues b1.

Fixpoint from_utf8 (l : list Z) : option (list Z) :=
  match l with
  | [] => Some []
  | b0 :: r =>
      if within 0 127 b0 then cons b0 <$> from_utf8 r
      else match r with
           | [] => None
           | b1 :: r1 =>
               if within 194 223 b0
               then if continues b1 then cons ((b0 - 192) * 64 + (b1 - 128)) <$> from_utf8 r1 else None
               else match r1 with
                    | [] => None
                    | b2 :: r2 =>
                        if within 224 239 b0
                        then if second_of_three b0 b1 && continues b2
                             then cons (((b0 - 224) * 64 + (b1 - 128)) * 64 + (b2 - 128)) <$> from_utf8 r2
                             else None
                        else match r2 with
                             | [] => None
                             | b3 :: r3 =>
                                 if within 240 244 b0 && second_of_four b0 b1 && continues b2 && continues b3
                                 then cons ((((b0 - 240) * 64 + (b1 - 128)) * 64 + (b2 - 128)) * 64 + (b3 - 128)) <$> from_utf8 r3
                                 else None
                             end
                    end
           end
  end.

(** [char::is_whitespace], the Unicode [White_Space] property. *)
Definition is_whitespace (c : Z) : bool :=
  ((9 <=? c) && (c <=? 13)) || (c =? 32) || (c =? 133) || (c =? 160) || (c =? 5760) ||
  ((8192 <=? c) && (c <=? 8202)) || (c =? 8232) || (c =? 8233) || (c =? 8239) || (c =? 8287) || (c =? 12288).

Definition strip_cr (l : list Z) : list Z :=
  match last l with Some 13 => take (length l - 1) l | _ => l end.

(** [str::lines]: a final newline ends the last line and opens none. *)
Fixpoint lines_from (cur text : list Z) : list (list Z) :=
  match text with
  | [] => match cur with [] => [] | _ => [cur] end
  | c :: r => if c =? NEWLINE then strip_cr cur :: lines_from [] r else lines_from (cur ++ [c]) r
  end.

Definition lines (text : list Z) : list (list Z) := lines_from [] text.

Fixpoint trim_start (l : list Z) : list Z :=
  match l with c :: r => if is_whitespace c then trim_start r else l | [] => [] end.

Definition trim (l : list Z) : list Z := rev (trim_start (rev (trim_start l))).

(** [str::split_whitespace]: the maximal runs without whitespace. *)
Fixpoint fields_from (cur text : list Z) : list (list Z) :=
  match text with
  | [] => match cur with [] => [] | _ => [cur] end
  | c :: r =>
      if is_whitespace c
      then match cur with [] => fields_from [] r | _ => cur :: fields_from [] r end
      else fields_from (cur ++ [c]) r
  end.

Definition split_whitespace (text : list Z) : list (list Z) := fields_from [] text.

Fixpoint strip_prefix (p l : list Z) : option (list Z) :=
  match p, l with
  | [], _ => Some l
  | a :: p, b :: l => if a =? b then strip_prefix p l else None
  | _ :: _, [] => None
  end.

(** [usize::from_str]: one optional [+], then digits, within the width. *)
Fixpoint digits_from (v : Z) (l : list Z) : option Z :=
  match l with
  | [] => Some v
  | c :: r =>
      if (48 <=? c) && (c <=? 57) && (v * 10 + (c - 48) <=? u64_max)
      then digits_from (v * 10 + (c - 48)) r else None
  end.

Definition parse_usize (l : list Z) : option Z :=
  match l with
  | [] => None
  | c :: r => if c =? 43 then match r with [] => None | _ => digits_from 0 r end else digits_from 0 l
  end.

(** *** The parser *)

Definition parse_field (st : option Z * HaltReason) (field : list Z) : option Z * HaltReason :=
  let '(slot, why) := st in
  match strip_prefix (chars "slot=") field with
  | Some v => (parse_usize v, why)
  | None =>
      match strip_prefix (chars "reason=") field with
      | Some v => (slot, from_word v)
      | None => match slot with None => (parse_usize field, why) | Some _ => (slot, why) end
      end
  end.

Definition parse_line (out : list HaltReason) (raw : list Z) : list HaltReason :=
  let line := trim raw in
  if bool_decide (line = []) || bool_decide (head line = Some 35) then out
  else
    match foldl parse_field (None, Operator) (split_whitespace line) with
    | (Some i, why) => if i <? Z.of_nat EXEC_SLOTS then <[Z.to_nat i := why]> out else out
    | (None, _) => out
    end.

Definition parse_halt_file (text : list Z) : list HaltReason :=
  foldl parse_line (replicate EXEC_SLOTS HR_None) (lines text).

(** ** The file gives back the halts *)

Definition slot_line (slot : nat) (why : HaltReason) : list Z :=
  chars "slot=" ++ (if (10 <=? slot)%nat then [48 + Z.of_nat (slot / 10)] else []) ++
  [48 + Z.of_nat (slot mod 10)] ++ chars " reason=" ++ as_str why.

Definition all_reasons : list HaltReason := Operator :: known_words.

Lemma in_all_reasons why : reason_halted why = true -> why ∈ all_reasons.
Proof. destruct why; try done; intros _; unfold all_reasons, known_words; set_solver. Qed.

(** Every slot's line at every word parses to that slot and word, fits 31
    bytes and holds no newline: all 208 are checked. *)
Definition line_ok (slot : nat) (why : HaltReason) : bool :=
  let l := slot_line slot why in
  bool_decide (trim l <> [] /\ head (trim l) <> Some 35) &&
  bool_decide (foldl parse_field (None, Operator) (split_whitespace (trim l)) = (Some (Z.of_nat slot), why)) &&
  (length l + 1 <=? 31)%nat && forallb (fun c => negb (c =? NEWLINE)) l && bool_decide (strip_cr l = l).

Lemma lines_ok : forallb (fun slot => forallb (line_ok slot) all_reasons) (seq 0 EXEC_SLOTS) = true.
Proof. vm_compute. reflexivity. Qed.

Lemma line_is_ok slot why : (slot < EXEC_SLOTS)%nat -> reason_halted why = true -> line_ok slot why = true.
Proof.
  intros Hs Hw. pose proof (forallb_lookup _ _ slot slot lines_ok) as H.
  rewrite lookup_seq_lt in H by done. specialize (H eq_refl).
  apply in_all_reasons, list_elem_of_lookup in Hw as [j Hj]. by apply (forallb_lookup _ _ j _ H).
Qed.

Lemma lines_from_line cur l rest :
  forallb (fun c => negb (c =? NEWLINE)) l = true ->
  lines_from cur (l ++ NEWLINE :: rest) = strip_cr (cur ++ l) :: lines_from [] rest.
Proof.
  revert cur. induction l as [|c l IH]; intros cur H; cbn [app lines_from].
  - by rewrite Z.eqb_refl, app_nil_r.
  - cbn [forallb] in H. apply andb_true_iff in H as [Hc H]. destruct (c =? NEWLINE); [done|].
    rewrite IH by done. by rewrite <- app_assoc.
Qed.

Lemma put_fits used bytes : (length used + length bytes <= HALT_FILE_MAX)%nat -> put_bytes used bytes = used ++ bytes.
Proof. intros H. unfold put_bytes. rewrite take_ge; [done|lia]. Qed.

(** The lines of the slots from [s] on. *)
Definition slot_lines (reasons : list HaltReason) (slots : list nat) : list Z :=
  concat ((fun s => let why := default HR_None (reasons !! s) in
                    if reason_halted why then slot_line s why ++ [NEWLINE] else []) <$> slots).

Lemma render_slot_fits reasons used slot :
  (slot < EXEC_SLOTS)%nat -> (length used + 31 <= HALT_FILE_MAX)%nat ->
  render_slot reasons used slot = used ++ slot_lines reasons [slot].
Proof.
  intros Hs Hu. unfold render_slot, slot_lines. cbn [fmap list_fmap concat]. rewrite app_nil_r.
  set (why := default HR_None (reasons !! slot)). destruct (reason_halted why) eqn:Hw; [|by rewrite app_nil_r].
  pose proof (line_is_ok slot why Hs Hw) as Hok. unfold line_ok in Hok.
  rewrite !andb_true_iff, Nat.leb_le in Hok. destruct Hok as [[[_ Hl] _] _].
  unfold slot_line in *. rewrite !length_app in Hl. cbn [length] in Hl.
  destruct (10 <=? slot)%nat; cbn [length] in Hl;
    rewrite (put_fits used) by lia; rewrite !(put_fits (_ ++ _)) by (rewrite !length_app; cbn [length]; lia);
    by rewrite <- !app_assoc.
Qed.

Definition headers : list Z := HEADER_1 ++ HEADER_2.

Lemma slot_lines_app reasons s1 s2 : slot_lines reasons (s1 ++ s2) = slot_lines reasons s1 ++ slot_lines reasons s2.
Proof. unfold slot_lines. by rewrite fmap_app, concat_app. Qed.

Lemma length_slot_line reasons slot : (slot < EXEC_SLOTS)%nat -> (length (slot_lines reasons [slot]) <= 31)%nat.
Proof.
  intros Hs. unfold slot_lines. cbn [fmap list_fmap concat]. rewrite app_nil_r. destruct (reason_halted _) eqn:Hw; [|cbn; lia].
  pose proof (line_is_ok slot _ Hs Hw) as Hok. unfold line_ok in Hok. rewrite !andb_true_iff, Nat.leb_le in Hok.
  destruct Hok as [[[_ Hl] _] _]. rewrite length_app. cbn [length]. lia.
Qed.

Lemma length_headers : length headers = 125%nat.
Proof. vm_compute. reflexivity. Qed.

(** The render never truncates: two header lines and 31 bytes a slot. *)
Lemma render_whole reasons n :
  (n <= EXEC_SLOTS)%nat ->
  foldl (render_slot reasons) (put_bytes (put_bytes [] HEADER_1) HEADER_2) (seq 0 n) =
    headers ++ slot_lines reasons (seq 0 n) /\
  (length (headers ++ slot_lines reasons (seq 0 n)) <= 125 + 31 * n)%nat.
Proof.
  induction n as [|n IH]; intros Hn.
  - cbn [seq foldl]. split; [vm_compute; reflexivity|]. rewrite app_nil_r, length_headers. lia.
  - rewrite seq_S, foldl_snoc. cbn [Nat.add]. destruct (IH ltac:(lia)) as [-> Hl].
    pose proof (length_slot_line reasons n ltac:(lia)) as H31.
    rewrite slot_lines_app, app_assoc. split.
    + apply render_slot_fits; [lia|]. unfold EXEC_SLOTS, HALT_FILE_MAX in *. lia.
    + rewrite length_app. lia.
Qed.

Lemma parse_slot_line slot why out :
  (slot < EXEC_SLOTS)%nat -> reason_halted why = true ->
  parse_line out (strip_cr (slot_line slot why)) = <[slot := why]> out.
Proof.
  intros Hs Hw. pose proof (line_is_ok slot why Hs Hw) as Hok. unfold line_ok in Hok.
  rewrite !andb_true_iff, !bool_decide_eq_true in Hok. destruct Hok as [[[[[Hne Hh] Hp] _] _] Hcr].
  unfold parse_line. rewrite Hcr. rewrite !bool_decide_eq_false_2 by done. cbn [orb]. rewrite Hp.
  rewrite (proj2 (Z.ltb_lt _ _)) by lia. by rewrite Nat2Z.id.
Qed.

(** What the parsed lines leave is what the slots held. *)
Definition restore_slot (reasons : list HaltReason) (out : list HaltReason) (s : nat) : list HaltReason :=
  let why := default HR_None (reasons !! s) in if reason_halted why then <[s := why]> out else out.

Lemma parse_slot_lines reasons slots out :
  Forall (fun s => (s < EXEC_SLOTS)%nat) slots ->
  foldl parse_line out (lines_from [] (slot_lines reasons slots)) = foldl (restore_slot reasons) out slots.
Proof.
  intros H. revert out. induction H as [|s slots Hs _ IH]; intros out; [done|].
  change (s :: slots) with ([s] ++ slots). rewrite slot_lines_app. cbn [app foldl].
  unfold slot_lines at 1. cbn [fmap list_fmap concat]. rewrite app_nil_r. unfold restore_slot at 2.
  destruct (reason_halted _) eqn:Hw; [|apply IH].
  pose proof (line_is_ok s _ Hs Hw) as Hok. unfold line_ok in Hok. rewrite !andb_true_iff in Hok.
  destruct Hok as [[_ Hnl] _]. rewrite <- app_assoc. cbn [app]. rewrite lines_from_line by done.
  cbn [app foldl]. rewrite parse_slot_line by done. apply IH.
Qed.

Lemma restore_all reasons n :
  length reasons = EXEC_SLOTS -> (n <= EXEC_SLOTS)%nat ->
  foldl (restore_slot reasons) (replicate EXEC_SLOTS HR_None) (seq 0 n) =
    take n reasons ++ replicate (EXEC_SLOTS - n) HR_None.
Proof.
  intros Hl. induction n as [|n IH]; intros Hn; [by rewrite take_0, Nat.sub_0_r|].
  rewrite seq_S, foldl_snoc, IH by lia. cbn [Nat.add]. destruct (lookup_lt_is_Some_2 reasons n ltac:(lia)) as [why Hw].
  rewrite (take_S_r _ _ _ Hw). unfold restore_slot. rewrite Hw. cbn [default].
  replace (EXEC_SLOTS - n)%nat with (S (EXEC_SLOTS - S n)) by lia. cbn [replicate].
  assert (Hlen : length (take n reasons) = n) by (rewrite length_take; lia).
  rewrite <- app_assoc. cbn [app id]. destruct (reason_halted why) eqn:E.
  - rewrite insert_app_r_alt by lia. by rewrite Hlen, Nat.sub_diag.
  - by destruct why.
Qed.

Lemma render_parses (reasons : list HaltReason) :
  length reasons = EXEC_SLOTS ->
  (length (render_halt_file reasons) <= HALT_FILE_MAX)%nat /\
  parse_halt_file (render_halt_file reasons) = reasons.
Proof.
  intros Hl. destruct (render_whole reasons EXEC_SLOTS ltac:(lia)) as [Hr Hlen].
  unfold render_halt_file. rewrite Hr. split; [unfold EXEC_SLOTS, HALT_FILE_MAX in *; lia|].
  unfold parse_halt_file. unfold headers. rewrite <- app_assoc. unfold lines, HEADER_1, HEADER_2. rewrite <- !app_assoc.
  cbn [app]. rewrite lines_from_line by (vm_compute; reflexivity). cbn [app].
  rewrite lines_from_line by (vm_compute; reflexivity). cbn [app foldl].
  rewrite parse_slot_lines by (apply Forall_forall; intros s [_ Hs]%elem_of_seq; lia).
  change (parse_line (parse_line (replicate EXEC_SLOTS HR_None)
    (strip_cr (chars "# exec.HALT - engine-written. Delete it and restart to clear.")))
    (strip_cr (chars "# A line is `slot=<n> reason=<word>`; a bare number works too."))) with (replicate EXEC_SLOTS HR_None).
  rewrite restore_all by (done || lia). rewrite Nat.sub_diag. cbn [replicate]. rewrite app_nil_r. by apply take_ge; lia.
Qed.

(** The file is ASCII, so its bytes are its characters. *)
Lemma from_utf8_ascii l : forallb (within 0 127) l = true -> from_utf8 l = Some l.
Proof.
  induction l as [|c l IH]; [done|]. cbn [forallb from_utf8]. intros [Hc H]%andb_true_iff. rewrite Hc, IH; done.
Qed.

Lemma lines_ascii :
  forallb (fun slot => forallb (fun why => forallb (within 0 127) (slot_line slot why)) all_reasons) (seq 0 EXEC_SLOTS) = true.
Proof. vm_compute. reflexivity. Qed.

Lemma slot_line_ascii slot why :
  (slot < EXEC_SLOTS)%nat -> reason_halted why = true -> forallb (within 0 127) (slot_line slot why) = true.
Proof.
  intros Hs Hw. pose proof (forallb_lookup _ _ slot slot lines_ascii) as H.
  rewrite lookup_seq_lt in H by done. specialize (H eq_refl).
  apply in_all_reasons, list_elem_of_lookup in Hw as [j Hj]. by apply (forallb_lookup _ _ j _ H).
Qed.

Lemma slot_lines_ascii reasons n : (n <= EXEC_SLOTS)%nat -> forallb (within 0 127) (slot_lines reasons (seq 0 n)) = true.
Proof.
  induction n as [|n IH]; intros Hn; [done|]. rewrite seq_S, slot_lines_app, forallb_app, IH by lia.
  cbn [Nat.add andb]. unfold slot_lines. cbn [fmap list_fmap concat]. rewrite app_nil_r.
  destruct (reason_halted _) eqn:Hw; [|done]. by rewrite forallb_app, slot_line_ascii by (done || lia).
Qed.

Lemma render_decodes reasons : from_utf8 (render_halt_file reasons) = Some (render_halt_file reasons).
Proof.
  apply from_utf8_ascii. unfold render_halt_file. destruct (render_whole reasons EXEC_SLOTS ltac:(lia)) as [-> _].
  by rewrite forallb_app, slot_lines_ascii by lia.
Qed.

(** What the file says is what the slots held. *)
Theorem halt_file_survives_restart (reasons : list HaltReason) :
  length reasons = EXEC_SLOTS ->
  (length (render_halt_file reasons) <= HALT_FILE_MAX)%nat /\
  parse_halt_file (render_halt_file reasons) = reasons.
Proof. exact (render_parses reasons). Qed.

Lemma halt_file_survives_restart_witness :
  let reasons := <[3%nat := WsGap]> (<[15%nat := AloRejectRate]> (replicate EXEC_SLOTS HR_None)) in
  length reasons = EXEC_SLOTS /\
  (length (render_halt_file reasons) <= HALT_FILE_MAX)%nat /\ parse_halt_file (render_halt_file reasons) = reasons.
Proof.
  cbv zeta. split; [reflexivity|].
  apply (halt_file_survives_restart (<[3%nat := WsGap]> (<[15%nat := AloRejectRate]> (replicate EXEC_SLOTS HR_None)))).
  reflexivity.
Defined.
