(* ===== verification/Route.v ===== *)
(** * The routing table ([crates/exec-router/src/route.rs], [mode.rs],
    [counters.rs], and the alias table of [crates/clob-dispatcher])

    Which arm a strategy slot trades on, which venues it may reach, its
    clamps and thresholds; the counters the router bumps. A slot id and a
    venue are bytes. *)

From S2P Require Import Prelude CoreTypes LedgerBase Halt.

(** ** Modes *)

Inductive ExecMode : Type := Paper | Live | Off.

#[export] Instance exec_mode_eq_dec : EqDecision ExecMode.
Proof. solve_decision. Defined.

(** Anything that is not a known byte is [Paper]. *)
Definition mode_from_u8 (b : Z) : ExecMode := if b =? 1 then Live else if b =? 2 then Off else Paper.
Definition mode_as_u8 (m : ExecMode) : Z := match m with Paper => 0 | Live => 1 | Off => 2 end.

(** ** Clamps *)

Definition EXEC_VENUES : Z := 16.

Record SlotCaps := mkCaps {
  max_order_usd_1e6 : Z;
  cap_instance_usd_1e6 : Z;
  cap_day_usd_1e6 : Z;
  max_open_orders : Z
}.

Definition caps_none : SlotCaps := mkCaps 0 0 0 0.
Definition limits_none : HaltLimits := mkLimits 0 0 0 0 0 0 0 0.

Record PerpLimits := mkPerpLimits { cap_perp_usd_1e6 : Z; max_resting_usd_1e6 : Z }.

Definition perp_none : PerpLimits := mkPerpLimits 0 0.
Definition perp_is_set (p : PerpLimits) : bool := (0 <? cap_perp_usd_1e6 p) || (0 <? max_resting_usd_1e6 p).

Inductive ExecRouteErr : Type := SlotOutOfRange | VenueOutOfRange | PerpLimitsPartial.

(** ** The table *)

Record ExecRoute := mkRoute {
  er_modes : list Z;
  er_venue_mask : list Z;
  er_caps : list SlotCaps;
  er_halts : list HaltLimits;
  er_perp : list PerpLimits
}.

Definition all_paper : ExecRoute :=
  mkRoute (replicate EXEC_SLOTS 0) (replicate EXEC_SLOTS 0) (replicate EXEC_SLOTS caps_none)
    (replicate EXEC_SLOTS limits_none) (replicate EXEC_SLOTS perp_none).

(** The venue list's mask, or the first venue out of range. *)
Fixpoint venue_bits (venues : list Z) (mask : Z) : result Z ExecRouteErr :=
  match venues with
  | [] => Ok mask
  | v :: vs => if EXEC_VENUES <=? v then Err VenueOutOfRange else venue_bits vs (Z.lor mask (Z.shiftl 1 v))
  end.

Definition set_slot (slot : nat) (mode : ExecMode) (venues : list Z) (caps : SlotCaps) (halts : HaltLimits)
    (t : ExecRoute) : ExecRoute * result unit ExecRouteErr :=
  if (EXEC_SLOTS <=? slot)%nat then (t, Err SlotOutOfRange)
  else
    match venue_bits venues 0 with
    | Err e => (t, Err e)
    | Ok mask =>
        (mkRoute (<[slot := mode_as_u8 mode]> (er_modes t)) (<[slot := mask]> (er_venue_mask t))
           (<[slot := caps]> (er_caps t)) (<[slot := halts]> (er_halts t)) (er_perp t), Ok tt)
    end.

Definition set_perp_limits (slot : nat) (lim : PerpLimits) (t : ExecRoute) : ExecRoute * result unit ExecRouteErr :=
  if (EXEC_SLOTS <=? slot)%nat then (t, Err SlotOutOfRange)
  else
    let none := (cap_perp_usd_1e6 lim =? 0) && (max_resting_usd_1e6 lim =? 0) in
    let both := (0 <? cap_perp_usd_1e6 lim) && (0 <? max_resting_usd_1e6 lim) in
    if negb none && negb both then (t, Err PerpLimitsPartial)
    else (mkRoute (er_modes t) (er_venue_mask t) (er_caps t) (er_halts t) (<[slot := lim]> (er_perp t)), Ok tt).

(** [strategy_id & (EXEC_SLOTS - 1)] and the in-range flag beside it. *)
Definition masked_slot (strategy_id : Z) : nat := Z.to_nat (Z.land strategy_id (Z.of_nat EXEC_SLOTS - 1)).
Definition slot_ok (strategy_id : Z) : Z := flag (strategy_id <? Z.of_nat EXEC_SLOTS).

Definition mode (t : ExecRoute) (strategy_id : Z) : ExecMode :=
  mode_from_u8 ((get (er_modes t) (masked_slot strategy_id) * slot_ok strategy_id) mod 256).

Definition venue_allowed (t : ExecRoute) (strategy_id venue : Z) : bool :=
  let bit := Z.land (Z.shiftr (get (er_venue_mask t) (masked_slot strategy_id)) (Z.land venue (EXEC_VENUES - 1))) 1 in
  Z.land (Z.land bit (slot_ok strategy_id)) (flag (venue <? EXEC_VENUES)) =? 1.

Definition mode_at (t : ExecRoute) (slot : nat) : option ExecMode :=
  if (EXEC_SLOTS <=? slot)%nat then None else Some (mode_from_u8 (get (er_modes t) slot)).

Definition is_live (t : ExecRoute) (slot : nat) : bool := bool_decide (mode_at t slot = Some Live).

Definition at_slot {A} (l : list A) (slot : nat) : option A :=
  if (EXEC_SLOTS <=? slot)%nat then None else l !! slot.

Definition caps_at (t : ExecRoute) (slot : nat) : option SlotCaps := at_slot (er_caps t) slot.
Definition halts_at (t : ExecRoute) (slot : nat) : option HaltLimits := at_slot (er_halts t) slot.
Definition perp_at (t : ExecRoute) (slot : nat) : option PerpLimits := at_slot (er_perp t) slot.

Definition mode_mask (t : ExecRoute) (m : ExecMode) : Z :=
  foldl (fun acc i => Z.lor acc (Z.shiftl (flag (get (er_modes t) i =? mode_as_u8 m)) (Z.of_nat i))) 0 (seq 0 EXEC_SLOTS).

Definition live_mask (t : ExecRoute) : Z := mode_mask t Live.
Definition off_mask (t : ExecRoute) : Z := mode_mask t Off.
Definition any_live (t : ExecRoute) : bool := negb (live_mask t =? 0).

Definition venue_live (t : ExecRoute) (venue : Z) : bool :=
  if EXEC_VENUES <=? venue then false
  else existsb (fun i => (get (er_modes t) i =? mode_as_u8 Live) &&
                  negb (Z.land (get (er_venue_mask t) i) (Z.shiftl 1 venue) =? 0)) (seq 0 EXEC_SLOTS).

(** ** Route aliases *)

Definition ROUTE_ALIASES_MAX : nat := 4.
Definition ROUTE_ALIAS_EMPTY : Z := 255.

Record RouteAlias := mkAlias { ra_sym : Z; ra_venue : Z }.

Definition aliases_none : list RouteAlias := replicate ROUTE_ALIASES_MAX (mkAlias SYMBOL_ID_NONE ROUTE_ALIAS_EMPTY).

Inductive RouteAliasErr : Type := AliasNoneSym | AliasBadVenue | AliasDuplicate | AliasFull.

Definition alias_with (sym venue : Z) (es : list RouteAlias) : result (list RouteAlias) RouteAliasErr :=
  if sym =? SYMBOL_ID_NONE then Err AliasNoneSym
  else if venue =? ROUTE_ALIAS_EMPTY then Err AliasBadVenue
  else if existsb (fun e => negb (ra_venue e =? ROUTE_ALIAS_EMPTY) && (ra_sym e =? sym)) es then Err AliasDuplicate
  else match first_index (fun e => ra_venue e =? ROUTE_ALIAS_EMPTY) es with
       | Some i => Ok (<[i := mkAlias sym venue]> es)
       | None => Err AliasFull
       end.

(** The four compares, unrolled: the last match wins. *)
Definition route_venue (es : list RouteAlias) (sym venue : Z) : Z :=
  foldl (fun v e => if (ra_sym e =? sym) && negb (ra_venue e =? ROUTE_ALIAS_EMPTY) then ra_venue e else v) venue es.

(** ** What the router counts *)

Inductive RiskRefusal : Type :=
| MaxOrder | CapInstance | CapDay | OpenOrders | Unseeded | Halted | Short | Unpriced
| CapPerp | MaxResting | ForeignRow | Held.

#[export] Instance risk_refusal_eq_dec : EqDecision RiskRefusal.
Proof. solve_decision. Defined.

(** The breakdown is a counter per reason; [refused_risk] is the sum. *)
Record RouteCounters := mkRouteCounters {
  live_submits : Z;
  paper_submits : Z;
  refused_off : Z;
  refused_no_route : Z;
  refused_risk : Z;
  refused_by_reason : RiskRefusal -> Z;
  cancel_on_off : Z;
  live_submits_by_slot : list Z;
  refused_by_slot : list Z
}.

Definition RouteCounters_new : RouteCounters :=
  mkRouteCounters 0 0 0 0 0 (fun _ => 0) 0 (replicate EXEC_SLOTS 0) (replicate EXEC_SLOTS 0).

Definition sat_inc (z : Z) : Z := sat_u64 (z + 1).
Definition bump_slot (strategy_id : Z) (a : list Z) : list Z := upd sat_inc (masked_slot strategy_id) a.

Definition on_live_submit (id : Z) (c : RouteCounters) : RouteCounters :=
  mkRouteCounters (sat_inc (live_submits c)) (paper_submits c) (refused_off c) (refused_no_route c) (refused_risk c)
    (refused_by_reason c) (cancel_on_off c) (bump_slot id (live_submits_by_slot c)) (refused_by_slot c).

Definition on_paper_submit (c : RouteCounters) : RouteCounters :=
  mkRouteCounters (live_submits c) (sat_inc (paper_submits c)) (refused_off c) (refused_no_route c) (refused_risk c)
    (refused_by_reason c) (cancel_on_off c) (live_submits_by_slot c) (refused_by_slot c).

Definition on_refused_off (id : Z) (c : RouteCounters) : RouteCounters :=
  mkRouteCounters (live_submits c) (paper_submits c) (sat_inc (refused_off c)) (refused_no_route c) (refused_risk c)
    (refused_by_reason c) (cancel_on_off c) (live_submits_by_slot c) (bump_slot id (refused_by_slot c)).

Definition on_cancel_on_off (c : RouteCounters) : RouteCounters :=
  mkRouteCounters (live_submits c) (paper_submits c) (refused_off c) (refused_no_route c) (refused_risk c)
    (refused_by_reason c) (sat_inc (cancel_on_off c)) (live_submits_by_slot c) (refused_by_slot c).

Definition on_refused_no_route (id : Z) (c : RouteCounters) : RouteCounters :=
  mkRouteCounters (live_submits c) (paper_submits c) (refused_off c) (sat_inc (refused_no_route c)) (refused_risk c)
    (refused_by_reason c) (cancel_on_off c) (live_submits_by_slot c) (bump_slot id (refused_by_slot c)).

Definition on_refused_risk (id : Z) (why : RiskRefusal) (c : RouteCounters) : RouteCounters :=
  mkRouteCounters (live_submits c) (paper_submits c) (refused_off c) (refused_no_route c) (sat_inc (refused_risk c))
    (fun w => if decide (w = why) then sat_inc (refused_by_reason c w) else refused_by_reason c w)
    (cancel_on_off c) (live_submits_by_slot c) (bump_slot id (refused_by_slot c)).
