(* ===== verification/Router.v ===== *)
(** * The routed dispatcher ([crates/exec-router/src/routed.rs])

    Each order goes to the paper arm, to the live arm past the risk gate,
    or nowhere. The two arms meet the interface [OrderDispatch], the trait
    of [crates/clob-dispatcher]; what they answer is theirs. The
    bytes of the file [exec.HALT] are part of the state, which others may
    replace; how much of them a poll sees and whether a write succeeds are
    arguments of the operations. *)

From S2P Require Import Prelude CoreTypes LedgerBase LedgerResting LedgerInst Ledger Halt Route.

(** ** Requests *)

Definition ORDER_FLAG_REDUCE_ONLY : Z := 1.

Record Order := mkOrder {
  o_ts_ns : Z;
  o_sym : Z;
  o_side : Side;
  o_flags : Z;
  o_px : Z;
  o_qty : Z;
  o_client_oid : Z;
  o_venue : Z;
  o_strategy_id : Z
}.

Record CancelReq := mkCancel { cr_client_oid : Z; cr_sym : Z; cr_venue : Z; cr_strategy_id : Z }.
Record ModifyReq := mkModify { mr_prev_client_oid : Z; mr_order : Order }.

Definition o_slot (o : Order) : nat := Z.to_nat (o_strategy_id o).
Definition o_buy (o : Order) : bool := side_eqb (o_side o) Bid.

Inductive DispatchError : Type := SlotDisabled | NoLiveRoute | RiskRefused | ArmError (code : Z).

Inductive CancelAllState : Type := CA_Clear | CA_Working | CA_Stranded.

Record Renamed := mkRenamed { rn_prev : Z; rn_oid : Z; rn_qty : Z; rn_sym : Z; rn_slot : nat; rn_buy : bool }.
Record Retired := mkRetired { rt_oid : Z; rt_slot : nat; rt_why : Z }.

(** ** What the router asks of an arm *)

Class OrderDispatch (A : Type) := {
  od_submit : Order -> A -> A * result unit DispatchError;
  od_cancel : CancelReq -> A -> A * result unit DispatchError;
  od_modify : ModifyReq -> A -> A * result unit DispatchError;
  od_cancel_slot : nat -> A -> A * result unit DispatchError;
  od_cancel_slot_state : nat -> A -> CancelAllState;
  od_halt_signal_for : nat -> A -> HaltSignal;
  od_venue_day_bought : nat -> A -> option (Z * Z);
  od_verbs_confirm_later : Z -> Z -> Z -> A -> bool;
  od_on_idle : A -> A * bool;
  od_try_next_fill : A -> A * option Fill;
  od_observe_tick : Tick -> Z -> A -> A;
  od_on_venue_event : ChannelEvent -> A -> A;
  od_on_opt_summary : OptSummary -> A -> A;
  od_set_route_aliases : list RouteAlias -> A -> A;
  od_exec_health : Z -> Z -> A -> ExecHealth;
  od_try_next_renamed : A -> A * option Renamed;
  od_try_next_retired : A -> A * option Retired;
  od_halt_signal : A -> HaltSignal;
  od_cancel_all : A -> A * result unit DispatchError;
  od_cancel_all_state : A -> CancelAllState;
  od_on_fill_booked : Fill -> A -> A;
  od_on_shutdown : A -> A
}.

(** ** The risk gate *)

Inductive RiskVerb : Type := Place | Replace (prev : Z).

Definition replaced (v : RiskVerb) : option Z := match v with Place => None | Replace p => Some p end.
Definition is_place (v : RiskVerb) : bool := match v with Place => true | Replace _ => false end.

Section Gate.
#[local] Open Scope machine_scope.

(** The slot is at its count of working orders. *)
Definition at_open_cap (l : Ledger) (slot : nat) (caps : SlotCaps) : bool :=
  max_open_orders caps <=? slot_resting slot (resting l).

Definition judge_instrument (o : Order) (verb : RiskVerb) (caps : SlotCaps) (perp : PerpLimits) (p : InstProbe)
    (l : Ledger) : Ledger * option RiskRefusal :=
  let slot := o_slot o in
  match refusal p with
  | RShort => (l, Some Short)
  | RUnpriced => (l, Some Unpriced)
  | RForeign => (l, Some ForeignRow)
  | RNone =>
      if is_place verb && at_open_cap l slot caps then (l, Some OpenOrders)
      else if exit p then (l, None)
      else if perp_is_set perp && (0 <? unmarked_positions (inst l) slot) then (l, Some Unpriced)
      else if max_order_usd_1e6 caps <? measure_1e6 p then (l, Some MaxOrder)
      else if (0 <? cap_perp_usd_1e6 perp) && (cap_perp_usd_1e6 perp <? inventory_next_1e6 p)
              && (inventory_now_1e6 p <? inventory_next_1e6 p) then (l, Some CapPerp)
      else if (0 <? max_resting_usd_1e6 perp) && (max_resting_usd_1e6 perp <? resting_next_1e6 p)
              && (resting_usd_1e6 slot (resting l) <? resting_next_1e6 p) then (l, Some MaxResting)
      else
        let l := observe_mono_clock (o_ts_ns o) l in
        if (cap_instance_usd_1e6 caps <? projected_1e6 p) && (current_1e6 p <? projected_1e6 p)
        then (l, Some CapInstance)
        else if (0 <? turnover_add_1e6 p)
                && (cap_day_usd_1e6 caps <? slot_day_turnover_1e6 l slot +| turnover_add_1e6 p)
        then (l, Some CapDay)
        else (l, None)
  end.

Definition judge_perp (o : Order) (verb : RiskVerb) (caps : SlotCaps) (l : Ledger) : Ledger * option RiskRefusal :=
  let slot := o_slot o in
  if bool_decide (perp_owner (inst l) (o_sym o) <> Some (o_strategy_id o)) then (l, Some ForeignRow)
  else if (o_px o <=? 0) || (o_qty o <=? 0) then (l, Some Unpriced)
  else
    let opening := perp_opening_1e6 (inst l) (o_sym o) (o_side o) (o_qty o) (o_px o) in
    let exit := (opening =? 0) && negb (Z.land (o_flags o) ORDER_FLAG_REDUCE_ONLY =? 0) in
    let notional := notional_1e6 (o_px o) (o_qty o) in
    if (max_order_usd_1e6 caps <? notional) && negb exit then (l, Some MaxOrder)
    else if is_place verb && at_open_cap l slot caps then (l, Some OpenOrders)
    else
      let l := observe_mono_clock (o_ts_ns o) l in
      let '(cur, proj) := perp_projection_1e6 (inst l) slot (o_sym o) (o_side o) (o_qty o) (o_px o) in
      let rest := slot_exposure_1e6 l slot -| perp_exposure_1e6 (inst l) slot in
      let current := rest +| cur in
      let projected := rest +| proj in
      if (cap_instance_usd_1e6 caps <? projected) && (current <? projected) then (l, Some CapInstance)
      else if (0 <? opening) && (cap_day_usd_1e6 caps <? slot_day_turnover_1e6 l slot +| opening)
      then (l, Some CapDay)
      else (l, None).

(** The family clamps: an outcome leg, or an order no row knows. *)
Definition judge_family (o : Order) (verb : RiskVerb) (caps : SlotCaps) (l : Ledger) : Ledger * option RiskRefusal :=
  let slot := o_slot o in
  let buy := o_buy o in
  let notional := notional_1e6 (o_px o) (o_qty o) in
  let not_an_exit := buy || (held_on_sym_1e6 l slot (o_sym o) <? o_qty o) in
  if (max_order_usd_1e6 caps <? notional) && not_an_exit then (l, Some MaxOrder)
  else if is_place verb && at_open_cap l slot caps && not_an_exit then (l, Some OpenOrders)
  else
    let l := observe_mono_clock (o_ts_ns o) l in
    let current := slot_exposure_1e6 l slot in
    let projected := projected_exposure_1e6 l slot (o_sym o) (o_qty o) buy in
    if (cap_instance_usd_1e6 caps <? projected) && (current <? projected) then (l, Some CapInstance)
    else if buy && (cap_day_usd_1e6 caps <? slot_day_turnover_1e6 l slot +| notional) then (l, Some CapDay)
    else (l, None).

(** The gate: the ledger as the clock left it, and the clamp that refused. *)
Definition risk_check (route : ExecRoute) (halt : HaltState) (o : Order) (venue : Z) (verb : RiskVerb) (l : Ledger)
  : Ledger * option RiskRefusal :=
  let slot := o_slot o in
  match caps_at route slot with
  | None => (l, Some Unseeded)
  | Some caps =>
      if is_halted slot halt then (l, Some Halted)
      else if is_held slot halt then (l, Some Held)
      else if negb (is_slot_seeded l slot) then (l, Some Unseeded)
      else if is_perp (inst l) (o_sym o) then judge_perp o verb caps l
      else
        let perp := default perp_none (perp_at route slot) in
        let p := if perp_is_set perp
                 then probe_perp l (o_sym o) slot (o_qty o) (o_buy o) (o_px o) (replaced verb)
                 else probe_instrument l (o_sym o) slot (o_qty o) (o_buy o) (o_px o) (replaced verb) in
        match p with
        | Some p => judge_instrument o verb caps perp p l
        | None =>
            if (venue =? VENUE_BINANCE) || perp_is_set perp then (l, Some Unpriced)
            else judge_family o verb caps l
        end
  end.
End Gate.

(** ** The halt file on disk *)

Definition HALT_POLL_EVERY_NS : Z := 1000000000.

(** What [metadata], [open] and [read] say of the path: its modification
    time, whether it is a regular file, its length, whether it opens, and the
    bytes the reads give until the buffer is full or they end ([None] for a
    read that fails). *)
Record FileView := mkView {
  fv_meta : option (option Z * bool * Z);
  fv_opens : bool;
  fv_bytes : option (list Z)
}.

(** What the system shows of the path while the file there holds the bytes
    given: its times, its kind and its failures. *)
Definition FileSight : Type := option (list Z) -> FileView.

Definition mtime (v : FileView) : option Z := fv_meta v ≫= fun m => m.1.1.

Inductive HaltFileRead : Type := Absent | Refused | Read (bytes : list Z).

Definition read_halt_file (v : FileView) : HaltFileRead :=
  match fv_meta v with
  | None => Absent
  | Some (_, is_file, len) =>
      if negb is_file then Refused
      else if Z.of_nat HALT_FILE_MAX <? len then Refused
      else if negb (fv_opens v) then Refused
      else match fv_bytes v with None => Refused | Some bytes => Read (take HALT_FILE_MAX bytes) end
  end.

(** The router's file: whether it has a path, the bytes of the file that is
    there ([None]: no file), and what the polls saw and counted. The bytes are
    the disk's, not the router's: someone else may edit or delete the file
    between two calls, and what a poll or a boot is shown of it is a function
    of them. *)
Record HaltFile := mkFile {
  hf_path : bool;
  hf_disk : option (list Z);
  hf_seen : option Z;
  hf_poll_last_ns : Z;
  hf_polls : Z;
  hf_reads : Z;
  hf_present : bool;
  hf_inert : Z;
  hf_adopted : Z
}.

Definition HaltFile_new : HaltFile := mkFile false None None 0 0 0 false 0 0.

Definition with_path (b : bool) (f : HaltFile) : HaltFile :=
  mkFile b (hf_disk f) (hf_seen f) (hf_poll_last_ns f) (hf_polls f) (hf_reads f) (hf_present f) (hf_inert f) (hf_adopted f).
Definition with_disk (d : option (list Z)) (f : HaltFile) : HaltFile :=
  mkFile (hf_path f) d (hf_seen f) (hf_poll_last_ns f) (hf_polls f) (hf_reads f) (hf_present f) (hf_inert f) (hf_adopted f).
Definition with_seen (t : option Z) (f : HaltFile) : HaltFile :=
  mkFile (hf_path f) (hf_disk f) t (hf_poll_last_ns f) (hf_polls f) (hf_reads f) (hf_present f) (hf_inert f) (hf_adopted f).
Definition polled (now : Z) (f : HaltFile) : HaltFile :=
  mkFile (hf_path f) (hf_disk f) (hf_seen f) now (sat_u64 (hf_polls f + 1)) (hf_reads f) (hf_present f) (hf_inert f) (hf_adopted f).
Definition read_once (f : HaltFile) : HaltFile :=
  mkFile (hf_path f) (hf_disk f) (hf_seen f) (hf_poll_last_ns f) (hf_polls f) (sat_u64 (hf_reads f + 1)) (hf_present f) (hf_inert f) (hf_adopted f).
Definition present (f : HaltFile) : HaltFile :=
  mkFile (hf_path f) (hf_disk f) (hf_seen f) (hf_poll_last_ns f) (hf_polls f) (hf_reads f) true (hf_inert f) (hf_adopted f).
Definition inert (f : HaltFile) : HaltFile :=
  mkFile (hf_path f) (hf_disk f) (hf_seen f) (hf_poll_last_ns f) (hf_polls f) (hf_reads f) (hf_present f) (sat_u64 (hf_inert f + 1)) (hf_adopted f).
Definition adopted (n : nat) (f : HaltFile) : HaltFile :=
  mkFile (hf_path f) (hf_disk f) (hf_seen f) (hf_poll_last_ns f) (hf_polls f) (hf_reads f) (hf_present f) (hf_inert f) (Z.of_nat n).

(** What one write of the file does: whether it lands, and the modification
    time read back after it. *)
Record FileWrite := mkWrite { fw_ok : bool; fw_mtime : option Z }.

(** [RetireCounters::count]: a bucket per defined code, the last for others. *)
Definition RETIRED_FILLED : Z := 5.
Definition RETIRED_WHY_SLOTS : nat := 8.
Definition RETIRED_WHY_UNKNOWN : nat := RETIRED_WHY_SLOTS - 1.

Definition count_retired (why : Z) (by_why : list Z) : list Z :=
  upd sat_inc (if why <=? RETIRED_FILLED then Z.to_nat why else RETIRED_WHY_UNKNOWN) by_why.

(** ** The router *)

Section Router.
Context {P L : Type} `{!OrderDispatch P} `{!OrderDispatch L}.

Record Routed := mkRouted {
  rd_route : ExecRoute;
  rd_paper : P;
  rd_live : L;
  rd_counters : RouteCounters;
  rd_aliases : list RouteAlias;
  rd_mark_sweep_ns : Z;
  rd_retired : list Z;
  rd_halt : HaltState;
  rd_file : HaltFile;
  rd_ledger : Ledger
}.

Definition set_paper (x : P) (r : Routed) : Routed :=
  mkRouted (rd_route r) x (rd_live r) (rd_counters r) (rd_aliases r) (rd_mark_sweep_ns r) (rd_retired r) (rd_halt r) (rd_file r) (rd_ledger r).
Definition set_live (x : L) (r : Routed) : Routed :=
  mkRouted (rd_route r) (rd_paper r) x (rd_counters r) (rd_aliases r) (rd_mark_sweep_ns r) (rd_retired r) (rd_halt r) (rd_file r) (rd_ledger r).
Definition set_counters (x : RouteCounters) (r : Routed) : Routed :=
  mkRouted (rd_route r) (rd_paper r) (rd_live r) x (rd_aliases r) (rd_mark_sweep_ns r) (rd_retired r) (rd_halt r) (rd_file r) (rd_ledger r).
Definition set_aliases (x : list RouteAlias) (r : Routed) : Routed :=
  mkRouted (rd_route r) (rd_paper r) (rd_live r) (rd_counters r) x (rd_mark_sweep_ns r) (rd_retired r) (rd_halt r) (rd_file r) (rd_ledger r).
Definition set_sweep (x : Z) (r : Routed) : Routed :=
  mkRouted (rd_route r) (rd_paper r) (rd_live r) (rd_counters r) (rd_aliases r) x (rd_retired r) (rd_halt r) (rd_file r) (rd_ledger r).
Definition set_retired (x : list Z) (r : Routed) : Routed :=
  mkRouted (rd_route r) (rd_paper r) (rd_live r) (rd_counters r) (rd_aliases r) (rd_mark_sweep_ns r) x (rd_halt r) (rd_file r) (rd_ledger r).
Definition set_halt (x : HaltState) (r : Routed) : Routed :=
  mkRouted (rd_route r) (rd_paper r) (rd_live r) (rd_counters r) (rd_aliases r) (rd_mark_sweep_ns r) (rd_retired r) x (rd_file r) (rd_ledger r).
Definition set_file (x : HaltFile) (r : Routed) : Routed :=
  mkRouted (rd_route r) (rd_paper r) (rd_live r) (rd_counters r) (rd_aliases r) (rd_mark_sweep_ns r) (rd_retired r) (rd_halt r) x (rd_ledger r).
Definition set_ledger (x : Ledger) (r : Routed) : Routed :=
  mkRouted (rd_route r) (rd_paper r) (rd_live r) (rd_counters r) (rd_aliases r) (rd_mark_sweep_ns r) (rd_retired r) (rd_halt r) (rd_file r) x.

Definition Routed_new (route : ExecRoute) (paper : P) (live : L) (anchor : Clock.WallAnchor) : Routed :=
  mkRouted route paper live RouteCounters_new aliases_none 0 (replicate RETIRED_WHY_SLOTS 0) HaltState_new
    HaltFile_new (Ledger_new anchor).

(** The one table: the router's, and the live arm's. *)
Definition set_route_aliases (aliases : list RouteAlias) (r : Routed) : Routed :=
  set_live (od_set_route_aliases aliases (rd_live r)) (set_aliases aliases r).

Definition set_halt_path (r : Routed) : Routed := set_file (with_path true (rd_file r)) r.

(** [risk_check] on the router, a refusal counted. *)
Definition gate (o : Order) (venue : Z) (verb : RiskVerb) (r : Routed) : Routed * result unit DispatchError :=
  match risk_check (rd_route r) (rd_halt r) o venue verb (rd_ledger r) with
  | (l, None) => (set_ledger l r, Ok tt)
  | (l, Some why) => (set_counters (on_refused_risk (o_strategy_id o) why (rd_counters r)) (set_ledger l r), Err RiskRefused)
  end.

Definition submit (o : Order) (r : Routed) : Routed * result unit DispatchError :=
  match mode (rd_route r) (o_strategy_id o) with
  | Paper =>
      let '(p, res) := od_submit o (rd_paper r) in
      (set_paper p (set_counters (on_paper_submit (rd_counters r)) r), res)
  | Off => (set_counters (on_refused_off (o_strategy_id o) (rd_counters r)) r, Err SlotDisabled)
  | Live =>
      let venue := route_venue (rd_aliases r) (o_sym o) (o_venue o) in
      if negb (venue_allowed (rd_route r) (o_strategy_id o) venue)
      then (set_counters (on_refused_no_route (o_strategy_id o) (rd_counters r)) r, Err NoLiveRoute)
      else
        match gate o venue Place r with
        | (r, Err e) => (r, Err e)
        | (r, Ok _) =>
            let r := set_counters (on_live_submit (o_strategy_id o) (rd_counters r)) r in
            let '(a, res) := od_submit o (rd_live r) in
            let r := set_live a r in
            (if is_ok res
             then set_ledger (set_resting (on_submit (o_client_oid o) (o_slot o) (o_sym o) (o_qty o) (o_buy o) (o_px o)
                                (resting (rd_ledger r))) (rd_ledger r)) r
             else r, res)
        end
  end.

(** The live arm's cancel: a row leaves the table on an [Ok] that confirms. *)
Definition cancel_live (c : CancelReq) (venue : Z) (r : Routed) : Routed * result unit DispatchError :=
  let '(a, res) := od_cancel c (rd_live r) in
  let r := set_live a r in
  (if is_ok res && negb (od_verbs_confirm_later (cr_sym c) venue (cr_strategy_id c) a)
   then set_ledger (set_resting (on_cancel (cr_client_oid c) (Z.to_nat (cr_strategy_id c)) (resting (rd_ledger r)))
                      (rd_ledger r)) r
   else r, res).

Definition cancel (c : CancelReq) (r : Routed) : Routed * result unit DispatchError :=
  let venue := route_venue (rd_aliases r) (cr_sym c) (cr_venue c) in
  match mode (rd_route r) (cr_strategy_id c) with
  | Paper => let '(p, res) := od_cancel c (rd_paper r) in (set_paper p r, res)
  | Off =>
      if negb (venue_allowed (rd_route r) (cr_strategy_id c) venue)
      then (set_counters (on_refused_off (cr_strategy_id c) (rd_counters r)) r, Err SlotDisabled)
      else cancel_live c venue (set_counters (on_cancel_on_off (rd_counters r)) r)
  | Live =>
      if negb (venue_allowed (rd_route r) (cr_strategy_id c) venue)
      then (set_counters (on_refused_no_route (cr_strategy_id c) (rd_counters r)) r, Err NoLiveRoute)
      else cancel_live c venue r
  end.

Definition modify (m : ModifyReq) (r : Routed) : Routed * result unit DispatchError :=
  let o := mr_order m in
  match mode (rd_route r) (o_strategy_id o) with
  | Paper => let '(p, res) := od_modify m (rd_paper r) in (set_paper p r, res)
  | Off => (set_counters (on_refused_off (o_strategy_id o) (rd_counters r)) r, Err SlotDisabled)
  | Live =>
      let venue := route_venue (rd_aliases r) (o_sym o) (o_venue o) in
      if negb (venue_allowed (rd_route r) (o_strategy_id o) venue)
      then (set_counters (on_refused_no_route (o_strategy_id o) (rd_counters r)) r, Err NoLiveRoute)
      else
        match gate o venue (Replace (mr_prev_client_oid m)) r with
        | (r, Err e) => (r, Err e)
        | (r, Ok _) =>
            let '(a, res) := od_modify m (rd_live r) in
            let r := set_live a r in
            (if is_ok res then
               set_ledger (set_resting
                 (if od_verbs_confirm_later (o_sym o) venue (o_strategy_id o) a
                  then on_modify_asked (mr_prev_client_oid m) (o_client_oid o) (o_slot o) (o_qty o) (o_px o)
                         (resting (rd_ledger r))
                  else on_modify (mr_prev_client_oid m) (o_client_oid o) (o_slot o) (o_sym o) (o_qty o) (o_buy o) (o_px o)
                         (resting (rd_ledger r)))
                 (rd_ledger r)) r
             else r, res)
        end
  end.

(** ** Halts and their cancels *)

(** Write [exec.HALT]: the whole state, when there is a path. A write that
    fails leaves the file as it was; the time read back after it is seen. *)
Definition write_halt_file (w : FileWrite) (r : Routed) : Routed :=
  if negb (hf_path (rd_file r)) then r
  else
    let f := if fw_ok w then with_disk (Some (render_halt_file (hs_reasons (rd_halt r)))) (rd_file r) else rd_file r in
    set_file (with_seen (fw_mtime w) f) r.

Definition on_halt_edge (w : FileWrite) (r : Routed) : Routed := write_halt_file w r.

(** One slot's turn of [latch_all]: live slots only. *)
Definition latch_one (reasons : list HaltReason) (st : Routed * nat) (slot : nat) : Routed * nat :=
  let '(r, n) := st in
  let why := default HR_None (reasons !! slot) in
  if negb (reason_halted why) then st
  else if negb (is_live (rd_route r) slot) then st
  else let '(h, edge) := latch slot why (rd_halt r) in (set_halt h r, if edge then S n else n).

Definition latch_all (reasons : list HaltReason) (w : FileWrite) (r : Routed) : Routed * nat :=
  let '(r, n) := foldl (latch_one reasons) (r, 0%nat) (seq 0 EXEC_SLOTS) in
  ((if (0 <? n)%nat then on_halt_edge w r else r), n).

(** The arm answered that nothing of the slot's is resting. *)
Definition confirm_clear (slot : nat) (r : Routed) : Routed :=
  set_ledger (set_resting (clear_resting_slot slot (resting (rd_ledger r))) (rd_ledger r))
    (set_halt (cancel_cleared slot (rd_halt r)) r).

(** One request to the arm, and the confirmation of the same poll. *)
Definition ask_cancel (slot : nat) (r : Routed) : Routed :=
  let '(a, res) := od_cancel_slot slot (rd_live r) in
  let r := set_live a r in
  if negb (is_ok res) then set_halt (cancel_failed slot (rd_halt r)) r
  else match od_cancel_slot_state slot (rd_live r) with
       | CA_Clear => confirm_clear slot r
       | _ => r
       end.

Definition try_cancel_slot (slot : nat) (r : Routed) : Routed :=
  match cancel_phase slot (rd_halt r) with
  | CP_None => r
  | CP_Wanted => ask_cancel slot (set_halt (cancel_requested slot (rd_halt r)) r)
  | CP_Retry =>
      match od_cancel_slot_state slot (rd_live r) with
      | CA_Working => r
      | _ => ask_cancel slot (set_halt (cancel_requested slot (rd_halt r)) r)
      end
  | CP_Asked =>
      match od_cancel_slot_state slot (rd_live r) with
      | CA_Clear => confirm_clear slot r
      | CA_Working => r
      | CA_Stranded => ask_cancel slot (set_halt (cancel_stranded (rd_halt r)) r)
      end
  end.

Definition try_cancel_slots (r : Routed) : Routed :=
  if negb (cancel_outstanding (rd_halt r)) then r else foldl (fun r s => try_cancel_slot s r) r (seq 0 EXEC_SLOTS).

Definition halt_slot (slot : nat) (why : HaltReason) (w : FileWrite) (r : Routed) : Routed * bool :=
  if negb (is_live (rd_route r) slot) then (r, false)
  else
    let '(h, edge) := latch slot why (rd_halt r) in
    if edge then (try_cancel_slots (on_halt_edge w (set_halt h r)), true) else (set_halt h r, false).

(** The runtime poll: once a second, and a read only where the time moved. *)
Definition poll_halt_file (now : Z) (see : FileSight) (w : FileWrite) (r : Routed) : Routed :=
  let f := rd_file r in
  let v := see (hf_disk f) in
  if negb (hf_path f) then r
  else if sat_u64 (now - hf_poll_last_ns f) <? HALT_POLL_EVERY_NS then r
  else
    let f := polled now f in
    match mtime v with
    | None => set_file f r
    | Some t =>
        if bool_decide (hf_seen f = Some t) then set_file f r
        else
          let f := read_once f in
          match read_halt_file v with
          | Absent => set_file f r
          | Refused => set_file (inert (present f)) r
          | Read bytes =>
              let f := present (with_seen (Some t) f) in
              match from_utf8 bytes with
              | None => set_file (inert f) r
              | Some text =>
                  let '(r, n) := latch_all (parse_halt_file text) w (set_file f r) in
                  if (n =? 0)%nat then set_file (inert (rd_file r)) r else r
              end
          end
    end.

(** The boot read-back. The path is out of the router while it latches, so
    nothing is written. *)
Definition adopt_halt_file (see : FileSight) (r : Routed) : Routed * nat :=
  let f := rd_file r in
  let v := see (hf_disk f) in
  if negb (hf_path f) then (r, 0%nat)
  else
    let f := with_seen (mtime v) (with_path false f) in
    let '(r, n) :=
      match read_halt_file v with
      | Absent => (set_file f r, 0%nat)
      | Refused => (set_file (inert (present f)) r, 0%nat)
      | Read bytes =>
          match from_utf8 bytes with
          | Some text => latch_all (parse_halt_file text) (mkWrite false None) (set_file (present f) r)
          | None => (set_file (inert (present f)) r, 0%nat)
          end
      end in
    (set_file (adopted n (with_path true (rd_file r))) r, n).

Definition reconcile_perps (slot : nat) (venue : list PerpVenuePos) (w : FileWrite) (r : Routed) : Routed * Z :=
  let drift := perp_drift_1e6 (inst (rd_ledger r)) slot venue in
  match halts_at (rd_route r) slot with
  | Some lim => if (0 <? lm_recon_drift lim) && (lm_recon_drift lim <=? drift)
                then ((halt_slot slot ReconDrift w r).1, drift) else (r, drift)
  | None => (r, drift)
  end.

(** ** The idle poll *)

Definition MARK_SWEEP_NS : Z := 1000000000.
Definition RETIRED_DRAIN_MAX : nat := 64.

Fixpoint drain_renamed (k : nat) (r : Routed) : Routed * nat :=
  match k with
  | O => (r, O)
  | S k =>
      match od_try_next_renamed (rd_live r) with
      | (a, None) => (set_live a r, O)
      | (a, Some n) =>
          let r := set_live a r in
          let '(r, m) := drain_renamed k
            (set_ledger (set_resting (on_modify (rn_prev n) (rn_oid n) (rn_slot n) (rn_sym n) (rn_qty n) (rn_buy n) 0
                           (resting (rd_ledger r))) (rd_ledger r)) r) in
          (r, S m)
      end
  end.

Fixpoint drain_retired (k : nat) (r : Routed) : Routed :=
  match k with
  | O => r
  | S k =>
      match od_try_next_retired (rd_live r) with
      | (a, None) => set_live a r
      | (a, Some n) =>
          let r := set_live a r in
          drain_retired k (set_retired (count_retired (rt_why n) (rd_retired r))
            (set_ledger (set_resting (on_retired (rt_oid n) (rt_slot n) (resting (rd_ledger r))) (rd_ledger r)) r))
      end
  end.

(** The reports of the live arm: no retirement while a rename may be left. *)
Definition drain_reports (r : Routed) : Routed :=
  let '(r, renamed) := drain_renamed RETIRED_DRAIN_MAX r in
  if (renamed <? RETIRED_DRAIN_MAX)%nat then drain_retired RETIRED_DRAIN_MAX r else r.

Definition sweep_marks (now : Z) (r : Routed) : Routed :=
  if rd_mark_sweep_ns r <=? now
  then set_ledger (set_inst (expire_marks now (inst (rd_ledger r))) (rd_ledger r)) (set_sweep (wrap_u64 (now + MARK_SWEEP_NS)) r)
  else r.

Definition adopt_day (r : Routed) (slot : nat) : Routed :=
  if negb (is_live (rd_route r) slot) then r
  else match od_venue_day_bought slot (rd_live r) with
       | Some (day, bought) => set_ledger (adopt_venue_day_turnover slot day bought (rd_ledger r)) r
       | None => r
       end.

(** The hold of one slot: set, or lifted when nothing stands. *)
Definition judge_hold (slot : nat) (sig : HaltSignal) (lim : HaltLimits) (h : HaltState) : HaltState :=
  let bits := hold_for sig lim in
  if negb (bits =? 0) then (hold slot bits h).1
  else if is_held slot h && hold_clear sig lim then (release slot h).1
  else h.

(** One slot's turn of the trigger loop. *)
Definition judge_slot (st : Routed * nat) (slot : nat) : Routed * nat :=
  let '(r, n) := st in
  if negb (is_live (rd_route r) slot) then st
  else match halts_at (rd_route r) slot with
       | None => st
       | Some lim =>
           let sig := od_halt_signal_for slot (rd_live r) in
           let r := if negb (sg_reconciled sig =? 0) && negb (is_slot_seeded (rd_ledger r) slot)
                    then set_ledger (mark_slot_seeded slot (rd_ledger r)) r else r in
           let '(h, edge) := latch slot (trigger_for sig lim) (rd_halt r) in
           (set_halt (judge_hold slot sig lim h) r, if edge then S n else n)
       end.

Definition judge_slots (w : FileWrite) (r : Routed) : Routed :=
  let '(r, n) := foldl judge_slot (r, 0%nat) (seq 0 EXEC_SLOTS) in
  if (0 <? n)%nat then on_halt_edge w r else r.

(** What the clock and the file say during one idle poll: the clock at the
    sweep and at the file poll, and the two writes it may make. *)
Record IdleEnv := mkIdle {
  ie_now_sweep : Z;
  ie_now_poll : Z;
  ie_view : FileSight;
  ie_write_edge : FileWrite;
  ie_write_poll : FileWrite
}.

Definition on_idle (e : IdleEnv) (r : Routed) : Routed * bool :=
  let '(p, a) := od_on_idle (rd_paper r) in
  let r := set_paper p r in
  let '(v, b) := od_on_idle (rd_live r) in
  let r := set_live v r in
  let r := drain_reports r in
  let r := sweep_marks (ie_now_sweep e) r in
  let r := foldl adopt_day r (seq 0 EXEC_SLOTS) in
  let r := judge_slots (ie_write_edge e) r in
  let r := poll_halt_file (ie_now_poll e) (ie_view e) (ie_write_poll e) r in
  (try_cancel_slots r, a || b).

(** ** What else reaches the ledger and the arms *)

(** The kind byte is read whole: a frame no packer writes is refused. *)
Definition on_venue_event (e : ChannelEvent) (r : Routed) : Routed :=
  let r := set_live (od_on_venue_event e (rd_live r)) (set_paper (od_on_venue_event e (rd_paper r)) r) in
  if ev_channel e =? CHANNEL_MARK
  then set_ledger (set_inst (on_mark (ev_sym e) (ev_v0 e) (ev_v1 e) (ev_ts_ns e) (inst (rd_ledger r))) (rd_ledger r)) r
  else if negb (ev_channel e =? CHANNEL_INSTRUMENT_ROLL) then r
  else
    let '(outcome, _, family, _) := unpack_roll_seq (ev_venue_seq e) in
    let kind := roll_kind (ev_venue_seq e) in
    set_ledger (if kind =? ROLL_KIND_CREATED then bind (ev_venue e) (Z.to_nat family) outcome (ev_sym e) (rd_ledger r)
                else if kind =? ROLL_KIND_SETTLED then settle (ev_venue e) outcome (rd_ledger r)
                else refuse_roll (rd_ledger r)) r.

Definition router_opt_summary (o : OptSummary) (r : Routed) : Routed :=
  let r := set_live (od_on_opt_summary o (rd_live r)) (set_paper (od_on_opt_summary o (rd_paper r)) r) in
  set_ledger (set_inst (on_opt_summary o (inst (rd_ledger r))) (rd_ledger r)) r.

Definition observe_tick (t : Tick) (now : Z) (r : Routed) : Routed :=
  set_live (od_observe_tick t now (rd_live r)) (set_paper (od_observe_tick t now (rd_paper r)) r).

(** The paper arm's fills first. *)
Definition try_next_fill (r : Routed) : Routed * option Fill :=
  match od_try_next_fill (rd_paper r) with
  | (p, Some f) => (set_paper p r, Some f)
  | (p, None) => let '(a, f) := od_try_next_fill (rd_live r) in (set_live a (set_paper p r), f)
  end.

Definition on_fill_booked (f : Fill) (r : Routed) : Routed := set_ledger (book_fill f (rd_ledger r)) r.

(** The boot binds and seeds. *)
Definition router_bind_instrument (s : InstrumentSpec) (r : Routed) : Routed * result unit InstrumentBindErr :=
  let '(t, res) := bind_instrument s (inst (rd_ledger r)) in (set_ledger (set_inst t (rd_ledger r)) r, res).
Definition router_bind_perp (sym slot : Z) (r : Routed) : Routed * result unit LedgerError :=
  let '(t, res) := bind_perp sym slot (inst (rd_ledger r)) in (set_ledger (set_inst t (rd_ledger r)) r, res).
Definition router_seed_perp (sym pos avg_px day_open : Z) (r : Routed) : Routed * result unit LedgerError :=
  let '(l, res) := seed_perp sym pos avg_px day_open (rd_ledger r) in (set_ledger l r, res).

Definition mark_ledger_seeded (r : Routed) : Routed := set_ledger (mark_seeded (rd_ledger r)) r.

(** A slot's health: the router's word and its arm's, the worse of each. *)
Definition exec_health (slot : Z) (now : Z) (r : Routed) : ExecHealth :=
  match mode (rd_route r) slot with
  | Paper => HEALTHY
  | Off => mkHealth EXEC_BLOCKED_OFF 0 0
  | Live =>
      let s := Z.to_nat slot in
      let blocked := Z.lor (Z.lor (flag (is_halted s (rd_halt r)) * EXEC_BLOCKED_HALTED)
                                  (flag (is_held s (rd_halt r)) * EXEC_BLOCKED_HELD))
                           (flag (negb (is_slot_seeded (rd_ledger r) s)) * EXEC_BLOCKED_UNSEEDED) in
      worst (mkHealth blocked 0 0) (od_exec_health slot now (rd_live r))
  end.
End Router.
Arguments Routed : clear implicits.
