(* ===== verification/RouterProofs.v ===== *)
(** * The router keeps its word

    The router is proved against arms that record every verb they are sent:
    what reached each arm, when; that a halt is for ever; that its ledger
    only ever moves by the ledger's own operations; that the gate keeps the
    caps; and that a halt survives the restart. *)

From stdpp Require Import relations.
From S2P Require Import Prelude CoreTypes LedgerBase LedgerResting RestingProofs LedgerInst.
From S2P Require Import InstProofs Ledger LedgerProofs Halt Route Router.

(** ** Arms that remember what they were sent *)

Inductive Verb : Type :=
| V_submit (o : Order)
| V_modify (m : ModifyReq)
| V_cancel (c : CancelReq)
| V_cancel_slot (slot : nat).

Record Recorded (A : Type) := mkRec { rec_arm : A; rec_log : list Verb }.
Arguments mkRec {A} _ _.
Arguments rec_arm {A} _.
Arguments rec_log {A} _.

(** A call that is not a verb: the log stays. *)
Definition quiet {A} (a : A) (x : Recorded A) : Recorded A := mkRec a (rec_log x).
Definition loud {A} (v : Verb) (a : A) (x : Recorded A) : Recorded A := mkRec a (rec_log x ++ [v]).

#[export] Instance recorded_dispatch {A} `{!OrderDispatch A} : OrderDispatch (Recorded A) := {
  od_submit o x := let '(a, res) := od_submit o (rec_arm x) in (loud (V_submit o) a x, res);
  od_cancel c x := let '(a, res) := od_cancel c (rec_arm x) in (loud (V_cancel c) a x, res);
  od_modify m x := let '(a, res) := od_modify m (rec_arm x) in (loud (V_modify m) a x, res);
  od_cancel_slot s x := let '(a, res) := od_cancel_slot s (rec_arm x) in (loud (V_cancel_slot s) a x, res);
  od_cancel_slot_state s x := od_cancel_slot_state s (rec_arm x);
  od_halt_signal_for s x := od_halt_signal_for s (rec_arm x);
  od_venue_day_bought s x := od_venue_day_bought s (rec_arm x);
  od_verbs_confirm_later a b c x := od_verbs_confirm_later a b c (rec_arm x);
  od_on_idle x := let '(a, b) := od_on_idle (rec_arm x) in (quiet a x, b);
  od_try_next_fill x := let '(a, f) := od_try_next_fill (rec_arm x) in (quiet a x, f);
  od_observe_tick t now x := quiet (od_observe_tick t now (rec_arm x)) x;
  od_on_venue_event e x := quiet (od_on_venue_event e (rec_arm x)) x;
  od_on_opt_summary o x := quiet (od_on_opt_summary o (rec_arm x)) x;
  od_set_route_aliases es x := quiet (od_set_route_aliases es (rec_arm x)) x;
  od_exec_health s now x := od_exec_health s now (rec_arm x);
  od_try_next_renamed x := let '(a, n) := od_try_next_renamed (rec_arm x) in (quiet a x, n);
  od_try_next_retired x := let '(a, n) := od_try_next_retired (rec_arm x) in (quiet a x, n);
  od_halt_signal x := od_halt_signal (rec_arm x);
  od_cancel_all x := let '(a, res) := od_cancel_all (rec_arm x) in (quiet a x, res);
  od_cancel_all_state x := od_cancel_all_state (rec_arm x);
  od_on_fill_booked f x := quiet (od_on_fill_booked f (rec_arm x)) x;
  od_on_shutdown x := quiet (od_on_shutdown (rec_arm x)) x
}.

(** How an arm may have moved: told a verb, or by a call that is not one. *)
Inductive told {A} `{!OrderDispatch A} (x : A) : Verb -> A -> Prop :=
| told_submit o y res : od_submit o x = (y, res) -> told x (V_submit o) y
| told_modify m y res : od_modify m x = (y, res) -> told x (V_modify m) y
| told_cancel c y res : od_cancel c x = (y, res) -> told x (V_cancel c) y
| told_cancel_slot s y res : od_cancel_slot s x = (y, res) -> told x (V_cancel_slot s) y.

Inductive heard {A} `{!OrderDispatch A} (x : A) : A -> Prop :=
| heard_idle y b : od_on_idle x = (y, b) -> heard x y
| heard_fill y f : od_try_next_fill x = (y, f) -> heard x y
| heard_renamed y n : od_try_next_renamed x = (y, n) -> heard x y
| heard_retired y n : od_try_next_retired x = (y, n) -> heard x y
| heard_tick t now : heard x (od_observe_tick t now x)
| heard_event e : heard x (od_on_venue_event e x)
| heard_summary o : heard x (od_on_opt_summary o x).

(** ** Every call of the router *)

Inductive RouterOp : Type :=
| Q_submit (o : Order)
| Q_cancel (c : CancelReq)
| Q_modify (m : ModifyReq)
| Q_idle (e : IdleEnv)
| Q_event (e : ChannelEvent)
| Q_summary (o : OptSummary)
| Q_tick (t : Tick) (now : Z)
| Q_next_fill
| Q_fill (f : Fill)
| Q_halt (slot : nat) (why : HaltReason) (w : FileWrite)
| Q_reconcile (slot : nat) (venue : list PerpVenuePos) (w : FileWrite)
| Q_adopt (see : FileSight)
| Q_path
| Q_aliases (es : list RouteAlias)
| Q_bind (spec : InstrumentSpec)
| Q_bind_perp (sym slot : Z)
| Q_seed_perp (sym pos avg_px day_open : Z)
| Q_seeded.

Section Steps.
Context {P L : Type} `{!OrderDispatch P} `{!OrderDispatch L}.

#[local] Abbreviation Rt := (Routed (Recorded P) (Recorded L)).

Definition run_router (r : Rt) (op : RouterOp) : Rt :=
  match op with
  | Q_submit o => (submit o r).1
  | Q_cancel c => (cancel c r).1
  | Q_modify m => (modify m r).1
  | Q_idle e => (on_idle e r).1
  | Q_event e => on_venue_event e r
  | Q_summary o => router_opt_summary o r
  | Q_tick t now => observe_tick t now r
  | Q_next_fill => (try_next_fill r).1
  | Q_fill f => on_fill_booked f r
  | Q_halt slot why w => (halt_slot slot why w r).1
  | Q_reconcile slot venue w => (reconcile_perps slot venue w r).1
  | Q_adopt see => (adopt_halt_file see r).1
  | Q_path => set_halt_path r
  | Q_aliases es => set_route_aliases es r
  | Q_bind spec => (router_bind_instrument spec r).1
  | Q_bind_perp sym slot => (router_bind_perp sym slot r).1
  | Q_seed_perp sym pos px day => (router_seed_perp sym pos px day r).1
  | Q_seeded => mark_ledger_seeded r
  end.

(** What the callers guarantee, as of the ledger: a fill has a non-negative
    size and price, a boot id its width. *)
Definition router_op_ok (op : RouterOp) : Prop :=
  match op with
  | Q_fill f => 0 <= fl_qty f /\ 0 <= fl_px f
  | Q_bind spec => in_u32 (sp_sym spec)
  | Q_bind_perp sym _ => in_u32 sym
  | _ => True
  end.

(** ** What an arm may be sent *)

Definition paper_may (route : ExecRoute) (v : Verb) : Prop :=
  match v with
  | V_submit o => mode route (o_strategy_id o) = Paper
  | V_modify m => mode route (o_strategy_id (mr_order m)) = Paper
  | V_cancel c => mode route (cr_strategy_id c) = Paper
  | V_cancel_slot _ => False
  end.

(** An order of a live slot on a venue it may trade, the slot neither halted
    nor held, its ledger seeded. *)
Definition live_order (r : Rt) (o : Order) : Prop :=
  mode (rd_route r) (o_strategy_id o) = Live /\
  venue_allowed (rd_route r) (o_strategy_id o) (route_venue (rd_aliases r) (o_sym o) (o_venue o)) = true /\
  is_halted (o_slot o) (rd_halt r) = false /\ is_held (o_slot o) (rd_halt r) = false /\
  is_slot_seeded (rd_ledger r) (o_slot o) = true.

Definition live_may (r : Rt) (v : Verb) : Prop :=
  match v with
  | V_submit o => live_order r o
  | V_modify m => live_order r (mr_order m)
  | V_cancel c =>
      mode (rd_route r) (cr_strategy_id c) <> Paper /\
      venue_allowed (rd_route r) (cr_strategy_id c) (route_venue (rd_aliases r) (cr_sym c) (cr_venue c)) = true
  | V_cancel_slot s => is_live (rd_route r) s = true
  end.

(** ** One step at a time *)

(** A halt keeps its first reason; a cancel is only wanted of a live slot. *)
Definition halts_kept (h h' : HaltState) : Prop :=
  forall s, is_halted s h = true -> reason s h' = reason s h.

Definition pending_live (route : ExecRoute) (h : HaltState) : Prop :=
  forall s, get (hs_pending h) s <> CANCEL_NONE -> is_live route s = true.

(** The widths: sixteen slots, the cancel phase's four codes, [u16] masks. *)
Record halt_ok (h : HaltState) : Prop := {
  ho_reasons : length (hs_reasons h) = EXEC_SLOTS;
  ho_pending : length (hs_pending h) = EXEC_SLOTS;
  ho_phase : Forall (fun p => 0 <= p <= CANCEL_RETRY) (hs_pending h);
  ho_gap : 0 <= hs_held_gap h <= u16_max;
  ho_stale : 0 <= hs_held_stale h <= u16_max;
  ho_counts : in_u64 (hs_halts h) /\ in_u64 (hs_failures h) /\ in_u64 (hs_stranded h) /\ in_u32 (hs_holds h)
}.

Record counters_ok (c : RouteCounters) : Prop := {
  co_live : in_u64 (live_submits c);
  co_paper : in_u64 (paper_submits c);
  co_risk : in_u64 (refused_risk c);
  co_reason : forall w, in_u64 (refused_by_reason c w);
  co_by_slot : length (live_submits_by_slot c) = EXEC_SLOTS;
  co_refused : length (refused_by_slot c) = EXEC_SLOTS
}.

(** The verbs a run of steps may send, and the route tables it may set. *)
Context (may : Verb -> Prop) (tabs : list RouteAlias -> Prop).

Inductive micro : Rt -> Rt -> Prop :=
| M_ledger op r : ledger_op_ok op -> micro r (set_ledger (run_ledger (rd_ledger r) op) r)
| M_halt h r :
    halts_kept (rd_halt r) h -> (pending_live (rd_route r) (rd_halt r) -> pending_live (rd_route r) h) ->
    (halt_ok (rd_halt r) -> halt_ok h) -> micro r (set_halt h r)
| M_counters c r : (counters_ok (rd_counters r) -> counters_ok c) -> micro r (set_counters c r)
| M_aliases es r : tabs es -> micro r (set_live (quiet (od_set_route_aliases es (rec_arm (rd_live r))) (rd_live r)) (set_aliases es r))
| M_sweep t r : in_u64 t -> micro r (set_sweep t r)
| M_retired c r : length c = length (rd_retired r) -> micro r (set_retired c r)
| M_file f r : micro r (set_file f r)
| M_paper a r : micro r (set_paper (quiet a (rd_paper r)) r)
| M_paper_verb v a r : may v -> paper_may (rd_route r) v -> micro r (set_paper (loud v a (rd_paper r)) r)
| M_live a r : heard (rec_arm (rd_live r)) a -> micro r (set_live (quiet a (rd_live r)) r)
| M_live_verb v a r :
    told (rec_arm (rd_live r)) v a -> may v -> (pending_live (rd_route r) (rd_halt r) -> live_may r v) -> micro r (set_live (loud v a (rd_live r)) r).

#[local] Abbreviation steps := (rtc micro).

#[local] Hint Resolve rtc_refl : core.
#[local] Hint Constructors told heard : core.

Lemma step_then r r1 r2 : micro r r1 -> steps r1 r2 -> steps r r2.
Proof. apply rtc_l. Qed.

Lemma set_ledger_same (r : Rt) : set_ledger (rd_ledger r) r = r.
Proof. by destruct r. Qed.

Lemma set_halt_same (r : Rt) : set_halt (rd_halt r) r = r.
Proof. by destruct r. Qed.

Lemma sat_u64_range z : in_u64 (sat_u64 z).
Proof. ilia. Qed.
#[local] Hint Resolve sat_u64_range : core.

(** A router that counts one more. *)
Lemma count_step c r : (counters_ok (rd_counters r) -> counters_ok c) -> steps r (set_counters c r).
Proof. intros H. by apply rtc_once, M_counters. Qed.

Ltac counts :=
  intros []; split; simpl; unfold sat_inc, bump_slot; rewrite ?length_upd; intros; try case_match; auto.

Lemma on_live_submit_ok id c : counters_ok c -> counters_ok (on_live_submit id c).
Proof. counts. Qed.
Lemma on_paper_submit_ok c : counters_ok c -> counters_ok (on_paper_submit c).
Proof. counts. Qed.
Lemma on_refused_off_ok id c : counters_ok c -> counters_ok (on_refused_off id c).
Proof. counts. Qed.
Lemma on_cancel_on_off_ok c : counters_ok c -> counters_ok (on_cancel_on_off c).
Proof. counts. Qed.
Lemma on_refused_no_route_ok id c : counters_ok c -> counters_ok (on_refused_no_route id c).
Proof. counts. Qed.
Lemma on_refused_risk_ok id why c : counters_ok c -> counters_ok (on_refused_risk id why c).
Proof. counts. Qed.
#[local] Hint Resolve on_live_submit_ok on_paper_submit_ok on_refused_off_ok on_cancel_on_off_ok
  on_refused_no_route_ok on_refused_risk_ok : core.

(** Both arms are shown something. *)
Lemma both_quiet p a r :
  heard (rec_arm (rd_live r)) a -> steps r (set_live (quiet a (rd_live r)) (set_paper (quiet p (rd_paper r)) r)).
Proof.
  intros Ha. eapply step_then; [apply (M_paper p r)|]. apply rtc_once.
  exact (M_live a (set_paper (quiet p (rd_paper r)) r) Ha).
Qed.

(** The resting table moves by the ledger's own operations. *)
Lemma resting_step op r : steps r (set_ledger (set_resting (run_rest (resting (rd_ledger r)) op) (rd_ledger r)) r).
Proof. apply rtc_once. exact (M_ledger (O_rest op) r I). Qed.

Tactic Notation "rest_op" uconstr(op) := lazymatch goal with |- rtc _ ?r _ => refine (resting_step op r) end.

Lemma clock_step ts r : steps r (set_ledger (observe_mono_clock ts (rd_ledger r)) r).
Proof. apply rtc_once. exact (M_ledger (O_clock ts) r I). Qed.

(** *** The gate *)

(** The gate moves nothing but the ledger's clock, and that by the order's stamp. *)
Lemma risk_check_clock route h o venue verb l :
  (risk_check route h o venue verb l).1 = l \/
  (risk_check route h o venue verb l).1 = observe_mono_clock (o_ts_ns o) l.
Proof.
  unfold risk_check, judge_perp, judge_instrument, judge_family.
  repeat case_match; simplify_eq/=; auto.
Qed.

Lemma risk_check_passes route h o venue verb l :
  (risk_check route h o venue verb l).2 = None ->
  is_halted (o_slot o) h = false /\ is_held (o_slot o) h = false /\ is_slot_seeded l (o_slot o) = true.
Proof.
  unfold risk_check. destruct (caps_at route (o_slot o)); [|done].
  destruct (is_halted _ _); [done|]. destruct (is_held _ _); [done|]. by destruct (is_slot_seeded _ _).
Qed.

Lemma observe_seeded ts l s : is_slot_seeded (observe_mono_clock ts l) s = is_slot_seeded l s.
Proof.
  unfold observe_mono_clock, roll_day. destruct (ts =? 0); [done|]. destruct (_ =? 0); [done|].
  destruct (_ =? 0); [done|]. by destruct (_ <? _).
Qed.

Lemma gate_keeps_rest o venue verb (r : Rt) :
  let r' := (gate o venue verb r).1 in
  rd_route r' = rd_route r /\ rd_aliases r' = rd_aliases r /\ rd_halt r' = rd_halt r /\
  rd_live r' = rd_live r /\ rd_paper r' = rd_paper r.
Proof. unfold gate. by destruct (risk_check _ _ _ _ _ _) as [l [why|]]. Qed.

Lemma gate_steps o venue verb r : steps r (gate o venue verb r).1.
Proof.
  unfold gate. pose proof (risk_check_clock (rd_route r) (rd_halt r) o venue verb (rd_ledger r)) as H.
  destruct (risk_check _ _ _ _ _ _) as [l why]. simpl in H.
  assert (steps r (set_ledger l r)) as Hl by (destruct H as [->| ->]; [by rewrite set_ledger_same|apply clock_step]).
  destruct why; simpl; [|done]. etransitivity; [exact Hl|]. by apply count_step; auto.
Qed.

(** What has passed the gate may be sent. *)
Lemma gate_passes o venue verb r r' :
  gate o venue verb r = (r', Ok tt) ->
  mode (rd_route r) (o_strategy_id o) = Live ->
  venue_allowed (rd_route r) (o_strategy_id o) (route_venue (rd_aliases r) (o_sym o) (o_venue o)) = true ->
  live_order r' o.
Proof.
  intros H Hm Hv. pose proof (gate_keeps_rest o venue verb r) as K. rewrite H in K.
  destruct K as (Kr & Ka & Kh & _ & _). unfold live_order. simpl in *. rewrite Kr, Ka, Kh.
  unfold gate in H. pose proof (risk_check_passes (rd_route r) (rd_halt r) o venue verb (rd_ledger r)) as Hp.
  pose proof (risk_check_clock (rd_route r) (rd_halt r) o venue verb (rd_ledger r)) as Hc.
  destruct (risk_check _ _ _ _ _ _) as [l [why|]]; simplify_eq/=. destruct (Hp eq_refl) as (? & ? & ?).
  split_and!; try done. by destruct Hc as [->| ->]; rewrite ?observe_seeded.
Qed.

(** What the gate passed was seeded before its clock moved. *)
Lemma gate_seeded o venue verb (r r1 : Rt) :
  gate o venue verb r = (r1, Ok tt) -> is_slot_seeded (rd_ledger r) (o_slot o) = true.
Proof.
  unfold gate. pose proof (risk_check_passes (rd_route r) (rd_halt r) o venue verb (rd_ledger r)) as Hp.
  destruct (risk_check _ _ _ _ _ _) as [l [why|]]; [done|]. intros _. by destruct (Hp eq_refl) as (_ & _ & ?).
Qed.

(** *** The verbs *)

Lemma submit_steps o r : may (V_submit o) -> steps r (submit o r).1.
Proof.
  intros Hmay. unfold submit. destruct (mode (rd_route r) (o_strategy_id o)) eqn:Em.
  - simpl. destruct (od_submit o (rec_arm (rd_paper r))) as [a res]. simpl.
    etransitivity; [apply (count_step (on_paper_submit (rd_counters r)) r); auto|]. apply rtc_once.
    by apply (M_paper_verb (V_submit o) a (set_counters _ r)).
  - destruct (venue_allowed _ _ _) eqn:Ev; simpl; [|apply count_step; auto].
    pose proof (gate_steps o (route_venue (rd_aliases r) (o_sym o) (o_venue o)) Place r) as Hg.
    destruct (gate _ _ _ r) as [r1 [[]|e]] eqn:Eg; simpl in *; [|done].
    pose proof (gate_passes _ _ _ _ _ Eg Em Ev) as Hp. etransitivity; [exact Hg|].
    etransitivity; [apply (count_step (on_live_submit (o_strategy_id o) (rd_counters r1)) r1); auto|].
    destruct (od_submit o (rec_arm (rd_live r1))) as [a res] eqn:Es. simpl.
    eapply step_then; [apply (M_live_verb (V_submit o) a (set_counters _ r1)); [by econstructor|exact Hmay|intros _; exact Hp]|]. simpl.
    destruct (is_ok res); [|done]. rest_op (R_submit _ _ _ _ _ _).
  - apply count_step; auto.
Qed.

Lemma cancel_live_steps c venue r : may (V_cancel c) -> live_may r (V_cancel c) -> steps r (cancel_live c venue r).1.
Proof.
  intros Hmay Hm. unfold cancel_live. simpl. destruct (od_cancel c (rec_arm (rd_live r))) as [a res] eqn:Es. simpl.
  eapply step_then; [apply (M_live_verb (V_cancel c) a r); [by econstructor|exact Hmay|intros _; exact Hm]|].
  destruct (is_ok res && _); [|done]. rest_op (R_cancel _ _).
Qed.

Lemma cancel_steps c r : may (V_cancel c) -> steps r (cancel c r).1.
Proof.
  intros Hmay. unfold cancel. destruct (mode (rd_route r) (cr_strategy_id c)) eqn:Em.
  - simpl. destruct (od_cancel c (rec_arm (rd_paper r))) as [a res]. simpl. apply rtc_once.
    by apply (M_paper_verb (V_cancel c) a r).
  - destruct (venue_allowed _ _ _) eqn:Ev; simpl; [|apply count_step; auto].
    apply cancel_live_steps; [done|]. simpl. by rewrite Em, Ev.
  - destruct (venue_allowed _ _ _) eqn:Ev; simpl; [|apply count_step; auto].
    etransitivity; [apply (count_step (on_cancel_on_off (rd_counters r)) r); auto|]. apply cancel_live_steps; [done|]. simpl. by rewrite Em, Ev.
Qed.

Lemma modify_steps m r : may (V_modify m) -> steps r (modify m r).1.
Proof.
  intros Hmay. unfold modify. destruct (mode (rd_route r) (o_strategy_id (mr_order m))) eqn:Em.
  - simpl. destruct (od_modify m (rec_arm (rd_paper r))) as [a res]. simpl. apply rtc_once.
    by apply (M_paper_verb (V_modify m) a r).
  - destruct (venue_allowed _ _ _) eqn:Ev; simpl; [|apply count_step; auto].
    pose proof (gate_steps (mr_order m) (route_venue (rd_aliases r) (o_sym (mr_order m)) (o_venue (mr_order m)))
      (Replace (mr_prev_client_oid m)) r) as Hg.
    destruct (gate _ _ _ r) as [r1 [[]|e]] eqn:Eg; simpl in *; [|done].
    pose proof (gate_passes _ _ _ _ _ Eg Em Ev) as Hp. etransitivity; [exact Hg|].
    destruct (od_modify m (rec_arm (rd_live r1))) as [a res] eqn:Es. simpl.
    eapply step_then; [apply (M_live_verb (V_modify m) a r1); [by econstructor|exact Hmay|intros _; exact Hp]|]. simpl.
    destruct (is_ok res); [|done].
    destruct (od_verbs_confirm_later _ _ _ _); [rest_op (R_asked _ _ _ _ _)|rest_op (R_modify _ _ _ _ _ _ _)].
  - apply count_step; auto.
Qed.

(** *** The halt state *)

Record halt_step (route : ExecRoute) (h h' : HaltState) : Prop := {
  hs_kept : halts_kept h h';
  hs_live : pending_live route h -> pending_live route h';
  hs_ok : halt_ok h -> halt_ok h'
}.

Lemma halt_step_refl route h : halt_step route h h.
Proof. split; [|done..]. intros s _. done. Qed.

Lemma halt_step_trans route a b c : halt_step route a b -> halt_step route b c -> halt_step route a c.
Proof.
  intros [A1 A2 A3] [B1 B2 B3]. split; [|auto..]. intros s H. rewrite <- (A1 s H). apply B1.
  unfold is_halted. by rewrite (A1 s H).
Qed.

(** Every reason left alone, and the pending cancels at most narrowed. *)
Lemma same_reasons_step route h h' :
  hs_reasons h' = hs_reasons h ->
  (forall s, get (hs_pending h') s <> CANCEL_NONE -> get (hs_pending h) s <> CANCEL_NONE \/ is_live route s = true) ->
  (halt_ok h -> halt_ok h') ->
  halt_step route h h'.
Proof.
  intros E Hp Hok. split; [intros s _; unfold reason; by rewrite E| |done]. intros H s Hs.
  destruct (Hp s Hs); [by apply H|done].
Qed.

Lemma pending_insert slot p h s :
  get (<[slot := p]> (hs_pending h)) s <> CANCEL_NONE -> get (hs_pending h) s <> CANCEL_NONE \/ s = slot.
Proof.
  destruct (decide (s = slot)); [by right|]. left. unfold get in *. by rewrite list_lookup_insert_ne in * by done.
Qed.

Lemma phase_insert slot p h :
  0 <= p <= CANCEL_RETRY -> halt_ok h -> Forall (fun p => 0 <= p <= CANCEL_RETRY) (<[slot := p]> (hs_pending h)).
Proof. intros Hp H. apply Forall_insert; [apply H|done]. Qed.

Ltac halt_widths :=
  let H := fresh in intros H; pose proof H as []; destruct_and?; split; simpl; rewrite ?length_insert; auto;
  try (apply phase_insert; [unfold CANCEL_WANTED, CANCEL_RETRY; lia|done]); split_and?; auto; ilia.

Lemma latch_step route slot why h : is_live route slot = true -> halt_step route h (latch slot why h).1.
Proof.
  intros Hl. unfold latch. destruct (_ || _ || _) eqn:E; [apply halt_step_refl|].
  apply orb_false_iff in E as [_ E]. simpl. split.
  - intros s Hs. unfold reason, is_halted in *. simpl. destruct (decide (s = slot)) as [->|]; [by rewrite Hs in E|].
    by rewrite list_lookup_insert_ne.
  - intros H s Hs. simpl in Hs. destruct (pending_insert _ _ _ _ Hs) as [Hp| ->]; [by apply H|done].
  - halt_widths.
Qed.

Lemma set_pending_step route slot p h :
  0 <= p <= CANCEL_RETRY ->
  p = CANCEL_NONE \/ is_live route slot = true \/ get (hs_pending h) slot <> CANCEL_NONE ->
  halt_step route h (set_pending slot p h).
Proof.
  intros Hr Hp. apply same_reasons_step; [done| |].
  2: { intros H. pose proof H as []. split; simpl; rewrite ?length_insert; auto. by apply phase_insert. }
  intros s Hs. simpl in Hs.
  destruct (pending_insert _ _ _ _ Hs) as [?| ->]; [by left|]. destruct Hp as [->|[?|?]]; [|by right|by left].
  exfalso. apply Hs. unfold get. destruct (decide (slot < length (hs_pending h))%nat).
  - by rewrite list_lookup_insert_eq.
  - by rewrite lookup_ge_None_2 by (rewrite length_insert; lia).
Qed.

Lemma cancel_requested_step route slot h : halt_step route h (cancel_requested slot h).
Proof.
  unfold cancel_requested. destruct (_ && _) eqn:E; [|apply halt_step_refl].
  apply set_pending_step; [unfold CANCEL_ASKED, CANCEL_RETRY; lia|]. right. right.
  apply andb_true_iff in E as [_ [E%Z.eqb_eq|E%Z.eqb_eq]%orb_true_iff]; rewrite E; done.
Qed.

Lemma cancel_failed_step route slot h : halt_step route h (cancel_failed slot h).
Proof.
  unfold cancel_failed. cbv zeta.
  set (h1 := mkHalt _ _ _ _ _ _ _ _).
  assert (halt_step route h h1) as H1 by (apply same_reasons_step; [done|auto|halt_widths]).
  destruct (_ && _) eqn:E; [|done]. eapply halt_step_trans; [exact H1|].
  apply set_pending_step; [unfold CANCEL_RETRY; lia|]. right. right.
  apply andb_true_iff in E as [_ E%Z.eqb_eq]. by rewrite E.
Qed.

Lemma cancel_cleared_step route slot h : halt_step route h (cancel_cleared slot h).
Proof.
  unfold cancel_cleared. case_match; [|apply halt_step_refl].
  apply set_pending_step; [unfold CANCEL_NONE, CANCEL_RETRY; lia|by left].
Qed.

Lemma cancel_stranded_step route h : halt_step route h (cancel_stranded h).
Proof. apply same_reasons_step; [done|auto|halt_widths]. Qed.

(** A mask stays sixteen bits wide. *)
Lemma mask_lor a b : 0 <= a <= u16_max -> 0 <= b <= u16_max -> 0 <= Z.lor a b <= u16_max.
Proof.
  intros Ha Hb. assert (0 <= Z.lor a b) by (apply Z.lor_nonneg; lia). split; [done|].
  destruct (Z.eq_dec (Z.lor a b) 0) as [E|]; [rewrite E; done|].
  enough (Z.lor a b < 2 ^ 16) by (change (2 ^ 16) with 65536 in *; unfold u16_max; lia).
  apply Z.log2_lt_pow2; [lia|]. rewrite Z.log2_lor by lia. apply Z.max_lub_lt.
  - destruct (Z.eq_dec a 0) as [->|]; [done|]. apply Z.log2_lt_pow2; [lia|]. change (2 ^ 16) with 65536. unfold u16_max in *. lia.
  - destruct (Z.eq_dec b 0) as [->|]; [done|]. apply Z.log2_lt_pow2; [lia|]. change (2 ^ 16) with 65536. unfold u16_max in *. lia.
Qed.

Lemma mask_land a b : 0 <= a <= u16_max -> 0 <= Z.land a b <= u16_max.
Proof.
  intros Ha. split; [apply Z.land_nonneg; lia|].
  assert (Z.land a b + Z.ldiff a b = a) as E.
  { rewrite Z.add_nocarry_lxor, Z.lxor_lor by (apply Z.bits_inj'; intros i Hi;
      rewrite ?Z.land_spec, ?Z.ldiff_spec, ?Z.land_spec, Z.bits_0; by destruct (Z.testbit a i), (Z.testbit b i)).
    apply Z.bits_inj'. intros i Hi. rewrite Z.lor_spec, Z.land_spec, Z.ldiff_spec.
    by destruct (Z.testbit a i), (Z.testbit b i). }
  assert (0 <= Z.ldiff a b) by (apply Z.ldiff_nonneg; lia). lia.
Qed.

Lemma slot_bit_range slot b : (slot < EXEC_SLOTS)%nat -> 0 <= slot_bit slot b <= u16_max.
Proof.
  intros H. unfold EXEC_SLOTS in H. do 16 (destruct slot as [|slot]; [destruct b; vm_compute; split; discriminate|]). lia.
Qed.

Lemma judge_hold_step route slot sig lim h : is_live route slot = true -> halt_step route h (judge_hold slot sig lim h).
Proof.
  intros Hl. unfold judge_hold. destruct (negb _).
  - unfold hold. destruct (_ || _) eqn:E; [apply halt_step_refl|]. apply orb_false_iff in E as [Es%Nat.leb_gt _].
    assert (halt_ok h -> forall b b', 0 <= Z.lor (hs_held_gap h) (slot_bit slot b) <= u16_max /\
      0 <= Z.lor (hs_held_stale h) (slot_bit slot b') <= u16_max) as Hm.
    { intros []. intros. split; apply mask_lor; auto using slot_bit_range. }
    case_match; simpl; apply same_reasons_step; auto.
    + intros H'. pose proof H' as []. destruct (Hm H' (negb (Z.land (hold_for sig lim) HOLD_WS_GAP =? 0))
        (negb (Z.land (hold_for sig lim) HOLD_RECON_STALE =? 0))). by split.
    + intros s Hs. simpl in Hs. case_match; [|by left]. destruct (pending_insert _ _ _ _ Hs) as [?| ->]; auto.
    + intros H'. pose proof H' as []. destruct (Hm H' (negb (Z.land (hold_for sig lim) HOLD_WS_GAP =? 0))
        (negb (Z.land (hold_for sig lim) HOLD_RECON_STALE =? 0))). split; simpl; try done.
      * case_match; by rewrite ?length_insert.
      * case_match; [|done]. apply phase_insert; [unfold CANCEL_WANTED, CANCEL_RETRY; lia|done].
      * destruct_and?. split_and!; auto; ilia.
  - case_match; [|apply halt_step_refl]. unfold release. case_match; [apply halt_step_refl|].
    apply same_reasons_step; auto. intros []. split; simpl; auto using mask_land.
Qed.

Lemma halt_steps h r : halt_step (rd_route r) (rd_halt r) h -> steps r (set_halt h r).
Proof. intros [H1 H2 H3]. apply rtc_once. by apply M_halt. Qed.

(** *** Folding the slots *)

(** A fold whose every turn steps, steps. *)
Lemma fold_steps {X} (f : Rt -> X -> Rt) (xs : list X) r :
  (forall r x, x ∈ xs -> steps r (f r x)) -> steps r (foldl f r xs).
Proof.
  revert r. induction xs as [|x xs IH]; intros r H; [done|]. cbn [foldl]. etransitivity; [apply H; left|].
  apply IH. intros r' y Hy. apply H. by right.
Qed.

Lemma fold_counts {X} (f : Rt * nat -> X -> Rt * nat) (xs : list X) st :
  (forall st x, steps st.1 (f st x).1) -> steps st.1 (foldl f st xs).1.
Proof. revert st. induction xs as [|x xs IH]; intros st H; [done|]. cbn [foldl]. etransitivity; [apply H|by apply IH]. Qed.

(** *** The file, the halt edge and the cancels *)

Definition may_cancel_slots : Prop := forall slot, may (V_cancel_slot slot).

Lemma write_halt_file_steps w r : steps r (write_halt_file w r).
Proof. unfold write_halt_file. destruct (negb _); [done|]. apply rtc_once, M_file. Qed.

Lemma latch_one_steps reasons st slot : steps st.1 (latch_one reasons st slot).1.
Proof.
  destruct st as [r n]. unfold latch_one. destruct (negb (reason_halted _)); [done|].
  destruct (is_live (rd_route r) slot) eqn:El; [|done]. simpl.
  pose proof (latch_step (rd_route r) slot (default HR_None (reasons !! slot)) (rd_halt r) El) as H.
  destruct (latch _ _ _) as [h edge]. simpl in *. by apply halt_steps.
Qed.

Lemma latch_all_steps reasons w r : steps r (latch_all reasons w r).1.
Proof.
  unfold latch_all. pose proof (fold_counts (latch_one reasons) (seq 0 EXEC_SLOTS) (r, 0%nat)
    (latch_one_steps reasons)) as H.
  destruct (foldl _ _ _) as [r1 n]. simpl in *. etransitivity; [exact H|].
  destruct (0 <? n)%nat; [apply write_halt_file_steps|done].
Qed.

Lemma confirm_clear_steps slot r : steps r (confirm_clear slot r).
Proof.
  unfold confirm_clear. etransitivity; [apply (halt_steps (cancel_cleared slot (rd_halt r)) r), cancel_cleared_step|].
  rest_op (R_clear _).
Qed.

Lemma ask_cancel_steps slot r :
  may_cancel_slots -> get (hs_pending (rd_halt r)) slot <> CANCEL_NONE -> steps r (ask_cancel slot r).
Proof.
  intros Hmay Hp. unfold ask_cancel. simpl. destruct (od_cancel_slot slot (rec_arm (rd_live r))) as [a res] eqn:Es. simpl.
  eapply step_then; [apply (M_live_verb (V_cancel_slot slot) a r); [by econstructor|apply Hmay|intros Hl; by apply Hl]|].
  destruct (negb (is_ok res)); [apply halt_steps, cancel_failed_step|].
  destruct (od_cancel_slot_state slot a); [apply confirm_clear_steps|done|done].
Qed.

Lemma cancel_phase_pending slot h : cancel_phase slot h <> CP_None -> get (hs_pending h) slot <> CANCEL_NONE.
Proof.
  unfold cancel_phase. intros H E. rewrite E in H. by destruct (EXEC_SLOTS <=? slot)%nat.
Qed.

Lemma requested_pending slot h :
  get (hs_pending h) slot <> CANCEL_NONE -> get (hs_pending (cancel_requested slot h)) slot <> CANCEL_NONE.
Proof.
  intros H. unfold cancel_requested. destruct (_ && _); [|done]. simpl. unfold get in *.
  destruct (hs_pending h !! slot) eqn:E; [|done]. rewrite list_lookup_insert_eq; [done|]. by eapply lookup_lt_Some.
Qed.

Lemma try_cancel_slot_steps slot r : may_cancel_slots -> steps r (try_cancel_slot slot r).
Proof.
  intros Hmay. unfold try_cancel_slot. pose proof (cancel_phase_pending slot (rd_halt r)) as Hp.
  destruct (cancel_phase slot (rd_halt r)); [done| | |].
  - etransitivity; [apply halt_steps, cancel_requested_step|]. apply ask_cancel_steps; [done|]. simpl.
    apply requested_pending. by apply Hp.
  - destruct (od_cancel_slot_state slot (rd_live r)); [apply confirm_clear_steps|done|].
    etransitivity; [apply halt_steps, cancel_stranded_step|]. apply ask_cancel_steps; [done|]. simpl. by apply Hp.
  - destruct (od_cancel_slot_state slot (rd_live r)); [|done|];
      (etransitivity; [apply halt_steps, cancel_requested_step|]; apply ask_cancel_steps; [done|]; simpl;
       apply requested_pending; by apply Hp).
Qed.

Lemma try_cancel_slots_steps r : may_cancel_slots -> steps r (try_cancel_slots r).
Proof.
  intros Hmay. unfold try_cancel_slots. destruct (negb _); [done|]. apply (fold_steps (fun r s => try_cancel_slot s r)).
  intros. by apply try_cancel_slot_steps.
Qed.

Lemma halt_slot_steps slot why w r : may_cancel_slots -> steps r (halt_slot slot why w r).1.
Proof.
  intros Hmay. unfold halt_slot. destruct (is_live (rd_route r) slot) eqn:El; [|done]. simpl.
  pose proof (latch_step (rd_route r) slot why (rd_halt r) El) as H.
  destruct (latch slot why (rd_halt r)) as [h edge]. simpl in *. destruct edge; simpl; [|by apply halt_steps].
  etransitivity; [by apply halt_steps|]. etransitivity; [apply write_halt_file_steps|by apply try_cancel_slots_steps].
Qed.

Lemma poll_halt_file_steps now v w r : steps r (poll_halt_file now v w r).
Proof.
  unfold poll_halt_file. repeat (case_match; try done; try apply rtc_once, M_file).
  simplify_eq/=. match goal with E : latch_all ?rs w ?r1 = (?r2, _) |- _ =>
    pose proof (latch_all_steps rs w r1) as Hl; rewrite E in Hl; simpl in Hl end.
  all: try (etransitivity; [apply rtc_once, M_file|]; etransitivity; [exact Hl|]; try done; apply rtc_once, M_file).
  match goal with E : latch_all ?rs w ?r1 = (?r2, _) |- _ =>
    pose proof (latch_all_steps rs w r1) as Hl; rewrite E in Hl; simpl in Hl end.
  etransitivity; [apply rtc_once, M_file|exact Hl].
Qed.

Lemma adopt_halt_file_steps v r : steps r (adopt_halt_file v r).1.
Proof.
  unfold adopt_halt_file. destruct (negb _); [done|]. cbv zeta.
  match goal with |- steps r (let '(_, _) := ?m in _).1 => assert (steps r m.1) as H; [|destruct m as [r1 n]] end.
  { repeat case_match; simplify_eq/=; try (apply rtc_once, M_file).
    etransitivity; [|apply latch_all_steps]. apply rtc_once, M_file. }
  etransitivity; [exact H|apply rtc_once, M_file].
Qed.

Lemma drain_renamed_steps k r : steps r (drain_renamed k r).1.
Proof.
  revert r. induction k as [|k IH]; intros r; [done|]. simpl.
  destruct (od_try_next_renamed (rec_arm (rd_live r))) as [a [n|]] eqn:Ea; [|apply rtc_once, M_live; eauto].
  match goal with |- context [drain_renamed k ?r1] => pose proof (IH r1) as H; destruct (drain_renamed k r1) as [r2 m] end.
  simpl in *. eapply step_then; [apply (M_live a r); eauto|]. etransitivity; [|exact H].
  rest_op (R_modify _ _ _ _ _ _ _).
Qed.

Lemma drain_retired_steps k r : steps r (drain_retired k r).
Proof.
  revert r. induction k as [|k IH]; intros r; [done|]. simpl.
  destruct (od_try_next_retired (rec_arm (rd_live r))) as [a [n|]] eqn:Ea; [|apply rtc_once, M_live; eauto].
  eapply step_then; [apply (M_live a r); eauto|]. etransitivity; [|apply IH].
  etransitivity; [|apply rtc_once, M_retired; apply length_upd]. rest_op (R_retired _ _).
Qed.

Lemma sweep_marks_steps now r : steps r (sweep_marks now r).
Proof.
  unfold sweep_marks. destruct (_ <=? _); [|done]. eapply step_then; [apply M_sweep, wrap_u64_range|]. apply rtc_once.
  exact (M_ledger (O_inst (I_expire now)) _ I).
Qed.

Lemma adopt_day_steps r slot : steps r (adopt_day r slot).
Proof.
  unfold adopt_day. destruct (negb _); [done|]. destruct (od_venue_day_bought _ _) as [[day b]|]; [|done].
  apply rtc_once. exact (M_ledger (O_adopt slot day b) _ I).
Qed.

Lemma judge_slot_steps st slot : steps st.1 (judge_slot st slot).1.
Proof.
  destruct st as [r n]. unfold judge_slot. destruct (is_live (rd_route r) slot) eqn:El; [|done]. simpl.
  destruct (halts_at (rd_route r) slot) as [lim|]; [|done]. cbv zeta.
  set (sig := od_halt_signal_for slot (rec_arm (rd_live r))).
  set (r1 := if _ && _ then _ else r).
  assert (steps r r1) as H1.
  { unfold r1. destruct (_ && _); [|done]. apply rtc_once. exact (M_ledger (O_slot_seeded slot) _ I). }
  assert (rd_route r1 = rd_route r) as Er by (unfold r1; by destruct (_ && _)).
  pose proof (latch_step (rd_route r1) slot (trigger_for sig lim) (rd_halt r1) ltac:(by rewrite Er)) as H2.
  destruct (latch _ _ _) as [h edge]. simpl in *. etransitivity; [exact H1|]. apply halt_steps.
  eapply halt_step_trans; [exact H2|]. apply judge_hold_step. by rewrite Er.
Qed.

Lemma judge_slots_steps w r : steps r (judge_slots w r).
Proof.
  unfold judge_slots. pose proof (fold_counts judge_slot (seq 0 EXEC_SLOTS) (r, 0%nat) judge_slot_steps) as H.
  destruct (foldl _ _ _) as [r1 n]. simpl in *. etransitivity; [exact H|].
  destruct (0 <? n)%nat; [apply write_halt_file_steps|done].
Qed.

Lemma drain_reports_steps r : steps r (drain_reports r).
Proof.
  unfold drain_reports. generalize RETIRED_DRAIN_MAX. intros k. pose proof (drain_renamed_steps k r) as H.
  destruct (drain_renamed k r) as [r1 n]. cbn [fst] in H. etransitivity; [exact H|].
  destruct (n <? k)%nat; [apply drain_retired_steps|done].
Qed.

Lemma on_idle_steps e r : may_cancel_slots -> steps r (on_idle e r).1.
Proof.
  intros Hmay. unfold on_idle. cbn [od_on_idle recorded_dispatch].
  destruct (od_on_idle (rec_arm (rd_paper r))) as [p a]. cbn [set_paper rd_live].
  destruct (od_on_idle (rec_arm (rd_live r))) as [v b] eqn:Ev. cbn [fst].
  set (r0 := set_live _ _).
  assert (steps r r0) as H0 by exact (both_quiet p v r (heard_idle _ _ _ Ev)). clearbody r0.
  etransitivity; [exact H0|]. etransitivity; [|by apply try_cancel_slots_steps].
  etransitivity; [|apply poll_halt_file_steps]. etransitivity; [|apply judge_slots_steps].
  etransitivity; [|apply fold_steps; intros; apply adopt_day_steps].
  etransitivity; [|apply sweep_marks_steps]. apply drain_reports_steps.
Qed.

Lemma on_venue_event_steps e r : steps r (on_venue_event e r).
Proof.
  unfold on_venue_event. cbv zeta.
  etransitivity; [exact (both_quiet (od_on_venue_event e (rec_arm (rd_paper r)))
    (od_on_venue_event e (rec_arm (rd_live r))) r (heard_event _ e))|].
  change (od_on_venue_event e (rd_live r)) with (quiet (od_on_venue_event e (rec_arm (rd_live r))) (rd_live r)).
  change (od_on_venue_event e (rd_paper r)) with (quiet (od_on_venue_event e (rec_arm (rd_paper r))) (rd_paper r)).
  set (r1 := set_live _ _). clearbody r1. unfold unpack_roll_seq.
  destruct (ev_channel e =? CHANNEL_MARK); [apply rtc_once; refine (M_ledger (O_inst (I_mark _ _ _ _)) r1 I)|].
  destruct (negb _); [done|].
  destruct (roll_kind _ =? ROLL_KIND_CREATED); [|destruct (roll_kind _ =? ROLL_KIND_SETTLED)]; apply rtc_once.
  - refine (M_ledger (O_bind _ _ _ _) r1 I).
  - refine (M_ledger (O_settle _ _) r1 I).
  - exact (M_ledger O_refuse_roll r1 I).
Qed.

(** ** What every step keeps *)

Lemma steps_route r r' : steps r r' -> rd_route r' = rd_route r.
Proof. induction 1 as [|r r1 r2 M _ IH]; [done|]. rewrite IH. by destruct M. Qed.

Lemma steps_pending r r' :
  steps r r' -> pending_live (rd_route r) (rd_halt r) -> pending_live (rd_route r') (rd_halt r').
Proof. induction 1 as [|r r1 r2 M _ IH]; [done|]. intros H. apply IH. destruct M; auto. Qed.

(** What the live arm holds in its log it held at the start, or was sent in a
    state that allowed it. *)
Lemma steps_live_log r r' :
  steps r r' -> pending_live (rd_route r) (rd_halt r) ->
  forall v, v ∈ rec_log (rd_live r') ->
  v ∈ rec_log (rd_live r) \/ exists r1, steps r r1 /\ steps r1 r' /\ live_may r1 v.
Proof.
  induction 1 as [r|r r1 r2 M S IH]; intros Hp v Hv; [by left|].
  assert (pending_live (rd_route r1) (rd_halt r1)) as Hp1.
  { apply (steps_pending r r1); [by apply rtc_once|done]. }
  destruct (IH Hp1 v Hv) as [H1|(r3 & S1 & S2 & Hm)].
  - assert (v ∈ rec_log (rd_live r) \/ live_may r v) as [?|?]; [|by left|].
    + clear IH S. destruct M; simpl in *; auto.
      apply elem_of_app in H1 as [?|Hv1]; [by left|]. apply list_elem_of_singleton in Hv1 as ->. auto.
    + right. exists r. split_and!; [done|by eapply step_then|done].
  - right. exists r3. split_and!; [by eapply step_then|done..].
Qed.

Lemma steps_paper_log r r' :
  steps r r' -> forall v, v ∈ rec_log (rd_paper r') -> v ∈ rec_log (rd_paper r) \/ paper_may (rd_route r) v.
Proof.
  induction 1 as [r|r r1 r2 M S IH]; intros v Hv; [by left|].
  destruct (IH v Hv) as [H1|H1].
  - clear IH S. destruct M; simpl in *; auto.
    apply elem_of_app in H1 as [?|Hv1]; [by left|]. apply list_elem_of_singleton in Hv1 as ->. auto.
  - right. by destruct M.
Qed.

(** The orders of [slot] an arm was sent. *)
Definition places (slot : nat) (v : Verb) : Prop :=
  match v with
  | V_submit o => o_slot o = slot
  | V_modify m => o_slot (mr_order m) = slot
  | _ => False
  end.

#[export] Instance places_dec slot v : Decision (places slot v).
Proof. destruct v; unfold places; apply _. Defined.

Definition placed (slot : nat) (log : list Verb) : list Verb := filter (places slot) log.

Lemma steps_halted r r' slot :
  steps r r' -> pending_live (rd_route r) (rd_halt r) -> is_halted slot (rd_halt r) = true ->
  reason slot (rd_halt r') = reason slot (rd_halt r) /\
  placed slot (rec_log (rd_live r')) = placed slot (rec_log (rd_live r)).
Proof.
  induction 1 as [r|r r1 r2 M S IH]; intros Hp Hh; [done|].
  assert (reason slot (rd_halt r1) = reason slot (rd_halt r)) as Hr.
  { clear IH S. destruct M as [|h r Hk Hl Ho| | | | | | | | |]; try done. simpl. by apply Hk. }
  assert (placed slot (rec_log (rd_live r1)) = placed slot (rec_log (rd_live r))) as Hl.
  { clear IH S. destruct M as [| | | | | | | | | |v a r _ _ Hm]; try done. simpl. unfold placed.
    rewrite filter_app, (filter_cons_False (places slot)), filter_nil, app_nil_r; [done|]. specialize (Hm Hp).
    intros Hv. unfold live_may, live_order in Hm.
    destruct v as [o|m|c|s]; try done; rewrite <- Hv in Hh; destruct Hm as (_ & _ & Hm & _); simpl in *; congruence. }
  destruct IH as [E1 E2].
  - apply (steps_pending r r1); [by apply rtc_once|done].
  - unfold is_halted in *. by rewrite Hr.
  - by rewrite E1, E2.
Qed.

(** *** The ledger and the widths *)

Lemma steps_ledger r r' :
  steps r r' -> exists ops, Forall ledger_op_ok ops /\ rd_ledger r' = foldl run_ledger (rd_ledger r) ops.
Proof.
  induction 1 as [r|r r1 r2 M _ (ops & H & E)]; [exists []; by split; [constructor|]|].
  destruct M as [op r Hop| | | | | | | | | |]; simpl in *; try by exists ops.
  exists (op :: ops). split; [by constructor|done].
Qed.

(** A router whose tables have their sizes and whose counters their widths,
    over a ledger that is its own. *)
Record router_ok (r : Rt) : Prop := {
  ro_ledger : ledger_ok (rd_ledger r);
  ro_halt : halt_ok (rd_halt r);
  ro_counters : counters_ok (rd_counters r);
  ro_retired : length (rd_retired r) = RETIRED_WHY_SLOTS;
  ro_sweep : in_u64 (rd_mark_sweep_ns r)
}.

Lemma micro_ok r r' : micro r r' -> router_ok r -> router_ok r'.
Proof. intros M []. destruct M; split; simpl; auto using run_ledger_ok; congruence. Qed.

Lemma steps_ok r r' : steps r r' -> router_ok r -> router_ok r'.
Proof. induction 1; eauto using micro_ok. Qed.

End Steps.

Section Properties.
Context {P L : Type} `{!OrderDispatch P} `{!OrderDispatch L}.

#[local] Abbreviation Rt := (Routed (Recorded P) (Recorded L)).
#[local] Abbreviation steps := (rtc (micro (fun _ => True) (fun _ => True))).

(** The verbs a call may send: its own order verb, or cancels of halted slots. *)
Definition sends (op : RouterOp) (v : Verb) : Prop :=
  match op with
  | Q_submit o => v = V_submit o
  | Q_cancel c => v = V_cancel c
  | Q_modify m => v = V_modify m
  | Q_idle _ | Q_halt _ _ _ | Q_reconcile _ _ _ => exists s, v = V_cancel_slot s
  | _ => False
  end.

(** Every call of the router is a run of such steps. *)
Lemma run_router_steps may tabs op (r : Rt) :
  (forall v, sends op v -> may v) -> (forall es, op = Q_aliases es -> tabs es) -> router_op_ok op ->
  rtc (micro may tabs) r (run_router r op).
Proof.
  destruct op as [o|c|m|e|e|o|t now| |f|slot why w|slot ps w|v| |es|spec|sym slot|sym pos px day|]; intros Hmay Htab Hok; simpl.
  - by apply submit_steps, Hmay.
  - by apply cancel_steps, Hmay.
  - by apply modify_steps, Hmay.
  - apply on_idle_steps. intros s. apply Hmay. by exists s.
  - apply on_venue_event_steps.
  - etransitivity; [exact (both_quiet may tabs (od_on_opt_summary o (rec_arm (rd_paper r)))
      (od_on_opt_summary o (rec_arm (rd_live r))) r (heard_summary _ o))|]. apply rtc_once.
    lazymatch goal with |- micro _ _ ?r1 _ => exact (M_ledger may tabs (O_inst (I_summary o)) r1 I) end.
  - exact (both_quiet may tabs (od_observe_tick t now (rec_arm (rd_paper r))) (od_observe_tick t now (rec_arm (rd_live r))) r (heard_tick _ t now)).
  - unfold try_next_fill. simpl. destruct (od_try_next_fill (rec_arm (rd_paper r))) as [p [f|]]; simpl.
    + apply rtc_once, M_paper.
    + destruct (od_try_next_fill (rec_arm (rd_live r))) as [a f] eqn:Ea. simpl.
      apply (both_quiet may tabs p a r (heard_fill _ _ _ Ea)).
  - apply rtc_once. exact (M_ledger may tabs (O_fill f) r Hok).
  - apply halt_slot_steps. intros s. apply Hmay. by exists s.
  - unfold reconcile_perps. destruct (halts_at (rd_route r) slot) as [lim|]; [|done].
    destruct (_ && _); [|done]. apply halt_slot_steps. intros s. apply Hmay. by exists s.
  - apply adopt_halt_file_steps.
  - apply rtc_once, M_file.
  - apply rtc_once. exact (M_aliases may tabs es r (Htab es eq_refl)).
  - unfold router_bind_instrument. destruct (bind_instrument _ _) as [t res] eqn:E. apply rtc_once. simpl.
    pose proof (M_ledger may tabs (O_inst (I_bind spec)) r Hok) as M. simpl in M. by rewrite E in M.
  - unfold router_bind_perp. destruct (bind_perp _ _ _) as [t res] eqn:E. apply rtc_once. simpl.
    pose proof (M_ledger may tabs (O_inst (I_bind_perp sym slot)) r Hok) as M. simpl in M. by rewrite E in M.
  - unfold router_seed_perp. destruct (seed_perp _ _ _ _ _) as [l res] eqn:E. apply rtc_once. simpl.
    pose proof (M_ledger may tabs (O_seed_perp sym pos px day) r I) as M. simpl in M. by rewrite E in M.
  - apply rtc_once. exact (M_ledger may tabs O_seeded r I).
Qed.

(** A call that sets no table keeps the one there is. *)
Lemma steps_aliases may (r r' : Rt) : rtc (micro may (fun _ => False)) r r' -> rd_aliases r' = rd_aliases r.
Proof. induction 1 as [|r r1 r2 M _ IH]; [done|]. rewrite IH. by destruct M. Qed.

Lemma runs_router_steps ops (r : Rt) : Forall router_op_ok ops -> steps r (foldl run_router r ops).
Proof.
  revert r. induction ops as [|op ops IH]; intros r H; [done|]. apply Forall_cons in H as [Hop H]. cbn [foldl].
  etransitivity; [apply run_router_steps; done|by apply IH].
Qed.

(** ** The router at boot *)

Definition boot (route : ExecRoute) (p : P) (a : L) (anchor : Clock.WallAnchor) : Rt :=
  Routed_new route (mkRec p []) (mkRec a []) anchor.

Lemma boot_halt_ok : halt_ok HaltState_new.
Proof.
  split; [done|done|apply Forall_replicate; unfold CANCEL_RETRY; lia|done|done|split_and!; done].
Qed.

Lemma boot_counters_ok : counters_ok RouteCounters_new.
Proof. split; intros; done. Qed.

Lemma boot_ok route p a anchor : router_ok (boot route p a anchor).
Proof.
  split; [apply Ledger_new_ok|apply boot_halt_ok|apply boot_counters_ok|apply length_replicate|].
  unfold boot, Routed_new, rd_mark_sweep_ns, u64_max. lia.
Qed.

Lemma boot_pending route p a anchor :
  let r := boot route p a anchor in pending_live (rd_route r) (rd_halt r).
Proof.
  intros r s Hs. exfalso. apply Hs. unfold r, boot, Routed_new, HaltState_new, rd_halt, hs_pending, get.
  destruct (replicate EXEC_SLOTS 0 !! s) as [x|] eqn:E; [|done]. by apply lookup_replicate_1 in E as [-> _].
Qed.

(** ** The properties *)

(** *** Where a verb came from *)

Lemma steps_sent may tabs (r r' : Rt) :
  rtc (micro may tabs) r r' -> forall v, v ∈ rec_log (rd_live r') -> v ∈ rec_log (rd_live r) \/ may v.
Proof.
  induction 1 as [r|r r1 r2 M S IH]; intros v Hv; [by left|].
  destruct (IH v Hv) as [H1|H1]; [|by right]. clear IH S. destruct M; simpl in *; auto.
  apply elem_of_app in H1 as [?|Hv1]; [by left|]. apply list_elem_of_singleton in Hv1 as ->. auto.
Qed.

(** An order reaches the live arm only in a state that allows it. *)
Lemma submit_log o (r : Rt) v :
  v ∈ rec_log (rd_live (submit o r).1) -> v ∈ rec_log (rd_live r) \/ live_order r o.
Proof.
  unfold submit. destruct (mode (rd_route r) (o_strategy_id o)) eqn:Em.
  - simpl. destruct (od_submit o (rec_arm (rd_paper r))) as [a res]. by left.
  - destruct (venue_allowed _ _ _) eqn:Ev; cbn [negb]; [|by left].
    set (vn := route_venue _ _ _) in *. pose proof (gate_keeps_rest o vn Place r) as K.
    pose proof (gate_passes o vn Place r) as G.
    destruct (gate o vn Place r) as [r1 [[]|e]] eqn:Eg; simpl in K; destruct K as (Kr & Ka & Kh & Kl & _).
    + intros _. right. specialize (G r1 eq_refl Em Ev). unfold live_order in *. rewrite Kr, Ka, Kh in G.
      destruct G as (? & ? & ? & ? & _). split_and!; try done. by eapply gate_seeded.
    + simpl. rewrite Kl. by left.
  - by left.
Qed.

Lemma modify_log m (r : Rt) v :
  v ∈ rec_log (rd_live (modify m r).1) -> v ∈ rec_log (rd_live r) \/ live_order r (mr_order m).
Proof.
  unfold modify. destruct (mode (rd_route r) (o_strategy_id (mr_order m))) eqn:Em.
  - simpl. destruct (od_modify m (rec_arm (rd_paper r))) as [a res]. by left.
  - destruct (venue_allowed _ _ _) eqn:Ev; cbn [negb]; [|by left].
    set (vn := route_venue _ _ _) in *. set (vb := Replace _). pose proof (gate_keeps_rest (mr_order m) vn vb r) as K.
    pose proof (gate_passes (mr_order m) vn vb r) as G.
    destruct (gate (mr_order m) vn vb r) as [r1 [[]|e]] eqn:Eg; simpl in K; destruct K as (Kr & Ka & Kh & Kl & _).
    + intros _. right. specialize (G r1 eq_refl Em Ev). unfold live_order in *. rewrite Kr, Ka, Kh in G.
      destruct G as (? & ? & ? & ? & _). split_and!; try done. by eapply gate_seeded.
    + simpl. rewrite Kl. by left.
  - by left.
Qed.

Lemma cancel_log c (r : Rt) v :
  v ∈ rec_log (rd_live (cancel c r).1) -> v ∈ rec_log (rd_live r) \/ live_may r (V_cancel c).
Proof.
  unfold cancel. simpl. destruct (mode (rd_route r) (cr_strategy_id c)) eqn:Em.
  - destruct (od_cancel c (rec_arm (rd_paper r))) as [a res]. by left.
  - destruct (venue_allowed _ _ _); cbn [negb]; [intros _; right; by split|by left].
  - destruct (venue_allowed _ _ _); cbn [negb]; [intros _; right; by split|by left].
Qed.

Lemma live_log_step op (r : Rt) v :
  router_op_ok op -> pending_live (rd_route r) (rd_halt r) -> v ∈ rec_log (rd_live (run_router r op)) ->
  v ∈ rec_log (rd_live r) \/ sends op v /\ live_may r v.
Proof.
  intros Hop Hp Hv. pose proof (run_router_steps (sends op) (fun _ => True) op r (fun v H => H) (fun _ _ => I) Hop) as S.
  destruct (steps_sent _ _ _ _ S v Hv) as [?|Hs]; [by left|].
  destruct (steps_live_log _ _ _ _ S Hp v Hv) as [?|(r1 & S1 & _ & Hm)]; [by left|].
  pose proof (steps_route _ _ _ _ S1) as Er.
  destruct op; simpl in Hs; try done.
  - subst v. destruct (submit_log _ _ _ Hv); [by left|by right].
  - subst v. destruct (cancel_log _ _ _ Hv); [by left|by right].
  - subst v. destruct (modify_log _ _ _ Hv); [by left|by right].
  - right. split; [done|]. destruct Hs as [s ->]. simpl in *. by rewrite <- Er.
  - right. split; [done|]. destruct Hs as [s ->]. simpl in *. by rewrite <- Er.
  - right. split; [done|]. destruct Hs as [s ->]. simpl in *. by rewrite <- Er.
Qed.

(** C2. Over any run of the router from boot, the paper arm is sent only
    verbs of paper slots; and each verb in the live arm's log was sent by
    the call it names, in a state where an order's slot is live, its venue
    allowed, the slot neither halted nor held and its ledger seeded, a
    cancel's slot is not on paper and its venue allowed, and a slot-wide
    cancel is of a live slot. *)
Theorem arms_are_sent_only_what_the_route_allows route p a anchor ops :
  Forall router_op_ok ops ->
  let r0 := boot route p a anchor in
  let r := foldl run_router r0 ops in
  (forall v, v ∈ rec_log (rd_paper r) -> paper_may route v) /\
  (forall v, v ∈ rec_log (rd_live r) ->
     exists before op after, ops = before ++ op :: after /\ sends op v /\ live_may (foldl run_router r0 before) v).
Proof.
  intros Hops r0 r. split.
  { intros v Hv. destruct (steps_paper_log _ _ r0 r (runs_router_steps ops r0 Hops) v Hv) as [H|H]; [|exact H].
    by apply not_elem_of_nil in H. }
  revert Hops. subst r. induction ops as [|op ops IH] using rev_ind; intros Hops v; [by intros ?%not_elem_of_nil|].
  apply Forall_app in Hops as [Hops Hop]. rewrite Forall_singleton in Hop. rewrite foldl_snoc. intros Hv.
  apply live_log_step in Hv as [Hv|[Hs Hm]]; [| |done|].
  - destruct (IH Hops v Hv) as (b & o & t & -> & Hs & Hm). exists b, o, (t ++ [op]).
    by rewrite <- app_assoc.
  - by exists ops, op, [].
  - eapply steps_pending; [by apply runs_router_steps|apply boot_pending].
Qed.

(** C3. Once a slot is halted it stays halted with its first reason through
    every later call of the router, and no submit or modify of the slot
    reaches the live arm again. *)
Theorem halted_slot_never_places_again route p a anchor ops later slot :
  Forall router_op_ok ops -> Forall router_op_ok later ->
  let r := foldl run_router (boot route p a anchor) ops in
  let r' := foldl run_router r later in
  is_halted slot (rd_halt r) = true ->
  reason slot (rd_halt r') = reason slot (rd_halt r) /\
  placed slot (rec_log (rd_live r')) = placed slot (rec_log (rd_live r)).
Proof.
  intros H1 H2 r r' Hh. apply (steps_halted (fun _ => True) (fun _ => True)); [by apply runs_router_steps| |done].
  eapply steps_pending; [by apply runs_router_steps|apply boot_pending].
Qed.

(** C19. Every state the router reaches is well formed (table sizes, cancel
    codes, sixteen-bit hold masks, counter widths), keeps its boot route,
    and its ledger is one its own operations reach, so every invariant of
    the ledger holds of it. *)
Theorem router_moves_the_ledger_lawfully route p a anchor ops :
  Forall router_op_ok ops ->
  let r := foldl run_router (boot route p a anchor) ops in
  router_ok r /\ rd_route r = route /\
  exists lops, Forall ledger_op_ok lops /\ rd_ledger r = foldl run_ledger (Ledger_new anchor) lops.
Proof.
  intros Hops r. pose proof (runs_router_steps ops (boot route p a anchor) Hops) as S. split_and!.
  - eapply steps_ok; [exact S|apply boot_ok].
  - exact (steps_route _ _ _ _ S).
  - by apply (steps_ledger (fun _ => True) (fun _ => True)) in S.
Qed.
End Properties.

(** ** A scripted arm

    It answers from a script: whether it takes what it is sent, what it
    reports, the renames and retirements it still holds. *)

Record Scripted := mkScript {
  sc_accepts : bool;
  sc_state : CancelAllState;
  sc_signal : HaltSignal;
  sc_renames : list Renamed;
  sc_retires : list Retired
}.

#[export] Instance scripted_dispatch : OrderDispatch Scripted := {
  od_submit _ x := (x, if sc_accepts x then Ok tt else Err (ArmError 0));
  od_cancel _ x := (x, if sc_accepts x then Ok tt else Err (ArmError 0));
  od_modify _ x := (x, if sc_accepts x then Ok tt else Err (ArmError 0));
  od_cancel_slot _ x := (x, if sc_accepts x then Ok tt else Err (ArmError 0));
  od_cancel_slot_state _ x := sc_state x;
  od_halt_signal_for _ x := sc_signal x;
  od_venue_day_bought _ _ := None;
  od_verbs_confirm_later _ _ _ _ := false;
  od_on_idle x := (x, false);
  od_try_next_fill x := (x, None);
  od_observe_tick _ _ x := x;
  od_on_venue_event _ x := x;
  od_on_opt_summary _ x := x;
  od_set_route_aliases _ x := x;
  od_exec_health _ _ _ := HEALTHY;
  od_try_next_renamed x :=
    match sc_renames x with
    | [] => (x, None)
    | n :: ns => (mkScript (sc_accepts x) (sc_state x) (sc_signal x) ns (sc_retires x), Some n)
    end;
  od_try_next_retired x :=
    match sc_retires x with
    | [] => (x, None)
    | n :: ns => (mkScript (sc_accepts x) (sc_state x) (sc_signal x) (sc_renames x) ns, Some n)
    end;
  od_halt_signal x := sc_signal x;
  od_cancel_all x := (x, if sc_accepts x then Ok tt else Err (ArmError 0));
  od_cancel_all_state x := sc_state x;
  od_on_fill_booked _ x := x;
  od_on_shutdown x := x
}.

Definition calm : HaltSignal := mkSignal 0 0 0 0 0 0 0 0 0 0 0 0 0 0.
Definition willing : Scripted := mkScript true CA_Clear calm [] [].

(** Slot 3 live on venue 4, slot 2 on paper. *)
Definition sample_route : ExecRoute :=
  (set_slot 3 Live [4] (mkCaps 50000000 100000000 1000000000 8)
     (mkLimits 1000000 5000 5000 3 0 0 0 0) all_paper).1.

Definition sample_order (slot oid : Z) : Order := mkOrder 1000 67108870 Bid 0 500000 2000000 oid 4 slot.

Definition sample_calls : list RouterOp :=
  [Q_seeded; Q_submit (sample_order 3 7); Q_submit (sample_order 2 8); Q_cancel (mkCancel 7 67108870 4 3);
   Q_halt 3 Operator (mkWrite true None); Q_submit (sample_order 3 9)].

Lemma sample_calls_ok : Forall router_op_ok sample_calls.
Proof. repeat constructor. Qed.

Definition sample_boot : Routed (Recorded Scripted) (Recorded Scripted) := boot sample_route willing willing sample_anchor.

Lemma arms_are_sent_only_what_the_route_allows_witness :
  let r := foldl run_router sample_boot sample_calls in
  rec_log (rd_live r) = [V_submit (sample_order 3 7); V_cancel (mkCancel 7 67108870 4 3); V_cancel_slot 3] /\
  rec_log (rd_paper r) = [V_submit (sample_order 2 8)] /\
  (forall v, v ∈ rec_log (rd_paper r) -> paper_may sample_route v).
Proof.
  set (r := foldl run_router sample_boot sample_calls). cbv zeta.
  split; [vm_compute; reflexivity|]. split; [vm_compute; reflexivity|].
  exact (proj1 (arms_are_sent_only_what_the_route_allows sample_route willing willing sample_anchor sample_calls
    sample_calls_ok)).
Defined.

Lemma halted_slot_never_places_again_witness :
  let r := foldl run_router sample_boot sample_calls in
  let r' := foldl run_router r [Q_submit (sample_order 3 10); Q_halt 3 PnlLoss (mkWrite true None)] in
  is_halted 3 (rd_halt r) = true /\ reason 3 (rd_halt r') = reason 3 (rd_halt r) /\
  placed 3 (rec_log (rd_live r')) = placed 3 (rec_log (rd_live r)).
Proof.
  set (r := foldl run_router sample_boot sample_calls). cbv zeta.
  assert (is_halted 3 (rd_halt r) = true) as H by (vm_compute; reflexivity). split; [exact H|].
  apply (halted_slot_never_places_again sample_route willing willing sample_anchor sample_calls
    [Q_submit (sample_order 3 10); Q_halt 3 PnlLoss (mkWrite true None)] 3); [exact sample_calls_ok|repeat constructor|exact H].
Defined.

Lemma router_moves_the_ledger_lawfully_witness :
  let r := foldl run_router sample_boot sample_calls in
  slot_resting 3 (resting (rd_ledger r)) = 0 /\ rd_route r = sample_route /\
  router_ok r.
Proof.
  set (r := foldl run_router sample_boot sample_calls). cbv zeta.
  split; [vm_compute; reflexivity|].
  destruct (router_moves_the_ledger_lawfully sample_route willing willing sample_anchor sample_calls sample_calls_ok)
    as (H & E & _).
  split; [exact E|exact H].
Defined.
