(* ===== verification/RouterLaws.v ===== *)
(** * The gate's caps, the cancel cycle, the restart and the merged signal *)

From Stdlib Require Import Btauto.
From S2P Require Import Prelude CoreTypes LedgerBase LedgerResting RestingProofs LedgerInst.
From S2P Require Import InstProofs Ledger LedgerProofs Halt Route Router RouterProofs.

(** ** What the gate lets through stays inside the caps *)

Lemma observe_rows ts l :
  rows (observe_mono_clock ts l) = rows l /\ inst (observe_mono_clock ts l) = inst l /\
  resting (observe_mono_clock ts l) = resting l.
Proof. unfold observe_mono_clock. destruct (ts =? 0); [done|apply roll_day_rows]. Qed.

Lemma exposure_by_rows l l' slot :
  rows l' = rows l -> inst l' = inst l -> slot_exposure_1e6 l' slot = slot_exposure_1e6 l slot.
Proof. intros E1 E2. unfold slot_exposure_1e6, family_exposure. by rewrite E1, E2. Qed.

(** The venue's fill of the whole of an order. *)
Definition fills (f : Fill) (o : Order) : Prop :=
  fl_origin f = FILL_ORIGIN_VENUE /\ fl_strategy_id f = o_slot o /\ fl_sym f = o_sym o /\
  fl_side f = o_side o /\ fl_px f = o_px o /\ fl_qty f = o_qty o.

(** An order on a leg of one family row, by no instrument or perp row. *)
Definition family_order (l : Ledger) (o : Order) : Prop :=
  (o_slot o < EXEC_SLOTS)%nat /\ is_perp (inst l) (o_sym o) = false /\ inst_find (inst l) (o_sym o) = None /\
  countb (has_leg (o_sym o)) (rows l) = 1%nat.

(** What passes the gate on a family leg has passed the family clamps. *)
Lemma passed_family route h o venue verb l l' caps :
  caps_at route (o_slot o) = Some caps -> family_order l o ->
  risk_check route h o venue verb l = (l', None) ->
  judge_family o verb caps l = (l', None).
Proof.
  intros Hc (_ & Hp & Hn & _). unfold risk_check. rewrite Hc, Hp.
  destruct (is_halted _ _); [done|]. destruct (is_held _ _); [done|]. destruct (negb _); [done|].
  assert (forall perp, probe l (o_sym o) (o_slot o) (o_qty o) (o_buy o) (o_px o) (replaced verb) perp = None) as E.
  { intros. unfold probe. by rewrite Hn. }
  unfold probe_perp, probe_instrument. rewrite !E.
  destruct (perp_is_set _); by destruct (_ =? _).
Qed.

Lemma judged_family o verb caps l l' :
  judge_family o verb caps l = (l', None) ->
  let n := notional_1e6 (o_px o) (o_qty o) in
  l' = observe_mono_clock (o_ts_ns o) l /\
  (n <= max_order_usd_1e6 caps \/ o_buy o = false /\ o_qty o <= held_on_sym_1e6 l (o_slot o) (o_sym o)) /\
  (projected_exposure_1e6 l' (o_slot o) (o_sym o) (o_qty o) (o_buy o) <= cap_instance_usd_1e6 caps \/
   projected_exposure_1e6 l' (o_slot o) (o_sym o) (o_qty o) (o_buy o) <= slot_exposure_1e6 l' (o_slot o)) /\
  (o_buy o = true -> sat_i64 (slot_day_turnover_1e6 l' (o_slot o) + n) <= cap_day_usd_1e6 caps).
Proof.
  intros H n. unfold judge_family in H. cbv zeta in H.
  repeat match type of H with
  | (if ?b then _ else _) = _ => let E := fresh "E" in destruct b eqn:E in H; [done|]
  end.
  injection H as <-. rename E1 into E3, E2 into E4, E into E1. split_and!; [done| | |].
  - apply andb_false_iff in E1 as [E1%Z.ltb_ge|E1]; [by left|]. right.
    apply orb_false_iff in E1 as [? ?%Z.ltb_ge]. by split.
  - apply andb_false_iff in E3 as [?%Z.ltb_ge|?%Z.ltb_ge]; auto.
  - intros Hb. rewrite Hb in E4. by apply Z.ltb_ge in E4.
Qed.

(** A fill on a family leg turns the day over by no more than its notional. *)
Lemma fill_turnover f l :
  fl_origin f = FILL_ORIGIN_VENUE -> (fl_strategy_id f < length (day_turnover l))%nat ->
  length (day_turnover l) = EXEC_SLOTS -> inst_find (inst l) (fl_sym f) = None ->
  0 <= notional_1e6 (fl_px f) (fl_qty f) -> 0 <= get (day_turnover l) (fl_strategy_id f) <= i64_max ->
  get (day_turnover (book_fill f l)) (fl_strategy_id f) <=
    sat_i64 (get (day_turnover l) (fl_strategy_id f) + notional_1e6 (fl_px f) (fl_qty f)).
Proof.
  intros Ho Hs Hlen Hn H0 Ht. set (n := notional_1e6 _ _) in *.
  assert (length (day_turnover (roll_day (fl_ts_ns f) l)) = EXEC_SLOTS /\
    0 <= get (day_turnover (roll_day (fl_ts_ns f) l)) (fl_strategy_id f) <= get (day_turnover l) (fl_strategy_id f))
    as [Hl1 Hr].
  { unfold roll_day. destruct (_ =? 0); [by split; [|lia]|]. destruct (_ =? 0); [by split; [|cbn; lia]|].
    destruct (_ <? _); [|by split; [|lia]]. cbn [day_turnover lcount set_day].
    rewrite get_repeat by lia. split; [apply length_replicate|lia]. }
  unfold book_fill. rewrite Ho. cbn [FILL_ORIGIN_VENUE Z.eqb negb].
  destruct (roll_day_rows (fl_ts_ns f) l) as (E1 & E2 & _). rewrite E2, Hn.
  destruct (Nat.leb_spec EXEC_SLOTS (fl_strategy_id f)); [lia|]. fold n.
  set (l1 := roll_day (fl_ts_ns f) l) in *.
  match goal with |- context [let '(_, _) := ?m in _] => 
    assert (day_turnover m.1 = day_turnover l1) as Em; [|destruct m as [l2 st]] end.
  { destruct (first_index _ _); [|done]. destruct (book_leg _ _ _ _ _) as [r1 fl]. by destruct fl. }
  cbn [fst] in Em.
  assert (forall x, 0 <= x <= get (day_turnover l) (fl_strategy_id f) ->
    x <= sat_i64 (get (day_turnover l) (fl_strategy_id f) + n) /\ sat_i64 (x + n) <=
    sat_i64 (get (day_turnover l) (fl_strategy_id f) + n)) as Hx by (intros; split; ilia).
  destruct (_ && _ && _); destruct (is_adopted f);
    cbn [day_turnover lcount set_resting set_day]; rewrite ?Em; try (apply Hx; lia);
    rewrite get_upd by (rewrite ?Em; lia); rewrite ?Em; apply Hx; lia.
Qed.

(** C5. When the gate passes an order on an outcome leg, booking the venue's
    fill of the whole of it leaves the slot's exposure at most the instance
    cap or what it was, a buy leaves the day's turnover at most the day cap,
    and the order is within the size cap or sells no more than the slot
    holds. *)
Theorem passed_order_stays_inside_the_caps route h o venue verb l l' caps f :
  ledger_ok l -> caps_at route (o_slot o) = Some caps -> family_order l o -> fills f o ->
  0 <= o_px o -> 0 <= o_qty o -> 0 <= slot_day_turnover_1e6 l (o_slot o) <= i64_max ->
  risk_check route h o venue verb l = (l', None) ->
  let booked := book_fill f l' in
  slot_exposure_1e6 booked (o_slot o) <= Z.max (cap_instance_usd_1e6 caps) (slot_exposure_1e6 l (o_slot o)) /\
  (o_buy o = true -> slot_day_turnover_1e6 booked (o_slot o) <= cap_day_usd_1e6 caps) /\
  (notional_1e6 (o_px o) (o_qty o) <= max_order_usd_1e6 caps \/
   o_buy o = false /\ o_qty o <= held_on_sym_1e6 l (o_slot o) (o_sym o)).
Proof.
  intros W Hc Hf (Ho & Hs & Hy & Hd & Hpx & Hq) Hpx0 Hq0 Ht Hr booked.
  pose proof (passed_family _ _ _ _ _ _ _ _ Hc Hf Hr) as Hj.
  destruct (judged_family _ _ _ _ _ Hj) as (El & Hsize & Hexp & Hday).
  destruct Hf as (Hlt & _ & Hn & Hcount). destruct (observe_rows (o_ts_ns o) l) as (E1 & E2 & _).
  rewrite <- El in E1, E2.
  assert (ledger_ok l') as W' by (rewrite El; exact (run_ledger_ok l (O_clock (o_ts_ns o)) I W)).
  split_and!; [| |done].
  - unfold booked. rewrite <- Hs. rewrite fill_books_projection; [|done|done|lia|by rewrite Hy, E2|by rewrite Hy, E1].
    rewrite Hs, Hy, Hq, Hd. fold (o_buy o). rewrite <- (exposure_by_rows l l' _ E1 E2). lia.
  - intros Hb. specialize (Hday Hb). unfold slot_day_turnover_1e6 in *.
    destruct (Nat.leb_spec EXEC_SLOTS (o_slot o)); [lia|].
    assert (0 <= get (day_turnover l') (o_slot o) <= i64_max) as Ht'.
    { rewrite El. unfold observe_mono_clock, roll_day. destruct (_ =? 0); [done|]. destruct (_ =? 0); [done|].
      destruct (_ =? 0); [done|]. destruct (_ <? _); [|done]. cbn [day_turnover lcount set_day].
      rewrite get_repeat by lia. unfold i64_max. lia. }
    etransitivity; [|exact Hday]. unfold booked. rewrite <- Hs, <- Hpx, <- Hq. pose proof (lo_turn l' W').
    apply fill_turnover; rewrite ?Hs, ?Hy, ?E2, ?Hpx, ?Hq; try done; [lia|by apply notional_nonneg].
Qed.

(** ** What leaves a position is not refused for money *)

(** The slot may trade, by its own clamps and no perp's. *)
Definition open_for (route : ExecRoute) (h : HaltState) (l : Ledger) (o : Order) (caps : SlotCaps) : Prop :=
  caps_at route (o_slot o) = Some caps /\ perp_is_set (default perp_none (perp_at route (o_slot o))) = false /\
  is_halted (o_slot o) h = false /\ is_held (o_slot o) h = false /\ is_slot_seeded l (o_slot o) = true.

(** A sale of a held leg that leaves its outcome no more exposed. *)
Definition closing_sale (l : Ledger) (o : Order) : Prop :=
  family_order l o /\ o_buy o = false /\ o_qty o <= held_on_sym_1e6 l (o_slot o) (o_sym o) /\
  forall i r, rows l !! i = Some r -> has_leg (o_sym o) r = true -> closes (o_slot o) (o_sym o) (o_qty o) false r.

(** An order against an instrument position that, with all the slot has
    working on its side, does not outgrow it. *)
Definition closing_order (l : Ledger) (o : Order) (verb : RiskVerb) : Prop :=
  exists i, inst_find (inst l) (o_sym o) = Some i /\ is_perp (inst l) (o_sym o) = false /\
    let r := row_at (inst l) i in
    let filled := get (ir_pos r) (o_slot o) in
    (ir_owner r = OWNER_NONE \/ ir_owner r = Z.of_nat (o_slot o)) /\ (o_slot o < EXEC_SLOTS)%nat /\ 0 < o_qty o /\
    - i64_max <= filled <= i64_max /\ (if o_buy o then filled < 0 else 0 < filled) /\
    (working_on (o_slot o) (o_sym o) (o_buy o) (replaced verb) (resting l)).1.1 + o_qty o <= Z.abs filled.

Lemma has_leg_found sym rs : countb (has_leg sym) rs = 1%nat -> exists i r, rs !! i = Some r /\ has_leg sym r = true.
Proof.
  induction rs as [|x rs IH]; [done|]. simpl. destruct (has_leg sym x) eqn:E; [by exists O, x|].
  intros H. destruct (IH H) as (i & r & ? & ?). by exists (S i), r.
Qed.

Lemma exit_row_refusal l r slot qty buy px work perp :
  Ledger.exit (probe_row l r slot qty buy px work perp) = true ->
  refusal (probe_row l r slot qty buy px work perp) = RNone.
Proof.
  unfold probe_row. destruct work as [[w h] rep]. cbv zeta. destruct (_ && (_ <=? _)); [done|].
  by destruct (judge_law _ _ _ _ _ _ _ _) as [[[[]]]|].
Qed.

Lemma exit_probe_refusal l sym slot qty buy px ex perp (p : InstProbe) :
  probe l sym slot qty buy px ex perp = Some p -> Ledger.exit p = true -> refusal p = RNone.
Proof.
  unfold probe. destruct (inst_find _ _) as [i|]; [|done]. cbv zeta.
  destruct (_ && _); [by intros [= <-]|]. destruct (_ || _); [by intros [= <-]|].
  intros [= <-]. apply exit_row_refusal.
Qed.

(** A seeded, unhalted, unheld slot's sale of a leg it holds that leaves
    its outcome no more exposed passes the gate whatever its caps, zero
    included; and an order against an instrument position that all its
    working orders and itself do not outgrow is refused for nothing but a
    full order count, and only when it is a new order. *)
Theorem exits_pass_every_money_clamp route h o venue verb l caps :
  ledger_ok l -> open_for route h l o caps ->
  (closing_sale l o -> venue <> VENUE_BINANCE ->
     risk_check route h o venue verb l = (observe_mono_clock (o_ts_ns o) l, None)) /\
  (closing_order l o verb ->
     risk_check route h o venue verb l = (l, None) \/
     verb = Place /\ at_open_cap l (o_slot o) caps = true /\ risk_check route h o venue verb l = (l, Some OpenOrders)).
Proof.
  intros W (Hc & Hp & Hh & Hd & Hs). unfold risk_check. rewrite Hc, Hh, Hd, Hs. cbn [negb]. split.
  - intros ((Hlt & Hperp & Hn & Hcount) & Hb & Hq & Hcl) Hv. rewrite Hperp, Hp. cbv zeta.
    unfold probe_instrument, probe. rewrite Hn, (proj2 (Z.eqb_neq _ _) Hv). cbn [orb].
    unfold judge_family. cbv zeta. rewrite Hb. cbn [orb].
    rewrite (proj2 (Z.ltb_ge _ _) Hq), !andb_false_r. cbn [andb].
    destruct (observe_rows (o_ts_ns o) l) as (E1 & E2 & _).
    set (l' := observe_mono_clock (o_ts_ns o) l) in *.
    assert (projected_exposure_1e6 l' (o_slot o) (o_sym o) (o_qty o) false <= slot_exposure_1e6 l' (o_slot o)) as Hle.
    { apply closing_never_raises; [exact (run_ledger_ok l (O_clock (o_ts_ns o)) I W)|done|..]; rewrite E1.
      - by apply has_leg_found.
      - done. }
    rewrite (proj2 (Z.ltb_ge _ _) Hle), andb_false_r. done.
  - intros (i & Hf & Hperp & Ho & Hlt & Hq & Hr & Hdir & Hroom). rewrite Hperp, Hp. cbv zeta.
    destruct (exit_iff_room l (o_sym o) (o_slot o) (o_qty o) (o_buy o) (o_px o) (replaced verb) i
      (row_at (inst l) i) Hf eq_refl Ho Hlt Hq Hr) as (p & Ep & He).
    rewrite Ep. assert (Ledger.exit p = true) as Hx by (by apply He).
    unfold judge_instrument. rewrite (exit_probe_refusal _ _ _ _ _ _ _ _ _ Ep Hx), Hx.
    destruct verb as [|prev]; cbn [is_place andb]; [|by left].
    destruct (at_open_cap l (o_slot o) caps) eqn:E; [right|left]; done.
Qed.

(** ** What a refusal leaves *)

Section Refusals.
Context {P L : Type} `{!OrderDispatch P} `{!OrderDispatch L}.

#[local] Abbreviation Rt := (Routed (Recorded P) (Recorded L)).







End Refusals.

(** ** The cancel of a halted slot *)

Section Cancels.
Context {P L : Type} `{!OrderDispatch P} `{!OrderDispatch L}.

#[local] Abbreviation Rt := (Routed (Recorded P) (Recorded L)).

Definition pending (slot : nat) (r : Rt) : Z := get (hs_pending (rd_halt r)) slot.

Lemma pending_set slot p (h : HaltState) :
  (slot < length (hs_pending h))%nat -> get (hs_pending (set_pending slot p h)) slot = p.
Proof. intros H. unfold get. simpl. by rewrite list_lookup_insert_eq. Qed.

Lemma pending_set_ne slot s p (h : HaltState) :
  s <> slot -> get (hs_pending (set_pending slot p h)) s = get (hs_pending h) s.
Proof. intros H. unfold get. simpl. by rewrite list_lookup_insert_ne. Qed.

Lemma get_range l i lo hi : lo <= 0 <= hi -> Forall (fun p => lo <= p <= hi) l -> lo <= get l i <= hi.
Proof.
  intros H0 H. unfold get. destruct (l !! i) as [x|] eqn:E; [|done]. exact (Forall_lookup_1 _ _ _ _ H E).
Qed.

Lemma clear_empties slot r : rt_ok r -> (slot < EXEC_SLOTS)%nat ->
  slot_resting slot (clear_resting_slot slot r) = 0 /\ resting_usd_1e6 slot (clear_resting_slot slot r) = 0.
Proof.
  intros W H. pose proof (clear_slot_ok slot r W) as W'. pose proof (ok_by_slot _ W') as H1. pose proof (ok_usd _ W') as H2.
  unfold slot_resting, resting_usd_1e6, clear_resting_slot in *. destruct (Nat.leb_spec EXEC_SLOTS slot); [lia|].
  cbv zeta in *. simpl in H1, H2. rewrite length_upd in H1, H2. simpl. by rewrite !get_upd by lia.
Qed.

(** What one request leaves: the cancel confirmed or outstanding, the
    ledger's resting rows dropped exactly with the confirmation. *)
Definition asked_once (slot : nat) (r r' : Rt) : Prop :=
  rec_log (rd_live r') = rec_log (rd_live r) ++ [V_cancel_slot slot] /\
  (forall s, s <> slot -> pending s r' = pending s r) /\
  ((pending slot r' = CANCEL_NONE /\ od_cancel_slot_state slot (rd_live r') = CA_Clear /\
    rd_ledger r' = set_resting (clear_resting_slot slot (resting (rd_ledger r))) (rd_ledger r)) \/
   ((pending slot r' = CANCEL_ASKED \/ pending slot r' = CANCEL_RETRY) /\ rd_ledger r' = rd_ledger r)).

Lemma ask_cancel_once slot r :
  (slot < EXEC_SLOTS)%nat -> length (hs_pending (rd_halt r)) = EXEC_SLOTS -> pending slot r = CANCEL_ASKED ->
  asked_once slot r (ask_cancel slot r).
Proof.
  intros Hs Hl Hp. unfold ask_cancel. cbn [od_cancel_slot od_cancel_slot_state recorded_dispatch].
  destruct (od_cancel_slot slot (rec_arm (rd_live r))) as [a res]. cbv zeta.
  unfold asked_once, pending in *. rewrite <- Nat.ltb_lt in Hs.
  destruct (is_ok res); cbn [negb].
  - destruct (od_cancel_slot_state slot (rec_arm _)) eqn:E.
    + unfold confirm_clear, cancel_cleared. rewrite Hs. cbn. apply Nat.ltb_lt in Hs. split_and!; [done| |left].
      * intros. by apply (pending_set_ne slot s CANCEL_NONE (rd_halt r)).
      * split_and!; [|done..]. apply (pending_set slot CANCEL_NONE (rd_halt r)). lia.
    + split_and!; [done..|]. right. by split; [left|].
    + split_and!; [done..|]. right. by split; [left|].
  - cbn [set_halt rd_halt rd_live rd_ledger set_live]. unfold cancel_failed. rewrite Hs. cbn [hs_pending]. rewrite Hp.
    cbn [andb]. change (CANCEL_ASKED =? CANCEL_ASKED) with true. cbv iota. apply Nat.ltb_lt in Hs. split_and!; [done| |right].
    + intros. by rewrite pending_set_ne by done.
    + split; [|done]. right. apply pending_set. cbn [hs_pending]. lia.
Qed.

(** One turn of a slot's cancel: its pending cancel is gone exactly when the
    arm says it holds nothing of the slot's, and then the slot's resting rows
    are; until then the ledger is as it was. *)
Definition cancel_turn (slot : nat) (r r' : Rt) : Prop :=
  (forall s, s <> slot -> pending s r' = pending s r) /\
  (rec_log (rd_live r') = rec_log (rd_live r) \/ rec_log (rd_live r') = rec_log (rd_live r) ++ [V_cancel_slot slot]) /\
  ((pending slot r' = CANCEL_NONE /\ od_cancel_slot_state slot (rd_live r') = CA_Clear /\
    rd_ledger r' = set_resting (clear_resting_slot slot (resting (rd_ledger r))) (rd_ledger r)) \/
   (pending slot r' <> CANCEL_NONE /\ rd_ledger r' = rd_ledger r)).

(** Asking after the halt state moved to [h]. *)
Lemma ask_turn slot h r :
  (slot < EXEC_SLOTS)%nat -> length (hs_pending h) = EXEC_SLOTS -> get (hs_pending h) slot = CANCEL_ASKED ->
  (forall s, s <> slot -> get (hs_pending h) s = pending s r) ->
  cancel_turn slot r (ask_cancel slot (set_halt h r)).
Proof.
  intros Hs Hl Hp Ho. destruct (ask_cancel_once slot (set_halt h r) Hs Hl Hp) as (A & B & C).
  split_and!; [|by right|].
  - intros s Hn. rewrite B by done. by apply Ho.
  - destruct C as [C|[[E|E] C]]; [by left|right|right]; (split; [by rewrite E|done]).
Qed.

Lemma confirm_turn slot r :
  (slot < EXEC_SLOTS)%nat -> length (hs_pending (rd_halt r)) = EXEC_SLOTS ->
  od_cancel_slot_state slot (rd_live r) = CA_Clear -> cancel_turn slot r (confirm_clear slot r).
Proof.
  intros Hs Hl Hc. unfold confirm_clear, cancel_cleared, cancel_turn, pending.
  cbn [set_ledger set_halt rd_halt rd_live rd_ledger]. rewrite (proj2 (Nat.ltb_lt _ _) Hs). split_and!; [|by left|left].
  - intros. by apply (pending_set_ne slot s CANCEL_NONE (rd_halt r)).
  - split_and!; [|done..]. apply (pending_set slot CANCEL_NONE (rd_halt r)). lia.
Qed.

(** A fresh request: what was wanted, or is retried, is asked. *)
Lemma request_turn slot r :
  (slot < EXEC_SLOTS)%nat -> length (hs_pending (rd_halt r)) = EXEC_SLOTS ->
  pending slot r = CANCEL_WANTED \/ pending slot r = CANCEL_RETRY ->
  cancel_turn slot r (ask_cancel slot (set_halt (cancel_requested slot (rd_halt r)) r)).
Proof.
  intros Hs Hl Hp. unfold cancel_requested, pending in *. rewrite (proj2 (Nat.ltb_lt _ _) Hs).
  replace (_ || _) with true by (by destruct Hp as [->| ->]). cbn [andb]. apply ask_turn; try done.
  - simpl. by rewrite length_insert.
  - apply pending_set. lia.
  - intros. by apply pending_set_ne.
Qed.

Lemma try_cancel_turn slot r :
  (slot < EXEC_SLOTS)%nat -> length (hs_pending (rd_halt r)) = EXEC_SLOTS ->
  cancel_phase slot (rd_halt r) <> CP_None -> cancel_turn slot r (try_cancel_slot slot r).
Proof.
  intros Hs Hl. unfold try_cancel_slot, cancel_phase.
  destruct (Nat.leb_spec EXEC_SLOTS slot); [lia|].
  destruct (Z.eqb_spec (get (hs_pending (rd_halt r)) slot) CANCEL_WANTED) as [E|_].
  { intros _. apply request_turn; auto. }
  destruct (Z.eqb_spec (get (hs_pending (rd_halt r)) slot) CANCEL_ASKED) as [E|_].
  { intros _. destruct (od_cancel_slot_state slot (rd_live r)) eqn:Ec; [by apply confirm_turn| |].
    - split_and!; [done|by left|right]. split; [|done]. unfold pending. by rewrite E.
    - by apply ask_turn. }
  destruct (Z.eqb_spec (get (hs_pending (rd_halt r)) slot) CANCEL_RETRY) as [E|_]; [|done].
  intros _. destruct (od_cancel_slot_state slot (rd_live r)) eqn:Ec; try (apply request_turn; auto).
  split_and!; [done|by left|right]. split; [|done]. unfold pending. by rewrite E.
Qed.

(** One turn of a halted slot's cancel touches no other slot, asks the
    arm at most once, does ask when the cancel is wanted, and clears the
    pending cancel only when the arm says it holds nothing of the slot's,
    then and only then zeroing the slot's resting count and notional. *)
Theorem cancel_ends_only_with_the_arms_word slot (r : Rt) :
  halt_ok (rd_halt r) -> rt_ok (resting (rd_ledger r)) -> (slot < EXEC_SLOTS)%nat ->
  let r' := try_cancel_slot slot r in
  (forall s, s <> slot -> pending s r' = pending s r) /\
  (rec_log (rd_live r') = rec_log (rd_live r) \/ rec_log (rd_live r') = rec_log (rd_live r) ++ [V_cancel_slot slot]) /\
  (pending slot r = CANCEL_NONE -> r' = r) /\
  (pending slot r <> CANCEL_NONE -> pending slot r' = CANCEL_NONE ->
     od_cancel_slot_state slot (rd_live r') = CA_Clear /\ slot_resting slot (resting (rd_ledger r')) = 0 /\
     resting_usd_1e6 slot (resting (rd_ledger r')) = 0) /\
  (pending slot r' <> CANCEL_NONE -> rd_ledger r' = rd_ledger r).
Proof.
  intros Hok Hrt Hs r'. pose proof (ho_pending _ Hok) as Hl. pose proof (clear_empties slot _ Hrt Hs) as [Hc Hu].
  destruct (decide (cancel_phase slot (rd_halt r) = CP_None)) as [E|E].
  - assert (r' = r) as -> by (unfold r', try_cancel_slot; by rewrite E).
    split_and!; [done|by left|done| |done]. intros Hn Hz. done.
  - destruct (try_cancel_turn slot r Hs Hl E) as (A & B & C). fold r' in A, B, C.
    pose proof (cancel_phase_pending slot (rd_halt r) E) as Hn. split_and!; [done|done|done| |].
    + intros _ Hz. destruct C as [(_ & ? & ->)|[? _]]; [|done]. by split_and!.
    + intros Hz. by destruct C as [[? _]|[_ ?]].
Qed.
End Cancels.

(** ** A halt survives the restart *)

Section Restart.
Context {P L : Type} `{!OrderDispatch P} `{!OrderDispatch L}.

#[local] Abbreviation Rt := (Routed (Recorded P) (Recorded L)).

(** The reasons and the file, as they were. *)
Definition frame (r r' : Rt) : Prop :=
  hs_reasons (rd_halt r') = hs_reasons (rd_halt r) /\ hf_path (rd_file r') = hf_path (rd_file r) /\
  hf_disk (rd_file r') = hf_disk (rd_file r).

#[local] Instance frame_preorder : PreOrder frame.
Proof.
  split; [done|]. intros a b c (A1 & A2 & A3) (B1 & B2 & B3). unfold frame. by rewrite B1, B2, B3.
Qed.

Lemma fold_frame {X} (f : Rt -> X -> Rt) (xs : list X) r :
  (forall r x, frame r (f r x)) -> frame r (foldl f r xs).
Proof. intros H. revert r. induction xs as [|x xs IH]; intros r; [done|]. cbn [foldl]. by etransitivity; [apply H|]. Qed.

Lemma gate_frame o venue verb (r : Rt) : frame r (gate o venue verb r).1.
Proof. unfold gate. by destruct (risk_check _ _ _ _ _ _) as [l [why|]]. Qed.

Lemma submit_frame o (r : Rt) : frame r (submit o r).1.
Proof.
  unfold submit. destruct (mode _ _); [|destruct (negb _); [done|]|done].
  - by destruct (od_submit o (rd_paper r)).
  - pose proof (gate_frame o (route_venue (rd_aliases r) (o_sym o) (o_venue o)) Place r) as H.
    destruct (gate _ _ _ r) as [r1 [[]|e]]; [|done]. cbv zeta.
    destruct (od_submit o _) as [a res]. cbn [fst]. etransitivity; [exact H|]. by destruct (is_ok res).
Qed.

Lemma modify_frame m (r : Rt) : frame r (modify m r).1.
Proof.
  unfold modify. destruct (mode _ _); [|destruct (negb _); [done|]|done].
  - by destruct (od_modify m (rd_paper r)).
  - pose proof (gate_frame (mr_order m) (route_venue (rd_aliases r) (o_sym (mr_order m)) (o_venue (mr_order m)))
      (Replace (mr_prev_client_oid m)) r) as H.
    destruct (gate _ _ _ r) as [r1 [[]|e]]; [|done]. cbv zeta.
    destruct (od_modify m _) as [a res]. cbn [fst]. etransitivity; [exact H|]. by destruct (is_ok res).
Qed.

Lemma cancel_frame c (r : Rt) : frame r (cancel c r).1.
Proof.
  unfold cancel, cancel_live. destruct (mode _ _); [|destruct (negb _); [done|]..].
  - by destruct (od_cancel c (rd_paper r)).
  - destruct (od_cancel c _) as [a res]. cbn [fst]. by destruct (_ && _).
  - destruct (od_cancel c _) as [a res]. cbn [fst]. by destruct (_ && _).
Qed.

Lemma ask_cancel_frame slot (r : Rt) : frame r (ask_cancel slot r).
Proof.
  unfold ask_cancel. destruct (od_cancel_slot slot (rd_live r)) as [a res]. cbv zeta.
  destruct (negb _); [unfold cancel_failed; by destruct (_ && _)|].
  destruct (od_cancel_slot_state _ _); [|done..]. unfold confirm_clear, cancel_cleared. by destruct (_ <? _)%nat.
Qed.

Lemma requested_frame slot (r : Rt) : frame r (ask_cancel slot (set_halt (cancel_requested slot (rd_halt r)) r)).
Proof.
  etransitivity; [|apply ask_cancel_frame]. unfold cancel_requested. by destruct (_ && _).
Qed.

Lemma try_cancel_slots_frame (r : Rt) : frame r (try_cancel_slots r).
Proof.
  unfold try_cancel_slots. destruct (negb _); [done|]. apply (fold_frame (fun r s => try_cancel_slot s r)).
  intros r1 slot. unfold try_cancel_slot.
  destruct (cancel_phase _ _); [done|apply requested_frame| |]; destruct (od_cancel_slot_state _ _);
    try apply requested_frame; try done.
  - unfold confirm_clear, cancel_cleared. by destruct (_ <? _)%nat.
  - etransitivity; [|apply ask_cancel_frame]. done.
Qed.

Lemma drain_renamed_frame k (r : Rt) : frame r (drain_renamed k r).1.
Proof.
  revert r. induction k as [|k IH]; intros r; [done|]. cbn [drain_renamed].
  destruct (od_try_next_renamed (rd_live r)) as [a [n|]]; [|done].
  match goal with |- context [drain_renamed k ?r1] => pose proof (IH r1) as H; destruct (drain_renamed k r1) as [r2 m] end.
  exact H.
Qed.

Lemma drain_retired_frame k (r : Rt) : frame r (drain_retired k r).
Proof.
  revert r. induction k as [|k IH]; intros r; [done|]. cbn [drain_retired].
  destruct (od_try_next_retired (rd_live r)) as [a [n|]]; [|done]. etransitivity; [|apply IH]. done.
Qed.

Lemma drain_reports_frame (r : Rt) : frame r (drain_reports r).
Proof.
  unfold drain_reports. generalize RETIRED_DRAIN_MAX. intros k. pose proof (drain_renamed_frame k r) as H.
  destruct (drain_renamed k r) as [r1 n]. cbn [fst] in H. etransitivity; [exact H|].
  destruct (_ <? _)%nat; [apply drain_retired_frame|done].
Qed.

(** *** The disk keeps up with the halts *)

(** How many slots the reasons halt. *)
Definition halts_in (reasons : list HaltReason) : nat := length (filter (fun x => reason_halted x = true) reasons).

Lemma halts_in_latched (reasons : list HaltReason) i why : (i < length reasons)%nat ->
  reason_halted (default HR_None (reasons !! i)) = false -> reason_halted why = true ->
  halts_in (<[i := why]> reasons) = S (halts_in reasons).
Proof.
  revert i. induction reasons as [|x xs IH]; intros [|i] Hi Hx Hw; cbn in Hi; [lia..| |].
  - unfold halts_in. change (<[0%nat := why]> (x :: xs)) with (why :: xs). rewrite !filter_cons. cbn in Hx.
    rewrite decide_True, decide_False by congruence. done.
  - unfold halts_in in *. change (<[S i := why]> (x :: xs)) with (x :: <[i := why]> xs). rewrite !filter_cons.
    specialize (IH i ltac:(lia) Hx Hw). destruct (decide _); cbn [length]; by rewrite IH.
Qed.

(** Since [r0], either nothing was halted and the file is as it was, or some
    slot was and the file is what the router writes of its halts. *)
Section Since.
Variable r0 : Rt.

Definition synced (r : Rt) : Prop :=
  hf_path (rd_file r) = true /\ length (hs_reasons (rd_halt r)) = EXEC_SLOTS /\
  ((halts_in (hs_reasons (rd_halt r0)) < halts_in (hs_reasons (rd_halt r)))%nat /\
   hf_disk (rd_file r) = Some (render_halt_file (hs_reasons (rd_halt r))) \/
   hs_reasons (rd_halt r) = hs_reasons (rd_halt r0) /\ hf_disk (rd_file r) = hf_disk (rd_file r0)).

Lemma frame_synced r r' : frame r r' -> synced r -> synced r'.
Proof. intros (A & B & C). unfold synced. by rewrite A, B, C. Qed.

Lemma edge_synced w r : fw_ok w = true -> hf_path (rd_file r) = true ->
  length (hs_reasons (rd_halt r)) = EXEC_SLOTS ->
  (halts_in (hs_reasons (rd_halt r0)) < halts_in (hs_reasons (rd_halt r)))%nat -> synced (on_halt_edge w r).
Proof.
  intros Hw Hp Hl Hn. unfold on_halt_edge, write_halt_file. rewrite Hp, Hw. cbn [negb].
  split; [done|]. split; [done|by left].
Qed.

(** A latching turn leaves the path and counts its edges; without an edge it
    leaves the reasons and the disk too. *)
Definition counted (st st' : Rt * nat) : Prop :=
  (st.2 <= st'.2)%nat /\ hf_path (rd_file st'.1) = hf_path (rd_file st.1) /\
  (st'.2 = st.2 -> frame st.1 st'.1) /\
  (length (hs_reasons (rd_halt st.1)) = EXEC_SLOTS ->
   length (hs_reasons (rd_halt st'.1)) = EXEC_SLOTS /\
   (halts_in (hs_reasons (rd_halt st'.1)) + st.2 = halts_in (hs_reasons (rd_halt st.1)) + st'.2)%nat).

Lemma fold_counted {X} (f : Rt * nat -> X -> Rt * nat) (xs : list X) st :
  (forall st x, counted st (f st x)) -> counted st (foldl f st xs).
Proof.
  intros H. revert st. induction xs as [|x xs IH]; intros st; [by split_and!|]. cbn [foldl].
  destruct (H st x) as (A & B & C & D), (IH (f st x)) as (A' & B' & C' & D'). split_and!; [lia|by rewrite B'| |].
  - intros E. etransitivity; [apply C; lia|apply C'; lia].
  - intros E. destruct (D E) as [E1 E2], (D' E1) as [E3 E4]. split; [done|lia].
Qed.

(** After the folds: an edge is written, and no edge changes nothing. *)
Lemma counted_synced w r r1 n :
  fw_ok w = true -> counted (r, 0%nat) (r1, n) -> synced r ->
  synced (if (0 <? n)%nat then on_halt_edge w r1 else r1).
Proof.
  intros Hw (_ & Hp & Hf & Hc) Hs. cbn [fst snd] in *. destruct (Nat.ltb_spec 0 n).
  - destruct Hs as (Hs1 & Hs2 & Hs3), (Hc Hs2) as [Hl He].
    apply edge_synced; [done|congruence|done|]. destruct Hs3 as [[? _]|[E _]]; [lia|rewrite <- E; lia].
  - eapply frame_synced; [apply Hf; lia|done].
Qed.

Lemma latch_counted slot why (r : Rt) n :
  let '(h, edge) := latch slot why (rd_halt r) in
  counted (r, n) (set_halt h r, if edge then S n else n).
Proof.
  unfold latch. destruct (Nat.leb_spec EXEC_SLOTS slot) as [?|Hs]; [by split_and!|].
  destruct (reason_halted why) eqn:Hw; [|by split_and!].
  destruct (is_halted slot (rd_halt r)) eqn:Hh; split_and!; cbn [fst snd orb negb set_halt rd_halt hs_reasons]; try done; try lia.
  - intros E. rewrite length_insert. split; [done|]. rewrite halts_in_latched; [lia|lia|exact Hh|done].
Qed.

Lemma latch_all_synced reasons w r : fw_ok w = true -> synced r -> synced (latch_all reasons w r).1.
Proof.
  intros Hw Hs. unfold latch_all.
  pose proof (fold_counted (latch_one reasons) (seq 0 EXEC_SLOTS) (r, 0%nat)) as H.
  destruct (foldl _ _ _) as [r1 n]. cbn [fst]. eapply counted_synced; [done| |exact Hs]. apply H.
  intros [r2 m] slot. unfold latch_one. destruct (negb _); [by split_and!|]. destruct (negb _); [by split_and!|].
  pose proof (latch_counted slot (default HR_None (reasons !! slot)) r2 m) as Hl. by destruct (latch _ _ _).
Qed.

Lemma judge_slots_synced w r : fw_ok w = true -> synced r -> synced (judge_slots w r).
Proof.
  intros Hw Hs. unfold judge_slots.
  pose proof (fold_counted judge_slot (seq 0 EXEC_SLOTS) (r, 0%nat)) as H.
  destruct (foldl _ _ _) as [r1 n]. eapply counted_synced; [done| |exact Hs]. apply H.
  intros [r2 m] slot. unfold judge_slot. destruct (negb _); [by split_and!|].
  destruct (halts_at _ _) as [lim|]; [|by split_and!]. cbv zeta. set (sig := od_halt_signal_for _ _).
  set (r3 := if _ && _ then _ else r2).
  assert (frame r2 r3 /\ hf_path (rd_file r3) = hf_path (rd_file r2)) as [F3 P3] by (unfold r3; by destruct (_ && _)).
  pose proof (latch_counted slot (trigger_for sig lim) r3 m) as Hl. destruct (latch _ _ _) as [h edge].
  destruct Hl as (A & B & C & D). cbn [fst snd] in *.
  assert (frame (set_halt h r3) (set_halt (judge_hold slot sig lim h) r3)) as Fh.
  { unfold frame. cbn. split_and!; [|done..]. unfold judge_hold, hold, release. by repeat case_match. }
  split_and!; [exact A|exact (eq_trans B P3)| |].
  - intros E. etransitivity; [exact F3|]. etransitivity; [by apply C|done].
  - cbn [fst set_halt rd_halt]. destruct F3 as [F3 _], Fh as [Fh _]. cbn [set_halt rd_halt] in Fh. rewrite Fh, <- F3. exact D.
Qed.

Lemma poll_synced now v w r : fw_ok w = true -> synced r -> synced (poll_halt_file now v w r).
Proof.
  intros Hw Hs. unfold poll_halt_file. destruct (negb _); [done|]. destruct (_ <? _); [done|].
  destruct (mtime _) as [t|]; [|done]. case_bool_decide; [done|].
  destruct (read_halt_file _) as [| |bytes]; [done..|]. destruct (from_utf8 bytes) as [text|]; [|done]. cbv zeta.
  match goal with |- context [latch_all ?rs w ?r1] => pose proof (latch_all_synced rs w r1 Hw Hs) as Hl;
    destruct (latch_all rs w r1) as [r2 n] end.
  by destruct (n =? 0)%nat.
Qed.

Lemma halt_slot_synced slot why w r : fw_ok w = true -> synced r -> synced (halt_slot slot why w r).1.
Proof.
  intros Hw Hs. unfold halt_slot. destruct (negb _); [done|].
  pose proof (latch_counted slot why r 0) as Hl. destruct (latch _ _ _) as [h edge]. pose proof Hl as (_ & _ & Hf & _).
  destruct edge; cbn [fst snd] in *.
  - eapply frame_synced; [apply try_cancel_slots_frame|]. exact (counted_synced w r _ 1 Hw Hl Hs).
  - eapply frame_synced; [by apply Hf|done].
Qed.

(** Every write of the call lands; the boot read-back comes before the run. *)
Definition written (op : RouterOp) : Prop :=
  match op with
  | Q_idle e => fw_ok (ie_write_edge e) = true /\ fw_ok (ie_write_poll e) = true
  | Q_halt _ _ w | Q_reconcile _ _ w => fw_ok w = true
  | Q_adopt _ => False
  | _ => True
  end.

Lemma adopt_day_frame (r : Rt) slot : frame r (adopt_day r slot).
Proof. unfold adopt_day. destruct (negb _); [done|]. by destruct (od_venue_day_bought _ _) as [[]|]. Qed.

Lemma sweep_frame now (r : Rt) : frame r (sweep_marks now r).
Proof. unfold sweep_marks. by destruct (_ <=? _). Qed.

Lemma idle_synced e r : written (Q_idle e) -> synced r -> synced (on_idle e r).1.
Proof.
  intros [H1 H2] Hs. unfold on_idle. destruct (od_on_idle (rd_paper r)) as [p a]. cbv zeta.
  destruct (od_on_idle _) as [v b]. cbn [fst].
  set (r1 := set_live v (set_paper p r)). assert (synced r1) as H0 by exact Hs. clearbody r1.
  eapply frame_synced; [apply try_cancel_slots_frame|].
  apply poll_synced; [done|]. apply judge_slots_synced; [done|].
  eapply frame_synced; [apply (fold_frame adopt_day), adopt_day_frame|].
  eapply frame_synced; [apply sweep_frame|].
  eapply frame_synced; [apply drain_reports_frame|exact H0].
Qed.

Lemma run_synced op (r : Rt) : written op -> synced r -> synced (run_router r op).
Proof.
  destruct op as [o|c|m|e|e|o|t now| |f|slot why w|slot ps w|v| |es|spec|sym slot|sym pos px day|]; intros Hw Hs;
    cbn [run_router].
  - eapply frame_synced; [apply submit_frame|done].
  - eapply frame_synced; [apply cancel_frame|done].
  - eapply frame_synced; [apply modify_frame|done].
  - by apply idle_synced.
  - eapply frame_synced; [|exact Hs]. unfold on_venue_event, unpack_roll_seq. cbv zeta.
    by repeat match goal with |- context [if ?b then _ else _] => destruct b end.
  - done.
  - done.
  - eapply frame_synced; [|exact Hs]. unfold try_next_fill. destruct (od_try_next_fill _) as [p [f|]]; [done|].
    by destruct (od_try_next_fill _).
  - done.
  - by apply halt_slot_synced.
  - unfold reconcile_perps. destruct (halts_at _ _); [|done]. destruct (_ && _); [by apply halt_slot_synced|done].
  - done.
  - split; [done|apply Hs].
  - done.
  - unfold router_bind_instrument. by destruct (bind_instrument _ _).
  - unfold router_bind_perp. by destruct (bind_perp _ _ _).
  - unfold router_seed_perp. by destruct (seed_perp _ _ _ _ _).
  - done.
Qed.

Lemma runs_synced ops (r : Rt) : Forall written ops -> synced r -> synced (foldl run_router r ops).
Proof.
  intros H. apply foldl_keeps. intros r1 op Hop. apply run_synced. by eapply Forall_forall in H.
Qed.
End Since.

(** *** Reading the file back at boot *)

(** What latching [reasons] on a slot that was not halted leaves. *)
Definition restored (reasons : list HaltReason) (r r' : Rt) (n : nat) : Prop :=
  rd_route r' = rd_route r /\ length (hs_reasons (rd_halt r')) = EXEC_SLOTS /\
  length (hs_pending (rd_halt r')) = EXEC_SLOTS /\
  (forall s, (s < n)%nat -> is_live (rd_route r) s = true -> reason s (rd_halt r') = default HR_None (reasons !! s) /\
     (reason_halted (default HR_None (reasons !! s)) = true -> get (hs_pending (rd_halt r')) s = CANCEL_WANTED)) /\
  (forall s, (n <= s)%nat -> reason s (rd_halt r') = HR_None).

Lemma latch_restores reasons (r : Rt) n :
  hs_reasons (rd_halt r) = replicate EXEC_SLOTS HR_None -> length (hs_pending (rd_halt r)) = EXEC_SLOTS ->
  (n <= EXEC_SLOTS)%nat ->
  restored reasons r (foldl (latch_one reasons) (r, 0%nat) (seq 0 n)).1 n.
Proof.
  intros Hr Hl. induction n as [|n IH]; intros Hn.
  { unfold restored. cbn [seq foldl fst]. rewrite Hr. split_and!; [done|done|done|intros; lia|]. intros s _. unfold reason. rewrite Hr.
    destruct (replicate EXEC_SLOTS HR_None !! s) as [x|] eqn:E; [|done]. by apply lookup_replicate_1 in E as [-> _]. }
  rewrite seq_S, foldl_snoc. cbn [Nat.add]. specialize (IH ltac:(lia)).
  destruct (foldl _ _ _) as [r1 k]. cbn [fst] in IH. destruct IH as (E1 & E2 & E3 & Hlt & Hge).
  unfold latch_one. set (why := default HR_None (reasons !! n)). destruct (reason_halted why) eqn:Hw; cbn [negb fst].
  2: { split_and!; try done; [|intros; apply Hge; lia]. intros s Hs Hlive.
       destruct (decide (s = n)) as [->|]; [|apply Hlt; [lia|done]]. fold why. rewrite Hw, (Hge n) by lia.
       split; [by destruct why|done]. }
  destruct (is_live (rd_route r1) n) eqn:Hn1; cbn [negb fst].
  2: { split_and!; try done; [|intros; apply Hge; lia]. intros s Hs Hlive.
       destruct (decide (s = n)) as [->|]; [|apply Hlt; [lia|done]]. rewrite E1, Hlive in Hn1. done. }
  unfold latch, is_halted. rewrite Hw, (Hge n) by lia. cbn [negb reason_halted orb].
  destruct (Nat.leb_spec EXEC_SLOTS n); [lia|]. unfold restored. cbn [orb fst].
  split_and!; cbn [set_halt rd_halt rd_route hs_reasons hs_pending]; rewrite ?length_insert; try done.
  - intros s Hs Hlive. destruct (decide (s = n)) as [->|Hne].
    + fold why. unfold reason, get. cbn [hs_reasons hs_pending]. rewrite !list_lookup_insert_eq by lia. done.
    + unfold reason, get in *. cbn [hs_reasons hs_pending]. rewrite !list_lookup_insert_ne by done. apply Hlt; [lia|done].
  - intros s Hs. unfold reason in *. cbn [hs_reasons]. rewrite list_lookup_insert_ne by lia. apply Hge. lia.
Qed.

(** A file that holds these bytes, whole and readable, or no file. *)
Definition file_at (mt : option Z) (d : option (list Z)) : FileView :=
  match d with
  | Some bytes => mkView (Some (mt, true, Z.of_nat (length bytes))) true (Some bytes)
  | None => mkView None false None
  end.

(** The reason a file names for each slot: the parser's, unless the file is
    not there, over-long or no text. *)
Definition named (d : option (list Z)) : list HaltReason :=
  match read_halt_file (file_at None d) with
  | Read bytes => match from_utf8 bytes with Some text => parse_halt_file text | None => [] end
  | _ => []
  end.

(** Someone else's hand on the file: it is replaced, made or deleted. *)
Definition edit_halt_file (d : option (list Z)) (r : Rt) : Rt := set_file (with_disk d (rd_file r)) r.

(** The next process: the same route, the path, and the file there read back. *)
Definition reboot (route : ExecRoute) (p : P) (a : L) (anchor : Clock.WallAnchor) (mt : option Z) (d : option (list Z)) : Rt :=
  (adopt_halt_file (file_at mt) (edit_halt_file d (set_halt_path (boot route p a anchor)))).1.

(** What the process after [r] has: each live slot's reason, and the cancel of
    a halted one wanted. *)
Definition restarts_with (r : Rt) (reasons : nat -> HaltReason) : Prop :=
  forall (p : P) (a : L) anchor mt slot, (slot < EXEC_SLOTS)%nat -> is_live (rd_route r) slot = true ->
    let r' := reboot (rd_route r) p a anchor mt (hf_disk (rd_file r)) in
    reason slot (rd_halt r') = reasons slot /\
    (is_halted slot (rd_halt r') = true -> get (hs_pending (rd_halt r')) slot = CANCEL_WANTED).

Lemma latch_all_restores reasons w (r : Rt) s :
  hs_reasons (rd_halt r) = replicate EXEC_SLOTS HR_None -> length (hs_pending (rd_halt r)) = EXEC_SLOTS ->
  (s < EXEC_SLOTS)%nat -> is_live (rd_route r) s = true ->
  let r' := (latch_all reasons w r).1 in
  reason s (rd_halt r') = default HR_None (reasons !! s) /\
  (is_halted s (rd_halt r') = true -> get (hs_pending (rd_halt r')) s = CANCEL_WANTED).
Proof.
  intros H1 H2 Hs Hlive. pose proof (latch_restores reasons r EXEC_SLOTS H1 H2 ltac:(lia)) as (_ & _ & _ & H & _).
  cbv zeta. unfold latch_all. destruct (foldl _ _ _) as [r2 k]. cbn [fst] in *.
  assert (rd_halt (if (0 <? k)%nat then on_halt_edge w r2 else r2) = rd_halt r2) as ->.
  { destruct (0 <? k)%nat; [|done]. unfold on_halt_edge, write_halt_file. by destruct (negb _). }
  destruct (H s Hs Hlive) as [E1 E2]. split; [exact E1|]. unfold is_halted. by rewrite E1.
Qed.

Lemma reboot_reads route p a anchor mt d s : (s < EXEC_SLOTS)%nat -> is_live route s = true ->
  let r := reboot route p a anchor mt d in
  reason s (rd_halt r) = default HR_None (named d !! s) /\
  (is_halted s (rd_halt r) = true -> get (hs_pending (rd_halt r)) s = CANCEL_WANTED).
Proof.
  intros Hs Hlive. unfold reboot, adopt_halt_file, named.
  cbn [edit_halt_file set_halt_path set_file rd_file with_path with_disk hf_path hf_disk negb]. cbv zeta.
  assert (read_halt_file (file_at mt d) = read_halt_file (file_at None d)) as -> by by destruct d.
  assert (reason s HaltState_new = HR_None /\ is_halted s HaltState_new = false) as [E1 E2].
  { unfold is_halted, reason, HaltState_new. cbn [hs_reasons]. by rewrite (lookup_replicate_2 EXEC_SLOTS HR_None s Hs). }
  destruct (read_halt_file _) as [| |bytes]; [cbn; rewrite E1, E2; done..|].
  destruct (from_utf8 bytes) as [text|]; [|cbn; rewrite E1, E2; done].
  match goal with |- context [latch_all ?rs ?w ?r0] => pose proof (latch_all_restores rs w r0 s eq_refl eq_refl Hs Hlive) as H;
    destruct (latch_all rs w r0) as [r2 k] end.
  exact H.
Qed.

Lemma named_rendered reasons : length reasons = EXEC_SLOTS -> named (Some (render_halt_file reasons)) = reasons.
Proof.
  intros Hl. destruct (render_parses reasons Hl) as [Hfit Hparse]. unfold named, read_halt_file, file_at.
  cbn [fv_meta fv_opens fv_bytes negb]. rewrite (proj2 (Z.ltb_ge (Z.of_nat HALT_FILE_MAX) _)) by lia.
  by rewrite take_ge, render_decodes, Hparse by done.
Qed.

Lemma reboot_reads_it (r : Rt) : restarts_with r (fun s => default HR_None (named (hf_disk (rd_file r)) !! s)).
Proof. intros p a anchor mt slot Hs Hlive. by apply reboot_reads. Qed.

Lemma latch_fold_file reasons xs (st : Rt * nat) : rd_file (foldl (latch_one reasons) st xs).1 = rd_file st.1.
Proof.
  revert st. induction xs as [|x xs IH]; intros [r n]; [done|]. cbn [foldl]. rewrite IH. unfold latch_one.
  destruct (negb _); [done|]. destruct (negb _); [done|]. by destruct (latch _ _ _).
Qed.

Lemma latch_all_unwritten reasons w (r : Rt) : hf_path (rd_file r) = false -> rd_file (latch_all reasons w r).1 = rd_file r.
Proof.
  intros Hp. unfold latch_all. pose proof (latch_fold_file reasons (seq 0 EXEC_SLOTS) (r, 0%nat)) as E.
  destruct (foldl _ _ _) as [r2 k]. cbn [fst] in *. destruct (_ <? _)%nat; [|exact E].
  unfold on_halt_edge, write_halt_file. rewrite E, Hp. exact E.
Qed.

Lemma reboot_file route p a anchor mt d : let r := reboot route p a anchor mt d in
  hf_path (rd_file r) = true /\ hf_disk (rd_file r) = d.
Proof.
  unfold reboot, adopt_halt_file. cbn [edit_halt_file set_halt_path set_file rd_file with_path with_disk hf_path hf_disk negb].
  cbv zeta. destruct (read_halt_file _) as [| |bytes]; [done..|]. destruct (from_utf8 bytes) as [text|]; [|done].
  match goal with |- context [latch_all ?rs ?w ?r0] => pose proof (latch_all_unwritten rs w r0 eq_refl) as E;
    destruct (latch_all rs w r0) as [r2 k] end.
  cbn [fst set_file rd_file adopted with_path hf_path hf_disk] in *. by rewrite E.
Qed.

(** *** The file in other hands *)

(** The router's calls, and what others do to the file between them. *)
Inductive DiskStep : Type := D_call (op : RouterOp) | D_edit (d : option (list Z)).

Definition run_disk (r : Rt) (st : DiskStep) : Rt :=
  match st with D_call op => run_router r op | D_edit d => edit_halt_file d r end.

Definition disk_step_ok (st : DiskStep) : Prop :=
  match st with D_call op => router_op_ok op /\ written op | D_edit _ => True end.

(** The router as it is between calls, with the file's path known. *)
Definition in_service (r : Rt) : Prop := router_ok r /\ hf_path (rd_file r) = true.

Lemma in_service_synced r : in_service r -> synced r r.
Proof. intros [Hok Hp]. split; [done|]. split; [apply (ho_reasons _ (ro_halt _ Hok))|by right]. Qed.

Lemma calls_in_service ops r : Forall router_op_ok ops -> Forall written ops -> in_service r ->
  in_service (foldl run_router r ops).
Proof.
  intros Hops Hw Hs. split; [eapply steps_ok; [by apply runs_router_steps|apply Hs]|].
  apply (runs_synced r ops r Hw), in_service_synced, Hs.
Qed.

Lemma edit_in_service d r : in_service r -> in_service (edit_halt_file d r).
Proof. intros [[] Hp]. split; [by split|done]. Qed.

Lemma run_disk_in_service evs (r : Rt) : Forall disk_step_ok evs -> in_service r -> in_service (foldl run_disk r evs).
Proof.
  intros H. apply foldl_keeps. intros r1 ev Hev Hs. eapply Forall_forall in H; [|exact Hev].
  destruct ev as [op|d]; [|by apply edit_in_service]. destruct H as [H1 H2].
  apply (calls_in_service [op]); [by constructor..|done].
Qed.

Lemma run_disk_calls calls (r : Rt) : foldl run_disk r (D_call <$> calls) = foldl run_router r calls.
Proof. revert r. induction calls as [|op calls IH]; intros r; [done|]. apply IH. Qed.

(** What a run of calls since [r0] leaves for the next process. *)
Lemma calls_leave (r0 : Rt) ops : in_service r0 -> Forall router_op_ok ops -> Forall written ops ->
  let r := foldl run_router r0 ops in
  hs_reasons (rd_halt r) <> hs_reasons (rd_halt r0) /\ restarts_with r (fun s => reason s (rd_halt r)) \/
  hs_reasons (rd_halt r) = hs_reasons (rd_halt r0) /\ hf_disk (rd_file r) = hf_disk (rd_file r0).
Proof.
  intros H0 Hops Hw r. destruct (runs_synced r0 ops r0 Hw (in_service_synced r0 H0)) as (_ & Hl & [[Hn Hd]|Hd]); [|by right].
  fold r in Hl, Hn, Hd. left. split; [intros E; rewrite E in Hn; lia|]. intros p a anchor mt slot Hs Hlive.
  destruct (reboot_reads_it r p a anchor mt slot Hs Hlive) as [E1 E2]. split; [|exact E2].
  by rewrite E1, Hd, named_rendered by exact Hl.
Qed.

(** The process just booted agrees with the file it read. *)
Lemma booted_agrees route p a anchor mt d : let r := reboot route p a anchor mt d in
  in_service r /\ restarts_with r (fun s => reason s (rd_halt r)).
Proof.
  intros r. destruct (reboot_file route p a anchor mt d) as [Hp Hd]. fold r in Hp, Hd.
  set (rb := edit_halt_file d (set_halt_path (boot route p a anchor))).
  pose proof (adopt_halt_file_steps (fun _ => True) (fun _ => True) (file_at mt) rb) as S. change (adopt_halt_file (file_at mt) rb).1 with r in S.
  assert (router_ok rb) as Hb by (destruct (boot_ok route p a anchor); by split).
  pose proof (steps_route _ _ _ _ S) as Er. change (rd_route rb) with route in Er.
  split; [split; [by eapply steps_ok|done]|]. intros p' a' anchor' mt' slot Hs Hlive.
  destruct (reboot_reads_it r p' a' anchor' mt' slot Hs Hlive) as [E1 E2]. split; [|exact E2].
  rewrite E1, Hd. rewrite Er in Hlive. symmetry. by apply reboot_reads.
Qed.

(** C4. The halt file carries the halts across a restart, as long as nobody
    else takes it away. From a boot on whatever the file held, over any
    calls of the router whose halt-file writes land, the boot's read-back
    done once, and with no one else touching the file, the next process of
    the same route, reading back what is on disk, gives each live slot
    exactly the reason it has now (none to a slot not halted) and wants the
    cancel of each halted one. Anyone may replace or delete the file between
    calls, any number of times: that changes no halt of the running process;
    once a slot is halted after the last such edit the file is written whole
    and the next process again restores every live slot's reason; and if no
    slot has been halted since, the next process halts exactly the live
    slots the edited file names - none if it was deleted. *)
Theorem halts_survive_the_restart route (p : P) (a : L) anchor mt d calls evs :
  Forall router_op_ok calls -> Forall written calls -> Forall disk_step_ok evs ->
  let booted := reboot route p a anchor mt d in
  let r := foldl run_router booted calls in
  restarts_with r (fun slot => reason slot (rd_halt r)) /\
  forall d', let edited := edit_halt_file d' (foldl run_disk booted evs) in
    rd_halt edited = rd_halt (foldl run_disk booted evs) /\
    let r := foldl run_router edited calls in
    (hs_reasons (rd_halt r) <> hs_reasons (rd_halt edited) -> restarts_with r (fun slot => reason slot (rd_halt r))) /\
    (hs_reasons (rd_halt r) = hs_reasons (rd_halt edited) ->
       restarts_with r (fun slot => default HR_None (named d' !! slot))).
Proof.
  intros Hops Hw Hevs booted r. destruct (booted_agrees route p a anchor mt d) as [Hok Hag]. fold booted in Hok, Hag.
  split; [|intros d' edited; split; [done|]; intros r'].
  - destruct (calls_leave booted calls Hok Hops Hw) as [[_ H]|[E1 E2]]; [exact H|]. fold r in E1, E2.
    pose proof (steps_route _ _ _ _ (runs_router_steps calls booted Hops)) as E3. fold r in E3.
    intros p' a' anchor' mt' slot. rewrite E2, E3. unfold reason. rewrite E1. apply Hag.
  - assert (in_service edited) as He by by apply edit_in_service, run_disk_in_service.
    destruct (calls_leave edited calls He Hops Hw) as [[Hn H]|[E1 E2]]; [done|].
    fold r' in E1, E2. split; [done|]. intros _. change (hf_disk (rd_file edited)) with d' in E2. rewrite <- E2. apply reboot_reads_it.
Qed.
End Restart.

(** ** The reports of the arm are drained in order *)

(** An arm that holds its renames and retirements in two queues. *)
Class ReportQueue (A : Type) `{!OrderDispatch A} := {
  renames_of : A -> list Renamed;
  retires_of : A -> list Retired;
  rq_renamed a : (od_try_next_renamed a).2 = head (renames_of a) /\
    renames_of (od_try_next_renamed a).1 = tail (renames_of a) /\
    retires_of (od_try_next_renamed a).1 = retires_of a;
  rq_retired a : (od_try_next_retired a).2 = head (retires_of a) /\
    retires_of (od_try_next_retired a).1 = tail (retires_of a) /\
    renames_of (od_try_next_retired a).1 = renames_of a
}.

#[export, refine] Instance scripted_queue : ReportQueue Scripted := {
  renames_of := sc_renames;
  retires_of := sc_retires;
  rq_renamed := _;
  rq_retired := _
}.
Proof. all: intros []; simpl; by case_match. Defined.

Definition rename_one (t : Resting) (n : Renamed) : Resting :=
  on_modify (rn_prev n) (rn_oid n) (rn_slot n) (rn_sym n) (rn_qty n) (rn_buy n) 0 t.
Definition retire_one (t : Resting) (n : Retired) : Resting := on_retired (rt_oid n) (rt_slot n) t.

Section Drains.
Context {P L : Type} `{!OrderDispatch P} `{!OrderDispatch L} `{!ReportQueue L}.

#[local] Abbreviation Rt := (Routed P L).

Lemma set_resting_twice x y l : set_resting x (set_resting y l) = set_resting x l.
Proof. done. Qed.

Lemma set_resting_same l : set_resting (resting l) l = l.
Proof. by destruct l. Qed.

Lemma drained_renames k (r : Rt) :
  let a := rd_live r in
  let '(r', n) := drain_renamed k r in
  n = min k (length (renames_of a)) /\ renames_of (rd_live r') = drop k (renames_of a) /\
  retires_of (rd_live r') = retires_of a /\
  rd_ledger r' = set_resting (foldl rename_one (resting (rd_ledger r)) (take k (renames_of a))) (rd_ledger r).
Proof.
  revert r. induction k as [|k IH]; intros r; cbv zeta; cbn [drain_renamed].
  { rewrite take_0, drop_0. cbn [foldl]. by rewrite set_resting_same. }
  destruct (rq_renamed (rd_live r)) as (E1 & E2 & E3).
  destruct (od_try_next_renamed (rd_live r)) as [a [n|]]; cbn [fst snd] in *.
  - match goal with |- context [drain_renamed k ?r1] => specialize (IH r1); destruct (drain_renamed k r1) as [r2 m] end.
    cbn [set_ledger set_live rd_live rd_ledger] in IH. rewrite E2, E3 in IH.
    destruct (renames_of (rd_live r)) as [|x xs]; simplify_eq/=. destruct IH as (-> & -> & -> & ->).
    by rewrite set_resting_twice.
  - destruct (renames_of (rd_live r)) as [|x xs]; simplify_eq/=. rewrite E2, E3. cbn. by rewrite set_resting_same.
Qed.

Lemma drained_retires k (r : Rt) :
  let a := rd_live r in
  let r' := drain_retired k r in
  renames_of (rd_live r') = renames_of a /\ retires_of (rd_live r') = drop k (retires_of a) /\
  rd_ledger r' = set_resting (foldl retire_one (resting (rd_ledger r)) (take k (retires_of a))) (rd_ledger r).
Proof.
  revert r. induction k as [|k IH]; intros r; cbv zeta; cbn [drain_retired].
  { rewrite take_0, drop_0. cbn [foldl]. by rewrite set_resting_same. }
  destruct (rq_retired (rd_live r)) as (E1 & E2 & E3).
  destruct (od_try_next_retired (rd_live r)) as [a [n|]]; cbn [fst snd] in *.
  - match goal with |- context [drain_retired k ?r1] => destruct (IH r1) as (-> & -> & ->) end.
    cbn [set_retired set_ledger set_live rd_live rd_ledger]. rewrite E2, E3.
    destruct (retires_of (rd_live r)) as [|x xs]; simplify_eq/=. done.
  - destruct (retires_of (rd_live r)) as [|x xs]; simplify_eq/=. rewrite E2, E3. cbn. by rewrite set_resting_same.
Qed.

(** The retirements one poll may take: none while a rename may be left. *)
Definition retires_now (a : L) : list Retired :=
  if (length (renames_of a) <? RETIRED_DRAIN_MAX)%nat then take RETIRED_DRAIN_MAX (retires_of a) else [].

Lemma drain_in_order (r : Rt) :
  let a := rd_live r in
  let r' := drain_reports r in
  renames_of (rd_live r') = drop RETIRED_DRAIN_MAX (renames_of a) /\
  retires_of (rd_live r') = drop (length (retires_now a)) (retires_of a) /\
  rd_ledger r' = set_resting (foldl retire_one (foldl rename_one (resting (rd_ledger r))
    (take RETIRED_DRAIN_MAX (renames_of a))) (retires_now a)) (rd_ledger r).
Proof.
  cbv zeta. unfold drain_reports, retires_now. generalize RETIRED_DRAIN_MAX. intros k.
  pose proof (drained_renames k r) as H. destruct (drain_renamed k r) as [r1 n]. destruct H as (-> & E1 & E2 & E3).
  destruct (Nat.ltb_spec (length (renames_of (rd_live r))) k).
  - rewrite (proj2 (Nat.ltb_lt _ _)) by lia. destruct (drained_retires k r1) as (-> & -> & ->).
    rewrite E1, E2, E3. split_and!; [done| |done]. rewrite length_take.
    destruct (Nat.min_spec k (length (retires_of (rd_live r)))) as [[? ->]|[? ->]]; [done|].
    by rewrite !drop_ge by lia.
  - rewrite (proj2 (Nat.ltb_ge _ _)) by lia. by rewrite E1, E2, E3.
Qed.

(** The two queues after [n] polls that met no new report. *)
Lemma drained_after n (r : Rt) :
  let a := rd_live r in
  let r' := Nat.iter n drain_reports r in
  renames_of (rd_live r') = drop (n * RETIRED_DRAIN_MAX) (renames_of a) /\
  retires_of (rd_live r') =
    drop ((n - length (renames_of a) / RETIRED_DRAIN_MAX) * RETIRED_DRAIN_MAX) (retires_of a).
Proof.
  cbv zeta. induction n as [|n IH]; [done|]. cbn [Nat.iter nat_rect]. fold (Nat.iter n drain_reports r).
  destruct IH as [IH1 IH2]. destruct (drain_in_order (Nat.iter n drain_reports r)) as (E1 & E2 & _).
  rewrite E1, IH1, E2, IH2. unfold retires_now. rewrite IH1, IH2, drop_drop, length_drop.
  assert (0 < RETIRED_DRAIN_MAX)%nat as Hk by (unfold RETIRED_DRAIN_MAX; lia). revert Hk.
  generalize RETIRED_DRAIN_MAX. intros k Hk. split; [f_equal; lia|].
  set (m := length (renames_of (rd_live r))).
  pose proof (Nat.div_mod_eq m k) as Hd. pose proof (Nat.mod_upper_bound m k ltac:(lia)) as Hm.
  destruct (Nat.ltb_spec (m - n * k) k) as [Hlt|Hge].
  - assert (m / k <= n)%nat as Hle by nia.
    replace (S n - m / k)%nat with (S (n - m / k)) by lia. cbn [Nat.mul].
    rewrite drop_drop, length_take, length_drop.
    destruct (Nat.min_spec k (length (retires_of (rd_live r)) - (n - m / k) * k)) as [[? ->]|[? ->]]; [f_equal; lia|].
    rewrite !drop_ge by lia. done.
  - assert (S n <= m / k)%nat as Hle by nia.
    replace (S n - m / k)%nat with 0%nat by lia. replace (n - m / k)%nat with 0%nat by lia. done.
Qed.

(** C20. One poll applies at most 64 of the arm's renames in order, then at
    most 64 retirements and only once no rename is left; with no new
    reports, one poll more than the full batches of each queue empties both. *)
Theorem reports_are_drained_in_order (r : Rt) :
  let a := rd_live r in
  let r1 := drain_reports r in
  rd_ledger r1 = set_resting (foldl retire_one (foldl rename_one (resting (rd_ledger r))
    (take RETIRED_DRAIN_MAX (renames_of a))) (retires_now a)) (rd_ledger r) /\
  (retires_now a <> [] -> renames_of (rd_live r1) = []) /\
  let polls := S (length (renames_of a) / RETIRED_DRAIN_MAX + length (retires_of a) / RETIRED_DRAIN_MAX) in
  let r' := Nat.iter polls drain_reports r in
  renames_of (rd_live r') = [] /\ retires_of (rd_live r') = [].
Proof.
  intros a r1. destruct (drain_in_order r) as (E1 & _ & E3). fold r1 a in E1, E3. split; [exact E3|]. split.
  - unfold retires_now. destruct (Nat.ltb_spec (length (renames_of a)) RETIRED_DRAIN_MAX); [|done]. intros _.
    rewrite E1. apply drop_ge. lia.
  - cbv zeta. destruct (drained_after (S (length (renames_of a) / RETIRED_DRAIN_MAX +
      length (retires_of a) / RETIRED_DRAIN_MAX)) r) as [-> ->]. fold a.
    assert (0 < RETIRED_DRAIN_MAX)%nat as Hk by (unfold RETIRED_DRAIN_MAX; lia). revert Hk.
    generalize RETIRED_DRAIN_MAX. intros k Hk.
    pose proof (Nat.div_mod_eq (length (renames_of a)) k). pose proof (Nat.mod_upper_bound (length (renames_of a)) k ltac:(lia)).
    pose proof (Nat.div_mod_eq (length (retires_of a)) k). pose proof (Nat.mod_upper_bound (length (retires_of a)) k ltac:(lia)).
    split; apply drop_ge; nia.
Qed.
End Drains.

(** ** Two arms, one slot *)

(** The signal's widths. *)
Definition signal_ok (s : HaltSignal) : Prop :=
  in_u64 (sg_ws_gap_ns s) /\ in_u64 (sg_recon_age_ns s) /\ 0 <= sg_reject_streak s /\ 0 <= sg_asset_refusals s /\
  0 <= sg_alo_permille s /\ in_i64 (sg_recon_drift s) /\ in_i64 (sg_pnl_delta s).

(** A fault of an arm's, as against the profit bound, which the two share. *)
Definition fault (why : HaltReason) : Prop := reason_halted why = true /\ why <> PnlGain /\ why <> PnlLoss.

Definition raises (sig : HaltSignal) (lim : HaltLimits) : bool :=
  negb (sg_venue_lock sig =? 0) || negb (sg_margin_risk sig =? 0) ||
  ((0 <? lm_reject_streak lim) && (lm_reject_streak lim <=? sg_reject_streak sig)) ||
  ((0 <? lm_asset_refusals lim) && (lm_asset_refusals lim <=? sg_asset_refusals sig)) ||
  negb (sg_budget_floor sig =? 0) || negb (sg_gateway_halted sig =? 0) ||
  ((0 <? lm_alo_permille lim) && (lm_alo_permille lim <=? sg_alo_permille sig)) ||
  ((0 <? lm_recon_drift lim) && (lm_recon_drift lim <=? sg_recon_drift sig)).

Lemma fault_raises sig lim : fault (trigger_for sig lim) <-> raises sig lim = true.
Proof.
  unfold fault, trigger_for, raises.
  repeat match goal with |- context [if ?b then _ else _] => destruct b end; cbn [negb andb orb reason_halted];
    naive_solver.
Qed.

Lemma either_set a b : (either a b =? 0) = (a =? 0) && (b =? 0).
Proof.
  unfold either, flag. destruct (Z.eqb_spec (Z.lor a b) 0) as [E|E].
  - apply Z.lor_eq_0_iff in E as [-> ->]. done.
  - cbn. destruct (Z.eqb_spec a 0), (Z.eqb_spec b 0); subst; done.
Qed.

Lemma over_max lim a b : (0 <? lim) && (lim <=? Z.max a b) = ((0 <? lim) && (lim <=? a)) || ((0 <? lim) && (lim <=? b)).
Proof. destruct (Z.ltb_spec 0 lim), (Z.leb_spec lim a), (Z.leb_spec lim b), (Z.leb_spec lim (Z.max a b)); cbn; lia || done. Qed.

Lemma raises_merged a b lim : raises (merged a b) lim = raises a lim || raises b lim.
Proof.
  unfold raises, merged. cbn. rewrite !either_set, !over_max.
  btauto.
Qed.

Lemma past_ms_max limit a b : in_u64 a -> in_u64 b ->
  past_ms limit (Z.max a b) = past_ms limit a || past_ms limit b.
Proof.
  intros Ha Hb. unfold past_ms. assert (forall x, in_u64 x -> wrap_i64 (x / 1000000) = x / 1000000) as W.
  { intros x Hx. apply wrap_i64_id. unfold u64_max, i64_min, i64_max in *. Z.to_euclidean_division_equations. lia. }
  rewrite !W by (done || lia).
  destruct (Z.ltb_spec 0 limit); cbn [andb orb]; [|done].
  destruct (Z.max_spec a b) as [[? ->]|[? ->]].
  - assert (a / 1000000 <= b / 1000000) by (apply Z.div_le_mono; lia).
    destruct (Z.ltb_spec 0 a), (Z.ltb_spec 0 b), (Z.leb_spec limit (a / 1000000)), (Z.leb_spec limit (b / 1000000));
      cbn; done || lia.
  - assert (b / 1000000 <= a / 1000000) by (apply Z.div_le_mono; lia).
    destruct (Z.ltb_spec 0 a), (Z.ltb_spec 0 b), (Z.leb_spec limit (a / 1000000)), (Z.leb_spec limit (b / 1000000));
      cbn; done || lia.
Qed.

Lemma hold_merged a b lim : signal_ok a -> signal_ok b ->
  hold_for (merged a b) lim = Z.lor (hold_for a lim) (hold_for b lim).
Proof.
  intros (A1 & A2 & _) (B1 & B2 & _). unfold hold_for, merged. cbn [sg_ws_gap_ns sg_recon_age_ns].
  rewrite !past_ms_max by done.
  by destruct (past_ms (lm_ws_gap_ms lim) (sg_ws_gap_ns a)), (past_ms (lm_ws_gap_ms lim) (sg_ws_gap_ns b)),
    (past_ms (lm_recon_stale_ms lim) (sg_recon_age_ns a)), (past_ms (lm_recon_stale_ms lim) (sg_recon_age_ns b)).
Qed.

(** For a slot two arms trade, the merged signal latches a fault
    exactly when one arm's own signal would, calls for exactly the holds
    either calls for, clears a hold only when both do, and counts as
    reconciled only when both are. *)
Theorem merged_signal_hides_no_fault a b lim :
  signal_ok a -> signal_ok b ->
  (fault (trigger_for (merged a b) lim) <-> fault (trigger_for a lim) \/ fault (trigger_for b lim)) /\
  hold_for (merged a b) lim = Z.lor (hold_for a lim) (hold_for b lim) /\
  hold_clear (merged a b) lim = hold_clear a lim && hold_clear b lim /\
  (sg_reconciled (merged a b) <> 0 <-> sg_reconciled a <> 0 /\ sg_reconciled b <> 0).
Proof.
  intros Ha Hb. split_and!.
  - rewrite !fault_raises, raises_merged. apply orb_true_iff.
  - by apply hold_merged.
  - unfold hold_clear. rewrite hold_merged by done. cbn [sg_resync_pending merged]. rewrite either_set.
    assert (forall x y, (Z.lor x y =? 0) = (x =? 0) && (y =? 0)) as E.
    { intros x y. destruct (Z.eqb_spec (Z.lor x y) 0) as [H|H].
      - apply Z.lor_eq_0_iff in H as [-> ->]. done.
      - destruct (Z.eqb_spec x 0), (Z.eqb_spec y 0); subst; done. }
    rewrite E. destruct (sg_resync_pending a =? 0), (sg_resync_pending b =? 0), (hold_for a lim =? 0), (hold_for b lim =? 0); done.
  - cbn [sg_reconciled merged]. unfold both, flag.
    destruct (Z.eqb_spec (sg_reconciled a) 0), (Z.eqb_spec (sg_reconciled b) 0); cbn; naive_solver.
Qed.

(** ** The properties at concrete inputs *)

Definition seeded_ops : list LedgerOp := sample_ledger ++ [O_seeded].
Definition seeded_ledger : Ledger := foldl run_ledger (Ledger_new sample_anchor) seeded_ops.

Lemma seeded_ok : ledger_ok seeded_ledger.
Proof. apply runs_ledger_ok. apply Forall_app. split; [exact sample_ledger_legal|repeat constructor]. Qed.

Definition sample_caps : SlotCaps := mkCaps 50000000 100000000 1000000000 8.
Definition sample_buy : Order := mkOrder 1000 67108871 Bid 0 300000 2500000 5 4 3.
Definition sample_sale : Order := mkOrder 1000 67108870 Ask 0 300000 1000000 6 4 3.
Definition sample_buy_fill : Fill := sample_fill Bid 67108871 300000 2500000 5.

Lemma sample_family sym : sym = 67108870 \/ sym = 67108871 ->
  is_perp (inst seeded_ledger) sym = false /\ inst_find (inst seeded_ledger) sym = None /\
  countb (has_leg sym) (rows seeded_ledger) = 1%nat.
Proof. intros [->| ->]; split_and!; vm_compute; reflexivity. Qed.

Lemma passed_order_stays_inside_the_caps_witness :
  exists l', risk_check sample_route HaltState_new sample_buy 4 Place seeded_ledger = (l', None) /\
    slot_exposure_1e6 (book_fill sample_buy_fill l') 3 <= Z.max 100000000 (slot_exposure_1e6 seeded_ledger 3).
Proof.
  destruct (risk_check sample_route HaltState_new sample_buy 4 Place seeded_ledger) as [l' why] eqn:E.
  assert (why = None) as -> by (change why with (l', why).2; rewrite <- E; vm_compute; reflexivity).
  exists l'. split; [reflexivity|].
  destruct (sample_family 67108871 ltac:(right; reflexivity)) as (H1 & H2 & H3).
  refine (proj1 (passed_order_stays_inside_the_caps sample_route HaltState_new sample_buy 4 Place seeded_ledger l'
    sample_caps sample_buy_fill seeded_ok _ _ _ _ _ _ E)).
  - vm_compute. reflexivity.
  - split_and!; [apply Nat.ltb_lt; reflexivity|exact H1|exact H2|exact H3].
  - split_and!; reflexivity.
  - cbn. lia.
  - cbn. lia.
  - vm_compute. split; discriminate.
Defined.

Lemma exits_pass_every_money_clamp_witness :
  risk_check (set_slot 3 Live [4] caps_none limits_none all_paper).1 HaltState_new sample_sale 4 Place seeded_ledger =
    (observe_mono_clock 1000 seeded_ledger, None).
Proof.
  destruct (sample_family 67108870 ltac:(left; reflexivity)) as (H1 & H2 & H3).
  refine (proj1 (exits_pass_every_money_clamp (set_slot 3 Live [4] caps_none limits_none all_paper).1 HaltState_new
    sample_sale 4 Place seeded_ledger caps_none seeded_ok _) _ _).
  - split_and!; vm_compute; reflexivity.
  - split_and!; [split_and!; [apply Nat.ltb_lt; reflexivity|exact H1|exact H2|exact H3]|reflexivity|vm_compute; discriminate|].
    intros i r Hr Hl.
    assert (i = 0%nat) as ->.
    { destruct i as [|i]; [done|]. exfalso.
      assert (forallb (fun r => negb (has_leg 67108870 r)) (drop 1 (rows seeded_ledger)) = true) as H
        by (vm_compute; reflexivity).
      pose proof (forallb_lookup _ _ i r H) as Hr'. rewrite lookup_drop in Hr'. specialize (Hr' Hr).
      change (o_sym sample_sale) with 67108870 in Hl. by rewrite Hl in Hr'. }
    vm_compute in Hr. injection Hr as <-. unfold closes. vm_compute. split; discriminate.
  - discriminate.
Defined.

Definition halted_router : Routed (Recorded Scripted) (Recorded Scripted) :=
  set_halt (latch 3 Operator HaltState_new).1 (set_ledger seeded_ledger sample_boot).

Lemma cancel_ends_only_with_the_arms_word_witness :
  let r' := try_cancel_slot 3 halted_router in
  pending 3 halted_router = CANCEL_WANTED /\ pending 3 r' = CANCEL_NONE /\
  od_cancel_slot_state 3 (rd_live r') = CA_Clear /\ slot_resting 3 (resting (rd_ledger r')) = 0.
Proof.
  cbv zeta. assert (pending 3 halted_router = CANCEL_WANTED) as E1 by (vm_compute; reflexivity).
  assert (pending 3 (try_cancel_slot 3 halted_router) = CANCEL_NONE) as E2 by (vm_compute; reflexivity).
  split; [exact E1|]. split; [exact E2|].
  destruct (cancel_ends_only_with_the_arms_word 3 halted_router) as (_ & _ & _ & H & _).
  - exact (hs_ok _ _ _ (latch_step sample_route 3 Operator HaltState_new ltac:(vm_compute; reflexivity)) boot_halt_ok).
  - exact (lo_resting _ seeded_ok).
  - unfold EXEC_SLOTS. lia.
  - destruct H as (A & B & _); [rewrite E1; discriminate|exact E2|]. split; [exact A|exact B].
Defined.

Definition fresh_router : Routed (Recorded Scripted) (Recorded Scripted) :=
  reboot sample_route willing willing sample_anchor None None.

Lemma sample_disk_ok : Forall disk_step_ok (D_call <$> sample_calls).
Proof.
  apply Forall_fmap. pose proof sample_calls_ok as H. unfold sample_calls in *. repeat apply Forall_cons in H as [? H].
  repeat constructor; done.
Qed.

(** The operator's halt of slot 3 comes back from the file; once someone has
    deleted the file, the next process starts with nothing halted; and a halt
    after a deletion writes the file again. *)
Lemma halts_survive_the_restart_witness :
  let again r := reason 3 (rd_halt (reboot sample_route willing willing sample_anchor (Some 77) (hf_disk (rd_file r)))) in
  let r := foldl run_router fresh_router sample_calls in
  reason 3 (rd_halt r) = Operator /\ again r = Operator /\ again (edit_halt_file None r) = HR_None /\
  again (foldl run_router (edit_halt_file None fresh_router) sample_calls) = Operator.
Proof.
  cbv zeta. set (r := foldl run_router fresh_router sample_calls).
  assert (reason 3 (rd_halt r) = Operator) as Ho by (vm_compute; reflexivity).
  assert (3 < EXEC_SLOTS)%nat as H3 by (unfold EXEC_SLOTS; lia).
  pose proof (halts_survive_the_restart sample_route willing willing sample_anchor None None) as T.
  split; [exact Ho|]. split; [|split].
  - destruct (T sample_calls [] sample_calls_ok ltac:(repeat constructor) ltac:(constructor)) as [H _].
    etransitivity; [|exact Ho]. apply (H willing willing sample_anchor (Some 77) 3%nat H3). vm_compute. reflexivity.
  - destruct (T [] (D_call <$> sample_calls) ltac:(constructor) ltac:(constructor) sample_disk_ok) as [_ H].
    destruct (H None) as [_ [_ H']]. cbn [foldl] in H'. rewrite run_disk_calls in H'.
    apply (H' eq_refl willing willing sample_anchor (Some 77) 3%nat H3). vm_compute. reflexivity.
  - destruct (T sample_calls [] sample_calls_ok ltac:(repeat constructor) ltac:(constructor)) as [_ H].
    destruct (H None) as [_ [H' _]]. cbn [foldl] in H'.
    assert (reason 3 (rd_halt (foldl run_router (edit_halt_file None fresh_router) sample_calls)) = Operator) as Ho'
      by (vm_compute; reflexivity).
    etransitivity; [|exact Ho']. apply (H' ltac:(vm_compute; discriminate) willing willing sample_anchor (Some 77) 3%nat H3).
    vm_compute. reflexivity.
Defined.

Lemma merged_signal_hides_no_fault_witness :
  let a := mkSignal 0 0 3 0 0 1 0 0 0 0 0 0 0 0 in
  let lim := mkLimits 1000000 5000 5000 3 0 0 0 0 in
  fault (trigger_for (merged a calm) lim) <-> fault (trigger_for a lim) \/ fault (trigger_for calm lim).
Proof.
  cbv zeta. apply merged_signal_hides_no_fault; unfold signal_ok; vm_compute; split_and!; discriminate.
Defined.

