(* ===== verification/Split.v ===== *)
(** * Arms behind one arm ([crates/exec-router/src/split.rs], [venue_split.rs],
    [null.rs], and [Option] of [crates/clob-dispatcher])

    The router holds one live arm. Several arms trade behind it through
    composites of the same trait: a split by slot, a split by venue, an arm
    that may be absent and one that refuses everything. Each is an instance
    of [OrderDispatch] built from its parts' instances. *)

From S2P Require Import Prelude CoreTypes LedgerBase Halt Route Router.

(** [HaltSignal::default()]. *)
Definition signal_default : HaltSignal := mkSignal 0 0 0 0 0 0 0 0 0 0 0 0 0 0.

(** The least settled of two confirmations. *)
Definition least_settled (a b : CancelAllState) : CancelAllState :=
  match a, b with
  | CA_Working, _ | _, CA_Working => CA_Working
  | CA_Stranded, _ | _, CA_Stranded => CA_Stranded
  | CA_Clear, CA_Clear => CA_Clear
  end.

(** [Result::and]: the first error, or the second's answer. *)
Definition and_then (a b : result unit DispatchError) : result unit DispatchError :=
  match a with Ok _ => b | Err e => Err e end.

(** One slot's day spend from two arms: the same day sums, a newer wins. *)
Definition merged_day (a b : option (Z * Z)) : option (Z * Z) :=
  match a, b with
  | Some (da, xa), Some (db, xb) =>
      if da =? db then Some (da, sat_i64 (xa + xb)) else if db <? da then Some (da, xa) else Some (db, xb)
  | Some x, None | None, Some x => Some x
  | None, None => None
  end.

(** ** What every pair of arms shares *)

Section Both.
Context {A B : Type} `{!OrderDispatch A} `{!OrderDispatch B}.

(** The first that has one, the second asked only when the first has none. *)
Definition first_of {X} (fa : A -> A * option X) (fb : B -> B * option X) (a : A) (b : B) : A * B * option X :=
  match fa a with
  | (a, Some x) => (a, b, Some x)
  | (a, None) => let '(b, x) := fb b in (a, b, x)
  end.

(** Both are asked, whatever the first answered. *)
Definition both_asked (fa : A -> A * result unit DispatchError) (fb : B -> B * result unit DispatchError)
    (a : A) (b : B) : A * B * result unit DispatchError :=
  let '(a, ra) := fa a in
  let '(b, rb) := fb b in
  (a, b, and_then ra rb).

Definition both_idle (a : A) (b : B) : A * B * bool :=
  let '(a, x) := od_on_idle a in
  let '(b, y) := od_on_idle b in
  (a, b, x || y).
End Both.

(** ** By slot *)

Definition NO_SLOT : Z := 254.

Record SlotSplit (A B : Type) := mkSlotSplit { ss_slot : Z; ss_a : A; ss_b : B }.
Arguments mkSlotSplit {A B}.
Arguments ss_slot {A B}.
Arguments ss_a {A B}.
Arguments ss_b {A B}.

Section SlotSplit.
Context {A B : Type} `{!OrderDispatch A} `{!OrderDispatch B}.

#[local] Abbreviation Sp := (SlotSplit A B).

Definition ss_put (x : Sp) (a : A) (b : B) : Sp := mkSlotSplit (ss_slot x) a b.

(** A call of the arm that trades [id]. *)
Definition ss_call {R} (id : Z) (fa : A -> A * R) (fb : B -> B * R) (x : Sp) : Sp * R :=
  if id =? ss_slot x
  then let '(b, r) := fb (ss_b x) in (ss_put x (ss_a x) b, r)
  else let '(a, r) := fa (ss_a x) in (ss_put x a (ss_b x), r).

Definition ss_ask {R} (id : Z) (fa : A -> R) (fb : B -> R) (x : Sp) : R :=
  if id =? ss_slot x then fb (ss_b x) else fa (ss_a x).

Definition ss_pair {R} (r : A * B * R) (x : Sp) : Sp * R := let '(a, b, r) := r in (ss_put x a b, r).

#[export] Instance slot_split_dispatch : OrderDispatch Sp := {
  od_submit o := ss_call (o_strategy_id o) (od_submit o) (od_submit o);
  od_cancel c := ss_call (cr_strategy_id c) (od_cancel c) (od_cancel c);
  od_modify m := ss_call (o_strategy_id (mr_order m)) (od_modify m) (od_modify m);
  od_cancel_slot s := ss_call (Z.of_nat s) (od_cancel_slot s) (od_cancel_slot s);
  od_cancel_slot_state s := ss_ask (Z.of_nat s) (od_cancel_slot_state s) (od_cancel_slot_state s);
  od_halt_signal_for s := ss_ask (Z.of_nat s) (od_halt_signal_for s) od_halt_signal;
  od_venue_day_bought s := ss_ask (Z.of_nat s) (od_venue_day_bought s) (od_venue_day_bought s);
  od_verbs_confirm_later sym venue id :=
    ss_ask id (od_verbs_confirm_later sym venue id) (od_verbs_confirm_later sym venue id);
  od_on_idle x := ss_pair (both_idle (ss_a x) (ss_b x)) x;
  od_try_next_fill x := ss_pair (first_of od_try_next_fill od_try_next_fill (ss_a x) (ss_b x)) x;
  od_observe_tick t now x := ss_put x (od_observe_tick t now (ss_a x)) (od_observe_tick t now (ss_b x));
  od_on_venue_event e x := ss_put x (od_on_venue_event e (ss_a x)) (od_on_venue_event e (ss_b x));
  od_on_opt_summary o x := ss_put x (od_on_opt_summary o (ss_a x)) (od_on_opt_summary o (ss_b x));
  od_set_route_aliases es x := ss_put x (od_set_route_aliases es (ss_a x)) (od_set_route_aliases es (ss_b x));
  od_exec_health s now := ss_ask s (od_exec_health s now) (od_exec_health s now);
  od_try_next_renamed x := ss_pair (first_of od_try_next_renamed od_try_next_renamed (ss_a x) (ss_b x)) x;
  od_try_next_retired x := ss_pair (first_of od_try_next_retired od_try_next_retired (ss_a x) (ss_b x)) x;
  od_halt_signal x := od_halt_signal (ss_a x);
  od_cancel_all x := ss_pair (both_asked od_cancel_all od_cancel_all (ss_a x) (ss_b x)) x;
  od_cancel_all_state x := least_settled (od_cancel_all_state (ss_a x)) (od_cancel_all_state (ss_b x));
  od_on_fill_booked f x := ss_put x (od_on_fill_booked f (ss_a x)) (od_on_fill_booked f (ss_b x));
  od_on_shutdown x := ss_put x (od_on_shutdown (ss_a x)) (od_on_shutdown (ss_b x))
}.
End SlotSplit.

(** ** By venue *)

Definition SERVES_A : Z := 1.
Definition SERVES_B : Z := 2.

Record VenueSplit (A B : Type) := mkVenueSplit {
  vs_venue : Z; vs_serves : list Z; vs_aliases : list RouteAlias; vs_a : A; vs_b : B
}.
Arguments mkVenueSplit {A B}.
Arguments vs_venue {A B}.
Arguments vs_serves {A B}.
Arguments vs_aliases {A B}.
Arguments vs_a {A B}.
Arguments vs_b {A B}.

Section VenueSplit.
Context {A B : Type} `{!OrderDispatch A} `{!OrderDispatch B}.

#[local] Abbreviation Sp := (VenueSplit A B).

(** A slot's coverage, from its venue mask: [mask & !bit] and [mask & bit]. *)
Definition coverage (venue : Z) (mask : Z) : Z :=
  let bit_b := if venue <? EXEC_VENUES then Z.shiftl 1 venue else 0 in
  (if negb (Z.land mask (Z.lxor bit_b u16_max) =? 0) then SERVES_A else 0)
  + (if negb (Z.land mask bit_b =? 0) then SERVES_B else 0).

Definition VenueSplit_new (venue : Z) (a : A) (b : B) (route : ExecRoute) : Sp :=
  mkVenueSplit venue ((fun s => coverage venue (get (er_venue_mask route) s)) <$> seq 0 EXEC_SLOTS) aliases_none a b.

Definition serves (slot : nat) (x : Sp) : Z := if (slot <? EXEC_SLOTS)%nat then get (vs_serves x) slot else 0.

(** Does an order on [sym] stamped [venue] belong to [b]? *)
Definition to_b (sym venue : Z) (x : Sp) : bool := route_venue (vs_aliases x) sym venue =? vs_venue x.

Definition vs_put (x : Sp) (a : A) (b : B) : Sp := mkVenueSplit (vs_venue x) (vs_serves x) (vs_aliases x) a b.

Definition vs_call {R} (sym venue : Z) (fa : A -> A * R) (fb : B -> B * R) (x : Sp) : Sp * R :=
  if to_b sym venue x
  then let '(b, r) := fb (vs_b x) in (vs_put x (vs_a x) b, r)
  else let '(a, r) := fa (vs_a x) in (vs_put x a (vs_b x), r).

(** The arms that trade the slot answer; both are merged. *)
Definition vs_slot {R} (slot : nat) (fa : A -> R) (fb : B -> R) (merge : R -> R -> R) (none : R) (x : Sp) : R :=
  if serves slot x =? SERVES_A then fa (vs_a x)
  else if serves slot x =? SERVES_B then fb (vs_b x)
  else if serves slot x =? 3 then merge (fa (vs_a x)) (fb (vs_b x))
  else none.

Definition vs_pair {R} (r : A * B * R) (x : Sp) : Sp * R := let '(a, b, r) := r in (vs_put x a b, r).

#[export] Instance venue_split_dispatch : OrderDispatch Sp := {
  od_submit o := vs_call (o_sym o) (o_venue o) (od_submit o) (od_submit o);
  od_cancel c := vs_call (cr_sym c) (cr_venue c) (od_cancel c) (od_cancel c);
  od_modify m := vs_call (o_sym (mr_order m)) (o_venue (mr_order m)) (od_modify m) (od_modify m);
  od_cancel_slot s x := vs_pair (both_asked (od_cancel_slot s) (od_cancel_slot s) (vs_a x) (vs_b x)) x;
  od_cancel_slot_state s x := least_settled (od_cancel_slot_state s (vs_a x)) (od_cancel_slot_state s (vs_b x));
  od_halt_signal_for s := vs_slot s (od_halt_signal_for s) (od_halt_signal_for s) merged signal_default;
  od_venue_day_bought s := vs_slot s (od_venue_day_bought s) (od_venue_day_bought s) merged_day None;
  od_verbs_confirm_later sym venue id x :=
    if to_b sym venue x then od_verbs_confirm_later sym venue id (vs_b x)
    else od_verbs_confirm_later sym venue id (vs_a x);
  od_on_idle x := vs_pair (both_idle (vs_a x) (vs_b x)) x;
  od_try_next_fill x := vs_pair (first_of od_try_next_fill od_try_next_fill (vs_a x) (vs_b x)) x;
  od_observe_tick t now x := vs_put x (od_observe_tick t now (vs_a x)) (od_observe_tick t now (vs_b x));
  od_on_venue_event e x := vs_put x (od_on_venue_event e (vs_a x)) (od_on_venue_event e (vs_b x));
  od_on_opt_summary o x := vs_put x (od_on_opt_summary o (vs_a x)) (od_on_opt_summary o (vs_b x));
  od_set_route_aliases es x :=
    mkVenueSplit (vs_venue x) (vs_serves x) es (od_set_route_aliases es (vs_a x)) (od_set_route_aliases es (vs_b x));
  od_exec_health s now := vs_slot (Z.to_nat s) (od_exec_health s now) (od_exec_health s now) worst HEALTHY;
  od_try_next_renamed x := vs_pair (first_of od_try_next_renamed od_try_next_renamed (vs_a x) (vs_b x)) x;
  od_try_next_retired x := vs_pair (first_of od_try_next_retired od_try_next_retired (vs_a x) (vs_b x)) x;
  od_halt_signal x := od_halt_signal (vs_a x);
  od_cancel_all x := vs_pair (both_asked od_cancel_all od_cancel_all (vs_a x) (vs_b x)) x;
  od_cancel_all_state x := least_settled (od_cancel_all_state (vs_a x)) (od_cancel_all_state (vs_b x));
  od_on_fill_booked f x := vs_put x (od_on_fill_booked f (vs_a x)) (od_on_fill_booked f (vs_b x));
  od_on_shutdown x := vs_put x (od_on_shutdown (vs_a x)) (od_on_shutdown (vs_b x))
}.
End VenueSplit.

(** ** An arm that may be absent *)

Section Maybe.
Context {A : Type} `{!OrderDispatch A}.

Definition some_call {R} (f : A -> A * R) (none : R) (x : option A) : option A * R :=
  match x with Some a => let '(a, r) := f a in (Some a, r) | None => (None, none) end.

#[export] Instance option_dispatch : OrderDispatch (option A) := {
  od_submit o := some_call (od_submit o) (Err NoLiveRoute);
  od_cancel c := some_call (od_cancel c) (Err NoLiveRoute);
  od_modify m := some_call (od_modify m) (Err NoLiveRoute);
  od_cancel_slot s := some_call (od_cancel_slot s) (Ok tt);
  od_cancel_slot_state s x := from_option (od_cancel_slot_state s) CA_Clear x;
  od_halt_signal_for s x := from_option (od_halt_signal_for s) signal_default x;
  od_venue_day_bought s x := x ≫= od_venue_day_bought s;
  od_verbs_confirm_later sym venue id x := from_option (od_verbs_confirm_later sym venue id) false x;
  od_on_idle := some_call od_on_idle false;
  od_try_next_fill := some_call od_try_next_fill None;
  od_observe_tick t now x := od_observe_tick t now <$> x;
  od_on_venue_event e x := od_on_venue_event e <$> x;
  od_on_opt_summary o x := od_on_opt_summary o <$> x;
  od_set_route_aliases es x := od_set_route_aliases es <$> x;
  od_exec_health s now x := from_option (od_exec_health s now) HEALTHY x;
  od_try_next_renamed := some_call od_try_next_renamed None;
  od_try_next_retired := some_call od_try_next_retired None;
  od_halt_signal x := from_option od_halt_signal signal_default x;
  od_cancel_all := some_call od_cancel_all (Ok tt);
  od_cancel_all_state x := from_option od_cancel_all_state CA_Clear x;
  od_on_fill_booked f x := od_on_fill_booked f <$> x;
  od_on_shutdown x := od_on_shutdown <$> x
}.
End Maybe.

(** ** An arm that refuses everything: its count of refusals *)

Record NullLiveDispatcher := mkNull { nl_refused : Z }.

Definition null_refuse (x : NullLiveDispatcher) : NullLiveDispatcher * result unit DispatchError :=
  (mkNull (sat_u64 (nl_refused x + 1)), Err NoLiveRoute).

#[export] Instance null_dispatch : OrderDispatch NullLiveDispatcher := {
  od_submit _ := null_refuse;
  od_cancel _ := null_refuse;
  od_modify _ := null_refuse;
  od_cancel_slot _ x := (x, Ok tt);
  od_cancel_slot_state _ _ := CA_Clear;
  od_halt_signal_for _ _ := signal_default;
  od_venue_day_bought _ _ := None;
  od_verbs_confirm_later _ _ _ _ := false;
  od_on_idle x := (x, false);
  od_try_next_fill x := (x, None);
  od_observe_tick _ _ x := x;
  od_on_venue_event _ x := x;
  od_on_opt_summary _ x := x;
  od_set_route_aliases _ x := x;
  od_exec_health _ _ _ := HEALTHY;
  od_try_next_renamed x := (x, None);
  od_try_next_retired x := (x, None);
  od_halt_signal _ := signal_default;
  od_cancel_all x := (x, Ok tt);
  od_cancel_all_state _ := CA_Clear;
  od_on_fill_booked _ x := x;
  od_on_shutdown x := x
}.
