(* ===== verification/SplitProofs.v ===== *)
(** * Which arm an order reaches, and whose faults its slot sees

    The engine's shape is a split by slot over a split by venue. Behind the
    router each arm is sent only what its slot and venue are for, the arms'
    logs are the router's calls shared out, in order and unchanged, and the slot's halt signal and cancel state
    cover the arm its orders reach. *)

From stdpp Require Import relations.
From S2P Require Import Prelude CoreTypes LedgerBase Ledger LedgerProofs Halt Route Router RouterProofs RouterLaws Split.

(** The slot a verb names. *)
Definition verb_slot (v : Verb) : Z :=
  match v with
  | V_submit o => o_strategy_id o
  | V_modify m => o_strategy_id (mr_order m)
  | V_cancel c => cr_strategy_id c
  | V_cancel_slot s => Z.of_nat s
  end.

Definition is_order_verb (v : Verb) : bool := match v with V_cancel_slot _ => false | _ => true end.

(** The verb's slot may trade live on a venue of [ok]. *)
Definition for_venues (route : ExecRoute) (ok : Z -> Prop) (v : Verb) : Prop :=
  match v with
  | V_cancel_slot s => is_live route s = true
  | V_cancel c => mode route (cr_strategy_id c) <> Paper /\ exists w, ok w /\ venue_allowed route (cr_strategy_id c) w = true
  | _ => mode route (verb_slot v) = Live /\ exists w, ok w /\ venue_allowed route (verb_slot v) w = true
  end.

(** The venue a verb is routed to under the table; a slot-wide cancel has none. *)
Definition verb_venue (es : list RouteAlias) (v : Verb) : Z :=
  match v with
  | V_submit o => route_venue es (o_sym o) (o_venue o)
  | V_modify m => route_venue es (o_sym (mr_order m)) (o_venue (mr_order m))
  | V_cancel c => route_venue es (cr_sym c) (cr_venue c)
  | V_cancel_slot _ => 0
  end.

(** The three arms, and which of them a verb routed to [w] is for: an order
    verb for exactly one, a slot-wide cancel for all that trade the slot. *)
Inductive Arm : Type := For_slot | For_venue | For_rest.

Definition goes (slot bn : Z) (arm : Arm) (vw : Verb * Z) : bool :=
  let '(v, w) := vw in
  let mine := verb_slot v =? slot in
  match arm with
  | For_slot => mine
  | For_venue => negb mine && (negb (is_order_verb v) || (w =? bn))
  | For_rest => negb mine && (negb (is_order_verb v) || negb (w =? bn))
  end.

(** An arm's share of the routed verbs, as they are and in their order. *)
Definition share (slot bn : Z) (arm : Arm) (routed : list (Verb * Z)) : list Verb :=
  (filter (fun vw => goes slot bn arm vw = true) routed).*1.

Lemma share_snoc slot bn arm routed vw :
  share slot bn arm (routed ++ [vw]) = share slot bn arm routed ++ if goes slot bn arm vw then [vw.1] else [].
Proof. unfold share. rewrite filter_app, filter_cons, fmap_app. by destruct (goes slot bn arm vw). Qed.

Section Shape.
Context {P A B C : Type} `{!OrderDispatch P} `{!OrderDispatch A} `{!OrderDispatch B} `{!OrderDispatch C}.

(** Slot [slot]'s arm, and for every other slot one arm for venue [bn] and
    one for the rest. *)
#[local] Abbreviation Shape := (SlotSplit (VenueSplit (Recorded A) (Recorded B)) (Recorded C)).
#[local] Abbreviation Rt := (Routed (Recorded P) (Recorded Shape)).

Definition shape (slot bn : Z) (route : ExecRoute) (a : A) (b : B) (c : C) : Shape :=
  mkSlotSplit slot (VenueSplit_new bn (mkRec a []) (mkRec b []) route) (mkRec c []).

Definition log_a (x : Shape) : list Verb := rec_log (vs_a (ss_a x)).
Definition log_b (x : Shape) : list Verb := rec_log (vs_b (ss_a x)).
Definition log_c (x : Shape) : list Verb := rec_log (ss_b x).

(** What a call leaves alone. *)
Definition glue (x : Shape) : Z * Z * list Z * list RouteAlias :=
  (ss_slot x, vs_venue (ss_a x), vs_serves (ss_a x), vs_aliases (ss_a x)).

Lemma heard_inner (x y : Shape) :
  heard x y -> glue y = glue x /\ log_a y = log_a x /\ log_b y = log_b x /\ log_c y = log_c x.
Proof.
  destruct x as [s [vn sv es [a la] [b lb]] [c lc]].
  assert (forall X (f : Recorded A -> Recorded A * option X) (g : Recorded B -> Recorded B * option X) (h : Recorded C -> Recorded C * option X),
    (forall x, rec_log (f x).1 = rec_log x) -> (forall x, rec_log (g x).1 = rec_log x) -> (forall x, rec_log (h x).1 = rec_log x) ->
    forall x : Shape, let z := (ss_pair (first_of (fun u => vs_pair (first_of f g (vs_a u) (vs_b u)) u) h (ss_a x) (ss_b x)) x).1 in
    glue z = glue x /\ log_a z = log_a x /\ log_b z = log_b x /\ log_c z = log_c x) as Q.
  { intros X f g h Hf Hg Hh [s' [vn' sv' es' xa xb] xc]. cbv zeta. unfold ss_pair, vs_pair, first_of. cbn.
    specialize (Hf xa); specialize (Hg xb); specialize (Hh xc).
    destruct (f xa) as [u [?|]]; [done|]. destruct (g xb) as [w [?|]]; [done|]. by destruct (h xc). }
  intros [y' b' E|y' f E|y' n E|y' n E|t now|e|o]; try done.
  { change y' with (y', b').1. rewrite <- E. do 3 (cbn; unfold ss_pair, vs_pair, both_idle).
    by destruct (od_on_idle a), (od_on_idle b), (od_on_idle c). }
  - change y' with (y', f).1. rewrite <- E.
    apply (Q _ od_try_next_fill od_try_next_fill od_try_next_fill); intros []; cbn; by case_match.
  - change y' with (y', n).1. rewrite <- E.
    apply (Q _ od_try_next_renamed od_try_next_renamed od_try_next_renamed); intros []; cbn; by case_match.
  - change y' with (y', n).1. rewrite <- E.
    apply (Q _ od_try_next_retired od_try_next_retired od_try_next_retired); intros []; cbn; by case_match.
Qed.

Definition to_arms (v : Verb) (x : Shape) : bool * bool * bool :=
  let mine := verb_slot v =? ss_slot x in
  let venue sym w := to_b sym w (ss_a x) in
  let either sym w := (negb mine && negb (venue sym w), negb mine && venue sym w, mine) in
  match v with
  | V_submit o => either (o_sym o) (o_venue o)
  | V_modify m => either (o_sym (mr_order m)) (o_venue (mr_order m))
  | V_cancel c => either (cr_sym c) (cr_venue c)
  | V_cancel_slot _ => (negb mine, negb mine, mine)
  end.

Definition logged (v : Verb) (sent : bool) (l : list Verb) : list Verb := if sent then l ++ [v] else l.

Lemma logged_app v sent l : logged v sent l = l ++ if sent then [v] else [].
Proof. destruct sent; [done|]. by rewrite app_nil_r. Qed.

(** Opens the answer of every arm a verb reached. *)
Ltac answered :=
  repeat match goal with
  | |- context [od_submit ?o ?z] => is_var z; destruct (od_submit o z)
  | |- context [od_modify ?o ?z] => is_var z; destruct (od_modify o z)
  | |- context [od_cancel ?o ?z] => is_var z; destruct (od_cancel o z)
  | |- context [od_cancel_slot ?o ?z] => is_var z; destruct (od_cancel_slot o z)
  end; done.

Lemma told_inner (x y : Shape) v :
  told x v y ->
  glue y = glue x /\ log_a y = logged v (to_arms v x).1.1 (log_a x)
  /\ log_b y = logged v (to_arms v x).1.2 (log_b x) /\ log_c y = logged v (to_arms v x).2 (log_c x).
Proof.
  destruct x as [s [vn sv es [a la] [b lb]] [c lc]].
  intros [o y' r E|m y' r E|k y' r E|k y' r E]; change y' with (y', r).1; rewrite <- E; clear E; unfold to_arms;
    cbn -[to_b]; unfold ss_call, vs_call, ss_put, vs_put, vs_pair, both_asked; cbn -[to_b].
  all: destruct (_ =? s); cbn -[to_b]; try (destruct (to_b _ _ _); cbn -[to_b]); answered.
Qed.

(** ** Behind the router *)

Context (slot bn : Z) (route : ExecRoute).

#[local] Abbreviation arm r := (rec_arm (rd_live r)).

(** Every verb sent so far, with the venue it was routed to, is as [sent]
    says, of a slot that may trade that venue, and in the logs of the arms it
    is for. *)
Record arms_ok (sent : Verb -> Z -> Prop) (sv : list Z) (r : Rt) : Prop := {
  ao_route : rd_route r = route;
  ao_glue : glue (arm r) = (slot, bn, sv, rd_aliases r);
  ao_routed : exists routed, rec_log (rd_live r) = routed.*1 /\
    log_a (arm r) = share slot bn For_rest routed /\ log_b (arm r) = share slot bn For_venue routed /\
    log_c (arm r) = share slot bn For_slot routed /\
    forall v w, (v, w) ∈ routed -> sent v w /\ for_venues route (eq w) v
}.

(** The arms and their logs are as they were. *)
Lemma arms_still sent sv (r r' : Rt) :
  rd_route r' = rd_route r -> glue (arm r') = (slot, bn, sv, rd_aliases r') ->
  log_a (arm r') = log_a (arm r) -> log_b (arm r') = log_b (arm r) -> log_c (arm r') = log_c (arm r) ->
  rec_log (rd_live r') = rec_log (rd_live r) -> arms_ok sent sv r -> arms_ok sent sv r'.
Proof. intros Er Eg Ea Eb Ec El [R G K]. split; rewrite ?Ea, ?Eb, ?Ec, ?El, ?Er; auto; congruence. Qed.

Lemma arms_weaken (sent sent' : Verb -> Z -> Prop) sv (r : Rt) :
  (forall v w, sent v w -> sent' v w) -> arms_ok sent sv r -> arms_ok sent' sv r.
Proof.
  intros H [R G (routed & E & Ea & Eb & Ec & K)]. split; [done|done|]. exists routed. split_and!; [done..|].
  intros v w Hv. destruct (K v w Hv). split; auto.
Qed.

(** The live arm's verb is of a slot that may trade where it is routed. *)
Lemma live_for (r : Rt) v : live_may r v -> for_venues (rd_route r) (eq (verb_venue (rd_aliases r) v)) v.
Proof. destruct v as [o|m|c|s]; cbn; unfold live_order; firstorder eauto. Qed.

Lemma to_arms_goes sv (r : Rt) v : glue (arm r) = (slot, bn, sv, rd_aliases r) ->
  let vw := (v, verb_venue (rd_aliases r) v) in
  to_arms v (arm r) = (goes slot bn For_rest vw, goes slot bn For_venue vw, goes slot bn For_slot vw).
Proof.
  intros G. assert (ss_slot (arm r) = slot) as Es by (unfold glue in G; congruence).
  assert (forall sym w, to_b sym w (ss_a (arm r)) = (route_venue (rd_aliases r) sym w =? bn)) as Et.
  { intros sym w. unfold to_b, glue in *. congruence. }
  unfold to_arms, goes. rewrite Es. destruct v; cbn [is_order_verb negb orb verb_venue]; rewrite ?Et, ?andb_true_r; done.
Qed.

Lemma arms_verb sent sv v y (r : Rt) :
  told (arm r) v y -> live_may r v -> sent v (verb_venue (rd_aliases r) v) ->
  arms_ok sent sv r -> arms_ok sent sv (set_live (loud v y (rd_live r)) r).
Proof.
  intros T L S [R G (routed & E & Ea & Eb & Ec & K)]. destruct (told_inner _ _ _ T) as (G' & Ea' & Eb' & Ec').
  apply live_for in L. rewrite R in L. set (w := verb_venue (rd_aliases r) v) in *.
  pose proof (to_arms_goes sv r v G) as Et. cbv zeta in Et. fold w in Et. rewrite Et in Ea', Eb', Ec'. cbn [fst snd] in Ea', Eb', Ec'.
  split; cbn [rd_route rd_live set_live rec_arm rec_log loud rd_aliases] in *; [done|by rewrite G'|].
  exists (routed ++ [(v, w)]). rewrite fmap_app, !share_snoc, Ea', Eb', Ec', E, Ea, Eb, Ec, !logged_app.
  split_and!; [done..|].
  intros u z [Hu|Hu%list_elem_of_singleton]%elem_of_app; [by apply K|]. injection Hu as -> ->. done.
Qed.

(** One step of a call that sets no table. *)
Lemma arms_micro sent sv may (r r' : Rt) :
  micro may (fun _ => False) r r' -> pending_live (rd_route r) (rd_halt r) ->
  (forall v, may v -> sent v (verb_venue (rd_aliases r) v)) -> arms_ok sent sv r -> arms_ok sent sv r'.
Proof.
  intros M Hp Hs K. destruct M as [op r Hop|h r|c r|es r []|t r|c r|f r|a r|v a r|a r Ha|v a r T Hm L];
    try by apply (arms_still sent sv r); try apply K.
  - destruct (heard_inner _ _ Ha) as (E1 & E2 & E3 & E4). apply (arms_still sent sv r); try done.
    cbn [rd_live set_live rec_arm quiet rd_aliases]. rewrite E1. apply K.
  - apply arms_verb; auto.
Qed.

Lemma arms_steps sent sv may (r r' : Rt) :
  rtc (micro may (fun _ => False)) r r' -> pending_live (rd_route r) (rd_halt r) ->
  (forall v, may v -> sent v (verb_venue (rd_aliases r) v)) -> arms_ok sent sv r -> arms_ok sent sv r'.
Proof.
  induction 1 as [|r r1 r2 M _ IH]; [done|]. intros Hp Hs K.
  apply IH; [by apply (steps_pending may (fun _ => False) r r1); [apply rtc_once|]| |by eapply arms_micro].
  by rewrite (steps_aliases may r r1) by by apply rtc_once.
Qed.

(** A call of the router. *)
Lemma arms_call sent sv op (r : Rt) : router_op_ok op -> pending_live (rd_route r) (rd_halt r) ->
  (forall v, sends op v -> sent v (verb_venue (rd_aliases r) v)) -> arms_ok sent sv r -> arms_ok sent sv (run_router r op).
Proof.
  intros Hok Hp Hs K. assert ((exists es, op = Q_aliases es) \/ forall es, op <> Q_aliases es) as [[es ->]|Hn].
  { destruct op; try (by right); left; eauto. }
  - destruct K as [R G K]. split; [done| |exact K]. cbn. unfold glue in *. cbn. congruence.
  - eapply arms_steps; [apply (run_router_steps (sends op) (fun _ => False)); [done|naive_solver|done]|done..].
Qed.

Lemma arms_boot sent (p : P) (a : A) (b : B) (c : C) anchor :
  arms_ok sent (vs_serves (ss_a (shape slot bn route a b c))) (boot route p (shape slot bn route a b c) anchor).
Proof. split; try done. exists []. split_and!; try done. by intros v w ?%elem_of_nil. Qed.

(** The verb is of a call of the run, routed by the table in force then. *)
Definition sent_in (r0 : Rt) (ops : list RouterOp) (v : Verb) (w : Z) : Prop :=
  exists before op after, ops = before ++ op :: after /\ sends op v /\
    w = verb_venue (rd_aliases (foldl run_router r0 before)) v.

Lemma arms_run sv (r0 : Rt) ops : Forall router_op_ok ops -> pending_live (rd_route r0) (rd_halt r0) ->
  arms_ok (fun _ _ => False) sv r0 -> arms_ok (sent_in r0 ops) sv (foldl run_router r0 ops).
Proof.
  intros Hok Hp K. induction ops as [|op ops IH] using rev_ind; [by eapply arms_weaken, K|].
  apply Forall_app in Hok as [Hops Hop]. rewrite Forall_singleton in Hop. rewrite foldl_snoc.
  apply arms_call; [done|by eapply steps_pending; [apply runs_router_steps|]| |].
  - intros v Hv. by exists ops, op, [].
  - apply (arms_weaken (sent_in r0 ops)); [|by apply IH]. intros v w (b & o & t & -> & Hs & Hw).
    exists b, o, (t ++ [op]). by rewrite <- app_assoc.
Qed.
End Shape.

(** ** The reports of composed arms are queues too *)

Section Queues.
Context {A B : Type} `{!OrderDispatch A} `{!OrderDispatch B} `{!ReportQueue A} `{!ReportQueue B}.

Lemma first_renamed (a : A) (b : B) :
  let '(a', b', n) := first_of od_try_next_renamed od_try_next_renamed a b in
  n = head (renames_of a ++ renames_of b) /\ renames_of a' ++ renames_of b' = tail (renames_of a ++ renames_of b)
  /\ retires_of a' ++ retires_of b' = retires_of a ++ retires_of b.
Proof.
  destruct (rq_renamed a) as (E1 & E2 & E3), (rq_renamed b) as (F1 & F2 & F3). unfold first_of.
  destruct (od_try_next_renamed a) as [a' [n|]]; cbn [fst snd] in *.
  - rewrite E2, E3. by destruct (renames_of a); simplify_eq/=.
  - destruct (renames_of a); [|done]. destruct (od_try_next_renamed b) as [b' m]. cbn [fst snd] in *.
    by rewrite E2, E3, F2, F3.
Qed.

Lemma first_retired (a : A) (b : B) :
  let '(a', b', n) := first_of od_try_next_retired od_try_next_retired a b in
  n = head (retires_of a ++ retires_of b) /\ retires_of a' ++ retires_of b' = tail (retires_of a ++ retires_of b)
  /\ renames_of a' ++ renames_of b' = renames_of a ++ renames_of b.
Proof.
  destruct (rq_retired a) as (E1 & E2 & E3), (rq_retired b) as (F1 & F2 & F3). unfold first_of.
  destruct (od_try_next_retired a) as [a' [n|]]; cbn [fst snd] in *.
  - rewrite E2, E3. by destruct (retires_of a); simplify_eq/=.
  - destruct (retires_of a); [|done]. destruct (od_try_next_retired b) as [b' m]. cbn [fst snd] in *.
    by rewrite E2, E3, F2, F3.
Qed.

#[export, refine] Instance slot_split_queue : ReportQueue (SlotSplit A B) := {
  renames_of x := renames_of (ss_a x) ++ renames_of (ss_b x);
  retires_of x := retires_of (ss_a x) ++ retires_of (ss_b x);
  rq_renamed := _;
  rq_retired := _
}.
Proof.
  - intros x. pose proof (first_renamed (ss_a x) (ss_b x)) as L. cbn. by destruct (first_of _ _ _ _) as [[a b] n].
  - intros x. pose proof (first_retired (ss_a x) (ss_b x)) as L. cbn. by destruct (first_of _ _ _ _) as [[a b] n].
Defined.

#[export, refine] Instance venue_split_queue : ReportQueue (VenueSplit A B) := {
  renames_of x := renames_of (vs_a x) ++ renames_of (vs_b x);
  retires_of x := retires_of (vs_a x) ++ retires_of (vs_b x);
  rq_renamed := _;
  rq_retired := _
}.
Proof.
  - intros x. pose proof (first_renamed (vs_a x) (vs_b x)) as L. cbn. by destruct (first_of _ _ _ _) as [[a b] n].
  - intros x. pose proof (first_retired (vs_a x) (vs_b x)) as L. cbn. by destruct (first_of _ _ _ _) as [[a b] n].
Defined.
End Queues.

(** ** Whose faults a slot sees *)

Lemma bit_nonzero z n : 0 <= n -> Z.testbit z n = true -> z <> 0.
Proof. intros Hn B ->. by rewrite Z.bits_0 in B. Qed.

Lemma allowed_bit route id w :
  0 <= w -> venue_allowed route id w = true ->
  w < EXEC_VENUES /\ Z.testbit (get (er_venue_mask route) (masked_slot id)) w = true.
Proof.
  intros Hw. unfold venue_allowed. set (m := get _ _). intros E%Z.eqb_eq. unfold flag in E.
  destruct (Z.ltb_spec w EXEC_VENUES) as [Hv|Hv]; [|by rewrite Z.land_0_r in E]. split; [done|].
  unfold slot_ok, flag in E. destruct (id <? _); [|by rewrite Z.land_0_r, Z.land_0_l in E].
  assert (Z.land w (EXEC_VENUES - 1) = w) as Ew.
  { change (EXEC_VENUES - 1) with (Z.ones 4). rewrite Z.land_ones by lia. apply Z.mod_small. unfold EXEC_VENUES in Hv. lia. }
  rewrite Ew in E. apply (f_equal (fun z => Z.testbit z 0)) in E.
  rewrite !Z.land_spec, Z.shiftr_spec, Z.add_0_l in E by lia. cbn in E. by rewrite !andb_true_r in E.
Qed.

Lemma covered venue mask w :
  0 <= venue -> 0 <= w < EXEC_VENUES -> Z.testbit mask w = true ->
  if w =? venue then coverage venue mask = SERVES_B \/ coverage venue mask = 3
  else coverage venue mask = SERVES_A \/ coverage venue mask = 3.
Proof.
  intros Hn Hw Hb. unfold coverage. cbv zeta. destruct (Z.eqb_spec w venue) as [->|Hne].
  - rewrite (proj2 (Z.ltb_lt venue EXEC_VENUES)) by lia.
    assert (Z.land mask (Z.shiftl 1 venue) <> 0) as X.
    { apply (bit_nonzero _ venue); [lia|]. rewrite Z.land_spec, Hb, Z.shiftl_spec, Z.sub_diag by lia. done. }
    rewrite (proj2 (Z.eqb_neq _ _) X). cbn [negb]. destruct (negb _); auto.
  - assert (Z.land mask (Z.lxor (if venue <? EXEC_VENUES then Z.shiftl 1 venue else 0) u16_max) <> 0) as X.
    { apply (bit_nonzero _ w); [lia|]. rewrite Z.land_spec, Hb, Z.lxor_spec. change u16_max with (Z.ones 16).
      unfold EXEC_VENUES in *. rewrite Z.ones_spec_low by lia. destruct (venue <? 16); [|by rewrite Z.bits_0].
      rewrite Z.shiftl_spec by lia. destruct (Z.testbit 1 (w - venue)) eqn:E; [|done].
      exfalso. destruct (Z.ltb_spec (w - venue) 0); [by rewrite Z.testbit_neg_r in E|].
      rewrite (Z.bits_above_log2 1 (w - venue)) in E; [done|lia|cbn; lia]. }
    rewrite (proj2 (Z.eqb_neq _ _) X). cbn [negb]. destruct (negb _); auto.
Qed.

Lemma masked_nat k : (k < EXEC_SLOTS)%nat -> masked_slot (Z.of_nat k) = k.
Proof.
  intros Hk. unfold masked_slot. change (Z.of_nat EXEC_SLOTS - 1) with (Z.ones 4). rewrite Z.land_ones by lia.
  rewrite Z.mod_small by (unfold EXEC_SLOTS in Hk; lia). lia.
Qed.

(** [sig]'s faults, holds and doubts are all in [seen]. *)
Definition sees (seen sig : HaltSignal) (lim : HaltLimits) : Prop :=
  (fault (trigger_for sig lim) -> fault (trigger_for seen lim))
  /\ Z.land (hold_for sig lim) (hold_for seen lim) = hold_for sig lim
  /\ (hold_clear seen lim = true -> hold_clear sig lim = true)
  /\ (sg_reconciled seen <> 0 -> sg_reconciled sig <> 0).

Lemma sees_self sig lim : sees sig sig lim.
Proof. split_and!; auto using Z.land_diag. Qed.

Lemma either_zero x y : either x y = 0 -> x = 0 /\ y = 0.
Proof. intros E%Z.eqb_eq. rewrite either_set in E. apply andb_true_iff in E as [?%Z.eqb_eq ?%Z.eqb_eq]. done. Qed.

Lemma sees_merged a b lim : signal_ok a -> signal_ok b -> sees (merged a b) a lim /\ sees (merged a b) b lim.
Proof.
  intros Ha Hb. pose proof (hold_merged a b lim Ha Hb) as Eh.
  assert (forall s, s = a \/ s = b -> sees (merged a b) s lim) as X; [|split; apply X; auto].
  intros s Hs. split_and!.
  - rewrite !fault_raises, raises_merged. intros E. apply orb_true_iff. destruct Hs as [<-|<-]; auto.
  - rewrite Eh. apply Z.bits_inj'. intros n _. rewrite Z.land_spec, Z.lor_spec.
    destruct Hs as [<-|<-]; by destruct (Z.testbit (hold_for _ _) n), (Z.testbit (hold_for _ _) n).
  - unfold hold_clear. rewrite Eh. intros [R%Z.eqb_eq Z0%Z.eqb_eq]%andb_true_iff. cbn in R.
    apply either_zero in R as [R1 R2]. apply Z.lor_eq_0_iff in Z0 as [Z1 Z2].
    destruct Hs as [->| ->]; by rewrite ?R1, ?R2, ?Z1, ?Z2.
  - cbn. unfold both, flag. intros R.
    destruct (Z.eqb_spec (sg_reconciled a) 0), (Z.eqb_spec (sg_reconciled b) 0); cbn in R; destruct Hs as [->| ->]; done.
Qed.

Section Coverage.
Context {A B C : Type} `{!OrderDispatch A} `{!OrderDispatch B} `{!OrderDispatch C}.

#[local] Abbreviation Shape := (SlotSplit (VenueSplit A B) C).

(** What the arm an order of slot [k] reaches answers. *)
Definition reached {R} (k : nat) (sym venue : Z) (fa : A -> R) (fb : B -> R) (fc : C -> R) (x : Shape) : R :=
  if Z.of_nat k =? ss_slot x then fc (ss_b x)
  else if to_b sym venue (ss_a x) then fb (vs_b (ss_a x)) else fa (vs_a (ss_a x)).

(** Each slot's coverage is its mask's. *)
Definition covers (route : ExecRoute) (x : Shape) : Prop :=
  0 <= vs_venue (ss_a x) /\
  vs_serves (ss_a x) = (fun s => coverage (vs_venue (ss_a x)) (get (er_venue_mask route) s)) <$> seq 0 EXEC_SLOTS.

Lemma slot_served route (x : Shape) k sym venue :
  covers route x -> (k < EXEC_SLOTS)%nat -> 0 <= route_venue (vs_aliases (ss_a x)) sym venue ->
  venue_allowed route (Z.of_nat k) (route_venue (vs_aliases (ss_a x)) sym venue) = true ->
  if to_b sym venue (ss_a x) then serves k (ss_a x) = SERVES_B \/ serves k (ss_a x) = 3
  else serves k (ss_a x) = SERVES_A \/ serves k (ss_a x) = 3.
Proof.
  intros [Hv Es] Hk Hw Ha. apply allowed_bit in Ha as [Hn Hb]; [|done]. rewrite masked_nat in Hb by done.
  pose proof (covered _ _ _ Hv (conj Hw Hn) Hb) as Cv. unfold to_b, serves. rewrite (proj2 (Nat.ltb_lt _ _)) by done.
  rewrite Es. unfold get at 1 3 5 7. rewrite list_lookup_fmap, lookup_seq_lt by done. exact Cv.
Qed.

Lemma settled_both a b : least_settled a b = CA_Clear -> a = CA_Clear /\ b = CA_Clear.
Proof. by destruct a, b. Qed.

Lemma slot_sees route (x : Shape) k sym venue lim :
  covers route x -> (k < EXEC_SLOTS)%nat -> 0 <= route_venue (vs_aliases (ss_a x)) sym venue ->
  venue_allowed route (Z.of_nat k) (route_venue (vs_aliases (ss_a x)) sym venue) = true ->
  signal_ok (od_halt_signal_for k (vs_a (ss_a x))) -> signal_ok (od_halt_signal_for k (vs_b (ss_a x))) ->
  sees (od_halt_signal_for k x)
    (reached k sym venue (od_halt_signal_for k) (od_halt_signal_for k) od_halt_signal x) lim /\
  (od_cancel_slot_state k x = CA_Clear ->
   reached k sym venue (od_cancel_slot_state k) (od_cancel_slot_state k) (od_cancel_slot_state k) x = CA_Clear).
Proof.
  intros Cx Hk Hw Ha Sa Sb. pose proof (slot_served route x k sym venue Cx Hk Hw Ha) as Cv. unfold reached.
  cbn [od_halt_signal_for od_cancel_slot_state slot_split_dispatch]. unfold ss_ask.
  destruct (Z.of_nat k =? ss_slot x); [split; [apply sees_self|done]|].
  cbn [od_halt_signal_for od_cancel_slot_state venue_split_dispatch]. unfold vs_slot.
  destruct (sees_merged _ _ lim Sa Sb) as [M1 M2].
  destruct (to_b sym venue (ss_a x)); (split; [|by intros [? ?]%settled_both]);
    destruct Cv as [-> | ->]; cbn [Z.eqb SERVES_A SERVES_B Pos.eqb]; auto using sees_self.
Qed.
End Coverage.

(** C21. Behind the router, in the engine's shape (one slot's arm, and for
    every other slot one arm for venue bn and one for the rest), over any
    run from boot: each verb the router sent was sent by the call it names
    and routed to the venue the alias table in force at that call gives it,
    a venue the verb's slot may trade live; and the three arms' logs are
    those same verbs, unchanged and in the order they were sent, dealt out
    by slot and routed venue - the slot's arm gets exactly the verbs of its
    slot, the venue's arm exactly the order verbs of other slots routed to
    bn, the rest's arm exactly those routed elsewhere, and a slot-wide
    cancel of another slot goes to both of these - so every submit, modify
    and cancel reaches exactly one arm, whole. *)
Theorem each_arm_serves_only_its_slots_and_venues {P A B C : Type} `{!OrderDispatch P} `{!OrderDispatch A}
  `{!OrderDispatch B} `{!OrderDispatch C} (slot bn : Z) (route : ExecRoute) (p : P) (a : A) (b : B) (c : C)
  (anchor : Clock.WallAnchor) (ops : list RouterOp) :
  Forall router_op_ok ops ->
  let r0 := boot route p (shape slot bn route a b c) anchor in
  let r := foldl run_router r0 ops in
  let x := rec_arm (rd_live r) in
  exists routed : list (Verb * Z), rec_log (rd_live r) = routed.*1 /\
    log_c x = share slot bn For_slot routed /\ log_b x = share slot bn For_venue routed /\
    log_a x = share slot bn For_rest routed /\
    forall v w, (v, w) ∈ routed -> for_venues route (eq w) v /\
      exists before op after, ops = before ++ op :: after /\ sends op v /\
        w = verb_venue (rd_aliases (foldl run_router r0 before)) v.
Proof.
  intros Ok r0 r x. destruct (arms_run slot bn route _ r0 ops Ok (boot_pending route p (shape slot bn route a b c) anchor)
    (arms_boot slot bn route _ p a b c anchor)) as [_ _ (routed & E & Ea & Eb & Ec & K)].
  exists routed. split_and!; try done. intros v w Hv. destruct (K v w Hv) as [H1 H2]. by split.
Qed.

(** In that shape, for any slot and any order its route lets it send
    live, the slot's halt signal sees the arm that order reaches: the arm's
    fault latches the slot's halt, its holds are the slot's holds, the
    slot's hold clears and its reconcile counts only when the arm's do, and
    the slot's cancel reads clear only when the arm's does. *)
Theorem a_slot_sees_every_arm_it_reaches {A B C : Type} `{!OrderDispatch A} `{!OrderDispatch B} `{!OrderDispatch C}
  (route : ExecRoute) (x : SlotSplit (VenueSplit A B) C) (k : nat) (sym venue : Z) (lim : HaltLimits) :
  covers route x -> (k < EXEC_SLOTS)%nat -> 0 <= route_venue (vs_aliases (ss_a x)) sym venue ->
  venue_allowed route (Z.of_nat k) (route_venue (vs_aliases (ss_a x)) sym venue) = true ->
  signal_ok (od_halt_signal_for k (vs_a (ss_a x))) -> signal_ok (od_halt_signal_for k (vs_b (ss_a x))) ->
  sees (od_halt_signal_for k x)
    (reached k sym venue (od_halt_signal_for k) (od_halt_signal_for k) od_halt_signal x) lim /\
  (od_cancel_slot_state k x = CA_Clear ->
   reached k sym venue (od_cancel_slot_state k) (od_cancel_slot_state k) (od_cancel_slot_state k) x = CA_Clear).
Proof. apply slot_sees. Qed.

(** ** At concrete inputs *)

Definition two_venue_route : ExecRoute :=
  (set_slot 3 Live [4; 2] caps_none limits_none (set_slot 0 Live [4] caps_none limits_none all_paper).1).1.

Definition sample_shape : SlotSplit (VenueSplit (Recorded Scripted) (Recorded Scripted)) (Recorded Scripted) :=
  shape 0 2 two_venue_route willing willing willing.

Definition shape_calls : list RouterOp :=
  [Q_seeded; Q_cancel (mkCancel 5 67108870 4 3); Q_cancel (mkCancel 6 33554432 2 3); Q_cancel (mkCancel 7 67108870 4 0)].

Lemma each_arm_serves_only_its_slots_and_venues_witness :
  let r := foldl run_router (boot two_venue_route willing sample_shape sample_anchor) shape_calls in
  let x := rec_arm (rd_live r) in
  log_a x = [V_cancel (mkCancel 5 67108870 4 3)] /\ log_b x = [V_cancel (mkCancel 6 33554432 2 3)] /\
  log_c x = [V_cancel (mkCancel 7 67108870 4 0)] /\
  exists routed, rec_log (rd_live r) = routed.*1 /\ log_b x = share 0 2 For_venue routed.
Proof.
  cbv zeta. split_and!; [vm_compute; reflexivity..|].
  destruct (each_arm_serves_only_its_slots_and_venues 0 2 two_venue_route willing willing willing willing
    sample_anchor shape_calls ltac:(repeat constructor)) as (routed & E & _ & Eb & _).
  exists routed. split; [exact E|exact Eb].
Defined.

Lemma a_slot_sees_every_arm_it_reaches_witness :
  let faulty := mkSignal 0 0 0 0 0 1 1 1 0 0 0 0 0 0 in
  let x : SlotSplit (VenueSplit Scripted Scripted) Scripted :=
    mkSlotSplit 0 (VenueSplit_new 2 willing (mkScript true CA_Working faulty [] []) two_venue_route) willing in
  fault (trigger_for (od_halt_signal_for 3 x) limits_none).
Proof.
  cbv zeta. set (faulty := mkSignal 0 0 0 0 0 1 1 1 0 0 0 0 0 0).
  set (x := mkSlotSplit 0 (VenueSplit_new 2 willing (mkScript true CA_Working faulty [] []) two_venue_route) willing).
  assert (fault (trigger_for faulty limits_none)) as Hf by (vm_compute; split_and!; (reflexivity || discriminate)).
  refine (proj1 (proj1 (a_slot_sees_every_arm_it_reaches two_venue_route x 3 33554432 2 limits_none _ _ _ _ _ _)) Hf).
  - split; [vm_compute; discriminate|reflexivity].
  - unfold EXEC_SLOTS. lia.
  - vm_compute. discriminate.
  - vm_compute. reflexivity.
  - unfold signal_ok. vm_compute. split_and!; discriminate.
  - unfold signal_ok. vm_compute. split_and!; discriminate.
Defined.
