(* ===== verification/PmRoll.v ===== *)
(** * Rolling market slots ([crates/core-types/src/pm_roll.rs])

    A market family rotates through a fixed pool of symbols, pair by pair;
    a window's roll event carries the instance id and the family byte. Two
    pools, of fifteen and of five minutes, share one venue byte. *)

From S2P Require Import Prelude CoreTypes.

(** ** The two pools *)

Definition VENUE_POLYMARKET : Z := 0.

Definition PM_ROLLING_MAX : Z := 8.
Definition PM_ROLLING_ORDINAL_BASE : Z := 4096.
Definition PM_ROLLING_STRIDE : Z := 5.
Definition PM_PAIRS : Z := 2.
Definition PM_LEG_UP : Z := 0.
Definition PM_LEG_DOWN : Z := 1.
Definition PM_OFF_MARK : Z := 4.
Definition PM_WINDOW_S : Z := 900.
Definition PM_TWAP_S : Z := 60.
Definition NS_PER_S : Z := 1000000000.

Definition PM5_ROLLING_MAX : Z := 8.
Definition PM5_ROLLING_ORDINAL_BASE : Z := 4160.
Definition PM5_PAIRS : Z := 3.
Definition PM5_OFF_MARK : Z := 6.
Definition PM5_ROLLING_STRIDE : Z := 7.
Definition PM5_WINDOW_S : Z := 300.
Definition PM5_ROLL_FAMILY_BASE : Z := PM_ROLLING_MAX * PM_PAIRS.
Definition PM5_INSTANCE_FLAG : Z := 2147483648.
Definition PM_ROLL_FAMILIES : Z := PM5_ROLL_FAMILY_BASE + PM5_ROLLING_MAX * PM5_PAIRS.

(** ** Fifteen minutes *)

Definition pm_slot_sym (family offset : Z) : Z :=
  make_symbol_id VENUE_POLYMARKET (PM_ROLLING_ORDINAL_BASE + family * PM_ROLLING_STRIDE + offset).
Definition pm_rolling_sym (family pair leg : Z) : Z := pm_slot_sym family (pair * 2 + leg).
Definition pm_mark_sym (family : Z) : Z := pm_slot_sym family PM_OFF_MARK.

Definition pm_rolling_of (sym : Z) : option (Z * Z) :=
  if negb (symbol_venue_byte sym =? VENUE_POLYMARKET) then None
  else
    let o := symbol_ordinal sym in
    if o <? PM_ROLLING_ORDINAL_BASE then None
    else
      let rel := o - PM_ROLLING_ORDINAL_BASE in
      let family := rel / PM_ROLLING_STRIDE in
      if PM_ROLLING_MAX <=? family then None else Some (family, rel mod PM_ROLLING_STRIDE).

Definition pm_pair_of_window (window : Z) : Z := Z.land window 1.
Definition pm_roll_family (family pair : Z) : Z := family * PM_PAIRS + pair.

Definition pm_instance_id (window family : Z) : option Z :=
  if (PM_ROLLING_MAX <=? family) || (u32_max / PM_ROLLING_MAX <? window) then None
  else Some (window * PM_ROLLING_MAX + family).
Definition pm_instance_parts (id : Z) : Z * Z := (id / PM_ROLLING_MAX, id mod PM_ROLLING_MAX).

Definition pm_window_of_open (open_s : Z) : option Z :=
  if negb (open_s mod PM_WINDOW_S =? 0) then None
  else let w := open_s / PM_WINDOW_S in if u32_max <? w then None else Some w.
Definition pm_window_at (t_s : Z) : Z := wrap_u32 (t_s / PM_WINDOW_S).
Definition pm_window_open_s (window : Z) : Z := window * PM_WINDOW_S.
Definition pm_window_open_ns (window : Z) : Z := window * PM_WINDOW_S * NS_PER_S.
Definition pm_window_end_ns (window : Z) : Z := (window + 1) * PM_WINDOW_S * NS_PER_S.

(** ** Five minutes *)

Definition pm5_slot_sym (family offset : Z) : Z :=
  make_symbol_id VENUE_POLYMARKET (PM5_ROLLING_ORDINAL_BASE + family * PM5_ROLLING_STRIDE + offset).
Definition pm5_rolling_sym (family pair leg : Z) : Z := pm5_slot_sym family (pair * 2 + leg).
Definition pm5_mark_sym (family : Z) : Z := pm5_slot_sym family PM5_OFF_MARK.

Definition pm5_rolling_of (sym : Z) : option (Z * Z) :=
  if negb (symbol_venue_byte sym =? VENUE_POLYMARKET) then None
  else
    let o := symbol_ordinal sym in
    if o <? PM5_ROLLING_ORDINAL_BASE then None
    else
      let rel := o - PM5_ROLLING_ORDINAL_BASE in
      let family := rel / PM5_ROLLING_STRIDE in
      if PM5_ROLLING_MAX <=? family then None else Some (family, rel mod PM5_ROLLING_STRIDE).

Definition pm5_pair_of_window (window : Z) : Z := window mod PM5_PAIRS.
Definition pm5_roll_family (family pair : Z) : Z := PM5_ROLL_FAMILY_BASE + family * PM5_PAIRS + pair.

Definition pm5_instance_id (window family : Z) : option Z :=
  if (PM5_ROLLING_MAX <=? family) || ((PM5_INSTANCE_FLAG - 1) / PM5_ROLLING_MAX <? window) then None
  else Some (Z.lor PM5_INSTANCE_FLAG (window * PM5_ROLLING_MAX + family)).

(** [!PM5_INSTANCE_FLAG] as a [u32]. *)
Definition pm5_instance_parts (id : Z) : option (Z * Z) :=
  if Z.land id PM5_INSTANCE_FLAG =? 0 then None
  else let rel := Z.land id (u32_max - PM5_INSTANCE_FLAG) in Some (rel / PM5_ROLLING_MAX, rel mod PM5_ROLLING_MAX).

Definition pm5_window_of_open (open_s : Z) : option Z :=
  if negb (open_s mod PM5_WINDOW_S =? 0) then None
  else let w := open_s / PM5_WINDOW_S in if u32_max <? w then None else Some w.
Definition pm5_window_at (t_s : Z) : Z := wrap_u32 (t_s / PM5_WINDOW_S).
Definition pm5_window_open_s (window : Z) : Z := window * PM5_WINDOW_S.
Definition pm5_window_open_ns (window : Z) : Z := window * PM5_WINDOW_S * NS_PER_S.
Definition pm5_window_end_ns (window : Z) : Z := (window + 1) * PM5_WINDOW_S * NS_PER_S.

(** ** One period for code that serves both *)

Inductive PmPeriod : Type := M15 | M5.

Definition window_s (p : PmPeriod) : Z := match p with M15 => PM_WINDOW_S | M5 => PM5_WINDOW_S end.
Definition pairs_of (p : PmPeriod) : Z := match p with M15 => PM_PAIRS | M5 => PM5_PAIRS end.
Definition max_families (p : PmPeriod) : Z := match p with M15 => PM_ROLLING_MAX | M5 => PM5_ROLLING_MAX end.
Definition rolling_sym (p : PmPeriod) : Z -> Z -> Z -> Z := match p with M15 => pm_rolling_sym | M5 => pm5_rolling_sym end.
Definition mark_sym (p : PmPeriod) : Z -> Z := match p with M15 => pm_mark_sym | M5 => pm5_mark_sym end.
Definition rolling_of (p : PmPeriod) : Z -> option (Z * Z) := match p with M15 => pm_rolling_of | M5 => pm5_rolling_of end.
Definition pair_of_window (p : PmPeriod) : Z -> Z := match p with M15 => pm_pair_of_window | M5 => pm5_pair_of_window end.
Definition roll_family_base (p : PmPeriod) : Z := match p with M15 => 0 | M5 => PM5_ROLL_FAMILY_BASE end.
Definition roll_family (p : PmPeriod) : Z -> Z -> Z := match p with M15 => pm_roll_family | M5 => pm5_roll_family end.
Definition instance_id (p : PmPeriod) : Z -> Z -> option Z := match p with M15 => pm_instance_id | M5 => pm5_instance_id end.
Definition window_of_open (p : PmPeriod) : Z -> option Z := match p with M15 => pm_window_of_open | M5 => pm5_window_of_open end.
Definition window_at (p : PmPeriod) : Z -> Z := match p with M15 => pm_window_at | M5 => pm5_window_at end.
Definition window_open_s (p : PmPeriod) : Z -> Z := match p with M15 => pm_window_open_s | M5 => pm5_window_open_s end.
Definition window_open_ns (p : PmPeriod) : Z -> Z := match p with M15 => pm_window_open_ns | M5 => pm5_window_open_ns end.
Definition window_end_ns (p : PmPeriod) : Z -> Z := match p with M15 => pm_window_end_ns | M5 => pm5_window_end_ns end.

(** The offset of the mark slot. *)
Definition off_mark (p : PmPeriod) : Z := match p with M15 => PM_OFF_MARK | M5 => PM5_OFF_MARK end.

Definition other (p : PmPeriod) : PmPeriod := match p with M15 => M5 | M5 => M15 end.

(** ** Slots *)

Lemma small_symbol o : 0 <= o <= SYMBOL_ORDINAL_MASK ->
  symbol_venue_byte (make_symbol_id VENUE_POLYMARKET o) = VENUE_POLYMARKET /\ symbol_ordinal (make_symbol_id VENUE_POLYMARKET o) = o.
Proof.
  unfold make_symbol_id, symbol_venue_byte, symbol_ordinal, VENUE_POLYMARKET, SYMBOL_VENUE_SHIFT, SYMBOL_ORDINAL_MASK. intros Ho.
  change 16777215 with (Z.ones 24). rewrite Z.shiftl_0_l, Z.lor_0_l, Z.land_ones by lia.
  rewrite (Z.mod_small o) by (change (2 ^ 24) with 16777216; lia).
  rewrite Z.land_ones, Z.mod_small by (change (2 ^ 24) with 16777216; lia). split; [|done].
  rewrite Z.shiftr_div_pow2, Z.div_small by (change (2 ^ 24) with 16777216; lia). done.
Qed.

Lemma slot_of_divmod base stride family off : 0 < stride -> 0 <= off < stride ->
  (base + family * stride + off - base) / stride = family /\ (base + family * stride + off - base) mod stride = off.
Proof.
  intros Hs Ho. replace (base + family * stride + off - base) with (off + family * stride) by lia.
  rewrite Z.div_add, Z.mod_add by lia. rewrite Z.div_small, Z.mod_small by lia. lia.
Qed.

Definition slot_sym (p : PmPeriod) : Z -> Z -> Z := match p with M15 => pm_slot_sym | M5 => pm5_slot_sym end.

Lemma slot_round_trip p family off : 0 <= family < max_families p -> 0 <= off <= off_mark p ->
  rolling_of p (slot_sym p family off) = Some (family, off) /\ rolling_of (other p) (slot_sym p family off) = None.
Proof.
  intros Hf Ho. destruct p; cbn in Hf, Ho; cbn [rolling_of slot_sym other];
    unfold pm_rolling_of, pm5_rolling_of, pm_slot_sym, pm5_slot_sym.
  - destruct (small_symbol (PM_ROLLING_ORDINAL_BASE + family * PM_ROLLING_STRIDE + off)) as [-> ->];
      [unfold SYMBOL_ORDINAL_MASK, PM_ROLLING_ORDINAL_BASE, PM_ROLLING_STRIDE, PM_ROLLING_MAX, PM_OFF_MARK in *; lia|].
    destruct (slot_of_divmod PM_ROLLING_ORDINAL_BASE PM_ROLLING_STRIDE family off) as [-> ->]; [done|unfold PM_ROLLING_STRIDE, PM_OFF_MARK in *; lia|].
    unfold PM_ROLLING_ORDINAL_BASE, PM5_ROLLING_ORDINAL_BASE, PM_ROLLING_STRIDE, PM_ROLLING_MAX, PM_OFF_MARK in *. cbn [negb Z.eqb].
    destruct (Z.ltb_spec (4096 + family * 5 + off) 4096); [lia|]. destruct (Z.leb_spec 8 family); [lia|].
    destruct (Z.ltb_spec (4096 + family * 5 + off) 4160); [done|lia].
  - destruct (small_symbol (PM5_ROLLING_ORDINAL_BASE + family * PM5_ROLLING_STRIDE + off)) as [-> ->];
      [unfold SYMBOL_ORDINAL_MASK, PM5_ROLLING_ORDINAL_BASE, PM5_ROLLING_STRIDE, PM5_ROLLING_MAX, PM5_OFF_MARK in *; lia|].
    destruct (slot_of_divmod PM5_ROLLING_ORDINAL_BASE PM5_ROLLING_STRIDE family off) as [-> ->]; [done|unfold PM5_ROLLING_STRIDE, PM5_OFF_MARK in *; lia|].
    unfold PM_ROLLING_ORDINAL_BASE, PM5_ROLLING_ORDINAL_BASE, PM_ROLLING_STRIDE, PM5_ROLLING_STRIDE, PM_ROLLING_MAX, PM5_ROLLING_MAX, PM5_OFF_MARK in *.
    cbn [negb Z.eqb]. destruct (Z.ltb_spec (4160 + family * 7 + off) 4160); [lia|]. destruct (Z.leb_spec 8 family); [lia|].
    destruct (Z.ltb_spec (4160 + family * 7 + off) 4096); [lia|].
    destruct (Z.leb_spec 8 ((4160 + family * 7 + off - 4096) / 5)) as [|Lt]; [done|].
    apply Z.lt_nge in Lt. exfalso. apply Lt. apply Z.div_le_lower_bound; lia.
Qed.

Lemma max_families_8 p : max_families p = 8.
Proof. by destruct p. Qed.

(** ** The roll word *)

Lemma pack_roll_sum outcome twap family settled :
  0 <= outcome <= u32_max -> 0 <= twap <= 65535 -> 0 <= family <= 255 ->
  pack_roll_seq outcome twap family settled =
    (if settled then 1 else 0) * 2 ^ 56 + (family * 2 ^ 48 + (twap * 2 ^ 32 + outcome)).
Proof.
  intros Ho Ht Hf. unfold pack_roll_seq, u32_max in *. change 65535 with (Z.ones 16). change 255 with (Z.ones 8).
  rewrite !Z.land_ones by lia. rewrite (Z.mod_small twap), (Z.mod_small family) by (cbn; lia).
  rewrite (Z.lor_comm outcome), lor_shiftl by (cbn; lia). rewrite (Z.lor_comm (twap * 2 ^ 32 + outcome)), lor_shiftl by (cbn; lia).
  rewrite (Z.lor_comm (family * 2 ^ 48 + _)), lor_shiftl by (cbn; lia). done.
Qed.

Lemma unpack_pack outcome twap family settled :
  0 <= outcome <= u32_max -> 0 <= twap <= 65535 -> 0 <= family <= 255 ->
  unpack_roll_seq (pack_roll_seq outcome twap family settled) = (outcome, twap, family, settled) /\
  roll_kind_strict (pack_roll_seq outcome twap family settled) = Some settled.
Proof.
  intros Ho Ht Hf. unfold unpack_roll_seq, roll_kind_strict, roll_kind. rewrite pack_roll_sum by done. unfold u32_max in Ho.
  set (k := if settled then 1 else 0). assert (0 <= k <= 1) as Hk by (destruct settled; subst k; lia).
  set (x := k * 2 ^ 56 + (family * 2 ^ 48 + (twap * 2 ^ 32 + outcome))).
  change 4294967295 with (Z.ones 32). change 65535 with (Z.ones 16). change 255 with (Z.ones 8).
  rewrite !Z.shiftr_div_pow2, !Z.land_ones by lia.
  assert (x / 2 ^ 56 = k) as E56 by (symmetry; apply (Z.div_unique _ _ _ (family * 2 ^ 48 + (twap * 2 ^ 32 + outcome))); unfold x; lia).
  assert (x / 2 ^ 48 = k * 256 + family) as E48 by (symmetry; apply (Z.div_unique _ _ _ (twap * 2 ^ 32 + outcome)); unfold x; lia).
  assert (x / 2 ^ 32 = k * 16777216 + family * 65536 + twap) as E32 by (symmetry; apply (Z.div_unique _ _ _ outcome); unfold x; lia).
  rewrite E56, E48, E32. assert (x mod 2 ^ 32 = outcome) as -> by (symmetry; apply (Z.mod_unique _ _ (k * 16777216 + family * 65536 + twap)); unfold x; lia).
  assert ((k * 16777216 + family * 65536 + twap) mod 2 ^ 16 = twap) as ->
    by (symmetry; apply (Z.mod_unique _ _ (k * 256 + family)); lia).
  assert ((k * 256 + family) mod 2 ^ 8 = family) as -> by (symmetry; apply (Z.mod_unique _ _ k); lia).
  destruct settled; subst k; done.
Qed.

Lemma lor_flag x : 0 <= x < PM5_INSTANCE_FLAG -> Z.lor PM5_INSTANCE_FLAG x = PM5_INSTANCE_FLAG + x.
Proof.
  intros Hx. unfold PM5_INSTANCE_FLAG in *. pose proof (lor_shiftl 1 x 31 ltac:(lia) ltac:(lia)) as E.
  change (Z.shiftl 1 31) with 2147483648 in E. change (1 * 2 ^ 31) with 2147483648 in E. exact E.
Qed.

Lemma land_flag b x : (b = 0 \/ b = 1) -> 0 <= x < PM5_INSTANCE_FLAG ->
  Z.land (b * PM5_INSTANCE_FLAG + x) PM5_INSTANCE_FLAG = b * PM5_INSTANCE_FLAG /\
  Z.land (b * PM5_INSTANCE_FLAG + x) (u32_max - PM5_INSTANCE_FLAG) = x.
Proof.
  intros Hb Hx. unfold PM5_INSTANCE_FLAG, u32_max in *. change (4294967295 - 2147483648) with (Z.ones 31). split.
  - replace (b * 2147483648 + x) with (Z.lor (Z.shiftl b 31) x) by (rewrite lor_shiftl; [change (2 ^ 31) with 2147483648|lia|change (2 ^ 31) with 2147483648]; lia).
    rewrite Z.land_lor_distr_l. assert (Z.land x 2147483648 = 0) as ->; [|by destruct Hb as [-> | ->]].
    apply Z.bits_inj'. intros n Hn. rewrite Z.bits_0, Z.land_spec. change 2147483648 with (2 ^ 31). rewrite Z.pow2_bits_eqb by lia.
    destruct (Z.eqb_spec 31 n) as [<-|]; [|by rewrite andb_false_r]. rewrite Z.bits_above_log2; [done|lia|].
    destruct (Z.eq_dec x 0) as [->|]; [cbn; lia|]. apply Z.log2_lt_pow2; cbn; lia.
  - rewrite Z.land_ones by lia. change (2 ^ 31) with 2147483648. symmetry. apply (Z.mod_unique _ _ b); lia.
Qed.

(** The parts of an instance id, under the period its flag bit names. *)
Definition instance_parts (id : Z) : PmPeriod * (Z * Z) :=
  match pm5_instance_parts id with Some parts => (M5, parts) | None => (M15, pm_instance_parts id) end.

(** Windows a fifteen-minute id shares no bit 31 with. *)
Definition PM_WINDOW_CLEAR : Z := 268435455.

Lemma parts_of_instance p window family id : 0 <= window <= PM_WINDOW_CLEAR -> 0 <= family < max_families p ->
  instance_id p window family = Some id -> 0 <= id <= u32_max /\ instance_parts id = (p, (window, family)).
Proof.
  rewrite max_families_8. unfold PM_WINDOW_CLEAR. intros Hw Hf. assert (0 <= window * 8 + family < PM5_INSTANCE_FLAG) as Hx by (unfold PM5_INSTANCE_FLAG; lia).
  assert ((window * 8 + family) / 8 = window /\ (window * 8 + family) mod 8 = family) as [Ed Em].
  { split; symmetry; [apply (Z.div_unique _ _ _ family)|apply (Z.mod_unique _ _ window)]; lia. }
  unfold instance_parts, pm5_instance_parts, pm_instance_parts. destruct p; cbn [instance_id];
    unfold pm_instance_id, pm5_instance_id, PM_ROLLING_MAX, PM5_ROLLING_MAX; destruct (_ || _); try done; intros [= <-].
  - destruct (land_flag 0 _ ltac:(by left) Hx) as [E _]. rewrite Z.mul_0_l, Z.add_0_l in E. rewrite E, Ed, Em.
    unfold PM5_INSTANCE_FLAG, u32_max in *. split; [lia|done].
  - rewrite lor_flag by done. destruct (land_flag 1 _ ltac:(by right) Hx) as [E1 E2]. rewrite Z.mul_1_l in *. rewrite E1, E2, Ed, Em.
    unfold PM5_INSTANCE_FLAG, u32_max in *. split; [lia|done].
Qed.

Lemma instance_exists p window family : 0 <= window <= PM_WINDOW_CLEAR -> 0 <= family < max_families p ->
  exists id, instance_id p window family = Some id.
Proof.
  rewrite max_families_8. unfold PM_WINDOW_CLEAR. intros Hw Hf. destruct p; cbn [instance_id]; unfold pm_instance_id, pm5_instance_id.
  - change (u32_max / PM_ROLLING_MAX) with 536870911. unfold PM_ROLLING_MAX. destruct (Z.leb_spec 8 family); [lia|].
    destruct (Z.ltb_spec 536870911 window); [lia|]. cbn [orb]. eauto.
  - change ((PM5_INSTANCE_FLAG - 1) / PM5_ROLLING_MAX) with 268435455. unfold PM5_ROLLING_MAX. destruct (Z.leb_spec 8 family); [lia|].
    destruct (Z.ltb_spec 268435455 window); [lia|]. cbn [orb]. eauto.
Qed.

(** The family byte names the period, the family and the pair. *)
Definition family_parts (byte : Z) : PmPeriod * (Z * Z) :=
  if byte <? PM5_ROLL_FAMILY_BASE then (M15, (byte / PM_PAIRS, byte mod PM_PAIRS))
  else (M5, ((byte - PM5_ROLL_FAMILY_BASE) / PM5_PAIRS, (byte - PM5_ROLL_FAMILY_BASE) mod PM5_PAIRS)).

Lemma parts_of_family p family pair : 0 <= family < max_families p -> 0 <= pair < pairs_of p ->
  0 <= roll_family p family pair < PM_ROLL_FAMILIES /\ family_parts (roll_family p family pair) = (p, (family, pair)).
Proof.
  rewrite max_families_8. intros Hf Hp. destruct p; cbn [pairs_of] in Hp; cbn [roll_family];
    unfold pm_roll_family, pm5_roll_family, family_parts, PM_ROLL_FAMILIES, PM5_ROLL_FAMILY_BASE, PM_PAIRS, PM5_PAIRS, PM_ROLLING_MAX, PM5_ROLLING_MAX in *;
    change (8 * 2) with 16; (split; [lia|]).
  - destruct (Z.ltb_spec (family * 2 + pair) 16); [|lia]. rewrite <- (Z.div_unique _ 2 family pair), <- (Z.mod_unique _ 2 family pair) by lia. done.
  - destruct (Z.ltb_spec (16 + family * 3 + pair) 16); [lia|].
    rewrite <- (Z.div_unique _ 3 family pair), <- (Z.mod_unique _ 3 family pair) by lia. done.
Qed.

Lemma pair_in_range p window : 0 <= window -> 0 <= pair_of_window p window < pairs_of p.
Proof.
  intros Hw. destruct p; cbn [pair_of_window pairs_of]; unfold pm_pair_of_window, pm5_pair_of_window, PM_PAIRS, PM5_PAIRS.
  - change 1 with (Z.ones 1) at 1 2. rewrite Z.land_ones by lia. change (2 ^ 1) with 2. apply Z.mod_pos_bound. lia.
  - apply Z.mod_pos_bound. lia.
Qed.

Lemma window_round_trip p window t : 0 <= window <= u32_max -> 0 <= t ->
  window_of_open p (window_open_s p window) = Some window /\
  window_end_ns p window = window_open_ns p window + window_s p * NS_PER_S /\
  (t / window_s p <= u32_max -> window_at p t = window <-> window_open_s p window <= t < window_open_s p window + window_s p).
Proof.
  intros Hw Ht.
  assert (forall len, 0 < len -> (if negb (window * len mod len =? 0) then None else if u32_max <? window * len / len then None else Some (window * len / len)) = Some window /\
    (t / len <= u32_max -> wrap_u32 (t / len) = window <-> window * len <= t < window * len + len)) as Gen.
  { intros len Hl. rewrite Z.mod_mul, Z.div_mul by lia. split; [by destruct (Z.ltb_spec u32_max window); [lia|]|].
    intros Hq. pose proof (Z.div_pos t len Ht Hl). unfold wrap_u32. rewrite Z.mod_small by (unfold u32_max in *; lia).
    pose proof (Z.div_mod t len ltac:(lia)). pose proof (Z.mod_pos_bound t len Hl). split; [intros <-; nia|].
    intros Hb. symmetry. apply (Z.div_unique _ _ _ (t - window * len)); lia. }
  destruct p; cbn [window_of_open window_open_s window_end_ns window_open_ns window_at window_s];
    unfold pm_window_of_open, pm_window_open_s, pm_window_end_ns, pm_window_open_ns, pm_window_at,
      pm5_window_of_open, pm5_window_open_s, pm5_window_end_ns, pm5_window_open_ns, pm5_window_at.
  - destruct (Gen PM_WINDOW_S eq_refl) as [A B]. split_and!; [done|lia|done].
  - destruct (Gen PM5_WINDOW_S eq_refl) as [A B]. split_and!; [done|lia|done].
Qed.

(** The roll of a market decodes to the market: its word gives back the
    instance id, the TWAP length, the family byte and the kind; the id names
    the period, window and family, the byte the family and the window's
    pair; the pair's two legs and the mark are slots of that pool and of no
    other. *)
Theorem a_roll_names_its_market p window family settled :
  0 <= window <= PM_WINDOW_CLEAR -> 0 <= family < max_families p ->
  let pair := pair_of_window p window in
  exists id, instance_id p window family = Some id /\
    let seq := pack_roll_seq id PM_TWAP_S (roll_family p family pair) settled in
    unpack_roll_seq seq = (id, PM_TWAP_S, roll_family p family pair, settled) /\ roll_kind_strict seq = Some settled /\
    instance_parts id = (p, (window, family)) /\ family_parts (roll_family p family pair) = (p, (family, pair)) /\
    (forall leg, PM_LEG_UP <= leg <= PM_LEG_DOWN ->
      rolling_of p (rolling_sym p family pair leg) = Some (family, pair * 2 + leg) /\
      rolling_of (other p) (rolling_sym p family pair leg) = None) /\
    rolling_of p (mark_sym p family) = Some (family, off_mark p) /\ rolling_of (other p) (mark_sym p family) = None /\
    window_of_open p (window_open_s p window) = Some window.
Proof.
  intros Hw Hf pair. destruct (instance_exists p window family Hw Hf) as [id Hid]. exists id. split; [done|]. cbv zeta.
  pose proof (pair_in_range p window ltac:(lia)) as Hp. fold pair in Hp.
  destruct (parts_of_instance p window family id Hw Hf Hid) as [Hi Pi]. destruct (parts_of_family p family pair Hf Hp) as [Hr Pr].
  assert (0 <= roll_family p family pair <= 255) as Hb by (change PM_ROLL_FAMILIES with 40 in Hr; lia).
  destruct (unpack_pack id PM_TWAP_S (roll_family p family pair) settled Hi ltac:(unfold PM_TWAP_S; lia) Hb) as [U K].
  assert (mark_sym p family = slot_sym p family (off_mark p)) as -> by (by destruct p).
  destruct (slot_round_trip p family (off_mark p) Hf ltac:(split; [by destruct p|lia])) as [M1 M2].
  split_and!; try done.
  - intros leg Hl. unfold PM_LEG_UP, PM_LEG_DOWN in Hl. assert (rolling_sym p family pair leg = slot_sym p family (pair * 2 + leg)) as -> by (by destruct p).
    apply slot_round_trip; [done|]. destruct p; cbn [pairs_of off_mark] in *; unfold PM_PAIRS, PM5_PAIRS, PM_OFF_MARK, PM5_OFF_MARK in *; lia.
  - destruct (window_round_trip p window 0) as [Wr _]; [unfold PM_WINDOW_CLEAR, u32_max in *; lia|lia|exact Wr].
Qed.

Lemma a_roll_names_its_market_witness :
  0 <= 5974056 <= PM_WINDOW_CLEAR /\ 0 <= 3 < max_families M5 /\
  exists id, instance_id M5 5974056 3 = Some id /\ fst (fst (fst (unpack_roll_seq (pack_roll_seq id PM_TWAP_S (roll_family M5 3 0) true)))) = id.
Proof.
  split_and!; [lia|vm_compute; discriminate|lia|vm_compute; reflexivity|].
  destruct (a_roll_names_its_market M5 5974056 3 true) as (id & E & U & _);
    [split; [lia|vm_compute; discriminate]|split; [lia|vm_compute; reflexivity]|].
  exists id. split; [exact E|]. change (pair_of_window M5 5974056) with 0 in U. by rewrite U.
Defined.
