(* ===== verification/Ladder.v ===== *)
(** * The bounded depth ladder ([crates/book-builder/src/ladder.rs])

    One price-sorted side of an order book in two fixed arrays, the two
    sides of an instrument, and the snapshot of their best levels into the
    depth carrier. The side's ordering is an interface, [PriceOrder]: the
    laws of [LadderProofs] hold of any ordering that meets it, and the bid
    and ask orderings do. *)

From S2P Require Import Prelude CoreTypes.

Definition DEPTH_LADDER_CAP : nat := 64.

(** ** What a side promises of its ordering *)

Class PriceOrder (better : Z -> Z -> bool) : Prop := {
  better_irrefl a : better a a = false;
  better_trans a b c : better a b = true -> better b c = true -> better a c = true;
  better_total a b : a <> b -> better a b = false -> better b a = true
}.

(** ** One side *)

Record LadderSide := mkLadderSide {
  ls_px : list Z;
  ls_qty : list Z;
  ls_len : nat;
  ls_beyond_cap : Z;
  ls_is_bid : bool
}.

Definition LadderSide_new (is_bid : bool) : LadderSide :=
  mkLadderSide (replicate DEPTH_LADDER_CAP 0) (replicate DEPTH_LADDER_CAP 0) 0 0 is_bid.

Definition ladder_clear (s : LadderSide) : LadderSide :=
  mkLadderSide (ls_px s) (ls_qty s) 0 0 (ls_is_bid s).

(** [a] is strictly closer to the touch than [b]. *)
Definition better (bid : bool) (a b : Z) : bool :=
  if bid then b <? a else a <? b.

#[export] Instance better_order bid : PriceOrder (better bid).
Proof. split; intros; destruct bid; cbn [better] in *; lia. Qed.

(** The scan of [set]: the update's price held at an index, or the index it
    belongs at. [k] counts the held levels still to walk. *)
Inductive Seek : Type := Held (i : nat) | Belongs (i : nat).

Fixpoint seek (bid : bool) (px_1e6 : Z) (px : list Z) (i k : nat) : Seek :=
  match k with
  | O => Belongs i
  | S k' =>
      let held := get px i in
      if held =? px_1e6 then Held i
      else if better bid px_1e6 held then Belongs i
      else seek bid px_1e6 px (S i) k'
  end.

(** [while j + 1 < n { a[j] = a[j + 1]; j += 1 }], [k] turns. *)
Fixpoint shift_left (a : list Z) (j k : nat) : list Z :=
  match k with
  | O => a
  | S k' => shift_left (<[j := get a (j + 1)]> a) (j + 1) k'
  end.

(** [while j > i { a[j] = a[j - 1]; j -= 1 }], [k] turns. *)
Fixpoint shift_right (a : list Z) (j k : nat) : list Z :=
  match k with
  | O => a
  | S k' => shift_right (<[j := get a (j - 1)]> a) (j - 1) k'
  end.

(** Open a gap at [i] by moving everything up to [last] one place on, and
    write the level there. *)
Definition place_level (px_1e6 qty_1e6 : Z) (i last len : nat) (s : LadderSide) : LadderSide :=
  mkLadderSide (<[i := px_1e6]> (shift_right (ls_px s) last (last - i)))
    (<[i := qty_1e6]> (shift_right (ls_qty s) last (last - i)))
    len (ls_beyond_cap s) (ls_is_bid s).

Definition ladder_set (px_1e6 qty_1e6 : Z) (s : LadderSide) : LadderSide :=
  let n := ls_len s in
  match seek (ls_is_bid s) px_1e6 (ls_px s) 0 n with
  | Held i =>
      if qty_1e6 =? 0
      then mkLadderSide (shift_left (ls_px s) i (n - 1 - i)) (shift_left (ls_qty s) i (n - 1 - i))
             (n - 1) (ls_beyond_cap s) (ls_is_bid s)
      else mkLadderSide (ls_px s) (<[i := qty_1e6]> (ls_qty s)) n (ls_beyond_cap s) (ls_is_bid s)
  | Belongs i =>
      if qty_1e6 =? 0 then s
      else if (n =? DEPTH_LADDER_CAP)%nat
      then if (i =? n)%nat
           then mkLadderSide (ls_px s) (ls_qty s) n (sat_u32 (ls_beyond_cap s + 1)) (ls_is_bid s)
           else place_level px_1e6 qty_1e6 i (DEPTH_LADDER_CAP - 1) n s
      else place_level px_1e6 qty_1e6 i n (n + 1) s
  end.

(** ** The carrier's best levels *)

Definition DEPTH_K : nat := 5.

Record DepthLevel := mkLevel { dl_px : Z; dl_qty : Z }.

Definition LEVEL_EMPTY : DepthLevel := mkLevel 0 0.

#[export] Instance level_eq_dec : EqDecision DepthLevel.
Proof. solve_decision. Defined.

(** Every slot of the half is written: a held level, or the empty one. *)
Definition top_k_into (s : LadderSide) : list DepthLevel :=
  let n := Nat.min (ls_len s) DEPTH_K in
  ((fun i => mkLevel (get (ls_px s) i) (get (ls_qty s) i)) <$> seq 0 n)
    ++ replicate (DEPTH_K - n) LEVEL_EMPTY.

Record DepthTopK := mkTopK {
  dk_ts_ns : Z;
  dk_sym : Z;
  dk_venue : Z;
  dk_k : nat;
  dk_flags : Z;
  dk_bids : list DepthLevel;
  dk_asks : list DepthLevel
}.

Record DepthLadder := mkLadder { dl_bids : LadderSide; dl_asks : LadderSide }.

Definition DepthLadder_new : DepthLadder := mkLadder (LadderSide_new true) (LadderSide_new false).

Definition DepthLadder_clear (l : DepthLadder) : DepthLadder :=
  mkLadder (ladder_clear (dl_bids l)) (ladder_clear (dl_asks l)).

Definition snapshot_into (ts_ns venue sym flags : Z) (l : DepthLadder) : DepthTopK :=
  mkTopK ts_ns sym venue DEPTH_K flags (top_k_into (dl_bids l)) (top_k_into (dl_asks l)).

(** The change-gated emission compare: levels and flags, not timestamps. *)
Definition levels_equal (a b : DepthTopK) : bool :=
  bool_decide (dk_bids a = dk_bids b) && bool_decide (dk_asks a = dk_asks b) && (dk_flags a =? dk_flags b).
