(* ===== verification/LadderProofs.v ===== *)
(** * What the depth ladder keeps

    The laws of a sorted, bounded list of levels for any [PriceOrder], the
    refinement of the array code to them, the reference map of the ladder's
    own property test, and how far the ladder can be trusted once it has
    dropped a level. *)

From stdpp Require Import gmap sorting.
From S2P Require Import Prelude CoreTypes Ladder.

(** ** Bounded sorted lists of levels *)

Section Levels.
Context {bet : Z -> Z -> bool} `{!PriceOrder bet}.
Implicit Types (l : list (Z * Z)).

Definition best_first l : Prop := StronglySorted (fun a b => bet a.1 b.1 = true) l.

Fixpoint put (px q : Z) l : list (Z * Z) :=
  match l with
  | [] => [(px, q)]
  | (p, q') :: r =>
      if p =? px then (px, q) :: r
      else if bet px p then (px, q) :: (p, q') :: r
      else (p, q') :: put px q r
  end.

Definition remove (px : Z) l : list (Z * Z) := filter (fun x => x.1 <> px) l.

(** One update of a side that keeps its best [DEPTH_LADDER_CAP] levels. *)
Definition set_levels (px q : Z) l : list (Z * Z) :=
  if q =? 0 then remove px l else take DEPTH_LADDER_CAP (put px q l).

(** Levels the scan of [set] walks past. *)
Definition passed (px : Z) (x : Z * Z) : Prop := x.1 <> px /\ bet px x.1 = false.

Lemma better_asym a b : bet a b = true -> bet b a = false.
Proof.
  intros H. destruct (bet b a) eqn:E; [|done]. pose proof (better_trans _ _ _ H E) as Haa.
  by rewrite better_irrefl in Haa.
Qed.

Lemma best_first_cons x l : best_first (x :: l) <-> best_first l /\ forall y, y ∈ l -> bet x.1 y.1 = true.
Proof.
  unfold best_first. split.
  - intros [H1 H2]%StronglySorted_inv. split; [done|]. by apply Forall_forall.
  - intros [H1 H2]. constructor; [done|]. by apply Forall_forall.
Qed.

Lemma best_first_app l1 l2 :
  best_first (l1 ++ l2) <->
  best_first l1 /\ best_first l2 /\ forall x y, x ∈ l1 -> y ∈ l2 -> bet x.1 y.1 = true.
Proof.
  induction l1 as [|x l1 IH]; cbn [app].
  - split; [|tauto]. intros H. split_and!; [constructor|done|set_solver].
  - rewrite !best_first_cons, IH. set_solver.
Qed.

Lemma best_first_take n l : best_first l -> best_first (take n l).
Proof. rewrite <- (take_drop n l) at 1. by intros (? & _)%best_first_app. Qed.

Lemma best_first_filter (P : Z * Z -> Prop) `{!forall x, Decision (P x)} l : best_first l -> best_first (filter P l).
Proof.
  induction l as [|x l IH]; [done|]. rewrite filter_cons. intros [H1 H2]%best_first_cons.
  destruct (decide (P x)); [|by apply IH]. apply best_first_cons. split; [by apply IH|].
  intros y [_ Hy]%list_elem_of_filter. by apply H2.
Qed.

Lemma best_first_key l x y : best_first l -> x ∈ l -> y ∈ l -> x.1 = y.1 -> x = y.
Proof.
  induction l as [|z l IH]; [set_solver|]. intros [Hs Hb]%best_first_cons Hx Hy He.
  apply elem_of_cons in Hx as [->|Hx]; apply elem_of_cons in Hy as [->|Hy]; [done|..|by apply IH].
  - specialize (Hb y Hy). by rewrite He, better_irrefl in Hb.
  - specialize (Hb x Hx). by rewrite He, better_irrefl in Hb.
Qed.

(** A set of levels has one best-first enumeration. *)
Lemma best_first_unique l1 l2 :
  best_first l1 -> best_first l2 -> (forall x, x ∈ l1 <-> x ∈ l2) -> l1 = l2.
Proof.
  revert l2. induction l1 as [|x l1 IH]; intros [|y l2] H1 H2 He.
  - done.
  - exfalso. specialize (He y). set_solver.
  - exfalso. specialize (He x). set_solver.
  - apply best_first_cons in H1 as [H1 B1]. apply best_first_cons in H2 as [H2 B2].
    assert (x = y) as <-.
    { assert (x ∈ y :: l2) as [->|Hx]%elem_of_cons by (apply He; left); [done|].
      assert (y ∈ x :: l1) as [->|Hy]%elem_of_cons by (apply He; left); [done|].
      pose proof (better_asym _ _ (B2 x Hx)) as Hn. by rewrite (B1 y Hy) in Hn. }
    f_equal. apply IH; [done..|]. intros z. split; intros Hz.
    + assert (z ∈ x :: l2) as [->|?]%elem_of_cons by (apply He; by right); [|done].
      specialize (B1 x Hz). by rewrite better_irrefl in B1.
    + assert (z ∈ x :: l1) as [->|?]%elem_of_cons by (apply He; by right); [|done].
      specialize (B2 x Hz). by rewrite better_irrefl in B2.
Qed.

(** *** [put] and [remove] *)

Lemma put_passed px q pre rest :
  Forall (passed px) pre -> put px q (pre ++ rest) = pre ++ put px q rest.
Proof.
  induction pre as [|[p q'] pre IH]; [done|]. intros [[Hp Hb] Hf]%Forall_cons. cbn [app put fst] in *.
  rewrite (proj2 (Z.eqb_neq p px)) by done. rewrite Hb. by rewrite IH.
Qed.

Lemma put_end px q l : Forall (passed px) l -> put px q l = l ++ [(px, q)].
Proof. intros H. rewrite <- (app_nil_r l) at 1. by rewrite put_passed. Qed.

Lemma put_before_last px q l w : bet px w.1 = true -> put px q (l ++ [w]) = put px q l ++ [w].
Proof.
  intros Hw. induction l as [|[p q'] l IH]; cbn [app put].
  - destruct w as [p q']. cbn [fst] in Hw. destruct (Z.eqb_spec p px) as [->|]; [by rewrite better_irrefl in Hw|].
    by rewrite Hw.
  - destruct (p =? px); [done|]. destruct (bet px p); [done|]. by rewrite IH.
Qed.

Lemma elem_of_put px q l x :
  best_first l -> x ∈ put px q l <-> x = (px, q) \/ (x.1 <> px /\ x ∈ l).
Proof.
  induction l as [|[p q'] l IH]; intros Hs; cbn [put].
  - rewrite list_elem_of_singleton. set_solver.
  - apply best_first_cons in Hs as [Hs Hb]. cbn [fst] in Hb.
    destruct (Z.eqb_spec p px) as [->|Hne].
    + rewrite !elem_of_cons. split.
      * intros [->|Hx]; [by left|right]. split; [|by right]. intros He. specialize (Hb x Hx).
        by rewrite He, better_irrefl in Hb.
      * intros [->|[Hx [->|?]]]; [by left|done|by right].
    + destruct (bet px p) eqn:E.
      * rewrite !elem_of_cons. split; [|tauto]. intros [->|[->|Hx]]; [by left|right; split; [done|by left]|].
        right. split; [|by right]. intros He. specialize (Hb x Hx). rewrite He in Hb.
        pose proof (better_asym _ _ E). congruence.
      * rewrite elem_of_cons, IH by done. rewrite elem_of_cons. split.
        -- intros [->|[->|[? ?]]]; [right; split; [done|by left]|by left|right; split; [done|by right]].
        -- intros [->|[? [->|?]]]; [right; by left|by left|right; right; done].
Qed.

Lemma best_first_put px q l : best_first l -> best_first (put px q l).
Proof.
  induction l as [|[p q'] l IH]; intros Hs; cbn [put].
  - apply best_first_cons. split; [constructor|set_solver].
  - pose proof Hs as [Hl Hb]%best_first_cons. cbn [fst] in Hb.
    destruct (Z.eqb_spec p px) as [->|Hne]; [by apply best_first_cons|].
    destruct (bet px p) eqn:E.
    + apply best_first_cons. split; [done|]. cbn [fst]. intros y [->|Hy]%elem_of_cons; [done|].
      by apply (better_trans _ p); [|apply Hb].
    + apply best_first_cons. split; [by apply IH|]. cbn [fst]. intros y Hy.
      apply (elem_of_put px q l y Hl) in Hy as [->|[_ Hy]]; [|by apply Hb].
      apply better_total; [done|done].
Qed.


Lemma length_put_le px q l : (length l <= length (put px q l) <= length l + 1)%nat.
Proof.
  induction l as [|[p q'] l IH]; cbn [put length]; [lia|].
  destruct (p =? px); [cbn [length]; lia|]. destruct (bet px p); cbn [length]; lia.
Qed.

Lemma length_put_held px q q0 l :
  best_first l -> (px, q0) ∈ l -> length (put px q l) = length l.
Proof.
  induction l as [|[p q'] l IH]; intros Hs Hin; cbn [put]; [set_solver|].
  apply best_first_cons in Hs as [Hl Hb]. cbn [fst] in Hb.
  destruct (Z.eqb_spec p px) as [->|Hne]; [done|].
  apply elem_of_cons in Hin as [Hin|Hin]; [congruence|].
  destruct (bet px p) eqn:E.
  - specialize (Hb _ Hin). cbn [fst] in Hb. by rewrite (better_asym _ _ E) in Hb.
  - cbn [length]. by rewrite IH.
Qed.

Lemma elem_of_remove px l x : x ∈ remove px l <-> x.1 <> px /\ x ∈ l.
Proof. unfold remove. by rewrite list_elem_of_filter. Qed.

Lemma remove_id px l : Forall (fun x => x.1 <> px) l -> remove px l = l.
Proof. apply filter_all. Qed.

Lemma remove_held px q pre rest :
  best_first (pre ++ (px, q) :: rest) -> remove px (pre ++ (px, q) :: rest) = pre ++ rest.
Proof.
  intros (_ & [Hr Hb]%best_first_cons & Hp)%best_first_app. unfold remove.
  rewrite filter_app, filter_cons_False by (cbn [fst]; tauto).
  rewrite !filter_all; [done|..]; apply Forall_forall; intros x Hx He.
  - specialize (Hb x Hx). cbn [fst] in Hb. by rewrite He, better_irrefl in Hb.
  - specialize (Hp x (px, q) Hx ltac:(left)). cbn [fst] in Hp. by rewrite He, better_irrefl in Hp.
Qed.

Lemma remove_absent px pre rest :
  Forall (passed px) pre -> best_first (pre ++ rest) ->
  (forall x r, rest = x :: r -> x.1 <> px /\ bet px x.1 = true) -> remove px (pre ++ rest) = pre ++ rest.
Proof.
  intros Hp Hs Hr. apply remove_id, Forall_app. split.
  - eapply Forall_impl; [exact Hp|]. intros x []; done.
  - apply best_first_app in Hs as (_ & Hs & _). destruct rest as [|x r]; [constructor|].
    destruct (Hr x r eq_refl) as [Hne Hbx]. apply best_first_cons in Hs as [_ Hs]. constructor; [done|].
    apply Forall_forall. intros y Hy He. specialize (Hs y Hy). rewrite He in Hs.
    by rewrite (better_asym _ _ Hbx) in Hs.
Qed.

Lemma best_first_set px q l : best_first l -> best_first (set_levels px q l).
Proof.
  intros H. unfold set_levels. destruct (q =? 0).
  - by apply best_first_filter.
  - by apply best_first_take, best_first_put.
Qed.

Lemma length_set px q l :
  (length l <= DEPTH_LADDER_CAP)%nat -> (length (set_levels px q l) <= DEPTH_LADDER_CAP)%nat.
Proof.
  intros H. unfold set_levels. destruct (q =? 0); [|rewrite length_take; lia].
  etrans; [apply length_filter|done].
Qed.

(** On a full side a new price either is refused or pushes the worst out. *)
Lemma put_full px q l w :
  best_first (l ++ [w]) -> (forall q0, (px, q0) ∉ l ++ [w]) ->
  (bet px w.1 = true /\ put px q (l ++ [w]) = put px q l ++ [w] /\ length (put px q l) = S (length l)) \/
  (bet px w.1 = false /\ put px q (l ++ [w]) = l ++ [w] ++ [(px, q)]).
Proof.
  intros Hs Hn. pose proof Hs as (Hl & _ & Hlw)%best_first_app.
  destruct (bet px w.1) eqn:E; [left|right]; split; [done| |done|].
  - split; [by apply put_before_last|].
    assert (Hk : forall q0, (px, q0) ∉ l) by (intros q0 Hq; apply (Hn q0); set_solver). clear Hn Hs Hlw E.
    induction l as [|[p q'] l IH]; [done|]. cbn [put]. apply best_first_cons in Hl as [Hl _].
    destruct (Z.eqb_spec p px) as [->|]; [exfalso; apply (Hk q'); left|].
    destruct (bet px p); [done|]. cbn [length]. rewrite IH; [done..|]. intros q0 Hq. apply (Hk q0). by right.
  - rewrite app_assoc. apply put_end, Forall_app. split; [apply Forall_forall|apply Forall_singleton].
    + intros x Hx. split.
      * intros <-. apply (Hn x.2). rewrite <- surjective_pairing. set_solver.
      * specialize (Hlw x w Hx ltac:(set_solver)). destruct (bet px x.1) eqn:F; [|done].
        by rewrite (better_trans _ _ _ F Hlw) in E.
    + split; [|done]. intros <-. apply (Hn w.2). rewrite <- surjective_pairing. set_solver.
Qed.

End Levels.

(** ** The arrays hold such a list *)

Definition live (s : LadderSide) : list (Z * Z) :=
  zip (take (ls_len s) (ls_px s)) (take (ls_len s) (ls_qty s)).

Record shape (s : LadderSide) : Prop := {
  so_px : length (ls_px s) = DEPTH_LADDER_CAP;
  so_qty : length (ls_qty s) = DEPTH_LADDER_CAP;
  so_len : (ls_len s <= DEPTH_LADDER_CAP)%nat
}.

Definition side_ok (s : LadderSide) : Prop :=
  shape s /\ best_first (bet := better (ls_is_bid s)) (live s).

Lemma get_Some l i x : l !! i = Some x -> get l i = x.
Proof. intros H. unfold get. by rewrite H. Qed.

Lemma lookup_get l i : (i < length l)%nat -> l !! i = Some (get l i).
Proof. intros H. destruct (lookup_lt_is_Some_2 l i H) as [x Hx]. by rewrite Hx, (get_Some _ _ _ Hx). Qed.

Lemma shift_left_lookup a j k m :
  (j + k < length a)%nat ->
  shift_left a j k !! m = if decide (j <= m < j + k)%nat then a !! (m + 1)%nat else a !! m.
Proof.
  revert a j. induction k as [|k IH]; intros a j H; cbn [shift_left]; [by rewrite decide_False by lia|].
  rewrite IH by (rewrite length_insert; lia).
  destruct (decide (m = j)) as [->|].
  - rewrite decide_False, decide_True, list_lookup_insert_eq by lia. by rewrite lookup_get by lia.
  - destruct (decide (j + 1 <= m < j + 1 + k)%nat).
    + by rewrite decide_True, list_lookup_insert_ne by lia.
    + by rewrite decide_False, list_lookup_insert_ne by lia.
Qed.

Lemma shift_right_lookup a j k m :
  (k <= j < length a)%nat ->
  shift_right a j k !! m = if decide (j - k < m <= j)%nat then a !! (m - 1)%nat else a !! m.
Proof.
  revert a j. induction k as [|k IH]; intros a j H; cbn [shift_right]; [by rewrite decide_False by lia|].
  rewrite IH by (rewrite length_insert; lia).
  destruct (decide (m = j)) as [->|].
  - rewrite decide_False, decide_True, list_lookup_insert_eq by lia. by rewrite lookup_get by lia.
  - destruct (decide (j - 1 - k < m <= j - 1)%nat).
    + by rewrite decide_True, list_lookup_insert_ne by lia.
    + by rewrite decide_False, list_lookup_insert_ne by lia.
Qed.

Lemma length_shift_left a j k : length (shift_left a j k) = length a.
Proof. revert a j. induction k as [|k IH]; intros; cbn [shift_left]; [done|]. by rewrite IH, length_insert. Qed.

Lemma length_shift_right a j k : length (shift_right a j k) = length a.
Proof. revert a j. induction k as [|k IH]; intros; cbn [shift_right]; [done|]. by rewrite IH, length_insert. Qed.

(** Deleting a level closes its gap; placing one opens it. *)
Lemma closed_gap a i n :
  (i < n <= length a)%nat ->
  take (n - 1) (shift_left a i (n - 1 - i)) = take i a ++ take (n - 1 - i) (drop (i + 1) a).
Proof.
  intros H. apply list_eq. intros m. rewrite lookup_take, shift_left_lookup by lia.
  destruct (decide (m < i)%nat).
  - rewrite lookup_app_l by (rewrite length_take; lia). rewrite lookup_take_lt by lia.
    by rewrite decide_True, decide_False by lia.
  - rewrite lookup_app_r by (rewrite length_take; lia). rewrite length_take, lookup_take, lookup_drop.
    replace (i `min` length a)%nat with i by lia. destruct (decide (m < n - 1)%nat).
    + rewrite !decide_True by lia. f_equal. lia.
    + by rewrite decide_False by lia.
Qed.

Lemma opened_gap a i m x :
  (i <= m < length a)%nat ->
  take (m + 1) (<[i := x]> (shift_right a m (m - i))) = take i a ++ x :: take (m - i) (drop i a).
Proof.
  intros H. apply list_eq. intros j. rewrite lookup_take. destruct (decide (j = i)) as [->|Hne].
  - rewrite decide_True by lia. rewrite list_lookup_insert_eq by (rewrite length_shift_right; lia).
    by rewrite list_lookup_middle by (rewrite length_take; lia).
  - rewrite list_lookup_insert_ne, shift_right_lookup by lia. destruct (decide (j < i)%nat).
    + rewrite lookup_app_l by (rewrite length_take; lia). rewrite lookup_take_lt by lia.
      by rewrite decide_True, decide_False by lia.
    + rewrite lookup_app_r by (rewrite length_take; lia). rewrite length_take, lookup_cons.
      destruct (j - i `min` length a)%nat eqn:E; [lia|]. rewrite lookup_take, lookup_drop.
      destruct (decide (j < m + 1)%nat).
      * rewrite !decide_True by lia. f_equal. lia.
      * by rewrite decide_False by lia.
Qed.

Definition levels (s : LadderSide) : list (Z * Z) := zip (ls_px s) (ls_qty s).

Lemma live_take s : live s = take (ls_len s) (levels s).
Proof. unfold live, levels. by rewrite zip_with_take. Qed.

(** The scan: everything before its answer was walked past. *)
Lemma seek_spec bid px a i k :
  (i + k <= length a)%nat ->
  exists j, (i <= j <= i + k)%nat /\
    (forall m, (i <= m < j)%nat -> get a m <> px /\ better bid px (get a m) = false) /\
    ((seek bid px a i k = Held j /\ (j < i + k)%nat /\ get a j = px) \/
     (seek bid px a i k = Belongs j /\ ((j < i + k)%nat -> get a j <> px /\ better bid px (get a j) = true))).
Proof.
  revert i. induction k as [|k IH]; intros i H; cbn [seek].
  - exists i. split_and!; [lia|lia|lia|]. right. split; [done|lia].
  - destruct (Z.eqb_spec (get a i) px) as [He|He].
    { exists i. split_and!; [lia..|]. left. split_and!; [done|lia|done]. }
    destruct (better bid px (get a i)) eqn:E.
    { exists i. split_and!; [lia..|]. right. done. }
    destruct (IH (S i) ltac:(lia)) as (j & Hj & Hp & Hc). exists j. split_and!; [lia|lia| |].
    + intros m Hm. destruct (decide (m = i)) as [->|]; [done|]. apply Hp. lia.
    + replace (i + S k)%nat with (S i + k)%nat by lia. done.
Qed.

(** The side split where the scan stopped. *)
Lemma live_split s j : (j <= ls_len s)%nat -> live s = take j (levels s) ++ take (ls_len s - j) (drop j (levels s)).
Proof. intros H. rewrite live_take, take_take_drop. f_equal. lia. Qed.

Lemma levels_at s j :
  shape s -> (j < DEPTH_LADDER_CAP)%nat -> levels s !! j = Some (get (ls_px s) j, get (ls_qty s) j).
Proof.
  intros [Hp Hq _] H. unfold levels. apply lookup_zip_with_Some.
  exists (get (ls_px s) j), (get (ls_qty s) j). split_and!; [done|apply lookup_get; lia..].
Qed.

Lemma live_at s j :
  shape s -> (j < ls_len s)%nat ->
  live s = take j (levels s) ++ (get (ls_px s) j, get (ls_qty s) j) :: take (ls_len s - 1 - j) (drop (j + 1) (levels s)).
Proof.
  intros Hs H. pose proof (so_len s Hs). rewrite (live_split s j) by lia.
  rewrite (drop_S _ _ _ (levels_at s j Hs ltac:(lia))). destruct (ls_len s - j)%nat eqn:E; [lia|].
  cbn [take]. replace (S j) with (j + 1)%nat by lia. do 3 f_equal. lia.
Qed.

Lemma passed_prefix s px j :
  shape s -> (j <= ls_len s)%nat ->
  (forall m, (0 <= m < j)%nat -> get (ls_px s) m <> px /\ better (ls_is_bid s) px (get (ls_px s) m) = false) ->
  Forall (passed (bet := better (ls_is_bid s)) px) (take j (levels s)).
Proof.
  intros Hs Hj Hp. pose proof (so_len s Hs). apply Forall_lookup. intros m x Hx.
  apply lookup_take_Some in Hx as [Hx Hm]. rewrite levels_at in Hx by (done || lia). injection Hx as <-.
  apply Hp. lia.
Qed.

Lemma length_levels s : shape s -> length (levels s) = DEPTH_LADDER_CAP.
Proof. intros [Hp Hq _]. unfold levels. rewrite length_zip. lia. Qed.

Lemma length_live s : shape s -> length (live s) = ls_len s.
Proof. intros Hs. rewrite live_take, length_take, length_levels by done. pose proof (so_len s Hs). lia. Qed.

Lemma live_placed px q i last len s :
  shape s -> (i <= last)%nat -> (last < DEPTH_LADDER_CAP)%nat -> len = (last + 1)%nat ->
  live (place_level px q i last len s) = take i (levels s) ++ (px, q) :: take (last - i) (drop i (levels s)).
Proof.
  intros [Hp Hq _] Hi Hl ->. unfold live, place_level. cbn [ls_len ls_px ls_qty].
  rewrite !opened_gap by lia. unfold levels. rewrite zip_with_take, zip_with_drop, zip_with_take.
  rewrite zip_with_app by (rewrite !length_take; lia). done.
Qed.

Lemma live_deleted s i :
  shape s -> (i < ls_len s)%nat ->
  zip (take (ls_len s - 1) (shift_left (ls_px s) i (ls_len s - 1 - i)))
      (take (ls_len s - 1) (shift_left (ls_qty s) i (ls_len s - 1 - i))) =
  take i (levels s) ++ take (ls_len s - 1 - i) (drop (i + 1) (levels s)).
Proof.
  intros [Hp Hq Hn] Hi. rewrite !closed_gap by lia. unfold levels.
  rewrite zip_with_take, zip_with_drop, zip_with_take.
  by rewrite zip_with_app by (rewrite !length_take; lia).
Qed.

Lemma live_replaced s j q :
  shape s -> (j < ls_len s)%nat ->
  live (mkLadderSide (ls_px s) (<[j := q]> (ls_qty s)) (ls_len s) (ls_beyond_cap s) (ls_is_bid s)) =
  take j (levels s) ++ (get (ls_px s) j, q) :: take (ls_len s - 1 - j) (drop (j + 1) (levels s)).
Proof.
  intros [Hp Hq Hn] Hj. rewrite (live_at _ j); [|split; cbn [ls_px ls_qty ls_len]; rewrite ?length_insert; lia|done].
  unfold levels. cbn [ls_px ls_qty ls_len]. rewrite !zip_with_take, !zip_with_drop, !zip_with_take.
  rewrite take_insert_ge, drop_insert_lt by lia. unfold get at 2. by rewrite list_lookup_insert_eq by lia.
Qed.

(** The level opened at the scan's stop is where [put] opens it. *)
Lemma put_at_stop s px q j :
  shape s -> (j <= ls_len s)%nat ->
  Forall (passed (bet := better (ls_is_bid s)) px) (take j (levels s)) ->
  ((j < ls_len s)%nat -> get (ls_px s) j <> px /\ better (ls_is_bid s) px (get (ls_px s) j) = true) ->
  put (bet := better (ls_is_bid s)) px q (live s) =
  take j (levels s) ++ (px, q) :: take (ls_len s - j) (drop j (levels s)).
Proof.
  intros Hs Hj HF Hb. rewrite (live_split s j Hj), put_passed by done. f_equal.
  destruct (decide (j < ls_len s)%nat) as [Hlt|].
  - destruct (Hb Hlt) as [Hne Hbt]. pose proof (so_len s Hs).
    rewrite (drop_S _ _ _ (levels_at s j Hs ltac:(lia))). destruct (ls_len s - j)%nat eqn:E; [lia|].
    cbn [take put]. rewrite (proj2 (Z.eqb_neq _ _) Hne). by rewrite Hbt.
  - replace (ls_len s - j)%nat with 0%nat by lia. by rewrite take_0.
Qed.

(** The arrays after one update hold what the bounded list does. *)
Lemma set_refines s px q :
  side_ok s ->
  live (ladder_set px q s) = set_levels (bet := better (ls_is_bid s)) px q (live s) /\
  ls_is_bid (ladder_set px q s) = ls_is_bid s /\ shape (ladder_set px q s).
Proof.
  intros [Hs Hsort]. pose proof Hs as [Hp Hq Hn].
  destruct (seek_spec (ls_is_bid s) px (ls_px s) 0 (ls_len s) ltac:(lia)) as (j & [_ Hj] & Hpass & Hc).
  cbn [Nat.add] in Hj, Hc. pose proof (passed_prefix s px j Hs Hj Hpass) as HF.
  unfold ladder_set, set_levels. destruct Hc as [(-> & Hlt & Heq)|(-> & Hb)].
  - pose proof (live_at s j Hs Hlt) as Hl. rewrite Heq in Hl.
    destruct (Z.eqb_spec q 0) as [->|Hq0]; cbn [ls_is_bid].
    + split_and!; [|done|split; cbn [ls_px ls_qty ls_len]; rewrite ?length_shift_left; lia].
      rewrite Hl in Hsort |- *. rewrite remove_held by done. by rewrite <- live_deleted.
    + split_and!; [|done|split; cbn [ls_px ls_qty ls_len]; rewrite ?length_insert; lia].
      rewrite live_replaced, Heq by done. rewrite Hl, put_passed by done. cbn [put]. rewrite Z.eqb_refl.
      symmetry. apply take_ge. apply (f_equal length) in Hl. rewrite length_live in Hl by done.
      rewrite length_app in Hl |- *. cbn [length] in *. lia.
  - destruct (Z.eqb_spec q 0) as [->|Hq0].
    { split_and!; [|done|done]. symmetry. rewrite (live_split s j Hj) in Hsort |- *.
      apply remove_absent; [done..|]. intros x r Hx. destruct (decide (j < ls_len s)%nat) as [Hlt|].
      - rewrite (drop_S _ _ _ (levels_at s j Hs ltac:(lia))) in Hx.
        destruct (ls_len s - j)%nat eqn:E; [lia|]. injection Hx as <- <-. by apply Hb.
      - replace (ls_len s - j)%nat with 0%nat in Hx by lia. by rewrite take_0 in Hx. }
    rewrite (put_at_stop s px q j) by done. destruct (Nat.eqb_spec (ls_len s) DEPTH_LADDER_CAP) as [Hf|Hf].
    + rewrite Hf. destruct (Nat.eqb_spec j DEPTH_LADDER_CAP) as [->|Hjn]; cbn [ls_is_bid].
      * split_and!; [|done|split; cbn [ls_px ls_qty ls_len]; lia].
        rewrite take_app_le by (rewrite length_take, length_levels; (lia || done)).
        rewrite take_take, Nat.min_id. unfold live. cbn [ls_px ls_qty ls_len]. rewrite <- zip_with_take. done.
      * split_and!; [|done|split; cbn [place_level ls_px ls_qty ls_len]; rewrite ?length_insert, ?length_shift_right; lia].
        rewrite live_placed by (done || lia). rewrite take_app_ge by (rewrite length_take, length_levels; (lia || done)).
        f_equal. rewrite length_take, length_levels by done. replace (DEPTH_LADDER_CAP - j `min` DEPTH_LADDER_CAP)%nat
          with (S (DEPTH_LADDER_CAP - 1 - j)) by lia. cbn [take]. f_equal. rewrite take_take. f_equal. lia.
    + split_and!; [|done|split; cbn [place_level ls_px ls_qty ls_len]; rewrite ?length_insert, ?length_shift_right; lia].
      rewrite live_placed by (done || lia). symmetry. apply take_ge.
      rewrite length_app. cbn [length]. rewrite !length_take, length_drop, length_levels by done. lia.
Qed.

(** ** Sequences of updates *)

Inductive LadderOp : Type := L_set (px q : Z) | L_clear.

Definition run_side (s : LadderSide) (op : LadderOp) : LadderSide :=
  match op with L_set px q => ladder_set px q s | L_clear => ladder_clear s end.

Lemma live_clear s : live (ladder_clear s) = [].
Proof. done. Qed.

Lemma side_ok_step s op : side_ok s -> side_ok (run_side s op) /\ ls_is_bid (run_side s op) = ls_is_bid s.
Proof.
  intros Hs. pose proof Hs as [[Hp Hq Hn] Hb]. destruct op as [px q|]; cbn [run_side].
  - destruct (set_refines s px q Hs) as (Hl & Hi & Hsh). split; [|done]. split; [done|].
    rewrite Hi, Hl. by apply best_first_set.
  - split; [|done]. split; [split; cbn [ladder_clear ls_px ls_qty ls_len]; lia|].
    rewrite live_clear. constructor.
Qed.

Lemma side_ok_new bid : side_ok (LadderSide_new bid).
Proof. split; [split; cbn [LadderSide_new ls_px ls_qty ls_len]; rewrite ?length_replicate; lia|constructor]. Qed.

Definition run_ops (bid : bool) (ops : list LadderOp) : LadderSide := foldl run_side (LadderSide_new bid) ops.

Lemma run_ops_ok bid ops : side_ok (run_ops bid ops) /\ ls_is_bid (run_ops bid ops) = bid.
Proof.
  unfold run_ops. apply (foldl_keeps (fun s => side_ok s /\ ls_is_bid s = bid)).
  - intros s op _ [Hs <-]. by apply side_ok_step.
  - split; [apply side_ok_new|done].
Qed.

(** The carrier half a best-first list of levels makes. *)
Definition carrier (l : list (Z * Z)) : list DepthLevel :=
  ((fun x => mkLevel x.1 x.2) <$> take DEPTH_K l) ++ replicate (DEPTH_K - length (take DEPTH_K l)) LEVEL_EMPTY.

Lemma top_k_carries s : shape s -> top_k_into s = carrier (live s).
Proof.
  intros Hs. pose proof (length_live s Hs) as Hl. pose proof (so_len s Hs). unfold top_k_into, carrier.
  rewrite length_take, Hl, Nat.min_comm. f_equal. apply list_eq. intros i.
  rewrite !list_lookup_fmap, lookup_take, live_take, lookup_take.
  destruct (decide (i < DEPTH_K `min` ls_len s)%nat).
  - rewrite lookup_seq_lt by lia. rewrite !decide_True by lia. by rewrite levels_at by (done || lia).
  - rewrite lookup_seq_ge by lia. repeat case_decide; done || lia.
Qed.

(** ** The reference map of the ladder's property test *)

Section Reference.
Context (bid : bool).
#[local] Abbreviation bet := (better bid).

(** The last key of the map in the side's order. *)
Definition worst (m : gmap Z Z) : option Z :=
  foldr (fun x acc => match acc with
                      | None => Some x.1
                      | Some w => Some (if bet w x.1 then x.1 else w)
                      end) None (map_to_list m).

Definition model_apply (m : gmap Z Z) (op : LadderOp) : gmap Z Z :=
  match op with
  | L_clear => ∅
  | L_set px q =>
      if q =? 0 then delete px m
      else if (size m =? DEPTH_LADDER_CAP)%nat && bool_decide (m !! px = None)
      then match worst m with
           | Some w => if bet px w then <[px := q]> (delete w m) else m
           | None => <[px := q]> m
           end
      else <[px := q]> m
  end.

(** A best-first list that lists a map. *)
Definition lists (l : list (Z * Z)) (m : gmap Z Z) : Prop :=
  best_first (bet := bet) l /\ forall x, x ∈ l <-> m !! x.1 = Some x.2.

Lemma lists_perm l m : lists l m -> l ≡ₚ map_to_list m.
Proof.
  intros [Hs He]. apply NoDup_Permutation; [|apply NoDup_map_to_list|].
  - clear He. induction l as [|x l IH]; constructor.
    + apply best_first_cons in Hs as [_ Hb]. intros Hx. specialize (Hb x Hx). by rewrite better_irrefl in Hb.
    + apply best_first_cons in Hs as [Hs _]. by apply IH.
  - intros [k v]. rewrite elem_of_map_to_list. apply He.
Qed.

Lemma lists_size l m : lists l m -> size m = length l.
Proof. intros H. by rewrite (lists_perm l m H), length_map_to_list. Qed.

Lemma lists_of_perm l m : best_first (bet := bet) l -> l ≡ₚ map_to_list m -> lists l m.
Proof. intros Hs Hp. split; [done|]. intros [k v]. by rewrite Hp, elem_of_map_to_list. Qed.

Lemma worst_last l w m : lists (l ++ [w]) m -> worst m = Some w.1.
Proof.
  intros Hl. pose proof (lists_perm _ _ Hl) as Hp. destruct Hl as [Hs _].
  apply best_first_app in Hs as (_ & _ & Hb). unfold worst.
  assert (Hin : w ∈ map_to_list m) by (rewrite <- Hp; set_solver).
  assert (Hle : forall x, x ∈ map_to_list m -> x = w \/ bet x.1 w.1 = true).
  { intros x. rewrite <- Hp. rewrite elem_of_app, list_elem_of_singleton. intros [Hx| ->]; [|by left].
    right. apply Hb; [done|by left]. }
  clear Hp Hb. induction (map_to_list m) as [|x r IH]; [set_solver|]. cbn [foldr].
  assert (Hr : r = [] \/ exists y, foldr (fun x acc => match acc with None => Some x.1
     | Some w => Some (if bet w x.1 then x.1 else w) end) None r = Some y /\ exists q, (y, q) ∈ r).
  { clear. induction r as [|z r IH]; [by left|right]. cbn [foldr]. destruct IH as [->|(y & -> & q & Hq)].
    - exists z.1. split; [done|]. exists z.2. rewrite <- surjective_pairing. left.
    - destruct (bet y z.1); eexists; (split; [done|]).
      + exists z.2. rewrite <- surjective_pairing. left.
      + exists q. by right. }
  apply elem_of_cons in Hin as [<-|Hin].
  - destruct Hr as [->|(y & -> & q & Hq)]; [done|]. destruct (Hle (y, q) ltac:(by right)) as [<-|Hy]; cbn [fst] in *.
    + by rewrite better_irrefl.
    + by rewrite Hy.
  - rewrite IH by (done || (intros y Hy; apply Hle; by right)). f_equal.
    destruct (Hle x ltac:(left)) as [->|Hx]; [by rewrite better_irrefl|]. by rewrite (better_asym _ _ Hx).
Qed.

Lemma lists_held l m px q : lists l m -> m !! px = Some q <-> (px, q) ∈ l.
Proof. intros [_ He]. by rewrite (He (px, q)). Qed.

Lemma lists_put l m px q :
  lists l m -> lists (put (bet := bet) px q l) (<[px := q]> m).
Proof.
  intros [Hs He]. split; [by apply best_first_put|]. intros x. rewrite elem_of_put, He by done.
  rewrite lookup_insert. case_decide as Hx.
  - split; [|intros Hq; injection Hq as ->; left; subst; apply surjective_pairing]. intros [->|[? ?]]; [done|congruence].
  - split; [|right; done]. intros [->|[? ?]]; [done|done].
Qed.

Lemma lists_remove l m px : lists l m -> lists (remove px l) (delete px m).
Proof.
  intros [Hs He]. split; [by apply best_first_filter|]. intros x. rewrite elem_of_remove, He.
  rewrite lookup_delete. case_decide; [naive_solver|naive_solver].
Qed.
(** One update of the bounded list is one update of the reference. *)
Lemma lists_step l m px q :
  lists l m -> (length l <= DEPTH_LADDER_CAP)%nat ->
  lists (set_levels (bet := bet) px q l) (model_apply m (L_set px q)).
Proof.
  intros Hl Hlen. pose proof (lists_size l m Hl) as Hsz. unfold set_levels. cbn [model_apply].
  destruct (q =? 0); [by apply lists_remove|].
  destruct (m !! px) as [q0|] eqn:Hpx.
  { rewrite bool_decide_eq_false_2, andb_false_r by done.
    rewrite take_ge; [by apply lists_put|]. apply (lists_held l m) in Hpx; [|done].
    rewrite (length_put_held _ _ q0) by (done || apply Hl). done. }
  rewrite bool_decide_eq_true_2, andb_true_r by done. destruct (Nat.eqb_spec (size m) DEPTH_LADDER_CAP) as [Hf|Hf].
  - destruct l as [|w l _] using rev_ind; [cbn [length] in Hsz; rewrite Hsz in Hf; discriminate|].
    rewrite (worst_last l w m Hl). rewrite length_app in *. cbn [length] in *.
    destruct (put_full (bet := bet) px q l w (proj1 Hl)) as [(-> & -> & Hn)|(-> & ->)].
    + intros q0 Hin. apply (lists_held _ m) in Hin; [congruence|done].
    + rewrite take_app_le, take_ge by lia. apply lists_put.
      replace l with (remove w.1 (l ++ [w])) at 1; [by apply lists_remove|].
      destruct w as [wp wq]. cbn [fst]. rewrite remove_held by apply Hl. apply app_nil_r.
    + rewrite app_assoc, take_app_le, take_ge by (rewrite ?length_app; cbn [length]; lia). done.
  - rewrite take_ge; [by apply lists_put|]. pose proof (length_put_le (bet := bet) px q l). lia.
Qed.

Definition run_ref (ops : list LadderOp) : gmap Z Z := foldl model_apply ∅ ops.

Lemma ladder_lists_reference ops : lists (live (run_ops bid ops)) (run_ref ops).
Proof.
  induction ops as [|op ops IH] using rev_ind.
  - split; [constructor|]. intros x. unfold run_ops, run_ref. cbn [foldl]. rewrite lookup_empty. set_solver.
  - destruct (run_ops_ok bid ops) as [Hs Hb]. unfold run_ops, run_ref in *. rewrite !foldl_snoc.
    destruct op as [px q|]; cbn [run_side].
    + destruct (set_refines _ px q Hs) as (-> & _ & _). rewrite Hb. apply lists_step; [done|].
      rewrite length_live by apply Hs. apply Hs.
    + rewrite live_clear. split; [constructor|]. intros x. cbn [model_apply]. rewrite lookup_empty. set_solver.
Qed.
End Reference.

(** C33. After any updates and clears the array ladder holds exactly the
    levels of the reference map that drops its worst key when a better one
    arrives at 64, best first, and its carrier half is their first five,
    padded with empty levels. *)
Theorem ladder_is_the_reference_book (bid : bool) (ops : list LadderOp) :
  let s := run_ops bid ops in
  let m := run_ref bid ops in
  ls_len s = size m /\ (ls_len s <= DEPTH_LADDER_CAP)%nat /\
  exists lv, lv ≡ₚ map_to_list m /\ best_first (bet := better bid) lv /\ top_k_into s = carrier lv.
Proof.
  cbv zeta. pose proof (ladder_lists_reference bid ops) as Hl. destruct (run_ops_ok bid ops) as [[Hs _] _].
  split_and!; [by rewrite (lists_size _ _ _ Hl), length_live|apply Hs|].
  exists (live (run_ops bid ops)). split_and!; [by apply (lists_perm bid)|apply Hl|by apply top_k_carries].
Qed.

(** ** How far a ladder that dropped levels can be trusted *)

Section Trust.
Context (bid : bool).
#[local] Abbreviation bet := (better bid).

(** The venue's whole book: what an unbounded side would hold. *)
Definition full_apply (m : gmap Z Z) (op : LadderOp) : gmap Z Z :=
  match op with
  | L_clear => ∅
  | L_set px q => if q =? 0 then delete px m else <[px := q]> m
  end.

Definition run_book (ops : list LadderOp) : gmap Z Z := foldl full_apply ∅ ops.

(** How many held levels deletes have taken off the ladder since it was
    last cleared. *)
Definition shed_step (st : LadderSide * nat) (op : LadderOp) : LadderSide * nat :=
  let s' := run_side st.1 op in
  (s', match op with L_clear => 0%nat | L_set _ _ => (st.2 + (ls_len st.1 - ls_len s'))%nat end).

Definition shed (ops : list LadderOp) : nat := (foldl shed_step (LadderSide_new bid, 0%nat) ops).2.

Definition above (h : Z) (l : list (Z * Z)) : list (Z * Z) := filter (fun x => bet x.1 h = true) l.

(** Above the best price ever dropped the ladder is the book, and it still
    holds all but [d] of the levels it held when it dropped it. *)
Definition trusted (h : option Z) (l : list (Z * Z)) (m : gmap Z Z) (d : nat) : Prop :=
  match h with
  | None => lists bid l m
  | Some h =>
      best_first (bet := bet) l /\
      (forall x, bet x.1 h = true -> x ∈ l <-> m !! x.1 = Some x.2) /\
      (DEPTH_LADDER_CAP <= length (above h l) + d)%nat
  end.

Lemma above_put h px q l : (length (above h l) <= length (above h (put (bet := bet) px q l)))%nat.
Proof.
  unfold above. induction l as [|[p q'] l IH]; cbn [put]; [cbn; lia|].
  destruct (Z.eqb_spec p px) as [->|].
  - rewrite !filter_cons. cbn [fst]. repeat case_decide; cbn [length]; lia.
  - destruct (bet px p); rewrite !filter_cons; cbn [fst]; repeat case_decide; cbn [length]; lia.
Qed.

Lemma above_remove h px l :
  (length (above h l) + length (remove px l) <= length (above h (remove px l)) + length l)%nat.
Proof.
  unfold above, remove. induction l as [|x l IH]; [cbn; lia|].
  rewrite !(filter_cons _ x). repeat case_decide; rewrite ?filter_cons; repeat case_decide; cbn [length] in *; try lia; done.
Qed.

(** The levels above a price are a prefix of a best-first list. *)
Lemma above_prefix h l k :
  best_first (bet := bet) l -> (k <= length (above h l))%nat -> take k l = take k (above h l).
Proof.
  unfold above. revert k. induction l as [|x l IH]; intros k Hs Hk; [done|].
  apply best_first_cons in Hs as [Hs Hb]. rewrite filter_cons in Hk |- *. case_decide as Hx.
  - destruct k as [|k]; [done|]. cbn [take length] in *. f_equal. apply IH; [done|lia].
  - destruct (filter _ l) as [|y r] eqn:E; [by replace k with 0%nat by (cbn in Hk; lia)|].
    exfalso. assert (Hy : y ∈ filter (fun x => bet x.1 h = true) l) by (rewrite E; left).
    apply list_elem_of_filter in Hy as [Hyh Hyl]. apply Hx. apply (better_trans _ y.1); [by apply Hb|done].
Qed.

Lemma trusted_sorted h l m d : trusted h l m d -> best_first (bet := bet) l.
Proof. destruct h; [by intros (? & _)|by intros [? _]]. Qed.

(** Above a trusted price, [put] and [insert] agree. *)
Lemma put_agrees px q l (m : gmap Z Z) x :
  best_first (bet := bet) l -> (x ∈ l <-> m !! x.1 = Some x.2) ->
  x ∈ put (bet := bet) px q l <-> <[px := q]> m !! x.1 = Some x.2.
Proof.
  intros Hs He. rewrite elem_of_put by done. rewrite lookup_insert. case_decide as Hx.
  - split; [|intros Hq; injection Hq as ->; left; subst; apply surjective_pairing]. intros [->|[? ?]]; [done|congruence].
  - rewrite He. split; [|right; done]. intros [->|[? ?]]; done.
Qed.

Lemma trusted_remove h l m d px :
  trusted h l m d -> trusted h (remove px l) (delete px m) (d + (length l - length (remove px l))).
Proof.
  destruct h as [h|]; cbn [trusted]; [|apply lists_remove].
  intros (Hs & He & Hc). split_and!; [by apply best_first_filter| |].
  - intros x Hx. rewrite elem_of_remove, (He x Hx), lookup_delete. case_decide; naive_solver.
  - pose proof (above_remove h px l). lia.
Qed.

Lemma trusted_put h l m d px q :
  trusted h l m d -> trusted h (put (bet := bet) px q l) (<[px := q]> m) d.
Proof.
  destruct h as [h|]; cbn [trusted]; [|apply lists_put].
  intros (Hs & He & Hc). split_and!; [by apply best_first_put| |].
  - intros x Hx. apply put_agrees; [done|by apply He].
  - pose proof (above_put h px q l). lia.
Qed.

(** Dropping the worst of 65 levels leaves a ladder trusted above it. *)
Lemma trusted_drop h l w m d :
  trusted h (l ++ [w]) m d -> length l = DEPTH_LADDER_CAP -> exists h', trusted (Some h') l m d.
Proof.
  intros Ht Hlen. pose proof (trusted_sorted _ _ _ _ Ht) as (Hs & _ & Hb)%best_first_app.
  assert (Hw : (forall x, bet x.1 w.1 = true -> x ∈ l ++ [w] <-> m !! x.1 = Some x.2) ->
               trusted (Some w.1) l m d).
  { intros He. split_and!; [done| |].
    - intros x Hx. rewrite <- He by done. rewrite elem_of_app, list_elem_of_singleton. split; [by left|].
      intros [?| ->]; [done|]. by rewrite better_irrefl in Hx.
    - unfold above. rewrite filter_all; [lia|]. apply Forall_forall. intros x Hx. apply Hb; [done|left]. }
  destruct h as [h|]; cbn [trusted] in Ht.
  - destruct Ht as (_ & He & Hc). destruct (bet w.1 h) eqn:E.
    + exists w.1. apply Hw. intros x Hx. apply He. by apply (better_trans _ w.1).
    + exists h. split_and!; [done| |].
      * intros x Hx. rewrite <- He by done. rewrite elem_of_app, list_elem_of_singleton. split; [by left|].
        intros [?| ->]; [done|congruence].
      * unfold above in *. rewrite filter_app, (filter_cons_False _ w), filter_nil, app_nil_r in Hc by (by rewrite E). done.
  - exists w.1. apply Hw. intros x _. apply Ht.
Qed.

Lemma trusted_step h l m d px q :
  trusted h l m d -> (length l <= DEPTH_LADDER_CAP)%nat ->
  exists h', trusted h' (set_levels (bet := bet) px q l) (full_apply m (L_set px q))
    (d + (length l - length (set_levels (bet := bet) px q l))).
Proof.
  intros Ht Hlen. unfold set_levels. cbn [full_apply]. destruct (q =? 0); [exists h; by apply trusted_remove|].
  pose proof (length_put_le (bet := bet) px q l) as Hput. pose proof (trusted_put h l m d px q Ht) as Hp.
  rewrite length_take. replace (length l - DEPTH_LADDER_CAP `min` _)%nat with 0%nat by lia. rewrite Nat.add_0_r.
  destruct (decide (length (put (bet := bet) px q l) <= DEPTH_LADDER_CAP)%nat).
  - exists h. by rewrite take_ge.
  - destruct (put (bet := bet) px q l) as [|w r _] using rev_ind; [cbn [length] in *; lia|].
    rewrite length_app in *. cbn [length] in *. rewrite take_app_le, take_ge by lia.
    destruct (trusted_drop h r w _ d Hp ltac:(lia)) as [h' Hh]. by exists (Some h').
Qed.

Lemma shed_ladder ops st : (foldl shed_step st ops).1 = foldl run_side st.1 ops.
Proof. revert st. induction ops as [|op ops IH]; intros st; [done|]. cbn [foldl]. by rewrite IH. Qed.

Lemma ladder_trusted ops : exists h, trusted h (live (run_ops bid ops)) (run_book ops) (shed ops).
Proof.
  induction ops as [|op ops [h IH]] using rev_ind.
  - exists None. split; [constructor|]. intros x. unfold run_ops, run_book. cbn [foldl].
    rewrite lookup_empty. set_solver.
  - destruct (run_ops_ok bid ops) as [Hs Hb]. unfold run_ops, run_book, shed in *. rewrite !foldl_snoc.
    pose proof (shed_ladder ops (LadderSide_new bid, 0%nat)) as Hl. cbn [fst] in Hl.
    unfold shed_step at 1. rewrite Hl. cbn [snd]. destruct op as [px q|]; cbn [run_side].
    + destruct (set_refines _ px q Hs) as (Hlv & _ & Hsh). rewrite Hb in Hlv.
      rewrite <- (length_live _ (proj1 Hs)), <- (length_live _ Hsh), Hlv.
      apply (trusted_step h); [done|]. rewrite length_live by apply Hs. apply Hs.
    + exists None. rewrite live_clear. split; [constructor|]. intros x. cbn [full_apply]. rewrite lookup_empty. set_solver.
Qed.

(** The first levels of a ladder that shed [d] are the book's. *)
Lemma trusted_top h l m d lv :
  trusted h l m d -> lists bid lv m -> take (DEPTH_LADDER_CAP - d) l = take (DEPTH_LADDER_CAP - d) lv.
Proof.
  destruct h as [h|]; cbn [trusted].
  - intros (Hs & He & Hc) [Hsv Hev].
    assert (Ha : above h l = above h lv).
    { apply (best_first_unique (bet := bet)); [by apply best_first_filter..|].
      intros x. unfold above. rewrite !list_elem_of_filter, Hev. naive_solver. }
    rewrite (above_prefix h l), (above_prefix h lv), Ha by (done || (rewrite <- ?Ha; lia)). done.
  - intros [Hs He] [Hsv Hev]. f_equal. apply (best_first_unique (bet := bet)); [done..|].
    intros x. by rewrite He, Hev.
Qed.

End Trust.

Lemma carrier_of_prefix l1 l2 n :
  take n l1 = take n l2 -> (DEPTH_K <= n)%nat -> carrier l1 = carrier l2.
Proof.
  intros H Hn. unfold carrier. replace (take DEPTH_K l1) with (take DEPTH_K l2); [done|].
  rewrite <- (Nat.min_l DEPTH_K n) by lia. rewrite <- !take_take. congruence.
Qed.

(** C32. After any updates and clears, as long as deletes have taken at most
    59 held levels off a side since it was last cleared, the carrier half is
    exactly the five best levels of the venue's whole book on that side,
    however many levels the 64-level ladder evicted or refused. *)
Theorem ladder_shows_the_books_best (bid : bool) (ops : list LadderOp) (lv : list (Z * Z)) :
  lv ≡ₚ map_to_list (run_book ops) -> best_first (bet := better bid) lv ->
  (shed bid ops <= DEPTH_LADDER_CAP - DEPTH_K)%nat ->
  top_k_into (run_ops bid ops) = carrier lv.
Proof.
  intros Hp Hs Hd. destruct (ladder_trusted bid ops) as [h Ht]. destruct (run_ops_ok bid ops) as [[Hsh _] _].
  rewrite (top_k_carries _ Hsh). apply (carrier_of_prefix _ _ (DEPTH_LADDER_CAP - shed bid ops)).
  - apply (trusted_top bid h _ _ _ _ Ht). by apply lists_of_perm.
  - unfold DEPTH_LADDER_CAP, DEPTH_K in *. lia.
Qed.

(** Seventy bids fall through a full ladder, then the five best go. *)
Definition falling (n : nat) : list LadderOp := (fun i => L_set (1000 - Z.of_nat i) 1) <$> seq 0 n.
Definition pulled (n : nat) : list LadderOp := (fun i => L_set (1000 - Z.of_nat i) 0) <$> seq 0 n.

Lemma ladder_shows_the_books_best_witness :
  let lv := (fun i => (995 - Z.of_nat i, 1)) <$> seq 0 65 in
  (shed true (falling 70 ++ pulled 5) <= DEPTH_LADDER_CAP - DEPTH_K)%nat /\
  top_k_into (run_ops true (falling 70 ++ pulled 5)) = carrier lv.
Proof.
  cbv zeta. assert (Hd : (shed true (falling 70 ++ pulled 5) <= DEPTH_LADDER_CAP - DEPTH_K)%nat)
    by (apply Nat.leb_le; vm_compute; reflexivity).
  split; [exact Hd|]. apply (ladder_shows_the_books_best true); [| |exact Hd].
  - refine (bool_decide_eq_true_1 _ _). vm_compute. reflexivity.
  - unfold best_first. refine (bool_decide_eq_true_1 _ _). vm_compute. reflexivity.
Defined.

(** The bound is sharp: once 64 levels are gone the ladder shows an empty
    side while the book still has bids. *)
Lemma ladder_can_lose_the_book :
  top_k_into (run_ops true (falling 70 ++ pulled 64)) = replicate DEPTH_K LEVEL_EMPTY /\
  map_to_list (run_book (falling 70 ++ pulled 64)) ≡ₚ
    [(936, 1); (935, 1); (934, 1); (933, 1); (932, 1); (931, 1)].
Proof. split; [vm_compute; reflexivity|]. refine (bool_decide_eq_true_1 _ _). vm_compute. reflexivity. Qed.
