(* ===== verification/Held.v ===== *)
(** * Held-quote orders ([crates/core-fill/src/held.rs])

    An immediate-or-cancel order is judged once, at the quote in force when
    its delay has passed. A rolling leg sweeps the touch and the levels behind
    it; an option takes the touch alone. *)

From S2P Require Import Prelude CoreTypes FillLaw PmRoll Ladder.

#[local] Open Scope machine_scope.

(** ** Sizes *)

Definition VENUE_HYPERCALL : Z := 9.
Definition HELD_DELAY_NS : Z := 2000000000.
Definition HELD_SYMS : Z := 1024.
Definition HELD_ORDINAL_FIRST : Z := 513.
Definition HELD_PM15_LEGS : Z := PM_ROLLING_MAX * PM_OFF_MARK.
Definition HELD_PM5_LEGS : Z := PM5_ROLLING_MAX * PM5_OFF_MARK.
Definition HELD_PM_LEGS : Z := HELD_PM15_LEGS + HELD_PM5_LEGS.
Definition PMJ_PAPER_DELAY_NS_DEFAULT : Z := 2000000000.
Definition HELD_QUOTES : Z := HELD_SYMS + HELD_PM_LEGS.
Definition HELD_DEPTH_K : nat := DEPTH_K.
Definition PMJ_SHADOW_DELAYS_NS : list Z := [350000000; 1000000000].
Definition HELD_SHADOW : nat := length PMJ_SHADOW_DELAYS_NS * Z.to_nat PM5_ROLLING_MAX.
Definition PM_TAKER_HOLD_NS : Z := 150000000.
Definition PM_HELD_DELAY_NS : Z := get ACTIVATION_NS_DEFAULT (Z.to_nat VENUE_POLYMARKET) + PM_TAKER_HOLD_NS.
Definition HELD_PENDING_SHARES : list Z := [16; PM_ROLLING_MAX; PM5_ROLLING_MAX].
Definition HELD_PENDING : Z := get HELD_PENDING_SHARES 0 + get HELD_PENDING_SHARES 1 + get HELD_PENDING_SHARES 2.

(** ** Levels, quotes, orders *)

Record HeldLevels := mkLevels { hl_bids : list DepthLevel; hl_asks : list DepthLevel }.
Definition LEVELS_EMPTY : HeldLevels := mkLevels (replicate HELD_DEPTH_K LEVEL_EMPTY) (replicate HELD_DEPTH_K LEVEL_EMPTY).
#[export] Instance held_levels_inhabited : Inhabited HeldLevels := populate LEVELS_EMPTY.

Record HeldQuote := mkHeldQuote { hq_bid : Z; hq_bid_qty : Z; hq_ask : Z; hq_ask_qty : Z }.
Definition EMPTY_QUOTE : HeldQuote := mkHeldQuote 0 0 0 0.
#[export] Instance held_quote_inhabited : Inhabited HeldQuote := populate EMPTY_QUOTE.
#[export] Instance held_quote_eq_dec : EqDecision HeldQuote.
Proof. solve_decision. Defined.

Record HeldOrder := mkHeld {
  ho_due_ns : Z; ho_px_1e6 : Z; ho_qty_1e6 : Z; ho_client_oid : Z; ho_sym : Z; ho_side : Side; ho_strategy_id : Z; ho_venue : Z
}.
Definition EMPTY_ORDER : HeldOrder := mkHeld 0 0 0 0 SYMBOL_ID_NONE Bid 255 0.
#[export] Instance held_order_inhabited : Inhabited HeldOrder := populate EMPTY_ORDER.

(** ** Which symbols, which slot *)

Definition share_class (k : Z) : nat :=
  if k <? HELD_SYMS then 0%nat else if k <? HELD_SYMS + HELD_PM15_LEGS then 1%nat else 2%nat.

Definition held_index (sym : Z) : option Z :=
  if negb (symbol_venue_byte sym =? VENUE_HYPERCALL) then None
  else
    let o := symbol_ordinal sym in
    if (HELD_ORDINAL_FIRST <=? o) && (o - HELD_ORDINAL_FIRST <? HELD_SYMS) then Some (o - HELD_ORDINAL_FIRST) else None.

(** A leg's family and offset, the mark left out. *)
Definition leg_of (p : PmPeriod) (sym : Z) : option (Z * Z) :=
  match rolling_of p sym with
  | Some (f, off) => if off <? off_mark p then Some (f, off) else None
  | None => None
  end.

Definition held_pm5_leg (sym : Z) : bool := match leg_of M5 sym with Some _ => true | None => false end.
Definition held_pm_leg (sym : Z) : bool := match leg_of M15 sym with Some _ => true | None => held_pm5_leg sym end.

Definition quote_index (sym : Z) : option Z :=
  match held_index sym with
  | Some i => Some i
  | None =>
      match leg_of M15 sym with
      | Some (f, off) => Some (HELD_SYMS + f * PM_OFF_MARK + off)
      | None =>
          match leg_of M5 sym with
          | Some (g, off) => Some (HELD_SYMS + HELD_PM15_LEGS + g * PM5_OFF_MARK + off)
          | None => None
          end
      end
  end.

Definition held_delay_ns (sym : Z) : Z :=
  if held_pm5_leg sym then PMJ_PAPER_DELAY_NS_DEFAULT
  else if held_pm_leg sym then PM_HELD_DELAY_NS
  else HELD_DELAY_NS.

(** ** The book: [pending] up to its length, a shadow with its class *)

Record HeldBook := mkHB {
  hb_quotes : list HeldQuote;
  hb_pending : list HeldOrder;
  hb_class_len : list Z;
  hb_levels : list HeldLevels;
  hb_shadow : list (HeldOrder * Z);
  hb_swept_deeper : Z;
  hb_touch_chg_ns : list Z;
  hb_levels_ns : list Z;
  hb_touch_last : list HeldQuote;
  hb_levels_lagged : Z;
  hb_shadow_refused : Z
}.

Definition HeldBook_new : HeldBook :=
  let legs := Z.to_nat HELD_PM_LEGS in
  mkHB (replicate (Z.to_nat HELD_QUOTES) EMPTY_QUOTE) [] [0; 0; 0] (replicate legs LEVELS_EMPTY) [] 0
    (replicate legs 0) (replicate legs 0) (replicate legs EMPTY_QUOTE) 0 0.

(** The quotes, levels and their stamps, with the two counters of a sweep. *)
Definition set_touch (quotes : list HeldQuote) (levels : list HeldLevels) (chg lvl_ns : list Z) (last : list HeldQuote) (b : HeldBook)
  : HeldBook :=
  mkHB quotes (hb_pending b) (hb_class_len b) levels (hb_shadow b) (hb_swept_deeper b) chg lvl_ns last
    (hb_levels_lagged b) (hb_shadow_refused b).
Definition set_swept (quotes : list HeldQuote) (levels : list HeldLevels) (deeper lagged : Z) (b : HeldBook) : HeldBook :=
  mkHB quotes (hb_pending b) (hb_class_len b) levels (hb_shadow b) deeper (hb_touch_chg_ns b) (hb_levels_ns b) (hb_touch_last b)
    lagged (hb_shadow_refused b).
Definition set_pending (p : list HeldOrder) (c : list Z) (b : HeldBook) : HeldBook :=
  mkHB (hb_quotes b) p c (hb_levels b) (hb_shadow b) (hb_swept_deeper b) (hb_touch_chg_ns b) (hb_levels_ns b) (hb_touch_last b)
    (hb_levels_lagged b) (hb_shadow_refused b).
Definition set_shadow (s : list (HeldOrder * Z)) (refused : Z) (b : HeldBook) : HeldBook :=
  mkHB (hb_quotes b) (hb_pending b) (hb_class_len b) (hb_levels b) s (hb_swept_deeper b) (hb_touch_chg_ns b) (hb_levels_ns b)
    (hb_touch_last b) (hb_levels_lagged b) refused.

(** The index behind the options of a rolling leg's quote index. *)
Definition leg_slot (k : Z) : nat := Z.to_nat (Z.rem (k - HELD_SYMS) HELD_PM_LEGS).
Definition quote_at (b : HeldBook) (k : Z) : HeldQuote := hb_quotes b !!! Z.to_nat k.

Definition held_levels (sym : Z) (b : HeldBook) : option HeldLevels :=
  match quote_index sym with
  | Some k => if HELD_SYMS <=? k then Some (hb_levels b !!! leg_slot k) else None
  | None => None
  end.
Definition held_quote (sym : Z) (b : HeldBook) : option HeldQuote := (quote_at b) <$> quote_index sym.
Definition pending_len (b : HeldBook) : nat := length (hb_pending b).
Definition pending_in (class : nat) (b : HeldBook) : Z := get (hb_class_len b) class.

(** ** Feeds *)

Definition held_on_depth (d : DepthTopK) (b : HeldBook) : HeldBook :=
  match quote_index (dk_sym d) with
  | None => b
  | Some k =>
      if k <? HELD_SYMS then b
      else
        let j := leg_slot k in
        let l := if negb (Z.land (dk_flags d) 1 =? 0) then LEVELS_EMPTY else mkLevels (dk_bids d) (dk_asks d) in
        set_touch (hb_quotes b) (<[j := l]> (hb_levels b)) (hb_touch_chg_ns b) (<[j := dk_ts_ns d]> (hb_levels_ns b)) (hb_touch_last b) b
  end.

(** A side without a price and a size is absent. *)
Definition quote_of (t : Tick) : HeldQuote :=
  let side px qty := if (0 <? px) && (0 <? qty) then (px, qty) else (0, 0) in
  let bid := side (tk_bid_px t) (tk_bid_qty t) in
  let ask := side (tk_ask_px t) (tk_ask_qty t) in
  mkHeldQuote bid.1 bid.2 ask.1 ask.2.

(** [ts_ns] is the tick's own stamp. *)
Definition on_quote (ts_ns : Z) (t : Tick) (b : HeldBook) : HeldBook :=
  match quote_index (tk_sym t) with
  | None => b
  | Some i =>
      let j := leg_slot i in
      if is_stale t then
        let b := set_touch (<[Z.to_nat i := EMPTY_QUOTE]> (hb_quotes b)) (hb_levels b) (hb_touch_chg_ns b) (hb_levels_ns b) (hb_touch_last b) b in
        if HELD_SYMS <=? i
        then set_touch (hb_quotes b) (<[j := LEVELS_EMPTY]> (hb_levels b)) (<[j := ts_ns]> (hb_touch_chg_ns b)) (hb_levels_ns b)
               (<[j := EMPTY_QUOTE]> (hb_touch_last b)) b
        else b
      else
        let q := quote_of t in
        let b :=
          if (HELD_SYMS <=? i) && negb (bool_decide (q = hb_touch_last b !!! j))
          then set_touch (hb_quotes b) (hb_levels b) (<[j := ts_ns]> (hb_touch_chg_ns b)) (hb_levels_ns b) (<[j := q]> (hb_touch_last b)) b
          else b in
        set_touch (<[Z.to_nat i := q]> (hb_quotes b)) (hb_levels b) (hb_touch_chg_ns b) (hb_levels_ns b) (hb_touch_last b) b
  end.

(** ** The sweep *)

Definition marketable (side : Side) (limit px : Z) : bool := match side with Bid => px <=? limit | Ask => limit <=? px end.
Definition behind (side : Side) (touch px : Z) : bool := match side with Bid => touch <? px | Ask => px <? touch end.

(** The levels left, what was got, what it cost, and whether a level was
    taken. *)
Fixpoint sweep_levels (side : Side) (limit touch qty : Z) (ls : list DepthLevel) (got cost : Z) (deeper : bool)
  : list DepthLevel * Z * Z * bool :=
  match ls with
  | [] => ([], got, cost, deeper)
  | lv :: rest =>
      let skip := let '(rest, g, c, d) := sweep_levels side limit touch qty rest got cost deeper in (lv :: rest, g, c, d) in
      if negb (got <? qty) then (ls, got, cost, deeper)
      else if dl_px lv <=? 0 then (ls, got, cost, deeper)
      else if dl_qty lv <=? 0 then skip
      else if negb (behind side touch (dl_px lv)) then skip
      else if negb (marketable side limit (dl_px lv)) then (ls, got, cost, deeper)
      else
        let want := qty - got in
        let took := if want <? dl_qty lv then want else dl_qty lv in
        let '(rest, g, c, d) := sweep_levels side limit touch qty rest (got + took) (cost + took * dl_px lv) true in
        (mkLevel (dl_px lv) (dl_qty lv - took) :: rest, g, c, d)
  end.

(** One fill at the size-weighted price, rounded against the taker. *)
Definition fill_px (side : Side) (cost g : Z) : Z :=
  wrap_i64 (match side with Bid => (cost + g - 1) /t g | Ask => cost /t g end).

Definition sweep (side : Side) (limit qty : Z) (q : HeldQuote) (l : HeldLevels) : Verdict * bool * HeldQuote * HeldLevels :=
  let '(touch, touch_qty, levels) := match side with Bid => (hq_ask q, hq_ask_qty q, hl_asks l) | Ask => (hq_bid q, hq_bid_qty q, hl_bids l) end in
  if (touch <=? 0) || (touch_qty <=? 0) || (qty <=? 0) || negb (marketable side limit touch) then (Cancel, false, q, l)
  else
    let got := if qty <? touch_qty then qty else touch_qty in
    let '(ls, g, cost, deeper) := sweep_levels side limit touch qty levels got (got * touch) false in
    let q' := match side with Bid => mkHeldQuote (hq_bid q) (hq_bid_qty q) (hq_ask q) (touch_qty - got)
                            | Ask => mkHeldQuote (hq_bid q) (touch_qty - got) (hq_ask q) (hq_ask_qty q) end in
    let l' := match side with Bid => mkLevels (hl_bids l) ls | Ask => mkLevels ls (hl_asks l) end in
    (Filled (fill_px side cost g) g, deeper, q', l').

(** ** Submit and judge *)

Definition submit_held (o : HeldOrder) (b : HeldBook) : HeldBook * bool :=
  match quote_index (ho_sym o) with
  | None => (b, false)
  | Some k =>
      let c := share_class k in
      if (HELD_PENDING <=? Z.of_nat (length (hb_pending b))) || (get HELD_PENDING_SHARES c <=? get (hb_class_len b) c)
         || (ho_qty_1e6 o <=? 0) || (ho_px_1e6 o <=? 0)
      then (b, false)
      else (set_pending (hb_pending b ++ [o]) (upd (fun n => n + 1) c (hb_class_len b)) b, true)
  end.

(** One due order against the quote in force. *)
Definition judge_held (o : HeldOrder) (b : HeldBook) : HeldBook * Verdict :=
  match quote_index (ho_sym o) with
  | None => (b, Cancel)
  | Some k =>
      let q := quote_at b k in
      if HELD_SYMS <=? k then
        let j := leg_slot k in
        if get (hb_levels_ns b) j <? get (hb_touch_chg_ns b) j then
          let '(v, _, q', _) := sweep (ho_side o) (ho_px_1e6 o) (ho_qty_1e6 o) q LEVELS_EMPTY in
          (set_swept (<[Z.to_nat k := q']> (hb_quotes b)) (hb_levels b) (hb_swept_deeper b) (wrap_u64 (hb_levels_lagged b + 1)) b, v)
        else
          let '(v, deeper, q', l') := sweep (ho_side o) (ho_px_1e6 o) (ho_qty_1e6 o) q (hb_levels b !!! j) in
          (set_swept (<[Z.to_nat k := q']> (hb_quotes b)) (<[j := l']> (hb_levels b))
             (wrap_u64 (hb_swept_deeper b + if (deeper : bool) then 1 else 0)) (hb_levels_lagged b) b, v)
      else
        let t := mkTouch (hq_bid q) (hq_ask q) (hq_bid_qty q) (hq_ask_qty q) in
        let '(v, bud) := judge_ioc (ho_side o) (ho_px_1e6 o) (ho_qty_1e6 o) t (mkBudgets (hq_ask_qty q) (hq_bid_qty q)) in
        (set_swept (<[Z.to_nat k := mkHeldQuote (hq_bid q) (bid_budget bud) (hq_ask q) (ask_budget bud)]> (hb_quotes b))
           (hb_levels b) (hb_swept_deeper b) (hb_levels_lagged b) b, v)
  end.

(** A judged order leaves the table and its class. *)
Definition retire_held (i : nat) (o : HeldOrder) (b : HeldBook) : HeldBook :=
  let c := match quote_index (ho_sym o) with
           | Some k => upd (fun n => n - 1) (share_class k) (hb_class_len b)
           | None => hb_class_len b
           end in
  set_pending (delete i (hb_pending b)) c b.

Fixpoint judge_loop (fuel i : nat) (now_ns : Z) (b : HeldBook) : HeldBook * list (HeldOrder * Verdict) :=
  match fuel with
  | O => (b, [])
  | S f =>
      match hb_pending b !! i with
      | None => (b, [])
      | Some o =>
          if now_ns <? ho_due_ns o then judge_loop f (S i) now_ns b
          else
            let '(b, v) := judge_held o b in
            let '(b, vs) := judge_loop f i now_ns (retire_held i o b) in
            (b, (o, v) :: vs)
      end
  end.

(** Each turn moves past an order or removes it: the table's length is
    enough fuel. *)
Definition judge_due (now_ns : Z) (b : HeldBook) : HeldBook * list (HeldOrder * Verdict) :=
  judge_loop (length (hb_pending b)) 0 now_ns b.

(** ** Shadows *)

Definition submit_shadow (o : HeldOrder) (class : Z) (b : HeldBook) : HeldBook * bool :=
  match quote_index (ho_sym o) with
  | None => (b, false)
  | Some k =>
      if negb (HELD_SYMS <=? k) then (b, false)
      else if (ho_qty_1e6 o <=? 0) || (ho_px_1e6 o <=? 0) then (b, false)
      else if (HELD_SHADOW <=? length (hb_shadow b))%nat then (set_shadow (hb_shadow b) (wrap_u64 (hb_shadow_refused b + 1)) b, false)
      else (set_shadow (hb_shadow b ++ [(o, class)]) (hb_shadow_refused b) b, true)
  end.

(** Against copies of the book. *)
Definition judge_shadow (o : HeldOrder) (b : HeldBook) : Verdict :=
  match quote_index (ho_sym o) with
  | None => Cancel
  | Some k =>
      if HELD_SYMS <=? k then
        let j := leg_slot k in
        let l := if get (hb_levels_ns b) j <? get (hb_touch_chg_ns b) j then LEVELS_EMPTY else hb_levels b !!! j in
        let '(v, _, _, _) := sweep (ho_side o) (ho_px_1e6 o) (ho_qty_1e6 o) (quote_at b k) l in v
      else Cancel
  end.

Fixpoint shadow_loop (fuel i : nat) (now_ns : Z) (b : HeldBook) : HeldBook * list (HeldOrder * Z * Verdict) :=
  match fuel with
  | O => (b, [])
  | S f =>
      match hb_shadow b !! i with
      | None => (b, [])
      | Some (o, c) =>
          if now_ns <? ho_due_ns o then shadow_loop f (S i) now_ns b
          else
            let v := judge_shadow o b in
            let '(b, vs) := shadow_loop f i now_ns (set_shadow (delete i (hb_shadow b)) (hb_shadow_refused b) b) in
            (b, (o, c, v) :: vs)
      end
  end.

Definition judge_shadows (now_ns : Z) (b : HeldBook) : HeldBook * list (HeldOrder * Z * Verdict) :=
  shadow_loop (length (hb_shadow b)) 0 now_ns b.
