(* ===== verification/HeldProofs.v ===== *)
(** * The held-quote law

    A sweep takes what its limit reaches, at a price between the touch and
    the limit; every due order is judged once, in submit order; a class of
    orders never takes another's share. *)

From S2P Require Import Prelude CoreTypes FillLaw PmRoll Ladder Held.

#[local] Open Scope machine_scope.

(** ** The sweep *)

(** The levels an order may take, in the order it takes them. *)
Fixpoint reach (side : Side) (limit touch : Z) (ls : list DepthLevel) : list DepthLevel :=
  match ls with
  | [] => []
  | lv :: rest =>
      if dl_px lv <=? 0 then []
      else if (dl_qty lv <=? 0) || negb (behind side touch (dl_px lv)) then reach side limit touch rest
      else if negb (marketable side limit (dl_px lv)) then []
      else lv :: reach side limit touch rest
  end.

Definition shown (ls : list DepthLevel) : Z := sumZ dl_qty ls.
Definition worth (ls : list DepthLevel) : Z := sumZ (fun lv => dl_px lv * dl_qty lv) ls.

Lemma reach_pos side limit touch ls : 0 <= shown (reach side limit touch ls).
Proof.
  induction ls as [|lv ls IH]; [done|]. cbn [reach]. destruct (dl_px lv <=? 0); [done|].
  destruct (Z.leb_spec (dl_qty lv) 0); [exact IH|]. cbn [orb]. destruct (negb (behind side touch (dl_px lv))); [exact IH|].
  destruct (negb (marketable side limit (dl_px lv))); [done|]. cbn. fold (shown (reach side limit touch ls)). lia.
Qed.

(** Between the touch and the limit, in the taker's direction. *)
Definition priced (side : Side) (limit touch n cost : Z) : Prop :=
  match side with Bid => touch * n <= cost <= limit * n | Ask => limit * n <= cost <= touch * n end.

Lemma sweep_levels_spec side limit touch qty ls got cost d : got <= qty ->
  let '(ls', g, c, d') := sweep_levels side limit touch qty ls got cost d in
  g = Z.min qty (got + shown (reach side limit touch ls)) /\ got <= g /\
  shown ls' = shown ls - (g - got) /\ worth ls' = worth ls - (c - cost) /\ dl_px <$> ls' = dl_px <$> ls /\
  priced side limit touch (g - got) (c - cost) /\ d' = d || (got <? g) /\ cost <= c.
Proof.
  revert got cost d. induction ls as [|lv ls IH]; intros got cost d Hg.
  { cbn. split_and!; try lia; [done|unfold priced; destruct side; lia|rewrite Z.ltb_irrefl; by rewrite orb_false_r]. }
  assert (shown (lv :: ls) = dl_qty lv + shown ls) as Es by done. assert (worth (lv :: ls) = dl_px lv * dl_qty lv + worth ls) as Ew by done.
  pose proof (reach_pos side limit touch (lv :: ls)) as Rp.
  assert (forall g0, g0 = got -> g0 <= qty -> priced side limit touch (g0 - got) (cost - cost) /\ d = d || (got <? g0)) as Stay.
  { intros g0 -> _. rewrite !Z.sub_diag, Z.ltb_irrefl, orb_false_r. split; [unfold priced; destruct side; lia|done]. }
  cbn [sweep_levels reach] in *. destruct (Z.ltb_spec got qty) as [Lt|Ge]; cbn [negb].
  2: { destruct (Stay got eq_refl Hg). split_and!; try done; lia. }
  destruct (Z.leb_spec (dl_px lv) 0) as [|Hpx]; [destruct (Stay got eq_refl Hg); split_and!; try done; try lia; cbn; lia|].
  assert (let '(ls', g, c, d') := let '(rest, g, c, d0) := sweep_levels side limit touch qty ls got cost d in (lv :: rest, g, c, d0) in
    g = Z.min qty (got + shown (reach side limit touch ls)) /\ got <= g /\ shown ls' = shown (lv :: ls) - (g - got) /\
    worth ls' = worth (lv :: ls) - (c - cost) /\ dl_px <$> ls' = dl_px <$> (lv :: ls) /\
    priced side limit touch (g - got) (c - cost) /\ d' = d || (got <? g) /\ cost <= c) as Skip.
  { specialize (IH got cost d Hg). destruct (sweep_levels side limit touch qty ls got cost d) as [[[ls' g] c] d'].
    destruct IH as (A & B & C & D & E & P & F & Cc). split_and!; try done.
    - change (shown (lv :: ls')) with (dl_qty lv + shown ls'). lia.
    - change (worth (lv :: ls')) with (dl_px lv * dl_qty lv + worth ls'). lia.
    - rewrite !fmap_cons. by f_equal. }
  destruct (Z.leb_spec (dl_qty lv) 0) as [|Hq]; cbn [orb]; [exact Skip|].
  destruct (behind side touch (dl_px lv)) eqn:Eb; cbn [negb]; [|exact Skip]. clear Skip.
  destruct (marketable side limit (dl_px lv)) eqn:Em; cbn [negb];
    [|destruct (Stay got eq_refl Hg); split_and!; try done; try lia; cbn; lia].
  set (took := if qty - got <? dl_qty lv then qty - got else dl_qty lv).
  assert (took = Z.min (qty - got) (dl_qty lv)) as Et by (unfold took; destruct (Z.ltb_spec (qty - got) (dl_qty lv)); lia). clearbody took.
  specialize (IH (got + took) (cost + took * dl_px lv) true ltac:(lia)).
  destruct (sweep_levels side limit touch qty ls (got + took) (cost + took * dl_px lv) true) as [[[ls' g] c] d'].
  destruct IH as (A & B & C & D & E & P & F & Cc). pose proof (reach_pos side limit touch ls) as Rl.
  change (shown (lv :: reach side limit touch ls)) with (dl_qty lv + shown (reach side limit touch ls)).
  split_and!; [lia|lia| | | | | |nia].
  - change (shown (_ :: ls')) with (dl_qty lv - took + shown ls'). lia.
  - change (worth (_ :: ls')) with (dl_px lv * (dl_qty lv - took) + worth ls'). lia.
  - rewrite !fmap_cons. by f_equal.
  - unfold priced, behind, marketable in *. destruct side; nia.
  - destruct (Z.ltb_spec got g); [|lia]. by rewrite orb_true_r.
Qed.

(** What faces the order: the touch, its size and the levels behind it. *)
Definition facing (side : Side) (q : HeldQuote) (l : HeldLevels) : Z * Z * list DepthLevel :=
  match side with Bid => (hq_ask q, hq_ask_qty q, hl_asks l) | Ask => (hq_bid q, hq_bid_qty q, hl_bids l) end.
Definition own_side (side : Side) (q : HeldQuote) (l : HeldLevels) : Z * Z * list DepthLevel :=
  facing (match side with Bid => Ask | Ask => Bid end) q l.

(** The rounded price lies between the touch and the limit. *)
Lemma fill_px_between side limit touch g cost : 0 < g -> 0 < touch -> in_i64 limit -> priced side limit touch g cost ->
  0 <= cost -> marketable side limit touch = true -> touch <= i64_max ->
  let px := fill_px side cost g in
  match side with
  | Bid => touch <= px <= limit /\ cost <= px * g < cost + g
  | Ask => limit <= px <= touch /\ px * g <= cost < px * g + g
  end.
Proof.
  intros Hg Ht Hl P Hc M Hm. cbv zeta. unfold fill_px, priced, marketable in *. destruct side.
  - rewrite Z.quot_div_nonneg by lia. pose proof (Z.div_mod (cost + g - 1) g ltac:(lia)) as D. pose proof (Z.mod_pos_bound (cost + g - 1) g Hg).
    set (px := (cost + g - 1) / g) in *. assert (cost <= px * g < cost + g) as R by lia.
    assert (touch <= px <= limit) as B by (split; apply Z.lt_succ_r; nia).
    rewrite wrap_i64_id by (unfold_int; lia). done.
  - rewrite Z.quot_div_nonneg by lia. pose proof (Z.div_mod cost g ltac:(lia)) as D. pose proof (Z.mod_pos_bound cost g Hg).
    set (px := cost / g) in *. assert (px * g <= cost < px * g + g) as R by lia.
    assert (limit <= px <= touch) as B by (split; apply Z.lt_succ_r; nia).
    rewrite wrap_i64_id by (unfold_int; lia). done.
Qed.

(** An order sweeps the touch and the levels its limit reaches: it gets
    the lesser of its size and what they show, consumes exactly that from
    that side alone, pays their prices with one rounding against itself, and
    its price lies between the touch and its limit. A touch absent or past
    the limit gives nothing and changes nothing. *)
Theorem sweep_takes_what_the_limit_reaches side limit qty q l :
  in_i64 limit -> in_i64 (hq_bid q) -> in_i64 (hq_ask q) ->
  let '(v, deeper, q', l') := sweep side limit qty q l in
  let '(touch, avail, levels) := facing side q l in
  let '(touch', avail', levels') := facing side q' l' in
  own_side side q' l' = own_side side q l /\ touch' = touch /\ dl_px <$> levels' = dl_px <$> levels /\
  match v with
  | Filled px g =>
      0 < touch /\ 0 < g /\ marketable side limit touch = true /\
      g = Z.min qty (avail + shown (reach side limit touch levels)) /\
      avail' + shown levels' = avail + shown levels - g /\ deeper = (avail <? g) /\
      let cost := (avail - avail') * touch + (worth levels - worth levels') in
      match side with
      | Bid => touch <= px <= limit /\ cost <= px * g < cost + g
      | Ask => limit <= px <= touch /\ px * g <= cost < px * g + g
      end
  | Cancel => q' = q /\ l' = l /\ deeper = false /\ (touch <= 0 \/ avail <= 0 \/ qty <= 0 \/ marketable side limit touch = false)
  | Wait => False
  end.
Proof.
  intros Hl Hb Ha. unfold sweep. destruct (facing side q l) as [[touch avail] levels] eqn:Ef.
  assert ((match side with Bid => (hq_ask q, hq_ask_qty q, hl_asks l) | Ask => (hq_bid q, hq_bid_qty q, hl_bids l) end) = (touch, avail, levels)) as ->
    by (by destruct side).
  assert (touch <= i64_max) as Ht by (destruct side; cbn in Ef; simplify_eq; lia).
  destruct ((touch <=? 0) || (avail <=? 0) || (qty <=? 0) || negb (marketable side limit touch)) eqn:Eg.
  { rewrite Ef. split_and!; try done. destruct (marketable side limit touch); [|tauto].
    rewrite orb_false_r in Eg. apply orb_true_iff in Eg as [[E|E]%orb_true_iff|E]; lia. }
  apply orb_false_iff in Eg as [[[E1%Z.leb_gt E2%Z.leb_gt]%orb_false_iff E3%Z.leb_gt]%orb_false_iff E4%negb_false_iff].
  assert ((if qty <? avail then qty else avail) = Z.min qty avail) as -> by (destruct (Z.ltb_spec qty avail); lia).
  set (got := Z.min qty avail). pose proof (sweep_levels_spec side limit touch qty levels got (got * touch) false ltac:(lia)) as Sp.
  pose proof (reach_pos side limit touch levels) as Rp.
  destruct (sweep_levels side limit touch qty levels got (got * touch) false) as [[[ls g] c] d].
  destruct Sp as (A & B & C & D & E & P & F & Cc). assert (0 < got) by lia.
  assert (got = avail \/ got = qty) as Or by lia.
  assert (facing side (match side with Bid => mkHeldQuote (hq_bid q) (hq_bid_qty q) (hq_ask q) (avail - got)
                                  | Ask => mkHeldQuote (hq_bid q) (avail - got) (hq_ask q) (hq_ask_qty q) end)
     (match side with Bid => mkLevels (hl_bids l) ls | Ask => mkLevels ls (hl_asks l) end) = (touch, avail - got, ls)) as ->
    by (destruct side; cbn in Ef |- *; by simplify_eq).
  assert (priced side limit touch g c) as Pc by (unfold priced, marketable in *; destruct side; nia).
  assert (0 <= c) as Hc by nia.
  split_and!; [by destruct side|done|done|done|lia|done|lia|lia| |].
  - rewrite F. cbn [orb]. destruct (Z.ltb_spec got g), (Z.ltb_spec avail g); lia.
  - cbv zeta. pose proof (fill_px_between side limit touch g c ltac:(lia) E1 Hl Pc Hc E4 Ht) as Fp. cbv zeta in Fp.
    replace ((avail - (avail - got)) * touch + (worth levels - worth ls)) with c by lia. exact Fp.
Qed.

Lemma sweep_takes_what_the_limit_reaches_witness :
  let q := mkHeldQuote 470000 5000000 480000 2000000 in
  let l := mkLevels [mkLevel 470000 5000000] [mkLevel 480000 2000000; mkLevel 490000 3000000; mkLevel 520000 9000000] in
  sweep Bid 500000 4000000 q l =
    (Filled 485000 4000000, true, mkHeldQuote 470000 5000000 480000 0,
     mkLevels [mkLevel 470000 5000000] [mkLevel 480000 2000000; mkLevel 490000 1000000; mkLevel 520000 9000000]) /\
  shown (reach Bid 500000 480000 (hl_asks l)) = 3000000 /\ 480000 <= 485000 <= 500000.
Proof.
  split; [reflexivity|]. split; [reflexivity|].
  pose proof (sweep_takes_what_the_limit_reaches Bid 500000 4000000 (mkHeldQuote 470000 5000000 480000 2000000)
    (mkLevels [mkLevel 470000 5000000] [mkLevel 480000 2000000; mkLevel 490000 3000000; mkLevel 520000 9000000])
    ltac:(vm_compute; split; discriminate) ltac:(vm_compute; split; discriminate) ltac:(vm_compute; split; discriminate)) as T.
  vm_compute in T. destruct T as (_ & _ & _ & _ & _ & _ & _ & _ & _ & T & _). exact T.
Defined.

(** ** Judging *)

Definition due (now_ns : Z) (o : HeldOrder) : bool := ho_due_ns o <=? now_ns.

(** The reference: the orders in turn, each against what the last one left. *)
Fixpoint judge_each (os : list HeldOrder) (b : HeldBook) : HeldBook * list (HeldOrder * Verdict) :=
  match os with
  | [] => (b, [])
  | o :: os =>
      let '(b, v) := judge_held o b in
      let '(b, vs) := judge_each os b in (b, (o, v) :: vs)
  end.

Definition class_of (o : HeldOrder) : option nat := share_class <$> quote_index (ho_sym o).

(** The class counts once the orders [os] have left. *)
Definition class_after (os : list HeldOrder) (c : list Z) : list Z :=
  foldl (fun c o => match class_of o with Some k => upd (fun n => n - 1) k c | None => c end) c os.

Definition keep (f : HeldOrder -> bool) (os : list HeldOrder) : list HeldOrder := filter (fun o => f o = true) os.

Lemma keep_cons f o os : keep f (o :: os) = if f o then o :: keep f os else keep f os.
Proof. unfold keep. rewrite filter_cons. by destruct (f o). Qed.

Lemma judge_held_frame o p c b : judge_held o (set_pending p c b) = (set_pending p c (judge_held o b).1, (judge_held o b).2) /\
  hb_pending (judge_held o b).1 = hb_pending b /\ hb_class_len (judge_held o b).1 = hb_class_len b /\
  hb_shadow (judge_held o b).1 = hb_shadow b /\ hb_shadow_refused (judge_held o b).1 = hb_shadow_refused b.
Proof.
  unfold judge_held, quote_at. cbn [hb_quotes set_pending hb_levels_ns hb_touch_chg_ns hb_levels hb_swept_deeper hb_levels_lagged].
  destruct (quote_index (ho_sym o)) as [k|]; [|done]. destruct (HELD_SYMS <=? k).
  - destruct (get (hb_levels_ns b) (leg_slot k) <? get (hb_touch_chg_ns b) (leg_slot k)); by destruct (sweep _ _ _ _ _) as [[[v d] q] l].
  - by destruct (judge_ioc _ _ _ _ _) as [v bud].
Qed.

Lemma judge_each_frame os p c b : judge_each os (set_pending p c b) = (set_pending p c (judge_each os b).1, (judge_each os b).2) /\
  hb_pending (judge_each os b).1 = hb_pending b /\ hb_class_len (judge_each os b).1 = hb_class_len b.
Proof.
  revert b. induction os as [|o os IH]; intros b; [done|]. cbn [judge_each].
  destruct (judge_held_frame o p c b) as (-> & Ep & Ec & _). destruct (judge_held o b) as [b1 v]. cbn [fst snd] in *.
  destruct (IH b1) as (-> & Ep' & Ec'). destruct (judge_each os b1) as [b2 vs]. cbn [fst snd] in *.
  split_and!; [done|congruence|congruence].
Qed.

Lemma set_pending_twice p c p' c' b : set_pending p c (set_pending p' c' b) = set_pending p c b.
Proof. done. Qed.

Lemma judge_loop_spec fuel i now b : (length (hb_pending b) <= i + fuel)%nat ->
  let rest := drop i (hb_pending b) in
  judge_loop fuel i now b =
    (set_pending (take i (hb_pending b) ++ keep (fun o => negb (due now o)) rest)
       (class_after (keep (due now) rest) (hb_class_len b)) (judge_each (keep (due now) rest) b).1,
     (judge_each (keep (due now) rest) b).2).
Proof.
  revert i b. induction fuel as [|fuel IH]; intros i b Hf; cbv zeta; cbn [judge_loop].
  { rewrite drop_ge, take_ge by lia. cbn. rewrite app_nil_r. by destruct b. }
  destruct (hb_pending b !! i) as [o|] eqn:Ei.
  2: { apply lookup_ge_None in Ei. rewrite drop_ge, take_ge by lia. cbn. rewrite app_nil_r. by destruct b. }
  rewrite (drop_S _ o) by done. rewrite !keep_cons.
  assert (due now o = negb (now <? ho_due_ns o)) as -> by (unfold due; apply Z.leb_antisym).
  pose proof (lookup_lt_Some _ _ _ Ei) as Hi. destruct (Z.ltb_spec now (ho_due_ns o)) as [Lt|Ge]; cbn [negb].
  - rewrite IH by lia. cbv zeta. by rewrite (take_S_r _ _ o), <- app_assoc by done.
  - cbn [judge_each]. pose proof (judge_held_frame o) as Fr.
    destruct (judge_held o b) as [b1 v] eqn:Ej. destruct (Fr [] [] b) as (_ & Ep & Ec & _). rewrite Ej in Ep, Ec. cbn [fst] in Ep, Ec.
    set (c := match quote_index (ho_sym o) with Some k => upd (fun n => n - 1) (share_class k) (hb_class_len b1) | None => hb_class_len b1 end).
    assert (retire_held i o b1 = set_pending (delete i (hb_pending b)) c b1) as -> by (unfold retire_held; by rewrite Ep).
    assert (delete i (hb_pending b) = take i (hb_pending b) ++ drop (S i) (hb_pending b)) as Ed by apply delete_take_drop.
    rewrite IH by (cbn [hb_pending set_pending]; rewrite length_delete by eauto; lia). cbv zeta. cbn [hb_pending hb_class_len set_pending].
    rewrite Ed, drop_app_length', take_app_length' by (rewrite length_take; lia).
    destruct (judge_each_frame (keep (due now) (drop (S i) (hb_pending b))) (take i (hb_pending b) ++ drop (S i) (hb_pending b)) c b1) as (-> & _ & _).
    destruct (judge_each (keep (due now) (drop (S i) (hb_pending b))) b1) as [b2 vs]. cbn [fst snd]. rewrite set_pending_twice.
    f_equal. f_equal. cbn [class_after foldl]. unfold class_after. f_equal. unfold class_of, c. rewrite <- Ec. by destruct (quote_index (ho_sym o)).
Qed.

Lemma judge_due_spec now b :
  judge_due now b =
    (set_pending (keep (fun o => negb (due now o)) (hb_pending b)) (class_after (keep (due now) (hb_pending b)) (hb_class_len b))
       (judge_each (keep (due now) (hb_pending b)) b).1,
     (judge_each (keep (due now) (hb_pending b)) b).2).
Proof. unfold judge_due. rewrite judge_loop_spec by lia. cbv zeta. by rewrite drop_0, take_0. Qed.

Lemma judge_each_orders os b : (judge_each os b).2.*1 = os.
Proof.
  revert b. induction os as [|o os IH]; intros b; [done|]. cbn [judge_each]. destruct (judge_held o b) as [b1 v].
  specialize (IH b1). destruct (judge_each os b1) as [b2 vs]. cbn in *. by rewrite IH.
Qed.

(** Shadows are judged on the book as it stands. *)
Definition sdue (now_ns : Z) (s : HeldOrder * Z) : bool := due now_ns s.1.

Lemma judge_shadow_frame o s r b : judge_shadow o (set_shadow s r b) = judge_shadow o b.
Proof. done. Qed.

Lemma set_shadow_twice s r s' r' b : set_shadow s r (set_shadow s' r' b) = set_shadow s r b.
Proof. done. Qed.

Lemma filter_flag {A} (p : A -> bool) (v : bool) x l :
  filter (fun y => p y = v) (x :: l) = if Bool.eqb (p x) v then x :: filter (fun y => p y = v) l else filter (fun y => p y = v) l.
Proof. rewrite filter_cons. by destruct (p x), v. Qed.

Lemma shadow_loop_spec fuel i now b : (length (hb_shadow b) <= i + fuel)%nat ->
  let rest := drop i (hb_shadow b) in
  shadow_loop fuel i now b =
    (set_shadow (take i (hb_shadow b) ++ filter (fun s => sdue now s = false) rest) (hb_shadow_refused b) b,
     (fun s => (s, judge_shadow s.1 b)) <$> filter (fun s => sdue now s = true) rest).
Proof.
  revert i b. induction fuel as [|fuel IH]; intros i b Hf; cbv zeta; cbn [shadow_loop].
  { rewrite drop_ge, take_ge by lia. cbn. rewrite app_nil_r. by destruct b. }
  destruct (hb_shadow b !! i) as [[o c]|] eqn:Ei.
  2: { apply lookup_ge_None in Ei. rewrite drop_ge, take_ge by lia. cbn. rewrite app_nil_r. by destruct b. }
  rewrite (drop_S _ (o, c)) by done. rewrite !filter_flag. pose proof (lookup_lt_Some _ _ _ Ei) as Hi.
  assert (sdue now (o, c) = negb (now <? ho_due_ns o)) as -> by (unfold sdue, due; cbn; by rewrite Z.leb_antisym).
  destruct (now <? ho_due_ns o); cbn [negb Bool.eqb].
  - rewrite IH by lia. cbv zeta. by rewrite (take_S_r _ _ (o, c)), <- app_assoc by done.
  - rewrite IH by (cbn [hb_shadow set_shadow]; rewrite length_delete by eauto; lia). cbv zeta. cbn [hb_shadow set_shadow hb_shadow_refused].
    by rewrite delete_take_drop, drop_app_length', take_app_length' by (rewrite length_take; lia).
Qed.

(** ** The table never lends a class another's share *)

Definition in_class (k : nat) (o : HeldOrder) : bool := bool_decide (class_of o = Some k).
Definition valid (o : HeldOrder) : Prop := class_of o <> None /\ 0 < ho_qty_1e6 o /\ 0 < ho_px_1e6 o.

Record held_ok (b : HeldBook) : Prop := {
  hk_valid : Forall valid (hb_pending b);
  hk_len : length (hb_class_len b) = 3%nat;
  hk_count k : (k < 3)%nat -> get (hb_class_len b) k = Z.of_nat (countb (in_class k) (hb_pending b));
  hk_share k : (k < 3)%nat -> get (hb_class_len b) k <= get HELD_PENDING_SHARES k
}.

Lemma share_class_lt k : (share_class k < 3)%nat.
Proof. unfold share_class. repeat case_match; lia. Qed.

Lemma class_lt o k : class_of o = Some k -> (k < 3)%nat.
Proof. unfold class_of. destruct (quote_index (ho_sym o)); [|done]. intros [= <-]. apply share_class_lt. Qed.

Lemma held_ok_new : held_ok HeldBook_new.
Proof.
  split; [constructor|done| |]; intros [|[|[|k]]] Hk; try lia; vm_compute; try done; discriminate.
Qed.

(** The whole table is its three classes. *)
Lemma pending_by_class b : held_ok b ->
  Z.of_nat (length (hb_pending b)) = get (hb_class_len b) 0 + get (hb_class_len b) 1 + get (hb_class_len b) 2.
Proof.
  intros [V L C _]. rewrite !C by lia. clear C. induction V as [|o os [Vo _] V IH]; [done|]. cbn [length countb].
  destruct (class_of o) as [k|] eqn:Ek; [|done]. pose proof (class_lt o k Ek) as Hk.
  assert (forall j, in_class j o = (j =? k)%nat) as E by (intros j; unfold in_class; rewrite Ek; case_bool_decide; simplify_eq; [by rewrite Nat.eqb_refl|symmetry; apply Nat.eqb_neq; congruence]).
  rewrite !E. destruct k as [|[|[|k]]]; cbn [Nat.eqb]; lia.
Qed.

Lemma room_for_class b k : held_ok b -> (k < 3)%nat -> get (hb_class_len b) k < get HELD_PENDING_SHARES k ->
  Z.of_nat (length (hb_pending b)) < HELD_PENDING.
Proof.
  intros K Hk Hr. rewrite (pending_by_class b K). unfold HELD_PENDING.
  pose proof (hk_share b K 0 ltac:(lia)). pose proof (hk_share b K 1 ltac:(lia)). pose proof (hk_share b K 2 ltac:(lia)).
  destruct k as [|[|[|k]]]; lia.
Qed.

Lemma submit_held_ok o b : held_ok b -> held_ok (submit_held o b).1.
Proof.
  intros K. unfold submit_held. destruct (quote_index (ho_sym o)) as [q|] eqn:Eq; [|done].
  destruct (_ || _ || _ || _) eqn:Eg; [done|]. apply orb_false_iff in Eg as [[[_ E2%Z.leb_gt]%orb_false_iff E3%Z.leb_gt]%orb_false_iff E4%Z.leb_gt].
  assert (class_of o = Some (share_class q)) as Ec by (unfold class_of; by rewrite Eq).
  pose proof (share_class_lt q) as Hq. destruct K as [V L C Sh]. cbn [fst]. split; cbn [hb_pending hb_class_len set_pending].
  - apply Forall_app. split; [done|]. constructor; [|constructor]. split_and!; [by rewrite Ec|done|done].
  - by rewrite length_upd.
  - intros k Hk. rewrite countb_app. cbn [countb]. assert (in_class k o = (k =? share_class q)%nat) as ->.
    { unfold in_class. rewrite Ec. case_bool_decide; simplify_eq; [by rewrite Nat.eqb_refl|symmetry; apply Nat.eqb_neq; congruence]. }
    destruct (Nat.eqb_spec k (share_class q)) as [->|Ne]; [rewrite get_upd by lia|rewrite get_upd_ne by done]; rewrite C by done; lia.
  - intros k Hk. destruct (decide (k = share_class q)) as [->|Ne]; [rewrite get_upd by lia; lia|rewrite get_upd_ne by done; by apply Sh].
Qed.

Lemma class_after_get os c k : length c = 3%nat -> (k < 3)%nat ->
  get (class_after os c) k = get c k - Z.of_nat (countb (in_class k) os) /\ length (class_after os c) = 3%nat.
Proof.
  revert c. induction os as [|o os IH]; intros c L Hk; [cbn; split; [lia|done]|]. cbn [class_after foldl countb].
  fold (class_after os (match class_of o with Some k => upd (fun n => n - 1) k c | None => c end)).
  destruct (class_of o) as [j|] eqn:Ej.
  - destruct (IH (upd (fun n => n - 1) j c) ltac:(by rewrite length_upd) Hk) as [-> ->]. split; [|done].
    assert (in_class k o = (k =? j)%nat) as -> by (unfold in_class; rewrite Ej; case_bool_decide; simplify_eq; [by rewrite Nat.eqb_refl|symmetry; apply Nat.eqb_neq; congruence]).
    destruct (Nat.eqb_spec k j) as [->|Ne]; [rewrite get_upd by lia; lia|rewrite get_upd_ne by done; lia].
  - destruct (IH c L Hk) as [-> ->]. split; [|done]. unfold in_class. rewrite Ej. rewrite bool_decide_false by done. lia.
Qed.

Lemma countb_split (p f : HeldOrder -> bool) os :
  (countb p (keep f os) + countb p (keep (fun o => negb (f o)) os) = countb p os)%nat.
Proof.
  induction os as [|o os IH]; [done|]. rewrite !keep_cons. cbn [countb]. destruct (f o); cbn [negb countb]; destruct (p o); lia.
Qed.

Lemma judge_due_ok now b : held_ok b -> held_ok (judge_due now b).1.
Proof.
  intros [V L C Sh]. rewrite judge_due_spec. cbn [fst]. split; cbn [hb_pending hb_class_len set_pending].
  - rewrite Forall_forall in *. intros o Ho. apply V. by apply list_elem_of_filter in Ho as [_ Ho].
  - by destruct (class_after_get (keep (due now) (hb_pending b)) (hb_class_len b) 0 L ltac:(lia)).
  - intros k Hk. destruct (class_after_get (keep (due now) (hb_pending b)) (hb_class_len b) k L Hk) as [-> _].
    rewrite C by done. pose proof (countb_split (in_class k) (due now) (hb_pending b)). lia.
  - intros k Hk. destruct (class_after_get (keep (due now) (hb_pending b)) (hb_class_len b) k L Hk) as [-> _]. specialize (Sh k Hk). lia.
Qed.

(** ** Any sequence of calls *)

Inductive HeldOp : Type :=
| H_quote (ts_ns : Z) (t : Tick) | H_depth (d : DepthTopK) | H_submit (o : HeldOrder) | H_judge (now_ns : Z)
| H_shadow (o : HeldOrder) (class : Z) | H_judge_shadows (now_ns : Z).

Definition held_step (b : HeldBook) (op : HeldOp) : HeldBook :=
  match op with
  | H_quote ts t => on_quote ts t b
  | H_depth d => held_on_depth d b
  | H_submit o => (submit_held o b).1
  | H_judge now => (judge_due now b).1
  | H_shadow o c => (submit_shadow o c b).1
  | H_judge_shadows now => (judge_shadows now b).1
  end.

Definition held_run (ops : list HeldOp) : HeldBook := foldl held_step HeldBook_new ops.

Lemma held_ok_same b b' : hb_pending b' = hb_pending b -> hb_class_len b' = hb_class_len b -> held_ok b -> held_ok b'.
Proof. intros E1 E2 [V L C Sh]. split; by rewrite ?E1, ?E2. Qed.

Lemma judge_shadows_spec now b :
  judge_shadows now b =
    (set_shadow (filter (fun s => sdue now s = false) (hb_shadow b)) (hb_shadow_refused b) b,
     (fun s => (s, judge_shadow s.1 b)) <$> filter (fun s => sdue now s = true) (hb_shadow b)).
Proof. unfold judge_shadows. rewrite shadow_loop_spec by lia. cbv zeta. by rewrite drop_0, take_0. Qed.

Lemma held_step_ok b op : held_ok b -> held_ok (held_step b op).
Proof.
  intros K. destruct op; cbn [held_step].
  - apply (held_ok_same b); [..|done]; unfold on_quote; destruct (quote_index (tk_sym t)); try done; destruct (is_stale t); by repeat case_match.
  - apply (held_ok_same b); [..|done]; unfold held_on_depth; destruct (quote_index (dk_sym d)) as [k|]; try done; by destruct (k <? HELD_SYMS).
  - by apply submit_held_ok.
  - by apply judge_due_ok.
  - apply (held_ok_same b); [..|done]; unfold submit_shadow; by repeat case_match.
  - rewrite judge_shadows_spec. by apply (held_ok_same b).
Qed.

Lemma held_run_ok ops : held_ok (held_run ops).
Proof.
  unfold held_run. generalize held_ok_new. generalize HeldBook_new. induction ops as [|op ops IH]; intros b K; [done|].
  cbn [foldl]. by apply IH, held_step_ok.
Qed.

(** After any calls, the due orders are judged once each, in submit
    order, each against what the one before it left; the rest stay, in
    order, and the class counts are their exact numbers. Due shadows are
    judged in order against the book as it stands and change no quote, level
    or order. *)
Theorem due_orders_are_judged_once_in_submit_order ops now :
  let b := held_run ops in
  let '(b', judged) := judge_due now b in
  let '(b'', shadows) := judge_shadows now b in
  judged = (judge_each (keep (due now) (hb_pending b)) b).2 /\ judged.*1 = keep (due now) (hb_pending b) /\
  hb_pending b' = keep (fun o => negb (due now o)) (hb_pending b) /\
  hb_quotes b' = hb_quotes (judge_each (keep (due now) (hb_pending b)) b).1 /\
  hb_levels b' = hb_levels (judge_each (keep (due now) (hb_pending b)) b).1 /\
  (forall k, (k < 3)%nat -> pending_in k b' = Z.of_nat (countb (in_class k) (hb_pending b'))) /\
  shadows = (fun s => (s, judge_shadow s.1 b)) <$> filter (fun s => sdue now s = true) (hb_shadow b) /\
  b'' = set_shadow (filter (fun s => sdue now s = false) (hb_shadow b)) (hb_shadow_refused b) b.
Proof.
  cbv zeta. pose proof (held_run_ok ops) as K. set (b := held_run ops) in *. pose proof (judge_due_ok now b K) as K'.
  rewrite judge_due_spec in *. rewrite judge_shadows_spec. cbn [fst] in K'.
  split_and!; try done; [by rewrite judge_each_orders|]. intros k Hk. apply (hk_count _ K' k Hk).
Qed.

(** After any calls, a well-formed order on a held symbol is taken
    exactly when its own class has room, whatever the others hold; a refused
    one changes nothing, and no class ever passes its share. *)
Theorem a_full_class_refuses_no_other ops o :
  let b := held_run ops in
  let '(b', ok) := submit_held o b in
  (ok = true <-> exists k, class_of o = Some k /\ 0 < ho_qty_1e6 o /\ 0 < ho_px_1e6 o /\
    Z.of_nat (countb (in_class k) (hb_pending b)) < get HELD_PENDING_SHARES k) /\
  (if ok then hb_pending b' = hb_pending b ++ [o] /\ hb_quotes b' = hb_quotes b else b' = b) /\
  (forall k, (k < 3)%nat -> Z.of_nat (countb (in_class k) (hb_pending b')) <= get HELD_PENDING_SHARES k).
Proof.
  cbv zeta. pose proof (held_run_ok ops) as K. set (b := held_run ops) in *. pose proof (submit_held_ok o b K) as K'.
  assert (forall k, (k < 3)%nat -> Z.of_nat (countb (in_class k) (hb_pending (submit_held o b).1)) <= get HELD_PENDING_SHARES k) as Sh.
  { intros k Hk. rewrite <- (hk_count _ K') by done. by apply (hk_share _ K'). }
  destruct (submit_held o b) as [b' ok] eqn:Es. cbn [fst] in Sh. unfold submit_held, class_of in *.
  destruct (quote_index (ho_sym o)) as [q|]; [|injection Es as <- <-; split_and!; [split; [done|by intros (k & ? & _)]|done|done]].
  cbn [fmap option_fmap option_map]. pose proof (share_class_lt q) as Hq. rewrite (hk_count b K _ Hq) in Es.
  destruct (_ || _ || _ || _) eqn:Eg; injection Es as <- <-.
  - split_and!; [|done|done]. split; [done|]. intros (k & [= <-] & Hqty & Hpx & Hr). exfalso.
    pose proof (room_for_class b _ K Hq ltac:(rewrite (hk_count b K _ Hq); exact Hr)) as Room.
    apply orb_true_iff in Eg as [[[E|E]%orb_true_iff|E]%orb_true_iff|E]; lia.
  - apply orb_false_iff in Eg as [[[_ E2%Z.leb_gt]%orb_false_iff E3%Z.leb_gt]%orb_false_iff E4%Z.leb_gt].
    split_and!; [|done|done|done]. split; [|done]. intros _. eauto.
Qed.
