(* ===== verification/AmmU256.v ===== *)
(** * The 256-bit integer of the swap arithmetic ([crates/core-amm/src/u256.rs])

    A [U256] is its two 128-bit halves; products and quotients work on 64-bit
    limbs, least significant first. The division is Knuth's algorithm D. *)

From S2P Require Import Prelude.

#[local] Open Scope machine_scope.

Definition u128_max : Z := 340282366920938463463374607431768211455.
Definition wrap_u128 (z : Z) : Z := z mod 340282366920938463463374607431768211456.

(** [2 ^ 64], the radix of the limbs. *)
Definition RADIX : Z := 18446744073709551616.

(** [u64::leading_zeros], [u128::leading_zeros]. *)
Definition lz_u64 (x : Z) : Z := if x =? 0 then 64 else 63 - Z.log2 x.
Definition lz_u128 (x : Z) : Z := if x =? 0 then 128 else 127 - Z.log2 x.

(** ** Limbs *)

(** One row of the schoolbook product, [r[i ..] += a * b], over the window of
    [r] that starts at [i]; the last carry lands in [r[i + 4]]. *)
Fixpoint mul_row (a : Z) (b r : list Z) (carry : Z) : list Z :=
  match b, r with
  | bj :: b', rj :: r' =>
      let t := wrap_u128 (a * bj + rj + carry) in
      wrap_u64 t :: mul_row a b' r' (Z.shiftr t 64)
  | [], _ :: r' => wrap_u64 carry :: r'
  | _, [] => []
  end.

(** The rows [a[0]], [a[1]], ... over the windows of [r]. *)
Fixpoint mul_rows (a b r : list Z) : list Z :=
  match a with
  | [] => r
  | ai :: a' =>
      match mul_row ai b r 0 with
      | r0 :: r' => r0 :: mul_rows a' b r'
      | [] => []
      end
  end.

Definition full_mul (a b : list Z) : list Z := mul_rows a b (replicate 8 0).

(** The number of limbs up to the last non-zero one. *)
Fixpoint used_limbs (n : nat) (v : list Z) : nat :=
  match n with
  | O => O
  | S k => if get v k =? 0 then used_limbs k v else n
  end.

(** Division by one limb, from limb [i - 1] down. *)
Fixpoint short_div (d : Z) (i : nat) (u q : list Z) (rem : Z) : list Z * Z :=
  match i with
  | O => (q, rem)
  | S k =>
      let cur := Z.lor (wrap_u128 (Z.shiftl rem 64)) (get u k) in
      short_div d k u (<[k := wrap_u64 (cur / d)]> q) (cur mod d)
  end.

(** Limbs shifted left by [s]: each takes the high bits of the one below. *)
Fixpoint shl_limbs (s prev : Z) (l : list Z) : list Z :=
  match l with
  | [] => []
  | x :: l' =>
      (if s =? 0 then x else Z.lor (wrap_u64 (Z.shiftl x s)) (Z.shiftr prev (64 - s))) :: shl_limbs s x l'
  end.

(** The first [n] limbs shifted right by [s]: each takes the low bits of the
    one above. *)
Fixpoint shr_limbs (s : Z) (n : nat) (l : list Z) : list Z :=
  match n, l with
  | S k, x :: l' =>
      (if s =? 0 then x else Z.lor (Z.shiftr x s) (wrap_u64 (Z.shiftl (get l' 0) (64 - s)))) :: shr_limbs s k l'
  | _, _ => []
  end.

(** The two-limb estimate of a quotient limb, brought down while the third
    limb shows it too large. *)
Fixpoint refine_qhat (fuel : nat) (qhat rhat top next u2 : Z) : Z * Z :=
  match fuel with
  | O => (qhat, rhat)
  | S f =>
      if (RADIX <=? qhat) || (Z.lor (wrap_u128 (Z.shiftl rhat 64)) u2 <? wrap_u128 (qhat * next)) then
        let qhat := qhat - 1 in
        let rhat := rhat + top in
        if RADIX <=? rhat then (qhat, rhat) else refine_qhat f qhat rhat top next u2
      else (qhat, rhat)
  end.

(** Two steps take the partial remainder past the radix: [top] is at least
    half of it. *)
Definition QHAT_FUEL : nat := 2.

(** [un[j ..= j + n] -= qhat * vn] over the window of [un] at [j]; the flag
    says the difference went below zero. *)
Fixpoint mul_sub (qhat : Z) (vn un : list Z) (borrow carry : Z) : list Z * bool :=
  match vn, un with
  | v :: vn', u :: un' =>
      let p := wrap_u128 (qhat * v + carry) in
      let t := u - borrow - wrap_u64 p in
      let '(rest, neg) := mul_sub qhat vn' un' (if t <? 0 then 1 else 0) (Z.shiftr p 64) in
      (wrap_u64 t :: rest, neg)
  | [], u :: un' => let t := u - borrow - carry in (wrap_u64 t :: un', t <? 0)
  | _, [] => ([], false)
  end.

(** [un[j ..= j + n] += vn], the last carry added wrapping. *)
Fixpoint add_back (vn un : list Z) (c : Z) : list Z :=
  match vn, un with
  | v :: vn', u :: un' =>
      let s2 := wrap_u128 (u + v + c) in
      wrap_u64 s2 :: add_back vn' un' (Z.shiftr s2 64)
  | [], u :: un' => wrap_u64 (u + wrap_u64 c) :: un'
  | _, [] => []
  end.

(** One quotient limb from the window of [un] at [j]: estimate, multiply and
    subtract, and add the divisor back once if that went below zero. *)
Definition quotient_limb (vn : list Z) (n : nat) (w : list Z) : list Z * Z :=
  let top := get vn (n - 1) in
  let next := get vn (n - 2) in
  let num := Z.lor (wrap_u128 (Z.shiftl (get w n) 64)) (get w (n - 1)) in
  let '(qhat, _) := refine_qhat QHAT_FUEL (num / top) (num mod top) top next (get w (n - 2)) in
  let '(w', neg) := mul_sub qhat vn w 0 0 in
  if neg then (add_back vn w' 0, wrap_u64 (qhat - 1)) else (w', wrap_u64 qhat).

(** Quotient limbs [j - 1] down to [0]. *)
Fixpoint knuth_loop (vn : list Z) (n j : nat) (un q : list Z) : list Z * list Z :=
  match j with
  | O => (un, q)
  | S k =>
      let '(w, qk) := quotient_limb vn n (drop k un) in
      knuth_loop vn n k (take k un ++ w) (<[k := qk]> q)
  end.

Definition divmod_512_by_256 (u v : list Z) : list Z * list Z :=
  let q := replicate 8 0 in
  let n := used_limbs 4 v in
  if (n =? 0)%nat then (q, replicate 4 0)
  else
    let m := used_limbs 8 u in
    if (m <? n)%nat then (q, take 4 u)
    else if (n =? 1)%nat then
      let '(q, rem) := short_div (get v 0) m u q 0 in (q, [wrap_u64 rem; 0; 0; 0])
    else
      let s := lz_u64 (get v (n - 1)) in
      let vn := shl_limbs s 0 (take n v) in
      let un := shl_limbs s 0 (take m u ++ [0]) ++ replicate (8 - m) 0 in
      let '(un, q) := knuth_loop vn n (m - n + 1) un q in
      (q, shr_limbs s n un ++ replicate (4 - n) 0).

(** ** The integer *)

Module U256.

Record t := mk { hi : Z; lo : Z }.
#[export] Instance t_eq_dec : EqDecision t.
Proof. solve_decision. Defined.

Definition ZERO : t := mk 0 0.
Definition ONE : t := mk 0 1.
Definition MAX : t := mk u128_max u128_max.

Definition from_u128 (x : Z) : t := mk 0 x.

Definition pow2 (n : Z) : t :=
  if n <? 128 then mk 0 (wrap_u128 (Z.shiftl 1 n)) else mk (wrap_u128 (Z.shiftl 1 (n - 128))) 0.

Definition lt (a b : t) : bool := (hi a <? hi b) || ((hi a =? hi b) && (lo a <? lo b)).
Definition le (a b : t) : bool := negb (lt b a).
Definition same_as (a b : t) : bool := (hi a =? hi b) && (lo a =? lo b).
Definition is_zero (a : t) : bool := (hi a =? 0) && (lo a =? 0).
Definition saturating_u128 (a : t) : Z := if hi a =? 0 then lo a else u128_max.
Definition from_u160 (l h : Z) : t := mk h l.
Definition to_u160 (a : t) : option (Z * Z) := if hi a <=? u32_max then Some (lo a, wrap_u32 (hi a)) else None.
Definition leading_zeros (a : t) : Z := if negb (hi a =? 0) then lz_u128 (hi a) else 128 + lz_u128 (lo a).
Definition msb (a : t) : Z := 255 - leading_zeros a.

(** [u128::overflowing_add] and [overflowing_sub]. *)
Definition add_u128 (a b : Z) : Z * bool := (wrap_u128 (a + b), u128_max <? a + b).
Definition sub_u128 (a b : Z) : Z * bool := (wrap_u128 (a - b), a - b <? 0).
Definition bit (b : bool) : Z := if b then 1 else 0.

Definition overflowing_add (a b : t) : t * bool :=
  let '(l, c) := add_u128 (lo a) (lo b) in
  let '(h1, o1) := add_u128 (hi a) (hi b) in
  let '(h, o2) := add_u128 h1 (bit c) in
  (mk h l, o1 || o2).

Definition overflowing_sub (a b : t) : t * bool :=
  let '(l, c) := sub_u128 (lo a) (lo b) in
  let '(h1, o1) := sub_u128 (hi a) (hi b) in
  let '(h, o2) := sub_u128 h1 (bit c) in
  (mk h l, o1 || o2).

Definition checked_add (a b : t) : option t := let '(v, o) := overflowing_add a b in if o then None else Some v.
Definition checked_sub (a b : t) : option t := let '(v, o) := overflowing_sub a b in if o then None else Some v.
Definition wrapping_add (a b : t) : t := fst (overflowing_add a b).
Definition wrapping_sub (a b : t) : t := fst (overflowing_sub a b).
Definition wrapping_neg (a : t) : t := wrapping_sub ZERO a.

Definition shl (a : t) (n : Z) : t :=
  if n =? 0 then a
  else if 256 <=? n then ZERO
  else if 128 <=? n then mk (wrap_u128 (Z.shiftl (lo a) (n - 128))) 0
  else mk (Z.lor (wrap_u128 (Z.shiftl (hi a) n)) (Z.shiftr (lo a) (128 - n))) (wrap_u128 (Z.shiftl (lo a) n)).

Definition shr (a : t) (n : Z) : t :=
  if n =? 0 then a
  else if 256 <=? n then ZERO
  else if 128 <=? n then mk 0 (Z.shiftr (hi a) (n - 128))
  else mk (Z.shiftr (hi a) n) (Z.lor (Z.shiftr (lo a) n) (wrap_u128 (Z.shiftl (hi a) (128 - n)))).

Definition limbs (a : t) : list Z :=
  [wrap_u64 (lo a); wrap_u64 (Z.shiftr (lo a) 64); wrap_u64 (hi a); wrap_u64 (Z.shiftr (hi a) 64)].

Definition from_limbs (l0 l1 l2 l3 : Z) : t :=
  mk (Z.lor (Z.shiftl l3 64) l2) (Z.lor (Z.shiftl l1 64) l0).

Definition mul_u128 (a b : Z) : t :=
  let a0 := wrap_u64 a in let a1 := Z.shiftr a 64 in
  let b0 := wrap_u64 b in let b1 := Z.shiftr b 64 in
  let p00 := a0 * b0 in let p01 := a0 * b1 in let p10 := a1 * b0 in let p11 := a1 * b1 in
  let mid := wrap_u128 (Z.shiftr p00 64 + wrap_u64 p01 + wrap_u64 p10) in
  let l := Z.lor (wrap_u64 p00) (wrap_u128 (Z.shiftl mid 64)) in
  let h := wrap_u128 (p11 + Z.shiftr p01 64 + Z.shiftr p10 64 + Z.shiftr mid 64) in
  mk h l.

Definition checked_mul (a b : t) : option t :=
  let p := full_mul (limbs a) (limbs b) in
  if negb (Z.lor (Z.lor (Z.lor (get p 4) (get p 5)) (get p 6)) (get p 7) =? 0) then None
  else Some (from_limbs (get p 0) (get p 1) (get p 2) (get p 3)).

Definition checked_div_rem (a d : t) : option (t * t) :=
  if is_zero d then None
  else
    let '(q, r) := divmod_512_by_256 (limbs a ++ [0; 0; 0; 0]) (limbs d) in
    Some (from_limbs (get q 0) (get q 1) (get q 2) (get q 3), from_limbs (get r 0) (get r 1) (get r 2) (get r 3)).

(** One Newton step: [(x + a / x) / 2], the carry folded back in. *)
Definition newton_step (a x : t) : option t :=
  match checked_div_rem a x with
  | None => None
  | Some (q, _) =>
      let '(s, o) := overflowing_add x q in
      Some (if o then wrapping_add (shr s 1) (pow2 255) else shr s 1)
  end.

Fixpoint newton_loop (fuel : nat) (a x : t) : t :=
  match fuel with
  | O => x
  | S f =>
      match newton_step a x with
      | None => ZERO
      | Some y => if le x y then x else newton_loop f a y
      end
  end.

(** A step halves the distance to the root: [129] cover [2 ^ 128]. *)
Definition ISQRT_FUEL : nat := 129.

Definition isqrt (a : t) : t :=
  if (hi a =? 0) && (lo a <? 2) then a
  else
    let bits := 256 - leading_zeros a in
    newton_loop ISQRT_FUEL a (pow2 ((bits + 1) / 2)).

End U256.

Notation U256 := U256.t.
#[export] Existing Instance U256.t_eq_dec.

Definition mul_div_rem (a b d : U256) : option (U256 * U256) :=
  if U256.is_zero d then None
  else
    let p := full_mul (U256.limbs a) (U256.limbs b) in
    let '(q, r) := divmod_512_by_256 p (U256.limbs d) in
    if negb (Z.lor (Z.lor (Z.lor (get q 4) (get q 5)) (get q 6)) (get q 7) =? 0) then None
    else Some (U256.from_limbs (get q 0) (get q 1) (get q 2) (get q 3),
               U256.from_limbs (get r 0) (get r 1) (get r 2) (get r 3)).

Definition mul_div (a b d : U256) : option U256 :=
  match mul_div_rem a b d with
  | Some (q, _) => Some q
  | None => None
  end.

Definition mul_div_rounding_up (a b d : U256) : option U256 :=
  match mul_div_rem a b d with
  | Some (q, r) => if U256.is_zero r then Some q else U256.checked_add q U256.ONE
  | None => None
  end.

Definition div_rounding_up (a b : U256) : option U256 :=
  match U256.checked_div_rem a b with
  | Some (q, r) => if U256.is_zero r then Some q else U256.checked_add q U256.ONE
  | None => None
  end.
