(* ===== verification/AmmLimbs.v ===== *)
(** * Limb arithmetic is integer arithmetic

    The value of a limb list, and what the product, the shifts and the
    division of [AmmU256] compute on it: the schoolbook rows multiply, one
    Knuth step is one digit of the quotient, the division is Euclid's. *)

From S2P Require Import Prelude AmmU256.

(** ** Values *)

Lemma radix_pos : 2 <= RADIX.
Proof. by vm_compute. Qed.
Lemma radix_pow : RADIX = 2 ^ 64.
Proof. by vm_compute. Qed.
Lemma wrap_u64_mod z : wrap_u64 z = z mod RADIX.
Proof. done. Qed.
Lemma wrap_u128_mod z : wrap_u128 z = z mod (RADIX * RADIX).
Proof. done. Qed.
Lemma shiftr_radix z : Z.shiftr z 64 = z / RADIX.
Proof. by rewrite Z.shiftr_div_pow2 by lia. Qed.
#[local] Opaque RADIX.

Definition limb (x : Z) : Prop := 0 <= x < RADIX.

Create HintDb limbs.

Fixpoint lval (l : list Z) : Z :=
  match l with
  | [] => 0
  | x :: l' => x + RADIX * lval l'
  end.

(** The weight of limb [n]. *)
Definition weight (n : nat) : Z := RADIX ^ Z.of_nat n.

Lemma weight_0 : weight 0 = 1.
Proof. done. Qed.
Lemma weight_S n : weight (S n) = RADIX * weight n.
Proof. unfold weight. rewrite Nat2Z.inj_succ, Z.pow_succ_r by lia. done. Qed.
Lemma weight_pos n : 0 < weight n.
Proof. pose proof radix_pos. apply Z.pow_pos_nonneg; lia. Qed.
Lemma weight_add n k : weight (n + k) = weight n * weight k.
Proof. unfold weight. rewrite Nat2Z.inj_add, Z.pow_add_r by lia. done. Qed.
#[export] Hint Resolve weight_pos : limbs.

Lemma lval_app l1 l2 : lval (l1 ++ l2) = lval l1 + weight (length l1) * lval l2.
Proof.
  induction l1 as [|x l1 IH]; cbn [app lval length]; [rewrite weight_0; lia|]. rewrite IH, weight_S. lia.
Qed.

Lemma lval_zeros n : lval (replicate n 0) = 0.
Proof. induction n as [|n IH]; cbn [replicate lval]; lia. Qed.

Lemma limbs_zeros n : Forall limb (replicate n 0).
Proof. apply Forall_replicate. pose proof radix_pos. unfold limb. lia. Qed.

Lemma lval_bound l : Forall limb l -> 0 <= lval l < weight (length l).
Proof.
  induction 1 as [|x l Hx Hl IH]; cbn [lval length]; [rewrite weight_0; lia|]. rewrite weight_S.
  unfold limb in Hx. pose proof radix_pos. nia.
Qed.

Lemma limb_get l i : Forall limb l -> limb (get l i).
Proof.
  intros Hl. unfold get. destruct (l !! i) as [x|] eqn:E; cbn [default].
  - by eapply Forall_lookup_1.
  - pose proof radix_pos. unfold limb. lia.
Qed.

Lemma limb_wrap z : limb (wrap_u64 z).
Proof. rewrite wrap_u64_mod. pose proof radix_pos. apply Z.mod_pos_bound. lia. Qed.
#[export] Hint Resolve limb_wrap limbs_zeros : limbs.

Lemma lval_take_S l k : (k < length l)%nat -> lval (take (S k) l) = lval (take k l) + weight k * get l k.
Proof.
  intros Hk. rewrite (take_S_r l k (get l k)) by by apply get_lookup. rewrite lval_app. cbn [lval].
  rewrite length_take_le by lia. lia.
Qed.

Lemma lval_insert l k x : (k < length l)%nat -> lval (<[k := x]> l) = lval l + weight k * (x - get l k).
Proof.
  revert k. induction l as [|y l IH]; intros k Hk; cbn [length] in Hk; [lia|].
  destruct k as [|k].
  - cbn. rewrite weight_0. lia.
  - change (<[S k := x]> (y :: l)) with (y :: <[k := x]> l). cbn [lval]. rewrite IH by lia. rewrite weight_S.
    change (get (y :: l) (S k)) with (get l k). lia.
Qed.

(** Disjoint bits add. *)
Lemma lor_low_high a b n : 0 <= n -> 0 <= b < 2 ^ n -> Z.lor (a * 2 ^ n) b = a * 2 ^ n + b.
Proof. intros Hn Hb. rewrite <- (Z.shiftl_mul_pow2 a n) by lia. rewrite lor_shiftl by lia. by rewrite Z.shiftl_mul_pow2 by lia. Qed.

Lemma lor_radix a b : limb a -> limb b -> Z.lor (wrap_u128 (Z.shiftl a 64)) b = a * RADIX + b.
Proof.
  unfold limb. intros Ha Hb. rewrite Z.shiftl_mul_pow2 by lia. rewrite <- radix_pow, wrap_u128_mod, Z.mod_small by nia.
  rewrite radix_pow in *. by apply lor_low_high.
Qed.

Lemma lor_radix_wide a b : limb b -> Z.lor (Z.shiftl a 64) b = a * RADIX + b.
Proof. unfold limb. rewrite radix_pow. intros Hb. rewrite lor_shiftl by lia. lia. Qed.

(** A limb and a carry: the two halves of a double limb. *)
Lemma split_radix t : 0 <= t < RADIX * RADIX -> limb (t / RADIX) /\ t = wrap_u64 t + RADIX * (t / RADIX).
Proof.
  intros Ht. pose proof radix_pos. rewrite wrap_u64_mod. pose proof (Z.div_mod t RADIX ltac:(lia)). split; [|lia].
  split; [apply Z.div_pos; lia|apply Z.div_lt_upper_bound; lia].
Qed.

(** ** The product *)

Lemma mul_row_spec a b r tl carry : limb a -> limb carry -> Forall limb b -> Forall limb r -> length r = length b ->
  exists r', mul_row a b (r ++ 0 :: tl) carry = r' ++ tl /\ length r' = S (length b) /\ Forall limb r' /\
    lval r' = lval r + a * lval b + carry.
Proof.
  intros Ha Hc Hb. revert r carry Hc. induction Hb as [|bj b Hbj Hb IH]; intros r carry Hc Hr Hl.
  - destruct r; [|done]. exists [wrap_u64 carry]. cbn. split_and!; [done|done|by repeat constructor; apply limb_wrap|].
    rewrite wrap_u64_mod, Z.mod_small by exact Hc. lia.
  - destruct Hr as [|rj r Hrj Hr]; [done|]. cbn [app mul_row length] in *. unfold limb in Ha, Hc, Hbj, Hrj.
    assert (0 <= a * bj + rj + carry < RADIX * RADIX) as Ht by nia.
    rewrite (wrap_u128_mod (a * bj + rj + carry)), Z.mod_small by exact Ht. destruct (split_radix _ Ht) as [Hq Et].
    rewrite shiftr_radix. destruct (IH r _ Hq Hr ltac:(lia)) as (r' & E & El & Ef & Ev).
    eexists (_ :: r'). rewrite E. split_and!; [done|cbn [length]; lia|constructor; [apply limb_wrap|done]|].
    cbn [lval]. rewrite Ev. nia.
Qed.

Lemma mul_rows_spec a b r : Forall limb a -> Forall limb b -> Forall limb r -> length r = length b ->
  let p := mul_rows a b (r ++ replicate (length a) 0) in
  lval p = lval r + lval a * lval b /\ Forall limb p /\ length p = (length a + length b)%nat.
Proof.
  intros Ha Hb. revert r. induction Ha as [|ai a Hai Ha IH]; intros r Hr Hl; cbn [mul_rows length replicate].
  - rewrite app_nil_r. cbn [lval]. split_and!; [lia|done|lia].
  - destruct (mul_row_spec ai b r (replicate (length a) 0) 0 Hai ltac:(pose proof radix_pos; unfold limb; lia) Hb Hr Hl)
      as (r' & -> & El & Ef & Ev). destruct Ef as [|r0 r' H0 Ef]; [done|]. cbn [app length lval] in *.
    destruct (IH r' Ef ltac:(lia)) as (Pv & Pf & Pl). cbv zeta in *. split_and!; [|by constructor|lia].
    rewrite Pv. lia.
Qed.

Lemma full_mul_spec a b : Forall limb a -> Forall limb b -> length a = 4%nat -> length b = 4%nat ->
  lval (full_mul a b) = lval a * lval b /\ Forall limb (full_mul a b) /\ length (full_mul a b) = 8%nat.
Proof.
  intros Ha Hb La Lb. unfold full_mul.
  destruct (mul_rows_spec a b (replicate 4 0) Ha Hb (limbs_zeros _) ltac:(by rewrite length_replicate)) as (V & F & L).
  rewrite La in *. change (replicate 4 0 ++ replicate 4 0) with (replicate 8 0) in *. rewrite lval_zeros in V.
  split_and!; [lia|done|lia].
Qed.

(** ** Sizes and division by one limb *)

Lemma used_limbs_spec n v : (n <= length v)%nat ->
  let k := used_limbs n v in
  (k <= n)%nat /\ lval (take k v) = lval (take n v) /\ ((0 < k)%nat -> get v (k - 1) <> 0).
Proof.
  intros Hn. cbv zeta. induction n as [|n IH]; cbn [used_limbs]; [split_and!; [lia|done|lia]|].
  destruct (Z.eqb_spec (get v n) 0) as [E|E].
  - destruct (IH ltac:(lia)) as (A & B & C). split_and!; [lia| |done]. rewrite (lval_take_S v n), E by lia. lia.
  - split_and!; [lia|done|]. intros _. by replace (S n - 1)%nat with n by lia.
Qed.

Lemma short_div_spec d i u q rem : 0 < d < RADIX -> Forall limb u -> 0 <= rem < d ->
  (i <= length u)%nat -> (i <= length q)%nat -> (forall k, (k < i)%nat -> get q k = 0) -> Forall limb q ->
  let '(q', rem') := short_div d i u q rem in
  lval q' * d + rem' = lval q * d + rem * weight i + lval (take i u) /\
  0 <= rem' < d /\ Forall limb q' /\ length q' = length q.
Proof.
  intros Hd Hu. revert q rem. induction i as [|k IH]; intros q rem Hr Lu Lq Hz Hq; cbn [short_div].
  { rewrite weight_0. rewrite take_0; cbn [lval]. split_and!; [lia|lia|lia|done|done]. }
  pose proof (limb_get u k Hu) as Lk. rewrite lor_radix by (done || (unfold limb; lia)).
  set (cur := rem * RADIX + get u k). unfold limb in Lk.
  assert (0 <= cur < d * RADIX) as Hc by (unfold cur; nia).
  assert (0 <= cur / d < RADIX) as Hq' by (split; [apply Z.div_pos; lia|apply Z.div_lt_upper_bound; lia]).
  rewrite (wrap_u64_mod (cur / d)), Z.mod_small by done.
  specialize (IH (<[k := cur / d]> q) (cur mod d) (Z.mod_pos_bound cur d ltac:(lia)) ltac:(lia)
    ltac:(rewrite length_insert; lia)).
  destruct (short_div d k u (<[k:=cur / d]> q) (cur mod d)) as [q' rem'].
  destruct IH as (V & R & F & L).
  { intros i Hi. rewrite get_insert_ne by lia. apply Hz. lia. }
  { by apply Forall_insert. }
  rewrite length_insert in L. split_and!; [|lia|lia|done|done].
  rewrite V, lval_insert, (Hz k) by lia. rewrite lval_take_S, weight_S by lia.
  pose proof (Z.div_mod cur d ltac:(lia)) as D. fold cur. unfold cur in D at 1. nia.
Qed.

(** ** Shifts *)

Lemma limb_shl k x : 0 <= k <= 64 -> wrap_u64 (Z.shiftl x k) = 2 ^ k * (x mod 2 ^ (64 - k)).
Proof.
  intros Hk. rewrite wrap_u64_mod, Z.shiftl_mul_pow2, radix_pow by lia.
  replace (2 ^ 64) with (2 ^ k * 2 ^ (64 - k)) by (rewrite <- Z.pow_add_r by lia; f_equal; lia).
  rewrite (Z.mul_comm x), Z.mul_mod_distr_l; [done| |]; apply Z.pow_nonzero; lia.
Qed.

Section Shifts.
Variable s : Z.
Hypothesis Hs : 0 <= s < 64.

Lemma radix_split : RADIX = 2 ^ s * 2 ^ (64 - s).
Proof. rewrite radix_pow, <- Z.pow_add_r by lia. f_equal. lia. Qed.

(** One limb of the left shift. *)
Lemma shl_limb x prev : limb x -> limb prev ->
  let y := if s =? 0 then x else Z.lor (wrap_u64 (Z.shiftl x s)) (Z.shiftr prev (64 - s)) in
  limb y /\ y + RADIX * (x / 2 ^ (64 - s)) = 2 ^ s * x + prev / 2 ^ (64 - s).
Proof.
  intros Hx Hp. cbv zeta. unfold limb in *. pose proof radix_pos. destruct (Z.eqb_spec s 0) as [->|E].
  { rewrite Z.sub_0_r, <- radix_pow. change (2 ^ 0) with 1. rewrite (Z.div_small x), (Z.div_small prev) by done. lia. }
  assert (0 < 2 ^ s) as P1 by (apply Z.pow_pos_nonneg; lia).
  assert (0 < 2 ^ (64 - s)) as P2 by (apply Z.pow_pos_nonneg; lia).
  pose proof radix_split as RS. rewrite limb_shl, Z.shiftr_div_pow2 by lia.
  assert (0 <= prev / 2 ^ (64 - s) < 2 ^ s) as Hq by (split; [apply Z.div_pos; lia|apply Z.div_lt_upper_bound; lia]).
  rewrite (Z.mul_comm (2 ^ s)), lor_low_high by lia.
  pose proof (Z.mod_pos_bound x (2 ^ (64 - s)) P2). pose proof (Z.div_mod x (2 ^ (64 - s)) ltac:(lia)).
  set (q := x / 2 ^ (64 - s)) in *. set (r := x mod 2 ^ (64 - s)) in *. rewrite RS. nia.
Qed.

Lemma last_cons_default (x : Z) l d : List.last (x :: l) d = List.last l x.
Proof.
  revert x d. induction l as [|y l IH]; intros x d; [done|].
  change (List.last (x :: y :: l) d) with (List.last (y :: l) d). by rewrite !IH.
Qed.

(** The bits shifted out of the last limb are those the value lacks. *)
Lemma shl_limbs_spec l prev : limb prev -> Forall limb l ->
  let y := shl_limbs s prev l in
  Forall limb y /\ length y = length l /\
  lval y + weight (length l) * (List.last l prev / 2 ^ (64 - s)) = 2 ^ s * lval l + prev / 2 ^ (64 - s).
Proof.
  intros Hp Hl. revert prev Hp. induction Hl as [|x l Hx Hl IH]; intros prev Hp; cbn [shl_limbs lval length].
  { cbn [List.last]. rewrite weight_0. split_and!; [done|done|lia]. }
  destruct (shl_limb x prev Hx Hp) as [Y1 Y2]. destruct (IH x Hx) as (F & L & V). cbv zeta in *.
  split_and!; [by constructor|lia|]. rewrite weight_S.
  rewrite last_cons_default.
  set (w := weight (length l)) in *. set (c := List.last l x / 2 ^ (64 - s)) in *. nia.
Qed.

(** A right shift of the first [n] limbs, the limb above them giving its low
    bits. *)
Lemma shr_limbs_spec n l : Forall limb l -> length l = S n -> get l n = 0 ->
  Forall limb (shr_limbs s n l) /\ length (shr_limbs s n l) = n /\ lval (shr_limbs s n l) = lval l / 2 ^ s.
Proof.
  intros Hl. revert n. induction Hl as [|x l Hx Hl IH]; intros n Ln Hn; [done|]. cbn [length] in Ln.
  assert (0 < 2 ^ s) as P1 by (apply Z.pow_pos_nonneg; lia).
  assert (0 < 2 ^ (64 - s)) as P2 by (apply Z.pow_pos_nonneg; lia).
  destruct n as [|k].
  { destruct l; [|done]. cbn in Hn. subst x. cbn [shr_limbs lval length]. split_and!; [done|done|].
    rewrite Z.mul_0_r, Z.div_0_l by lia. done. }
  assert (length l = S k) as Lk by lia. destruct (IH k Lk Hn) as (F & L & V). cbn [shr_limbs lval length].
  assert (exists y l', l = y :: l') as (y & l' & El) by (destruct l; [done|eauto]).
  assert (limb y) as Hy by (subst l; by inversion Hl). assert (get l 0 = y) as -> by by subst l.
  assert ((x + RADIX * lval l) / 2 ^ s = x / 2 ^ s + 2 ^ (64 - s) * (y mod 2 ^ s) + RADIX * (lval l / 2 ^ s)) as EV.
  { rewrite radix_split. replace (x + 2 ^ s * 2 ^ (64 - s) * lval l) with (x + 2 ^ (64 - s) * lval l * 2 ^ s) by lia.
    rewrite Z.div_add by lia. pose proof (Z.div_mod (lval l) (2 ^ s) ltac:(lia)) as D.
    assert (lval l mod 2 ^ s = y mod 2 ^ s) as Em.
    { subst l. cbn [lval]. rewrite radix_split. replace (y + 2 ^ s * 2 ^ (64 - s) * lval l') with (y + 2 ^ (64 - s) * lval l' * 2 ^ s) by lia.
      by rewrite Z.mod_add by lia. }
    rewrite Em in D. rewrite D at 1. lia. }
  assert (let z := if s =? 0 then x else Z.lor (Z.shiftr x s) (wrap_u64 (Z.shiftl y (64 - s))) in
          limb z /\ z = x / 2 ^ s + 2 ^ (64 - s) * (y mod 2 ^ s)) as [Z1 Z2].
  { cbv zeta. unfold limb in *. pose proof radix_pos. destruct (Z.eqb_spec s 0) as [->|E].
    { change (2 ^ 0) with 1. rewrite Z.div_1_r, Z.mod_1_r. lia. }
    rewrite Z.shiftr_div_pow2, limb_shl by lia. replace (64 - (64 - s)) with s by lia. pose proof radix_split as RS.
    assert (0 <= x / 2 ^ s < 2 ^ (64 - s)) as Hq by (split; [apply Z.div_pos; lia|apply Z.div_lt_upper_bound; lia]).
    pose proof (Z.mod_pos_bound y (2 ^ s) P1). rewrite Z.lor_comm, (Z.mul_comm (2 ^ (64 - s))), lor_low_high by lia.
    rewrite RS. set (m := y mod 2 ^ s) in *. split; [nia|lia]. }
  cbv zeta in Z1, Z2. split_and!; [by constructor|lia|]. rewrite V, EV, Z2. lia.
Qed.

End Shifts.
