(* ===== verification/AmmDivision.v ===== *)
(** * The 512-by-256 division is Euclid's

    Knuth's estimate is at most one too large, a step of the loop is one digit
    of the quotient, and [divmod_512_by_256] is the quotient and remainder of
    the values. *)

From S2P Require Import Prelude AmmU256 AmmLimbs.

#[local] Opaque RADIX.

(** ** The estimate of one digit *)

Section Estimate.
Variables (top next u2 num D w P dr wr : Z).
Hypothesis Htop : limb top.
Hypothesis Hhalf : RADIX <= 2 * top.
Hypothesis Hnext : limb next.
Hypothesis Hu2 : limb u2.
Hypothesis HP : 0 < P.
Hypothesis Hdr : 0 <= dr < P.
Hypothesis Hwr : 0 <= wr < P.
Hypothesis ED : D = (top * RADIX + next) * P + dr.
Hypothesis EW : w = (num * RADIX + u2) * P + wr.
Hypothesis Hw : 0 <= w < RADIX * D.

Lemma divisor_big : RADIX * P <= D.
Proof. clear Hu2. unfold limb in *. pose proof radix_pos. assert (1 <= top) by lia. assert (RADIX * P <= top * RADIX * P) by nia. nia. Qed.

Lemma num_bound : num <= top * RADIX + next.
Proof.
  pose proof radix_pos. unfold limb in *. assert (num * RADIX + u2 < RADIX * (top * RADIX + next + 1)) as H1.
  { apply (Z.mul_lt_mono_pos_r P); [done|]. nia. }
  apply Z.lt_succ_r. apply (Z.mul_lt_mono_pos_l RADIX); lia.
Qed.

(** An estimate the test passes is at most one too large. *)
Lemma estimate_exit q : 0 <= q <= RADIX -> q * (top * RADIX + next) <= num * RADIX + u2 -> q <= w / D + 1.
Proof.
  intros Hq Hle. pose proof divisor_big as HD. pose proof radix_pos. assert (0 < D) by nia.
  assert (q - 1 <= w / D); [|lia]. apply Z.div_le_lower_bound; [done|].
  assert (q * (top * RADIX + next) * P <= (num * RADIX + u2) * P) by (apply Z.mul_le_mono_nonneg_r; lia).
  assert (q * dr <= RADIX * P) by nia. rewrite ED in *. nia.
Qed.

(** One the test fails is too large. *)
Lemma estimate_high q : num * RADIX + u2 < q * (top * RADIX + next) -> 0 <= q -> w / D < q.
Proof.
  intros Hgt Hq. pose proof divisor_big as HD. pose proof radix_pos. assert (0 < D) by nia.
  apply Z.div_lt_upper_bound; [done|].
  assert ((num * RADIX + u2 + 1) * P <= q * (top * RADIX + next) * P) by (apply Z.mul_le_mono_nonneg_r; lia).
  rewrite ED, EW. nia.
Qed.

Lemma refine_qhat_spec fuel qhat rhat :
  num = qhat * top + rhat -> limb rhat -> 0 <= qhat -> w / D <= qhat -> RADIX <= rhat + Z.of_nat fuel * top ->
  let q := (refine_qhat fuel qhat rhat top next u2).1 in w / D <= q <= w / D + 1 /\ q < RADIX.
Proof.
  pose proof radix_pos as RP. pose proof divisor_big as HD. pose proof num_bound as NB. unfold limb in *.
  assert (0 <= w / D < RADIX) as HQ by (split; [apply Z.div_pos; nia|apply Z.div_lt_upper_bound; nia]).
  revert qhat rhat. induction fuel as [|f IH]; intros qhat rhat En Hr Hq Hlow Hfuel; [lia|].
  cbn [refine_qhat]. rewrite lor_radix by done. destruct (Z.leb_spec RADIX qhat) as [Hb|Hb]; cbn [orb].
  2: { rewrite wrap_u128_mod, Z.mod_small by nia. destruct (Z.ltb_spec (rhat * RADIX + u2) (qhat * next)) as [Ht|Ht].
       2: { cbn [fst]. split; [split; [done|]|done]. apply estimate_exit; [lia|]. rewrite En. nia. }
       assert (w / D < qhat) by (apply estimate_high; [rewrite En; nia|lia]).
       destruct (Z.leb_spec RADIX (rhat + top)) as [Hx|Hx]; [cbn [fst]|apply IH; [lia|lia|lia|lia|lia]].
       split; [split; [lia|]|lia]. apply estimate_exit; [lia|]. rewrite En. nia. }
  assert (w / D <= qhat - 1) by lia.
  destruct (Z.leb_spec RADIX (rhat + top)) as [Hx|Hx]; [cbn [fst]|apply IH; [lia|lia|lia|lia|lia]].
  assert (qhat - 1 < RADIX) as Hq1.
  { assert ((qhat - 1) * top < RADIX * top) as G by (rewrite En in NB; nia). nia. }
  split; [split; [lia|]|done]. apply estimate_exit; [lia|]. rewrite En. nia.
Qed.

Lemma first_estimate : w / D <= num / top.
Proof.
  pose proof divisor_big as HD. pose proof radix_pos. assert (0 < top) as TP by (unfold limb in Htop; lia). assert (0 < D) as DP by nia.
  destruct (Z.le_gt_cases (w / D) (num / top)) as [|G]; [done|]. exfalso.
  pose proof (Z.mul_succ_div_gt num top TP). set (Q := w / D) in *.
  assert (Q * D <= w) as G2 by (unfold Q; pose proof (Z.mul_div_le w D DP); lia).
  assert (num + 1 <= Q * top) as G1.
  { assert (Z.succ (num / top) * top <= Q * top) by (apply Z.mul_le_mono_nonneg_r; lia). lia. }
  assert ((num + 1) * RADIX <= Q * (top * RADIX + next)) as G3.
  { unfold limb in Hnext. assert (0 <= Q * next) by (apply Z.mul_nonneg_nonneg; [apply Z.div_pos; lia|lia]).
    assert ((num + 1) * RADIX <= Q * top * RADIX) by (apply Z.mul_le_mono_nonneg_r; lia). lia. }
  assert ((num + 1) * RADIX * P <= Q * (top * RADIX + next) * P) as G4 by (apply Z.mul_le_mono_nonneg_r; lia).
  unfold limb in Hu2. rewrite ED, EW in G2. assert (0 <= Q) as HQ by (apply Z.div_pos; lia). assert (0 <= Q * dr) by nia.
  assert (u2 * P + P <= RADIX * P) by nia. lia.
Qed.

(** The estimate of the digit: the quotient or one more. *)
Lemma qhat_spec : 0 <= num ->
  let q := (refine_qhat QHAT_FUEL (num / top) (num mod top) top next u2).1 in w / D <= q <= w / D + 1 /\ q < RADIX.
Proof.
  intros Hn. pose proof radix_pos. pose proof Htop as Ht. unfold limb in Ht. assert (0 < top) as TP by lia.
  pose proof (Z.div_mod num top ltac:(lia)). pose proof (Z.mod_pos_bound num top TP).
  apply refine_qhat_spec; [lia|unfold limb; lia|apply Z.div_pos; lia|apply first_estimate|unfold QHAT_FUEL; lia].
Qed.

End Estimate.

(** ** Multiply, subtract, add back *)

Lemma mul_sub_spec qhat vn un borrow carry :
  limb qhat -> (borrow = 0 \/ borrow = 1) -> limb carry -> Forall limb vn -> Forall limb un -> (length vn < length un)%nat ->
  let '(w, neg) := mul_sub qhat vn un borrow carry in
  Forall limb w /\ length w = length un /\ drop (S (length vn)) w = drop (S (length vn)) un /\
  lval w = lval un - qhat * lval vn - borrow - carry + (if neg then weight (S (length vn)) else 0).
Proof.
  intros Hq Hb Hc Hv. revert un borrow carry Hb Hc. pose proof radix_pos as RP. unfold limb in Hq.
  induction Hv as [|v vn Hv Hvn IH]; intros un borrow carry Hb Hc Hu Hl; (destruct Hu as [|u un Hu Hun]; [cbn [length] in Hl; lia|]);
    cbn [mul_sub length lval] in *; unfold limb in Hc, Hu.
  - split_and!; [by constructor; [apply limb_wrap|]|done|done|]. rewrite weight_S, weight_0, wrap_u64_mod.
    destruct (Z.ltb_spec (u - borrow - carry) 0) as [Hn|Hn]; [|rewrite Z.mod_small; lia].
    rewrite <- (Z.mod_add _ 1), Z.mod_small by lia. lia.
  - unfold limb in Hv. assert (0 <= qhat * v + carry < RADIX * RADIX) as Hp by nia.
    rewrite (wrap_u128_mod (qhat * v + carry)), Z.mod_small by done. destruct (split_radix _ Hp) as [Hp1 Hp2].
    rewrite shiftr_radix. set (p := qhat * v + carry) in *. set (b' := if u - borrow - wrap_u64 p <? 0 then 1 else 0).
    specialize (IH un b' (p / RADIX) ltac:(unfold b'; destruct (_ <? _); auto) Hp1 Hun ltac:(lia)).
    destruct (mul_sub qhat vn un b' (p / RADIX)) as [w neg]. destruct IH as (F & L & T & V). cbn [length lval drop].
    split_and!; [by constructor; [apply limb_wrap|]|lia|done|]. rewrite V, !weight_S.
    assert (wrap_u64 (u - borrow - wrap_u64 p) = u - borrow - wrap_u64 p + RADIX * b') as ->.
    { unfold b'. pose proof (limb_wrap p) as Lp. unfold limb in Lp. rewrite (wrap_u64_mod (u - borrow - wrap_u64 p)).
      destruct (Z.ltb_spec (u - borrow - wrap_u64 p) 0); [|rewrite Z.mod_small; lia].
      rewrite <- (Z.mod_add _ 1), Z.mod_small by lia. lia. }
    destruct neg; nia.
Qed.

Lemma add_back_spec vn un c : limb c -> Forall limb vn -> Forall limb un -> (length vn < length un)%nat ->
  let w := add_back vn un c in
  Forall limb w /\ length w = length un /\ drop (S (length vn)) w = drop (S (length vn)) un /\
  exists k, lval w = lval un + lval vn + c - k * weight (S (length vn)).
Proof.
  intros Hc Hv. revert un c Hc. pose proof radix_pos as RP.
  induction Hv as [|v vn Hv Hvn IH]; intros un c Hc Hu Hl; (destruct Hu as [|u un Hu Hun]; [cbn [length] in Hl; lia|]);
    cbn [add_back length lval] in *; unfold limb in Hc, Hu.
  - split_and!; [by constructor; [apply limb_wrap|]|done|done|]. rewrite weight_S, weight_0, !wrap_u64_mod.
    rewrite (Z.mod_small c) by done. exists ((u + c) / RADIX). pose proof (Z.div_mod (u + c) RADIX ltac:(lia)). lia.
  - unfold limb in Hv. assert (0 <= u + v + c < RADIX * RADIX) as Hp by nia.
    rewrite (wrap_u128_mod (u + v + c)), Z.mod_small by done. destruct (split_radix _ Hp) as [Hp1 Hp2].
    rewrite shiftr_radix. destruct (IH un _ Hp1 Hun ltac:(lia)) as (F & L & T & k & V).
    split_and!; [by constructor; [apply limb_wrap|]|cbn [length]; lia|done|]. exists k. rewrite V, (weight_S (S (length vn))). lia.
Qed.

(** ** One digit *)

Lemma lval_take_drop n l : (n <= length l)%nat -> lval l = lval (take n l) + weight n * lval (drop n l).
Proof. intros Hn. rewrite <- (take_drop n l) at 1. rewrite lval_app. f_equal. by rewrite length_take_le by lia. Qed.

Lemma lval_small_zero l n : Forall limb l -> (n <= length l)%nat -> lval l < weight n -> lval (drop n l) = 0 /\ lval (take n l) = lval l.
Proof.
  intros Hl Hn Hs. pose proof (lval_take_drop n l Hn) as E. pose proof (weight_pos n).
  destruct (lval_bound (drop n l) ltac:(by apply Forall_drop)) as [B1 _].
  destruct (lval_bound (take n l) ltac:(by apply Forall_take)) as [B2 _].
  assert (lval (drop n l) = 0) as Z0 by nia. rewrite Z0 in *. lia.
Qed.

Lemma lval_zero_get l i : Forall limb l -> lval l = 0 -> get l i = 0.
Proof.
  intros Hl. revert i. induction Hl as [|x l Hx Hl IH]; intros i Hv; [done|]. cbn [lval] in Hv.
  destruct (lval_bound l Hl) as [B _]. unfold limb in Hx. pose proof radix_pos.
  assert (lval l = 0) as Hz by nia. assert (x = 0) as -> by nia. destruct i as [|i]; [done|].
  change (get (0 :: l) (S i)) with (get l i). by apply IH.
Qed.

(** A list by its limbs [k + 1] and [k] and what is below them. *)
Lemma top_limbs l k : (S k < length l)%nat -> Forall limb l ->
  lval (take (S (S k)) l) = (get l (S k) * RADIX + get l k) * weight k + lval (take k l) /\ 0 <= lval (take k l) < weight k.
Proof.
  intros Hl F. rewrite !lval_take_S, weight_S by lia. split; [lia|].
  pose proof (lval_bound (take k l) ltac:(by apply Forall_take)) as B. rewrite length_take_le in B by lia. done.
Qed.

Lemma quotient_limb_spec vn k w : let n := S (S k) in
  Forall limb vn -> length vn = n -> RADIX <= 2 * get vn (S k) -> Forall limb w -> (n < length w)%nat ->
  lval w < RADIX * lval vn ->
  let '(w', q) := quotient_limb vn n w in
  Forall limb w' /\ length w' = length w /\ q = lval w / lval vn /\ limb q /\ lval w' = lval w mod lval vn.
Proof.
  intros n Hv Lv Hhalf Hw Lw Hlt. pose proof radix_pos as RP. pose proof (weight_pos k) as WP.
  pose proof (limb_get vn (S k) Hv) as Ltop. pose proof (limb_get w n Hw) as Lwn. pose proof (limb_get w (S k) Hw) as Lwn1.
  unfold quotient_limb. replace (n - 1)%nat with (S k) by lia. replace (n - 2)%nat with k by lia. rewrite lor_radix by done.
  destruct (top_limbs vn k ltac:(lia) Hv) as [ED BD]. rewrite take_ge in ED by lia.
  destruct (lval_bound w Hw) as [W0 _]. destruct (lval_bound vn Hv) as [_ DU]. rewrite Lv in DU.
  assert (lval w < weight (S n)) as WU by (rewrite weight_S; nia).
  destruct (lval_small_zero w (S n) Hw ltac:(lia) WU) as [Zd Et].
  destruct (top_limbs w k ltac:(lia) Hw) as [EW BW].
  rewrite lval_take_S in Et by lia. unfold n in Et at 1. rewrite EW in Et.
  set (num := get w n * RADIX + get w (S k)). set (D := lval vn) in *.
  assert (lval w = (num * RADIX + get w k) * weight k + lval (take k w)) as EW'.
  { rewrite <- Et. unfold num, n. rewrite !weight_S. lia. }
  pose proof (divisor_big _ _ D (weight k) _ Ltop Hhalf (limb_get vn k Hv) WP BD ED) as HD.
  assert (0 < D) as DP by nia.
  assert (0 <= lval w / D < RADIX) as HQ by (split; [apply Z.div_pos; lia|apply Z.div_lt_upper_bound; lia]).
  pose proof (qhat_spec _ _ _ num D (lval w) (weight k) _ _ Ltop Hhalf (limb_get vn k Hv) (limb_get w k Hw) WP BD BW
    ED EW' (conj W0 Hlt) ltac:(unfold limb in *; unfold num; nia)) as HR. cbv zeta in HR.
  destruct (refine_qhat _ _ _ _ _ _) as [qhat rr]. cbn [fst] in HR. destruct HR as [[R1 R2] R3].
  pose proof (mul_sub_spec qhat vn w 0 0 ltac:(unfold limb; lia) (or_introl eq_refl) ltac:(unfold limb; lia) Hv Hw ltac:(lia)) as MS.
  destruct (mul_sub qhat vn w 0 0) as [w' neg]. destruct MS as (F & L & T & V). fold D in V. rewrite Lv in V, T.
  pose proof (Z.div_mod (lval w) D ltac:(lia)) as DM. pose proof (Z.mod_pos_bound (lval w) D DP) as MB.
  set (Q := lval w / D) in *. set (R := lval w mod D) in *.
  assert (forall x, Forall limb x -> length x = length w -> drop (S n) x = drop (S n) w -> 0 <= lval x < weight (S n)) as Small.
  { intros x Fx Lx Tx. rewrite (lval_take_drop (S n) x), Tx, Zd by lia.
    pose proof (lval_bound (take (S n) x) ltac:(by apply Forall_take)) as B. rewrite length_take_le in B by lia. lia. }
  pose proof (Small w' F L T) as Sw'.
  destruct neg.
  - (* one too large: the add-back cancels the borrow *)
    pose proof (add_back_spec vn w' 0 ltac:(unfold limb; lia) Hv F ltac:(lia)) as AB. cbv zeta in AB.
    destruct AB as (F2 & L2 & T2 & c & V2). fold D in V2. rewrite Lv in V2, T2.
    pose proof (Small _ F2 ltac:(lia) ltac:(congruence)) as Sw2.
    assert (qhat = Q + 1) as -> by nia. rewrite wrap_u64_mod, Z.mod_small by lia.
    split_and!; [done|lia|lia|unfold limb; lia|]. assert (weight (S n) <> 0) by (pose proof (weight_pos (S n)); lia).
    assert (lval (add_back vn w' 0) = R + (1 - c) * weight (S n)) as E by lia.
    assert (R < weight (S n)) by (rewrite weight_S; nia). assert (1 - c = 0) by nia. lia.
  - assert (qhat = Q) as -> by nia. rewrite wrap_u64_mod, Z.mod_small by lia.
    split_and!; [done|done|done|unfold limb; lia|lia].
Qed.

(** ** The loop and the whole division *)

Lemma lval_drop_S l k : (k < length l)%nat -> lval (drop k l) = get l k + RADIX * lval (drop (S k) l).
Proof. intros Hk. rewrite (drop_S l (get l k)) by by apply get_lookup. done. Qed.

Lemma knuth_loop_spec vn m j un q : let n := S (S m) in let D := lval vn in
  Forall limb vn -> length vn = n -> RADIX <= 2 * get vn (S m) ->
  Forall limb un -> (j + n <= length un)%nat -> lval (drop j un) < D ->
  Forall limb q -> (j <= length q)%nat -> (forall k, (k < j)%nat -> get q k = 0) ->
  let '(un', q') := knuth_loop vn n j un q in
  lval q' * D + lval un' = lval q * D + lval un /\ lval un' < D /\
  Forall limb un' /\ Forall limb q' /\ length un' = length un /\ length q' = length q.
Proof.
  intros n D Hv Lv Hhalf. revert un q. induction j as [|k IH]; intros un q Hu Lu Hlt Hq Lq Hz; cbn [knuth_loop].
  { done. }
  pose proof (limb_get un k Hu) as Lk. unfold limb in Lk.
  assert (lval (drop k un) < RADIX * D) as Hw by (rewrite lval_drop_S by lia; nia).
  pose proof (quotient_limb_spec vn m (drop k un) Hv Lv Hhalf ltac:(by apply Forall_drop) ltac:(rewrite length_drop; lia) Hw) as Q.
  change (S (S m)) with n in Q. destruct (quotient_limb vn n (drop k un)) as [w qk]. destruct Q as (Fw & Lw & Eq & Lqk & Er).
  rewrite length_drop in Lw. fold D in Eq, Er.
  destruct (lval_bound vn Hv) as [D0 _]. assert (0 < D) as DP.
  { destruct (lval_bound (drop (S k) un) ltac:(by apply Forall_drop)) as [B _]. fold D in D0. lia. }
  pose proof (Z.mod_pos_bound (lval (drop k un)) D DP) as MB.
  assert (length (take k un) = k) as Lt by (rewrite length_take; lia).
  specialize (IH (take k un ++ w) (<[k := qk]> q)). rewrite length_app, Lt, drop_app_length' in IH by lia. rewrite length_insert in IH.
  specialize (IH ltac:(apply Forall_app; split; [by apply Forall_take|done]) ltac:(lia) ltac:(lia)
    ltac:(by apply Forall_insert) ltac:(lia)).
  destruct (knuth_loop vn n k (take k un ++ w) (<[k:=qk]> q)) as [un' q'].
  destruct IH as (V & R & F1 & F2 & L1 & L2).
  { intros i Hi. rewrite get_insert_ne by lia. apply Hz. lia. }
  split_and!; [|done|done|done|lia|done]. rewrite V, lval_insert, (Hz k) by lia. rewrite lval_app, Lt.
  rewrite (lval_take_drop k un) by lia. rewrite Er, Eq. pose proof (Z.div_mod (lval (drop k un)) D ltac:(lia)) as DM.
  set (x := lval (drop k un)) in *. rewrite DM at 3. lia.
Qed.

(** The normalising shift puts the divisor's top limb in the upper half. *)
Lemma normal_shift x : 0 < x < RADIX -> let s := lz_u64 x in
  0 <= s < 64 /\ x / 2 ^ (64 - s) = 0 /\ RADIX <= 2 * (2 ^ s * x).
Proof.
  intros Hx. unfold lz_u64. destruct (Z.eqb_spec x 0); [lia|]. cbv zeta.
  destruct (Z.log2_spec x ltac:(lia)) as [L1 L2]. pose proof (Z.log2_nonneg x).
  assert (Z.log2 x < 64) by (apply Z.log2_lt_pow2; [lia|]; rewrite <- radix_pow; lia).
  replace (64 - (63 - Z.log2 x)) with (Z.succ (Z.log2 x)) by lia. split_and!; [lia|lia|apply Z.div_small; lia|].
  rewrite radix_pow. replace 64 with (1 + (63 - Z.log2 x) + Z.log2 x) by lia. rewrite !Z.pow_add_r by lia. change (2 ^ 1) with 2.
  assert (0 < 2 ^ (63 - Z.log2 x)) by (apply Z.pow_pos_nonneg; lia). nia.
Qed.

Lemma last_get l d : l <> [] -> List.last l d = get l (length l - 1).
Proof.
  induction l as [|x l IH]; [done|]. intros _. destruct l as [|y l]; [done|].
  change (List.last (x :: y :: l) d) with (List.last (y :: l) d). rewrite IH by done.
  cbn [length]. replace (S (S (length l)) - 1)%nat with (S (S (length l) - 1)) by lia. done.
Qed.

Lemma shr_limbs_take s n l : shr_limbs s n (take (S n) l) = shr_limbs s n l.
Proof.
  revert l. induction n as [|n IH]; intros [|x l]; [done|done|done|]. rewrite firstn_cons. cbn [shr_limbs]. rewrite IH.
  by destruct l.
Qed.

(** A value below the weight of [n] limbs has no limb from [n] on. *)
Lemma small_get l n : Forall limb l -> (n < length l)%nat -> lval l < weight n -> get l n = 0.
Proof.
  intros Hl Hn Hs. destruct (lval_small_zero l n Hl ltac:(lia) Hs) as [Z0 _].
  pose proof (lval_zero_get (drop n l) 0 ltac:(by apply Forall_drop) Z0) as G. unfold get in *.
  rewrite lookup_drop, Nat.add_0_r in G. done.
Qed.

(** The number of used limbs brackets the value. *)
Lemma used_limbs_bracket n v : Forall limb v -> length v = n -> let k := used_limbs n v in
  (k <= n)%nat /\ lval (take k v) = lval v /\ lval v < weight k /\
  ((0 < k)%nat -> get v (k - 1) * weight (k - 1) <= lval v /\ 0 < get v (k - 1)).
Proof.
  intros Hv Lv k. destruct (used_limbs_spec n v ltac:(lia)) as (A & B & C). fold k in A, B, C. rewrite (take_ge v n) in B by lia.
  pose proof (lval_bound (take k v) ltac:(by apply Forall_take)) as Bd. rewrite length_take_le, B in Bd by lia.
  split_and!; [done|done|lia|]. intros Hk. pose proof (limb_get v (k - 1) Hv) as Lk. unfold limb in Lk. specialize (C Hk).
  split; [|lia]. destruct k as [|k']; [lia|]. rewrite lval_take_S in B by lia.
  pose proof (lval_bound (take k' v) ltac:(by apply Forall_take)). replace (S k' - 1)%nat with k' in * by lia. lia.
Qed.

(** Both operands shifted by the divisor's leading zeros. *)
Lemma normalise u v m n : Forall limb u -> Forall limb v -> (n <= length v)%nat -> (m <= length u)%nat -> (0 < n)%nat ->
  lval (take m u) = lval u -> lval (take n v) = lval v -> 0 < get v (n - 1) ->
  let s := lz_u64 (get v (n - 1)) in
  let vn := shl_limbs s 0 (take n v) in
  let un := shl_limbs s 0 (take m u ++ [0]) in
  0 <= s < 64 /\ Forall limb vn /\ length vn = n /\ lval vn = 2 ^ s * lval v /\ RADIX <= 2 * get vn (n - 1) /\
  Forall limb un /\ length un = S m /\ lval un = 2 ^ s * lval u.
Proof.
  intros Hu Hv Ln Lm Hn Eu Ev Hp. set (s := lz_u64 (get v (n - 1))). pose proof radix_pos as RP.
  pose proof (limb_get v (n - 1) Hv) as Lt. unfold limb in Lt. destruct (normal_shift (get v (n - 1)) ltac:(lia)) as (Hs & Hz & Ht).
  fold s in Hs, Hz, Ht. assert (limb 0) as L0 by (unfold limb; lia). assert (0 < 2 ^ s) as P1 by (apply Z.pow_pos_nonneg; lia).
  destruct (shl_limbs_spec s Hs (take n v) 0 L0 ltac:(by apply Forall_take)) as (Fv & Lv & Vv).
  rewrite length_take_le in Lv, Vv by lia. rewrite Zdiv_0_l in Vv.
  assert (List.last (take n v) 0 = get v (n - 1)) as El.
  { rewrite last_get by (intros E; apply (f_equal length) in E; rewrite length_take_le in E by lia; cbn in E; lia).
    rewrite length_take_le by lia. unfold get. rewrite lookup_take_lt by lia. done. }
  rewrite El, Hz, Ev in Vv.
  destruct (shl_limbs_spec s Hs (take m u ++ [0]) 0 L0) as (Fu & Lu & Vu).
  { apply Forall_app. split; [by apply Forall_take|by repeat constructor]. }
  rewrite length_app, length_take_le in Lu, Vu by lia. cbn [length] in Lu. rewrite List.last_last, Zdiv_0_l, lval_app, Eu in Vu. cbn [lval] in Vu.
  cbv zeta. split_and!; [lia|lia|done|done|lia| |done|lia|lia].
  pose proof (lval_bound (take (n - 1) v) ltac:(by apply Forall_take)) as Bv. rewrite length_take_le in Bv by lia.
  set (vn := shl_limbs s 0 (take n v)) in *. pose proof (lval_bound (take (n - 1) vn) ltac:(by apply Forall_take)) as Bn.
  rewrite length_take_le in Bn by lia. pose proof (weight_pos (n - 1)) as WP.
  assert (lval (take (S (n - 1)) vn) = lval vn) as E1 by (by rewrite take_ge by lia). rewrite lval_take_S in E1 by lia.
  assert (lval (take (S (n - 1)) v) = lval v) as E2 by (rewrite <- Ev; do 2 f_equal; lia). rewrite lval_take_S in E2 by lia.
  assert (2 ^ s * get v (n - 1) <= get vn (n - 1)); [|lia].
  apply Z.lt_succ_r. apply (Z.mul_lt_mono_pos_r (weight (n - 1))); [done|]. nia.
Qed.

Lemma get_zeros n k : get (replicate n 0) k = 0.
Proof. unfold get. destruct (replicate n 0 !! k) eqn:E; [|done]. by apply lookup_replicate in E as [-> _]. Qed.

Lemma weight_mono i j : (i <= j)%nat -> weight i <= weight j.
Proof. intros H. pose proof radix_pos. unfold weight. apply Z.pow_le_mono_r; lia. Qed.

(** What a division returns. *)
Definition euclid (u v : list Z) (qr : list Z * list Z) : Prop :=
  lval qr.1 = lval u / lval v /\ lval qr.2 = lval u mod lval v /\
  Forall limb qr.1 /\ length qr.1 = 8%nat /\ Forall limb qr.2 /\ length qr.2 = 4%nat.

Lemma divmod_short u v m : Forall limb u -> length u = 8%nat -> Forall limb v -> 0 < get v 0 -> lval v = get v 0 ->
  (m <= 8)%nat -> lval (take m u) = lval u ->
  euclid u v (let '(q, rem) := short_div (get v 0) m u (replicate 8 0) 0 in (q, [wrap_u64 rem; 0; 0; 0])).
Proof.
  intros Hu Lu Hv Hp Ev Lm B2. pose proof radix_pos as RP. pose proof (limb_get v 0 Hv) as Lg. unfold limb in Lg.
  pose proof (short_div_spec (get v 0) m u (replicate 8 0) 0 ltac:(lia) Hu ltac:(lia) ltac:(lia)
    ltac:(rewrite length_replicate; lia) ltac:(intros; apply get_zeros) (limbs_zeros _)) as SD.
  destruct (short_div (get v 0) m u (replicate 8 0) 0) as [q rem]. destruct SD as (D1 & D2 & D3 & D4).
  rewrite lval_zeros, B2, length_replicate in *. unfold euclid. cbn [fst snd].
  rewrite (wrap_u64_mod rem), (Z.mod_small rem RADIX), Ev by lia. cbn [lval].
  split_and!; [apply (Z.div_unique_pos _ _ _ rem); lia|rewrite !Z.mul_0_r, Z.add_0_r; apply (Z.mod_unique_pos _ _ (lval q)); lia|done|done| |done].
  repeat constructor; unfold limb; lia.
Qed.

(** The loop on shifted operands, and its remainder shifted back. *)
Lemma divmod_long vn un s k m u v : let n := S (S k) in let j := (m - n + 1)%nat in
  0 <= s < 64 -> (n <= m <= 8)%nat -> (n <= 4)%nat ->
  Forall limb vn -> length vn = n -> lval vn = 2 ^ s * lval v -> RADIX <= 2 * get vn (S k) ->
  Forall limb un -> length un = 9%nat -> lval un = 2 ^ s * lval u -> lval u < weight m -> weight (S k) <= lval v ->
  euclid u v (let '(un', q) := knuth_loop vn n j un (replicate 8 0) in (q, shr_limbs s n un' ++ replicate (4 - n) 0)).
Proof.
  intros n j Hs Hm Hn4 Fv Lvn Vv Tv Fn Ln Vn U1 V1. pose proof radix_pos as RP.
  assert (0 < 2 ^ s) as P1 by (apply Z.pow_pos_nonneg; lia). pose proof (weight_pos (S k)). pose proof (weight_pos j).
  assert (lval (drop j un) < lval vn) as Hd.
  { apply (Z.mul_lt_mono_pos_l (weight j)); [apply weight_pos|].
    pose proof (lval_take_drop j un ltac:(lia)) as Etd. destruct (lval_bound (take j un) ltac:(by apply Forall_take)) as [T0 _].
    assert (weight m = weight j * weight (S k)) as Em by (rewrite <- weight_add; f_equal; lia).
    assert (weight j * weight (S k) <= weight j * lval v) by (apply Z.mul_le_mono_nonneg_l; lia).
    assert (2 ^ s * lval u < 2 ^ s * (weight j * lval v)) by (apply Z.mul_lt_mono_pos_l; lia). lia. }
  pose proof (knuth_loop_spec vn k j un (replicate 8 0) Fv Lvn Tv Fn ltac:(lia) Hd (limbs_zeros _)
    ltac:(rewrite length_replicate; lia) ltac:(intros; apply get_zeros)) as KL. cbv zeta in KL. fold n in KL.
  destruct (knuth_loop vn n j un (replicate 8 0)) as [un' q]. destruct KL as (K1 & K2 & K3 & K4 & K5 & K6).
  rewrite lval_zeros, length_replicate, Vn, Vv in *. destruct (lval_bound un' K3) as [R0 _].
  assert (lval un' < weight n) as Rw by (pose proof (lval_bound vn Fv) as B; rewrite Lvn in B; lia).
  assert (lval q = lval u / lval v) as Eq.
  { rewrite <- (Z.div_mul_cancel_l (lval u) (lval v) (2 ^ s)) by lia. apply (Z.div_unique_pos _ _ _ (lval un')); lia. }
  assert (lval un' = 2 ^ s * (lval u mod lval v)) as Er by (rewrite Z.mod_eq, <- Eq by lia; lia).
  pose proof (small_get un' n K3 ltac:(lia) Rw) as G0.
  destruct (lval_small_zero un' (S n) K3 ltac:(lia)) as [_ Et]; [rewrite weight_S; nia|].
  destruct (shr_limbs_spec s Hs n (take (S n) un')) as (S1 & S2 & S3).
  { by apply Forall_take. } { rewrite length_take; lia. } { unfold get. rewrite lookup_take_lt by lia. exact G0. }
  rewrite shr_limbs_take in *. unfold euclid. cbn [fst snd].
  rewrite lval_app, lval_zeros, S3, Et, Er, (Z.mul_comm (2 ^ s)), Z.div_mul by lia.
  split_and!; [done|lia|done|done|apply Forall_app; split; [done|apply limbs_zeros]|rewrite length_app, length_replicate; lia].
Qed.

Lemma divmod_euclid u v : Forall limb u -> length u = 8%nat -> Forall limb v -> length v = 4%nat -> lval v <> 0 ->
  euclid u v (divmod_512_by_256 u v).
Proof.
  intros Hu Lu Hv Lv Hne. unfold divmod_512_by_256. pose proof radix_pos as RP.
  destruct (used_limbs_bracket 4 v Hv Lv) as (A1 & A2 & A3 & A4). set (n := used_limbs 4 v) in *.
  destruct (used_limbs_bracket 8 u Hu Lu) as (B1 & B2 & B3 & B4). set (m := used_limbs 8 u) in *.
  destruct (Nat.eqb_spec n 0) as [E|En]; [rewrite E, take_0 in A2; done|]. destruct (A4 ltac:(lia)) as [A5 A6].
  destruct (lval_bound u Hu) as [U0 _]. destruct (lval_bound v Hv) as [V0 _]. pose proof (weight_pos (n - 1)) as WP.
  destruct (Nat.ltb_spec m n) as [Hmn|Hmn].
  { pose proof (weight_mono m (n - 1) ltac:(lia)). assert (lval u < lval v) by nia. unfold euclid. cbn [fst snd].
    rewrite Z.div_small, Z.mod_small, lval_zeros by lia.
    destruct (lval_small_zero u 4 Hu ltac:(lia)) as [_ E4]; [pose proof (weight_mono m 4 ltac:(lia)); lia|].
    split_and!; [done|done|apply limbs_zeros|done|by apply Forall_take|rewrite length_take; lia]. }
  destruct (Nat.eqb_spec n 1) as [E1|E1].
  { rewrite E1 in *. change (1 - 1)%nat with 0%nat in *. rewrite lval_take_S, take_0, weight_0 in A2 by lia. cbn [lval] in A2.
    apply divmod_short; [done|done|done|done|lia|done|done]. }
  destruct (normalise u v m n Hu Hv ltac:(lia) ltac:(lia) ltac:(lia) B2 A2 A6) as (Hs & Fv & Lvn & Vv & Tv & Fu & Lun & Vu).
  cbv zeta. set (s := lz_u64 (get v (n - 1))) in *. set (vn := shl_limbs s 0 (take n v)) in *.
  destruct n as [|[|k]]; [lia|lia|]. replace (S (S k) - 1)%nat with (S k) in * by lia.
  apply (divmod_long vn _ s k m u v); try done; [| | |nia].
  - apply Forall_app; split; [done|apply limbs_zeros].
  - rewrite length_app, length_replicate. lia.
  - rewrite lval_app, lval_zeros. lia.
Qed.
