(* ===== verification/AmmArith.v ===== *)
(** * [U256] computes on the integers below [2 ^ 256]

    Every operation is stated on values: the canonical [of_z] of the integer
    the operation computes, or [None] exactly when that integer does not fit.
    The client's proofs rewrite with these and then work on [Z]. *)

From S2P Require Import Prelude AmmU256 AmmLimbs AmmDivision.

(** [2 ^ 128] and [2 ^ 256]. *)
Definition W : Z := 340282366920938463463374607431768211456.
Definition WW : Z := W * W.

Lemma W_pow : W = 2 ^ 128.
Proof. by vm_compute. Qed.
Lemma W_big : 2 <= W.
Proof. by vm_compute. Qed.
Lemma radix_square : RADIX * RADIX = W.
Proof. by vm_compute. Qed.
Lemma u128_max_W : u128_max = W - 1.
Proof. by vm_compute. Qed.
Lemma wrap_u128_W z : wrap_u128 z = z mod W.
Proof. done. Qed.
#[local] Opaque W RADIX u128_max.

(** ** Values *)

Definition u128 (x : Z) : Prop := 0 <= x < W.

Definition val (x : U256) : Z := U256.hi x * W + U256.lo x.
Definition wf (x : U256) : Prop := u128 (U256.hi x) /\ u128 (U256.lo x).
Definition of_z (z : Z) : U256 := U256.mk (z / W) (z mod W).

(** The value when it fits. *)
Definition checked (z : Z) : option U256 := if z <? WW then Some (of_z z) else None.

Lemma val_bound x : wf x -> 0 <= val x < WW.
Proof. intros [H1 H2]. unfold u128, val, WW in *. pose proof W_big. nia. Qed.

Lemma val_of_z z : val (of_z z) = z.
Proof. unfold val, of_z. cbn [U256.hi U256.lo]. pose proof W_big. pose proof (Z.div_mod z W ltac:(lia)). lia. Qed.

Lemma wf_of_z z : 0 <= z < WW -> wf (of_z z).
Proof.
  intros Hz. pose proof W_big. unfold wf, of_z, u128, WW in *. cbn [U256.hi U256.lo].
  split; [split; [apply Z.div_pos; lia|apply Z.div_lt_upper_bound; lia]|apply Z.mod_pos_bound; lia].
Qed.

Lemma of_z_mk h l : u128 l -> U256.mk h l = of_z (h * W + l).
Proof.
  intros Hl. unfold u128, of_z in *. f_equal.
  - by rewrite Z.div_add_l, Z.div_small, Z.add_0_r by lia.
  - by rewrite Z.add_comm, Z.mod_add, Z.mod_small by lia.
Qed.

Lemma of_z_val x : wf x -> of_z (val x) = x.
Proof. intros [_ H]. unfold val. rewrite <- of_z_mk by done. by destruct x. Qed.

Lemma val_inj x y : wf x -> wf y -> val x = val y -> x = y.
Proof. intros Hx Hy E. rewrite <- (of_z_val x), <- (of_z_val y) by done. by rewrite E. Qed.

Lemma checked_Some z x : checked z = Some x -> 0 <= z -> x = of_z z /\ wf x /\ val x = z.
Proof.
  unfold checked. destruct (Z.ltb_spec z WW); [|done]. intros [= <-] H0.
  split_and!; [done|apply wf_of_z; lia|apply val_of_z].
Qed.

Lemma checked_fits z : z < WW -> checked z = Some (of_z z).
Proof. intros H. unfold checked. by destruct (Z.ltb_spec z WW); [|lia]. Qed.

Lemma wf_u128 x : u128 x -> wf (U256.from_u128 x).
Proof. intros Hx. unfold wf, u128 in *. cbn. pose proof W_big. lia. Qed.
Lemma val_u128 x : val (U256.from_u128 x) = x.
Proof. done. Qed.
Lemma from_u128_of_z x : u128 x -> U256.from_u128 x = of_z x.
Proof. intros Hx. apply (of_z_mk 0 x Hx). Qed.

(** ** Comparisons *)

Lemma lt_val a b : wf a -> wf b -> U256.lt a b = (val a <? val b).
Proof.
  intros [A1 A2] [B1 B2]. unfold U256.lt, val, u128 in *.
  destruct (Z.ltb_spec (U256.hi a * W + U256.lo a) (U256.hi b * W + U256.lo b)) as [H|H];
    destruct (Z.ltb_spec (U256.hi a) (U256.hi b)), (Z.eqb_spec (U256.hi a) (U256.hi b)), (Z.ltb_spec (U256.lo a) (U256.lo b));
    cbn [orb andb]; try done; exfalso; nia.
Qed.

Lemma le_val a b : wf a -> wf b -> U256.le a b = (val a <=? val b).
Proof. intros Ha Hb. unfold U256.le. rewrite lt_val by done. by rewrite Z.leb_antisym. Qed.

Lemma same_as_val a b : wf a -> wf b -> U256.same_as a b = (val a =? val b).
Proof.
  intros [A1 A2] [B1 B2]. unfold U256.same_as, val, u128 in *.
  destruct (Z.eqb_spec (U256.hi a * W + U256.lo a) (U256.hi b * W + U256.lo b)) as [H|H];
    destruct (Z.eqb_spec (U256.hi a) (U256.hi b)), (Z.eqb_spec (U256.lo a) (U256.lo b)); cbn [andb]; try done; exfalso; nia.
Qed.

Lemma is_zero_val a : wf a -> U256.is_zero a = (val a =? 0).
Proof.
  intros [A1 A2]. unfold U256.is_zero, val, u128 in *.
  destruct (Z.eqb_spec (U256.hi a * W + U256.lo a) 0), (Z.eqb_spec (U256.hi a) 0), (Z.eqb_spec (U256.lo a) 0);
    cbn [andb]; try done; exfalso; nia.
Qed.

Lemma saturating_val a : wf a -> U256.saturating_u128 a = Z.min (val a) u128_max.
Proof.
  intros [A1 A2]. unfold U256.saturating_u128, val, u128 in *. rewrite u128_max_W. destruct (Z.eqb_spec (U256.hi a) 0) as [->|]; nia.
Qed.

(** ** Sums *)

(** A carry out of one half. *)
Lemma wrap_carry z k : k * W <= z < (k + 1) * W -> wrap_u128 z = z - k * W.
Proof.
  intros H. pose proof W_big. rewrite wrap_u128_W. rewrite <- (Z.mod_unique_pos z W k (z - k * W)); lia.
Qed.

Lemma overflowing_add_val a b : wf a -> wf b ->
  U256.overflowing_add a b = (of_z ((val a + val b) mod WW), WW <=? val a + val b).
Proof.
  intros [A1 A2] [B1 B2]. pose proof W_big as Wb. unfold u128 in *. unfold U256.overflowing_add, U256.add_u128, U256.bit, val.
  rewrite u128_max_W. destruct a as [ah al], b as [bh bl]. cbn [U256.hi U256.lo] in *.
  assert (exists c, (c = 0 \/ c = 1) /\ c * W <= al + bl < (c + 1) * W /\ (W - 1 <? al + bl) = (c =? 1)) as (c & Hc & Hl & ->).
  { destruct (Z.ltb_spec (W - 1) (al + bl)); [exists 1|exists 0]; split_and!; try done; lia. }
  rewrite (wrap_carry (al + bl) c Hl). replace (if c =? 1 then 1 else 0) with c by (destruct Hc as [-> | ->]; done).
  assert (exists k, (k = 0 \/ k = 1) /\ k * W <= ah + bh + c < (k + 1) * W) as (k & Hk & Hh).
  { destruct (Z.le_gt_cases W (ah + bh + c)); [exists 1|exists 0]; lia. }
  assert (wrap_u128 (wrap_u128 (ah + bh) + c) = ah + bh + c - k * W) as ->.
  { rewrite !wrap_u128_W, Z.add_mod_idemp_l, <- wrap_u128_W by lia. by apply wrap_carry. }
  assert (((W - 1 <? ah + bh) || (W - 1 <? wrap_u128 (ah + bh) + c)) = (k =? 1)) as ->.
  { destruct (Z.ltb_spec (W - 1) (ah + bh)) as [H|H]; cbn [orb].
    - assert (k = 1) as -> by nia. done.
    - rewrite (wrap_carry _ 0) by lia. destruct (Z.ltb_spec (W - 1) (ah + bh - 0 * W + c)), (Z.eqb_spec k 1); try done; lia. }
  rewrite of_z_mk by (unfold u128; lia). unfold WW. f_equal.
  - f_equal. apply (Z.mod_unique_pos _ _ k); nia.
  - destruct (Z.leb_spec (W * W) (ah * W + al + (bh * W + bl))), (Z.eqb_spec k 1); try done; nia.
Qed.

Lemma overflowing_sub_val a b : wf a -> wf b ->
  U256.overflowing_sub a b = (of_z ((val a - val b) mod WW), val a <? val b).
Proof.
  intros [A1 A2] [B1 B2]. pose proof W_big as Wb. unfold u128 in *. unfold U256.overflowing_sub, U256.sub_u128, U256.bit, val.
  destruct a as [ah al], b as [bh bl]. cbn [U256.hi U256.lo] in *.
  assert (exists c, (c = 0 \/ c = 1) /\ - c * W <= al - bl < (- c + 1) * W /\ (al - bl <? 0) = (c =? 1)) as (c & Hc & Hl & ->).
  { destruct (Z.ltb_spec (al - bl) 0); [exists 1|exists 0]; split_and!; try done; lia. }
  rewrite (wrap_carry (al - bl) (- c) Hl). replace (if c =? 1 then 1 else 0) with c by (destruct Hc as [-> | ->]; done).
  assert (exists k, (k = 0 \/ k = 1) /\ - k * W <= ah - bh - c < (- k + 1) * W) as (k & Hk & Hh).
  { destruct (Z.le_gt_cases 0 (ah - bh - c)); [exists 0|exists 1]; lia. }
  assert (wrap_u128 (wrap_u128 (ah - bh) - c) = ah - bh - c - - k * W) as ->.
  { rewrite !wrap_u128_W, Zminus_mod_idemp_l, <- wrap_u128_W by lia. by apply wrap_carry. }
  assert (((ah - bh <? 0) || (wrap_u128 (ah - bh) - c <? 0)) = (k =? 1)) as ->.
  { destruct (Z.ltb_spec (ah - bh) 0) as [H|H]; cbn [orb].
    - assert (k = 1) as -> by nia. done.
    - rewrite (wrap_carry _ 0) by lia. destruct (Z.ltb_spec (ah - bh - 0 * W - c) 0), (Z.eqb_spec k 1); try done; lia. }
  rewrite of_z_mk by (unfold u128; lia). unfold WW. f_equal.
  - f_equal. apply (Z.mod_unique_pos _ _ (- k)); nia.
  - destruct (Z.ltb_spec (ah * W + al) (bh * W + bl)), (Z.eqb_spec k 1); try done; nia.
Qed.

Lemma checked_add_val a b : wf a -> wf b -> U256.checked_add a b = checked (val a + val b).
Proof.
  intros Ha Hb. unfold U256.checked_add, checked. rewrite overflowing_add_val by done.
  pose proof (val_bound a Ha). pose proof (val_bound b Hb).
  destruct (Z.leb_spec WW (val a + val b)), (Z.ltb_spec (val a + val b) WW); try lia; [done|]. by rewrite Z.mod_small by lia.
Qed.

Lemma checked_sub_val a b : wf a -> wf b ->
  U256.checked_sub a b = if val a <? val b then None else Some (of_z (val a - val b)).
Proof.
  intros Ha Hb. unfold U256.checked_sub. rewrite overflowing_sub_val by done.
  pose proof (val_bound a Ha). pose proof (val_bound b Hb).
  destruct (Z.ltb_spec (val a) (val b)); [done|]. by rewrite Z.mod_small by lia.
Qed.

Lemma wrapping_add_val a b : wf a -> wf b -> U256.wrapping_add a b = of_z ((val a + val b) mod WW).
Proof. intros Ha Hb. unfold U256.wrapping_add. by rewrite overflowing_add_val. Qed.

Lemma wrapping_sub_val a b : wf a -> wf b -> U256.wrapping_sub a b = of_z ((val a - val b) mod WW).
Proof. intros Ha Hb. unfold U256.wrapping_sub. by rewrite overflowing_sub_val. Qed.

(** ** Shifts *)

Lemma wrap_shl x n : 0 <= n <= 128 -> wrap_u128 (Z.shiftl x n) = 2 ^ n * (x mod 2 ^ (128 - n)).
Proof.
  intros Hn. rewrite wrap_u128_W, Z.shiftl_mul_pow2, W_pow by lia.
  replace (2 ^ 128) with (2 ^ n * 2 ^ (128 - n)) by (rewrite <- Z.pow_add_r by lia; f_equal; lia).
  rewrite (Z.mul_comm x), Z.mul_mod_distr_l; [done| |]; apply Z.pow_nonzero; lia.
Qed.

Lemma W_split n : 0 <= n <= 128 -> W = 2 ^ n * 2 ^ (128 - n).
Proof. intros Hn. rewrite W_pow, <- Z.pow_add_r by lia. f_equal. lia. Qed.

(** The half that crosses, and the half that stays. *)
Lemma shl_mid h l n : 0 < n < 128 -> u128 h -> u128 l ->
  U256.mk (Z.lor (wrap_u128 (Z.shiftl h n)) (Z.shiftr l (128 - n))) (wrap_u128 (Z.shiftl l n)) =
  of_z (((h * W + l) * 2 ^ n) mod WW).
Proof.
  intros Hn Hh Hl. unfold u128 in *. rewrite !wrap_shl, Z.shiftr_div_pow2 by lia.
  assert (0 < 2 ^ n) as P1 by (apply Z.pow_pos_nonneg; lia). assert (0 < 2 ^ (128 - n)) as P2 by (apply Z.pow_pos_nonneg; lia).
  pose proof (W_split n ltac:(lia)) as Ws. set (A := 2 ^ n) in *. set (C := 2 ^ (128 - n)) in *.
  pose proof (Z.div_mod l C ltac:(lia)) as Dl. pose proof (Z.mod_pos_bound l C P2). pose proof (Z.div_mod h C ltac:(lia)) as Dh.
  pose proof (Z.mod_pos_bound h C P2).
  assert (0 <= l / C < A) as Hq by (split; [apply Z.div_pos; lia|apply Z.div_lt_upper_bound; lia]).
  rewrite (Z.mul_comm A (h mod C)). unfold A at 1. rewrite lor_low_high by (unfold A in *; lia). fold A.
  rewrite of_z_mk by (unfold u128; nia). f_equal. unfold WW. apply (Z.mod_unique_pos _ _ (h / C)); [|nia].
  assert (h mod C * A + l / C < W) by nia. assert (0 <= A * (l mod C) < W) by nia. nia.
Qed.

Lemma shl_val a n : wf a -> 0 <= n < 256 -> U256.shl a n = of_z ((val a * 2 ^ n) mod WW).
Proof.
  intros Ha Hn. pose proof W_big. pose proof (val_bound a Ha). unfold U256.shl. destruct (Z.eqb_spec n 0) as [->|].
  { change (2 ^ 0) with 1. rewrite Z.mul_1_r, Z.mod_small by done. by rewrite of_z_val. }
  destruct (Z.leb_spec 256 n); [lia|]. destruct Ha as [Hh Hl]. destruct (Z.leb_spec 128 n) as [Hx|Hx].
  - rewrite of_z_mk by (unfold u128; lia). unfold val, WW, u128 in *. rewrite wrap_u128_W, Z.shiftl_mul_pow2 by lia. f_equal.
    replace n with (128 + (n - 128)) at 2 by lia. rewrite Z.pow_add_r, <- W_pow by lia. set (k := 2 ^ (n - 128)).
    replace ((U256.hi a * W + U256.lo a) * (W * k)) with (U256.lo a * k * W + U256.hi a * k * (W * W)) by lia.
    rewrite Z.mod_add, Z.mul_mod_distr_r by lia. lia.
  - by apply shl_mid; [lia| |].
Qed.

Lemma shr_mid h l n : 0 < n < 128 -> u128 h -> u128 l ->
  U256.mk (Z.shiftr h n) (Z.lor (Z.shiftr l n) (wrap_u128 (Z.shiftl h (128 - n)))) = of_z ((h * W + l) / 2 ^ n).
Proof.
  intros Hn Hh Hl. unfold u128 in *. rewrite wrap_shl, !Z.shiftr_div_pow2 by lia. replace (128 - (128 - n)) with n by lia.
  assert (0 < 2 ^ n) as P1 by (apply Z.pow_pos_nonneg; lia). assert (0 < 2 ^ (128 - n)) as P2 by (apply Z.pow_pos_nonneg; lia).
  pose proof (W_split n ltac:(lia)) as Ws. set (A := 2 ^ n) in *. set (C := 2 ^ (128 - n)) in *.
  pose proof (Z.div_mod h A ltac:(lia)) as Dh. pose proof (Z.mod_pos_bound h A P1).
  assert (0 <= l / A < C) as Hq by (split; [apply Z.div_pos; lia|apply Z.div_lt_upper_bound; lia]).
  rewrite Z.lor_comm, (Z.mul_comm C). unfold C at 1. rewrite lor_low_high by (unfold C in *; lia). fold C.
  rewrite of_z_mk by (unfold u128; nia). f_equal. rewrite Ws. replace (h * (A * C) + l) with (l + h * C * A) by lia.
  rewrite Z.div_add by lia. nia.
Qed.

Lemma shr_val a n : wf a -> 0 <= n < 256 -> U256.shr a n = of_z (val a / 2 ^ n).
Proof.
  intros Ha Hn. pose proof W_big. unfold U256.shr. destruct (Z.eqb_spec n 0) as [->|].
  { change (2 ^ 0) with 1. rewrite Z.div_1_r. by rewrite of_z_val. }
  destruct (Z.leb_spec 256 n); [lia|]. destruct Ha as [Hh Hl]. destruct (Z.leb_spec 128 n) as [Hx|Hx].
  - unfold u128 in *. assert (0 < 2 ^ (n - 128)) as P1 by (apply Z.pow_pos_nonneg; lia).
    assert (0 <= U256.hi a / 2 ^ (n - 128) < W) as Hq.
    { split; [apply Z.div_pos; lia|]. apply Z.div_lt_upper_bound; nia. }
    rewrite Z.shiftr_div_pow2, of_z_mk by (unfold u128; lia). f_equal. unfold val.
    replace n with (128 + (n - 128)) at 2 by lia. rewrite Z.pow_add_r, <- W_pow, <- Z.div_div by lia.
    by rewrite Z.div_add_l, (Z.div_small (U256.lo a)), Z.add_0_r by lia.
  - by apply shr_mid; [lia| |].
Qed.

Lemma pow2_val n : 0 <= n < 256 -> U256.pow2 n = of_z (2 ^ n).
Proof.
  intros Hn. pose proof W_big. unfold U256.pow2. destruct (Z.ltb_spec n 128).
  - rewrite Z.shiftl_1_l, wrap_u128_W, Z.mod_small by (rewrite W_pow; split; [lia|apply Z.pow_lt_mono_r; lia]).
    rewrite of_z_mk; [done|]. unfold u128. rewrite W_pow. split; [lia|apply Z.pow_lt_mono_r; lia].
  - rewrite Z.shiftl_1_l, wrap_u128_W, Z.mod_small by (rewrite W_pow; split; [lia|apply Z.pow_lt_mono_r; lia]).
    rewrite of_z_mk by (unfold u128; lia). f_equal. rewrite W_pow, Z.add_0_r, <- Z.pow_add_r by lia. f_equal. lia.
Qed.

(** ** Limbs of a value *)

Lemma limbs_val a : wf a -> lval (U256.limbs a) = val a /\ Forall limb (U256.limbs a) /\ length (U256.limbs a) = 4%nat.
Proof.
  intros [Hh Hl]. unfold u128 in *. pose proof radix_pos as RP. rewrite <- radix_square in Hh, Hl.
  destruct (split_radix _ Hh) as [H1 H2]. destruct (split_radix _ Hl) as [L1 L2].
  unfold U256.limbs. rewrite !shiftr_radix, !(wrap_u64_mod (_ / RADIX)), !(Z.mod_small (_ / RADIX)) by done.
  split_and!; [|repeat apply Forall_cons_2; first [apply limb_wrap|done|apply Forall_nil_2]|done]. cbn [lval]. unfold val. rewrite <- radix_square. lia.
Qed.

Lemma from_limbs_val l : Forall limb l -> (4 <= length l)%nat ->
  let x := U256.from_limbs (get l 0) (get l 1) (get l 2) (get l 3) in wf x /\ val x = lval (take 4 l).
Proof.
  intros Hl Ln. pose proof (limb_get l 0 Hl) as G0. pose proof (limb_get l 1 Hl) as G1. pose proof (limb_get l 2 Hl) as G2.
  pose proof (limb_get l 3 Hl) as G3. unfold U256.from_limbs. rewrite !lor_radix_wide by done. pose proof radix_pos as RP.
  unfold wf, val, u128, limb in *. cbn [U256.hi U256.lo]. rewrite <- radix_square. split; [nia|].
  rewrite !lval_take_S, take_0 by lia. rewrite !weight_S, weight_0. cbn [lval]. lia.
Qed.

Lemma lor_zero a b : 0 <= a -> 0 <= b -> Z.lor a b = 0 <-> a = 0 /\ b = 0.
Proof. intros Ha Hb. apply Z.lor_eq_0_iff. Qed.

(** The check of the four high limbs. *)
Lemma high_limbs l : Forall limb l -> length l = 8%nat ->
  (Z.lor (Z.lor (Z.lor (get l 4) (get l 5)) (get l 6)) (get l 7) =? 0) = (lval l <? WW) /\
  (lval l < WW -> lval (take 4 l) = lval l).
Proof.
  intros Hl Ln. assert (WW = weight 4) as EW by (unfold WW; rewrite <- radix_square, !weight_S, weight_0; lia).
  rewrite EW. split; [|intros H; by apply lval_small_zero; [|lia|]].
  pose proof (lval_take_drop 4 l ltac:(lia)) as E. pose proof (weight_pos 4).
  assert (Forall limb (drop 4 l)) as Fd by by apply Forall_drop. assert (Forall limb (take 4 l)) as Ft by by apply Forall_take.
  destruct (lval_bound _ Fd) as [B1 _]. destruct (lval_bound _ Ft) as [B2 B3]. rewrite length_take_le in B3 by lia.
  assert (forall i, get l (4 + i) = get (drop 4 l) i) as Eg by (intros i; unfold get; by rewrite lookup_drop).
  pose proof (Eg 0%nat : get l 4 = _) as E4. pose proof (Eg 1%nat : get l 5 = _) as E5.
  pose proof (Eg 2%nat : get l 6 = _) as E6. pose proof (Eg 3%nat : get l 7 = _) as E7. rewrite E4, E5, E6, E7.
  destruct (Z.ltb_spec (lval l) (weight 4)) as [H1|H1].
  - destruct (lval_small_zero l 4 Hl ltac:(lia) H1) as [Z0 _]. apply Z.eqb_eq.
    by rewrite !(lval_zero_get _ _ Fd Z0).
  - apply Z.eqb_neq. rewrite !Z.lor_eq_0_iff. intros [[[Z4 Z5] Z6] Z7].
    assert (lval (drop 4 l) = 0); [|lia].
    assert (length (drop 4 l) = 4%nat) as Ld by (rewrite length_drop; lia).
    rewrite <- (take_ge (drop 4 l) 4) by lia. rewrite !lval_take_S, take_0 by lia. cbn [lval]. rewrite Z4, Z5, Z6, Z7. lia.
Qed.

(** ** Products and quotients *)

Lemma mul_u128_val a b : u128 a -> u128 b -> U256.mul_u128 a b = of_z (a * b).
Proof.
  intros Ha Hb. unfold u128 in *. pose proof radix_pos as RP. rewrite <- radix_square in Ha, Hb.
  destruct (split_radix _ Ha) as [A1 A2]. destruct (split_radix _ Hb) as [B1 B2].
  pose proof (limb_wrap a) as A0. pose proof (limb_wrap b) as B0. unfold U256.mul_u128. rewrite !shiftr_radix.
  set (a0 := wrap_u64 a) in *. set (a1 := a / RADIX) in *. set (b0 := wrap_u64 b) in *. set (b1 := b / RADIX) in *.
  unfold limb in *. assert (forall x y, 0 <= x < RADIX -> 0 <= y < RADIX -> 0 <= x * y <= (RADIX - 1) * (RADIX - 1)) as Pm by (intros; nia).
  pose proof (Pm a0 b0 A0 B0). pose proof (Pm a0 b1 A0 B1). pose proof (Pm a1 b0 A1 B0). pose proof (Pm a1 b1 A1 B1).
  destruct (split_radix (a0 * b0) ltac:(nia)) as [Q0 E0]. destruct (split_radix (a0 * b1) ltac:(nia)) as [Q1 E1].
  destruct (split_radix (a1 * b0) ltac:(nia)) as [Q2 E2]. unfold limb in *.
  pose proof (limb_wrap (a0 * b0)) as W0. pose proof (limb_wrap (a0 * b1)) as W1. pose proof (limb_wrap (a1 * b0)) as W2. unfold limb in *.
  set (mid := a0 * b0 / RADIX + wrap_u64 (a0 * b1) + wrap_u64 (a1 * b0)).
  assert (0 <= mid < RADIX * RADIX) as Hm by (unfold mid; nia). rewrite (wrap_u128_mod mid), (Z.mod_small mid) by done.
  destruct (split_radix mid Hm) as [Qm Em]. unfold limb in Qm. pose proof (limb_wrap mid) as Wm. unfold limb in Wm.
  assert (wrap_u128 (Z.shiftl mid 64) = wrap_u64 mid * RADIX) as ->.
  { rewrite Z.shiftl_mul_pow2, <- radix_pow, wrap_u128_mod by lia. rewrite Z.mul_mod_distr_r by lia. done. }
  rewrite Z.lor_comm. assert (Z.lor (wrap_u64 mid * RADIX) (wrap_u64 (a0 * b0)) = wrap_u64 mid * RADIX + wrap_u64 (a0 * b0)) as ->.
  { rewrite radix_pow in *. by apply lor_low_high. }
  set (h := a1 * b1 + a0 * b1 / RADIX + a1 * b0 / RADIX + mid / RADIX).
  assert (h * (RADIX * RADIX) + (wrap_u64 mid * RADIX + wrap_u64 (a0 * b0)) = a * b) as Eab.
  { rewrite A2, B2. replace ((a0 + RADIX * a1) * (b0 + RADIX * b1)) with (a0 * b0 + RADIX * (a0 * b1 + a1 * b0) + RADIX * RADIX * (a1 * b1)) by lia.
    unfold h. unfold mid in Em at 1. nia. }
  assert (0 <= h) as Hh0 by (unfold h; apply Z.add_nonneg_nonneg; lia).
  assert (0 <= a * b < RADIX * RADIX * (RADIX * RADIX)) as Hab by (split; [apply Z.mul_nonneg_nonneg; lia|apply Z.mul_lt_mono_nonneg; lia]).
  assert (0 <= wrap_u64 mid * RADIX <= (RADIX - 1) * RADIX) as Hmr.
  { split; [apply Z.mul_nonneg_nonneg; lia|apply Z.mul_le_mono_nonneg_r; lia]. }
  assert (0 <= wrap_u64 mid * RADIX + wrap_u64 (a0 * b0) < RADIX * RADIX) as Hlow by lia.
  assert (0 <= h < RADIX * RADIX) as Hh by (split; [done|]; apply (Z.mul_lt_mono_pos_r (RADIX * RADIX)); lia).
  rewrite wrap_u128_mod, Z.mod_small by done. rewrite of_z_mk by (unfold u128; rewrite <- radix_square; done).
  rewrite <- radix_square, Eab. done.
Qed.

Lemma checked_mul_val a b : wf a -> wf b -> U256.checked_mul a b = checked (val a * val b).
Proof.
  intros Ha Hb. destruct (limbs_val a Ha) as (Va & Fa & La). destruct (limbs_val b Hb) as (Vb & Fb & Lb).
  destruct (full_mul_spec _ _ Fa Fb La Lb) as (Vp & Fp & Lp). unfold U256.checked_mul, checked.
  destruct (high_limbs _ Fp Lp) as [Eh Et]. rewrite Eh, Vp, Va, Vb in *. destruct (Z.ltb_spec (val a * val b) WW); cbn [negb]; [|done].
  destruct (from_limbs_val _ Fp ltac:(lia)) as [Wx Vx]. cbv zeta in Vx. rewrite Et in Vx by done. f_equal. rewrite <- Vx. by rewrite of_z_val.
Qed.

Lemma checked_div_rem_val a d : wf a -> wf d ->
  U256.checked_div_rem a d = if val d =? 0 then None else Some (of_z (val a / val d), of_z (val a mod val d)).
Proof.
  intros Ha Hd. unfold U256.checked_div_rem. rewrite is_zero_val by done. destruct (Z.eqb_spec (val d) 0) as [|Hz]; [done|].
  destruct (limbs_val a Ha) as (Va & Fa & La). destruct (limbs_val d Hd) as (Vd & Fd & Ld).
  pose proof (val_bound a Ha) as Ba. pose proof (val_bound d Hd) as Bd.
  assert (lval (U256.limbs a ++ [0; 0; 0; 0]) = val a) as Vu by (rewrite lval_app, Va; cbn [lval]; lia).
  pose proof (divmod_euclid (U256.limbs a ++ [0; 0; 0; 0]) (U256.limbs d)) as DE.
  rewrite Vd in DE. specialize (DE ltac:(apply Forall_app; split; [done|apply (limbs_zeros 4)]) ltac:(rewrite length_app, La; done) Fd Ld Hz).
  destruct (divmod_512_by_256 _ _) as [q r]. destruct DE as (Vq & Vr & Fq & Lq & Fr & Lr). cbn [fst snd] in *. rewrite Vu, Vd in *.
  assert (0 <= val a / val d <= val a) as Hq by (split; [apply Z.div_pos; lia|apply Z.div_le_upper_bound; nia]).
  destruct (from_limbs_val q Fq ltac:(lia)) as [Wq Xq]. destruct (from_limbs_val r Fr ltac:(lia)) as [Wr Xr]. cbv zeta in *.
  destruct (high_limbs q Fq Lq) as [_ Et]. rewrite Et, Vq in Xq by lia. rewrite take_ge, Vr in Xr by lia.
  rewrite <- Xq, <- Xr, !of_z_val by done. done.
Qed.

Lemma mul_div_rem_val a b d : wf a -> wf b -> wf d ->
  mul_div_rem a b d = if val d =? 0 then None
    else if val a * val b / val d <? WW then Some (of_z (val a * val b / val d), of_z ((val a * val b) mod val d)) else None.
Proof.
  intros Ha Hb Hd. unfold mul_div_rem. rewrite is_zero_val by done. destruct (Z.eqb_spec (val d) 0) as [|Hz]; [done|].
  destruct (limbs_val a Ha) as (Va & Fa & La). destruct (limbs_val b Hb) as (Vb & Fb & Lb). destruct (limbs_val d Hd) as (Vd & Fd & Ld).
  destruct (full_mul_spec _ _ Fa Fb La Lb) as (Vp & Fp & Lp). rewrite Va, Vb in Vp.
  pose proof (divmod_euclid (full_mul (U256.limbs a) (U256.limbs b)) (U256.limbs d) Fp Lp Fd Ld ltac:(by rewrite Vd)) as DE.
  destruct (divmod_512_by_256 _ _) as [q r]. destruct DE as (Vq & Vr & Fq & Lq & Fr & Lr). cbn [fst snd] in *. rewrite Vp, Vd in *.
  destruct (high_limbs q Fq Lq) as [Eh Et]. rewrite Eh, Vq in *. destruct (Z.ltb_spec (val a * val b / val d) WW); cbn [negb]; [|done].
  destruct (from_limbs_val q Fq ltac:(lia)) as [Wq Xq]. destruct (from_limbs_val r Fr ltac:(lia)) as [Wr Xr]. cbv zeta in *.
  rewrite Et in Xq by done. rewrite take_ge, Vr in Xr by lia. rewrite <- Xq, <- Xr, !of_z_val by done. done.
Qed.

(** ** Rounding

    The quotient rounded down and rounded up, each by what bounds it. *)

Definition cdiv (a b : Z) : Z := - (- a / b).

Lemma cdiv_le a b c : 0 < b -> cdiv a b <= c <-> a <= c * b.
Proof.
  intros Hb. unfold cdiv. pose proof (Z.div_mod (- a) b ltac:(lia)). pose proof (Z.mod_pos_bound (- a) b Hb).
  set (q := - a / b) in *. split; intros H1; nia.
Qed.

Lemma div_ge a b c : 0 < b -> c <= a / b <-> c * b <= a.
Proof.
  intros Hb. pose proof (Z.div_mod a b ltac:(lia)). pose proof (Z.mod_pos_bound a b Hb). set (q := a / b) in *. split; intros H1; nia.
Qed.

Lemma cdiv_bound a b : 0 < b -> a <= cdiv a b * b < a + b.
Proof.
  intros Hb. unfold cdiv. pose proof (Z.div_mod (- a) b ltac:(lia)). pose proof (Z.mod_pos_bound (- a) b Hb). lia.
Qed.

Lemma div_bound a b : 0 < b -> a - b < a / b * b <= a.
Proof. intros Hb. pose proof (Z.div_mod a b ltac:(lia)). pose proof (Z.mod_pos_bound a b Hb). lia. Qed.

Lemma cdiv_nonneg a b : 0 <= a -> 0 < b -> 0 <= cdiv a b.
Proof. intros Ha Hb. pose proof (cdiv_bound a b Hb). nia. Qed.

Lemma cdiv_mod a b : 0 < b -> cdiv a b = if a mod b =? 0 then a / b else a / b + 1.
Proof.
  intros Hb. pose proof (cdiv_bound a b Hb). pose proof (Z.div_mod a b ltac:(lia)). pose proof (Z.mod_pos_bound a b Hb).
  destruct (Z.eqb_spec (a mod b) 0); nia.
Qed.

Lemma mul_div_val a b d : wf a -> wf b -> wf d ->
  mul_div a b d = if val d =? 0 then None else checked (val a * val b / val d).
Proof.
  intros Ha Hb Hd. unfold mul_div, checked. rewrite mul_div_rem_val by done. destruct (val d =? 0); [done|].
  by destruct (_ <? WW).
Qed.

(** Rounding a quotient and its remainder up. *)
Lemma round_up q r a d : 0 < d -> 0 <= a -> q = a / d -> r = a mod d -> q < WW ->
  (if U256.is_zero (of_z r) then Some (of_z q) else U256.checked_add (of_z q) U256.ONE) = checked (cdiv a d) \/ WW <= d.
Proof.
  intros Hd Ha -> -> Hq. destruct (Z.le_gt_cases WW d); [by right|left]. pose proof (Z.mod_pos_bound a d Hd). pose proof W_big.
  assert (0 <= a / d) by (apply Z.div_pos; lia). assert (wf U256.ONE) as W1 by (unfold wf, u128; cbn; lia).
  rewrite is_zero_val, val_of_z, cdiv_mod by (try apply wf_of_z; lia). destruct (a mod d =? 0); [by rewrite checked_fits|].
  by rewrite checked_add_val, val_of_z by (try apply wf_of_z; done || lia).
Qed.

Lemma mul_div_rounding_up_val a b d : wf a -> wf b -> wf d ->
  mul_div_rounding_up a b d = if val d =? 0 then None else checked (cdiv (val a * val b) (val d)).
Proof.
  intros Ha Hb Hd. unfold mul_div_rounding_up. rewrite mul_div_rem_val by done. destruct (Z.eqb_spec (val d) 0); [done|].
  pose proof (val_bound a Ha). pose proof (val_bound b Hb). pose proof (val_bound d Hd).
  destruct (Z.ltb_spec (val a * val b / val d) WW) as [H3|H3].
  - destruct (round_up _ _ (val a * val b) (val d) ltac:(lia) ltac:(nia) eq_refl eq_refl H3); [done|lia].
  - unfold checked. pose proof (cdiv_bound (val a * val b) (val d) ltac:(lia)). pose proof (div_bound (val a * val b) (val d) ltac:(lia)).
    destruct (Z.ltb_spec (cdiv (val a * val b) (val d)) WW); [|done]. exfalso. nia.
Qed.

Lemma div_rounding_up_val a b : wf a -> wf b ->
  div_rounding_up a b = if val b =? 0 then None else Some (of_z (cdiv (val a) (val b))).
Proof.
  intros Ha Hb. unfold div_rounding_up. rewrite checked_div_rem_val by done. destruct (Z.eqb_spec (val b) 0); [done|].
  pose proof (val_bound a Ha). pose proof (val_bound b Hb).
  assert (val a / val b < WW) as H3 by (apply Z.div_lt_upper_bound; nia).
  destruct (round_up _ _ (val a) (val b) ltac:(lia) ltac:(lia) eq_refl eq_refl H3) as [-> |]; [|lia].
  apply checked_fits. assert (cdiv (val a) (val b) <= val a); [|lia]. apply cdiv_le; nia.
Qed.

(** ** The integer root *)

Lemma lz_u128_log x : 0 < x < W -> lz_u128 x = 127 - Z.log2 x.
Proof. intros Hx. unfold lz_u128. by destruct (Z.eqb_spec x 0); [lia|]. Qed.

Lemma leading_zeros_val a : wf a -> 0 < val a -> U256.leading_zeros a = 255 - Z.log2 (val a).
Proof.
  intros [Hh Hl] Hp. unfold u128, val, U256.leading_zeros in *. destruct (Z.eqb_spec (U256.hi a) 0) as [E|E]; cbn [negb].
  - rewrite E in *. rewrite lz_u128_log by lia. rewrite Z.mul_0_l, Z.add_0_l. lia.
  - rewrite lz_u128_log by lia. assert (Z.log2 (U256.hi a * W + U256.lo a) = Z.log2 (U256.hi a) + 128) as ->; [|lia].
    pose proof (Z.log2_nonneg (U256.hi a)). destruct (Z.log2_spec (U256.hi a) ltac:(lia)) as [L1 L2].
    apply Z.log2_unique; [lia|]. rewrite <- Z.add_succ_l, !Z.pow_add_r, <- W_pow by lia. pose proof W_big. nia.
Qed.

Lemma WW_pow : WW = 2 ^ 256.
Proof. unfold WW. rewrite W_pow, <- Z.pow_add_r by lia. done. Qed.

Lemma newton_step_val a x : wf a -> wf x -> 0 < val x ->
  U256.newton_step a x = Some (of_z ((val x + val a / val x) / 2)).
Proof.
  intros Ha Hx Hp. unfold U256.newton_step. rewrite checked_div_rem_val by done. destruct (Z.eqb_spec (val x) 0); [lia|].
  pose proof (val_bound a Ha). pose proof (val_bound x Hx). set (q := val a / val x).
  assert (0 <= q < WW) as Hq by (split; [apply Z.div_pos; lia|apply Z.div_lt_upper_bound; nia]).
  rewrite overflowing_add_val, val_of_z by (done || by apply wf_of_z). f_equal.
  assert (WW = 2 ^ 255 * 2) as EW by (rewrite WW_pow; done). destruct (Z.leb_spec WW (val x + q)) as [Ho|Ho].
  - assert ((val x + q) mod WW = val x + q - WW) as -> by (symmetry; apply (Z.mod_unique_pos _ _ 1); lia).
    assert (wf (of_z (val x + q - WW))) as W1 by (apply wf_of_z; lia).
    rewrite shr_val, val_of_z, pow2_val by (done || lia). change (2 ^ 1) with 2.
    assert ((val x + q) / 2 = (val x + q - WW) / 2 + 2 ^ 255) as E by (rewrite EW, <- Z.div_add by lia; f_equal; lia).
    assert (0 <= (val x + q - WW) / 2) by (apply Z.div_pos; lia). assert ((val x + q) / 2 < WW) by (apply Z.div_lt_upper_bound; lia).
    rewrite wrapping_add_val, !val_of_z by (apply wf_of_z; lia). rewrite <- E, Z.mod_small by lia. done.
  - rewrite Z.mod_small by lia. by rewrite shr_val, val_of_z by (try apply wf_of_z; lia).
Qed.

Lemma newton_loop_val fuel a x : wf a -> wf x -> 0 < val a -> Z.sqrt (val a) <= val x -> val x - Z.sqrt (val a) < 2 ^ Z.of_nat fuel ->
  U256.newton_loop fuel a x = of_z (Z.sqrt (val a)).
Proof.
  intros Ha. revert x. pose proof (val_bound a Ha) as Ba. induction fuel as [|f IH]; intros x Hx Hp Hlow Hf; cbn [U256.newton_loop].
  { change (2 ^ Z.of_nat 0) with 1 in Hf. rewrite <- (of_z_val x) by done. f_equal. lia. }
  assert (0 < Z.sqrt (val a)) as Hs by (by apply Z.sqrt_pos). rewrite newton_step_val by (done || lia).
  pose proof (newton_above (val a) (val x) ltac:(lia) ltac:(lia)) as A1.
  pose proof (newton_below (val a) (val x) ltac:(lia)) as A2.
  rewrite Z.quot_div_nonneg, Z.shiftr_div_pow2 in A1, A2 by lia. change (2 ^ 1) with 2 in *.
  set (y := (val x + val a / val x) / 2) in *. pose proof (val_bound x Hx) as Bx.
  assert (val a / val x <= val a) by (apply Z.div_le_upper_bound; nia). assert (0 <= val a / val x) by (apply Z.div_pos; lia).
  assert (0 <= y < WW) as By by (split; [apply Z.div_pos; lia|apply Z.div_lt_upper_bound; lia]).
  rewrite le_val, val_of_z by (done || by apply wf_of_z). destruct (Z.leb_spec (val x) y) as [Hl|Hl].
  - rewrite <- (of_z_val x) by done. f_equal. destruct (Z.eq_dec (val x) (Z.sqrt (val a))) as [|Hne]; [done|].
    specialize (A2 ltac:(lia)). assert ((val x - Z.sqrt (val a)) / 2 < val x - Z.sqrt (val a)) by (apply Z.div_lt; lia). lia.
  - apply IH; [by apply wf_of_z|done|by rewrite val_of_z|]. rewrite val_of_z. specialize (A2 ltac:(lia)).
    rewrite Nat2Z.inj_succ, Z.pow_succ_r in Hf by lia.
    assert ((val x - Z.sqrt (val a)) / 2 < 2 ^ Z.of_nat f) by (apply Z.div_lt_upper_bound; lia). lia.
Qed.

Lemma isqrt_val a : wf a -> U256.isqrt a = of_z (Z.sqrt (val a)).
Proof.
  intros Ha. pose proof (val_bound a Ha) as Ba. pose proof W_big. unfold U256.isqrt.
  assert (((U256.hi a =? 0) && (U256.lo a <? 2)) = (val a <? 2)) as ->.
  { destruct Ha as [Hh Hl]. unfold u128, val in *. destruct (Z.eqb_spec (U256.hi a) 0), (Z.ltb_spec (U256.lo a) 2),
      (Z.ltb_spec (U256.hi a * W + U256.lo a) 2); cbn [andb]; try done; exfalso; nia. }
  destruct (Z.ltb_spec (val a) 2) as [H2|H2].
  { rewrite <- (of_z_val a) at 1 by done. f_equal. assert (val a = 0 \/ val a = 1) as [-> | ->] by lia; done. }
  cbv zeta. rewrite leading_zeros_val by (done || lia). destruct (Z.log2_spec (val a) ltac:(lia)) as [L1 L2].
  assert (0 <= Z.log2 (val a) < 256) as HL by (split; [apply Z.log2_nonneg|apply Z.log2_lt_pow2; [lia|rewrite <- WW_pow; lia]]).
  set (k := (256 - (255 - Z.log2 (val a)) + 1) / 2). assert (Z.log2 (val a) + 1 <= 2 * k <= Z.log2 (val a) + 2) as Hk.
  { unfold k. pose proof (Z.div_mod (256 - (255 - Z.log2 (val a)) + 1) 2 ltac:(lia)).
    pose proof (Z.mod_pos_bound (256 - (255 - Z.log2 (val a)) + 1) 2 ltac:(lia)). lia. }
  assert (2 ^ k <= W) as Hkw by (rewrite W_pow; apply Z.pow_le_mono_r; lia). assert (0 < 2 ^ k) by (apply Z.pow_pos_nonneg; lia).
  assert (0 <= 2 ^ k < WW) as HB by (unfold WW; nia). rewrite pow2_val by lia.
  assert (val a < 2 ^ k * 2 ^ k) as Hsq.
  { rewrite <- Z.pow_add_r by lia. eapply Z.lt_le_trans; [exact L2|]. apply Z.pow_le_mono_r; lia. }
  apply newton_loop_val; [done|by apply wf_of_z|lia| |]; rewrite val_of_z.
  - apply Z.lt_succ_r. apply Z.sqrt_lt_square in Hsq; lia.
  - pose proof (Z.sqrt_nonneg (val a)). unfold U256.ISQRT_FUEL. change (2 ^ Z.of_nat 129) with (2 * 2 ^ 128). rewrite <- W_pow. lia.
Qed.
