(* ===== verification/AmmTick.v ===== *)
(** * Ticks and prices ([crates/core-amm/src/tick_math.rs], [price.rs])

    A price is [sqrt(1.0001 ^ tick) * 2 ^ 96]: a ladder of twenty constants
    one way, a fourteen-bit logarithm the other. *)

From S2P Require Import Prelude AmmU256.

#[local] Open Scope machine_scope.

Definition MIN_TICK : Z := -887272.
Definition MAX_TICK : Z := 887272.
Definition MIN_SQRT_LO : Z := 4295128739.
Definition MAX_SQRT_LO : Z := 318775800626314356294205765087544249638.
Definition MAX_SQRT_HI : Z := 4294805859.
Definition MIN_SQRT : U256 := U256.from_u128 MIN_SQRT_LO.
Definition MAX_SQRT : U256 := U256.from_u160 MAX_SQRT_LO MAX_SQRT_HI.

Definition mul_shr128 (a c : Z) : Z := U256.hi (U256.mul_u128 a c).

(** The constant of mask 1, and the steps of the other masks in order. *)
Definition STEP_1 : Z := 340265354078544963557816517032075149313.
Definition STEPS : list (Z * Z) :=
  [(2, 340248342086729790484326174814286782778);
   (4, 340214320654664324051920982716015181260);
   (8, 340146287995602323631171512101879684304);
   (16, 340010263488231146823593991679159461444);
   (32, 339738377640345403697157401104375502016);
   (64, 339195258003219555707034227454543997025);
   (128, 338111622100601834656805679988414885971);
   (256, 335954724994790223023589805789778977700);
   (512, 331682121138379247127172139078559817300);
   (1024, 323299236684853023288211250268160618739);
   (2048, 307163716377032989948697243942600083929);
   (4096, 277268403626896220162999269216087595045);
   (8192, 225923453940442621947126027127485391333);
   (16384, 149997214084966997727330242082538205943);
   (32768, 66119101136024775622716233608466517926);
   (65536, 12847376061809297530290974190478138313);
   (131072, 485053260817066172746253684029974020);
   (262144, 691415978906521570653435304214168);
   (524288, 1404880482679654955896180642)].

(** One step: [one] marks the exact [2 ^ 128] no constant was taken of yet. *)
Definition ladder_step (abs : Z) (st : Z * bool) (mc : Z * Z) : Z * bool :=
  let '(r, one) := st in
  let '(mask, c) := mc in
  if negb (Z.land abs mask =? 0) then (if one then c else mul_shr128 r c, false) else (r, one).

Definition ladder (abs : Z) : Z * bool :=
  foldl (ladder_step abs) (STEP_1, Z.land abs 1 =? 0) STEPS.

Definition sqrt_ratio_at_tick (tick : Z) : U256 :=
  let t := if tick <? MIN_TICK then MIN_TICK else if MAX_TICK <? tick then MAX_TICK else tick in
  let '(r, one) := ladder (Z.abs t) in
  let ratio := if one then U256.pow2 128 else U256.from_u128 r in
  let ratio :=
    if 0 <? t then
      match U256.checked_div_rem U256.MAX ratio with
      | Some (q, _) => q
      | None => U256.ZERO
      end
    else ratio in
  let s := U256.shr ratio 32 in
  if wrap_u32 (U256.lo ratio) =? 0 then s else U256.wrapping_add s U256.ONE.

Definition LOG_SQRT_10001 : Z := 255738958999603826347141.
Definition TICK_LOW_ERR : Z := 3402992956809132418596140100660247210.
Definition TICK_HI_ERR : Z := 291339464771989622907027621153398088495.

(** A word read as [i128], and cut to [i32]. *)
Definition as_i128 (z : Z) : Z := wrap_i128 z.
Definition as_i32 (z : Z) : Z := (z + 2147483648) mod 4294967296 - 2147483648.

(** The bits [bit], [bit - 1], ... of the logarithm, one squaring each. *)
Fixpoint log_bits (n : nat) (bit r log_2 : Z) : Z :=
  match n with
  | O => log_2
  | S k =>
      let sq := U256.shr (U256.mul_u128 r r) 127 in
      let f := wrap_u32 (U256.hi sq) in
      let log_2 := Z.lor log_2 (Z.shiftl f bit) in
      let r := if f =? 1 then U256.lo (U256.shr sq 1) else U256.lo sq in
      log_bits k (bit - 1) r log_2
  end.

(** Bits 63 down to 50. *)
Definition LOG_BITS : nat := 14.

Definition tick_at_sqrt_ratio (sqrt_price : U256) : Z :=
  if U256.lt sqrt_price MIN_SQRT then MIN_TICK
  else if U256.le MAX_SQRT sqrt_price then MAX_TICK - 1
  else
    let ratio := U256.shl sqrt_price 32 in
    let msb := U256.msb ratio in
    let r0 := if 128 <=? msb then U256.shr ratio (msb - 127) else U256.shl ratio (127 - msb) in
    let log_2 := log_bits LOG_BITS 63 (U256.lo r0) (Z.shiftl (msb - 128) 64) in
    let mag := U256.mul_u128 (Z.abs log_2) LOG_SQRT_10001 in
    let log_sqrt := if log_2 <? 0 then U256.wrapping_neg mag else mag in
    let tick_low := as_i32 (as_i128 (U256.hi (U256.wrapping_sub log_sqrt (U256.from_u128 TICK_LOW_ERR)))) in
    let tick_hi := as_i32 (as_i128 (U256.hi (U256.wrapping_add log_sqrt (U256.from_u128 TICK_HI_ERR)))) in
    if tick_low =? tick_hi then tick_low
    else if U256.le (sqrt_ratio_at_tick tick_hi) sqrt_price then tick_hi
    else tick_low.

Definition sqrt_at_tick (tick : Z) : Z * Z :=
  let s := sqrt_ratio_at_tick tick in (U256.lo s, wrap_u32 (U256.hi s)).

Definition tick_at_sqrt (lo hi : Z) : Z := tick_at_sqrt_ratio (U256.from_u160 lo hi).

Example endpoints_are_the_published_constants :
  sqrt_ratio_at_tick MIN_TICK = MIN_SQRT /\ sqrt_ratio_at_tick MAX_TICK = MAX_SQRT /\ sqrt_ratio_at_tick 0 = U256.pow2 96 /\
  sqrt_ratio_at_tick (MIN_TICK + 1) = U256.from_u128 4295343490 /\
  tick_at_sqrt_ratio MIN_SQRT = MIN_TICK /\ tick_at_sqrt_ratio (U256.wrapping_sub MAX_SQRT U256.ONE) = MAX_TICK - 1 /\
  tick_at_sqrt_ratio (U256.pow2 96) = 0 /\ tick_at_sqrt_ratio (sqrt_ratio_at_tick 123456) = 123456 /\
  tick_at_sqrt_ratio (U256.wrapping_sub (sqrt_ratio_at_tick (-54321)) U256.ONE) = -54322.
Proof. vm_compute. done. Qed.
