(* ===== verification/AmmTickProofs.v ===== *)
(** * The tick ladder is strictly increasing

    One more tick multiplies by one more constant, or trades the constants of
    the low bits for the next one; either way the price moves by a part in
    twenty thousand, far more than the roundings of the ladder. *)

From S2P Require Import Prelude AmmU256 AmmLimbs AmmDivision AmmArith AmmTick.

(** ** The ladder by bits *)

Definition step_const (k : nat) : Z :=
  match k with
  | O => STEP_1
  | S i => default 0 (snd <$> STEPS !! i)
  end.

(** The ladder over the constants below [k]. *)
Fixpoint lad (k : nat) (n : Z) : Z :=
  match k with
  | O => W
  | S i => if Z.testbit n (Z.of_nat i) then lad i n * step_const i / W else lad i n
  end.

Definition scaled (st : Z * bool) : Z := if snd st then W else fst st.

Lemma steps_masks i mc : STEPS !! i = Some mc -> fst mc = 2 ^ Z.of_nat (S i) /\ step_const (S i) = snd mc /\ 0 < snd mc < W.
Proof.
  intros E. assert (forall j, (j < 19)%nat -> match STEPS !! j with
    | Some mc => (fst mc =? 2 ^ Z.of_nat (S j)) && (0 <? snd mc) && (snd mc <? W) | None => false end = true) as C.
  { intros j Hj. do 19 (destruct j as [|j]; [by vm_compute|]). lia. }
  assert (i < 19)%nat as Hi by (apply lookup_lt_Some in E; exact E). specialize (C i Hi). rewrite E in C.
  apply andb_true_iff in C as [[C1%Z.eqb_eq C2%Z.ltb_lt]%andb_true_iff C3%Z.ltb_lt].
  split_and!; [done| |done|done]. unfold step_const. by rewrite E.
Qed.

Lemma land_testbit n k : (Z.land n (2 ^ Z.of_nat k) =? 0) = negb (Z.testbit n (Z.of_nat k)).
Proof.
  destruct (Z.testbit n (Z.of_nat k)) eqn:E; cbn [negb].
  - apply Z.eqb_neq. intros H. apply (f_equal (fun z => Z.testbit z (Z.of_nat k))) in H.
    rewrite Z.land_spec, E, Z.pow2_bits_true, Z.bits_0 in H by lia. done.
  - apply Z.eqb_eq. apply Z.bits_inj'. intros i Hi. rewrite Z.land_spec, Z.pow2_bits_eqb, Z.bits_0 by lia.
    destruct (Z.eqb_spec (Z.of_nat k) i) as [<-|]; [by rewrite E|by rewrite andb_false_r].
Qed.

Lemma mul_shr128_val a c : u128 a -> u128 c -> mul_shr128 a c = a * c / W.
Proof. intros Ha Hc. unfold mul_shr128. by rewrite mul_u128_val. Qed.

Lemma ladder_step_scaled abs st k mc : STEPS !! k = Some mc -> 0 <= fst st < W ->
  scaled (ladder_step abs st mc) = (if Z.testbit abs (Z.of_nat (S k)) then scaled st * step_const (S k) / W else scaled st) /\
  0 <= fst (ladder_step abs st mc) < W.
Proof.
  intros E Hr. destruct (steps_masks k mc E) as (Em & Ec & Hc). destruct st as [r one], mc as [m c]. cbn [fst snd] in *.
  unfold ladder_step, scaled. cbn [fst snd]. rewrite Em, land_testbit, negb_involutive, Ec. pose proof W_big.
  destruct (Z.testbit abs (Z.of_nat (S k))); cbn [fst snd]; [|done]. destruct one.
  - rewrite Z.mul_comm, Z.div_mul by lia. lia.
  - rewrite mul_shr128_val by (unfold u128; lia). split; [done|]. split; [apply Z.div_pos; nia|apply Z.div_lt_upper_bound; nia].
Qed.

Lemma ladder_steps abs i st : (i <= 19)%nat -> st = (STEP_1, Z.land abs 1 =? 0) ->
  scaled (foldl (ladder_step abs) st (take i STEPS)) = lad (S i) abs /\ 0 <= fst (foldl (ladder_step abs) st (take i STEPS)) < W.
Proof.
  intros Hi ->. induction i as [|i IH].
  { rewrite take_0. cbn [foldl lad scaled fst snd step_const]. change (Z.land abs 1) with (Z.land abs (2 ^ Z.of_nat 0)).
    rewrite land_testbit. unfold scaled. cbn [fst snd]. split; [|by vm_compute].
    destruct (Z.testbit abs (Z.of_nat 0)); cbn [negb]; [|done]. by rewrite Z.mul_comm, Z.div_mul. }
  destruct (STEPS !! i) as [mc|] eqn:E; [|apply lookup_ge_None in E; change (length STEPS) with 19%nat in E; lia].
  destruct (IH ltac:(lia)) as [V R]. rewrite (take_S_r _ _ _ E), foldl_app. cbn [foldl].
  destruct (ladder_step_scaled abs _ i mc E R) as [V' R']. split; [|done]. by rewrite V', V.
Qed.

Lemma ladder_lad abs : scaled (ladder abs) = lad 20 abs /\ 0 <= fst (ladder abs) < W.
Proof. apply (ladder_steps abs 19 _ ltac:(lia) eq_refl). Qed.

(** ** One more tick *)

Lemma step_const_bound k : (k < 20)%nat -> 0 < step_const k < W.
Proof. intros Hk. do 20 (destruct k as [|k]; [by vm_compute|]). lia. Qed.

(** The bits from [k] on play no part in the first [k] steps. *)
Lemma lad_low k n b : 0 <= n < 2 ^ Z.of_nat k -> 0 <= b -> lad k (n + b * 2 ^ Z.of_nat k) = lad k n.
Proof.
  intros Hn Hb. assert (forall i, (i <= k)%nat -> lad i (n + b * 2 ^ Z.of_nat k) = lad i n) as G; [|by apply G].
  induction i as [|i IH]; intros Hi; [done|]. cbn [lad]. rewrite IH by lia.
  assert (Z.testbit (n + b * 2 ^ Z.of_nat k) (Z.of_nat i) = Z.testbit n (Z.of_nat i)) as ->; [|done].
  rewrite <- (Z.mod_pow2_bits_low _ (Z.of_nat k)) by lia. by rewrite Z.mod_add, Z.mod_small by lia.
Qed.

Lemma lad_S_low k n : 0 <= n < 2 ^ Z.of_nat k -> lad (S k) n = lad k n.
Proof.
  intros Hn. cbn [lad]. rewrite <- (Z.mod_small n (2 ^ Z.of_nat k)) at 1 by done. by rewrite Z.mod_pow2_bits_high by lia.
Qed.

Lemma lad_S_high k n : 0 <= n < 2 ^ Z.of_nat k -> lad (S k) (n + 2 ^ Z.of_nat k) = lad k n * step_const k / W.
Proof.
  intros Hn. cbn [lad]. replace (n + 2 ^ Z.of_nat k) with (n + 1 * 2 ^ Z.of_nat k) by lia. rewrite lad_low by lia.
  assert (Z.testbit (n + 1 * 2 ^ Z.of_nat k) (Z.of_nat k) = true) as ->; [|done].
  rewrite Z.testbit_true by lia. rewrite Z.div_add, Z.div_small by lia. done.
Qed.

Lemma lad_zero k : lad k 0 = W.
Proof. induction k as [|k IH]; [done|]. cbn [lad]. by rewrite Z.bits_0. Qed.

Lemma lad_bound k n : (k <= 20)%nat -> 0 <= lad k n <= W.
Proof.
  intros Hk. pose proof W_big. induction k as [|k IH]; cbn [lad]; [lia|]. specialize (IH ltac:(lia)).
  pose proof (step_const_bound k ltac:(lia)). destruct (Z.testbit _ _); [|done].
  split; [apply Z.div_pos; nia|apply Z.div_le_upper_bound; nia].
Qed.

(** A tick moves the price by more than one part in [20003]; every step may
    round by one. *)
Definition GAP : Z := 20003.

Definition apart (k : nat) (a b : Z) : Prop := a - Z.of_nat k * GAP <= (a - b) * GAP.

Lemma apart_scale k a b c : 0 <= b -> 0 < c < W -> apart k a b -> apart (S k) (a * c / W) (b * c / W).
Proof.
  unfold apart, GAP. intros Hb Hc Ha. pose proof W_big.
  pose proof (div_bound (a * c) W ltac:(lia)) as B1. pose proof (div_bound (b * c) W ltac:(lia)) as B2.
  set (a' := a * c / W) in *. set (b' := b * c / W) in *. rewrite Nat2Z.inj_succ.
  assert ((a - Z.of_nat k * 20003) * c <= (a - b) * 20003 * c) as M by (apply Z.mul_le_mono_nonneg_r; lia).
  assert (Z.of_nat k * 20003 * c <= Z.of_nat k * 20003 * W) as K by (apply Z.mul_le_mono_nonneg_l; lia).
  assert ((a' - Z.succ (Z.of_nat k) * 20003) * W <= (a' - b') * 20003 * W); [|nia]. nia.
Qed.

Lemma apart_S k a b : apart k a b -> apart (S k) a b.
Proof. unfold apart, GAP. lia. Qed.

(** Where the low bits run out: the next constant against all the lower ones. *)
Lemma apart_carry k : (k < 20)%nat -> apart (S k) (lad k (2 ^ Z.of_nat k - 1)) (step_const k).
Proof.
  intros Hk. unfold apart. apply Z.leb_le. do 20 (destruct k as [|k]; [by vm_compute|]). lia.
Qed.

Lemma lad_apart k n : (k <= 20)%nat -> 0 <= n -> n + 1 < 2 ^ Z.of_nat k -> apart k (lad k n) (lad k (n + 1)).
Proof.
  revert n. induction k as [|k IH]; intros n Hk H0 H1.
  { change (2 ^ Z.of_nat 0) with 1 in H1. lia. }
  rewrite Nat2Z.inj_succ, Z.pow_succ_r in H1 by lia. assert (0 < 2 ^ Z.of_nat k) by (apply Z.pow_pos_nonneg; lia).
  destruct (Z.lt_trichotomy (n + 1) (2 ^ Z.of_nat k)) as [Hl|[He|Hg]].
  - rewrite !lad_S_low by lia. apply apart_S, IH; lia.
  - rewrite lad_S_low by lia. rewrite He. rewrite <- (Z.add_0_l (2 ^ Z.of_nat k)).
    rewrite lad_S_high, lad_zero by lia. rewrite Z.mul_comm, Z.div_mul by (pose proof W_big; lia).
    replace n with (2 ^ Z.of_nat k - 1) by lia. apply apart_carry. lia.
  - replace n with (n - 2 ^ Z.of_nat k + 2 ^ Z.of_nat k) by lia. set (m := n - 2 ^ Z.of_nat k) in *.
    replace (m + 2 ^ Z.of_nat k + 1) with (m + 1 + 2 ^ Z.of_nat k) by lia. rewrite !lad_S_high by lia.
    apply apart_scale; [apply lad_bound; lia|apply step_const_bound; lia|apply IH; lia].
Qed.

(** ** The ratio of a tick *)

(** The ratio as a 128.128 number, before the last shift. *)
Definition ratio_x128 (t : Z) : Z := if 0 <? t then (WW - 1) / lad 20 (Z.abs t) else lad 20 (Z.abs t).

Definition in_ticks (t : Z) : Prop := MIN_TICK <= t <= MAX_TICK.

(** All bits set is the least. *)
Lemma lad_min k n : (k <= 20)%nat -> lad k (2 ^ Z.of_nat k - 1) <= lad k n.
Proof.
  intros Hk. pose proof W_big. induction k as [|k IH]; [done|]. specialize (IH ltac:(lia)).
  assert (0 < 2 ^ Z.of_nat k) by (apply Z.pow_pos_nonneg; lia). pose proof (step_const_bound k ltac:(lia)).
  replace (2 ^ Z.of_nat (S k) - 1) with (2 ^ Z.of_nat k - 1 + 2 ^ Z.of_nat k) by (rewrite Nat2Z.inj_succ, Z.pow_succ_r; lia).
  rewrite lad_S_high by lia. pose proof (lad_bound k (2 ^ Z.of_nat k - 1) ltac:(lia)). pose proof (lad_bound k n ltac:(lia)).
  cbn [lad]. destruct (Z.testbit n (Z.of_nat k)).
  - apply Z.div_le_mono; [lia|]. apply Z.mul_le_mono_nonneg_r; lia.
  - transitivity (lad k (2 ^ Z.of_nat k - 1)); [|done]. apply Z.div_le_upper_bound; nia.
Qed.

Lemma lad_step m : 0 <= m -> m + 1 < 2 ^ 20 -> lad 20 m - 20 * GAP <= (lad 20 m - lad 20 (m + 1)) * GAP /\ 20 * GAP < lad 20 m.
Proof.
  intros H0 H1. pose proof (lad_apart 20 m ltac:(lia) H0 H1) as A. split; [exact A|].
  eapply Z.lt_le_trans; [|apply (lad_min 20)]; [|lia]. by vm_compute.
Qed.

Lemma lad_20_mono m n : 0 <= m <= n -> n < 2 ^ 20 -> lad 20 n <= lad 20 m.
Proof.
  intros [Hm Hmn]. replace n with (m + (n - m)) by lia. assert (0 <= n - m) as Hd by lia. revert Hd.
  generalize (n - m). apply (natlike_ind (fun d => m + d < 2 ^ 20 -> lad 20 (m + d) <= lad 20 m)).
  { intros _. by rewrite Z.add_0_r. }
  intros d Hd IH Hlt. destruct (lad_step (m + d) ltac:(lia) ltac:(lia)) as [A B].
  replace (m + d + 1) with (m + Z.succ d) in A by lia. specialize (IH ltac:(lia)). unfold GAP in *. lia.
Qed.

(** Inside the tick domain the ladder keeps sixty-four bits. *)
Lemma lad_floor m : 0 <= m <= MAX_TICK -> 18447024600000000000 < lad 20 m <= W.
Proof.
  intros Hm. pose proof (lad_20_mono m MAX_TICK Hm ltac:(by vm_compute)). pose proof (lad_bound 20 m ltac:(lia)).
  assert (18447024600000000000 < lad 20 MAX_TICK) by (by vm_compute). lia.
Qed.

(** A tick apart, the 128.128 ratios differ by far more than one unit of the
    last shift. *)
Lemma ratio_x128_step t : MIN_TICK <= t < MAX_TICK -> ratio_x128 t + 2 * 2 ^ 32 <= ratio_x128 (t + 1).
Proof.
  intros Ht. unfold MIN_TICK, MAX_TICK in Ht. unfold ratio_x128. destruct (Z.ltb_spec 0 t) as [Hp|Hp].
  - destruct (Z.ltb_spec 0 (t + 1)) as [_|]; [|lia]. rewrite !Z.abs_eq by lia.
    destruct (lad_step t ltac:(lia) ltac:(lia)) as [A _]. pose proof (lad_floor t ltac:(unfold MAX_TICK; lia)) as F1.
    pose proof (lad_floor (t + 1) ltac:(unfold MAX_TICK; lia)) as F2. unfold GAP in A.
    set (a := lad 20 t) in *. set (b := lad 20 (t + 1)) in *.
    apply div_ge; [lia|]. pose proof (div_bound (WW - 1) a ltac:(lia)) as Q. set (q := (WW - 1) / a) in *.
    assert (a * 40000 <= (a - b) * 1000000000) as A2 by lia.
    assert (W - 1 <= q) as Q1 by (apply div_ge; [lia|unfold WW; pose proof W_big; nia]).
    assert (q * (a - b) * 1000000000 >= q * (a * 40000)) as Q2 by nia.
    assert (q * b = q * a - q * (a - b)) as Q3 by lia. assert (W = 340282366920938463463374607431768211456) as HW by done. change (2 ^ 32) with 4294967296. nia.
  - destruct (Z.ltb_spec 0 (t + 1)) as [H1|H1].
    + assert (t = 0) as -> by lia. by apply Z.leb_le; vm_compute.
    + replace (Z.abs t) with (Z.abs (t + 1) + 1) by lia. set (m := Z.abs (t + 1)).
      destruct (lad_step m ltac:(lia) ltac:(lia)) as [A _]. pose proof (lad_floor m ltac:(unfold MAX_TICK; lia)) as F1.
      unfold GAP in A. change (2 ^ 32) with 4294967296. lia.
Qed.

Lemma ratio_x128_bound t : in_ticks t -> 0 < ratio_x128 t < WW.
Proof.
  unfold in_ticks, MIN_TICK, MAX_TICK. intros Ht. pose proof W_big. unfold ratio_x128.
  pose proof (lad_floor (Z.abs t) ltac:(unfold MAX_TICK; lia)) as F. destruct (0 <? t); [|unfold WW; nia].
  split; [|apply Z.div_lt_upper_bound; unfold WW; nia]. assert (1 <= (WW - 1) / lad 20 (Z.abs t)); [|lia].
  apply div_ge; [lia|]. unfold WW. nia.
Qed.

(** The ratio is rounded up to a price. *)
Lemma sqrt_ratio_val t : in_ticks t ->
  wf (sqrt_ratio_at_tick t) /\ val (sqrt_ratio_at_tick t) = cdiv (ratio_x128 t) (2 ^ 32).
Proof.
  intros Ht. pose proof (ratio_x128_bound t Ht) as Hx. pose proof W_big as Wb. unfold in_ticks, MIN_TICK, MAX_TICK in Ht.
  assert (exists x, (let '(r, one) := ladder (Z.abs t) in
    let ratio := if one then U256.pow2 128 else U256.from_u128 r in
    if 0 <? t then match U256.checked_div_rem U256.MAX ratio with Some (q, _) => q | None => U256.ZERO end else ratio) = x /\
    wf x /\ val x = ratio_x128 t) as (x & Ex & Wx & Vx).
  { destruct (ladder_lad (Z.abs t)) as [L R]. pose proof (lad_floor (Z.abs t) ltac:(unfold MAX_TICK; lia)) as F.
    unfold ratio_x128 in *. rewrite <- L in *. destruct (ladder (Z.abs t)) as [r one]. unfold scaled in *. cbn [fst snd] in *.
    assert ((if one then U256.pow2 128 else U256.from_u128 r) = of_z (if one then W else r)) as ->.
    { destruct one; [|by apply from_u128_of_z]. rewrite pow2_val, W_pow by lia. done. }
    assert (wf (of_z (if one then W else r))) as Wr by (apply wf_of_z; unfold WW; destruct one; nia).
    eexists. split; [done|]. destruct (0 <? t); [|by rewrite val_of_z].
    assert (wf U256.MAX /\ val U256.MAX = WW - 1) as [Wm Vm] by (split; [unfold wf, u128; cbn; rewrite u128_max_W; lia|by vm_compute]).
    rewrite checked_div_rem_val, val_of_z, Vm by done. destruct (Z.eqb_spec (if one then W else r) 0); [lia|].
    split; [apply wf_of_z; lia|by rewrite val_of_z]. }
  unfold sqrt_ratio_at_tick. destruct (Z.ltb_spec t MIN_TICK); [unfold MIN_TICK in *; lia|].
  destruct (Z.ltb_spec MAX_TICK t); [unfold MAX_TICK in *; lia|].
  destruct (ladder (Z.abs t)) as [r one]. cbv zeta in *. rewrite Ex. rewrite shr_val, Vx by (done || lia).
  assert (wrap_u32 (U256.lo x) = ratio_x128 t mod 2 ^ 32) as ->.
  { rewrite <- Vx. unfold val, wrap_u32. rewrite W_pow. change 4294967296 with (2 ^ 32).
    replace (U256.hi x * 2 ^ 128) with (U256.hi x * 2 ^ 96 * 2 ^ 32) by (rewrite <- Z.mul_assoc, <- Z.pow_add_r by lia; done).
    by rewrite Z.add_comm, Z.mod_add by lia. }
  assert (0 <= ratio_x128 t / 2 ^ 32 < WW - 1) as Hq.
  { split; [apply Z.div_pos; lia|]. apply Z.div_lt_upper_bound; [lia|]. change (2 ^ 32) with 4294967296. unfold WW in *. nia. }
  rewrite (cdiv_mod (ratio_x128 t)) by lia. destruct (ratio_x128 t mod 2 ^ 32 =? 0); [split; [apply wf_of_z; lia|by rewrite val_of_z]|].
  assert (wf U256.ONE /\ val U256.ONE = 1) as [W1 V1] by (split; [unfold wf, u128; cbn; lia|done]).
  rewrite wrapping_add_val, val_of_z, V1, Z.mod_small by (try apply wf_of_z; done || lia).
  split; [apply wf_of_z; lia|by rewrite val_of_z].
Qed.

Lemma sqrt_ratio_step t : MIN_TICK <= t < MAX_TICK -> val (sqrt_ratio_at_tick t) < val (sqrt_ratio_at_tick (t + 1)).
Proof.
  intros Ht. destruct (sqrt_ratio_val t ltac:(unfold in_ticks; lia)) as [_ ->].
  destruct (sqrt_ratio_val (t + 1) ltac:(unfold in_ticks; lia)) as [_ ->]. pose proof (ratio_x128_step t Ht).
  pose proof (cdiv_bound (ratio_x128 t) (2 ^ 32) ltac:(lia)). pose proof (cdiv_bound (ratio_x128 (t + 1)) (2 ^ 32) ltac:(lia)).
  change (2 ^ 32) with 4294967296 in *. lia.
Qed.

Lemma sqrt_ratio_mono t u : MIN_TICK <= t -> t <= u -> u <= MAX_TICK ->
  val (sqrt_ratio_at_tick t) <= val (sqrt_ratio_at_tick u) /\ (t < u -> val (sqrt_ratio_at_tick t) < val (sqrt_ratio_at_tick u)).
Proof.
  intros H1 H2. replace u with (t + (u - t)) by lia. assert (0 <= u - t) as Hd by lia. revert Hd. generalize (u - t).
  apply (natlike_ind (fun d => t + d <= MAX_TICK -> val (sqrt_ratio_at_tick t) <= val (sqrt_ratio_at_tick (t + d)) /\
    (t < t + d -> val (sqrt_ratio_at_tick t) < val (sqrt_ratio_at_tick (t + d))))).
  { intros _. rewrite Z.add_0_r. lia. }
  intros d Hd IH Hlt. specialize (IH ltac:(lia)). pose proof (sqrt_ratio_step (t + d) ltac:(lia)) as S.
  replace (t + d + 1) with (t + Z.succ d) in S by lia. lia.
Qed.

Lemma min_sqrt_val : wf MIN_SQRT /\ val MIN_SQRT = MIN_SQRT_LO /\ sqrt_ratio_at_tick MIN_TICK = MIN_SQRT.
Proof. split_and!; [by vm_compute..]. Qed.

Lemma max_sqrt_val : wf MAX_SQRT /\ val MAX_SQRT < 2 ^ 160 /\ sqrt_ratio_at_tick MAX_TICK = MAX_SQRT.
Proof. split_and!; [by vm_compute..]. Qed.

(** Every tick's price lies between the published ends. *)
Lemma sqrt_ratio_range t : in_ticks t -> val MIN_SQRT <= val (sqrt_ratio_at_tick t) <= val MAX_SQRT.
Proof.
  intros [H1 H2]. destruct min_sqrt_val as (_ & _ & <-). destruct max_sqrt_val as (_ & _ & <-).
  split; apply sqrt_ratio_mono; unfold MIN_TICK, MAX_TICK in *; lia.
Qed.
