(* ===== verification/AmmTickLog.v ===== *)
(** * The tick of a price is the greatest whose ratio is within it

    Base-two logarithms over the reals measure both directions: the ladder is
    linear in the tick up to [2 ^ -30], the fourteen squarings read the
    logarithm of the price to one part in [2 ^ 14], and the two error bounds
    of the code are what those leave. *)

From Stdlib Require Import Reals Lra.
From S2P Require Import Prelude AmmU256 AmmLimbs AmmDivision AmmArith AmmTick AmmTickProofs.

(** ** Logarithms of integers *)

Definition lgz (x : Z) : R := (ln (IZR x) / ln 2)%R.

Lemma ln2_bounds : (1 / 2 < ln 2)%R.
Proof. pose proof ln_lt_2. lra. Qed.

Lemma ln_mono x y : (0 < x -> x <= y -> ln x <= ln y)%R.
Proof. intros Hx [H|H]; [left; by apply ln_increasing|right; by rewrite H]. Qed.

Lemma lgz_mul x y : 0 < x -> 0 < y -> lgz (x * y) = (lgz x + lgz y)%R.
Proof.
  intros Hx Hy. unfold lgz. rewrite mult_IZR, ln_mult by (apply IZR_lt; done). pose proof ln2_bounds. field. lra.
Qed.

Lemma lgz_le x y : 0 < x <= y -> (lgz x <= lgz y)%R.
Proof.
  intros [Hx Hxy]. unfold lgz. pose proof ln2_bounds. apply Rmult_le_compat_r; [apply Rlt_le, Rinv_0_lt_compat; lra|].
  apply ln_mono; [by apply IZR_lt|by apply IZR_le].
Qed.

Lemma lgz_1 : lgz 1 = 0%R.
Proof. unfold lgz. rewrite ln_1. lra. Qed.

Lemma lgz_2 : lgz 2 = 1%R.
Proof. unfold lgz. pose proof ln2_bounds. field. lra. Qed.

Lemma lgz_pow2 n : 0 <= n -> lgz (2 ^ n) = IZR n.
Proof.
  apply (natlike_ind (fun n => lgz (2 ^ n) = IZR n)); [apply lgz_1|].
  intros k Hk IH. rewrite Z.pow_succ_r, lgz_mul, IH, lgz_2, succ_IZR by (try apply Z.pow_pos_nonneg; lia). lra.
Qed.

(** A relative change bounds the change of the logarithm. *)
Lemma lgz_near x d e : 0 < x -> 0 <= d -> (2 * IZR d <= e * IZR x)%R -> (lgz (x + d) <= lgz x + e)%R.
Proof.
  intros Hx Hd He. pose proof ln2_bounds as L2. assert (0 < IZR x)%R as Px by (by apply IZR_lt). assert (0 <= IZR d)%R as Pd by (by apply IZR_le).
  assert (IZR (x + d) = IZR x * (1 + IZR d / IZR x))%R as E by (rewrite plus_IZR; field; lra).
  assert (0 <= IZR d / IZR x)%R as Pq by (apply Rmult_le_pos; [done|apply Rlt_le, Rinv_0_lt_compat; lra]).
  unfold lgz. rewrite E, ln_mult by lra. rewrite Rdiv_plus_distr. apply Rplus_le_compat_l.
  assert (ln (1 + IZR d / IZR x) <= IZR d / IZR x)%R as L1.
  { rewrite <- (ln_exp (IZR d / IZR x)) at 2. apply ln_mono; [lra|]. apply exp_ineq1_le. }
  assert (IZR d / IZR x <= e / 2)%R as Q.
  { apply (Rmult_le_reg_r (IZR x)); [lra|]. replace (IZR d / IZR x * IZR x)%R with (IZR d) by (field; lra). lra. }
  apply (Rmult_le_reg_r (ln 2)); [lra|]. replace (ln (1 + IZR d / IZR x) / ln 2 * ln 2)%R with (ln (1 + IZR d / IZR x)) by (field; lra).
  assert (0 <= e)%R by lra. nra.
Qed.

(** ** The squarings *)

Definition normal (r : Z) : Prop := 2 ^ 127 <= r < 2 ^ 128.

(** The error of one squaring: two units of the mantissa. *)
Definition EPS : R := (/ IZR (2 ^ 126))%R.

Lemma eps_pos : (0 < EPS)%R.
Proof. apply Rinv_0_lt_compat. by apply IZR_lt. Qed.

Lemma normal_eps r : normal r -> (2 * 1 <= EPS * IZR r)%R.
Proof.
  intros [H _]. unfold EPS. apply IZR_le in H. change (2 ^ 127) with (2 * 2 ^ 126) in H. rewrite mult_IZR in H.
  assert (0 < IZR (2 ^ 126))%R by (by apply IZR_lt). apply (Rmult_le_reg_l (IZR (2 ^ 126))); [done|].
  replace (IZR (2 ^ 126) * (/ IZR (2 ^ 126) * IZR r))%R with (IZR r) by (field; lra). lra.
Qed.

(** One squaring: the bit, and the mantissa that is left. *)
Lemma square_step r : normal r -> let sq := r * r / 2 ^ 127 in let f := sq / 2 ^ 128 in
  (f = 0 \/ f = 1) /\ let r' := if f =? 1 then sq / 2 else sq in
  normal r' /\ (IZR f + (lgz r' - 127) <= 2 * (lgz r - 127) <= IZR f + (lgz r' - 127) + EPS)%R.
Proof.
  intros Hr sq f. pose proof Hr as [H1 H2]. pose proof (div_bound (r * r) (2 ^ 127) ltac:(lia)) as B1. fold sq in B1.
  assert (2 ^ 127 <= sq < 2 ^ 129) as Hsq.
  { change (2 ^ 128) with (2 * 2 ^ 127) in *. change (2 ^ 129) with (4 * 2 ^ 127). set (P := 2 ^ 127) in *.
    assert (0 < P) by (by unfold P). split; [apply div_ge; [done|nia]|apply Z.div_lt_upper_bound; nia]. }
  pose proof (div_bound sq (2 ^ 128) ltac:(lia)) as B2. fold f in B2. change (2 ^ 129) with (2 * 2 ^ 128) in Hsq.
  assert (f = 0 \/ f = 1) as Hf by lia. split; [done|]. intros r'.
  assert (normal r' /\ r' * 2 ^ (127 + f) <= r * r < (r' + 1) * 2 ^ (127 + f)) as [Nr [L1 L2]].
  { unfold r', normal. destruct Hf as [-> | ->]; cbn [Z.eqb Pos.eqb].
    - change (127 + 0) with 127. change (2 ^ 128) with (2 * 2 ^ 127) in *. lia.
    - change (127 + 1) with 128. change (2 ^ 128) with (2 * 2 ^ 127) in *. pose proof (div_bound sq 2 ltac:(lia)). lia. }
  split; [done|]. assert (0 < r' /\ 0 < r) as [Pr' Pr] by (unfold normal in *; lia).
  assert (0 < 2 ^ (127 + f)) as Pp by (apply Z.pow_pos_nonneg; lia).
  assert (2 * lgz r = lgz (r * r))%R as E2 by (rewrite lgz_mul by done; lra).
  pose proof (lgz_le (r' * 2 ^ (127 + f)) (r * r) ltac:(nia)) as G1. pose proof (lgz_le (r * r) ((r' + 1) * 2 ^ (127 + f)) ltac:(nia)) as G2.
  rewrite (lgz_mul r'), lgz_pow2, plus_IZR in G1 by lia. rewrite (lgz_mul (r' + 1)), lgz_pow2, plus_IZR in G2 by lia.
  pose proof (lgz_near r' 1 EPS Pr' ltac:(lia) (normal_eps r' Nr)) as G3. lra.
Qed.

(** [n] bits of the fraction, from bit [bit] down. *)
Lemma log_bits_spec n bit r L : (Z.of_nat n <= bit + 1) -> normal r -> (exists a, L = a * 2 ^ (bit + 1)) ->
  exists B, log_bits n bit r L = L + B * 2 ^ (bit + 1 - Z.of_nat n) /\ 0 <= B < 2 ^ Z.of_nat n /\
    (IZR B <= IZR (2 ^ Z.of_nat n) * (lgz r - 127) < IZR B + 1 + IZR (2 ^ Z.of_nat n) * EPS)%R.
Proof.
  revert bit r L. induction n as [|k IH]; intros bit r L Hb Hr (a & Ea).
  { exists 0. cbn [log_bits]. rewrite Z.mul_0_l, Z.add_0_r. split; [done|]. split; [done|]. change (2 ^ Z.of_nat 0) with 1.
    pose proof eps_pos. pose proof Hr as [H1 H2]. pose proof (lgz_le (2 ^ 127) r ltac:(lia)) as G1. rewrite lgz_pow2 in G1 by lia.
    pose proof (lgz_le r (2 ^ 128) ltac:(lia)) as G2. rewrite lgz_pow2 in G2 by lia. lra. }
  cbn [log_bits]. pose proof Hr as [H1 H2]. assert (u128 r) as Ur by (unfold u128; rewrite W_pow; lia).
  assert (wf (of_z (r * r)) /\ 0 <= r * r < WW) as [Wrr Brr].
  { assert (0 <= r * r < WW) by (unfold WW; rewrite W_pow; set (P := 2 ^ 128) in *; nia). split; [by apply wf_of_z|done]. }
  rewrite mul_u128_val, shr_val, val_of_z by (done || lia).
  destruct (square_step r Hr) as (Hf & Nr & Hlog). set (sq := r * r / 2 ^ 127) in *. set (f := sq / 2 ^ 128) in *. cbv zeta in *.
  assert (0 <= sq < WW) as Bsq by (unfold sq; split; [apply Z.div_pos; lia|apply Z.div_lt_upper_bound; lia]).
  assert (U256.hi (of_z sq) = f) as -> by (unfold of_z, f; cbn [U256.hi]; by rewrite W_pow).
  assert (wrap_u32 f = f) as -> by (unfold wrap_u32; apply Z.mod_small; lia).
  assert ((if f =? 1 then U256.lo (U256.shr (of_z sq) 1) else U256.lo (of_z sq)) = if f =? 1 then sq / 2 else sq) as ->.
  { destruct (f =? 1); [rewrite shr_val, val_of_z by (try apply wf_of_z; lia); change (2 ^ 1) with 2|]; unfold of_z; cbn [U256.lo];
      rewrite W_pow; apply Z.mod_small; unfold normal in Nr; lia. }
  set (r' := if f =? 1 then sq / 2 else sq) in *. assert (0 < 2 ^ bit) as Pb by (apply Z.pow_pos_nonneg; lia).
  assert (Z.lor L (Z.shiftl f bit) = L + f * 2 ^ bit) as ->.
  { rewrite Ea, Z.shiftl_mul_pow2 by lia. apply lor_low_high; [lia|]. rewrite Z.pow_add_r by lia. change (2 ^ 1) with 2. nia. }
  destruct (IH (bit - 1) r' (L + f * 2 ^ bit)) as (B & EB & BB & LB); [lia|done| |].
  { exists (2 * a + f). rewrite Ea. replace (bit - 1 + 1) with bit by lia. rewrite Z.pow_add_r by lia. change (2 ^ 1) with 2. lia. }
  exists (f * 2 ^ Z.of_nat k + B). rewrite EB. rewrite Nat2Z.inj_succ, Z.pow_succ_r by lia.
  replace (bit - 1 + 1 - Z.of_nat k) with (bit - Z.of_nat k) by lia. replace (bit + 1 - Z.succ (Z.of_nat k)) with (bit - Z.of_nat k) by lia.
  assert (0 < 2 ^ Z.of_nat k) as Pk by (apply Z.pow_pos_nonneg; lia).
  split; [|split; [nia|]].
  - assert (2 ^ bit = 2 ^ Z.of_nat k * 2 ^ (bit - Z.of_nat k)) as -> by (rewrite <- Z.pow_add_r by lia; f_equal; lia). lia.
  - rewrite plus_IZR, !mult_IZR. set (K := IZR (2 ^ Z.of_nat k)) in *. assert (0 < K)%R as PK by (by apply IZR_lt).
    pose proof eps_pos. assert (K * (IZR f + (lgz r' - 127)) <= K * (2 * (lgz r - 127)))%R by (apply Rmult_le_compat_l; lra).
    assert (K * (2 * (lgz r - 127)) <= K * (IZR f + (lgz r' - 127) + EPS))%R by (apply Rmult_le_compat_l; lra). lra.
Qed.

(** A number and its mantissa. *)
Lemma mantissa x : 0 < x -> let m := Z.log2 x in
  let r0 := if 128 <=? m then x / 2 ^ (m - 127) else x * 2 ^ (127 - m) in
  normal r0 /\ (lgz r0 - 127 + IZR m <= lgz x <= lgz r0 - 127 + IZR m + EPS)%R.
Proof.
  intros Hx m r0. destruct (Z.log2_spec x Hx) as [L1 L2]. fold m in L1, L2. pose proof (Z.log2_nonneg x) as M0. fold m in M0.
  rewrite Z.pow_succ_r in L2 by lia. pose proof eps_pos. unfold r0, normal. destruct (Z.leb_spec 128 m) as [Hm|Hm].
  - assert (0 < 2 ^ (m - 127)) as Pp by (apply Z.pow_pos_nonneg; lia).
    assert (2 ^ m = 2 ^ 127 * 2 ^ (m - 127)) as Em by (rewrite <- Z.pow_add_r by lia; f_equal; lia).
    change (2 ^ 128) with (2 * 2 ^ 127). pose proof (div_bound x (2 ^ (m - 127)) Pp) as B. set (q := x / 2 ^ (m - 127)) in *.
    assert (2 ^ 127 <= q < 2 * 2 ^ 127) as Hq by (split; [apply div_ge; lia|apply Z.div_lt_upper_bound; lia]). split; [done|].
    pose proof (lgz_le (q * 2 ^ (m - 127)) x ltac:(nia)) as G1. pose proof (lgz_le x ((q + 1) * 2 ^ (m - 127)) ltac:(nia)) as G2.
    rewrite (lgz_mul q), lgz_pow2, minus_IZR in G1 by lia. rewrite (lgz_mul (q + 1)), lgz_pow2, minus_IZR in G2 by lia.
    pose proof (lgz_near q 1 EPS ltac:(lia) ltac:(lia) (normal_eps q Hq)). lra.
  - assert (0 < 2 ^ (127 - m)) as Pp by (apply Z.pow_pos_nonneg; lia).
    assert (2 ^ m * 2 ^ (127 - m) = 2 ^ 127) as Em by (rewrite <- Z.pow_add_r by lia; f_equal; lia).
    change (2 ^ 128) with (2 * 2 ^ 127). split; [nia|]. rewrite lgz_mul, lgz_pow2, minus_IZR by lia. lra.
Qed.

(** The logarithm the code reads: [2 ^ 14] steps to the octave. *)
Definition price_log (x : Z) : Z :=
  let msb := Z.log2 x in
  let r0 := if 128 <=? msb then x / 2 ^ (msb - 127) else x * 2 ^ (127 - msb) in
  log_bits LOG_BITS 63 r0 (Z.shiftl (msb - 128) 64).

Lemma price_log_spec x : 0 < x -> exists N, price_log x = N * 2 ^ 50 /\
  (IZR N <= 16384 * (lgz x - 128) < IZR N + 1 + 32768 * EPS)%R.
Proof.
  intros Hx. destruct (mantissa x Hx) as [Nr Hl]. unfold price_log. cbv zeta in *. set (m := Z.log2 x) in *.
  set (r0 := if 128 <=? m then _ else _) in *.
  destruct (log_bits_spec LOG_BITS 63 r0 (Z.shiftl (m - 128) 64) ltac:(unfold LOG_BITS; lia) Nr) as (B & EB & BB & LB).
  { exists (m - 128). by rewrite Z.shiftl_mul_pow2 by lia. }
  exists ((m - 128) * 2 ^ 14 + B). rewrite EB, Z.shiftl_mul_pow2 by lia. unfold LOG_BITS in *.
  change (Z.of_nat 14) with 14 in *. change (63 + 1 - 14) with 50. change (2 ^ 14) with 16384 in *. split; [change (2 ^ 64) with (16384 * 2 ^ 50); lia|].
  rewrite plus_IZR, mult_IZR, minus_IZR. pose proof eps_pos. lra.
Qed.

(** ** The ladder is linear *)

(** A tick's logarithm, from the last constant. *)
Definition LAM : R := ((128 - lgz (step_const 19)) / 524288)%R.

(** Small relative errors: of the constants, and of one rounded product. *)
Definition TAU : R := (/ IZR (2 ^ 79))%R.
Definition RND : R := (/ IZR (2 ^ 62))%R.

Lemma inv_pos n : 0 <= n -> (0 < / IZR (2 ^ n))%R.
Proof. intros Hn. apply Rinv_0_lt_compat, IZR_lt, Z.pow_pos_nonneg; lia. Qed.

(** [e] is [2 ^ -n]: what a relative error below it means in integers. *)
Lemma rel_bound n x d : 0 <= n -> 0 < x -> 2 * d * 2 ^ n <= x -> (2 * IZR d <= / IZR (2 ^ n) * IZR x)%R.
Proof.
  intros Hn Hx Hd. assert (0 < IZR (2 ^ n))%R as P by (apply IZR_lt, Z.pow_pos_nonneg; lia).
  apply IZR_le in Hd. rewrite !mult_IZR in Hd. apply (Rmult_le_reg_l (IZR (2 ^ n))); [done|].
  replace (IZR (2 ^ n) * (/ IZR (2 ^ n) * IZR x))%R with (IZR x) by (field; lra). lra.
Qed.

(** Each constant is the square of the one before, to a part in [2 ^ 79]. *)
Lemma const_square k : (k < 19)%nat -> 0 < step_const (S k) /\ 0 < step_const k /\
  step_const k * step_const k <= step_const (S k) * W + (Z.abs (step_const k * step_const k - step_const (S k) * W)) /\
  2 * Z.abs (step_const k * step_const k - step_const (S k) * W) * 2 ^ 79 <= Z.min (step_const k * step_const k) (step_const (S k) * W).
Proof.
  intros Hk. assert (forall j, (j < 19)%nat -> ((0 <? step_const (S j)) && (0 <? step_const j) &&
    (2 * Z.abs (step_const j * step_const j - step_const (S j) * W) * 2 ^ 79 <=? Z.min (step_const j * step_const j) (step_const (S j) * W))) = true) as C.
  { intros j Hj. do 19 (destruct j as [|j]; [by vm_compute|]). lia. }
  specialize (C k Hk). apply andb_true_iff in C as [[C1%Z.ltb_lt C2%Z.ltb_lt]%andb_true_iff C3%Z.leb_le]. split_and!; [done|done|lia|done].
Qed.

Lemma W_lgz : lgz W = 128%R.
Proof. rewrite W_pow. by apply lgz_pow2. Qed.

Lemma const_step k : (k < 19)%nat ->
  (- TAU <= 2 * (lgz (step_const k) - 128) - (lgz (step_const (S k)) - 128) <= TAU)%R.
Proof.
  intros Hk. destruct (const_square k Hk) as (P1 & P0 & _ & C). set (a := step_const k * step_const k) in *. set (b := step_const (S k) * W) in *.
  pose proof W_big. assert (0 < a /\ 0 < b) as [Pa Pb] by (unfold a, b; nia).
  assert (lgz a = 2 * lgz (step_const k))%R as Ea by (unfold a; rewrite lgz_mul by done; lra).
  assert (lgz b = lgz (step_const (S k)) + 128)%R as Eb by (unfold b; rewrite lgz_mul, W_lgz by lia; lra).
  pose proof (lgz_near b (Z.abs (a - b)) TAU Pb ltac:(lia) (rel_bound 79 b (Z.abs (a - b)) ltac:(lia) Pb ltac:(lia))) as G1.
  pose proof (lgz_near a (Z.abs (a - b)) TAU Pa ltac:(lia) (rel_bound 79 a (Z.abs (a - b)) ltac:(lia) Pa ltac:(lia))) as G2.
  pose proof (lgz_le a (b + Z.abs (a - b)) ltac:(lia)). pose proof (lgz_le b (a + Z.abs (a - b)) ltac:(lia)). lra.
Qed.

Lemma const_linear k : (k < 20)%nat ->
  (- TAU <= lgz (step_const k) - 128 + LAM * IZR (2 ^ Z.of_nat k) <= TAU)%R.
Proof.
  assert (0 < TAU)%R as PT by (by apply inv_pos).
  intros Hk. remember (19 - k)%nat as d eqn:Ed. revert k Hk Ed. induction d as [|d IH]; intros k Hk Ed.
  - assert (k = 19)%nat as -> by lia. change (2 ^ Z.of_nat 19) with 524288. unfold LAM. lra.
  - specialize (IH (S k) ltac:(lia) ltac:(lia)). pose proof (const_step k ltac:(lia)) as C.
    rewrite Nat2Z.inj_succ, Z.pow_succ_r, mult_IZR in IH by lia. lra.
Qed.

(** A rounded product keeps the logarithm to a part in [2 ^ 62]. *)
Lemma product_log a c : 0 < a -> 0 < c -> 2 ^ 63 <= a * c / W -> (lgz a + lgz c - 128 - RND <= lgz (a * c / W) <= lgz a + lgz c - 128)%R.
Proof.
  intros Ha Hc Hq. pose proof W_big. pose proof (div_bound (a * c) W ltac:(lia)) as B. set (q := a * c / W) in *.
  assert (0 < q) as Pq by lia. pose proof (lgz_le (q * W) (a * c) ltac:(nia)) as G1. pose proof (lgz_le (a * c) ((q + 1) * W) ltac:(nia)) as G2.
  rewrite (lgz_mul q), (lgz_mul a), W_lgz in G1 by lia. rewrite (lgz_mul (q + 1)), (lgz_mul a), W_lgz in G2 by lia.
  pose proof (lgz_near q 1 RND Pq ltac:(lia) (rel_bound 62 q 1 ltac:(lia) Pq ltac:(lia))). lra.
Qed.

Lemma lad_decreasing k n : (k < 20)%nat -> lad (S k) n <= lad k n.
Proof.
  intros Hk. pose proof W_big. pose proof (lad_bound k n ltac:(lia)). pose proof (step_const_bound k Hk). cbn [lad].
  destruct (Z.testbit n (Z.of_nat k)); [|lia]. apply Z.div_le_upper_bound; nia.
Qed.

Lemma lad_above k n : (k <= 20)%nat -> lad 20 n <= lad k n.
Proof.
  intros Hk. remember (20 - k)%nat as d eqn:Ed. revert k Hk Ed. induction d as [|d IH]; intros k Hk Ed.
  - assert (k = 20)%nat as -> by lia. lia.
  - specialize (IH (S k) ltac:(lia) ltac:(lia)). pose proof (lad_decreasing k n ltac:(lia)). lia.
Qed.

(** The low [k] bits of a number. *)
Lemma low_bits_S n k : 0 <= n -> n mod 2 ^ Z.of_nat (S k) = n mod 2 ^ Z.of_nat k + (if Z.testbit n (Z.of_nat k) then 2 ^ Z.of_nat k else 0).
Proof.
  intros Hn. assert (0 < 2 ^ Z.of_nat k) by (apply Z.pow_pos_nonneg; lia).
  rewrite Nat2Z.inj_succ, Z.pow_succ_r, Z.mul_comm, Z.rem_mul_r by lia. rewrite <- Z.testbit_spec' by lia.
  destruct (Z.testbit n (Z.of_nat k)); cbn [Z.b2z]; lia.
Qed.

Lemma lad_linear k n : (k <= 20)%nat -> 0 <= n <= MAX_TICK ->
  (- (INR k * (TAU + RND)) <= lgz (lad k n) - 128 + LAM * IZR (n mod 2 ^ Z.of_nat k) <= INR k * (TAU + RND))%R.
Proof.
  intros Hk Hn. pose proof (lad_floor n Hn) as F. assert (0 < TAU)%R as PT by (by apply inv_pos). assert (0 < RND)%R as PR by (by apply inv_pos).
  induction k as [|k IH].
  { cbn [lad INR]. change (2 ^ Z.of_nat 0) with 1. rewrite Z.mod_1_r, W_lgz. lra. }
  specialize (IH ltac:(lia)). pose proof (lad_above (S k) n Hk) as A. pose proof (lad_above k n ltac:(lia)) as A'.
  generalize dependent (lad 20 n). intros l F A A'.
  rewrite low_bits_S, S_INR by lia. cbn [lad] in A |- *. destruct (Z.testbit n (Z.of_nat k)).
  - pose proof (const_linear k ltac:(lia)) as C. pose proof (step_const_bound k ltac:(lia)).
    pose proof (product_log (lad k n) (step_const k) ltac:(lia) ltac:(lia) ltac:(lia)) as P. rewrite plus_IZR. lra.
  - rewrite Z.add_0_r. lra.
Qed.


(** ** Prices on the tick axis *)

(** What the ladder may be off by. *)
Definition OFF : R := (/ IZR (2 ^ 56))%R.

Lemma off_covers : (20 * (TAU + RND) + RND <= OFF)%R.
Proof. unfold OFF, TAU, RND. lra. Qed.

Lemma ratio_linear t : in_ticks t -> (- OFF <= lgz (ratio_x128 t) - 128 - LAM * IZR t <= OFF)%R.
Proof.
  unfold in_ticks, MIN_TICK, MAX_TICK. intros Ht. pose proof off_covers as HO. assert (0 < RND)%R as PR by (by apply inv_pos).
  pose proof (lad_linear 20 (Z.abs t) ltac:(lia) ltac:(unfold MAX_TICK; lia)) as L.
  pose proof (lad_floor (Z.abs t) ltac:(unfold MAX_TICK; lia)) as F. change (2 ^ Z.of_nat 20) with 1048576 in L.
  rewrite Z.mod_small in L by lia. replace (INR 20) with 20%R in L by (rewrite INR_IZR_INZ; done).
  unfold ratio_x128. generalize dependent (lad 20 (Z.abs t)). intros l L F. pose proof W_big. destruct (Z.ltb_spec 0 t) as [Hp|Hp].
  2:{ rewrite Z.abs_neq, opp_IZR in L by lia. lra. }
  rewrite Z.abs_eq in L by lia. pose proof (div_bound (WW - 1) l ltac:(lia)) as B.
  assert (2 ^ 63 <= (WW - 1) / l) as Q by (apply div_ge; [lia|]; unfold WW; rewrite W_pow; change (2 ^ 128) with (2 ^ 63 * 2 ^ 65); rewrite W_pow in F; change (2 ^ 128) with (2 ^ 63 * 2 ^ 65) in F; nia).
  set (x := (WW - 1) / l) in *. pose proof (lgz_le (x * l) WW ltac:(lia)) as G1. pose proof (lgz_le WW ((x + 1) * l) ltac:(lia)) as G2.
  rewrite lgz_mul in G1 by lia. rewrite (lgz_mul (x + 1)) in G2 by lia. unfold WW in G1, G2. rewrite lgz_mul, W_lgz in G1, G2 by lia.
  pose proof (lgz_near x 1 RND ltac:(lia) ltac:(lia) (rel_bound 62 x 1 ltac:(lia) ltac:(lia) ltac:(lia))). lra.
Qed.

(** A price from a tick's on, and one below the next tick's. *)
Lemma price_above t s : in_ticks t -> val (sqrt_ratio_at_tick t) <= s -> (LAM * IZR t - OFF <= lgz (s * 2 ^ 32) - 128)%R.
Proof.
  intros Ht Hs. destruct (sqrt_ratio_val t Ht) as [_ V]. rewrite V in Hs. pose proof (cdiv_bound (ratio_x128 t) (2 ^ 32) ltac:(lia)) as B.
  pose proof (ratio_x128_bound t Ht). pose proof (lgz_le (ratio_x128 t) (s * 2 ^ 32) ltac:(lia)). pose proof (ratio_linear t Ht). lra.
Qed.

Lemma ratio_x128_floor t : in_ticks t -> 2 ^ 64 <= ratio_x128 t.
Proof.
  unfold in_ticks, MIN_TICK, MAX_TICK. intros Ht. unfold ratio_x128.
  pose proof (lad_floor (Z.abs t) ltac:(unfold MAX_TICK; lia)) as F. pose proof W_big. destruct (0 <? t); [|lia].
  apply div_ge; [lia|]. unfold WW. rewrite W_pow in *. change (2 ^ 128) with (2 ^ 64 * 2 ^ 64) in *. nia.
Qed.

Lemma price_below t s : in_ticks t -> 0 < s < val (sqrt_ratio_at_tick t) -> (lgz (s * 2 ^ 32) - 128 <= LAM * IZR t + OFF + / IZR (2 ^ 31))%R.
Proof.
  intros Ht Hs. destruct (sqrt_ratio_val t Ht) as [_ V]. rewrite V in Hs. pose proof (cdiv_bound (ratio_x128 t) (2 ^ 32) ltac:(lia)) as B.
  pose proof (ratio_x128_floor t Ht) as F. pose proof (lgz_le (s * 2 ^ 32) (ratio_x128 t + 2 ^ 32) ltac:(lia)) as G1.
  pose proof (lgz_near (ratio_x128 t) (2 ^ 32) _ ltac:(lia) ltac:(lia) (rel_bound 31 (ratio_x128 t) (2 ^ 32) ltac:(lia) ltac:(lia) ltac:(lia))).
  pose proof (ratio_linear t Ht). lra.
Qed.

(** The code's conversion constant is [2 ^ 64] ticks to the octave, to a part
    in [2 ^ 44]: forty squarings of the last constant. *)
Lemma lam_bounds : (IZR 41580774426690 <= LAM * IZR (2 ^ 59) <= IZR 41580774426692)%R.
Proof.
  assert (normal (step_const 19 * 2 ^ 37)) as N by (split; [by apply Z.leb_le; vm_compute|by apply Z.ltb_lt; vm_compute]).
  destruct (log_bits_spec 40 63 (step_const 19 * 2 ^ 37) 0 ltac:(lia) N) as (B & EB & _ & LB); [by exists 0|].
  assert (log_bits 40 63 (step_const 19 * 2 ^ 37) 0 = 200667428796 * 2 ^ 24) as EC by (by vm_compute).
  rewrite EC in EB. change (63 + 1 - Z.of_nat 40) with 24 in EB. assert (B = 200667428796) as -> by lia. change (Z.of_nat 40) with 40 in LB.
  assert (0 < step_const 19) as P by (by vm_compute). rewrite lgz_mul, lgz_pow2 in LB by lia.
  unfold LAM, EPS in *. set (c := lgz (step_const 19)) in *. lra.
Qed.

Lemma conversion : (IZR (2 ^ 64 - 2 ^ 20) <= IZR LOG_SQRT_10001 * LAM <= IZR (2 ^ 64 + 2 ^ 20))%R.
Proof.
  pose proof lam_bounds as L. unfold LOG_SQRT_10001. change (2 ^ 64 - 2 ^ 20) with 18446744073708503040. change (2 ^ 64 + 2 ^ 20) with 18446744073710600192.
  change (2 ^ 59) with 576460752303423488 in L. lra.
Qed.

Lemma off_linear t : in_ticks t -> (- (IZR (2 ^ 40)) <= (IZR LOG_SQRT_10001 * LAM - IZR (2 ^ 64)) * IZR t <= IZR (2 ^ 40))%R.
Proof.
  unfold in_ticks, MIN_TICK, MAX_TICK. intros [H1%IZR_le H2%IZR_le]. pose proof conversion as C.
  change (2 ^ 64 - 2 ^ 20) with (2 ^ 64 + - 2 ^ 20) in C. rewrite !plus_IZR, opp_IZR in C.
  set (d := (IZR LOG_SQRT_10001 * LAM - IZR (2 ^ 64))%R) in *. assert (- IZR (2 ^ 20) <= d <= IZR (2 ^ 20))%R as D by (unfold d; lra).
  change (2 ^ 40) with (2 ^ 20 * 2 ^ 20). rewrite mult_IZR. set (x := IZR t) in *.
  assert (- IZR (2 ^ 20) <= x <= IZR (2 ^ 20))%R by (change (2 ^ 20) with 1048576; lra). nra.
Qed.

(** The scaled logarithm brackets the tick within the code's two errors. *)
Lemma log_bracket t s N : MIN_TICK <= t < MAX_TICK -> val (sqrt_ratio_at_tick t) <= s < val (sqrt_ratio_at_tick (t + 1)) ->
  (IZR N <= 16384 * (lgz (s * 2 ^ 32) - 128) < IZR N + 1 + 32768 * EPS)%R ->
  t * W <= N * 2 ^ 50 * LOG_SQRT_10001 + TICK_HI_ERR /\ N * 2 ^ 50 * LOG_SQRT_10001 - TICK_LOW_ERR < (t + 1) * W.
Proof.
  intros Ht Hs HN. assert (in_ticks t /\ in_ticks (t + 1)) as [I1 I2] by (unfold in_ticks; lia).
  assert (0 < s) as Ps by (pose proof (sqrt_ratio_range t I1); pose proof min_sqrt_val as (_ & V & _); unfold MIN_SQRT_LO in V; lia).
  pose proof (price_above t s I1 ltac:(lia)) as A. pose proof (price_below (t + 1) s I2 ltac:(lia)) as B.
  pose proof (off_linear t I1) as D1. pose proof (off_linear (t + 1) I2) as D2. pose proof conversion as C.
  assert (0 < IZR LOG_SQRT_10001)%R as PK by (apply IZR_lt; done).
  set (g := (lgz (s * 2 ^ 32) - 128)%R) in *. set (K := LOG_SQRT_10001) in *.
  split.
  - apply le_IZR. rewrite plus_IZR, !mult_IZR.
    assert (IZR K * (16384 * (LAM * IZR t - OFF)) <= IZR K * (IZR N + 1 + 32768 * EPS))%R as M by (apply Rmult_le_compat_l; lra).
    unfold OFF, EPS, K, TICK_HI_ERR, W, LOG_SQRT_10001 in *. lra.
  - apply lt_IZR. rewrite minus_IZR, !mult_IZR.
    assert (IZR K * IZR N <= IZR K * (16384 * (LAM * IZR (t + 1) + OFF + / IZR (2 ^ 31))))%R as M by (apply Rmult_le_compat_l; lra).
    unfold OFF, EPS, K, TICK_LOW_ERR, W, LOG_SQRT_10001 in *. lra.
Qed.

(** ** The code's arithmetic *)

Lemma wrapping_neg_val a : wf a -> U256.wrapping_neg a = of_z ((- val a) mod WW).
Proof. intros Ha. unfold U256.wrapping_neg. rewrite wrapping_sub_val by (done || by unfold wf, u128; cbn). done. Qed.

(** The high word of a wrapped sum, read as a signed 32-bit number. *)
Lemma signed_floor z : - (2147483648 * W) <= z < 2147483648 * W -> as_i32 (as_i128 (U256.hi (of_z (z mod WW)))) = z / W.
Proof.
  intros Hz. pose proof W_big. unfold of_z. cbn [U256.hi]. pose proof (div_bound z W ltac:(lia)) as B. set (q := z / W) in *.
  assert (- 2147483648 <= q < 2147483648) as Hq by nia.
  assert (z mod WW / W = q mod W) as ->.
  { unfold WW. rewrite Z.rem_mul_r, Z.mul_comm, Z.div_add, Z.div_small by (try apply Z.mod_pos_bound; lia). done. }
  unfold as_i128, wrap_i128, as_i32. rewrite W_pow in *.
  change (2 ^ 128) with 340282366920938463463374607431768211456. rewrite Zplus_mod_idemp_l, (Z.mod_small (q + _)) by lia.
  rewrite Z.mod_small; lia.
Qed.

Lemma signed_scale L : Z.abs L < W -> let mag := U256.mul_u128 (Z.abs L) LOG_SQRT_10001 in
  wf (if L <? 0 then U256.wrapping_neg mag else mag) /\
  val (if L <? 0 then U256.wrapping_neg mag else mag) = (L * LOG_SQRT_10001) mod WW.
Proof.
  intros HL mag. assert (0 <= LOG_SQRT_10001 < W) by done. assert (u128 (Z.abs L) /\ u128 LOG_SQRT_10001) as [U1 U2] by (unfold u128; lia).
  unfold mag. rewrite mul_u128_val by done. assert (0 <= Z.abs L * LOG_SQRT_10001 < WW) as Hm
    by (unfold u128, WW in *; split; [apply Z.mul_nonneg_nonneg|apply Z.mul_lt_mono_nonneg]; lia).
  assert (0 < WW) by done.
  destruct (Z.ltb_spec L 0).
  - rewrite wrapping_neg_val, val_of_z by (try apply wf_of_z; done). split; [apply wf_of_z; by apply Z.mod_pos_bound|].
    rewrite val_of_z by (by apply Z.mod_pos_bound). f_equal. lia.
  - split; [by apply wf_of_z|]. rewrite val_of_z by done. rewrite Z.mod_small by lia. lia.
Qed.

Lemma log2_shifted s : 0 < s < 2 ^ 160 -> 0 <= Z.log2 (s * 2 ^ 32) < 192.
Proof. intros Hs. split; [apply Z.log2_nonneg|]. apply Z.log2_lt_pow2; [lia|]. change (2 ^ 192) with (2 ^ 160 * 2 ^ 32). lia. Qed.

(** The logarithm read through the words. *)
Lemma code_log s : wf s -> 0 < val s < 2 ^ 160 ->
  let ratio := U256.shl s 32 in let msb := U256.msb ratio in
  let r0 := if 128 <=? msb then U256.shr ratio (msb - 127) else U256.shl ratio (127 - msb) in
  log_bits LOG_BITS 63 (U256.lo r0) (Z.shiftl (msb - 128) 64) = price_log (val s * 2 ^ 32).
Proof.
  intros Ws Hs. cbv zeta. assert (2 ^ 192 < WW) as HW by (by vm_compute). set (x := val s * 2 ^ 32).
  assert (0 < x < WW) as Hx by (unfold x; change (2 ^ 192) with (2 ^ 160 * 2 ^ 32) in HW; lia).
  rewrite shl_val by (done || lia). fold x. rewrite Z.mod_small by lia. assert (wf (of_z x)) as Wx by (apply wf_of_z; lia).
  pose proof (log2_shifted (val s) Hs) as Hm. fold x in Hm.
  unfold U256.msb. rewrite leading_zeros_val, val_of_z by (try rewrite val_of_z; done || lia).
  replace (255 - (255 - Z.log2 x)) with (Z.log2 x) by lia. unfold price_log. cbv zeta.
  destruct (mantissa x ltac:(lia)) as [[N1 N2] _]. cbv zeta in N1, N2. set (m := Z.log2 x) in *. f_equal.
  destruct (Z.leb_spec 128 m).
  - rewrite shr_val, val_of_z by (done || lia). unfold of_z. cbn [U256.lo]. rewrite W_pow. apply Z.mod_small. lia.
  - rewrite shl_val, val_of_z by (done || lia). rewrite Z.mod_small by (unfold WW; rewrite W_pow; nia).
    unfold of_z. cbn [U256.lo]. rewrite W_pow. apply Z.mod_small. lia.
Qed.

Lemma log_magnitude s N : 0 < s < 2 ^ 160 -> (IZR N <= 16384 * (lgz (s * 2 ^ 32) - 128) < IZR N + 1 + 32768 * EPS)%R ->
  - 2200000 <= N <= 2200000.
Proof.
  intros Hs HN. pose proof (lgz_le (2 ^ 32) (s * 2 ^ 32) ltac:(lia)) as G1. rewrite lgz_pow2 in G1 by lia.
  pose proof (lgz_le (s * 2 ^ 32) (2 ^ 160 * 2 ^ 32) ltac:(lia)) as G2. rewrite (lgz_mul (2 ^ 160)), !lgz_pow2 in G2 by lia.
  split; apply le_IZR; unfold EPS in HN; lra.
Qed.

(** The tick of a price between two ladder steps is the lower one. *)
Lemma tick_between t s : wf s -> MIN_TICK <= t < MAX_TICK ->
  val (sqrt_ratio_at_tick t) <= val s < val (sqrt_ratio_at_tick (t + 1)) -> tick_at_sqrt_ratio s = t.
Proof.
  intros Ws Ht Hs. pose proof min_sqrt_val as (Wmin & Vmin & _). pose proof max_sqrt_val as (Wmax & Bmax & _).
  assert (in_ticks t /\ in_ticks (t + 1)) as [I1 I2] by (unfold in_ticks; lia).
  pose proof (sqrt_ratio_range t I1) as R1. pose proof (sqrt_ratio_range (t + 1) I2) as R2.
  assert (0 < val s < 2 ^ 160) as Hx by (unfold MIN_SQRT_LO in Vmin; lia).
  unfold tick_at_sqrt_ratio. rewrite lt_val, le_val by done.
  destruct (Z.ltb_spec (val s) (val MIN_SQRT)); [lia|]. destruct (Z.leb_spec (val MAX_SQRT) (val s)); [lia|].
  cbv zeta. pose proof (code_log s Ws Hx) as EL. cbv zeta in EL. rewrite EL. clear EL.
  destruct (price_log_spec (val s * 2 ^ 32) ltac:(lia)) as (N & -> & HN).
  pose proof (log_magnitude (val s) N Hx HN) as BN. destruct (log_bracket t (val s) N Ht Hs HN) as [B1 B2].
  assert (W = 340282366920938463463374607431768211456) as EW by done.
  destruct (signed_scale (N * 2 ^ 50) ltac:(lia)) as [WL VL]. cbv zeta in WL, VL. set (ls := if N * 2 ^ 50 <? 0 then _ else _) in *.
  assert (u128 TICK_LOW_ERR /\ u128 TICK_HI_ERR) as [UL UH] by (unfold u128, TICK_LOW_ERR, TICK_HI_ERR; lia).
  rewrite wrapping_sub_val, wrapping_add_val, !from_u128_of_z, !val_of_z, VL
    by (try done; try apply wf_of_z; unfold u128, WW in *; nia).
  rewrite Zminus_mod_idemp_l, Zplus_mod_idemp_l. set (LS := N * 2 ^ 50 * LOG_SQRT_10001) in *.
  assert (Z.abs LS < 2000000000 * W) as BLS by (unfold LS, LOG_SQRT_10001; lia).
  rewrite !signed_floor by (unfold TICK_LOW_ERR, TICK_HI_ERR; lia).
  pose proof (div_bound (LS - TICK_LOW_ERR) W ltac:(lia)) as D1. pose proof (div_bound (LS + TICK_HI_ERR) W ltac:(lia)) as D2.
  set (low := (LS - TICK_LOW_ERR) / W) in *. set (hi := (LS + TICK_HI_ERR) / W) in *. unfold TICK_LOW_ERR, TICK_HI_ERR in *.
  assert (low <= t <= hi /\ hi <= low + 1) as [Bt Bh] by lia. destruct (Z.eqb_spec low hi); [lia|].
  assert (hi = t \/ (low = t /\ hi = t + 1)) as [-> | [El ->]] by lia.
  - rewrite le_val by (done || apply sqrt_ratio_val, I1). by destruct (Z.leb_spec (val (sqrt_ratio_at_tick t)) (val s)); [|lia].
  - rewrite le_val by (done || apply sqrt_ratio_val, I2). by destruct (Z.leb_spec (val (sqrt_ratio_at_tick (t + 1))) (val s)); [lia|].
Qed.

(** Every price below the last ratio lies between two steps. *)
Lemma tick_exists s : val MIN_SQRT <= s < val MAX_SQRT ->
  exists t, MIN_TICK <= t < MAX_TICK /\ val (sqrt_ratio_at_tick t) <= s < val (sqrt_ratio_at_tick (t + 1)).
Proof.
  intros Hs. pose proof min_sqrt_val as (_ & _ & Em). pose proof max_sqrt_val as (_ & _ & EM).
  assert (forall d, 0 <= d -> MIN_TICK + d <= MAX_TICK -> s < val (sqrt_ratio_at_tick (MIN_TICK + d)) ->
    exists t, MIN_TICK <= t < MAX_TICK /\ val (sqrt_ratio_at_tick t) <= s < val (sqrt_ratio_at_tick (t + 1))) as H.
  { apply (natlike_ind (fun d => MIN_TICK + d <= MAX_TICK -> s < val (sqrt_ratio_at_tick (MIN_TICK + d)) -> _)).
    - intros _ H0. rewrite Z.add_0_r, Em in H0. lia.
    - intros d Hd IH Hm H1. destruct (Z.lt_ge_cases s (val (sqrt_ratio_at_tick (MIN_TICK + d)))) as [|Hge]; [apply IH; lia|].
      exists (MIN_TICK + d). replace (MIN_TICK + d + 1) with (MIN_TICK + Z.succ d) by lia. lia. }
  apply (H (MAX_TICK - MIN_TICK)); [done|lia|]. replace (MIN_TICK + (MAX_TICK - MIN_TICK)) with MAX_TICK by lia. rewrite EM. lia.
Qed.

(** The tick is on the price's side of every ladder step. *)
Lemma tick_galois s u : wf s -> val MIN_SQRT <= val s < val MAX_SQRT -> in_ticks u ->
  val (sqrt_ratio_at_tick u) <= val s <-> u <= tick_at_sqrt_ratio s.
Proof.
  intros Ws Hs Hu. destruct (tick_exists (val s) Hs) as (t & Ht & Hb). rewrite (tick_between t s) by done. unfold in_ticks in Hu. split.
  - intros H. destruct (Z.le_gt_cases u t) as [|Hgt]; [done|]. pose proof (sqrt_ratio_mono (t + 1) u ltac:(lia) ltac:(lia) ltac:(lia)). lia.
  - intros H. pose proof (sqrt_ratio_mono u t ltac:(lia) ltac:(lia) ltac:(lia)). lia.
Qed.

Lemma tick_range s : wf s -> MIN_TICK <= tick_at_sqrt_ratio s < MAX_TICK.
Proof.
  intros Ws. pose proof min_sqrt_val as (Wmin & _ & _). pose proof max_sqrt_val as (Wmax & _ & _).
  destruct (Z.lt_ge_cases (val s) (val MIN_SQRT)) as [Hl|Hl].
  { unfold tick_at_sqrt_ratio. rewrite lt_val by done. destruct (Z.ltb_spec (val s) (val MIN_SQRT)); [done|lia]. }
  destruct (Z.lt_ge_cases (val s) (val MAX_SQRT)) as [Hg|Hg].
  - destruct (tick_exists (val s) ltac:(lia)) as (t & Ht & Hb). by rewrite (tick_between t s).
  - unfold tick_at_sqrt_ratio. rewrite lt_val, le_val by done. destruct (Z.ltb_spec (val s) (val MIN_SQRT)); [lia|].
    by destruct (Z.leb_spec (val MAX_SQRT) (val s)); [|lia].
Qed.
