(* ===== verification/AmmStep.v ===== *)
(** * Amounts and one swap step ([crates/core-amm/src/sqrt_price_math.rs])

    [None] is the contract's revert. Amounts in round up, amounts out round
    down, and the next price moves no further than the amount pays for. *)

From S2P Require Import Prelude AmmU256.

#[local] Open Scope machine_scope.

Definition Q96 : U256 := U256.pow2 96.
Definition PIPS : Z := 1000000.

#[local] Notation "'let?' x := e 'in' k" := (match e with Some x => k | None => None end)
  (at level 200, x name, e at level 100, k at level 200).

Definition amount0_delta (sa sb : U256) (liquidity : Z) (round_up : bool) : option U256 :=
  let '(lo, hi) := if U256.le sa sb then (sa, sb) else (sb, sa) in
  if U256.is_zero lo then None
  else
    let num1 := U256.shl (U256.from_u128 liquidity) 96 in
    let? num2 := U256.checked_sub hi lo in
    if round_up then
      let? v := mul_div_rounding_up num1 num2 hi in
      div_rounding_up v lo
    else
      let? v := mul_div num1 num2 hi in
      match U256.checked_div_rem v lo with
      | Some (q, _) => Some q
      | None => None
      end.

Definition amount1_delta (sa sb : U256) (liquidity : Z) (round_up : bool) : option U256 :=
  let '(lo, hi) := if U256.le sa sb then (sa, sb) else (sb, sa) in
  let? d := U256.checked_sub hi lo in
  if round_up then mul_div_rounding_up (U256.from_u128 liquidity) d Q96
  else mul_div (U256.from_u128 liquidity) d Q96.

Definition next_from_amount0_up (sp : U256) (liquidity : Z) (amount : U256) (add : bool) : option U256 :=
  if U256.is_zero amount then Some sp
  else
    let num1 := U256.shl (U256.from_u128 liquidity) 96 in
    let product := U256.checked_mul amount sp in
    if add then
      let slow :=
        match U256.checked_div_rem num1 sp with
        | None => None
        | Some (q, _) =>
            let? den := U256.checked_add q amount in
            div_rounding_up num1 den
        end in
      match product with
      | Some p =>
          let '(den, overflow) := U256.overflowing_add num1 p in
          if negb overflow then mul_div_rounding_up num1 sp den else slow
      | None => slow
      end
    else
      let? p := product in
      if U256.le num1 p then None
      else
        let? den := U256.checked_sub num1 p in
        let? v := mul_div_rounding_up num1 sp den in
        if u32_max <? U256.hi v then None else Some v.

Definition next_from_amount1_down (sp : U256) (liquidity : Z) (amount : U256) (add : bool) : option U256 :=
  let l := U256.from_u128 liquidity in
  if add then
    let? q := mul_div amount Q96 l in
    let? v := U256.checked_add sp q in
    if u32_max <? U256.hi v then None else Some v
  else
    let? q := mul_div_rounding_up amount Q96 l in
    if U256.le sp q then None else U256.checked_sub sp q.

Definition next_from_input (sp : U256) (liquidity : Z) (amount_in : U256) (zero_for_one : bool) : option U256 :=
  if U256.is_zero sp || (liquidity =? 0) then None
  else if zero_for_one then next_from_amount0_up sp liquidity amount_in true
  else next_from_amount1_down sp liquidity amount_in true.

Definition next_from_output (sp : U256) (liquidity : Z) (amount_out : U256) (zero_for_one : bool) : option U256 :=
  if U256.is_zero sp || (liquidity =? 0) then None
  else if zero_for_one then next_from_amount1_down sp liquidity amount_out false
  else next_from_amount0_up sp liquidity amount_out false.

Record Step := mkStep { sqrt_next : U256; amount_in : U256; amount_out : U256; fee : U256 }.

(** The price a step reaches, with the amount to the target it compared. *)
Definition step_price (current target : U256) (liquidity : Z) (remaining : U256) (exact_in zero_for_one : bool) (fee_c : U256)
  : option (U256 * U256) :=
  if exact_in then
    let? rem_less_fee := mul_div remaining fee_c (U256.from_u128 PIPS) in
    let? amount := if zero_for_one then amount0_delta target current liquidity true
                   else amount1_delta current target liquidity true in
    if U256.le amount rem_less_fee then Some (target, amount)
    else let? next := next_from_input current liquidity rem_less_fee zero_for_one in Some (next, amount)
  else
    let? amount := if zero_for_one then amount1_delta target current liquidity false
                   else amount0_delta current target liquidity false in
    if U256.le amount remaining then Some (target, amount)
    else let? next := next_from_output current liquidity remaining zero_for_one in Some (next, amount).

Definition compute_swap_step (current target : U256) (liquidity : Z) (remaining : U256) (exact_in : bool) (fee_pips : Z) : option Step :=
  if PIPS <=? fee_pips then None
  else
    let zero_for_one := U256.le target current in
    let fee_c := U256.from_u128 (PIPS - fee_pips) in
    match step_price current target liquidity remaining exact_in zero_for_one fee_c with
    | None => None
    | Some (next, amount) =>
        let max := U256.same_as target next in
        let? a_in :=
          if negb max || negb exact_in then
            if zero_for_one then amount0_delta next current liquidity true else amount1_delta current next liquidity true
          else Some amount in
        let? a_out :=
          if negb max || exact_in then
            if zero_for_one then amount1_delta next current liquidity false else amount0_delta current next liquidity false
          else Some amount in
        let a_out := if negb exact_in && U256.lt remaining a_out then remaining else a_out in
        let? fee :=
          if exact_in && negb max then U256.checked_sub remaining a_in
          else mul_div_rounding_up a_in (U256.from_u128 fee_pips) fee_c in
        Some (mkStep next a_in a_out fee)
    end.
