(* ===== verification/AmmStepProofs.v ===== *)
(** * A swap step pays for the price it moves

    The four amounts are integer quotients; each next-price solve is the
    furthest price its amount affords, so the step that uses them never
    reverts inside the domain. *)

From S2P Require Import Prelude AmmU256 AmmLimbs AmmDivision AmmArith AmmStep.

(** ** Amounts on integers *)

Definition X96 : Z := 2 ^ 96.
Definition X160 : Z := 2 ^ 160.

(** The four amounts between two prices [lo <= hi] at liquidity [l]. *)
Definition a0_up (lo hi l : Z) : Z := cdiv (cdiv (l * X96 * (hi - lo)) hi) lo.
Definition a0_down (lo hi l : Z) : Z := l * X96 * (hi - lo) / hi / lo.
Definition a1_up (lo hi l : Z) : Z := cdiv (l * (hi - lo)) X96.
Definition a1_down (lo hi l : Z) : Z := l * (hi - lo) / X96.

Lemma X96_pos : 0 < X96.
Proof. by vm_compute. Qed.
Lemma X160_pos : 0 < X160.
Proof. by vm_compute. Qed.
Lemma X_bounds : W * X160 = WW * 2 ^ 32 /\ W * X96 * 2 ^ 32 = WW /\ X160 = X96 * 2 ^ 64 /\ W = X96 * 2 ^ 32.
Proof. split_and!; by vm_compute. Qed.
Lemma W_64 : W * 2 ^ 64 < WW.
Proof. by vm_compute. Qed.
Lemma X96_def : 2 ^ 96 = X96.
Proof. done. Qed.
#[local] Opaque X96 X160.

(** When an amount is affordable, as a product. *)
Lemma a0_up_le lo hi l a : 0 < lo -> 0 < hi -> a0_up lo hi l <= a <-> l * X96 * (hi - lo) <= a * lo * hi.
Proof. intros H1 H2. unfold a0_up. by rewrite !cdiv_le by done. Qed.
Lemma a0_down_ge lo hi l a : 0 < lo -> 0 < hi -> a <= a0_down lo hi l <-> a * lo * hi <= l * X96 * (hi - lo).
Proof. intros H1 H2. unfold a0_down. by rewrite !div_ge by done. Qed.
Lemma a1_up_le lo hi l a : a1_up lo hi l <= a <-> l * (hi - lo) <= a * X96.
Proof. unfold a1_up. apply cdiv_le, X96_pos. Qed.
Lemma a1_down_ge lo hi l a : a <= a1_down lo hi l <-> a * X96 <= l * (hi - lo).
Proof. unfold a1_down. apply div_ge, X96_pos. Qed.

(** A price: a positive [uint160]. *)
Definition price (p : U256) : Prop := wf p /\ 0 < val p < X160.

Lemma Q96_val : wf Q96 /\ val Q96 = X96.
Proof. split; by vm_compute. Qed.

Lemma num1_val l : u128 l -> U256.shl (U256.from_u128 l) 96 = of_z (l * X96) /\ 0 <= l * X96 < WW /\ wf (of_z (l * X96)).
Proof.
  intros Hl. pose proof X96_pos. destruct X_bounds as (_ & X & _). change (2 ^ 32) with 4294967296 in X. unfold u128 in Hl.
  assert (0 <= l * X96 < WW) as B by nia. split_and!; [|lia|lia|by apply wf_of_z].
  rewrite shl_val by (lia || by apply wf_u128). rewrite val_u128, X96_def, Z.mod_small by done. done.
Qed.

Lemma price_bound p : price p -> 0 < val p /\ val p < X160 /\ wf p.
Proof. intros [? [? ?]]. done. Qed.

Lemma order_pair sa sb : wf sa -> wf sb ->
  (if U256.le sa sb then (sa, sb) else (sb, sa)) = (if val sa <=? val sb then (sa, sb) else (sb, sa)).
Proof. intros Ha Hb. by rewrite le_val. Qed.

Lemma amount0_delta_val sa sb l (up : bool) : price sa -> price sb -> u128 l ->
  let lo := Z.min (val sa) (val sb) in let hi := Z.max (val sa) (val sb) in
  let a := if up then a0_up lo hi l else a0_down lo hi l in
  amount0_delta sa sb l up = Some (of_z a) /\ 0 <= a <= l * X96.
Proof.
  intros [Wa Pa] [Wb Pb] Hl. destruct (num1_val l Hl) as (En & Bn & Wn). unfold amount0_delta. rewrite En, order_pair by done.
  assert (forall x y : U256, wf x -> wf y -> 0 < val x <= val y ->
    let a := if up then a0_up (val x) (val y) l else a0_down (val x) (val y) l in
    (if U256.is_zero x then None
     else match U256.checked_sub y x with
          | Some num2 =>
              if up then match mul_div_rounding_up (of_z (l * X96)) num2 y with Some v => div_rounding_up v x | None => None end
              else match mul_div (of_z (l * X96)) num2 y with
                   | Some v => match U256.checked_div_rem v x with Some (q, _) => Some q | None => None end
                   | None => None end
          | None => None end) = Some (of_z a) /\ 0 <= a <= l * X96) as G.
  { intros x y Wx Wy Hxy a. pose proof (val_bound y Wy) as By. rewrite is_zero_val by done. destruct (Z.eqb_spec (val x) 0); [lia|].
    rewrite checked_sub_val by done. destruct (Z.ltb_spec (val y) (val x)); [lia|].
    assert (wf (of_z (val y - val x))) as Wd by (apply wf_of_z; lia).
    assert (0 <= l * X96 * (val y - val x) <= l * X96 * val y) as Bp by nia. unfold a. destruct up.
    - rewrite mul_div_rounding_up_val, !val_of_z by done. destruct (Z.eqb_spec (val y) 0); [lia|].
      assert (cdiv (l * X96 * (val y - val x)) (val y) <= l * X96) as B1 by (apply cdiv_le; lia).
      pose proof (cdiv_nonneg (l * X96 * (val y - val x)) (val y) ltac:(lia) ltac:(lia)) as B0.
      rewrite checked_fits, div_rounding_up_val, val_of_z by (done || (apply wf_of_z; lia) || lia).
      destruct (Z.eqb_spec (val x) 0); [lia|]. unfold a0_up. split; [done|].
      split; [apply cdiv_nonneg; lia|apply cdiv_le; nia].
    - rewrite mul_div_val, !val_of_z by done. destruct (Z.eqb_spec (val y) 0); [lia|].
      assert (0 <= l * X96 * (val y - val x) / val y <= l * X96) as B1.
      { split; [apply Z.div_pos; lia|apply Z.div_le_upper_bound; lia]. }
      rewrite checked_fits, checked_div_rem_val, val_of_z by (done || (apply wf_of_z; lia) || lia).
      destruct (Z.eqb_spec (val x) 0); [lia|]. unfold a0_down. split; [done|].
      split; [apply Z.div_pos; lia|apply Z.div_le_upper_bound; nia]. }
  destruct (Z.leb_spec (val sa) (val sb)); [rewrite Z.min_l, Z.max_r by lia|rewrite Z.min_r, Z.max_l by lia]; apply G; done || lia.
Qed.

Lemma amount1_delta_val sa sb l (up : bool) : price sa -> price sb -> u128 l ->
  let lo := Z.min (val sa) (val sb) in let hi := Z.max (val sa) (val sb) in
  let a := if up then a1_up lo hi l else a1_down lo hi l in
  amount1_delta sa sb l up = Some (of_z a) /\ 0 <= a <= l * 2 ^ 64.
Proof.
  intros [Wa Pa] [Wb Pb] Hl. unfold amount1_delta. rewrite order_pair by done. destruct Q96_val as [Wq Vq]. pose proof X96_pos as XP.
  destruct X_bounds as (_ & XB & XE & _). change (2 ^ 32) with 4294967296 in XB.
  assert (forall x y : U256, wf x -> wf y -> 0 < val x <= val y -> val y < X160 ->
    let a := if up then a1_up (val x) (val y) l else a1_down (val x) (val y) l in
    (match U256.checked_sub y x with
     | Some d => if up then mul_div_rounding_up (U256.from_u128 l) d Q96 else mul_div (U256.from_u128 l) d Q96
     | None => None end) = Some (of_z a) /\ 0 <= a <= l * 2 ^ 64) as G.
  { intros x y Wx Wy Hxy Hy a. pose proof (val_bound y Wy) as By. pose proof Hl as Hl'. unfold u128 in Hl'.
    rewrite checked_sub_val by done. destruct (Z.ltb_spec (val y) (val x)); [lia|].
    assert (wf (of_z (val y - val x))) as Wd by (apply wf_of_z; lia).
    assert (0 <= l * (val y - val x) <= l * 2 ^ 64 * X96) as Bp.
    { assert (val y - val x <= X96 * 2 ^ 64) by lia. nia. }
    assert (l * 2 ^ 64 < WW) as BW by (pose proof W_64; lia).
    unfold a. destruct up.
    - rewrite mul_div_rounding_up_val, val_u128, val_of_z, Vq by (done || by apply wf_u128). destruct (Z.eqb_spec X96 0); [lia|].
      unfold a1_up. assert (cdiv (l * (val y - val x)) X96 <= l * 2 ^ 64) as B1 by (apply cdiv_le; lia).
      rewrite checked_fits by lia. split; [done|]. split; [apply cdiv_nonneg; lia|done].
    - rewrite mul_div_val, val_u128, val_of_z, Vq by (done || by apply wf_u128). destruct (Z.eqb_spec X96 0); [lia|].
      unfold a1_down. assert (l * (val y - val x) / X96 <= l * 2 ^ 64) as B1 by (apply Z.div_le_upper_bound; lia).
      rewrite checked_fits by lia. split; [done|]. split; [apply Z.div_pos; lia|done]. }
  destruct (Z.leb_spec (val sa) (val sb)); [rewrite Z.min_l, Z.max_r by lia|rewrite Z.min_r, Z.max_l by lia]; apply G; done || lia.
Qed.

(** ** The next price *)

(** [z] says the price goes down: token0 in, token1 out. *)
Definition amt_in (z : bool) (p q l : Z) : Z := if z then a0_up q p l else a1_up p q l.
Definition amt_out (z : bool) (p q l : Z) : Z := if z then a1_down q p l else a0_down p q l.

(** From [p] toward [t], [q] lies on the way. *)
Definition toward (z : bool) (p q t : Z) : Prop := if z then t <= q <= p else p <= q <= t.

Lemma is_zero_price sp l : price sp -> 0 < l -> (U256.is_zero sp || (l =? 0)) = false.
Proof.
  intros [Wp Pp] Hl. rewrite is_zero_val by done. destruct (Z.eqb_spec (val sp) 0), (Z.eqb_spec l 0); done || lia.
Qed.

(** Down with an input: the lowest price the input reaches, rounded up. *)
Section InputDown.
Variables (sp : U256) (l : Z) (a : U256) (t : Z).
Hypothesis Hsp : price sp.
Hypothesis Hl0 : 0 < l.
Hypothesis Hl : u128 l.
Hypothesis Wa : wf a.
Hypothesis Ha : val a < W.
Hypothesis Ht : 0 < t <= val sp.
Hypothesis Hna : val a < a0_up t (val sp) l.

(** What a next price must satisfy, and what follows. *)
Definition reached (n : U256) : Prop := price n /\ t <= val n <= val sp /\ a0_up (val n) (val sp) l <= val a.

Lemma reached_of n : 0 < n -> l * X96 * val sp <= n * (l * X96 + val a * val sp) -> n <= val sp -> reached (of_z n).
Proof.
  intros Hn0 Hn Hle. destruct Hsp as [Wp Pp]. pose proof (val_bound a Wa). pose proof (val_bound sp Wp). pose proof X96_pos.
  unfold reached, price. rewrite val_of_z. assert (a0_up n (val sp) l <= val a) as A1 by (apply a0_up_le; [done|lia|nia]).
  split; [split; [apply wf_of_z|]; lia|]. split; [|done]. split; [|done].
  destruct (Z.le_gt_cases t n) as [|G]; [done|]. exfalso.
  assert (a0_up t (val sp) l <= val a); [|lia]. apply a0_up_le; [lia|lia|].
  assert (n * (l * X96 + val a * val sp) <= t * (l * X96 + val a * val sp)) by (apply Z.mul_le_mono_nonneg_r; nia). nia.
Qed.

(** The form the code falls back to when the product overflows. *)
Lemma slow_reached : 0 < val a -> exists n,
  match U256.checked_div_rem (of_z (l * X96)) sp with
  | Some (q, _) => match U256.checked_add q a with Some den => div_rounding_up (of_z (l * X96)) den | None => None end
  | None => None
  end = Some n /\ reached n.
Proof.
  intros Hz. destruct Hsp as [Wp Pp]. destruct (num1_val l Hl) as (_ & Bn & Wn). pose proof (val_bound a Wa). pose proof X96_pos.
  assert (0 < l * X96) as N0 by nia. rewrite checked_div_rem_val, val_of_z by done. destruct (Z.eqb_spec (val sp) 0); [lia|].
  set (q := l * X96 / val sp). assert (0 <= q <= l * X96) as Bq by (split; [apply Z.div_pos; lia|apply Z.div_le_upper_bound; nia]).
  assert (q + val a < WW) as Bs.
  { destruct X_bounds as (_ & X2 & _). change (2 ^ 32) with 4294967296 in X2. unfold u128, WW in *. pose proof W_big. nia. }
  rewrite checked_add_val, val_of_z, checked_fits by (done || (apply wf_of_z; lia) || lia).
  rewrite div_rounding_up_val, !val_of_z by (done || apply wf_of_z; lia). destruct (Z.eqb_spec (q + val a) 0); [lia|].
  set (k := cdiv (l * X96) (q + val a)). pose proof (cdiv_bound (l * X96) (q + val a) ltac:(lia)) as Cb. fold k in Cb.
  pose proof (div_bound (l * X96) (val sp) ltac:(lia)) as Db. fold q in Db.
  assert (0 < k) as N1 by nia. assert (k <= val sp) as N2 by (apply cdiv_le; nia).
  eexists. split; [done|]. apply reached_of; [done| |done].
  assert (l * X96 * val sp <= k * (q + val a) * val sp) by (apply Z.mul_le_mono_nonneg_r; lia). nia.
Qed.

Lemma next_amount0_add : exists n, next_from_amount0_up sp l a true = Some n /\ reached n.
Proof.
  destruct (num1_val l Hl) as (En & Bn & Wn). unfold next_from_amount0_up. rewrite En. destruct Hsp as [Wp Pp].
  pose proof (val_bound a Wa) as Ba. pose proof (val_bound sp Wp) as Bp. pose proof X96_pos. rewrite is_zero_val by done.
  destruct (Z.eqb_spec (val a) 0) as [Ez|Ez].
  { exists sp. split; [done|]. rewrite <- (of_z_val sp) by done. apply reached_of; nia. }
  destruct (slow_reached ltac:(lia)) as (slow & Es & Rs). assert (0 < l * X96) as N0 by nia.
  rewrite checked_mul_val by done. unfold checked. destruct (Z.ltb_spec (val a * val sp) WW) as [Hp|Hp]; [|by exists slow].
  assert (wf (of_z (val a * val sp))) as Wx by (apply wf_of_z; nia).
  rewrite overflowing_add_val, !val_of_z by done. destruct (Z.leb_spec WW (l * X96 + val a * val sp)) as [Ho|Ho]; cbn [negb]; [by exists slow|].
  rewrite Z.mod_small by nia. assert (wf (of_z (l * X96 + val a * val sp))) as Wy by (apply wf_of_z; nia).
  rewrite mul_div_rounding_up_val, !val_of_z by done. destruct (Z.eqb_spec (l * X96 + val a * val sp) 0); [nia|].
  set (k := cdiv (l * X96 * val sp) (l * X96 + val a * val sp)).
  pose proof (cdiv_bound (l * X96 * val sp) (l * X96 + val a * val sp) ltac:(nia)) as Cb. fold k in Cb.
  assert (0 < k) as N1 by nia. assert (k <= val sp) as N2 by (apply cdiv_le; nia).
  rewrite checked_fits by lia. eexists. split; [done|]. apply reached_of; lia.
Qed.

End InputDown.

(** Up with an input: the highest price the input reaches, rounded down. *)
Lemma next_amount1_add sp l a t : price sp -> 0 < l -> u128 l -> wf a -> val a < W ->
  val sp <= t < X160 -> val a < a1_up (val sp) t l ->
  exists n, next_from_amount1_down sp l a true = Some n /\ price n /\ val sp <= val n <= t /\ a1_up (val sp) (val n) l <= val a.
Proof.
  intros [Wp Pp] Hl0 Hl Wa Ha Ht Hna. unfold next_from_amount1_down. destruct Q96_val as [Wq Vq]. pose proof X96_pos as XP.
  pose proof (val_bound a Wa) as Ba. pose proof (wf_u128 l Hl) as Wl.
  assert (val a * X96 < WW) as Bx.
  { destruct X_bounds as (_ & X2 & _). change (2 ^ 32) with 4294967296 in X2. unfold u128 in *. nia. }
  rewrite mul_div_val, val_u128, Vq by done. destruct (Z.eqb_spec l 0); [lia|]. set (d := val a * X96 / l).
  assert (0 <= d < WW) as Bd by (split; [apply Z.div_pos; nia|apply Z.div_lt_upper_bound; nia]).
  rewrite checked_fits by lia. pose proof (div_bound (val a * X96) l Hl0) as Db. fold d in Db.
  assert (val sp + d <= t) as Hle.
  { destruct (Z.le_gt_cases (val sp + d) t) as [|G]; [done|]. exfalso. assert (a1_up (val sp) t l <= val a); [|lia]. apply a1_up_le. nia. }
  assert (X160 < WW) as XW by (by vm_compute). assert (wf (of_z d)) as Wd by by apply wf_of_z.
  rewrite checked_add_val, val_of_z, checked_fits by (done || lia).
  assert (U256.hi (of_z (val sp + d)) <= u32_max) as Hh.
  { unfold of_z. cbn [U256.hi]. apply Z.lt_succ_r. apply Z.div_lt_upper_bound; [pose proof W_big; lia|].
    change (W * Z.succ u32_max) with X160. lia. }
  destruct (Z.ltb_spec u32_max (U256.hi (of_z (val sp + d)))); [lia|]. eexists. split; [done|]. unfold price. rewrite val_of_z.
  split; [split; [apply wf_of_z; lia|lia]|]. split; [lia|]. apply a1_up_le. nia.
Qed.

(** Down with an output: the highest price that pays it, rounded down. *)
Lemma next_amount1_sub sp l a t : price sp -> 0 < l -> u128 l -> wf a -> val a < W ->
  0 < t <= val sp -> val a < a1_down t (val sp) l ->
  exists n, next_from_amount1_down sp l a false = Some n /\ price n /\ t <= val n <= val sp /\ val a <= a1_down (val n) (val sp) l.
Proof.
  intros [Wp Pp] Hl0 Hl Wa Ha Ht Hna. unfold next_from_amount1_down. destruct Q96_val as [Wq Vq]. pose proof X96_pos as XP.
  pose proof (val_bound a Wa) as Ba. pose proof (wf_u128 l Hl) as Wl. pose proof (val_bound sp Wp) as Bp.
  assert (val a + 1 <= a1_down t (val sp) l) as H1 by lia. apply a1_down_ge in H1.
  rewrite mul_div_rounding_up_val, val_u128, Vq by done. destruct (Z.eqb_spec l 0); [lia|]. set (d := cdiv (val a * X96) l).
  pose proof (cdiv_nonneg (val a * X96) l ltac:(nia) Hl0) as D0. fold d in D0.
  assert (d <= val sp - t) as D1 by (apply cdiv_le; nia). rewrite checked_fits by lia.
  assert (wf (of_z d)) as Wd by (apply wf_of_z; lia). rewrite le_val, val_of_z by done.
  destruct (Z.leb_spec (val sp) d); [lia|]. rewrite checked_sub_val, val_of_z by done. destruct (Z.ltb_spec (val sp) d); [lia|].
  eexists. split; [done|]. unfold price. rewrite val_of_z. split; [split; [apply wf_of_z; lia|lia]|]. split; [lia|].
  apply a1_down_ge. pose proof (cdiv_bound (val a * X96) l Hl0) as Cb. fold d in Cb. nia.
Qed.

(** Up with an output: the lowest price that pays it, rounded up. *)
Lemma next_amount0_sub sp l a t : price sp -> 0 < l -> u128 l -> wf a -> val a < W ->
  val sp <= t < X160 -> val a < a0_down (val sp) t l ->
  exists n, next_from_amount0_up sp l a false = Some n /\ price n /\ val sp <= val n <= t /\ val a <= a0_down (val sp) (val n) l.
Proof.
  intros [Wp Pp] Hl0 Hl Wa Ha Ht Hna. unfold next_from_amount0_up. destruct (num1_val l Hl) as (En & Bn & Wn). rewrite En.
  pose proof X96_pos as XP. pose proof (val_bound a Wa) as Ba. pose proof (val_bound sp Wp) as Bp.
  assert (val a + 1 <= a0_down (val sp) t l) as H1 by lia. apply a0_down_ge in H1; [|lia|lia].
  assert (0 < l * X96) as N0 by nia. rewrite is_zero_val by done. destruct (Z.eqb_spec (val a) 0) as [Ez|Ez].
  { exists sp. split; [done|]. split; [done|]. split; [lia|]. apply a0_down_ge; nia. }
  assert (val a * val sp < l * X96) as Hlt.
  { apply (Z.mul_lt_mono_pos_r t); [lia|]. assert (val a * val sp * t <= (val a + 1) * val sp * t) by nia. nia. }
  rewrite checked_mul_val, checked_fits by (done || lia). assert (wf (of_z (val a * val sp))) as Wx by (apply wf_of_z; nia).
  rewrite le_val, !val_of_z by done. destruct (Z.leb_spec (l * X96) (val a * val sp)); [lia|].
  rewrite checked_sub_val, !val_of_z by done. destruct (Z.ltb_spec (l * X96) (val a * val sp)); [lia|].
  set (den := l * X96 - val a * val sp). assert (wf (of_z den)) as Wd by (apply wf_of_z; unfold den; nia).
  rewrite mul_div_rounding_up_val, !val_of_z by done. destruct (Z.eqb_spec den 0); [lia|].
  set (k := cdiv (l * X96 * val sp) den). pose proof (cdiv_bound (l * X96 * val sp) den ltac:(lia)) as Cb. fold k in Cb.
  assert (k <= t) as Kt by (apply cdiv_le; unfold den; nia).
  assert (val sp <= k) as Ks by (unfold den in *; nia).
  assert (X160 < WW) as XW by (by vm_compute). rewrite checked_fits by lia.
  assert (U256.hi (of_z k) <= u32_max) as Hh.
  { unfold of_z. cbn [U256.hi]. apply Z.lt_succ_r. apply Z.div_lt_upper_bound; [pose proof W_big; lia|].
    change (W * Z.succ u32_max) with X160. lia. }
  destruct (Z.ltb_spec u32_max (U256.hi (of_z k))); [lia|]. eexists. split; [done|]. unfold price. rewrite val_of_z.
  split; [split; [apply wf_of_z; lia|lia]|]. split; [lia|]. apply a0_down_ge; [lia|lia|]. unfold den in *. nia.
Qed.

(** ** The step *)

(** The target lies on the side the step trades to. *)
Definition facing (z : bool) (p t : Z) : Prop := if z then t <= p else p <= t.

Lemma amt_in_zero z p q : amt_in z p q 0 = 0.
Proof. destruct z; unfold amt_in, a0_up, a1_up, cdiv; by rewrite ?Z.mul_0_l, ?Zdiv_0_l, ?Z.opp_0, ?Zdiv_0_l. Qed.
Lemma amt_out_zero z p q : amt_out z p q 0 = 0.
Proof. destruct z; unfold amt_out, a0_down, a1_down; by rewrite ?Z.mul_0_l, ?Zdiv_0_l. Qed.

Lemma X64_X96 : 2 ^ 64 <= X96.
Proof. by vm_compute. Qed.

Lemma delta_in z p q l : price p -> price q -> u128 l -> facing z (val p) (val q) ->
  (if z then amount0_delta q p l true else amount1_delta p q l true) = Some (of_z (amt_in z (val p) (val q) l)) /\
  0 <= amt_in z (val p) (val q) l <= l * X96.
Proof.
  intros Hp Hq Hl F. pose proof X64_X96. pose proof Hl as Hl'. unfold u128 in Hl'. destruct z; cbn [facing amt_in] in *.
  - pose proof (amount0_delta_val q p l true Hq Hp Hl) as A. rewrite Z.min_l, Z.max_r in A by lia. exact A.
  - pose proof (amount1_delta_val p q l true Hp Hq Hl) as [A B]. rewrite Z.min_l, Z.max_r in A, B by lia. split; [exact A|]. nia.
Qed.

Lemma delta_out z p q l : price p -> price q -> u128 l -> facing z (val p) (val q) ->
  (if z then amount1_delta q p l false else amount0_delta p q l false) = Some (of_z (amt_out z (val p) (val q) l)) /\
  0 <= amt_out z (val p) (val q) l <= l * X96.
Proof.
  intros Hp Hq Hl F. pose proof X64_X96. pose proof Hl as Hl'. unfold u128 in Hl'. destruct z; cbn [facing amt_out] in *.
  - pose proof (amount1_delta_val q p l false Hq Hp Hl) as [A B]. rewrite Z.min_l, Z.max_r in A, B by lia. split; [exact A|]. nia.
  - pose proof (amount0_delta_val p q l false Hp Hq Hl) as A. rewrite Z.min_l, Z.max_r in A by lia. exact A.
Qed.

Lemma next_input z p l a t : price p -> price t -> u128 l -> wf a -> val a < W -> facing z (val p) (val t) ->
  val a < amt_in z (val p) (val t) l ->
  exists n, next_from_input p l a z = Some n /\ price n /\ toward z (val p) (val n) (val t) /\ amt_in z (val p) (val n) l <= val a.
Proof.
  intros Hp [Wt Pt] Hl Wa Ha F Hna. pose proof (val_bound a Wa) as Ba. pose proof Hl as Hl'. unfold u128 in Hl'.
  assert (0 < l) as L0 by (destruct (Z.eq_dec l 0) as [->|]; [rewrite amt_in_zero in Hna; lia|lia]).
  unfold next_from_input. rewrite is_zero_price by done. destruct z; cbn [facing amt_in toward] in *.
  - apply (next_amount0_add p l a (val t)); done || lia.
  - apply next_amount1_add; done || lia.
Qed.

Lemma next_output z p l a t : price p -> price t -> u128 l -> wf a -> val a < W -> facing z (val p) (val t) ->
  val a < amt_out z (val p) (val t) l ->
  exists n, next_from_output p l a z = Some n /\ price n /\ toward z (val p) (val n) (val t) /\ val a <= amt_out z (val p) (val n) l.
Proof.
  intros Hp [Wt Pt] Hl Wa Ha F Hna. pose proof (val_bound a Wa) as Ba. pose proof Hl as Hl'. unfold u128 in Hl'.
  assert (0 < l) as L0 by (destruct (Z.eq_dec l 0) as [->|]; [rewrite amt_out_zero in Hna; lia|lia]).
  unfold next_from_output. rewrite is_zero_price by done. destruct z; cbn [facing amt_out toward] in *.
  - apply next_amount1_sub; done || lia.
  - apply next_amount0_sub; done || lia.
Qed.

Section Step.
Variables (current target remaining : U256) (l : Z) (exact_in : bool) (fee_pips : Z).
Hypothesis Hc : price current.
Hypothesis Ht : price target.
Hypothesis Hl : u128 l.
Hypothesis Wr : wf remaining.
Hypothesis Hr : val remaining < W.
Hypothesis Hfee : 0 <= fee_pips < PIPS.

Let z : bool := U256.le target current.
Let cur := val current.
Let tgt := val target.
Let rem := val remaining.

Lemma facing_target : facing z cur tgt.
Proof.
  unfold facing, z, cur, tgt. destruct Hc as [? ?], Ht as [? ?]. rewrite le_val by done.
  destruct (Z.leb_spec (val target) (val current)); lia.
Qed.

Lemma toward_facing n : toward z cur n tgt -> facing z cur n.
Proof. unfold toward, facing. destruct z; lia. Qed.

Lemma fee_c_val : u128 (PIPS - fee_pips) /\ u128 PIPS /\ u128 fee_pips /\ val (U256.from_u128 (PIPS - fee_pips)) = PIPS - fee_pips.
Proof.
  assert (PIPS < W) by (by vm_compute). unfold PIPS in *. unfold u128. split_and!; try lia. done.
Qed.

(** What an exact input affords once the fee is kept back. *)
Definition after_fee : Z := rem * (PIPS - fee_pips) / PIPS.

(** The price the step reaches: the target when it is affordable, else the
    furthest the amount pays. *)
Lemma step_price_law : exists n, step_price current target l remaining exact_in z (U256.from_u128 (PIPS - fee_pips)) =
    Some (n, of_z (if exact_in then amt_in z cur tgt l else amt_out z cur tgt l)) /\
  price n /\ toward z cur (val n) tgt /\
  if exact_in then amt_in z cur (val n) l <= after_fee else val n = tgt \/ rem <= amt_out z cur (val n) l.
Proof.
  destruct fee_c_val as (U1 & U2 & _ & V1). pose proof facing_target as F. pose proof (val_bound remaining Wr) as Br. fold rem in Br.
  assert (toward z cur tgt tgt) as T0 by (unfold toward; pose proof F as F'; unfold facing in F'; destruct z; lia).
  unfold step_price. destruct exact_in.
  - rewrite mul_div_val, V1, val_u128 by (done || by apply wf_u128). fold rem. destruct (Z.eqb_spec PIPS 0) as [|_]; [done|].
    fold after_fee. assert (0 <= after_fee <= rem) as Ba.
    { unfold after_fee, PIPS in *. split; [apply Z.div_pos; nia|apply Z.div_le_upper_bound; nia]. }
    rewrite checked_fits by lia. assert (wf (of_z after_fee)) as Wa by (apply wf_of_z; lia).
    destruct (delta_in z current target l Hc Ht Hl F) as [-> B]. fold cur tgt in B |- *. set (w := amt_in z cur tgt l) in *.
    assert (l * X96 < WW) by (destruct (num1_val l Hl) as (_ & ? & _); lia).
    rewrite le_val, !val_of_z by (apply wf_of_z; lia || done). destruct (Z.leb_spec w after_fee) as [Hw|Hw].
    { exists target. split_and!; done. }
    destruct (next_input z current l (of_z after_fee) target Hc Ht Hl Wa) as (n & En & Pn & Tn & An); rewrite ?val_of_z in *; [fold rem in Hr; lia|done|done|].
    rewrite En. exists n. done.
  - destruct (delta_out z current target l Hc Ht Hl F) as [-> B]. fold cur tgt in B |- *. set (w := amt_out z cur tgt l) in *.
    assert (l * X96 < WW) by (destruct (num1_val l Hl) as (_ & ? & _); lia).
    rewrite le_val, !val_of_z by (done || apply wf_of_z; lia). fold rem. destruct (Z.leb_spec w rem) as [Hw|Hw].
    { exists target. split_and!; try done. by left. }
    destruct (next_output z current l remaining target Hc Ht Hl Wr Hr F Hw) as (n & En & Pn & Tn & An). rewrite En. exists n. split_and!; try done. by right.
Qed.

(** What a step did. *)
Record step_done (st : Step) : Prop := {
  sd_price : price (sqrt_next st);
  sd_toward : toward z cur (val (sqrt_next st)) tgt;
  sd_wf : wf (amount_in st) /\ wf (amount_out st) /\ wf (fee st);
  sd_in : val (amount_in st) = amt_in z cur (val (sqrt_next st)) l;
  sd_out : val (amount_out st) = let o := amt_out z cur (val (sqrt_next st)) l in if exact_in then o else Z.min o rem;
  sd_fee : cdiv (val (amount_in st) * fee_pips) (PIPS - fee_pips) <= val (fee st);
  sd_fee_exact : exact_in = false \/ val (sqrt_next st) = tgt -> val (fee st) = cdiv (val (amount_in st) * fee_pips) (PIPS - fee_pips);
  sd_spent : exact_in = true -> val (amount_in st) + val (fee st) <= rem;
  sd_all : val (sqrt_next st) <> tgt -> if exact_in then val (amount_in st) + val (fee st) = rem else val (amount_out st) = rem;
  sd_small : val (amount_in st) + val (fee st) <= W * X96 * 1000001 /\ val (amount_out st) <= W * X96
}.

(** The fee on an input. *)
Definition fee_on (i : Z) : Z := cdiv (i * fee_pips) (PIPS - fee_pips).

Lemma fee_on_bound i : 0 <= i -> 0 <= fee_on i <= i * 1000000.
Proof.
  intros Hi. unfold fee_on, PIPS in *. split; [apply cdiv_nonneg; nia|apply cdiv_le; nia].
Qed.

(** An input the fee leaves room for, and its fee, are within the amount. *)
Lemma fee_on_fits i : 0 <= i <= after_fee -> i + fee_on i <= rem.
Proof.
  intros Hi. assert (i * PIPS <= rem * (PIPS - fee_pips)) as H1 by (apply (div_ge _ PIPS i); [done|apply Hi]).
  assert (fee_on i <= rem - i); [|lia]. apply cdiv_le; unfold PIPS in *; lia.
Qed.

Lemma compute_swap_step_law : exists st, compute_swap_step current target l remaining exact_in fee_pips = Some st /\ step_done st.
Proof.
  destruct fee_c_val as (U1 & U2 & U3 & V1). pose proof (val_bound remaining Wr) as Br. fold rem in Br. pose proof Hl as Hl'. unfold u128 in Hl'.
  unfold compute_swap_step. destruct (Z.leb_spec PIPS fee_pips); [lia|]. cbv zeta. fold z.
  destruct step_price_law as (n & -> & Pn & Tn & An). pose proof (toward_facing _ Tn) as Fn. pose proof X96_pos.
  destruct (delta_in z current n l Hc Pn Hl Fn) as [Ein Bin]. destruct (delta_out z current n l Hc Pn Hl Fn) as [Eout Bout].
  fold cur in Ein, Bin, Eout, Bout.
  assert (0 <= l * X96 <= W * X96) as BL by nia.
  assert (W * X96 * 1000001 < WW) as BW by (by vm_compute).
  assert (U256.same_as target n = (tgt =? val n)) as -> by (destruct Ht, Pn; by apply same_as_val).
  set (i := amt_in z cur (val n) l) in *. set (o := amt_out z cur (val n) l) in *.
  assert (wf (of_z i) /\ wf (of_z o)) as [Wi Wo] by (split; apply wf_of_z; lia).
  pose proof (fee_on_bound i ltac:(lia)) as Bf.
  assert (mul_div_rounding_up (of_z i) (U256.from_u128 fee_pips) (U256.from_u128 (PIPS - fee_pips)) = Some (of_z (fee_on i))) as Efee.
  { rewrite mul_div_rounding_up_val, V1, val_u128, val_of_z by (done || by apply wf_u128).
    destruct (Z.eqb_spec (PIPS - fee_pips) 0) as [|_]; [lia|]. rewrite checked_fits by (fold (fee_on i); lia). done. }
  assert (wf (of_z (fee_on i))) as Wf by (apply wf_of_z; lia).
  destruct exact_in eqn:X; cbn [negb orb andb].
  - (* exact input *)
    assert (i <= after_fee) as Ai by exact An. pose proof (fee_on_fits i ltac:(lia)) as Fi.
    destruct (Z.eqb_spec tgt (val n)) as [E|E]; cbn [negb orb andb].
    + assert (amt_in z cur tgt l = i) as -> by (unfold i; by rewrite E). rewrite Eout, Efee. eexists. split; [done|].
      split; cbn [sqrt_next amount_in amount_out fee]; rewrite ?X, ?val_of_z; try done; fold (fee_on i); try lia.
    + rewrite Ein, Eout. rewrite checked_sub_val, val_of_z by done. fold rem. destruct (Z.ltb_spec rem i); [lia|].
      eexists. split; [done|]. assert (wf (of_z (rem - i))) by (apply wf_of_z; lia).
      split; cbn [sqrt_next amount_in amount_out fee]; rewrite ?X, ?val_of_z; try done; fold (fee_on i); try lia.
      assert (W <= W * X96 * 1000001) by (pose proof W_big; nia). split; [|lia]. replace (i + (rem - i)) with rem by lia. fold rem in Hr. lia.
  - (* exact output *)
    assert (forall x, wf x -> val x = o -> (if U256.lt remaining x then remaining else x) = of_z (Z.min o rem)) as Cap.
    { intros x Wx Vx. rewrite lt_val, Vx by done. fold rem. destruct (Z.ltb_spec rem o).
      - rewrite Z.min_r by lia. unfold rem. by rewrite of_z_val.
      - rewrite Z.min_l by lia. rewrite <- Vx. by rewrite of_z_val. }
    assert (wf (of_z (Z.min o rem))) as Wm by (apply wf_of_z; lia). rewrite orb_true_r, Ein.
    assert ((if negb (tgt =? val n) || false then (if z then amount1_delta n current l false else amount0_delta current n l false)
             else Some (of_z (amt_out z cur tgt l))) = Some (of_z o)) as ->.
    { destruct (Z.eqb_spec tgt (val n)) as [E|E]; cbn [negb orb]; [unfold o; by rewrite E|done]. }
    rewrite (Cap (of_z o) Wo (val_of_z o)), Efee. eexists. split; [done|].
    split; cbn [sqrt_next amount_in amount_out fee]; rewrite ?X, ?val_of_z; try done; fold (fee_on i); try lia.
Qed.

End Step.
