(* ===== verification/AmmTypes.v ===== *)
(** * Pool state and the tick map ([crates/core-amm/src/types.rs])

    The map is a fixed array of nodes, the first [len] of them ascending, over
    a known coverage; a position moves the two nodes at its ends. *)

From S2P Require Import Prelude AmmU256 AmmTick.

#[local] Open Scope machine_scope.

(** ** Pools *)

Definition AMM_KIND_V3 : Z := 0.
Definition AMM_KIND_V2 : Z := 1.
Definition AMM_KIND_ALGEBRA : Z := 2.
Definition POOL_FLAG_STALE : Z := 1.
Definition POOL_FLAG_EDGE : Z := 2.

Record PoolState := mkPool {
  sqrt_price_lo : Z;
  ps_liquidity : Z;
  sqrt_price_hi : Z;
  ps_tick : Z;
  ps_block : Z;
  ps_log_index : Z;
  ps_pool : Z;
  ps_flags : Z
}.
Definition POOL_ZERO : PoolState := mkPool 0 0 0 0 0 0 0 0.
Definition PoolState_new (lo hi tick liquidity : Z) : PoolState := mkPool lo liquidity hi tick 0 0 0 0.
#[export] Instance pool_state_inhabited : Inhabited PoolState := populate POOL_ZERO.
#[export] Instance pool_state_eq_dec : EqDecision PoolState.
Proof. solve_decision. Defined.

Definition set_liquidity (l : Z) (s : PoolState) : PoolState :=
  mkPool (sqrt_price_lo s) l (sqrt_price_hi s) (ps_tick s) (ps_block s) (ps_log_index s) (ps_pool s) (ps_flags s).

Inductive AmmError := TickMapFull | TickMapUnsorted | TickMapDuplicate | LiquidityNetOverflow | BadState
  | TickMapInconsistent | GrossUnknown | LiquidityGrossOverflow | LiquidityOverflow.

(** [i128::unsigned_abs], [u128::checked_add], [u128::checked_sub], [i128::checked_add]. *)
Definition checked_u128 (z : Z) : option Z := if (0 <=? z) && (z <=? u128_max) then Some z else None.
Definition checked_i128 (z : Z) : option Z := if (i128_min <=? z) && (z <=? i128_max) then Some z else None.

(** The in-range half of a mint or burn. *)
Definition pool_apply_position (tick_lower tick_upper delta : Z) (s : PoolState) : PoolState * result unit AmmError :=
  if (tick_upper <=? tick_lower) || (delta =? i128_min) then (s, Err BadState)
  else if (ps_tick s <? tick_lower) || (tick_upper <=? ps_tick s) then (s, Ok tt)
  else
    let l := if 0 <=? delta then checked_u128 (ps_liquidity s + delta) else checked_u128 (ps_liquidity s - Z.abs delta) in
    match l with
    | Some v => (set_liquidity v s, Ok tt)
    | None => (s, Err LiquidityOverflow)
    end.

Definition pool_is_live (s : PoolState) : bool :=
  (negb (sqrt_price_lo s =? 0) || negb (sqrt_price_hi s =? 0)) && negb (ps_liquidity s =? 0)
  && (Z.land (ps_flags s) (Z.lor POOL_FLAG_STALE POOL_FLAG_EDGE) =? 0).

Record PoolMeta := mkMeta {
  token0 : list Z;
  token1 : list Z;
  address : list Z;
  pm_fee_pips : Z;
  tick_spacing : Z;
  dec0 : Z;
  dec1 : Z;
  sym0 : Z;
  sym1 : Z;
  pm_kind : Z
}.
Definition META_ZERO : PoolMeta :=
  mkMeta (replicate 20 0) (replicate 20 0) (replicate 20 0) 0 1 0 0 u16_max u16_max AMM_KIND_V3.

(** ** Nodes *)

Definition MAX_TICK_GROSS : Z := 2 ^ 96 - 1.

(** The gross rides as three words. *)
Record TickNode := mkNode { tn_tick : Z; tn_gross : list Z; liquidity_net : Z }.
Definition NODE_ZERO : TickNode := mkNode 0 [0; 0; 0] 0.
#[export] Instance tick_node_inhabited : Inhabited TickNode := populate NODE_ZERO.
#[export] Instance tick_node_eq_dec : EqDecision TickNode.
Proof. solve_decision. Defined.

Definition TickNode_new (tick net : Z) : TickNode := mkNode tick [0; 0; 0] net.

Definition set_gross (g : Z) (n : TickNode) : TickNode :=
  mkNode (tn_tick n) [wrap_u32 g; wrap_u32 (Z.shiftr g 32); wrap_u32 (Z.shiftr g 64)] (liquidity_net n).

Definition set_net (v : Z) (n : TickNode) : TickNode := mkNode (tn_tick n) (tn_gross n) v.

Definition liquidity_gross (n : TickNode) : Z :=
  Z.lor (Z.lor (get (tn_gross n) 0) (Z.shiftl (get (tn_gross n) 1) 32)) (Z.shiftl (get (tn_gross n) 2) 64).

Definition with_gross (tick net gross : Z) : option TickNode :=
  if MAX_TICK_GROSS <? gross then None else Some (set_gross gross (TickNode_new tick net)).

Definition max_liquidity_per_tick (tick_spacing : Z) : Z :=
  if tick_spacing <=? 0 then 0
  else
    let min_t := (MIN_TICK /t tick_spacing) * tick_spacing in
    let max_t := (MAX_TICK /t tick_spacing) * tick_spacing in
    let num_ticks := (max_t - min_t) /t tick_spacing + 1 in
    u128_max / num_ticks.

(** ** The map *)

Record TickMap := mkTickMap { tm_nodes : list TickNode; tm_len : nat; lo_tick : Z; hi_tick : Z }.

Definition check_coverage (lo_tick hi_tick tick_spacing : Z) : result unit AmmError :=
  if (tick_spacing <=? 0) || (hi_tick <? lo_tick) || (lo_tick <? MIN_TICK) || (MAX_TICK <? hi_tick)
     || negb (Z.rem lo_tick tick_spacing =? 0) || negb (Z.rem hi_tick tick_spacing =? 0)
  then Err BadState else Ok tt.

(** [copy_within (a .. b, dst)]. *)
Definition copy_within {A} (a b dst : nat) (l : list A) : list A :=
  take dst l ++ take (b - a) (drop a l) ++ drop (dst + (b - a)) l.

(** First index whose node satisfies [p], by bisection: every node before it
    fails [p] in a sorted map. The fuel is the width of the range. *)
Fixpoint bisect (fuel : nat) (p : TickNode -> bool) (nodes : list TickNode) (lo hi : nat) : nat :=
  match fuel with
  | O => lo
  | S f =>
      if (lo <? hi)%nat then
        let mid := (lo + (hi - lo) / 2)%nat in
        if p (nodes !!! mid) then bisect f p nodes (S mid) hi else bisect f p nodes lo mid
      else lo
  end.

Section TickMap.
Variable N : nat.

Definition TICKMAP_EMPTY : TickMap := mkTickMap (replicate N NODE_ZERO) 0 1 0.

Definition has_coverage (m : TickMap) : bool := lo_tick m <=? hi_tick m.

Definition live_nodes (m : TickMap) : list TickNode := take (Nat.min (tm_len m) N) (tm_nodes m).

Definition tickmap_clear (m : TickMap) : TickMap := mkTickMap (tm_nodes m) 0 1 0.

(** Node [i] against its predecessor and the bounds. *)
Definition node_error (nodes : list TickNode) (lo_tick hi_tick tick_spacing cap : Z) (i : nat) : option AmmError :=
  let node := nodes !!! i in
  let prev := tn_tick (nodes !!! (i - 1)%nat) in
  if (0 <? i)%nat && (tn_tick node =? prev) then Some TickMapDuplicate
  else if (0 <? i)%nat && (tn_tick node <? prev) then Some TickMapUnsorted
  else if (tn_tick node <? lo_tick) || (hi_tick <? tn_tick node) || negb (Z.rem (tn_tick node) tick_spacing =? 0) then Some BadState
  else if cap <? Z.abs (liquidity_net node) then Some LiquidityNetOverflow
  else if negb (liquidity_gross node =? 0) && (liquidity_gross node <? Z.abs (liquidity_net node)) then Some TickMapInconsistent
  else None.

Fixpoint first_error (f : nat -> option AmmError) (i n : nat) : option AmmError :=
  match n with
  | O => None
  | S k => match f i with Some e => Some e | None => first_error f (S i) k end
  end.

Definition commit_nodes (n : nat) (lo_tick hi_tick tick_spacing : Z) (m : TickMap) : TickMap * result unit AmmError :=
  let cap := max_liquidity_per_tick tick_spacing in
  match first_error (node_error (tm_nodes m) lo_tick hi_tick tick_spacing cap) 0 n with
  | Some e => (m, Err e)
  | None => (mkTickMap (tm_nodes m) n lo_tick hi_tick, Ok tt)
  end.

Definition tickmap_load (nodes : list TickNode) (lo_tick hi_tick tick_spacing : Z) (m : TickMap) : TickMap * result unit AmmError :=
  let m := tickmap_clear m in
  match check_coverage lo_tick hi_tick tick_spacing with
  | Err e => (m, Err e)
  | Ok _ =>
      if (N <? length nodes)%nat then (m, Err TickMapFull)
      else
        let m := mkTickMap (nodes ++ drop (length nodes) (tm_nodes m)) 0 1 0 in
        commit_nodes (length nodes) lo_tick hi_tick tick_spacing m
  end.

Definition begin_stage (m : TickMap) : TickMap := tickmap_clear m.

(** [stage_slot], and the caller's write through it. *)
Definition stage_slot (i : nat) (n : TickNode) (m : TickMap) : TickMap * bool :=
  if (i <? N)%nat then (mkTickMap (<[i := n]> (tm_nodes m)) (tm_len m) (lo_tick m) (hi_tick m), true) else (m, false).

Definition commit_stage (n : nat) (lo_tick hi_tick tick_spacing : Z) (m : TickMap) : TickMap * result unit AmmError :=
  let m := tickmap_clear m in
  match check_coverage lo_tick hi_tick tick_spacing with
  | Err e => (m, Err e)
  | Ok _ => if (N <? n)%nat then (m, Err TickMapFull) else commit_nodes n lo_tick hi_tick tick_spacing m
  end.

(** First index whose tick is at or above [tick]. *)
Definition lower_bound (tick : Z) (m : TickMap) : nat :=
  let nodes := live_nodes m in
  bisect (length nodes) (fun n => tn_tick n <? tick) nodes 0 (length nodes).

Record Plan := mkPlan { pl_index : nat; pl_present : bool; pl_gross : Z; pl_net : Z }.

(** One end of a position, validated. *)
Definition plan_end (tick delta net_delta : Z) (m : TickMap) : result (option Plan) AmmError :=
  if (tick <? lo_tick m) || (hi_tick m <? tick) then Ok None
  else
    let i := lower_bound tick m in
    let node := tm_nodes m !!! i in
    let present := (i <? tm_len m)%nat && (tn_tick node =? tick) in
    if present && (liquidity_gross node =? 0) then Err GrossUnknown
    else
      let '(gross, net) := if present then (liquidity_gross node, liquidity_net node) else (0, 0) in
      let new_gross :=
        if 0 <=? delta then
          match checked_u128 (gross + delta) with
          | Some v => if v <=? MAX_TICK_GROSS then Ok v else Err LiquidityGrossOverflow
          | None => Err LiquidityGrossOverflow
          end
        else
          match checked_u128 (gross - Z.abs delta) with
          | Some v => Ok v
          | None => Err TickMapInconsistent
          end in
      match new_gross with
      | Err e => Err e
      | Ok new_gross =>
          match checked_i128 (net + net_delta) with
          | None => Err LiquidityNetOverflow
          | Some new_net =>
              if new_gross <? Z.abs new_net then Err TickMapInconsistent
              else Ok (Some (mkPlan i present new_gross new_net))
          end
      end.

(** The plan written: the node leaves, is updated, or enters in order. *)
Definition commit_end (tick : Z) (p : Plan) (m : TickMap) : TickMap :=
  let i := pl_index p in
  let len := tm_len m in
  let nodes := tm_nodes m in
  if pl_present p then
    if pl_gross p =? 0 then
      mkTickMap (<[(len - 1)%nat := NODE_ZERO]> (copy_within (S i) len i nodes)) (len - 1) (lo_tick m) (hi_tick m)
    else mkTickMap (alter (fun n => set_net (pl_net p) (set_gross (pl_gross p) n)) i nodes) len (lo_tick m) (hi_tick m)
  else
    mkTickMap (<[i := set_gross (pl_gross p) (TickNode_new tick (pl_net p))]> (copy_within i len (S i) nodes))
      (S len) (lo_tick m) (hi_tick m).

Definition inserts (p : option Plan) : nat := match p with Some q => if pl_present q then 0 else 1 | None => 0 end.

Definition apply_position (tick_lower tick_upper delta : Z) (m : TickMap) : TickMap * result unit AmmError :=
  if (tick_upper <=? tick_lower) || (tick_lower <? MIN_TICK) || (MAX_TICK <? tick_upper) || (delta =? i128_min)
  then (m, Err BadState)
  else if (delta =? 0) || negb (has_coverage m) then (m, Ok tt)
  else
    match plan_end tick_lower delta delta m with
    | Err e => (m, Err e)
    | Ok lower =>
        match plan_end tick_upper delta (- delta) m with
        | Err e => (m, Err e)
        | Ok upper =>
            if (N <? tm_len m + (inserts lower + inserts upper))%nat then (m, Err TickMapFull)
            else
              let m := match upper with Some p => commit_end tick_upper p m | None => m end in
              let m := match lower with Some p => commit_end tick_lower p m | None => m end in
              (m, Ok tt)
        end
    end.

End TickMap.

(** ** Swaps and arbitrage *)

Definition SWAP_FLAG_LIMIT : Z := 1.
Definition SWAP_FLAG_EDGE : Z := 2.
Definition SWAP_FLAG_STEP_CAP : Z := 4.
Definition SWAP_FLAG_MATH : Z := 8.
Definition SWAP_FLAG_REFUSED : Z := 16.
Definition SWAP_FLAG_LIQ_CLAMP : Z := 32.
Definition SWAP_FLAG_SATURATED : Z := 64.

Record SwapResult := mkSwapResult {
  sr_amount_in : Z; sr_amount_out : Z; sr_fee : Z; sr_steps : Z; sr_flags : Z; sr_after : PoolState
}.
Definition swap_refused (s : PoolState) : SwapResult := mkSwapResult 0 0 0 0 SWAP_FLAG_REFUSED s.

Record SwapSpec := mkSwapSpec {
  sp_amount : Z; limit_lo : Z; limit_hi : Z; sp_fee_pips : Z; zero_for_one : bool; sp_exact_in : bool
}.

Inductive ArbSide := ArbNone | BuyToken0 | SellToken0.
Definition ARB_FLAG_SIZE_CAPPED : Z := 1.
Definition ARB_FLAG_MAP_EDGE : Z := 2.
Definition ARB_FLAG_NOT_LIVE : Z := 4.
Definition ARB_FLAG_BELOW_GAS : Z := 8.
Definition ARB_FLAG_MATH : Z := 16.

Record ArbQuote := mkArbQuote {
  aq_side : ArbSide; aq_flags : Z; gross_bps_1e6 : Z; token0_raw : Z; token1_raw : Z; pnl_usd_1e6 : Z;
  notional_usd_1e6 : Z; aq_after : PoolState
}.

Definition arb_none (s : PoolState) (flags pnl : Z) : ArbQuote :=
  mkArbQuote ArbNone flags 0 0 0 (if 0 <? pnl then 0 else pnl) 0 s.

Record ArbParams := mkArbParams {
  eff_bid_1e18 : Z; eff_ask_1e18 : Z; px0_usd_1e6 : Z; max_notional_usd_1e6 : Z; gas_usd_1e6 : Z
}.
