(* ===== verification/AmmMapProofs.v ===== *)
(** * The tick map is a finite map of ticks

    The live nodes, in strictly ascending order of their ticks, are read as a
    map from a tick to its gross and net liquidity; loading establishes the
    order, and a position moves the two ends of the map or nothing. *)

From Stdlib Require Import Sorting.
From stdpp Require Import gmap sorting.
From S2P Require Import Prelude AmmU256 AmmLimbs AmmTick AmmTypes.

#[local] Open Scope machine_scope.

(** ** Bisection *)

(** [p] holds of a prefix. *)
Definition prefix_of (p : TickNode -> bool) (nodes : list TickNode) (k : nat) : Prop :=
  (k <= length nodes)%nat /\ (forall i, (i < k)%nat -> p (nodes !!! i) = true) /\
  (forall i, (k <= i < length nodes)%nat -> p (nodes !!! i) = false).

(** The strictly ascending lists. *)
Definition ascending (nodes : list TickNode) : Prop :=
  forall i j, (i < j < length nodes)%nat -> tn_tick (nodes !!! i) < tn_tick (nodes !!! j).

Lemma bisect_prefix (p : TickNode -> bool) nodes fuel lo hi :
  (forall i j, (i < j < length nodes)%nat -> p (nodes !!! j) = true -> p (nodes !!! i) = true) ->
  (lo <= hi <= length nodes)%nat -> (hi - lo <= fuel)%nat ->
  (forall i, (i < lo)%nat -> p (nodes !!! i) = true) -> (forall i, (hi <= i < length nodes)%nat -> p (nodes !!! i) = false) ->
  prefix_of p nodes (bisect fuel p nodes lo hi).
Proof.
  intros Hm. revert lo hi. induction fuel as [|f IH]; intros lo hi Hr Hf Hl Hh; cbn [bisect].
  { replace hi with lo in Hh by lia. split_and!; [lia|done|done]. }
  destruct (Nat.ltb_spec lo hi) as [Hlt|Hge]; [|replace hi with lo in Hh by lia; split_and!; [lia|done|done]].
  cbv zeta. set (mid := (lo + (hi - lo) / 2)%nat).
  assert (lo <= mid < hi)%nat as Hmid.
  { pose proof (Nat.div_lt (hi - lo) 2 ltac:(lia) ltac:(lia)). unfold mid. lia. }
  destruct (p (nodes !!! mid)) eqn:E; apply IH; try lia; try done.
  - intros i Hi. destruct (Nat.eq_dec i mid) as [->|]; [done|]. by apply (Hm i mid); [lia|].
  - intros i Hi. destruct (p (nodes !!! i)) eqn:Ei; [|done]. destruct (Nat.eq_dec i mid) as [->|]; [congruence|].
    rewrite (Hm mid i) in E by (done || lia). done.
Qed.

(** ** The live nodes as a sorted list *)

Definition before (a b : TickNode) : Prop := tn_tick a < tn_tick b.

Lemma ascending_sorted L : ascending L <-> StronglySorted before L.
Proof.
  split.
  - induction L as [|n L IH]; intros H; constructor.
    + apply IH. intros i j Hij. apply (H (S i) (S j)). cbn. lia.
    + apply Forall_forall. intros x [j Hj]%list_elem_of_lookup. pose proof (lookup_lt_Some _ _ _ Hj).
      pose proof (H 0%nat (S j) ltac:(cbn; lia)) as G. change (tn_tick n < tn_tick (L !!! j)) in G. by rewrite (list_lookup_total_correct _ _ _ Hj) in G.
  - induction 1 as [|n L Hs IH Hf]; intros i j Hij; [cbn in Hij; lia|]. destruct j as [|j]; [lia|]. cbn in Hij. destruct i as [|i].
    + cbn. rewrite Forall_forall in Hf. apply Hf, list_elem_of_lookup_total. exists j. split; [lia|done].
    + apply (IH i j). lia.
Qed.

(** How many of a list's ticks lie below [t]. *)
Definition rank (t : Z) (L : list TickNode) : nat := length (filter (fun n => tn_tick n < t) L).

Lemma filter_none {A} (P : A -> Prop) `{forall x, Decision (P x)} l : Forall (fun x => ~ P x) l -> filter P l = [].
Proof. induction 1; [done|]. by rewrite filter_cons_False. Qed.

(** Bisection finds the rank. *)
Lemma bisect_rank L t : ascending L -> bisect (length L) (fun n => tn_tick n <? t) L 0 (length L) = rank t L.
Proof.
  intros Ha. destruct (bisect_prefix (fun n => tn_tick n <? t) L (length L) 0 (length L)) as (H1 & H2 & H3); try lia.
  { intros i j Hij Hj. pose proof (Ha i j Hij). lia. }
  set (k := bisect _ _ _ _ _) in *. rewrite <- (take_drop k L). unfold rank. rewrite filter_app, length_app.
  rewrite filter_all, filter_none, length_take; [cbn; lia| |].
  - apply Forall_forall. intros x [i Hi]%list_elem_of_lookup. rewrite lookup_drop in Hi. pose proof (lookup_lt_Some _ _ _ Hi).
    specialize (H3 (k + i)%nat ltac:(lia)). rewrite (list_lookup_total_correct _ _ _ Hi) in H3. lia.
  - apply Forall_forall. intros x [i Hi]%list_elem_of_lookup. apply lookup_take_Some in Hi as [Hi Hlt].
    specialize (H2 i Hlt). rewrite (list_lookup_total_correct _ _ _ Hi) in H2. lia.
Qed.

(** A sorted list parted at a tick: the nodes below, the node, the nodes above. *)
Lemma parted t L : StronglySorted before L -> exists A mid B, L = A ++ mid ++ B /\ length A = rank t L /\
  Forall (fun n => tn_tick n < t) A /\ Forall (fun n => t < tn_tick n) B /\ (mid = [] \/ exists n, mid = [n] /\ tn_tick n = t).
Proof.
  induction 1 as [|n L Hs IH Hf]; [exists [], [], []; split_and!; auto|]. unfold rank. rewrite Forall_forall in Hf. unfold before in Hf.
  destruct (Z.lt_trichotomy (tn_tick n) t) as [Hlt|[He|Hgt]].
  - destruct IH as (A & mid & B & -> & El & FA & FB & Hm). exists (n :: A), mid, B. rewrite filter_cons_True by done. cbn [length]. rewrite El.
    split_and!; auto.
  - exists [], [n], L. rewrite filter_cons_False, filter_none by (try lia; apply Forall_forall; intros x Hx; specialize (Hf x Hx); lia).
    split_and!; auto; [|by right; exists n]. apply Forall_forall. intros x Hx. specialize (Hf x Hx). lia.
  - exists [], [], (n :: L). rewrite filter_cons_False, filter_none by (try lia; apply Forall_forall; intros x Hx; specialize (Hf x Hx); lia).
    split_and!; auto. constructor; [done|]. apply Forall_forall. intros x Hx. specialize (Hf x Hx). lia.
Qed.

(** ** The words of a gross *)

Definition words_ok (l : list Z) : Prop := length l = 3%nat /\ Forall (fun w => in_u32 w) l.

Lemma gross_words l : words_ok l -> Z.lor (Z.lor (get l 0) (Z.shiftl (get l 1) 32)) (Z.shiftl (get l 2) 64) =
  get l 0 + get l 1 * 2 ^ 32 + get l 2 * 2 ^ 64 /\ 0 <= get l 0 + get l 1 * 2 ^ 32 + get l 2 * 2 ^ 64 <= MAX_TICK_GROSS.
Proof.
  intros [Hl Hf]. destruct l as [|a [|b [|c [|]]]]; try done. apply Forall_cons in Hf as [Ha [Hb [Hc _]%Forall_cons]%Forall_cons].
  change (get [a; b; c] 0) with a. change (get [a; b; c] 1) with b. change (get [a; b; c] 2) with c.
  unfold MAX_TICK_GROSS, u32_max in *. rewrite !Z.shiftl_mul_pow2 by lia.
  change (2 ^ 32) with 4294967296. change (2 ^ 64) with 18446744073709551616.
  pose proof (lor_low_high b a 32 ltac:(lia) ltac:(lia)) as E1. pose proof (lor_low_high c (a + b * 4294967296) 64 ltac:(lia) ltac:(lia)) as E2.
  change (2 ^ 32) with 4294967296 in *. change (2 ^ 64) with 18446744073709551616 in *.
  rewrite (Z.lor_comm a), E1. replace (b * 4294967296 + a) with (a + b * 4294967296) by lia. rewrite Z.lor_comm, E2. lia.
Qed.

Lemma gross_range n : words_ok (tn_gross n) -> 0 <= liquidity_gross n <= MAX_TICK_GROSS.
Proof. intros H. unfold liquidity_gross. by destruct (gross_words _ H) as [-> ?]. Qed.

Lemma set_gross_words g n : words_ok (tn_gross (set_gross g n)).
Proof.
  split; [done|]. cbn [set_gross tn_gross]. assert (forall z, 0 <= wrap_u32 z <= u32_max) as H.
  { intros z. unfold wrap_u32, u32_max. pose proof (Z.mod_pos_bound z 4294967296 ltac:(lia)). lia. }
  repeat constructor; apply H.
Qed.

Lemma set_gross_gross g n : 0 <= g <= MAX_TICK_GROSS -> liquidity_gross (set_gross g n) = g.
Proof.
  intros Hg. destruct (gross_words _ (set_gross_words g n)) as [E _]. unfold liquidity_gross. rewrite E.
  set (l := tn_gross (set_gross g n)). change (get l 0) with (wrap_u32 g). change (get l 1) with (wrap_u32 (Z.shiftr g 32)).
  change (get l 2) with (wrap_u32 (Z.shiftr g 64)). unfold wrap_u32. rewrite !Z.shiftr_div_pow2 by lia.
  unfold MAX_TICK_GROSS in Hg. change 4294967296 with (2 ^ 32).
  pose proof (Z.div_mod g (2 ^ 32) ltac:(lia)) as D. pose proof (Z.div_mod (g / 2 ^ 32) (2 ^ 32) ltac:(lia)) as D2.
  rewrite Z.div_div in D2 by lia. change (2 ^ 32 * 2 ^ 32) with (2 ^ 64) in D2.
  assert (0 <= g / 2 ^ 64 < 2 ^ 32) as B by (split; [apply Z.div_pos; lia|apply Z.div_lt_upper_bound; lia]).
  rewrite (Z.mod_small (g / 2 ^ 64)) by lia. change (2 ^ 64) with (2 ^ 32 * 2 ^ 32) at 2. lia.
Qed.

(** ** The map a tick list stands for *)

Definition entry (n : TickNode) : Z * (Z * Z) := (tn_tick n, (liquidity_gross n, liquidity_net n)).

Definition book (L : list TickNode) : gmap Z (Z * Z) := list_to_map (entry <$> L).

(** The gross and net a tick has. *)
Definition put (t : Z) (v : Z * Z) (M : gmap Z (Z * Z)) : gmap Z (Z * Z) := if fst v =? 0 then delete t M else <[t := v]> M.

Lemma fst_entry L : (entry <$> L).*1 = tn_tick <$> L.
Proof. rewrite <- list_fmap_compose. done. Qed.

Lemma sorted_nodup L : StronglySorted before L -> NoDup (entry <$> L).*1.
Proof.
  rewrite fst_entry. induction 1 as [|n L Hs IH Hf]; cbn; constructor; [|done].
  intros (x & Ex & Hx)%list_elem_of_fmap. rewrite Forall_forall in Hf. specialize (Hf x Hx). unfold before in Hf. lia.
Qed.

Lemma book_notin t L : Forall (fun n => tn_tick n <> t) L -> book L !! t = None.
Proof.
  intros H. apply not_elem_of_list_to_map_1. rewrite fst_entry. intros (x & Ex & Hx)%list_elem_of_fmap.
  rewrite Forall_forall in H. by apply (H x).
Qed.

(** A node in the middle of a sorted list is the map's entry. *)
Lemma book_middle A n B : StronglySorted before (A ++ n :: B) -> book (A ++ n :: B) = <[tn_tick n := (liquidity_gross n, liquidity_net n)]> (book (A ++ B)).
Proof.
  intros Hs. unfold book at 1. rewrite (list_to_map_proper _ (entry <$> n :: A ++ B)).
  - done.
  - by apply sorted_nodup.
  - apply fmap_Permutation. by rewrite Permutation_middle.
Qed.

Definition node_at (t : Z) (v : Z * Z) : TickNode := set_gross (fst v) (TickNode_new t (snd v)).

(** A value put at a parted list's tick. *)
Definition place (t : Z) (v : Z * Z) : list TickNode := if fst v =? 0 then [] else [node_at t v].

Section Parts.
Variables (t : Z) (A mid B : list TickNode).
Hypothesis HA : Forall (fun n => tn_tick n < t) A.
Hypothesis HB : Forall (fun n => t < tn_tick n) B.
Hypothesis Hm : mid = [] \/ exists n, mid = [n] /\ tn_tick n = t.
Hypothesis Hs : StronglySorted before (A ++ mid ++ B).

Lemma parts_sorted mid' : mid' = [] \/ (exists n, mid' = [n] /\ tn_tick n = t) -> StronglySorted before (A ++ mid' ++ B).
Proof.
  intros Hm'. apply StronglySorted_app in Hs as (_ & SA & SB). apply StronglySorted_app in SB as (_ & _ & SB).
  rewrite Forall_forall in HA, HB. assert (forall x, x ∈ mid' -> tn_tick x = t) as Et.
  { destruct Hm' as [-> |(n & -> & En)]; intros x Hx; [by apply not_elem_of_nil in Hx|]. apply list_elem_of_singleton in Hx. by subst. }
  repeat (apply StronglySorted_app_2); try done.
  - intros x y Hx [Hy|Hy]%elem_of_app; unfold before; specialize (HA x Hx); [rewrite (Et y Hy); lia|specialize (HB y Hy); lia].
  - intros x y Hx Hy. unfold before. rewrite (Et x Hx). by apply HB.
  - destruct Hm' as [-> |(n & -> & _)]; repeat constructor.
Qed.

Lemma parts_rest : StronglySorted before (A ++ B) /\ book (A ++ B) !! t = None.
Proof.
  split; [apply (parts_sorted []); by left|]. apply book_notin. apply Forall_app. split; eapply Forall_impl; [exact HA| |exact HB|]; cbn; lia.
Qed.

Lemma parts_lookup : book (A ++ mid ++ B) !! t = (fun n => (liquidity_gross n, liquidity_net n)) <$> head mid.
Proof.
  destruct parts_rest as [_ N]. destruct Hm as [-> |(n & -> & En)]; [done|]. cbn [app] in *. rewrite book_middle by done. rewrite En. by rewrite lookup_insert_eq.
Qed.

Lemma parts_delete : book (A ++ B) = delete t (book (A ++ mid ++ B)).
Proof.
  destruct parts_rest as [_ N]. destruct Hm as [-> |(n & -> & En)]; cbn [app] in *; [by rewrite delete_id|].
  rewrite book_middle by done. rewrite En. by rewrite delete_insert_id.
Qed.

Lemma parts_put v : 0 <= fst v <= MAX_TICK_GROSS -> book (A ++ place t v ++ B) = put t v (book (A ++ mid ++ B)).
Proof.
  intros Hv. unfold put, place. destruct (fst v =? 0); [apply parts_delete|]. pose proof (parts_sorted [node_at t v] ltac:(right; by eexists)) as S.
  cbn [app] in *. rewrite book_middle by done. cbn [node_at set_gross tn_tick TickNode_new]. rewrite parts_delete, insert_delete_eq. f_equal.
  rewrite (surjective_pairing v) at 3. f_equal. by apply set_gross_gross.
Qed.

End Parts.

(** ** The specification of a position *)

Section Spec.
Variables (N : nat) (lo hi : Z).

(** One end: its new gross and net, or the error that refuses it; an end
    outside the coverage is not stored. *)
Definition move_end (t delta net_delta : Z) (M : gmap Z (Z * Z)) : result (option (Z * Z)) AmmError :=
  if (t <? lo) || (hi <? t) then Ok None
  else if bool_decide (fst <$> M !! t = Some 0) then Err GrossUnknown
  else
    let '(g, n) := default (0, 0) (M !! t) in
    if g + delta <? 0 then Err TickMapInconsistent
    else if MAX_TICK_GROSS <? g + delta then Err LiquidityGrossOverflow
    else if negb (i128_min <=? n + net_delta) || negb (n + net_delta <=? i128_max) then Err LiquidityNetOverflow
    else if g + delta <? Z.abs (n + net_delta) then Err TickMapInconsistent
    else Ok (Some (g + delta, n + net_delta)).

Definition put_end (t : Z) (v : option (Z * Z)) (M : gmap Z (Z * Z)) : gmap Z (Z * Z) :=
  match v with Some v => put t v M | None => M end.

(** A new key an end would add. *)
Definition adds (t : Z) (v : option (Z * Z)) (M : gmap Z (Z * Z)) : nat :=
  match v with Some _ => match M !! t with Some _ => 0 | None => 1 end | None => 0 end.

(** Both ends move, or neither does. *)
Definition position_spec (tl tu delta : Z) (M : gmap Z (Z * Z)) : gmap Z (Z * Z) * result unit AmmError :=
  if (tu <=? tl) || (tl <? MIN_TICK) || (MAX_TICK <? tu) || (delta =? i128_min) then (M, Err BadState)
  else if (delta =? 0) || (hi <? lo) then (M, Ok tt)
  else
    match move_end tl delta delta M, move_end tu delta (- delta) M with
    | Err e, _ => (M, Err e)
    | _, Err e => (M, Err e)
    | Ok l, Ok u =>
        if (N <? size M + (adds tl l M + adds tu u M))%nat then (M, Err TickMapFull)
        else (put_end tl l (put_end tu u M), Ok tt)
    end.

End Spec.

(** ** The map's invariant *)

Section Map.
Variable N : nat.

Definition node_ok (m : TickMap) (n : TickNode) : Prop :=
  lo_tick m <= tn_tick n <= hi_tick m /\ words_ok (tn_gross n) /\ i128_min <= liquidity_net n <= i128_max /\
  (liquidity_gross n = 0 \/ Z.abs (liquidity_net n) <= liquidity_gross n).

Record map_ok (m : TickMap) : Prop := {
  mo_slots : length (tm_nodes m) = N;
  mo_len : (tm_len m <= N)%nat;
  mo_sorted : StronglySorted before (live_nodes N m);
  mo_nodes : Forall (node_ok m) (live_nodes N m)
}.

Lemma live_nodes_take m : map_ok m -> live_nodes N m = take (tm_len m) (tm_nodes m).
Proof. intros K. unfold live_nodes. f_equal. pose proof (mo_len m K). lia. Qed.

Lemma live_length m : map_ok m -> length (live_nodes N m) = tm_len m.
Proof. intros K. rewrite live_nodes_take by done. rewrite length_take. pose proof (mo_len m K). pose proof (mo_slots m K). lia. Qed.

Lemma live_lookup m i : map_ok m -> (i < tm_len m)%nat -> tm_nodes m !!! i = live_nodes N m !!! i.
Proof.
  intros K Hi. rewrite live_nodes_take by done. rewrite !list_lookup_total_alt. by rewrite lookup_take_lt.
Qed.

Lemma book_size m : map_ok m -> size (book (live_nodes N m)) = tm_len m.
Proof.
  intros K. rewrite <- live_length by done. pose proof (mo_sorted m K) as S. revert S. generalize (live_nodes N m) as L. clear K m.
  induction L as [|n L IH]; intros S; [done|]. inversion S as [|? ? S' F]; subst. pose proof (book_middle [] n L S) as E. cbn [app] in E.
  rewrite E, map_size_insert_None, IH by (done || (apply book_notin; eapply Forall_impl; [exact F|]; unfold before; cbn; lia)). done.
Qed.

Lemma lower_bound_rank m t : map_ok m -> lower_bound N t m = rank t (live_nodes N m).
Proof. intros K. unfold lower_bound. apply bisect_rank. apply ascending_sorted, mo_sorted, K. Qed.

(** What the plan of one end says. *)
Record plan_of (t : Z) (m : TickMap) (v : option (Z * Z)) (p : option Plan) : Prop := {
  po_same : (fun q => (pl_gross q, pl_net q)) <$> p = v;
  po_place : forall q, p = Some q -> pl_index q = rank t (live_nodes N m) /\ pl_present q = (if book (live_nodes N m) !! t is Some _ then true else false)
}.

(** The node the bisection lands on. *)
Lemma node_found m t A mid B : map_ok m -> live_nodes N m = A ++ mid ++ B -> Forall (fun n => t < tn_tick n) B ->
  (mid = [] \/ exists n, mid = [n] /\ tn_tick n = t) ->
  ((length A <? tm_len m)%nat && (tn_tick (tm_nodes m !!! length A) =? t)) = (if mid is [] then false else true) /\
  (forall n, mid = [n] -> tm_nodes m !!! length A = n).
Proof.
  intros K EL HB Hm. pose proof (live_length m K) as Len. rewrite EL, !length_app in Len.
  assert (forall n R, mid ++ B = n :: R -> tm_nodes m !!! length A = n) as Hd.
  { intros n R E. assert (length (mid ++ B) = S (length R)) as El by (by rewrite E). rewrite length_app in El.
    rewrite live_lookup, EL, E by (done || lia). by rewrite list_lookup_total_middle. }
  split; [|intros n ->; by eapply Hd]. destruct Hm as [-> |(n & -> & En)]; cbn [app length] in *.
  - destruct (Nat.ltb_spec (length A) (tm_len m)) as [Hlt|]; [|done]. destruct B as [|b B]; [cbn in *; lia|]. cbn [andb].
    rewrite (Hd b B) by done. apply Forall_cons in HB as [Hb _]. destruct (Z.eqb_spec (tn_tick b) t); [lia|done].
  - destruct (Nat.ltb_spec (length A) (tm_len m)) as [|]; [|lia]. cbn [andb]. rewrite (Hd n B) by done. by destruct (Z.eqb_spec (tn_tick n) t).
Qed.

Lemma plan_end_spec m t d nd : map_ok m -> i128_min < d <= i128_max ->
  match plan_end N t d nd m, move_end (lo_tick m) (hi_tick m) t d nd (book (live_nodes N m)) with
  | Ok p, Ok v => plan_of t m v p
  | Err e, Err e' => e = e'
  | _, _ => False
  end.
Proof.
  intros K Hd. unfold plan_end, move_end. destruct ((t <? lo_tick m) || (hi_tick m <? t)); [by split|].
  cbv zeta. rewrite lower_bound_rank by done. pose proof (mo_sorted m K) as S. pose proof (mo_nodes m K) as F.
  destruct (parted t _ S) as (A & mid & B & EL & HA' & HA & HB & Hm). rewrite <- HA'. destruct (node_found m t A mid B K EL HB Hm) as [-> Hn].
  rewrite EL in S, F. pose proof (parts_lookup t A mid B HA HB Hm S) as Lk. rewrite <- EL in Lk.
  set (pr := if mid is [] then false else true) in *.
  set (node := tm_nodes m !!! length A) in *.
  assert (pr = (if book (live_nodes N m) !! t is Some _ then true else false)) as Epr by (rewrite Lk; unfold pr; destruct Hm as [-> |(n & -> & _)]; done).
  assert ((if pr then (liquidity_gross node, liquidity_net node) else (0, 0)) = default (0, 0) (book (live_nodes N m) !! t)) as Ev.
  { rewrite Lk. unfold pr. destruct Hm as [-> |(n & -> & _)]; [done|]. by rewrite (Hn n). }
  assert (pr && (liquidity_gross node =? 0) = bool_decide (fst <$> book (live_nodes N m) !! t = Some 0)) as ->.
  { rewrite Lk. unfold pr. destruct Hm as [-> |(n & -> & _)]; [done|]. rewrite (Hn n) by done. cbn.
    destruct (Z.eqb_spec (liquidity_gross n) 0) as [E|E]; [rewrite E; by rewrite bool_decide_true|rewrite bool_decide_false; congruence]. }
  case_bool_decide; [done|]. rewrite Ev.
  assert (0 <= fst (default (0, 0) (book (live_nodes N m) !! t)) <= MAX_TICK_GROSS) as Bg.
  { rewrite Lk. destruct Hm as [-> |(n & -> & _)]; [done|]. apply Forall_app in F as [_ F]. apply Forall_cons in F as [(_ & Wn & _) _].
    by apply gross_range. }
  destruct (default (0, 0) _) as [g nt]. cbn [fst] in Bg.
  assert (forall gn, plan_of t m (Some gn) (Some (mkPlan (length A) pr (fst gn) (snd gn)))) as Good.
  { intros gn. split; [by destruct gn|]. intros q [= <-]. split; [exact HA'|exact Epr]. }
  assert (MAX_TICK_GROSS < u128_max) by done. unfold checked_u128, checked_i128.
  set (np := i128_min <=? nt + nd) in *.
  destruct (Z.leb_spec 0 d) as [Hs|Hs].
  - destruct (Z.ltb_spec (g + d) 0); [lia|]. destruct (Z.leb_spec 0 (g + d)); [|lia]. cbn [andb].
    destruct (Z.ltb_spec MAX_TICK_GROSS (g + d)) as [Ho|Ho].
    { destruct (Z.leb_spec (g + d) u128_max); [|done]. by destruct (Z.leb_spec (g + d) MAX_TICK_GROSS); [lia|]. }
    destruct (Z.leb_spec (g + d) u128_max); [|lia]. destruct (Z.leb_spec (g + d) MAX_TICK_GROSS); [|lia].
    destruct np, (nt + nd <=? i128_max); try done. cbn [negb orb andb]. destruct (g + d <? Z.abs (nt + nd)); [done|]. apply (Good (g + d, nt + nd)).
  - rewrite Z.abs_neq by lia. replace (g - - d) with (g + d) by lia. destruct (Z.ltb_spec (g + d) 0) as [Hn0|Hn0].
    { by destruct (Z.leb_spec 0 (g + d)); [lia|]. }
    destruct (Z.leb_spec 0 (g + d)); [|lia]. destruct (Z.leb_spec (g + d) u128_max); [|lia]. destruct (Z.ltb_spec MAX_TICK_GROSS (g + d)); [lia|].
    destruct np, (nt + nd <=? i128_max); try done. cbn [negb orb andb]. destruct (g + d <? Z.abs (nt + nd)); [done|]. apply (Good (g + d, nt + nd)).
Qed.

(** A tick's value, and a gross worth it. *)
Definition value_ok (v : Z * Z) : Prop := 0 <= fst v <= MAX_TICK_GROSS /\ i128_min <= snd v <= i128_max /\ Z.abs (snd v) <= fst v.

Lemma move_end_value m t d nd v : map_ok m -> move_end (lo_tick m) (hi_tick m) t d nd (book (live_nodes N m)) = Ok (Some v) ->
  value_ok v /\ lo_tick m <= t <= hi_tick m /\ (d <> 0 -> book (live_nodes N m) !! t = None -> fst v <> 0).
Proof.
  unfold move_end. intros K. destruct (Z.ltb_spec t (lo_tick m)); [done|]. destruct (Z.ltb_spec (hi_tick m) t); [done|]. cbn [orb].
  case_bool_decide; [done|]. destruct (default _ _) as [g n] eqn:Ed. destruct (Z.ltb_spec (g + d) 0); [done|].
  destruct (Z.ltb_spec MAX_TICK_GROSS (g + d)); [done|]. destruct (Z.leb_spec i128_min (n + nd)); [|done].
  destruct (Z.leb_spec (n + nd) i128_max); [|done]. cbn [negb orb]. destruct (Z.ltb_spec (g + d) (Z.abs (n + nd))); [done|]. intros [= <-]. unfold value_ok. cbn [fst snd].
  split; [lia|]. split; [lia|]. intros Hd En. rewrite En in Ed. cbn in Ed. injection Ed as <- <-. lia.
Qed.

(** Slots moved by one. *)
Lemma copy_down {A} (i n : nat) (l : list A) x : (i < n <= length l)%nat ->
  <[(n - 1)%nat := x]> (copy_within (S i) n i l) = (take i l ++ drop (S i) (take n l)) ++ x :: drop n l.
Proof.
  intros H. unfold copy_within. replace (i + (n - S i))%nat with (n - 1)%nat by lia.
  rewrite take_drop_commute. replace (S i + (n - S i))%nat with n by lia. rewrite app_assoc.
  destruct (lookup_lt_is_Some_2 l (n - 1) ltac:(lia)) as [y Hy]. rewrite (drop_S l y (n - 1) Hy). replace (S (n - 1)) with n by lia.
  rewrite insert_app_r_alt by (rewrite length_app, length_drop, !length_take; lia).
  rewrite length_app, length_drop, !length_take. replace (n - 1 - _)%nat with 0%nat by lia. done.
Qed.

Lemma copy_up {A} (i n : nat) (l : list A) x : (i <= n < length l)%nat ->
  <[i := x]> (copy_within i n (S i) l) = (take i l ++ x :: drop i (take n l)) ++ drop (S n) l.
Proof.
  intros H. unfold copy_within. replace (S i + (n - i))%nat with (S n) by lia.
  rewrite take_drop_commute. replace (i + (n - i))%nat with n by lia.
  destruct (lookup_lt_is_Some_2 l i ltac:(lia)) as [y Hy]. rewrite (take_S_r _ _ _ Hy), <- !app_assoc.
  rewrite insert_app_r_alt by (rewrite length_take; lia). rewrite length_take. replace (i - _)%nat with 0%nat by lia. done.
Qed.

(** The live nodes after an end is written: the node leaves its place, or a
    node of the new gross and net takes it. *)
Lemma commit_end_live m t p : map_ok m -> (pl_present p = true -> (pl_index p < tm_len m)%nat /\ tn_tick (live_nodes N m !!! pl_index p) = t) ->
  (pl_index p <= tm_len m)%nat -> (pl_present p = false -> (tm_len m < N)%nat /\ pl_gross p <> 0) ->
  let L := live_nodes N m in let m' := commit_end t p m in
  length (tm_nodes m') = N /\ (tm_len m' <= N)%nat /\ lo_tick m' = lo_tick m /\ hi_tick m' = hi_tick m /\
  live_nodes N m' = take (pl_index p) L ++ place t (pl_gross p, pl_net p) ++ drop (if pl_present p then S (pl_index p) else pl_index p) L.
Proof.
  intros K Hp Hi Ha L m'. pose proof (mo_slots m K) as Sl. pose proof (mo_len m K) as Le. pose proof (live_nodes_take m K) as EL. fold L in EL.
  pose proof (live_length m K) as Len. fold L in Len. set (i := pl_index p) in *. set (n := tm_len m) in *.
  assert (take i L = take i (tm_nodes m)) as Et by (rewrite EL, take_take; f_equal; lia).
  unfold m', commit_end, place, live_nodes. fold i n. cbn [fst snd]. destruct (pl_present p) eqn:Ep.
  - destruct (Hp eq_refl) as [Hlt Htk]. destruct (Z.eqb_spec (pl_gross p) 0) as [Eg|Eg]; cbn [tm_nodes tm_len lo_tick hi_tick].
    + rewrite copy_down by lia. assert (length (take i (tm_nodes m) ++ drop (S i) (take n (tm_nodes m))) = (n - 1)%nat) as El
        by (rewrite length_app, length_drop, !length_take; lia).
      split_and!; [rewrite length_app, El; cbn; rewrite length_drop; lia|lia|done|done|].
      rewrite Nat.min_l by lia. rewrite <- El at 1. rewrite take_app_length. by rewrite Et, EL.
    + split_and!; [by rewrite length_alter|lia|done|done|]. rewrite Nat.min_l by lia.
      destruct (lookup_lt_is_Some_2 (tm_nodes m) i ltac:(lia)) as [y Hy].
      assert (live_nodes N m !!! i = y) as Ey.
      { fold L. apply list_lookup_total_correct. rewrite EL. rewrite lookup_take_lt by lia. done. }
      rewrite Ey in Htk. erewrite <- (take_drop_middle (tm_nodes m) i y Hy) at 1.
      rewrite alter_app_r_alt by (rewrite length_take; lia). rewrite length_take. replace (i - _)%nat with 0%nat by lia.
      cbn [alter list_alter]. rewrite take_app, length_take. rewrite take_take. replace (Nat.min n i) with i by lia.
      replace (n - Nat.min i (length (tm_nodes m)))%nat with (S (n - S i)) by lia. cbn [take app].
      rewrite Et, EL. f_equal. f_equal; [|by rewrite take_drop_commute; f_equal; f_equal; lia].
      unfold node_at, set_net, set_gross, TickNode_new. cbn [fst snd tn_tick tn_gross liquidity_net]. by rewrite Htk.
  - destruct (Ha eq_refl) as [Hlt Hg]. cbn [tm_nodes tm_len lo_tick hi_tick]. rewrite copy_up by lia.
    assert (length (take i (tm_nodes m) ++ set_gross (pl_gross p) (TickNode_new t (pl_net p)) :: drop i (take n (tm_nodes m))) = S n) as El
      by (rewrite length_app; cbn [length]; rewrite length_drop, !length_take; lia).
    split_and!; [rewrite length_app, El, length_drop; lia|lia|done|done|].
    rewrite Nat.min_l by lia. rewrite <- El at 1. rewrite take_app_length. destruct (Z.eqb_spec (pl_gross p) 0); [done|]. by rewrite Et, EL.
Qed.

(** What writing one end keeps and changes. *)
Record written (m : TickMap) (t : Z) (v : Z * Z) (m' : TickMap) : Prop := {
  wr_ok : map_ok m';
  wr_lo : lo_tick m' = lo_tick m;
  wr_hi : hi_tick m' = hi_tick m;
  wr_book : book (live_nodes N m') = put t v (book (live_nodes N m));
  wr_rank : forall u, u < t -> rank u (live_nodes N m') = rank u (live_nodes N m)
}.

Lemma rank_parts u t A mid B : u <= t -> Forall (fun n => t < tn_tick n) B -> (forall n, n ∈ mid -> tn_tick n = t) ->
  rank u (A ++ mid ++ B) = rank u A.
Proof.
  intros Hu HB Hm. unfold rank. rewrite !filter_app, (filter_none _ mid), (filter_none _ B); [by rewrite !app_nil_r| |].
  - eapply Forall_impl; [exact HB|]. cbn. lia.
  - apply Forall_forall. intros n Hn. rewrite (Hm n Hn). lia.
Qed.

Lemma place_ticks t v n : n ∈ place t v -> tn_tick n = t.
Proof. unfold place. destruct (fst v =? 0); [by intros H%not_elem_of_nil|]. by intros ->%list_elem_of_singleton. Qed.

Lemma commit_end_written m t v p : map_ok m -> plan_of t m (Some v) (Some p) -> value_ok v -> lo_tick m <= t <= hi_tick m ->
  (book (live_nodes N m) !! t = None -> (tm_len m < N)%nat /\ fst v <> 0) -> written m t v (commit_end t p m).
Proof.
  intros K [Pv Pp] Hv Ht Ha. injection Pv as Ev. destruct (Pp p eq_refl) as [Pi Ppr]. clear Pp.
  pose proof (mo_sorted m K) as So. pose proof (mo_nodes m K) as F. pose proof (live_length m K) as Len.
  destruct (parted t _ So) as (A & mid & B & EL & HA' & HA & HB & Hm). rewrite EL in So.
  pose proof (parts_lookup t A mid B HA HB Hm So) as Lk. rewrite <- EL in Lk. rewrite Lk in Ppr. rewrite <- HA' in Pi.
  assert (forall n, n ∈ mid -> tn_tick n = t) as Tm by (destruct Hm as [-> |(n & -> & En)]; [by intros ? ?%not_elem_of_nil|by intros ? ->%list_elem_of_singleton]).
  destruct (commit_end_live m t p K) as (C1 & C2 & C3 & C4 & C5).
  { intros Ep. rewrite Ep in Ppr. destruct Hm as [-> |(n & -> & En)]; [done|]. rewrite Pi, EL in *. rewrite length_app in Len.
    split; [cbn in Len; lia|]. cbn [app]. by rewrite list_lookup_total_middle. }
  { rewrite Pi, <- Len, EL, length_app. lia. }
  { intros Ep. rewrite Ep in Ppr. rewrite <- Ev in Ha. apply Ha. rewrite Lk. destruct Hm as [-> |(n & -> & En)]; done. }
  rewrite Ev, Pi in C5. assert (take (length A) (live_nodes N m) = A) as E1 by (rewrite EL; apply take_app_length).
  assert (drop (if pl_present p then S (length A) else length A) (live_nodes N m) = B) as E2.
  { rewrite Ppr, EL. destruct Hm as [-> |(n & -> & _)]; cbn; [apply drop_app_length|].
    replace (A ++ n :: B) with ((A ++ [n]) ++ B) by (by rewrite <- app_assoc). apply drop_app_length'. rewrite length_app. cbn. lia. }
  rewrite E1, E2 in C5. assert (StronglySorted before (A ++ place t v ++ B)) as S'.
  { apply (parts_sorted t A mid B HA HB Hm So). unfold place. destruct (fst v =? 0); [by left|right; by eexists]. }
  rewrite <- C5 in S'. rewrite EL in F. apply Forall_app in F as [FA F]. apply Forall_app in F as [_ FB].
  assert (forall n, node_ok m n -> node_ok (commit_end t p m) n) as Ok1 by (intros n; unfold node_ok; by rewrite C3, C4).
  split; [split; [exact C1|exact C2|exact S'|]|exact C3|exact C4| |].
  - rewrite C5. apply Forall_app. split; [exact (Forall_impl _ _ _ FA Ok1)|]. apply Forall_app. split; [|exact (Forall_impl _ _ _ FB Ok1)].
    unfold place. destruct (fst v =? 0); [done|]. constructor; [|done]. apply Ok1. split; [exact Ht|]. split; [apply set_gross_words|]. destruct Hv as (V1 & V2 & V3).
    split; [exact V2|]. unfold node_at. rewrite set_gross_gross by done. by right.
  - rewrite C5, EL. apply (parts_put t A mid B HA HB Hm So). apply Hv.
  - intros u Hu. rewrite C5, EL, !rank_parts with (t := t) by (done || lia || apply place_ticks). done.
Qed.

(** A plan of a lower tick outlives the writing of a higher one. *)
Lemma plan_survives m m' t u v w p : written m t v m' -> u < t -> plan_of u m w p -> plan_of u m' w p.
Proof.
  intros Wr Hu [Ps Pp]. split; [done|]. intros q Hq. destruct (Pp q Hq) as [P1 P2].
  rewrite (wr_rank _ _ _ _ Wr) by done. split; [done|]. rewrite P2, (wr_book _ _ _ _ Wr). unfold put.
  destruct (fst v =? 0); [by rewrite lookup_delete_ne by lia|by rewrite lookup_insert_ne by lia].
Qed.

Lemma put_ne t u v M : t <> u -> put t v M !! u = M !! u.
Proof. intros H. unfold put. destruct (fst v =? 0); [by rewrite lookup_delete_ne|by rewrite lookup_insert_ne]. Qed.

Lemma inserts_adds m t v p : plan_of t m v p -> inserts p = adds t v (book (live_nodes N m)).
Proof.
  intros [Ps Pp]. unfold inserts, adds. destruct p as [q|]; cbn in Ps; subst v; [|done]. destruct (Pp q eq_refl) as [_ ->].
  by destruct (_ !! t).
Qed.

Lemma commit_end_grows m t p : (tm_len (commit_end t p m) <= tm_len m + inserts (Some p))%nat.
Proof. unfold commit_end, inserts. destruct (pl_present p); [destruct (pl_gross p =? 0)|]; cbn [tm_len]; lia. Qed.

(** An end is written, or lies outside the coverage. *)
Lemma write_end m t d nd v p : map_ok m -> d <> 0 -> plan_of t m v p ->
  move_end (lo_tick m) (hi_tick m) t d nd (book (live_nodes N m)) = Ok v -> (tm_len m + inserts p <= N)%nat ->
  let m' := match p with Some q => commit_end t q m | None => m end in
  map_ok m' /\ lo_tick m' = lo_tick m /\ hi_tick m' = hi_tick m /\ book (live_nodes N m') = put_end t v (book (live_nodes N m)) /\
  (tm_len m' <= tm_len m + inserts p)%nat /\ (forall u w q, u < t -> plan_of u m w q -> plan_of u m' w q).
Proof.
  intros K Hd Hp Hv Hr m'. pose proof (inserts_adds _ _ _ _ Hp) as Ei. destruct p as [q|]; unfold m'; clear m'.
  2:{ destruct Hp as [Hp _]. cbn in Hp. subst v. split_and!; auto; lia. }
  pose proof Hp as [Hs _]. destruct v as [v|]; [|done]. destruct (move_end_value _ _ _ _ _ K Hv) as (V1 & V2 & V3).
  assert (written m t v (commit_end t q m)) as Wr.
  { apply commit_end_written; [done|done|done|done|]. intros En. split; [|by apply V3]. unfold adds in Ei. rewrite En in Ei. lia. }
  pose proof Wr as [W1 W2 W3 W4 _]. split_and!; try done; [apply commit_end_grows|]. intros u w q' Hu. by eapply plan_survives.
Qed.

Lemma apply_position_spec m tl tu delta : map_ok m -> i128_min <= delta <= i128_max ->
  let '(m', r) := apply_position N tl tu delta m in
  map_ok m' /\ lo_tick m' = lo_tick m /\ hi_tick m' = hi_tick m /\
  (book (live_nodes N m'), r) = position_spec N (lo_tick m) (hi_tick m) tl tu delta (book (live_nodes N m)) /\
  (forall e, r = Err e -> m' = m).
Proof.
  intros K Hd. unfold apply_position, position_spec, has_coverage.
  destruct (Z.leb_spec tu tl) as [|Hlt]; [by split_and!|]. destruct (Z.ltb_spec tl MIN_TICK) as [|_]; [by split_and!|].
  destruct (Z.ltb_spec MAX_TICK tu) as [|_]; [by split_and!|]. destruct (Z.eqb_spec delta i128_min) as [|Hne]; [by split_and!|]. cbn [orb].
  destruct (Z.eqb_spec delta 0) as [|H0]; [by split_and!|]. rewrite <- Z.ltb_antisym. destruct (hi_tick m <? lo_tick m); [by split_and!|]. cbn [orb].
  pose proof (plan_end_spec m tl delta delta K ltac:(lia)) as PL. pose proof (plan_end_spec m tu delta (- delta) K ltac:(lia)) as PU.
  destruct (plan_end N tl delta delta m) as [pl|e], (move_end _ _ tl _ _ _) as [vl|e'] eqn:Ml; try done; [|subst e'; by split_and!].
  destruct (plan_end N tu delta (- delta) m) as [pu|e], (move_end _ _ tu _ _ _) as [vu|e'] eqn:Mu; try done; [|subst e'; by split_and!].
  rewrite book_size, <- (inserts_adds _ _ _ _ PL), <- (inserts_adds _ _ _ _ PU) by done.
  destruct (Nat.ltb_spec N (tm_len m + (inserts pl + inserts pu))) as [|Hroom]; [by split_and!|].
  destruct (write_end m tu delta (- delta) vu pu K H0 PU Mu ltac:(lia)) as (K1 & L1 & H1 & B1 & G1 & S1). cbv zeta in *.
  set (m1 := match pu with Some _ => _ | None => m end) in *.
  assert (move_end (lo_tick m1) (hi_tick m1) tl delta delta (book (live_nodes N m1)) = Ok vl) as Ml1.
  { rewrite L1, H1, B1, <- Ml. unfold move_end. assert (put_end tu vu (book (live_nodes N m)) !! tl = book (live_nodes N m) !! tl) as ->; [|done].
    destruct vu; cbn [put_end]; [apply put_ne; lia|done]. }
  destruct (write_end m1 tl delta delta vl pl K1 H0 (S1 _ _ _ Hlt PL) Ml1 ltac:(lia)) as (K2 & L2 & H2 & B2 & _). cbv zeta in *.
  split_and!; [exact K2|by rewrite L2|by rewrite H2|by rewrite B2, B1|done].
Qed.

(** ** Loading *)

(** The node lists a load accepts. *)
Record loadable (nodes : list TickNode) (lo hi spacing : Z) : Prop := {
  ld_coverage : check_coverage lo hi spacing = Ok tt;
  ld_room : (length nodes <= N)%nat;
  ld_sorted : StronglySorted before nodes;
  ld_nodes : Forall (fun n => lo <= tn_tick n <= hi /\ Z.rem (tn_tick n) spacing = 0 /\
    Z.abs (liquidity_net n) <= max_liquidity_per_tick spacing /\
    (liquidity_gross n = 0 \/ Z.abs (liquidity_net n) <= liquidity_gross n)) nodes
}.

Lemma first_error_none f i n : first_error f i n = None <-> forall j, (i <= j < i + n)%nat -> f j = None.
Proof.
  revert i. induction n as [|k IH]; intros i; cbn [first_error]; [split; [intros _ j Hj; lia|done]|].
  destruct (f i) eqn:E.
  - split; [done|]. intros H. specialize (H i ltac:(lia)). congruence.
  - rewrite IH. split; intros H j Hj; [destruct (Nat.eq_dec j i) as [->|]; [done|]|]; apply H; lia.
Qed.

Lemma node_error_none nodes lo hi sp cap i : node_error nodes lo hi sp cap i = None <->
  ((0 < i)%nat -> tn_tick (nodes !!! (i - 1)%nat) < tn_tick (nodes !!! i)) /\
  lo <= tn_tick (nodes !!! i) <= hi /\ Z.rem (tn_tick (nodes !!! i)) sp = 0 /\ Z.abs (liquidity_net (nodes !!! i)) <= cap /\
  (liquidity_gross (nodes !!! i) = 0 \/ Z.abs (liquidity_net (nodes !!! i)) <= liquidity_gross (nodes !!! i)).
Proof.
  unfold node_error. set (n := nodes !!! i). set (p := tn_tick (nodes !!! (i - 1)%nat)).
  destruct (Nat.ltb_spec 0 i), (Z.eqb_spec (tn_tick n) p), (Z.ltb_spec (tn_tick n) p); cbn [andb];
    try (split; [done|intros (G & _); specialize (G ltac:(lia)); lia]);
    destruct (Z.ltb_spec (tn_tick n) lo), (Z.ltb_spec hi (tn_tick n)), (Z.eqb_spec (Z.rem (tn_tick n) sp) 0); cbn [orb negb];
    try (split; [done|lia]);
    destruct (Z.ltb_spec cap (Z.abs (liquidity_net n))); try (split; [done|lia]);
    destruct (Z.eqb_spec (liquidity_gross n) 0), (Z.ltb_spec (liquidity_gross n) (Z.abs (liquidity_net n))); cbn [andb negb];
    (split; [done || (intros _; split_and!; lia)|done || lia]).
Qed.

(** Ascending neighbours make an ascending list. *)
Lemma neighbours_sorted L : (forall i, (0 < i < length L)%nat -> tn_tick (L !!! (i - 1)%nat) < tn_tick (L !!! i)) -> StronglySorted before L.
Proof.
  intros H. apply ascending_sorted. intros i j Hij. remember (j - i - 1)%nat as d eqn:Ed. revert j Hij Ed.
  induction d as [|d IH]; intros j Hij Ed.
  - specialize (H j ltac:(lia)). by replace (j - 1)%nat with i in H by lia.
  - specialize (IH (j - 1)%nat ltac:(lia) ltac:(lia)). specialize (H j ltac:(lia)). lia.
Qed.

Definition bare (n : TickNode) : Prop := words_ok (tn_gross n) /\ i128_min <= liquidity_net n <= i128_max.

Lemma take_total (l : list TickNode) n i : (i < n)%nat -> take n l !!! i = l !!! i.
Proof. intros H. rewrite !list_lookup_total_alt. by rewrite lookup_take_lt. Qed.

Lemma commit_nodes_spec m n lo hi sp : length (tm_nodes m) = N -> (n <= N)%nat -> Forall bare (take n (tm_nodes m)) -> check_coverage lo hi sp = Ok tt ->
  let '(m', r) := commit_nodes n lo hi sp m in
  (r = Ok tt <-> loadable (take n (tm_nodes m)) lo hi sp) /\
  (r = Ok tt -> map_ok m' /\ live_nodes N m' = take n (tm_nodes m) /\ lo_tick m' = lo /\ hi_tick m' = hi) /\
  (r <> Ok tt -> m' = m).
Proof.
  intros Hl Hn Hb Hc. unfold commit_nodes. cbv zeta. set (f := node_error _ _ _ _ _). set (L := take n (tm_nodes m)) in *.
  assert (length L = n) as Len by (unfold L; rewrite length_take; lia).
  assert (first_error f 0 n = None <-> loadable L lo hi sp) as Iff.
  { rewrite first_error_none. split.
    - intros H. assert (forall i, (i < n)%nat -> _) as H' by (intros i Hi; exact (proj1 (node_error_none _ _ _ _ _ i) (H i ltac:(lia)))).
      split; [done|lia| |].
      + apply neighbours_sorted. intros i Hi. rewrite Len in Hi. unfold L. rewrite !take_total by lia. apply H'; lia.
      + apply Forall_forall. intros x (i & Hi & <-)%list_elem_of_lookup_total. unfold L. rewrite Len in Hi. rewrite take_total by done. by apply H'.
    - intros [_ _ So No] j Hj. apply node_error_none. rewrite <- !(take_total (tm_nodes m) n) by lia. fold L.
      rewrite Forall_forall in No. split; [intros H0; apply ascending_sorted in So; apply So; lia|].
      apply No, list_elem_of_lookup_total. exists j. split; [lia|done]. }
  destruct (first_error f 0 n) as [e|] eqn:E.
  - split_and!; [|done|done]. split; [done|]. intros Ld. by apply Iff in Ld.
  - destruct Iff as [Ld _]. specialize (Ld eq_refl). split_and!; [by split|intros _|done]. pose proof Ld as [_ _ So No].
    assert (live_nodes N (mkTickMap (tm_nodes m) n lo hi) = L) as EL by (unfold live_nodes; cbn [tm_len tm_nodes]; by rewrite Nat.min_l by lia).
    split_and!; [|exact EL|done|done]. split; [done|done|by rewrite EL|]. rewrite EL. rewrite Forall_forall in *. intros x Hx.
    destruct (No x Hx) as (H1 & _ & _ & H2). by destruct (Hb x Hx).
Qed.

Lemma cleared m : length (tm_nodes m) = N -> map_ok (tickmap_clear m) /\ live_nodes N (tickmap_clear m) = [] /\ has_coverage (tickmap_clear m) = false.
Proof. intros Hl. split_and!; [|done|done]. split; [done|cbn; lia|constructor|constructor]. Qed.

(** A load takes the list as it is, or leaves the map cleared. *)
Lemma tickmap_load_spec m nodes lo hi sp : length (tm_nodes m) = N -> Forall bare nodes ->
  let '(m', r) := tickmap_load N nodes lo hi sp m in
  map_ok m' /\ (r = Ok tt <-> loadable nodes lo hi sp) /\
  (r = Ok tt -> live_nodes N m' = nodes /\ lo_tick m' = lo /\ hi_tick m' = hi) /\
  (r <> Ok tt -> live_nodes N m' = [] /\ has_coverage m' = false).
Proof.
  intros Hl Hb. unfold tickmap_load. destruct (cleared m Hl) as (C1 & C2 & C3).
  destruct (check_coverage lo hi sp) as [[]|e] eqn:Ec.
  2:{ split_and!; [done|split; [done|intros [Hc _ _ _]; congruence]|done|done]. }
  destruct (Nat.ltb_spec N (length nodes)) as [Hn|Hn].
  { split_and!; [done|split; [done|intros [_ Hr _ _]; lia]|done|done]. }
  cbn [tickmap_clear tm_nodes]. set (m0 := mkTickMap (nodes ++ drop (length nodes) (tm_nodes m)) 0 1 0).
  assert (length (tm_nodes m0) = N) as L0 by (cbn [m0 tm_nodes]; rewrite length_app, length_drop; lia).
  assert (take (length nodes) (tm_nodes m0) = nodes) as T0 by (apply take_app_length).
  pose proof (commit_nodes_spec m0 (length nodes) lo hi sp L0 Hn ltac:(by rewrite T0) Ec) as CS. rewrite T0 in CS.
  destruct (commit_nodes (length nodes) lo hi sp m0) as [m' r]. destruct CS as (I1 & I2 & I3).
  destruct (cleared m0 L0) as (D1 & D2 & D3). change (tickmap_clear m0) with m0 in *.
  split_and!; [|done|intros Hr; by apply I2|intros Hr; by rewrite (I3 Hr)].
  destruct r as [[]|e]; [by apply I2|]. by rewrite I3.
Qed.

End Map.

(** ** A position undone *)

(** What an end leaves at its tick. *)
Definition left_at (v cur : option (Z * Z)) : option (Z * Z) :=
  match v with Some v => if fst v =? 0 then None else Some v | None => cur end.

Lemma put_end_lookup t v M k : put_end t v M !! k = if decide (k = t) then left_at v (M !! k) else M !! k.
Proof.
  destruct v as [v|]; cbn [put_end left_at]; [|by destruct (decide _)]. unfold put.
  destruct (decide (k = t)) as [->|Hne]; destruct (fst v =? 0); by rewrite ?lookup_delete_eq, ?lookup_insert_eq, ?lookup_delete_ne, ?lookup_insert_ne by done.
Qed.

Definition cell_ok (c : option (Z * Z)) : Prop := forall g n, c = Some (g, n) -> 0 <= g <= MAX_TICK_GROSS /\ i128_min <= n <= i128_max /\ (g = 0 \/ Z.abs n <= g).

Lemma move_end_cell lo hi t d nd M M' : M !! t = M' !! t -> move_end lo hi t d nd M = move_end lo hi t d nd M'.
Proof. intros E. unfold move_end. by rewrite E. Qed.

(** The opposite end restores what was there, and takes a slot only back. *)
Lemma undo_end lo hi t d nd M M1 v : d <> 0 -> cell_ok (M !! t) -> move_end lo hi t d nd M = Ok v -> M1 !! t = left_at v (M !! t) ->
  exists v', move_end lo hi t (- d) (- nd) M1 = Ok v' /\ left_at v' (M1 !! t) = M !! t /\
    adds t v' M1 = match M !! t, M1 !! t with Some _, None => 1%nat | _, _ => 0%nat end /\
    (forall w, v = Some w -> M !! t = None -> fst w <> 0).
Proof.
  intros Hd Hc Hm E1. unfold move_end in *. destruct ((t <? lo) || (hi <? t)).
  { injection Hm as <-. cbn in E1. exists None. rewrite E1. split_and!; [done|done| |done]. cbn. by destruct (M !! t). }
  case_bool_decide as Hz; [done|]. destruct (M !! t) as [[g n]|] eqn:Em; cbn [default from_option id] in *.
  - destruct (Hc g n eq_refl) as (G1 & G2 & G3). assert (g <> 0) as G0 by (intros ->; by apply Hz).
    revert Hm. destruct (Z.ltb_spec (g + d) 0); [done|]. destruct (Z.ltb_spec MAX_TICK_GROSS (g + d)); [done|].
    destruct (Z.leb_spec i128_min (n + nd)); [|done]. destruct (Z.leb_spec (n + nd) i128_max); [|done]. cbn [negb orb].
    destruct (Z.ltb_spec (g + d) (Z.abs (n + nd))); [done|]. intros [= <-]. cbn [left_at fst] in E1.
    assert (exists c, default (0, 0) (M1 !! t) = (g + d, n + nd) /\ c = M1 !! t /\ (fst <$> c <> Some 0)) as (c & Ed & Ec & Ez).
    { exists (M1 !! t). rewrite E1. destruct (Z.eqb_spec (g + d) 0) as [E0|E0]; cbn; split_and!; try done; [f_equal; lia|congruence]. }
    rewrite <- Ec in *. rewrite bool_decide_false by done. rewrite Ed. replace (g + d + - d) with g by lia. replace (n + nd + - nd) with n by lia.
    destruct (Z.ltb_spec g 0); [lia|]. destruct (Z.ltb_spec MAX_TICK_GROSS g); [lia|]. destruct (Z.leb_spec i128_min n); [|lia].
    destruct (Z.leb_spec n i128_max); [|lia]. cbn [negb orb]. destruct (Z.ltb_spec g (Z.abs n)); [lia|].
    eexists. split; [done|]. cbn [left_at fst adds]. destruct (Z.eqb_spec g 0); [done|]. rewrite <- Ec. split_and!; [done|by destruct c|done].
  - rewrite !Z.add_0_l in Hm. revert Hm. destruct (Z.ltb_spec d 0); [done|]. destruct (Z.ltb_spec MAX_TICK_GROSS d); [done|].
    destruct (Z.leb_spec i128_min nd); [|done]. destruct (Z.leb_spec nd i128_max); [|done]. cbn [negb orb].
    destruct (Z.ltb_spec d (Z.abs nd)); [done|]. intros [= <-]. cbn [left_at fst] in E1. destruct (Z.eqb_spec d 0); [done|].
    rewrite E1. rewrite bool_decide_false by (cbn; congruence). cbn [default from_option id]. rewrite !Z.add_opp_diag_r.
    eexists. split; [done|]. cbn [left_at fst adds]. rewrite E1. split_and!; [done|done|]. by intros w [= <-].
Qed.

Lemma put_end_size t v M : (forall w, v = Some w -> M !! t = None -> fst w <> 0) ->
  (size (put_end t v M) + match M !! t, put_end t v M !! t with Some _, None => 1 | _, _ => 0 end = size M + adds t v M)%nat.
Proof.
  intros Hz. destruct v as [v|]; [|cbn; destruct (M !! t); lia]. specialize (Hz v eq_refl). rewrite put_end_lookup, decide_True by done. cbn [left_at put_end adds]. unfold put.
  destruct (Z.eqb_spec (fst v) 0).
  - destruct (M !! t) as [x|] eqn:E; [|by specialize (Hz eq_refl)]. rewrite map_size_delete, E.
    assert (size M <> 0%nat) by (intros H%map_size_empty_iff; subst; by rewrite lookup_empty in E). cbn. lia.
  - destruct (M !! t) as [x|] eqn:E; [rewrite map_size_insert_Some by (by eexists); lia|rewrite map_size_insert_None by done; lia].
Qed.

Lemma position_ok N lo hi tl tu d M M1 : position_spec N lo hi tl tu d M = (M1, Ok tt) -> d <> 0 -> lo <= hi ->
  tl < tu /\ MIN_TICK <= tl /\ tu <= MAX_TICK /\ d <> i128_min /\ exists l u,
    move_end lo hi tl d d M = Ok l /\ move_end lo hi tu d (- d) M = Ok u /\ M1 = put_end tl l (put_end tu u M) /\
    (size M + (adds tl l M + adds tu u M) <= N)%nat.
Proof.
  unfold position_spec. intros H Hd Hc. destruct (Z.leb_spec tu tl); [done|]. destruct (Z.ltb_spec tl MIN_TICK); [done|].
  destruct (Z.ltb_spec MAX_TICK tu); [done|]. destruct (Z.eqb_spec d i128_min); [done|]. cbn [orb] in H.
  destruct (Z.eqb_spec d 0); [done|]. destruct (Z.ltb_spec hi lo); [lia|]. cbn [orb] in H.
  destruct (move_end lo hi tl d d M) as [l|]; [|done]. destruct (move_end lo hi tu d (- d) M) as [u|]; [|done].
  destruct (Nat.ltb_spec N (size M + (adds tl l M + adds tu u M))); [done|]. injection H as <-. split_and!; try lia. by exists l, u.
Qed.

Lemma adds_cell t v M M' : M !! t = M' !! t -> adds t v M = adds t v M'.
Proof. intros E. unfold adds. by rewrite E. Qed.

(** The opposite of a position that was taken restores the map. *)
Lemma position_undone N lo hi tl tu d M M1 : (forall t, cell_ok (M !! t)) -> lo <= hi -> d <> 0 -> d <= i128_max ->
  position_spec N lo hi tl tu d M = (M1, Ok tt) -> position_spec N lo hi tl tu (- d) M1 = (M, Ok tt).
Proof.
  intros Hc Hlh Hd Hx H. destruct (position_ok _ _ _ _ _ _ _ _ H Hd Hlh) as (O1 & O2 & O3 & O4 & l & u & Ml & Mu & E & Hr).
  assert (M1 !! tl = left_at l (M !! tl)) as L1.
  { rewrite E, put_end_lookup, decide_True, put_end_lookup, decide_False by (done || lia). done. }
  assert (M1 !! tu = left_at u (M !! tu)) as U1.
  { rewrite E, put_end_lookup, decide_False, put_end_lookup, decide_True by (done || lia). done. }
  destruct (undo_end lo hi tl d d M M1 l Hd (Hc tl) Ml L1) as (l' & Ml' & Rl & Al & Zl).
  destruct (undo_end lo hi tu d (- d) M M1 u Hd (Hc tu) Mu U1) as (u' & Mu' & Ru & Au & Zu).
  pose proof (put_end_size tu u M Zu) as S1. pose proof (put_end_size tl l (put_end tu u M)) as S2.
  assert (put_end tu u M !! tl = M !! tl) as N1 by (by rewrite put_end_lookup, decide_False by lia).
  rewrite <- E, N1, (adds_cell tl l _ M N1) in S2. specialize (S2 Zl).
  assert (put_end tu u M !! tu = M1 !! tu) as N2 by (by rewrite E, (put_end_lookup tl), decide_False by lia). rewrite N2 in S1.
  unfold position_spec. destruct (Z.leb_spec tu tl); [lia|]. destruct (Z.ltb_spec tl MIN_TICK); [lia|].
  destruct (Z.ltb_spec MAX_TICK tu); [lia|]. destruct (Z.eqb_spec (- d) i128_min) as [Ei|_].
  { unfold i128_min, i128_max in *. lia. }
  cbn [orb]. destruct (Z.eqb_spec (- d) 0); [lia|]. destruct (Z.ltb_spec hi lo); [lia|]. cbn [orb]. rewrite Ml', Mu'.
  destruct (Nat.ltb_spec N (size M1 + (adds tl l' M1 + adds tu u' M1))); [lia|]. f_equal.
  apply map_eq. intros k. rewrite !put_end_lookup. destruct (decide (k = tl)) as [->|K1].
  { rewrite decide_False by lia. exact Rl. }
  destruct (decide (k = tu)) as [->|K2]; [exact Ru|]. rewrite E, !put_end_lookup. by rewrite !decide_False by done.
Qed.
