(* ===== verification/AmmPrice.v ===== *)
(** * Human prices and the active range ([crates/core-amm/src/price.rs]) *)

From S2P Require Import Prelude AmmU256 AmmTick.

#[local] Open Scope machine_scope.

Fixpoint pow10_loop (n : nat) (r : U256) : option U256 :=
  match n with
  | O => Some r
  | S k =>
      match U256.checked_mul r (U256.from_u128 10) with
      | Some v => pow10_loop k v
      | None => None
      end
  end.

Definition pow10 (e : Z) : option U256 := if 77 <? e then None else pow10_loop (Z.to_nat e) U256.ONE.

Definition scale10 (x : U256) (e : Z) (round_up : bool) : option U256 :=
  if 0 <=? e then
    match pow10 e with
    | Some p => U256.checked_mul x p
    | None => None
    end
  else
    match pow10 (Z.abs e) with
    | Some p => if round_up then mul_div_rounding_up x U256.ONE p else mul_div x U256.ONE p
    | None => Some U256.ZERO
    end.

Definition clamp_tick (v : Z) : Z := if v <? MIN_TICK then MIN_TICK else if MAX_TICK <? v then MAX_TICK else v.

Definition range_bounds (tick tick_spacing : Z) : Z * Z :=
  if tick_spacing <=? 0 then (tick, tick)
  else
    let q := tick /t tick_spacing in
    let q := if negb (Z.rem tick tick_spacing =? 0) && (tick <? 0) then q - 1 else q in
    let lo := q * tick_spacing in
    (clamp_tick lo, clamp_tick (lo + tick_spacing)).

Definition price_1e18_u (s : U256) (dec0 dec1 : Z) : U256 :=
  match mul_div s s (U256.pow2 96) with
  | None => U256.MAX
  | Some p96 =>
      let e := 18 + dec0 - dec1 in
      if 0 <=? e then
        match pow10 e with
        | Some p => match mul_div p96 p (U256.pow2 96) with Some v => v | None => U256.MAX end
        | None => U256.MAX
        end
      else
        match pow10 (Z.abs e) with
        | Some p =>
            match U256.checked_mul p (U256.pow2 96) with
            | Some d => match mul_div p96 U256.ONE d with Some v => v | None => U256.MAX end
            | None => U256.ZERO
            end
        | None => U256.ZERO
        end
  end.

Definition price_1e18_from_sqrt (lo hi dec0 dec1 : Z) : Z := U256.saturating_u128 (price_1e18_u (U256.from_u160 lo hi) dec0 dec1).

Definition sqrt_from_price_u (px_1e18 dec0 dec1 : Z) : U256 :=
  let e := 18 + dec0 - dec1 in
  let x :=
    if 0 <=? e then
      match pow10 e with
      | Some p => mul_div (U256.from_u128 px_1e18) (U256.pow2 192) p
      | None => Some U256.ZERO
      end
    else
      match scale10 (U256.from_u128 px_1e18) (- e) false with
      | Some v => U256.checked_mul v (U256.pow2 192)
      | None => None
      end in
  let s := match x with Some v => U256.isqrt v | None => MAX_SQRT end in
  if U256.lt s MIN_SQRT then MIN_SQRT
  else if U256.le MAX_SQRT s then U256.wrapping_sub MAX_SQRT U256.ONE
  else s.

Definition sqrt_from_price_1e18 (px_1e18 dec0 dec1 : Z) : Z * Z :=
  let s := sqrt_from_price_u px_1e18 dec0 dec1 in (U256.lo s, wrap_u32 (U256.hi s)).
