(* ===== verification/AmmSwap.v ===== *)
(** * The tick walk ([crates/core-amm/src/swap.rs])

    The pool contract's swap loop over a local tick map: a step to the next
    initialised tick, the word boundary (V3) or the list's next tick
    (Algebra), at most [MAX_STEPS] of them, never past the coverage. *)

From S2P Require Import Prelude AmmU256 AmmTick AmmStep AmmTypes AmmPrice.

#[local] Open Scope machine_scope.

Definition MAX_STEPS : Z := 512.

Definition floor_div (a b : Z) : Z :=
  let q := a /t b in if negb (Z.rem a b =? 0) && (a <? 0) then q - 1 else q.

(** [cursor]: going up, the first node above [tick]; going down, one past the
    last node at or below it. *)
Definition next_tick (tick spacing : Z) (lte : bool) (nodes : list TickNode) (cursor : nat) : Z * bool :=
  let compressed := floor_div tick spacing in
  if lte then
    let word_min := Z.shiftl (Z.shiftr compressed 8) 8 in
    let c := tn_tick (nodes !!! (cursor - 1)%nat) /t spacing in
    if (0 <? cursor)%nat && (cursor <=? length nodes)%nat && (word_min <=? c)
    then (tn_tick (nodes !!! (cursor - 1)%nat), true)
    else (word_min * spacing, false)
  else
    let c1 := compressed + 1 in
    let word_max := Z.shiftl (Z.shiftr c1 8) 8 + 255 in
    let c := tn_tick (nodes !!! cursor) /t spacing in
    if (cursor <? length nodes)%nat && (c <=? word_max)
    then (tn_tick (nodes !!! cursor), true)
    else (word_max * spacing, false).

Definition next_tick_linked (lte : bool) (nodes : list TickNode) (cursor : nat) (lo_edge hi_edge : Z) : Z * bool :=
  if lte then
    if (0 <? cursor)%nat && (cursor <=? length nodes)%nat then (tn_tick (nodes !!! (cursor - 1)%nat), true) else (lo_edge, false)
  else
    if (cursor <? length nodes)%nat then (tn_tick (nodes !!! cursor), true) else (hi_edge, false).

(** First index whose tick is above [tick]. *)
Definition upper_bound (nodes : list TickNode) (tick : Z) : nat :=
  bisect (length nodes) (fun n => tn_tick n <=? tick) nodes 0 (length nodes).

Definition min_u (a b : U256) : U256 := if U256.le a b then a else b.
Definition max_u (a b : U256) : U256 := if U256.le b a then a else b.

(** The loop's variables. *)
Record Walker := mkWalker {
  w_sqrt : U256;
  w_tick : Z;
  w_liq : Z;
  w_remaining : U256;
  w_in : U256;
  w_out : U256;
  w_fee : U256;
  w_flags : Z;
  w_steps : Z;
  w_cursor : nat
}.

Definition set_flag (f : Z) (w : Walker) : Walker :=
  mkWalker (w_sqrt w) (w_tick w) (w_liq w) (w_remaining w) (w_in w) (w_out w) (w_fee w) (Z.lor (w_flags w) f) (w_steps w) (w_cursor w).

Definition set_steps (n : Z) (w : Walker) : Walker :=
  mkWalker (w_sqrt w) (w_tick w) (w_liq w) (w_remaining w) (w_in w) (w_out w) (w_fee w) (w_flags w) n (w_cursor w).

Definition set_tick (t : Z) (w : Walker) : Walker :=
  mkWalker (w_sqrt w) t (w_liq w) (w_remaining w) (w_in w) (w_out w) (w_fee w) (w_flags w) (w_steps w) (w_cursor w).

(** [None] is zero, as the code's [match] has it. *)
Definition or_zero (x : option U256) : U256 := match x with Some v => v | None => U256.ZERO end.

(** The amounts of one step booked. *)
Definition book_step (exact_in : bool) (st : Step) (w : Walker) : Walker :=
  let spent := U256.wrapping_add (amount_in st) (fee st) in
  let remaining := or_zero (U256.checked_sub (w_remaining w) (if exact_in then spent else amount_out st)) in
  mkWalker (sqrt_next st) (w_tick w) (w_liq w) remaining (U256.wrapping_add (w_in w) spent)
    (U256.wrapping_add (w_out w) (amount_out st)) (U256.wrapping_add (w_fee w) (fee st)) (w_flags w) (w_steps w) (w_cursor w).

(** Liquidity across an initialised tick, and the cursor past it. *)
Definition cross (zero_for_one : bool) (nodes : list TickNode) (w : Walker) : Walker :=
  let c := w_cursor w in
  let idx := if zero_for_one then (c - 1)%nat else c in
  let net := liquidity_net (nodes !!! idx) in
  let net := if zero_for_one then wrap_i128 (- net) else net in
  let '(liq, flags) :=
    if 0 <=? net then (Z.min (w_liq w + net) u128_max, w_flags w)
    else
      let d := Z.abs net in
      if w_liq w <? d then (0, Z.lor (w_flags w) SWAP_FLAG_LIQ_CLAMP) else (w_liq w - d, w_flags w) in
  mkWalker (w_sqrt w) (w_tick w) liq (w_remaining w) (w_in w) (w_out w) (w_fee w) flags (w_steps w)
    (if zero_for_one then (c - 1)%nat else S c).

Section Walk.
Variables (linked : bool) (spacing : Z) (nodes : list TickNode) (lo_e hi_e : Z) (limit : U256) (spec : SwapSpec).

(** One pass of the loop body: [false] is its [break]. *)
Definition walk_step (w : Walker) : Walker * bool :=
  if w_steps w =? MAX_STEPS then (set_flag SWAP_FLAG_STEP_CAP w, false)
  else
    let w := set_steps (w_steps w + 1) w in
    let step_start := w_sqrt w in
    let z := zero_for_one spec in
    let '(nt, initialised) :=
      if linked then next_tick_linked z nodes (w_cursor w) lo_e hi_e
      else next_tick (w_tick w) spacing z nodes (w_cursor w) in
    let nt := if nt <? MIN_TICK then MIN_TICK else if MAX_TICK <? nt then MAX_TICK else nt in
    let tick_sqrt := sqrt_ratio_at_tick nt in
    let target := if z then max_u tick_sqrt limit else min_u tick_sqrt limit in
    match compute_swap_step (w_sqrt w) target (w_liq w) (w_remaining w) (sp_exact_in spec) (sp_fee_pips spec) with
    | None => (set_flag SWAP_FLAG_MATH w, false)
    | Some st =>
        let w := book_step (sp_exact_in spec) st w in
        if decide (w_sqrt w = tick_sqrt) then
          let w := if initialised then cross z nodes w else w in
          (set_tick (if z then nt - 1 else nt) w, true)
        else if decide (w_sqrt w = step_start) then (w, true)
        else (set_tick (tick_at_sqrt_ratio (w_sqrt w)) w, negb linked)
    end.

Fixpoint walk_loop (fuel : nat) (w : Walker) : Walker :=
  match fuel with
  | O => w
  | S f =>
      if U256.is_zero (w_remaining w) || bool_decide (w_sqrt w = limit) then w
      else
        let '(w, go) := walk_step w in
        if go then walk_loop f w else w
  end.

End Walk.

(** The budget, and the pass that finds it spent. *)
Definition WALK_FUEL : nat := 513.

(** The request clamped to the coverage, the edge's price, and whether the
    edge is what binds. *)
Definition walk_limit (z : bool) (lo_e hi_e : Z) (req_limit : U256) : U256 * U256 * bool :=
  if z then
    let edge_sqrt := sqrt_ratio_at_tick lo_e in
    let l := max_u req_limit edge_sqrt in
    (l, edge_sqrt, bool_decide (l = edge_sqrt) && U256.lt req_limit edge_sqrt)
  else
    let edge_sqrt := sqrt_ratio_at_tick hi_e in
    let l := min_u req_limit edge_sqrt in
    (l, edge_sqrt, bool_decide (l = edge_sqrt) && U256.lt edge_sqrt req_limit).

(** The result of the loop's last state. *)
Definition walk_result (state : PoolState) (edges_known : bool) (limit edge_sqrt : U256) (edge_binds : bool) (w : Walker) : SwapResult :=
  let flags := if bool_decide (w_sqrt w = limit) && negb (U256.is_zero (w_remaining w))
               then Z.lor (w_flags w) (if edge_binds then SWAP_FLAG_EDGE else SWAP_FLAG_LIMIT) else w_flags w in
  let after_flags := Z.land (ps_flags state) (255 - POOL_FLAG_EDGE) in
  let after_flags := if negb edges_known && bool_decide (w_sqrt w = edge_sqrt) then Z.lor after_flags POOL_FLAG_EDGE else after_flags in
  let '(sp_lo, sp_hi) := match U256.to_u160 (w_sqrt w) with Some v => v | None => (sqrt_price_lo state, sqrt_price_hi state) end in
  let after := mkPool sp_lo (w_liq w) sp_hi (w_tick w) (ps_block state) (ps_log_index state) (ps_pool state) after_flags in
  let flags := if negb (U256.hi (w_in w) =? 0) || negb (U256.hi (w_out w) =? 0) || negb (U256.hi (w_fee w) =? 0)
               then Z.lor flags SWAP_FLAG_SATURATED else flags in
  mkSwapResult (U256.saturating_u128 (w_in w)) (U256.saturating_u128 (w_out w)) (U256.saturating_u128 (w_fee w)) (w_steps w) flags after.

Definition walk_start (state : PoolState) (nodes : list TickNode) (spec : SwapSpec) : Walker :=
  mkWalker (U256.from_u160 (sqrt_price_lo state) (sqrt_price_hi state)) (ps_tick state) (ps_liquidity state)
    (U256.from_u128 (sp_amount spec)) U256.ZERO U256.ZERO U256.ZERO 0 0 (upper_bound nodes (ps_tick state)).

Definition walk (linked : bool) (state : PoolState) (spacing : Z) (nodes : list TickNode) (lo_edge hi_edge : Z)
    (edges_known : bool) (spec : SwapSpec) : SwapResult :=
  let start_sqrt := U256.from_u160 (sqrt_price_lo state) (sqrt_price_hi state) in
  if (spacing <=? 0) || (hi_edge <? lo_edge) || (ps_tick state <? lo_edge) || (hi_edge <? ps_tick state)
     || U256.lt start_sqrt MIN_SQRT || U256.le MAX_SQRT start_sqrt || (1000000 <=? sp_fee_pips spec)
  then swap_refused state
  else
    let z := zero_for_one spec in
    let lo_e := if lo_edge <? MIN_TICK then MIN_TICK else lo_edge in
    let hi_e := if MAX_TICK <? hi_edge then MAX_TICK else hi_edge in
    let req_limit := U256.from_u160 (limit_lo spec) (limit_hi spec) in
    if (z && U256.le start_sqrt req_limit) || (negb z && U256.le req_limit start_sqrt) then swap_refused state
    else
      let '(limit, edge_sqrt, edge_binds) := walk_limit z lo_e hi_e req_limit in
      walk_result state edges_known limit edge_sqrt edge_binds
        (walk_loop linked spacing nodes lo_e hi_e limit spec WALK_FUEL (walk_start state nodes spec)).

Definition walk_kind (meta : PoolMeta) (state : PoolState) (nodes : list TickNode) (lo_edge hi_edge : Z) (edges_known : bool)
    (spec : SwapSpec) : SwapResult :=
  walk (pm_kind meta =? AMM_KIND_ALGEBRA) state (tick_spacing meta) nodes lo_edge hi_edge edges_known spec.

Definition swap_exact (N : nat) (state : PoolState) (meta : PoolMeta) (map : TickMap) (spec : SwapSpec) : SwapResult :=
  if negb (has_coverage map) then swap_refused state
  else walk_kind meta state (live_nodes N map) (lo_tick map) (hi_tick map) true spec.

(** The two token amounts in token order. *)
Definition by_token (up : bool) (r : SwapResult) : Z * Z * PoolState :=
  if up then (sr_amount_out r, sr_amount_in r, sr_after r) else (sr_amount_in r, sr_amount_out r, sr_after r).

Definition swap_to_target (N : nat) (state : PoolState) (meta : PoolMeta) (map : TickMap) (target_lo target_hi max_token0_raw : Z)
    (up : bool) : Z * Z * PoolState :=
  if (max_token0_raw =? 0) || negb (has_coverage map) then (0, 0, state)
  else
    by_token up (walk_kind meta state (live_nodes N map) (lo_tick map) (hi_tick map) true
      (mkSwapSpec max_token0_raw target_lo target_hi 0 (negb up) (negb up))).

Definition swap_in_range (state : PoolState) (meta : PoolMeta) (target_lo target_hi max_token0_raw : Z) (up : bool)
    : Z * Z * PoolState :=
  if max_token0_raw =? 0 then (0, 0, state)
  else
    let '(lo, hi) := range_bounds (ps_tick state) (tick_spacing meta) in
    by_token up (walk_kind meta state [] lo hi false (mkSwapSpec max_token0_raw target_lo target_hi 0 (negb up) (negb up))).

Definition swap_exact_in_range (state : PoolState) (meta : PoolMeta) (spec : SwapSpec) : SwapResult :=
  let '(lo, hi) := range_bounds (ps_tick state) (tick_spacing meta) in
  walk_kind meta state [] lo hi false spec.
