(* ===== verification/AmmSwapProofs.v ===== *)
(** * The tick walk keeps to its limit and to its amount

    The invariant of the loop: the price stays between the start and the
    limit, what remains and what was taken add up to the amount asked, the
    cursor stands at the tick, and no step reverts. *)

From S2P Require Import Prelude AmmU256 AmmLimbs AmmDivision AmmArith AmmTick AmmTickProofs AmmTickLog AmmStep AmmStepProofs AmmTypes AmmMapProofs AmmPrice AmmSwap.

#[local] Open Scope machine_scope.

(** ** Bisection *)

Lemma upper_bound_prefix nodes t : ascending nodes -> prefix_of (fun n => tn_tick n <=? t) nodes (upper_bound nodes t).
Proof.
  intros Ha. apply bisect_prefix; [|lia|lia|lia|lia].
  intros i j Hij Hj. pose proof (Ha i j Hij). lia.
Qed.

(** ** The tick of a price *)

(** The tick brackets the price; either end may be the price itself, since a
    step down to a ratio leaves the tick below it. *)
Definition tick_of (t : Z) (p : U256) : Prop :=
  MIN_TICK - 1 <= t <= MAX_TICK /\
  (val MIN_SQRT <= val p <= val MAX_SQRT -> val (sqrt_ratio_at_tick t) <= val p <= val (sqrt_ratio_at_tick (t + 1))).

(** Past the ends the ratio stays the end's. *)
Lemma ratio_clamped : sqrt_ratio_at_tick (MIN_TICK - 1) = sqrt_ratio_at_tick MIN_TICK /\
  sqrt_ratio_at_tick (MAX_TICK + 1) = sqrt_ratio_at_tick MAX_TICK.
Proof. by vm_compute. Qed.

Lemma ratio_next t : MIN_TICK - 1 <= t <= MAX_TICK -> val (sqrt_ratio_at_tick t) <= val (sqrt_ratio_at_tick (t + 1)).
Proof.
  intros Ht. destruct ratio_clamped as [C1 C2]. destruct (Z.eq_dec t (MIN_TICK - 1)) as [->|H1].
  { rewrite C1. by replace (MIN_TICK - 1 + 1) with MIN_TICK by lia. }
  destruct (Z.eq_dec t MAX_TICK) as [->|H2]; [by rewrite C2|]. apply sqrt_ratio_mono; lia.
Qed.

Lemma tick_of_ratio (z : bool) nt : in_ticks nt -> tick_of (if z then nt - 1 else nt) (sqrt_ratio_at_tick nt).
Proof.
  unfold in_ticks. intros Hn. split; [destruct z; lia|]. intros _. destruct z.
  - pose proof (ratio_next (nt - 1) ltac:(lia)) as R. replace (nt - 1 + 1) with nt in * by lia. lia.
  - pose proof (ratio_next nt ltac:(lia)). lia.
Qed.

Lemma tick_of_found p : wf p -> tick_of (tick_at_sqrt_ratio p) p.
Proof.
  intros Wp. pose proof (tick_range p Wp) as R. split; [lia|]. intros [H1 H2]. destruct max_sqrt_val as (Wx & _ & Ex).
  destruct (Z.lt_ge_cases (val p) (val MAX_SQRT)) as [Hlt|Hge].
  - pose proof (tick_galois p (tick_at_sqrt_ratio p) Wp ltac:(lia) ltac:(unfold in_ticks; lia)) as G1.
    pose proof (tick_galois p (tick_at_sqrt_ratio p + 1) Wp ltac:(lia) ltac:(unfold in_ticks; lia)) as G2. lia.
  - assert (p = MAX_SQRT) as -> by (apply val_inj; [exact Wp|exact Wx|lia]). assert (tick_at_sqrt_ratio MAX_SQRT = MAX_TICK - 1) as -> by (by vm_compute).
    pose proof (ratio_next (MAX_TICK - 1) ltac:(lia)) as N. replace (MAX_TICK - 1 + 1) with MAX_TICK in * by lia. rewrite Ex in *. lia.
Qed.

(** ** The next tick *)

Section Walk.
Variables (linked : bool) (spacing : Z) (nodes : list TickNode) (lo_e hi_e : Z) (limit : U256) (spec : SwapSpec).

Let z : bool := zero_for_one spec.

Record nodes_ok : Prop := {
  no_ascending : ascending nodes;
  no_domain : forall i, (i < length nodes)%nat -> in_ticks (tn_tick (nodes !!! i));
  no_aligned : linked = false -> forall i, (i < length nodes)%nat -> Z.rem (tn_tick (nodes !!! i)) spacing = 0
}.

Hypothesis Hsp : 0 < spacing.
Hypothesis Hn : nodes_ok.
Hypothesis Hlo : MIN_TICK <= lo_e.
Hypothesis Hhi : hi_e <= MAX_TICK.
Hypothesis Hedge : lo_e <= hi_e.
Hypothesis Hlimit : price limit.
Hypothesis Hedges : if z then val (sqrt_ratio_at_tick lo_e) <= val limit else val limit <= val (sqrt_ratio_at_tick hi_e).
Hypothesis Hfee : 0 <= sp_fee_pips spec < PIPS.

(** The cursor stands at the tick. *)
Definition cursor_ok (tick : Z) (c : nat) : Prop :=
  (c <= length nodes)%nat /\
  if z then (0 < c)%nat -> tn_tick (nodes !!! (c - 1)%nat) <= tick else (c < length nodes)%nat -> tick < tn_tick (nodes !!! c).

Lemma upper_bound_cursor tick : cursor_ok tick (upper_bound nodes tick).
Proof.
  clear Hedges. destruct (upper_bound_prefix nodes tick (no_ascending Hn)) as (H1 & H2 & H3). split; [done|]. destruct z.
  - intros Hc. specialize (H2 (upper_bound nodes tick - 1)%nat ltac:(lia)). lia.
  - intros Hc. specialize (H3 (upper_bound nodes tick) ltac:(lia)). lia.
Qed.

Lemma floor_div_spec a : floor_div a spacing = a / spacing.
Proof.
  unfold floor_div. pose proof (Z.quot_rem' a spacing) as Q. pose proof (Z.div_mod a spacing ltac:(lia)) as D.
  pose proof (Z.mod_pos_bound a spacing Hsp) as M. pose proof (Z.rem_bound_abs a spacing ltac:(lia)) as R.
  destruct (Z.eqb_spec (Z.rem a spacing) 0) as [E|E]; cbn [negb andb].
  - apply (Z.div_unique_pos _ _ _ 0); lia.
  - destruct (Z.ltb_spec a 0) as [Ha|Ha].
    + pose proof (Z.rem_nonpos a spacing ltac:(lia)) as N. apply (Z.div_unique_pos _ _ _ (Z.rem a spacing + spacing)); lia.
    + by rewrite Z.quot_div_nonneg by lia.
Qed.

Lemma aligned_quot i : linked = false -> (i < length nodes)%nat -> tn_tick (nodes !!! i) /t spacing * spacing = tn_tick (nodes !!! i).
Proof.
  intros Hl Hi. pose proof (no_aligned Hn Hl i Hi) as R. pose proof (Z.quot_rem' (tn_tick (nodes !!! i)) spacing). lia.
Qed.

Definition clamp_nt (nt : Z) : Z := if nt <? MIN_TICK then MIN_TICK else if MAX_TICK <? nt then MAX_TICK else nt.

(** The next tick lies ahead: strictly below or at the tick going down,
    strictly above going up (or at the coverage edge); if it is initialised
    it is the node at the cursor, else that node lies further still. *)
Definition ahead (tick : Z) (c : nat) (nt : Z) (initialised : bool) : Prop :=
  in_ticks nt /\
  (if z then nt <= tick \/ nt = lo_e else tick < nt \/ nt = hi_e) /\
  if initialised then
    if z then (0 < c <= length nodes)%nat /\ tn_tick (nodes !!! (c - 1)%nat) = nt else (c < length nodes)%nat /\ tn_tick (nodes !!! c) = nt
  else if z then (0 < c)%nat -> tn_tick (nodes !!! (c - 1)%nat) < nt else (c < length nodes)%nat -> nt < tn_tick (nodes !!! c).

Lemma word_floor x : Z.shiftl (Z.shiftr x 8) 8 <= x < Z.shiftl (Z.shiftr x 8) 8 + 256.
Proof.
  rewrite Z.shiftl_mul_pow2, Z.shiftr_div_pow2 by lia. change (2 ^ 8) with 256.
  pose proof (Z.div_mod x 256 ltac:(lia)). pose proof (Z.mod_pos_bound x 256 ltac:(lia)). lia.
Qed.

Lemma clamp_nt_id t : in_ticks t -> clamp_nt t = t.
Proof. unfold in_ticks, clamp_nt. intros Ht. destruct (Z.ltb_spec t MIN_TICK), (Z.ltb_spec MAX_TICK t); lia. Qed.

Lemma next_tick_ahead tick c : linked = false -> cursor_ok tick c -> MIN_TICK - 1 <= tick <= MAX_TICK ->
  (if z then MIN_TICK <= tick else tick < MAX_TICK) ->
  let '(nt, initialised) := next_tick tick spacing z nodes c in ahead tick c (clamp_nt nt) initialised.
Proof.
  intros Hl [Hc1 Hc2] Ht Hdir. unfold next_tick. rewrite floor_div_spec. pose proof (div_bound tick spacing Hsp) as Db.
  pose proof (Z.mul_succ_div_gt tick spacing Hsp) as Dg. set (q := tick / spacing) in *. pose proof (no_domain Hn) as Dom.
  unfold ahead. destruct z.
  - pose proof (word_floor q) as Wq. set (wm := Z.shiftl (Z.shiftr q 8) 8) in *.
    assert (wm * spacing <= tick) as Hw by nia.
    assert (wm * spacing < MIN_TICK \/ in_ticks (wm * spacing)) as Hcl by (unfold in_ticks; lia).
    assert (in_ticks (clamp_nt (wm * spacing)) /\ clamp_nt (wm * spacing) <= tick /\ wm * spacing <= clamp_nt (wm * spacing)) as (C1 & C2 & C3).
    { destruct Hcl as [Hs|Hi]; [|rewrite clamp_nt_id by done; split_and!; [done|lia|lia]]. unfold clamp_nt. destruct (Z.ltb_spec (wm * spacing) MIN_TICK); [|lia].
      unfold in_ticks, MIN_TICK, MAX_TICK in *. lia. }
    destruct (Nat.ltb_spec 0 c) as [H0|H0]; cbn [andb]; [|split_and!; [done|by left|lia]].
    destruct (Nat.leb_spec c (length nodes)) as [H1|H1]; cbn [andb]; [|lia].
    pose proof (aligned_quot (c - 1) Hl ltac:(lia)) as Aq. specialize (Hc2 H0).
    destruct (Z.leb_spec wm (tn_tick (nodes !!! (c - 1)%nat) /t spacing)) as [Hx|Hx].
    + rewrite clamp_nt_id by (apply Dom; lia). split_and!; [apply Dom; lia|by left|lia|done|done].
    + split_and!; [done|by left|]. intros _. nia.
  - pose proof (word_floor (q + 1)) as Wq. set (wm := Z.shiftl (Z.shiftr (q + 1) 8) 8 + 255) in *.
    assert (tick < wm * spacing) as Hw by nia.
    assert (MAX_TICK < wm * spacing \/ in_ticks (wm * spacing)) as Hcl by (unfold in_ticks; lia).
    assert (in_ticks (clamp_nt (wm * spacing)) /\ tick < clamp_nt (wm * spacing) /\ clamp_nt (wm * spacing) <= wm * spacing) as (C1 & C2 & C3).
    { destruct Hcl as [Hs|Hi]; [|rewrite clamp_nt_id by done; split_and!; [done|lia|lia]]. unfold clamp_nt. destruct (Z.ltb_spec (wm * spacing) MIN_TICK);
      [unfold MIN_TICK, MAX_TICK in *; lia|]. destruct (Z.ltb_spec MAX_TICK (wm * spacing)); [|lia]. unfold in_ticks, MIN_TICK, MAX_TICK in *. lia. }
    destruct (Nat.ltb_spec c (length nodes)) as [H0|H0]; cbn [andb]; [|split_and!; [done|by left|lia]].
    pose proof (aligned_quot c Hl H0) as Aq. specialize (Hc2 H0).
    destruct (Z.leb_spec (tn_tick (nodes !!! c) /t spacing) wm) as [Hx|Hx].
    + rewrite clamp_nt_id by (by apply Dom). split_and!; [by apply Dom|by left|done|done].
    + split_and!; [done|by left|]. intros _. nia.
Qed.

Lemma next_tick_linked_ahead tick c : cursor_ok tick c ->
  let '(nt, initialised) := next_tick_linked z nodes c lo_e hi_e in ahead tick c (clamp_nt nt) initialised.
Proof.
  intros [Hc1 Hc2]. pose proof (no_domain Hn) as Dom. unfold next_tick_linked, ahead. destruct z.
  - destruct (Nat.ltb_spec 0 c) as [H0|H0]; cbn [andb].
    + destruct (Nat.leb_spec c (length nodes)) as [H1|H1]; [|lia]. rewrite clamp_nt_id by (apply Dom; lia).
      split_and!; [apply Dom; lia|left; by apply Hc2|lia|done|done].
    + rewrite clamp_nt_id by (unfold in_ticks; lia). split_and!; [unfold in_ticks; lia|by right|lia].
  - destruct (Nat.ltb_spec c (length nodes)) as [H0|H0].
    + rewrite clamp_nt_id by (by apply Dom). split_and!; [by apply Dom|left; by apply Hc2|done|done].
    + rewrite clamp_nt_id by (unfold in_ticks; lia). split_and!; [unfold in_ticks; lia|by right|lia].
Qed.

(** ** The loop *)

Variables (amount start : Z).
Hypothesis Hamount : u128 amount.
Hypothesis Hstart : if z then val limit <= start else start <= val limit.

(** The half of the tick's bracket the direction needs. *)
Definition tick_side (tick p : Z) : Prop :=
  if z then in_ticks tick /\ val (sqrt_ratio_at_tick tick) <= p
  else in_ticks (tick + 1) /\ p <= val (sqrt_ratio_at_tick (tick + 1)).

Definition STEP_MAX : Z := W * X96 * 1000001.

Definition finished (w : Walker) : Prop := val (w_remaining w) = 0 \/ w_sqrt w = limit.

Record walking (w : Walker) : Prop := {
  wk_price : price (w_sqrt w);
  wk_between : toward z start (val (w_sqrt w)) (val limit);
  wk_liq : u128 (w_liq w);
  wk_wf : wf (w_remaining w) /\ wf (w_in w) /\ wf (w_out w) /\ wf (w_fee w);
  wk_sum : val (w_remaining w) + val (if sp_exact_in spec then w_in w else w_out w) = amount;
  wk_fee : val (w_fee w) <= val (w_in w);
  wk_total : val (w_in w) <= w_steps w * STEP_MAX /\ val (w_out w) <= w_steps w * STEP_MAX;
  wk_steps : 0 <= w_steps w <= MAX_STEPS;
  wk_flags : w_flags w = 0 \/ w_flags w = SWAP_FLAG_LIQ_CLAMP;
  wk_tick : tick_of (w_tick w) (w_sqrt w);
  wk_live : finished w \/ (tick_side (w_tick w) (val (w_sqrt w)) /\ cursor_ok (w_tick w) (w_cursor w))
}.

Lemma walking_remaining w : walking w -> val (w_remaining w) < W.
Proof.
  intros K. destruct (wk_wf w K) as (R & I & O & _). pose proof (wk_sum w K). unfold u128 in Hamount.
  pose proof (val_bound _ I). pose proof (val_bound _ O). destruct (sp_exact_in spec); lia.
Qed.

Lemma totals_fit k x : 0 <= k <= MAX_STEPS -> 0 <= x -> x <= k * STEP_MAX -> x < WW.
Proof.
  intros Hk Hx Hle. assert (MAX_STEPS * STEP_MAX < WW) by (by vm_compute). assert (0 < STEP_MAX) by (by vm_compute).
  assert (k * STEP_MAX <= MAX_STEPS * STEP_MAX) by (apply Z.mul_le_mono_nonneg_r; lia). lia.
Qed.

Lemma add_small a b : wf a -> wf b -> val a + val b < WW ->
  U256.wrapping_add a b = of_z (val a + val b) /\ wf (of_z (val a + val b)).
Proof.
  intros Wa Wb H. pose proof (val_bound a Wa). pose proof (val_bound b Wb).
  rewrite wrapping_add_val, Z.mod_small by (done || lia). split; [done|apply wf_of_z; lia].
Qed.

(** A sum of totals within the budget of one more step. *)
Lemma add_total a b k : wf a -> wf b -> 0 <= k < MAX_STEPS -> val a <= k * STEP_MAX -> val b <= STEP_MAX ->
  U256.wrapping_add a b = of_z (val a + val b) /\ wf (of_z (val a + val b)) /\ val a + val b <= (k + 1) * STEP_MAX.
Proof.
  intros Wa Wb Hk Ha Hb. pose proof (val_bound a Wa). pose proof (val_bound b Wb).
  pose proof (totals_fit (k + 1) (val a + val b) ltac:(lia) ltac:(lia) ltac:(lia)).
  destruct (add_small a b Wa Wb ltac:(lia)). split_and!; [done|done|lia].
Qed.

(** The amounts of a lawful step leave the account balanced. *)
Lemma book_step_walking w target st : walking w -> val (w_remaining w) <> 0 -> w_steps w < MAX_STEPS ->
  price target -> facing z (val (w_sqrt w)) (val target) -> toward z (val (w_sqrt w)) (val target) (val limit) ->
  step_done (w_sqrt w) target (w_remaining w) (w_liq w) (sp_exact_in spec) (sp_fee_pips spec) st ->
  let w' := book_step (sp_exact_in spec) st (set_steps (w_steps w + 1) w) in
  price (w_sqrt w') /\ toward z start (val (w_sqrt w')) (val limit) /\ toward z (val (w_sqrt w)) (val (w_sqrt w')) (val target) /\
  (wf (w_remaining w') /\ wf (w_in w') /\ wf (w_out w') /\ wf (w_fee w')) /\
  val (w_remaining w') + val (if sp_exact_in spec then w_in w' else w_out w') = amount /\
  val (w_fee w') <= val (w_in w') /\
  (val (w_in w') <= w_steps w' * STEP_MAX /\ val (w_out w') <= w_steps w' * STEP_MAX) /\ 0 <= w_steps w' <= MAX_STEPS /\
  (w_sqrt w' <> target -> val (w_remaining w') = 0).
Proof.
  intros K Hrem Hsteps Pt Ft Tt SD w'. destruct K as [Kp Kb Kl (WR & WI & WO & WF) Ks Kf [Ki Ko] Kst _ _ _].
  destruct (sd_wf _ _ _ _ _ _ _ SD) as (Si & So & Sf). destruct (sd_small _ _ _ _ _ _ _ SD) as [Sm1 Sm2].
  pose proof (sd_price _ _ _ _ _ _ _ SD) as Sp. pose proof (sd_toward _ _ _ _ _ _ _ SD) as St0.
  assert (toward z (val (w_sqrt w)) (val (sqrt_next st)) (val target)) as St.
  { clear -Kp Pt Ft St0. destruct Kp as [? ?], Pt as [? ?]. rewrite le_val in St0 by done. unfold facing, toward in *.
    destruct z, (Z.leb_spec (val target) (val (w_sqrt w))); lia. }
  pose proof (sd_out _ _ _ _ _ _ _ SD) as Sout. cbv zeta in Sout. pose proof (sd_spent _ _ _ _ _ _ _ SD) as Ssp. pose proof (sd_all _ _ _ _ _ _ _ SD) as Sall.
  pose proof (val_bound _ Si) as Bi. pose proof (val_bound _ Sf) as Bf. pose proof (val_bound _ So) as Bo. pose proof (val_bound _ WR) as Br.
  assert (W * X96 <= STEP_MAX /\ 1 * STEP_MAX < WW) as [SM SW] by (by vm_compute). fold STEP_MAX in Sm1.
  destruct (add_small (amount_in st) (fee st) Si Sf ltac:(lia)) as [E1 W1].
  destruct (add_total (w_in w) (of_z (val (amount_in st) + val (fee st))) (w_steps w) WI W1 ltac:(lia) Ki) as (E2 & W2 & T2);
    [by rewrite val_of_z|]. rewrite val_of_z in *.
  destruct (add_total (w_out w) (amount_out st) (w_steps w) WO So ltac:(lia) Ko ltac:(lia)) as (E3 & W3 & T3).
  pose proof (val_bound _ WI) as Bwi. pose proof (val_bound _ WF) as Bwf.
  destruct (add_small (w_fee w) (fee st) WF Sf) as [E4 W4].
  { pose proof (val_bound _ W2) as B2. rewrite val_of_z in B2. lia. }
  assert (exists r, 0 <= r /\ or_zero (U256.checked_sub (w_remaining w) (if sp_exact_in spec then U256.wrapping_add (amount_in st) (fee st) else amount_out st))
            = of_z r /\ r = val (w_remaining w) - (if sp_exact_in spec then val (amount_in st) + val (fee st) else val (amount_out st)) /\
          (sqrt_next st <> target -> r = 0)) as (r & R0 & Er & Vr & Zr).
  { assert (sqrt_next st <> target -> val (sqrt_next st) <> val target) as Hne.
    { intros Hn' E. apply Hn'. destruct Sp, Pt. by apply val_inj. }
    destruct (sp_exact_in spec).
    - specialize (Ssp eq_refl). rewrite E1, checked_sub_val, val_of_z by done. destruct (Z.ltb_spec (val (w_remaining w)) (val (amount_in st) + val (fee st))); [lia|].
      eexists. split_and!; [| |done|]; [lia|done|]. intros Hx. specialize (Sall (Hne Hx)). lia.
    - rewrite checked_sub_val by done. destruct (Z.ltb_spec (val (w_remaining w)) (val (amount_out st))); [lia|].
      eexists. split_and!; [| |done|]; [lia|done|]. intros Hx. specialize (Sall (Hne Hx)). lia. }
  unfold w', book_step. cbn [set_steps w_sqrt w_remaining w_in w_out w_fee w_steps]. rewrite Er, E1, E2, E3, E4, !val_of_z.
  assert (wf (of_z r)) as Wrr by (apply wf_of_z; destruct (sp_exact_in spec); lia).
  split_and!; try done; [|destruct (sp_exact_in spec); rewrite val_of_z; lia|lia|lia|lia].
  clear -St Tt Kb. unfold toward in *. destruct z; lia.
Qed.

(** What the loop keeps once it may have ended: everything but the place. *)
Record walked (w : Walker) : Prop := {
  wd_price : price (w_sqrt w);
  wd_between : toward z start (val (w_sqrt w)) (val limit);
  wd_liq : u128 (w_liq w);
  wd_wf : wf (w_remaining w) /\ wf (w_in w) /\ wf (w_out w) /\ wf (w_fee w);
  wd_sum : val (w_remaining w) + val (if sp_exact_in spec then w_in w else w_out w) = amount;
  wd_fee : val (w_fee w) <= val (w_in w);
  wd_steps : 0 <= w_steps w <= MAX_STEPS;
  wd_flags : In (w_flags w) [0; SWAP_FLAG_LIQ_CLAMP; SWAP_FLAG_STEP_CAP; Z.lor SWAP_FLAG_LIQ_CLAMP SWAP_FLAG_STEP_CAP];
  wd_tick : tick_of (w_tick w) (w_sqrt w);
  wd_done : finished w \/ (Z.land (w_flags w) SWAP_FLAG_STEP_CAP <> 0 /\ w_steps w = MAX_STEPS)
}.

Lemma walking_walked w : walking w -> finished w -> walked w.
Proof.
  intros [A B C D E F G H I T J] Fin. split; try done; [|by left].
  destruct I as [-> | ->]; [by left|by right; left].
Qed.

(** The target of a step lies between the price and the limit. *)
Lemma target_between sq p : price sq -> price p -> toward z start (val p) (val limit) ->
  (if z then val sq <= val p \/ val sq <= val limit else val p <= val sq \/ val limit <= val sq) ->
  let target := if z then max_u sq limit else min_u sq limit in
  price target /\ facing z (val p) (val target) /\ toward z (val p) (val target) (val limit) /\ (target = sq \/ target = limit).
Proof.
  intros Ps Pp Tw Hsq. pose proof Hlimit as [Wl Bl]. pose proof Ps as [Ws Bs]. unfold toward, facing, max_u, min_u in *.
  destruct z; rewrite le_val by done.
  - destruct (Z.leb_spec (val limit) (val sq)); split_and!; auto; lia.
  - destruct (Z.leb_spec (val sq) (val limit)); split_and!; auto; lia.
Qed.

Lemma ratio_price t : in_ticks t -> price (sqrt_ratio_at_tick t).
Proof.
  intros Ht. destruct (sqrt_ratio_val t Ht) as [Wt _]. pose proof (sqrt_ratio_range t Ht) as R.
  destruct min_sqrt_val as (_ & Vm & _). destruct max_sqrt_val as (_ & Vx & _). rewrite Vm in R. split; [done|].
  assert (val MAX_SQRT < X160) by (by vm_compute). unfold MIN_SQRT_LO in R. lia.
Qed.

(** The tick ahead has a price on the way, or past the limit. *)
Lemma ahead_price tick c nt ini p : ahead tick c nt ini -> tick_side tick p ->
  if z then val (sqrt_ratio_at_tick nt) <= p \/ val (sqrt_ratio_at_tick nt) <= val limit
  else p <= val (sqrt_ratio_at_tick nt) \/ val limit <= val (sqrt_ratio_at_tick nt).
Proof.
  intros (In & Hd & _) Ht. unfold tick_side, in_ticks in *. pose proof Hedges as He. destruct z.
  - destruct Hd as [Hd| ->]; [left|by right]. destruct Ht as [[T1 T2] T3].
    destruct (sqrt_ratio_mono nt tick ltac:(lia) ltac:(lia) ltac:(lia)) as [M _]. lia.
  - destruct Hd as [Hd| ->]; [left|by right]. destruct Ht as [[T1 T2] T3].
    destruct (sqrt_ratio_mono (tick + 1) nt ltac:(lia) ltac:(lia) ltac:(lia)) as [M _]. lia.
Qed.

(** Past the tick just reached, the price and the cursor still stand at it. *)
Lemma reached_tick w tick c nt (ini : bool) : price (w_sqrt w) -> toward z start (val (w_sqrt w)) (val limit) ->
  w_sqrt w = sqrt_ratio_at_tick nt -> ahead tick c nt ini -> cursor_ok tick c -> w_cursor w = c ->
  let w' := set_tick (if z then nt - 1 else nt) (if ini then cross z nodes w else w) in
  w_sqrt w' = w_sqrt w /\
  (w_sqrt w' = limit \/ (tick_side (w_tick w') (val (w_sqrt w')) /\ cursor_ok (w_tick w') (w_cursor w'))).
Proof.
  intros Pw Tw Es (In & Hd & Hi) [Cl Co] Ec w'.
  assert (w_sqrt w' = w_sqrt w /\ w_tick w' = (if z then nt - 1 else nt) /\
          w_cursor w' = (if ini then if z then (c - 1)%nat else S c else c)) as (E1 & E2 & E3).
  { unfold w', set_tick, cross. rewrite <- Ec. destruct ini; [|done]. cbn [w_sqrt w_tick w_cursor].
    destruct (if 0 <=? _ then _ else _) as [l f]. done. }
  rewrite E1, E2, E3. split; [done|]. pose proof (ratio_price nt In) as Pn. pose proof Hlimit as [Wl Bl]. destruct Pw as [Ww Bw].
  pose proof (no_ascending Hn) as Asc. unfold in_ticks in In.
  unfold toward, tick_side, cursor_ok, in_ticks in *. pose proof Hedges as He. destruct z.
  - destruct (Z.eq_dec nt MIN_TICK) as [E|E].
    { left. apply val_inj; [done|done|]. destruct (sqrt_ratio_mono nt lo_e ltac:(lia) ltac:(lia) ltac:(lia)) as [M _]. rewrite Es in *. lia. }
    right. split; [split; [lia|]|].
    { rewrite Es. destruct (sqrt_ratio_mono (nt - 1) nt ltac:(lia) ltac:(lia) ltac:(lia)) as [M _]. lia. }
    destruct ini; [|split; [done|intros Hc; specialize (Hi Hc); lia]]. split; [lia|]. intros Hc. destruct Hi as [Hc' <-].
    specialize (Asc (c - 1 - 1)%nat (c - 1)%nat ltac:(lia)). lia.
  - destruct (Z.eq_dec nt MAX_TICK) as [E|E].
    { left. apply val_inj; [done|done|]. destruct (sqrt_ratio_mono hi_e nt ltac:(lia) ltac:(lia) ltac:(lia)) as [M _]. rewrite Es in *. lia. }
    right. split; [split; [lia|]|].
    { rewrite Es. destruct (sqrt_ratio_mono nt (nt + 1) ltac:(lia) ltac:(lia) ltac:(lia)) as [M _]. lia. }
    destruct ini; [|split; [done|intros Hc; by apply Hi]]. destruct Hi as [Hc' <-]. split; [lia|]. intros Hc.
    apply Asc. lia.
Qed.

Lemma cross_keeps w : let w' := cross z nodes w in
  w_sqrt w' = w_sqrt w /\ w_remaining w' = w_remaining w /\ w_in w' = w_in w /\ w_out w' = w_out w /\ w_fee w' = w_fee w /\
  w_steps w' = w_steps w /\ (u128 (w_liq w) -> u128 (w_liq w')) /\
  (w_flags w = 0 \/ w_flags w = SWAP_FLAG_LIQ_CLAMP -> w_flags w' = 0 \/ w_flags w' = SWAP_FLAG_LIQ_CLAMP).
Proof.
  unfold cross. set (net := if z then _ else _). pose proof W_big. unfold u128. rewrite u128_max_W.
  destruct (Z.leb_spec 0 net); cbn [w_sqrt w_remaining w_in w_out w_fee w_steps w_liq w_flags].
  { split_and!; auto; lia. }
  destruct (Z.ltb_spec (w_liq w) (Z.abs net)); cbn [w_sqrt w_remaining w_in w_out w_fee w_steps w_liq w_flags].
  - split_and!; auto; [lia|]. intros [-> | ->]; by right.
  - split_and!; auto; lia.
Qed.

Lemma walk_step_walking w : walking w -> ~ finished w -> w_steps w <> MAX_STEPS ->
  let '(w', go) := walk_step linked spacing nodes lo_e hi_e limit spec w in walking w' /\ w_steps w' = w_steps w + 1 /\ (go = false -> finished w').
Proof.
  intros K Hfin Hst. unfold walk_step. destruct (Z.eqb_spec (w_steps w) MAX_STEPS); [done|]. cbv zeta.
  destruct (wk_live w K) as [|[Ts Co]]; [done|]. pose proof (wk_steps w K) as Bst. pose proof K as [Kp Kb Kl (WR & _) _ _ _ _ Kfl Kt _].
  assert (val (w_remaining w) <> 0) as Hrem by (intros E; apply Hfin; by left).
  cbn [set_steps w_sqrt w_tick w_liq w_remaining w_cursor]. fold z.
  assert (let '(nt, ini) := if linked then next_tick_linked z nodes (w_cursor w) lo_e hi_e else next_tick (w_tick w) spacing z nodes (w_cursor w) in
          ahead (w_tick w) (w_cursor w) (clamp_nt nt) ini) as Ah.
  { destruct linked eqn:El; [by apply next_tick_linked_ahead|]. apply next_tick_ahead; [done|done| |]; unfold tick_side, in_ticks in Ts; destruct z; lia. }
  destruct (if linked then _ else _) as [nt0 ini]. fold (clamp_nt nt0). set (nt := clamp_nt nt0) in *.
  pose proof (ratio_price nt (proj1 Ah)) as Pn. pose proof (ahead_price _ _ _ _ _ Ah Ts) as Hside.
  destruct (target_between (sqrt_ratio_at_tick nt) (w_sqrt w) Pn Kp Kb Hside) as (Pt & Ft & Tt & Et). cbv zeta in *.
  set (target := if z then max_u _ _ else min_u _ _) in *.
  destruct (compute_swap_step_law (w_sqrt w) target (w_remaining w) (w_liq w) (sp_exact_in spec) (sp_fee_pips spec) Kp Pt Kl WR
    (walking_remaining w K) Hfee) as (st & -> & SD).
  destruct (book_step_walking w target st K Hrem ltac:(lia) Pt Ft Tt SD) as (P1 & B1 & M1 & W1 & S1 & F1 & T1 & N1 & Z1).
  set (w1 := book_step (sp_exact_in spec) st (set_steps (w_steps w + 1) w)) in *.
  assert (w_liq w1 = w_liq w /\ w_flags w1 = w_flags w /\ w_cursor w1 = w_cursor w /\ w_tick w1 = w_tick w) as (L1 & G1 & C1 & I1) by done.
  destruct (decide (w_sqrt w1 = sqrt_ratio_at_tick nt)) as [E|E].
  - destruct (reached_tick w1 (w_tick w) (w_cursor w) nt ini P1 B1 E Ah Co C1) as [R1 R2].
    destruct (cross_keeps w1) as (X1 & X2 & X3 & X4 & X5 & X6 & X7 & X8).
    set (w2 := if ini then cross z nodes w1 else w1) in *.
    assert (w_sqrt w2 = w_sqrt w1 /\ w_remaining w2 = w_remaining w1 /\ w_in w2 = w_in w1 /\ w_out w2 = w_out w1 /\ w_fee w2 = w_fee w1 /\
      w_steps w2 = w_steps w1 /\ u128 (w_liq w2) /\ (w_flags w2 = 0 \/ w_flags w2 = SWAP_FLAG_LIQ_CLAMP)) as (Y1 & Y2 & Y3 & Y4 & Y5 & Y6 & Y7 & Y8).
    { unfold w2. destruct ini; [split_and!; auto|split_and!; auto]; congruence. }
    assert (finished (set_tick (if z then nt - 1 else nt) w2) \/ _) as Live by (destruct R2 as [R2|R2]; [left; right; exact R2|right; exact R2]).
    split_and!; [|cbn [set_tick w_steps]; by rewrite Y6|done]. split; [..|exact Live]; cbn [set_tick w_sqrt w_tick w_liq w_remaining w_in w_out w_fee w_steps w_flags];
      rewrite ?Y1, ?Y2, ?Y3, ?Y4, ?Y5, ?Y6; try done. rewrite E. apply tick_of_ratio, Ah.
  - assert (finished w1) as Fin.
    { destruct Et as [Et|Et]; [left; apply Z1; congruence|]. destruct (decide (w_sqrt w1 = limit)) as [|Hne]; [by right|].
      left. apply Z1. congruence. }
    destruct (decide (w_sqrt w1 = w_sqrt w)) as [Ek|_].
    + split_and!; [|done|done]. split; try done; [by rewrite I1, Ek|by left].
    + split_and!; [|done|intros _; exact Fin]. split; try done; [apply tick_of_found, P1|left; exact Fin].
Qed.

Lemma walk_loop_walked fuel w : walking w -> MAX_STEPS < w_steps w + Z.of_nat fuel ->
  walked (walk_loop linked spacing nodes lo_e hi_e limit spec fuel w).
Proof.
  revert w. induction fuel as [|f IH]; intros w K Hf; pose proof (wk_steps w K) as Bst; [lia|]. cbn [walk_loop].
  destruct (wk_wf w K) as (WR & _). rewrite is_zero_val by done.
  destruct (Z.eqb_spec (val (w_remaining w)) 0) as [E0|E0]; cbn [orb]; [apply walking_walked; [done|by left]|].
  destruct (decide (w_sqrt w = limit)) as [El|El]; [rewrite bool_decide_true by done; apply walking_walked; [done|by right]|].
  rewrite bool_decide_false by done. assert (~ finished w) as Nf by (intros [?|?]; done).
  destruct (Z.eq_dec (w_steps w) MAX_STEPS) as [Es|Es].
  - unfold walk_step. rewrite Es. change (MAX_STEPS =? MAX_STEPS) with true. cbv iota.
    destruct K as [A B C D E F G H I T J]. split; try done; cbn [set_flag w_flags].
    + destruct I as [-> | ->]; [by right; right; left|by right; right; right; left].
    + right. split; [destruct I as [-> | ->]; done|done].
  - pose proof (walk_step_walking w K Nf Es) as S.
    destruct (walk_step linked spacing nodes lo_e hi_e limit spec w) as [w' go]. destruct S as (K' & Est & Hgo).
    destruct go; [apply IH; [done|lia]|by apply walking_walked; [|apply Hgo]].
Qed.

End Walk.

(** ** The whole swap *)

(** The fields of a state and of a request are of their widths, and the tick
    brackets the price on the side the swap leaves from. *)
Definition pool_wf (s : PoolState) : Prop :=
  u128 (sqrt_price_lo s) /\ in_u32 (sqrt_price_hi s) /\ u128 (ps_liquidity s).
Definition spec_wf (spec : SwapSpec) : Prop :=
  u128 (sp_amount spec) /\ u128 (limit_lo spec) /\ in_u32 (limit_hi spec) /\ 0 <= sp_fee_pips spec.
Definition pool_price (s : PoolState) : Z := val (U256.from_u160 (sqrt_price_lo s) (sqrt_price_hi s)).
Definition asked_limit (spec : SwapSpec) : Z := val (U256.from_u160 (limit_lo spec) (limit_hi spec)).

(** The pool's tick brackets its price. *)
Definition ticked (s : PoolState) : Prop := tick_of (ps_tick s) (U256.from_u160 (sqrt_price_lo s) (sqrt_price_hi s)).

Definition has_flag (flags f : Z) : Prop := Z.land flags f <> 0.

(** What a swap that was not refused did. *)
Record swap_lawful (state : PoolState) (lo_edge hi_edge : Z) (spec : SwapSpec) (r : SwapResult) : Prop := {
  sl_pool : pool_wf (sr_after r) /\ ticked (sr_after r);
  sl_way : toward (zero_for_one spec) (pool_price state) (pool_price (sr_after r)) (asked_limit spec);
  sl_coverage : val (sqrt_ratio_at_tick (Z.max MIN_TICK lo_edge)) <= pool_price (sr_after r) \/ zero_for_one spec = false;
  sl_coverage_up : pool_price (sr_after r) <= val (sqrt_ratio_at_tick (Z.min MAX_TICK hi_edge)) \/ zero_for_one spec = true;
  sl_amount : 0 <= (if sp_exact_in spec then sr_amount_in r else sr_amount_out r) <= sp_amount spec;
  sl_all : (if sp_exact_in spec then sr_amount_in r else sr_amount_out r) = sp_amount spec \/
    has_flag (sr_flags r) SWAP_FLAG_LIMIT \/ has_flag (sr_flags r) SWAP_FLAG_EDGE \/
    (has_flag (sr_flags r) SWAP_FLAG_STEP_CAP /\ sr_steps r = MAX_STEPS);
  sl_fee : sr_fee r <= sr_amount_in r;
  sl_words : u128 (sr_amount_in r) /\ u128 (sr_amount_out r);
  sl_steps : 0 <= sr_steps r <= MAX_STEPS;
  sl_no_revert : ~ has_flag (sr_flags r) SWAP_FLAG_MATH /\ ~ has_flag (sr_flags r) SWAP_FLAG_REFUSED;
  sl_provenance : ps_block (sr_after r) = ps_block state /\ ps_log_index (sr_after r) = ps_log_index state /\ ps_pool (sr_after r) = ps_pool state
}.

Lemma wf_u160 lo hi : u128 lo -> in_u32 hi -> wf (U256.from_u160 lo hi) /\ val (U256.from_u160 lo hi) < X160.
Proof.
  intros Hl Hh. unfold wf, u128, val in *. cbn [U256.from_u160 U256.hi U256.lo]. destruct X_bounds as (_ & _ & _ & X).
  assert (X160 = W * 2 ^ 32) as E by (by vm_compute). rewrite E. change (2 ^ 32) with 4294967296 in *. unfold u32_max in Hh.
  assert (4294967296 < W) by (by vm_compute). nia.
Qed.

(** A price comes back from its two words. *)
Lemma u160_of_price p : price p -> U256.to_u160 p = Some (U256.lo p, U256.hi p) /\ in_u32 (U256.hi p) /\ u128 (U256.lo p).
Proof.
  intros [[Wh Wl] [_ Hp]]. unfold U256.to_u160, u128, val in *. assert (X160 = W * 4294967296) as E by (by vm_compute).
  pose proof W_big. assert (U256.hi p < 4294967296) as Hh by nia. unfold u32_max.
  destruct (Z.leb_spec (U256.hi p) 4294967295); [|lia]. unfold wrap_u32. rewrite Z.mod_small by lia. split; [done|lia].
Qed.

Lemma clear_flags base e sat : In base [0; SWAP_FLAG_LIQ_CLAMP; SWAP_FLAG_STEP_CAP; Z.lor SWAP_FLAG_LIQ_CLAMP SWAP_FLAG_STEP_CAP] ->
  e = 0 \/ e = SWAP_FLAG_LIMIT \/ e = SWAP_FLAG_EDGE -> sat = 0 \/ sat = SWAP_FLAG_SATURATED ->
  let f := Z.lor (Z.lor base e) sat in
  ~ has_flag f SWAP_FLAG_MATH /\ ~ has_flag f SWAP_FLAG_REFUSED /\
  (e <> 0 -> has_flag f SWAP_FLAG_LIMIT \/ has_flag f SWAP_FLAG_EDGE) /\
  (Z.land base SWAP_FLAG_STEP_CAP <> 0 -> has_flag f SWAP_FLAG_STEP_CAP).
Proof.
  intros Hb He Hs. cbn [In] in Hb. unfold has_flag.
  destruct Hb as [<-|[<-|[<-|[<-|[]]]]], He as [-> |[-> | ->]], Hs as [-> | ->]; vm_compute; split_and!; auto; intros; congruence || auto.
Qed.

Lemma lor_if (b : bool) x y : (if b then Z.lor x y else x) = Z.lor x (if b then y else 0).
Proof. destruct b; [done|by rewrite Z.lor_0_r]. Qed.

(** The result of a loop that kept the invariant. *)
Lemma walk_result_lawful state lo_edge hi_edge known spec limit edge binds w :
  pool_wf state -> u128 (sp_amount spec) -> price limit ->
  (if zero_for_one spec then asked_limit spec <= val limit /\ val (sqrt_ratio_at_tick (Z.max MIN_TICK lo_edge)) <= val limit
   else val limit <= asked_limit spec /\ val limit <= val (sqrt_ratio_at_tick (Z.min MAX_TICK hi_edge))) ->
  walked limit spec (sp_amount spec) (pool_price state) w ->
  swap_lawful state lo_edge hi_edge spec (walk_result state known limit edge binds w).
Proof.
  intros Hp Ham Hl Hlim [P B Lq (WR & WI & WO & WF) Sm Fe St Fl Tk Dn]. unfold walk_result.
  destruct (u160_of_price _ P) as (-> & Hhi & Hlo). rewrite is_zero_val by done.
  set (e := if bool_decide (w_sqrt w = limit) && negb (val (w_remaining w) =? 0) then if binds then SWAP_FLAG_EDGE else SWAP_FLAG_LIMIT else 0).
  assert ((if bool_decide (w_sqrt w = limit) && negb (val (w_remaining w) =? 0)
           then Z.lor (w_flags w) (if binds then SWAP_FLAG_EDGE else SWAP_FLAG_LIMIT) else w_flags w) = Z.lor (w_flags w) e) as ->.
  { unfold e. destruct (_ && _); [done|by rewrite Z.lor_0_r]. }
  rewrite lor_if. set (sat := if negb (U256.hi (w_in w) =? 0) || _ || _ then SWAP_FLAG_SATURATED else 0).
  destruct (clear_flags (w_flags w) e sat Fl) as (F1 & F2 & F3 & F4).
  { unfold e. destruct (_ && _); [destruct binds; auto|auto]. } { unfold sat. destruct (_ || _); auto. }
  pose proof (val_bound _ WR) as BR. pose proof (val_bound _ WI) as BI. pose proof (val_bound _ WO) as BO. pose proof (val_bound _ WF) as BF.
  pose proof u128_max_W as UM. unfold u128 in Ham. unfold toward in B.
  assert (val (U256.from_u160 (U256.lo (w_sqrt w)) (U256.hi (w_sqrt w))) = val (w_sqrt w)) as Vs by done.
  split; cbn [sr_after sr_amount_in sr_amount_out sr_fee sr_steps sr_flags ps_block ps_log_index ps_pool];
    unfold pool_price, toward in *; cbn [sqrt_price_lo sqrt_price_hi ps_liquidity]; rewrite ?Vs, ?saturating_val by done.
  - split; [|exact Tk]. unfold pool_wf. cbn [sqrt_price_lo sqrt_price_hi ps_liquidity]. done.
  - destruct (zero_for_one spec); lia.
  - destruct (zero_for_one spec); [left; lia|by right].
  - destruct (zero_for_one spec); [by right|left; lia].
  - destruct (sp_exact_in spec); lia.
  - destruct (Z.eq_dec (val (w_remaining w)) 0) as [E|E].
    { left. destruct (sp_exact_in spec); lia. }
    right. destruct Dn as [[?|Es]|[Ef Es]]; [done| |right; right; split; [by apply F4|done]].
    destruct F3 as [?|?]; [|by left|by right; left]. unfold e. rewrite bool_decide_true by done.
    destruct (Z.eqb_spec (val (w_remaining w)) 0); [done|]. by destruct binds.
  - lia.
  - unfold u128. lia.
  - done.
  - done.
  - done.
Qed.

(** The limit the loop runs to lies between the price and the request, inside
    the coverage. *)
Lemma walk_limit_spec (z : bool) lo_e hi_e req start : in_ticks lo_e -> in_ticks hi_e -> wf req -> val req < X160 -> price start ->
  (if z then val req < val start /\ val (sqrt_ratio_at_tick lo_e) <= val start
   else val start < val req /\ val start <= val (sqrt_ratio_at_tick hi_e)) ->
  let '(limit, _, _) := walk_limit z lo_e hi_e req in
  price limit /\
  (if z then val limit <= val start /\ val req <= val limit /\ val (sqrt_ratio_at_tick lo_e) <= val limit
   else val start <= val limit /\ val limit <= val req /\ val limit <= val (sqrt_ratio_at_tick hi_e)).
Proof.
  intros Hl Hh Wq Bq [Ws Bs] H. unfold walk_limit, max_u, min_u.
  pose proof (ratio_price lo_e Hl) as Pl. pose proof (ratio_price hi_e Hh) as Ph. pose proof Pl as [Wl Bl]. pose proof Ph as [Wh Bh].
  destruct z; rewrite le_val by done.
  - destruct (Z.leb_spec (val (sqrt_ratio_at_tick lo_e)) (val req)) as [G|G]; (split; [|lia]); [split; [done|lia]|done].
  - destruct (Z.leb_spec (val req) (val (sqrt_ratio_at_tick hi_e))) as [G|G]; (split; [|lia]); [split; [done|lia]|done].
Qed.

(** The start of the loop satisfies its invariant. *)
Lemma walk_start_walking linked spacing nodes limit state spec :
  nodes_ok linked spacing nodes -> pool_wf state -> spec_wf spec -> ticked state ->
  U256.from_u160 (sqrt_price_lo state) (sqrt_price_hi state) = limit \/ tick_side spec (ps_tick state) (pool_price state) ->
  0 < pool_price state -> (if zero_for_one spec then val limit <= pool_price state else pool_price state <= val limit) ->
  walking nodes limit spec (sp_amount spec) (pool_price state) (walk_start state nodes spec).
Proof.
  intros Hn (Hlo & Hhi & Hliq) (Ham & _) Htk Hside Hp Hl. destruct (wf_u160 _ _ Hlo Hhi) as [Ws Bs]. pose proof W_big.
  assert (wf U256.ZERO) as W0 by (unfold wf, u128; cbn; lia).
  split; cbn [walk_start w_sqrt w_liq w_remaining w_in w_out w_fee w_steps w_flags w_tick w_cursor]; try done.
  - unfold toward, pool_price in *. destruct (zero_for_one spec); lia.
  - destruct (sp_exact_in spec); rewrite val_u128; apply Z.add_0_r.
  - by left.
  - destruct Hside as [Hside|Hside]; [left; right; exact Hside|right]. split; [exact Hside|]. eapply upper_bound_cursor; exact Hn.
Qed.

(** Between the contract's ends, the side the swap leaves by is bracketed, or
    the price is the end's and there is nowhere to go. *)
Lemma ticked_side spec state : pool_wf state -> ticked state -> val MIN_SQRT <= pool_price state < val MAX_SQRT ->
  (zero_for_one spec = true /\ pool_price state = val MIN_SQRT) \/ tick_side spec (ps_tick state) (pool_price state).
Proof.
  intros (Hlo & Hhi & _) [Rt Bt] Hp. specialize (Bt ltac:(unfold pool_price in Hp; lia)). fold (pool_price state) in Bt.
  pose proof min_sqrt_val as (_ & _ & Em). pose proof max_sqrt_val as (_ & _ & Ex). destruct ratio_clamped as [C1 C2].
  unfold tick_side, in_ticks. destruct (zero_for_one spec).
  - destruct (Z.eq_dec (ps_tick state) (MIN_TICK - 1)) as [E|E]; [|right; lia]. left. split; [done|]. rewrite E in Bt.
    replace (MIN_TICK - 1 + 1) with MIN_TICK in Bt by lia. rewrite Em in Bt. lia.
  - right. destruct (Z.eq_dec (ps_tick state) MAX_TICK) as [E|E]; [rewrite E, Ex in Bt; lia|]. split; lia.
Qed.

(** An upward swap starts below the coverage's upper edge. *)
Definition inside (spec : SwapSpec) (hi_edge : Z) (state : PoolState) : Prop :=
  MIN_TICK <= hi_edge /\
  (zero_for_one spec = false -> ps_tick state < hi_edge \/ pool_price state <= val (sqrt_ratio_at_tick hi_edge)).

Lemma ratio_min_max t : sqrt_ratio_at_tick (Z.min MAX_TICK t) = sqrt_ratio_at_tick t.
Proof.
  destruct (Z.le_gt_cases t MAX_TICK); [by rewrite Z.min_r|]. rewrite Z.min_l by lia. unfold sqrt_ratio_at_tick.
  destruct (Z.ltb_spec t MIN_TICK); [unfold MIN_TICK, MAX_TICK in *; lia|]. by destruct (Z.ltb_spec MAX_TICK t); [|lia].
Qed.

(** Where the coverage ends, the price does not yet. *)
Lemma edge_ahead spec lo_edge hi_edge state : pool_wf state -> ticked state -> inside spec hi_edge state ->
  lo_edge <= ps_tick state <= hi_edge -> val MIN_SQRT <= pool_price state < val MAX_SQRT ->
  in_ticks (Z.max MIN_TICK lo_edge) /\ in_ticks (Z.min MAX_TICK hi_edge) /\
  (if zero_for_one spec then val (sqrt_ratio_at_tick (Z.max MIN_TICK lo_edge)) <= pool_price state
   else pool_price state <= val (sqrt_ratio_at_tick (Z.min MAX_TICK hi_edge))).
Proof.
  intros (Hlo & Hhi & _) [Rt Bt] [Hm Hin] He Hp. specialize (Bt ltac:(unfold pool_price in Hp; lia)). fold (pool_price state) in Bt.
  pose proof min_sqrt_val as (_ & _ & Em). unfold in_ticks. assert (MIN_TICK <= MAX_TICK) by done.
  split; [lia|]. split; [lia|]. destruct (zero_for_one spec).
  - destruct (Z.eq_dec (ps_tick state) (MIN_TICK - 1)) as [E|E]; [rewrite Z.max_l, Em by lia; lia|].
    destruct (sqrt_ratio_mono (Z.max MIN_TICK lo_edge) (ps_tick state)); lia.
  - rewrite ratio_min_max. destruct (Hin eq_refl) as [H1|H1]; [|done]. rewrite <- ratio_min_max.
    destruct (Z.eq_dec (ps_tick state) MAX_TICK) as [E|E]; [rewrite Z.min_l by lia; rewrite E in Bt; destruct ratio_clamped as [_ C2]; rewrite C2 in Bt; lia|].
    destruct (sqrt_ratio_mono (ps_tick state + 1) (Z.min MAX_TICK hi_edge)); lia.
Qed.

Lemma walk_law linked state spacing nodes lo_edge hi_edge known spec :
  nodes_ok linked spacing nodes -> pool_wf state -> spec_wf spec -> ticked state ->
  inside spec hi_edge state ->
  let r := walk linked state spacing nodes lo_edge hi_edge known spec in
  r = swap_refused state \/ swap_lawful state lo_edge hi_edge spec r.
Proof.
  intros Hn Hpw Hsw Htk Hin r. unfold r, walk. clear r. pose proof Hpw as (Hlo & Hhi & Hliq). pose proof Hsw as (Ham & Hll & Hlh & Hfee).
  destruct (wf_u160 _ _ Hlo Hhi) as [Ws Bs]. destruct (wf_u160 _ _ Hll Hlh) as [Wq Bq].
  destruct min_sqrt_val as (Wm & Vm & Em). destruct max_sqrt_val as (Wx & _ & Ex).
  destruct (_ || _ || _ || _ || _ || _ || _) eqn:Eg; [by left|].
  repeat (apply orb_false_iff in Eg as [Eg ?]). apply Z.leb_gt in Eg.
  repeat match goal with H : (_ <=? _) = false |- _ => apply Z.leb_gt in H | H : (_ <? _) = false |- _ => apply Z.ltb_ge in H end.
  match goal with H : U256.lt _ _ = false |- _ => rewrite lt_val in H by done; apply Z.ltb_ge in H; rename H into Hmin end.
  match goal with H : U256.le _ _ = false |- _ => rewrite le_val in H by done; apply Z.leb_gt in H; rename H into Hmax end.
  cbv zeta. set (start := U256.from_u160 (sqrt_price_lo state) (sqrt_price_hi state)) in *.
  set (req := U256.from_u160 (limit_lo spec) (limit_hi spec)) in *.
  assert ((if lo_edge <? MIN_TICK then MIN_TICK else lo_edge) = Z.max MIN_TICK lo_edge) as -> by (destruct (Z.ltb_spec lo_edge MIN_TICK); lia).
  assert ((if MAX_TICK <? hi_edge then MAX_TICK else hi_edge) = Z.min MAX_TICK hi_edge) as -> by (destruct (Z.ltb_spec MAX_TICK hi_edge); lia).
  rewrite !le_val by done. destruct (_ || _) eqn:Er; [by left|]. right. apply orb_false_iff in Er as [Er1 Er2].
  assert (price start) as Ps by (split; [done|unfold MIN_SQRT_LO in Vm; lia]). change (pool_price state) with (val start) in *.
  destruct (edge_ahead spec lo_edge hi_edge state Hpw Htk Hin) as (Il & Ih & Hed); [lia|change (pool_price state) with (val start); lia|].
  pose proof (ticked_side spec state Hpw Htk) as Hside. change (pool_price state) with (val start) in *. specialize (Hside ltac:(lia)).
  pose proof (walk_limit_spec (zero_for_one spec) (Z.max MIN_TICK lo_edge) (Z.min MAX_TICK hi_edge) req start Il Ih Wq Bq Ps) as WL.
  destruct (walk_limit _ _ _ req) as [[limit edge] binds]. destruct WL as [Pl Hl].
  { destruct (zero_for_one spec); cbn [andb negb] in *; lia. }
  apply walk_result_lawful; [done|done|done| |].
  - unfold asked_limit. fold req. destruct (zero_for_one spec); lia.
  - assert (if zero_for_one spec then val limit <= val start else val start <= val limit) as Hl' by (destruct (zero_for_one spec); lia).
    apply walk_loop_walked; [exact Eg|exact Hn|lia|lia| |exact Pl| |unfold PIPS; lia|exact Ham|exact Hl'| |change (w_steps (walk_start state nodes spec)) with 0; unfold MAX_STEPS, WALK_FUEL; lia].
    + destruct Hin as [Hin _], Htk as [Htk _]. assert (MIN_TICK <= MAX_TICK) by done. lia.
    + destruct (zero_for_one spec); lia.
    + apply (walk_start_walking linked spacing); [exact Hn|exact Hpw|exact Hsw|exact Htk| |exact (proj1 (proj2 Ps))|exact Hl'].
      destruct Hside as [[Ez Ep]|Hside]; [left|by right]. rewrite Ez in *. apply val_inj; [exact Ws|exact (proj1 Pl)|].
      pose proof (sqrt_ratio_range _ Il). fold start. lia.
Qed.
