(* ===== verification/AmmFill.v ===== *)
(** * The in-range fill and the arbitrage solve
    ([crates/core-amm/src/fill.rs], [crates/core-amm/src/arb.rs])

    One swap in human units against the active range, its price rounded
    against the taker; and the swap that brings a pool's marginal price to a
    hedge bound, quoted only when it clears gas. *)

From S2P Require Import Prelude AmmU256 AmmTick AmmTypes AmmPrice AmmSwap.

#[local] Open Scope machine_scope.

(** [match e { Some (x) => k, None => return r }]. *)
#[local] Notation "'let!' x ':=' e 'else' r 'in' k" := (match e with Some x => k | None => r end)
  (at level 200, x name, e at level 100, r at level 100, k at level 200, only parsing).

Definition PIPS_FILL : Z := 1000000.
Definition E6 : Z := 1000000.
Definition E12 : Z := 1000000000000.

(** ** Filling *)

Definition RFILL_NONE : Z := 1.
Definition RFILL_NOT_LIVE : Z := 2.
Definition RFILL_LIMIT : Z := 4.
Definition RFILL_PARTIAL : Z := 8.
Definition RFILL_EDGE : Z := 16.
Definition RFILL_MATH : Z := 32.

Record RangeFill := mkRangeFill { rf_qty : Z; rf_px : Z; rf_flags : Z; rf_after : PoolState }.

Definition rfill_none (s : PoolState) (flags : Z) : RangeFill := mkRangeFill 0 0 (Z.lor flags RFILL_NONE) s.

Definition to_i64 (v : U256) : option Z := if negb (U256.hi v =? 0) || (i64_max <? U256.lo v) then None else Some (U256.lo v).
Definition to_u128 (v : U256) : option Z := if negb (U256.hi v =? 0) then None else Some (U256.lo v).

(** [Some (x) if x > 0]. *)
Definition positive (v : option Z) : option Z := match v with Some x => if 0 <? x then Some x else None | None => None end.

Definition opt_bind {A B} (x : option A) (f : A -> option B) : option B := match x with Some v => f v | None => None end.

Definition marginal_limit_1e18 (px_limit_1e6 fee_pips : Z) (sell : bool) : option Z :=
  let px := U256.mul_u128 px_limit_1e6 E12 in
  let keep := PIPS_FILL - fee_pips in
  let v := if sell then mul_div_rounding_up px (U256.from_u128 PIPS_FILL) (U256.from_u128 keep)
           else mul_div px (U256.from_u128 keep) (U256.from_u128 PIPS_FILL) in
  opt_bind v to_u128.

(** The sqrt-price limit: a sell's is nudged up one unit. *)
Definition fill_limit (lim_1e18 d0 d1 : Z) (sell : bool) : U256 :=
  let lim := sqrt_from_price_u lim_1e18 d0 d1 in
  if sell && U256.lt lim (U256.wrapping_sub MAX_SQRT U256.ONE) then U256.wrapping_add lim U256.ONE else lim.

(** What the walk filled, reported in human units. *)
Definition fill_report (state : PoolState) (meta : PoolMeta) (sell : bool) (qty_1e6 px_limit_1e6 : Z) (r : SwapResult) : RangeFill :=
  if negb (Z.land (sr_flags r) (Z.lor SWAP_FLAG_REFUSED (Z.lor SWAP_FLAG_MATH SWAP_FLAG_SATURATED)) =? 0) then rfill_none state RFILL_MATH
  else
    let '(t0, t1) := if sell then (sr_amount_in r, sr_amount_out r) else (sr_amount_out r, sr_amount_in r) in
    if (t0 =? 0) || (t1 =? 0) then rfill_none state RFILL_LIMIT
    else
      let! q := positive (opt_bind (scale10 (U256.from_u128 t0) (6 - dec0 meta) false) to_i64) else rfill_none state RFILL_MATH in
      let! num := scale10 (U256.from_u128 t1) (12 - dec1 meta) (negb sell) else rfill_none state RFILL_MATH in
      let px := if sell then mul_div num U256.ONE (U256.from_u128 q) else mul_div_rounding_up num U256.ONE (U256.from_u128 q) in
      let! px := positive (opt_bind px to_i64) else rfill_none state RFILL_MATH in
      if (sell && (px <? px_limit_1e6)) || (negb sell && (px_limit_1e6 <? px)) then rfill_none state RFILL_LIMIT
      else
        let flags := if q <? qty_1e6 then RFILL_PARTIAL else 0 in
        let flags := if negb (Z.land (sr_flags r) SWAP_FLAG_EDGE =? 0) || negb (Z.land (ps_flags (sr_after r)) POOL_FLAG_EDGE =? 0)
                     then Z.lor flags RFILL_EDGE else flags in
        mkRangeFill q px flags (sr_after r).

Definition fill_in_range (state : PoolState) (meta : PoolMeta) (sell : bool) (qty_1e6 px_limit_1e6 : Z) : RangeFill :=
  if negb (pool_is_live state) || (qty_1e6 <=? 0) || (px_limit_1e6 <=? 0) || (PIPS_FILL <=? pm_fee_pips meta)
  then rfill_none state RFILL_NOT_LIVE
  else
    let! raw0 := positive (opt_bind (scale10 (U256.from_u128 qty_1e6) (dec0 meta - 6) false) to_u128) else rfill_none state RFILL_MATH in
    let! lim_1e18 := positive (marginal_limit_1e18 px_limit_1e6 (pm_fee_pips meta) sell) else rfill_none state RFILL_MATH in
    let lim := fill_limit lim_1e18 (dec0 meta) (dec1 meta) sell in
    let cur := U256.from_u160 (sqrt_price_lo state) (sqrt_price_hi state) in
    let room := if sell then U256.lt lim cur else U256.lt cur lim in
    if negb room || U256.lt lim MIN_SQRT then rfill_none state RFILL_LIMIT
    else
      fill_report state meta sell qty_1e6 px_limit_1e6
        (swap_exact_in_range state meta (mkSwapSpec raw0 (U256.lo lim) (wrap_u32 (U256.hi lim)) (pm_fee_pips meta) sell sell)).

Definition qty_1e6_from_raw (raw dec : Z) : option Z := opt_bind (scale10 (U256.from_u128 raw) (6 - dec) false) to_i64.

Definition limit_px_1e6 (after : PoolState) (meta : PoolMeta) (buy : bool) : option Z :=
  if PIPS_FILL <=? pm_fee_pips meta then None
  else
    let p := price_1e18_u (U256.from_u160 (sqrt_price_lo after) (sqrt_price_hi after)) (dec0 meta) (dec1 meta) in
    let keep := U256.from_u128 (PIPS_FILL - pm_fee_pips meta) in
    let pips := U256.from_u128 PIPS_FILL in
    let! px_1e18 := (if buy then mul_div_rounding_up p pips keep else mul_div p keep pips) else None in
    let e12 := U256.from_u128 E12 in
    let! px := (if buy then mul_div_rounding_up px_1e18 U256.ONE e12 else mul_div px_1e18 U256.ONE e12) else None in
    positive (to_i64 px).

Definition observed_fee_pips (pre : PoolState) (meta : PoolMeta) (amount0 amount1 post_lo post_hi : Z) : option Z :=
  let z := (0 <? amount0) && (amount1 <? 0) in
  let o := (0 <? amount1) && (amount0 <? 0) in
  if negb (z || o) then None
  else
    let amt_in := if z then amount0 else amount1 in
    let '(t0, t1, after) := swap_in_range pre meta post_lo post_hi u128_max o in
    if negb (sqrt_price_lo after =? post_lo) || negb (sqrt_price_hi after =? post_hi) then None
    else
      let pf_in := if z then t0 else t1 in
      if (pf_in =? 0) || (amt_in <? pf_in) then None
      else
        let! pips := mul_div_rounding_up (U256.from_u128 (amt_in - pf_in)) (U256.from_u128 E6) (U256.from_u128 amt_in) else None in
        match to_u128 pips with
        | Some p => if p <? PIPS_FILL then Some p else None
        | None => None
        end.

(** ** Arbitrage *)

Definition t0_to_t1_raw (amount0 px_1e18 d0 d1 : Z) (round_up : bool) : option U256 :=
  scale10 (U256.mul_u128 amount0 px_1e18) (d1 - d0 - 18) round_up.

(** [saturating_u128], then cut at [i64::MAX]. *)
Definition cap_i64 (v : Z) : Z := if i64_max <? v then i64_max else v.

Definition t1_raw_to_usd_1e6 (mag : U256) (negative : bool) (px0_usd_1e6 : Z) (p_1e18 : U256) (d1 : Z) : Z :=
  let num := match scale10 mag (18 - d1) false with Some v => v | None => U256.MAX end in
  let v := match mul_div num (U256.from_u128 px0_usd_1e6) p_1e18 with Some v => U256.saturating_u128 v | None => u128_max end in
  let v := cap_i64 v in
  if negative then - v else v.

(** The edge at the price before the trade, in millionths of a basis point. *)
Definition arb_gross (num den : U256) : Z :=
  match U256.checked_sub num den with
  | Some d => match mul_div d (U256.from_u128 10000000000) den with Some v => cap_i64 (U256.saturating_u128 v) | None => i64_max end
  | None => 0
  end.

Definition arb_cap (meta : PoolMeta) (p : ArbParams) : Z :=
  match scale10 (U256.from_u128 (max_notional_usd_1e6 p)) (dec0 meta) false with
  | Some v => match mul_div v U256.ONE (U256.from_u128 (px0_usd_1e6 p)) with Some q => U256.saturating_u128 q | None => 0 end
  | None => u128_max
  end.

(** The quote of a swap that ran. *)
Definition arb_quote (state : PoolState) (meta : PoolMeta) (p : ArbParams) (buy : bool) (gross : Z) (p_mid target : U256) (r : SwapResult) : ArbQuote :=
  if negb (Z.land (sr_flags r) (Z.lor SWAP_FLAG_REFUSED (Z.lor SWAP_FLAG_MATH SWAP_FLAG_SATURATED)) =? 0) then arb_none state ARB_FLAG_MATH 0
  else
    let edge := negb (Z.land (sr_flags r) SWAP_FLAG_EDGE =? 0) in
    let flags := if edge then ARB_FLAG_MAP_EDGE else 0 in
    let reached := (sqrt_price_lo (sr_after r) =? U256.lo target) && (sqrt_price_hi (sr_after r) =? wrap_u32 (U256.hi target)) in
    let flags := if negb reached && negb edge then Z.lor flags ARB_FLAG_SIZE_CAPPED else flags in
    let '(t0, t1) := if buy then (sr_amount_out r, sr_amount_in r) else (sr_amount_in r, sr_amount_out r) in
    if (t0 =? 0) || (t1 =? 0) then arb_none state flags 0
    else
      let! pm := (if buy then
                    let! rev := t0_to_t1_raw t0 (eff_bid_1e18 p) (dec0 meta) (dec1 meta) false else None in Some (rev, U256.from_u128 t1)
                  else
                    let! cost := t0_to_t1_raw t0 (eff_ask_1e18 p) (dec0 meta) (dec1 meta) true else None in Some (U256.from_u128 t1, cost))
        else arb_none state ARB_FLAG_MATH 0 in
      let '(plus, minus) := pm in
      let '(mag, negative) := match U256.checked_sub plus minus with Some v => (v, false) | None => (U256.wrapping_sub minus plus, true) end in
      let pnl_pre_gas := t1_raw_to_usd_1e6 mag negative (px0_usd_1e6 p) p_mid (dec1 meta) in
      let pnl := pnl_pre_gas -| (if 0 <? gas_usd_1e6 p then gas_usd_1e6 p else 0) in
      if pnl <=? 0 then arb_none state (if 0 <? pnl_pre_gas then Z.lor flags ARB_FLAG_BELOW_GAS else flags) pnl
      else
        let notional := match scale10 (U256.mul_u128 t0 (px0_usd_1e6 p)) (- dec0 meta) false with
                        | Some v => cap_i64 (U256.saturating_u128 v) | None => i64_max end in
        mkArbQuote (if buy then BuyToken0 else SellToken0) flags gross t0 t1 pnl notional (sr_after r).

Definition solve_arb (N : nat) (state : PoolState) (meta : PoolMeta) (map : TickMap) (p : ArbParams) : ArbQuote :=
  if negb (pool_is_live state) || negb (has_coverage map) || (px0_usd_1e6 p <=? 0) || (max_notional_usd_1e6 p <=? 0)
  then arb_none state ARB_FLAG_NOT_LIVE 0
  else
    let f := pm_fee_pips meta in
    if PIPS_FILL <=? f then arb_none state ARB_FLAG_MATH 0
    else
      let p_mid := price_1e18_u (U256.from_u160 (sqrt_price_lo state) (sqrt_price_hi state)) (dec0 meta) (dec1 meta) in
      if U256.is_zero p_mid then arb_none state ARB_FLAG_NOT_LIVE 0
      else
        let one_minus_f := U256.from_u128 (PIPS_FILL - f) in
        let pips := U256.from_u128 PIPS_FILL in
        let bad := arb_none state ARB_FLAG_MATH 0 in
        let! bid_net := U256.checked_mul (U256.from_u128 (eff_bid_1e18 p)) one_minus_f else bad in
        let! mid_x := U256.checked_mul p_mid pips else bad in
        let! mid_net := U256.checked_mul p_mid one_minus_f else bad in
        let! ask_x := U256.checked_mul (U256.from_u128 (eff_ask_1e18 p)) pips else bad in
        let buy := U256.lt mid_x bid_net in
        let sell := negb buy && U256.lt ask_x mid_net in
        if negb buy && negb sell then arb_none state 0 0
        else
          let '(num, den) := if buy then (bid_net, mid_x) else (mid_net, ask_x) in
          let gross := arb_gross num den in
          let! target_px := (if buy then mul_div (U256.from_u128 (eff_bid_1e18 p)) one_minus_f pips
                             else mul_div_rounding_up (U256.from_u128 (eff_ask_1e18 p)) pips one_minus_f) else bad in
          let target := sqrt_from_price_u (U256.saturating_u128 target_px) (dec0 meta) (dec1 meta) in
          let max_t0 := arb_cap meta p in
          if max_t0 =? 0 then arb_none state ARB_FLAG_SIZE_CAPPED 0
          else
            arb_quote state meta p buy gross p_mid target
              (walk_kind meta state (live_nodes N map) (lo_tick map) (hi_tick map) true
                (mkSwapSpec max_t0 (U256.lo target) (wrap_u32 (U256.hi target)) f sell sell)).
