(* ===== verification/AmmFillProofs.v ===== *)
(** * The in-range fill keeps to its order

    Powers of ten are exact, the range of a tick holds it, and the fill is
    the swap that was run: its two legs and the state it leaves are the
    swap's, within the quantity asked and the price limit, reported against
    the taker. *)

From S2P Require Import Prelude AmmU256 AmmLimbs AmmDivision AmmArith AmmTick AmmTickProofs AmmTickLog AmmStep AmmStepProofs.
From S2P Require Import AmmTypes AmmMapProofs AmmPrice AmmSwap AmmSwapProofs AmmFill.

#[local] Open Scope machine_scope.

(** ** Powers of ten *)

Lemma pow10_loop_val n r : wf r -> 0 < val r -> val r * 10 ^ Z.of_nat n < WW -> pow10_loop n r = Some (of_z (val r * 10 ^ Z.of_nat n)).
Proof.
  revert r. induction n as [|k IH]; intros r Wr Hp Hb; cbn [pow10_loop].
  { change (10 ^ Z.of_nat 0) with 1. by rewrite Z.mul_1_r, of_z_val. }
  rewrite Nat2Z.inj_succ, Z.pow_succ_r in * by lia. assert (0 < 10 ^ Z.of_nat k) as Pk by (apply Z.pow_pos_nonneg; lia).
  assert (u128 10) as U10 by done. rewrite checked_mul_val by (done || by apply wf_u128). rewrite val_u128. unfold checked.
  assert (val r * 10 < WW) as Hm by nia. destruct (Z.ltb_spec (val r * 10) WW); [|lia].
  rewrite IH, val_of_z by (try apply wf_of_z; rewrite ?val_of_z; nia). do 2 f_equal. lia.
Qed.

Lemma one_val : wf U256.ONE /\ val U256.ONE = 1.
Proof. pose proof W_big. split; [unfold wf, u128; cbn; lia|by vm_compute]. Qed.

Lemma pow10_val e : 0 <= e <= 77 -> pow10 e = Some (of_z (10 ^ e)) /\ 0 < 10 ^ e < WW.
Proof.
  intros He. assert (10 ^ e <= 10 ^ 77) as Hm by (apply Z.pow_le_mono_r; lia). assert (10 ^ 77 < WW) by (by vm_compute).
  assert (0 < 10 ^ e) by (apply Z.pow_pos_nonneg; lia). split; [|lia].
  unfold pow10. destruct (Z.ltb_spec 77 e); [lia|]. destruct one_val as [W1 V1].
  pose proof (pow10_loop_val (Z.to_nat e) U256.ONE W1 ltac:(lia)) as P. rewrite V1, Z.mul_1_l, Z2Nat.id in P by lia. apply P. lia.
Qed.

(** What the powers of ten do to an amount. *)
Definition scaled_by (x e : Z) (round_up : bool) : Z :=
  if 0 <=? e then x * 10 ^ e else if - e <=? 77 then (if round_up then cdiv x (10 ^ (- e)) else x / 10 ^ (- e)) else 0.

Lemma scale10_val x e up v : wf x -> scale10 x e up = Some v -> wf v /\ val v = scaled_by (val x) e up.
Proof.
  intros Wx. unfold scale10, scaled_by. pose proof (val_bound x Wx) as Bx.
  destruct one_val as [W1 V1]. destruct (Z.leb_spec 0 e) as [He|He].
  - destruct (Z.le_gt_cases e 77) as [Hs|Hs]; [|unfold pow10; destruct (Z.ltb_spec 77 e); [done|lia]].
    destruct (pow10_val e ltac:(lia)) as [-> B]. rewrite checked_mul_val, val_of_z by (done || apply wf_of_z; lia). unfold checked.
    destruct (Z.ltb_spec (val x * 10 ^ e) WW); [|done]. intros [= <-]. rewrite val_of_z. split; [apply wf_of_z; nia|done].
  - rewrite Z.abs_neq by lia. destruct (Z.leb_spec (- e) 77) as [Hs|Hs].
    + destruct (pow10_val (- e) ltac:(lia)) as [-> B]. set (p := 10 ^ (- e)) in *. destruct up.
      * rewrite mul_div_rounding_up_val, val_of_z, V1, Z.mul_1_r by (done || apply wf_of_z; lia). destruct (Z.eqb_spec p 0); [lia|].
        unfold checked. destruct (Z.ltb_spec (cdiv (val x) p) WW); [|done]. intros [= <-]. rewrite val_of_z. split; [|done].
        apply wf_of_z. pose proof (cdiv_nonneg (val x) p ltac:(lia) ltac:(lia)). lia.
      * rewrite mul_div_val, val_of_z, V1, Z.mul_1_r by (done || apply wf_of_z; lia). destruct (Z.eqb_spec p 0); [lia|].
        unfold checked. destruct (Z.ltb_spec (val x / p) WW); [|done]. intros [= <-]. rewrite val_of_z. split; [|done].
        apply wf_of_z. pose proof (Z.div_pos (val x) p ltac:(lia) ltac:(lia)). lia.
    + unfold pow10. destruct (Z.ltb_spec 77 (- e)); [|lia]. intros [= <-]. split; [split; done|done].
Qed.

(** A scaling that yields nothing is past every word. *)
Lemma scale10_none x e : wf x -> scale10 x e false = None -> e <= 77 -> val U256.MAX <= scaled_by (val x) e false.
Proof.
  intros Wx H He. pose proof (val_bound x Wx) as Bx. destruct one_val as [W1 V1]. unfold scale10, scaled_by in *.
  destruct (Z.leb_spec 0 e) as [Hp|Hp].
  - destruct (pow10_val e ltac:(lia)) as [E B]. rewrite E, checked_mul_val, val_of_z in H by (done || apply wf_of_z; lia).
    unfold checked in H. destruct (Z.ltb_spec (val x * 10 ^ e) WW) as [|Hb]; [done|].
    pose proof (eq_refl : val U256.MAX = WW - 1). lia.
  - exfalso. destruct (Z.le_gt_cases (Z.abs e) 77) as [Hs|Hs].
    + destruct (pow10_val (Z.abs e) ltac:(lia)) as [E B].
      rewrite E, mul_div_val, V1, Z.mul_1_r, val_of_z in H by (done || apply wf_of_z; lia).
      destruct (Z.eqb_spec (10 ^ Z.abs e) 0); [lia|]. unfold checked in H.
      pose proof (Z.div_le_upper_bound (val x) (10 ^ Z.abs e) (val x) ltac:(lia) ltac:(nia)).
      destruct (Z.ltb_spec (val x / 10 ^ Z.abs e) WW); [done|lia].
    + unfold pow10 in H. destruct (Z.ltb_spec 77 (Z.abs e)); [done|lia].
Qed.

(** Nothing scales to nothing. *)
Lemma scale10_zero x e : wf x -> val x = 0 -> e <= 77 -> exists v, scale10 x e false = Some v /\ wf v /\ val v = 0.
Proof.
  intros Wx Zx He. assert (exists v, scale10 x e false = Some v) as [v E].
  { unfold scale10. destruct (Z.leb_spec 0 e).
    - destruct (pow10_val e ltac:(lia)) as [-> B]. rewrite checked_mul_val, Zx by (done || apply wf_of_z; lia). by eexists.
    - destruct one_val as [W1 V1]. destruct (Z.le_gt_cases (Z.abs e) 77).
      + destruct (pow10_val (Z.abs e) ltac:(lia)) as [-> B]. rewrite mul_div_val, Zx, val_of_z by (done || apply wf_of_z; lia).
        destruct (Z.eqb_spec (10 ^ Z.abs e) 0); [lia|]. rewrite Z.mul_0_l, Z.div_0_l by lia. by eexists.
      + unfold pow10. destruct (Z.ltb_spec 77 (Z.abs e)); [by eexists|lia]. }
  exists v. split; [done|]. destruct (scale10_val _ _ _ _ Wx E) as [Wv ->]. split; [done|]. rewrite Zx. unfold scaled_by.
  destruct (_ <=? _); [done|]. destruct (_ <=? _); [by rewrite Zdiv_0_l|done].
Qed.

(** Down and back up never gains. *)
Lemma scaled_back x t e : 0 <= t -> t <= scaled_by x e false -> 0 <= x -> scaled_by t (- e) false <= x.
Proof.
  intros Ht Hle Hx. unfold scaled_by in *. destruct (Z.leb_spec 0 e) as [He|He].
  - destruct (Z.leb_spec 0 (- e)) as [Hn|Hn].
    + assert (e = 0) as -> by lia. change (10 ^ 0) with 1 in *. change (10 ^ (- 0)) with 1. lia.
    + rewrite Z.opp_involutive. destruct (Z.leb_spec e 77); [|done]. assert (0 < 10 ^ e) by (apply Z.pow_pos_nonneg; lia).
      apply Z.div_le_upper_bound; lia.
  - destruct (Z.leb_spec 0 (- e)); [|lia]. assert (0 < 10 ^ (- e)) as P by (apply Z.pow_pos_nonneg; lia).
    destruct (Z.leb_spec (- e) 77).
    + pose proof (Z.mul_div_le x (10 ^ (- e)) P). nia.
    + assert (t = 0) as -> by lia. lia.
Qed.

(** ** The range of a tick *)

Lemma clamp_tick_bounds v : MIN_TICK <= clamp_tick v <= MAX_TICK /\ (v <= clamp_tick v \/ clamp_tick v = MAX_TICK) /\ (clamp_tick v <= v \/ clamp_tick v = MIN_TICK).
Proof. unfold clamp_tick, MIN_TICK, MAX_TICK. destruct (Z.ltb_spec v (-887272)), (Z.ltb_spec 887272 v); lia. Qed.

Lemma range_bounds_spec t s : 0 < s -> let '(lo, hi) := range_bounds t s in MIN_TICK <= hi /\ (t < hi \/ hi = MAX_TICK).
Proof.
  intros Hs. unfold range_bounds. destruct (Z.leb_spec s 0); [lia|]. cbv zeta.
  fold (floor_div t s). rewrite (floor_div_spec s Hs t). set (h := t / s * s + s).
  pose proof (clamp_tick_bounds h) as B. assert (t < h) by (unfold h; pose proof (Z.mul_succ_div_gt t s Hs); lia). lia.
Qed.

(** A price past the last ratio is refused. *)
Lemma walk_past linked s sp nodes lo hi known spec : pool_wf s -> val MAX_SQRT <= pool_price s ->
  walk linked s sp nodes lo hi known spec = swap_refused s.
Proof.
  intros (Hl & Hh & _) Hp. destruct (wf_u160 _ _ Hl Hh) as [Ws _]. destruct max_sqrt_val as (Wx & _ & _). unfold walk.
  rewrite (le_val MAX_SQRT) by done. unfold pool_price in Hp.
  destruct (Z.leb_spec (val MAX_SQRT) (val (U256.from_u160 (sqrt_price_lo s) (sqrt_price_hi s)))); [|lia]. by rewrite !orb_true_r.
Qed.

Lemma walk_below linked s sp nodes lo hi known spec : pool_wf s -> pool_price s < val MIN_SQRT ->
  walk linked s sp nodes lo hi known spec = swap_refused s.
Proof.
  intros (Hl & Hh & _) Hp. destruct (wf_u160 _ _ Hl Hh) as [Ws _]. destruct min_sqrt_val as (Wx & _ & _). unfold walk.
  rewrite (lt_val _ MIN_SQRT) by done. unfold pool_price in Hp.
  destruct (Z.ltb_spec (val (U256.from_u160 (sqrt_price_lo s) (sqrt_price_hi s))) (val MIN_SQRT)); [|lia]. by rewrite !orb_true_r.
Qed.

Lemma walk_flat linked s nodes sp lo hi known spec : sp <= 0 -> walk linked s sp nodes lo hi known spec = swap_refused s.
Proof. intros H. unfold walk. by destruct (Z.leb_spec sp 0); [|lia]. Qed.

(** A swap in the active range is refused or lawful. *)
Lemma range_swap_law s meta spec : pool_wf s -> ticked s -> spec_wf spec ->
  let r := swap_exact_in_range s meta spec in
  r = swap_refused s \/ exists lo hi, swap_lawful s lo hi spec r.
Proof.
  intros Hp Ht Hs. unfold swap_exact_in_range. pose proof (range_bounds_spec (ps_tick s) (tick_spacing meta)) as R.
  destruct (range_bounds (ps_tick s) (tick_spacing meta)) as [lo hi]. unfold walk_kind.
  destruct (Z.le_gt_cases (tick_spacing meta) 0) as [|Hsp]; [left; by apply walk_flat|]. destruct (R Hsp) as [R1 R2].
  destruct (Z.le_gt_cases (val MAX_SQRT) (pool_price s)) as [|Hx]; [left; by apply walk_past|].
  destruct (Z.lt_ge_cases (pool_price s) (val MIN_SQRT)) as [|Hn]; [left; by apply walk_below|].
  set (ln := pm_kind meta =? AMM_KIND_ALGEBRA).
  destruct (walk_law ln s (tick_spacing meta) [] lo hi false spec) as [E|L]; try done; [| |by left|right; by exists lo, hi].
  - split; [intros i j H; cbn in H; lia|intros i H; cbn in H; lia|intros _ i H; cbn in H; lia].
  - split; [done|]. intros _. destruct R2 as [ | -> ]; [by left|]. right. destruct max_sqrt_val as (_ & _ & ->). lia.
Qed.

(** ** The fill *)

Definition fill_none (s : PoolState) (f : RangeFill) : Prop := rf_qty f = 0 /\ rf_px f = 0 /\ Z.land (rf_flags f) RFILL_NONE <> 0 /\ rf_after f = s.

Lemma rfill_none_none s flags : fill_none s (rfill_none s flags).
Proof.
  unfold fill_none, rfill_none, RFILL_NONE. cbn [rf_qty rf_px rf_flags rf_after]. split_and!; try done.
  rewrite Z.land_lor_distr_l. intros [_ H]%Z.lor_eq_0_iff. done.
Qed.

(** The marginal price at which the pool, its fee included, meets the limit. *)
Definition fill_margin (meta : PoolMeta) (sell : bool) (px : Z) : Z :=
  let keep := PIPS_FILL - pm_fee_pips meta in
  if sell then cdiv (px * E12 * PIPS_FILL) keep else px * E12 * keep / PIPS_FILL.

(** The swap an order asks for: its quantity in raw token0, given or got
    exactly, at the pool's fee, no further than its limit. *)
Record fill_order (meta : PoolMeta) (sell : bool) (qty px : Z) (spec : SwapSpec) : Prop := {
  fo_amount : sp_amount spec = scaled_by qty (dec0 meta - 6) false;
  fo_fee : sp_fee_pips spec = pm_fee_pips meta;
  fo_way : zero_for_one spec = sell;
  fo_exact : sp_exact_in spec = sell;
  fo_limit : asked_limit spec = val (fill_limit (fill_margin meta sell px) (dec0 meta) (dec1 meta) sell)
}.

(** The report of the swap [r]: its token0 leg as the quantity, its token1 leg
    over that quantity as the price, rounded against the taker, and its pool. *)
Record fill_of (meta : PoolMeta) (sell : bool) (qty : Z) (r : SwapResult) (f : RangeFill) : Prop := {
  fo_sound : Z.land (sr_flags r) (Z.lor SWAP_FLAG_REFUSED (Z.lor SWAP_FLAG_MATH SWAP_FLAG_SATURATED)) = 0;
  fo_after : rf_after f = sr_after r;
  fo_legs : let t0 := if sell then sr_amount_in r else sr_amount_out r in
    let t1 := if sell then sr_amount_out r else sr_amount_in r in
    0 < t0 /\ 0 < t1 /\ rf_qty f = scaled_by t0 (6 - dec0 meta) false /\
    rf_px f = (if sell then scaled_by t1 (12 - dec1 meta) false / rf_qty f else cdiv (scaled_by t1 (12 - dec1 meta) true) (rf_qty f)) /\
    (if sell then rf_px f * rf_qty f <= scaled_by t1 (12 - dec1 meta) false else scaled_by t1 (12 - dec1 meta) true <= rf_px f * rf_qty f);
  fo_flags : Z.land (rf_flags f) RFILL_NONE = 0 /\ (Z.land (rf_flags f) RFILL_PARTIAL <> 0 <-> rf_qty f < qty) /\
    (Z.land (rf_flags f) RFILL_EDGE <> 0 <-> Z.land (sr_flags r) SWAP_FLAG_EDGE <> 0 \/ Z.land (ps_flags (sr_after r)) POOL_FLAG_EDGE <> 0)
}.

(** A fill within its order, made by the swap the order asks for. *)
Record fill_lawful (state : PoolState) (meta : PoolMeta) (sell : bool) (qty px : Z) (f : RangeFill) : Prop := {
  fl_qty : 0 < rf_qty f <= qty;
  fl_px : 0 < rf_px f <= i64_max;
  fl_limit : if sell then px <= rf_px f else rf_px f <= px;
  fl_after : pool_wf (rf_after f) /\ ticked (rf_after f);
  fl_way : if sell then pool_price (rf_after f) <= pool_price state else pool_price state <= pool_price (rf_after f);
  fl_swap : exists spec, fill_order meta sell qty px spec /\ fill_of meta sell qty (swap_exact_in_range state meta spec) f;
  fl_provenance : ps_block (rf_after f) = ps_block state /\ ps_pool (rf_after f) = ps_pool state
}.

Lemma positive_spec v x : positive v = Some x -> v = Some x /\ 0 < x.
Proof. destruct v as [y|]; cbn [positive]; [|done]. destruct (Z.ltb_spec 0 y); [|done]. by intros [= <-]. Qed.

Lemma to_i64_val v x : wf v -> to_i64 v = Some x -> x = val v /\ x <= i64_max.
Proof.
  intros [Hh Hl]. unfold to_i64, val, u128 in *. destruct (Z.eqb_spec (U256.hi v) 0) as [E|]; [|done]. cbn [negb orb].
  destruct (Z.ltb_spec i64_max (U256.lo v)); [done|]. intros [= <-]. rewrite E. lia.
Qed.

Lemma to_u128_val v x : wf v -> to_u128 v = Some x -> x = val v /\ u128 x.
Proof.
  intros [Hh Hl]. unfold to_u128, val in *. destruct (Z.eqb_spec (U256.hi v) 0) as [E|]; [|done]. intros [= <-]. rewrite E. by rewrite Z.mul_0_l, Z.add_0_l.
Qed.

(** A scaled amount read back as a number. *)
Lemma scaled_i64 x e up q : u128 x -> positive (opt_bind (scale10 (U256.from_u128 x) e up) to_i64) = Some q ->
  q = scaled_by x e up /\ 0 < q <= i64_max.
Proof.
  intros Ux [H Hq]%positive_spec. destruct (scale10 (U256.from_u128 x) e up) as [v|] eqn:Ev; [|done]. cbn [opt_bind] in H.
  destruct (scale10_val _ _ _ _ (wf_u128 x Ux) Ev) as [Wv Vv]. rewrite val_u128 in Vv. destruct (to_i64_val v q Wv H) as [-> ?]. by rewrite <- Vv.
Qed.

Lemma fill_flags (a b c : bool) : let f := if a then RFILL_PARTIAL else 0 in let f := if b || c then Z.lor f RFILL_EDGE else f in
  Z.land f RFILL_NONE = 0 /\ (Z.land f RFILL_PARTIAL <> 0 <-> a = true) /\ (Z.land f RFILL_EDGE <> 0 <-> b = true \/ c = true).
Proof. destruct a, b, c; vm_compute; intuition congruence. Qed.

(** The price of a rounded division, both ways. *)
Lemma priced n q px sell : wf n -> 0 < q <= i64_max ->
  positive (opt_bind (if sell : bool then mul_div n U256.ONE (U256.from_u128 q) else mul_div_rounding_up n U256.ONE (U256.from_u128 q)) to_i64) = Some px ->
  0 < px <= i64_max /\ px = (if sell then val n / q else cdiv (val n) q) /\ if sell then px * q <= val n else val n <= px * q.
Proof.
  intros Wn Hq [H Hp]%positive_spec. destruct one_val as [W1 V1]. pose proof (val_bound n Wn).
  assert (u128 q) as Uq by (unfold u128; rewrite W_pow; unfold i64_max in Hq; lia). destruct sell.
  - rewrite mul_div_val, val_u128, V1, Z.mul_1_r in H by (done || by apply wf_u128). destruct (Z.eqb_spec q 0); [lia|].
    unfold checked in H. destruct (Z.ltb_spec (val n / q) WW); [|done]. cbn [opt_bind] in H.
    apply to_i64_val in H as [-> Hm]; [|apply wf_of_z; pose proof (Z.div_pos (val n) q); lia]. rewrite val_of_z in *. split; [lia|].
    split; [done|]. pose proof (Z.mul_div_le (val n) q ltac:(lia)). lia.
  - rewrite mul_div_rounding_up_val, val_u128, V1, Z.mul_1_r in H by (done || by apply wf_u128). destruct (Z.eqb_spec q 0); [lia|].
    unfold checked in H. destruct (Z.ltb_spec (cdiv (val n) q) WW); [|done]. cbn [opt_bind] in H.
    apply to_i64_val in H as [-> Hm]; [|apply wf_of_z; pose proof (cdiv_nonneg (val n) q); lia]. rewrite val_of_z in *. split; [lia|].
    split; [done|]. pose proof (cdiv_bound (val n) q ltac:(lia)). lia.
Qed.

Lemma refused_reported state meta sell qty px : fill_none state (fill_report state meta sell qty px (swap_refused state)).
Proof. apply rfill_none_none. Qed.

Lemma fill_report_law state meta (sell : bool) qty px spec lo hi : 0 < qty -> fill_order meta sell qty px spec ->
  swap_lawful state lo hi spec (swap_exact_in_range state meta spec) ->
  let f := fill_report state meta sell qty px (swap_exact_in_range state meta spec) in fill_none state f \/ fill_lawful state meta sell qty px f.
Proof.
  intros Hq Ho. pose proof Ho as [Ea _ Ez Ex _]. remember (swap_exact_in_range state meta spec) as r eqn:Er. intros L.
  destruct (sl_words _ _ _ _ _ L) as [Bi Bo]. unfold fill_report. destruct (negb _) eqn:Eg; [left; apply rfill_none_none|].
  apply negb_false_iff, Z.eqb_eq in Eg.
  pose proof (sl_amount _ _ _ _ _ L) as Am. pose proof (sl_way _ _ _ _ _ L) as Way. rewrite Ex in Am. rewrite Ez in Way. unfold toward in Way.
  set (tt' := if sell then (sr_amount_in r, sr_amount_out r) else (sr_amount_out r, sr_amount_in r)).
  assert (exists t0 t1, tt' = (t0, t1) /\ u128 t0 /\ u128 t1 /\ t0 <= sp_amount spec /\
    t0 = (if sell then sr_amount_in r else sr_amount_out r) /\ t1 = (if sell then sr_amount_out r else sr_amount_in r))
    as (t0 & t1 & -> & U0 & U1 & Ht & L0 & L1).
  { unfold tt', u128 in *. destruct sell; eexists _, _; (split; [done|]); split_and!; lia. }
  destruct ((t0 =? 0) || (t1 =? 0)) eqn:E0; [left; apply rfill_none_none|]. apply orb_false_iff in E0 as [E0%Z.eqb_neq E1%Z.eqb_neq].
  destruct (positive (opt_bind (scale10 (U256.from_u128 t0) _ _) to_i64)) as [q|] eqn:Eq; [|left; apply rfill_none_none].
  destruct (scaled_i64 _ _ _ _ U0 Eq) as [Vq Bq].
  destruct (scale10 (U256.from_u128 t1) (12 - dec1 meta) (negb sell)) as [n|] eqn:En; [|left; apply rfill_none_none].
  destruct (scale10_val _ _ _ _ (wf_u128 t1 U1) En) as [Wn Vn]. rewrite val_u128 in Vn.
  destruct (positive (opt_bind (if sell then mul_div n U256.ONE (U256.from_u128 q) else mul_div_rounding_up n U256.ONE (U256.from_u128 q)) to_i64)) as [p|] eqn:Ep; [|left; apply rfill_none_none].
  destruct (priced n q p sell Wn Bq Ep) as (Bp & Vp & Hw). destruct ((sell && (p <? px)) || (negb sell && (px <? p))) eqn:El; [left; apply rfill_none_none|].
  right. apply orb_false_iff in El as [El1 El2]. pose proof (fill_flags (q <? qty) (negb (Z.land (sr_flags r) SWAP_FLAG_EDGE =? 0))
    (negb (Z.land (ps_flags (sr_after r)) POOL_FLAG_EDGE =? 0))) as Fl. cbv zeta in *. destruct Fl as (F1 & F2 & F3).
  destruct (sl_provenance _ _ _ _ _ L) as (Pb & _ & Pp).
  split; cbn [rf_qty rf_px rf_flags rf_after].
  - split; [lia|]. rewrite Vq. replace (6 - dec0 meta) with (- (dec0 meta - 6)) by lia. unfold u128 in U0. apply scaled_back; lia.
  - done.
  - destruct sell; cbn [negb andb] in *; lia.
  - exact (sl_pool _ _ _ _ _ L).
  - destruct sell; lia.
  - exists spec. split; [exact Ho|]. rewrite <- Er. split; cbv zeta; cbn [rf_qty rf_px rf_flags rf_after]; rewrite <- ?L0, <- ?L1.
    + exact Eg.
    + done.
    + unfold u128 in *. rewrite Vn in Vp, Hw. split_and!; [lia|lia|exact Vq|by destruct sell|by destruct sell].
    + rewrite F2, F3, !negb_true_iff, !Z.eqb_neq, Z.ltb_lt. by split_and!.
  - done.
Qed.

(** ** The sqrt price of a price *)

Lemma checked_wf z v : 0 <= z -> checked z = Some v -> wf v.
Proof. unfold checked. destruct (Z.ltb_spec z WW); [|done]. intros Hz [= <-]. by apply wf_of_z. Qed.

Lemma checked_is z v : 0 <= z -> checked z = Some v -> wf v /\ val v = z.
Proof. unfold checked. destruct (Z.ltb_spec z WW); [|done]. intros Hz [= <-]. rewrite val_of_z. split; [by apply wf_of_z|done]. Qed.

(** A price below the last ratio comes back from the two words of a limit. *)
Lemma limit_words t : wf t -> val t < val MAX_SQRT -> val (U256.from_u160 (U256.lo t) (wrap_u32 (U256.hi t))) = val t.
Proof.
  intros Wt Ht. destruct max_sqrt_val as (_ & Hm & _). unfold val in *. cbn [U256.from_u160 U256.hi U256.lo].
  destruct Wt as [Hh Hl]. unfold u128 in *. change (2 ^ 160) with (W * 4294967296) in Hm. pose proof W_big.
  unfold wrap_u32. rewrite Z.mod_small by nia. done.
Qed.

Lemma wf_pow192 : wf (U256.pow2 192).
Proof. rewrite pow2_val by lia. apply wf_of_z. split; [done|by vm_compute]. Qed.

(** The operations yield words. *)
Lemma pow10_wf e p : pow10 e = Some p -> wf p.
Proof.
  destruct (Z.lt_ge_cases e 0) as [He|He].
  - unfold pow10. destruct (Z.ltb_spec 77 e); [done|]. rewrite Z2Nat.nonpos by lia. intros [= <-]. apply one_val.
  - destruct (Z.le_gt_cases e 77) as [Hs|Hs]; [|unfold pow10; destruct (Z.ltb_spec 77 e); [done|lia]].
    destruct (pow10_val e ltac:(lia)) as [-> B]. intros [= <-]. apply wf_of_z. lia.
Qed.

Lemma mul_div_wf a b d v : wf a -> wf b -> wf d -> mul_div a b d = Some v -> wf v.
Proof.
  intros Wa Wb Wd. rewrite mul_div_val by done. pose proof (val_bound a Wa). pose proof (val_bound b Wb). pose proof (val_bound d Wd).
  destruct (Z.eqb_spec (val d) 0); [done|]. apply checked_wf, Z.div_pos; nia.
Qed.

Lemma mul_div_rounding_up_wf a b d v : wf a -> wf b -> wf d -> mul_div_rounding_up a b d = Some v -> wf v.
Proof.
  intros Wa Wb Wd. rewrite mul_div_rounding_up_val by done. pose proof (val_bound a Wa). pose proof (val_bound b Wb). pose proof (val_bound d Wd).
  destruct (Z.eqb_spec (val d) 0); [done|]. apply checked_wf, cdiv_nonneg; nia.
Qed.

Lemma saturating_u128_word v : wf v -> u128 (U256.saturating_u128 v).
Proof. intros Wv. rewrite saturating_val by done. pose proof (val_bound v Wv). pose proof u128_max_W. pose proof W_big. unfold u128. lia. Qed.

Lemma wf_max : wf U256.MAX.
Proof. unfold wf, u128; cbn [U256.MAX U256.hi U256.lo]; rewrite u128_max_W; pose proof W_big; lia. Qed.

Lemma wf_zero : wf U256.ZERO.
Proof. pose proof W_big; unfold wf, u128; cbn; lia. Qed.

Lemma wf_pow2 n : 0 <= n < 256 -> wf (U256.pow2 n).
Proof. intros H. rewrite pow2_val by done. apply wf_of_z. rewrite WW_pow. split; [by apply Z.pow_nonneg|apply Z.pow_lt_mono_r; lia]. Qed.

Lemma price_1e18_u_wf s d0 d1 : wf s -> wf (price_1e18_u s d0 d1).
Proof.
  intros Ws. pose proof wf_max as Wx. pose proof wf_zero as W0. pose proof (wf_pow2 96 ltac:(lia)) as Wq. destruct one_val as [W1 _]. unfold price_1e18_u. cbv zeta.
  destruct (mul_div s s _) as [p96|] eqn:E1; [|done]. apply mul_div_wf in E1; [|done..]. destruct (0 <=? _).
  - destruct (pow10 _) as [p|] eqn:E2; [|done]. apply pow10_wf in E2. destruct (mul_div p96 p _) as [v|] eqn:E3; [|done]. by apply mul_div_wf in E3.
  - destruct (pow10 _) as [p|] eqn:E2; [|done]. apply pow10_wf in E2. rewrite checked_mul_val by done.
    destruct (checked _) as [d|] eqn:E3; [|done]. pose proof (val_bound p E2). pose proof (val_bound _ Wq). apply checked_wf in E3; [|nia].
    destruct (mul_div p96 _ d) as [v|] eqn:E4; [|done]. by apply mul_div_wf in E4.
Qed.

Lemma sqrt_from_price_range px d0 d1 : u128 px -> wf (sqrt_from_price_u px d0 d1) /\ val MIN_SQRT <= val (sqrt_from_price_u px d0 d1) < val MAX_SQRT.
Proof.
  intros Hp. destruct min_sqrt_val as (Wm & Vm & _). destruct max_sqrt_val as (Wx & _ & _). assert (val MIN_SQRT < val MAX_SQRT) as Hlt by (by vm_compute).
  destruct one_val as [W1 V1]. unfold sqrt_from_price_u. cbv zeta. set (e := 18 + d0 - d1).
  assert (wf (match (if 0 <=? e then match pow10 e with Some p => mul_div (U256.from_u128 px) (U256.pow2 192) p | None => Some U256.ZERO end
    else match scale10 (U256.from_u128 px) (- e) false with Some v => U256.checked_mul v (U256.pow2 192) | None => None end)
    with Some v => U256.isqrt v | None => MAX_SQRT end)) as Ws.
  { assert (forall v, wf v -> wf (U256.isqrt v)) as Wi.
    { intros v Wv. rewrite isqrt_val by done. pose proof (val_bound v Wv). apply wf_of_z. pose proof (Z.sqrt_nonneg (val v)).
      pose proof (Z.sqrt_le_lin (val v) ltac:(lia)). lia. }
    assert (wf U256.ZERO) as W0 by (pose proof W_big; unfold wf, u128; cbn; lia). pose proof wf_pow192 as W2. pose proof (val_bound _ W2).
    destruct (Z.leb_spec 0 e).
    - unfold pow10. destruct (Z.ltb_spec 77 e) as [|Hs]; [by apply Wi|]. destruct (pow10_val e ltac:(lia)) as [P B]. unfold pow10 in P.
      destruct (Z.ltb_spec 77 e); [lia|]. rewrite P. rewrite mul_div_val, val_u128, val_of_z by (try apply wf_of_z; try apply wf_u128; done || lia).
      destruct (Z.eqb_spec (10 ^ e) 0); [lia|]. destruct (checked _) as [v|] eqn:Ec; [|done]. apply Wi. eapply checked_wf; [|exact Ec].
      apply Z.div_pos; [|lia]. apply Z.mul_nonneg_nonneg; unfold u128 in Hp; lia.
    - destruct (scale10 (U256.from_u128 px) (- e) false) as [v|] eqn:Ev; [|done]. destruct (scale10_val _ _ _ _ (wf_u128 px Hp) Ev) as [Wv _].
      rewrite checked_mul_val by done. pose proof (val_bound v Wv). destruct (checked _) as [w|] eqn:Ec; [|done]. apply Wi.
      eapply checked_wf; [|exact Ec]. apply Z.mul_nonneg_nonneg; lia. }
  set (s := match (if 0 <=? e then _ else _) with Some _ => _ | None => _ end) in *. rewrite lt_val, le_val by done.
  destruct (Z.ltb_spec (val s) (val MIN_SQRT)); [by split; [|lia]|]. destruct (Z.leb_spec (val MAX_SQRT) (val s)); [|by split; [|lia]].
  pose proof (val_bound _ Wx). pose proof (val_bound _ Wm). rewrite wrapping_sub_val, V1, Z.mod_small by (done || lia). rewrite val_of_z. split; [apply wf_of_z|]; lia.
Qed.

Lemma fill_limit_wf lim18 d0 d1 sell : u128 lim18 ->
  wf (fill_limit lim18 d0 d1 sell) /\ val (fill_limit lim18 d0 d1 sell) < val MAX_SQRT.
Proof.
  intros Hp. unfold fill_limit. destruct (sqrt_from_price_range lim18 d0 d1 Hp) as [Ws Bs]. destruct max_sqrt_val as (Wx & _ & _).
  destruct one_val as [W1 V1]. pose proof (val_bound _ Wx). pose proof (val_bound _ Ws). pose proof min_sqrt_val as (_ & _ & _).
  destruct (_ && _) eqn:E; [|by split; [|lia]]. apply andb_true_iff in E as [_ E].
  assert (val MIN_SQRT < val MAX_SQRT) as Hm by (by vm_compute). assert (0 <= val MIN_SQRT) as Hn by (by vm_compute).
  rewrite lt_val, wrapping_sub_val, V1, Z.mod_small, val_of_z in E by (done || lia || apply wf_sub_one). apply Z.ltb_lt in E.
  rewrite wrapping_add_val, V1, Z.mod_small by (done || lia). rewrite val_of_z. split; [apply wf_of_z|]; lia.
Qed.

Lemma marginal_val meta px sell v : u128 px -> 0 <= pm_fee_pips meta < PIPS_FILL ->
  marginal_limit_1e18 px (pm_fee_pips meta) sell = Some v -> u128 v /\ v = fill_margin meta sell px.
Proof.
  unfold fill_margin. generalize (pm_fee_pips meta). intros fee Hp Hf. unfold marginal_limit_1e18, PIPS_FILL in *. assert (u128 (1000000 - fee) /\ u128 1000000 /\ u128 E12) as (U1 & U2 & U3)
    by (unfold u128, E12; rewrite W_pow; lia). rewrite mul_u128_val by done.
  assert (0 <= px * E12 < WW) as B by (unfold u128, WW in *; split; [apply Z.mul_nonneg_nonneg|apply Z.mul_lt_mono_nonneg]; lia).
  assert (wf (of_z (px * E12)) /\ wf (U256.from_u128 (1000000 - fee)) /\ wf (U256.from_u128 1000000)) as (Wn & Wk & Wp)
    by (split_and!; [by apply wf_of_z|by apply wf_u128|by apply wf_u128]).
  assert (forall (x : option U256) z, (forall w, x = Some w -> wf w /\ val w = z) -> opt_bind x to_u128 = Some v -> u128 v /\ v = z) as Use.
  { intros [w|] z Hw H; [|done]. destruct (Hw w eq_refl) as [Ww <-]. by destruct (to_u128_val w v Ww H). }
  apply Use. intros w. destruct sell.
  - rewrite mul_div_rounding_up_val, !val_u128, val_of_z by done. destruct (Z.eqb_spec (1000000 - fee) 0); [done|]. apply checked_is. apply cdiv_nonneg; lia.
  - rewrite mul_div_val, !val_u128, val_of_z by done. cbn [Z.eqb]. apply checked_is. apply Z.div_pos; [apply Z.mul_nonneg_nonneg; lia|lia].
Qed.

Lemma fill_in_range_law state meta (sell : bool) qty px : pool_wf state -> ticked state -> 0 <= pm_fee_pips meta -> qty <= i64_max -> px <= i64_max ->
  let f := fill_in_range state meta sell qty px in
  fill_none state f \/ (pool_is_live state = true /\ fill_lawful state meta sell qty px f).
Proof.
  intros Hp Ht Hf Hq Hx f. unfold f, fill_in_range. clear f. destruct (_ || _) eqn:Eg; [left; apply rfill_none_none|].
  repeat (apply orb_false_iff in Eg as [Eg ?]). apply negb_false_iff in Eg. apply Z.leb_gt in H1, H0, H.
  assert (u128 qty) as Uq by (unfold u128; rewrite W_pow; unfold i64_max in Hq; lia).
  destruct (positive (opt_bind (scale10 (U256.from_u128 qty) _ _) to_u128)) as [raw0|] eqn:Er; [|left; apply rfill_none_none].
  apply positive_spec in Er as [Er Pr]. destruct (scale10 (U256.from_u128 qty) (dec0 meta - 6) false) as [v|] eqn:Ev; [|done]. cbn [opt_bind] in Er.
  destruct (scale10_val _ _ _ _ (wf_u128 qty Uq) Ev) as [Wv Vv]. rewrite val_u128 in Vv. destruct (to_u128_val v raw0 Wv Er) as [-> Ur].
  destruct (positive (marginal_limit_1e18 _ _ _)) as [lim18|] eqn:Em; [|left; apply rfill_none_none]. cbv zeta.
  set (lim := fill_limit _ _ _ _). destruct (negb _ || _); [left; apply rfill_none_none|].
  set (spec := mkSwapSpec _ _ _ _ _ _).
  assert (spec_wf spec /\ fill_order meta sell qty px spec) as [Hs Ho].
  { apply positive_spec in Em as [Em _]. apply marginal_val in Em as [Um ->]; [|unfold u128; rewrite W_pow; unfold i64_max in Hx; lia|lia].
    destruct (fill_limit_wf _ (dec0 meta) (dec1 meta) sell Um) as [Wlim Blim]. fold lim in Wlim, Blim. pose proof Wlim as [_ Wl].
    split; [|split; [exact Vv|done..|by apply limit_words]]. split; [exact Ur|]. split; [exact Wl|]. split; [|exact Hf].
    cbn [spec limit_hi]. unfold wrap_u32, u32_max. pose proof (Z.mod_pos_bound (U256.hi lim) 4294967296 ltac:(lia)). lia. }
  destruct (range_swap_law state meta spec Hp Ht Hs) as [-> |(lo & hi & L)]; [left; apply refused_reported|].
  destruct (fill_report_law state meta sell qty px spec lo hi ltac:(lia) Ho L) as [|]; [by left|by right].
Qed.

(** ** The fee a swap was seen to pay *)

Lemma observed_fee_range s meta a0 a1 lo hi f : pool_wf s -> ticked s -> 0 <= pm_fee_pips meta -> u128 lo -> in_u32 hi ->
  a0 <= i128_max -> a1 <= i128_max -> observed_fee_pips s meta a0 a1 lo hi = Some f -> 0 <= f < PIPS_FILL.
Proof.
  intros Hp Ht Hf Hl Hh B0 B1. unfold observed_fee_pips, swap_in_range. set (z := (0 <? a0) && (a1 <? 0)). set (o := (0 <? a1) && (a0 <? 0)).
  destruct (negb (z || o)); [done|]. change (u128_max =? 0) with false. cbv iota zeta.
  set (spec := mkSwapSpec u128_max lo hi 0 (negb o) (negb o)). pose proof u128_max_W as UM.
  assert (spec_wf spec) as Hs by (split; [change (u128 u128_max); unfold u128; pose proof W_big; lia|split; [exact Hl|split; [exact Hh|done]]]).
  pose proof (range_swap_law s meta spec Hp Ht Hs) as R. unfold swap_exact_in_range in R.
  destruct (range_bounds (ps_tick s) (tick_spacing meta)) as [rl rh]. set (r := walk_kind meta s [] rl rh false spec) in *.
  assert (u128 (sr_amount_in r) /\ u128 (sr_amount_out r)) as [Ui Uo].
  { destruct R as [-> |(x & y & L)]; [by split|]. exact (sl_words _ _ _ _ _ L). }
  destruct (by_token o r) as [[t0 t1] after] eqn:Eb. assert (u128 t0 /\ u128 t1) as [U0 U1] by (unfold by_token in Eb; destruct o; injection Eb as <- <- <-; done).
  destruct (_ || _); [done|]. set (amt := if z then a0 else a1). set (pf := if z then t0 else t1).
  assert (u128 pf) as Up by (unfold pf; by destruct z). destruct (Z.eqb_spec pf 0); [done|]. destruct (Z.ltb_spec amt pf); [done|]. cbn [orb].
  assert (amt <= i128_max) as Ba by (unfold amt; by destruct z). assert (u128 amt /\ u128 (amt - pf) /\ u128 E6) as (Ua & Ud & Ue).
  { unfold u128, E6 in *. rewrite W_pow in *. unfold i128_max in Ba. lia. }
  rewrite mul_div_rounding_up_val, !val_u128 by (by apply wf_u128). destruct (Z.eqb_spec amt 0); [done|].
  destruct (checked _) as [v|] eqn:Ec; [|done]. apply checked_wf in Ec; [|apply cdiv_nonneg; unfold u128 in *; [apply Z.mul_nonneg_nonneg|]; lia].
  destruct (to_u128 v) as [p|] eqn:Ep; [|done]. destruct (to_u128_val v p Ec Ep) as [_ Upp]. destruct (Z.ltb_spec p PIPS_FILL); [|done].
  intros [= <-]. unfold u128 in Upp. lia.
Qed.
