(* ===== verification/AmmPayload.v ===== *)
(** * The pool-event payload ([crates/core-amm/src/payload.rs])

    Forty bytes: a header of a kind and a sub field, then the kind's layout,
    little-endian; every byte a layout does not name is zero. Encoders refuse
    what the decoder would, and the two are inverse. *)

From S2P Require Import Prelude AmmU256 AmmTick.

(** ** Little-endian words *)

(** The low [n] bytes of a two's complement number ([to_le_bytes]). *)
Fixpoint to_le (n : nat) (z : Z) : list Z :=
  match n with
  | O => []
  | S k => z mod 256 :: to_le k (z / 256)
  end.

(** [from_le_bytes], unsigned. *)
Fixpoint from_le (l : list Z) : Z :=
  match l with
  | [] => 0
  | b :: l => b + 256 * from_le l
  end.

Definition from_le_i128 (l : list Z) : Z := wrap_i128 (from_le l).

(** ** The codec *)

Definition PAYLOAD_LEN : nat := 40.

Definition EV_STATE : Z := 1.
Definition EV_SWAP : Z := 2.
Definition EV_FEE : Z := 3.
Definition EV_LIQUIDITY : Z := 4.
Definition EV_HEAD : Z := 5.
Definition EV_GAP : Z := 6.
Definition EV_SNAPSHOT : Z := 7.
Definition EV_TICK : Z := 8.

Definition FAMILY_V3 : Z := 0.
Definition FAMILY_SLIPSTREAM : Z := 1.
Definition FAMILY_ALGEBRA : Z := 2.
Definition STATE_SNAPSHOT : Z := 1.
Definition LIQ_BURN : Z := 1.
Definition FEE_SRC_ALGEBRA_V10 : Z := 1.
Definition FEE_SRC_ALGEBRA_V12 : Z := 2.

Definition MAX_PAYLOAD_BLOCK : Z := 2 ^ 56 - 1.
Definition MAX_TOKEN_DECIMALS : Z := 36.
Definition FEE_PIPS_BOUND : Z := 1000000.
Definition TICK_BOUND : Z := MAX_TICK.

Inductive PoolEvent :=
| EvState (tick sqrt_price_lo sqrt_price_hi liquidity : Z) (snapshot : bool)
| EvSwap (block amount0 amount1 : Z)
| EvFee (block source a b : Z)
| EvLiquidity (block : Z) (burn : bool) (tick_lower tick_upper amount : Z)
| EvHead (block timestamp base_fee : Z)
| EvGap (block : Z)
| EvSnapshot (block family lo hi nodes fee spacing dec0 dec1 : Z)
| EvTick (tick net gross : Z).

(** [put_n]: bytes written from [at] on. *)
Definition put_n (p : list Z) (at_ : nat) (b : list Z) : list Z := list_inserts at_ b p.
Definition put_u56 (p : list Z) (at_ : nat) (v : Z) : list Z := put_n p at_ (take 7 (to_le 8 v)).
Definition put_i24 (p : list Z) (at_ : nat) (v : Z) : list Z := put_n p at_ (take 3 (to_le 4 v)).

Definition get_n (k : nat) (p : list Z) (at_ : nat) : list Z := take k (drop at_ p).
Definition get_u56 (p : list Z) (at_ : nat) : Z := from_le (get_n 7 p at_ ++ [0]).

(** The three bytes, sign-extended from bit 23. *)
Definition get_i24 (p : list Z) (at_ : nat) : Z := Z.shiftr (wrap_i32 (Z.shiftl (from_le (get_n 3 p at_ ++ [0])) 8)) 8.

Definition zero (p : list Z) (from to : nat) : bool := foldl Z.lor 0 (take (to - from) (drop from p)) =? 0.

Definition tick_ok (t : Z) : bool := (- TICK_BOUND <=? t) && (t <=? TICK_BOUND).

Definition header (ev sub : Z) : list Z := <[0%nat := Z.lor ev (Z.shiftl sub 4)]> (replicate PAYLOAD_LEN 0).

Definition encode_state (tick sqrt_price_lo sqrt_price_hi liquidity : Z) (snapshot : bool) : option (list Z) :=
  if negb (tick_ok tick) then None
  else
    let p := header EV_STATE (Z.b2z snapshot) in
    let p := put_i24 p 1 tick in
    let p := put_n p 4 (to_le 16 sqrt_price_lo) in
    let p := put_n p 20 (to_le 4 sqrt_price_hi) in
    Some (put_n p 24 (to_le 16 liquidity)).

Definition encode_swap (block amount0 amount1 : Z) : option (list Z) :=
  if MAX_PAYLOAD_BLOCK <? block then None
  else Some (put_n (put_n (put_u56 (header EV_SWAP 0) 1 block) 8 (to_le 16 amount0)) 24 (to_le 16 amount1)).

Definition encode_fee (block source a b : Z) : option (list Z) :=
  if (MAX_PAYLOAD_BLOCK <? block) || (negb (source =? FEE_SRC_ALGEBRA_V10) && negb (source =? FEE_SRC_ALGEBRA_V12)) then None
  else Some (put_n (put_n (put_u56 (header EV_FEE source) 1 block) 8 (to_le 4 a)) 12 (to_le 4 b)).

Definition encode_liquidity (block : Z) (burn : bool) (tick_lower tick_upper amount : Z) : option (list Z) :=
  if (MAX_PAYLOAD_BLOCK <? block) || negb (tick_ok tick_lower) || negb (tick_ok tick_upper) || (tick_upper <=? tick_lower) then None
  else
    let p := put_u56 (header EV_LIQUIDITY (Z.b2z burn)) 1 block in
    let p := put_i24 p 8 tick_lower in
    let p := put_i24 p 11 tick_upper in
    Some (put_n p 16 (to_le 16 amount)).

Definition encode_head (block timestamp base_fee : Z) : option (list Z) :=
  if MAX_PAYLOAD_BLOCK <? block then None
  else Some (put_n (put_n (put_u56 (header EV_HEAD 0) 1 block) 8 (to_le 8 timestamp)) 16 (to_le 16 base_fee)).

Definition encode_gap (block : Z) : option (list Z) :=
  if MAX_PAYLOAD_BLOCK <? block then None else Some (put_u56 (header EV_GAP 0) 1 block).

Definition encode_snapshot (block family lo hi nodes fee spacing dec0 dec1 : Z) : option (list Z) :=
  if (MAX_PAYLOAD_BLOCK <? block) || (FAMILY_ALGEBRA <? family) || negb (tick_ok lo) || negb (tick_ok hi) || (hi <? lo)
     || (spacing <=? 0) || (TICK_BOUND <? spacing) || (FEE_PIPS_BOUND <=? fee) || (MAX_TOKEN_DECIMALS <? dec0) || (MAX_TOKEN_DECIMALS <? dec1)
  then None
  else
    let p := put_u56 (header EV_SNAPSHOT family) 1 block in
    let p := put_i24 p 8 lo in
    let p := put_i24 p 11 hi in
    let p := put_n p 14 (to_le 2 nodes) in
    let p := put_n p 16 (to_le 4 fee) in
    let p := put_i24 p 20 spacing in
    let p := <[23%nat := dec0]> p in
    Some (<[24%nat := dec1]> p).

Definition encode_tick (tick net gross : Z) : option (list Z) :=
  if negb (tick_ok tick) then None
  else Some (put_n (put_n (put_i24 (header EV_TICK 0) 1 tick) 8 (to_le 16 net)) 24 (to_le 16 gross)).

Definition decode (p : list Z) : option PoolEvent :=
  let kind := Z.land (get p 0) 15 in
  let sub := Z.shiftr (get p 0) 4 in
  if kind =? EV_STATE then
    let tick := get_i24 p 1 in
    if negb (Z.land sub 254 =? 0) || negb (tick_ok tick) then None
    else Some (EvState tick (from_le (get_n 16 p 4)) (from_le (get_n 4 p 20)) (from_le (get_n 16 p 24)) (negb (Z.land sub STATE_SNAPSHOT =? 0)))
  else if kind =? EV_SWAP then
    if negb (sub =? 0) then None
    else Some (EvSwap (get_u56 p 1) (from_le_i128 (get_n 16 p 8)) (from_le_i128 (get_n 16 p 24)))
  else if kind =? EV_FEE then
    if (negb (sub =? FEE_SRC_ALGEBRA_V10) && negb (sub =? FEE_SRC_ALGEBRA_V12)) || negb (zero p 16 PAYLOAD_LEN) then None
    else Some (EvFee (get_u56 p 1) sub (from_le (get_n 4 p 8)) (from_le (get_n 4 p 12)))
  else if kind =? EV_LIQUIDITY then
    let tick_lower := get_i24 p 8 in
    let tick_upper := get_i24 p 11 in
    if negb (Z.land sub 254 =? 0) || negb (zero p 14 16) || negb (zero p 32 PAYLOAD_LEN)
       || negb (tick_ok tick_lower) || negb (tick_ok tick_upper) || (tick_upper <=? tick_lower) then None
    else Some (EvLiquidity (get_u56 p 1) (negb (Z.land sub LIQ_BURN =? 0)) tick_lower tick_upper (from_le (get_n 16 p 16)))
  else if kind =? EV_HEAD then
    if negb (sub =? 0) || negb (zero p 32 PAYLOAD_LEN) then None
    else Some (EvHead (get_u56 p 1) (from_le (get_n 8 p 8)) (from_le (get_n 16 p 16)))
  else if kind =? EV_GAP then
    if negb (sub =? 0) || negb (zero p 8 PAYLOAD_LEN) then None
    else Some (EvGap (get_u56 p 1))
  else if kind =? EV_SNAPSHOT then
    let lo := get_i24 p 8 in
    let hi := get_i24 p 11 in
    let spacing := get_i24 p 20 in
    let fee := from_le (get_n 4 p 16) in
    let dec0 := get p 23 in
    let dec1 := get p 24 in
    if (FAMILY_ALGEBRA <? sub) || negb (zero p 25 PAYLOAD_LEN) || negb (tick_ok lo) || negb (tick_ok hi) || (hi <? lo)
       || (spacing <=? 0) || (TICK_BOUND <? spacing) || (FEE_PIPS_BOUND <=? fee) || (MAX_TOKEN_DECIMALS <? dec0) || (MAX_TOKEN_DECIMALS <? dec1)
    then None
    else Some (EvSnapshot (get_u56 p 1) sub lo hi (from_le (get_n 2 p 14)) fee spacing dec0 dec1)
  else if kind =? EV_TICK then
    let tick := get_i24 p 1 in
    if negb (sub =? 0) || negb (zero p 4 8) || negb (tick_ok tick) then None
    else Some (EvTick tick (from_le_i128 (get_n 16 p 8)) (from_le (get_n 16 p 24)))
  else None.

Example a_swap_payload : encode_swap 258 5 (-1) =
  Some ([2; 2; 1; 0; 0; 0; 0; 0] ++ (5 :: replicate 15 0) ++ replicate 16 255).
Proof. reflexivity. Qed.

Example a_swap_decoded : decode ([2; 2; 1; 0; 0; 0; 0; 0] ++ (5 :: replicate 15 0) ++ replicate 16 255) = Some (EvSwap 258 5 (-1)).
Proof. reflexivity. Qed.
