(* ===== verification/AmmPayloadProofs.v ===== *)
(** * The pool-event codec is a bijection

    A payload is the concatenation of its fields; each field's bytes and its
    value determine each other, so decoding and encoding are inverse on the
    payloads and events either accepts. *)

From S2P Require Import Prelude AmmU256 AmmTick AmmPayload.

(** ** Bytes *)

Definition byte (b : Z) : Prop := 0 <= b < 256.
Definition bytes (k : nat) (l : list Z) : Prop := length l = k /\ Forall byte l.

Lemma to_le_bytes n z : bytes n (to_le n z).
Proof.
  revert z. induction n as [|k IH]; intros z; [by split; [|constructor]|]. destruct (IH (z / 256)) as [Hl Hf].
  split; cbn [to_le length]; [by rewrite Hl|]. constructor; [apply Z.mod_pos_bound; lia|done].
Qed.

Lemma from_le_to_le n z : from_le (to_le n z) = z mod 256 ^ Z.of_nat n.
Proof.
  revert z. induction n as [|k IH]; intros z; [by rewrite Z.mod_1_r|]. cbn [to_le from_le]. rewrite IH, Nat2Z.inj_succ, Z.pow_succ_r by lia.
  rewrite Z.rem_mul_r by (try apply Z.pow_pos_nonneg; lia). lia.
Qed.

Lemma from_le_bound l : Forall byte l -> 0 <= from_le l < 256 ^ Z.of_nat (length l).
Proof.
  induction 1 as [|b l Hb Hf IH]; [done|]. cbn [from_le length]. rewrite Nat2Z.inj_succ, Z.pow_succ_r by lia. unfold byte in Hb. lia.
Qed.

Lemma to_le_from_le l : Forall byte l -> to_le (length l) (from_le l) = l.
Proof.
  induction 1 as [|b l Hb Hf IH]; [done|]. cbn [from_le length to_le]. unfold byte in Hb. rewrite (Z.mul_comm 256).
  rewrite Z.mod_add, Z.div_add, Z.mod_small, Z.div_small, Z.add_0_l, IH by lia. done.
Qed.

(** A byte's high bit and the rest. *)
Lemma high_bit b : byte b -> (Z.land b 128 =? 0) = (b <? 128).
Proof.
  unfold byte. intros H. assert (forallb (fun b => Bool.eqb (Z.land b 128 =? 0) (b <? 128)) (seqZ 0 256) = true) as A by (vm_compute; reflexivity).
  rewrite forallb_forall in A. apply eqb_prop, A, list_elem_of_In, elem_of_seqZ. lia.
Qed.

Lemma low_bits b : Z.land b 127 = b mod 128.
Proof. change 127 with (Z.ones 7). by rewrite Z.land_ones. Qed.

(** Only the low bytes count. *)
Lemma to_le_mod n z z' : z mod 256 ^ Z.of_nat n = z' mod 256 ^ Z.of_nat n -> to_le n z = to_le n z'.
Proof.
  intros E. rewrite <- !from_le_to_le in E. destruct (to_le_bytes n z) as [L F]. destruct (to_le_bytes n z') as [L' F'].
  rewrite <- (to_le_from_le _ F), <- (to_le_from_le _ F'), L, L'. by rewrite E.
Qed.

Lemma from_le_snoc0 l : from_le (l ++ [0]) = from_le l.
Proof. induction l as [|b l IH]; [done|]. cbn [app from_le]. by rewrite IH. Qed.

(** ** Fields *)

Lemma word_field k l : bytes k l -> to_le k (from_le l) = l.
Proof. intros [<- Hf]. by apply to_le_from_le. Qed.

Lemma word_value k z : 0 <= z < 256 ^ Z.of_nat k -> from_le (to_le k z) = z.
Proof. intros Hz. rewrite from_le_to_le. by apply Z.mod_small. Qed.

Lemma i128_field l : bytes 16 l -> to_le 16 (from_le_i128 l) = l.
Proof.
  intros Hl. rewrite <- (word_field 16 l Hl) at 2. apply to_le_mod. unfold from_le_i128, wrap_i128.
  change (256 ^ Z.of_nat 16) with 340282366920938463463374607431768211456. rewrite Zminus_mod, Zmod_mod, <- Zminus_mod. f_equal. lia.
Qed.

Lemma i128_value z : i128_min <= z <= i128_max -> from_le_i128 (to_le 16 z) = z.
Proof.
  intros Hz. unfold from_le_i128. rewrite from_le_to_le. change (256 ^ Z.of_nat 16) with 340282366920938463463374607431768211456.
  unfold wrap_i128. rewrite Zplus_mod_idemp_l. fold (wrap_i128 z). by apply wrap_i128_id.
Qed.

Definition i24 (l : list Z) : Z := Z.shiftr (wrap_i32 (Z.shiftl (from_le (l ++ [0])) 8)) 8.

Lemma i24_from_le l : bytes 3 l -> i24 l = if from_le l <? 8388608 then from_le l else from_le l - 16777216.
Proof.
  intros [Hl Hf]. unfold i24. rewrite from_le_snoc0, Z.shiftl_mul_pow2, Z.shiftr_div_pow2 by lia. change (2 ^ 8) with 256.
  pose proof (from_le_bound l Hf) as B. rewrite Hl in B. change (256 ^ Z.of_nat 3) with 16777216 in B. set (v := from_le l) in *.
  unfold wrap_i32. destruct (Z.ltb_spec v 8388608).
  - rewrite Z.mod_small by lia. replace (v * 256 + 2147483648 - 2147483648) with (v * 256) by lia. by rewrite Z.div_mul.
  - replace (v * 256 + 2147483648) with ((v * 256 - 2147483648) + 1 * 4294967296) by lia. rewrite Z.mod_add, Z.mod_small by lia.
    replace (v * 256 - 2147483648 - 2147483648) with ((v - 16777216) * 256) by lia. by rewrite Z.div_mul.
Qed.

Lemma i24_field l : bytes 3 l -> to_le 3 (i24 l) = l.
Proof.
  intros Hl. rewrite i24_from_le by done. transitivity (to_le 3 (from_le l)); [|by apply word_field]. apply to_le_mod.
  change (256 ^ Z.of_nat 3) with 16777216. destruct (_ <? _); [done|]. replace (from_le l - 16777216) with (from_le l + (-1) * 16777216) by lia. by rewrite Z.mod_add.
Qed.

Lemma i24_value t : tick_ok t = true -> i24 (to_le 3 t) = t.
Proof.
  unfold tick_ok, TICK_BOUND, MAX_TICK. intros Ht. rewrite i24_from_le by apply to_le_bytes. rewrite from_le_to_le.
  change (256 ^ Z.of_nat 3) with 16777216. destruct (Z.le_gt_cases 0 t).
  - rewrite Z.mod_small by lia. destruct (Z.ltb_spec t 8388608); lia.
  - assert (t mod 16777216 = t + 16777216) as ->.
    { replace t with ((t + 16777216) + (-1) * 16777216) at 1 by lia. rewrite Z.mod_add, Z.mod_small by lia. done. }
    destruct (Z.ltb_spec (t + 16777216) 8388608); lia.
Qed.

Lemma u56_field l : bytes 7 l -> to_le 7 (from_le (l ++ [0])) = l /\ 0 <= from_le (l ++ [0]) <= MAX_PAYLOAD_BLOCK.
Proof.
  intros Hl. rewrite from_le_snoc0. split; [by apply word_field|]. destruct Hl as [E Hf]. pose proof (from_le_bound l Hf) as B. rewrite E in B.
  change (256 ^ Z.of_nat 7) with (2 ^ 56) in B. unfold MAX_PAYLOAD_BLOCK. lia.
Qed.

Lemma u56_value v : 0 <= v <= MAX_PAYLOAD_BLOCK -> from_le (to_le 7 v ++ [0]) = v.
Proof. intros Hv. rewrite from_le_snoc0. apply word_value. change (256 ^ Z.of_nat 7) with (2 ^ 56). unfold MAX_PAYLOAD_BLOCK in Hv. lia. Qed.

(** ** Layouts *)

Lemma get_n_bytes k p at_ : Forall byte p -> (at_ + k <= length p)%nat -> bytes k (get_n k p at_).
Proof.
  intros Hf Hl. split; [unfold get_n; rewrite length_take, length_drop; lia|]. by apply Forall_take, Forall_drop.
Qed.

(** The rest of a payload from one field on. *)
Lemma field_split k p at_ : drop at_ p = get_n k p at_ ++ drop (at_ + k) p.
Proof. unfold get_n. rewrite <- drop_drop. by rewrite take_drop. Qed.

Lemma zeros l : Forall byte l -> (foldl Z.lor 0 l =? 0) = true -> l = replicate (length l) 0.
Proof.
  intros Hf Hz%Z.eqb_eq. assert (forall a, 0 <= a -> foldl Z.lor a l = 0 -> a = 0 /\ l = replicate (length l) 0) as H; [|by apply (H 0)].
  clear Hz. induction Hf as [|b l Hb Hf IH]; intros a Ha Hz; [done|]. cbn [foldl] in Hz. unfold byte in Hb.
  destruct (IH (Z.lor a b)) as [[-> ->]%Z.lor_eq_0_iff E]; [apply Z.lor_nonneg; lia|done|]. split; [done|]. cbn. by rewrite <- E.
Qed.

Lemma zero_field p a b : Forall byte p -> zero p a b = true -> (a <= b <= length p)%nat -> get_n (b - a) p a = replicate (b - a) 0.
Proof.
  intros Hf Hz Hl. destruct (get_n_bytes (b - a) p a Hf ltac:(lia)) as [L F]. rewrite <- L at 2. by apply zeros.
Qed.

(** The header's two fields. *)
Lemma header_split b : byte b -> 0 <= Z.shiftr b 4 < 16 /\ b = Z.lor (Z.land b 15) (Z.shiftl (Z.shiftr b 4) 4).
Proof.
  unfold byte. intros Hb. split.
  { rewrite Z.shiftr_div_pow2 by lia. change (2 ^ 4) with 16. split; [apply Z.div_pos; lia|apply Z.div_lt_upper_bound; lia]. }
  change 15 with (Z.ones 4). rewrite <- (Z.lor_ldiff_and b (Z.ones 4)) at 1. rewrite Z.lor_comm. f_equal.
  by rewrite Z.ldiff_ones_r by lia.
Qed.

(** ** The two directions *)

(** The encoder of each event. *)
Definition encode_event (e : PoolEvent) : option (list Z) :=
  match e with
  | EvState t lo hi l s => encode_state t lo hi l s
  | EvSwap b a0 a1 => encode_swap b a0 a1
  | EvFee b s x y => encode_fee b s x y
  | EvLiquidity b burn tl tu a => encode_liquidity b burn tl tu a
  | EvHead b t f => encode_head b t f
  | EvGap b => encode_gap b
  | EvSnapshot b f lo hi n fee sp d0 d1 => encode_snapshot b f lo hi n fee sp d0 d1
  | EvTick t net g => encode_tick t net g
  end.

Abbreviation in_u128 z := (0 <= z <= u128_max).
Abbreviation in_i128 z := (i128_min <= z <= i128_max).

(** The fields are of their machine types. *)
Definition event_typed (e : PoolEvent) : Prop :=
  match e with
  | EvState _ lo hi l _ => in_u128 lo /\ in_u32 hi /\ in_u128 l
  | EvSwap b a0 a1 => 0 <= b /\ in_i128 a0 /\ in_i128 a1
  | EvFee b s x y => 0 <= b /\ in_u32 x /\ in_u32 y
  | EvLiquidity b _ _ _ a => 0 <= b /\ in_u128 a
  | EvHead b t f => 0 <= b /\ in_u64 t /\ in_u128 f
  | EvGap b => 0 <= b
  | EvSnapshot b f _ _ n fee _ d0 d1 => 0 <= b /\ 0 <= f /\ 0 <= n <= u16_max /\ in_u32 fee /\ 0 <= d0 /\ 0 <= d1
  | EvTick _ net g => in_i128 net /\ in_u128 g
  end.

Definition payload (p : list Z) : Prop := bytes PAYLOAD_LEN p.

(** Reads a payload by its header byte. *)
Ltac decode_by E :=
  unfold decode; rewrite E; cbv zeta;
  match goal with |- context [Z.land ?h 15] =>
    let k := eval vm_compute in (Z.land h 15) in let s := eval vm_compute in (Z.shiftr h 4) in
    change (Z.land h 15) with k; change (Z.shiftr h 4) with s
  end;
  cbn [Z.eqb Pos.eqb EV_STATE EV_SWAP EV_FEE EV_LIQUIDITY EV_HEAD EV_GAP EV_SNAPSHOT EV_TICK].

Lemma u128_word z : in_u128 z -> 0 <= z < 256 ^ Z.of_nat 16.
Proof. unfold u128_max. change (256 ^ Z.of_nat 16) with 340282366920938463463374607431768211456. lia. Qed.
Lemma u64_word z : in_u64 z -> 0 <= z < 256 ^ Z.of_nat 8.
Proof. unfold u64_max. change (256 ^ Z.of_nat 8) with 18446744073709551616. lia. Qed.
Lemma u32_word z : in_u32 z -> 0 <= z < 256 ^ Z.of_nat 4.
Proof. unfold u32_max. change (256 ^ Z.of_nat 4) with 4294967296. lia. Qed.
Lemma u16_word z : 0 <= z <= u16_max -> 0 <= z < 256 ^ Z.of_nat 2.
Proof. unfold u16_max. change (256 ^ Z.of_nat 2) with 65536. lia. Qed.

(** A concatenation of byte fields is a payload. *)
Lemma bytes_app j k l1 l2 : bytes j l1 -> bytes k l2 -> bytes (j + k) (l1 ++ l2).
Proof. intros [<- F1] [<- F2]. split; [apply length_app|]. by apply Forall_app. Qed.
Lemma bytes_zeros k : bytes k (replicate k 0).
Proof. split; [apply length_replicate|]. apply Forall_replicate. unfold byte. lia. Qed.
Lemma bytes_one b : byte b -> bytes 1 [b].
Proof. intros H. split; [done|]. by constructor. Qed.

Ltac fields_bytes :=
  match goal with
  | |- bytes _ ([_] ++ _) => apply (bytes_app 1); [fields_bytes|fields_bytes]
  | |- bytes _ (to_le ?k _ ++ _) => apply (bytes_app k); [fields_bytes|fields_bytes]
  | |- bytes _ (replicate ?k _ ++ _) => apply (bytes_app k); [fields_bytes|fields_bytes]
  | |- bytes _ (to_le _ _) => apply to_le_bytes
  | |- bytes _ (replicate _ _) => apply bytes_zeros
  | |- bytes _ [_] => apply bytes_one; unfold byte; cbn [Z.b2z]; lia
  end.

(** ** The layouts *)

Lemma state_layout t lo hi l s : tick_ok t = true ->
  encode_state t lo hi l s = Some ([1 + 16 * Z.b2z s] ++ to_le 3 t ++ to_le 16 lo ++ to_le 4 hi ++ to_le 16 l).
Proof. intros Ht. unfold encode_state. rewrite Ht. by destruct s. Qed.

Lemma swap_layout b a0 a1 : (MAX_PAYLOAD_BLOCK <? b) = false ->
  encode_swap b a0 a1 = Some ([2] ++ to_le 7 b ++ to_le 16 a0 ++ to_le 16 a1).
Proof. intros Hb. unfold encode_swap. by rewrite Hb. Qed.

Lemma fee_layout b s x y : (MAX_PAYLOAD_BLOCK <? b) = false -> s = 1 \/ s = 2 ->
  encode_fee b s x y = Some ([3 + 16 * s] ++ to_le 7 b ++ to_le 4 x ++ to_le 4 y ++ replicate 24 0).
Proof. intros Hb [-> | ->]; unfold encode_fee; by rewrite Hb. Qed.

Lemma liquidity_layout b burn tl tu a : (MAX_PAYLOAD_BLOCK <? b) = false -> tick_ok tl = true -> tick_ok tu = true -> (tu <=? tl) = false ->
  encode_liquidity b burn tl tu a =
  Some ([4 + 16 * Z.b2z burn] ++ to_le 7 b ++ to_le 3 tl ++ to_le 3 tu ++ replicate 2 0 ++ to_le 16 a ++ replicate 8 0).
Proof. intros H1 H2 H3 H4. unfold encode_liquidity. rewrite H1, H2, H3, H4. by destruct burn. Qed.

Lemma head_layout b t f : (MAX_PAYLOAD_BLOCK <? b) = false ->
  encode_head b t f = Some ([5] ++ to_le 7 b ++ to_le 8 t ++ to_le 16 f ++ replicate 8 0).
Proof. intros Hb. unfold encode_head. by rewrite Hb. Qed.

Lemma gap_layout b : (MAX_PAYLOAD_BLOCK <? b) = false -> encode_gap b = Some ([6] ++ to_le 7 b ++ replicate 32 0).
Proof. intros Hb. unfold encode_gap. by rewrite Hb. Qed.

Lemma tick_layout t net g : tick_ok t = true ->
  encode_tick t net g = Some ([8] ++ to_le 3 t ++ replicate 4 0 ++ to_le 16 net ++ to_le 16 g).
Proof. intros Ht. unfold encode_tick. by rewrite Ht. Qed.

(** What a snapshot's encoder and decoder both require. *)
Definition snapshot_refused (f lo hi fee sp d0 d1 : Z) : bool :=
  (FAMILY_ALGEBRA <? f) || negb (tick_ok lo) || negb (tick_ok hi) || (hi <? lo) || (sp <=? 0) || (TICK_BOUND <? sp)
  || (FEE_PIPS_BOUND <=? fee) || (MAX_TOKEN_DECIMALS <? d0) || (MAX_TOKEN_DECIMALS <? d1).

Lemma snapshot_layout b f lo hi n fee sp d0 d1 : (MAX_PAYLOAD_BLOCK <? b) = false -> 0 <= f -> snapshot_refused f lo hi fee sp d0 d1 = false ->
  encode_snapshot b f lo hi n fee sp d0 d1 =
  Some ([7 + 16 * f] ++ to_le 7 b ++ to_le 3 lo ++ to_le 3 hi ++ to_le 2 n ++ to_le 4 fee ++ to_le 3 sp ++ [d0] ++ [d1] ++ replicate 15 0).
Proof.
  intros Hb Hf Hg. unfold encode_snapshot. rewrite Hb. cbn [orb]. fold (snapshot_refused f lo hi fee sp d0 d1). rewrite Hg.
  unfold snapshot_refused, FAMILY_ALGEBRA in Hg. assert (f = 0 \/ f = 1 \/ f = 2) as [-> | [-> | ->]] by lia; done.
Qed.

Lemma decode_state t lo hi l s p : event_typed (EvState t lo hi l s) -> encode_state t lo hi l s = Some p ->
  payload p /\ decode p = Some (EvState t lo hi l s).
Proof.
  intros (H1 & H2 & H3) He. destruct (tick_ok t) eqn:Et; [rewrite state_layout in He by done|unfold encode_state in He; by rewrite Et in He].
  apply Some_inj in He. subst p. split; [destruct s; unfold payload; fields_bytes|].
  set (p := [_] ++ _). assert (get_i24 p 1 = t) as E1 by (change (get_i24 p 1) with (i24 (to_le 3 t)); by apply i24_value).
  assert (from_le (get_n 16 p 4) = lo) as E2 by (change (get_n 16 p 4) with (to_le 16 lo); by apply word_value, u128_word).
  assert (from_le (get_n 4 p 20) = hi) as E3 by (change (get_n 4 p 20) with (to_le 4 hi); by apply word_value, u32_word).
  assert (from_le (get_n 16 p 24) = l) as E4 by (change (get_n 16 p 24) with (to_le 16 l); by apply word_value, u128_word).
  assert (get p 0 = 1 + 16 * Z.b2z s) as E0 by done. clearbody p. destruct s; decode_by E0; by rewrite E1, E2, E3, E4, Et.
Qed.

(** A block within the fifty-six bits. *)
Lemma block_guard b : 0 <= b -> (MAX_PAYLOAD_BLOCK <? b) = false -> 0 <= b <= MAX_PAYLOAD_BLOCK.
Proof. intros H0 H%Z.ltb_ge. done. Qed.

Ltac block_field b :=
  match goal with
  | H : (MAX_PAYLOAD_BLOCK <? b) = false, H0 : 0 <= b |- context [get_u56 ?p 1] =>
      assert (get_u56 p 1 = b) as -> by (change (get_u56 p 1) with (from_le (to_le 7 b ++ [0])); by apply u56_value, block_guard)
  end.

(** Reads the word of [k] bytes at [at_] as [z]. *)
Ltac word_at p k at_ z W :=
  assert (from_le (get_n k p at_) = z) by (change (get_n k p at_) with (to_le k z); by apply word_value, W).
Ltac i128_at p at_ z :=
  assert (from_le_i128 (get_n 16 p at_) = z) by (change (get_n 16 p at_) with (to_le 16 z); by apply i128_value).
Ltac i24_at p at_ t :=
  assert (get_i24 p at_ = t) by (change (get_i24 p at_) with (i24 (to_le 3 t)); by apply i24_value).
Ltac u56_at p b :=
  assert (get_u56 p 1 = b) by (change (get_u56 p 1) with (from_le (to_le 7 b ++ [0])); by apply u56_value, block_guard).
Ltac zero_at p a b := assert (zero p a b = true) by done.
Ltac read_fields := repeat match goal with H : ?l = _ |- context [?l] => rewrite H end.

Lemma decode_swap b a0 a1 p : event_typed (EvSwap b a0 a1) -> encode_swap b a0 a1 = Some p ->
  payload p /\ decode p = Some (EvSwap b a0 a1).
Proof.
  intros (H1 & H2 & H3) He. pose proof He as G. unfold encode_swap in G. destruct (MAX_PAYLOAD_BLOCK <? b) eqn:Eb; [done|].
  rewrite swap_layout in He by done. apply Some_inj in He. subst p.
  split; [unfold payload; fields_bytes|]. set (p := [_] ++ _). u56_at p b. i128_at p 8%nat a0. i128_at p 24%nat a1.
  assert (get p 0 = 2) as E0 by done. clearbody p. decode_by E0. read_fields. done.
Qed.

Lemma decode_fee b s x y p : event_typed (EvFee b s x y) -> encode_fee b s x y = Some p -> payload p /\ decode p = Some (EvFee b s x y).
Proof.
  intros (H1 & H2 & H3) He. pose proof He as G. unfold encode_fee in G. destruct (MAX_PAYLOAD_BLOCK <? b) eqn:Eb; [done|]. cbn [orb] in G.
  assert (s = 1 \/ s = 2) as Hs.
  { unfold FEE_SRC_ALGEBRA_V10, FEE_SRC_ALGEBRA_V12 in G. destruct (Z.eqb_spec s 1), (Z.eqb_spec s 2); auto. done. }
  rewrite fee_layout in He by done. apply Some_inj in He. subst p.
  split; [unfold payload; destruct Hs as [-> | ->]; fields_bytes|]. set (p := [_] ++ _). u56_at p b. word_at p 4%nat 8%nat x u32_word.
  word_at p 4%nat 12%nat y u32_word. zero_at p 16%nat PAYLOAD_LEN.
  assert (get p 0 = 3 + 16 * s) as E0 by done. clearbody p. destruct Hs as [-> | ->]; decode_by E0; read_fields; done.
Qed.

Lemma decode_liquidity b burn tl tu a p : event_typed (EvLiquidity b burn tl tu a) -> encode_liquidity b burn tl tu a = Some p ->
  payload p /\ decode p = Some (EvLiquidity b burn tl tu a).
Proof.
  intros (H1 & H2) He. pose proof He as G. unfold encode_liquidity in G. destruct (MAX_PAYLOAD_BLOCK <? b) eqn:Eb; [done|]. cbn [orb] in G.
  destruct (tick_ok tl) eqn:El; [|done]. destruct (tick_ok tu) eqn:Eu; [|done]. cbn [negb orb] in G. destruct (tu <=? tl) eqn:Et; [done|].
  rewrite liquidity_layout in He by done. apply Some_inj in He. subst p.
  split; [destruct burn; unfold payload; fields_bytes|]. set (p := [_] ++ _). u56_at p b. i24_at p 8%nat tl. i24_at p 11%nat tu.
  word_at p 16%nat 16%nat a u128_word. zero_at p 14%nat 16%nat. zero_at p 32%nat PAYLOAD_LEN.
  assert (get p 0 = 4 + 16 * Z.b2z burn) as E0 by done. clearbody p. destruct burn; decode_by E0; read_fields; done.
Qed.

Lemma decode_head b t f p : event_typed (EvHead b t f) -> encode_head b t f = Some p -> payload p /\ decode p = Some (EvHead b t f).
Proof.
  intros (H1 & H2 & H3) He. pose proof He as G. unfold encode_head in G. destruct (MAX_PAYLOAD_BLOCK <? b) eqn:Eb; [done|].
  rewrite head_layout in He by done. apply Some_inj in He. subst p.
  split; [unfold payload; fields_bytes|]. set (p := [_] ++ _). u56_at p b. word_at p 8%nat 8%nat t u64_word. word_at p 16%nat 16%nat f u128_word.
  zero_at p 32%nat PAYLOAD_LEN. assert (get p 0 = 5) as E0 by done. clearbody p. decode_by E0. read_fields. done.
Qed.

Lemma decode_gap b p : event_typed (EvGap b) -> encode_gap b = Some p -> payload p /\ decode p = Some (EvGap b).
Proof.
  intros H1 He. cbn in H1. pose proof He as G. unfold encode_gap in G. destruct (MAX_PAYLOAD_BLOCK <? b) eqn:Eb; [done|].
  rewrite gap_layout in He by done. apply Some_inj in He. subst p.
  split; [unfold payload; fields_bytes|]. set (p := [_] ++ _). u56_at p b. zero_at p 8%nat PAYLOAD_LEN.
  assert (get p 0 = 6) as E0 by done. clearbody p. decode_by E0. read_fields. done.
Qed.

Lemma decode_tick t net g p : event_typed (EvTick t net g) -> encode_tick t net g = Some p -> payload p /\ decode p = Some (EvTick t net g).
Proof.
  intros (H1 & H2) He. pose proof He as G. unfold encode_tick in G. destruct (tick_ok t) eqn:Et; [|done].
  rewrite tick_layout in He by done. apply Some_inj in He. subst p.
  split; [unfold payload; fields_bytes|]. set (p := [_] ++ _). i24_at p 1%nat t. i128_at p 8%nat net. word_at p 16%nat 24%nat g u128_word.
  zero_at p 4%nat 8%nat. assert (get p 0 = 8) as E0 by done. clearbody p. decode_by E0. read_fields. done.
Qed.

Lemma decode_snapshot b f lo hi n fee sp d0 d1 p : event_typed (EvSnapshot b f lo hi n fee sp d0 d1) ->
  encode_snapshot b f lo hi n fee sp d0 d1 = Some p -> payload p /\ decode p = Some (EvSnapshot b f lo hi n fee sp d0 d1).
Proof.
  intros (H1 & H2 & H3 & H4 & H5 & H6) He. destruct (MAX_PAYLOAD_BLOCK <? b) eqn:Eb; [unfold encode_snapshot in He; by rewrite Eb in He|].
  destruct (snapshot_refused f lo hi fee sp d0 d1) eqn:Es.
  { unfold encode_snapshot in He. rewrite Eb in He. cbn [orb] in He. fold (snapshot_refused f lo hi fee sp d0 d1) in He. by rewrite Es in He. }
  rewrite snapshot_layout in He by done. apply Some_inj in He. subst p. pose proof Es as Eg. unfold snapshot_refused in Eg.
  repeat (apply orb_false_iff in Eg as [Eg ?]). repeat match goal with H : negb _ = false |- _ => apply negb_false_iff in H end.
  assert (f = 0 \/ f = 1 \/ f = 2) as Hf by (unfold FAMILY_ALGEBRA in *; lia).
  assert (tick_ok sp = true) as Hsp by (unfold tick_ok; lia).
  assert (d0 < 256 /\ d1 < 256) as [? ?] by (unfold MAX_TOKEN_DECIMALS in *; lia).
  split; [unfold payload; destruct Hf as [-> | [-> | ->]]; fields_bytes|]. set (p := [_] ++ _). u56_at p b. i24_at p 8%nat lo. i24_at p 11%nat hi. i24_at p 20%nat sp.
  word_at p 2%nat 14%nat n u16_word. word_at p 4%nat 16%nat fee u32_word. zero_at p 25%nat PAYLOAD_LEN.
  assert (get p 23 = d0) by done. assert (get p 24 = d1) by done.
  assert (get p 0 = 7 + 16 * f) as E0 by done. clearbody p. destruct Hf as [-> | [-> | ->]]; decode_by E0; read_fields; done.
Qed.

(** What an encoder emits decodes to its event. *)
Lemma decode_encode e p : event_typed e -> encode_event e = Some p -> payload p /\ decode p = Some e.
Proof.
  destruct e; cbn [encode_event]; [apply decode_state|apply decode_swap|apply decode_fee|apply decode_liquidity|apply decode_head|apply decode_gap|
    apply decode_snapshot|apply decode_tick].
Qed.

(** ** Decoded payloads encode to themselves *)

Section Encode.
Variable p : list Z.
Hypothesis Hp : payload p.

Lemma pb : Forall byte p.
Proof. apply Hp. Qed.

Lemma at_bytes k at_ : (at_ + k <= 40)%nat -> bytes k (get_n k p at_).
Proof. intros H. apply get_n_bytes; [apply pb|]. destruct Hp as [-> _]. exact H. Qed.

Lemma at_byte i : (i < 40)%nat -> byte (get p i) /\ get_n 1 p i = [get p i].
Proof.
  intros Hi. destruct Hp as [L F]. destruct (lookup_lt_is_Some_2 p i ltac:(unfold PAYLOAD_LEN in L; lia)) as [b Hb].
  unfold get, get_n. rewrite Hb. split; [by apply (proj1 (Forall_lookup _ _) F i)|]. by rewrite (drop_S _ _ _ Hb).
Qed.

Lemma word16 at_ : (at_ + 16 <= 40)%nat -> to_le 16 (from_le (get_n 16 p at_)) = get_n 16 p at_ /\ in_u128 (from_le (get_n 16 p at_)).
Proof.
  intros H. pose proof (at_bytes 16 at_ H) as B. split; [by apply word_field|]. destruct B as [L F]. pose proof (from_le_bound _ F) as G. rewrite L in G.
  change (256 ^ Z.of_nat 16) with 340282366920938463463374607431768211456 in G. unfold u128_max. lia.
Qed.

Lemma word8 at_ : (at_ + 8 <= 40)%nat -> to_le 8 (from_le (get_n 8 p at_)) = get_n 8 p at_ /\ in_u64 (from_le (get_n 8 p at_)).
Proof.
  intros H. pose proof (at_bytes 8 at_ H) as B. split; [by apply word_field|]. destruct B as [L F]. pose proof (from_le_bound _ F) as G. rewrite L in G.
  change (256 ^ Z.of_nat 8) with 18446744073709551616 in G. unfold u64_max. lia.
Qed.

Lemma word4 at_ : (at_ + 4 <= 40)%nat -> to_le 4 (from_le (get_n 4 p at_)) = get_n 4 p at_ /\ in_u32 (from_le (get_n 4 p at_)).
Proof.
  intros H. pose proof (at_bytes 4 at_ H) as B. split; [by apply word_field|]. destruct B as [L F]. pose proof (from_le_bound _ F) as G. rewrite L in G.
  change (256 ^ Z.of_nat 4) with 4294967296 in G. unfold u32_max. lia.
Qed.

Lemma word2 at_ : (at_ + 2 <= 40)%nat -> to_le 2 (from_le (get_n 2 p at_)) = get_n 2 p at_ /\ 0 <= from_le (get_n 2 p at_) <= u16_max.
Proof.
  intros H. pose proof (at_bytes 2 at_ H) as B. split; [by apply word_field|]. destruct B as [L F]. pose proof (from_le_bound _ F) as G. rewrite L in G.
  change (256 ^ Z.of_nat 2) with 65536 in G. unfold u16_max. lia.
Qed.

Lemma signed16 at_ : (at_ + 16 <= 40)%nat -> to_le 16 (from_le_i128 (get_n 16 p at_)) = get_n 16 p at_ /\ in_i128 (from_le_i128 (get_n 16 p at_)).
Proof.
  intros H. split; [by apply i128_field, at_bytes|]. unfold from_le_i128, wrap_i128, i128_min, i128_max.
  pose proof (Z.mod_pos_bound (from_le (get_n 16 p at_) + 170141183460469231731687303715884105728) 340282366920938463463374607431768211456 ltac:(lia)). lia.
Qed.

Lemma tick3 at_ : (at_ + 3 <= 40)%nat -> to_le 3 (get_i24 p at_) = get_n 3 p at_.
Proof. intros H. change (get_i24 p at_) with (i24 (get_n 3 p at_)). by apply i24_field, at_bytes. Qed.

Lemma block7 : to_le 7 (get_u56 p 1) = get_n 7 p 1 /\ (MAX_PAYLOAD_BLOCK <? get_u56 p 1) = false /\ 0 <= get_u56 p 1.
Proof. destruct (u56_field (get_n 7 p 1)) as [E B]; [apply at_bytes; lia|]. split; [exact E|]. change (from_le (get_n 7 p 1 ++ [0])) with (get_u56 p 1) in B. lia. Qed.

Lemma zero_at_field a b : zero p a b = true -> (a <= b <= 40)%nat -> get_n (b - a) p a = replicate (b - a) 0.
Proof. intros H Hl. apply zero_field; [apply pb|done|]. by destruct Hp as [-> _]. Qed.

(** The payload as its fields; the last one ends it. *)
Lemma split_at k at_ : drop at_ p = get_n k p at_ ++ drop (at_ + k) p.
Proof. apply field_split. Qed.

Lemma ends_at : drop 40 p = [].
Proof. apply drop_ge. destruct Hp as [-> _]. done. Qed.

(** The header byte from its kind and sub field. *)
Lemma header_byte k s : Z.land (get p 0) 15 = k -> Z.shiftr (get p 0) 4 = s -> 0 <= s < 16 /\ get p 0 = Z.lor k (Z.shiftl s 4).
Proof. intros <- <-. apply header_split. apply at_byte. lia. Qed.

(** Consecutive fields. *)
Fixpoint cut (ks : list nat) (at_ : nat) : list Z :=
  match ks with
  | [] => drop at_ p
  | k :: ks => get_n k p at_ ++ cut ks (at_ + k)
  end.

Lemma cut_payload ks : p = cut ks 0.
Proof.
  assert (forall at_, drop at_ p = cut ks at_) as H by (induction ks as [|k ks IH]; intros at_; [done|]; cbn [cut]; rewrite <- IH; apply field_split).
  rewrite <- H. by rewrite drop_0.
Qed.

Lemma bit_of s : 0 <= s < 16 -> Z.land s 254 = 0 -> s = Z.b2z (negb (Z.land s 1 =? 0)).
Proof.
  intros Hs Hl. assert (s = 0 \/ s = 1 \/ s = 2 \/ s = 3 \/ s = 4 \/ s = 5 \/ s = 6 \/ s = 7 \/ s = 8 \/ s = 9 \/ s = 10 \/ s = 11 \/ s = 12 \/ s = 13 \/ s = 14 \/ s = 15) as H by lia.
  repeat destruct H as [-> |H]; try subst s; done.
Qed.

(** The fields laid out again are the payload. *)
Ltac recut ks := f_equal; etransitivity; [|symmetry; apply (cut_payload ks)]; cbn [cut Nat.add]; rewrite ends_at, app_nil_r.

Lemma encode_decode_state s : Z.land (get p 0) 15 = EV_STATE -> Z.shiftr (get p 0) 4 = s -> Z.land s 254 = 0 -> tick_ok (get_i24 p 1) = true ->
  let e := EvState (get_i24 p 1) (from_le (get_n 16 p 4)) (from_le (get_n 4 p 20)) (from_le (get_n 16 p 24)) (negb (Z.land s STATE_SNAPSHOT =? 0)) in
  event_typed e /\ encode_event e = Some p.
Proof.
  intros Hk Hs Hz Ht e. destruct (header_byte _ _ Hk Hs) as [Bs E0]. destruct (word16 4 ltac:(lia)) as [F1 T1]. destruct (word4 20 ltac:(lia)) as [F2 T2].
  destruct (word16 24 ltac:(lia)) as [F3 T3]. split; [done|]. cbn [e encode_event]. rewrite state_layout by done.
  rewrite tick3, F1, F2, F3 by lia. recut [1; 3; 16; 4; 16]%nat.
  destruct (at_byte 0 ltac:(lia)) as [_ ->]. f_equal. f_equal. rewrite E0. clear -Bs Hz. rewrite (bit_of s Bs Hz) at 2. by destruct (negb _).
Qed.

Lemma encode_decode_swap : Z.land (get p 0) 15 = EV_SWAP -> Z.shiftr (get p 0) 4 = 0 ->
  let e := EvSwap (get_u56 p 1) (from_le_i128 (get_n 16 p 8)) (from_le_i128 (get_n 16 p 24)) in event_typed e /\ encode_event e = Some p.
Proof.
  intros Hk Hs e. destruct (header_byte _ _ Hk Hs) as [_ E0]. destruct block7 as (F0 & G0 & T0). destruct (signed16 8 ltac:(lia)) as [F1 T1].
  destruct (signed16 24 ltac:(lia)) as [F2 T2]. split; [done|]. cbn [e encode_event]. rewrite swap_layout by done. rewrite F0, F1, F2.
  recut [1; 7; 16; 16]%nat. destruct (at_byte 0 ltac:(lia)) as [_ ->]. by rewrite E0.
Qed.

Lemma encode_decode_fee s : Z.land (get p 0) 15 = EV_FEE -> Z.shiftr (get p 0) 4 = s -> s = 1 \/ s = 2 -> zero p 16 PAYLOAD_LEN = true ->
  let e := EvFee (get_u56 p 1) s (from_le (get_n 4 p 8)) (from_le (get_n 4 p 12)) in event_typed e /\ encode_event e = Some p.
Proof.
  intros Hk Hs H12 Hz e. destruct (header_byte _ _ Hk Hs) as [_ E0]. destruct block7 as (F0 & G0 & T0). destruct (word4 8 ltac:(lia)) as [F1 T1].
  destruct (word4 12 ltac:(lia)) as [F2 T2]. pose proof (zero_at_field _ _ Hz ltac:(unfold PAYLOAD_LEN; lia)) as Z1. split; [done|].
  cbn [e encode_event]. rewrite fee_layout by done. rewrite F0, F1, F2. recut [1; 7; 4; 4; 24]%nat. change (get_n 24 p 16) with (get_n (PAYLOAD_LEN - 16) p 16).
  rewrite Z1. destruct (at_byte 0 ltac:(lia)) as [_ ->]. rewrite E0. by destruct H12 as [-> | ->].
Qed.

Lemma encode_decode_liquidity s : Z.land (get p 0) 15 = EV_LIQUIDITY -> Z.shiftr (get p 0) 4 = s -> Z.land s 254 = 0 ->
  zero p 14 16 = true -> zero p 32 PAYLOAD_LEN = true -> tick_ok (get_i24 p 8) = true -> tick_ok (get_i24 p 11) = true -> (get_i24 p 11 <=? get_i24 p 8) = false ->
  let e := EvLiquidity (get_u56 p 1) (negb (Z.land s LIQ_BURN =? 0)) (get_i24 p 8) (get_i24 p 11) (from_le (get_n 16 p 16)) in
  event_typed e /\ encode_event e = Some p.
Proof.
  intros Hk Hs Hl Hz1 Hz2 Ht1 Ht2 Ho e. destruct (header_byte _ _ Hk Hs) as [Bs E0]. destruct block7 as (F0 & G0 & T0). destruct (word16 16 ltac:(lia)) as [F1 T1].
  pose proof (zero_at_field _ _ Hz1 ltac:(lia)) as Z1. pose proof (zero_at_field _ _ Hz2 ltac:(unfold PAYLOAD_LEN; lia)) as Z2. split; [done|].
  cbn [e encode_event]. rewrite liquidity_layout by done. rewrite F0, F1, !tick3 by lia. recut [1; 7; 3; 3; 2; 16; 8]%nat.
  change (get_n 2 p 14) with (get_n (16 - 14) p 14). change (get_n 8 p 32) with (get_n (PAYLOAD_LEN - 32) p 32). rewrite Z1, Z2.
  destruct (at_byte 0 ltac:(lia)) as [_ ->]. f_equal. f_equal. rewrite E0. clear -Bs Hl. rewrite (bit_of s Bs Hl) at 2. by destruct (negb _).
Qed.

Lemma encode_decode_head : Z.land (get p 0) 15 = EV_HEAD -> Z.shiftr (get p 0) 4 = 0 -> zero p 32 PAYLOAD_LEN = true ->
  let e := EvHead (get_u56 p 1) (from_le (get_n 8 p 8)) (from_le (get_n 16 p 16)) in event_typed e /\ encode_event e = Some p.
Proof.
  intros Hk Hs Hz e. destruct (header_byte _ _ Hk Hs) as [_ E0]. destruct block7 as (F0 & G0 & T0). destruct (word8 8 ltac:(lia)) as [F1 T1].
  destruct (word16 16 ltac:(lia)) as [F2 T2]. pose proof (zero_at_field _ _ Hz ltac:(unfold PAYLOAD_LEN; lia)) as Z1. split; [done|].
  cbn [e encode_event]. rewrite head_layout by done. rewrite F0, F1, F2. recut [1; 7; 8; 16; 8]%nat. change (get_n 8 p 32) with (get_n (PAYLOAD_LEN - 32) p 32).
  rewrite Z1. destruct (at_byte 0 ltac:(lia)) as [_ ->]. by rewrite E0.
Qed.

Lemma encode_decode_gap : Z.land (get p 0) 15 = EV_GAP -> Z.shiftr (get p 0) 4 = 0 -> zero p 8 PAYLOAD_LEN = true ->
  let e := EvGap (get_u56 p 1) in event_typed e /\ encode_event e = Some p.
Proof.
  intros Hk Hs Hz e. destruct (header_byte _ _ Hk Hs) as [_ E0]. destruct block7 as (F0 & G0 & T0).
  pose proof (zero_at_field _ _ Hz ltac:(unfold PAYLOAD_LEN; lia)) as Z1. split; [done|].
  cbn [e encode_event]. rewrite gap_layout by done. rewrite F0. recut [1; 7; 32]%nat. change (get_n 32 p 8) with (get_n (PAYLOAD_LEN - 8) p 8).
  rewrite Z1. destruct (at_byte 0 ltac:(lia)) as [_ ->]. by rewrite E0.
Qed.

Lemma encode_decode_snapshot s : Z.land (get p 0) 15 = EV_SNAPSHOT -> Z.shiftr (get p 0) 4 = s -> zero p 25 PAYLOAD_LEN = true ->
  snapshot_refused s (get_i24 p 8) (get_i24 p 11) (from_le (get_n 4 p 16)) (get_i24 p 20) (get p 23) (get p 24) = false ->
  let e := EvSnapshot (get_u56 p 1) s (get_i24 p 8) (get_i24 p 11) (from_le (get_n 2 p 14)) (from_le (get_n 4 p 16)) (get_i24 p 20) (get p 23) (get p 24) in
  event_typed e /\ encode_event e = Some p.
Proof.
  intros Hk Hs Hz Hr e. destruct (header_byte _ _ Hk Hs) as [Bs E0]. destruct block7 as (F0 & G0 & T0). destruct (word2 14 ltac:(lia)) as [F1 T1].
  destruct (word4 16 ltac:(lia)) as [F2 T2]. destruct (at_byte 23 ltac:(lia)) as [[B1 _] C1]. destruct (at_byte 24 ltac:(lia)) as [[B2 _] C2].
  pose proof (zero_at_field _ _ Hz ltac:(unfold PAYLOAD_LEN; lia)) as Z1. split; [cbn [e event_typed]; lia|].
  cbn [e encode_event]. rewrite snapshot_layout by (done || lia). rewrite F0, F1, F2, !tick3 by lia. recut [1; 7; 3; 3; 2; 4; 3; 1; 1; 15]%nat.
  change (get_n 15 p 25) with (get_n (PAYLOAD_LEN - 25) p 25). rewrite Z1, C1, C2. destruct (at_byte 0 ltac:(lia)) as [_ ->]. rewrite E0.
  unfold snapshot_refused, FAMILY_ALGEBRA in Hr. assert (s = 0 \/ s = 1 \/ s = 2) as [H | [H | H]] by lia; by rewrite H.
Qed.

Lemma encode_decode_tick : Z.land (get p 0) 15 = EV_TICK -> Z.shiftr (get p 0) 4 = 0 -> zero p 4 8 = true -> tick_ok (get_i24 p 1) = true ->
  let e := EvTick (get_i24 p 1) (from_le_i128 (get_n 16 p 8)) (from_le (get_n 16 p 24)) in event_typed e /\ encode_event e = Some p.
Proof.
  intros Hk Hs Hz Ht e. destruct (header_byte _ _ Hk Hs) as [_ E0]. destruct (signed16 8 ltac:(lia)) as [F1 T1]. destruct (word16 24 ltac:(lia)) as [F2 T2].
  pose proof (zero_at_field _ _ Hz ltac:(lia)) as Z1. split; [done|]. cbn [e encode_event]. rewrite tick_layout by done. rewrite F1, F2, tick3 by lia.
  recut [1; 3; 4; 16; 16]%nat. change (get_n 4 p 4) with (get_n (8 - 4) p 4). rewrite Z1. destruct (at_byte 0 ltac:(lia)) as [_ ->]. by rewrite E0.
Qed.

(** A decoded event encodes to the payload it came from. *)
Lemma encode_decode e : decode p = Some e -> event_typed e /\ encode_event e = Some p.
Proof.
  unfold decode. set (s := Z.shiftr (get p 0) 4). cbv zeta.
  destruct (Z.eqb_spec (Z.land (get p 0) 15) EV_STATE) as [K|_].
  { destruct (Z.eqb_spec (Z.land s 254) 0); [|done]. destruct (tick_ok (get_i24 p 1)) eqn:Et; [|done]. intros [= <-]. by apply encode_decode_state. }
  destruct (Z.eqb_spec (Z.land (get p 0) 15) EV_SWAP) as [K|_].
  { destruct (Z.eqb_spec s 0); [|done]. intros [= <-]. by apply encode_decode_swap. }
  destruct (Z.eqb_spec (Z.land (get p 0) 15) EV_FEE) as [K|_].
  { destruct (_ || _) eqn:G; [done|]. apply orb_false_iff in G as [G1 G2%negb_false_iff]. intros [= <-]. apply encode_decode_fee; try done.
    unfold FEE_SRC_ALGEBRA_V10, FEE_SRC_ALGEBRA_V12 in G1. lia. }
  destruct (Z.eqb_spec (Z.land (get p 0) 15) EV_LIQUIDITY) as [K|_].
  { destruct (_ || _) eqn:G; [done|]. repeat (apply orb_false_iff in G as [G ?]). repeat match goal with H : negb _ = false |- _ => apply negb_false_iff in H end.
    intros [= <-]. apply encode_decode_liquidity; try done. by apply Z.eqb_eq. }
  destruct (Z.eqb_spec (Z.land (get p 0) 15) EV_HEAD) as [K|_].
  { destruct (Z.eqb_spec s 0); [|done]. destruct (zero p 32 PAYLOAD_LEN) eqn:Ez; [|done]. intros [= <-]. by apply encode_decode_head. }
  destruct (Z.eqb_spec (Z.land (get p 0) 15) EV_GAP) as [K|_].
  { destruct (Z.eqb_spec s 0); [|done]. destruct (zero p 8 PAYLOAD_LEN) eqn:Ez; [|done]. intros [= <-]. by apply encode_decode_gap. }
  destruct (Z.eqb_spec (Z.land (get p 0) 15) EV_SNAPSHOT) as [K|_].
  { destruct (_ || _) eqn:G; [done|]. intros [= <-]. apply encode_decode_snapshot; [done|done| |].
    - repeat (apply orb_false_iff in G as [G ?]). by match goal with H : negb (zero _ _ _) = false |- _ => apply negb_false_iff in H end.
    - repeat (apply orb_false_iff in G as [G ?]). unfold snapshot_refused. repeat match goal with H : _ = false |- _ => rewrite H; clear H end. done. }
  destruct (Z.eqb_spec (Z.land (get p 0) 15) EV_TICK) as [K|_]; [|done].
  destruct (Z.eqb_spec s 0); [|done]. destruct (zero p 4 8) eqn:Ez; [|done]. destruct (tick_ok (get_i24 p 1)) eqn:Et; [|done]. intros [= <-].
  by apply encode_decode_tick.
Qed.

End Encode.
