(* ===== verification/AmmLaws.v ===== *)
(** * The laws of the AMM engine

    A pool and its tick map under swaps and positions, and the properties of
    the engine: exact arithmetic, ticks and prices, the lawful step and swap,
    the tick map as a finite map. *)

From Stdlib Require Import Sorting.
From stdpp Require Import gmap sorting.
From S2P Require Import Prelude AmmU256 AmmLimbs AmmDivision AmmArith AmmTick AmmTickProofs AmmTickLog AmmStep AmmStepProofs.
From S2P Require Import AmmTypes AmmMapProofs AmmPrice AmmSwap AmmSwapProofs AmmFill AmmFillProofs.

#[local] Open Scope machine_scope.

(** ** A pool under swaps and positions *)

Section Pool.
Variables (N : nat) (meta : PoolMeta).

(** The ends of a position lie on the grid of a pool that has one. *)
Definition on_grid (t : Z) : Prop := pm_kind meta <> AMM_KIND_ALGEBRA -> Z.rem t (tick_spacing meta) = 0.

(** A swap consumed from the pool, or a mint or burn applied to it and to its
    map. *)
Inductive amm_step : PoolState * TickMap -> PoolState * TickMap -> Prop :=
| step_swap s m spec : spec_wf spec -> amm_step (s, m) (sr_after (swap_exact N s meta m spec), m)
| step_position s m tl tu delta : on_grid tl -> on_grid tu -> i128_min <= delta <= i128_max ->
    amm_step (s, m) (fst (pool_apply_position tl tu delta s), fst (apply_position N tl tu delta m)).

Record good (s : PoolState) (m : TickMap) : Prop := {
  gd_pool : pool_wf s;
  gd_tick : ticked s;
  gd_map : map_ok N m;
  gd_domain : MIN_TICK <= lo_tick m /\ MIN_TICK <= hi_tick m <= MAX_TICK;
  gd_grid : forall n, n ∈ live_nodes N m -> on_grid (tn_tick n);
  gd_edge : hi_tick m < ps_tick s \/ pool_price s <= val (sqrt_ratio_at_tick (hi_tick m))
}.

Lemma good_nodes s m : good s m -> nodes_ok (pm_kind meta =? AMM_KIND_ALGEBRA) (tick_spacing meta) (live_nodes N m).
Proof.
  intros G. pose proof (gd_map s m G) as K. split.
  - apply ascending_sorted, mo_sorted, K.
  - intros i Hi. pose proof (mo_nodes N m K) as F. rewrite Forall_forall in F.
    destruct (F (live_nodes N m !!! i)) as (B & _); [apply list_elem_of_lookup_total; by exists i|].
    pose proof (gd_domain s m G). unfold in_ticks. lia.
  - intros Hk i Hi. apply (gd_grid s m G); [apply list_elem_of_lookup_total; by exists i|]. apply Z.eqb_neq, Hk.
Qed.

(** Above the coverage the walk refuses. *)
Lemma walk_above linked s sp nodes lo hi known spec : hi < ps_tick s -> walk linked s sp nodes lo hi known spec = swap_refused s.
Proof. intros H. unfold walk. destruct (Z.ltb_spec hi (ps_tick s)); [|lia]. by rewrite !orb_true_r. Qed.

Lemma swap_exact_law s m spec : good s m -> spec_wf spec ->
  let r := swap_exact N s meta m spec in r = swap_refused s \/ swap_lawful s (lo_tick m) (hi_tick m) spec r.
Proof.
  intros G Hs. unfold swap_exact. destruct (has_coverage m); [|by left]. cbn [negb]. unfold walk_kind.
  destruct (Z.lt_ge_cases (hi_tick m) (ps_tick s)) as [Ha|Ha]; [left; by apply walk_above|].
  apply walk_law; [eapply good_nodes, G|apply G|exact Hs|apply G|].
  destruct (gd_domain s m G) as (_ & H1 & _). split; [done|]. intros _. destruct (gd_edge s m G) as [|He]; [lia|by right].
Qed.

Lemma swap_good s m spec : good s m -> spec_wf spec -> good (sr_after (swap_exact N s meta m spec)) m.
Proof.
  intros G Hs. destruct (swap_exact_law s m spec G Hs) as [-> | L]; [exact G|]. pose proof G as [G1 G2 G3 (D1 & D2 & D3) G5 G6].
  destruct (sl_pool _ _ _ _ _ L) as [P1 P2]. split; try done. pose proof (sl_way _ _ _ _ _ L) as Wy. unfold toward in Wy.
  destruct (zero_for_one spec) eqn:Ez.
  - destruct (Z.lt_ge_cases (hi_tick m) (ps_tick s)) as [Ha|Ha].
    + left. unfold swap_exact in *. destruct (has_coverage m); [|exact Ha]. cbn [negb] in *. unfold walk_kind in *. by rewrite walk_above in *.
    + right. destruct G6 as [|G6]; lia.
  - right. destruct (sl_coverage_up _ _ _ _ _ L) as [Hu|Hu]; [|congruence]. by rewrite ratio_min_max in Hu.
Qed.

(** A node's tick is a key of the map. *)
Lemma node_key n L : StronglySorted before L -> n ∈ L -> book L !! tn_tick n = Some (liquidity_gross n, liquidity_net n).
Proof.
  intros S H. apply elem_of_list_to_map_1; [by apply sorted_nodup|]. apply list_elem_of_fmap. by exists n.
Qed.

Lemma key_node t v L : book L !! t = Some v -> exists n, n ∈ L /\ tn_tick n = t.
Proof.
  intros H. apply elem_of_list_to_map_2, list_elem_of_fmap in H as (n & E & Hn). exists n. by injection E.
Qed.

Lemma put_end_key t v M u w : put_end t v M !! u = Some w -> u = t \/ M !! u = Some w.
Proof.
  destruct (Z.eq_dec u t) as [|H]; [by left|]. right. destruct v as [v|]; [|done]. cbn [put_end] in *. by rewrite put_ne in * by done.
Qed.

Lemma position_keys lo hi tl tu d M u w : fst (position_spec N lo hi tl tu d M) !! u = Some w -> u = tl \/ u = tu \/ M !! u = Some w.
Proof.
  unfold position_spec. destruct (_ || _ || _ || _); [auto|]. destruct (_ || _); [auto|].
  destruct (move_end _ _ tl _ _ _); [|auto]. destruct (move_end _ _ tu _ _ _); [|auto]. destruct (_ <? _)%nat; [auto|].
  intros [H|[H|H]%put_end_key]%put_end_key; auto.
Qed.

Lemma position_good s m tl tu delta : good s m -> on_grid tl -> on_grid tu -> i128_min <= delta <= i128_max ->
  good (fst (pool_apply_position tl tu delta s)) (fst (apply_position N tl tu delta m)).
Proof.
  intros G Hl Hu Hd. pose proof G as [(P1 & P2 & P3) G2 G3 G4 G5 G6].
  pose proof (apply_position_spec N m tl tu delta G3 Hd) as A. destruct (apply_position N tl tu delta m) as [m' r].
  destruct A as (K & El & Eh & Eb & _). cbn [fst].
  assert (exists l, fst (pool_apply_position tl tu delta s) = set_liquidity l s /\ u128 l) as (l & -> & Ul).
  { assert (exists l, s = set_liquidity l s /\ u128 l) as Hs by (exists (ps_liquidity s); by destruct s).
    unfold pool_apply_position. destruct (_ || _); [done|]. destruct (_ || _); [done|]. cbv zeta. unfold checked_u128.
    pose proof u128_max_W. destruct (0 <=? delta).
    - destruct (Z.leb_spec 0 (ps_liquidity s + delta)), (Z.leb_spec (ps_liquidity s + delta) u128_max); cbn; try done. eexists. split; [done|]. unfold u128. lia.
    - destruct (Z.leb_spec 0 (ps_liquidity s - Z.abs delta)), (Z.leb_spec (ps_liquidity s - Z.abs delta) u128_max); cbn; try done. eexists. split; [done|]. unfold u128. lia. }
  split; [done|exact G2|exact K|by rewrite El, Eh| |by rewrite Eh].
  intros n Hn. pose proof (node_key n _ (mo_sorted N m' K) Hn) as Hk.
  assert (book (live_nodes N m') = fst (position_spec N (lo_tick m) (hi_tick m) tl tu delta (book (live_nodes N m)))) as E by (by rewrite <- Eb).
  rewrite E in Hk. assert (forall w, book (live_nodes N m) !! tn_tick n = Some w -> on_grid (tn_tick n)) as Old.
  { intros w (x & Hx & <-)%key_node. by apply G5. }
  destruct (position_keys _ _ _ _ _ _ _ _ Hk) as [-> |[-> |H]]; [done|done|by eapply Old].
Qed.

Lemma reachable_good s m s' m' : rtc amm_step (s, m) (s', m') -> good s m -> good s' m'.
Proof.
  intros R. remember (s, m) as a eqn:Ea. remember (s', m') as b eqn:Eb. revert s m Ea. induction R as [|a [s1 m1] b St R IH].
  - intros s m Ea G. by simplify_eq.
  - intros s m -> G. apply (IH Eb s1 m1 eq_refl). inversion St; subst; [by apply swap_good|by apply position_good].
Qed.

End Pool.

(** ** The arbitrage solve *)

(** A quote that is not one: no side, the pool as it was, nothing gained. *)
Definition no_quote (s : PoolState) (q : ArbQuote) : Prop :=
  aq_side q = ArbNone /\ aq_after q = s /\ pnl_usd_1e6 q <= 0 /\ token0_raw q = 0 /\ token1_raw q = 0.

Lemma arb_none_no_quote s flags pnl : no_quote s (arb_none s flags pnl).
Proof. split_and!; try done. cbn. destruct (Z.ltb_spec 0 pnl); lia. Qed.

(** The pool's price of token0, times 10^18. *)
Definition arb_mid (s : PoolState) (meta : PoolMeta) : U256 :=
  price_1e18_u (U256.from_u160 (sqrt_price_lo s) (sqrt_price_hi s)) (dec0 meta) (dec1 meta).

(** The price at which the pool's margin, its fee included, meets the hedge:
    rounded down for a buy, up for a sale. *)
Definition arb_target (meta : PoolMeta) (p : ArbParams) (buy : bool) : Z :=
  let keep := PIPS_FILL - pm_fee_pips meta in
  Z.min u128_max (if buy then eff_bid_1e18 p * keep / PIPS_FILL else cdiv (eff_ask_1e18 p * PIPS_FILL) keep).

(** The swap the solve runs: of the notional cap in token0, at the pool's fee,
    toward the target, with an edge over the hedge before it starts. *)
Record arb_order (s : PoolState) (meta : PoolMeta) (p : ArbParams) (buy : bool) (spec : SwapSpec) : Prop := {
  ao_amount : sp_amount spec = arb_cap meta p;
  ao_fee : sp_fee_pips spec = pm_fee_pips meta;
  ao_way : zero_for_one spec = negb buy;
  ao_exact : sp_exact_in spec = negb buy;
  ao_limit : asked_limit spec = val (sqrt_from_price_u (arb_target meta p buy) (dec0 meta) (dec1 meta));
  ao_edge : if buy then val (arb_mid s meta) * PIPS_FILL < eff_bid_1e18 p * (PIPS_FILL - pm_fee_pips meta)
            else eff_ask_1e18 p * PIPS_FILL < val (arb_mid s meta) * (PIPS_FILL - pm_fee_pips meta)
}.

(** A quote of the swap [r]: its legs are what the pool takes in, fee
    included, and gives out; its pool is the one after the swap; the token0 leg
    priced at the hedge, rounded against us, beats the token1 leg, and the gain
    reported is what the difference is worth, never more, less the gas. *)
Record quoted (s : PoolState) (meta : PoolMeta) (p : ArbParams) (buy : bool) (r : SwapResult) (q : ArbQuote) : Prop := {
  qt_side : aq_side q = if buy then BuyToken0 else SellToken0;
  qt_legs : if buy then token0_raw q = sr_amount_out r /\ token1_raw q = sr_amount_in r
            else token0_raw q = sr_amount_in r /\ token1_raw q = sr_amount_out r;
  qt_after : aq_after q = sr_after r /\ pool_wf (aq_after q) /\ ticked (aq_after q);
  qt_way : let target := val (sqrt_from_price_u (arb_target meta p buy) (dec0 meta) (dec1 meta)) in
    if buy then pool_price s <= pool_price (aq_after q) <= target else target <= pool_price (aq_after q) <= pool_price s;
  qt_size : 0 < token0_raw q <= arb_cap meta p /\ 0 < token1_raw q;
  qt_gain : exists hedge edge gain,
    t0_to_t1_raw (token0_raw q) (if buy then eff_bid_1e18 p else eff_ask_1e18 p) (dec0 meta) (dec1 meta) (negb buy) = Some hedge /\
    edge = (if buy then val hedge - token1_raw q else token1_raw q - val hedge) /\ 0 < edge /\
    gain = t1_raw_to_usd_1e6 (of_z edge) false (px0_usd_1e6 p) (arb_mid s meta) (dec1 meta) /\
    gain * val (arb_mid s meta) <= scaled_by edge (18 - dec1 meta) false * px0_usd_1e6 p /\
    pnl_usd_1e6 q = gain - Z.max 0 (gas_usd_1e6 p) /\ 0 < pnl_usd_1e6 q
}.

Lemma cap_i64_range v : 0 <= v -> 0 <= cap_i64 v <= i64_max.
Proof. unfold cap_i64, i64_max. destruct (Z.ltb_spec 9223372036854775807 v); lia. Qed.

(** A difference of nothing is worth nothing. *)
Lemma usd_of mag (neg : bool) px mid d1 : wf mag -> wf mid -> 0 < val mid -> u128 px -> 0 <= d1 ->
  let v := t1_raw_to_usd_1e6 mag neg px mid d1 in
  - i64_max <= v <= i64_max /\ (neg = true \/ val mag = 0 -> v <= 0) /\
  (neg = false -> v * val mid <= scaled_by (val mag) (18 - d1) false * px).
Proof.
  intros Wm Wd Pd Up Hd. cbv zeta. unfold t1_raw_to_usd_1e6. cbv zeta.
  set (num := match scale10 mag _ _ with Some v => v | None => U256.MAX end).
  assert (wf U256.MAX) as Wx by (unfold wf, u128; cbn [U256.MAX U256.hi U256.lo]; rewrite u128_max_W; pose proof W_big; lia).
  assert (wf num /\ (val mag = 0 -> val num = 0) /\ val num <= scaled_by (val mag) (18 - d1) false) as (Wn & Zn & Nn).
  { unfold num. split_and!.
    3: { destruct (scale10 mag (18 - d1) false) as [w|] eqn:E; [destruct (scale10_val _ _ _ _ Wm E) as [_ ->]; lia|].
         apply (scale10_none _ _ Wm E). lia. }
    - destruct (scale10 mag (18 - d1) false) as [w|] eqn:E; [|done]. by apply (scale10_val _ _ _ _ Wm E).
    - intros Z. destruct (scale10_zero mag (18 - d1) Wm Z ltac:(lia)) as (w & -> & _ & Vw). exact Vw. }
  set (v := match mul_div num _ mid with Some v => U256.saturating_u128 v | None => u128_max end).
  assert (0 <= v /\ (val mag = 0 -> v = 0) /\ v <= val num * px / val mid) as (V0 & Vz & Vq).
  { unfold v. rewrite mul_div_val, val_u128 by (done || by apply wf_u128). destruct (Z.eqb_spec (val mid) 0); [lia|]. pose proof (val_bound _ Wn).
    unfold u128 in Up. assert (0 <= val num * px / val mid) as Q by (apply Z.div_pos; [apply Z.mul_nonneg_nonneg; lia|lia]).
    pose proof u128_max_W. pose proof W_big. unfold checked. destruct (Z.ltb_spec (val num * px / val mid) WW) as [L|L].
    - rewrite saturating_val, val_of_z by (apply wf_of_z; lia). split_and!; [lia| |lia]. intros Z. rewrite (Zn Z), Z.mul_0_l, Zdiv_0_l. lia.
    - split_and!; [lia| |unfold WW in L; nia]. intros Z. rewrite (Zn Z), Z.mul_0_l, Zdiv_0_l in L. unfold WW in L. lia. }
  pose proof (cap_i64_range v V0) as C. assert (val mag = 0 -> cap_i64 v = 0) as Cz by (intros Z; by rewrite (Vz Z)).
  assert (cap_i64 v <= v) as Cv by (unfold cap_i64, i64_max in *; destruct (Z.ltb_spec 9223372036854775807 v); lia).
  assert (cap_i64 v * val mid <= scaled_by (val mag) (18 - d1) false * px) as Cw.
  { unfold u128 in Up. pose proof (Z.mul_div_le (val num * px) (val mid) Pd). nia. }
  destruct neg; (split; [lia|]); (split; [|done]); [lia|]. intros [|Z]; [done|]. specialize (Cz Z). lia.
Qed.

Lemma arb_quote_law s meta p (buy : bool) gross target spec r lo hi mid : mid = arb_mid s meta ->
  wf mid -> 0 < val mid -> u128 (px0_usd_1e6 p) -> 0 <= dec1 meta ->
  u128 (eff_bid_1e18 p) -> u128 (eff_ask_1e18 p) -> gas_usd_1e6 p <= i64_max ->
  arb_order s meta p buy spec -> r = swap_refused s \/ swap_lawful s lo hi spec r ->
  let q := arb_quote s meta p buy gross mid target r in no_quote s q \/ quoted s meta p buy r q.
Proof.
  intros Emid Wd Pd Up Hd Ub Ua Hg [Ec _ Ez Ex El _] [-> |L]; [left; apply arb_none_no_quote|]. cbv zeta. unfold arb_quote.
  destruct (sl_words _ _ _ _ _ L) as [Ui Uo]. pose proof (sl_amount _ _ _ _ _ L) as Am. pose proof (sl_way _ _ _ _ _ L) as Way.
  rewrite Ex in Am. rewrite Ez, El in Way. unfold toward in Way.
  destruct (negb (_ =? 0)); [left; apply arb_none_no_quote|]. cbv zeta.
  set (tt' := if buy then (sr_amount_out r, sr_amount_in r) else (sr_amount_in r, sr_amount_out r)).
  assert (exists t0 t1, tt' = (t0, t1) /\ u128 t0 /\ u128 t1 /\ t0 <= sp_amount spec /\
    (if buy then t0 = sr_amount_out r /\ t1 = sr_amount_in r else t0 = sr_amount_in r /\ t1 = sr_amount_out r))
    as (t0 & t1 & -> & U0 & U1 & Ht & Hlegs).
  { unfold tt', u128 in *. destruct buy; eexists _, _; (split; [done|]); cbn [negb] in *; split_and!; lia. }
  destruct ((t0 =? 0) || (t1 =? 0)) eqn:E0; [left; apply arb_none_no_quote|]. apply orb_false_iff in E0 as [E0%Z.eqb_neq E1%Z.eqb_neq].
  set (legs := if buy then _ else _).
  assert (legs = None \/ exists plus minus, legs = Some (plus, minus) /\ wf plus /\ wf minus /\
    (if buy then t0_to_t1_raw t0 (eff_bid_1e18 p) (dec0 meta) (dec1 meta) false = Some plus /\ val minus = t1
     else t0_to_t1_raw t0 (eff_ask_1e18 p) (dec0 meta) (dec1 meta) true = Some minus /\ val plus = t1)) as [-> |(plus & minus & -> & Wp & Wm & Hl)].
  { assert (forall px up w, u128 px -> t0_to_t1_raw t0 px (dec0 meta) (dec1 meta) up = Some w -> wf w) as Ww.
    { intros px up w Upx Hw. unfold t0_to_t1_raw in Hw. rewrite mul_u128_val in Hw by done.
      assert (wf (of_z (t0 * px))) as Wx by (apply wf_of_z; unfold u128, WW in *; split; [apply Z.mul_nonneg_nonneg|apply Z.mul_lt_mono_nonneg]; lia).
      by apply (scale10_val _ _ _ _ Wx Hw). }
    unfold legs. destruct buy.
    - destruct (t0_to_t1_raw t0 (eff_bid_1e18 p) _ _ _) as [w|] eqn:Ew; [|by left]. right. exists w, (U256.from_u128 t1).
      split_and!; [done|exact (Ww _ _ _ Ub Ew)|by apply wf_u128|done|by apply val_u128].
    - destruct (t0_to_t1_raw t0 (eff_ask_1e18 p) _ _ _) as [w|] eqn:Ew; [|by left]. right. exists (U256.from_u128 t1), w.
      split_and!; [done|by apply wf_u128|exact (Ww _ _ _ Ua Ew)|done|by apply val_u128]. }
  { left. apply arb_none_no_quote. }
  rewrite checked_sub_val by done. set (gas := if 0 <? gas_usd_1e6 p then gas_usd_1e6 p else 0).
  assert (0 <= gas <= i64_max /\ gas = Z.max 0 (gas_usd_1e6 p)) as [Bg Eg] by (unfold gas, i64_max in *; destruct (Z.ltb_spec 0 (gas_usd_1e6 p)); lia).
  pose proof (val_bound _ Wp) as Bp. pose proof (val_bound _ Wm) as Bm. destruct (Z.ltb_spec (val plus) (val minus)) as [Hlt|Hge].
  - assert (wf (U256.wrapping_sub minus plus)) as Wg by (rewrite wrapping_sub_val by done; apply wf_of_z, Z.mod_pos_bound; done).
    destruct (usd_of _ true (px0_usd_1e6 p) mid (dec1 meta) Wg Wd Pd Up Hd) as (V1 & V2 & _). cbv zeta in *. specialize (V2 ltac:(by left)).
    set (pre := t1_raw_to_usd_1e6 _ _ _ _ _) in *. destruct (Z.leb_spec (pre -| gas) 0) as [|Hp]; [left; apply arb_none_no_quote|].
    exfalso. revert Hp. ilia.
  - assert (wf (of_z (val plus - val minus))) as Wg by (apply wf_of_z; lia).
    destruct (usd_of _ false (px0_usd_1e6 p) mid (dec1 meta) Wg Wd Pd Up Hd) as (V1 & V2 & V3). cbv zeta in *. rewrite val_of_z in V2, V3.
    remember (t1_raw_to_usd_1e6 _ _ _ _ _) as pre eqn:Epre. destruct (Z.leb_spec (pre -| gas) 0) as [|Hp]; [left; apply arb_none_no_quote|].
    assert (pre -| gas = pre - gas) as Es by (revert Hp; ilia). rewrite Es in *.
    assert (val plus <> val minus) as Hne by (intros E; rewrite E, Z.sub_diag in V2; specialize (V2 ltac:(by right)); lia).
    right. destruct (sl_pool _ _ _ _ _ L) as [Pw Pt]. split; cbn [aq_side aq_after token0_raw token1_raw pnl_usd_1e6].
    + done.
    + exact Hlegs.
    + done.
    + destruct buy; cbn [negb] in *; lia.
    + unfold u128 in *. lia.
    + rewrite <- Emid, Eg. exists (if buy then plus else minus), (val plus - val minus), pre. specialize (V3 eq_refl).
      clearbody gas. assert (0 < val plus - val minus) as Hpos by lia.
      destruct buy; destruct Hl as [Hl Hv]; cbn [negb]; (split; [exact Hl|split; [lia|split; [exact Hpos|]]]).
      all: split; [exact Epre|split; [exact V3|lia]].
Qed.

(** The target price is the one the hedge and the fee make. *)
Lemma arb_target_val meta p (buy : bool) v : 0 <= pm_fee_pips meta < PIPS_FILL -> u128 (eff_bid_1e18 p) -> u128 (eff_ask_1e18 p) ->
  (if buy then mul_div (U256.from_u128 (eff_bid_1e18 p)) (U256.from_u128 (PIPS_FILL - pm_fee_pips meta)) (U256.from_u128 PIPS_FILL)
   else mul_div_rounding_up (U256.from_u128 (eff_ask_1e18 p)) (U256.from_u128 PIPS_FILL) (U256.from_u128 (PIPS_FILL - pm_fee_pips meta))) = Some v ->
  U256.saturating_u128 v = arb_target meta p buy /\ u128 (arb_target meta p buy).
Proof.
  intros Hf Ub Ua H. assert (u128 PIPS_FILL) as U6 by done.
  assert (u128 (PIPS_FILL - pm_fee_pips meta)) as U7 by (unfold u128, PIPS_FILL in *; rewrite W_pow; lia).
  assert (wf v /\ U256.saturating_u128 v = arb_target meta p buy) as [Wv E]; [|split; [exact E|rewrite <- E; by apply saturating_u128_word]].
  unfold arb_target, u128, PIPS_FILL in *. cbv zeta. destruct buy.
  - rewrite mul_div_val, !val_u128 in H by (by apply wf_u128). cbn [Z.eqb] in H.
    apply checked_is in H as [Wv Hv]; [|apply Z.div_pos; nia]. split; [done|]. rewrite saturating_val, Hv by done. lia.
  - rewrite mul_div_rounding_up_val, !val_u128 in H by (by apply wf_u128). destruct (Z.eqb_spec (1000000 - pm_fee_pips meta) 0); [done|].
    apply checked_is in H as [Wv Hv]; [|apply cdiv_nonneg; nia]. split; [done|]. rewrite saturating_val, Hv by done. lia.
Qed.

Lemma arb_mid_wf s meta : pool_wf s -> wf (arb_mid s meta).
Proof. intros (Pl & Ph & _). unfold arb_mid. apply price_1e18_u_wf. exact (proj1 (wf_u160 _ _ Pl Ph)). Qed.

(** Against a pool in order, the solve quotes a lawful swap or nothing. *)
Lemma solve_arb_law N s meta m p : good N meta s m -> 0 <= pm_fee_pips meta -> 0 <= dec1 meta -> u128 (eff_bid_1e18 p) -> u128 (eff_ask_1e18 p) ->
  px0_usd_1e6 p <= i64_max -> max_notional_usd_1e6 p <= i64_max -> gas_usd_1e6 p <= i64_max ->
  let q := solve_arb N s meta m p in
  no_quote s q \/ exists buy spec, arb_order s meta p buy spec /\ quoted s meta p buy (swap_exact N s meta m spec) q.
Proof.
  intros G Hf Hd Ub Ua Hp0 Hn Hg q. unfold q, solve_arb. clear q. destruct (_ || _) eqn:Eg; [left; apply arb_none_no_quote|].
  repeat (apply orb_false_iff in Eg as [Eg ?]). apply Z.leb_gt in H, H0. apply negb_false_iff in H1.
  destruct (Z.leb_spec PIPS_FILL (pm_fee_pips meta)) as [|Hff]; [left; apply arb_none_no_quote|]. cbv zeta.
  pose proof (arb_mid_wf s meta (gd_pool N meta s m G)) as Wd.
  assert (exists mid, mid = arb_mid s meta) as [mid Emid] by by eexists. rewrite <- Emid in Wd. unfold arb_mid in Emid. rewrite <- Emid.
  assert (mid = arb_mid s meta) as Emid' by exact Emid. clear Emid. rewrite is_zero_val by done. destruct (Z.eqb_spec (val mid) 0) as [|Hz]; [left; apply arb_none_no_quote|]. pose proof (val_bound _ Wd).
  assert (u128 PIPS_FILL /\ u128 (PIPS_FILL - pm_fee_pips meta)) as [U6 U7].
  { split; [done|]. unfold u128, PIPS_FILL in *; rewrite W_pow; lia. }
  destruct (U256.checked_mul (U256.from_u128 (eff_bid_1e18 p)) _) as [bid_net|] eqn:E1; [|left; apply arb_none_no_quote].
  destruct (U256.checked_mul mid (U256.from_u128 PIPS_FILL)) as [mid_x|] eqn:E2; [|left; apply arb_none_no_quote].
  destruct (U256.checked_mul mid (U256.from_u128 (PIPS_FILL - pm_fee_pips meta))) as [mid_net|] eqn:E3; [|left; apply arb_none_no_quote].
  destruct (U256.checked_mul (U256.from_u128 (eff_ask_1e18 p)) _) as [ask_x|] eqn:E4; [|left; apply arb_none_no_quote].
  rewrite checked_mul_val, !val_u128 in E1, E4 by (done || by apply wf_u128).
  rewrite checked_mul_val, val_u128 in E2, E3 by (done || by apply wf_u128).
  unfold u128 in Ub, Ua, U6, U7.
  apply checked_is in E1 as [X1 V1]; [|apply Z.mul_nonneg_nonneg; lia]. apply checked_is in E2 as [X2 V2]; [|apply Z.mul_nonneg_nonneg; lia].
  apply checked_is in E3 as [X3 V3]; [|apply Z.mul_nonneg_nonneg; lia]. apply checked_is in E4 as [X4 V4]; [|apply Z.mul_nonneg_nonneg; lia].
  set (buy := U256.lt mid_x bid_net). destruct (negb buy && negb (negb buy && U256.lt ask_x mid_net)) eqn:Es; [left; apply arb_none_no_quote|].
  assert (if buy then val mid * PIPS_FILL < eff_bid_1e18 p * (PIPS_FILL - pm_fee_pips meta)
          else eff_ask_1e18 p * PIPS_FILL < val mid * (PIPS_FILL - pm_fee_pips meta)) as Hedge.
  { destruct buy eqn:Eb; unfold buy in Eb; cbn [negb andb] in Es; [|apply negb_false_iff in Es];
      rewrite lt_val in * by done; lia. }
  assert (negb buy && U256.lt ask_x mid_net = negb buy) as -> by (destruct buy; [done|]; cbn [negb andb] in *; by apply negb_false_iff in Es).
  destruct (if buy then (bid_net, mid_x) else (mid_net, ask_x)) as [num den].
  destruct (if buy then mul_div _ _ _ else mul_div_rounding_up _ _ _) as [tpx|] eqn:Et; [|left; apply arb_none_no_quote].
  apply arb_target_val in Et as [-> Ut]; [|lia|done|done].
  destruct (sqrt_from_price_range (arb_target meta p buy) (dec0 meta) (dec1 meta) Ut) as [[Wth Wt] Bt].
  set (target := sqrt_from_price_u _ _ _) in *. destruct (arb_cap meta p =? 0); [left; apply arb_none_no_quote|].
  set (spec := mkSwapSpec _ _ _ _ _ _). assert (u128 (arb_cap meta p)) as Uc.
  { unfold arb_cap. destruct (scale10 _ _ _) as [v|] eqn:Ev; [|unfold u128; rewrite u128_max_W; pose proof W_big; lia].
    apply scale10_val in Ev as [Wv _]; [|apply wf_u128; by unfold u128; rewrite W_pow; unfold i64_max in *; lia].
    destruct (mul_div v _ _) as [w|] eqn:Ew; [|done]. apply saturating_u128_word. eapply mul_div_wf, Ew; [done|apply one_val|].
    apply wf_u128. unfold u128; rewrite W_pow; unfold i64_max in *; lia. }
  assert (spec_wf spec) as Hs.
  { split; [exact Uc|]. split; [exact Wt|]. split; [|exact Hf]. cbn [spec limit_hi]. unfold wrap_u32, u32_max.
    pose proof (Z.mod_pos_bound (U256.hi target) 4294967296 ltac:(lia)). lia. }
  pose proof (swap_exact_law N meta s m spec G Hs) as L. unfold swap_exact in L. rewrite H1 in L. cbn [negb] in L.
  assert (u128 (px0_usd_1e6 p)) as Up by (unfold u128; rewrite W_pow; unfold i64_max in *; lia).
  assert (arb_order s meta p buy spec) as Ho.
  { split; [done..| |rewrite <- Emid'; exact Hedge]. apply (limit_words target); [by split|lia]. }
  destruct (arb_quote_law s meta p buy (arb_gross num den) target spec _ (lo_tick m) (hi_tick m) mid Emid' Wd ltac:(lia) Up Hd Ub Ua Hg Ho L) as [|Q]; [by left|].
  right. exists buy, spec. split; [exact Ho|]. unfold swap_exact. rewrite H1. exact Q.
Qed.
