(* ===== verification/AmmBook.v ===== *)
(** * The AMM fill law ([crates/core-fill/src/amm.rs])

    Every pool's judgeable state, rebuilt from the pool-event tape: a slot is
    judgeable between a storage snapshot and the next break of the stream; a
    fill is the in-range swap at the worse of the fee in force and the fee
    last seen paid, and its impact stays until the chain's next state. *)

From S2P Require Import Prelude CoreTypes FillLaw AmmU256 AmmTick AmmTypes AmmPrice AmmSwap AmmPayload AmmFill.

#[local] Open Scope machine_scope.

Definition AMM_MAX_POOLS : nat := 128.
Definition HYPER_EVM : Z := 8.

Definition amm_pool_index (sym : Z) : option nat :=
  if negb (symbol_venue_byte sym =? HYPER_EVM) then None
  else
    let ord := symbol_ordinal sym in
    if (ord =? 0) || (Z.of_nat AMM_MAX_POOLS <? ord) then None else Some (Z.to_nat (ord - 1)).

Definition PHASE_EMPTY : Z := 0.
Definition PHASE_SNAPSHOT : Z := 1.
Definition PHASE_LIVE : Z := 2.

Record AmmPool := mkAmmPool {
  ap_state : PoolState;
  pending0 : Z;
  pending1 : Z;
  fee_in_force : Z;
  fee_observed : Z;
  ap_spacing : Z;
  has_pending : bool;
  ap_phase : Z;
  ap_kind : Z;
  ap_dec0 : Z;
  ap_dec1 : Z
}.
Definition EMPTY_POOL : AmmPool := mkAmmPool POOL_ZERO 0 0 0 0 1 false PHASE_EMPTY AMM_KIND_V3 0 0.
#[export] Instance amm_pool_inhabited : Inhabited AmmPool := populate EMPTY_POOL.

(** ** One pool *)

Definition set_state (s : PoolState) (p : AmmPool) : AmmPool :=
  mkAmmPool s (pending0 p) (pending1 p) (fee_in_force p) (fee_observed p) (ap_spacing p) (has_pending p) (ap_phase p) (ap_kind p) (ap_dec0 p) (ap_dec1 p).
Definition set_pending (b : bool) (p : AmmPool) : AmmPool :=
  mkAmmPool (ap_state p) (pending0 p) (pending1 p) (fee_in_force p) (fee_observed p) (ap_spacing p) b (ap_phase p) (ap_kind p) (ap_dec0 p) (ap_dec1 p).
Definition set_phase (ph : Z) (p : AmmPool) : AmmPool :=
  mkAmmPool (ap_state p) (pending0 p) (pending1 p) (fee_in_force p) (fee_observed p) (ap_spacing p) (has_pending p) ph (ap_kind p) (ap_dec0 p) (ap_dec1 p).
Definition set_fee_observed (f : Z) (p : AmmPool) : AmmPool :=
  mkAmmPool (ap_state p) (pending0 p) (pending1 p) (fee_in_force p) f (ap_spacing p) (has_pending p) (ap_phase p) (ap_kind p) (ap_dec0 p) (ap_dec1 p).
Definition set_fee_in_force (f : Z) (p : AmmPool) : AmmPool :=
  mkAmmPool (ap_state p) (pending0 p) (pending1 p) f (fee_observed p) (ap_spacing p) (has_pending p) (ap_phase p) (ap_kind p) (ap_dec0 p) (ap_dec1 p).
Definition set_pool_flags (f : Z) (s : PoolState) : PoolState :=
  mkPool (sqrt_price_lo s) (ps_liquidity s) (sqrt_price_hi s) (ps_tick s) (ps_block s) (ps_log_index s) (ps_pool s) f.
Definition set_pool_id (i : Z) (s : PoolState) : PoolState :=
  mkPool (sqrt_price_lo s) (ps_liquidity s) (sqrt_price_hi s) (ps_tick s) (ps_block s) (ps_log_index s) i (ps_flags s).
Definition set_pool_block (b : Z) (s : PoolState) : PoolState :=
  mkPool (sqrt_price_lo s) (ps_liquidity s) (sqrt_price_hi s) (ps_tick s) b (ps_log_index s) (ps_pool s) (ps_flags s).

Definition pool_walk_meta (fee_pips : Z) (p : AmmPool) : PoolMeta :=
  mkMeta (token0 META_ZERO) (token1 META_ZERO) (address META_ZERO) fee_pips (ap_spacing p) (ap_dec0 p) (ap_dec1 p) (sym0 META_ZERO) (sym1 META_ZERO) (ap_kind p).

Definition pool_judged_fee (p : AmmPool) : Z := if fee_in_force p <? fee_observed p then fee_observed p else fee_in_force p.

Definition stale (p : AmmPool) : AmmPool :=
  set_pending false (set_state (set_pool_flags (Z.lor (ps_flags (ap_state p)) POOL_FLAG_STALE) (ap_state p)) p).

Inductive AmmObs := ObsHead (block : Z) | ObsGap | ObsPool (index : nat) | ObsQuiet | ObsRefused.

Record AmmBookCounters := mkAmmCounters { ac_events : Z; ac_refused : Z; ac_snapshots : Z; ac_fees_observed : Z; ac_stale_marks : Z }.
Record AmmVerdict := mkAmmVerdict { av_verdict : Verdict; av_flags : Z }.
Definition NOT_LIVE : AmmVerdict := mkAmmVerdict Cancel (Z.lor RFILL_NONE RFILL_NOT_LIVE).
Definition pool_not_live (v : AmmVerdict) : bool := negb (Z.land (av_flags v) RFILL_NOT_LIVE =? 0).

Record AmmBook := mkAmmBook { ab_pools : list AmmPool; ab_head_block : Z; ab_counters : AmmBookCounters }.
Definition AmmBook_new : AmmBook := mkAmmBook (replicate AMM_MAX_POOLS EMPTY_POOL) 0 (mkAmmCounters 0 0 0 0 0).

Definition count_refused (c : AmmBookCounters) : AmmBookCounters :=
  mkAmmCounters (ac_events c) (wrap_u64 (ac_refused c + 1)) (ac_snapshots c) (ac_fees_observed c) (ac_stale_marks c).
Definition count_event (c : AmmBookCounters) : AmmBookCounters :=
  mkAmmCounters (wrap_u64 (ac_events c + 1)) (ac_refused c) (ac_snapshots c) (ac_fees_observed c) (ac_stale_marks c).
Definition count_snapshot (c : AmmBookCounters) : AmmBookCounters :=
  mkAmmCounters (ac_events c) (ac_refused c) (wrap_u64 (ac_snapshots c + 1)) (ac_fees_observed c) (ac_stale_marks c).
Definition count_fee (c : AmmBookCounters) : AmmBookCounters :=
  mkAmmCounters (ac_events c) (ac_refused c) (ac_snapshots c) (wrap_u64 (ac_fees_observed c + 1)) (ac_stale_marks c).
Definition count_stale (c : AmmBookCounters) : AmmBookCounters :=
  mkAmmCounters (ac_events c) (ac_refused c) (ac_snapshots c) (ac_fees_observed c) (wrap_u64 (ac_stale_marks c + 1)).

(** ** Reads *)

Definition pool_live (p : AmmPool) : bool := (ap_phase p =? PHASE_LIVE) && pool_is_live (ap_state p).
Definition book_is_live (i : nat) (b : AmmBook) : bool := (i <? AMM_MAX_POOLS)%nat && pool_live (ab_pools b !!! i).

Definition book_state (i : nat) (b : AmmBook) : option PoolState :=
  if (i <? AMM_MAX_POOLS)%nat then Some (ap_state (ab_pools b !!! i)) else None.

Definition mid_1e6 (i : nat) (b : AmmBook) : option Z :=
  if negb (book_is_live i b) then None
  else
    let p := ab_pools b !!! i in
    let px := price_1e18_from_sqrt (sqrt_price_lo (ap_state p)) (sqrt_price_hi (ap_state p)) (ap_dec0 p) (ap_dec1 p) / 1000000000000 in
    if (px =? 0) || (i64_max <? px) then None else Some px.

Definition book_pool_meta (i : nat) (b : AmmBook) : option PoolMeta :=
  if negb (book_is_live i b) then None
  else let p := ab_pools b !!! i in Some (pool_walk_meta (pool_judged_fee p) p).

Definition book_judged_fee (i : nat) (b : AmmBook) : option Z :=
  if (i <? AMM_MAX_POOLS)%nat then Some (pool_judged_fee (ab_pools b !!! i)) else None.

(** ** Writes *)

Definition at_pool (f : AmmPool -> AmmPool) (i : nat) (b : AmmBook) : AmmBook :=
  mkAmmBook (alter f i (ab_pools b)) (ab_head_block b) (ab_counters b).
Definition counted (f : AmmBookCounters -> AmmBookCounters) (b : AmmBook) : AmmBook :=
  mkAmmBook (ab_pools b) (ab_head_block b) (f (ab_counters b)).

Definition carry (i : nat) (after : PoolState) (b : AmmBook) : AmmBook :=
  if book_is_live i b then at_pool (fun p => set_state (set_pool_id (ps_pool (ap_state p)) after) p) i b else b.

Definition mark_stale (i : nat) (b : AmmBook) : AmmBook :=
  if (i <? AMM_MAX_POOLS)%nat && negb (ap_phase (ab_pools b !!! i) =? PHASE_EMPTY) then counted count_stale (at_pool stale i b) else b.

(** The event's effect on the pool, on the counters, and what it was. *)
Definition pool_event (i : nat) (ev : PoolEvent) (p : AmmPool) : AmmPool * (AmmBookCounters -> AmmBookCounters) * AmmObs :=
  match ev with
  | EvSnapshot _ family _ _ _ fee spacing d0 d1 =>
      (stale (mkAmmPool (ap_state p) (pending0 p) (pending1 p) fee 0 spacing (has_pending p) PHASE_SNAPSHOT
        (if family =? FAMILY_ALGEBRA then AMM_KIND_ALGEBRA else AMM_KIND_V3) d0 d1), id, ObsPool i)
  | EvTick _ _ _ => (p, id, ObsQuiet)
  | EvState tick lo hi liquidity snapshot =>
      if snapshot then
        if ap_phase p =? PHASE_EMPTY then (p, id, ObsQuiet)
        else
          (set_pending false (set_phase PHASE_LIVE (set_state (set_pool_id (wrap_u16 (Z.of_nat i)) (PoolState_new lo hi tick liquidity)) p)),
           count_snapshot, ObsPool i)
      else if negb (ap_phase p =? PHASE_LIVE) then (p, id, ObsQuiet)
      else
        let '(p, c) :=
          if has_pending p then
            let '(p, c) :=
              match observed_fee_pips (ap_state p) (pool_walk_meta (fee_in_force p) p) (pending0 p) (pending1 p) lo hi with
              | Some f => (set_fee_observed f p, count_fee)
              | None => (p, id)
              end in
            (set_pending false p, c)
          else (p, id) in
        let s := ap_state p in
        let keep := Z.land (ps_flags s) POOL_FLAG_STALE in
        (set_state (mkPool lo liquidity hi tick (ps_block s) (ps_log_index s) (ps_pool s) keep) p, c, ObsPool i)
  | EvSwap block a0 a1 =>
      if ap_phase p =? PHASE_LIVE then
        (mkAmmPool (set_pool_block block (ap_state p)) a0 a1 (fee_in_force p) (fee_observed p) (ap_spacing p) true (ap_phase p) (ap_kind p)
           (ap_dec0 p) (ap_dec1 p), id, ObsQuiet)
      else (p, id, ObsQuiet)
  | EvFee _ source a b =>
      if source =? FEE_SRC_ALGEBRA_V10 then (if a <? PIPS_FILL then set_fee_in_force a p else p, id, ObsPool i)
      else if source =? FEE_SRC_ALGEBRA_V12 then
        let base := if negb (a =? 0) then a else fee_in_force p in
        let paid := sat_u32 (base + b) in
        if paid <? PIPS_FILL then (set_fee_observed paid p, count_fee, ObsPool i) else (p, id, ObsPool i)
      else (p, id, ObsPool i)
  | EvLiquidity _ burn tl tu amount =>
      if negb (ap_phase p =? PHASE_LIVE) then (p, id, ObsQuiet)
      else
        let delta := if i128_max <? amount then None else if burn then Some (- amount) else Some amount in
        let '(s, ok) :=
          match delta with
          | Some d => let '(s, r) := pool_apply_position tl tu d (ap_state p) in (s, is_ok r)
          | None => (ap_state p, false)
          end in
        if negb ok then (stale (set_state s p), count_stale, ObsPool i)
        else (set_state (set_pool_flags (Z.land (ps_flags s) (255 - POOL_FLAG_EDGE)) s) p, id, ObsPool i)
  | EvHead _ _ _ | EvGap _ => (p, id, ObsQuiet)
  end.

(** A chain-wide break: every pool a snapshot began is stale. *)
Definition stale_all (b : AmmBook) : AmmBook :=
  mkAmmBook ((fun p => if ap_phase p =? PHASE_EMPTY then p else stale p) <$> ab_pools b) (ab_head_block b) (ab_counters b).

Definition observe_event (sym : Z) (ev : PoolEvent) (b : AmmBook) : AmmBook * AmmObs :=
  match ev with
  | EvHead block _ _ =>
      (if ab_head_block b <? block then mkAmmBook (ab_pools b) block (ab_counters b) else b, ObsHead block)
  | EvGap _ =>
      match amm_pool_index sym with
      | Some i => (counted count_stale (at_pool stale i b), ObsPool i)
      | None => (counted count_stale (stale_all b), ObsGap)
      end
  | _ =>
      match amm_pool_index sym with
      | Some i =>
          let '(p, c, obs) := pool_event i ev (ab_pools b !!! i) in
          (counted c (at_pool (fun _ => p) i b), obs)
      | None => (b, ObsRefused)
      end
  end.

Definition obs_refused (o : AmmObs) : bool := match o with ObsRefused => true | _ => false end.

Definition observe (sym : Z) (payload : list Z) (b : AmmBook) : AmmBook * AmmObs :=
  match decode payload with
  | None => (counted count_refused b, ObsRefused)
  | Some ev =>
      let '(b, obs) := observe_event sym ev b in
      (counted (if obs_refused obs then count_refused else count_event) b, obs)
  end.

Definition judge (i : nat) (side : Side) (px_limit_1e6 remaining_1e6 : Z) (b : AmmBook) : AmmBook * AmmVerdict :=
  if negb (book_is_live i b) then (b, NOT_LIVE)
  else
    let p := ab_pools b !!! i in
    let r := fill_in_range (ap_state p) (pool_walk_meta (pool_judged_fee p) p) (bool_decide (side = Ask)) remaining_1e6 px_limit_1e6 in
    if negb (Z.land (rf_flags r) RFILL_NONE =? 0) then (b, mkAmmVerdict Cancel (rf_flags r))
    else (at_pool (set_state (rf_after r)) i b, mkAmmVerdict (Filled (rf_px r) (rf_qty r)) (rf_flags r)).
