(* ===== verification/AmmBookProofs.v ===== *)
(** * The pool book under its tape

    What every signal, verdict and report keeps: the pools stay consistent
    with the contract when the tape is, a verdict keeps to its order, and a
    pool the stream broke for stays out until a storage snapshot. *)

From S2P Require Import Prelude CoreTypes FillLaw AmmU256 AmmLimbs AmmDivision AmmArith AmmTick AmmStep AmmStepProofs AmmTypes AmmMapProofs.
From S2P Require Import AmmPrice AmmSwap AmmSwapProofs AmmFill AmmFillProofs AmmPayload AmmPayloadProofs AmmBook.

#[local] Open Scope machine_scope.

(** ** Operations *)

Inductive BookOp :=
| OpSignal (sym : Z) (payload : list Z)
| OpJudge (i : nat) (side : Side) (px qty : Z)
| OpCarry (i : nat) (after : PoolState)
| OpMarkStale (i : nat).

Definition book_op (b : AmmBook) (o : BookOp) : AmmBook :=
  match o with
  | OpSignal sym p => fst (observe sym p b)
  | OpJudge i side px qty => fst (judge i side px qty b)
  | OpCarry i after => carry i after b
  | OpMarkStale i => mark_stale i b
  end.

Definition book_run (b : AmmBook) (ops : list BookOp) : AmmBook := foldl book_op b ops.

(** The tape tells the contract's own states; orders carry [i64]s; a carried
    state is a walk's. *)
Definition event_consistent (e : PoolEvent) : Prop :=
  match e with EvState t lo hi _ _ => tick_of t (U256.from_u160 lo hi) | _ => True end.

Definition op_ok (o : BookOp) : Prop :=
  match o with
  | OpSignal _ p => payload p /\ forall e, decode p = Some e -> event_consistent e
  | OpJudge _ _ px qty => px <= i64_max /\ qty <= i64_max
  | OpCarry _ after => pool_wf after /\ ticked after
  | OpMarkStale _ => True
  end.

(** ** The invariant *)

Definition pool_ok (p : AmmPool) : Prop :=
  0 <= fee_in_force p /\ 0 <= fee_observed p /\ (pending0 p <= i128_max /\ pending1 p <= i128_max) /\
  (ap_phase p = PHASE_LIVE -> pool_wf (ap_state p) /\ ticked (ap_state p)).

Record book_ok (b : AmmBook) : Prop := {
  bo_slots : length (ab_pools b) = AMM_MAX_POOLS;
  bo_pools : Forall pool_ok (ab_pools b)
}.

Lemma book_new_ok : book_ok AmmBook_new.
Proof. split; [apply length_replicate|]. apply Forall_replicate. split_and!; try done. Qed.

Lemma pool_ok_at b i : book_ok b -> (i < AMM_MAX_POOLS)%nat -> pool_ok (ab_pools b !!! i).
Proof.
  intros [L F] Hi. rewrite Forall_forall in F. apply F, list_elem_of_lookup_total. exists i. by rewrite L.
Qed.

Lemma at_pool_ok f i b : book_ok b -> ((i < AMM_MAX_POOLS)%nat -> pool_ok (f (ab_pools b !!! i))) -> book_ok (at_pool f i b).
Proof.
  intros [L F] H. split; cbn [at_pool ab_pools]; [by rewrite length_alter|]. apply Forall_alter; [done|].
  intros p Hp _. pose proof (lookup_lt_Some _ _ _ Hp) as Hi. rewrite L in Hi. specialize (H Hi). by rewrite (list_lookup_total_correct _ _ _ Hp) in H.
Qed.

Lemma counted_ok f b : book_ok b -> book_ok (counted f b).
Proof. by intros [L F]. Qed.

Lemma stale_ok p : pool_ok p -> pool_ok (stale p).
Proof. done. Qed.

Lemma apply_position_wf tl tu d s : pool_wf s -> ticked s -> let '(s', _) := pool_apply_position tl tu d s in pool_wf s' /\ ticked s'.
Proof.
  intros (P1 & P2 & P3) T. unfold pool_apply_position. destruct (_ || _); [done|]. destruct (_ || _); [done|]. cbv zeta.
  assert (forall z, match checked_u128 z with Some v => u128 v | None => True end) as C.
  { intros z. unfold checked_u128, u128. pose proof u128_max_W. destruct (Z.leb_spec 0 z), (Z.leb_spec z u128_max); cbn; done || lia. }
  set (l := if 0 <=? d then _ else _). assert (match l with Some v => u128 v | None => True end) as Hl by (unfold l; destruct (0 <=? d); apply C).
  by destruct l.
Qed.

Lemma pool_event_ok i e p : pool_ok p -> event_typed e -> event_consistent e -> pool_ok (fst (fst (pool_event i e p))).
Proof.
  intros (F1 & F2 & [N0 N1] & St) Te Ce. destruct e; cbn [pool_event]; try done.
  - destruct Te as (T1 & T2 & T3). pose proof u128_max_W. assert (u128 sqrt_price_lo /\ u128 liquidity) as [U1 U2] by (unfold u128; lia). destruct snapshot.
    { destruct (ap_phase p =? PHASE_EMPTY); [done|]. done. }
    destruct (Z.eqb_spec (ap_phase p) PHASE_LIVE) as [E|]; [|done]. cbn [negb].
    assert (forall q c, 0 <= fee_in_force q -> 0 <= fee_observed q -> pending0 q <= i128_max -> pending1 q <= i128_max -> pool_ok (fst (fst (let '(p, c) := (q, c : AmmBookCounters -> AmmBookCounters) in
      (set_state (mkPool sqrt_price_lo liquidity sqrt_price_hi tick (ps_block (ap_state p)) (ps_log_index (ap_state p)) (ps_pool (ap_state p))
        (Z.land (ps_flags (ap_state p)) POOL_FLAG_STALE)) p, c, ObsPool i))))) as H1 by done.
    destruct (has_pending p); [|by apply H1].
    destruct (observed_fee_pips _ _ _ _ _ _) as [f|] eqn:Ef; [|by apply H1]. apply H1; [done| |done|done]. cbn [set_pending set_fee_observed fee_observed].
    destruct (St E) as [Pw Pt]. by destruct (observed_fee_range _ (pool_walk_meta (fee_in_force p) p) _ _ _ _ _ Pw Pt F1 U1 T2 N0 N1 Ef).
  - destruct Te as (T1 & T2 & T3). destruct (Z.eqb_spec (ap_phase p) PHASE_LIVE) as [E|]; [|done]. split_and!; try done; cbn; lia.
  - destruct Te as (T1 & T2 & T3). destruct (source =? FEE_SRC_ALGEBRA_V10); [destruct (a <? PIPS_FILL); [split_and!; try done; cbn; lia|done]|].
    destruct (source =? FEE_SRC_ALGEBRA_V12); [|done]. cbv zeta. destruct (_ <? PIPS_FILL); [|done]. split_and!; try done.
    cbn [fst set_fee_observed fee_observed]. unfold sat_u32, clamp. apply Z.le_max_l.
  - destruct (Z.eqb_spec (ap_phase p) PHASE_LIVE) as [E|]; [|done]. cbn [negb]. destruct (St E) as [Pw Pt].
    set (dl := if i128_max <? amount then _ else _).
    assert (let '(s, ok) := match dl with Some d => let '(s, r) := pool_apply_position tick_lower tick_upper d (ap_state p) in (s, is_ok r)
      | None => (ap_state p, false) end in pool_wf s /\ ticked s) as Hs.
    { destruct dl as [d|]; [|done]. pose proof (apply_position_wf tick_lower tick_upper d (ap_state p) Pw Pt) as A. by destruct (pool_apply_position _ _ d _). }
    destruct (match dl with Some _ => _ | None => _ end) as [s ok]. by destruct ok.
  - destruct Te as (T1 & T2 & T3 & T4 & T5 & T6). split_and!; try done. cbn. lia.
Qed.

Lemma amm_pool_index_bound sym i : amm_pool_index sym = Some i -> (i < AMM_MAX_POOLS)%nat.
Proof.
  unfold amm_pool_index. destruct (negb _); [done|]. cbv zeta. destruct (Z.eqb_spec (symbol_ordinal sym) 0); [done|].
  destruct (Z.ltb_spec (Z.of_nat AMM_MAX_POOLS) (symbol_ordinal sym)); [done|]. cbn [orb]. intros [= <-]. unfold AMM_MAX_POOLS in *. lia.
Qed.

Lemma observe_event_ok sym e b : book_ok b -> event_typed e -> event_consistent e -> book_ok (fst (observe_event sym e b)).
Proof.
  intros K Te Ce. assert (forall i, amm_pool_index sym = Some i -> book_ok (fst (let '(p, c, obs) := pool_event i e (ab_pools b !!! i) in
    (counted c (at_pool (fun _ => p) i b), obs)))) as Hpool.
  { intros i Hi%amm_pool_index_bound. pose proof (pool_event_ok i e _ (pool_ok_at b i K Hi) Te Ce) as H.
    destruct (pool_event i e (ab_pools b !!! i)) as [[p c] o]. by apply counted_ok, at_pool_ok. }
  destruct e; cbn [observe_event]; try (destruct (amm_pool_index sym) as [i|] eqn:Ei; [by apply Hpool|done]).
  - destruct (_ <? _); [|done]. by destruct K.
  - destruct (amm_pool_index sym) as [i|] eqn:Ei.
    + apply counted_ok, at_pool_ok; [done|]. intros Hi. by apply stale_ok, pool_ok_at.
    + apply counted_ok. destruct K as [L F]. split; cbn [stale_all ab_pools]; [by rewrite length_fmap|]. apply Forall_fmap. eapply Forall_impl; [exact F|].
      intros p Hp. cbn. by destruct (ap_phase p =? PHASE_EMPTY).
Qed.

Lemma observe_ok sym p b : book_ok b -> payload p -> (forall e, decode p = Some e -> event_consistent e) -> book_ok (fst (observe sym p b)).
Proof.
  intros K Hp Hc. unfold observe. destruct (decode p) as [e|] eqn:Ed; [|by apply counted_ok].
  destruct (encode_decode p Hp e Ed) as [Te _]. pose proof (observe_event_ok sym e b K Te (Hc e eq_refl)) as H.
  destruct (observe_event sym e b) as [b' o]. by apply counted_ok.
Qed.

(** ** A verdict *)

(** What a verdict on pool [i] does: a cancel says what stopped it, and of a
    pool that is not live says just that; a fill is the swap that the order asks
    for, at the fee the pool is judged by. *)
Record judged (i : nat) (side : Side) (px qty : Z) (b b' : AmmBook) (v : AmmVerdict) : Prop := {
  jd_cases : (av_verdict v = Cancel /\ b' = b /\ Z.land (av_flags v) RFILL_NONE <> 0 /\ (book_is_live i b = false -> v = NOT_LIVE)) \/
    exists f, av_verdict v = Filled (rf_px f) (rf_qty f) /\ av_flags v = rf_flags f /\ book_is_live i b = true /\
      fill_lawful (ap_state (ab_pools b !!! i)) (pool_walk_meta (pool_judged_fee (ab_pools b !!! i)) (ab_pools b !!! i)) (bool_decide (side = Ask)) qty px f /\
      ab_pools b' = <[i := set_state (rf_after f) (ab_pools b !!! i)]> (ab_pools b) /\
      ab_head_block b' = ab_head_block b /\ ab_counters b' = ab_counters b
}.

Lemma live_inv i b : book_is_live i b = true -> (i < AMM_MAX_POOLS)%nat /\ ap_phase (ab_pools b !!! i) = PHASE_LIVE /\ pool_is_live (ap_state (ab_pools b !!! i)) = true.
Proof. unfold book_is_live, pool_live. intros [H1%Nat.ltb_lt [H2%Z.eqb_eq H3]%andb_true_iff]%andb_true_iff. done. Qed.

Lemma judged_fee_nonneg p : pool_ok p -> 0 <= pool_judged_fee p.
Proof. intros (F1 & F2 & _). unfold pool_judged_fee. by destruct (_ <? _). Qed.

Lemma judge_judged i side px qty b : book_ok b -> px <= i64_max -> qty <= i64_max ->
  let '(b', v) := judge i side px qty b in judged i side px qty b b' v.
Proof.
  intros K Hx Hq. unfold judge. destruct (book_is_live i b) eqn:El; [|split; left; by split_and!]. cbn [negb].
  destruct (live_inv i b El) as (Hi & Hph & Hlv). pose proof (pool_ok_at b i K Hi) as Po. pose proof Po as (_ & _ & _ & St). destruct (St Hph) as [Pw Pt].
  set (p := ab_pools b !!! i) in *. set (meta := pool_walk_meta (pool_judged_fee p) p). set (sell := bool_decide (side = Ask)).
  destruct (fill_in_range_law (ap_state p) meta sell qty px Pw Pt (judged_fee_nonneg p Po) Hq Hx) as [(_ & _ & Hn & _)|[_ L]].
  - destruct (Z.eqb_spec (Z.land (rf_flags (fill_in_range (ap_state p) meta sell qty px)) RFILL_NONE) 0) as [|Hf]; [done|]. split. left. split_and!; try done. congruence.
  - destruct (fl_swap _ _ _ _ _ _ L) as (spec & _ & R). destruct (fo_flags _ _ _ _ _ R) as [-> _]. cbn [Z.eqb negb]. split. right. eexists. cbn [av_verdict av_flags].
    split_and!; [done|done|done|exact L| |done|done]. cbn [at_pool ab_pools]. unfold p.
    apply list_eq. intros j. destruct K as [Len _]. destruct (decide (i = j)) as [<-|Hne].
    + rewrite list_lookup_alter, list_lookup_insert_eq by lia. destruct (lookup_lt_is_Some_2 (ab_pools b) i ltac:(lia)) as [x Hx'].
      rewrite decide_True, Hx' by done. cbn. by rewrite (list_lookup_total_correct _ _ _ Hx').
    + by rewrite list_lookup_alter_ne, list_lookup_insert_ne by done.
Qed.

Lemma judge_ok i side px qty b : book_ok b -> px <= i64_max -> qty <= i64_max -> book_ok (fst (judge i side px qty b)).
Proof.
  intros K Hx Hq. pose proof (judge_judged i side px qty b K Hx Hq) as J. destruct (judge i side px qty b) as [b' v]. cbn [fst].
  destruct J as [[(_ & -> & _)|(f & _ & _ & El & L & Eb & _)]]; [done|]. destruct (live_inv i b El) as (Hi & _ & _).
  pose proof (pool_ok_at b i K Hi) as (F1 & F2 & P & _). destruct K as [Len F]. split; rewrite Eb; [by rewrite length_insert|].
  apply Forall_insert; [done|]. split; [exact F1|split; [exact F2|split; [exact P|]]]. intros _. exact (fl_after _ _ _ _ _ _ L).
Qed.

Lemma book_op_ok b o : book_ok b -> op_ok o -> book_ok (book_op b o).
Proof.
  intros K. destruct o as [sym p|i side px qty|i after|i]; cbn [op_ok book_op].
  - intros [Hp Hc]. by apply observe_ok.
  - intros [Hx Hq]. by apply judge_ok.
  - intros [Hw Ht]. unfold carry. destruct (book_is_live i b); [|done]. apply at_pool_ok; [done|]. intros Hi.
    destruct (pool_ok_at b i K Hi) as (F1 & F2 & P & _). split; [exact F1|split; [exact F2|split; [exact P|done]]].
  - intros _. unfold mark_stale. destruct (_ && _); [|done]. apply counted_ok, at_pool_ok; [done|]. intros Hi. by apply stale_ok, pool_ok_at.
Qed.

Lemma book_run_ok ops b : book_ok b -> Forall op_ok ops -> book_ok (book_run b ops).
Proof. intros K F. revert b K. induction F as [|o ops Ho F IH]; intros b K; [done|]. cbn. by apply IH, book_op_ok. Qed.

(** ** A stream break *)

(** Out: never live, or stale. *)
Definition pool_down (p : AmmPool) : Prop := ap_phase p <> PHASE_LIVE \/ Z.testbit (ps_flags (ap_state p)) 0 = true.
Definition down (i : nat) (b : AmmBook) : Prop := length (ab_pools b) = AMM_MAX_POOLS /\ pool_down (ab_pools b !!! i).

Lemma stale_down p : pool_down (stale p).
Proof. right. change (Z.testbit (Z.lor (ps_flags (ap_state p)) POOL_FLAG_STALE) 0 = true). rewrite Z.lor_spec. by rewrite orb_true_r. Qed.

Lemma down_not_live i b : down i b -> book_is_live i b = false.
Proof.
  intros [_ D]. destruct (book_is_live i b) eqn:E; [|done]. apply live_inv in E as (_ & Ph & Lv). destruct D as [|D]; [done|].
  unfold pool_is_live in Lv. apply andb_true_iff in Lv as [_ Lv%Z.eqb_eq].
  assert (Z.testbit (Z.land (ps_flags (ap_state (ab_pools b !!! i))) (Z.lor POOL_FLAG_STALE POOL_FLAG_EDGE)) 0 = true) as H by (by rewrite Z.land_spec, D).
  by rewrite Lv in H.
Qed.

(** The signal that completes a snapshot of pool [i]. *)
Definition completes (i : nat) (o : BookOp) : Prop :=
  match o with
  | OpSignal sym p => amm_pool_index sym = Some i /\ exists t lo hi l, decode p = Some (EvState t lo hi l true)
  | _ => False
  end.

Lemma pool_event_down i e p : (forall t lo hi l, e <> EvState t lo hi l true) -> pool_down p -> pool_down (fst (fst (pool_event i e p))).
Proof.
  intros Hn D. destruct e; cbn [pool_event]; try exact D.
  - destruct snapshot; [by destruct (Hn tick sqrt_price_lo sqrt_price_hi liquidity)|]. destruct (Z.eqb_spec (ap_phase p) PHASE_LIVE) as [E|]; [|exact D].
    destruct D as [|D]; [done|]. assert (Z.testbit (Z.land (ps_flags (ap_state p)) POOL_FLAG_STALE) 0 = true) as H by (by rewrite Z.land_spec, D).
    right. destruct (has_pending p); [|exact H]. by destruct (observed_fee_pips _ _ _ _ _ _).
  - destruct (Z.eqb_spec (ap_phase p) PHASE_LIVE) as [E|]; [|exact D]. destruct D as [|D]; [done|]. by right.
  - destruct (source =? FEE_SRC_ALGEBRA_V10); [by destruct (a <? PIPS_FILL)|]. destruct (source =? FEE_SRC_ALGEBRA_V12); [|exact D]. cbv zeta.
    by destruct (_ <? PIPS_FILL).
  - destruct (Z.eqb_spec (ap_phase p) PHASE_LIVE) as [E|]; [|exact D]. destruct D as [|D]; [done|]. cbn [negb].
    set (dl := if i128_max <? amount then _ else _).
    assert (let '(s, ok) := match dl with Some d => let '(s, r) := pool_apply_position tick_lower tick_upper d (ap_state p) in (s, is_ok r)
      | None => (ap_state p, false) end in ps_flags s = ps_flags (ap_state p)) as Hs.
    { destruct dl as [d|]; [|done]. unfold pool_apply_position. destruct (_ || _); [done|]. destruct (_ || _); [done|]. cbv zeta.
      by destruct (if 0 <=? d then _ else _). }
    destruct (match dl with Some _ => _ | None => _ end) as [s ok]. destruct ok; [|apply stale_down]. right.
    change (Z.testbit (Z.land (ps_flags s) (255 - POOL_FLAG_EDGE)) 0 = true). by rewrite Z.land_spec, Hs, D.
  - apply stale_down.
Qed.

Lemma at_pool_down f j i b : down i b -> (forall p, pool_down p -> pool_down (f p)) -> down i (at_pool f j b).
Proof.
  intros [L D] Hf. split; cbn [at_pool ab_pools]; [by rewrite length_alter|].
  rewrite list_lookup_total_alt in *. destruct (decide (j = i)) as [->|Hne]; [|by rewrite list_lookup_alter_ne].
  rewrite list_lookup_alter, decide_True by done. destruct (ab_pools b !! i) as [p|] eqn:E; cbn in *; [by apply Hf|by left].
Qed.

Lemma book_op_down i b o : down i b -> ~ completes i o -> down i (book_op b o).
Proof.
  intros D Hc. destruct o as [sym p|j side px qty|j after|j]; cbn [book_op].
  - unfold observe. destruct (decode p) as [e|] eqn:Ed; [|exact D].
    assert (down i (fst (observe_event sym e b))) as H; [|by destruct (observe_event sym e b)].
    assert (forall j, amm_pool_index sym = Some j -> down i (fst (let '(q, c, obs) := pool_event j e (ab_pools b !!! j) in
      (counted c (at_pool (fun _ => q) j b), obs)))) as Hpool.
    { intros j Hj. pose proof (pool_event_down j e (ab_pools b !!! j)) as Pd. destruct (pool_event j e (ab_pools b !!! j)) as [[q c] ob]. cbn [fst] in *.
      destruct (decide (j = i)) as [->|Hne].
      - assert (pool_down q) as Dq; [|by apply (at_pool_down (fun _ => q) i i b D)].
        apply Pd; [|apply D]. intros t lo hi l ->. apply Hc. split; [done|]. by exists t, lo, hi, l.
      - destruct D as [L D]. split; cbn [counted at_pool ab_pools]; [by rewrite length_alter|]. by rewrite list_lookup_total_alter_ne. }
    destruct e; cbn [observe_event]; try (destruct (amm_pool_index sym) as [j|] eqn:Ej; [by apply Hpool|exact D]).
    + by destruct (_ <? _).
    + destruct (amm_pool_index sym) as [j|]; [apply (at_pool_down stale j i b D); intros; apply stale_down|]. destruct D as [L D].
      split; cbn [fst counted stale_all ab_pools]; [by rewrite length_fmap|]. rewrite list_lookup_total_alt in *. rewrite list_lookup_fmap.
      destruct (ab_pools b !! i) as [q|]; [|by left]. cbn in *. destruct (ap_phase q =? PHASE_EMPTY); [done|apply stale_down].
  - unfold judge. destruct (decide (j = i)) as [->|Hne]; [by rewrite down_not_live|]. destruct (negb _); [exact D|]. cbv zeta. destruct (negb _); [exact D|].
    destruct D as [L D]. split; cbn [fst at_pool ab_pools]; [by rewrite length_alter|]. by rewrite list_lookup_total_alter_ne.
  - unfold carry. destruct (decide (j = i)) as [->|Hne]; [by rewrite down_not_live|]. destruct (book_is_live j b); [|exact D].
    destruct D as [L D]. split; cbn [at_pool ab_pools]; [by rewrite length_alter|]. by rewrite list_lookup_total_alter_ne.
  - unfold mark_stale. destruct (_ && _); [|exact D]. apply (at_pool_down stale j i b D). intros; apply stale_down.
Qed.

Lemma book_run_down i ops b : down i b -> Forall (fun o => ~ completes i o) ops -> down i (book_run b ops).
Proof. intros D F. revert b D. induction F as [|o ops Ho F IH]; intros b D; [done|]. cbn. by apply IH, book_op_down. Qed.
