(* ===== verification/AmmTheorems.v ===== *)
(** * What the AMM engine promises

    The properties of [core-amm], of its tape's payloads and of the book that
    judges fills on pools, each with a concrete instance on a pool of one
    position around the price one. *)

From Stdlib Require Import Sorting.
From stdpp Require Import gmap.
From S2P Require Import Prelude CoreTypes FillLaw AmmU256 AmmLimbs AmmDivision AmmArith AmmTick AmmTickProofs AmmTickLog AmmStep AmmStepProofs.
From S2P Require Import AmmTypes AmmMapProofs AmmPrice AmmSwap AmmSwapProofs AmmFill AmmFillProofs AmmPayload AmmPayloadProofs AmmLaws AmmBook AmmBookProofs.

#[local] Open Scope machine_scope.

(** ** A pool *)

(** Spacing 60, a fee of 3000 pips, both tokens of six decimals; the price is
    one and a position of [10^15] lies on [-60, 60]. *)
Definition demo_meta : PoolMeta :=
  mkMeta (token0 META_ZERO) (token1 META_ZERO) (address META_ZERO) 3000 60 6 6 (sym0 META_ZERO) (sym1 META_ZERO) AMM_KIND_V3.
Definition demo_pool : PoolState := PoolState_new (2 ^ 96) 0 0 1000000000000000.
Definition demo_node (t net : Z) : TickNode := set_gross 1000000000000000 (TickNode_new t net).
Definition demo_map : TickMap :=
  mkTickMap [demo_node (-60) 1000000000000000; demo_node 60 (-1000000000000000); NODE_ZERO; NODE_ZERO] 2 (-60) 60.
Definition demo_spec (z exact_in : bool) : SwapSpec :=
  mkSwapSpec 1000000 (if z then MIN_SQRT_LO else MAX_SQRT_LO) (if z then 0 else MAX_SQRT_HI) 3000 z exact_in.

Lemma demo_map_ok : map_ok 4 demo_map.
Proof.
  split; [done|cbn; lia| |].
  - repeat constructor; unfold before; cbn; lia.
  - assert (words_ok (tn_gross (demo_node 0 0))) as W by (split; [done|repeat constructor; by vm_compute]).
    repeat constructor; try (by vm_compute); try exact W; right; by vm_compute.
Qed.

Lemma demo_pool_wf : pool_wf demo_pool.
Proof. unfold pool_wf, u128. split_and!; by vm_compute. Qed.

Lemma demo_pool_ticked : ticked demo_pool.
Proof. split; [|intros _]; split_and!; by vm_compute. Qed.

Lemma demo_good : good 4 demo_meta demo_pool demo_map.
Proof.
  split; [apply demo_pool_wf|apply demo_pool_ticked|apply demo_map_ok|cbn; unfold MIN_TICK, MAX_TICK; lia| |right; by vm_compute].
  intros n Hn _. vm_compute in Hn. repeat (apply elem_of_cons in Hn as [-> |Hn]; [by vm_compute|]). by apply elem_of_nil in Hn.
Qed.

Lemma demo_spec_wf z e : spec_wf (demo_spec z e).
Proof. unfold spec_wf, u128. destruct z; split_and!; by vm_compute. Qed.

(** ** Arithmetic *)

(** C13. On any 256-bit words, checked sums and products, quotients,
    remainders, products over a divisor rounded down and up, and square
    roots equal those of the integers; a result that does not fit or a zero
    divisor is refused. *)
Theorem wide_arithmetic_is_exact a b d : wf a -> wf b -> wf d ->
  U256.checked_add a b = checked (val a + val b) /\
  U256.checked_mul a b = checked (val a * val b) /\
  U256.checked_div_rem a d = (if val d =? 0 then None else Some (of_z (val a / val d), of_z (val a mod val d))) /\
  mul_div a b d = (if val d =? 0 then None else checked (val a * val b / val d)) /\
  mul_div_rounding_up a b d = (if val d =? 0 then None else checked (cdiv (val a * val b) (val d))) /\
  U256.isqrt a = of_z (Z.sqrt (val a)).
Proof.
  intros Wa Wb Wd. split; [by apply checked_add_val|]. split; [by apply checked_mul_val|]. split; [by apply checked_div_rem_val|].
  split; [by apply mul_div_val|]. split; [by apply mul_div_rounding_up_val|]. by apply isqrt_val.
Qed.

Lemma wide_arithmetic_is_exact_witness :
  mul_div (of_z (2 ^ 200)) (of_z (3 ^ 100)) (of_z (2 ^ 130 + 1)) = Some (of_z (2 ^ 200 * 3 ^ 100 / (2 ^ 130 + 1))) /\
  U256.isqrt (of_z (2 ^ 255)) = of_z 240615969168004511545033772477625056927.
Proof.
  assert (forall z, 0 <= z < WW -> wf (of_z z)) as H by exact wf_of_z.
  assert (0 <= 2 ^ 200 < WW /\ 0 <= 3 ^ 100 < WW /\ 0 <= 2 ^ 130 + 1 < WW /\ 0 <= 2 ^ 255 < WW) as (H1 & H2 & H3 & H4) by (split_and!; by vm_compute).
  split.
  - destruct (wide_arithmetic_is_exact _ _ _ (H _ H1) (H _ H2) (H _ H3)) as (_ & _ & _ & -> & _). by vm_compute.
  - destruct (wide_arithmetic_is_exact _ _ _ (H _ H4) (H _ H4) (H _ H4)) as (_ & _ & _ & _ & _ & ->). by vm_compute.
Defined.

(** ** Ticks and prices *)

Lemma ratio_words t : in_ticks t ->
  let '(lo, hi) := sqrt_at_tick t in U256.from_u160 lo hi = sqrt_ratio_at_tick t.
Proof.
  intros Ht. destruct (sqrt_ratio_val t Ht) as [Wt _]. pose proof (sqrt_ratio_range t Ht) as R. pose proof max_sqrt_val as (_ & Hx & _).
  unfold sqrt_at_tick, U256.from_u160. destruct (sqrt_ratio_at_tick t) as [h l]. destruct Wt as [Wh Wl]. unfold val, u128 in *. cbn [U256.hi U256.lo] in *.
  unfold wrap_u32. rewrite Z.mod_small; [done|]. split; [apply Wh|]. change (2 ^ 160) with (4294967296 * W) in Hx. pose proof W_big. nia.
Qed.

(** C15. A tick's ratio is at most a price exactly when the tick is at most
    tick_at_sqrt of the price, over the whole range; ratios rise strictly;
    and the tick of a tick's own ratio is that tick. *)
Theorem tick_is_the_floor_of_its_price lo hi : u128 lo -> in_u32 hi -> val MIN_SQRT <= val (U256.from_u160 lo hi) < val MAX_SQRT ->
  (forall t, MIN_TICK <= t <= MAX_TICK -> val (sqrt_ratio_at_tick t) <= val (U256.from_u160 lo hi) <-> t <= tick_at_sqrt lo hi) /\
  (forall t u, MIN_TICK <= t < u -> u <= MAX_TICK -> val (sqrt_ratio_at_tick t) < val (sqrt_ratio_at_tick u)) /\
  (forall t, MIN_TICK <= t < MAX_TICK -> let '(l, h) := sqrt_at_tick t in tick_at_sqrt l h = t).
Proof.
  intros Hl Hh Hr. destruct (wf_u160 lo hi Hl Hh) as [Ws _]. split_and!.
  - intros t Ht. by apply tick_galois.
  - intros t u Ht Hu. pose proof (sqrt_ratio_step t ltac:(lia)). pose proof (sqrt_ratio_mono (t + 1) u ltac:(lia) ltac:(lia) ltac:(lia)). lia.
  - intros t Ht. assert (in_ticks t) as It by (unfold in_ticks; lia). pose proof (ratio_words t It) as E. destruct (sqrt_at_tick t) as [l h].
    unfold tick_at_sqrt. rewrite E. destruct (sqrt_ratio_val t It) as [Wt _]. apply tick_between; [done|done|]. pose proof (sqrt_ratio_step t Ht). lia.
Qed.

Lemma tick_is_the_floor_of_its_price_witness :
  val (sqrt_ratio_at_tick 0) <= val (U256.from_u160 (2 ^ 96) 0) /\ 0 <= tick_at_sqrt (2 ^ 96) 0 /\ ~ 1 <= tick_at_sqrt (2 ^ 96) 0.
Proof.
  assert (u128 (2 ^ 96) /\ in_u32 0 /\ val MIN_SQRT <= val (U256.from_u160 (2 ^ 96) 0) < val MAX_SQRT) as (H1 & H2 & H3)
    by (unfold u128; split_and!; by vm_compute).
  destruct (tick_is_the_floor_of_its_price _ _ H1 H2 H3) as [G _]. assert (val (sqrt_ratio_at_tick 0) <= val (U256.from_u160 (2 ^ 96) 0)) as H0 by (by vm_compute).
  split; [exact H0|]. split; [apply (G 0); [split; by vm_compute|exact H0]|]. intros H4. apply (G 1) in H4; [by vm_compute in H4|split; by vm_compute].
Defined.

(** ** A step of a swap *)

(** C12. A step of a swap never reverts and charges exactly what moved: the
    price stays between start and target, the input is the move's cost
    rounded up, the output its yield rounded down, the fee at least its
    share rounded up and exactly that unless an exact input ran out, input
    plus fee stay within the amount offered, and a step short of the target
    used all of it. *)
Theorem swap_step_charges_what_it_moves current target l remaining (exact_in : bool) fee_pips : price current -> price target -> u128 l ->
  u128 remaining -> 0 <= fee_pips < PIPS ->
  exists st, compute_swap_step current target l (U256.from_u128 remaining) exact_in fee_pips = Some st /\
    let z := U256.le target current in let p := val current in let q := val (sqrt_next st) in
    toward z p q (val target) /\
    val (amount_in st) = (if z then a0_up q p l else a1_up p q l) /\
    val (amount_out st) = (let o := if z then a1_down q p l else a0_down p q l in if exact_in then o else Z.min o remaining) /\
    cdiv (val (amount_in st) * fee_pips) (PIPS - fee_pips) <= val (fee st) /\
    (exact_in = false \/ q = val target -> val (fee st) = cdiv (val (amount_in st) * fee_pips) (PIPS - fee_pips)) /\
    (exact_in = true -> val (amount_in st) + val (fee st) <= remaining) /\
    (q <> val target -> if exact_in then val (amount_in st) + val (fee st) = remaining else val (amount_out st) = remaining).
Proof.
  intros Hc Ht Hl Hr Hf. destruct (compute_swap_step_law current target (U256.from_u128 remaining) l exact_in fee_pips Hc Ht Hl (wf_u128 _ Hr)) as (st & E & D).
  - rewrite val_u128. apply Hr.
  - done.
  - exists st. split; [exact E|]. destruct D as [_ D1 _ D2 D3 D4 D5 D6 D7 _]. rewrite val_u128 in *. cbv zeta. split_and!; done.
Qed.

Lemma swap_step_charges_what_it_moves_witness :
  exists st, compute_swap_step (U256.pow2 96) (sqrt_ratio_at_tick 60) 1000000000000000 (U256.from_u128 1000000) true 3000 = Some st /\
    val (amount_in st) + val (fee st) = 1000000.
Proof.
  assert (price (U256.pow2 96) /\ price (sqrt_ratio_at_tick 60) /\ u128 1000000000000000 /\ u128 1000000) as (H1 & H2 & H3 & H4)
    by (unfold price, wf, u128; split_and!; by vm_compute).
  destruct (swap_step_charges_what_it_moves (U256.pow2 96) (sqrt_ratio_at_tick 60) 1000000000000000 1000000 true 3000 H1 H2 H3 H4 ltac:(split; by vm_compute))
    as (st & E & _ & _ & _ & _ & _ & _ & D).
  exists st. split; [exact E|]. apply D. vm_compute in E. injection E as <-. by vm_compute.
Defined.

(** ** Swaps *)

(** C11. After any sequence of consumed swaps, mints and burns from a pool
    and tick map that agree, every swap is refused or lawful: the pool stays
    within its widths with its tick bracketing its price, the price moves
    only the asked way and no further than the limit and the coverage, the
    exact side is all of what was asked unless the limit, the coverage or
    the step cap is flagged, the fee is part of the input, and the walk ends
    within 512 steps without a revert. *)
Theorem reachable_swaps_are_lawful N meta s m s' m' spec : good N meta s m -> rtc (amm_step N meta) (s, m) (s', m') -> spec_wf spec ->
  let r := swap_exact N s' meta m' spec in
  r = swap_refused s' \/ swap_lawful s' (lo_tick m') (hi_tick m') spec r.
Proof. intros G R Hs. by apply swap_exact_law, Hs; eapply reachable_good. Qed.

Lemma reachable_swaps_are_lawful_witness :
  let s := sr_after (swap_exact 4 demo_pool demo_meta demo_map (demo_spec true true)) in
  let r := swap_exact 4 s demo_meta demo_map (demo_spec false false) in
  sr_amount_out r = 1000000 /\ (r = swap_refused s \/ swap_lawful s (-60) 60 (demo_spec false false) r).
Proof.
  intros s r. split; [by vm_compute|].
  apply (reachable_swaps_are_lawful 4 demo_meta demo_pool demo_map s demo_map (demo_spec false false) demo_good); [|apply demo_spec_wf].
  eapply rtc_l, rtc_refl. apply step_swap, demo_spec_wf.
Defined.

(** ** Positions *)

(** C14. On a tick map in order, a mint or burn is the finite-map update of
    its two ticks' gross and net, decided before either end is written: an
    error leaves the map untouched, ends outside the coverage are not
    stored, a tick of no gross is dropped, and the array stays sorted and
    within its slots. *)
Theorem position_moves_both_ends_or_none N m tl tu delta : map_ok N m -> i128_min <= delta <= i128_max ->
  let '(m', r) := apply_position N tl tu delta m in
  map_ok N m' /\ lo_tick m' = lo_tick m /\ hi_tick m' = hi_tick m /\
  (book (live_nodes N m'), r) = position_spec N (lo_tick m) (hi_tick m) tl tu delta (book (live_nodes N m)) /\
  (forall e, r = Err e -> m' = m).
Proof. apply apply_position_spec. Qed.

Lemma position_moves_both_ends_or_none_witness :
  let '(m', r) := apply_position 4 (-60) 0 5 demo_map in
  r = Ok tt /\ book (live_nodes 4 m') !! 0 = Some (5, -5) /\ book (live_nodes 4 m') !! (-60) = Some (1000000000000005, 1000000000000005).
Proof.
  pose proof (position_moves_both_ends_or_none 4 demo_map (-60) 0 5 demo_map_ok ltac:(split; by vm_compute)) as H.
  destruct (apply_position 4 (-60) 0 5 demo_map) as [m' r]. destruct H as (_ & _ & _ & H & _).
  assert (position_spec 4 (lo_tick demo_map) (hi_tick demo_map) (-60) 0 5 (book (live_nodes 4 demo_map)) =
    (<[-60 := (1000000000000005, 1000000000000005)]> (<[0 := (5, -5)]> (book (live_nodes 4 demo_map))), Ok tt)) as E by (by vm_compute).
  rewrite E in H. injection H as -> ->. split_and!; [done|by vm_compute|by vm_compute].
Defined.

(** The nodes of a map in order are cells the opposite position restores. *)
Lemma map_cells N m : map_ok N m -> forall t, cell_ok (book (live_nodes N m) !! t).
Proof.
  intros K t g n Hk. pose proof (key_node t (g, n) _ Hk) as (x & Hx & <-). rewrite (node_key x _ (mo_sorted N m K) Hx) in Hk. injection Hk as <- <-.
  pose proof (mo_nodes N m K) as F. rewrite Forall_forall in F. destruct (F x Hx) as (_ & [W1 W2] & B & C). split; [|done].
  unfold liquidity_gross. pose proof (gross_words (tn_gross x)) as G. destruct G as [-> G]; done.
Qed.

(** When a mint or burn is taken by the tick map, the opposite one is
    taken too and every tick has again the gross and net it had, the ticks
    the position initialised gone. *)
Theorem opposite_position_restores_the_ticks N m tl tu delta : map_ok N m -> has_coverage m = true -> i128_min < delta <= i128_max ->
  snd (apply_position N tl tu delta m) = Ok tt ->
  let '(m', r) := apply_position N tl tu (- delta) (fst (apply_position N tl tu delta m)) in
  r = Ok tt /\ map_ok N m' /\ book (live_nodes N m') = book (live_nodes N m).
Proof.
  intros K Hc Hd H1. apply Z.leb_le in Hc. pose proof (apply_position_spec N m tl tu delta K ltac:(lia)) as A.
  destruct (apply_position N tl tu delta m) as [m1 r1]. destruct A as (K1 & L1 & U1 & E1 & _). cbn [fst snd] in *. subst r1.
  pose proof (apply_position_spec N m1 tl tu (- delta) K1 ltac:(unfold i128_min, i128_max in *; lia)) as A.
  destruct (apply_position N tl tu (- delta) m1) as [m2 r2]. destruct A as (K2 & _ & _ & E2 & _). rewrite L1, U1 in E2.
  assert (position_spec N (lo_tick m) (hi_tick m) tl tu (- delta) (book (live_nodes N m1)) = (book (live_nodes N m), Ok tt)) as E.
  { destruct (Z.eq_dec delta 0) as [->|Hz].
    - revert E1. unfold position_spec. destruct (_ || _ || _ || _); [done|]. change (- 0) with 0. cbn [Z.eqb orb]. congruence.
    - apply position_undone; [by apply map_cells|done|done|lia|done]. }
  rewrite E in E2. injection E2 as E2 ->. done.
Qed.

Lemma opposite_position_restores_the_ticks_witness :
  let '(m', r) := apply_position 4 (-60) 0 (-5) (fst (apply_position 4 (-60) 0 5 demo_map)) in
  r = Ok tt /\ map_ok 4 m' /\ book (live_nodes 4 m') = book (live_nodes 4 demo_map).
Proof.
  apply (opposite_position_restores_the_ticks 4 demo_map (-60) 0 5 demo_map_ok); [done|split; by vm_compute|by vm_compute].
Defined.

(** ** Arbitrage *)

(** C18. From a pool and map that agree the arbitrage solve quotes nothing,
    leaving the pool as it was, or one swap of the full map on a side whose
    price net of the pool's fee beats the hedge: of the notional cap in
    token0, at the pool's fee, toward the price at which the fee eats the
    edge and no further. The quoted legs are what that swap gives out and
    takes in, the pool's fee included, the token0 leg more than nothing and
    within the cap, and the pool quoted is the one that swap leaves; the
    token0 leg priced at the hedge and rounded against us beats the token1
    leg, and the gain is that difference in dollars at the pool's price
    before the swap, never rounded up, less the whole of the gas, and
    strictly positive. *)
Theorem arbitrage_quote_clears_its_gas N meta s m p : good N meta s m -> 0 <= pm_fee_pips meta -> 0 <= dec1 meta ->
  u128 (eff_bid_1e18 p) -> u128 (eff_ask_1e18 p) -> px0_usd_1e6 p <= i64_max -> max_notional_usd_1e6 p <= i64_max -> gas_usd_1e6 p <= i64_max ->
  let q := solve_arb N s meta m p in
  no_quote s q \/ exists buy spec, arb_order s meta p buy spec /\ quoted s meta p buy (swap_exact N s meta m spec) q.
Proof. intros G Hf Hd Ub Ua Hp Hn Hg. by apply solve_arb_law. Qed.

Definition demo_arb : ArbParams := mkArbParams 1005000000000000000 1006000000000000000 1000000 100000000 1000.

Lemma arbitrage_quote_clears_its_gas_witness :
  let q := solve_arb 4 demo_pool demo_meta demo_map demo_arb in
  pnl_usd_1e6 q = 198086 /\ exists buy spec, arb_order demo_pool demo_meta demo_arb buy spec /\
    quoted demo_pool demo_meta demo_arb buy (swap_exact 4 demo_pool demo_meta demo_map spec) q.
Proof.
  intros q. assert (pnl_usd_1e6 q = 198086) as E by (by vm_compute). split; [exact E|].
  assert (0 <= pm_fee_pips demo_meta /\ 0 <= dec1 demo_meta /\ px0_usd_1e6 demo_arb <= i64_max /\ max_notional_usd_1e6 demo_arb <= i64_max /\
    gas_usd_1e6 demo_arb <= i64_max) as (H1 & H2 & H3 & H4 & H5) by (split_and!; by vm_compute).
  assert (u128 (eff_bid_1e18 demo_arb) /\ u128 (eff_ask_1e18 demo_arb)) as (H6 & H7) by (unfold u128; split_and!; by vm_compute).
  destruct (arbitrage_quote_clears_its_gas 4 demo_meta demo_pool demo_map demo_arb demo_good H1 H2 H6 H7 H3 H4 H5) as [(_ & _ & H & _)|H]; [|exact H].
  exfalso. fold q in H. rewrite E in H. clear -H. lia.
Defined.

(** ** The tape's payloads *)

(** Every event of the words' widths that a payload encoder takes is
    read back as itself, and every payload that is read comes, every byte of
    it, from encoding what was read. *)
Theorem pool_event_payloads_are_a_bijection e p :
  (event_typed e -> encode_event e = Some p -> payload p /\ decode p = Some e) /\
  (payload p -> decode p = Some e -> event_typed e /\ encode_event e = Some p).
Proof. split; [apply decode_encode|]. intros Hp Hd. by apply encode_decode. Qed.

Lemma pool_event_payloads_are_a_bijection_witness :
  let e := EvLiquidity 123456789 true (-887272) 60 (2 ^ 100) in
  exists p, encode_event e = Some p /\ decode p = Some e.
Proof.
  intros e. destruct (encode_event e) as [p|] eqn:E; [|by vm_compute in E]. exists p. split; [done|].
  apply (pool_event_payloads_are_a_bijection e p); [|exact E]. by vm_compute.
Defined.

(** ** Fills on pools *)


(** Pool 1 of the chain, its snapshot, its ticks and its state. *)
Definition demo_sym : Z := make_symbol_id HYPER_EVM 1.
Definition demo_signal (e : PoolEvent) : BookOp := OpSignal demo_sym (default [] (encode_event e)).
Definition demo_open : list BookOp :=
  [demo_signal (EvSnapshot 7 FAMILY_V3 (-60) 60 2 3000 60 6 6); demo_signal (EvState 0 (2 ^ 96) 0 1000000000000000 true)].

Lemma demo_open_ok : Forall op_ok demo_open.
Proof.
  assert (forall e, encode_event e <> None -> event_typed e -> event_consistent e -> op_ok (demo_signal e)) as H.
  { intros e He Te Ce. unfold demo_signal. cbn [op_ok]. destruct (encode_event e) as [p|] eqn:E; [|done]. cbn [default from_option id].
    destruct (decode_encode e p Te E) as [Hp Hd]. split; [done|]. intros e' He'. rewrite Hd in He'. by injection He' as <-. }
  apply Forall_cons; split; [|apply Forall_singleton]; apply H; by vm_compute.
Qed.


(** A gap puts the pools it names out. *)
Lemma gap_down b sym p block i : book_ok b -> decode p = Some (EvGap block) -> amm_pool_index sym = Some i \/ amm_pool_index sym = None ->
  down i (fst (observe sym p b)).
Proof.
  intros [L F] Hd Hi. unfold observe. rewrite Hd. cbn [observe_event]. destruct Hi as [Hi|Hi]; rewrite Hi.
  - pose proof (amm_pool_index_bound sym i Hi). split; cbn [fst ab_pools counted at_pool stale_all]; [by rewrite length_alter|].
    rewrite list_lookup_total_alter, decide_True by (split; [done|by rewrite L]). apply stale_down.
  - split; cbn [fst ab_pools counted at_pool stale_all]; [by rewrite length_fmap|]. rewrite list_lookup_total_alt, list_lookup_fmap.
    destruct (ab_pools b !! i) as [q|]; [|by left]. cbn. destruct (Z.eqb_spec (ap_phase q) PHASE_EMPTY) as [E|]; [|apply stale_down].
    left. by rewrite E.
Qed.

(** C17. After a gap of a pool or of the whole chain, and whatever else the
    tape then carries, no order on the pool is filled and no price or walk
    is read off it, until a snapshot's state of that pool. *)
Theorem broken_stream_is_not_judged pre sym p block i ops side px qty : Forall op_ok pre ->
  decode p = Some (EvGap block) -> amm_pool_index sym = Some i \/ amm_pool_index sym = None -> Forall (fun o => ~ completes i o) ops ->
  let b := book_run (book_op (book_run AmmBook_new pre) (OpSignal sym p)) ops in
  judge i side px qty b = (b, NOT_LIVE) /\ mid_1e6 i b = None /\ book_pool_meta i b = None.
Proof.
  intros F Hd Hi Ho b. assert (book_is_live i b = false) as H.
  { apply down_not_live, book_run_down, Ho. apply (gap_down _ _ _ block); [|done|done]. apply book_run_ok, F. apply book_new_ok. }
  unfold judge, mid_1e6, book_pool_meta. by rewrite H.
Qed.

Lemma broken_stream_is_not_judged_witness :
  let gap := default [] (encode_event (EvGap 8)) in
  let later := [demo_signal (EvState 0 (2 ^ 96) 0 1000000000000000 false)] in
  let b := book_run (book_op (book_run AmmBook_new demo_open) (OpSignal demo_sym gap)) later in
  book_is_live 0 (book_run AmmBook_new demo_open) = true /\ judge 0 Bid 1004000 5000000 b = (b, NOT_LIVE).
Proof.
  intros gap later b. split; [by vm_compute|].
  apply (broken_stream_is_not_judged demo_open demo_sym gap 8 0 later Bid 1004000 5000000 demo_open_ok); [by vm_compute|left; by vm_compute|].
  constructor; [|constructor]. intros (_ & t & lo & hi & l & H). vm_compute in H. discriminate H.
Defined.

(** ** What the code does that its texts do not say *)

(** The coverage test compares ticks: a pool whose tick is the coverage's upper
    edge passes it although its price is above that edge's ratio. Its upward
    swap then steps toward the edge, which is below: the price falls, and the
    swap pays out more than it takes in at a price above the edge. *)
Example upward_swap_at_the_edge_walks_down :
  let p := U256.wrapping_add (sqrt_ratio_at_tick 60) (U256.from_u128 1000000000000000000000) in
  let s := PoolState_new (U256.lo p) (U256.hi p) 60 1000000000000000 in
  let r := swap_exact 4 s demo_meta demo_map (demo_spec false true) in
  tick_at_sqrt_ratio p = 60 /\ sr_amount_in r = 1000000 /\ sr_amount_out r = 1002999 /\ pool_price (sr_after r) < pool_price s.
Proof. vm_compute. done. Qed.

(** Rounding up, a shift by more digits than a word has yields nothing. *)
Example scale10_rounds_up_to_nothing : scale10 U256.ONE (-78) true = Some U256.ZERO.
Proof. done. Qed.

(** A bare state of a snapshot revives a pool a gap had put out. *)
Example snapshot_state_revives_after_a_gap :
  let ops := demo_open ++ [demo_signal (EvGap 8); demo_signal (EvState 0 (2 ^ 96) 0 1000000000000000 true)] in
  book_is_live 0 (book_run AmmBook_new (take 3 ops)) = false /\ book_is_live 0 (book_run AmmBook_new ops) = true.
Proof. vm_compute. done. Qed.
