(* ===== verification/Parse.v ===== *)
(** * Byte scanners ([crates/core-parse/src/lib.rs])

    Every venue frame is read by these: integers, fixed-point decimals,
    numbers with exponents, and the skippers that walk a JSON text without
    building it. A buffer is its list of bytes and a position a [nat]; a loop
    [while i < buf.len()] runs down the bytes from [i]. The substring search
    of the [memchr] crate is a parameter. *)

From S2P Require Import Prelude AmmU256.

#[local] Open Scope machine_scope.

Definition is_digit (b : Z) : bool := (48 <=? b) && (b <=? 57).

(** [i < buf.len() && buf[i] == b]. *)
Definition byte_at (buf : list Z) (i : nat) (b : Z) : bool := match buf !! i with Some x => x =? b | None => false end.

(** ** Integers *)

Definition U64_SAFE_DIGITS : nat := 19.

(** The loop of [scan_u64]: the wrapped value of a digit run and its end. *)
Fixpoint digit_run (l : list Z) (v : Z) (i : nat) : Z * nat :=
  match l with
  | b :: l' => if is_digit b then digit_run l' (wrap_u64 (wrap_u64 (v * 10) + (b - 48))) (S i) else (v, i)
  | [] => (v, i)
  end.

(** [try_fold] with checked arithmetic. *)
Fixpoint digits_checked (v : Z) (l : list Z) : option Z :=
  match l with
  | [] => Some v
  | b :: l' =>
      if u64_max <? v * 10 then None
      else if u64_max <? v * 10 + (b - 48) then None
      else digits_checked (v * 10 + (b - 48)) l'
  end.

Definition digits_u64_checked (digits : list Z) : option Z := digits_checked 0 digits.

Definition scan_u64 (buf : list Z) (pos : nat) : option (Z * nat) :=
  let '(v, i) := digit_run (drop pos buf) 0 pos in
  let digits := (i - pos)%nat in
  if (digits =? 0)%nat then None
  else if (U64_SAFE_DIGITS <? digits)%nat then
    match digits_u64_checked (take digits (drop pos buf)) with Some v => Some (v, i) | None => None end
  else Some (v, i).

Definition scan_i64 (buf : list Z) (pos : nat) : option (Z * nat) :=
  match buf !! pos with
  | None => None
  | Some b =>
      let negative := b =? 45 in
      match scan_u64 buf (pos + (if negative then 1 else 0)) with
      | None => None
      | Some (mag, next) =>
          if negative then (if - mag <? i64_min then None else Some (- mag, next))
          else (if i64_max <? mag then None else Some (mag, next))
      end
  end.

(** ** Fixed-point decimals *)

(** The loop of [scan_fractional_n]: the digits kept, how many were seen and
    the end of the run. *)
Fixpoint frac_run (max_digits : nat) (l : list Z) (v : Z) (seen i : nat) : Z * nat * nat :=
  match l with
  | b :: l' =>
      if is_digit b then
        frac_run max_digits l' (if (seen <? max_digits)%nat then wrap_u64 (wrap_u64 (v * 10) + (b - 48)) else v) (S seen) (S i)
      else (v, seen, i)
  | [] => (v, seen, i)
  end.

Fixpoint pad (n : nat) (v : Z) : Z := match n with O => v | S k => pad k (wrap_u64 (v * 10)) end.

Definition scan_fractional_n (buf : list Z) (pos max_digits : nat) : option (Z * nat) :=
  let '(v, seen, i) := frac_run max_digits (drop pos buf) 0 0 pos in
  if (seen =? 0)%nat then None else Some (pad (max_digits - seen) v, i).

Definition scan_fractional_1e6 (buf : list Z) (pos : nat) : option (Z * nat) := scan_fractional_n buf pos 6.

(** The body the three price scanners share. *)
Definition scan_price (SCALE : Z) (frac : list Z -> nat -> option (Z * nat)) (buf : list Z) (pos : nat) : option (Z * nat) :=
  if (length buf <=? pos)%nat then None
  else
    let '(negative, start) := if byte_at buf pos 45 then (true, S pos) else (false, pos) in
    match scan_u64 buf start with
    | None => None
    | Some (int_part, mid) =>
        match (if byte_at buf mid 46 then frac buf (S mid) else Some (0, mid)) with
        | None => None
        | Some (frac_scaled, end_) =>
            if u64_max <? int_part * SCALE then None
            else if u64_max <? int_part * SCALE + frac_scaled then None
            else
              let mag := int_part * SCALE + frac_scaled in
              if i64_max <? mag then None else Some (if negative then - mag else mag, end_)
        end
    end.

Definition scan_price_1e6 : list Z -> nat -> option (Z * nat) := scan_price 1000000 scan_fractional_1e6.
Definition scan_price_1e9 : list Z -> nat -> option (Z * nat) := scan_price 1000000000 (fun buf pos => scan_fractional_n buf pos 9).
Definition scan_price_1e8 : list Z -> nat -> option (Z * nat) := scan_price 100000000 (fun buf pos => scan_fractional_n buf pos 8).

(** ** Fields *)

Section Find.
(** [memchr::memmem::find haystack needle]. *)
Variable memmem_find : list Z -> list Z -> option nat.

Definition opens_key (b : Z) : bool := (b =? 123) || (b =? 44) || (b =? 32) || (b =? 9) || (b =? 10) || (b =? 13).

Fixpoint find_from (fuel : nat) (buf needle : list Z) (start : nat) : option nat :=
  match fuel with
  | O => None
  | S f =>
      match memmem_find (drop start buf) needle with
      | None => None
      | Some off =>
          let abs := (start + off)%nat in
          let after := (abs + length needle)%nat in
          if (abs =? 0)%nat || opens_key (get buf (abs - 1)) then Some after else find_from f buf needle after
      end
  end.

(** Each turn starts past a needle: the buffer's length covers them. *)
Definition find_field (buf needle : list Z) : option nat := find_from (S (length buf)) buf needle 0.

End Find.

Definition skip_byte (buf : list Z) (pos : nat) (b : Z) : nat := if byte_at buf pos b then S pos else pos.

(** ** Numbers with an exponent *)

(** [mantissa.checked_mul(10)?.checked_add(digit)?] over a digit run. *)
Fixpoint mantissa_run (l : list Z) (m : Z) (i : nat) : option (Z * nat) :=
  match l with
  | b :: l' =>
      if is_digit b then
        if u128_max <? m * 10 then None
        else if u128_max <? m * 10 + (b - 48) then None
        else mantissa_run l' (m * 10 + (b - 48)) (S i)
      else Some (m, i)
  | [] => Some (m, i)
  end.

Definition i32_max : Z := 2147483647.
Definition i32_min : Z := -2147483648.
Definition sat_i32 (z : Z) : Z := clamp i32_min i32_max z.

Fixpoint exp_run (l : list Z) (v : Z) (i : nat) : Z * nat :=
  match l with
  | b :: l' => if is_digit b then exp_run l' (sat_i32 (sat_i32 (v * 10) + (b - 48))) (S i) else (v, i)
  | [] => (v, i)
  end.

(** The fraction after a dot: the mantissa, the decimal shift and the end. *)
Definition sci_fraction (buf : list Z) (m : Z) (i : nat) : option (Z * Z * nat) :=
  if byte_at buf i 46 then
    match mantissa_run (drop (S i) buf) m (S i) with
    | None => None
    | Some (m', j) => if (j =? S i)%nat then None else Some (m', wrap_i32 (- Z.of_nat (j - S i)), j)
    end
  else Some (m, 0, i).

Definition sci_exponent (buf : list Z) (i : nat) : option (Z * nat) :=
  if byte_at buf i 101 || byte_at buf i 69 then
    let '(neg, k) := if byte_at buf (S i) 43 || byte_at buf (S i) 45 then (byte_at buf (S i) 45, S (S i)) else (false, S i) in
    let '(v, j) := exp_run (drop k buf) 0 k in
    if (j =? k)%nat then None else Some (if neg then - v else v, j)
  else Some (0, i).

(** The mantissa times [10 ^ total_exp], truncated. *)
Definition sci_scale (m total_exp : Z) : option Z :=
  if 0 <=? total_exp then
    if 38 <? total_exp then None
    else if u128_max <? m * 10 ^ total_exp then None
    else Some (m * 10 ^ total_exp)
  else
    let down := - total_exp in
    if 38 <? down then Some 0 else Some (m / 10 ^ down).

Definition scan_number_sci_scaled (buf : list Z) (pos : nat) (out_scale : Z) : option (Z * nat) :=
  if (length buf <=? pos)%nat then None
  else
    let '(negative, i0) := if byte_at buf pos 45 then (true, S pos) else (false, pos) in
    match mantissa_run (drop i0 buf) 0 i0 with
    | None => None
    | Some (m0, i1) =>
        if (i1 =? i0)%nat then None
        else
          match sci_fraction buf m0 i1 with
          | None => None
          | Some (m, dec_exp, i2) =>
              match sci_exponent buf i2 with
              | None => None
              | Some (exp_val, i3) =>
                  match sci_scale m (sat_i32 (sat_i32 (dec_exp + exp_val) + out_scale)) with
                  | None => None
                  | Some scaled => if i64_max <? scaled then None else Some (if negative then - scaled else scaled, i3)
                  end
              end
          end
    end.

Definition scan_number_sci_1e9 (buf : list Z) (pos : nat) : option (Z * nat) := scan_number_sci_scaled buf pos 9.
Definition scan_number_sci_1e6 (buf : list Z) (pos : nat) : option (Z * nat) := scan_number_sci_scaled buf pos 6.

(** ** Skipping JSON *)

Definition SKIP_VALUE_MAX_DEPTH : nat := 16.

Definition is_ws (b : Z) : bool := (b =? 32) || (b =? 9) || (b =? 10) || (b =? 13).

(** [while i < buf.len() && p(buf[i]) { i += 1 }]. *)
Fixpoint skip_while (p : Z -> bool) (l : list Z) (i : nat) : nat :=
  match l with
  | b :: l' => if p b then skip_while p l' (S i) else i
  | [] => i
  end.

Definition skip_ws (buf : list Z) (pos : nat) : nat := skip_while is_ws (drop pos buf) pos.

(** An escape is two bytes; it may step past the end. *)
Fixpoint string_from (l : list Z) (i : nat) : option nat :=
  match l with
  | [] => None
  | b :: l' =>
      if b =? 34 then Some (S i)
      else if b =? 92 then match l' with [] => None | _ :: l'' => string_from l'' (S (S i)) end
      else string_from l' (S i)
  end.

Definition skip_string (buf : list Z) (pos : nat) : option nat := string_from (drop pos buf) pos.

Definition skip_keyword (buf : list Z) (pos : nat) (kw : list Z) : option nat :=
  let end_ := (pos + length kw)%nat in
  if (end_ <=? length buf)%nat && bool_decide (take (length kw) (drop pos buf) = kw) then Some end_ else None.

Definition skip_digits (buf : list Z) (i : nat) : nat := skip_while is_digit (drop i buf) i.

Definition skip_fraction (buf : list Z) (i : nat) : option nat :=
  if byte_at buf i 46 then (let j := skip_digits buf (S i) in if (j =? S i)%nat then None else Some j) else Some i.

Definition skip_exponent (buf : list Z) (i : nat) : option nat :=
  if byte_at buf i 101 || byte_at buf i 69 then
    let k := if byte_at buf (S i) 43 || byte_at buf (S i) 45 then S (S i) else S i in
    let j := skip_digits buf k in
    if (j =? k)%nat then None else Some j
  else Some i.

Definition skip_number (buf : list Z) (pos : nat) : option nat :=
  let d0 := if byte_at buf pos 45 then S pos else pos in
  let i := skip_digits buf d0 in
  if (i =? d0)%nat then None
  else match skip_fraction buf i with None => None | Some j => skip_exponent buf j end.

Definition TRUE : list Z := [116; 114; 117; 101].
Definition FALSE : list Z := [102; 97; 108; 115; 101].
Definition NULL : list Z := [110; 117; 108; 108].

(** One turn of the loop: done with the position after the value, refused, or
    on to the next position and depth. *)
Inductive Turn := Done (r : option nat) | Next (i depth : nat).

(** After an atom: done at the top, on inside a container. *)
Definition atom_end (r : option nat) (depth : nat) : Turn :=
  match r with None => Done None | Some i => if (depth =? 0)%nat then Done (Some i) else Next i depth end.

Definition json_turn (buf : list Z) (i depth : nat) : Turn :=
  match buf !! i with
  | None => Done None
  | Some b =>
      if (b =? 123) || (b =? 91) then
        if (SKIP_VALUE_MAX_DEPTH <? S depth)%nat then Done None else Next (S i) (S depth)
      else if (b =? 125) || (b =? 93) then
        match depth with O => Done None | S O => Done (Some (S i)) | S d => Next (S i) d end
      else if b =? 34 then atom_end (skip_string buf (S i)) depth
      else if (b =? 44) || (b =? 58) then
        if (depth =? 0)%nat then Done None else Next (S i) depth
      else if is_ws b then Next (S i) depth
      else if b =? 116 then atom_end (skip_keyword buf i TRUE) depth
      else if b =? 102 then atom_end (skip_keyword buf i FALSE) depth
      else if b =? 110 then atom_end (skip_keyword buf i NULL) depth
      else if (b =? 45) || is_digit b then atom_end (skip_number buf i) depth
      else Done None
  end.

Fixpoint json_loop (fuel : nat) (buf : list Z) (i depth : nat) : option nat :=
  match fuel with
  | O => None
  | S f => match json_turn buf i depth with Done r => r | Next i' d' => json_loop f buf i' d' end
  end.

(** Every turn moves on: the bytes left, and one to see there are none. *)
Definition skip_json_value (buf : list Z) (pos : nat) : option nat :=
  let i := skip_ws buf pos in
  json_loop (S (length buf - i)) buf i 0.
