(* ===== verification/ParseProofs.v ===== *)
(** * What the byte scanners read

    A digit run is its number when the number fits; a decimal is read as its
    value scaled and truncated toward zero, a number with an exponent too; a
    skipped JSON value is exactly one value. *)

From S2P Require Import Prelude AmmU256 Parse.

#[local] Open Scope machine_scope.

(** ** Digit runs *)

Abbreviation digit b := (is_digit b = true).

(** The first byte, if any, is of the kind. *)
Definition leads (p : Z -> bool) (l : list Z) : bool := match l with b :: _ => p b | [] => false end.

Fixpoint digits_of (l : list Z) : list Z :=
  match l with b :: l' => if is_digit b then b :: digits_of l' else [] | [] => [] end.

(** The number a digit string writes, from [v] on. *)
Fixpoint num_from (v : Z) (l : list Z) : Z := match l with b :: l' => num_from (v * 10 + (b - 48)) l' | [] => v end.
Definition num (l : list Z) : Z := num_from 0 l.

Lemma digit_bounds b : digit b -> 0 <= b - 48 <= 9.
Proof. unfold is_digit. rewrite andb_true_iff, !Z.leb_le. lia. Qed.

Lemma digits_of_split l : exists rest, l = digits_of l ++ rest /\ Forall (fun b => digit b) (digits_of l) /\ leads is_digit rest = false.
Proof.
  induction l as [|b l (rest & E & F & L)]; [by exists []|]. cbn [digits_of]. destruct (is_digit b) eqn:Hb.
  - exists rest. split; [by rewrite E at 1|]. split; [by constructor|done].
  - exists (b :: l). split_and!; [done|by constructor|done].
Qed.

Lemma digits_of_app d rest : Forall (fun b => digit b) d -> leads is_digit rest = false -> digits_of (d ++ rest) = d.
Proof.
  intros F L. induction F as [|b d Hb F IH]; cbn [app digits_of]; [|by rewrite Hb, IH]. destruct rest as [|b rest]; [done|].
  cbn [leads] in L. cbn [digits_of]. by rewrite L.
Qed.

Lemma num_from_split v l : num_from v l = v * 10 ^ Z.of_nat (length l) + num l.
Proof.
  unfold num. revert v. induction l as [|b l IH]; intros v; cbn [num_from length]; [lia|].
  rewrite (IH (v * 10 + (b - 48))), (IH (0 * 10 + (b - 48))), Nat2Z.inj_succ, Z.pow_succ_r by lia. lia.
Qed.

Lemma num_from_app v a b : num_from v (a ++ b) = num_from (num_from v a) b.
Proof. revert v. induction a as [|x a IH]; intros v; [done|]. cbn. apply IH. Qed.

Lemma num_app a b : num (a ++ b) = num a * 10 ^ Z.of_nat (length b) + num b.
Proof. unfold num. rewrite num_from_app. apply num_from_split. Qed.

Lemma pow10_pos n : 0 < 10 ^ Z.of_nat n.
Proof. apply Z.pow_pos_nonneg; lia. Qed.

Lemma digits_num_bound l : Forall (fun b => digit b) l -> 0 <= num l < 10 ^ Z.of_nat (length l).
Proof.
  induction 1 as [|b l Hb F IH]; [cbn; lia|]. apply digit_bounds in Hb. unfold num in *. cbn [num_from length]. rewrite num_from_split.
  unfold num. rewrite Nat2Z.inj_succ, Z.pow_succ_r by lia. pose proof (pow10_pos (length l)). nia.
Qed.

(** ** Integers *)

Lemma wrap_u64_step v d : wrap_u64 (wrap_u64 (wrap_u64 v * 10) + d) = wrap_u64 (v * 10 + d).
Proof.
  rewrite wrap_u64_add_l. unfold wrap_u64. rewrite Z.add_mod, Z.mul_mod_idemp_l, <- Z.add_mod by lia. done.
Qed.

Lemma digit_run_spec l v i : digit_run l (wrap_u64 v) i = (wrap_u64 (num_from v (digits_of l)), (i + length (digits_of l))%nat).
Proof.
  revert v i. induction l as [|b l IH]; intros v i; cbn [digit_run digits_of]; [cbn; f_equal; lia|].
  destruct (is_digit b); [|cbn; f_equal; lia]. rewrite wrap_u64_step, IH. cbn [num_from length]. f_equal. lia.
Qed.

Lemma digits_checked_spec v d : 0 <= v -> Forall (fun b => digit b) d ->
  v <= u64_max -> digits_checked v d = if u64_max <? num_from v d then None else Some (num_from v d).
Proof.
  intros Hv F. revert v Hv. induction F as [|b d Hb F IH]; intros v Hv Hm; cbn [digits_checked num_from].
  { destruct (Z.ltb_spec u64_max v); [lia|done]. }
  apply digit_bounds in Hb. pose proof (digits_num_bound d F) as B. pose proof (pow10_pos (length d)) as P.
  destruct (Z.ltb_spec u64_max (v * 10)); [|destruct (Z.ltb_spec u64_max (v * 10 + (b - 48))); [|by apply IH; lia]].
  all: rewrite num_from_split; destruct (Z.ltb_spec u64_max ((v * 10 + (b - 48)) * 10 ^ Z.of_nat (length d) + num d)); [done|nia].
Qed.

Lemma take_digits l : take (length (digits_of l)) l = digits_of l.
Proof. destruct (digits_of_split l) as (rest & E & _). rewrite E at 2. by rewrite take_app_length. Qed.

Lemma scan_u64_spec buf pos : let d := digits_of (drop pos buf) in
  scan_u64 buf pos = if (length d =? 0)%nat then None else if u64_max <? num d then None else Some (num d, (pos + length d)%nat).
Proof.
  cbv zeta. unfold scan_u64. change 0 with (wrap_u64 0) at 1. rewrite digit_run_spec. set (d := digits_of (drop pos buf)).
  fold (num d). replace (pos + length d - pos)%nat with (length d) by lia. destruct (length d =? 0)%nat; [done|].
  destruct (digits_of_split (drop pos buf)) as (rest & _ & F & _). fold d in F. pose proof (digits_num_bound d F) as B.
  destruct (Nat.ltb_spec U64_SAFE_DIGITS (length d)) as [Hl|Hl].
  - unfold digits_u64_checked. assert (take (length d) (drop pos buf) = d) as -> by apply take_digits. rewrite digits_checked_spec by (done || lia). fold (num d).
    by destruct (u64_max <? num d).
  - assert (num d <= u64_max) as Hm.
    { assert (10 ^ Z.of_nat (length d) <= 10 ^ 19) as H by (apply Z.pow_le_mono_r; unfold U64_SAFE_DIGITS in *; lia).
      assert (10 ^ 19 <= u64_max) by (by vm_compute). lia. }
    destruct (Z.ltb_spec u64_max (num d)); [lia|]. rewrite wrap_u64_id by lia. done.
Qed.

(** What a number's sign does. *)
Definition signed (neg : bool) (m : Z) : Z := if neg then - m else m.
Definition sign_text (neg : bool) : list Z := if neg then [45] else [].

(** ** Fixed-point decimals *)

Lemma frac_run_spec mx l v seen i : (mx <= 18)%nat -> 0 <= v < 10 ^ Z.of_nat (Nat.min seen mx) ->
  frac_run mx l v seen i = (num_from v (take (mx - seen) (digits_of l)), (seen + length (digits_of l))%nat, (i + length (digits_of l))%nat).
Proof.
  intros Hm. revert v seen i. induction l as [|b l IH]; intros v seen i Hv; cbn [frac_run digits_of].
  { rewrite take_nil. cbn [length num_from]. by rewrite !Nat.add_0_r. }
  destruct (is_digit b) eqn:Hb; [|rewrite take_nil; cbn [length num_from]; by rewrite !Nat.add_0_r]. apply digit_bounds in Hb.
  destruct (Nat.ltb_spec seen mx) as [Hs|Hs].
  - rewrite Nat.min_l in Hv by lia. pose proof (pow10_pos seen).
    assert (10 ^ Z.of_nat seen * 10 <= 10 ^ 18) as Hp.
    { replace (10 ^ Z.of_nat seen * 10) with (10 ^ Z.of_nat (S seen)) by (rewrite Nat2Z.inj_succ, Z.pow_succ_r; lia). apply Z.pow_le_mono_r; lia. }
    assert (10 ^ 18 <= u64_max) by (by vm_compute). rewrite wrap_u64_add_l, wrap_u64_id by lia. rewrite IH.
    + replace (mx - seen)%nat with (S (mx - S seen)) by lia. cbn [take num_from length]. by rewrite !Nat.add_succ_comm.
    + rewrite Nat.min_l, Nat2Z.inj_succ, Z.pow_succ_r by lia. lia.
  - rewrite Nat.min_r in Hv by lia. rewrite IH by (rewrite Nat.min_r; lia). replace (mx - S seen)%nat with 0%nat by lia.
    replace (mx - seen)%nat with 0%nat by lia. cbn [take num_from length]. by rewrite !Nat.add_succ_comm.
Qed.

Lemma pad_spec n v : 0 <= v -> v * 10 ^ Z.of_nat n <= u64_max -> pad n v = v * 10 ^ Z.of_nat n.
Proof.
  revert v. induction n as [|n IH]; intros v Hv Hm; cbn [pad]; [cbn; lia|]. rewrite Nat2Z.inj_succ, Z.pow_succ_r in * by lia.
  pose proof (pow10_pos n). rewrite wrap_u64_id by nia. rewrite IH; nia.
Qed.

(** The fraction [0.d] at [mx] places, truncated. *)
Definition places (mx : nat) (d : list Z) : Z := num d * 10 ^ Z.of_nat mx / 10 ^ Z.of_nat (length d).

Lemma places_kept mx d : Forall (fun b => digit b) d -> num (take mx d) * 10 ^ Z.of_nat (mx - length d) = places mx d.
Proof.
  intros F. unfold places. pose proof (pow10_pos (length d)) as P. destruct (Nat.le_gt_cases (length d) mx) as [H|H].
  - rewrite take_ge by lia. replace (Z.of_nat mx) with (Z.of_nat (mx - length d) + Z.of_nat (length d)) by lia. rewrite Z.pow_add_r, Z.mul_assoc, Z.div_mul by lia. done.
  - replace (mx - length d)%nat with 0%nat by lia. rewrite <- (take_drop mx d) at 2. rewrite num_app, length_drop.
    replace (Z.of_nat (length d)) with (Z.of_nat (length d - mx) + Z.of_nat mx) by lia. rewrite Z.pow_add_r by lia.
    pose proof (pow10_pos mx). pose proof (pow10_pos (length d - mx)). rewrite Z.div_mul_cancel_r by lia.
    pose proof (digits_num_bound (drop mx d) ltac:(by apply Forall_drop)) as B. rewrite length_drop in B.
    rewrite Z.div_add_l, Z.div_small by lia. cbn. lia.
Qed.

Lemma places_bound mx d : Forall (fun b => digit b) d -> 0 <= places mx d < 10 ^ Z.of_nat mx.
Proof.
  intros F. pose proof (digits_num_bound d F) as B. pose proof (pow10_pos mx). unfold places.
  split; [apply Z.div_pos; nia|apply Z.div_lt_upper_bound; nia].
Qed.

Lemma scan_fractional_spec mx buf pos : (mx <= 18)%nat -> let d := digits_of (drop pos buf) in
  scan_fractional_n buf pos mx = if (length d =? 0)%nat then None else Some (places mx d, (pos + length d)%nat).
Proof.
  intros Hm d. unfold scan_fractional_n. rewrite frac_run_spec by (cbn; lia). fold d. rewrite Nat.sub_0_r, Nat.add_0_l. fold (num (take mx d)).
  destruct (length d =? 0)%nat; [done|]. destruct (digits_of_split (drop pos buf)) as (_ & _ & F & _). fold d in F.
  pose proof (places_bound mx d F) as B. pose proof (places_kept mx d F) as K.
  assert (10 ^ Z.of_nat mx <= 10 ^ 18) by (apply Z.pow_le_mono_r; lia). assert (10 ^ 18 <= u64_max) by (by vm_compute).
  pose proof (digits_num_bound (take mx d) ltac:(by apply Forall_take)). rewrite pad_spec by lia. by rewrite K.
Qed.

(** Bytes of the buffer as the text from a position on. *)
Lemma byte_at_leads buf i b : byte_at buf i b = leads (fun x => x =? b) (drop i buf).
Proof. unfold byte_at. rewrite <- (Nat.add_0_r i) at 1. rewrite <- lookup_drop. by destruct (drop i buf). Qed.

Lemma drop_past (buf t r : list Z) i : drop i buf = t ++ r -> drop (i + length t) buf = r.
Proof. intros E. rewrite <- drop_drop, E. apply drop_app_length. Qed.

Lemma drop_nil_iff (buf : list Z) i : drop i buf = [] <-> (length buf <= i)%nat.
Proof. split; intros H; [|by apply drop_ge]. apply (f_equal length) in H. rewrite length_drop in H. cbn in H. lia. Qed.

Lemma drop_in (buf t r : list Z) i : drop i buf = t ++ r -> t <> [] -> (i + length t <= length buf)%nat.
Proof. intros E Ht. apply (f_equal length) in E. rewrite length_drop, length_app in E. destruct t; [done|]. cbn in *. lia. Qed.

(** A decimal's text: a sign, digits, and digits after a dot if it has one. *)
Definition frac_text (fp : list Z) : list Z := match fp with [] => [] | _ => 46 :: fp end.
Definition decimal_text (neg : bool) (ip fp : list Z) : list Z := sign_text neg ++ ip ++ frac_text fp.

(** From [pos], the longest decimal ends at [e]. *)
Record decimal_at (buf : list Z) (pos : nat) (neg : bool) (ip fp : list Z) (e : nat) : Prop := {
  da_digits : ip <> [] /\ Forall (fun b => digit b) ip /\ Forall (fun b => digit b) fp;
  da_text : exists rest, drop pos buf = decimal_text neg ip fp ++ rest /\ leads is_digit rest = false /\
    (fp = [] -> leads (fun b => b =? 46) rest = false);
  da_end : e = (pos + length (decimal_text neg ip fp))%nat
}.

(** The value at [k] places, truncated toward zero. *)
Definition magnitude (k : nat) (ip fp : list Z) : Z := num (ip ++ fp) * 10 ^ Z.of_nat k / 10 ^ Z.of_nat (length fp).

Lemma magnitude_parts k ip fp : magnitude k ip fp = num ip * 10 ^ Z.of_nat k + places k fp.
Proof.
  unfold magnitude, places. pose proof (pow10_pos (length fp)). rewrite num_app.
  replace ((num ip * 10 ^ Z.of_nat (length fp) + num fp) * 10 ^ Z.of_nat k) with (num ip * 10 ^ Z.of_nat k * 10 ^ Z.of_nat (length fp) + num fp * 10 ^ Z.of_nat k) by lia.
  rewrite Z.div_add_l by lia. done.
Qed.

Lemma minus_not_digit l : leads is_digit l = true -> leads (fun b => b =? 45) l = false.
Proof. destruct l as [|b l]; [done|]. cbn. unfold is_digit. rewrite andb_true_iff, !Z.leb_le, Z.eqb_neq. lia. Qed.

Lemma leads_app p (t r : list Z) : t <> [] -> leads p (t ++ r) = leads p t.
Proof. by destruct t. Qed.

Lemma leads_digits d r : d <> [] -> Forall (fun b => digit b) d -> leads is_digit (d ++ r) = true.
Proof. intros H F. destruct F; [done|]. done. Qed.

Lemma dot_not_digit l : leads (fun b => b =? 46) l = true -> leads is_digit l = false.
Proof. destruct l as [|b l]; [done|]. cbn. rewrite Z.eqb_eq. by intros ->. Qed.

(** The position after the sign. *)
Lemma sign_start buf pos neg t : drop pos buf = sign_text neg ++ t -> leads is_digit t = true ->
  (if byte_at buf pos 45 then (true, S pos) else (false, pos)) = (neg, (pos + length (sign_text neg))%nat).
Proof.
  intros E L. rewrite byte_at_leads, E. destruct neg; cbn [sign_text app length leads].
  - rewrite Z.eqb_refl. f_equal. lia.
  - rewrite (minus_not_digit _ L). f_equal. lia.
Qed.

(** A sign, or none, begins any text. *)
Lemma sign_split buf pos : exists neg t, drop pos buf = sign_text neg ++ t /\
  (if byte_at buf pos 45 then (true, S pos) else (false, pos)) = (neg, (pos + length (sign_text neg))%nat).
Proof.
  rewrite byte_at_leads. destruct (drop pos buf) as [|b t]; [exists false, []; cbn; by rewrite Nat.add_0_r|]. cbn [leads]. destruct (Z.eqb_spec b 45) as [-> |].
  - exists true, t. split; [done|]. f_equal. cbn. lia.
  - exists false, (b :: t). split; [done|]. cbn. by rewrite Nat.add_0_r.
Qed.

Lemma scan_price_text (k : nat) buf pos neg ip fp e : (k <= 9)%nat -> decimal_at buf pos neg ip fp e ->
  scan_price (10 ^ Z.of_nat k) (fun b p => scan_fractional_n b p k) buf pos =
    if i64_max <? magnitude k ip fp then None else Some (signed neg (magnitude k ip fp), e).
Proof.
  intros Hk [(Ni & Fi & Ff) (rest & E & Ld & Lt) ->]. unfold scan_price, decimal_text in *. rewrite <- app_assoc in E.
  assert (leads is_digit ((ip ++ frac_text fp) ++ rest) = true) as Li by (rewrite <- app_assoc; by apply leads_digits).
  destruct (Nat.leb_spec (length buf) pos) as [Hp|_].
  { apply drop_nil_iff in Hp. rewrite Hp in E. destruct neg, ip; done. }
  rewrite (sign_start buf pos neg _ E Li). pose proof (drop_past _ _ _ _ E) as E1. set (start := (pos + length (sign_text neg))%nat) in *.
  rewrite <- app_assoc in E1. assert (leads is_digit (frac_text fp ++ rest) = false) as Lf by (destruct fp; done).
  rewrite scan_u64_spec, E1, (digits_of_app ip _ Fi Lf). pose proof (digits_num_bound ip Fi) as Bi. pose proof (places_bound k fp Ff) as Bp.
  destruct (Nat.eqb_spec (length ip) 0) as [Hz|_]; [by destruct ip|]. rewrite magnitude_parts.
  assert (1 <= 10 ^ Z.of_nat k) as K1 by (pose proof (pow10_pos k); lia).
  assert (i64_max < u64_max) as IU by done. set (m := num ip * 10 ^ Z.of_nat k + places k fp).
  destruct (Z.ltb_spec u64_max (num ip)) as [Hu|Hu]; [destruct (Z.ltb_spec i64_max m); [done|nia]|].
  pose proof (drop_past _ _ _ _ E1) as E2. set (mid := (start + length ip)%nat) in *.
  assert ((if byte_at buf mid 46 then scan_fractional_n buf (S mid) k else Some (0, mid)) = Some (places k fp, (mid + length (frac_text fp))%nat)) as ->.
  { rewrite byte_at_leads, E2. destruct fp as [|f fp]; cbn [frac_text app leads].
    - rewrite (Lt eq_refl). unfold places. cbn. rewrite Nat.add_0_r. done.
    - rewrite Z.eqb_refl, scan_fractional_spec by lia. assert (drop (S mid) buf = (f :: fp) ++ rest) as ->.
      { replace (S mid) with (mid + length [46%Z])%nat by (cbn; lia). by apply drop_past. }
      rewrite (digits_of_app _ _ Ff Ld). cbn [length Nat.eqb]. do 2 f_equal. lia. }
  destruct (Z.ltb_spec u64_max (num ip * 10 ^ Z.of_nat k)); [destruct (Z.ltb_spec i64_max m); [done|lia]|].
  fold m. destruct (Z.ltb_spec u64_max m); [destruct (Z.ltb_spec i64_max m); [done|lia]|].
  destruct (Z.ltb_spec i64_max m); [done|]. unfold signed. do 2 f_equal. unfold mid, start. rewrite !length_app. lia.
Qed.

(** Where the scanner stops there is a decimal. *)
Lemma scan_price_at (k : nat) buf pos r : (k <= 9)%nat ->
  scan_price (10 ^ Z.of_nat k) (fun b p => scan_fractional_n b p k) buf pos = Some r -> exists neg ip fp e, decimal_at buf pos neg ip fp e.
Proof.
  intros Hk. unfold scan_price. destruct (Nat.leb_spec (length buf) pos); [done|].
  destruct (sign_split buf pos) as (neg & t & E & ->).
  pose proof (drop_past _ _ _ _ E) as E1. set (start := (pos + length (sign_text neg))%nat) in *. rewrite scan_u64_spec, E1.
  destruct (digits_of_split t) as (l2 & El & Fi & Ld). set (ip := digits_of t) in *. destruct (Nat.eqb_spec (length ip) 0) as [|Hi]; [done|].
  assert (ip <> []) as Ni by (intros ->; by apply Hi). destruct (u64_max <? num ip); [done|]. rewrite El in E1. pose proof (drop_past _ _ _ _ E1) as E2.
  rewrite byte_at_leads, E2. destruct (leads (fun x => x =? 46) l2) eqn:Hd.
  - destruct l2 as [|b l3]; [done|]. cbn [leads] in Hd. apply Z.eqb_eq in Hd as ->. rewrite scan_fractional_spec by lia.
    assert (drop (S (start + length ip)) buf = l3) as ->.
    { replace (S (start + length ip)) with (start + length ip + length [46%Z])%nat by (cbn; lia). by apply drop_past. }
    destruct (digits_of_split l3) as (rest & Er & Ff & Lr). set (fp := digits_of l3) in *. destruct (Nat.eqb_spec (length fp) 0) as [|Hf]; [done|]. intros _.
    exists neg, ip, fp, (pos + length (decimal_text neg ip fp))%nat. split; [done| |done]. exists rest. split; [|split; [done|intros ->; by destruct Hf]].
    rewrite E, El, Er. unfold decimal_text. assert (frac_text fp = 46 :: fp) as -> by (by destruct fp; [destruct Hf|]). by rewrite <- !app_assoc.
  - intros _. exists neg, ip, [], (pos + length (decimal_text neg ip []))%nat. split; [done| |done]. exists l2.
    split; [rewrite E, El; unfold decimal_text; cbn; by rewrite app_nil_r, <- app_assoc|done].
Qed.

(** The scanners read exactly the decimals whose magnitude fits. *)
Lemma scan_price_spec (k : nat) buf pos v e : (k <= 9)%nat ->
  scan_price (10 ^ Z.of_nat k) (fun b p => scan_fractional_n b p k) buf pos = Some (v, e) <->
  exists neg ip fp, decimal_at buf pos neg ip fp e /\ magnitude k ip fp <= i64_max /\ v = signed neg (magnitude k ip fp).
Proof.
  intros Hk. split.
  - intros H. destruct (scan_price_at k buf pos _ Hk H) as (neg & ip & fp & e' & D). rewrite (scan_price_text k buf pos neg ip fp e' Hk D) in H.
    destruct (Z.ltb_spec i64_max (magnitude k ip fp)); [done|]. injection H as <- <-. by exists neg, ip, fp.
  - intros (neg & ip & fp & D & Hm & ->). rewrite (scan_price_text k buf pos neg ip fp e Hk D). by destruct (Z.ltb_spec i64_max (magnitude k ip fp)); [lia|].
Qed.

(** ** Numbers with an exponent *)

Lemma u128_max_pos : 0 <= u128_max < 10 ^ 39.
Proof. split; by vm_compute. Qed.

Lemma mantissa_run_spec l m i : 0 <= m <= u128_max -> let d := digits_of l in
  mantissa_run l m i = if u128_max <? num_from m d then None else Some (num_from m d, (i + length d)%nat).
Proof.
  cbv zeta. revert m i. induction l as [|b l IH]; intros m i Hm; cbn [mantissa_run digits_of].
  { cbn [num_from length]. destruct (Z.ltb_spec u128_max m); [lia|]. by rewrite Nat.add_0_r. }
  destruct (is_digit b) eqn:Hb; [|cbn [num_from length]; destruct (Z.ltb_spec u128_max m); [lia|]; by rewrite Nat.add_0_r].
  apply digit_bounds in Hb. cbn [num_from length]. destruct (digits_of_split l) as (_ & _ & F & _). pose proof (digits_num_bound _ F) as B.
  pose proof (pow10_pos (length (digits_of l))) as P.
  destruct (Z.ltb_spec u128_max (m * 10)); [|destruct (Z.ltb_spec u128_max (m * 10 + (b - 48)))].
  1,2: rewrite num_from_split; destruct (Z.ltb_spec u128_max ((m * 10 + (b - 48)) * 10 ^ Z.of_nat (length (digits_of l)) + num (digits_of l))); [done|nia].
  rewrite IH by lia. by rewrite Nat.add_succ_comm.
Qed.

Lemma num_from_capped c v d : 0 <= v -> 0 <= c -> Forall (fun b => digit b) d -> Z.min c (num_from (Z.min c v) d) = Z.min c (num_from v d).
Proof.
  intros Hv Hc F. rewrite !num_from_split. pose proof (digits_num_bound d F). pose proof (pow10_pos (length d)).
  destruct (Z.min_spec c v) as [[? ->]|[? ->]]; [|done]. nia.
Qed.

Lemma exp_run_spec l v i : 0 <= v -> let d := digits_of l in
  exp_run l (Z.min i32_max v) i = (Z.min i32_max (num_from v d), (i + length d)%nat).
Proof.
  cbv zeta. revert v i. induction l as [|b l IH]; intros v i Hv; cbn [exp_run digits_of]; [cbn [num_from length]; by rewrite Nat.add_0_r|].
  destruct (is_digit b) eqn:Hb; [|cbn [num_from length]; by rewrite Nat.add_0_r]. apply digit_bounds in Hb. cbn [num_from length].
  assert (sat_i32 (sat_i32 (Z.min i32_max v * 10) + (b - 48)) = Z.min i32_max (v * 10 + (b - 48))) as ->.
  { unfold sat_i32, clamp, i32_max, i32_min. lia. }
  rewrite IH by lia. by rewrite Nat.add_succ_comm.
Qed.

(** The text of an exponent: its letter, its sign and its digits. *)
Record exponent := mkExponent { ex_letter : Z; ex_sign : list Z; ex_digits : list Z }.
Definition exponent_ok (x : exponent) : Prop :=
  (ex_letter x = 101 \/ ex_letter x = 69) /\ (ex_sign x = [] \/ ex_sign x = [43] \/ ex_sign x = [45]) /\
  ex_digits x <> [] /\ Forall (fun b => digit b) (ex_digits x).
Definition ex_text (x : option exponent) : list Z := match x with None => [] | Some x => ex_letter x :: ex_sign x ++ ex_digits x end.
Definition ex_value (x : option exponent) : Z :=
  match x with None => 0 | Some x => signed (bool_decide (ex_sign x = [45])) (num (ex_digits x)) end.

Definition is_exp (b : Z) : bool := (b =? 101) || (b =? 69).

(** From [pos], the longest number ends at [e]. *)
Record number_at (buf : list Z) (pos : nat) (neg : bool) (ip fp : list Z) (ex : option exponent) (e : nat) : Prop := {
  na_digits : ip <> [] /\ Forall (fun b => digit b) ip /\ Forall (fun b => digit b) fp;
  na_exp : match ex with None => True | Some x => exponent_ok x end;
  na_text : exists rest, drop pos buf = decimal_text neg ip fp ++ ex_text ex ++ rest /\ leads is_digit rest = false /\
    (ex = None -> leads is_exp rest = false /\ (fp = [] -> leads (fun b => b =? 46) rest = false));
  na_end : e = (pos + length (decimal_text neg ip fp) + length (ex_text ex))%nat
}.

(** The mantissa times [10] to the exponent at [scale] places, truncated. *)
Definition sci_exp (scale : Z) (fp : list Z) (ex : option exponent) : Z := ex_value ex - Z.of_nat (length fp) + scale.
Definition sci_magnitude (scale : Z) (ip fp : list Z) (ex : option exponent) : Z :=
  let t := sci_exp scale fp ex in
  if 0 <=? t then num (ip ++ fp) * 10 ^ t else num (ip ++ fp) / 10 ^ (- t).

Lemma sci_fraction_text buf ip fp rest m i : drop i buf = frac_text fp ++ rest -> Forall (fun b => digit b) fp -> leads is_digit rest = false ->
  (fp = [] -> leads (fun b => b =? 46) rest = false) -> Z.of_nat (length buf) < 2 ^ 30 -> m = num ip -> 0 <= m <= u128_max ->
  sci_fraction buf m i = if u128_max <? num (ip ++ fp) then None else Some (num (ip ++ fp), - Z.of_nat (length fp), (i + length (frac_text fp))%nat).
Proof.
  intros E Ff Ld Lt Hb -> Hm. unfold sci_fraction. rewrite byte_at_leads, E. destruct fp as [|f fp]; cbn [frac_text app leads].
  - rewrite (Lt eq_refl), app_nil_r. destruct (Z.ltb_spec u128_max (num ip)); [lia|]. cbn. by rewrite Nat.add_0_r.
  - rewrite Z.eqb_refl. assert (drop (S i) buf = (f :: fp) ++ rest) as E1.
    { replace (S i) with (i + length [46%Z])%nat by (cbn; lia). by apply drop_past. }
    assert (S i + length (f :: fp) <= length buf)%nat as Hl by (by apply (drop_in buf _ rest)).
    rewrite E1, mantissa_run_spec, (digits_of_app _ _ Ff Ld) by done. unfold num at 1 2. rewrite <- num_from_app. fold (num (ip ++ f :: fp)).
    destruct (u128_max <? num (ip ++ f :: fp)); [done|]. destruct (Nat.eqb_spec (S i + length (f :: fp)) (S i)) as [Hz|_]; [cbn in Hz; lia|].
    replace (S i + length (f :: fp) - S i)%nat with (length (f :: fp)) by lia.
    assert (wrap_i32 (- Z.of_nat (length (f :: fp))) = - Z.of_nat (length (f :: fp))) as ->.
    { unfold wrap_i32. rewrite Z.mod_small; lia. }
    do 2 f_equal. cbn. lia.
Qed.

Lemma sci_exponent_text buf ex rest i : drop i buf = ex_text ex ++ rest -> (match ex with None => leads is_exp rest = false | Some x => exponent_ok x end) ->
  leads is_digit rest = false ->
  sci_exponent buf i = Some (match ex with None => 0 | Some x => signed (bool_decide (ex_sign x = [45])) (Z.min i32_max (num (ex_digits x))) end,
    (i + length (ex_text ex))%nat).
Proof.
  intros E Hx Ld. unfold sci_exponent. rewrite !(byte_at_leads buf i), E. destruct ex as [[c s d]|]; cbn [ex_text ex_letter ex_sign ex_digits] in *.
  - destruct Hx as (Hc & Hs & Nd & Fd). cbn [ex_letter ex_sign ex_digits] in *. cbn [app leads].
    assert ((c =? 101) || (c =? 69) = true) as -> by (destruct Hc as [-> | ->]; done).
    assert (drop (S i) buf = s ++ d ++ rest) as E1.
    { replace (S i) with (i + length [c])%nat by (cbn; lia). apply drop_past. rewrite E. cbn. by rewrite <- app_assoc. }
    assert ((if byte_at buf (S i) 43 || byte_at buf (S i) 45 then (byte_at buf (S i) 45, S (S i)) else (false, S i)) =
      (bool_decide (s = [45]), (S i + length s)%nat)) as ->.
    { rewrite !byte_at_leads, E1. assert (leads is_digit (d ++ rest) = true) as Ldd by (by apply leads_digits).
      destruct Hs as [-> |[-> | ->]]; cbn [app leads length].
      - rewrite (minus_not_digit _ Ldd), orb_false_r. assert (leads (fun x => x =? 43) (d ++ rest) = false) as ->; [|by rewrite Nat.add_0_r].
        destruct (d ++ rest) as [|b r]; [done|]. cbn in *. unfold is_digit in Ldd. rewrite andb_true_iff, !Z.leb_le in Ldd. apply Z.eqb_neq. lia.
      - cbn. f_equal. lia.
      - cbn. f_equal. lia. }
    rewrite (drop_past _ _ _ _ E1). change 0 with (Z.min i32_max 0) at 1. rewrite exp_run_spec, (digits_of_app _ _ Fd Ld) by done. fold (num d).
    destruct (Nat.eqb_spec (S i + length s + length d) (S i + length s)) as [Hz|_]; [destruct d; [done|cbn in Hz; lia]|].
    unfold signed. f_equal. f_equal. cbn [length]. rewrite length_app. lia.
  - cbn [app]. assert (leads (fun x => x =? 101) rest || leads (fun x => x =? 69) rest = false) as ->.
    { destruct rest; [done|]. exact Hx. }
    cbn. by rewrite Nat.add_0_r.
Qed.

Lemma sci_scale_spec m t : 0 <= m <= u128_max -> t <= 38 ->
  sci_scale m t = let v := if 0 <=? t then m * 10 ^ t else m / 10 ^ (- t) in if u128_max <? v then None else Some v.
Proof.
  intros Hm Ht. unfold sci_scale. pose proof u128_max_pos. cbv zeta. destruct (Z.leb_spec 0 t); [destruct (Z.ltb_spec 38 t); [lia|done]|].
  assert (0 < 10 ^ (- t)) as P by (apply Z.pow_pos_nonneg; lia).
  assert (0 <= m / 10 ^ (- t) <= m) as B by (split; [by apply Z.div_pos; lia|apply Z.div_le_upper_bound; nia]).
  destruct (Z.ltb_spec u128_max (m / 10 ^ (- t))); [lia|]. destruct (Z.ltb_spec 38 (- t)); [|done].
  assert (10 ^ 39 <= 10 ^ (- t)) by (apply Z.pow_le_mono_r; lia). by rewrite Z.div_small by lia.
Qed.

Lemma exponent_saturates (s : bool) n f scale : 0 <= n -> 0 <= f < 2 ^ 30 -> 0 <= scale <= 9 ->
  let t := signed s n - f + scale in let t' := sat_i32 (sat_i32 (- f + signed s (Z.min i32_max n)) + scale) in
  t = t' \/ (38 < t /\ 38 < t') \/ (t < -38 /\ t' < -38).
Proof. intros Hn Hf Hs. cbv zeta. unfold sat_i32, clamp, signed, i32_max, i32_min. destruct s; lia. Qed.

Lemma sci_scale_saturated m t t' : 0 <= m <= u128_max -> t = t' \/ (38 < t /\ 38 < t') \/ (t < -38 /\ t' < -38) ->
  match sci_scale m t' with
  | None => None
  | Some v => if i64_max <? v then None else Some v
  end = if 38 <? t then None else let v := if 0 <=? t then m * 10 ^ t else m / 10 ^ (- t) in if i64_max <? v then None else Some v.
Proof.
  intros Hm Ht. assert (i64_max < u128_max) as IU by (by vm_compute). destruct (Z.ltb_spec 38 t) as [H|H].
  - unfold sci_scale. assert (38 < t') as H' by lia. destruct (Z.leb_spec 0 t'); [|lia]. by destruct (Z.ltb_spec 38 t'); [|lia].
  - assert (t' <= 38) as H' by lia. rewrite sci_scale_spec by done. cbv zeta.
    assert ((if 0 <=? t' then m * 10 ^ t' else m / 10 ^ (- t')) = (if 0 <=? t then m * 10 ^ t else m / 10 ^ (- t))) as ->.
    { destruct Ht as [-> |[?|[Ht Ht']]]; [done|lia|]. destruct (Z.leb_spec 0 t); [lia|]. destruct (Z.leb_spec 0 t'); [lia|]. pose proof u128_max_pos.
      assert (forall x, x < -38 -> m / 10 ^ (- x) = 0) as Hz; [|by rewrite !Hz].
      intros x Hx. apply Z.div_small. assert (10 ^ 39 <= 10 ^ (- x)) by (apply Z.pow_le_mono_r; lia). lia. }
    set (v := if 0 <=? t then _ else _). destruct (Z.ltb_spec u128_max v); [|done]. by destruct (Z.ltb_spec i64_max v); [|lia].
Qed.

Lemma exp_not_digit c : c = 101 \/ c = 69 -> is_digit c = false /\ (c =? 46) = false.
Proof. by intros [-> | ->]. Qed.

Lemma scan_number_text scale buf pos neg ip fp ex e : 0 <= scale <= 9 -> Z.of_nat (length buf) < 2 ^ 30 -> number_at buf pos neg ip fp ex e ->
  scan_number_sci_scaled buf pos scale =
    if u128_max <? num (ip ++ fp) then None else if 38 <? sci_exp scale fp ex then None
    else if i64_max <? sci_magnitude scale ip fp ex then None else Some (signed neg (sci_magnitude scale ip fp ex), e).
Proof.
  intros Hsc Hb [(Ni & Fi & Ff) Hx (rest & E & Ld & Lt) ->]. unfold scan_number_sci_scaled, decimal_text in *. rewrite <- app_assoc in E.
  set (tl := (ip ++ frac_text fp) ++ ex_text ex ++ rest) in *. assert (leads is_digit tl = true) as Li by (unfold tl; rewrite <- app_assoc; by apply leads_digits).
  destruct (Nat.leb_spec (length buf) pos) as [Hp|_]; [apply drop_nil_iff in Hp; rewrite Hp in E; unfold tl in E; destruct neg, ip; done|].
  rewrite (sign_start buf pos neg _ E Li). pose proof (drop_past _ _ _ _ E) as E1. set (i0 := (pos + length (sign_text neg))%nat) in *.
  unfold tl in E1. rewrite <- app_assoc in E1. set (t2 := ex_text ex ++ rest) in *.
  assert (leads is_digit t2 = false /\ (fp = [] -> leads (fun b => b =? 46) t2 = false)) as [L2 Lt2].
  { unfold t2. destruct ex as [[c s d]|]; cbn [ex_text ex_letter app leads]; [|destruct (Lt eq_refl); by split].
    destruct Hx as (Hc & _). cbn in Hc. destruct (exp_not_digit c Hc) as [-> ->]. done. }
  assert (leads is_digit (frac_text fp ++ t2) = false) as Lf by (destruct fp; done).
  rewrite E1, mantissa_run_spec, (digits_of_app ip _ Fi Lf) by (pose proof u128_max_pos; lia). fold (num ip).
  pose proof (digits_num_bound ip Fi) as Bi. pose proof (digits_num_bound fp Ff) as Bf. pose proof (pow10_pos (length fp)). rewrite (num_app ip fp).
  destruct (Z.ltb_spec u128_max (num ip)) as [|Hmi]; [destruct (Z.ltb_spec u128_max (num ip * 10 ^ Z.of_nat (length fp) + num fp)); [done|nia]|].
  destruct (Nat.eqb_spec (i0 + length ip) i0) as [Hz|_]; [destruct ip; [done|cbn in Hz; lia]|]. pose proof (drop_past _ _ _ _ E1) as E2.
  rewrite (sci_fraction_text buf ip fp t2 (num ip) _ E2 Ff L2 Lt2 Hb eq_refl ltac:(lia)). rewrite <- num_app.
  destruct (Z.ltb_spec u128_max (num (ip ++ fp))) as [|Hm]; [done|]. pose proof (drop_past _ _ _ _ E2) as E3.
  assert (match ex with None => leads is_exp rest = false | Some x => exponent_ok x end) as Hx' by (destruct ex; [done|by apply Lt]).
  rewrite (sci_exponent_text buf ex rest _ E3 Hx' Ld).
  assert (Z.of_nat (length fp) < 2 ^ 30) as Hf.
  { destruct fp as [|f fp']; [cbn; lia|]. assert (length (frac_text (f :: fp')) <= length buf)%nat by (pose proof (drop_in buf _ _ _ E2 ltac:(done)); lia). cbn [frac_text length] in *. lia. }
  assert (0 <= num (ip ++ fp)) as Hn0 by (apply digits_num_bound, Forall_app; done).
  assert (forall (o : option Z), match o with None => None | Some v => if i64_max <? v then None else Some (if neg then - v else v, (i0 + length ip + length (frac_text fp) + length (ex_text ex))%nat) end =
    match (match o with None => None | Some v => if i64_max <? v then None else Some v end) with None => None | Some v => Some (signed neg v, (pos + length (sign_text neg ++ ip ++ frac_text fp) + length (ex_text ex))%nat) end) as Hout.
  { intros [v|]; [|done]. destruct (i64_max <? v); [done|]. unfold signed. do 2 f_equal. unfold i0. rewrite !length_app. lia. }
  rewrite Hout, (sci_scale_saturated (num (ip ++ fp)) (sci_exp scale fp ex)).
  2: lia.
  2:{ unfold sci_exp, ex_value. destruct ex as [[c s d]|]; cbn [ex_sign ex_digits].
      - apply exponent_saturates; [apply digits_num_bound, Hx|lia|lia].
      - left. unfold sat_i32, clamp, i32_max, i32_min. lia. }
  unfold sci_magnitude. cbv zeta. destruct (38 <? sci_exp scale fp ex); [done|]. by destruct (i64_max <? _).
Qed.

Lemma mantissa_digits l m i m' j : 0 <= m <= u128_max -> mantissa_run l m i = Some (m', j) -> j = (i + length (digits_of l))%nat /\ 0 <= m' <= u128_max.
Proof.
  intros Hm. rewrite mantissa_run_spec by done. destruct (Z.ltb_spec u128_max (num_from m (digits_of l))); [done|]. intros [= <- <-]. split; [done|].
  destruct (digits_of_split l) as (_ & _ & F & _). pose proof (digits_num_bound _ F). pose proof (pow10_pos (length (digits_of l))). rewrite num_from_split in *. nia.
Qed.

Lemma sci_fraction_at buf m i m' dx j : 0 <= m <= u128_max -> leads is_digit (drop i buf) = false -> sci_fraction buf m i = Some (m', dx, j) ->
  exists fp rest, drop i buf = frac_text fp ++ rest /\ Forall (fun b => digit b) fp /\ leads is_digit rest = false /\
    (fp = [] -> leads (fun b => b =? 46) rest = false) /\ j = (i + length (frac_text fp))%nat.
Proof.
  intros Hm Li. unfold sci_fraction. rewrite byte_at_leads. destruct (leads (fun x => x =? 46) (drop i buf)) eqn:Hd.
  - destruct (drop i buf) as [|b l] eqn:E; [done|]. cbn [leads] in Hd. apply Z.eqb_eq in Hd as ->.
    assert (drop (S i) buf = l) as -> by (replace (S i) with (i + length [46%Z])%nat by (cbn; lia); by apply drop_past).
    destruct (mantissa_run l m (S i)) as [[m1 k]|] eqn:Em; [|done]. apply mantissa_digits in Em as [-> _]; [|done].
    destruct (Nat.eqb_spec (S i + length (digits_of l)) (S i)) as [|Hk]; [done|]. intros [= _ _ <-].
    destruct (digits_of_split l) as (rest & El & F & L). exists (digits_of l), rest.
    assert (frac_text (digits_of l) = 46 :: digits_of l) as Ef by (destruct (digits_of l); [cbn in Hk; lia|done]).
    split_and!; [rewrite Ef; cbn; by rewrite <- El|done|done| |rewrite Ef; cbn; lia]. intros H. rewrite H in Hk. cbn in Hk. lia.
  - intros [= _ _ <-]. exists [], (drop i buf). split_and!; [done|constructor|done|done|cbn; lia].
Qed.

Lemma sci_exponent_at buf i v j : leads is_digit (drop i buf) = false -> sci_exponent buf i = Some (v, j) ->
  exists ex rest, drop i buf = ex_text ex ++ rest /\ match ex with None => leads is_exp rest = false | Some x => exponent_ok x end /\ leads is_digit rest = false.
Proof.
  intros Li. unfold sci_exponent. rewrite !(byte_at_leads buf i). destruct (leads (fun x => x =? 101) (drop i buf) || leads (fun x => x =? 69) (drop i buf)) eqn:Hd.
  - destruct (drop i buf) as [|c l] eqn:E; [done|]. cbn [leads] in Hd. assert (c = 101 \/ c = 69) as Hc by (apply orb_true_iff in Hd; by rewrite !Z.eqb_eq in Hd).
    assert (drop (S i) buf = l) as E1 by (replace (S i) with (i + length [c])%nat by (cbn; lia); by apply drop_past). rewrite !byte_at_leads, E1.
    assert (exists s l', l = s ++ l' /\ (s = [] \/ s = [43] \/ s = [45]) /\
      (if leads (fun x => x =? 43) l || leads (fun x => x =? 45) l then (leads (fun x => x =? 45) l, S (S i)) else (false, S i)) =
        (bool_decide (s = [45]), (S i + length s)%nat)) as (s & l' & El & Hs & ->).
    { destruct l as [|b l']; [exists [], []; cbn; rewrite Nat.add_0_r; auto|]. cbn [leads]. destruct (Z.eqb_spec b 43) as [-> |H1]; [|destruct (Z.eqb_spec b 45) as [-> |H2]].
      - exists [43], l'. split_and!; [done|auto|]. cbn. f_equal. lia.
      - exists [45], l'. split_and!; [done|auto|]. cbn. f_equal. lia.
      - exists [], (b :: l'). split_and!; [done|auto|]. cbn. by rewrite Nat.add_0_r. }
    assert (drop (S i + length s) buf = l') as E2 by (apply drop_past; by rewrite E1). rewrite E2. change 0 with (Z.min i32_max 0) at 1. rewrite exp_run_spec by done.
    destruct (Nat.eqb_spec (S i + length s + length (digits_of l')) (S i + length s)) as [|Hk]; [done|]. intros _.
    destruct (digits_of_split l') as (rest & El' & F & L). exists (Some (mkExponent c s (digits_of l'))), rest. split_and!; [|split; cbn; [done|]|done].
    + cbn. by rewrite El, <- app_assoc, <- El'.
    + split_and!; [done| |done]. intros H. rewrite H in Hk. cbn in Hk. lia.
  - intros _. exists None, (drop i buf). split_and!; [done| |done]. destruct (drop i buf); [done|exact Hd].
Qed.

Lemma scan_number_at scale buf pos r : scan_number_sci_scaled buf pos scale = Some r -> exists neg ip fp ex e, number_at buf pos neg ip fp ex e.
Proof.
  unfold scan_number_sci_scaled. destruct (Nat.leb_spec (length buf) pos); [done|].
  destruct (sign_split buf pos) as (neg & t & E & ->).
  pose proof (drop_past _ _ _ _ E) as E1. set (i0 := (pos + length (sign_text neg))%nat) in *. rewrite E1.
  destruct (mantissa_run t 0 i0) as [[m0 i1]|] eqn:Em; [|done]. apply mantissa_digits in Em as [-> Hm]; [|pose proof u128_max_pos; lia].
  destruct (Nat.eqb_spec (i0 + length (digits_of t)) i0) as [|Hi]; [done|]. destruct (digits_of_split t) as (l2 & El & Fi & Ld).
  assert (drop (i0 + length (digits_of t)) buf = l2) as E2 by (apply drop_past; by rewrite E1, <- El).
  destruct (sci_fraction buf m0 (i0 + length (digits_of t))) as [[[m dx] i2]|] eqn:Ef; [|done]. apply sci_fraction_at in Ef as (fp & l3 & E3 & Ff & Ld3 & Lt & ->); [|done|by rewrite E2].
  pose proof (drop_past _ _ _ _ E3) as E4. destruct (sci_exponent buf _) as [[v i3]|] eqn:Ee; [|done]. apply sci_exponent_at in Ee as (ex & rest & E5 & Hx & Ldr); [|by rewrite E4].
  rewrite E4 in E5. rewrite E2 in E3. intros _. exists neg, (digits_of t), fp, ex, (pos + length (decimal_text neg (digits_of t) fp) + length (ex_text ex))%nat. split; [| | |done].
  - split_and!; [|done|done]. intros Hz. rewrite Hz in Hi. cbn in Hi. lia.
  - by destruct ex.
  - exists rest. split; [|split; [done|intros ->; split; [done|intros Hf; cbn in E5; rewrite <- E5; by apply Lt]]].
    set (ip := digits_of t) in *. rewrite E, El, E3, E5. unfold decimal_text. by rewrite <- !app_assoc.
Qed.

(** The scanners read exactly the numbers whose mantissa and scale fit. *)
Lemma scan_number_spec scale buf pos v e : 0 <= scale <= 9 -> Z.of_nat (length buf) < 2 ^ 30 ->
  scan_number_sci_scaled buf pos scale = Some (v, e) <->
  exists neg ip fp ex, number_at buf pos neg ip fp ex e /\ num (ip ++ fp) <= u128_max /\ sci_exp scale fp ex <= 38 /\
    sci_magnitude scale ip fp ex <= i64_max /\ v = signed neg (sci_magnitude scale ip fp ex).
Proof.
  intros Hs Hb. split.
  - intros H. destruct (scan_number_at scale buf pos _ H) as (neg & ip & fp & ex & e' & D). rewrite (scan_number_text scale buf pos neg ip fp ex e' Hs Hb D) in H.
    destruct (Z.ltb_spec u128_max (num (ip ++ fp))); [done|]. destruct (Z.ltb_spec 38 (sci_exp scale fp ex)); [done|].
    destruct (Z.ltb_spec i64_max (sci_magnitude scale ip fp ex)); [done|]. injection H as <- <-. by exists neg, ip, fp, ex.
  - intros (neg & ip & fp & ex & D & H1 & H2 & H3 & ->). rewrite (scan_number_text scale buf pos neg ip fp ex e Hs Hb D).
    destruct (Z.ltb_spec u128_max (num (ip ++ fp))); [lia|]. destruct (Z.ltb_spec 38 (sci_exp scale fp ex)); [lia|].
    by destruct (Z.ltb_spec i64_max (sci_magnitude scale ip fp ex)); [lia|].
Qed.
