(* ===== verification/ParseJson.v ===== *)
(** * A skipped value is one JSON value

    The skipper counts brackets instead of building the value. On the text of
    any JSON value nested no deeper than its cap it stops right after it; on
    any bytes at all it ends, inside the buffer. The file ends with what all
    the scanners promise and the inputs at their edges. *)

From stdpp Require Import relations.
From S2P Require Import Prelude AmmU256 Parse ParseProofs.

#[local] Open Scope machine_scope.

(** ** JSON texts *)

Definition white (w : list Z) : Prop := Forall (fun b => is_ws b = true) w.

(** What is between the quotes of a string; an escape is two bytes. *)
Inductive string_body : list Z -> Prop :=
| sb_nil : string_body []
| sb_char c t : c <> 34 -> c <> 92 -> string_body t -> string_body (c :: t)
| sb_escape c t : string_body t -> string_body (92 :: c :: t).

Inductive json_atom : list Z -> Prop :=
| ja_keyword k : k = TRUE \/ k = FALSE \/ k = NULL -> json_atom k
| ja_string s : string_body s -> json_atom (34 :: s ++ [34])
| ja_number neg ip fp ex : ip <> [] -> Forall (fun b => is_digit b = true) ip -> Forall (fun b => is_digit b = true) fp ->
    match ex with None => True | Some x => exponent_ok x end -> json_atom (decimal_text neg ip fp ++ ex_text ex).

(** The texts of values nested at most [d] deep. *)
Inductive json_text : nat -> list Z -> Prop :=
| jt_atom d t : json_atom t -> json_text d t
| jt_no_items d w : white w -> json_text (S d) (91 :: w ++ [93])
| jt_array d t : json_items d t -> json_text (S d) (91 :: t ++ [93])
| jt_no_members d w : white w -> json_text (S d) (123 :: w ++ [125])
| jt_object d t : json_members d t -> json_text (S d) (123 :: t ++ [125])
with json_items : nat -> list Z -> Prop :=
| ji_last d v t w : white v -> json_text d t -> white w -> json_items d (v ++ t ++ w)
| ji_more d v t w l : white v -> json_text d t -> white w -> json_items d l -> json_items d (v ++ t ++ w ++ 44 :: l)
with json_members : nat -> list Z -> Prop :=
| jm_last d v k x y t w : white v -> string_body k -> white x -> white y -> json_text d t -> white w ->
    json_members d (v ++ (34 :: k ++ [34]) ++ x ++ 58 :: y ++ t ++ w)
| jm_more d v k x y t w l : white v -> string_body k -> white x -> white y -> json_text d t -> white w -> json_members d l ->
    json_members d (v ++ (34 :: k ++ [34]) ++ x ++ 58 :: y ++ t ++ w ++ 44 :: l).

Scheme json_text_ind' := Induction for json_text Sort Prop
with json_items_ind' := Induction for json_items Sort Prop
with json_members_ind' := Induction for json_members Sort Prop.
Combined Scheme json_texts_ind from json_text_ind', json_items_ind', json_members_ind'.

(** A byte that a number could go on with. *)
Definition extends (b : Z) : bool := is_digit b || (b =? 46) || is_exp b.

(** ** Atoms *)

Lemma skip_while_spec p l i : exists t r, l = t ++ r /\ Forall (fun b => p b = true) t /\ leads p r = false /\ skip_while p l i = (i + length t)%nat.
Proof.
  revert i. induction l as [|b l IH]; intros i; [exists [], []; split_and!; [done|done|done|cbn; lia]|]. cbn [skip_while]. destruct (p b) eqn:Hb.
  - destruct (IH (S i)) as (t & r & -> & F & L & ->). exists (b :: t), r. split_and!; [done|by constructor|done|cbn; lia].
  - exists [], (b :: l). split_and!; [done|constructor|done|cbn; lia].
Qed.

Lemma skip_while_app p t r i : Forall (fun b => p b = true) t -> leads p r = false -> skip_while p (t ++ r) i = (i + length t)%nat.
Proof.
  intros F L. revert i. induction F as [|b t Hb F IH]; intros i; cbn [app skip_while length]; [|rewrite Hb, IH; lia].
  destruct r as [|b r]; cbn [skip_while]; [lia|]. cbn in L. rewrite L. lia.
Qed.

Lemma string_from_body s r i : string_body s -> string_from (s ++ 34 :: r) i = Some (i + length s + 1)%nat.
Proof.
  intros B. revert i. induction B as [|c t H1 H2 B IH|c t B IH]; intros i; cbn [app string_from length].
  - rewrite Z.eqb_refl. f_equal. lia.
  - destruct (Z.eqb_spec c 34); [done|]. destruct (Z.eqb_spec c 92); [done|]. rewrite IH. f_equal. lia.
  - change (92 =? 34) with false. rewrite Z.eqb_refl, IH. f_equal. lia.
Qed.

Lemma string_from_inside l i j : string_from l i = Some j -> (i < j <= i + length l)%nat.
Proof.
  revert i. remember (length l) as n eqn:En. revert l En. induction n as [n IH] using lt_wf_ind. intros l -> i.
  destruct l as [|b l]; cbn [string_from length]; [done|]. destruct (b =? 34); [intros [= <-]; lia|]. destruct (b =? 92).
  - destruct l as [|c l]; [done|]. intros H. specialize (IH (length l) ltac:(cbn; lia) l eq_refl _ H). cbn [length]. lia.
  - intros H. specialize (IH (length l) ltac:(cbn; lia) l eq_refl _ H). lia.
Qed.

Lemma skip_digits_at buf i d r : drop i buf = d ++ r -> Forall (fun b => is_digit b = true) d -> leads is_digit r = false -> skip_digits buf i = (i + length d)%nat.
Proof. intros E F L. unfold skip_digits. rewrite E. by apply skip_while_app. Qed.

Lemma skip_fraction_text buf fp r i : drop i buf = frac_text fp ++ r -> Forall (fun b => is_digit b = true) fp -> leads is_digit r = false ->
  (fp = [] -> leads (fun b => b =? 46) r = false) -> skip_fraction buf i = Some (i + length (frac_text fp))%nat.
Proof.
  intros E F L Lt. unfold skip_fraction. rewrite byte_at_leads, E. destruct fp as [|f fp]; cbn [frac_text app leads].
  - rewrite (Lt eq_refl). cbn. by rewrite Nat.add_0_r.
  - rewrite Z.eqb_refl. rewrite (skip_digits_at buf (S i) (f :: fp) r) by (done || (replace (S i) with (i + length [46%Z])%nat by (cbn; lia); by apply drop_past)).
    destruct (Nat.eqb_spec (S i + length (f :: fp)) (S i)) as [Hz|_]; [cbn in Hz; lia|]. f_equal. cbn. lia.
Qed.

Lemma skip_exponent_text buf ex r i : drop i buf = ex_text ex ++ r -> match ex with None => leads is_exp r = false | Some x => exponent_ok x end ->
  leads is_digit r = false -> skip_exponent buf i = Some (i + length (ex_text ex))%nat.
Proof.
  intros E Hx L. unfold skip_exponent. rewrite !(byte_at_leads buf i), E. destruct ex as [[c s d]|]; cbn [ex_text ex_letter ex_sign ex_digits] in *.
  - destruct Hx as (Hc & Hs & Nd & Fd). cbn [ex_letter ex_sign ex_digits] in *. cbn [app leads].
    assert ((c =? 101) || (c =? 69) = true) as -> by (destruct Hc as [-> | ->]; done).
    assert (drop (S i) buf = s ++ d ++ r) as E1.
    { replace (S i) with (i + length [c])%nat by (cbn; lia). apply drop_past. rewrite E. cbn. by rewrite <- app_assoc. }
    assert ((if byte_at buf (S i) 43 || byte_at buf (S i) 45 then S (S i) else S i) = (S i + length s)%nat) as ->.
    { rewrite !byte_at_leads, E1. assert (leads is_digit (d ++ r) = true) as Ld by (by apply leads_digits).
      destruct Hs as [-> |[-> | ->]]; cbn [app leads length]; [|cbn; lia|cbn; lia].
      rewrite (minus_not_digit _ Ld), orb_false_r. destruct (d ++ r) as [|b l]; [cbn; lia|]. cbn in Ld |- *. unfold is_digit in Ld.
      rewrite andb_true_iff, !Z.leb_le in Ld. destruct (Z.eqb_spec b 43); lia. }
    rewrite (skip_digits_at buf _ d r (drop_past _ _ _ _ E1) Fd L).
    destruct (Nat.eqb_spec (S i + length s + length d) (S i + length s)) as [Hz|_]; [destruct d; [done|cbn in Hz; lia]|]. f_equal. cbn. rewrite length_app. lia.
  - cbn [app]. assert (leads (fun x => x =? 101) r || leads (fun x => x =? 69) r = false) as -> by (by destruct r). cbn. by rewrite Nat.add_0_r.
Qed.

Lemma extends_split r : leads extends r = false -> leads is_digit r = false /\ leads (fun b => b =? 46) r = false /\ leads is_exp r = false.
Proof. destruct r as [|b r]; [done|]. cbn. unfold extends. rewrite !orb_false_iff. tauto. Qed.

Lemma skip_number_text buf i neg ip fp ex r : drop i buf = (decimal_text neg ip fp ++ ex_text ex) ++ r -> leads extends r = false ->
  ip <> [] -> Forall (fun b => is_digit b = true) ip -> Forall (fun b => is_digit b = true) fp -> match ex with None => True | Some x => exponent_ok x end ->
  skip_number buf i = Some (i + length (decimal_text neg ip fp ++ ex_text ex))%nat.
Proof.
  intros E L Ni Fi Ff Hx. destruct (extends_split r L) as (Ld & Lt & Le). unfold skip_number, decimal_text in *. rewrite <- !app_assoc in E.
  set (t2 := ex_text ex ++ r) in *. assert (leads is_digit t2 = false /\ leads (fun b => b =? 46) t2 = false) as [L2 Lt2].
  { unfold t2. destruct ex as [[c s d]|]; [|done]. destruct Hx as (Hc & _). cbn in Hc |- *. by apply exp_not_digit. }
  assert (leads is_digit (frac_text fp ++ t2) = false) as Lf by (destruct fp; done).
  assert ((if byte_at buf i 45 then S i else i) = (i + length (sign_text neg))%nat) as ->.
  { assert (leads is_digit (ip ++ frac_text fp ++ t2) = true) as Li by (by apply leads_digits).
    pose proof (sign_start buf i neg _ E Li) as S. destruct (byte_at buf i 45); injection S as _ S; exact S. }
  pose proof (drop_past _ _ _ _ E) as E1. rewrite (skip_digits_at buf _ ip _ E1 Fi Lf). pose proof (drop_past _ _ _ _ E1) as E2.
  destruct (Nat.eqb_spec (i + length (sign_text neg) + length ip) (i + length (sign_text neg))) as [Hz|_]; [destruct ip; [done|cbn in Hz; lia]|].
  rewrite (skip_fraction_text buf fp t2 _ E2 Ff L2 (fun _ => Lt2)). pose proof (drop_past _ _ _ _ E2) as E3.
  rewrite (skip_exponent_text buf ex r _ E3) by (done || by destruct ex). f_equal. rewrite !length_app. lia.
Qed.

(** ** Every turn moves on, inside the buffer *)

Lemma skip_while_bounds p l i : (i <= skip_while p l i <= i + length l)%nat.
Proof. destruct (skip_while_spec p l i) as (t & r & -> & _ & _ & ->). rewrite length_app. lia. Qed.

Lemma byte_at_inside buf i b : byte_at buf i b = true -> (i < length buf)%nat.
Proof. rewrite byte_at_leads. intros H. destruct (drop i buf) as [|c l] eqn:E; [done|]. apply (f_equal length) in E. rewrite length_drop in E. cbn in E. lia. Qed.

Lemma skip_digits_bounds buf i : (i <= length buf)%nat -> (i <= skip_digits buf i <= length buf)%nat.
Proof. intros H. pose proof (skip_while_bounds is_digit (drop i buf) i) as B. rewrite length_drop in B. unfold skip_digits. lia. Qed.

Lemma skip_number_inside buf i j : (i <= length buf)%nat -> skip_number buf i = Some j -> (i < j <= length buf)%nat.
Proof.
  intros Hi. unfold skip_number. set (d0 := if byte_at buf i 45 then S i else i).
  assert (i <= d0 <= length buf)%nat as H0 by (subst d0; destruct (byte_at buf i 45) eqn:E; [apply byte_at_inside in E|]; lia).
  pose proof (skip_digits_bounds buf d0 ltac:(lia)) as B. destruct (Nat.eqb_spec (skip_digits buf d0) d0); [done|].
  destruct (skip_fraction buf (skip_digits buf d0)) as [m|] eqn:Ef; [|done]. intros He.
  assert (skip_digits buf d0 <= m <= length buf)%nat as Hm.
  { unfold skip_fraction in Ef. destruct (byte_at buf _ 46) eqn:E; [|injection Ef as <-; lia]. apply byte_at_inside in E.
    pose proof (skip_digits_bounds buf (S (skip_digits buf d0)) ltac:(lia)). destruct (Nat.eqb _ _); [done|]. injection Ef as <-. lia. }
  unfold skip_exponent in He. destruct (byte_at buf m 101 || byte_at buf m 69) eqn:E; [|injection He as <-; lia].
  assert (m < length buf)%nat by (by apply orb_true_iff in E as [E|E]; apply byte_at_inside in E).
  set (k := if byte_at buf (S m) 43 || byte_at buf (S m) 45 then S (S m) else S m) in *.
  assert (m < k <= length buf)%nat.
  { subst k. clear E He. destruct (byte_at buf (S m) 43 || byte_at buf (S m) 45) eqn:E'; [|lia].
    assert (S m < length buf)%nat. { apply orb_true_iff in E' as [E'|E']; apply byte_at_inside in E'; lia. } lia. }
  pose proof (skip_digits_bounds buf k ltac:(lia)). destruct (Nat.eqb _ _); [done|]. injection He as <-. lia.
Qed.

Lemma skip_keyword_inside buf i kw j : kw <> [] -> skip_keyword buf i kw = Some j -> (i < j <= length buf)%nat.
Proof. intros N. unfold skip_keyword. destruct (Nat.leb_spec (i + length kw) (length buf)); cbn; [|done]. case_bool_decide; [|done]. intros [= <-]. destruct kw; [done|cbn in *; lia]. Qed.

Definition turn_inside (buf : list Z) (i : nat) (t : Turn) : Prop :=
  match t with
  | Next i' _ => (i < i' <= length buf)%nat
  | Done (Some e) => (i < e <= length buf)%nat
  | Done None => True
  end.

Lemma atom_end_inside buf i k r : (forall j, r = Some j -> (i < j <= length buf)%nat) -> turn_inside buf i (atom_end r k).
Proof. intros H. destruct r as [j|]; [|done]. specialize (H j eq_refl). cbn. by destruct (k =? 0)%nat. Qed.

Lemma json_turn_inside buf i k : turn_inside buf i (json_turn buf i k).
Proof.
  unfold json_turn. destruct (buf !! i) as [b|] eqn:Hb; [|done]. apply lookup_lt_Some in Hb.
  destruct (_ || _); [case_match; cbn; lia|]. destruct (_ || _); [destruct k as [|[|k]]; cbn; lia|]. destruct (b =? 34).
  { apply atom_end_inside. intros j Hj. apply string_from_inside in Hj. rewrite length_drop in Hj. lia. }
  destruct (_ || _); [destruct (k =? 0)%nat; cbn; lia|]. destruct (is_ws b); [cbn; lia|].
  repeat (case_match; [apply atom_end_inside; intros j Hj; first [by apply skip_keyword_inside in Hj | apply skip_number_inside in Hj; lia] |]). done.
Qed.

Lemma json_loop_inside f buf i k e : json_loop f buf i k = Some e -> (i < e <= length buf)%nat.
Proof.
  revert i k. induction f as [|f IH]; intros i k; [done|]. cbn. pose proof (json_turn_inside buf i k) as T. destruct (json_turn buf i k) as [r|i' k'].
  - intros ->. exact T.
  - intros H. apply IH in H. cbn in T. lia.
Qed.

Lemma json_loop_fuel f g buf i k : (length buf - i < f)%nat -> (length buf - i < g)%nat -> json_loop f buf i k = json_loop g buf i k.
Proof.
  revert g i k. induction f as [|f IH]; intros [|g] i k Hf Hg; [lia|lia|lia|]. cbn. pose proof (json_turn_inside buf i k) as T.
  destruct (json_turn buf i k) as [r|i' k']; [done|]. cbn in T. apply IH; lia.
Qed.

(** ** Runs of the loop *)

Definition json_move (buf : list Z) (p q : nat * nat) : Prop := json_turn buf p.1 p.2 = Next q.1 q.2.

Lemma json_run buf i k i' k' r f : rtc (json_move buf) (i, k) (i', k') -> json_turn buf i' k' = Done r -> (length buf - i < f)%nat -> json_loop f buf i k = r.
Proof.
  intros R D. remember (i, k) as p eqn:Ep. remember (i', k') as q eqn:Eq. revert i k f Ep. induction R as [p|p m q H R IH]; intros i k f -> Hf.
  - injection Eq as <- <-. destruct f; [lia|]. cbn. by rewrite D.
  - destruct m as [j l]. unfold json_move in H. cbn in H. pose proof (json_turn_inside buf i k) as T. rewrite H in T. cbn in T.
    destruct f as [|f]; [lia|]. cbn [json_loop]. rewrite H. apply IH; [done|done|lia].
Qed.

Lemma drop_head buf i (b : Z) r : drop i buf = b :: r -> buf !! i = Some b /\ drop (S i) buf = r.
Proof.
  intros E. split; [by rewrite <- (Nat.add_0_r i), <- lookup_drop, E|]. replace (S i) with (i + length [b])%nat by (cbn; lia). by apply drop_past.
Qed.

Lemma ws_moves buf i k w r : drop i buf = w ++ r -> white w -> (k <> 0)%nat -> rtc (json_move buf) (i, k) (i + length w, k)%nat.
Proof.
  intros E F Hk. revert i E. induction F as [|b w Hb F IH]; intros i E; [cbn; rewrite Nat.add_0_r; apply rtc_refl|].
  destruct (drop_head _ _ _ _ E) as [Lb E1]. eapply rtc_l; [|cbn [length]; rewrite <- Nat.add_succ_comm; by apply IH].
  unfold json_move, json_turn. cbn [fst snd]. rewrite Lb.
  assert (b = 32 \/ b = 9 \/ b = 10 \/ b = 13) as C by (unfold is_ws in Hb; rewrite !orb_true_iff, !Z.eqb_eq in Hb; tauto).
  by destruct C as [-> |[-> |[-> | ->]]].
Qed.

Lemma skip_keyword_text buf i kw r : drop i buf = kw ++ r -> kw <> [] -> skip_keyword buf i kw = Some (i + length kw)%nat.
Proof.
  intros E N. unfold skip_keyword. pose proof (drop_in _ _ _ _ E N) as B. rewrite E, take_app_length, bool_decide_true by done.
  by rewrite (proj2 (Nat.leb_le _ _) B).
Qed.

Lemma digit_turn buf i k b : buf !! i = Some b -> b = 45 \/ is_digit b = true -> json_turn buf i k = atom_end (skip_number buf i) k.
Proof.
  intros Lb H. unfold json_turn. rewrite Lb. destruct H as [-> |H]; [done|]. unfold is_ws. rewrite H, orb_true_r.
  unfold is_digit in H. rewrite andb_true_iff, !Z.leb_le in H. repeat match goal with |- context [Z.eqb b ?c] => rewrite (proj2 (Z.eqb_neq b c)) by lia end. done.
Qed.

Lemma atom_turn buf i k t r : drop i buf = t ++ r -> json_atom t -> leads extends r = false ->
  json_turn buf i k = atom_end (Some (i + length t)%nat) k.
Proof.
  intros E A L. destruct A as [kw H|s B|neg ip fp ex Ni Fi Ff Hx].
  - assert (kw <> []) as N by (by destruct H as [-> |[-> | ->]]). rewrite <- (skip_keyword_text buf i kw r E N).
    unfold json_turn. by destruct H as [-> |[-> | ->]]; destruct (drop_head _ _ _ _ E) as [-> _].
  - cbn [app] in E. rewrite <- app_assoc in E. cbn [app] in E. destruct (drop_head _ _ _ _ E) as [Lb E1]. transitivity (atom_end (skip_string buf (S i)) k); [unfold json_turn; by rewrite Lb|]. unfold skip_string.
    rewrite E1, string_from_body by done. do 2 f_equal. cbn [length]. rewrite length_app. cbn. lia.
  - rewrite <- (skip_number_text buf i neg ip fp ex r) by done. destruct ip as [|d ip]; [done|].
    destruct neg; unfold decimal_text in E; cbn in E; destruct (drop_head _ _ _ _ E) as [Lb _]; apply (digit_turn _ _ _ _ Lb); [by left|right].
    by apply Forall_inv in Fi.
Qed.

Lemma white_ends w r : white w -> leads extends r = false -> leads extends (w ++ r) = false.
Proof.
  intros F L. destruct F as [|b w Hb F]; [done|]. cbn. unfold is_ws in Hb. rewrite !orb_true_iff, !Z.eqb_eq in Hb.
  by destruct Hb as [[[-> | ->]| ->]| ->].
Qed.

(** The byte at [i] moves the loop one byte on, from depth [k] to [k']. *)
Lemma byte_move buf i k b r k' : drop i buf = b :: r -> json_turn buf i k = Next (S i) k' ->
  rtc (json_move buf) (i, k) (i + length [b], k')%nat.
Proof. intros E T. apply rtc_once. unfold json_move. cbn [fst snd length]. rewrite T. f_equal. lia. Qed.

Lemma open_turn buf i k b r : drop i buf = b :: r -> b = 91 \/ b = 123 -> (S k <= SKIP_VALUE_MAX_DEPTH)%nat -> json_turn buf i k = Next (S i) (S k).
Proof.
  intros E C H. destruct (drop_head _ _ _ _ E) as [Lb _]. unfold json_turn. rewrite Lb.
  assert ((b =? 123) || (b =? 91) = true) as -> by (by destruct C as [-> | ->]). by rewrite (proj2 (Nat.ltb_ge _ _) H).
Qed.

Lemma open_moves buf i k b r : drop i buf = b :: r -> b = 91 \/ b = 123 -> (S k <= SKIP_VALUE_MAX_DEPTH)%nat -> rtc (json_move buf) (i, k) (S i, S k).
Proof. intros E C H. apply rtc_once. by apply (open_turn _ _ _ _ _ E). Qed.

Lemma close_turn buf i k b r : drop i buf = b :: r -> b = 93 \/ b = 125 ->
  json_turn buf i (S k) = match k with O => Done (Some (S i)) | S _ => Next (S i) k end.
Proof. intros E C. destruct (drop_head _ _ _ _ E) as [Lb _]. unfold json_turn. rewrite Lb. by destruct C as [-> | ->]. Qed.

Lemma comma_turn buf i k b r : drop i buf = b :: r -> b = 44 \/ b = 58 -> json_turn buf i (S k) = Next (S i) (S k).
Proof. intros E C. destruct (drop_head _ _ _ _ E) as [Lb _]. unfold json_turn. rewrite Lb. by destruct C as [-> | ->]. Qed.

(** The loop, inside a container with [d] levels left, runs over the bytes
    [t]: whatever follows, or when what follows does not go on with a number. *)
Definition runs (any : bool) (d : nat) (t : list Z) : Prop :=
  forall buf i k r, drop i buf = t ++ r -> any = true \/ leads extends r = false -> (S k + d <= SKIP_VALUE_MAX_DEPTH)%nat ->
    rtc (json_move buf) (i, S k) (i + length t, S k)%nat.

Definition ends (t : list Z) : Prop := forall r, leads extends r = false -> leads extends (t ++ r) = false.

Lemma runs_app a any d s t : runs a d s -> runs any d t -> a = true \/ (any = false /\ ends t) -> runs any d (s ++ t).
Proof.
  intros Hs Ht C buf i k r E L Hk. rewrite <- app_assoc in E. rewrite length_app, Nat.add_assoc. etransitivity.
  - apply (Hs _ _ _ _ E); [|done]. destruct C as [-> |[-> Ne]]; [by left|right]. apply Ne. by destruct L.
  - apply drop_past in E. by apply (Ht _ _ _ _ E).
Qed.

Lemma runs_white any d w : white w -> runs any d w.
Proof. intros F buf i k r E _ _. by apply (ws_moves _ _ _ _ _ E). Qed.

Lemma runs_comma any d b : b = 44 \/ b = 58 -> runs any d [b].
Proof. intros C buf i k r E _ _. apply (byte_move _ _ _ _ _ _ E). by apply (comma_turn _ _ _ _ _ E). Qed.

Lemma runs_string any d s : string_body s -> runs any d (34 :: s ++ [34]).
Proof.
  intros B buf i k r E _ _. apply rtc_once. unfold json_move. cbn [fst snd]. cbn [app] in E. rewrite <- app_assoc in E. cbn [app] in E.
  destruct (drop_head _ _ _ _ E) as [Lb E1]. transitivity (atom_end (skip_string buf (S i)) (S k)); [unfold json_turn; by rewrite Lb|].
  unfold skip_string. rewrite E1, string_from_body by done. cbn. f_equal. rewrite length_app. cbn. lia.
Qed.

Lemma runs_atom d t : json_atom t -> runs false d t.
Proof. intros A buf i k r E [L|L] _; [done|]. apply rtc_once. unfold json_move. cbn [fst snd]. by rewrite (atom_turn _ _ _ _ _ E A L). Qed.

Lemma ends_white w : white w -> ends w.
Proof. intros F r L. by apply white_ends. Qed.

Lemma ends_head b t : extends b = false -> ends (b :: t).
Proof. intros H r _. exact H. Qed.

Lemma ends_app s t : ends s -> ends t -> ends (s ++ t).
Proof. intros Hs Ht r L. rewrite <- app_assoc. by apply Hs, Ht. Qed.

(** A bracket pair around what the loop runs over. *)
Lemma runs_bracket any d o t c : (o = 91 \/ o = 123) -> (c = 93 \/ c = 125) -> runs false d t -> runs any (S d) (o :: t ++ [c]).
Proof.
  intros Ho Hc Ht buf i k r E _ Hk. cbn [app] in E. rewrite <- app_assoc in E. destruct (drop_head _ _ _ _ E) as [_ E1].
  etransitivity; [apply (open_moves _ _ _ _ _ E Ho); lia|]. etransitivity; [apply (Ht _ _ _ _ E1); [right; by destruct Hc as [-> | ->]|lia]|].
  apply drop_past in E1. apply rtc_once. unfold json_move. cbn [fst snd]. rewrite (close_turn _ _ _ _ _ E1 Hc).
  f_equal. cbn. rewrite length_app. cbn. lia.
Qed.

(** White space, punctuation and keys run whatever follows. *)
Lemma runs_first any d s t : runs true d s -> runs any d t -> runs any d (s ++ t).
Proof. intros Hs Ht. apply (runs_app true); auto. Qed.

Lemma runs_value d s t : runs false d s -> runs false d t -> ends t -> runs false d (s ++ t).
Proof. intros Hs Ht N. apply (runs_app false); auto. Qed.

Lemma runs_cons any d b t : b = 44 \/ b = 58 -> runs any d t -> runs any d (b :: t).
Proof. intros C Ht. apply (runs_first any d [b] t); [by apply runs_comma|done]. Qed.

Lemma ends_comma w l : white w -> ends (w ++ 44 :: l).
Proof. intros W. apply ends_app; [by apply ends_white|done]. Qed.

#[local] Hint Resolve runs_white runs_comma runs_string runs_atom ends_white ends_comma runs_first runs_value runs_cons runs_bracket : json.

Lemma texts_run : (forall d t, json_text d t -> runs false d t) /\ (forall d t, json_items d t -> runs false d t) /\
  (forall d t, json_members d t -> runs false d t).
Proof. apply json_texts_ind; intros; auto 20 with json. Qed.

(** ** The value at the top *)

(** What a top-level text is: an atom, or a bracket pair around a run. *)
Lemma text_at_top d t : json_text d t -> json_atom t \/ exists d' o c m, d = S d' /\ (o = 91 \/ o = 123) /\ (c = 93 \/ c = 125) /\
  t = o :: m ++ [c] /\ runs false d' m.
Proof.
  destruct texts_run as (Rt & Ri & Rm). intros T. destruct T as [d t A|d w W|d t I|d w W|d t M]; [by left|right..].
  - exists d, 91, 93, w. auto 10 with json.
  - exists d, 91, 93, t. auto 10.
  - exists d, 123, 125, w. auto 10 with json.
  - exists d, 123, 125, t. auto 10.
Qed.

Lemma skip_json_text buf pos w t r : white w -> json_text SKIP_VALUE_MAX_DEPTH t -> drop pos buf = w ++ t ++ r -> leads extends r = false ->
  skip_json_value buf pos = Some (pos + length w + length t)%nat.
Proof.
  intros W T E L. unfold skip_json_value, skip_ws. rewrite E. assert (leads is_ws (t ++ r) = false) as Lw.
  { destruct (text_at_top _ _ T) as [[kw H|s B|neg ip fp ex Ni Fi _ _]|(d & o & c & m & _ & Ho & _ & -> & _)].
    - by destruct H as [-> |[-> | ->]].
    - done.
    - destruct neg; [done|]. destruct ip as [|b ip]; [done|]. apply Forall_inv in Fi. unfold decimal_text. cbn. unfold is_digit, is_ws in *.
      rewrite andb_true_iff, !Z.leb_le in Fi. rewrite !orb_false_iff, !Z.eqb_neq. lia.
    - by destruct Ho as [-> | ->]. }
  rewrite (skip_while_app _ _ _ _ W Lw). apply drop_past in E. set (i := (pos + length w)%nat) in *.
  destruct (text_at_top _ _ T) as [A|(d & o & c & m & Hd & Ho & Hc & -> & R)].
  - apply (json_run _ i 0 i 0); [apply rtc_refl|by rewrite (atom_turn _ _ _ _ _ E A L)|lia].
  - cbn [app] in E. rewrite <- app_assoc in E. destruct (drop_head _ _ _ _ E) as [_ E1]. apply (json_run _ i 0 (S i + length m) 1); [| |lia].
    + etransitivity; [apply (open_moves _ _ _ _ _ E Ho); rewrite Hd; lia|].
      apply (R _ _ _ _ E1); [right; by destruct Hc as [-> | ->]|rewrite Hd; lia].
    + rewrite (close_turn _ _ _ _ _ (drop_past _ _ _ _ E1) Hc). do 2 f_equal. cbn [length]. rewrite length_app. cbn. lia.
Qed.

(** The loop never runs out of turns, and stops inside the buffer. *)
Lemma skip_json_ends buf pos f : (length buf < f)%nat -> skip_json_value buf pos = json_loop f buf (skip_ws buf pos) 0.
Proof. intros H. apply json_loop_fuel; lia. Qed.

Lemma skip_json_inside buf pos e : skip_json_value buf pos = Some e -> (pos < e <= length buf)%nat.
Proof.
  intros H. apply json_loop_inside in H. pose proof (skip_while_bounds is_ws (drop pos buf) pos) as B. unfold skip_ws in H. lia.
Qed.

(** ** What the scanners promise *)

(** What a decimal means at [k] places: its digits, truncated, with its sign. *)
Definition price_reads (k : nat) (buf : list Z) (pos : nat) (v : Z) (e : nat) : Prop :=
  exists neg ip fp, decimal_at buf pos neg ip fp e /\ magnitude k ip fp <= i64_max /\ v = signed neg (magnitude k ip fp).

(** What a number with an exponent means at [k] places. *)
Definition number_reads (k : Z) (buf : list Z) (pos : nat) (v : Z) (e : nat) : Prop :=
  exists neg ip fp ex, number_at buf pos neg ip fp ex e /\ num (ip ++ fp) <= u128_max /\ sci_exp k fp ex <= 38 /\
    sci_magnitude k ip fp ex <= i64_max /\ v = signed neg (sci_magnitude k ip fp ex).

(** C36. In a buffer of less than 2^30 bytes the scanners read exactly the
    decimals and numbers. A price scanner succeeds when the bytes from the
    position start with a decimal whose scaled magnitude fits, returns its
    value truncated at its places and ends at the byte after its last digit,
    and refuses everything else; so does a number scanner with an optional
    exponent, when the digits fit 128 bits and the scaled power of ten is at
    most 38. *)
Theorem decimals_are_read_exactly buf pos v e : Z.of_nat (length buf) < 2 ^ 30 ->
  (scan_price_1e6 buf pos = Some (v, e) <-> price_reads 6 buf pos v e) /\
  (scan_price_1e8 buf pos = Some (v, e) <-> price_reads 8 buf pos v e) /\
  (scan_price_1e9 buf pos = Some (v, e) <-> price_reads 9 buf pos v e) /\
  (scan_number_sci_1e6 buf pos = Some (v, e) <-> number_reads 6 buf pos v e) /\
  (scan_number_sci_1e9 buf pos = Some (v, e) <-> number_reads 9 buf pos v e).
Proof.
  intros H. split_and!; [apply (scan_price_spec 6); lia|apply (scan_price_spec 8); lia|apply (scan_price_spec 9); lia|..]; apply scan_number_spec; (done || lia).
Qed.

(** C37. The skipper passes over exactly one JSON value: white space, then
    the text of any value nested at most sixteen deep, when what follows is
    not more of a number. On any bytes it ends, inside the buffer: more
    turns than bytes change nothing, and a position it returns is past its
    start. *)
Theorem skipped_value_is_one_json_text buf pos :
  (forall w t r, drop pos buf = w ++ t ++ r -> white w -> json_text SKIP_VALUE_MAX_DEPTH t -> leads extends r = false ->
     skip_json_value buf pos = Some (pos + length w + length t)%nat) /\
  (forall f, (length buf < f)%nat -> json_loop f buf (skip_ws buf pos) 0 = skip_json_value buf pos) /\
  (forall e, skip_json_value buf pos = Some e -> (pos < e <= length buf)%nat).
Proof.
  split_and!; [|intros f H; symmetry; by apply skip_json_ends|intros e; apply skip_json_inside].
  intros w t r E W T L. by apply (skip_json_text _ _ _ _ r).
Qed.

(** ** Fields *)

Section Fields.
Context (memmem_find : list Z -> list Z -> option nat).

(** The first occurrence, as the substring search documents it. *)
Definition finds_first : Prop := forall h n off, memmem_find h n = Some off ->
  take (length n) (drop off h) = n /\ (off + length n <= length h)%nat.

Hypothesis find_law : finds_first.

(** A field found is its key, at the start or after a brace, comma or space. *)
Lemma find_field_key f buf needle start p : (start <= length buf)%nat -> find_from memmem_find f buf needle start = Some p ->
  exists a, (start <= a)%nat /\ p = (a + length needle)%nat /\ (p <= length buf)%nat /\ take (length needle) (drop a buf) = needle /\
    (a = 0%nat \/ opens_key (get buf (a - 1)) = true).
Proof.
  revert start. induction f as [|f IH]; intros start Hs; [done|]. cbn [find_from]. destruct (memmem_find (drop start buf) needle) as [off|] eqn:E; [|done].
  destruct (find_law _ _ _ E) as [T L]. rewrite drop_drop, length_drop in *. cbv zeta. destruct (_ || _) eqn:O.
  - intros [= <-]. exists (start + off)%nat. split_and!; [lia|done|lia|done|]. apply orb_true_iff in O as [O|O]; [left; by apply Nat.eqb_eq in O|by right].
  - intros H. destruct (IH (start + off + length needle)%nat ltac:(lia) H) as (a & Ha & R). exists a. split; [lia|done].
Qed.

(** More turns than bytes change nothing, for a key that is not empty. *)
Lemma find_field_turns f g buf needle start : needle <> [] -> (length buf - start < f)%nat -> (length buf - start < g)%nat -> (start <= length buf)%nat ->
  find_from memmem_find f buf needle start = find_from memmem_find g buf needle start.
Proof.
  intros N. revert g start. induction f as [|f IH]; intros [|g] start Hf Hg Hs; [lia|lia|lia|]. cbn [find_from].
  destruct (memmem_find (drop start buf) needle) as [off|] eqn:E; [|done]. destruct (find_law _ _ _ E) as [_ L]. rewrite length_drop in L.
  destruct (_ || _); [done|]. assert (length needle <> 0)%nat by (by destruct needle). apply IH; lia.
Qed.

End Fields.

(** ** At the edges *)

(** The least i64 is a price no scanner reads, though it fits. *)
Example least_price_is_refused :
  scan_price_1e6 [45; 57; 50; 50; 51; 51; 55; 50; 48; 51; 54; 56; 53; 52; 46; 55; 55; 53; 56; 48; 56] 0 = None /\
  signed true (magnitude 6 [57; 50; 50; 51; 51; 55; 50; 48; 51; 54; 56; 53; 52] [55; 55; 53; 56; 48; 56]) = i64_min.
Proof. by vm_compute. Qed.

(** Zero with a large exponent is refused: [0e30] at nine places. *)
Example zero_with_an_exponent_is_refused : scan_number_sci_1e9 [48; 101; 51; 48] 0 = None /\
  sci_magnitude 9 [48] [] (Some (mkExponent 101 [] [51; 48])) = 0.
Proof. by vm_compute. Qed.

(** So is a fraction of forty digits, whose tail below the scale is otherwise
    dropped. *)
Example long_fraction_is_refused : scan_number_sci_1e9 ([49; 46] ++ replicate 40 51) 0 = None /\
  scan_number_sci_1e9 ([49; 46] ++ replicate 30 51) 0 = Some (1333333333, 32%nat).
Proof. by vm_compute. Qed.

(** ** Witnesses *)

Lemma decimals_are_read_exactly_witness : let buf := [45; 49; 46; 53; 101; 45; 51; 44] in
  (scan_price_1e6 buf 0 = Some (-1500000, 4%nat) <-> price_reads 6 buf 0 (-1500000) 4) /\
  (scan_price_1e8 buf 0 = Some (-1500000, 4%nat) <-> price_reads 8 buf 0 (-1500000) 4) /\
  (scan_price_1e9 buf 0 = Some (-1500000, 4%nat) <-> price_reads 9 buf 0 (-1500000) 4) /\
  (scan_number_sci_1e6 buf 0 = Some (-1500000, 4%nat) <-> number_reads 6 buf 0 (-1500000) 4) /\
  (scan_number_sci_1e9 buf 0 = Some (-1500000, 4%nat) <-> number_reads 9 buf 0 (-1500000) 4).
Proof. intros buf. apply (decimals_are_read_exactly buf 0 (-1500000) 4). reflexivity. Defined.

(** The two readings of the same bytes: [-1.5] as a price, [-1.5e-3] as a number. *)
Example price_stops_before_the_exponent : let buf := [45; 49; 46; 53; 101; 45; 51; 44] in
  scan_price_1e6 buf 0 = Some (-1500000, 4%nat) /\ scan_number_sci_1e6 buf 0 = Some (-1500, 7%nat).
Proof. by vm_compute. Qed.
