(* ===== verification/ParsePb.v ===== *)
(** * Protocol Buffers wire primitives (crates/core-parse/src/pb.rs)

    A base-128 varint reader, field tags, length prefixes and whole fields,
    read in place from a byte buffer; the encoders are the module's own. *)

From S2P Require Import Prelude AmmU256 AmmLimbs AmmTick AmmPayload AmmPayloadProofs.
From S2P Require Import Parse ParseProofs.

#[local] Open Scope machine_scope.

Definition PB_VARINT_MAX_LEN : nat := 10.
Definition PB_FIELD_NO_MAX : Z := Z.shiftl 1 29 - 1.
Definition PB_WT_VARINT : Z := 0.
Definition PB_WT_I64 : Z := 1.
Definition PB_WT_LEN : Z := 2.
Definition PB_WT_I32 : Z := 5.

Record PbField := mkPbField { field_no : Z; wire_type : Z; value : Z; start : nat; end_ : nat }.

(** [while shift < 64]: the continuation bytes. *)
Fixpoint varint_loop (fuel : nat) (buf : list Z) (v shift : Z) (i : nat) : option (Z * nat) :=
  match fuel with
  | O => None
  | S f =>
      if shift <? 64 then
        match buf !! i with
        | None => None
        | Some b =>
            let i := S i in
            if (shift =? 63) && (1 <? b) then None
            else
              let v := Z.lor v (wrap_u64 (Z.shiftl (Z.land b 127) shift)) in
              if Z.land b 128 =? 0 then Some (v, i) else varint_loop f buf v (shift + 7) i
        end
      else None
  end.

Definition scan_varint (buf : list Z) (pos : nat) : option (Z * nat) :=
  match buf !! pos with
  | None => None
  | Some b0 => if Z.land b0 128 =? 0 then Some (b0, S pos) else varint_loop PB_VARINT_MAX_LEN buf (Z.land b0 127) 7 (S pos)
  end.

Definition scan_pb_tag (buf : list Z) (pos : nat) : option (Z * Z * nat) :=
  match scan_varint buf pos with
  | None => None
  | Some (key, next) =>
      if u32_max <? key then None
      else
        let field_no := Z.shiftr key 3 in
        let wire_type := Z.land key 7 in
        if field_no =? 0 then None
        else if (wire_type =? PB_WT_VARINT) || (wire_type =? PB_WT_I64) || (wire_type =? PB_WT_LEN) || (wire_type =? PB_WT_I32)
        then Some (field_no, wire_type, next) else None
  end.

Definition scan_pb_len (buf : list Z) (pos : nat) : option (nat * nat) :=
  match scan_varint buf pos with
  | None => None
  | Some (len, start) =>
      let e := Z.of_nat start + len in
      if u64_max <? e then None else if Z.of_nat (length buf) <? e then None else Some (start, Z.to_nat e)
  end.

(** [buf.get(vpos..vpos + n)] as a little-endian integer. *)
Definition fixed_at (buf : list Z) (vpos n : nat) : option (Z * nat * nat) :=
  if (vpos + n <=? length buf)%nat then Some (from_le (take n (drop vpos buf)), vpos, (vpos + n)%nat) else None.

Definition scan_pb_field (buf : list Z) (pos : nat) : option PbField :=
  match scan_pb_tag buf pos with
  | None => None
  | Some (field_no, wire_type, vpos) =>
      let body :=
        if wire_type =? PB_WT_VARINT then
          match scan_varint buf vpos with None => None | Some (v, e) => Some (v, vpos, e) end
        else if wire_type =? PB_WT_LEN then
          match scan_pb_len buf vpos with None => None | Some (s, e) => Some (Z.of_nat (e - s), s, e) end
        else if wire_type =? PB_WT_I64 then fixed_at buf vpos 8
        else fixed_at buf vpos 4 in
      match body with None => None | Some (v, s, e) => Some (mkPbField field_no wire_type v s e) end
  end.

(** ** The module's encoders *)

Fixpoint enc_varint_from (fuel : nat) (v : Z) : list Z :=
  match fuel with
  | O => []
  | S f => if 128 <=? v then Z.lor (v mod 256) 128 :: enc_varint_from f (Z.shiftr v 7) else [v]
  end.

Definition enc_varint (v : Z) : list Z := enc_varint_from PB_VARINT_MAX_LEN v.
Definition enc_tag (field_no wire_type : Z) : list Z := enc_varint (Z.lor (wrap_u64 (Z.shiftl field_no 3)) wire_type).
Definition enc_len_field (field_no : Z) (payload : list Z) : list Z :=
  enc_tag field_no PB_WT_LEN ++ enc_varint (Z.of_nat (length payload)) ++ payload.
Definition enc_varint_field (field_no v : Z) : list Z := enc_tag field_no PB_WT_VARINT ++ enc_varint v.

Example varint_samples : scan_varint [170; 150; 1; 5] 1 = Some (150, 3%nat) /\
  scan_varint [255; 255; 255; 255; 255; 255; 255; 255; 255; 1] 0 = Some (u64_max, 10%nat) /\
  scan_varint [255; 255; 255; 255; 255; 255; 255; 255; 255; 2] 0 = None /\
  enc_varint u64_max = [255; 255; 255; 255; 255; 255; 255; 255; 255; 1].
Proof. vm_compute. done. Qed.

(** ** The text of a varint *)

Inductive groups : list Z -> Prop :=
| g_last b : 0 <= b < 128 -> groups [b]
| g_more b t : 128 <= b < 256 -> groups t -> groups (b :: t).

Fixpoint groups_value (t : list Z) : Z := match t with [] => 0 | b :: t' => b mod 128 + 128 * groups_value t' end.

Lemma groups_nonempty t : groups t -> (1 <= length t)%nat.
Proof. destruct 1; cbn; lia. Qed.

Lemma groups_value_bound t : groups t -> 0 <= groups_value t < 2 ^ (7 * Z.of_nat (length t)).
Proof.
  induction 1 as [b Hb|b t Hb G IH]; cbn [groups_value length].
  - rewrite Z.mod_small by lia. change (7 * Z.of_nat 1) with 7. lia.
  - rewrite Nat2Z.inj_succ, Z.mul_succ_r, Z.pow_add_r by lia. pose proof (Z.mod_pos_bound b 128 ltac:(lia)). lia.
Qed.

(** What a reading of the rest of a varint means, [k] groups in. *)
Definition rest_reads (buf : list Z) (k : nat) (v : Z) (i : nat) (r : Z * nat) : Prop :=
  exists t rest, drop i buf = t ++ rest /\ groups t /\ (k + length t <= PB_VARINT_MAX_LEN)%nat /\
    v + 2 ^ (7 * Z.of_nat k) * groups_value t <= u64_max /\ r = (v + 2 ^ (7 * Z.of_nat k) * groups_value t, (i + length t)%nat).

Lemma rest_last buf k v i b r : buf !! i = Some b -> 0 <= b < 128 ->
  rest_reads buf k v i r <-> (k < PB_VARINT_MAX_LEN)%nat /\ v + 2 ^ (7 * Z.of_nat k) * b <= u64_max /\ r = (v + 2 ^ (7 * Z.of_nat k) * b, S i).
Proof.
  intros Lb Hb. apply drop_S in Lb. split.
  - intros (t & rest & E & G & Hl & Hv & ->). rewrite Lb in E. destruct G as [c Hc|c t Hc G]; injection E as <- _; [|lia].
    cbn in Hl, Hv |- *. rewrite Z.mod_small, Z.add_0_r in * by lia. split_and!; [lia|done|f_equal; lia].
  - intros (Hk & Hv & ->). exists [b], (drop (S i) buf). cbn [groups_value length]. rewrite Z.mod_small, Z.mul_0_r, Z.add_0_r by lia.
    split_and!; [done|by constructor|lia|done|f_equal; lia].
Qed.

Lemma rest_more buf k v i b r : buf !! i = Some b -> 128 <= b < 256 ->
  rest_reads buf k v i r <-> rest_reads buf (S k) (v + 2 ^ (7 * Z.of_nat k) * (b mod 128)) (S i) r.
Proof.
  intros Lb Hb. apply drop_S in Lb.
  assert (forall x, v + 2 ^ (7 * Z.of_nat k) * (b mod 128 + 128 * x) = v + 2 ^ (7 * Z.of_nat k) * (b mod 128) + 2 ^ (7 * Z.of_nat (S k)) * x) as P.
  { intros x. rewrite Nat2Z.inj_succ, Z.mul_succ_r, Z.pow_add_r by lia. lia. }
  split.
  - intros (t & rest & E & G & Hl & Hv & ->). rewrite Lb in E. destruct G as [c Hc|c t Hc G]; injection E as <- E; [lia|]. exists t, rest.
    cbn [groups_value length] in *. rewrite P in *. split_and!; [done|done|lia|done|f_equal; lia].
  - intros (t & rest & E & G & Hl & Hv & ->). exists (b :: t), rest. cbn [groups_value length]. rewrite P.
    split_and!; [by rewrite Lb, E|by constructor|lia|done|f_equal; lia].
Qed.

Lemma rest_none buf k v i r : buf !! i = None -> ~ rest_reads buf k v i r.
Proof.
  intros Lb (t & rest & E & G & _). apply lookup_ge_None in Lb. rewrite drop_ge in E by done. by destruct G.
Qed.

Lemma varint_loop_spec buf fuel k v i r : Forall byte buf -> (0 < k)%nat -> (fuel + k = S PB_VARINT_MAX_LEN)%nat -> 0 <= v < 2 ^ (7 * Z.of_nat k) ->
  varint_loop fuel buf v (7 * Z.of_nat k) i = Some r <-> rest_reads buf k v i r.
Proof.
  intros F. revert k v i. induction fuel as [|fuel IH]; intros k v i Hk Hf Hv.
  { split; [done|]. intros (t & rest & _ & G & Hl & _). apply groups_nonempty in G. lia. }
  cbn [varint_loop]. unfold PB_VARINT_MAX_LEN in *. destruct (Z.ltb_spec (7 * Z.of_nat k) 64) as [L|L].
  2:{ split; [done|]. intros (t & rest & _ & G & Hl & _). apply groups_nonempty in G. unfold PB_VARINT_MAX_LEN in Hl. lia. }
  destruct (buf !! i) as [b|] eqn:Lb; [|split; [done|intros H; by apply rest_none in H]].
  assert (byte b) as Hb by (rewrite Forall_lookup in F; by eapply F). cbv zeta. rewrite high_bit, low_bits by done. unfold byte in Hb.
  assert (k <= 9)%nat as Hk9 by lia. pose proof (Z.pow_le_mono_r 2 (7 * Z.of_nat k) 63 ltac:(lia) ltac:(lia)) as Hp.
  assert (0 < 2 ^ (7 * Z.of_nat k)) as Hp0 by (apply Z.pow_pos_nonneg; lia).
  destruct (Z.eqb_spec (7 * Z.of_nat k) 63) as [E63|N63]; cbn [andb].
  - assert (k = 9)%nat as -> by lia. change (7 * Z.of_nat 9) with 63 in *. destruct (Z.ltb_spec 1 b) as [Hb1|Hb1].
    + split; [done|]. destruct (Z.lt_ge_cases b 128) as [Hs|Hs].
      * intros (_ & H & _)%(rest_last buf 9 v i b r Lb ltac:(lia)). change (7 * Z.of_nat 9) with 63 in H. unfold u64_max in H. lia.
      * intros (t & rest & _ & G & Hl & _)%(rest_more buf 9 v i b r Lb ltac:(lia)). apply groups_nonempty in G. unfold PB_VARINT_MAX_LEN in Hl. lia.
    + rewrite (proj2 (Z.ltb_lt b 128)) by lia. rewrite Z.mod_small, Z.shiftl_mul_pow2 by lia. unfold wrap_u64. rewrite Z.mod_small by lia.
      rewrite Z.lor_comm, lor_low_high by lia. rewrite (rest_last buf 9 v i b r Lb ltac:(lia)). change (7 * Z.of_nat 9) with 63.
      split; [intros [= <-]; split_and!; [unfold PB_VARINT_MAX_LEN; lia|unfold u64_max; lia|f_equal; lia]|intros (_ & _ & ->); do 2 f_equal; lia].
  - pose proof (Z.pow_le_mono_r 2 (7 * Z.of_nat k) 56 ltac:(lia) ltac:(lia)) as Hp8. pose proof (Z.mod_pos_bound b 128 ltac:(lia)) as Hm.
    rewrite Z.shiftl_mul_pow2 by lia. unfold wrap_u64. rewrite (Z.mod_small (b mod 128 * _)) by nia. rewrite Z.lor_comm, lor_low_high by lia.
    destruct (Z.ltb_spec b 128) as [Hs|Hs].
    + rewrite (rest_last buf k v i b r Lb ltac:(lia)). rewrite Z.mod_small by lia.
      split; [intros [= <-]; split_and!; [unfold PB_VARINT_MAX_LEN; lia|unfold u64_max; nia|f_equal; lia]|intros (_ & _ & ->); do 2 f_equal; lia].
    + rewrite (rest_more buf k v i b r Lb ltac:(lia)). replace (7 * Z.of_nat k + 7) with (7 * Z.of_nat (S k)) by lia.
      replace (b mod 128 * 2 ^ (7 * Z.of_nat k) + v) with (v + 2 ^ (7 * Z.of_nat k) * (b mod 128)) by lia. apply IH; [lia|lia|].
      rewrite Nat2Z.inj_succ, Z.mul_succ_r, Z.pow_add_r by lia. change (2 ^ 7) with 128. nia.
Qed.

(** A varint is read exactly: any bytes of at most ten groups whose value fits. *)
Lemma scan_varint_spec buf pos v e : Forall byte buf ->
  scan_varint buf pos = Some (v, e) <->
  exists t rest, drop pos buf = t ++ rest /\ groups t /\ (length t <= PB_VARINT_MAX_LEN)%nat /\ groups_value t <= u64_max /\
    v = groups_value t /\ e = (pos + length t)%nat.
Proof.
  intros F. transitivity (rest_reads buf 0 0 pos (v, e)).
  - unfold scan_varint. destruct (buf !! pos) as [b|] eqn:Lb; [|split; [done|intros H; by apply rest_none in H]].
    assert (byte b) as Hb by (rewrite Forall_lookup in F; by eapply F). rewrite high_bit, low_bits by done. unfold byte in Hb.
    destruct (Z.ltb_spec b 128) as [Hs|Hs].
    + rewrite (rest_last buf 0 0 pos b _ Lb ltac:(lia)). change (2 ^ (7 * Z.of_nat 0)) with 1.
      split; [intros [= <- <-]; split_and!; [unfold PB_VARINT_MAX_LEN; lia|unfold u64_max; lia|f_equal; lia]|intros (_ & _ & [= -> ->]); do 2 f_equal; lia].
    + rewrite (rest_more buf 0 0 pos b _ Lb ltac:(lia)). change (2 ^ (7 * Z.of_nat 0)) with 1. rewrite Z.add_0_l, Z.mul_1_l.
      pose proof (Z.mod_pos_bound b 128 ltac:(lia)). rewrite <- (varint_loop_spec buf 10 1) by (done || lia). done.
  - unfold rest_reads. change (2 ^ (7 * Z.of_nat 0)) with 1. setoid_rewrite Z.mul_1_l. setoid_rewrite Z.add_0_l. setoid_rewrite Nat.add_0_l.
    split; intros (t & rest & E & G & Hl & Hv & H); exists t, rest; [injection H as -> ->|destruct H as [-> ->]]; done.
Qed.

(** ** Encoding *)

Lemma high_set b : byte b -> Z.lor b 128 = b mod 128 + 128.
Proof.
  unfold byte. intros H. assert (forallb (fun b => Z.lor b 128 =? b mod 128 + 128) (seqZ 0 256) = true) as A by (vm_compute; reflexivity).
  rewrite forallb_forall in A. apply Z.eqb_eq, A, list_elem_of_In, elem_of_seqZ. lia.
Qed.

Lemma enc_varint_from_spec fuel v : (0 < fuel)%nat -> 0 <= v < 2 ^ (7 * Z.of_nat fuel) ->
  groups (enc_varint_from fuel v) /\ (length (enc_varint_from fuel v) <= fuel)%nat /\ groups_value (enc_varint_from fuel v) = v.
Proof.
  revert v. induction fuel as [|fuel IH]; intros v Hf Hv; [lia|]. cbn [enc_varint_from]. destruct (Z.leb_spec 128 v) as [L|L].
  2:{ cbn [groups_value length]. rewrite Z.mod_small by lia. split_and!; [apply g_last; lia|lia|lia]. }
  rewrite Nat2Z.inj_succ, Z.mul_succ_r, Z.pow_add_r in Hv by lia. change (2 ^ 7) with 128 in Hv.
  destruct fuel as [|fuel]; [change (2 ^ (7 * Z.of_nat 0)) with 1 in Hv; lia|]. rewrite high_set by (unfold byte; apply Z.mod_pos_bound; lia).
  rewrite Z.shiftr_div_pow2 by lia. change (2 ^ 7) with 128. replace ((v mod 256) mod 128) with (v mod 128) by (Z.to_euclidean_division_equations; lia).
  destruct (IH (v / 128) ltac:(lia)) as (G & Hl & E); [split; [apply Z.div_pos; lia|apply Z.div_lt_upper_bound; lia]|].
  pose proof (Z.mod_pos_bound v 128 ltac:(lia)). cbn [groups_value length]. rewrite E. split_and!; [constructor; [lia|done]|cbn [length] in *; lia|].
  replace ((v mod 128 + 128) mod 128) with (v mod 128) by (Z.to_euclidean_division_equations; lia). pose proof (Z.div_mod v 128 ltac:(lia)). lia.
Qed.

Lemma enc_varint_spec v : in_u64 v -> groups (enc_varint v) /\ (length (enc_varint v) <= PB_VARINT_MAX_LEN)%nat /\ groups_value (enc_varint v) = v.
Proof. intros H. apply enc_varint_from_spec; [unfold PB_VARINT_MAX_LEN; lia|]. change (2 ^ _) with 1180591620717411303424. unfold u64_max in H. lia. Qed.

Lemma groups_bytes t : groups t -> Forall byte t.
Proof. induction 1; repeat constructor; unfold byte; try lia; done. Qed.

(** Reading what was written, anywhere in a buffer. *)
Lemma scan_enc buf pos v rest : Forall byte buf -> in_u64 v -> drop pos buf = enc_varint v ++ rest ->
  scan_varint buf pos = Some (v, pos + length (enc_varint v))%nat.
Proof.
  intros F Hv E. destruct (enc_varint_spec v Hv) as (G & Hl & Ev). apply scan_varint_spec; [done|]. exists (enc_varint v), rest.
  split_and!; [done|done|done|by rewrite Ev; apply Hv|done|done].
Qed.

Definition wire_ok (w : Z) : Prop := w = PB_WT_VARINT \/ w = PB_WT_I64 \/ w = PB_WT_LEN \/ w = PB_WT_I32.

Lemma tag_key no w : 1 <= no <= PB_FIELD_NO_MAX -> wire_ok w -> Z.lor (wrap_u64 (Z.shiftl no 3)) w = no * 8 + w.
Proof.
  change PB_FIELD_NO_MAX with 536870911. intros Hn Hw. assert (0 <= w < 2 ^ 3) by (destruct Hw as [-> |[-> |[-> | ->]]]; vm_compute; split; congruence).
  rewrite Z.shiftl_mul_pow2 by lia. unfold wrap_u64. rewrite Z.mod_small by lia. by apply lor_low_high.
Qed.

Lemma scan_tag buf pos no w rest : Forall byte buf -> 1 <= no <= PB_FIELD_NO_MAX -> wire_ok w -> drop pos buf = enc_tag no w ++ rest ->
  scan_pb_tag buf pos = Some (no, w, pos + length (enc_tag no w))%nat.
Proof.
  intros F Hn Hw E. unfold enc_tag in *. rewrite tag_key in * by done. change PB_FIELD_NO_MAX with 536870911 in Hn.
  assert (0 <= w < 8) as Hw8 by (destruct Hw as [-> |[-> |[-> | ->]]]; vm_compute; split; congruence).
  unfold scan_pb_tag. rewrite (scan_enc buf pos (no * 8 + w) rest) by (done || unfold u64_max; lia). unfold u32_max. rewrite (proj2 (Z.ltb_ge _ _)) by lia.
  rewrite Z.shiftr_div_pow2 by lia. change 7 with (Z.ones 3). rewrite Z.land_ones by lia. change (2 ^ 3) with 8.
  replace ((no * 8 + w) / 8) with no by (Z.to_euclidean_division_equations; lia). replace ((no * 8 + w) mod 8) with w by (Z.to_euclidean_division_equations; lia).
  rewrite (proj2 (Z.eqb_neq no 0)) by lia. by destruct Hw as [-> |[-> |[-> | ->]]].
Qed.

(** A field written anywhere in a message is read back: its number, its
    value or its payload's span, and the position of the next field. *)
Theorem pb_fields_round_trip pre post no v payload : Forall byte pre -> Forall byte post -> Forall byte payload ->
  1 <= no <= PB_FIELD_NO_MAX -> in_u64 v ->
  Z.of_nat (length (pre ++ enc_len_field no payload ++ post)) <= u64_max ->
  let at_ := length pre in
  scan_pb_field (pre ++ enc_varint_field no v ++ post) at_ =
    Some (mkPbField no PB_WT_VARINT v (at_ + length (enc_tag no PB_WT_VARINT)) (at_ + length (enc_varint_field no v))) /\
  exists s, scan_pb_field (pre ++ enc_len_field no payload ++ post) at_ =
    Some (mkPbField no PB_WT_LEN (Z.of_nat (length payload)) s (at_ + length (enc_len_field no payload))) /\
    take (length payload) (drop s (pre ++ enc_len_field no payload ++ post)) = payload.
Proof.
  intros Fp Fq Fl Hn Hv Hlen. cbv zeta. assert (forall w, wire_ok w -> groups (enc_tag no w)) as Gt.
  { intros w Hw. unfold enc_tag. rewrite tag_key by done. change PB_FIELD_NO_MAX with 536870911 in Hn. apply enc_varint_spec. unfold u64_max.
    destruct Hw as [-> |[-> |[-> | ->]]]; unfold PB_WT_VARINT, PB_WT_I64, PB_WT_LEN, PB_WT_I32; lia. }
  split.
  - unfold enc_varint_field. set (buf := pre ++ _). assert (Forall byte buf) as F.
    { subst buf. rewrite !Forall_app. split_and!; try done; apply groups_bytes; [apply Gt; by left|by apply enc_varint_spec]. }
    assert (drop (length pre) buf = enc_tag no PB_WT_VARINT ++ enc_varint v ++ post) as E by (subst buf; rewrite drop_app_length, <- app_assoc; done).
    unfold scan_pb_field. rewrite (scan_tag buf _ no _ _ F Hn (or_introl eq_refl) E). cbn [Z.eqb]. pose proof (drop_past _ _ _ _ E) as E1.
    rewrite Z.eqb_refl. rewrite (scan_enc buf _ v post F Hv E1). do 2 f_equal. rewrite length_app. lia.
  - unfold enc_len_field in *. set (buf := pre ++ _) in *. assert (in_u64 (Z.of_nat (length payload))) as Hp.
    { subst buf. rewrite !length_app in Hlen. lia. }
    assert (Forall byte buf) as F.
    { subst buf. rewrite !Forall_app. split_and!; try done; apply groups_bytes; [apply Gt; right; right; by left|by apply enc_varint_spec]. }
    assert (drop (length pre) buf = enc_tag no PB_WT_LEN ++ enc_varint (Z.of_nat (length payload)) ++ payload ++ post) as E.
    { subst buf. rewrite drop_app_length, <- !app_assoc. done. }
    unfold scan_pb_field. rewrite (scan_tag buf _ no _ _ F Hn (or_intror (or_intror (or_introl eq_refl))) E). change (PB_WT_LEN =? PB_WT_VARINT) with false.
    change (PB_WT_LEN =? PB_WT_LEN) with true. cbv iota. pose proof (drop_past _ _ _ _ E) as E1. unfold scan_pb_len. rewrite (scan_enc buf _ _ _ F Hp E1).
    pose proof (drop_past _ _ _ _ E1) as E2. set (s := (length pre + length (enc_tag no PB_WT_LEN) + length (enc_varint (Z.of_nat (length payload))))%nat) in *.
    assert (s + length payload <= length buf)%nat as Hs.
    { subst s buf. rewrite !length_app. lia. }
    rewrite (proj2 (Z.ltb_ge _ _)) by lia. rewrite (proj2 (Z.ltb_ge _ _)) by lia. exists s. split.
    + do 2 f_equal; [lia|]. subst s. rewrite !length_app. lia.
    + rewrite E2. apply take_app_length.
Qed.

(** ** Whatever the bytes *)

Lemma scan_varint_inside buf pos v e : Forall byte buf -> scan_varint buf pos = Some (v, e) -> in_u64 v /\ (pos < e <= length buf)%nat.
Proof.
  intros F H. apply scan_varint_spec in H as (t & rest & E & G & _ & Hv & -> & ->); [|done]. pose proof (groups_nonempty _ G).
  pose proof (groups_value_bound _ G). apply drop_in in E; [|by destruct G]. lia.
Qed.

Lemma scan_tag_inside buf pos no w e : Forall byte buf -> scan_pb_tag buf pos = Some (no, w, e) ->
  1 <= no <= PB_FIELD_NO_MAX /\ wire_ok w /\ (pos < e <= length buf)%nat.
Proof.
  intros F. unfold scan_pb_tag. destruct (scan_varint buf pos) as [[key n]|] eqn:E; [|done]. destruct (scan_varint_inside _ _ _ _ F E) as (Hk & Hp).
  destruct (Z.ltb_spec u32_max key); [done|]. destruct (Z.eqb_spec (Z.shiftr key 3) 0) as [|N]; [done|]. destruct (_ || _ || _ || _) eqn:W; [|done].
  intros [= <- <- <-]. rewrite !orb_true_iff, !Z.eqb_eq in W. split_and!; [| |unfold wire_ok; tauto|lia|lia].
  - assert (0 <= Z.shiftr key 3) by (apply Z.shiftr_nonneg; lia). lia.
  - change PB_FIELD_NO_MAX with 536870911. unfold u32_max in *. rewrite Z.shiftr_div_pow2 by lia. change (2 ^ 3) with 8. Z.to_euclidean_division_equations. lia.
Qed.

Lemma fixed_at_inside buf vpos n r : Forall byte buf -> fixed_at buf vpos n = Some r ->
  let '(v, s, e) := r in 0 <= v < 256 ^ Z.of_nat n /\ s = vpos /\ (e = vpos + n)%nat /\ (e <= length buf)%nat.
Proof.
  intros F. unfold fixed_at. destruct (Nat.leb_spec (vpos + n) (length buf)) as [L|]; [|done]. intros [= <-].
  assert (Forall byte (take n (drop vpos buf))) as Ft by (by apply Forall_take, Forall_drop). pose proof (from_le_bound _ Ft) as B.
  rewrite length_take, length_drop, Nat.min_l in B by lia. split_and!; [lia|lia|done|done|done].
Qed.

(** On any bytes a field that is read lies inside the buffer and moves the
    walk forward; its number, wire type and value are in range, and a
    length-delimited payload is exactly the span that ends the field. *)
Theorem pb_fields_stay_inside buf pos f : Forall byte buf -> scan_pb_field buf pos = Some f ->
  1 <= field_no f <= PB_FIELD_NO_MAX /\ wire_ok (wire_type f) /\ in_u64 (value f) /\ (pos < start f <= end_ f)%nat /\ (end_ f <= length buf)%nat /\
  (wire_type f = PB_WT_LEN -> value f = Z.of_nat (end_ f - start f)).
Proof.
  intros F. unfold scan_pb_field. destruct (scan_pb_tag buf pos) as [[[no w] vp]|] eqn:E; [|done].
  destruct (scan_tag_inside _ _ _ _ _ F E) as (Hn & Hw & Hp). destruct Hw as [-> |[-> |[-> | ->]]]; cbn [Z.eqb PB_WT_VARINT PB_WT_LEN PB_WT_I64 PB_WT_I32 Pos.eqb].
  - destruct (scan_varint buf vp) as [[v e]|] eqn:Ev; [|done]. intros [= <-]. destruct (scan_varint_inside _ _ _ _ F Ev). cbn. unfold wire_ok. split_and!; try lia; done.
  - destruct (fixed_at buf vp 8) as [[[v s] e]|] eqn:Ev; [|done]. intros [= <-]. destruct (fixed_at_inside _ _ _ _ F Ev) as (Hv & -> & -> & He).
    change (256 ^ Z.of_nat 8) with 18446744073709551616 in Hv. cbn. unfold wire_ok, u64_max. split_and!; try lia; done.
  - destruct (scan_pb_len buf vp) as [[s e]|] eqn:Ev; [|done]. intros [= <-]. unfold scan_pb_len in Ev. destruct (scan_varint buf vp) as [[len s']|] eqn:Es; [|done].
    destruct (scan_varint_inside _ _ _ _ F Es). destruct (Z.ltb_spec u64_max (Z.of_nat s' + len)); [done|]. destruct (Z.ltb_spec (Z.of_nat (length buf)) (Z.of_nat s' + len)); [done|].
    injection Ev as <- <-. cbn. unfold wire_ok. split_and!; try lia; done.
  - destruct (fixed_at buf vp 4) as [[[v s] e]|] eqn:Ev; [|done]. intros [= <-]. destruct (fixed_at_inside _ _ _ _ F Ev) as (Hv & -> & -> & He).
    change (256 ^ Z.of_nat 4) with 4294967296 in Hv. cbn. unfold wire_ok, u64_max. split_and!; try lia; done.
Qed.

(** ** Witnesses *)

Lemma pb_fields_round_trip_witness : let pre := enc_varint_field 1 7 in let post := enc_varint_field 2 9 in
  scan_pb_field (pre ++ enc_varint_field 300 u64_max ++ post) 2 = Some (mkPbField 300 0 u64_max 4 14) /\
  exists s, scan_pb_field (pre ++ enc_len_field 300 [52; 50] ++ post) 2 = Some (mkPbField 300 2 2 s 7) /\
    take 2 (drop s (pre ++ enc_len_field 300 [52; 50] ++ post)) = [52; 50].
Proof.
  intros pre post. apply (pb_fields_round_trip pre post 300 u64_max [52; 50]); unfold pre, post; vm_compute; repeat constructor; discriminate.
Defined.

Lemma pb_fields_stay_inside_witness : let f := mkPbField 3 2 2 2 4 in
  1 <= field_no f <= PB_FIELD_NO_MAX /\ wire_ok (wire_type f) /\ in_u64 (value f) /\ (0 < start f <= end_ f)%nat /\ (end_ f <= length [26; 2; 52; 50])%nat /\
  (wire_type f = PB_WT_LEN -> value f = Z.of_nat (end_ f - start f)).
Proof.
  intros f. apply (pb_fields_stay_inside [26; 2; 52; 50] 0 f); [|reflexivity]. vm_compute. repeat constructor; discriminate.
Defined.
