(* ===== verification/WsFrame.v ===== *)
(** * WebSocket frames and a session's windows (crates/core-net/src/ws_frame.rs,
    iobuf.rs, ws_conn.rs, keepalive.rs, subs.rs)

    The frame reader, the in-place mask in eight-byte strides, the frame
    serialiser over parts that render themselves, the header-first and the
    in-place writers; then the byte window with its two cursors, the client
    framer over a receive and a send window, the keepalive scheduler and the
    request and subscription tables. A buffer is its list of bytes; a writer
    returns the buffer it leaves beside its result. A slice handed out to be
    written is the window's free region: the writer's bytes are stored back
    where the slice lies. *)

From S2P Require Import Prelude AmmU256 AmmLimbs AmmTick AmmPayload AmmPayloadProofs.

#[local] Open Scope machine_scope.

Record PayloadSpan := mkPayloadSpan { span_start : nat; span_end : nat }.
Definition span_len (s : PayloadSpan) : nat := span_end s - span_start s.
Definition span_is_empty (s : PayloadSpan) : bool := (span_start s =? span_end s)%nat.

(** ** Opcodes *)

Inductive WsOpcode := Continuation | Text | Binary | Close | Ping | Pong.

Definition opcode_byte (o : WsOpcode) : Z :=
  match o with Continuation => 0 | Text => 1 | Binary => 2 | Close => 8 | Ping => 9 | Pong => 10 end.

Definition is_control (o : WsOpcode) : bool := negb (Z.land (opcode_byte o) 8 =? 0).

Definition from_nibble (n : Z) : option WsOpcode :=
  if n =? 0 then Some Continuation else if n =? 1 then Some Text else if n =? 2 then Some Binary
  else if n =? 8 then Some Close else if n =? 9 then Some Ping else if n =? 10 then Some Pong else None.

(** ** The frame reader *)

Record WsFrameHeader := mkWsFrameHeader {
  fin : bool; opcode : WsOpcode; masked : bool; payload_len : Z; header_len : Z; mask : list Z
}.

Inductive WsReadResult :=
| Incomplete
| Frame (header : WsFrameHeader) (payload : PayloadSpan)
| Malformed.

Inductive WsWriteErr := BufferTooSmall | RenderDiverged.

Definition from_be (l : list Z) : Z := from_le (rev l).
Definition to_be (n : nat) (z : Z) : list Z := rev (to_le n z).

(** [buf[at..at + n]]. *)
Definition slice (buf : list Z) (at_ n : nat) : list Z := take n (drop at_ buf).

(** The length encoding: the payload's length and where the header goes on, or
    the verdict that ends the reading. *)
Definition read_len (buf : list Z) (len_code : Z) : (Z * nat) + WsReadResult :=
  if len_code <=? 125 then inl (len_code, 2%nat)
  else if len_code =? 126 then
    if (length buf <? 4)%nat then inr Incomplete else inl (from_be (slice buf 2 2), 4%nat)
  else
    if (length buf <? 10)%nat then inr Incomplete
    else if negb (Z.land (get buf 2) 128 =? 0) then inr Malformed
    else inl (from_be (slice buf 2 8), 10%nat).

Definition ws_read_frame (buf : list Z) : WsReadResult :=
  if (length buf <? 2)%nat then Incomplete
  else
    let b0 := get buf 0 in
    let b1 := get buf 1 in
    let fin := negb (Z.land b0 128 =? 0) in
    if negb (Z.land b0 112 =? 0) then Malformed
    else
      match from_nibble (Z.land b0 15) with
      | None => Malformed
      | Some opcode =>
          if is_control opcode && negb fin then Malformed
          else
            let masked := negb (Z.land b1 128 =? 0) in
            let len_code := Z.land b1 127 in
            match read_len buf len_code with
            | inr verdict => verdict
            | inl (payload_len, cursor) =>
                if is_control opcode && (125 <? payload_len) then Malformed
                else if masked && (length buf <? cursor + 4)%nat then Incomplete
                else
                  let mask := if masked then slice buf cursor 4 else [0; 0; 0; 0] in
                  let cursor := if masked then (cursor + 4)%nat else cursor in
                  let payload_end := Z.of_nat cursor + payload_len in
                  if u64_max <? payload_end then Malformed
                  else if Z.of_nat (length buf) <? payload_end then Incomplete
                  else Frame (mkWsFrameHeader fin opcode masked payload_len (Z.of_nat cursor) mask) (mkPayloadSpan cursor (Z.to_nat payload_end))
            end
      end.

(** ** The mask, in place *)

(** [dst[at..at + bs.len()].copy_from_slice(bs)]. *)
Definition write_at (dst : list Z) (at_ : nat) (bs : list Z) : list Z := take at_ dst ++ bs ++ drop (at_ + length bs) dst.

Fixpoint unmask_words (fuel : nat) (m64 : Z) (buf : list Z) (i : nat) : list Z * nat :=
  match fuel with
  | O => (buf, i)
  | S f =>
      if (i + 8 <=? length buf)%nat
      then unmask_words f m64 (write_at buf i (to_le 8 (Z.lxor (from_le (slice buf i 8)) m64))) (i + 8)
      else (buf, i)
  end.

Fixpoint unmask_tail (fuel : nat) (mask buf : list Z) (i : nat) : list Z :=
  match fuel with
  | O => buf
  | S f =>
      if (i <? length buf)%nat
      then unmask_tail f mask (<[i := Z.lxor (get buf i) (get mask (Z.to_nat (Z.land (Z.of_nat i) 3)))]> buf) (S i)
      else buf
  end.

(** Words are read and written in the machine's order, little-endian. *)
Definition ws_unmask_in_place (buf mask : list Z) : list Z :=
  let mask8 := [get mask 0; get mask 1; get mask 2; get mask 3; get mask 0; get mask 1; get mask 2; get mask 3] in
  let '(buf, i) := unmask_words (length buf) (from_le mask8) buf 0 in
  unmask_tail (length buf) mask buf i.

(** ** The frame writer *)

(** [trait WsPart]: the length a part will write, and the write into a slice of
    that length, with the count it returns. *)
Class WsPart (P : Type) := { part_len : P -> nat; write_to : P -> list Z -> list Z * nat }.

#[export] Instance WsPart_bytes : WsPart (list Z) := { part_len := length (A := Z); write_to p _ := (p, length p) }.

Definition client_header_len (plen : nat) : nat :=
  if (plen <=? 125)%nat then 2 + 4 else if (Z.of_nat plen <=? u16_max) then 2 + 2 + 4 else 2 + 8 + 4.

Definition write_client_header (dst : list Z) (opcode : WsOpcode) (plen : nat) (mask : list Z) : list Z * nat :=
  let dst := <[0%nat := Z.lor 128 (opcode_byte opcode)]> dst in
  let '(dst, cursor) :=
    if (plen <=? 125)%nat then (<[1%nat := Z.lor 128 (Z.of_nat plen mod 256)]> dst, 2%nat)
    else if Z.of_nat plen <=? u16_max then
      let dst := <[1%nat := Z.lor 128 126]> dst in
      (write_at dst 2 (to_be 2 (wrap_u16 (Z.of_nat plen))), 4%nat)
    else
      let dst := <[1%nat := Z.lor 128 127]> dst in
      (write_at dst 2 (to_be 8 (wrap_u64 (Z.of_nat plen))), 10%nat) in
  (write_at dst cursor mask, (cursor + 4)%nat).

Section Parts.
Context {P : Type} `{WsPart P}.

Definition parts_len (parts : list P) : nat := foldl (fun n p => n + part_len p)%nat 0%nat parts.

(** Each part writes itself into its slice. *)
Fixpoint write_parts (dst : list Z) (at_ : nat) (parts : list P) : list Z :=
  match parts with
  | [] => dst
  | p :: ps =>
      let n := part_len p in
      let '(bytes, _) := write_to p (slice dst at_ n) in
      write_parts (write_at dst at_ bytes) (at_ + n) ps
  end.

Definition ws_write_frame_with (dst : list Z) (opcode : WsOpcode) (parts : list P) (mask : list Z) : list Z * result nat WsWriteErr :=
  let plen := parts_len parts in
  let total := (client_header_len plen + plen)%nat in
  if (length dst <? total)%nat then (dst, Err BufferTooSmall)
  else
    let '(dst, cursor) := write_client_header dst opcode plen mask in
    let dst := write_parts dst cursor parts in
    (write_at dst cursor (ws_unmask_in_place (slice dst cursor plen) mask), Ok total).

Definition ws_write_text_frame_with (dst : list Z) (parts : list P) (mask : list Z) : list Z * result nat WsWriteErr :=
  ws_write_frame_with dst Text parts mask.
End Parts.

Definition ws_write_frame_parts (dst : list Z) (opcode : WsOpcode) (parts : list (list Z)) (mask : list Z) := ws_write_frame_with dst opcode parts mask.
Definition ws_write_frame (dst : list Z) (opcode : WsOpcode) (payload mask : list Z) := ws_write_frame_parts dst opcode [payload] mask.
Definition ws_write_text_frame (dst payload mask : list Z) := ws_write_frame dst Text payload mask.
Definition ws_write_text_frame_parts (dst : list Z) (parts : list (list Z)) (mask : list Z) := ws_write_frame_parts dst Text parts mask.
Definition ws_write_binary_frame_parts (dst : list Z) (parts : list (list Z)) (mask : list Z) := ws_write_frame_parts dst Binary parts mask.
Definition ws_write_pong (dst payload mask : list Z) := ws_write_frame dst Pong payload mask.
Definition ws_write_ping (dst payload mask : list Z) := ws_write_frame dst Ping payload mask.

(** ** Header-first rendered frames *)

Record WsPayload := mkWsPayload { pl_dst : list Z; pl_len : nat; counting : bool }.

Definition WsPayload_counting : WsPayload := mkWsPayload [] 0 true.
Definition WsPayload_writing (dst : list Z) : WsPayload := mkWsPayload dst 0 false.

Definition put (p : WsPayload) (bytes : list Z) : WsPayload * result unit WsWriteErr :=
  let end_ := (pl_len p + length bytes)%nat in
  if counting p then (mkWsPayload (pl_dst p) end_ true, Ok tt)
  else if (end_ <=? length (pl_dst p))%nat then (mkWsPayload (write_at (pl_dst p) (pl_len p) bytes) end_ false, Ok tt)
  else (p, Err BufferTooSmall).

(** A render is any function of the payload it appends to; [render] runs twice. *)
Definition ws_write_text_frame_rendered (dst mask : list Z) (render : WsPayload -> WsPayload * result unit WsWriteErr) :
  list Z * result nat WsWriteErr :=
  match render WsPayload_counting with
  | (_, Err e) => (dst, Err e)
  | (count, Ok _) =>
      let plen := pl_len count in
      let hdr := client_header_len plen in
      let total := (hdr + plen)%nat in
      if (length dst <? total)%nat then (dst, Err BufferTooSmall)
      else
        let '(dst, _) := write_client_header dst Text plen mask in
        let '(written, r) := render (WsPayload_writing (slice dst hdr plen)) in
        let dst := write_at dst hdr (pl_dst written) in
        if negb (is_ok r) || negb (pl_len written =? plen)%nat then (dst, Err RenderDiverged)
        else (write_at dst hdr (ws_unmask_in_place (slice dst hdr plen) mask), Ok total)
  end.

(** ** A frame around a payload rendered in place *)

Definition WS_CLIENT_HDR_MAX : nat := 14.

Definition ws_frame_in_place (buf : list Z) (room : nat) (opcode : WsOpcode) (plen : nat) (mask : list Z) : list Z * result nat WsWriteErr :=
  let hdr := client_header_len plen in
  let e := (plen + room)%nat in
  if (Z.of_nat e <=? u64_max) && (e <=? length buf)%nat && (hdr <=? room)%nat then
    let start := (room - hdr)%nat in
    let '(header, _) := write_client_header (slice buf start hdr) opcode plen mask in
    let buf := write_at buf start header in
    (write_at buf room (ws_unmask_in_place (slice buf room plen) mask), Ok start)
  else (buf, Err BufferTooSmall).

Definition ws_mask_from_counter (counter : Z) : list Z :=
  let z := wrap_u64 (counter + 11400714819323198485) in
  let z := wrap_u64 (Z.lxor z (Z.shiftr z 30) * 13787848793156543929) in
  let z := wrap_u64 (Z.lxor z (Z.shiftr z 27) * 10723151780598845931) in
  let z := Z.lxor z (Z.shiftr z 31) in
  take 4 (to_le 8 z).

(** The client frame of RFC 6455's example: "Hello", masked. *)
Example hello_frame : let '(dst, r) := ws_write_text_frame (replicate 12 0) [72; 101; 108; 108; 111] [55; 250; 33; 61] in
  take 11 dst = [129; 133; 55; 250; 33; 61; 127; 159; 77; 81; 88] /\ r = Ok 11%nat /\
  ws_read_frame dst = Frame (mkWsFrameHeader true Text true 5 6 [55; 250; 33; 61]) (mkPayloadSpan 6 11).
Proof. vm_compute. done. Qed.

(** ** IoBuf *)

Record IoBuf := mkIoBuf { io_data : list Z; io_head : nat; io_tail : nat }.

Definition with_capacity (cap : nat) : IoBuf := mkIoBuf (replicate cap 0) 0 0.
Definition filled (b : IoBuf) : list Z := slice (io_data b) (io_head b) (io_tail b - io_head b).
Definition io_len (b : IoBuf) : nat := io_tail b - io_head b.
Definition io_is_empty (b : IoBuf) : bool := (io_tail b =? io_head b)%nat.

(** The window after [free_mut], and the slice it hands out. *)
Definition free_mut (b : IoBuf) : IoBuf :=
  if (io_tail b =? length (io_data b))%nat && (0 <? io_head b)%nat
  then mkIoBuf (write_at (io_data b) 0 (filled b)) 0 (io_tail b - io_head b)
  else b.
Definition free (b : IoBuf) : list Z := drop (io_tail b) (io_data b).
Definition set_free (b : IoBuf) (bytes : list Z) : IoBuf := mkIoBuf (write_at (io_data b) (io_tail b) bytes) (io_head b) (io_tail b).

Definition advance (b : IoBuf) (n : nat) : IoBuf := mkIoBuf (io_data b) (io_head b) (io_tail b + n).

Definition consume (b : IoBuf) (n : nat) : IoBuf :=
  let head := (io_head b + n)%nat in
  if (head =? io_tail b)%nat then mkIoBuf (io_data b) 0 0 else mkIoBuf (io_data b) head (io_tail b).

Definition io_clear (b : IoBuf) : IoBuf := mkIoBuf (io_data b) 0 0.

(** ** The framer *)

Inductive WsErr := Dns | BadEndpoint | Disconnected | Upgrade | BadFrame | Fragmented | TooLarge | Overflow | WsErr_Closed | Timeout | WsErr_Idle.

Inductive WsNext :=
| WsNext_Idle
| WsNext_Text (s : PayloadSpan)
| WsNext_Binary (s : PayloadSpan)
| WsNext_Failed (e : WsErr).

Definition next_mask (ctr : Z) : list Z * Z := let ctr := wrap_u64 (ctr + 1) in (ws_mask_from_counter ctr, ctr).

Record WsFramer := mkWsFramer { rx : IoBuf; tx : IoBuf; rx_cap : nat; mask_ctr : Z; consumed : nat }.

Definition WsFramer_new (rx_cap tx_cap : nat) (mask_seed : Z) : WsFramer :=
  mkWsFramer (with_capacity rx_cap) (with_capacity tx_cap) rx_cap mask_seed 0.

Definition set_rx (f : WsFramer) (b : IoBuf) : WsFramer := mkWsFramer b (tx f) (rx_cap f) (mask_ctr f) (consumed f).
Definition set_tx (f : WsFramer) (b : IoBuf) : WsFramer := mkWsFramer (rx f) b (rx_cap f) (mask_ctr f) (consumed f).
Definition set_mask_ctr (f : WsFramer) (c : Z) : WsFramer := mkWsFramer (rx f) (tx f) (rx_cap f) c (consumed f).
Definition set_consumed (f : WsFramer) (n : nat) : WsFramer := mkWsFramer (rx f) (tx f) (rx_cap f) (mask_ctr f) n.

Definition framer_release (f : WsFramer) : WsFramer :=
  if (consumed f =? 0)%nat then f else set_consumed (set_rx f (consume (rx f) (consumed f))) 0.

Definition rx_free_mut (f : WsFramer) : WsFramer := let f := framer_release f in set_rx f (free_mut (rx f)).
Definition rx_advance (f : WsFramer) (n : nat) : WsFramer := set_rx f (advance (rx f) n).

(** A frame written into the send window's free region: the framer it leaves
    and whether the window took it. *)
Definition send_frame (f : WsFramer) (write : list Z -> list Z * result nat WsWriteErr) : WsFramer * bool :=
  let b := free_mut (tx f) in
  let '(bytes, r) := write (free b) in
  let b := set_free b bytes in
  match r with Ok n => (set_tx f (advance b n), true) | Err _ => (set_tx f b, false) end.

Fixpoint next_loop (fuel : nat) (f : WsFramer) : WsFramer * WsNext :=
  match fuel with
  | O => (f, WsNext_Idle)
  | S fuel =>
      match ws_read_frame (filled (rx f)) with
      | Incomplete => (f, if (rx_cap f <=? io_len (rx f))%nat then WsNext_Failed TooLarge else WsNext_Idle)
      | Malformed => (f, WsNext_Failed BadFrame)
      | Frame header span =>
          if masked header then (f, WsNext_Failed BadFrame)
          else
            match opcode header with
            | Text => if fin header then (set_consumed f (span_end span), WsNext_Text span) else (f, WsNext_Failed Fragmented)
            | Binary => if fin header then (set_consumed f (span_end span), WsNext_Binary span) else (f, WsNext_Failed Fragmented)
            | Continuation => (f, WsNext_Failed Fragmented)
            | Ping =>
                let '(mask, ctr) := next_mask (mask_ctr f) in
                let f := set_mask_ctr f ctr in
                let payload := slice (filled (rx f)) (span_start span) (span_len span) in
                let '(f, took) := send_frame f (fun dst => ws_write_pong dst payload mask) in
                if took then next_loop fuel (set_rx f (consume (rx f) (span_end span))) else (f, WsNext_Failed Overflow)
            | Pong => next_loop fuel (set_rx f (consume (rx f) (span_end span)))
            | Close => (set_rx f (consume (rx f) (span_end span)), WsNext_Failed WsErr_Closed)
            end
      end
  end.

(** Every turn of the loop takes a frame off the window. *)
Definition next_frame (f : WsFramer) : WsFramer * WsNext :=
  let f := framer_release f in next_loop (S (io_len (rx f))) f.

Definition payload (f : WsFramer) (span : PayloadSpan) : list Z := slice (filled (rx f)) (span_start span) (span_len span).

Definition queue_text_with {P : Type} `{WsPart P} (f : WsFramer) (parts : list P) : WsFramer * result unit WsErr :=
  let '(mask, ctr) := next_mask (mask_ctr f) in
  let f := set_mask_ctr f ctr in
  let '(f, took) := send_frame f (fun dst => ws_write_text_frame_with dst parts mask) in
  (f, if took then Ok tt else Err Overflow).

Definition queue_text (f : WsFramer) (parts : list (list Z)) : WsFramer * result unit WsErr := queue_text_with f parts.

Definition tx_pending (f : WsFramer) : list Z := filled (tx f).
Definition tx_consume (f : WsFramer) (n : nat) : WsFramer := set_tx f (consume (tx f) n).
Definition framer_clear (f : WsFramer) : WsFramer := mkWsFramer (io_clear (rx f)) (io_clear (tx f)) (rx_cap f) (mask_ctr f) 0.

(** ** Keepalive *)

Definition ESTABLISH_BUDGET_NS : Z := 30000000000.

Definition establishment_expired (now_ns session_start_ns : Z) (confirmed_subs : nat) (budget_ns : Z) : bool :=
  (confirmed_subs =? 0)%nat && (budget_ns <=? sat_u64 (now_ns - session_start_ns)).

Record KeepaliveCfg := mkKeepaliveCfg { ping_interval_ns : Z; idle_timeout_ns : Z }.
Inductive KeepaliveAction := KeepNone | SendPing | Reconnect.
Record Keepalive := mkKeepalive { ka_cfg : KeepaliveCfg; last_ping_ns : Z }.

Definition Keepalive_new (cfg : KeepaliveCfg) : Keepalive := mkKeepalive cfg 0.
Definition Keepalive_reset (k : Keepalive) : Keepalive := mkKeepalive (ka_cfg k) 0.
Definition mark_ping_sent (k : Keepalive) (now_ns : Z) : Keepalive := mkKeepalive (ka_cfg k) now_ns.

Definition keepalive_poll (k : Keepalive) (now_ns last_activity_ns : Z) : KeepaliveAction :=
  if idle_timeout_ns (ka_cfg k) <=? sat_u64 (now_ns - last_activity_ns) then Reconnect
  else
    let anchor := if last_activity_ns <? last_ping_ns k then last_ping_ns k else last_activity_ns in
    if ping_interval_ns (ka_cfg k) <=? sat_u64 (now_ns - anchor) then SendPing else KeepNone.

Definition poll_client_heartbeat (k : Keepalive) (now_ns last_activity_ns session_start_ns : Z) : KeepaliveAction :=
  if idle_timeout_ns (ka_cfg k) <=? sat_u64 (now_ns - last_activity_ns) then Reconnect
  else
    let anchor := if last_ping_ns k =? 0 then session_start_ns else last_ping_ns k in
    if ping_interval_ns (ka_cfg k) <=? sat_u64 (now_ns - anchor) then SendPing else KeepNone.

(** ** Requests and subscriptions *)

(** [trait ReqKind]: the kinds of a venue, with the free-slot sentinel. *)
Class ReqKind (K : Type) := { ReqKind_dec :: EqDecision K; FREE : K }.

Section Tables.
Context {K : Type} `{ReqKind K}.

Record PendingReq := mkPendingReq { req_id : Z; created_at_ns : Z; req_kind : K }.
Definition PendingReq_empty : PendingReq := mkPendingReq 0 0 FREE.
Definition is_used (r : PendingReq) : bool := negb (bool_decide (req_kind r = FREE)).

Inductive PendingErr := SlotBusy | ZeroId.

(** The [N] slots, [N] a power of two. *)
Definition PendingTable : Type := list PendingReq.
Definition PendingTable_new (N : nat) : PendingTable := replicate N PendingReq_empty.
Definition slot_of (t : PendingTable) (id : Z) : nat := Z.to_nat (Z.land id (Z.of_nat (length t) - 1)).
Definition slot_at (t : PendingTable) (id : Z) : PendingReq := default PendingReq_empty (t !! slot_of t id).

Definition pending_record (t : PendingTable) (id : Z) (kind : K) (now_ns : Z) : PendingTable * result unit PendingErr :=
  if id =? 0 then (t, Err ZeroId)
  else if is_used (slot_at t id) then (t, Err SlotBusy)
  else (<[slot_of t id := mkPendingReq id now_ns kind]> t, Ok tt).

Definition pending_is_free (t : PendingTable) (id : Z) : bool := negb (id =? 0) && negb (is_used (slot_at t id)).

Definition pending_complete (t : PendingTable) (id : Z) : PendingTable * option PendingReq :=
  if id =? 0 then (t, None)
  else
    let out := slot_at t id in
    if negb (is_used out) || negb (req_id out =? id) then (t, None)
    else (<[slot_of t id := PendingReq_empty]> t, Some out).

Definition pending_count (t : PendingTable) : nat := length (List.filter is_used t).
Definition pending_clear (t : PendingTable) : PendingTable := map (fun _ => PendingReq_empty) t.

(** [SubId] is its number; [SubId::NONE] is zero. *)
Definition SubTable : Type := list (Z * K).
Inductive SubErr := Full | ReservedId.

Definition SubTable_new (N : nat) : SubTable := replicate N (0, FREE).

Fixpoint insert_from (rows : SubTable) (id : Z) (kind : K) : option SubTable :=
  match rows with
  | [] => None
  | (i, k) :: rows' => if i =? 0 then Some ((id, kind) :: rows') else option_map (cons (i, k)) (insert_from rows' id kind)
  end.

Definition sub_insert (t : SubTable) (id : Z) (kind : K) : SubTable * result unit SubErr :=
  if id =? 0 then (t, Err ReservedId)
  else match insert_from t id kind with Some t' => (t', Ok tt) | None => (t, Err Full) end.

Fixpoint kind_of (t : SubTable) (id : Z) : option K :=
  match t with [] => None | (i, k) :: t' => if i =? id then Some k else kind_of t' id end.

Definition sub_count (t : SubTable) : nat := length (List.filter (fun r => negb (fst r =? 0)) t).
Definition sub_clear (t : SubTable) : SubTable := map (fun _ => (0, FREE)) t.
End Tables.
Arguments PendingReq K : clear implicits.
Arguments PendingTable K : clear implicits.
Arguments SubTable K : clear implicits.

(** ** Masked frames into a send window *)

(** The masked frame writers of subs.rs: [write] is the frame writer they call,
    [io::Error::other] its failure. *)
Definition queue_masked (b : IoBuf) (mask_counter : Z) (write : list Z -> list Z -> list Z * result nat WsWriteErr) : IoBuf * Z * result unit WsWriteErr :=
  let mask := ws_mask_from_counter mask_counter in
  let mask_counter := wrap_u64 (mask_counter + 1) in
  let b := free_mut b in
  let '(bytes, r) := write (free b) mask in
  let b := set_free b bytes in
  match r with Ok n => (advance b n, mask_counter, Ok tt) | Err e => (b, mask_counter, Err e) end.

Definition queue_masked_binary_frame_parts (b : IoBuf) (ctr : Z) (parts : list (list Z)) := queue_masked b ctr (fun dst mask => ws_write_binary_frame_parts dst parts mask).
Definition queue_masked_binary_frame (b : IoBuf) (ctr : Z) (p : list Z) := queue_masked_binary_frame_parts b ctr [p].
Definition queue_masked_text_frame_parts (b : IoBuf) (ctr : Z) (parts : list (list Z)) := queue_masked b ctr (fun dst mask => ws_write_text_frame_parts dst parts mask).
Definition queue_masked_text_frame (b : IoBuf) (ctr : Z) (p : list Z) := queue_masked_text_frame_parts b ctr [p].
Definition queue_masked_text_frame_rendered (b : IoBuf) (ctr : Z) (render : WsPayload -> WsPayload * result unit WsWriteErr) :=
  queue_masked b ctr (fun dst mask => ws_write_text_frame_rendered dst mask render).
