(* ===== verification/WsProofs.v ===== *)
(** * Frames are read back as they were written

    The strided mask is the bytewise one and its own inverse; every writer
    leaves the same frame; the reader's verdict is final: no later byte changes
    it, and it is reached at the frame's last byte. *)

From S2P Require Import Prelude AmmU256 AmmLimbs AmmTick AmmPayload AmmPayloadProofs WsFrame.

#[local] Open Scope machine_scope.

(** ** Lists written in place *)

Lemma write_at_app a b c bs : length b = length bs -> write_at (a ++ b ++ c) (length a) bs = a ++ bs ++ c.
Proof.
  intros H. unfold write_at. rewrite take_app_length, <- H, <- drop_drop, drop_app_length. by rewrite drop_app_length.
Qed.

Lemma write_at_length dst at_ bs : (at_ + length bs <= length dst)%nat -> length (write_at dst at_ bs) = length dst.
Proof. intros H. unfold write_at. rewrite !length_app, length_take, length_drop. lia. Qed.

Lemma slice_app a b c : slice (a ++ b ++ c) (length a) (length b) = b.
Proof. unfold slice. by rewrite drop_app_length, take_app_length. Qed.

(** A buffer around the span of [n] bytes at [i]. *)
Lemma around (l : list Z) i n : (i + n <= length l)%nat -> exists a b c, l = a ++ b ++ c /\ length a = i /\ length b = n.
Proof.
  intros H. exists (take i l), (take n (drop i l)), (drop n (drop i l)). rewrite !take_drop. split_and!; [done|rewrite length_take; lia|rewrite length_take, length_drop; lia].
Qed.

(** ** The mask *)

Fixpoint mask_from (mask : list Z) (k : nat) (l : list Z) : list Z :=
  match l with [] => [] | b :: l' => Z.lxor b (get mask (k mod 4)) :: mask_from mask (S k) l' end.

Lemma mask_from_length m k l : length (mask_from m k l) = length l.
Proof. revert k. induction l as [|b l IH]; intros k; cbn; [done|by rewrite IH]. Qed.

Lemma mask_from_app m k a b : mask_from m k (a ++ b) = mask_from m k a ++ mask_from m (k + length a) b.
Proof. revert k. induction a as [|x a IH]; intros k; cbn; [by rewrite Nat.add_0_r|]. by rewrite IH, Nat.add_succ_r. Qed.

Lemma mask_from_cycle m k j l : (k mod 4 = j mod 4)%nat -> mask_from m k l = mask_from m j l.
Proof.
  revert k j. induction l as [|b l IH]; intros k j E; cbn [mask_from]; [done|]. rewrite E. f_equal. apply IH.
  change (S k) with (1 + k)%nat. change (S j) with (1 + j)%nat. by rewrite (Nat.Div0.add_mod 1 k), (Nat.Div0.add_mod 1 j), E.
Qed.

Lemma mask_from_again m k l : mask_from m k (mask_from m k l) = l.
Proof. revert k. induction l as [|b l IH]; intros k; cbn; [done|]. by rewrite IH, Z.lxor_assoc, Z.lxor_nilpotent, Z.lxor_0_r. Qed.

Lemma lxor_step b c x y : byte b -> byte c -> Z.lxor (b + 256 * x) (c + 256 * y) mod 256 = Z.lxor b c /\ Z.lxor (b + 256 * x) (c + 256 * y) / 256 = Z.lxor x y.
Proof.
  unfold byte. intros Hb Hc. assert (forall u, u mod 256 = Z.land u (Z.ones 8)) as M by (intros u; by rewrite Z.land_ones).
  assert (forall u, u / 256 = Z.shiftr u 8) as S by (intros u; by rewrite Z.shiftr_div_pow2). split.
  - assert (forall u v w, Z.land (Z.lxor u v) w = Z.lxor (Z.land u w) (Z.land v w)) as D.
    { intros u v w. apply Z.bits_inj'. intros n _. rewrite Z.land_spec, !Z.lxor_spec, !Z.land_spec. by destruct (Z.testbit u n), (Z.testbit v n), (Z.testbit w n). }
    rewrite M, D, <- !M. f_equal; rewrite (Z.mul_comm 256), Z.mod_add, Z.mod_small by lia; done.
  - rewrite S, Z.shiftr_lxor, <- !S. f_equal; rewrite (Z.mul_comm 256), Z.div_add, Z.div_small by lia; lia.
Qed.

Lemma lxor_words a b : length a = length b -> Forall byte a -> Forall byte b -> to_le (length a) (Z.lxor (from_le a) (from_le b)) = zip_with Z.lxor a b.
Proof.
  revert b. induction a as [|x a IH]; intros [|y b] L Fa Fb; [done..|]. apply Forall_cons in Fa as [Hx Fa]. apply Forall_cons in Fb as [Hy Fb].
  cbn [length to_le from_le zip_with]. destruct (lxor_step x y (from_le a) (from_le b) Hx Hy) as [-> ->]. f_equal. apply IH; [by injection L|done..].
Qed.

Section Mask.
Context (m : list Z) (Hm : length m = 4%nat) (Fm : Forall byte m).

Definition mask8 : list Z := [get m 0; get m 1; get m 2; get m 3; get m 0; get m 1; get m 2; get m 3].

Lemma mask8_bytes : Forall byte mask8.
Proof using Hm Fm.
  assert (forall i, (i < 4)%nat -> byte (get m i)) as G; [|unfold mask8; repeat constructor; apply G; lia].
  intros i Hi. destruct (lookup_lt_is_Some_2 m i ltac:(lia)) as [x E]. unfold get. rewrite E. cbn. rewrite Forall_lookup in Fm. by eapply Fm.
Qed.

(** Eight bytes at once, where the mask starts over. *)
Lemma mask_word k w : length w = 8%nat -> Forall byte w -> (k mod 4 = 0)%nat -> to_le 8 (Z.lxor (from_le w) (from_le mask8)) = mask_from m k w.
Proof using Hm Fm.
  intros L F K. pose proof (lxor_words w mask8 L F mask8_bytes) as E. rewrite L in E. rewrite E.
  rewrite (mask_from_cycle m k 0 w) by done. do 8 (destruct w as [|? w]; [done|]). destruct w; [|done]. done.
Qed.

Lemma unmask_words_spec fuel p l : (length l <= fuel)%nat -> Forall byte l -> (length p mod 4 = 0)%nat ->
  exists a r, l = a ++ r /\ unmask_words fuel (from_le mask8) (p ++ l) (length p) = (p ++ mask_from m (length p) a ++ r, (length p + length a)%nat).
Proof using Hm Fm.
  revert p l. induction fuel as [|fuel IH]; intros p l Hf F K.
  { exists [], l. split; [done|]. cbn. by rewrite Nat.add_0_r. }
  cbn [unmask_words]. rewrite length_app. destruct (Nat.leb_spec (length p + 8) (length p + length l)) as [H|H].
  2:{ exists [], l. split; [done|]. cbn. by rewrite Nat.add_0_r. }
  destruct (around l 0 8 ltac:(lia)) as (e & w & l' & -> & He & Hw). destruct e; [|done]. cbn [app] in *. apply Forall_app in F as [Fw Fl].
  assert (slice (p ++ w ++ l') (length p) 8 = w) as -> by (rewrite <- Hw; apply slice_app). rewrite (mask_word (length p) w Hw Fw K). rewrite write_at_app by (by rewrite mask_from_length).
  replace (length p + 8)%nat with (length (p ++ mask_from m (length p) w)) by (rewrite length_app, mask_from_length; lia). rewrite app_assoc.
  rewrite length_app in Hf. destruct (IH (p ++ mask_from m (length p) w) l' ltac:(lia) Fl) as (a & r & -> & ->).
  { rewrite length_app, mask_from_length, Hw, Nat.Div0.add_mod, K. done. }
  exists (w ++ a), r. split; [by rewrite app_assoc|]. rewrite mask_from_app, !length_app, mask_from_length, <- !app_assoc. f_equal. lia.
Qed.

Lemma unmask_tail_spec fuel p l : (length l <= fuel)%nat -> unmask_tail fuel m (p ++ l) (length p) = p ++ mask_from m (length p) l.
Proof using Hm.
  revert p l. induction fuel as [|fuel IH]; intros p l Hf; [destruct l; [done|cbn in Hf; lia]|]. cbn [unmask_tail]. rewrite length_app.
  destruct l as [|b l]; [by rewrite (proj2 (Nat.ltb_ge _ _)) by (cbn; lia)|]. rewrite (proj2 (Nat.ltb_lt _ _)) by (cbn; lia).
  assert (get (p ++ b :: l) (length p) = b) as -> by (unfold get; by rewrite list_lookup_middle). rewrite insert_app_r_alt by lia. rewrite Nat.sub_diag.
  assert (Z.to_nat (Z.land (Z.of_nat (length p)) 3) = length p mod 4)%nat as ->.
  { change 3 with (Z.ones 2). rewrite Z.land_ones by lia. change (2 ^ 2) with (Z.of_nat 4). rewrite <- Nat2Z.inj_mod. lia. }
  cbn [insert list_insert mask_from]. set (x := Z.lxor b _). replace (p ++ x :: l) with ((p ++ [x]) ++ l) by (by rewrite <- app_assoc).
  replace (S (length p)) with (length (p ++ [x])) by (rewrite length_app; cbn; lia). rewrite IH by (cbn in Hf; lia). by rewrite <- app_assoc.
Qed.

(** The strided loop is the bytewise mask. *)
Lemma ws_unmask_spec buf : Forall byte buf -> ws_unmask_in_place buf m = mask_from m 0 buf.
Proof using Hm Fm.
  intros F. unfold ws_unmask_in_place. fold mask8. destruct (unmask_words_spec (length buf) [] buf ltac:(lia) F eq_refl) as (a & r & -> & E).
  cbn [app length] in E. rewrite E. cbn [app Nat.add]. replace (length a) with (length (mask_from m 0 a)) at 1 by apply mask_from_length.
  rewrite unmask_tail_spec by (rewrite !length_app, ?mask_from_length; lia). by rewrite mask_from_app, mask_from_length.
Qed.
End Mask.

Lemma mask_from_bytes m k l : Forall byte m -> Forall byte l -> Forall byte (mask_from m k l).
Proof.
  intros Fm F. revert k. induction F as [|b l Hb F IH]; intros k; cbn [mask_from]; constructor; [|apply IH].
  assert (byte (get m (k mod 4))) as Hc.
  { unfold get. destruct (m !! (k mod 4)%nat) as [c|] eqn:E; [|done]. rewrite Forall_lookup in Fm. by apply (Fm _ _ E). }
  destruct (lxor_step b (get m (k mod 4)) 0 0 Hb Hc) as [<- _]. apply Z.mod_pos_bound. lia.
Qed.

(** ** The client header *)

Definition len_bytes (plen : nat) : list Z :=
  if (plen <=? 125)%nat then [128 + Z.of_nat plen]
  else if Z.of_nat plen <=? u16_max then 254 :: to_be 2 (Z.of_nat plen)
  else 255 :: to_be 8 (Z.of_nat plen).

Definition header_bytes (o : WsOpcode) (plen : nat) (m : list Z) : list Z := (128 + opcode_byte o) :: len_bytes plen ++ m.

(** A client frame, whole. *)
Definition frame_bytes (o : WsOpcode) (payload m : list Z) : list Z := header_bytes o (length payload) m ++ mask_from m 0 payload.

Lemma to_be_length n z : length (to_be n z) = n.
Proof. unfold to_be. rewrite length_rev. apply to_le_bytes. Qed.

Lemma len_bytes_length plen : S (length (len_bytes plen)) = (client_header_len plen - 4)%nat.
Proof. unfold len_bytes, client_header_len. destruct (_ <=? 125)%nat; [done|]. destruct (_ <=? u16_max); cbn [length]; by rewrite to_be_length. Qed.

Lemma header_bytes_length o plen m : length m = 4%nat -> length (header_bytes o plen m) = client_header_len plen.
Proof.
  intros Hm. unfold header_bytes. cbn [length]. rewrite length_app, Hm. pose proof (len_bytes_length plen).
  assert (6 <= client_header_len plen)%nat by (unfold client_header_len; destruct (_ <=? 125)%nat; [|destruct (_ <=? u16_max)]; lia). lia.
Qed.

Lemma lor_high x : 0 <= x < 128 -> Z.lor 128 x = 128 + x.
Proof. intros H. change 128 with (1 * 2 ^ 7) at 1. rewrite lor_low_high by lia. lia. Qed.

Lemma opcode_range o : 0 <= opcode_byte o < 16.
Proof. destruct o; cbn; lia. Qed.

(** The header goes down at the head of the buffer and nowhere else. *)
Lemma write_client_header_spec b c o plen m : length m = 4%nat -> length b = client_header_len plen -> Z.of_nat plen <= u64_max ->
  write_client_header (b ++ c) o plen m = (header_bytes o plen m ++ c, client_header_len plen).
Proof.
  intros Hm Hb Hp. pose proof (opcode_range o) as Ho. unfold write_client_header, header_bytes, len_bytes, client_header_len in *.
  destruct b as [|b0 b]; [by destruct (_ <=? 125)%nat; [|destruct (_ <=? u16_max)]|]. destruct b as [|b1 b]; [by destruct (_ <=? 125)%nat; [|destruct (_ <=? u16_max)]|].
  rewrite (lor_high (opcode_byte o)) by lia. cbn [app length insert list_insert] in *. set (x0 := 128 + opcode_byte o).
  destruct (Nat.leb_spec plen 125).
  - rewrite Z.mod_small, lor_high by lia. f_equal. apply (write_at_app [x0; 128 + Z.of_nat plen] b c m). lia.
  - assert (forall n bs, length bs = n -> length b = (n + 4)%nat -> forall x1, write_at (write_at (x0 :: x1 :: b ++ c) 2 bs) (2 + n) m = x0 :: x1 :: bs ++ m ++ c) as G.
    { intros n bs Hn Hl x1. destruct (around b 0 n ltac:(lia)) as (e & d & r & -> & He & Hd). destruct e; [|done]. rewrite !length_app in Hl. cbn [app length] in *.
      rewrite <- app_assoc. pose proof (write_at_app [x0; x1] d (r ++ c) bs ltac:(lia)) as E. cbn [app length] in E. rewrite E. subst n. exact (write_at_app (x0 :: x1 :: bs) r c m ltac:(lia)). }
    destruct (Z.leb_spec (Z.of_nat plen) u16_max).
    + unfold wrap_u16, u16_max in *. rewrite Z.mod_small by lia. f_equal. rewrite (G 2%nat) by (apply to_be_length || lia). cbn [app]. by rewrite <- app_assoc.
    + unfold wrap_u64, u64_max in *. rewrite Z.mod_small by lia. f_equal. rewrite (G 8%nat) by (apply to_be_length || lia). cbn [app]. by rewrite <- app_assoc.
Qed.

(** ** Parts that render themselves *)

(** A part writes its bytes over its slice, whatever was there. *)
Class LawfulPart (P : Type) `{WsPart P} := {
  part_bytes : P -> list Z;
  part_len_law : forall p, part_len p = length (part_bytes p);
  write_to_law : forall p s, length s = part_len p -> write_to p s = (part_bytes p, part_len p)
}.

#[export] Instance LawfulPart_bytes : LawfulPart (list Z).
Proof. refine {| part_bytes := fun p => p |}; done. Defined.

Section Parts.
Context {P : Type} `{LawfulPart P}.

Definition payload_of (parts : list P) : list Z := concat (map part_bytes parts).

Lemma parts_len_spec parts : parts_len parts = length (payload_of parts).
Proof.
  unfold parts_len. assert (forall n, foldl (fun n p => n + part_len p)%nat n parts = (n + length (payload_of parts))%nat) as G; [|apply G].
  induction parts as [|p ps IH]; intros n; cbn; [lia|]. rewrite IH, part_len_law. unfold payload_of. rewrite length_app. lia.
Qed.

Lemma write_parts_spec a b c parts : length b = parts_len parts -> write_parts (a ++ b ++ c) (length a) parts = a ++ payload_of parts ++ c.
Proof.
  rewrite parts_len_spec. revert a b. induction parts as [|p ps IH]; intros a b Hb; cbn [write_parts].
  - destruct b; [done|cbn in Hb; lia].
  - unfold payload_of in *. cbn [map concat] in *. rewrite length_app in Hb.
    destruct (around b 0 (length (part_bytes p)) ltac:(lia)) as (e & d & r & -> & He & Hd). destruct e; [|done]. cbn [app] in *. rewrite length_app in Hb.
    rewrite part_len_law, <- Hd, <- app_assoc, slice_app, write_to_law by (by rewrite part_len_law). rewrite write_at_app by done.
    rewrite Hd. replace (length a + length (part_bytes p))%nat with (length (a ++ part_bytes p)) by apply length_app. rewrite app_assoc.
    rewrite IH by lia. by rewrite <- !app_assoc.
Qed.

(** The serialiser leaves the frame of its parts' bytes at the head of the
    buffer, or nothing when the buffer is too small. *)
Lemma ws_write_frame_with_spec dst o parts m : length m = 4%nat -> Forall byte m -> Forall byte (payload_of parts) -> Z.of_nat (length dst) <= u64_max ->
  let f := frame_bytes o (payload_of parts) m in
  ws_write_frame_with dst o parts m = if (length dst <? length f)%nat then (dst, Err BufferTooSmall) else (f ++ drop (length f) dst, Ok (length f)).
Proof.
  intros Hm Fm Fp Hd. cbv zeta. unfold ws_write_frame_with. rewrite parts_len_spec. set (w := payload_of parts) in *.
  assert (length (frame_bytes o w m) = (client_header_len (length w) + length w)%nat) as Lf.
  { unfold frame_bytes. by rewrite length_app, header_bytes_length, mask_from_length. }
  rewrite Lf. destruct (Nat.ltb_spec (length dst) (client_header_len (length w) + length w)) as [|L]; [done|].
  destruct (around dst 0 (client_header_len (length w)) ltac:(lia)) as (e & h & r & -> & He & Hh). destruct e; [|done]. cbn [app] in *.
  rewrite length_app in *. destruct (around r 0 (length w) ltac:(lia)) as (e & b & c & -> & He' & Hb). destruct e; [|done]. cbn [app] in *.
  rewrite write_client_header_spec by (done || lia). rewrite <- (header_bytes_length o (length w) m Hm). set (hb := header_bytes o (length w) m).
  assert (length b = parts_len parts) as Hbp by (by rewrite parts_len_spec). rewrite (write_parts_spec hb b c parts Hbp). fold w.
  rewrite slice_app, write_at_app by (by rewrite (ws_unmask_spec m Hm Fm), mask_from_length). rewrite (ws_unmask_spec m Hm Fm) by done.
  unfold frame_bytes. fold hb. rewrite <- app_assoc. do 3 f_equal. replace (length hb) with (length h) by (subst hb; by rewrite header_bytes_length).
  by rewrite <- Hb, app_assoc, <- length_app, drop_app_length.
Qed.
End Parts.

(** ** Reading a written frame *)

Lemma from_be_to_be n z : from_be (to_be n z) = z mod 256 ^ Z.of_nat n.
Proof. unfold from_be, to_be. by rewrite rev_involutive, from_le_to_le. Qed.

Lemma take_to_be n z r : take n (to_be n z ++ r) = to_be n z.
Proof. rewrite <- (to_be_length n z) at 1. apply take_app_length. Qed.

Lemma len_byte p : 0 <= p < 128 -> Z.land (128 + p) 128 = 128 /\ Z.land (128 + p) 127 = p.
Proof.
  intros H. assert (forallb (fun p => (Z.land (128 + p) 128 =? 128) && (Z.land (128 + p) 127 =? p)) (seqZ 0 128) = true) as A by (vm_compute; reflexivity).
  rewrite forallb_forall in A. rewrite <- !Z.eqb_eq, <- andb_true_iff. apply (A p), list_elem_of_In, elem_of_seqZ. lia.
Qed.

Lemma get_app_l (a b : list Z) i : (i < length a)%nat -> get (a ++ b) i = get a i.
Proof. intros H. unfold get. by rewrite lookup_app_l. Qed.

Lemma opcode_bits o : Z.land (128 + opcode_byte o) 128 = 128 /\ Z.land (128 + opcode_byte o) 112 = 0 /\
  from_nibble (Z.land (128 + opcode_byte o) 15) = Some o.
Proof. by destruct o. Qed.

Lemma top_byte plen : Z.of_nat plen < 2 ^ 63 -> Z.land (get (to_be 8 (Z.of_nat plen)) 0) 128 = 0.
Proof.
  intros H. set (z := Z.of_nat plen) in *. assert (0 <= z) by (subst z; lia). clearbody z. unfold to_be.
  change (get (rev (to_le 8 z)) 0) with (z / 256 / 256 / 256 / 256 / 256 / 256 / 256 mod 256). rewrite !Z.div_div by lia.
  set (t := z / _). assert (0 <= t < 128) as Ht.
  { subst t. split; [apply Z.div_pos; lia|]. apply Z.div_lt_upper_bound; [lia|]. change (256 * (256 * (256 * (256 * (256 * (256 * 256)))))) with (2 ^ 56). lia. }
  rewrite Z.mod_small by lia. apply Z.eqb_eq. rewrite high_bit by (unfold byte; lia). lia.
Qed.

(** What the reader takes of the length bytes and the mask after them. *)
Lemma read_len_bytes o plen m r : Z.of_nat plen < 2 ^ 63 ->
  let buf := header_bytes o plen m ++ r in
  Z.land (get buf 1) 128 = 128 /\ read_len buf (Z.land (get buf 1) 127) = inl (Z.of_nat plen, (client_header_len plen - 4)%nat).
Proof.
  intros Hp. cbv zeta. unfold header_bytes, len_bytes, client_header_len. destruct (Nat.leb_spec plen 125).
  - cbn [app]. change (get _ 1) with (128 + Z.of_nat plen). destruct (len_byte (Z.of_nat plen) ltac:(lia)) as [-> ->]. split; [done|].
    unfold read_len. rewrite (proj2 (Z.leb_le _ _)) by lia. done.
  - destruct (Z.leb_spec (Z.of_nat plen) u16_max) as [Hs|Hs].
    + cbn [app]. change (get _ 1) with 254. split; [done|]. change (Z.land 254 127) with 126. unfold read_len. change (126 <=? 125) with false. change (126 =? 126) with true. cbv iota.
      cbn [length app]. rewrite !length_app, to_be_length. cbn [Nat.ltb Nat.leb Nat.add]. unfold slice. cbn [drop]. rewrite drop_0.
      rewrite <- !app_assoc, take_to_be, from_be_to_be. unfold u16_max in Hs. rewrite Z.mod_small by (change (256 ^ Z.of_nat 2) with 65536; lia). done.
    + cbn [app]. change (get _ 1) with 255. split; [done|]. change (Z.land 255 127) with 127. unfold read_len. change (127 <=? 125) with false. change (127 =? 126) with false. cbv iota.
      cbn [length app]. rewrite !length_app, to_be_length. cbn [Nat.ltb Nat.leb Nat.add].
      change (get (?x :: ?y :: ?t) 2) with (get t 0). rewrite <- !app_assoc, get_app_l by (rewrite to_be_length; lia). rewrite (top_byte plen Hp). cbn [Z.eqb negb].
      unfold slice. cbn [drop]. rewrite drop_0. rewrite take_to_be, from_be_to_be.
      rewrite Z.mod_small by (change (256 ^ Z.of_nat 8) with (2 ^ 64); lia). done.
Qed.

Lemma read_written o w m rest : length m = 4%nat -> Z.of_nat (length w) < 2 ^ 63 -> (is_control o = true -> (length w <= 125)%nat) ->
  let hdr := client_header_len (length w) in
  ws_read_frame (frame_bytes o w m ++ rest) = Frame (mkWsFrameHeader true o true (Z.of_nat (length w)) (Z.of_nat hdr) m) (mkPayloadSpan hdr (hdr + length w)).
Proof.
  intros Hm Hp Hc. cbv zeta. unfold frame_bytes. rewrite <- app_assoc. set (r := mask_from m 0 w ++ rest). destruct (read_len_bytes o (length w) m r Hp) as [E1 E2]. cbv zeta in *.
  pose proof (header_bytes_length o (length w) m Hm) as Lh. set (hdr := client_header_len (length w)) in *.
  assert (6 <= hdr <= 14)%nat as Bh by (subst hdr; unfold client_header_len; destruct (_ <=? 125)%nat; [|destruct (_ <=? u16_max)]; lia).
  unfold ws_read_frame. set (buf := header_bytes o (length w) m ++ r) in *.
  assert (hdr + length w <= length buf)%nat as Lb by (subst buf r; rewrite !length_app, mask_from_length, Lh; lia).
  rewrite (proj2 (Nat.ltb_ge _ _)) by lia. assert (get buf 0 = 128 + opcode_byte o) as -> by done. destruct (opcode_bits o) as (-> & -> & ->).
  cbn [Z.eqb negb andb]. rewrite andb_false_r, E1, E2. cbn [Z.eqb negb andb].
  assert (is_control o && (125 <? Z.of_nat (length w)) = false) as -> by (destruct (is_control o); [specialize (Hc eq_refl); apply Z.ltb_ge; lia|done]).
  replace (hdr - 4 + 4)%nat with hdr by lia. rewrite (proj2 (Nat.ltb_ge _ _)) by lia. rewrite (proj2 (Z.ltb_ge u64_max _)) by (unfold u64_max; lia).
  rewrite (proj2 (Z.ltb_ge _ _)) by lia. assert (slice buf (hdr - 4) 4 = m) as ->.
  { subst buf. unfold header_bytes, slice. pose proof (len_bytes_length (length w)) as Ll. fold hdr in Ll. rewrite <- Ll. cbn [app drop].
    rewrite <- app_assoc, drop_app_length, <- Hm. apply take_app_length. }
  do 2 f_equal. lia.
Qed.

(** ** The reader's verdicts are final *)

Lemma slice_app_l (a b : list Z) i n : (i + n <= length a)%nat -> slice (a ++ b) i n = slice a i n.
Proof. intros H. unfold slice. rewrite drop_app_le by lia. by rewrite take_app_le by (rewrite length_drop; lia). Qed.

Lemma read_len_more buf more c : read_len buf c <> inr Incomplete -> read_len (buf ++ more) c = read_len buf c.
Proof.
  unfold read_len. rewrite length_app. destruct (c <=? 125); [done|]. destruct (c =? 126).
  - destruct (Nat.ltb_spec (length buf) 4); [done|]. intros _. rewrite (proj2 (Nat.ltb_ge _ _)) by lia. by rewrite slice_app_l by lia.
  - destruct (Nat.ltb_spec (length buf) 10); [done|]. intros _. rewrite (proj2 (Nat.ltb_ge _ _)) by lia. by rewrite get_app_l, slice_app_l by lia.
Qed.

Lemma read_len_inl buf c l cur : (2 <= length buf)%nat -> read_len buf c = inl (l, cur) -> (cur = 2 \/ cur = 4 \/ cur = 10)%nat /\ (cur <= length buf)%nat.
Proof.
  intros H2. unfold read_len. destruct (c <=? 125); [intros [= _ <-]; lia|]. destruct (c =? 126).
  - destruct (Nat.ltb_spec (length buf) 4); [done|]. intros [= _ <-]. lia.
  - destruct (Nat.ltb_spec (length buf) 10); [done|]. destruct (negb _); [done|]. intros [= _ <-]. lia.
Qed.

Lemma read_more buf more : ws_read_frame buf <> Incomplete -> ws_read_frame (buf ++ more) = ws_read_frame buf.
Proof.
  unfold ws_read_frame. rewrite length_app. destruct (Nat.ltb_spec (length buf) 2) as [|H2]; [done|]. rewrite (proj2 (Nat.ltb_ge _ _)) by lia.
  cbv zeta. rewrite !get_app_l by lia. destruct (negb _); [done|]. destruct (from_nibble _) as [o|]; [|done]. destruct (_ && _); [done|].
  destruct (read_len buf (Z.land (get buf 1) 127)) as [[l cur]|v] eqn:E.
  2:{ intros Hv. rewrite read_len_more by (rewrite E; congruence). by rewrite E. }
  rewrite read_len_more by (by rewrite E). rewrite E. destruct (read_len_inl _ _ _ _ H2 E) as [_ Hc]. destruct (_ && _); [done|].
  destruct (negb (Z.land (get buf 1) 128 =? 0)); cbn [andb].
  - destruct (Nat.ltb_spec (length buf) (cur + 4)); [done|]. rewrite (proj2 (Nat.ltb_ge _ _)) by lia. rewrite slice_app_l by lia.
    destruct (_ <? _); [done|]. destruct (Z.ltb_spec (Z.of_nat (length buf)) (Z.of_nat (cur + 4) + l)); [done|]. by rewrite (proj2 (Z.ltb_ge _ _)) by lia.
  - destruct (_ <? _); [done|]. destruct (Z.ltb_spec (Z.of_nat (length buf)) (Z.of_nat cur + l)); [done|]. by rewrite (proj2 (Z.ltb_ge _ _)) by lia.
Qed.

(** What a frame that is read tells of itself. *)
Record frame_ok (buf : list Z) (h : WsFrameHeader) (s : PayloadSpan) : Prop := {
  fo_start : header_len h = Z.of_nat (span_start s) /\ (2 <= span_start s <= 14)%nat;
  fo_span : Z.of_nat (span_end s) = Z.of_nat (span_start s) + payload_len h /\ 0 <= payload_len h;
  fo_inside : (span_end s <= length buf)%nat;
  fo_control : is_control (opcode h) = true -> fin h = true /\ payload_len h <= 125;
  fo_mask : length (mask h) = 4%nat
}.

Lemma read_len_nonneg buf c l cur : Forall byte buf -> 0 <= c -> read_len buf c = inl (l, cur) -> 0 <= l.
Proof.
  intros F Hc. assert (forall i n, 0 <= from_be (slice buf i n)) as G.
  { intros i n. assert (Forall byte (rev (slice buf i n))) as Fr by (rewrite rev_alt; unfold slice; rewrite <- rev_alt; apply Forall_rev; by apply Forall_take, Forall_drop).
    apply (from_le_bound _ Fr). }
  unfold read_len. destruct (c <=? 125); [intros [= <- _]; done|]. destruct (c =? 126).
  - destruct (_ <? _)%nat; [done|]. intros [= <- _]. apply G.
  - destruct (_ <? _)%nat; [done|]. destruct (negb _); [done|]. intros [= <- _]. apply G.
Qed.

Lemma read_frame_ok buf h s : Forall byte buf -> ws_read_frame buf = Frame h s -> frame_ok buf h s.
Proof.
  intros F. unfold ws_read_frame. destruct (Nat.ltb_spec (length buf) 2) as [|H2]; [done|]. cbv zeta. destruct (negb (Z.land _ 112 =? 0)); [done|].
  destruct (from_nibble _) as [o|]; [|done]. destruct (is_control o && negb (negb (Z.land (get buf 0) 128 =? 0))) eqn:C1; [done|].
  destruct (read_len buf (Z.land (get buf 1) 127)) as [[l cur]|v] eqn:E.
  2:{ intros ->. unfold read_len in E. repeat case_match; congruence. }
  destruct (read_len_inl _ _ _ _ H2 E) as [Hcur Hc]. assert (0 <= l) as Hl by (apply (read_len_nonneg buf _ l cur F) in E; [done|rewrite low_bits; apply Z.mod_pos_bound; lia]).
  destruct (is_control o && (125 <? l)) eqn:C2; [done|]. set (mk := negb (Z.land (get buf 1) 128 =? 0)). destruct (mk && (length buf <? cur + 4)%nat) eqn:C3; [done|].
  destruct (u64_max <? _) eqn:C4; [done|]. destruct (Z.ltb_spec (Z.of_nat (length buf)) (Z.of_nat (if mk then (cur + 4)%nat else cur) + l)); [done|]. intros [= <- <-].
  assert (mk = true -> (cur + 4 <= length buf)%nat) as Hk by (intros ->; by apply Nat.ltb_ge in C3).
  split; cbn.
  - split; [done|]. destruct mk; lia.
  - lia.
  - lia.
  - intros Ho. rewrite Ho in C1, C2. cbn in C1, C2. apply negb_false_iff in C1. apply Z.ltb_ge in C2. done.
  - destruct mk; [|done]. unfold slice. rewrite length_take, length_drop. specialize (Hk eq_refl). lia.
Qed.

Lemma frame_bytes_length o w m : length m = 4%nat -> length (frame_bytes o w m) = (client_header_len (length w) + length w)%nat.
Proof. intros Hm. unfold frame_bytes. by rewrite length_app, header_bytes_length, mask_from_length. Qed.

(** C38. Every client frame is read back. Whatever parts render the payload,
    the writer refuses exactly the buffers too small for the frame, leaving
    them untouched; otherwise it changes nothing past the frame, and the
    reader, with any bytes after it, returns its opcode, length, mask and
    span, where the in-place unmasking restores the payload. *)
Theorem frames_round_trip {P} `{LawfulPart P} dst o (parts : list P) m :
  let w := payload_of parts in let hdr := client_header_len (length w) in
  length m = 4%nat -> Forall byte m -> Forall byte w -> Z.of_nat (length dst) <= u64_max -> Z.of_nat (length w) < 2 ^ 63 ->
  (is_control o = true -> (length w <= 125)%nat) ->
  let '(dst', r) := ws_write_frame_with dst o parts m in
  match r with
  | Err e => e = BufferTooSmall /\ dst' = dst /\ (length dst < hdr + length w)%nat
  | Ok n => n = (hdr + length w)%nat /\ length dst' = length dst /\ drop n dst' = drop n dst /\
      (forall rest, ws_read_frame (take n dst' ++ rest) =
         Frame (mkWsFrameHeader true o true (Z.of_nat (length w)) (Z.of_nat hdr) m) (mkPayloadSpan hdr n)) /\
      ws_unmask_in_place (slice dst' hdr (length w)) m = w
  end.
Proof.
  intros w hdr Hm Fm Fw Hd Hw Hc. rewrite ws_write_frame_with_spec by done. fold w. cbv zeta. pose proof (frame_bytes_length o w m Hm) as L. fold hdr in L.
  destruct (Nat.ltb_spec (length dst) (length (frame_bytes o w m))) as [S|S]; [split_and!; [done|done|lia]|].
  split_and!; [done|rewrite length_app, length_drop; lia|apply drop_app_length| |].
  - intros rest. rewrite take_app_length, L. by apply read_written.
  - unfold frame_bytes, slice. rewrite <- app_assoc. assert (hdr = length (header_bytes o (length w) m)) as -> by (by rewrite header_bytes_length).
    rewrite drop_app_length. replace (length w) with (length (mask_from m 0 w)) by apply mask_from_length. rewrite take_app_length.
    rewrite (ws_unmask_spec m Hm Fm) by (by apply mask_from_bytes). apply mask_from_again.
Qed.

(** The reader's verdict is final and timely: bytes that arrive later change
    neither a frame nor a refusal; a frame is reported at its last byte and
    every shorter reading of it asks for more; and the frame lies inside the
    buffer, its header is two to fourteen bytes, and a control frame is whole
    and at most 125 bytes. *)
Theorem verdicts_are_final buf more : Forall byte buf ->
  (ws_read_frame buf <> Incomplete -> ws_read_frame (buf ++ more) = ws_read_frame buf) /\
  (forall h s, ws_read_frame buf = Frame h s -> frame_ok buf h s /\ forall n, (n < span_end s)%nat -> ws_read_frame (take n buf) = Incomplete).
Proof.
  intros F. split; [apply read_more|]. intros h s E. split; [by apply read_frame_ok|]. intros n Hn.
  destruct (ws_read_frame (take n buf)) as [|h' s'|] eqn:En; [done| |];
    pose proof (read_more (take n buf) (drop n buf)) as M; rewrite take_drop, E, En in M; specialize (M ltac:(done)); [|done].
  injection M as <- <-. pose proof (fo_inside _ _ _ (read_frame_ok (take n buf) h s ltac:(by apply Forall_take) En)) as I. rewrite length_take in I. lia.
Qed.

(** ** The other writers leave the same frame *)

(** A render that puts a list of slices, stopping at the first refusal. *)
Fixpoint puts (ps : list (list Z)) (p : WsPayload) : WsPayload * result unit WsWriteErr :=
  match ps with
  | [] => (p, Ok tt)
  | b :: ps' => match put p b with (p', Ok _) => puts ps' p' | (p', Err e) => (p', Err e) end
  end.

Lemma puts_counting ps d n : puts ps (mkWsPayload d n true) = (mkWsPayload d (n + length (concat ps)) true, Ok tt).
Proof. revert n. induction ps as [|b ps IH]; intros n; cbn; [by rewrite Nat.add_0_r|]. rewrite IH, length_app. do 2 f_equal. lia. Qed.

Lemma puts_writing ps a b c : length b = length (concat ps) ->
  puts ps (mkWsPayload (a ++ b ++ c) (length a) false) = (mkWsPayload (a ++ concat ps ++ c) (length a + length (concat ps)) false, Ok tt).
Proof.
  revert a b. induction ps as [|x ps IH]; intros a b Hb; cbn [puts concat] in *; [destruct b; [by rewrite Nat.add_0_r|done]|].
  rewrite length_app in Hb. destruct (around b 0 (length x) ltac:(lia)) as (e & d & r & -> & He & Hd). destruct e; [|done]. cbn [app] in *. rewrite length_app in Hb.
  unfold put. cbn [counting pl_len pl_dst]. rewrite (proj2 (Nat.leb_le _ _)) by (rewrite !length_app; lia). rewrite <- (app_assoc d r c), write_at_app by done.
  replace (length a + length x)%nat with (length (a ++ x)) by apply length_app. rewrite app_assoc, IH by lia.
  rewrite <- !app_assoc, !length_app. do 2 f_equal. lia.
Qed.

(** A pure render leaves the frame the parts' writer leaves. *)
Theorem rendered_frame_is_the_parts_frame dst ps m : length m = 4%nat -> Forall byte m -> Forall byte (concat ps) -> Z.of_nat (length dst) <= u64_max ->
  ws_write_text_frame_rendered dst m (puts ps) = ws_write_text_frame_parts dst ps m.
Proof.
  intros Hm Fm Fp Hd. unfold ws_write_text_frame_parts, ws_write_frame_parts. assert (payload_of ps = concat ps) as Ep by (unfold payload_of; by rewrite map_id).
  rewrite ws_write_frame_with_spec by (rewrite ?Ep; done). rewrite Ep. cbv zeta. set (w := concat ps) in *. rewrite (frame_bytes_length _ _ _ Hm).
  unfold ws_write_text_frame_rendered, WsPayload_counting. rewrite puts_counting. cbn [pl_len Nat.add]. fold w.
  destruct (Nat.ltb_spec (length dst) (client_header_len (length w) + length w)) as [|L]; [done|].
  destruct (around dst 0 (client_header_len (length w)) ltac:(lia)) as (e & h & r & -> & He & Hh). destruct e; [|done]. cbn [app] in *.
  rewrite length_app in *. destruct (around r 0 (length w) ltac:(lia)) as (e & b & c & -> & He' & Hb). destruct e; [|done]. cbn [app] in *.
  rewrite write_client_header_spec by (done || lia). rewrite <- (header_bytes_length Text (length w) m Hm). set (hb := header_bytes Text (length w) m).
  unfold WsPayload_writing. replace (slice (hb ++ b ++ c) (length hb) (length w)) with b by (rewrite <- Hb; by rewrite slice_app).
  pose proof (puts_writing ps [] b [] Hb) as W. rewrite !app_nil_r in W. cbn [app length Nat.add] in W. rewrite W. cbn [pl_dst pl_len is_ok negb]. fold w. rewrite Nat.eqb_refl. cbn [negb orb].
  rewrite (write_at_app hb b c w Hb), slice_app, write_at_app by (by rewrite (ws_unmask_spec m Hm Fm), mask_from_length). rewrite (ws_unmask_spec m Hm Fm) by done.
  unfold frame_bytes. fold hb. rewrite <- app_assoc. do 3 f_equal. replace (length hb) with (length h) by (subst hb; by rewrite header_bytes_length).
  by rewrite <- Hb, app_assoc, <- length_app, drop_app_length.
Qed.

(** Framed in place, the payload's frame ends where the payload did. *)
Theorem frame_in_place_is_the_frame a h w c o m : length m = 4%nat -> Forall byte m -> Forall byte w ->
  length h = client_header_len (length w) -> Z.of_nat (length (a ++ h ++ w ++ c)) <= u64_max ->
  ws_frame_in_place (a ++ h ++ w ++ c) (length a + length h) o (length w) m = (a ++ frame_bytes o w m ++ c, Ok (length a)).
Proof.
  intros Hm Fm Fw Hh Hl. unfold ws_frame_in_place. rewrite !length_app in *. rewrite (proj2 (Z.leb_le _ _)), !(proj2 (Nat.leb_le _ _)) by lia. cbn [andb].
  replace (length a + length h - client_header_len (length w))%nat with (length a) by lia. rewrite <- Hh, slice_app.
  rewrite <- (app_nil_r h) at 1. rewrite write_client_header_spec by (done || lia). rewrite app_nil_r. set (hb := header_bytes o (length w) m).
  assert (length hb = length h) as Lh by (subst hb; by rewrite header_bytes_length). rewrite write_at_app by done.
  rewrite <- Lh, <- length_app, app_assoc, slice_app, write_at_app by (by rewrite (ws_unmask_spec m Hm Fm), mask_from_length).
  rewrite (ws_unmask_spec m Hm Fm) by done. unfold frame_bytes. fold hb. rewrite <- !app_assoc. done.
Qed.

(** ** Witnesses *)

Lemma frames_round_trip_witness : let m := [55; 250; 33; 61] in
  let '(dst', r) := ws_write_frame_with (replicate 12 0) Text [[72; 101]; [108; 108; 111]] m in
  match r with
  | Err e => e = BufferTooSmall /\ dst' = replicate 12 0 /\ (length (replicate 12 0) < 11)%nat
  | Ok n => n = 11%nat /\ length dst' = length (replicate 12 0) /\ drop n dst' = drop n (replicate 12 0) /\
      (forall rest, ws_read_frame (take n dst' ++ rest) = Frame (mkWsFrameHeader true Text true 5 6 m) (mkPayloadSpan 6 n)) /\
      ws_unmask_in_place (slice dst' 6 5) m = [72; 101; 108; 108; 111]
  end.
Proof.
  intros m. assert (Forall byte m /\ Forall byte (payload_of [[72; 101]; [108; 108; 111]])) as [Fm Fw].
  { split; repeat constructor; vm_compute; congruence. }
  exact (frames_round_trip (replicate 12 0) Text [[72; 101]; [108; 108; 111]] m eq_refl Fm Fw ltac:(vm_compute; congruence) eq_refl ltac:(discriminate)).
Defined.

Lemma verdicts_are_final_witness : let buf := [137; 0; 129] in
  (ws_read_frame buf <> Incomplete -> ws_read_frame (buf ++ [1]) = ws_read_frame buf) /\
  (forall h s, ws_read_frame buf = Frame h s -> frame_ok buf h s /\ forall n, (n < span_end s)%nat -> ws_read_frame (take n buf) = Incomplete).
Proof. intros buf. apply (verdicts_are_final buf [1]). repeat constructor; vm_compute; congruence. Defined.
