(* ===== verification/WsStream.v ===== *)
(** * A stream may be cut anywhere

    The windows are queues of bytes; over them the framer delivers the
    messages of the server's stream in order, each once and whole, however the
    stream was cut into reads, answers every ping in order, and fails only at a
    frame it refuses or a ping it has no room to answer; what leaves is whole
    masked frames. Then the rest of a session: a request table is a map
    from ids to requests in flight, a subscription table from ids to kinds, a
    queued frame is appended whole or not at all, and the keepalive neither
    storms nor lets a silent session live. *)

From S2P Require Import Prelude AmmU256 AmmLimbs AmmTick AmmPayload AmmPayloadProofs WsFrame WsProofs.

#[local] Open Scope machine_scope.

(** ** The window is a queue of bytes *)

(** An empty window starts over. *)
Definition io_ok (cap : nat) (b : IoBuf) : Prop :=
  (io_head b <= io_tail b <= length (io_data b))%nat /\ length (io_data b) = cap /\ (io_head b = io_tail b -> io_head b = 0%nat).

(** A window is what was read, what is readable and what is free. *)
Definition window (a u c : list Z) : IoBuf := mkIoBuf (a ++ u ++ c) (length a) (length a + length u).

Lemma window_of cap b : io_ok cap b -> exists a u c, b = window a u c /\ (length a + length u + length c = cap)%nat /\ (u = [] -> a = []).
Proof.
  destruct b as [d h t]. intros ((H1 & H2) & H3 & H4). cbn in *. destruct (around d h (t - h) ltac:(lia)) as (a & u & c & -> & <- & Hu).
  exists a, u, c. rewrite !length_app in *. split_and!; [unfold window; f_equal; lia|lia|].
  intros ->. cbn in Hu. destruct a; [done|]. cbn in H4. specialize (H4 ltac:(cbn in *; lia)). done.
Qed.

Lemma window_ok a u c : (u = [] -> a = []) -> io_ok (length a + length u + length c) (window a u c).
Proof.
  intros H. unfold io_ok, window. cbn. rewrite !length_app. split_and!; [lia|lia|lia|]. intros E.
  destruct u; [by rewrite H|cbn in E; lia].
Qed.

Lemma window_filled a u c : filled (window a u c) = u.
Proof. unfold filled, window. cbn. replace (length a + length u - length a)%nat with (length u) by lia. apply slice_app. Qed.

Lemma window_free a u c : free (window a u c) = c.
Proof. unfold free, window. cbn. by rewrite app_assoc, <- length_app, drop_app_length. Qed.

Lemma window_len a u c : io_len (window a u c) = length u.
Proof. unfold io_len, window. cbn. lia. Qed.

Lemma free_mut_window a u c : exists a' c', free_mut (window a u c) = window a' u c' /\ (length a' + length c' = length a + length c)%nat /\
  (length c <= length c')%nat /\ (c' = [] -> a' = []) /\ (a' = a \/ a' = []) /\
  length c' = (if (length a + length u =? length a + length u + length c)%nat then length a else length c).
Proof.
  unfold free_mut. rewrite window_filled. cbn [window io_tail io_head io_data]. rewrite !length_app, Nat.add_assoc.
  destruct (Nat.eqb_spec (length a + length u) (length a + length u + length c)) as [E|E]; cbn [andb].
  - destruct c; [|cbn in E; lia]. rewrite app_nil_r in *. destruct (Nat.ltb_spec 0 (length a)) as [L|L].
    + exists [], (drop (length u) (a ++ u)). unfold window, write_at. cbn [take app length Nat.add]. rewrite length_drop, length_app. split_and!; [f_equal; lia|lia|lia|done|by right|lia].
    + destruct a; [|cbn in L; lia]. exists [], []. unfold window. rewrite app_nil_r. split_and!; try done. by left.
  - exists a, c. split_and!; [done|done|done| |by left|done]. intros ->. cbn in E. lia.
Qed.

Lemma put_window a u w c bytes : (length w <= length c)%nat -> bytes = w ++ drop (length w) c ->
  advance (set_free (window a u c) bytes) (length w) = window a (u ++ w) (drop (length w) c).
Proof.
  intros L ->. unfold advance, set_free, window. cbn [io_data io_head io_tail]. f_equal; [|rewrite length_app; lia].
  pose proof (write_at_app (a ++ u) c [] (w ++ drop (length w) c)) as E. rewrite !app_nil_r in E.
  rewrite app_assoc, <- length_app, E by (rewrite length_app, length_drop; lia). by rewrite <- !app_assoc.
Qed.

Lemma put_nothing a u c : set_free (window a u c) c = window a u c.
Proof.
  unfold set_free, window. cbn [io_data io_head io_tail]. f_equal. rewrite app_assoc, <- length_app.
  pose proof (write_at_app (a ++ u) c [] c eq_refl) as E. by rewrite !app_nil_r in E.
Qed.

Lemma consume_window a t r c : (exists a' c', consume (window a (t ++ r) c) (length t) = window a' r c' /\
  (length a' + length r + length c' = length a + length (t ++ r) + length c)%nat /\ (r = [] -> a' = [])).
Proof.
  unfold consume, window. cbn [io_data io_head io_tail]. rewrite !length_app. destruct (Nat.eqb_spec (length a + length t) (length a + (length t + length r))) as [E|E].
  - destruct r; [|cbn in E; lia]. exists [], (a ++ t ++ c). rewrite app_nil_r. cbn. rewrite !length_app. split_and!; [done|lia|done].
  - exists (a ++ t), c. split_and!; [|rewrite length_app; lia|intros ->; cbn in E; lia]. rewrite <- !app_assoc, length_app. f_equal. lia.
Qed.

(** The room a window offers a write. *)
Definition room (b : IoBuf) : nat := length (free (free_mut b)).

(** The queue's three moves on any window. *)
Lemma free_mut_spec cap b : io_ok cap b -> io_ok cap (free_mut b) /\ filled (free_mut b) = filled b /\
  ((io_len b < cap)%nat -> free (free_mut b) <> []).
Proof.
  intros H. destruct (window_of cap b H) as (a & u & c & -> & L & Z). destruct (free_mut_window a u c) as (a' & c' & -> & L' & _ & N & A & _).
  rewrite !window_filled, window_free, window_len. split_and!; [|done|].
  - replace cap with (length a' + length u + length c')%nat by lia. apply window_ok. intros Hu. specialize (Z Hu). by destruct A as [->| ->].
  - intros Hu ->. rewrite (N eq_refl) in L'. cbn in L'. lia.
Qed.

(** The room: what lies behind the queued bytes, and once they reach the end
    all but the queued bytes; an empty window's is all of it. *)
Lemma room_spec cap b : io_ok cap b ->
  room b = (if (io_tail b =? cap)%nat then cap - io_len b else cap - io_tail b)%nat /\ (filled b = [] -> room b = cap).
Proof.
  intros H. destruct (window_of cap b H) as (a & u & c & -> & L & Z). unfold room.
  destruct (free_mut_window a u c) as (a' & c' & -> & L' & _ & _ & _ & E). rewrite window_free, window_filled, window_len, E.
  cbn [window io_tail]. rewrite <- L. split.
  - destruct (Nat.eqb_spec (length a + length u) (length a + length u + length c)); lia.
  - intros ->. rewrite (Z eq_refl). cbn [length Nat.add]. by destruct (Nat.eqb_spec 0 (length c)).
Qed.

Lemma room_again cap b : io_ok cap b -> room (free_mut b) = length (free (free_mut b)).
Proof.
  intros H. unfold room at 1. do 2 f_equal. destruct H as ((H1 & H2) & H3 & H4). unfold free_mut at 2 3.
  destruct ((io_tail b =? length (io_data b))%nat && (0 <? io_head b)%nat) eqn:E; unfold free_mut; cbn [io_tail io_head io_data]; [|by rewrite E].
  by rewrite andb_false_r.
Qed.

Lemma put_spec cap b w : io_ok cap b -> (length w <= length (free b))%nat ->
  let b' := advance (set_free b (w ++ drop (length w) (free b))) (length w) in io_ok cap b' /\ filled b' = filled b ++ w.
Proof.
  intros H. destruct (window_of cap b H) as (a & u & c & -> & L & Z). rewrite window_free, window_filled. intros Hw. cbv zeta.
  rewrite put_window by done. rewrite window_filled. split; [|done].
  replace cap with (length a + length (u ++ w) + length (drop (length w) c))%nat by (rewrite length_app, length_drop; lia). apply window_ok.
  intros [Hu _]%app_nil. by apply Z.
Qed.

Lemma consume_spec cap b t r : io_ok cap b -> filled b = t ++ r -> io_ok cap (consume b (length t)) /\ filled (consume b (length t)) = r.
Proof.
  intros H. destruct (window_of cap b H) as (a & u & c & -> & L & _). rewrite window_filled. intros ->.
  destruct (consume_window a t r c) as (a' & c' & -> & L' & Z). rewrite window_filled. split; [|done].
  replace cap with (length a' + length r + length c')%nat by lia. by apply window_ok.
Qed.

Lemma filled_len cap b : io_ok cap b -> length (filled b) = io_len b /\ (io_len b <= cap)%nat.
Proof. intros H. destruct (window_of cap b H) as (a & u & c & -> & L & _). rewrite window_filled, window_len. lia. Qed.

Lemma free_len cap b : io_ok cap b -> (length (free b) <= cap)%nat.
Proof. intros H. destruct (window_of cap b H) as (a & u & c & -> & L & _). rewrite window_free. lia. Qed.

Lemma window_new_ok cap : io_ok cap (with_capacity cap) /\ filled (with_capacity cap) = [].
Proof. unfold with_capacity. split; [|done]. unfold io_ok. cbn. rewrite length_replicate. lia. Qed.

(** ** The server's stream *)

(** A frame as the server puts it on the wire: any bytes that read as one. *)
Record WireFrame := mkWireFrame { wf_bytes : list Z; wf_op : WsOpcode; wf_fin : bool; wf_masked : bool; wf_payload : list Z }.

Definition wire_ok (x : WireFrame) : Prop :=
  Forall byte (wf_bytes x) /\
  exists h s, ws_read_frame (wf_bytes x) = Frame h s /\ span_end s = length (wf_bytes x) /\
    opcode h = wf_op x /\ fin h = wf_fin x /\ masked h = wf_masked x /\ wf_payload x = slice (wf_bytes x) (span_start s) (span_len s).

Definition wire (fs : list WireFrame) : list Z := concat (map wf_bytes fs).
Definition is_data (o : WsOpcode) : bool := match o with Text | Binary => true | _ => false end.
Definition messages (fs : list WireFrame) : list (WsOpcode * list Z) :=
  map (fun x => (wf_op x, wf_payload x)) (List.filter (fun x => is_data (wf_op x)) fs).
Definition pings (fs : list WireFrame) : list (list Z) :=
  map wf_payload (List.filter (fun x => match wf_op x with Ping => true | _ => false end) fs).

(** What was sent: frames with the masks they were given. *)
Record OutFrame := mkOutFrame { of_op : WsOpcode; of_payload : list Z; of_mask : list Z }.
Definition out_bytes (out : list OutFrame) : list Z := concat (map (fun x => frame_bytes (of_op x) (of_payload x) (of_mask x)) out).

(** Why a client with a read window of [rcap] bytes takes a frame for the end
    of the session, if it does: it is longer than the window, masked, a
    fragment of a message, or the server's close. *)
Definition refused (rcap : nat) (x : WireFrame) : option WsErr :=
  if (rcap <? length (wf_bytes x))%nat then Some TooLarge
  else if wf_masked x then Some BadFrame
  else match wf_op x with
       | Text | Binary => if wf_fin x then None else Some Fragmented
       | Continuation => Some Fragmented
       | Close => Some WsErr_Closed
       | Ping | Pong => None
       end.

(** The framer [f] stopped with [e] before frame [k]: the frame is refused for
    that, or it is a ping whose answer is longer than the send window's room. *)
Definition stopped (rcap : nat) (fs : list WireFrame) (k : nat) (f : WsFramer) (e : WsErr) : Prop :=
  exists x, fs !! k = Some x /\
    (refused rcap x = Some e \/
     e = Overflow /\ refused rcap x = None /\ wf_op x = Ping /\
     (room (tx f) < client_header_len (length (wf_payload x)) + length (wf_payload x))%nat).

(** Of the frames that end a session only the close is taken off the window. *)
Definition closing (e : option WsErr) : nat := match e with Some WsErr_Closed => 1 | _ => 0 end.

Definition failure (r : WsNext) : option WsErr := match r with WsNext_Failed e => Some e | _ => None end.

Definition mask_ok (m : list Z) : Prop := length m = 4%nat /\ Forall byte m.
Definition sent_as (o : WsOpcode) (ws : list (list Z)) (out : list OutFrame) : Prop :=
  map of_payload out = ws /\ Forall (fun x => of_op x = o /\ mask_ok (of_mask x)) out.

Lemma next_mask_ok c : mask_ok (next_mask c).1.
Proof.
  unfold next_mask, ws_mask_from_counter, mask_ok. cbn [fst]. set (z := Z.lxor _ _). destruct (to_le_bytes 8 z) as [L F].
  split; [rewrite length_take, L; done|by apply Forall_take].
Qed.

(** ** The framer's state *)

Definition unread (f : WsFramer) : list Z := drop (consumed f) (filled (rx f)).

Record framer_ok (rcap tcap : nat) (f : WsFramer) : Prop := {
  fk_rx : io_ok rcap (rx f);
  fk_tx : io_ok tcap (tx f);
  fk_cap : rx_cap f = rcap;
  fk_consumed : (consumed f <= io_len (rx f))%nat
}.

Lemma release_spec rcap tcap f : framer_ok rcap tcap f ->
  let g := framer_release f in framer_ok rcap tcap g /\ consumed g = 0%nat /\ filled (rx g) = unread f /\ tx g = tx f.
Proof.
  intros [Hr Ht Hc Hk]. cbv zeta. unfold framer_release, unread. destruct (Nat.eqb_spec (consumed f) 0) as [E|E].
  - rewrite E, drop_0. done.
  - destruct (filled_len _ _ Hr) as [Lf _]. pose proof (take_drop (consumed f) (filled (rx f))) as S. symmetry in S.
    assert (length (take (consumed f) (filled (rx f))) = consumed f) as Lt by (rewrite length_take; lia).
    destruct (consume_spec _ _ _ _ Hr S) as [Ok' Ef]. rewrite Lt in Ok', Ef. cbn. split_and!; [|done|done|done]. split; cbn; [done|done|done|lia].
Qed.

(** A frame the send window takes is queued whole; one it does not changes
    nothing that is queued. *)
Lemma send_frame_spec rcap tcap f write w m o : framer_ok rcap tcap f -> mask_ok m -> Forall byte w -> Z.of_nat tcap <= u64_max ->
  (forall dst, Z.of_nat (length dst) <= u64_max -> write dst = let fr := frame_bytes o w m in
     if (length dst <? length fr)%nat then (dst, Err BufferTooSmall) else (fr ++ drop (length fr) dst, Ok (length fr))) ->
  let '(g, took) := send_frame f write in
  framer_ok rcap tcap g /\ rx g = rx f /\ consumed g = consumed f /\
  filled (tx g) = filled (tx f) ++ (if took then frame_bytes o w m else []) /\
  took = negb (room (tx f) <? length (frame_bytes o w m))%nat /\ (took = false -> room (tx g) = room (tx f)).
Proof.
  intros [Hr Ht Hc Hk] Hm Fw Hcap W. unfold send_frame. destruct (free_mut_spec _ _ Ht) as (Ht' & Ef & _). pose proof (room_again _ _ Ht) as Ra.
  change (room (tx f)) with (length (free (free_mut (tx f)))). set (b := free_mut (tx f)) in *. clearbody b. pose proof (free_len _ _ Ht') as Lf. rewrite W by lia. cbv zeta. destruct (Nat.ltb_spec (length (free b)) (length (frame_bytes o w m))) as [L|L].
  - assert (set_free b (free b) = b) as -> by (destruct (window_of _ _ Ht') as (a & u & c & -> & _); by rewrite window_free, put_nothing).
    cbn. rewrite Ef, app_nil_r. by split_and!.
  - destruct (put_spec tcap b (frame_bytes o w m) Ht' L) as [Ok' E']. cbn [set_tx tx rx consumed]. split_and!; try done; [by rewrite E', Ef].
Qed.

Lemma pong_write payload m : mask_ok m -> Forall byte payload -> forall dst, Z.of_nat (length dst) <= u64_max ->
  ws_write_pong dst payload m = let fr := frame_bytes Pong payload m in
     if (length dst <? length fr)%nat then (dst, Err BufferTooSmall) else (fr ++ drop (length fr) dst, Ok (length fr)).
Proof.
  intros [Hm Fm] Fp dst Hd. unfold ws_write_pong, ws_write_frame, ws_write_frame_parts. assert (payload_of [payload] = payload) as E by (unfold payload_of; cbn; by rewrite app_nil_r).
  rewrite ws_write_frame_with_spec by (rewrite ?E; done). by rewrite E.
Qed.

Lemma text_write parts m : mask_ok m -> Forall byte (concat parts) -> forall dst, Z.of_nat (length dst) <= u64_max ->
  ws_write_text_frame_with dst parts m = let fr := frame_bytes Text (concat parts) m in
     if (length dst <? length fr)%nat then (dst, Err BufferTooSmall) else (fr ++ drop (length fr) dst, Ok (length fr)).
Proof.
  intros [Hm Fm] Fp dst Hd. unfold ws_write_text_frame_with. assert (payload_of parts = concat parts) as E by (unfold payload_of; by rewrite map_id).
  rewrite ws_write_frame_with_spec by (rewrite ?E; done). by rewrite E.
Qed.

(** ** One frame off the stream *)

Lemma wire_read x r : wire_ok x -> exists h s, ws_read_frame (wf_bytes x ++ r) = Frame h s /\ span_end s = length (wf_bytes x) /\
  (span_start s <= span_end s)%nat /\ opcode h = wf_op x /\ fin h = wf_fin x /\ masked h = wf_masked x /\ slice (wf_bytes x ++ r) (span_start s) (span_len s) = wf_payload x /\
  (2 <= length (wf_bytes x))%nat.
Proof.
  intros (F & h & s & E & Es & Eo & Em & Ef & Ep). exists h, s. destruct (read_frame_ok _ _ _ F E) as [[_ H1] [H2 H2'] H3 _ _].
  split_and!; try done; [by rewrite read_more by (by rewrite E)|lia| |lia]. rewrite Ep. apply slice_app_l. unfold span_len. lia.
Qed.

(** Less than a frame of it asks for more. *)
Lemma wire_prefix x u v r : wire_ok x -> u ++ v = wf_bytes x ++ r -> (length u < length (wf_bytes x))%nat -> ws_read_frame u = Incomplete.
Proof.
  intros (F & h & s & E & Es & _) Eu L. assert (u = take (length u) (wf_bytes x)) as ->.
  { pose proof (f_equal (take (length u)) Eu) as T. rewrite take_app_length, take_app_le in T by lia. done. }
  destruct (verdicts_are_final (wf_bytes x) [] F) as [_ V]. destruct (V h s E) as [_ V']. apply V'. by rewrite Es.
Qed.

(** What a call delivered. *)
Definition delivered (f : WsFramer) (r : WsNext) : list (WsOpcode * list Z) :=
  match r with WsNext_Text s => [(Text, payload f s)] | WsNext_Binary s => [(Binary, payload f s)] | _ => [] end.

(** What a call of the framer does to the stream [fs]: it takes [k] frames off
    it, delivers the data one of them if there is one, answers the pings, and
    fails at one it refuses. *)
Definition took_off (rcap tcap : nat) (fs : list WireFrame) (u t : list Z) (g : WsFramer) (r : WsNext) : Prop :=
  framer_ok rcap tcap g /\ exists k out, Forall (fun x => refused rcap x = None) (take k fs) /\
    wire (take (k + closing (failure r)) fs) ++ unread g = u /\ messages (take k fs) = delivered g r /\
    sent_as Pong (pings (take k fs)) out /\ filled (tx g) = t ++ out_bytes out /\
    (forall e, failure r = Some e -> stopped rcap fs k g e) /\
    (r = WsNext_Idle -> consumed g = 0%nat /\ (io_len (rx g) < rcap)%nat /\ forall x, fs !! k = Some x -> (length (unread g) < length (wf_bytes x))%nat).

Lemma took_nothing rcap tcap fs f r : framer_ok rcap tcap f -> consumed f = 0%nat -> delivered f r = [] -> closing (failure r) = 0%nat ->
  (forall e, failure r = Some e -> stopped rcap fs 0 f e) ->
  (r = WsNext_Idle -> (io_len (rx f) < rcap)%nat /\ forall x, fs !! 0%nat = Some x -> (length (filled (rx f)) < length (wf_bytes x))%nat) ->
  took_off rcap tcap fs (filled (rx f)) (filled (tx f)) f r.
Proof.
  intros Hf H0 D Hc He Hi. split; [done|]. exists 0%nat, []. unfold unread. rewrite H0, drop_0, Hc. cbn. rewrite app_nil_r. split_and!; try done. intros E. split; [done|by apply Hi].
Qed.

Lemma stopped_drop rcap fs k j f e : stopped rcap (drop k fs) j f e -> stopped rcap fs (k + j) f e.
Proof. intros (x & Ex & H). exists x. by rewrite <- lookup_drop. Qed.

(** A frame taken off before the rest. *)
Lemma took_one_more rcap tcap x fs u t g r out : took_off rcap tcap fs u (t ++ out_bytes out) g r -> refused rcap x = None ->
  messages [x] = [] -> sent_as Pong (pings [x]) out -> took_off rcap tcap (x :: fs) (wf_bytes x ++ u) t g r.
Proof.
  intros (Hg & k & o & Fk & Ew & Em & [Ep Fp] & Et & He & Hi) Rx Mx [Px Fx]. split; [done|]. exists (S k), (out ++ o).
  change (take (S k + closing (failure r)) (x :: fs)) with ([x] ++ take (k + closing (failure r)) fs). change (take (S k) (x :: fs)) with ([x] ++ take k fs).
  unfold wire, messages, pings, out_bytes, sent_as in *.
  rewrite !map_app, !concat_app, !List.filter_app, !map_app. cbn [map concat]. rewrite Mx, Px, Ep, Em, app_nil_r. split_and!; try done.
  - by constructor.
  - by rewrite <- app_assoc, Ew.
  - by apply Forall_app.
  - by rewrite Et, app_assoc.
Qed.

Lemma next_loop_spec rcap tcap fuel : Z.of_nat tcap <= u64_max -> (0 < rcap)%nat -> forall fs f later,
  framer_ok rcap tcap f -> consumed f = 0%nat -> (length (filled (rx f)) < fuel)%nat -> filled (rx f) ++ later = wire fs -> Forall wire_ok fs ->
  let '(g, r) := next_loop fuel f in took_off rcap tcap fs (filled (rx f)) (filled (tx f)) g r.
Proof.
  intros Hcap Hr0. induction fuel as [|fuel IH]; intros fs f later Hf H0 Hfuel Es Fs; [lia|]. cbn [next_loop].
  destruct (filled_len _ _ (fk_rx _ _ _ Hf)) as [Lu Lc]. destruct fs as [|x fs].
  { unfold wire in Es. cbn in Es. destruct (filled (rx f)) as [|b u] eqn:Eu; [|done]. cbn. rewrite (fk_cap _ _ _ Hf). cbn in Lu. rewrite (proj2 (Nat.leb_gt _ _)) by lia.
    rewrite <- Eu at 1. apply took_nothing; try done. intros _. split; [cbn in Lu; lia|done]. }
  apply Forall_cons in Fs as [Hx Fs]. destruct (Nat.lt_ge_cases (length (filled (rx f))) (length (wf_bytes x))) as [Ls|Ls].
  { rewrite (wire_prefix x _ later (wire fs) Hx Es Ls). rewrite (fk_cap _ _ _ Hf). destruct (Nat.leb_spec rcap (io_len (rx f))) as [Lr|Lr]; apply took_nothing; try done.
    - intros e [= <-]. exists x. split; [done|]. left. unfold refused. by rewrite (proj2 (Nat.ltb_lt _ _)) by lia.
    - intros _. split; [done|]. intros y [= <-]. done. }
  change (wire (x :: fs)) with (wf_bytes x ++ wire fs) in Es. destruct (around (filled (rx f)) 0 (length (wf_bytes x)) ltac:(lia)) as (e & t & u & Eu & He & Ht).
  destruct e; [|done]. cbn [app] in Eu. rewrite Eu, <- app_assoc in Es. apply app_inj_1 in Es as [-> Es]; [|done].
  destruct (wire_read x u Hx) as (h & s & E & Ee & Hse & Eo & Ef & Em & Ep & H2). rewrite Eu, E, Em, Eo.
  destruct (consume_spec _ _ _ _ (fk_rx _ _ _ Hf) Eu) as [Okc Ec].
  assert (refused rcap x = if wf_masked x then Some BadFrame else match wf_op x with Text | Binary => if wf_fin x then None else Some Fragmented | Continuation => Some Fragmented | Close => Some WsErr_Closed | _ => None end) as Rx.
  { unfold refused. by rewrite (proj2 (Nat.ltb_ge _ _)) by (rewrite Eu, length_app in Lu; lia). }
  assert (forall e, refused rcap x = Some e -> closing (Some e) = 0%nat -> took_off rcap tcap (x :: fs) (wf_bytes x ++ u) (filled (tx f)) f (WsNext_Failed e)) as Refuse.
  { intros e Hr H1. rewrite <- Eu. apply took_nothing; try done. intros ? [= <-]. exists x. split; [done|by left]. }
  destruct (wf_masked x); [by apply Refuse|].
  assert (forall o, wf_op x = o -> is_data o = true -> refused rcap x = None -> took_off rcap tcap (x :: fs) (wf_bytes x ++ u) (filled (tx f)) (set_consumed f (span_end s))
    (if match o with Text => true | _ => false end then WsNext_Text s else WsNext_Binary s)) as Data.
  { intros o Ho Hd Hn. split; [destruct Hf; split; cbn; [done|done|done|rewrite Ee; rewrite <- Lu, Eu, length_app; lia]|]. exists 1%nat, [].
    unfold unread, messages, pings. cbn [take map wire concat List.filter set_consumed consumed rx tx]. rewrite Ho, Hd, Ee, Eu, app_nil_r. split_and!.
    - by constructor.
    - destruct o; try done; change ((wf_bytes x ++ []) ++ drop (length (wf_bytes x)) (wf_bytes x ++ u) = wf_bytes x ++ u); by rewrite app_nil_r, drop_app_length.
    - destruct o; try done; unfold delivered, payload; cbn [rx set_consumed]; cbn [map]; by rewrite Eu, Ep, Ho.
    - by destruct o.
    - done.
    - by destruct o.
    - by destruct o. }
  destruct (wf_op x) eqn:Eop.
  - by apply Refuse.
  - rewrite Ef. destruct (wf_fin x); [by apply (Data Text)|by apply Refuse].
  - rewrite Ef. destruct (wf_fin x); [by apply (Data Binary)|by apply Refuse].
  - split; [destruct Hf; split; cbn; [by rewrite Ee|done|done|lia]|]. exists 0%nat, []. unfold unread. cbn [failure closing Nat.add take map wire concat set_rx consumed rx tx].
    rewrite H0, drop_0, Ee, Ec, !app_nil_r. split_and!; try done. intros ? [= <-]. exists x. split; [done|by left].
  - destruct (next_mask (mask_ctr f)) as [m c] eqn:Emk. pose proof (next_mask_ok (mask_ctr f)) as Hm. rewrite Emk in Hm. cbn [fst] in Hm. cbn [set_mask_ctr rx]. rewrite Eu, Ep.
    assert (Forall byte (wf_payload x)) as Fp.
    { rewrite <- Ep. unfold slice. rewrite drop_app_le by (rewrite <- Ee; lia). rewrite take_app_le by (rewrite length_drop; unfold span_len; lia).
      apply Forall_take, Forall_drop. apply Hx. }
    pose proof (send_frame_spec rcap tcap (set_mask_ctr f c) _ (wf_payload x) m Pong ltac:(destruct Hf; by split) Hm Fp Hcap (pong_write (wf_payload x) m Hm Fp)) as S.
    destruct (send_frame _ _) as [f' took]. destruct S as (Hf' & Er & Ek & Et & Et' & Erm). cbn [set_mask_ctr rx tx consumed] in Er, Ek, Et, Et', Erm. destruct took.
    + rewrite Er, Ee. pose proof (IH fs (set_rx f' (consume (rx f) (length (wf_bytes x)))) later) as I. cbn [set_rx rx tx consumed] in I. rewrite Ec in I.
      specialize (I ltac:(destruct Hf'; split; cbn; [done|done|done|lia]) ltac:(lia)). rewrite Eu, length_app in Hfuel. specialize (I ltac:(lia) Es Fs).
      destruct (next_loop fuel _) as [g r]. rewrite Et in I. apply (took_one_more _ _ _ _ _ _ _ _ [mkOutFrame Pong (wf_payload x) m]); [|done| |].
      * unfold out_bytes. cbn [map concat of_op of_payload of_mask]. by rewrite app_nil_r.
      * unfold messages. cbn. by rewrite Eop.
      * unfold pings, sent_as. cbn. rewrite Eop. cbn. split; [done|by constructor].
    + rewrite <- Eu, <- Er. rewrite app_nil_r in Et. rewrite <- Et. apply took_nothing; try done; [lia|]. intros e [= <-]. exists x. split; [done|]. right. split_and!; try done.
      rewrite Erm by done. symmetry in Et'. apply negb_false_iff, Nat.ltb_lt in Et'. by rewrite frame_bytes_length in Et' by apply Hm.
  - rewrite Ee. pose proof (IH fs (set_rx f (consume (rx f) (length (wf_bytes x)))) later) as I. cbn [set_rx rx tx consumed] in I. rewrite Ec in I.
    specialize (I ltac:(destruct Hf; split; cbn; [done|done|done|lia]) ltac:(lia)). rewrite Eu, length_app in Hfuel. specialize (I ltac:(lia) Es Fs).
    destruct (next_loop fuel _) as [g r]. apply (took_one_more _ _ _ _ _ _ _ _ []); [|done| |].
    * unfold out_bytes. cbn. by rewrite app_nil_r.
    * unfold messages. cbn. by rewrite Eop.
    * unfold pings, sent_as. cbn. by rewrite Eop.
Qed.

(** ** Sessions *)

(** What the owner does with a framer: a read of [bytes] into the window (no
    more than its free region), a call for the next frame, a text queued, and
    [n] bytes written to the socket. *)
Inductive SessionOp := Fill (bytes : list Z) | NextFrame | QueueText (parts : list (list Z)) | Flushed (n : nat).

Record Session := mkSession {
  framer : WsFramer; fed : list Z; got : list (WsOpcode * list Z); texts : list (list Z); sent : list Z; down : option WsErr
}.

Definition session_new (rcap tcap : nat) (seed : Z) : Session := mkSession (WsFramer_new rcap tcap seed) [] [] [] [] None.

Definition session_step (s : Session) (op : SessionOp) : Session :=
  match down s with
  | Some _ => s
  | None =>
      match op with
      | Fill bytes =>
          let f := rx_free_mut (framer s) in
          let read := take (length (free (rx f))) bytes in
          let f := set_rx f (set_free (rx f) (read ++ drop (length read) (free (rx f)))) in
          mkSession (rx_advance f (length read)) (fed s ++ read) (got s) (texts s) (sent s) None
      | NextFrame =>
          let '(f, r) := next_frame (framer s) in
          mkSession f (fed s) (got s ++ delivered f r) (texts s) (sent s) (failure r)
      | QueueText parts =>
          let '(f, r) := queue_text (framer s) parts in
          mkSession f (fed s) (got s) (if is_ok r then texts s ++ [concat parts] else texts s) (sent s) None
      | Flushed n =>
          let wrote := take n (tx_pending (framer s)) in
          mkSession (tx_consume (framer s) (length wrote)) (fed s) (got s) (texts s) (sent s ++ wrote) None
      end
  end.

Definition session_run (s : Session) (ops : list SessionOp) : Session := foldl session_step s ops.

Definition sends (o : WsOpcode) (out : list OutFrame) : list (list Z) :=
  map of_payload (List.filter (fun x => opcode_byte (of_op x) =? opcode_byte o) out).

(** The session and the first [k] frames of the server's stream. *)
Definition in_step (rcap tcap : nat) (fs : list WireFrame) (s : Session) : Prop :=
  framer_ok rcap tcap (framer s) /\ exists k out, Forall (fun x => refused rcap x = None) (take k fs) /\
    wire (take (k + closing (down s)) fs) ++ unread (framer s) = fed s /\ got s = messages (take k fs) /\
    sent s ++ tx_pending (framer s) = out_bytes out /\ Forall (fun x => mask_ok (of_mask x)) out /\
    sends Text out = texts s /\ sends Pong out = pings (take k fs) /\ Forall (fun x => of_op x = Text \/ of_op x = Pong) out /\
    (forall e, down s = Some e -> stopped rcap fs k (framer s) e).

Lemma sends_app o a b : sends o (a ++ b) = sends o a ++ sends o b.
Proof. unfold sends. by rewrite List.filter_app, map_app. Qed.

Lemma sent_as_pong ws out : sent_as Pong ws out -> sends Text out = [] /\ sends Pong out = ws /\ Forall (fun x => mask_ok (of_mask x)) out /\ Forall (fun x => of_op x = Text \/ of_op x = Pong) out.
Proof.
  intros [<- F]. induction F as [|[o w m] out [Ho Hm] F (I1 & I2 & I3 & I4)]; [done|]. cbn in Ho, Hm. subst o.
  change (_ :: out) with ([mkOutFrame Pong w m] ++ out). rewrite !sends_app, I1, I2. split_and!; try done; constructor; (done || by right).
Qed.

Lemma stream_split fs k j : wire (take k fs) ++ wire (take j (drop k fs)) = wire (take (k + j) fs) /\
  messages (take k fs) ++ messages (take j (drop k fs)) = messages (take (k + j) fs) /\
  pings (take k fs) ++ pings (take j (drop k fs)) = pings (take (k + j) fs).
Proof.
  rewrite <- (take_take_drop fs k j) by lia. unfold wire, messages, pings. by rewrite !List.filter_app, !map_app, concat_app.
Qed.

Lemma next_takes_off rcap tcap fs k f later : Z.of_nat tcap <= u64_max -> (0 < rcap)%nat -> Forall wire_ok fs ->
  framer_ok rcap tcap f -> wire (take k fs) ++ unread f ++ later = wire fs ->
  let '(g, r) := next_frame f in took_off rcap tcap (drop k fs) (unread f) (filled (tx f)) g r.
Proof.
  intros Hcap Hr Fs Hf El. destruct (release_spec _ _ _ Hf) as (Hf' & H0 & Ef & Et).
  unfold next_frame. cbv zeta. set (g := framer_release f) in *. destruct (filled_len _ _ (fk_rx _ _ _ Hf')) as [Lf _].
  rewrite <- Ef, <- Et. apply (next_loop_spec rcap tcap _ Hcap Hr (drop k fs) g later); [done|done|lia| |by apply Forall_drop].
  rewrite Ef. apply (app_inv_head (wire (take k fs))). rewrite El. unfold wire. by rewrite <- concat_app, <- map_app, take_drop.
Qed.

(** A close taken off adds no message. *)
Lemma messages_closing rcap fs k f d : (forall e, d = Some e -> stopped rcap fs k f e) -> messages (take (k + closing d) fs) = messages (take k fs).
Proof.
  intros H. destruct d as [[]|]; rewrite ?Nat.add_0_r; try done. destruct (H _ eq_refl) as (x & Ex & [Rx|(D & _)]); [|done]. cbn [closing].
  rewrite Nat.add_1_r, (take_S_r _ _ _ Ex). unfold messages. rewrite List.filter_app, map_app. cbn [List.filter]. unfold refused in Rx.
  destruct (rcap <? length (wf_bytes x))%nat, (wf_masked x), (wf_op x), (wf_fin x); try done; by rewrite app_nil_r.
Qed.

Section InStep.
Context (rcap tcap : nat) (fs : list WireFrame).
Hypothesis (Hcap : Z.of_nat tcap <= u64_max) (Hr : (0 < rcap)%nat) (Fs : Forall wire_ok fs).

Lemma fill_in_step s bytes : down s = None -> in_step rcap tcap fs s -> in_step rcap tcap fs (session_step s (Fill bytes)).
Proof using Hcap Hr Fs.
  intros D (Hf & k & out & Fk & Eu & Eg & R). rewrite D in Eu. unfold session_step. rewrite D. destruct (release_spec _ _ _ Hf) as (Hf' & H0 & Ef & Et).
  unfold rx_free_mut. cbv zeta. set (f := framer_release (framer s)) in *. destruct (free_mut_spec _ _ (fk_rx _ _ _ Hf')) as (Okm & Em & _).
  cbn [set_rx rx]. set (b := free_mut (rx f)) in *. set (read := take (length (free b)) bytes). assert (length read <= length (free b))%nat as L by (subst read; rewrite length_take; lia).
  destruct (put_spec _ _ read Okm L) as [Ok' E']. cbv zeta in *. unfold rx_advance, set_rx. cbn [rx tx rx_cap mask_ctr consumed].
  assert (forall g, rx g = advance (set_free b (read ++ drop (length read) (free b))) (length read) -> consumed g = 0%nat -> unread g = unread (framer s) ++ read) as U.
  { intros g Eg' Ek. unfold unread at 1. by rewrite Ek, drop_0, Eg', E', Em, Ef. }
  split; cbn [framer].
  - destruct Hf' as [_ T C _]. split; cbn; [done|done|done|rewrite H0; lia].
  - exists k, out. cbn [framer fed got texts sent down]. rewrite U by (done || by rewrite H0). rewrite app_assoc, Eu. unfold tx_pending in *. cbn [tx]. rewrite Et.
    destruct R as (R1 & R2 & R3 & R4 & R5 & _). split_and!; done.
Qed.

Lemma queue_in_step s parts : Forall byte (concat parts) -> down s = None -> in_step rcap tcap fs s -> in_step rcap tcap fs (session_step s (QueueText parts)).
Proof using Hcap Hr Fs.
  intros Fp D (Hf & k & out & Fk & Eu & Eg & R1 & R2 & R3 & R4 & R5 & _). rewrite D in Eu. unfold session_step. rewrite D. unfold queue_text, queue_text_with.
  destruct (next_mask (mask_ctr (framer s))) as [m c] eqn:Emk. pose proof (next_mask_ok (mask_ctr (framer s))) as Hm. rewrite Emk in Hm. cbn [fst] in Hm.
  pose proof (send_frame_spec rcap tcap (set_mask_ctr (framer s) c) _ (concat parts) m Text ltac:(destruct Hf; by split) Hm Fp Hcap (text_write parts m Hm Fp)) as S.
  destruct (send_frame _ _) as [g took]. destruct S as (Hg & Er & Ek & Et & _). cbn [set_mask_ctr rx tx consumed] in Er, Ek, Et.
  assert (unread g = unread (framer s)) as Ug by (unfold unread; by rewrite Er, Ek). split; [done|]. unfold tx_pending in *. destruct took.
  - exists k, (out ++ [mkOutFrame Text (concat parts) m]). cbn [framer fed got texts sent down is_ok]. rewrite Ug, !sends_app, R3, R4, Et, app_assoc, R1. unfold out_bytes.
    rewrite map_app, concat_app. cbn [map concat of_op of_payload of_mask]. rewrite app_nil_r. split_and!; try done.
    + apply Forall_app. by split; [|constructor].
    + by rewrite app_nil_r.
    + apply Forall_app. split; [done|]. constructor; [by left|done].
  - exists k, out. cbn [framer fed got texts sent down is_ok]. rewrite Ug, Et, app_nil_r. split_and!; done.
Qed.

Lemma flushed_in_step s n : down s = None -> in_step rcap tcap fs s -> in_step rcap tcap fs (session_step s (Flushed n)).
Proof using Hcap Hr Fs.
  intros D (Hf & k & out & Fk & Eu & Eg & R1 & R2 & R3 & R4 & R5 & _). rewrite D in Eu. unfold session_step. rewrite D. unfold tx_pending in *. cbv zeta.
  pose proof (take_drop n (filled (tx (framer s)))) as S. symmetry in S. set (w := take n (filled (tx (framer s)))) in *.
  destruct (consume_spec _ _ _ _ (fk_tx _ _ _ Hf) S) as [Ok' E']. split; [destruct Hf; by split|]. exists k, out. unfold tx_consume. cbn [framer fed got texts sent down set_tx tx].
  unfold tx_pending. cbn [set_tx tx]. rewrite E', <- app_assoc, <- S. split_and!; done.
Qed.

Lemma next_keeps_step s later : down s = None -> in_step rcap tcap fs s -> fed s ++ later = wire fs -> in_step rcap tcap fs (session_step s NextFrame).
Proof using Hcap Hr Fs.
  intros D (Hf & k & out & Fk & Eu & Eg & R1 & R2 & R3 & R4 & R5 & _) El. rewrite D, Nat.add_0_r in Eu. unfold session_step. rewrite D.
  pose proof (next_takes_off rcap tcap fs k (framer s) later Hcap Hr Fs Hf ltac:(by rewrite app_assoc, Eu)) as T.
  destruct (next_frame (framer s)) as [g r]. destruct T as (Hg & j & o & Fj & Ej & Mj & Pj & Tj & Oj & _). destruct (sent_as_pong _ _ Pj) as (P1 & P2 & P3 & P4).
  destruct (stream_split fs k j) as (_ & S2 & S3). destruct (stream_split fs k (j + closing (failure r))) as (S1 & _ & _).
  split; [done|]. exists (k + j)%nat, (out ++ o). unfold tx_pending in *. cbn [framer fed got texts sent down].
  rewrite <- S2, <- S3, !sends_app, P1, P2, R3, R4, Tj, Mj, Eg, app_nil_r. rewrite <- Nat.add_assoc, <- S1, <- app_assoc, Ej, Eu.
  unfold out_bytes in *. rewrite map_app, concat_app, <- R1, <- app_assoc.
  split_and!; try done; [|by apply Forall_app|by apply Forall_app|].
  - rewrite <- (take_take_drop fs k j). by apply Forall_app.
  - intros e E. by apply stopped_drop, Oj.
Qed.

Definition op_bytes (op : SessionOp) : Prop := match op with QueueText parts => Forall byte (concat parts) | _ => True end.

Lemma step_feeds s op : exists more, fed (session_step s op) = fed s ++ more.
Proof using Hcap Hr Fs.
  unfold session_step. destruct (down s); [exists []; by rewrite app_nil_r|]. destruct op as [bytes| |parts|n]; cbv zeta.
  - by eexists.
  - destruct (next_frame (framer s)) as [f r]. exists []. by rewrite app_nil_r.
  - destruct (queue_text (framer s) parts) as [f r]. exists []. by rewrite app_nil_r.
  - exists []. by rewrite app_nil_r.
Qed.

Lemma run_feeds s ops : exists more, fed (session_run s ops) = fed s ++ more.
Proof using Hcap Hr Fs.
  revert s. induction ops as [|op ops IH]; intros s; [exists []; by rewrite app_nil_r|]. destruct (step_feeds s op) as [m1 E1]. destruct (IH (session_step s op)) as [m2 E2].
  exists (m1 ++ m2). cbn [session_run foldl] in *. unfold session_run in E2. by rewrite E2, E1, app_assoc.
Qed.

Lemma run_in_step s ops later : Forall op_bytes ops -> in_step rcap tcap fs s -> fed (session_run s ops) ++ later = wire fs -> in_step rcap tcap fs (session_run s ops).
Proof using Hcap Hr Fs.
  revert s. induction ops as [|op ops IH]; intros s Fo I El; [done|]. apply Forall_cons in Fo as [Ho Fo]. cbn [session_run foldl] in *. fold (session_run (session_step s op) ops) in *.
  apply IH; [done| |done]. destruct (run_feeds (session_step s op) ops) as [m2 E2]. destruct (step_feeds s op) as [m1 E1].
  destruct (down s) eqn:D; [unfold session_step; by rewrite D|]. destruct op as [bytes| |parts|n].
  - by apply fill_in_step.
  - apply (next_keeps_step s (m1 ++ m2 ++ later)); [done|done|]. by rewrite app_assoc, <- E1, app_assoc, <- E2.
  - by apply queue_in_step.
  - by apply flushed_in_step.
Qed.
End InStep.

Lemma new_in_step rcap tcap seed fs : in_step rcap tcap fs (session_new rcap tcap seed).
Proof.
  destruct (window_new_ok rcap) as [O1 E1]. destruct (window_new_ok tcap) as [O2 E2]. split; [split; cbn; [done|done|done|lia]|]. exists 0%nat, []. unfold unread, tx_pending. cbn [framer session_new WsFramer_new rx tx consumed].
  rewrite E1, E2. split_and!; done.
Qed.

Lemma queue_text_fits rcap tcap f parts : framer_ok rcap tcap f -> Z.of_nat tcap <= u64_max -> Forall byte (concat parts) ->
  is_ok (snd (queue_text f parts)) = negb (room (tx f) <? client_header_len (length (concat parts)) + length (concat parts))%nat.
Proof.
  intros Hf Hcap Fp. unfold queue_text, queue_text_with. destruct (next_mask (mask_ctr f)) as [m c] eqn:Emk.
  pose proof (next_mask_ok (mask_ctr f)) as Hm. rewrite Emk in Hm. cbn [fst] in Hm.
  pose proof (send_frame_spec rcap tcap (set_mask_ctr f c) _ (concat parts) m Text ltac:(destruct Hf; by split) Hm Fp Hcap (text_write parts m Hm Fp)) as S.
  destruct (send_frame _ _) as [g took]. destruct S as (_ & _ & _ & _ & Et & _). cbn [set_mask_ctr tx] in Et. rewrite frame_bytes_length in Et by apply Hm.
  rewrite <- Et. by destruct took.
Qed.

(** An idle call took everything that was whole, and leaves room to read. *)
Lemma idle_is_caught_up rcap tcap fs k f later : Z.of_nat tcap <= u64_max -> (0 < rcap)%nat -> Forall wire_ok fs ->
  framer_ok rcap tcap f -> wire (take k fs) ++ unread f ++ later = wire fs -> snd (next_frame f) = WsNext_Idle ->
  free (rx (rx_free_mut (fst (next_frame f)))) <> [] /\
  forall j, (length (wire (take j fs)) <= length (wire (take k fs) ++ unread f))%nat ->
    (exists g, messages (take k fs) = messages (take j fs) ++ g) /\
    (Forall (fun x => refused rcap x = None) (take k fs) -> Forall (fun x => refused rcap x = None) (take j fs)).
Proof.
  intros Hcap Hr Fs Hf El Hi. pose proof (next_takes_off rcap tcap fs k f later Hcap Hr Fs Hf El) as T. destruct (next_frame f) as [g r]. cbn in Hi. subst r.
  destruct T as (Hg & i & o & Fi & Ei & Mi & _ & _ & _ & Short). destruct (Short eq_refl) as (H0 & Hl & Hs). clear Short. cbn [failure closing] in Ei. rewrite Nat.add_0_r in Ei. split.
  { cbn [fst]. unfold rx_free_mut, framer_release. rewrite H0. cbn. destruct (free_mut_spec _ _ (fk_rx _ _ _ Hg)) as (_ & _ & H). by apply H. }
  intros j Hj. destruct (stream_split fs k i) as (S1 & S2 & _). cbn in Mi. rewrite Mi, app_nil_r in S2. rewrite S2.
  enough (exists n, take (k + i) fs = take j fs ++ n) as [n En].
  { split; [exists (messages n); rewrite En; unfold messages; by rewrite List.filter_app, map_app|]. intros Fk.
    assert (Forall (fun x => refused rcap x = None) (take (k + i) fs)) as F by (rewrite <- (take_take_drop fs k i); by apply Forall_app). rewrite En in F. by apply Forall_app in F as [F _]. }
  destruct (Nat.le_gt_cases j (k + i)) as [L|L].
  { exists (take (k + i - j) (drop j fs)). rewrite take_take_drop. f_equal. lia. }
  exists []. rewrite app_nil_r. destruct (fs !! (k + i)%nat) as [x|] eqn:Ex; [|apply lookup_ge_None in Ex; by rewrite !take_ge by lia].
  exfalso. specialize (Hs x ltac:(by rewrite lookup_drop)). assert (length (wire (take (S (k + i)) fs)) <= length (wire (take j fs)))%nat as M.
  { destruct (stream_split fs (S (k + i)) (j - S (k + i))) as (S3 & _). replace (S (k + i) + (j - S (k + i)))%nat with j in S3 by lia. rewrite <- S3, length_app. lia. }
  rewrite (take_S_r _ _ _ Ex) in M. unfold wire at 1 in M. rewrite map_app, concat_app, length_app in M. cbn [map concat] in M. rewrite app_nil_r in M. fold (wire (take (k + i) fs)) in M.
  rewrite <- S1, <- Ei, !length_app in *. lia.
Qed.

(** C39. A server's stream of well-formed WebSocket frames may be cut
    anywhere. Over any session of reads, calls for frames, queued texts and
    partial writes, the messages delivered are, in order, each once and
    whole, those of the first frames of the stream, the bytes not yet taken
    are what follows them, and what was sent is whole masked frames: the
    queued texts in order and the answers to those frames' pings in order.
    The session fails only at a frame that is longer than the read window
    (TooLarge), masked (BadFrame), part of a message (Fragmented) or a close
    (Closed), none of which is ever passed over, or at a ping whose answer
    is longer than the send window's room (Overflow). That room is what lies
    behind the queued bytes, and all of the window but them once they reach
    its end; a text is queued exactly when its frame fits in it. An idle
    answer means every message whose last byte was read is delivered, no
    frame read whole was one to refuse, and the next read has room. *)
Theorem stream_is_cut_anywhere rcap tcap seed fs ops later :
  (0 < rcap)%nat -> Z.of_nat tcap <= u64_max -> Forall wire_ok fs -> Forall op_bytes ops ->
  let s := session_run (session_new rcap tcap seed) ops in
  let f := framer s in
  fed s ++ later = wire fs ->
  (exists k out, Forall (fun x => refused rcap x = None) (take k fs) /\
     wire (take (k + closing (down s)) fs) ++ unread f = fed s /\ got s = messages (take k fs) /\
     sent s ++ tx_pending f = out_bytes out /\ sends Text out = texts s /\ sends Pong out = pings (take k fs) /\
     Forall (fun x => (of_op x = Text \/ of_op x = Pong) /\ mask_ok (of_mask x)) out /\
     (forall e, down s = Some e -> stopped rcap fs k f e)) /\
  (snd (next_frame f) = WsNext_Idle ->
     free (rx (rx_free_mut (fst (next_frame f)))) <> [] /\
     forall j, (length (wire (take j fs)) <= length (fed s))%nat ->
       (exists g, got s = messages (take j fs) ++ g) /\ (down s = None -> Forall (fun x => refused rcap x = None) (take j fs))) /\
  room (tx f) = (if (io_tail (tx f) =? tcap)%nat then tcap - length (tx_pending f) else tcap - io_tail (tx f))%nat /\
  (tx_pending f = [] -> room (tx f) = tcap) /\
  (forall parts, Forall byte (concat parts) -> let n := length (concat parts) in
     is_ok (snd (queue_text f parts)) = negb (room (tx f) <? client_header_len n + n)%nat).
Proof.
  intros Hr Hcap Fs Fo s f El. pose proof (run_in_step rcap tcap fs Hcap Hr Fs _ _ later Fo (new_in_step rcap tcap seed fs) El) as I. fold s in I.
  destruct I as (Hf & k & out & Fk & Eu & Eg & R1 & R2 & R3 & R4 & R5 & R6). fold f in Hf, Eu, R1, R6. destruct (room_spec _ _ (fk_tx _ _ _ Hf)) as [Rm Re].
  unfold tx_pending at 2 3. rewrite (proj1 (filled_len _ _ (fk_tx _ _ _ Hf))). split_and!; [|intros Hi|done|done|intros parts Fp; by apply (queue_text_fits rcap tcap)].
  - exists k, out. split_and!; try done. by apply Forall_and.
  - rewrite Eg, <- (messages_closing rcap fs k f (down s) R6), <- Eu.
    destruct (idle_is_caught_up rcap tcap fs (k + closing (down s)) f later Hcap Hr Fs Hf ltac:(by rewrite app_assoc, Eu) Hi) as [Hroom H].
    split; [done|]. intros j Hj. destruct (H j Hj) as [Hm Hp]. split; [done|]. intros D. apply Hp. rewrite D. cbn [closing]. by rewrite Nat.add_0_r.
Qed.

(** Bytes in front that were sent already are not room: a window whose tail is
    short of its end does not compact, and a frame its free bytes could hold
    together is refused. *)
Example room_in_front_is_not_used :
  let s := session_run (session_new 1024 20 7) [QueueText [[1; 2; 3; 4; 5; 6; 7; 8; 9]]; Flushed 14] in
  let '(f, r) := queue_text (framer s) [[1]] in
  tx_pending (framer s) = drop 14 (tx_pending (framer (session_run (session_new 1024 20 7) [QueueText [[1; 2; 3; 4; 5; 6; 7; 8; 9]]]))) /\
  length (tx_pending (framer s)) = 1%nat /\ r = Err Overflow /\ length (frame_bytes Text [1] [0; 0; 0; 0]) = 7%nat.
Proof. vm_compute. done. Qed.

Lemma stream_is_cut_anywhere_witness :
  let fs := [mkWireFrame [129; 2; 104; 105] Text true false [104; 105]; mkWireFrame [137; 1; 7] Ping true false [7]; mkWireFrame [130; 1; 9] Binary true false [9];
             mkWireFrame [1; 1; 8] Text false false [8]] in
  let s := session_run (session_new 16 32 7) [Fill [129; 2]; NextFrame; Fill [104; 105; 137]; NextFrame; QueueText [[1]; [2]]; NextFrame; Fill [1; 7; 130]; NextFrame; Flushed 3; Fill [1; 9; 1; 1]; NextFrame; NextFrame; Fill [8]; NextFrame] in
  let f := framer s in
  down s = Some Fragmented /\
  (exists k out, Forall (fun x => refused 16 x = None) (take k fs) /\
     wire (take (k + closing (down s)) fs) ++ unread f = fed s /\ got s = messages (take k fs) /\
     sent s ++ tx_pending f = out_bytes out /\ sends Text out = texts s /\ sends Pong out = pings (take k fs) /\
     Forall (fun x => (of_op x = Text \/ of_op x = Pong) /\ mask_ok (of_mask x)) out /\
     (forall e, down s = Some e -> stopped 16 fs k f e)) /\
  (snd (next_frame f) = WsNext_Idle ->
     free (rx (rx_free_mut (fst (next_frame f)))) <> [] /\
     forall j, (length (wire (take j fs)) <= length (fed s))%nat ->
       (exists g, got s = messages (take j fs) ++ g) /\ (down s = None -> Forall (fun x => refused 16 x = None) (take j fs))) /\
  room (tx f) = (if (io_tail (tx f) =? 32)%nat then 32 - length (tx_pending f) else 32 - io_tail (tx f))%nat /\
  (tx_pending f = [] -> room (tx f) = 32%nat) /\
  (forall parts, Forall byte (concat parts) -> let n := length (concat parts) in
     is_ok (snd (queue_text f parts)) = negb (room (tx f) <? client_header_len n + n)%nat).
Proof.
  intros fs s f. split; [reflexivity|]. apply (stream_is_cut_anywhere 16 32 7 fs _ []); [lia|vm_compute; congruence| | |reflexivity].
  - assert (forall l, forallb (fun b => (0 <=? b) && (b <? 256)) l = true -> Forall byte l) as B.
    { intros l H. rewrite Forall_forall. rewrite forallb_forall in H. intros b Hb. apply list_elem_of_In in Hb. specialize (H b Hb). unfold byte. lia. }
    repeat (apply Forall_cons; split; [split; [by apply B|do 2 eexists; split_and!; reflexivity]|]). constructor.
  - repeat constructor; vm_compute; congruence.
Defined.

(** ** Requests, subscriptions, queued frames, keepalive *)

Section Requests.
Context {K : Type} `{ReqKind K}.
Existing Instance ReqKind_dec.

(** The request an id has in flight. *)
Definition in_flight (t : PendingTable K) (id : Z) : option (PendingReq K) :=
  if (id =? 0) || negb (is_used (slot_at t id)) || negb (req_id (slot_at t id) =? id) then None else Some (slot_at t id).

Lemma slot_in_range (t : PendingTable K) id k : Z.of_nat (length t) = 2 ^ k -> 0 <= k -> (slot_of t id < length t)%nat.
Proof.
  intros E Hk. unfold slot_of. rewrite E, Z.sub_1_r, <- Z.ones_equiv, Z.land_ones by lia.
  pose proof (Z.mod_pos_bound id (2 ^ k) ltac:(apply Z.pow_pos_nonneg; lia)). lia.
Qed.

(** A slot written: its own id's slot reads back, the others keep theirs. *)
Lemma slot_written (t : PendingTable K) id j r k : Z.of_nat (length t) = 2 ^ k -> 0 <= k ->
  slot_at (<[slot_of t id := r]> t) j = if (slot_of t j =? slot_of t id)%nat then r else slot_at t j.
Proof.
  intros E Hk. pose proof (slot_in_range t id k E Hk) as L. unfold slot_at.
  assert (slot_of (<[slot_of t id := r]> t) j = slot_of t j) as -> by (unfold slot_of at 1; by rewrite (length_insert (A := PendingReq K))).
  destruct (Nat.eqb_spec (slot_of t j) (slot_of t id)) as [->|N]; [by rewrite (list_lookup_insert_eq (A := PendingReq K))|].
  by rewrite (list_lookup_insert_ne (A := PendingReq K)) by done.
Qed.

(** The table is a map of the ids in flight: recording adds one to it or
    refuses a zero id or a slot that is taken, completing takes exactly it out
    and returns it, and neither touches another id. *)
Theorem request_table_is_a_map (t : PendingTable K) id kind now k : Z.of_nat (length t) = 2 ^ k -> 0 <= k -> kind <> FREE ->
  (let '(t', r) := pending_record t id kind now in
   match r with
   | Ok _ => pending_is_free t id = true /\ length t' = length t /\ in_flight t' id = Some (mkPendingReq id now kind) /\ forall j, j <> id -> in_flight t' j = in_flight t j
   | Err ZeroId => id = 0 /\ t' = t
   | Err SlotBusy => id <> 0 /\ pending_is_free t id = false /\ t' = t
   end) /\
  (let '(t', r) := pending_complete t id in
   r = in_flight t id /\ length t' = length t /\ in_flight t' id = None /\ forall j, j <> id -> in_flight t' j = in_flight t j).
Proof.
  intros E Hk Hf. split.
  - unfold pending_record, pending_is_free. destruct (Z.eqb_spec id 0) as [Z0|N0]; [done|]. destruct (is_used (slot_at t id)) eqn:U; [done|].
    rewrite (length_insert (A := PendingReq K)). split_and!; [done|done| |].
    + unfold in_flight. rewrite (slot_written t id id _ k E Hk), Nat.eqb_refl, (proj2 (Z.eqb_neq _ _) N0). cbn [orb req_id]. rewrite Z.eqb_refl.
      unfold is_used. cbn [req_kind]. by rewrite bool_decide_false.
    + intros j Nj. unfold in_flight. rewrite (slot_written t id j _ k E Hk). destruct (Nat.eqb_spec (slot_of t j) (slot_of t id)) as [Es|]; [|done].
      assert (slot_at t j = slot_at t id) as -> by (unfold slot_at; by rewrite Es). rewrite U. cbn [req_id negb]. rewrite orb_true_r. cbn [orb].
      by rewrite (proj2 (Z.eqb_neq id j)), orb_true_r by lia.
  - unfold pending_complete. destruct (Z.eqb_spec id 0) as [->|N0]; [by unfold in_flight|]. cbv zeta.
    destruct (negb (is_used (slot_at t id)) || negb (req_id (slot_at t id) =? id)) eqn:C.
    { assert (in_flight t id = None) as I by (unfold in_flight; by rewrite <- orb_assoc, C, orb_true_r). by rewrite I. }
    apply orb_false_iff in C as [C1 C2]. apply negb_false_iff in C1, C2. apply Z.eqb_eq in C2. rewrite (length_insert (A := PendingReq K)). split_and!; [|done| |].
    + unfold in_flight. by rewrite C1, C2, Z.eqb_refl, (proj2 (Z.eqb_neq _ _) N0).
    + unfold in_flight. rewrite (slot_written t id id _ k E Hk), Nat.eqb_refl. unfold is_used. cbn. by rewrite bool_decide_true, orb_true_r.
    + intros j Nj. unfold in_flight. rewrite (slot_written t id j _ k E Hk). destruct (Nat.eqb_spec (slot_of t j) (slot_of t id)) as [Es|]; [|done].
      assert (slot_at t j = slot_at t id) as -> by (unfold slot_at; by rewrite Es). rewrite C1, C2. unfold is_used. cbn [PendingReq_empty req_kind].
      rewrite bool_decide_true by done. by rewrite (proj2 (Z.eqb_neq id j)), !orb_true_r by lia.
Qed.

(** A subscription that is taken is found, and changes no other. *)
Lemma insert_from_spec (t : SubTable K) id kind t' : id <> 0 -> insert_from t id kind = Some t' -> length t' = length t /\
  (kind_of t id = None -> kind_of t' id = Some kind) /\ forall j, j <> id -> j <> 0 -> kind_of t' j = kind_of t j.
Proof.
  intros N0. revert t'. induction t as [|[i c] t IH]; intros t'; [done|]. cbn [insert_from]. destruct (Z.eqb_spec i 0) as [->|Ni].
  - intros [= <-]. cbn [length kind_of]. rewrite Z.eqb_refl. split_and!; [done|done|]. intros j Nj Nj0.
    by rewrite (proj2 (Z.eqb_neq id j)), (proj2 (Z.eqb_neq 0 j)) by lia.
  - destruct (insert_from t id kind) as [u|]; [|done]. intros [= <-]. destruct (IH u eq_refl) as (Hl & Hi & Ho). cbn [length kind_of].
    split_and!; [by rewrite Hl|by destruct (i =? id)|]. intros j Nj Nj0. destruct (i =? j); [done|by apply Ho].
Qed.

Lemma insert_from_full (t : SubTable K) id kind : insert_from t id kind = None <-> sub_count t = length t.
Proof.
  unfold sub_count. induction t as [|[i c] t IH]; [done|]. cbn [insert_from List.filter fst length]. destruct (Z.eqb_spec i 0) as [->|Ni]; cbn [negb].
  - split; [done|]. pose proof (List.filter_length_le (fun r : Z * K => negb (fst r =? 0)) t). lia.
  - destruct (insert_from t id kind); cbn [option_map length]; [split; [done|intros [= E]; by apply IH in E]|]. split; [intros _; f_equal; by apply IH|done].
Qed.

Theorem subscription_table_is_a_map (t : SubTable K) id kind : let '(t', r) := sub_insert t id kind in
  match r with
  | Ok _ => id <> 0 /\ length t' = length t /\ (kind_of t id = None -> kind_of t' id = Some kind) /\ forall j, j <> id -> j <> 0 -> kind_of t' j = kind_of t j
  | Err ReservedId => id = 0 /\ t' = t
  | Err Full => sub_count t = length t /\ t' = t
  end.
Proof.
  unfold sub_insert. destruct (Z.eqb_spec id 0) as [->|N]; [done|]. destruct (insert_from t id kind) as [t'|] eqn:E.
  - destruct (insert_from_spec t id kind t' N E) as (A & B & C). done.
  - split; [by apply insert_from_full in E|done].
Qed.
End Requests.

Lemma queue_masked_spec cap b ctr write o w : io_ok cap b -> Z.of_nat cap <= u64_max ->
  (forall dst, Z.of_nat (length dst) <= u64_max -> write dst (ws_mask_from_counter ctr) = let f := frame_bytes o w (ws_mask_from_counter ctr) in
     if (length dst <? length f)%nat then (dst, Err BufferTooSmall) else (f ++ drop (length f) dst, Ok (length f))) ->
  let '(b', ctr', r) := queue_masked b ctr write in
  io_ok cap b' /\ ctr' = wrap_u64 (ctr + 1) /\ filled b' = filled b ++ (if is_ok r then frame_bytes o w (ws_mask_from_counter ctr) else []).
Proof.
  intros Hb Hcap W. unfold queue_masked. destruct (free_mut_spec _ _ Hb) as (Hb' & Ef & _). set (c := free_mut b) in *. clearbody c.
  pose proof (free_len _ _ Hb') as Lf. rewrite W by lia. cbv zeta. destruct (Nat.ltb_spec (length (free c)) (length (frame_bytes o w (ws_mask_from_counter ctr)))) as [L|L]; cbn [is_ok].
  - assert (set_free c (free c) = c) as -> by (destruct (window_of _ _ Hb') as (x & u & y & -> & _); by rewrite window_free, put_nothing). by rewrite app_nil_r.
  - destruct (put_spec cap c _ Hb' L) as [Ok' E']. split_and!; [done|done|by rewrite E', Ef].
Qed.

(** A frame of parts is appended to the window whole, under the counter's own
    mask, or nothing is; the counter moves on either way. A pure render is its
    parts. *)
Theorem queued_frames_are_whole cap b ctr parts : io_ok cap b -> Z.of_nat cap <= u64_max -> Forall byte (concat parts) ->
  let whole o q := let '(b', ctr', r) := q in
    io_ok cap b' /\ ctr' = wrap_u64 (ctr + 1) /\ filled b' = filled b ++ (if is_ok (r : result unit WsWriteErr) then frame_bytes o (concat parts) (ws_mask_from_counter ctr) else []) in
  whole Text (queue_masked_text_frame_parts b ctr parts) /\ whole Binary (queue_masked_binary_frame_parts b ctr parts) /\
  whole Text (queue_masked_text_frame_rendered b ctr (puts parts)).
Proof.
  intros Hb Hcap Fp. cbv zeta. assert (mask_ok (ws_mask_from_counter ctr)) as [Hm Fm].
  { unfold ws_mask_from_counter. set (z := Z.lxor _ _). destruct (to_le_bytes 8 z) as [L F]. split; [rewrite length_take, L; done|by apply Forall_take]. }
  assert (payload_of parts = concat parts) as E by (unfold payload_of; by rewrite map_id). split_and!.
  - apply (queue_masked_spec cap b ctr _ Text (concat parts)); [done|done|]. intros dst Hd. rewrite <- E. apply ws_write_frame_with_spec; by rewrite ?E.
  - apply (queue_masked_spec cap b ctr _ Binary (concat parts)); [done|done|]. intros dst Hd. rewrite <- E. apply ws_write_frame_with_spec; by rewrite ?E.
  - apply (queue_masked_spec cap b ctr _ Text (concat parts)); [done|done|]. intros dst Hd. rewrite rendered_frame_is_the_parts_frame by done.
    rewrite <- E. apply ws_write_frame_with_spec; by rewrite ?E.
Qed.

(** No ping within the interval of the last one, and no silent session past
    its limit. *)
Theorem keepalive_neither_storms_nor_sleeps k p now last start : 0 <= p <= now -> 0 <= last <= now -> now <= u64_max ->
  (now - p < ping_interval_ns (ka_cfg k) -> 0 < p ->
     keepalive_poll (mark_ping_sent k p) now last <> SendPing /\ poll_client_heartbeat (mark_ping_sent k p) now last start <> SendPing) /\
  (keepalive_poll k now last = Reconnect <-> idle_timeout_ns (ka_cfg k) <= now - last) /\
  (poll_client_heartbeat k now last start = Reconnect <-> idle_timeout_ns (ka_cfg k) <= now - last).
Proof.
  intros Hp Hl Hn. assert (forall a, 0 <= a <= now -> sat_u64 (now - a) = now - a) as S by (intros a Ha; unfold sat_u64, clamp, u64_max in *; lia).
  unfold keepalive_poll, poll_client_heartbeat, mark_ping_sent. cbn [ka_cfg last_ping_ns]. rewrite (S last) by lia. split_and!.
  - intros H0 H1. destruct (Z.leb_spec (idle_timeout_ns (ka_cfg k)) (now - last)); [done|]. rewrite (proj2 (Z.eqb_neq p 0)) by lia. rewrite (S p) by lia.
    rewrite (proj2 (Z.leb_gt _ _) H0). split; [|done]. destruct (Z.ltb_spec last p); [rewrite (S p) by lia|rewrite (S last) by lia]; rewrite (proj2 (Z.leb_gt _ _)) by lia; done.
  - destruct (Z.leb_spec (idle_timeout_ns (ka_cfg k)) (now - last)) as [L|L]; [done|]. split; [by destruct (ping_interval_ns (ka_cfg k) <=? _)|lia].
  - destruct (Z.leb_spec (idle_timeout_ns (ka_cfg k)) (now - last)) as [L|L]; [done|]. split; [by destruct (ping_interval_ns (ka_cfg k) <=? _)|lia].
Qed.
