(* ===== verification/Timer.v ===== *)
(** * The deadline queue ([crates/exec-gateway/src/timer.rs])

    A binary min-heap over (deadline, arm order) in one array, with each
    timer's heap position kept per slot, a stack of free slots and a
    generation per slot. [N] is the queue's size. *)

From S2P Require Import Prelude.

Record TimerId := mkTimerId { ti_slot : nat; ti_gen : Z }.
Record Expired := mkExpired { ex_deadline_ns : Z; ex_key : Z; ex_kind : Z }.
Inductive TimerFull : Type := Full.

Record HeapEnt := mkEnt { he_deadline : Z; he_order : Z; he_slot : nat }.

#[export] Instance timer_id_eq_dec : EqDecision TimerId.
Proof. solve_decision. Defined.
#[export] Instance heap_ent_eq_dec : EqDecision HeapEnt.
Proof. solve_decision. Defined.
#[export] Instance heap_ent_inhabited : Inhabited HeapEnt := populate (mkEnt 0 0 0).

Definition NO_POS : Z := u32_max.

(** [(deadline, order)] pairs compared as tuples are. *)
Definition less (a b : HeapEnt) : bool :=
  (he_deadline a <? he_deadline b) || ((he_deadline a =? he_deadline b) && (he_order a <? he_order b)).

Record TimerQueue := mkTimers {
  tq_heap : list HeapEnt;
  tq_len : nat;
  tq_pos : list Z;
  tq_gen : list Z;
  tq_key : list Z;
  tq_kind : list Z;
  tq_free : list nat;
  tq_free_len : nat;
  tq_next_order : Z
}.

Section Timer.
Context (N : nat).

(** Slot 0 is handed out first. *)
Definition TimerQueue_new : TimerQueue :=
  mkTimers (replicate N (mkEnt 0 0 0)) 0 (replicate N NO_POS) (replicate N 0) (replicate N 0) (replicate N 0)
    ((fun i => N - 1 - i)%nat <$> seq 0 N) N 0.

Definition set_heap (h : list HeapEnt) (p : list Z) (q : TimerQueue) : TimerQueue :=
  mkTimers h (tq_len q) p (tq_gen q) (tq_key q) (tq_kind q) (tq_free q) (tq_free_len q) (tq_next_order q).

Definition tq_is_empty (q : TimerQueue) : bool := (tq_len q =? 0)%nat.

Definition next_deadline (q : TimerQueue) : option Z :=
  if (tq_len q =? 0)%nat then None else Some (he_deadline (tq_heap q !!! 0%nat)).

(** [heap.swap(a, b)] and the two positions. *)
Definition heap_swap (a b : nat) (h : list HeapEnt) : list HeapEnt := <[a := h !!! b]> (<[b := h !!! a]> h).

Definition swap (a b : nat) (q : TimerQueue) : TimerQueue :=
  let h := heap_swap a b (tq_heap q) in
  set_heap h (<[he_slot (h !!! b) := Z.of_nat b]> (<[he_slot (h !!! a) := Z.of_nat a]> (tq_pos q))) q.

Definition parent (at_ : nat) : nat := ((at_ - 1) / 2)%nat.

(** The fuel is the index: a parent is below its child. *)
Fixpoint sift_up (fuel at_ : nat) (q : TimerQueue) : TimerQueue :=
  match fuel with
  | O => q
  | S fuel =>
      if (at_ =? 0)%nat then q
      else if negb (less (tq_heap q !!! at_) (tq_heap q !!! parent at_)) then q
      else sift_up fuel (parent at_) (swap at_ (parent at_) q)
  end.

(** The lesser child of [at_], the left one if there is no right. *)
Definition lesser_child (at_ : nat) (q : TimerQueue) : nat :=
  let l := (2 * at_ + 1)%nat in
  let r := (l + 1)%nat in
  if (r <? tq_len q)%nat && less (tq_heap q !!! r) (tq_heap q !!! l) then r else l.

(** The fuel is the length: a child is above its parent. *)
Fixpoint sift_down (fuel at_ : nat) (q : TimerQueue) : TimerQueue :=
  match fuel with
  | O => q
  | S fuel =>
      if (tq_len q <=? 2 * at_ + 1)%nat then q
      else
        let c := lesser_child at_ q in
        if negb (less (tq_heap q !!! c) (tq_heap q !!! at_)) then q
        else sift_down fuel c (swap at_ c q)
  end.

Definition arm (deadline key kind : Z) (q : TimerQueue) : TimerQueue * result TimerId TimerFull :=
  if (tq_free_len q =? 0)%nat then (q, Err Full)
  else
    let free_len := (tq_free_len q - 1)%nat in
    let slot := tq_free q !!! free_len in
    let at_ := tq_len q in
    let q := mkTimers (<[at_ := mkEnt deadline (tq_next_order q) slot]> (tq_heap q)) (at_ + 1)
               (<[slot := Z.of_nat at_]> (tq_pos q)) (tq_gen q) (<[slot := key]> (tq_key q))
               (<[slot := kind]> (tq_kind q)) (tq_free q) free_len (wrap_u64 (tq_next_order q + 1)) in
    (sift_up at_ at_ q, Ok (mkTimerId slot (get (tq_gen q) slot))).

Definition remove_at (at_ : nat) (q : TimerQueue) : TimerQueue :=
  let s := he_slot (tq_heap q !!! at_) in
  let len := (tq_len q - 1)%nat in
  let pos := <[s := NO_POS]> (tq_pos q) in
  let gen := upd (fun g => wrap_u64 (g + 1)) s (tq_gen q) in
  let free := <[tq_free_len q := s]> (tq_free q) in
  let q1 := mkTimers (tq_heap q) len pos gen (tq_key q) (tq_kind q) free (tq_free_len q + 1) (tq_next_order q) in
  if (at_ =? len)%nat then q1
  else
    let h := <[at_ := tq_heap q !!! len]> (tq_heap q) in
    let q2 := set_heap h (<[he_slot (h !!! at_) := Z.of_nat at_]> pos) q1 in
    if (0 <? at_)%nat && less (h !!! at_) (h !!! parent at_)
    then sift_up at_ at_ q2 else sift_down len at_ q2.

Definition timer_cancel (id : TimerId) (q : TimerQueue) : TimerQueue * bool :=
  let s := ti_slot id in
  if (N <=? s)%nat || negb (get (tq_gen q) s =? ti_gen id) || (get (tq_pos q) s =? NO_POS) then (q, false)
  else (remove_at (Z.to_nat (get (tq_pos q) s)) q, true).

Definition pop_due (now : Z) (q : TimerQueue) : TimerQueue * option Expired :=
  let top := tq_heap q !!! 0%nat in
  if (tq_len q =? 0)%nat || (now <? he_deadline top) then (q, None)
  else (remove_at 0 q, Some (mkExpired (he_deadline top) (get (tq_key q) (he_slot top)) (get (tq_kind q) (he_slot top)))).

(** The fuel is the length: each turn removes one. *)
Fixpoint clear_from (fuel : nat) (q : TimerQueue) : TimerQueue :=
  match fuel with
  | O => q
  | S fuel => if (tq_len q =? 0)%nat then q else clear_from fuel (remove_at (tq_len q - 1) q)
  end.

Definition timer_clear (q : TimerQueue) : TimerQueue := clear_from (tq_len q) q.
End Timer.
