(* ===== verification/TimerProofs.v ===== *)
(** * The deadline queue fires in order and its handles stay dead

    The heap refines a list of armed timers in arm order: the earliest
    deadline fires first, ties in the order they were armed, and a handle
    answers for its own timer only. *)

From S2P Require Import Prelude Timer.

(** ** The order *)

Definition le (a b : HeapEnt) : Prop := less b a = false.

Lemma less_spec a b :
  less a b = true <-> he_deadline a < he_deadline b \/ he_deadline a = he_deadline b /\ he_order a < he_order b.
Proof.
  unfold less. rewrite orb_true_iff, andb_true_iff, !Z.ltb_lt, Z.eqb_eq. done.
Qed.

Lemma le_spec a b :
  le a b <-> he_deadline a < he_deadline b \/ he_deadline a = he_deadline b /\ he_order a <= he_order b.
Proof.
  unfold le. rewrite <- not_true_iff_false, less_spec. lia.
Qed.

Lemma le_refl a : le a a.
Proof. rewrite le_spec. lia. Qed.

Lemma le_trans a b c : le a b -> le b c -> le a c.
Proof. rewrite !le_spec. lia. Qed.

Lemma less_le a b : less a b = true -> le a b.
Proof. rewrite less_spec, le_spec. lia. Qed.

Lemma parent_below j : (0 < j)%nat -> (parent j < j)%nat.
Proof. intros H. unfold parent. pose proof (Nat.div_mod_eq (j - 1) 2). lia. Qed.

Lemma parent_children j i : (0 < j)%nat -> parent j = i <-> j = (2 * i + 1)%nat \/ j = (2 * i + 2)%nat.
Proof.
  intros H. unfold parent. pose proof (Nat.div_mod_eq (j - 1) 2). pose proof (Nat.mod_upper_bound (j - 1) 2 ltac:(lia)). lia.
Qed.

Section Proofs.
Context (N : nat) (HN : Z.of_nat N <= NO_POS).

#[local] Abbreviation ent q i := (tq_heap q !!! i).

(** ** The structure *)

Record shape (q : TimerQueue) : Prop := {
  sh_heap : length (tq_heap q) = N;
  sh_pos : length (tq_pos q) = N;
  sh_gen : length (tq_gen q) = N;
  sh_key : length (tq_key q) = N;
  sh_kind : length (tq_kind q) = N;
  sh_free : length (tq_free q) = N;
  sh_len : (tq_len q + tq_free_len q = N)%nat;
  sh_at : forall i, (i < tq_len q)%nat -> (he_slot (ent q i) < N)%nat /\ get (tq_pos q) (he_slot (ent q i)) = Z.of_nat i;
  sh_idle : forall s, (s < N)%nat -> get (tq_pos q) s = NO_POS \/ exists i, (i < tq_len q)%nat /\ he_slot (ent q i) = s;
  sh_stack : forall k, (k < tq_free_len q)%nat -> (tq_free q !!! k < N)%nat /\ get (tq_pos q) (tq_free q !!! k) = NO_POS;
  sh_stack_inj : forall j k, (j < tq_free_len q)%nat -> (k < tq_free_len q)%nat -> tq_free q !!! j = tq_free q !!! k -> j = k
}.

Lemma slots_distinct q i j :
  shape q -> (i < tq_len q)%nat -> (j < tq_len q)%nat -> he_slot (ent q i) = he_slot (ent q j) -> i = j.
Proof.
  intros W Hi Hj E. destruct (sh_at q W i Hi) as [_ E1], (sh_at q W j Hj) as [_ E2]. rewrite E in E1. lia.
Qed.

(** The entries the heap holds. *)
Definition live (q : TimerQueue) (e : HeapEnt) : Prop := exists i, (i < tq_len q)%nat /\ ent q i = e.

(** All but the heap and the positions, and the entries themselves. *)
Record same_timers (q q' : TimerQueue) : Prop := {
  st_len : tq_len q' = tq_len q;
  st_gen : tq_gen q' = tq_gen q;
  st_key : tq_key q' = tq_key q;
  st_kind : tq_kind q' = tq_kind q;
  st_next : tq_next_order q' = tq_next_order q;
  st_live : forall e, live q' e <-> live q e
}.

Lemma same_refl q : same_timers q q.
Proof. by split. Qed.

Lemma same_trans a b c : same_timers a b -> same_timers b c -> same_timers a c.
Proof.
  intros [L1 G1 K1 D1 O1 V1] [L2 G2 K2 D2 O2 V2]. split; try congruence. intros e. by rewrite V2.
Qed.

(** *** The swap *)

Lemma swap_at a b q i :
  shape q -> (a < tq_len q)%nat -> (b < tq_len q)%nat ->
  ent (swap a b q) i = if decide (i = a) then ent q b else if decide (i = b) then ent q a else ent q i.
Proof.
  intros W Ha Hb. pose proof (sh_heap q W). pose proof (sh_len q W). unfold swap, heap_swap. cbn [tq_heap set_heap].
  case_decide as E1; [subst; by rewrite list_lookup_total_insert_eq by (rewrite length_insert; lia)|].
  rewrite list_lookup_total_insert_ne by done.
  case_decide as E2; [subst; by rewrite list_lookup_total_insert_eq by lia|].
  by rewrite list_lookup_total_insert_ne.
Qed.

Lemma swap_shape a b q :
  shape q -> (a < tq_len q)%nat -> (b < tq_len q)%nat -> a <> b -> shape (swap a b q).
Proof.
  intros W Ha Hb Hab.
  assert (forall k, ent (swap a b q) k = if decide (k = a) then ent q b else if decide (k = b) then ent q a else ent q k) as E
    by (intros; by apply swap_at).
  pose proof (sh_at q W a Ha) as [Ra Pa].
  pose proof (sh_at q W b Hb) as [Rb Pb].
  assert (he_slot (ent q a) <> he_slot (ent q b)) as Hne by (intros X; by apply Hab, (slots_distinct q a b W)).
  assert (tq_pos (swap a b q) = <[he_slot (ent q a) := Z.of_nat b]> (<[he_slot (ent q b) := Z.of_nat a]> (tq_pos q))) as Ep.
  { pose proof (E a) as Ea. pose proof (E b) as Eb. rewrite (decide_True (P := a = a)) in Ea by done.
    rewrite (decide_False (P := b = a)), (decide_True (P := b = b)) in Eb by done. unfold swap in *. cbn [tq_pos tq_heap set_heap] in *. by rewrite Ea, Eb. }
  pose proof (sh_pos q W) as Lp.
  assert (forall s, get (tq_pos (swap a b q)) s =
    if decide (s = he_slot (ent q a)) then Z.of_nat b else if decide (s = he_slot (ent q b)) then Z.of_nat a else get (tq_pos q) s) as G.
  { intros s. rewrite Ep. case_decide as E1; [subst; by rewrite get_insert_eq by (rewrite length_insert; lia)|].
    rewrite get_insert_ne by done. case_decide as E2; [subst; by rewrite get_insert_eq by lia|]. by rewrite get_insert_ne. }
  split; [| |apply (sh_gen q W)|apply (sh_key q W)|apply (sh_kind q W)|apply (sh_free q W)|apply (sh_len q W)| | | |apply (sh_stack_inj q W)].
  - unfold swap, heap_swap. cbn [tq_heap set_heap]. rewrite !length_insert. exact (sh_heap q W).
  - rewrite Ep, !length_insert. exact (sh_pos q W).
  - intros i Hi. change (tq_len (swap a b q)) with (tq_len q) in Hi. rewrite E by done. rewrite G.
    case_decide as E1; [|case_decide as E2].
    + subst. split; [done|]. rewrite decide_False, decide_True by done. done.
    + subst. split; [done|]. by rewrite decide_True.
    + destruct (sh_at q W i Hi) as [R P]. split; [done|]. rewrite !decide_False; [done|..];
        intros X; [by apply E2, (slots_distinct q i b W)|by apply E1, (slots_distinct q i a W)].
  - intros s Hs. change (tq_len (swap a b q)) with (tq_len q). rewrite G.
    case_decide as E1; [right; exists b; rewrite E by done; by rewrite decide_False, decide_True by done|].
    case_decide as E2; [right; exists a; rewrite E by done; by rewrite decide_True by done|].
    destruct (sh_idle q W s Hs) as [?|(i & Hi & Es)]; [by left|right]. exists i. split; [done|].
    rewrite E by done. rewrite !decide_False; [done|..]; intros ->; [by apply E2|by apply E1].
  - intros k Hk. change (tq_free (swap a b q)) with (tq_free q). destruct (sh_stack q W k Hk) as [Rk Pk].
    split; [done|]. rewrite G. rewrite !decide_False; [done|..]; intros X; rewrite X in Pk.
    + rewrite Pb in Pk. pose proof (sh_len q W). unfold NO_POS in *. lia.
    + rewrite Pa in Pk. pose proof (sh_len q W). unfold NO_POS in *. lia.
Qed.

Lemma swap_same a b q :
  shape q -> (a < tq_len q)%nat -> (b < tq_len q)%nat -> same_timers q (swap a b q).
Proof.
  intros W Ha Hb. split; try done. intros e. unfold live. change (tq_len (swap a b q)) with (tq_len q).
  assert (forall i, (i < tq_len q)%nat -> exists j, (j < tq_len q)%nat /\ ent (swap a b q) j = ent q i) as X.
  { intros i Hi. destruct (decide (i = a)) as [->|]; [|destruct (decide (i = b)) as [->|]].
    - exists b. split; [done|]. rewrite swap_at by done. case_decide; [by subst|]. by rewrite decide_True.
    - exists a. split; [done|]. rewrite swap_at by done. by rewrite decide_True.
    - exists i. split; [done|]. rewrite swap_at by done. by rewrite !decide_False. }
  split.
  - intros (i & Hi & <-). rewrite swap_at by done. repeat case_decide; eauto.
  - intros (i & Hi & <-). by apply X.
Qed.

(** ** The sifts restore the heap *)

Definition heap_ok (q : TimerQueue) : Prop :=
  forall j, (0 < j < tq_len q)%nat -> le (ent q (parent j)) (ent q j).

(** A parent's parent against [i]'s children. *)
Definition across (q : TimerQueue) (i : nat) : Prop :=
  forall j, (0 < j < tq_len q)%nat -> parent j = i -> (0 < i)%nat -> le (ent q (parent i)) (ent q j).

Definition up_ok (q : TimerQueue) (i : nat) : Prop :=
  (forall j, (0 < j < tq_len q)%nat -> j <> i -> le (ent q (parent j)) (ent q j)) /\ across q i.

Definition down_ok (q : TimerQueue) (i : nat) : Prop :=
  (forall j, (0 < j < tq_len q)%nat -> parent j <> i -> le (ent q (parent j)) (ent q j)) /\ across q i.

Lemma sift_up_step q i :
  shape q -> (0 < i < tq_len q)%nat -> up_ok q i -> less (ent q i) (ent q (parent i)) = true ->
  up_ok (swap i (parent i) q) (parent i).
Proof.
  intros W Hi [U X] Hl. pose proof (parent_below i ltac:(lia)) as Hp.
  assert (forall k, ent (swap i (parent i) q) k =
    if decide (k = i) then ent q (parent i) else if decide (k = parent i) then ent q i else ent q k) as E
    by (intros; apply swap_at; [done|lia..]).
  split.
  - intros j Hj Hne. change (tq_len (swap i (parent i) q)) with (tq_len q) in Hj. rewrite !E.
    rewrite (decide_False (P := j = parent i)) by done. pose proof (parent_below j ltac:(lia)) as Hpj.
    destruct (decide (j = i)) as [->|Hji].
    + repeat case_decide; try lia. by apply less_le.
    + destruct (decide (parent j = i)) as [Epi|Epi]; [apply X; done || lia|].
      destruct (decide (parent j = parent i)) as [Epp|Epp]; [|by apply U].
      apply le_trans with (ent q (parent i)); [by apply less_le|]. rewrite <- Epp. apply U; done || lia.
  - intros j Hj Epj Hpos. change (tq_len (swap i (parent i) q)) with (tq_len q) in Hj. rewrite !E.
    pose proof (parent_below (parent i) Hpos) as Hpp. pose proof (parent_below j ltac:(lia)) as Hpj.
    rewrite (decide_False (P := parent (parent i) = i)), (decide_False (P := parent (parent i) = parent i)) by lia.
    assert (le (ent q (parent (parent i))) (ent q (parent i))) as L1 by (apply U; lia).
    destruct (decide (j = i)) as [->|Hji]; [done|]. rewrite (decide_False (P := j = parent i)) by lia.
    apply le_trans with (ent q (parent i)); [done|]. rewrite <- Epj. apply U; done || lia.
Qed.

Lemma sift_up_spec fuel i q :
  (i <= fuel)%nat -> (i < tq_len q)%nat -> shape q -> up_ok q i ->
  let q' := sift_up fuel i q in shape q' /\ heap_ok q' /\ same_timers q q' /\ tq_free q' = tq_free q /\ tq_free_len q' = tq_free_len q.
Proof.
  revert i q. induction fuel as [|fuel IH]; intros i q Hf Hi W U; cbv zeta; cbn [sift_up].
  - split_and!; [done| |apply same_refl|done|done]. intros j Hj. apply U; lia.
  - destruct (Nat.eqb_spec i 0) as [->|Hi0].
    { split_and!; [done| |apply same_refl|done|done]. intros j Hj. apply U; lia. }
    destruct (less (ent q i) (ent q (parent i))) eqn:El; cbn [negb].
    2: { split_and!; [done| |apply same_refl|done|done]. intros j Hj. destruct (decide (j = i)) as [->|]; [done|by apply U]. }
    pose proof (parent_below i ltac:(lia)) as Hp.
    destruct (IH (parent i) (swap i (parent i) q)) as (W' & K & S & F1 & F2); [lia|change (parent i < tq_len q)%nat; lia|apply swap_shape; done || lia|..].
    { apply sift_up_step; [done|lia|done|done]. }
    split_and!; [done|done| |done|done]. eapply same_trans; [|exact S]. apply swap_same; [done|lia..].
Qed.

Lemma lesser_child_spec q i :
  shape q -> (2 * i + 1 < tq_len q)%nat ->
  let c := lesser_child i q in
  (c < tq_len q)%nat /\ (0 < c)%nat /\ parent c = i /\
  forall j, (0 < j < tq_len q)%nat -> parent j = i -> le (ent q c) (ent q j).
Proof.
  intros W Hl. unfold lesser_child. cbv zeta. replace (2 * i + 1 + 1)%nat with (2 * i + 2)%nat by lia.
  destruct (Nat.ltb_spec (2 * i + 2) (tq_len q)) as [Hr|Hr]; cbn [andb].
  - destruct (less (ent q (2 * i + 2)%nat) (ent q (2 * i + 1)%nat)) eqn:E.
    + split_and!; [done|lia|apply parent_children; lia|]. intros j Hj Hp.
      apply parent_children in Hp as [->| ->]; [by apply less_le|apply le_refl|lia].
    + split_and!; [done|lia|apply parent_children; lia|]. intros j Hj Hp.
      apply parent_children in Hp as [->| ->]; [apply le_refl|done|lia].
  - split_and!; [done|lia|apply parent_children; lia|]. intros j Hj Hp.
    apply parent_children in Hp as [->| ->]; [apply le_refl|lia|lia].
Qed.

Lemma sift_down_step q i c :
  shape q -> (i < tq_len q)%nat -> (0 < c < tq_len q)%nat -> parent c = i -> down_ok q i ->
  (forall j, (0 < j < tq_len q)%nat -> parent j = i -> le (ent q c) (ent q j)) ->
  less (ent q c) (ent q i) = true -> down_ok (swap i c q) c.
Proof.
  intros W Hi Hc Ep [U X] Hmin Hl. pose proof (parent_below c ltac:(lia)) as Hlt.
  assert (forall k, ent (swap i c q) k =
    if decide (k = i) then ent q c else if decide (k = c) then ent q i else ent q k) as E
    by (intros; apply swap_at; [done|lia..]).
  split.
  - intros j Hj Hne. change (tq_len (swap i c q)) with (tq_len q) in Hj. rewrite !E.
    rewrite (decide_False (P := parent j = c)) by done. pose proof (parent_below j ltac:(lia)) as Hpj.
    destruct (decide (parent j = i)) as [Epj|Epj].
    + rewrite (decide_False (P := j = i)) by lia. destruct (decide (j = c)); [by apply less_le|by apply Hmin].
    + destruct (decide (j = i)) as [->|Hji]; [by apply X; lia|].
      rewrite decide_False by (intros ->; by rewrite Ep in Epj). by apply U.
  - intros j Hj Epj Hpos. change (tq_len (swap i c q)) with (tq_len q) in Hj. rewrite !E, Ep.
    pose proof (parent_below j ltac:(lia)) as Hpj. rewrite (decide_True (P := i = i)) by done.
    rewrite (decide_False (P := j = i)), (decide_False (P := j = c)) by lia. rewrite <- Epj. apply U; [done|lia].
Qed.

Lemma sift_down_spec fuel i q :
  (tq_len q <= i + fuel)%nat -> (i < tq_len q)%nat -> shape q -> down_ok q i ->
  let q' := sift_down fuel i q in shape q' /\ heap_ok q' /\ same_timers q q' /\ tq_free q' = tq_free q /\ tq_free_len q' = tq_free_len q.
Proof.
  revert i q. induction fuel as [|fuel IH]; intros i q Hf Hi W U; cbv zeta; [lia|]. cbn [sift_down].
  destruct (Nat.leb_spec (tq_len q) (2 * i + 1)) as [Hl|Hl].
  { split_and!; [done| |apply same_refl|done|done]. intros j Hj. apply U; [done|].
    intros Hp. apply parent_children in Hp; lia. }
  destruct (lesser_child_spec q i W Hl) as (Hc & Hc0 & Ep & Hmin). cbv zeta.
  destruct (less (ent q (lesser_child i q)) (ent q i)) eqn:El; cbn [negb].
  2: { split_and!; [done| |apply same_refl|done|done]. intros j Hj.
       destruct (decide (parent j = i)) as [Epj|]; [|by apply U]. rewrite Epj.
       apply le_trans with (ent q (lesser_child i q)); [done|by apply Hmin]. }
  pose proof (parent_below (lesser_child i q) ltac:(lia)) as Hp.
  destruct (IH (lesser_child i q) (swap i (lesser_child i q) q)) as (W' & K & S & F1 & F2);
    [change (tq_len q <= lesser_child i q + fuel)%nat; lia|exact Hc|apply swap_shape; done || lia| |].
  { apply sift_down_step; done || lia. }
  split_and!; [done|done| |done|done]. eapply same_trans; [|exact S]. apply swap_same; [done|lia..].
Qed.

(** ** Removal *)

(** What [remove_at] leaves before it sifts: the last entry in the hole. *)
Record vacated (at_ : nat) (q q' : TimerQueue) : Prop := {
  va_heap : length (tq_heap q') = N;
  va_pos : length (tq_pos q') = N;
  va_gen : tq_gen q' = upd (fun g => wrap_u64 (g + 1)) (he_slot (ent q at_)) (tq_gen q);
  va_key : tq_key q' = tq_key q;
  va_kind : tq_kind q' = tq_kind q;
  va_next : tq_next_order q' = tq_next_order q;
  va_len : tq_len q' = (tq_len q - 1)%nat;
  va_free : tq_free q' = <[tq_free_len q := he_slot (ent q at_)]> (tq_free q);
  va_free_len : tq_free_len q' = (tq_free_len q + 1)%nat;
  va_at : forall i, (i < tq_len q - 1)%nat -> ent q' i = if decide (i = at_) then ent q (tq_len q - 1)%nat else ent q i;
  va_of : forall s, get (tq_pos q') s = if decide (s = he_slot (ent q at_)) then NO_POS
            else if decide (s = he_slot (ent q (tq_len q - 1)%nat)) then Z.of_nat at_ else get (tq_pos q) s
}.

Lemma vacated_shape at_ q q' : shape q -> (at_ < tq_len q)%nat -> vacated at_ q q' -> shape q'.
Proof.
  intros W Ha V. pose proof (sh_len q W) as L. pose proof (sh_at q W at_ Ha) as [Rs Ps].
  set (last := (tq_len q - 1)%nat). pose proof (sh_at q W last ltac:(unfold last; lia)) as [Rl Pl].
  assert (forall k, (k < tq_free_len q)%nat -> tq_free q' !!! k = tq_free q !!! k /\ tq_free q !!! k <> he_slot (ent q at_)
    /\ tq_free q !!! k <> he_slot (ent q last)) as St.
  { intros k Hk. destruct (sh_stack q W k Hk) as [_ Pk]. rewrite (va_free at_ q q' V), list_lookup_total_insert_ne by lia.
    split_and!; [done|intros X; rewrite X in Pk; lia|intros X; rewrite X in Pk; unfold last in *; lia]. }
  assert (tq_free q' !!! tq_free_len q = he_slot (ent q at_)) as Top.
  { rewrite (va_free at_ q q' V). apply list_lookup_total_insert_eq. rewrite (sh_free q W). lia. }
  split; [apply V|apply V| | | | | | | | |].
  - rewrite (va_gen at_ q q' V), length_upd. apply (sh_gen q W).
  - rewrite (va_key at_ q q' V). apply (sh_key q W).
  - rewrite (va_kind at_ q q' V). apply (sh_kind q W).
  - rewrite (va_free at_ q q' V), length_insert. apply (sh_free q W).
  - rewrite (va_len at_ q q' V), (va_free_len at_ q q' V). lia.
  - intros i Hi. rewrite (va_len at_ q q' V) in Hi. rewrite (va_of at_ q q' V), (va_at at_ q q' V i Hi).
    destruct (decide (i = at_)) as [->|Hia].
    + split; [done|]. rewrite decide_False, decide_True; [done..|].
      intros X. apply (slots_distinct q) in X; unfold last in *; done || lia.
    + destruct (sh_at q W i ltac:(lia)) as [Ri Pi]. split; [done|].
      rewrite !decide_False; [done|..]; intros X; apply (slots_distinct q) in X; done || lia.
  - intros s Hs. rewrite (va_of at_ q q' V), (va_len at_ q q' V). fold last. case_decide as E1; [by left|].
    case_decide as E2.
    + right. exists at_. assert (at_ <> last) by (intros ->; done). split; [unfold last in *; lia|].
      rewrite (va_at at_ q q' V) by (unfold last in *; lia). by rewrite decide_True.
    + destruct (sh_idle q W s Hs) as [?|(i & Hi & Es)]; [by left|right]. exists i.
      assert (i <> at_) by (intros ->; done). assert (i <> last) by (intros ->; done).
      split; [unfold last in *; lia|]. rewrite (va_at at_ q q' V) by (unfold last in *; lia). by rewrite decide_False.
  - intros k Hk. rewrite (va_free_len at_ q q' V) in Hk. rewrite (va_of at_ q q' V).
    destruct (decide (k = tq_free_len q)) as [->|Hne]; [rewrite Top; by rewrite decide_True|].
    destruct (St k ltac:(lia)) as (-> & E1 & E2), (sh_stack q W k ltac:(lia)) as [Rk Pk].
    split; [done|]. by rewrite !decide_False.
  - intros j k Hj Hk. rewrite (va_free_len at_ q q' V) in Hj, Hk.
    destruct (decide (j = tq_free_len q)) as [->|Hne1], (decide (k = tq_free_len q)) as [->|Hne2]; [done|..].
    + destruct (St k ltac:(lia)) as (-> & E1 & _). rewrite Top. by intros X.
    + destruct (St j ltac:(lia)) as (-> & E1 & _). rewrite Top. by intros X.
    + destruct (St j ltac:(lia)) as (-> & _), (St k ltac:(lia)) as (-> & _). apply (sh_stack_inj q W); lia.
Qed.

Lemma vacated_live at_ q q' e :
  shape q -> (at_ < tq_len q)%nat -> vacated at_ q q' -> live q' e <-> live q e /\ e <> ent q at_.
Proof.
  intros W Ha V. unfold live. rewrite (va_len at_ q q' V). split.
  - intros (i & Hi & <-). rewrite (va_at at_ q q' V i Hi). case_decide as E.
    + subst. split; [eexists; split; [|done]; lia|]. intros X. apply (f_equal he_slot) in X.
      apply (slots_distinct q) in X; done || lia.
    + split; [eexists; split; [|done]; lia|]. intros X. apply (f_equal he_slot) in X.
      apply (slots_distinct q) in X; done || lia.
  - intros [(i & Hi & <-) Hne]. destruct (decide (i = tq_len q - 1)%nat) as [->|Hl].
    + assert (at_ <> tq_len q - 1)%nat by (intros ->; done). exists at_. split; [lia|].
      rewrite (va_at at_ q q' V) by lia. by rewrite decide_True.
    + assert (i <> at_) by (intros ->; done). exists i. split; [lia|].
      rewrite (va_at at_ q q' V) by lia. by rewrite decide_False.
Qed.

Lemma vacated_heap at_ q q' :
  heap_ok q -> (at_ < tq_len q - 1)%nat -> vacated at_ q q' ->
  if (0 <? at_)%nat && less (ent q' at_) (ent q' (parent at_)) then up_ok q' at_ else down_ok q' at_.
Proof.
  intros K Ha V.
  assert (across q' at_) as X.
  { intros j Hj Ep Hpos. rewrite (va_len at_ q q' V) in Hj. pose proof (parent_below j ltac:(lia)) as Hlt.
    pose proof (parent_below at_ Hpos). rewrite !(va_at at_ q q' V) by lia.
    rewrite !decide_False by lia. apply le_trans with (ent q at_); [apply K; lia|]. rewrite <- Ep. apply K; lia. }
  assert (forall j, (0 < j < tq_len q')%nat -> j <> at_ -> parent j <> at_ -> le (ent q' (parent j)) (ent q' j)) as Far.
  { intros j Hj Hne Hnp. rewrite (va_len at_ q q' V) in Hj. pose proof (parent_below j ltac:(lia)).
    rewrite !(va_at at_ q q' V) by lia. rewrite !decide_False by done. apply K; lia. }
  destruct ((0 <? at_)%nat && less (ent q' at_) (ent q' (parent at_))) eqn:E.
  - apply andb_true_iff in E as [Hpos E]. apply Nat.ltb_lt in Hpos. split; [|done]. intros j Hj Hne.
    destruct (decide (parent j = at_)) as [Ep|]; [|by apply Far]. rewrite Ep.
    apply le_trans with (ent q' (parent at_)); [by apply less_le|]. by apply X.
  - split; [|done]. intros j Hj Hnp. destruct (decide (j = at_)) as [->|]; [|by apply Far].
    apply andb_false_iff in E as [E|E]; [apply Nat.ltb_ge in E; lia|exact E].
Qed.

Record removed (at_ : nat) (q q' : TimerQueue) : Prop := {
  rm_shape : shape q';
  rm_heap : heap_ok q';
  rm_len : tq_len q' = (tq_len q - 1)%nat;
  rm_gen : tq_gen q' = upd (fun g => wrap_u64 (g + 1)) (he_slot (ent q at_)) (tq_gen q);
  rm_key : tq_key q' = tq_key q;
  rm_kind : tq_kind q' = tq_kind q;
  rm_next : tq_next_order q' = tq_next_order q;
  rm_live : forall e, live q' e <-> live q e /\ e <> ent q at_
}.

Lemma vacated_removed at_ q q1 q' :
  shape q -> (at_ < tq_len q)%nat -> vacated at_ q q1 -> shape q' -> heap_ok q' -> same_timers q1 q' -> removed at_ q q'.
Proof.
  intros W Ha V W' K' S. split; [done|done| | | | | |].
  - rewrite (st_len _ _ S). apply V.
  - rewrite (st_gen _ _ S). apply V.
  - rewrite (st_key _ _ S). apply V.
  - rewrite (st_kind _ _ S). apply V.
  - rewrite (st_next _ _ S). apply V.
  - intros e. rewrite (st_live _ _ S). by apply vacated_live.
Qed.

Lemma remove_at_spec at_ q : shape q -> heap_ok q -> (at_ < tq_len q)%nat -> removed at_ q (remove_at at_ q).
Proof.
  intros W K Ha. pose proof (sh_len q W) as L. pose proof (sh_at q W at_ Ha) as [Rs Ps].
  pose proof (sh_at q W (tq_len q - 1)%nat ltac:(lia)) as [Rl Pl].
  unfold remove_at. cbv zeta.
  set (q1 := mkTimers (tq_heap q) (tq_len q - 1) (<[he_slot (ent q at_) := NO_POS]> (tq_pos q)) _ _ _ _ _ _).
  set (h := <[at_ := ent q (tq_len q - 1)%nat]> (tq_heap q)).
  assert (forall i, h !!! i = if decide (i = at_) then ent q (tq_len q - 1)%nat else ent q i) as Eh.
  { intros i. unfold h. case_decide as E; [subst; apply list_lookup_total_insert_eq; rewrite (sh_heap q W); lia|].
    by rewrite list_lookup_total_insert_ne. }
  destruct (Nat.eqb_spec at_ (tq_len q - 1)) as [->|Hne].
  - assert (vacated (tq_len q - 1) q q1) as V.
    { split; try done; [apply W|cbn [q1 tq_pos]; rewrite length_insert; apply W|
        intros i Hi; rewrite decide_False by lia; done|].
      intros s. cbn [q1 tq_pos]. case_decide as E; [subst; apply get_insert_eq; rewrite (sh_pos q W); lia|].
      by rewrite get_insert_ne. }
    apply (vacated_removed _ q q1); [done|done|done|by apply (vacated_shape (tq_len q - 1) q)| |apply same_refl].
    intros j Hj. cbn [q1 tq_len tq_heap] in *. apply K. lia.
  - set (q2 := set_heap h _ q1).
    assert (he_slot (ent q at_) <> he_slot (ent q (tq_len q - 1)%nat)) as Hs.
    { intros X. apply (slots_distinct q) in X; done || lia. }
    assert (vacated at_ q q2) as V.
    { split; [| |done|done|done|done|done|done|done| |].
      - cbn [q2 tq_heap set_heap]. unfold h. rewrite length_insert. apply W.
      - cbn [q2 q1 tq_pos set_heap]. rewrite !length_insert. apply W.
      - intros i Hi. apply Eh.
      - intros s. cbn [q2 q1 tq_pos set_heap]. rewrite Eh, (decide_True (P := at_ = at_)) by done.
        case_decide as E1; [subst; rewrite get_insert_ne by done; apply get_insert_eq; rewrite (sh_pos q W); lia|].
        case_decide as E2; [subst; apply get_insert_eq; rewrite length_insert, (sh_pos q W); lia|].
        by rewrite !get_insert_ne. }
    pose proof (vacated_shape at_ q q2 W Ha V) as W2.
    pose proof (vacated_heap at_ q q2 K ltac:(lia) V) as K2.
    change (h !!! at_) with (ent q2 at_). change (h !!! parent at_) with (ent q2 (parent at_)).
    destruct ((0 <? at_)%nat && less (ent q2 at_) (ent q2 (parent at_))).
    + destruct (sift_up_spec at_ at_ q2) as (W' & K' & S & _); [lia|change (at_ < tq_len q - 1)%nat; lia|done|done|].
      by apply (vacated_removed _ q q2).
    + destruct (sift_down_spec (tq_len q - 1) at_ q2) as (W' & K' & S & _);
        [change (tq_len q - 1 <= at_ + (tq_len q - 1))%nat; lia|change (at_ < tq_len q - 1)%nat; lia|done|done|].
      by apply (vacated_removed _ q q2).
Qed.

Lemma top_is_least q i : heap_ok q -> (i < tq_len q)%nat -> le (ent q 0%nat) (ent q i).
Proof.
  intros K. induction i as [i IH] using lt_wf_ind. intros Hi. destruct (decide (i = 0%nat)) as [->|Hne]; [apply le_refl|].
  pose proof (parent_below i ltac:(lia)). apply le_trans with (ent q (parent i)); [apply IH; lia|apply K; lia].
Qed.
End Proofs.
