(* ===== verification/TimerLaws.v ===== *)
(** * The timer queue refines a list of deadlines

    The specification keeps the armed timers in the order they were armed and
    the handles it has issued. [run_timers] drives the heap of [Timer] by any
    sequence of calls; every answer is one the specification gives. *)

From stdpp Require Import sorting.
From S2P Require Import Prelude Timer TimerProofs.

Inductive TimerOp : Type :=
| OpArm (deadline key kind : Z)
| OpCancel (id : TimerId)
| OpPop (now : Z)
| OpNext
| OpClear.

Inductive TimerOut : Type :=
| OutArm (r : result TimerId TimerFull)
| OutCancel (b : bool)
| OutPop (o : option Expired)
| OutNext (o : option Z)
| OutClear.

Definition run_timer (N : nat) (op : TimerOp) (q : TimerQueue) : TimerQueue * TimerOut :=
  match op with
  | OpArm d k kd => let '(q, r) := arm d k kd q in (q, OutArm r)
  | OpCancel id => let '(q, b) := timer_cancel N id q in (q, OutCancel b)
  | OpPop now => let '(q, o) := pop_due now q in (q, OutPop o)
  | OpNext => (q, OutNext (next_deadline q))
  | OpClear => (timer_clear q, OutClear)
  end.

Fixpoint run_timers (N : nat) (ops : list TimerOp) (q : TimerQueue) : TimerQueue * list TimerOut :=
  match ops with
  | [] => (q, [])
  | op :: ops =>
      let '(q, o) := run_timer N op q in
      let '(q, os) := run_timers N ops q in (q, o :: os)
  end.

(** ** The specification *)

Definition Armed : Type := TimerId * Expired.

Record Deadlines := mkDeadlines { dl_armed : list Armed; dl_issued : list TimerId }.

Definition due (t : Armed) : Z := ex_deadline_ns t.2.

(** The earliest deadline, the first armed of a tie. *)
Fixpoint earliest (l : list Armed) : option Armed :=
  match l with
  | [] => None
  | t :: l => match earliest l with
              | Some u => Some (if due u <? due t then u else t)
              | None => Some t
              end
  end.

Definition without (id : TimerId) (l : list Armed) : list Armed := filter (fun t => t.1 <> id) l.

Inductive deadline_step (N : nat) : Deadlines -> TimerOp -> TimerOut -> Deadlines -> Prop :=
| step_arm ts ids d k kd id :
    (length ts < N)%nat -> id ∉ ids ->
    deadline_step N (mkDeadlines ts ids) (OpArm d k kd) (OutArm (Ok id))
      (mkDeadlines (ts ++ [(id, mkExpired d k kd)]) (id :: ids))
| step_full ts ids d k kd :
    length ts = N -> deadline_step N (mkDeadlines ts ids) (OpArm d k kd) (OutArm (Err Full)) (mkDeadlines ts ids)
| step_cancel ts ids id :
    deadline_step N (mkDeadlines ts ids) (OpCancel id) (OutCancel (bool_decide (id ∈ ts.*1)))
      (mkDeadlines (without id ts) ids)
| step_fire ts ids now t :
    earliest ts = Some t -> due t <= now ->
    deadline_step N (mkDeadlines ts ids) (OpPop now) (OutPop (Some t.2)) (mkDeadlines (without t.1 ts) ids)
| step_wait ts ids now :
    (forall t, earliest ts = Some t -> now < due t) ->
    deadline_step N (mkDeadlines ts ids) (OpPop now) (OutPop None) (mkDeadlines ts ids)
| step_next ts ids :
    deadline_step N (mkDeadlines ts ids) OpNext (OutNext (due <$> earliest ts)) (mkDeadlines ts ids)
| step_clear ts ids :
    deadline_step N (mkDeadlines ts ids) OpClear OutClear (mkDeadlines [] ids).

Inductive deadline_steps (N : nat) : Deadlines -> list TimerOp -> list TimerOut -> Deadlines -> Prop :=
| steps_nil D : deadline_steps N D [] [] D
| steps_cons D D' D'' op o ops os :
    deadline_step N D op o D' -> deadline_steps N D' ops os D'' -> deadline_steps N D (op :: ops) (o :: os) D''.

(** ** The refinement *)

Section Laws.
Context (N : nat) (HN : Z.of_nat N <= NO_POS).

#[local] Abbreviation ent q i := (tq_heap q !!! i).

Definition id_of (q : TimerQueue) (e : HeapEnt) : TimerId := mkTimerId (he_slot e) (get (tq_gen q) (he_slot e)).

Definition timer_of (q : TimerQueue) (e : HeapEnt) : Armed :=
  (id_of q e, mkExpired (he_deadline e) (get (tq_key q) (he_slot e)) (get (tq_kind q) (he_slot e))).

(** [es] are the heap's entries in arm order; [n] bounds the calls so far. *)
Record refines (n : Z) (q : TimerQueue) (es : list HeapEnt) (D : Deadlines) : Prop := {
  rf_shape : shape N q;
  rf_heap : heap_ok q;
  rf_armed : dl_armed D = timer_of q <$> es;
  rf_live : forall e, e ∈ es <-> live q e;
  rf_sorted : StronglySorted (fun a b => he_order a < he_order b) es;
  rf_order : forall e, e ∈ es -> he_order e < tq_next_order q;
  rf_next : 0 <= tq_next_order q <= n;
  rf_gen : forall s, (s < N)%nat -> 0 <= get (tq_gen q) s <= tq_next_order q;
  rf_held : forall e, e ∈ es -> get (tq_gen q) (he_slot e) < tq_next_order q;
  rf_issued : forall id, id ∈ dl_issued D -> (ti_slot id < N)%nat /\
    (ti_gen id < get (tq_gen q) (ti_slot id) \/ id ∈ (dl_armed D).*1)
}.

Lemma live_slot q e : shape N q -> live q e -> (he_slot e < N)%nat.
Proof. intros W (i & Hi & <-). by apply (sh_at N q W). Qed.

Lemma live_same_slot q a b : shape N q -> live q a -> live q b -> he_slot a = he_slot b -> a = b.
Proof. intros W (i & Hi & <-) (j & Hj & <-) E. by rewrite (slots_distinct N q i j W Hi Hj E). Qed.

Lemma sorted_no_dup es : StronglySorted (fun a b => he_order a < he_order b) es -> NoDup es.
Proof.
  induction 1 as [|e es S IH F]; constructor; [|done]. intros X. rewrite Forall_forall in F. specialize (F e X). lia.
Qed.

Lemma sorted_filter (P : HeapEnt -> Prop) `{forall e, Decision (P e)} es :
  StronglySorted (fun a b => he_order a < he_order b) es ->
  StronglySorted (fun a b => he_order a < he_order b) (filter P es).
Proof.
  induction 1 as [|e es S IH F]; [constructor|]. rewrite filter_cons. case_decide; [|done]. constructor; [done|].
  rewrite Forall_forall in *. intros x Hx. apply list_elem_of_filter in Hx as [_ Hx]. by apply F.
Qed.

Lemma live_elem q e : shape N q -> live q e <-> e ∈ take (tq_len q) (tq_heap q).
Proof.
  intros W. pose proof (sh_len N q W). unfold live. rewrite list_elem_of_lookup. split.
  - intros (i & Hi & <-). exists i. rewrite lookup_take_lt by done. apply list_lookup_lookup_total_lt. rewrite (sh_heap N q W). lia.
  - intros (i & Hi). apply lookup_take_Some in Hi as [Hi Hl]. exists i. split; [done|]. by apply list_lookup_total_correct.
Qed.

Lemma refined_length n q es D : refines n q es D -> length es = tq_len q.
Proof.
  intros R. pose proof (rf_shape n q es D R) as W. pose proof (sh_len N q W) as L.
  assert (es ≡ₚ take (tq_len q) (tq_heap q)) as P.
  { apply NoDup_Permutation; [apply sorted_no_dup, R| |intros e; rewrite (rf_live n q es D R); by apply live_elem].
    apply NoDup_alt. intros i j x Hi Hj. apply lookup_take_Some in Hi as [Hi Li], Hj as [Hj Lj].
    apply (slots_distinct N q); [done..|]. by rewrite !(list_lookup_total_correct _ _ x). }
  rewrite P, length_take, (sh_heap N q W). lia.
Qed.

(** *** Removal *)

Lemma without_cons id t l : without id (t :: l) = if decide (t.1 = id) then without id l else t :: without id l.
Proof.
  unfold without. case_decide as E; [apply filter_cons_False; tauto|by apply filter_cons_True].
Qed.

Lemma without_absent id l : id ∉ l.*1 -> without id l = l.
Proof.
  induction l as [|t l IH]; [done|]. intros H. rewrite fmap_cons, not_elem_of_cons in H. destruct H as [Hne H].
  by rewrite without_cons, decide_False, IH.
Qed.

Lemma without_timer_of q q' e0 es :
  (forall e, e ∈ es -> he_slot e = he_slot e0 -> e = e0) ->
  (forall e, e ∈ es -> e <> e0 -> timer_of q' e = timer_of q e) ->
  without (id_of q e0) (timer_of q <$> es) = timer_of q' <$> filter (fun e => e <> e0) es.
Proof.
  intros D S. induction es as [|e es IH]; [done|].
  rewrite fmap_cons, without_cons, filter_cons, IH by (intros; (apply D || apply S); done || by right).
  cbn [fst timer_of]. destruct (decide (e = e0)) as [->|Hne].
  - rewrite decide_True by done. by rewrite decide_False by (intros X; by apply X).
  - rewrite decide_False by (intros X; injection X as Es _; apply Hne, D; [by left|done]).
    rewrite decide_True by done. rewrite fmap_cons. f_equal. symmetry. apply S; [by left|done].
Qed.

Lemma refines_remove n at_ q es D :
  n < 2 ^ 64 -> refines n q es D -> (at_ < tq_len q)%nat ->
  refines n (remove_at at_ q) (filter (fun e => e <> ent q at_) es)
    (mkDeadlines (without (id_of q (ent q at_)) (dl_armed D)) (dl_issued D)).
Proof.
  intros Hn R Ha. pose proof (rf_shape n q es D R) as W. set (e0 := ent q at_).
  assert (live q e0) as L0 by (by exists at_). pose proof (live_slot q e0 W L0) as R0.
  assert (e0 ∈ es) as I0 by (by apply (rf_live n q es D R)).
  destruct (remove_at_spec N HN at_ q W (rf_heap n q es D R) Ha) as [W' K' Hl Hg Hk Hd Ho Hv]. fold e0 in Hg, Hv.
  pose proof (rf_next n q es D R). pose proof (rf_gen n q es D R _ R0). pose proof (rf_held n q es D R _ I0).
  assert (get (tq_gen (remove_at at_ q)) (he_slot e0) = get (tq_gen q) (he_slot e0) + 1) as Gs.
  { rewrite Hg, get_upd by (rewrite (sh_gen N q W); done). apply wrap_u64_id. int_lia. }
  assert (forall s, s <> he_slot e0 -> get (tq_gen (remove_at at_ q)) s = get (tq_gen q) s) as Gn.
  { intros s Hs. rewrite Hg. by apply get_upd_ne. }
  assert (forall e, e ∈ es -> he_slot e = he_slot e0 -> e = e0) as Inj.
  { intros e He. apply (rf_live n q es D R) in He. by apply (live_same_slot q). }
  split; cbn [dl_armed dl_issued]; [done|done| | | | | | | |].
  - rewrite (rf_armed n q es D R). apply without_timer_of; [done|]. intros e He Hne. unfold timer_of, id_of.
    rewrite Hk, Hd, Gn; [done|]. intros X. by apply Hne, Inj.
  - intros e. rewrite list_elem_of_filter, Hv, (rf_live n q es D R). tauto.
  - apply sorted_filter, R.
  - intros e He. apply list_elem_of_filter in He as [_ He]. rewrite Ho. by apply (rf_order n q es D R).
  - by rewrite Ho.
  - intros s Hs. rewrite Ho. destruct (decide (s = he_slot e0)) as [->|]; [lia|].
    rewrite Gn by done. by apply (rf_gen n q es D R).
  - intros e He. apply list_elem_of_filter in He as [Hne He]. rewrite Ho, Gn by (intros X; by apply Hne, Inj).
    by apply (rf_held n q es D R).
  - intros id Hid. destruct (rf_issued n q es D R id Hid) as [Hs Hc]. split; [done|].
    destruct (decide (ti_slot id = he_slot e0)) as [Es|Es].
    + left. rewrite Es, Gs in *. destruct Hc as [?|Hc]; [lia|].
      rewrite (rf_armed n q es D R), <- list_fmap_compose in Hc. apply list_elem_of_fmap in Hc as (e & -> & He).
      cbn [compose fst timer_of id_of ti_slot ti_gen] in *. rewrite Es. lia.
    + rewrite Gn by done. destruct Hc as [?|Hc]; [by left|right]. apply list_elem_of_fmap in Hc as (t & -> & Ht).
      apply list_elem_of_fmap. exists t. split; [done|]. apply list_elem_of_filter. split; [|done].
      intros X. apply Es. by rewrite X.
Qed.

Lemma refines_clear n fuel q es D :
  n < 2 ^ 64 -> refines n q es D -> (tq_len q <= fuel)%nat ->
  refines n (clear_from fuel q) [] (mkDeadlines [] (dl_issued D)).
Proof.
  intros Hn. revert q es D. induction fuel as [|fuel IH]; intros q es D R Hf; cbn [clear_from];
    [|destruct (Nat.eqb_spec (tq_len q) 0) as [Hz|Hz]].
  3: { pose proof (refines_remove n (tq_len q - 1) q es D Hn R ltac:(lia)) as R'.
       apply IH in R'; [exact R'|]. destruct R as [W K _].
       rewrite (rm_len _ _ _ _ (remove_at_spec N HN (tq_len q - 1) q W K ltac:(lia))). lia. }
  all: pose proof (refined_length n q es D R) as L; destruct es; [|cbn in L; lia].
  all: pose proof (rf_armed n q [] D R) as A; destruct D as [ts ids]; cbn in A; by subst ts.
Qed.

(** *** Arming *)

Lemma arm_full d k kd n q es D :
  refines n q es D -> length (dl_armed D) = N -> arm d k kd q = (q, Err Full).
Proof.
  intros R L. rewrite (rf_armed n q es D R), length_fmap, (refined_length n q es D R) in L.
  pose proof (sh_len N q (rf_shape n q es D R)). unfold arm. by rewrite (proj2 (Nat.eqb_eq (tq_free_len q) 0)) by lia.
Qed.

(** The queue [arm] hands to [sift_up]: the new entry at the end. *)
Lemma pushed_shape q e key kind :
  shape N q -> (0 < tq_free_len q)%nat -> he_slot e = tq_free q !!! (tq_free_len q - 1)%nat ->
  let q' := mkTimers (<[tq_len q := e]> (tq_heap q)) (tq_len q + 1) (<[he_slot e := Z.of_nat (tq_len q)]> (tq_pos q))
              (tq_gen q) (<[he_slot e := key]> (tq_key q)) (<[he_slot e := kind]> (tq_kind q)) (tq_free q)
              (tq_free_len q - 1) (wrap_u64 (tq_next_order q + 1)) in
  shape N q' /\ forall i, ent q' i = if decide (i = tq_len q) then e else ent q i.
Proof.
  intros W Hf Es q'. pose proof (sh_len N q W) as L.
  destruct (sh_stack N q W (tq_free_len q - 1)%nat ltac:(lia)) as [Rs Ps]. rewrite <- Es in Rs, Ps.
  assert (forall i, ent q' i = if decide (i = tq_len q) then e else ent q i) as E.
  { intros i. cbn [q' tq_heap]. case_decide as X; [rewrite X; apply list_lookup_total_insert_eq; rewrite (sh_heap N q W); lia|].
    by rewrite list_lookup_total_insert_ne. }
  assert (forall s, get (tq_pos q') s = if decide (s = he_slot e) then Z.of_nat (tq_len q) else get (tq_pos q) s) as G.
  { intros s. cbn [q' tq_pos]. case_decide as X; [rewrite X; apply get_insert_eq; by rewrite (sh_pos N q W)|]. by rewrite get_insert_ne. }
  assert (forall i, (i < tq_len q)%nat -> he_slot (ent q i) <> he_slot e) as Ne.
  { intros i Hi X. destruct (sh_at N q W i Hi) as [_ P]. rewrite X, Ps in P. lia. }
  split; [|done]. split; cbn [q' tq_len tq_free_len];
    [cbn; rewrite length_insert; apply (sh_heap N q W)|cbn; rewrite length_insert; apply (sh_pos N q W)
    |apply (sh_gen N q W)|cbn; rewrite length_insert; apply (sh_key N q W)
    |cbn; rewrite length_insert; apply (sh_kind N q W)|apply (sh_free N q W)|lia| | | |].
  - intros i Hi. rewrite G, E. destruct (decide (i = tq_len q)) as [->|Hne]; [by rewrite decide_True|].
    rewrite decide_False by (apply Ne; lia). apply (sh_at N q W). lia.
  - intros s Hs. rewrite G. case_decide as E1.
    + right. exists (tq_len q). split; [lia|]. rewrite E. by rewrite decide_True.
    + destruct (sh_idle N q W s Hs) as [?|(i & Hi & X)]; [by left|right]. exists i. split; [lia|].
      rewrite E. by rewrite decide_False by lia.
  - intros k Hk. rewrite G. destruct (sh_stack N q W k ltac:(lia)) as [Rk Pk]. split; [done|].
    rewrite decide_False; [done|]. rewrite Es. intros X. apply (sh_stack_inj N q W) in X; lia.
  - intros j k Hj Hk. apply (sh_stack_inj N q W); lia.
Qed.

Lemma refines_arm d k kd n q es D :
  n + 1 < 2 ^ 64 -> refines n q es D -> (length (dl_armed D) < N)%nat ->
  exists q' es' id, arm d k kd q = (q', Ok id) /\ (id ∉ dl_issued D) /\
    refines (n + 1) q' es' (mkDeadlines (dl_armed D ++ [(id, mkExpired d k kd)]) (id :: dl_issued D)).
Proof.
  intros Hn R L. rewrite (rf_armed n q es D R), length_fmap, (refined_length n q es D R) in L.
  pose proof (rf_shape n q es D R) as W. pose proof (sh_len N q W) as Ln. unfold arm.
  rewrite (proj2 (Nat.eqb_neq (tq_free_len q) 0)) by lia. cbv zeta.
  set (s := tq_free q !!! (tq_free_len q - 1)%nat). set (e := mkEnt d (tq_next_order q) s).
  destruct (pushed_shape q e k kd W ltac:(lia) eq_refl) as [W1 E1]. cbv zeta in W1, E1. cbn [e he_slot] in W1, E1. fold e in W1, E1.
  set (q1 := mkTimers _ _ _ _ _ _ _ _ _) in *.
  destruct (sh_stack N q W (tq_free_len q - 1)%nat ltac:(lia)) as [Rs Ps]. fold s in Rs, Ps.
  destruct (sift_up_spec N HN (tq_len q) (tq_len q) q1) as (W' & K' & S & _); [lia|cbn [q1 tq_len]; lia|done| |].
  { split.
    - intros j Hj Hne. cbn [q1 tq_len] in Hj. pose proof (parent_below j ltac:(lia)). rewrite !E1, !decide_False by lia.
      apply (rf_heap n q es D R). lia.
    - intros j Hj Ep Hpos. cbn [q1 tq_len] in Hj. pose proof (parent_below j ltac:(lia)). lia. }
  set (q' := sift_up (tq_len q) (tq_len q) q1) in *. pose proof (rf_next n q es D R) as Hnext.
  assert (tq_next_order q' = tq_next_order q + 1) as Ho.
  { rewrite (st_next _ _ S). cbn [q1 tq_next_order]. apply wrap_u64_id. int_lia. }
  assert (tq_gen q' = tq_gen q) as Hg by apply (st_gen _ _ S).
  assert (forall x, live q x -> he_slot x <> s) as Ne.
  { intros x (i & Hi & <-) X. destruct (sh_at N q W i Hi) as [_ P]. rewrite X, Ps in P. lia. }
  assert (forall x, live q' x <-> live q x \/ x = e) as Hv.
  { intros x. rewrite (st_live _ _ S). unfold live. cbn [q1 tq_len]. split.
    - intros (i & Hi & <-). rewrite E1. case_decide; [by right|left; exists i; split; [lia|done]].
    - intros [(i & Hi & <-)| ->]; [exists i|exists (tq_len q)]; rewrite E1; (split; [lia|]);
        [by rewrite decide_False by lia|by rewrite decide_True]. }
  exists q', (es ++ [e]), (mkTimerId s (get (tq_gen q) s)). split_and!; [done| |].
  - intros X. destruct (rf_issued n q es D R _ X) as [_ [Hc|Hc]]; cbn [ti_slot ti_gen] in Hc; [lia|].
    rewrite (rf_armed n q es D R), <- list_fmap_compose in Hc. apply list_elem_of_fmap in Hc as (x & Ex & Hx).
    cbn [compose timer_of id_of fst] in Ex. injection Ex as Es _. apply (rf_live n q es D R) in Hx. by apply (Ne x).
  - assert (forall x, x ∈ es -> timer_of q' x = timer_of q x) as Same.
    { intros x Hx. apply (rf_live n q es D R), Ne in Hx. unfold timer_of, id_of. rewrite Hg, (st_key _ _ S), (st_kind _ _ S).
      cbn [q1 tq_key tq_kind]. by rewrite !get_insert_ne. }
    split; cbn [dl_armed dl_issued]; [done|done| | | | | | | |].
    + rewrite fmap_app, (rf_armed n q es D R). f_equal; [by apply list_fmap_ext; intros i x Hx; rewrite Same by (by eapply list_elem_of_lookup_2)|].
      cbn. unfold timer_of, id_of. rewrite Hg, (st_key _ _ S), (st_kind _ _ S). cbn [q1 tq_key tq_kind e he_slot he_deadline].
      rewrite !get_insert_eq; [done|rewrite (sh_kind N q W); done|rewrite (sh_key N q W); done].
    + intros x. rewrite Hv, elem_of_app, list_elem_of_singleton, (rf_live n q es D R). done.
    + apply StronglySorted_app; split_and!; [|apply R|repeat constructor].
      intros x y Hx Hy%list_elem_of_singleton. subst y. cbn [e he_order]. by apply (rf_order n q es D R).
    + intros x Hx. apply elem_of_app in Hx as [Hx|Hx%list_elem_of_singleton]; rewrite Ho;
        [pose proof (rf_order n q es D R x Hx); lia|subst x; cbn; lia].
    + lia.
    + intros t Ht. rewrite Hg, Ho. pose proof (rf_gen n q es D R t Ht). lia.
    + intros x Hx. rewrite Hg, Ho. apply elem_of_app in Hx as [Hx|Hx%list_elem_of_singleton];
        [pose proof (rf_held n q es D R x Hx); lia|subst x; cbn [e he_slot]; pose proof (rf_gen n q es D R s Rs); lia].
    + intros id Hid. rewrite fmap_app. apply elem_of_cons in Hid as [->|Hid].
      * split; [done|right]. apply elem_of_app. right. by apply list_elem_of_singleton.
      * destruct (rf_issued n q es D R id Hid) as [Hs Hc]. rewrite Hg. split; [done|].
        destruct Hc as [?|Hc]; [by left|right]. apply elem_of_app. by left.
Qed.

(** *** Firing *)

Lemma earliest_some l t : earliest l = Some t -> t ∈ l.
Proof.
  revert t. induction l as [|x l IH]; cbn [earliest]; [done|]. intros t. destruct (earliest l) as [u|]; intros [= <-]; [|by left].
  case_match; [right; by apply IH|by left].
Qed.

Lemma earliest_is l1 t l2 :
  (forall u, u ∈ l1 -> due t < due u) -> (forall u, u ∈ l2 -> due t <= due u) -> earliest (l1 ++ t :: l2) = Some t.
Proof.
  intros H1 H2. induction l1 as [|x l1 IH]; cbn [app earliest].
  - destruct (earliest l2) as [u|] eqn:E; [|done]. apply earliest_some, H2 in E. by rewrite (proj2 (Z.ltb_ge _ _)) by lia.
  - rewrite IH by (intros; apply H1; by right). pose proof (H1 x ltac:(by left)).
    by rewrite (proj2 (Z.ltb_lt _ _)) by lia.
Qed.

Lemma top_is_earliest n q es D :
  refines n q es D -> (0 < tq_len q)%nat -> earliest (dl_armed D) = Some (timer_of q (ent q 0%nat)).
Proof.
  intros R Hl. rewrite (rf_armed n q es D R). assert (ent q 0%nat ∈ es) as I0 by (apply (rf_live n q es D R); by exists 0%nat).
  apply list_elem_of_split in I0 as (es1 & es2 & E).
  assert (forall e, e ∈ es -> le (ent q 0%nat) e) as Least.
  { intros e He. apply (rf_live n q es D R) in He as (i & Hi & <-). apply (top_is_least N); [apply (rf_heap n q es D R)|done]. }
  assert (forall e, e ∈ es1 -> he_order e < he_order (ent q 0%nat)) as Before.
  { intros e He. pose proof (rf_sorted n q es D R) as S. rewrite E in S.
    apply (StronglySorted_app_1_elem_of _ _ _ e (ent q 0%nat)) in S; [done|done|by left]. }
  rewrite E, fmap_app, fmap_cons. apply earliest_is; intros u Hu; apply list_elem_of_fmap in Hu as (e & -> & He);
    cbn [due timer_of snd ex_deadline_ns].
  - pose proof (Before e He). pose proof (Least e ltac:(rewrite E; apply elem_of_app; by left)) as L. apply le_spec in L.
    cbn. lia.
  - pose proof (Least e ltac:(rewrite E; apply elem_of_app; right; by right)) as L. apply le_spec in L. cbn. lia.
Qed.

Lemma empty_is_empty n q es D : refines n q es D -> tq_len q = 0%nat -> dl_armed D = [].
Proof.
  intros R L. rewrite (rf_armed n q es D R). pose proof (refined_length n q es D R) as Le. by destruct es; [|cbn in Le; lia].
Qed.

Lemma cancel_finds n q es D id :
  refines n q es D ->
  if bool_decide (id ∈ (dl_armed D).*1)
  then exists at_, (at_ < tq_len q)%nat /\ id_of q (ent q at_) = id /\ timer_cancel N id q = (remove_at at_ q, true)
  else timer_cancel N id q = (q, false).
Proof.
  intros R. pose proof (rf_shape n q es D R) as W. rewrite (rf_armed n q es D R), <- list_fmap_compose.
  unfold timer_cancel. case_bool_decide as I.
  - apply list_elem_of_fmap in I as (e & -> & He). apply (rf_live n q es D R) in He as (i & Hi & <-).
    destruct (sh_at N q W i Hi) as [Rs Ps]. pose proof (sh_len N q W). exists i. split_and!; [done|done|].
    cbn [compose fst timer_of id_of ti_slot ti_gen]. rewrite Ps, Z.eqb_refl, (proj2 (Nat.leb_gt _ _)) by lia.
    rewrite (proj2 (Z.eqb_neq _ _)) by lia. cbn [orb negb]. by rewrite Nat2Z.id.
  - destruct (Nat.leb_spec N (ti_slot id)) as [|Hs]; cbn [orb]; [done|].
    destruct (Z.eqb_spec (get (tq_gen q) (ti_slot id)) (ti_gen id)) as [Eg|]; cbn [orb negb]; [|done].
    destruct (Z.eqb_spec (get (tq_pos q) (ti_slot id)) NO_POS) as [|Hp]; [done|].
    destruct (sh_idle N q W (ti_slot id) Hs) as [?|(i & Hi & Es)]; [done|]. destruct I. apply list_elem_of_fmap.
    exists (ent q i). split; [|apply (rf_live n q es D R); by exists i].
    cbn [compose fst timer_of]. unfold id_of. rewrite Es, Eg. by destruct id.
Qed.

Lemma refines_step op n q es D :
  n + 1 < 2 ^ 64 -> refines n q es D ->
  exists q' es' o D', run_timer N op q = (q', o) /\ deadline_step N D op o D' /\ refines (n + 1) q' es' D'.
Proof.
  intros Hn R. assert (forall q es D, refines n q es D -> refines (n + 1) q es D) as Weak.
  { intros q1 es1 D1 []. split; done || lia. }
  destruct D as [ts ids]. destruct op as [d k kd|id|now| |]; cbn [run_timer].
  - destruct (decide (length ts = N)) as [Hl|Hl].
    + rewrite (arm_full d k kd n q es _ R Hl). eexists _, _, _, _. split_and!; [done|by constructor|by apply Weak].
    + assert (length ts < N)%nat as Hlt.
      { pose proof (rf_armed _ _ _ _ R) as A. cbn in A. pose proof (refined_length _ _ _ _ R).
        pose proof (sh_len N q (rf_shape _ _ _ _ R)). rewrite A, length_fmap in *. lia. }
      destruct (refines_arm d k kd n q es _ Hn R Hlt) as (q' & es' & id & -> & Hid & R').
      eexists _, _, _, _. split_and!; [done|by constructor|exact R'].
  - pose proof (cancel_finds n q es _ id R) as C. cbn [dl_armed] in C.
    assert (deadline_step N (mkDeadlines ts ids) (OpCancel id) (OutCancel (bool_decide (id ∈ ts.*1)))
      (mkDeadlines (without id ts) ids)) as S by constructor. revert C S. case_bool_decide as I.
    + intros (at_ & Ha & Ei & ->) S. eexists _, _, _, _. split_and!; [done|exact S|].
      rewrite <- Ei. apply Weak. by apply (refines_remove n at_ q es (mkDeadlines ts ids)); [lia|..].
    + intros -> S. eexists _, _, _, _. split_and!; [done|exact S|]. apply Weak.
      by rewrite without_absent.
  - unfold pop_due. destruct (Nat.eqb_spec (tq_len q) 0) as [Hz|Hz]; cbn [orb].
    + pose proof (empty_is_empty _ _ _ _ R Hz) as Et. cbn in Et. subst ts.
      eexists _, _, _, _. split_and!; [done|by constructor|by apply Weak].
    + pose proof (top_is_earliest n q es _ R ltac:(lia)) as Et. cbn [dl_armed] in Et.
      destruct (Z.ltb_spec now (he_deadline (ent q 0%nat))) as [Hd|Hd].
      * eexists _, _, _, _. split_and!; [done| |by apply Weak]. constructor. intros t Ht. rewrite Et in Ht. by injection Ht as <-.
      * eexists _, _, _, _. split_and!; [done|by apply (step_fire N ts ids now (timer_of q (ent q 0%nat)))|].
        apply Weak. by apply (refines_remove n 0 q es (mkDeadlines ts ids)); [lia|done|lia].
  - eexists _, _, _, _. split_and!; [done| |by apply Weak].
    assert (next_deadline q = due <$> earliest ts) as ->; [|constructor]. unfold next_deadline.
    destruct (Nat.eqb_spec (tq_len q) 0) as [Hz|Hz].
    + pose proof (empty_is_empty _ _ _ _ R Hz) as Et. cbn in Et. by subst ts.
    + pose proof (top_is_earliest n q es _ R ltac:(lia)) as Et. cbn [dl_armed] in Et. by rewrite Et.
  - eexists _, _, _, _. split_and!; [done|constructor|]. apply Weak. by apply (refines_clear n _ q es (mkDeadlines ts ids)); [lia|..].
Qed.

Lemma refines_run ops : forall n q es D,
  n + Z.of_nat (length ops) < 2 ^ 64 -> refines n q es D ->
  exists es' D', deadline_steps N D ops (run_timers N ops q).2 D' /\
    refines (n + Z.of_nat (length ops)) (run_timers N ops q).1 es' D'.
Proof.
  induction ops as [|op ops IH]; intros n q es D Hn R; cbn [run_timers length] in *.
  - exists es, D. split; [constructor|]. by rewrite Z.add_0_r.
  - destruct (refines_step op n q es D ltac:(lia) R) as (q' & es' & o & D' & -> & St & R').
    destruct (IH (n + 1) q' es' D' ltac:(lia) R') as (es'' & D'' & Ss & R'').
    destruct (run_timers N ops q') as [q'' os]. exists es'', D''. split; [by econstructor|].
    by replace (n + Z.of_nat (S (length ops))) with (n + 1 + Z.of_nat (length ops)) by lia.
Qed.

Lemma refines_new : refines 0 (TimerQueue_new N) [] (mkDeadlines [] []).
Proof.
  assert (forall k, (k < N)%nat -> ((fun i => N - 1 - i)%nat <$> seq 0 N) !!! k = (N - 1 - k)%nat) as F.
  { intros k Hk. apply list_lookup_total_correct. rewrite list_lookup_fmap, lookup_seq_lt by lia. done. }
  split; cbn [dl_armed dl_issued TimerQueue_new tq_next_order tq_gen]; [| |done| | | |lia| | |].
  - split; unfold TimerQueue_new; cbn [tq_heap tq_len tq_pos tq_gen tq_key tq_kind tq_free tq_free_len];
      [by rewrite length_replicate..|by rewrite length_fmap, length_seq|lia|intros; lia| | |].
    + intros s Hs. left. by apply get_repeat.
    + intros k Hk. rewrite F by done. split; [lia|]. apply get_repeat. lia.
    + intros j k Hj Hk. rewrite !F by done. lia.
  - intros j Hj. cbn in Hj. lia.
  - intros e. split; [by intros X%not_elem_of_nil|]. intros (i & Hi & _). cbn in Hi. lia.
  - constructor.
  - by intros e X%not_elem_of_nil.
  - intros s Hs. rewrite get_repeat by done. lia.
  - by intros e X%not_elem_of_nil.
  - by intros e X%not_elem_of_nil.
Qed.
End Laws.

(** C27. exec-gateway's deadline queue is, for any sequence of calls, the
    queue its specification describes: timers fire earliest deadline first
    and ties in arm order, never before they are due; arming fails exactly
    when all N are armed; a handle cancels its own timer and answers false
    once that fired, was cancelled or cleared; no handle is issued twice. *)
Theorem timer_queue_is_a_deadline_queue (N : nat) (ops : list TimerOp) :
  Z.of_nat N <= NO_POS -> Z.of_nat (length ops) < 2 ^ 64 ->
  let '(q, outs) := run_timers N ops (TimerQueue_new N) in
  exists D, deadline_steps N (mkDeadlines [] []) ops outs D /\ length (dl_armed D) = tq_len q.
Proof.
  intros HN Hn. destruct (refines_run N HN ops 0 (TimerQueue_new N) [] (mkDeadlines [] [])) as (es & D & S & R);
    [lia|by apply refines_new|].
  destruct (run_timers N ops (TimerQueue_new N)) as [q outs]. exists D. split; [done|].
  rewrite (rf_armed _ _ _ _ _ R), length_fmap. by apply (refined_length N _ _ _ _ R).
Qed.

(** Two timers of one deadline and a later one armed first; the second handle
    is cancelled twice and the pops come back in order. *)
Definition timer_script : list TimerOp :=
  [OpArm 30 1 0; OpArm 10 2 0; OpArm 10 4 0; OpArm 20 3 1; OpArm 5 9 9; OpCancel (mkTimerId 3 0); OpCancel (mkTimerId 3 0);
   OpNext; OpPop 15; OpPop 15; OpPop 15; OpPop 40; OpArm 7 5 5; OpCancel (mkTimerId 1 0); OpClear; OpPop 99].

Lemma timer_queue_is_a_deadline_queue_witness :
  (run_timers 4 timer_script (TimerQueue_new 4)).2 =
    [OutArm (Ok (mkTimerId 0 0)); OutArm (Ok (mkTimerId 1 0)); OutArm (Ok (mkTimerId 2 0)); OutArm (Ok (mkTimerId 3 0));
     OutArm (Err Full); OutCancel true; OutCancel false; OutNext (Some 10); OutPop (Some (mkExpired 10 2 0));
     OutPop (Some (mkExpired 10 4 0)); OutPop None; OutPop (Some (mkExpired 30 1 0)); OutArm (Ok (mkTimerId 0 1));
     OutCancel false; OutClear; OutPop None]
  /\ let '(q, outs) := run_timers 4 timer_script (TimerQueue_new 4) in
     exists D, deadline_steps 4 (mkDeadlines [] []) timer_script outs D /\ length (dl_armed D) = tq_len q.
Proof.
  split; [vm_compute; reflexivity|].
  apply (timer_queue_is_a_deadline_queue 4 timer_script); vm_compute; congruence || reflexivity.
Defined.
