(* ===== verification/Gateway.v ===== *)
(** * The venue-agnostic gateway parts ([crates/exec-gateway])

    The in-flight post table ([pending.rs]), the per-minute spend window
    ([rate.rs]), the round-trip window ([rtt.rs]), the wait policy
    ([idle.rs]), the connection pair ([mbb.rs]) with its reconnect backoff
    ([core-net/src/backoff.rs]), and the two rings' ends with the halt word
    and the sweep words ([duplex.rs], [stats.rs]). The deadline queue is
    [Timer]. *)

From S2P Require Import Prelude Clock Ring.

(** ** [Pending]: posts in flight, by [id & (N - 1)] *)

Module Pending.

Inductive PendingErr : Type := ZeroId | SlotBusy.

Section Pending.
Context {T : Type} (N : Z).

Record Pending := mkPending { ids : list Z; sent : list Z; slots : list T; p_live : Z; p_next : Z }.

Definition new (blank : T) : Pending :=
  mkPending (replicate (Z.to_nat N) 0) (replicate (Z.to_nat N) 0) (replicate (Z.to_nat N) blank) 0 1.

Definition ix (id : Z) : nat := Z.to_nat (Z.land id (N - 1)).

(** [id.wrapping_add(1).max(1)]: 0 is never an id. *)
Definition next_id (id : Z) : Z := Z.max (wrap_u64 (id + 1)) 1.

Definition occupy (id now next : Z) (p : Pending) : Pending :=
  mkPending (<[ix id := id]> (ids p)) (<[ix id := now]> (sent p)) (slots p) (p_live p + 1) next.

(** The record reached through a claimed slot is [write]. *)
Definition write (id : Z) (x : T) (p : Pending) : Pending :=
  mkPending (ids p) (sent p) (<[ix id := x]> (slots p)) (p_live p) (p_next p).

(** [tries] of the [N] are left. *)
Fixpoint claim_from (tries : nat) (id now : Z) (p : Pending) : Pending * option Z :=
  match tries with
  | O => (p, None)
  | S tries =>
      if get (ids p) (ix id) =? 0 then (occupy id now (next_id id) p, Some id)
      else claim_from tries (next_id id) now p
  end.

Definition claim_next (now : Z) (p : Pending) : Pending * option Z := claim_from (Z.to_nat N) (p_next p) now p.

Definition claim (id now : Z) (p : Pending) : Pending * result nat PendingErr :=
  if id =? 0 then (p, Err ZeroId)
  else if negb (get (ids p) (ix id) =? 0) then (p, Err SlotBusy)
  else (occupy id now (p_next p) p, Ok (ix id)).

Definition holds (id : Z) (p : Pending) : bool := negb (id =? 0) && (get (ids p) (ix id) =? id).

Definition get_post (id : Z) (p : Pending) : option T := if holds id p then slots p !! ix id else None.
Definition sent_ns (id : Z) (p : Pending) : option Z := if holds id p then Some (get (sent p) (ix id)) else None.

Definition release (id : Z) (p : Pending) : Pending * bool :=
  if (id =? 0) || negb (get (ids p) (ix id) =? id) then (p, false)
  else (mkPending (<[ix id := 0]> (ids p)) (sent p) (slots p) (p_live p - 1) (p_next p), true).

Definition is_free (id : Z) (p : Pending) : bool := negb (id =? 0) && (get (ids p) (ix id) =? 0).

Definition id_at (slot : Z) (p : Pending) : option Z :=
  let id := get (ids p) (ix slot) in if id =? 0 then None else Some id.
End Pending.
End Pending.

(** ** [RateWindow]: sixty one-second buckets and their total *)

Module Rate.

Definition RATE_WINDOW_S : Z := 60.
Definition NS_PER_S : Z := 1000000000.

Record RateWindow := mkRate { buckets : list Z; head_s : Z; sum : Z }.

Definition new : RateWindow := mkRate (replicate 60 0) 0 0.

Definition bucket (t : Z) : nat := Z.to_nat (t mod RATE_WINDOW_S).

(** The expiring seconds [t .. s], [n] of them. *)
Fixpoint expire (n : nat) (t : Z) (w : RateWindow) : RateWindow :=
  match n with
  | O => w
  | S n => expire n (t + 1) (mkRate (<[bucket t := 0]> (buckets w)) (head_s w) (sum w - get (buckets w) (bucket t)))
  end.

Definition advance (now : Z) (w : RateWindow) : RateWindow :=
  let s := now / NS_PER_S in
  if s <=? head_s w then w
  else
    let w' := if RATE_WINDOW_S <=? s - head_s w then mkRate (replicate 60 0) (head_s w) 0
              else expire (Z.to_nat (s - head_s w)) (head_s w + 1) w in
    mkRate (buckets w') s (sum w').

Definition add (now n : Z) (w : RateWindow) : RateWindow :=
  let w := advance now w in
  let i := bucket (head_s w) in
  let before := get (buckets w) i in
  let after := sat_u32 (before + n) in
  mkRate (<[i := after]> (buckets w)) (head_s w) (sum w + (after - before)).

Definition at_least (cap pct : Z) (w : RateWindow) : bool := sat_u64 (cap * pct) <=? sat_u64 (sum w * 100).
End Rate.

(** ** [RttWindow]: the newest 64 round trips *)

Module Rtt.

Definition RTT_WINDOW : Z := 64.
Definition RTT_MAX_AGE_NS : Z := 30000000000.

Record RttWindow := mkRtt { at_ns : list Z; rtt_ns : list Z; rtt_n : Z }.

Definition new : RttWindow := mkRtt (replicate 64 0) (replicate 64 0) 0.

Definition record (now rtt : Z) (w : RttWindow) : RttWindow :=
  let i := Z.to_nat (rtt_n w mod RTT_WINDOW) in
  mkRtt (<[i := now]> (at_ns w)) (<[i := rtt]> (rtt_ns w)) (wrap_u64 (rtt_n w + 1)).

(** Recorded, and young enough to count. *)
Definition fresh (now at_ : Z) : bool := negb (at_ =? 0) && (sat_u64 (now - at_) <=? RTT_MAX_AGE_NS).

Definition worst (now : Z) (w : RttWindow) : Z :=
  foldl (fun m '(a, r) => if fresh now a && (m <? r) then r else m) 0 (zip (at_ns w) (rtt_ns w)).
End Rtt.

(** ** [Idle]: how long the poller may block *)

Module Idle.

Record Idle := mkIdle { spin_polls : Z; quiet : Z; park_ns : Z; hot : HotWindow }.

Definition PARK_NS_DEFAULT : Z := 100000.
Definition SPIN_POLLS_DEFAULT : Z := 1000.

Definition new (spin park : Z) : Idle := mkIdle (Z.min spin u16_max) 0 (Z.min park u32_max) HotWindow_OFF.
Definition with_hot (w : HotWindow) (i : Idle) : Idle := mkIdle (spin_polls i) (quiet i) (park_ns i) w.
Definition is_hot (wall_ms : Z) (i : Idle) : bool := hw_contains (hot i) wall_ms.

Definition timeout_ns (worked : bool) (now : Z) (next : option Z) (i : Idle) : Idle * Z :=
  if worked then (mkIdle (spin_polls i) 0 (park_ns i) (hot i), 0)
  else if quiet i <? spin_polls i then (mkIdle (spin_polls i) (quiet i + 1) (park_ns i) (hot i), 0)
  else (i, match next with
           | Some d => Z.min (park_ns i) (sat_u64 (d - now))
           | None => park_ns i
           end).
End Idle.

(** ** [Backoff]: exponential delays with equal jitter *)

Module Backoff.

Record Backoff := mkBackoff { base_ns : Z; cap_ns : Z; attempt : Z; rng : Z }.

Definition BACKOFF_BASE_NS : Z := 500000000.
Definition BACKOFF_CAP_NS : Z := 8000000000.

Definition new (base cap seed : Z) : Backoff := mkBackoff base cap 0 seed.

(** [checked_shl] is [None] from 64 places up only; it drops the high bits. *)
Definition shl_capped (base shift cap : Z) : Z :=
  if 64 <=? shift then cap
  else let v := wrap_u64 (Z.shiftl base shift) in if v <? cap then v else cap.

(** SplitMix64. *)
Definition mix (state : Z) : Z :=
  let z := wrap_u64 (Z.lxor state (Z.shiftr state 30) * 0xBF58476D1CE4E5B9) in
  let z := wrap_u64 (Z.lxor z (Z.shiftr z 27) * 0x94D049BB133111EB) in
  Z.lxor z (Z.shiftr z 31).

Definition next_rand (b : Backoff) : Backoff * Z :=
  let r := wrap_u64 (rng b + 0x9E3779B97F4A7C15) in
  (mkBackoff (base_ns b) (cap_ns b) (attempt b) r, mix r).

(** [d], before the jitter. *)
Definition full_delay (b : Backoff) : Z := shl_capped (base_ns b) (if 31 <=? attempt b then 31 else attempt b) (cap_ns b).

Definition next_delay_ns (b : Backoff) : Backoff * Z :=
  let half := full_delay b / 2 in
  let '(b, r) := next_rand (mkBackoff (base_ns b) (cap_ns b) (sat_u32 (attempt b + 1)) (rng b)) in
  (b, half + r mod Z.max half 1).

Definition reset (b : Backoff) : Backoff := mkBackoff (base_ns b) (cap_ns b) 0 (rng b).

Definition HEALTHY_SESSION_MIN_NS : Z := 30000000000.

Definition should_reset_backoff (ticks_after ticks_before session_ns : Z) (venue_quiet_trip : bool) : bool :=
  ((ticks_before <? ticks_after) && (HEALTHY_SESSION_MIN_NS <=? session_ns)) || venue_quiet_trip.
End Backoff.

(** ** [Mbb]: two connection slots, make-before-break *)

Module Mbb.

Inductive SlotState : Type := Down | Dialing | Live | Draining.
Inductive MbbAction : Type := Idle | Dial (slot : bool) | Retire (slot : bool).

#[export] Instance slot_state_eq_dec : EqDecision SlotState.
Proof. solve_decision. Defined.
#[export] Instance mbb_action_eq_dec : EqDecision MbbAction.
Proof. solve_decision. Defined.

(** A slot is a bit ([slot & 1]): [false] is slot 0. *)
Record Mbb := mkMbb {
  state0 : SlotState; state1 : SlotState;
  since0 : Z; since1 : Z;
  active : option bool;
  backoff : Backoff.Backoff;
  next_dial_ns : Z;
  replace_wanted : bool;
  healthy_ns : Z;
  dial_budget_ns : Z;
  drain_budget_ns : Z;
  swaps : Z
}.

Definition new (b : Backoff.Backoff) (healthy dial drain : Z) : Mbb :=
  mkMbb Down Down 0 0 None b 0 false healthy dial drain 0.

Definition state (m : Mbb) (slot : bool) : SlotState := if slot then state1 m else state0 m.
Definition since (m : Mbb) (slot : bool) : Z := if slot then since1 m else since0 m.

Definition set (slot : bool) (st : SlotState) (now : Z) (m : Mbb) : Mbb :=
  if slot
  then mkMbb (state0 m) st (since0 m) now (active m) (backoff m) (next_dial_ns m) (replace_wanted m)
         (healthy_ns m) (dial_budget_ns m) (drain_budget_ns m) (swaps m)
  else mkMbb st (state1 m) now (since1 m) (active m) (backoff m) (next_dial_ns m) (replace_wanted m)
         (healthy_ns m) (dial_budget_ns m) (drain_budget_ns m) (swaps m).

(** The fields besides the slots that an operation writes. *)
Definition settle (act : option bool) (b : Backoff.Backoff) (next : Z) (replace : bool) (sw : Z) (m : Mbb) : Mbb :=
  mkMbb (state0 m) (state1 m) (since0 m) (since1 m) act b next replace
    (healthy_ns m) (dial_budget_ns m) (drain_budget_ns m) sw.

Definition request_replace (m : Mbb) : Mbb :=
  match active m with
  | Some _ => settle (active m) (backoff m) (next_dial_ns m) true (swaps m) m
  | None => m
  end.

Definition over_budget (now : Z) (m : Mbb) (slot : bool) : bool :=
  let age := sat_u64 (now - since m slot) in
  match state m slot with
  | Draining => drain_budget_ns m <=? age
  | Dialing => dial_budget_ns m <=? age
  | Down | Live => false
  end.

Definition poll (now : Z) (m : Mbb) : Mbb * MbbAction :=
  if over_budget now m false then (m, Retire false)
  else if over_budget now m true then (m, Retire true)
  else if bool_decide (state0 m = Dialing) || bool_decide (state1 m = Dialing) || (now <? next_dial_ns m) then (m, Idle)
  else match active m with
       | None =>
           let slot := negb (bool_decide (state0 m = Down)) in
           (set slot Dialing now m, Dial slot)
       | Some a =>
           let other := negb a in
           if replace_wanted m && bool_decide (state m other = Down)
           then (set other Dialing now m, Dial other) else (m, Idle)
       end.

Definition on_live (slot : bool) (now : Z) (m : Mbb) : Mbb :=
  let m := set slot Live now m in
  let m := match active m with
           | Some old =>
               if negb (eqb old slot)
               then let m := set old Draining now m in
                    settle (active m) (backoff m) (next_dial_ns m) (replace_wanted m) (swaps m + 1) m
               else m
           | None => m
           end in
  settle (Some slot) (backoff m) (next_dial_ns m) false (swaps m) m.

Definition on_down (slot : bool) (now : Z) (m : Mbb) : Mbb :=
  let was := state m slot in
  let m := set slot Down now m in
  let act := if decide (active m = Some slot) then None else active m in
  if bool_decide (was = Live) || bool_decide (was = Dialing)
  then let '(b, d) := Backoff.next_delay_ns (backoff m) in
       settle act b (sat_u64 (now + d)) (replace_wanted m) (swaps m) m
  else settle act (backoff m) (next_dial_ns m) (replace_wanted m) (swaps m) m.

Definition on_drained (slot : bool) (now : Z) (m : Mbb) : Mbb :=
  if decide (state m slot = Draining) then set slot Down now m else m.

Definition note_healthy (now : Z) (m : Mbb) : Mbb :=
  match active m with
  | Some a =>
      if healthy_ns m <=? sat_u64 (now - since m a)
      then settle (active m) (Backoff.reset (backoff m)) (next_dial_ns m) (replace_wanted m) (swaps m) m
      else m
  | None => m
  end.
End Mbb.
