(* ===== verification/GatewayProofs.v ===== *)
(** * What the gateway parts promise

    The connection pair makes before it breaks, reconnect delays stay in
    their jittered band, the in-flight table is a map that never loses a
    post, and the two windows are exact. *)

From stdpp Require Import gmap.
From S2P Require Import Prelude Ring Gateway.

(** ** The reconnect backoff *)

Section Backoff.
Import Gateway.Backoff.

Lemma shl_capped_exact base shift cap :
  0 <= base -> 0 <= shift < 64 -> base * 2 ^ shift <= u64_max -> shl_capped base shift cap = Z.min cap (base * 2 ^ shift).
Proof.
  intros Hb Hs Hn. unfold shl_capped. rewrite (proj2 (Z.leb_gt _ _)) by lia. rewrite Z.shiftl_mul_pow2 by lia.
  rewrite wrap_u64_id by (unfold u64_max in *; split; [apply Z.mul_nonneg_nonneg; lia|lia]).
  cbv zeta. destruct (Z.ltb_spec (base * 2 ^ shift) cap); lia.
Qed.

(** Past [2^33] ns the shift drops high bits and the delay collapses. *)
Lemma shl_capped_is_not_saturating : shl_capped (2 ^ 33) 31 BACKOFF_CAP_NS = 0.
Proof. reflexivity. Qed.

Lemma next_delay_band b :
  0 <= full_delay b -> let '(b', d) := next_delay_ns b in
  full_delay b / 2 <= d /\ (2 <= full_delay b -> d < full_delay b) /\ d <= full_delay b.
Proof.
  intros Hd. unfold next_delay_ns. set (half := full_delay b / 2). cbv zeta. cbn [next_rand].
  pose proof (Z.mod_pos_bound (mix (wrap_u64 (rng b + 0x9E3779B97F4A7C15))) (Z.max half 1) ltac:(lia)).
  cbn [rng]. assert (2 * half <= full_delay b < 2 * half + 2) by (subst half; Z.to_euclidean_division_equations; lia).
  split_and!; [lia|intros; lia|].
  destruct (decide (half = 0)) as [E|]; [|lia]. rewrite E in *. lia.
Qed.
End Backoff.

(** A reconnect waits a jittered exponential delay: with d the base
    doubled once per attempt (31 doublings at most) and capped, between d/2
    and d and below d; the attempt is counted, and a reset starts the
    doubling again. *)
Theorem reconnect_delay_is_jittered_exponential (b : Backoff.Backoff) :
  0 <= Backoff.base_ns b -> Backoff.base_ns b * 2 ^ 31 <= u64_max -> 0 <= Backoff.cap_ns b -> 0 <= Backoff.attempt b <= u32_max ->
  let d := Z.min (Backoff.cap_ns b) (Backoff.base_ns b * 2 ^ Z.min 31 (Backoff.attempt b)) in
  let '(b', delay) := Backoff.next_delay_ns b in
  d / 2 <= delay <= d /\ (2 <= d -> delay < d)
  /\ Backoff.attempt b' = Z.min u32_max (Backoff.attempt b + 1)
  /\ Backoff.base_ns b' = Backoff.base_ns b /\ Backoff.cap_ns b' = Backoff.cap_ns b
  /\ Backoff.full_delay (Backoff.reset b') = Z.min (Backoff.cap_ns b) (Backoff.base_ns b).
Proof.
  intros Hb Hn Hc Ha d.
  assert (forall k, 0 <= k <= 31 -> Backoff.base_ns b * 2 ^ k <= u64_max) as Hk.
  { intros k Hk. pose proof (Z.pow_le_mono_r 2 k 31 ltac:(lia) ltac:(lia)). nia. }
  assert (Backoff.full_delay b = d) as Ed.
  { unfold Backoff.full_delay, d. replace (if 31 <=? Backoff.attempt b then 31 else Backoff.attempt b)
      with (Z.min 31 (Backoff.attempt b)) by (destruct (Z.leb_spec 31 (Backoff.attempt b)); lia).
    apply shl_capped_exact; [done|lia|apply Hk; lia]. }
  assert (0 <= d) by (unfold d; apply Z.min_glb; [done|apply Z.mul_nonneg_nonneg; [done|apply Z.pow_nonneg; lia]]).
  pose proof (next_delay_band b ltac:(lia)) as B. rewrite Ed in B.
  pose proof (shl_capped_exact (Backoff.base_ns b) 0 (Backoff.cap_ns b) Hb ltac:(lia) (Hk 0 ltac:(lia))) as E0.
  unfold Backoff.next_delay_ns in *. cbn [Backoff.next_rand] in *. destruct B as (B1 & B2 & B3).
  split_and!; [done|done|done| | |done|].
  - cbn [Backoff.attempt]. unfold sat_u32, clamp. lia.
  - done.
  - unfold Backoff.full_delay, Backoff.reset. cbn [Backoff.base_ns Backoff.attempt Backoff.cap_ns].
    change (31 <=? 0) with false. cbn match. rewrite E0. f_equal. lia.
Qed.

Lemma reconnect_delay_is_jittered_exponential_witness :
  let b := Backoff.mkBackoff Backoff.BACKOFF_BASE_NS Backoff.BACKOFF_CAP_NS 3 7 in
  (Backoff.next_delay_ns b).2 = 2892374487
  /\ let d := Z.min (Backoff.cap_ns b) (Backoff.base_ns b * 2 ^ Z.min 31 (Backoff.attempt b)) in
     let '(b', delay) := Backoff.next_delay_ns b in
     d / 2 <= delay <= d /\ (2 <= d -> delay < d)
     /\ Backoff.attempt b' = Z.min u32_max (Backoff.attempt b + 1)
     /\ Backoff.base_ns b' = Backoff.base_ns b /\ Backoff.cap_ns b' = Backoff.cap_ns b
     /\ Backoff.full_delay (Backoff.reset b') = Z.min (Backoff.cap_ns b) (Backoff.base_ns b).
Proof.
  split; [vm_compute; reflexivity|].
  apply (reconnect_delay_is_jittered_exponential (Backoff.mkBackoff Backoff.BACKOFF_BASE_NS Backoff.BACKOFF_CAP_NS 3 7));
    vm_compute; intuition congruence.
Defined.

(** ** The connection pair *)

Section Mbb.
Import Gateway.Mbb.

Inductive MbbOp : Type :=
| OpPoll (now : Z)
| OpLive (slot : bool) (now : Z)
| OpDown (slot : bool) (now : Z)
| OpDrained (slot : bool) (now : Z)
| OpReplace
| OpHealthy (now : Z).

Definition mbb_step (op : MbbOp) (m : Mbb) : Mbb * MbbAction :=
  match op with
  | OpPoll now => poll now m
  | OpLive s now => (on_live s now m, Idle)
  | OpDown s now => (on_down s now m, Idle)
  | OpDrained s now => (on_drained s now m, Idle)
  | OpReplace => (request_replace m, Idle)
  | OpHealthy now => (note_healthy now m, Idle)
  end.

(** A connection goes live on a slot that was dialled. *)
Definition lawful (m : Mbb) (op : MbbOp) : Prop :=
  match op with OpLive s _ => state m s = Dialing | _ => True end.

Inductive reachable (m0 : Mbb) : Mbb -> Prop :=
| reach_new : reachable m0 m0
| reach_step m op : reachable m0 m -> lawful m op -> reachable m0 (mbb_step op m).1.

Record pair_ok (m : Mbb) : Prop := {
  po_active : forall s, active m = Some s <-> state m s = Live;
  po_dial : forall s, state m s = Dialing -> state m (negb s) <> Dialing;
  po_drain : forall s, state m s = Draining -> state m (negb s) <> Draining
}.

Lemma state_set s st now m t : state (set s st now m) t = if decide (t = s) then st else state m t.
Proof. by destruct s, t. Qed.

Lemma state_settle a b n r w m t : state (settle a b n r w m) t = state m t.
Proof. by destruct t. Qed.

Lemma active_set s st now m : active (set s st now m) = active m.
Proof. by destruct s. Qed.

(** Each operation on the states and the active slot alone. *)
Lemma on_live_view s now m :
  active (on_live s now m) = Some s /\
  forall t, state (on_live s now m) t =
    if decide (active m = Some (negb s)) then (if decide (t = s) then Live else Draining)
    else if decide (t = s) then Live else state m t.
Proof.
  unfold on_live. cbv zeta. rewrite active_set. destruct (active m) as [[]|], s; cbn [eqb negb]; (split; [done|]); intros [];
    rewrite ?state_settle, ?state_set; done.
Qed.

Lemma on_down_view s now m :
  active (on_down s now m) = (if decide (active m = Some s) then None else active m) /\
  forall t, state (on_down s now m) t = if decide (t = s) then Down else state m t.
Proof.
  unfold on_down. cbv zeta. rewrite active_set.
  destruct (bool_decide (state m s = Live) || bool_decide (state m s = Dialing));
    [destruct (Backoff.next_delay_ns (backoff (set s Down now m))) as [b d]|]; (split; [done|]);
    intros t; by rewrite state_settle, state_set.
Qed.

Lemma poll_cases now m :
  let '(m', a) := poll now m in
  (m' = m /\ match a with Idle => True | Dial _ => False | Retire s => over_budget now m s = true end)
  \/ exists s, m' = set s Dialing now m /\ a = Dial s /\ state m (negb s) <> Dialing /\ next_dial_ns m <= now /\
     state0 m <> Dialing /\ state1 m <> Dialing /\
     (active m = None /\ s = negb (bool_decide (state0 m = Down)) \/ active m = Some (negb s) /\ state m s = Down).
Proof.
  unfold poll. destruct (over_budget now m false) eqn:E0; [by left|]. destruct (over_budget now m true) eqn:E1; [by left|].
  destruct (bool_decide_reflect (state0 m = Dialing)), (bool_decide_reflect (state1 m = Dialing)),
    (Z.ltb_spec now (next_dial_ns m)); cbn [orb]; try by left.
  destruct (active m) as [a|].
  - destruct (replace_wanted m); cbn [andb]; [|by left]. case_bool_decide as Ed; [|by left]. right. exists (negb a).
    rewrite negb_involutive. split_and!; try done. by destruct a. by right.
  - right. eexists. split_and!; try done; [|by left]. by destruct (negb _).
Qed.

Lemma mbb_settled_keeps a b n r w m : a = active m -> pair_ok m -> pair_ok (settle a b n r w m).
Proof. intros -> [A D R]. split; intros s; rewrite !state_settle; [apply A|apply D|apply R]. Qed.

Lemma down_or_dialing m : pair_ok m -> active m = None -> exists s, state m s = Down \/ state m s = Dialing.
Proof.
  intros [A D R] Ha. destruct (state m false) eqn:E0; [exists false; auto..| |].
  - apply A in E0. congruence.
  - destruct (state m true) eqn:E1; [exists true; auto..| |].
    + apply A in E1. congruence.
    + by apply R in E0.
Qed.

Lemma dialled_slot_is_down m s :
  pair_ok m -> state0 m <> Dialing -> state1 m <> Dialing ->
  active m = None /\ s = negb (bool_decide (state0 m = Down)) \/ active m = Some (negb s) /\ state m s = Down ->
  state m s = Down.
Proof.
  intros P H0 H1 [[Ha ->]|[_ ?]]; [|done]. destruct (down_or_dialing m P Ha) as [t Ht].
  case_bool_decide as E; cbn [negb state]; [done|]. by destruct t, Ht.
Qed.

Lemma step_keeps op m : pair_ok m -> lawful m op -> pair_ok (mbb_step op m).1.
Proof.
  intros P L. pose proof P as [A D R]. destruct op as [now|s now|s now|s now| |now]; cbn [mbb_step lawful fst] in *.
  - pose proof (poll_cases now m) as C. destruct (poll now m) as [m' a]. cbn [fst].
    destruct C as [[-> _]|(s & -> & _ & Hn & _ & H0 & H1 & Hs)]; [done|].
    pose proof (dialled_slot_is_down m s P H0 H1 Hs) as Hd.
    split; intros t; rewrite ?active_set, !state_set.
    + rewrite A. destruct (decide (t = s)) as [->|]; [split; congruence|reflexivity].
    + destruct t, s; cbn; intros; try done; apply H0 || apply H1 || done.
    + destruct t, s; cbn; intros; try done; by apply R.
  - pose proof (on_live_view s now m) as [Ea Es]. split; intros t; rewrite ?Ea, !Es.
    + destruct (decide (t = s)) as [->|Hts]; [by destruct (decide (active m = Some (negb s)))|].
      split; [congruence|]. destruct (decide (active m = Some (negb s))) as [|Ha]; [done|]. intros X%A.
      destruct Ha. rewrite X. by destruct t, s.
    + destruct (decide (active m = Some (negb s))); destruct t, s; cbn; try done; intros X; try done;
        specialize (D false) as D0; specialize (D true) as D1; cbn in *; tauto.
    + assert (active m <> Some (negb s) -> state m (negb s) <> Live) as NL by (intros Y X; by apply Y, A).
      destruct (decide (active m = Some (negb s))); destruct t, s; cbn; done.
  - pose proof (on_down_view s now m) as [Ea Es]. split; intros t; rewrite ?Ea, !Es.
    + destruct (decide (t = s)) as [->|Hts].
      * split; [|done]. by destruct (decide (active m = Some s)).
      * rewrite <- A. destruct (decide (active m = Some s)); [|done]. split; congruence.
    + destruct t, s; cbn; try done; apply (D false) || apply (D true).
    + destruct t, s; cbn; try done; apply (R false) || apply (R true).
  - unfold on_drained. case_decide as E; [|done]. split; intros t; rewrite ?active_set, !state_set.
    + rewrite A. case_decide; [subst; split; congruence|reflexivity].
    + specialize (D t). destruct t, s; cbn in *; try done.
    + specialize (R t). destruct t, s; cbn in *; try done.
  - unfold request_replace. destruct (active m) eqn:E; [|done]. rewrite <- E. by apply mbb_settled_keeps.
  - unfold note_healthy. destruct (active m) eqn:E; [|done]. case_match; [|done]. rewrite <- E. by apply mbb_settled_keeps.
Qed.

Lemma reachable_ok m0 m : pair_ok m0 -> reachable m0 m -> pair_ok m.
Proof. intros P. induction 1; [done|by apply step_keeps]. Qed.

Lemma active_changes op m m' act s :
  pair_ok m -> lawful m op -> mbb_step op m = (m', act) -> active m = Some s ->
  active m' = Some s
  \/ (exists now, op = OpLive (negb s) now) /\ active m' = Some (negb s) /\ state m' s = Draining
  \/ (exists now, op = OpDown s now) /\ active m' = None.
Proof.
  intros P L E Ha. destruct op as [now|t now|t now|t now| |now]; cbn [mbb_step lawful] in *; try injection E as <- <-.
  - pose proof (poll_cases now m) as C. rewrite E in C. left.
    destruct C as [[-> _]|(t & -> & _)]; [done|by rewrite active_set].
  - right. left. apply (po_active m P) in Ha as Hl. assert (t = negb s) as -> by (destruct t, s; cbn in *; congruence).
    pose proof (on_live_view (negb s) now m) as [-> ->]. rewrite negb_involutive, decide_True, decide_False by (by destruct s || done).
    split_and!; [by eexists|done|done].
  - pose proof (on_down_view t now m) as [-> _]. case_decide as X; [right; right|by left].
    assert (t = s) as -> by congruence. split; [by eexists|done].
  - left. unfold on_drained. case_decide; [by rewrite active_set|done].
  - left. unfold request_replace. by destruct (active m).
  - left. unfold note_healthy. rewrite Ha. by case_match.
Qed.

Lemma new_ok b h d r : pair_ok (new b h d r).
Proof. by split; intros []. Qed.
End Mbb.

(** A delay is half the full one and some jitter, never past the full one. *)
Lemma delay_bounds b : 0 <= Backoff.full_delay b ->
  Backoff.full_delay b / 2 <= (Backoff.next_delay_ns b).2 <= Backoff.full_delay b.
Proof.
  intros Hf. unfold Backoff.next_delay_ns. cbv zeta. destruct (Backoff.next_rand _) as [b' r]. cbn [snd].
  pose proof (Z.div_pos (Backoff.full_delay b) 2 Hf ltac:(lia)). pose proof (Z.mul_div_le (Backoff.full_delay b) 2 ltac:(lia)).
  set (half := Backoff.full_delay b / 2) in *. pose proof (Z.mod_pos_bound r (Z.max half 1) ltac:(lia)). lia.
Qed.

Lemma full_delay_nonneg b : 0 <= Backoff.cap_ns b -> 0 <= Backoff.full_delay b.
Proof.
  intros Hc. unfold Backoff.full_delay, Backoff.shl_capped. destruct (64 <=? _); [done|]. cbv zeta.
  pose proof (wrap_u64_range (Z.shiftl (Backoff.base_ns b) (if 31 <=? Backoff.attempt b then 31 else Backoff.attempt b))) as Hw.
  destruct (_ <? _); lia.
Qed.

(** The connection broke: the slot was up, or on its way up. *)
Definition breaks (m : Mbb.Mbb) (op : MbbOp) : option Z :=
  match op with
  | OpDown s now => match Mbb.state m s with Mbb.Live | Mbb.Dialing => Some now | Mbb.Down | Mbb.Draining => None end
  | _ => None
  end.

(** A break arms the next dial, and nothing else moves it. *)
Lemma next_dial_moves m op :
  Mbb.next_dial_ns (mbb_step op m).1 =
    match breaks m op with
    | Some now => sat_u64 (now + (Backoff.next_delay_ns (Mbb.backoff m)).2)
    | None => Mbb.next_dial_ns m
    end.
Proof.
  destruct op as [now|s now|s now|s now| |now]; cbn [mbb_step breaks fst].
  - pose proof (poll_cases now m) as C. destruct (Mbb.poll now m) as [m' a].
    destruct C as [[-> _]|(s & -> & _)]; [done|by destruct s].
  - unfold Mbb.on_live. cbv zeta. rewrite active_set. destruct (Mbb.active m) as [[]|], s; done.
  - unfold Mbb.on_down. cbv zeta. assert (Mbb.backoff (Mbb.set s Mbb.Down now m) = Mbb.backoff m) as -> by by destruct s.
    destruct (Mbb.state m s); cbn; try (by destruct s); by destruct (Backoff.next_delay_ns (Mbb.backoff m)).
  - unfold Mbb.on_drained. case_decide; [by destruct s|done].
  - unfold Mbb.request_replace. by destruct (Mbb.active m).
  - unfold Mbb.note_healthy. destruct (Mbb.active m); [|done]. by case_match.
Qed.

(** C29. For any history the owner can report, the connection pair makes
    before it breaks: at most one slot is live and it is the active one, at
    most one dials and one drains; the active connection is given up only
    for a live replacement (it then drains) or when it went down. When a
    live or dialling connection goes down the next dial is put off, from
    then, by the backoff's delay (at least half of its full delay and never
    more than all of it, for a cap that is not negative), and nothing else
    moves that time; a dial is given only by a poll that has reached it, to
    a down slot, never beside another dial. A slot is retired only by a poll
    that finds its dial or drain over its budget, and never the active one.
    With no active slot, no dial under way and the backoff over, the next
    poll dials, unless a drain has outlived its budget: then it asks for
    that slot to be retired. *)
Theorem pair_makes_before_it_breaks (b : Backoff.Backoff) (healthy dial drain : Z) (m : Mbb.Mbb) (op : MbbOp) :
  reachable (Mbb.new b healthy dial drain) m -> lawful m op ->
  let '(m', act) := mbb_step op m in
  (forall s, Mbb.active m = Some s <-> Mbb.state m s = Mbb.Live)
  /\ (forall s, Mbb.state m s <> Mbb.Down -> Mbb.state m (negb s) <> Mbb.state m s)
  /\ (forall s, Mbb.active m = Some s ->
        Mbb.active m' = Some s
        \/ (exists now, op = OpLive (negb s) now) /\ Mbb.active m' = Some (negb s) /\ Mbb.state m' s = Mbb.Draining
        \/ (exists now, op = OpDown s now) /\ Mbb.active m' = None)
  /\ (forall s, act = Mbb.Dial s ->
        Mbb.state m s = Mbb.Down /\ Mbb.state m' s = Mbb.Dialing /\ Mbb.state m' (negb s) = Mbb.state m (negb s)
        /\ Mbb.state m (negb s) <> Mbb.Dialing /\ exists now, op = OpPoll now /\ Mbb.next_dial_ns m <= now)
  /\ Mbb.next_dial_ns m' = match breaks m op with
      | Some now => sat_u64 (now + (Backoff.next_delay_ns (Mbb.backoff m)).2)
      | None => Mbb.next_dial_ns m
      end
  /\ (0 <= Backoff.cap_ns (Mbb.backoff m) ->
        Backoff.full_delay (Mbb.backoff m) / 2 <= (Backoff.next_delay_ns (Mbb.backoff m)).2 <= Backoff.full_delay (Mbb.backoff m))
  /\ (forall s, act = Mbb.Retire s -> Mbb.active m <> Some s /\ exists now, op = OpPoll now /\ Mbb.over_budget now m s = true)
  /\ (forall now, op = OpPoll now -> Mbb.active m = None -> Mbb.next_dial_ns m <= now -> (forall s, Mbb.state m s <> Mbb.Dialing) ->
        (exists s, Mbb.over_budget now m s = true /\ act = Mbb.Retire s)
        \/ (forall s, Mbb.over_budget now m s = false) /\ exists s, act = Mbb.Dial s).
Proof.
  intros Hr L. pose proof (reachable_ok _ m (new_ok b healthy dial drain) Hr) as P. pose proof P as [A D R].
  destruct (mbb_step op m) as [m' act] eqn:E. pose proof (next_dial_moves m op) as Nd. rewrite E in Nd.
  split; [done|]. split; [|split; [|split; [|split; [exact Nd|split; [|split]]]]].
  - intros s Hs X. destruct (Mbb.state m s) eqn:Es; [done|by apply (D s)| |by apply (R s)].
    apply A in Es, X. rewrite Es in X. by destruct s.
  - intros s Hs. by apply (active_changes op m m' act).
  - intros s ->. destruct op; cbn [mbb_step] in E; try done. pose proof (poll_cases now m) as C. rewrite E in C.
    destruct C as [[-> []]|(t & -> & [= ->] & Hn & Ht & H0 & H1 & Hs)].
    rewrite !state_set, decide_True, decide_False by (by destruct t || done). split_and!; try done; [|by eexists].
    by apply dialled_slot_is_down.
  - intros Hc. apply delay_bounds, full_delay_nonneg, Hc.
  - intros s ->. destruct op; cbn [mbb_step] in E; try done. pose proof (poll_cases now m) as C. rewrite E in C.
    destruct C as [[-> Ho]|(t & _ & [=] & _)]. split; [|by eexists]. intros X%A. unfold Mbb.over_budget in Ho. by rewrite X in Ho.
  - intros now -> Ha Hn Hs. pose proof (Hs false) as D0. pose proof (Hs true) as D1. cbn [mbb_step] in E. unfold Mbb.poll in E.
    destruct (Mbb.over_budget now m false) eqn:O0; [injection E as <- <-; left; by exists false|].
    destruct (Mbb.over_budget now m true) eqn:O1; [injection E as <- <-; left; by exists true|].
    right. split; [by intros []|]. rewrite Ha in E. cbn [Mbb.state] in D0, D1.
    rewrite !bool_decide_eq_false_2, (proj2 (Z.ltb_ge _ _)) in E by done. injection E as <- <-. by eexists.
Qed.

(** A first dial comes up, a replacement is asked for and dialled. *)
Definition sample_pair : Mbb.Mbb :=
  let m := Mbb.new (Backoff.new 500 8000 7) 30 10 10 in
  let m := (mbb_step (OpPoll 5) m).1 in
  let m := (mbb_step (OpLive false 6) m).1 in
  let m := (mbb_step OpReplace m).1 in
  (mbb_step (OpPoll 7) m).1.

Lemma pair_makes_before_it_breaks_witness :
  Mbb.active sample_pair = Some false /\ Mbb.state1 sample_pair = Mbb.Dialing
  /\ Mbb.active (mbb_step (OpLive true 9) sample_pair).1 = Some true
  /\ forall s, Mbb.active sample_pair = Some s <-> Mbb.state sample_pair s = Mbb.Live.
Proof.
  split_and!; [reflexivity..|].
  refine (proj1 (pair_makes_before_it_breaks (Backoff.new 500 8000 7) 30 10 10 sample_pair (OpLive true 9) _ _)).
  - repeat (apply reach_step; [|vm_compute; exact I || reflexivity]). apply reach_new.
  - vm_compute. reflexivity.
Defined.

(** ** The in-flight table *)

Section Pending.
Import Gateway.Pending.
Context {T : Type} (N : Z) (HN : pow2_capacity N).

#[local] Abbreviation Table := (@Pending T).

Lemma ix_mod id : 0 <= id -> ix N id = Z.to_nat (id mod N).
Proof.
  intros Hid. destruct HN as (n & Hn & ->). unfold ix. replace (2 ^ n - 1) with (Z.ones n) by (rewrite Z.ones_equiv; lia).
  by rewrite Z.land_ones by lia.
Qed.

Lemma ix_lt id : 0 <= id -> (ix N id < Z.to_nat N)%nat.
Proof. intros Hid. rewrite ix_mod by done. pose proof (pow2_capacity_range N HN). pose proof (Z.mod_pos_bound id N). lia. Qed.

Definition busy (z : Z) : bool := negb (z =? 0).

(** [m] holds the posts in flight: when each was sent and its record. *)
Record represents (p : Table) (m : gmap Z (Z * T)) : Prop := {
  rp_ids : length (ids p) = Z.to_nat N;
  rp_sent : length (sent p) = Z.to_nat N;
  rp_slots : length (slots p) = Z.to_nat N;
  rp_next : 1 <= p_next p <= u64_max;
  rp_live : p_live p = Z.of_nat (size m);
  rp_size : size m = countb busy (ids p);
  rp_in : forall id t x, m !! id = Some (t, x) ->
    0 < id <= u64_max /\ get (ids p) (ix N id) = id /\ get (sent p) (ix N id) = t /\ slots p !! ix N id = Some x;
  rp_of : forall i, (i < Z.to_nat N)%nat -> get (ids p) i <> 0 -> is_Some (m !! get (ids p) i) /\ ix N (get (ids p) i) = i
}.

Lemma countb_busy l i a b : (i < length l)%nat -> get l i = a ->
  (countb busy (<[i := b]> l) + (if busy a then 1 else 0) = countb busy l + (if busy b then 1 else 0))%nat.
Proof. intros Hi E. apply countb_insert. by rewrite get_lookup, E. Qed.

Lemma busy_id id : id <> 0 -> busy id = true.
Proof. intros H. unfold busy. by rewrite (proj2 (Z.eqb_neq id 0)). Qed.

(** No post in flight shares the slot. *)
Definition slot_free (m : gmap Z (Z * T)) (id : Z) : Prop := forall id', is_Some (m !! id') -> ix N id' <> ix N id.

Lemma holds_spec p m id : represents p m -> 0 <= id -> holds N id p = true <-> is_Some (m !! id).
Proof.
  intros R Hid. unfold holds. rewrite andb_true_iff, negb_true_iff, Z.eqb_neq, Z.eqb_eq. split.
  - intros [Hz E]. pose proof (rp_of p m R (ix N id) (ix_lt id Hid)) as X. rewrite E in X. by apply X.
  - intros [[t x] E]. destruct (rp_in p m R id t x E) as (? & ? & _). split; [lia|done].
Qed.

Lemma free_spec p m id : represents p m -> 0 <= id -> get (ids p) (ix N id) = 0 <-> slot_free m id.
Proof.
  intros R Hid. split.
  - intros E id' [[t x] E'] X. destruct (rp_in p m R id' t x E') as (? & Hg & _). rewrite X, E in Hg. lia.
  - intros F. destruct (decide (get (ids p) (ix N id) = 0)) as [|Hne]; [done|].
    destruct (rp_of p m R (ix N id) (ix_lt id Hid) Hne) as [X E]. by apply F in X.
Qed.

Lemma represents_new blank : represents (new N blank) ∅.
Proof.
  assert (forall n, countb busy (replicate n 0) = 0%nat) as C by (intros n; by induction n).
  split; cbn [new ids sent slots p_next p_live]; rewrite ?length_replicate, ?C; try done.
  intros i Hi X. by rewrite get_repeat in X.
Qed.

(** Occupying a free slot and writing its record. *)
Lemma represents_occupy p m id now next x :
  represents p m -> 0 < id <= u64_max -> 1 <= next <= u64_max -> slot_free m id ->
  represents (write N id x (occupy N id now next p)) (<[id := (now, x)]> m).
Proof.
  intros R Hid Hn F. pose proof (ix_lt id ltac:(lia)) as Hi. pose proof (proj2 (free_spec p m id R ltac:(lia)) F) as E0.
  assert (m !! id = None) as Em.
  { apply eq_None_not_Some. intros X. by apply (F id X). }
  pose proof (rp_ids p m R) as L1. pose proof (rp_sent p m R) as L2. pose proof (rp_slots p m R) as L3.
  split; cbn [write occupy ids sent slots p_next p_live]; rewrite ?length_insert; try done.
  - rewrite (rp_live p m R), map_size_insert_None by done. lia.
  - rewrite map_size_insert_None, (rp_size p m R) by done.
    pose proof (countb_busy (ids p) (ix N id) 0 id ltac:(lia) E0) as C. rewrite (busy_id id) in C by lia. change (busy 0) with false in C. cbv iota in C. lia.
  - intros id' t y. destruct (decide (id' = id)) as [->|Hne].
    + rewrite lookup_insert_eq. intros [= <- <-]. split_and!; try lia; [apply get_insert_eq; lia..|apply list_lookup_insert_eq; lia].
    + rewrite lookup_insert_ne by done. intros E. destruct (rp_in p m R id' t y E) as (? & ? & ? & ?).
      assert (ix N id' <> ix N id) by (apply F; eauto).
      rewrite !get_insert_ne, list_lookup_insert_ne by done. done.
  - intros i Hlt. destruct (decide (ix N id = i)) as [<-|Hne].
    + rewrite get_insert_eq by lia. intros _. split; [|done]. rewrite lookup_insert_eq. by eexists.
    + rewrite get_insert_ne by done. intros X. destruct (rp_of p m R i Hlt X) as [Y E]. split; [|done].
      destruct (decide (get (ids p) i = id)) as [->|]; [rewrite lookup_insert_eq; by eexists|]. by rewrite lookup_insert_ne.
Qed.

Lemma represents_release p m id :
  represents p m -> 0 <= id ->
  let '(p', b) := release N id p in b = bool_decide (is_Some (m !! id)) /\ represents p' (delete id m).
Proof.
  intros R Hid. pose proof (holds_spec p m id R Hid) as S. unfold holds in S. unfold release.
  destruct (Z.eqb_spec id 0) as [Hz|Hz]; [|destruct (Z.eqb_spec (get (ids p) (ix N id)) id) as [E|E]]; cbn [orb andb negb] in *.
  2: {
    assert (is_Some (m !! id)) as [[t x] Em] by (by apply S). split; [by rewrite bool_decide_eq_true_2|].
    pose proof (ix_lt id Hid) as Hi. pose proof (rp_ids p m R) as L1.
    assert (size (delete id m) = pred (size m)) as Sz by (apply map_size_delete_Some; by eexists).
    pose proof (countb_busy (ids p) (ix N id) id 0 ltac:(lia) E) as C. rewrite (busy_id id) in C by lia. change (busy 0) with false in C. cbv iota in C. pose proof (rp_size p m R) as Sm.
    split; cbn [ids sent slots p_next p_live]; rewrite ?length_insert; try apply R.
    - rewrite (rp_live p m R), Sz. lia.
    - lia.
    - intros id' t' y. intros [Hne E']%lookup_delete_Some. destruct (rp_in p m R id' t' y E') as (H1 & H2 & ? & ?).
      split_and!; try done; [lia|lia|]. rewrite get_insert_ne; [done|]. intros X. rewrite <- X, E in H2. done.
    - intros i Hlt. destruct (decide (ix N id = i)) as [<-|Hne]; [rewrite get_insert_eq by lia; done|].
      rewrite get_insert_ne by done. intros X. destruct (rp_of p m R i Hlt X) as [Y E']. split; [|done].
      rewrite lookup_delete_ne; [done|]. intros Ei. apply Hne. by rewrite Ei. }
  all: assert (~ is_Some (m !! id)) as Ns by (intros X; by apply S in X);
    rewrite bool_decide_eq_false_2 by done; split; [done|];
    rewrite delete_id; [done|by apply eq_None_not_Some].
Qed.

Lemma next_id_succ id : 0 <= id < u64_max -> next_id id = id + 1.
Proof. intros Hid. unfold next_id. rewrite wrap_u64_id by int_lia. lia. Qed.

Lemma claim_from_spec tries now (p : Table) : forall id,
  0 < id -> id + Z.of_nat tries <= u64_max ->
  let '(p', r) := claim_from N tries id now p in
  match r with
  | Some i => id <= i < id + Z.of_nat tries /\ get (ids p) (ix N i) = 0 /\ p' = occupy N i now (i + 1) p
  | None => p' = p /\ forall j, id <= j < id + Z.of_nat tries -> get (ids p) (ix N j) <> 0
  end.
Proof.
  induction tries as [|tries IH]; intros id Hid Hn; cbn [claim_from]; [split; [done|lia]|].
  destruct (Z.eqb_spec (get (ids p) (ix N id)) 0) as [E|E].
  - rewrite next_id_succ by lia. split_and!; [lia|lia|done|done].
  - rewrite next_id_succ by lia. specialize (IH (id + 1) ltac:(lia) ltac:(lia)).
    destruct (claim_from N tries (id + 1) now p) as [p' [i|]].
    + destruct IH as (? & ? & ?). split_and!; [lia|lia|done|done].
    + destruct IH as [-> Hb]. split; [done|]. intros j Hj. destruct (decide (j = id)) as [->|]; [done|]. apply Hb. lia.
Qed.

Lemma all_busy p m id :
  represents p m -> 0 < id -> (forall j, id <= j < id + N -> get (ids p) (ix N j) <> 0) -> Z.of_nat (size m) = N.
Proof.
  intros R Hid Hb. pose proof (pow2_capacity_range N HN). rewrite (rp_size p m R).
  assert (countb busy (ids p) = length (ids p)) as ->; [|rewrite (rp_ids p m R); lia].
  apply countb_all. intros x (i & Hi)%list_elem_of_lookup. apply lookup_lt_Some in Hi as Hl. rewrite (rp_ids p m R) in Hl.
  apply busy_id. specialize (Hb (id + (Z.of_nat i - id) mod N)).
  pose proof (Z.mod_pos_bound (Z.of_nat i - id) N ltac:(lia)).
  rewrite ix_mod in Hb by lia. rewrite Zplus_mod_idemp_r in Hb. replace (id + (Z.of_nat i - id)) with (Z.of_nat i) in Hb by lia.
  rewrite (Z.mod_small (Z.of_nat i) N), Nat2Z.id in Hb by lia. unfold get in Hb. rewrite Hi in Hb. apply Hb. lia.
Qed.

Lemma represents_claim_next p m now x :
  represents p m -> p_next p + N <= u64_max ->
  let '(p', r) := claim_next N now p in
  match r with
  | Some id => p_next p <= id < p_next p' /\ slot_free m id /\ represents (write N id x p') (<[id := (now, x)]> m)
  | None => p' = p /\ Z.of_nat (size m) = N
  end.
Proof.
  intros R Hn. pose proof (rp_next p m R). pose proof (pow2_capacity_range N HN). unfold claim_next.
  pose proof (claim_from_spec (Z.to_nat N) now p (p_next p) ltac:(lia) ltac:(lia)) as C.
  destruct (claim_from N (Z.to_nat N) (p_next p) now p) as [p' [id|]].
  - destruct C as (Hid & E & ->). assert (slot_free m id) as F by (apply (free_spec p m id R); [lia|done]).
    split_and!; [lia|cbn [occupy p_next]; lia|done|]. apply represents_occupy; done || lia.
  - destruct C as [-> Hb]. split; [done|]. apply (all_busy p m (p_next p) R); [lia|]. intros j Hj. apply Hb. lia.
Qed.

Lemma represents_claim p m id now x :
  represents p m -> 0 <= id <= u64_max ->
  match claim N id now p with
  | (p', Ok i) => id <> 0 /\ i = ix N id /\ slot_free m id /\ represents (write N id x p') (<[id := (now, x)]> m)
  | (p', Err ZeroId) => id = 0 /\ p' = p
  | (p', Err SlotBusy) => id <> 0 /\ ~ slot_free m id /\ p' = p
  end.
Proof.
  intros R Hid. unfold claim. destruct (Z.eqb_spec id 0) as [|Hz]; [done|].
  pose proof (free_spec p m id R ltac:(lia)) as F. pose proof (rp_next p m R).
  destruct (Z.eqb_spec (get (ids p) (ix N id)) 0) as [E|E]; cbn [negb].
  - split_and!; [done|done|by apply F|]. apply represents_occupy; [done|lia|done|by apply F].
  - split_and!; [done| |done]. intros X. by apply E, F.
Qed.

Lemma represents_get p m id :
  represents p m -> 0 <= id -> get_post N id p = snd <$> m !! id /\ sent_ns N id p = fst <$> m !! id.
Proof.
  intros R Hid. pose proof (holds_spec p m id R Hid) as S. unfold get_post, sent_ns.
  destruct (holds N id p).
  - destruct (proj1 S eq_refl) as [[t x] E]. destruct (rp_in p m R id t x E) as (_ & _ & -> & ->). by rewrite E.
  - destruct (m !! id) as [e|]; [|done]. destruct S as [_ S]. by specialize (S ltac:(by eexists)).
Qed.
End Pending.

(** C30. Pending is a map from the ids in flight to their send time and
    record: a reply finds its own post and no other; a claim is refused
    exactly for id 0 or while an unreleased post holds the slot; the id
    allocator skips busy slots, issues ids that only grow, and fails only
    when all N posts are in flight, short of the wrap of the 64-bit id; a
    release answers whether the post was there and frees it. *)
Theorem in_flight_table_is_a_map {T : Type} (N : Z) (blank : T) :
  pow2_capacity N ->
  represents N (Pending.new N blank) ∅
  /\ forall (p : @Pending.Pending T) (m : gmap Z (Z * T)), represents N p m ->
     Pending.p_live p = Z.of_nat (size m)
     /\ (forall id, 0 <= id -> Pending.get_post N id p = snd <$> m !! id /\ Pending.sent_ns N id p = fst <$> m !! id)
     /\ (forall id now x, 0 <= id <= u64_max ->
           match Pending.claim N id now p with
           | (p', Ok i) => id <> 0 /\ i = Pending.ix N id /\ slot_free N m id
                           /\ represents N (Pending.write N id x p') (<[id := (now, x)]> m)
           | (p', Err Pending.ZeroId) => id = 0 /\ p' = p
           | (p', Err Pending.SlotBusy) => id <> 0 /\ ~ slot_free N m id /\ p' = p
           end)
     /\ (forall now x, Pending.p_next p + N <= u64_max ->
           let '(p', r) := Pending.claim_next N now p in
           match r with
           | Some id => Pending.p_next p <= id < Pending.p_next p' /\ slot_free N m id
                        /\ represents N (Pending.write N id x p') (<[id := (now, x)]> m)
           | None => p' = p /\ Z.of_nat (size m) = N
           end)
     /\ (forall id, 0 <= id ->
           let '(p', b) := Pending.release N id p in
           b = bool_decide (is_Some (m !! id)) /\ represents N p' (delete id m)).
Proof.
  intros HN. split; [by apply represents_new|]. intros p m R. split_and!.
  - apply (rp_live N p m R).
  - intros id Hid. by apply represents_get.
  - intros id now x Hid. by apply represents_claim.
  - intros now x Hn. by apply represents_claim_next.
  - intros id Hid. by apply represents_release.
Qed.

(** Two claims in a table of two, then none is left; a release frees one. *)
Lemma in_flight_table_is_a_map_witness :
  let p1 := (Pending.claim_next 2 10 (Pending.new 2 0)).1 in
  let p2 := (Pending.claim_next 2 11 p1).1 in
  (Pending.claim_next 2 12 p2).2 = None
  /\ (Pending.claim_next 2 12 (Pending.release 2 1 p2).1).2 = Some 3
  /\ represents 2 (Pending.new 2 0) ∅.
Proof.
  split_and!; [reflexivity..|].
  refine (proj1 (in_flight_table_is_a_map 2 0 _)). exists 1. split; [lia|reflexivity].
Defined.
