(* ===== verification/GatewayWindows.v ===== *)
(** * The gateway's windows are exact

    [RateWindow] against the spend of every second, [RttWindow] against the
    whole history of round trips, [Idle] against the deadline it may not
    sleep past. *)

From S2P Require Import Prelude Gateway.

(** ** The minute of spend *)

Section Rate.
Import Gateway.Rate.

(** The specification: the newest second, and what each second spent
    ([u32]-saturating). A call that reads an older clock is charged to the
    newest second. *)
Record Spend := mkSpend { sp_now : Z; spent : Z -> Z }.

Definition spend_new : Spend := mkSpend 0 (fun _ => 0).
Definition spend_advance (now : Z) (h : Spend) : Spend := mkSpend (Z.max (sp_now h) (now / NS_PER_S)) (spent h).
Definition spend_add (now n : Z) (h : Spend) : Spend :=
  let h := spend_advance now h in
  mkSpend (sp_now h) (fun t => if t =? sp_now h then sat_u32 (spent h t + n) else spent h t).

(** The spend of the sixty seconds up to and with [t]. *)
Definition minute (f : Z -> Z) (t : Z) : Z := sumZ f ((fun i => t - Z.of_nat i) <$> seq 0 60).

Inductive RateOp : Type := OpAdvance (now : Z) | OpAdd (now n : Z).

Definition run_rate (ops : list RateOp) : RateWindow * Spend :=
  foldl (fun '(w, h) op =>
    match op with
    | OpAdvance now => (advance now w, spend_advance now h)
    | OpAdd now n => (add now n w, spend_add now n h)
    end) (new, spend_new) ops.

Record tracks (w : RateWindow) (f : Z -> Z) (hd : Z) : Prop := {
  tr_len : length (buckets w) = 60%nat;
  tr_bucket : forall t, hd - 60 < t <= hd -> get (buckets w) (bucket t) = f t;
  tr_later : forall t, hd < t -> f t = 0;
  tr_sum : sum w = minute f hd
}.

Lemma bucket_lt t : (bucket t < 60)%nat.
Proof. unfold bucket, RATE_WINDOW_S. pose proof (Z.mod_pos_bound t 60). lia. Qed.

Lemma bucket_period t : bucket (t - 60) = bucket t.
Proof. unfold bucket, RATE_WINDOW_S. f_equal. Z.to_euclidean_division_equations; lia. Qed.

Lemma bucket_inj a b : bucket a = bucket b -> -60 < a - b < 60 -> a = b.
Proof. unfold bucket, RATE_WINDOW_S. intros E H. apply Z2Nat.inj in E; Z.to_euclidean_division_equations; lia. Qed.

Definition back (f : Z -> Z) (t : Z) (n : nat) : Z := sumZ f ((fun i => t - Z.of_nat i) <$> seq 0 n).

Lemma back_head f t n : back f (t + 1) (S n) = f (t + 1) + back f t n.
Proof.
  unfold back. cbn [seq]. rewrite fmap_cons. cbn [sumZ]. rewrite <- fmap_S_seq, <- list_fmap_compose.
  replace (t + 1 - Z.of_nat 0) with (t + 1) by lia. do 2 f_equal. apply list_fmap_ext. intros _ i _. cbn [compose]. lia.
Qed.

Lemma back_last f t n : back f t (S n) = back f t n + f (t - Z.of_nat n).
Proof. unfold back. rewrite seq_S, fmap_app, sumZ_app. cbn [fmap list_fmap sumZ Nat.add]. lia. Qed.

Lemma minute_succ f t : minute f (t + 1) = minute f t + f (t + 1) - f (t - 59).
Proof.
  change (back f (t + 1) 60 = back f t 60 + f (t + 1) - f (t - 59)).
  rewrite (back_head f t 59), (back_last f t 59). change (Z.of_nat 59) with 59. lia.
Qed.

Lemma minute_ext f g t : (forall u, t - 60 < u <= t -> f u = g u) -> minute f t = minute g t.
Proof.
  intros E. unfold minute. apply sumZ_ext. intros u (i & -> & Hi)%list_elem_of_fmap. apply elem_of_seq in Hi. apply E. lia.
Qed.

Lemma minute_zero f t : (forall u, t - 60 < u <= t -> f u = 0) -> minute f t = 0.
Proof.
  intros E. rewrite (minute_ext f (fun _ => 0) t E). unfold minute. induction (seq 0 60); [done|]. cbn. lia.
Qed.

(** *** Advancing *)

Lemma tracks_expire n : forall w f hd,
  tracks w f hd -> tracks (expire n (hd + 1) w) f (hd + Z.of_nat n).
Proof.
  induction n as [|n IH]; intros w f hd R; cbn [expire]; [by rewrite Z.add_0_r|].
  replace (hd + Z.of_nat (S n)) with (hd + 1 + Z.of_nat n) by lia. apply IH. destruct R as [L B Z0 S].
  pose proof (bucket_lt (hd + 1)). split; cbn [buckets sum].
  - by rewrite length_insert.
  - intros t Ht. destruct (decide (t = hd + 1)) as [->|Hne].
    + rewrite get_insert_eq by lia. symmetry. apply Z0. lia.
    + rewrite get_insert_ne by (intros E; apply bucket_inj in E; lia). apply B. lia.
  - intros t Ht. apply Z0. lia.
  - rewrite minute_succ, S, (Z0 (hd + 1)) by lia. rewrite <- (B (hd - 59)) by lia.
    replace (bucket (hd - 59)) with (bucket (hd + 1)) by (rewrite <- (bucket_period (hd + 1)); f_equal; lia). lia.
Qed.

Lemma tracks_advance now w f :
  tracks w f (head_s w) -> tracks (advance now w) f (head_s (advance now w)) /\ head_s (advance now w) = Z.max (head_s w) (now / NS_PER_S).
Proof.
  intros R. unfold advance. cbv zeta. destruct (Z.leb_spec (now / NS_PER_S) (head_s w)) as [Hs|Hs]; [split; [done|lia]|].
  cbn [head_s]. split; [|lia]. destruct (Z.leb_spec RATE_WINDOW_S (now / NS_PER_S - head_s w)) as [Hw|Hw].
  - unfold RATE_WINDOW_S in Hw. split; cbn [buckets sum].
    + done.
    + intros t Ht. rewrite get_repeat by apply bucket_lt. symmetry. apply (tr_later w f (head_s w) R). lia.
    + intros t Ht. apply (tr_later w f (head_s w) R). lia.
    + symmetry. apply minute_zero. intros t Ht. apply (tr_later w f (head_s w) R). lia.
  - pose proof (tracks_expire (Z.to_nat (now / NS_PER_S - head_s w)) w f (head_s w) R) as [L B Z0 S].
    rewrite Z2Nat.id in * by lia. replace (head_s w + (now / NS_PER_S - head_s w)) with (now / NS_PER_S) in * by lia.
    by split.
Qed.

Lemma minute_set f t x : minute (fun u => if u =? t then x else f u) t = minute f t + (x - f t).
Proof.
  replace t with (t - 1 + 1) by lia. rewrite !minute_succ, Z.eqb_refl. rewrite (minute_ext _ f (t - 1)).
  - rewrite (proj2 (Z.eqb_neq (t - 1 - 59) (t - 1 + 1))) by lia. lia.
  - intros u Hu. by rewrite (proj2 (Z.eqb_neq u (t - 1 + 1))) by lia.
Qed.

Lemma tracks_add now n w f :
  tracks w f (head_s w) ->
  let s := Z.max (head_s w) (now / NS_PER_S) in
  tracks (add now n w) (fun t => if t =? s then sat_u32 (f t + n) else f t) s /\ head_s (add now n w) = s.
Proof.
  intros R s. destruct (tracks_advance now w f R) as [[L B Z0 S] E]. fold s in E. unfold add. cbv zeta.
  rewrite E in *. cbn [head_s]. split; [|done]. pose proof (bucket_lt s). split; cbn [buckets sum].
  - by rewrite length_insert.
  - intros t Ht. destruct (Z.eqb_spec t s) as [->|Hne]; [rewrite get_insert_eq, B by lia; done|].
    rewrite get_insert_ne by (intros X; apply bucket_inj in X; lia). by apply B.
  - intros t Ht. rewrite (proj2 (Z.eqb_neq t s)) by lia. by apply Z0.
  - rewrite S, B by lia.
    rewrite (minute_ext (fun u => if u =? s then sat_u32 (f u + n) else f u) (fun u => if u =? s then sat_u32 (f s + n) else f u) s)
      by (intros u _; cbv beta; by destruct (Z.eqb_spec u s) as [->|]).
    by rewrite minute_set.
Qed.
End Rate.

(** RateWindow's sum is what was spent in the sixty seconds ending at
    the newest second any call has read, second by second with each second's
    spend saturating at a u32, whatever the order of the calls' clocks; and
    the throttle test compares that sum with the cap. *)
Theorem rate_window_sums_the_last_minute (ops : list RateOp) :
  let '(w, h) := run_rate ops in
  Rate.head_s w = sp_now h
  /\ Rate.sum w = minute (spent h) (sp_now h)
  /\ forall cap pct, 0 <= minute (spent h) (sp_now h) -> minute (spent h) (sp_now h) * 100 < u64_max ->
       0 <= cap * pct ->
       Rate.at_least cap pct w = (cap * pct <=? minute (spent h) (sp_now h) * 100).
Proof.
  assert (let '(w, h) := run_rate ops in Rate.head_s w = sp_now h /\ tracks w (spent h) (sp_now h)) as R.
  { unfold run_rate. induction ops as [|op ops IH] using rev_ind.
    - split; [done|]. split; [done| |done|done]. intros t Ht. apply get_repeat, bucket_lt.
    - rewrite foldl_snoc. destruct (foldl _ _ ops) as [w h]. destruct IH as [E R].
      rewrite <- E in R. destruct op as [now|now n].
      + destruct (tracks_advance now w (spent h) R) as [R' E']. cbn [spend_advance sp_now spent]. rewrite <- E, <- E'. done.
      + destruct (tracks_add now n w (spent h) R) as [R' E']. cbn [spend_add spend_advance sp_now spent]. rewrite <- E. done. }
  destruct (run_rate ops) as [w h]. destruct R as [E R]. pose proof (tr_sum _ _ _ R) as S. split_and!; [done|done|].
  intros cap pct H0 H1 H2. unfold Rate.at_least. rewrite S. unfold sat_u64, clamp.
  destruct (Z.leb_spec (cap * pct) (minute (spent h) (sp_now h) * 100)); [apply Z.leb_le|apply Z.leb_gt]; lia.
Qed.

(** Spends in two seconds, then 60 seconds later one has expired. *)
Definition rate_script : list RateOp :=
  [OpAdd 5000000000 7; OpAdd 9000000000 20; OpAdd 8000000000 3; OpAdvance 65000000000].

Example rate_script_sum : Rate.sum (run_rate rate_script).1 = 23 /\ Rate.head_s (run_rate rate_script).1 = 65.
Proof. split; vm_compute; reflexivity. Qed.

(** ** The newest round trips *)

Section Rtt.
Import Gateway.Rtt.

Definition run_rtt (l : list (Z * Z)) : RttWindow := foldl (fun w '(now, rtt) => record now rtt w) new l.

(** Sample [k] is one of the newest 64. *)
Definition newest (l : list (Z * Z)) (k : nat) : Prop := (k < length l < k + 65)%nat.

Record recent (l : list (Z * Z)) (w : RttWindow) : Prop := {
  rc_at : length (at_ns w) = 64%nat;
  rc_rtt : length (rtt_ns w) = 64%nat;
  rc_n : rtt_n w = wrap_u64 (Z.of_nat (length l));
  rc_in : forall k a r, newest l k -> l !! k = Some (a, r) ->
    get (at_ns w) (k mod 64) = a /\ get (rtt_ns w) (k mod 64) = r;
  rc_of : forall i, (i < 64)%nat -> get (at_ns w) i = 0 \/ exists k, newest l k /\ (k mod 64)%nat = i
}.

Lemma slot_of_count n : Z.to_nat (wrap_u64 (Z.of_nat n) mod RTT_WINDOW) = (n mod 64)%nat.
Proof.
  unfold wrap_u64, RTT_WINDOW. rewrite Z.mod_mod_divide by (by exists 288230376151711744).
  rewrite <- (Nat2Z.id (n mod 64)). f_equal. by rewrite Nat2Z.inj_mod.
Qed.

Lemma newest_slots l j k : newest l j -> newest l k -> (j mod 64)%nat = (k mod 64)%nat -> j = k.
Proof.
  unfold newest. intros Hj Hk E. pose proof (Nat.div_mod_eq j 64). pose proof (Nat.div_mod_eq k 64). lia.
Qed.

Lemma run_rtt_recent l : recent l (run_rtt l).
Proof.
  unfold run_rtt. induction l as [|[now rtt] l IH] using rev_ind.
  - split; try done. intros i Hi. left. by apply get_repeat.
  - rewrite foldl_snoc. set (w := foldl _ _ l) in *. destruct IH as [L1 L2 En In Of].
    unfold record. rewrite En, slot_of_count. pose proof (Nat.mod_upper_bound (length l) 64 ltac:(lia)) as Hi.
    assert (newest (l ++ [(now, rtt)]) (length l)) as New by (unfold newest; rewrite length_app; cbn; lia).
    assert (forall k, newest (l ++ [(now, rtt)]) k -> k <> length l -> newest l k /\ (k mod 64 <> length l mod 64)%nat) as Old.
    { intros k Hk Hne. split; [unfold newest in *; rewrite length_app in Hk; cbn in Hk; lia|].
      intros E. by apply Hne, (newest_slots (l ++ [(now, rtt)])). }
    split; cbn [at_ns rtt_ns rtt_n]; rewrite ?length_insert; try done.
    + rewrite length_app, wrap_u64_add_l. f_equal. cbn. lia.
    + intros k a r Hk E. destruct (decide (k = length l)) as [->|Hne].
      * rewrite lookup_app_r, Nat.sub_diag in E by lia. injection E as <- <-. by rewrite !get_insert_eq by lia.
      * destruct (Old k Hk Hne) as [Hk' Hs]. rewrite !get_insert_ne by done. apply In; [done|].
        rewrite lookup_app_l in E; [done|]. unfold newest in Hk'. lia.
    + intros i Hl. destruct (decide (i = length l mod 64)%nat) as [->|Hne]; [right; by exists (length l)|].
      rewrite get_insert_ne by done. destruct (Of i Hl) as [|(k & Hk & Es)]; [by left|].
      destruct (decide (newest (l ++ [(now, rtt)]) k)) as [|Hn]; [right; by exists k|].
      unfold newest in Hn, Hk. rewrite length_app in Hn. cbn in Hn.
      destruct Hne. rewrite <- Es. replace (length l) with (k + 1 * 64)%nat by lia. by rewrite Nat.Div0.mod_add.
Qed.

Lemma fold_worst now l m :
  let w := foldl (fun m '(a, r) => if fresh now a && (m <? r) then r else m) m l in
  m <= w /\ (forall a r, (a, r) ∈ l -> fresh now a = true -> r <= w) /\ (w = m \/ exists a, (a, w) ∈ l /\ fresh now a = true).
Proof.
  revert m. induction l as [|[a r] l IH]; intros m; cbn [foldl]; [split_and!; [lia|by intros ? ? ?%not_elem_of_nil|by left]|].
  cbv zeta in *. set (m' := if fresh now a && (m <? r) then r else m).
  assert (m <= m' /\ (fresh now a = true -> r <= m') /\ (m' = m \/ m' = r /\ fresh now a = true)) as (H1 & H2 & H3).
  { subst m'. destruct (fresh now a); cbn [andb]; [|split_and!; [lia|done|by left]].
    destruct (Z.ltb_spec m r); split_and!; lia. }
  destruct (IH m') as (I1 & I2 & I3). split_and!; [lia| |].
  - intros a' r' [E|E]%elem_of_cons F; [injection E as -> ->; specialize (H2 F); lia|by apply (I2 a')].
  - destruct I3 as [->|(a' & E & F)]; [|right; exists a'; split; [by right|done]].
    destruct H3 as [->|[-> F]]; [by left|right; exists a; split; [by left|done]].
Qed.

(** The worst of the newest 64 samples that are young enough; 0 for none. *)
Lemma worst_is_the_recent_maximum l now :
  let w := worst now (run_rtt l) in
  0 <= w
  /\ (forall k a r, newest l k -> l !! k = Some (a, r) -> fresh now a = true -> r <= w)
  /\ (w = 0 \/ exists k a, newest l k /\ l !! k = Some (a, w) /\ fresh now a = true).
Proof.
  pose proof (run_rtt_recent l) as [L1 L2 En In Of]. unfold worst.
  destruct (fold_worst now (zip (at_ns (run_rtt l)) (rtt_ns (run_rtt l))) 0) as (W1 & W2 & W3).
  assert (forall i, (i < 64)%nat -> zip (at_ns (run_rtt l)) (rtt_ns (run_rtt l)) !! i =
    Some (get (at_ns (run_rtt l)) i, get (rtt_ns (run_rtt l)) i)) as Z1.
  { intros i Hi. apply lookup_zip_Some. rewrite !get_lookup by lia. done. }
  split_and!; [done| |].
  - intros k a r Hk E F. apply (W2 a); [|done]. destruct (In k a r Hk E) as [<- <-].
    apply list_elem_of_lookup. exists (k mod 64)%nat. apply Z1. apply Nat.mod_upper_bound. lia.
  - destruct W3 as [->|(a & Ein & F)]; [by left|right]. apply list_elem_of_lookup in Ein as (i & Ei).
    apply lookup_lt_Some in Ei as Hi. rewrite length_zip_with, L1, L2 in Hi. rewrite Z1 in Ei by lia. injection Ei as Ea Ew.
    destruct (Of i ltac:(lia)) as [Ez|(k & Hk & Es)].
    { rewrite Ea in Ez. by rewrite Ez in F. }
    destruct (lookup_lt_is_Some_2 l k) as [[a' r'] E']; [unfold newest in Hk; lia|].
    destruct (In k a' r' Hk E') as [X1 X2]. rewrite Es in X1, X2. exists k, a'. split_and!; [done|congruence|congruence].
Qed.
End Rtt.

(** ** The wait policy *)

Section Idle.
Import Gateway.Idle.

(** The poller returns at once while work flows and for [spin_polls] polls
    after, then blocks for [park_ns] at most and never past the deadline. *)
Lemma timeout_is_bounded worked now next i :
  0 <= quiet i <= spin_polls i -> 0 <= park_ns i ->
  let '(i', t) := timeout_ns worked now next i in
  0 <= quiet i' <= spin_polls i' /\ park_ns i' = park_ns i
  /\ 0 <= t <= park_ns i
  /\ (0 < t -> worked = false /\ quiet i = spin_polls i)
  /\ (forall d, next = Some d -> now <= d <= u64_max -> 0 <= now -> now + t <= d)
  /\ (forall d, next = Some d -> d <= now -> t = 0).
Proof.
  intros Hq Hp. unfold timeout_ns. destruct worked; [cbn; split_and!; intros; lia|].
  destruct (Z.ltb_spec (quiet i) (spin_polls i)) as [Hlt|Hge]; [cbn; split_and!; intros; lia|].
  assert (forall d, now <= d <= u64_max -> 0 <= now -> sat_u64 (d - now) = d - now) as S by (intros; unfold sat_u64, clamp, u64_max in *; lia).
  assert (forall z, 0 <= sat_u64 z) as S0 by (intros; unfold sat_u64, clamp, u64_max; lia).
  destruct next as [d|]; split_and!; try lia; try (intros; lia).
  - pose proof (S0 (d - now)). lia.
  - intros d' [= <-] Hd Hn. rewrite S by done. lia.
  - intros d' [= <-] Hd. unfold sat_u64, clamp, u64_max. lia.
  - intros d' [=].
  - intros d' [=].
Qed.
End Idle.
