(* ===== verification/Duplex.v ===== *)
(** * The engine-gateway duplex ([exec-gateway/src/duplex.rs], [stats.rs])

    A command ring one way, an event ring the other, and the words both
    threads share: the ring counters, the halt word and the sweep words. The
    rings are [Ring]'s; an event the ring cannot take halts the arm. *)

From S2P Require Import Prelude Ring.

Definition HALT_NONE : Z := 0.
Definition HALT_EVENT_RING_FULL : Z := 1.
Definition HALT_TIMER_FULL : Z := 2.
Definition HALT_PENDING_STUCK : Z := 3.

Definition SWEEP_CLEAR : Z := 0.
Definition SWEEP_WORKING : Z := 1.
Definition SWEEP_STRANDED : Z := 2.

(** The words of [GatewayStats] the duplex and the sweep use. *)
Record GatewayStats := mkStats {
  cmd_ring_full : Z; cmds_pushed : Z; sweep_req : Z; halt_word : Z;
  evt_ring_full : Z; cmds_popped : Z; sweep_seq : Z; sweep_state : Z
}.

Definition stats_new : GatewayStats := mkStats 0 0 0 HALT_NONE 0 0 0 SWEEP_CLEAR.

Definition note_pushed (s : GatewayStats) : GatewayStats :=
  mkStats (cmd_ring_full s) (wrap_u64 (cmds_pushed s + 1)) (sweep_req s) (halt_word s)
    (evt_ring_full s) (cmds_popped s) (sweep_seq s) (sweep_state s).
Definition note_cmd_ring_full (s : GatewayStats) : GatewayStats :=
  mkStats (wrap_u64 (cmd_ring_full s + 1)) (cmds_pushed s) (sweep_req s) (halt_word s)
    (evt_ring_full s) (cmds_popped s) (sweep_seq s) (sweep_state s).
Definition note_popped (s : GatewayStats) : GatewayStats :=
  mkStats (cmd_ring_full s) (cmds_pushed s) (sweep_req s) (halt_word s)
    (evt_ring_full s) (wrap_u64 (cmds_popped s + 1)) (sweep_seq s) (sweep_state s).
Definition note_evt_ring_full (s : GatewayStats) : GatewayStats :=
  mkStats (cmd_ring_full s) (cmds_pushed s) (sweep_req s) (halt_word s)
    (wrap_u64 (evt_ring_full s + 1)) (cmds_popped s) (sweep_seq s) (sweep_state s).

(** [compare_exchange(HALT_NONE, reason)]: the first reason stays. *)
Definition halt (reason : Z) (s : GatewayStats) : GatewayStats :=
  mkStats (cmd_ring_full s) (cmds_pushed s) (sweep_req s) (if halt_word s =? HALT_NONE then reason else halt_word s)
    (evt_ring_full s) (cmds_popped s) (sweep_seq s) (sweep_state s).

Definition request_sweep (s : GatewayStats) : GatewayStats * Z :=
  let seq := wrap_u64 (sweep_req s + 1) in
  (mkStats (cmd_ring_full s) (cmds_pushed s) seq (halt_word s)
     (evt_ring_full s) (cmds_popped s) (sweep_seq s) (sweep_state s), seq).

(** [set_sweep]'s two stores, in order. *)
Definition store_sweep_state (state : Z) (s : GatewayStats) : GatewayStats :=
  mkStats (cmd_ring_full s) (cmds_pushed s) (sweep_req s) (halt_word s)
    (evt_ring_full s) (cmds_popped s) (sweep_seq s) state.
Definition store_sweep_seq (seq : Z) (s : GatewayStats) : GatewayStats :=
  mkStats (cmd_ring_full s) (cmds_pushed s) (sweep_req s) (halt_word s)
    (evt_ring_full s) (cmds_popped s) seq (sweep_state s).
Definition set_sweep (seq state : Z) (s : GatewayStats) : GatewayStats := store_sweep_seq seq (store_sweep_state state s).
Definition sweep (s : GatewayStats) : Z * Z := (sweep_seq s, sweep_state s).

Section Duplex.
Context {C E : Type} (NC NE : Z).

(** Both ends of both rings, and the stats block. *)
Record Duplex := mkDuplex {
  cmd_ring : Ring C; cmd_tx : Producer; cmd_rx : Consumer;
  evt_ring : Ring E; evt_tx : Producer; evt_rx : Consumer;
  stats : GatewayStats
}.

(** [duplex()]; the compile-time assertion is [NE >= 4 * NC]. *)
Definition duplex (junk_c : list C) (junk_e : list E) : option Duplex :=
  if NE <? 4 * NC then None
  else match split (Ring_new junk_c), split (Ring_new junk_e) with
       | Some (rc, pc, cc), Some (re, pe, ce) => Some (mkDuplex rc pc cc re pe ce stats_new)
       | _, _ => None
       end.

Definition cmd_push (c : C) (d : Duplex) : Duplex * bool :=
  let '(r, p, ok) := try_push_ref NC (cmd_ring d) (cmd_tx d) (r_tail (cmd_ring d)) c in
  (mkDuplex r p (cmd_rx d) (evt_ring d) (evt_tx d) (evt_rx d)
     (if ok then note_pushed (stats d) else note_cmd_ring_full (stats d)), ok).

Definition cmd_pop (d : Duplex) : Duplex * option C :=
  let '(r, c, x) := try_pop_ref NC (cmd_ring d) (cmd_rx d) (r_head (cmd_ring d)) in
  (mkDuplex r (cmd_tx d) c (evt_ring d) (evt_tx d) (evt_rx d)
     (match x with Some _ => note_popped (stats d) | None => stats d end), x).

Definition evt_emit (e : E) (d : Duplex) : Duplex * bool :=
  let '(r, p, ok) := try_push_ref NE (evt_ring d) (evt_tx d) (r_tail (evt_ring d)) e in
  (mkDuplex (cmd_ring d) (cmd_tx d) (cmd_rx d) r p (evt_rx d)
     (if ok then stats d else halt HALT_EVENT_RING_FULL (note_evt_ring_full (stats d))), ok).

Definition evt_pop (d : Duplex) : Duplex * option E :=
  let '(r, c, x) := try_pop_ref NE (evt_ring d) (evt_rx d) (r_head (evt_ring d)) in
  (mkDuplex (cmd_ring d) (cmd_tx d) (cmd_rx d) r (evt_tx d) c (stats d), x).

Definition evt_room (d : Duplex) : Z := NE - producer_len (evt_ring d) (evt_tx d).
Definition cmd_queued (d : Duplex) : Z := producer_len (cmd_ring d) (cmd_tx d).

Definition with_stats (f : GatewayStats -> GatewayStats) (d : Duplex) : Duplex :=
  mkDuplex (cmd_ring d) (cmd_tx d) (cmd_rx d) (evt_ring d) (evt_tx d) (evt_rx d) (f (stats d)).

(** ** The calls, and two bounded queues *)

Inductive DuplexOp : Type :=
| PushCmd (c : C) | PopCmd | EmitEvt (e : E) | PopEvt | HaltArm (reason : Z) | AskRoom | AskQueued.

Inductive DuplexOut : Type :=
| OutPushed (ok : bool) | OutCmd (c : option C) | OutEmitted (ok : bool) | OutEvt (e : option E)
| OutHalted | OutRoom (n : Z) | OutQueued (n : Z).

Definition run_duplex (op : DuplexOp) (d : Duplex) : Duplex * DuplexOut :=
  match op with
  | PushCmd c => let '(d, b) := cmd_push c d in (d, OutPushed b)
  | PopCmd => let '(d, x) := cmd_pop d in (d, OutCmd x)
  | EmitEvt e => let '(d, b) := evt_emit e d in (d, OutEmitted b)
  | PopEvt => let '(d, x) := evt_pop d in (d, OutEvt x)
  | HaltArm r => (with_stats (halt r) d, OutHalted)
  | AskRoom => (d, OutRoom (evt_room d))
  | AskQueued => (d, OutQueued (cmd_queued d))
  end.

Fixpoint run_duplexes (ops : list DuplexOp) (d : Duplex) : Duplex * list DuplexOut :=
  match ops with
  | [] => (d, [])
  | op :: ops => let '(d, o) := run_duplex op d in let '(d, os) := run_duplexes ops d in (d, o :: os)
  end.

(** The specification: commands and events queued, and the halt word. *)
Record Queues := mkQueues { q_cmds : list C; q_evts : list E; q_halt : Z }.

Definition first_reason (old reason : Z) : Z := if old =? HALT_NONE then reason else old.

Definition run_queue (op : DuplexOp) (q : Queues) : Queues * DuplexOut :=
  match op with
  | PushCmd c =>
      if bool_decide (Z.of_nat (length (q_cmds q)) < NC)
      then (mkQueues (q_cmds q ++ [c]) (q_evts q) (q_halt q), OutPushed true) else (q, OutPushed false)
  | PopCmd => (mkQueues (tail (q_cmds q)) (q_evts q) (q_halt q), OutCmd (head (q_cmds q)))
  | EmitEvt e =>
      if bool_decide (Z.of_nat (length (q_evts q)) < NE)
      then (mkQueues (q_cmds q) (q_evts q ++ [e]) (q_halt q), OutEmitted true)
      else (mkQueues (q_cmds q) (q_evts q) (first_reason (q_halt q) HALT_EVENT_RING_FULL), OutEmitted false)
  | PopEvt => (mkQueues (q_cmds q) (tail (q_evts q)) (q_halt q), OutEvt (head (q_evts q)))
  | HaltArm r => (mkQueues (q_cmds q) (q_evts q) (first_reason (q_halt q) r), OutHalted)
  | AskRoom => (q, OutRoom (NE - Z.of_nat (length (q_evts q))))
  | AskQueued => (q, OutQueued (Z.of_nat (length (q_cmds q))))
  end.

Fixpoint run_queues (ops : list DuplexOp) (q : Queues) : Queues * list DuplexOut :=
  match ops with
  | [] => (q, [])
  | op :: ops => let '(q, o) := run_queue op q in let '(q, os) := run_queues ops q in (q, o :: os)
  end.
End Duplex.

Arguments Duplex : clear implicits.
Arguments Queues : clear implicits.
Arguments DuplexOp : clear implicits.
Arguments DuplexOut : clear implicits.

(** ** The refinement *)

Section Proofs.
Context {C E : Type} (NC NE : Z) (HNC : pow2_capacity NC) (HNE : pow2_capacity NE).
Context (junk_c : list C) (junk_e : list E) (Jc : length junk_c = Z.to_nat NC) (Je : length junk_e = Z.to_nat NE).

(** The rings' histories behind a duplex state. *)
Definition backed (d : Duplex C E) (q : Queues C E) : Prop :=
  exists (sc : Sys C) (se : Sys E),
    reachable NC junk_c sc /\ idle sc /\ reachable NE junk_e se /\ idle se /\
    cmd_ring d = ring sc /\ cmd_tx d = prod sc /\ cmd_rx d = cons sc /\
    evt_ring d = ring se /\ evt_tx d = prod se /\ evt_rx d = cons se /\
    queue sc = q_cmds q /\ queue se = q_evts q /\ halt_word (stats d) = q_halt q.

Lemma run_backed op d q :
  backed d q ->
  (run_duplex NC NE op d).2 = (run_queue NC NE op q).2 /\ backed (run_duplex NC NE op d).1 (run_queue NC NE op q).1.
Proof.
  intros (sc & se & Rc & Ic & Re & Ie & E1 & E2 & E3 & E4 & E5 & E6 & Qc & Qe & Eh).
  destruct op as [c| |e| |r| |]; cbn [run_duplex run_queue].
  - destruct (push_refines NC HNC junk_c Jc sc c Rc Ic) as (s' & R' & I' & Et & Ec & Eq).
    unfold cmd_push. rewrite E1, E2, Et, <- Qc. destruct (bool_decide _); (split; [done|]);
      exists s', se; cbn; split_and!; congruence.
  - destruct (pop_refines NC HNC junk_c Jc sc Rc Ic) as (s' & R' & I' & Et & Ec & Eq).
    unfold cmd_pop. rewrite E1, E3, Et, <- Qc. split; [done|]. exists s', se. cbn.
    split_and!; try congruence. by destruct (head (queue sc)).
  - destruct (push_refines NE HNE junk_e Je se e Re Ie) as (s' & R' & I' & Et & Ec & Eq).
    unfold evt_emit. rewrite E4, E5, Et, <- Qe. destruct (bool_decide _); (split; [done|]);
      exists sc, s'; cbn; split_and!; try congruence. unfold first_reason. by rewrite Eh.
  - destruct (pop_refines NE HNE junk_e Je se Re Ie) as (s' & R' & I' & Et & Ec & Eq).
    unfold evt_pop. rewrite E4, E6, Et, <- Qe. split; [done|]. exists sc, s'. cbn. split_and!; congruence.
  - split; [done|]. exists sc, se. cbn. split_and!; try done. unfold first_reason. by rewrite Eh.
  - split; [|by exists sc, se]. destruct (lengths_refine NE HNE junk_e Je se Re Ie) as [L _].
    unfold evt_room. cbn. by rewrite E4, E5, L, Qe.
  - split; [|by exists sc, se]. destruct (lengths_refine NC HNC junk_c Jc sc Rc Ic) as [L _].
    unfold cmd_queued. cbn. by rewrite E1, E2, L, Qc.
Qed.

Lemma runs_backed ops : forall d q,
  backed d q ->
  (run_duplexes NC NE ops d).2 = (run_queues NC NE ops q).2 /\ backed (run_duplexes NC NE ops d).1 (run_queues NC NE ops q).1.
Proof.
  induction ops as [|op ops IH]; intros d q B; [done|]. cbn [run_duplexes run_queues].
  destruct (run_backed op d q B) as [Eo B']. destruct (run_duplex NC NE op d) as [d' o], (run_queue NC NE op q) as [q' o'].
  cbn [fst snd] in *. destruct (IH d' q' B') as [Es B''].
  destruct (run_duplexes NC NE ops d') as [d'' os], (run_queues NC NE ops q') as [q'' os']. cbn [fst snd] in *. by subst.
Qed.

Lemma duplex_backed d : duplex NC NE junk_c junk_e = Some d -> backed d (mkQueues [] [] HALT_NONE).
Proof.
  unfold duplex. destruct (NE <? 4 * NC); [done|]. intros [= <-]. exists (init junk_c), (init junk_e).
  split_and!; try done; apply reach_init.
Qed.
End Proofs.

(** *** What the specification says of a lost event *)

Definition refused {C E} (o : DuplexOut C E) : bool := match o with OutEmitted false => true | _ => false end.

(** [op] halts the arm: the owner's word, or an event it could not take. *)
Definition halts {C E} (op : DuplexOp C E) (o : DuplexOut C E) : option Z :=
  match op with
  | HaltArm r => Some r
  | _ => if refused o then Some HALT_EVENT_RING_FULL else None
  end.

Fixpoint first_halt {C E} (ops : list (DuplexOp C E)) (os : list (DuplexOut C E)) : Z :=
  match ops, os with
  | op :: ops, o :: os => match halts op o with Some r => r | None => first_halt ops os end
  | _, _ => HALT_NONE
  end.

(** Events that went in, and those that came out. *)
Definition emitted {C E} (ops : list (DuplexOp C E)) (os : list (DuplexOut C E)) : list E :=
  omap (fun '(op, o) => match op, o with EmitEvt e, OutEmitted true => Some e | _, _ => None end) (zip ops os).
Definition delivered {C E} (os : list (DuplexOut C E)) : list E :=
  omap (fun o => match o with OutEvt (Some e) => Some e | _ => None end) os.

Lemma queues_conserve {C E} NC NE (ops : list (DuplexOp C E)) : forall q,
  let '(q', os) := run_queues NC NE ops q in
  q_evts q ++ emitted ops os = delivered os ++ q_evts q'.
Proof.
  induction ops as [|op ops IH]; intros q; cbn [run_queues]; [by rewrite app_nil_r|].
  destruct (run_queue NC NE op q) as [q1 o] eqn:E1. specialize (IH q1). destruct (run_queues NC NE ops q1) as [q2 os].
  unfold emitted, delivered in *. destruct op as [c| |e| |r| |]; cbn [run_queue] in E1; repeat case_match; injection E1 as <- <-;
    cbn -[omap] in *; rewrite <- ?IH; try done.
  - cbn. by rewrite <- IH, <- app_assoc.
  - destruct (q_evts q) as [|e es]; cbn in *; by rewrite <- IH.
Qed.

Lemma queues_halt {C E} NC NE (ops : list (DuplexOp C E)) : forall q,
  Forall (fun op => forall r, op = HaltArm r -> r <> HALT_NONE) ops ->
  let '(q', os) := run_queues NC NE ops q in
  q_halt q' = first_reason (q_halt q) (first_halt ops os).
Proof.
  induction ops as [|op ops IH]; intros q F; cbn [run_queues].
  - unfold first_reason. cbn. by destruct (Z.eqb_spec (q_halt q) HALT_NONE).
  - apply Forall_cons in F as [Fo F]. destruct (run_queue NC NE op q) as [q1 o] eqn:E1. specialize (IH q1 F).
    destruct (run_queues NC NE ops q1) as [q2 os]. rewrite IH. cbn [first_halt].
    assert (forall r, r <> HALT_NONE -> first_reason (first_reason (q_halt q) r) (first_halt ops os) = first_reason (q_halt q) r) as Fr.
    { intros r Hr. unfold first_reason. destruct (Z.eqb_spec (q_halt q) HALT_NONE) as [_|Hn];
        [by rewrite (proj2 (Z.eqb_neq r HALT_NONE))|by rewrite (proj2 (Z.eqb_neq (q_halt q) HALT_NONE))]. }
    destruct op as [c| |e| |r| |]; cbn [run_queue] in E1; repeat case_match; injection E1 as <- <-; try done;
      match goal with H : halts _ _ = _ |- _ => injection H as <- end.
    + by apply Fr.
    + apply Fr. by apply Fo.
Qed.

Lemma refused_halts {C E} NC NE (ops : list (DuplexOp C E)) : forall q,
  Forall (fun op => forall r, op = HaltArm r -> r <> HALT_NONE) ops ->
  let '(_, os) := run_queues NC NE ops q in existsb refused os = true -> first_halt ops os <> HALT_NONE.
Proof.
  induction ops as [|op ops IH]; intros q F; cbn [run_queues]; [done|]. apply Forall_cons in F as [Fo F].
  destruct (run_queue NC NE op q) as [q1 o] eqn:E1. specialize (IH q1 F). destruct (run_queues NC NE ops q1) as [q2 os].
  cbn [existsb first_halt]. destruct op as [c| |e| |r| |]; cbn [halts];
    try (destruct (refused o) eqn:R; cbn [orb]; [done|exact IH]).
  intros _. by apply Fo.
Qed.

(** C28. The engine-gateway duplex of two rings behaves as two bounded
    queues: commands and events arrive in order and a full command ring
    refuses the command; and no event is lost without the arm halting: what
    was emitted is what the engine read and what still waits, a refused
    event sets the halt word, and the word keeps the first reason. *)
Theorem a_lost_event_halts_the_arm {C E : Type} (NC NE : Z) (jc : list C) (je : list E) (d0 : Duplex C E) (ops : list (DuplexOp C E)) :
  pow2_capacity NC -> pow2_capacity NE -> length jc = Z.to_nat NC -> length je = Z.to_nat NE ->
  duplex NC NE jc je = Some d0 ->
  Forall (fun op => forall r, op = HaltArm r -> r <> HALT_NONE) ops ->
  let '(d, os) := run_duplexes NC NE ops d0 in
  let '(q, os') := run_queues NC NE ops (mkQueues [] [] HALT_NONE) in
  os = os'
  /\ emitted ops os = delivered os ++ q_evts q
  /\ halt_word (stats d) = first_halt ops os
  /\ (existsb refused os = true -> halt_word (stats d) <> HALT_NONE).
Proof.
  intros HNC HNE Jc Je Ed F.
  destruct (runs_backed NC NE HNC HNE jc je Jc Je ops d0 _ (duplex_backed NC NE jc je d0 Ed)) as [Eo B].
  pose proof (queues_conserve NC NE ops (mkQueues [] [] HALT_NONE)) as Cv.
  pose proof (queues_halt NC NE ops (mkQueues [] [] HALT_NONE) F) as Hh.
  pose proof (refused_halts NC NE ops (mkQueues [] [] HALT_NONE) F) as Rh.
  destruct (run_duplexes NC NE ops d0) as [d os], (run_queues NC NE ops (mkQueues [] [] HALT_NONE)) as [q os'].
  cbn [fst snd] in *. subst os'. destruct B as (sc & se & B). assert (halt_word (stats d) = q_halt q) as -> by apply B.
  cbn in Hh. split_and!; [done|done|by rewrite Hh|]. rewrite Hh. exact Rh.
Qed.

(** Two command slots, eight events: the ninth event is refused. *)
Definition duplex_script : list (DuplexOp Z Z) :=
  [PushCmd 1; PushCmd 2; PushCmd 3; PopCmd; AskQueued] ++ (EmitEvt <$> [1; 2; 3; 4; 5; 6; 7; 8]) ++
  [AskRoom; EmitEvt 9; HaltArm HALT_TIMER_FULL; PopEvt].

Definition duplex_sample : Duplex Z Z :=
  mkDuplex (mkRing 0 0 [0; 0] true) (mkProducer 0 0) (mkConsumer 0 0)
    (mkRing 0 0 [0; 0; 0; 0; 0; 0; 0; 0] true) (mkProducer 0 0) (mkConsumer 0 0) stats_new.

Lemma a_lost_event_halts_the_arm_witness :
  existsb refused (run_duplexes 2 8 duplex_script duplex_sample).2 = true
  /\ halt_word (stats (run_duplexes 2 8 duplex_script duplex_sample).1) = HALT_EVENT_RING_FULL
  /\ let '(d, os) := run_duplexes 2 8 duplex_script duplex_sample in
     let '(q, os') := run_queues 2 8 duplex_script (mkQueues [] [] HALT_NONE) in
     os = os' /\ emitted duplex_script os = delivered os ++ q_evts q
     /\ halt_word (stats d) = first_halt duplex_script os
     /\ (existsb refused os = true -> halt_word (stats d) <> HALT_NONE).
Proof.
  split_and!; [vm_compute; reflexivity..|].
  apply (a_lost_event_halts_the_arm 2 8 [0; 0] [0; 0; 0; 0; 0; 0; 0; 0] duplex_sample duplex_script);
    [exists 1; split; [lia|reflexivity]|exists 3; split; [lia|reflexivity]|reflexivity|reflexivity|reflexivity|].
  cbn. repeat (apply Forall_cons; split; [intros r [=]; subst; done|]). by apply Forall_nil.
Defined.
