(* ===== verification/Regime.v ===== *)
(** * Market-regime words, labels and the gate ([core-types/src/regime.rs])

    A word holds one byte per dimension, one-hot; a label the allowed subset
    of each byte. [RegimeView] is the detector's answer the gate is judged
    against ([core-regime/src/lib.rs]). Words and labels are their [u64]. *)

From S2P Require Import Prelude CoreTypes.

Definition REGIME_PROFILES : Z := 2.
Definition REGIME_PROFILE_FAST : Z := 0.
Definition REGIME_PROFILE_SLOW : Z := 1.

Definition DIM_SOURCE : Z := 6.
Definition DIM_COUNT : nat := 7.
Definition DIM_VALUES : list Z := [3; 3; 3; 2; 3; 3; 3; 0].
Definition DIM_UNKNOWN_BIT : Z := 128.
Definition SOURCE_MEASURED : Z := 0.
Definition SOURCE_DECLARED : Z := 1.
Definition SOURCE_UNKNOWN : Z := 2.
Definition REL_UNKNOWN : Z := 255.
Definition REL_VALUES : Z := 3.
Definition REGIME_OFF_SOFT : Z := 0.
Definition REGIME_OFF_HARD : Z := 1.

(** [d < 8] in every use here; a larger [d] is an empty mask. *)
Definition dim_values_mask (d : Z) : Z := if 8 <=? d then 0 else Z.ones (get DIM_VALUES (Z.to_nat d)).
Definition dim_any_mask (d : Z) : Z :=
  if d <? DIM_SOURCE then Z.lor (dim_values_mask d) DIM_UNKNOWN_BIT else dim_values_mask d.

(** The byte of dimension [d]. *)
Definition dim (w d : Z) : Z := if 8 <=? d then 0 else Z.land (Z.shiftr w (8 * d)) 255.

Definition ALL_DIMS_UNKNOWN : Z :=
  foldr Z.lor 0 ((fun d => Z.shiftl DIM_UNKNOWN_BIT (8 * d)) <$> [0; 1; 2; 3; 4; 5]).
Definition WORD_UNKNOWN : Z := Z.lor ALL_DIMS_UNKNOWN (Z.shiftl 1 (8 * DIM_SOURCE + SOURCE_UNKNOWN)).

Definition dims : list Z := [0; 1; 2; 3; 4; 5; 6].

(** Empty, or one bit of the legal mask. *)
Definition dims_well_formed (w : Z) : bool :=
  forallb (fun d => let b := dim w d in
    (b =? 0) || ((Z.land b (b - 1) =? 0) && (Z.land b (Z.lxor (dim_any_mask d) 255) =? 0))) dims
  && (dim w 7 =? 0).

Definition is_state (w : Z) : bool :=
  let s := dim w DIM_SOURCE in
  dims_well_formed w && negb (s =? 0) && (Z.land s (s - 1) =? 0)
  && (Z.land s (Z.lxor (dim_values_mask DIM_SOURCE) 255) =? 0).

Definition is_wire_declared (w : Z) : bool := dims_well_formed w && (dim w DIM_SOURCE =? 0).

Definition with_source (w source : Z) : Z :=
  Z.lor (Z.land w (Z.lxor (Z.shiftl 255 (8 * DIM_SOURCE)) u64_max)) (Z.shiftl 1 (8 * DIM_SOURCE + source)).

(** ** Labels *)

Definition label_allows (label eff : Z) : bool := (label =? 0) || (Z.land eff label =? eff).

Definition label_intersects (a b : Z) : bool :=
  (a =? 0) || (b =? 0) || forallb (fun d => negb (Z.land (dim a d) (dim b d) =? 0)) dims.

Definition label_well_formed (l : Z) : bool :=
  (l =? 0)
  || (forallb (fun d => negb (dim l d =? 0) && (Z.land (dim l d) (Z.lxor (dim_any_mask d) 255) =? 0)) dims
      && (dim l 7 =? 0)).

(** ** RELATIVE sets: a nibble per profile *)

Definition rel_fast (r : Z) : Z := Z.land r 7.
Definition rel_slow (r : Z) : Z := Z.land (Z.shiftr r 4) 7.

Definition rel_nibble_allows (set v : Z) : bool := (set =? 0) || ((v <? REL_VALUES) && Z.testbit set v).
Definition rel_allows (mask fast_val slow_val : Z) : bool :=
  rel_nibble_allows (rel_fast mask) fast_val && rel_nibble_allows (rel_slow mask) slow_val.

Definition rel_intersects (a b : Z) : bool :=
  ((rel_fast a =? 0) || (rel_fast b =? 0) || negb (Z.land (rel_fast a) (rel_fast b) =? 0))
  && ((rel_slow a =? 0) || (rel_slow b =? 0) || negb (Z.land (rel_slow a) (rel_slow b) =? 0)).

(** ** Terms and label sets *)

Record RegimeTerm := mkTerm { tm_fast : Z; tm_slow : Z; tm_rel : Z }.
Definition TERM_ANY : RegimeTerm := mkTerm 0 0 0.

Definition term_allows (t : RegimeTerm) (eff_fast eff_slow rel_f rel_s : Z) : bool :=
  label_allows (tm_fast t) eff_fast && label_allows (tm_slow t) eff_slow && rel_allows (tm_rel t) rel_f rel_s.

Definition term_intersects (a b : RegimeTerm) : bool :=
  label_intersects (tm_fast a) (tm_fast b) && label_intersects (tm_slow a) (tm_slow b)
  && rel_intersects (tm_rel a) (tm_rel b).

Definition REGIME_LABEL_TERMS : nat := 4.
Record RegimeLabelSet := mkLabelSet { ls_terms : list RegimeTerm; ls_n : Z; ls_off : Z }.
Definition LABEL_SET_ANY : RegimeLabelSet := mkLabelSet (replicate REGIME_LABEL_TERMS TERM_ANY) 0 REGIME_OFF_SOFT.

Definition from_terms (terms : list RegimeTerm) (off : Z) : option RegimeLabelSet :=
  if (REGIME_LABEL_TERMS <? length terms)%nat || (REGIME_OFF_HARD <? off) then None
  else Some (mkLabelSet (terms ++ drop (length terms) (ls_terms LABEL_SET_ANY)) (Z.of_nat (length terms)) off).

Definition set_allows (s : RegimeLabelSet) (eff_fast eff_slow rel_f rel_s : Z) : bool :=
  (ls_n s =? 0)
  || existsb (fun t => term_allows t eff_fast eff_slow rel_f rel_s)
       (take (Nat.min (Z.to_nat (ls_n s)) REGIME_LABEL_TERMS) (ls_terms s)).

(** ** The view a gate is judged against *)

Definition REGIME_MAX_SYMS : nat := 32.

Record RegimeView := mkView {
  rv_effective : list Z;
  rv_rel : list (list Z);
  rv_syms : list Z;
  rv_n_syms : Z;
  rv_configured : Z
}.

Definition VIEW_UNKNOWN : RegimeView :=
  mkView (replicate 4 WORD_UNKNOWN) (replicate 2 (replicate REGIME_MAX_SYMS REL_UNKNOWN))
    (replicate REGIME_MAX_SYMS SYMBOL_ID_NONE) 0 0.

Definition rel_of (v : RegimeView) (p sym : Z) : Z :=
  if REGIME_PROFILES <=? p then REL_UNKNOWN
  else
    let n := Nat.min (Z.to_nat (rv_n_syms v)) REGIME_MAX_SYMS in
    match first_index (fun s => s =? sym) (take n (rv_syms v)) with
    | Some i => get (rv_rel v !!! Z.to_nat p) i
    | None => REL_UNKNOWN
    end.
