(* ===== verification/RuleTable.v ===== *)
(** * The rule grammar ([core-types/src/lib.rs], rules and AI commands)

    The rows and the table the ruleset VM evaluates, the mapping of the first
    grammar's rows onto it, and the commands that flip and seed it. *)

From S2P Require Import Prelude CoreTypes Regime.

Definition RULE_TABLE_ROWS : nat := 256.
Definition SIDE_BOTH : Z := 255.
Definition FEAT_NONE : Z := 255.
Definition GROUP_NONE : Z := 255.
Definition ROW_FLAG_POSITION : Z := 1.
Definition RULE_ROW_VER_2 : Z := 2.
Definition CMP_ENTRY_LE : Z := 1.
Definition CMP_ENTRY_ABS : Z := 2.
Definition CMP_CONFIRM_LE : Z := 4.
Definition CMP_CONFIRM_ABS : Z := 8.
Definition CMP_CONFIRM_PAIR : Z := 16.

Definition side_byte (s : Side) : Z := match s with Bid => 0 | Ask => 1 end.
Definition opposite (s : Side) : Side := match s with Bid => Ask | Ask => Bid end.

Inductive FeatId : Type :=
| Mid | BestBid | BestAsk | RollMean | RollEma | RollMin | RollMax | RollStd | Apr24 | Apr72
| MarkPx | MarkIv | DepthImb | DepthSpreadBps | DepthNearNotional | ClockToFunding | ClockUtcSod.

#[export] Instance feat_id_eq_dec : EqDecision FeatId.
Proof. solve_decision. Defined.

Definition feats_by_byte : list FeatId :=
  [Mid; BestBid; BestAsk; RollMean; RollEma; RollMin; RollMax; RollStd; Apr24; Apr72;
   MarkPx; MarkIv; DepthImb; DepthSpreadBps; DepthNearNotional; ClockToFunding; ClockUtcSod].

Definition feat_from_u8 (b : Z) : option FeatId := if b <? 0 then None else feats_by_byte !! Z.to_nat b.

Definition requires_window (f : FeatId) : bool :=
  match f with RollMean | RollEma | RollMin | RollMax | RollStd => true | _ => false end.

Inductive CombineOp : Type := Diff | DiffBps | Ratio1e9 | LhsOnly.

Definition combine_from_u8 (b : Z) : option CombineOp :=
  if b =? 0 then Some Diff else if b =? 1 then Some DiffBps
  else if b =? 2 then Some Ratio1e9 else if b =? 3 then Some LhsOnly else None.
Definition COMBINE_LHS_ONLY : Z := 3.

(** The first grammar's row. *)
Record RuleRow := mkRule {
  r1_sym : Z; r1_ref_sym : Z; r1_edge_bps : Z; r1_horizon_ms : Z; r1_level_1e6 : Z; r1_max_risk_1e6 : Z;
  r1_name_h : Z; r1_trigger : Z; r1_side : Z; r1_family : Z
}.
Definition TRIGGER_LEVEL_BREACH : Z := 1.

Record RuleRowV2 := mkRow {
  rr_ver : Z; rr_flags : Z; rr_side : Z; rr_group : Z;
  rr_feat_a : Z; rr_feat_b : Z; rr_feat_c : Z; rr_combine : Z;
  rr_sym : Z; rr_ref_sym : Z;
  rr_win_a : Z; rr_win_b : Z; rr_win_c : Z; rr_cmp_bits : Z;
  rr_enter_1e9 : Z; rr_exit_1e9 : Z; rr_confirm_1e9 : Z;
  rr_min_hold_s : Z; rr_horizon_ms : Z; rr_edge_bps : Z; rr_max_risk_1e6 : Z; rr_name_h : Z;
  rr_max_hold_s : Z; rr_family : Z;
  rr_regime_fast : Z; rr_regime_slow : Z; rr_regime_off : Z; rr_regime_rel : Z
}.

Definition ROW_ZERO : RuleRowV2 :=
  mkRow 0 0 0 0 0 0 0 0 0 0 0 0 0 0 0 0 0 0 0 0 0 0 0 0 0 0 0 0.

#[export] Instance row_inhabited : Inhabited RuleRowV2 := populate ROW_ZERO.

(** [RuleRowV2::from_v1]: feature bytes 0, 1, 2 are mid, bid and ask. *)
Definition from_v1 (r : RuleRow) : RuleRowV2 :=
  if r1_trigger r =? TRIGGER_LEVEL_BREACH then
    let '(feat_a, cmp) := if r1_side r =? side_byte Ask then (1, 0) else (2, CMP_ENTRY_LE) in
    mkRow RULE_ROW_VER_2 0 (r1_side r) GROUP_NONE feat_a 0 FEAT_NONE COMBINE_LHS_ONLY (r1_sym r) SYMBOL_ID_NONE
      0 0 0 cmp (wrap_i64 (r1_level_1e6 r * 1000)) 0 0 0 (r1_horizon_ms r) (r1_edge_bps r) (r1_max_risk_1e6 r)
      (r1_name_h r) 0 (r1_family r) 0 0 0 0
  else
    mkRow RULE_ROW_VER_2 0 (r1_side r) GROUP_NONE 0 0 FEAT_NONE 1 (r1_sym r) (r1_ref_sym r)
      0 0 0 CMP_ENTRY_ABS (r1_edge_bps r * 1000000000) 0 0 0 (r1_horizon_ms r) (r1_edge_bps r) (r1_max_risk_1e6 r)
      (r1_name_h r) 0 (r1_family r) 0 0 0 0.

Record RuleTableV2 := mkTable { rt_rows : list RuleRowV2; rt_len : Z; rt_epoch : Z; rt_hash128 : list Z }.

Definition TABLE_EMPTY : RuleTableV2 := mkTable (replicate RULE_TABLE_ROWS ROW_ZERO) 0 0 (replicate 16 0).

(** ** The commands the VM consumes *)

Definition AI_KIND_RULESET_COMMIT : Z := 8.
Definition AI_KIND_FUNDING_SEED : Z := 10.
Definition AI_KIND_POSITION_SEED : Z := 11.

Record AiCmd := mkAiCmd {
  ac_ts_ns : Z; ac_sym : Z; ac_px : Z; ac_qty : Z; ac_ttl_ns : Z; ac_kind : Z;
  ac_strategy_id : Z; ac_side : Z; ac_param_id : Z
}.

(** [i64::to_le_bytes]. *)
Definition le_bytes (z : Z) : list Z := (fun i => Z.land (Z.shiftr (wrap_u64 z) (8 * Z.of_nat i)) 255) <$> seq 0 8.

Definition ruleset_hash128 (c : AiCmd) : list Z := le_bytes (ac_px c) ++ le_bytes (ac_qty c).

(** The shape gate's columns for a position seed that the VM relies on. *)
Definition seed_shape_ok (c : AiCmd) : bool :=
  negb (ac_sym c =? SYMBOL_ID_NONE) && (0 <? ac_px c) && (0 <=? ac_qty c)
  && ((ac_side c =? side_byte Bid) || (ac_side c =? side_byte Ask))
  && (ac_param_id c <? Z.of_nat RULE_TABLE_ROWS).
