(* ===== verification/Vm.v ===== *)
(** * The ruleset VM ([crates/strategy-vm/src/lib.rs])

    A ping-pong of rule tables, a position per row and a regime gate per row,
    evaluated on every tick. The feature engine and the strategy context are
    interfaces: what a feature reads and what the dispatcher answers are
    theirs; which orders leave, and when, is the VM's. *)

From S2P Require Import Prelude CoreTypes Regime RuleTable Ladder Router.

#[local] Open Scope machine_scope.

(** ** The interfaces *)

Inductive SubmitErr : Type := RingFull | Unsupported | NoSuchOrder | Refused.

(** [strategy_core::Ctx], as the VM uses it. *)
Class Ctx (C : Type) := {
  ctx_submit : Order -> C -> C * result unit SubmitErr;
  ctx_now_ns : C -> Z
}.

(** [FeatureState]: a read may refresh a cached window. *)
Class Features (F : Type) := {
  feat_read : FeatId -> Z -> Z -> Z -> F -> F * option Z;
  feat_on_tick : Tick -> Z -> F -> F;
  feat_on_venue_event : ChannelEvent -> Z -> F -> F;
  feat_on_depth : DepthTopK -> Z -> F -> F;
  feat_on_opt_summary : OptSummary -> Z -> F -> F;
  feat_funding_seed : Z -> Z -> Z -> F -> F;
  feat_clear_roll_bindings : F -> F;
  feat_bind_roll : Z -> Z -> F -> F * bool
}.

(** ** The state *)

Definition ROW_GATE_OPEN : Z := 1.
Definition ROW_GATE_HARD : Z := 2.
Definition POLICY_SINGLE_ORDER_CAP_1E6 : Z := 10000000000.
Definition STRATEGY_ID_UNATTRIBUTED : Z := 255.

Record VmPosition := mkPos {
  vp_qty_sym : Z; vp_qty_ref : Z; vp_entry_px : Z; vp_entry_ts : Z;
  vp_entered : bool; vp_side : Z; vp_entry_sign : Z
}.

Definition FLAT : VmPosition := mkPos 0 0 0 0 false 0 0.

#[export] Instance vm_position_inhabited : Inhabited VmPosition := populate FLAT.

Inductive VmCounter : Type :=
| Evals | Fires | OrdersEmitted | OrdersDropped | CommitsApplied | CommitsDropped | Entries | RoundTrips
| LegDrops | ExitBlocked | EntryBlocked | FundingSeedsApplied | PositionSeedsApplied | PositionSeedsRefused
| RegimeBlocked | RegimeHardExits.

#[export] Instance vm_counter_eq_dec : EqDecision VmCounter.
Proof. solve_decision. Defined.

Section Vm.
Context {F : Type} `{Features F} {C : Type} `{Ctx C}.

(** [active] is the parity of the byte. *)
Record VmStrategy := mkVm {
  vm_tables : RuleTableV2 * RuleTableV2;
  vm_active : bool;
  vm_staged_valid : bool;
  vm_last_fire : list Z;
  vm_positions : list VmPosition;
  vm_row_gate : list Z;
  vm_view : RegimeView;
  vm_next_oid : Z;
  vm_feats : F;
  vm_counts : VmCounter -> Z
}.

Definition Vm_new (feats : F) : VmStrategy :=
  mkVm (TABLE_EMPTY, TABLE_EMPTY) false false (replicate RULE_TABLE_ROWS 0) (replicate RULE_TABLE_ROWS FLAT)
    (replicate RULE_TABLE_ROWS ROW_GATE_OPEN) VIEW_UNKNOWN 1 feats (fun _ => 0).

Definition table_at (b : bool) (v : VmStrategy) : RuleTableV2 := if b then (vm_tables v).2 else (vm_tables v).1.
Definition active_table (v : VmStrategy) : RuleTableV2 := table_at (vm_active v) v.
Definition staged_table (v : VmStrategy) : RuleTableV2 := table_at (negb (vm_active v)) v.

Definition set_table (b : bool) (t : RuleTableV2) (v : VmStrategy) : VmStrategy :=
  mkVm (if b then ((vm_tables v).1, t) else (t, (vm_tables v).2)) (vm_active v) (vm_staged_valid v) (vm_last_fire v)
    (vm_positions v) (vm_row_gate v) (vm_view v) (vm_next_oid v) (vm_feats v) (vm_counts v).
Definition set_flip (active staged : bool) (v : VmStrategy) : VmStrategy :=
  mkVm (vm_tables v) active staged (vm_last_fire v)
    (vm_positions v) (vm_row_gate v) (vm_view v) (vm_next_oid v) (vm_feats v) (vm_counts v).
Definition set_last_fire (l : list Z) (v : VmStrategy) : VmStrategy :=
  mkVm (vm_tables v) (vm_active v) (vm_staged_valid v) l
    (vm_positions v) (vm_row_gate v) (vm_view v) (vm_next_oid v) (vm_feats v) (vm_counts v).
Definition set_positions (p : list VmPosition) (v : VmStrategy) : VmStrategy :=
  mkVm (vm_tables v) (vm_active v) (vm_staged_valid v) (vm_last_fire v)
    p (vm_row_gate v) (vm_view v) (vm_next_oid v) (vm_feats v) (vm_counts v).
Definition set_gates (g : list Z) (view : RegimeView) (v : VmStrategy) : VmStrategy :=
  mkVm (vm_tables v) (vm_active v) (vm_staged_valid v) (vm_last_fire v)
    (vm_positions v) g view (vm_next_oid v) (vm_feats v) (vm_counts v).
Definition set_oid (o : Z) (v : VmStrategy) : VmStrategy :=
  mkVm (vm_tables v) (vm_active v) (vm_staged_valid v) (vm_last_fire v)
    (vm_positions v) (vm_row_gate v) (vm_view v) o (vm_feats v) (vm_counts v).
Definition set_feats (f : F) (v : VmStrategy) : VmStrategy :=
  mkVm (vm_tables v) (vm_active v) (vm_staged_valid v) (vm_last_fire v)
    (vm_positions v) (vm_row_gate v) (vm_view v) (vm_next_oid v) f (vm_counts v).

(** [self.c = self.c.wrapping_add(1)]. *)
Definition bump (k : VmCounter) (v : VmStrategy) : VmStrategy :=
  mkVm (vm_tables v) (vm_active v) (vm_staged_valid v) (vm_last_fire v)
    (vm_positions v) (vm_row_gate v) (vm_view v) (vm_next_oid v) (vm_feats v)
    (fun j => if decide (j = k) then wrap_u64 (vm_counts v j + 1) else vm_counts v j).

Definition rows_active (v : VmStrategy) : Z := rt_len (active_table v).

(** A row, its position and its gate byte. *)
Definition row_at (v : VmStrategy) (i : nat) : RuleRowV2 := rt_rows (active_table v) !!! i.
Definition pos_at (v : VmStrategy) (i : nat) : VmPosition := vm_positions v !!! i.

(** ** The regime gate *)

Definition row_open (view : RegimeView) (r : RuleRowV2) : bool :=
  let open := label_allows (rr_regime_fast r) (get (rv_effective view) 0)
              && label_allows (rr_regime_slow r) (get (rv_effective view) 1) in
  if open && negb (rr_regime_rel r =? 0)
  then rel_allows (rr_regime_rel r) (rel_of view REGIME_PROFILE_FAST (rr_sym r)) (rel_of view REGIME_PROFILE_SLOW (rr_sym r))
  else open.

Definition judge_row (view : RegimeView) (r : RuleRowV2) : Z :=
  let open := row_open view r in
  let hard := negb open && (rr_regime_off r =? REGIME_OFF_HARD) in
  (if open then 1 else 0) + (if hard then 2 else 0).

Definition judge_rows (v : VmStrategy) : VmStrategy :=
  let len := Nat.min (Z.to_nat (rows_active v)) RULE_TABLE_ROWS in
  set_gates ((judge_row (vm_view v) <$> take len (rt_rows (active_table v))) ++ drop len (vm_row_gate v)) (vm_view v) v.

Definition set_regime_view (view : RegimeView) (v : VmStrategy) : VmStrategy :=
  judge_rows (set_gates (vm_row_gate v) view v).

Definition row_gate (row : nat) (v : VmStrategy) : Z :=
  if Z.of_nat row <? rows_active v then get (vm_row_gate v) row else 0.

(** ** Tables *)

Definition staged_hash128 (v : VmStrategy) : option (list Z) :=
  if vm_staged_valid v then Some (rt_hash128 (staged_table v)) else None.

Definition receive_table_v2 (t : RuleTableV2) (v : VmStrategy) : VmStrategy :=
  let t' := if Z.of_nat RULE_TABLE_ROWS <? rt_len t
            then mkTable (rt_rows t) (Z.of_nat RULE_TABLE_ROWS) (rt_epoch t) (rt_hash128 t) else t in
  set_flip (vm_active v) true (set_table (negb (vm_active v)) t' v).

(** The operand legs whose window a flip binds. *)
Definition bind_leg (f : F) (leg : Z * Z * Z) : F :=
  let '(fb, win, sym) := leg in
  if negb (sym =? SYMBOL_ID_NONE) && (0 <? win)
  then match feat_from_u8 fb with
       | Some id => if requires_window id then (feat_bind_roll sym win f).1 else f
       | None => f
       end
  else f.

Definition row_legs (r : RuleRowV2) : list (Z * Z * Z) :=
  [(rr_feat_a r, rr_win_a r, rr_sym r);
   (rr_feat_b r, rr_win_b r, rr_ref_sym r);
   (rr_feat_c r, rr_win_c r, rr_sym r);
   (rr_feat_c r, rr_win_c r, if negb (Z.land (rr_cmp_bits r) CMP_CONFIRM_PAIR =? 0) then rr_ref_sym r else SYMBOL_ID_NONE)].

Definition on_table_flipped (v : VmStrategy) : VmStrategy :=
  let f := feat_clear_roll_bindings (vm_feats v) in
  let rows := take (Z.to_nat (rows_active v)) (rt_rows (active_table v)) in
  let v := set_feats (foldl (fun f r => foldl bind_leg f (row_legs r)) f rows) v in
  let v := set_positions (replicate RULE_TABLE_ROWS FLAT) (set_last_fire (replicate RULE_TABLE_ROWS 0) v) in
  judge_rows v.

(** ** Signals *)

Definition combine_1e9 (op : CombineOp) (a b : Z) : option Z :=
  match op with
  | Diff => Some (sat_i64 (a - b))
  | DiffBps => if b =? 0 then None else Some (sat_i64 ((a - b) * 10000 * 1000000000 /t b))
  | Ratio1e9 => if b =? 0 then None else Some (sat_i64 (a * 1000000000 /t b))
  | LhsOnly => Some a
  end.

(** [self.feats.read(..)]. *)
Definition read (id : FeatId) (sym win now : Z) (v : VmStrategy) : VmStrategy * option Z :=
  let '(f, x) := feat_read id sym win now (vm_feats v) in (set_feats f v, x).

(** [read] of a feature byte: an undecodable one reads nothing. *)
Definition read_byte (b sym win now : Z) (v : VmStrategy) : VmStrategy * option Z :=
  match feat_from_u8 b with
  | Some id => read id sym win now v
  | None => (v, None)
  end.

Definition signal_of (r : RuleRowV2) (now : Z) (v : VmStrategy) : VmStrategy * option Z :=
  match read_byte (rr_feat_a r) (rr_sym r) (rr_win_a r) now v with
  | (v, None) => (v, None)
  | (v, Some a) =>
      match combine_from_u8 (rr_combine r) with
      | None => (v, None)
      | Some LhsOnly => (v, Some a)
      | Some op =>
          match read_byte (rr_feat_b r) (rr_ref_sym r) (rr_win_b r) now v with
          | (v, None) => (v, None)
          | (v, Some b) => (v, combine_1e9 op a b)
          end
      end
  end.

Definition has_bit (bits mask : Z) : bool := negb (Z.land bits mask =? 0).

(** The comparison of [cmp_bits]: absolute or not, at most or at least. *)
Definition compare_1e9 (abs le : bool) (sig threshold : Z) : bool :=
  let s := if abs then sat_abs sig else sig in
  if le then s <=? threshold else threshold <=? s.

Definition entry_fires (r : RuleRowV2) (sig : Z) : bool :=
  compare_1e9 (has_bit (rr_cmp_bits r) CMP_ENTRY_ABS) (has_bit (rr_cmp_bits r) CMP_ENTRY_LE) sig (rr_enter_1e9 r).

Definition confirm_judge (r : RuleRowV2) (sig : Z) : bool :=
  compare_1e9 (has_bit (rr_cmp_bits r) CMP_CONFIRM_ABS) (has_bit (rr_cmp_bits r) CMP_CONFIRM_LE) sig (rr_confirm_1e9 r).

Definition confirm_ok (r : RuleRowV2) (now : Z) (v : VmStrategy) : VmStrategy * bool :=
  if rr_feat_c r =? FEAT_NONE then (v, true)
  else match read_byte (rr_feat_c r) (rr_sym r) (rr_win_c r) now v with
       | (v, None) => (v, false)
       | (v, Some a) =>
           if has_bit (rr_cmp_bits r) CMP_CONFIRM_PAIR then
             match read_byte (rr_feat_c r) (rr_ref_sym r) (rr_win_c r) now v with
             | (v, None) => (v, false)
             | (v, Some b) =>
                 match combine_from_u8 (rr_combine r) with
                 | None => (v, false)
                 | Some op => match combine_1e9 op a b with
                              | Some s => (v, confirm_judge r s)
                              | None => (v, false)
                              end
                 end
             end
           else (v, confirm_judge r a)
       end.

(** ** Orders *)

Definition sized_qty_1e6 (row_cap px : Z) : Z :=
  let allowed := Z.min row_cap POLICY_SINGLE_ORDER_CAP_1E6 in
  if (allowed <=? 0) || (px <=? 0) then 0
  else
    let q := wrap_i64 (allowed * 1000000 /t px) in
    if px * q <? 1000000 then 0 else q.

Definition mid_1e6 (sym now : Z) (v : VmStrategy) : VmStrategy * option Z :=
  let '(v, m) := read Mid sym 0 now v in (v, (fun m => m /t 1000) <$> m).

Definition vm_order (now sym : Z) (side : Side) (px qty oid : Z) : Order :=
  mkOrder now sym side 0 px qty oid (symbol_venue_byte sym) STRATEGY_ID_UNATTRIBUTED.

Definition submit_leg (sym : Z) (side : Side) (px qty now : Z) (v : VmStrategy) (c : C) : VmStrategy * C * bool :=
  if (symbol_venue_byte sym <? 0) || (Z.of_nat VENUE_COUNT <=? symbol_venue_byte sym) then (v, c, false)
  else
    let order := vm_order now sym side px qty (vm_next_oid v) in
    let v := set_oid (wrap_u64 (vm_next_oid v + 1)) v in
    match ctx_submit order c with
    | (c, Ok _) => (bump OrdersEmitted v, c, true)
    | (c, Err (RingFull | Unsupported | NoSuchOrder | Refused)) => (bump OrdersDropped v, c, false)
    end.

Definition group_occupied (group : Z) (me len : nat) (v : VmStrategy) : bool :=
  if group =? GROUP_NONE then false
  else existsb (fun j => negb (j =? me)%nat && vp_entered (pos_at v j) && (rr_group (row_at v j) =? group)) (seq 0 len).

Definition set_pos (i : nat) (p : VmPosition) (v : VmStrategy) : VmStrategy := set_positions (<[i := p]> (vm_positions v)) v.
Definition stamp (i : nat) (now : Z) (v : VmStrategy) : VmStrategy := set_last_fire (<[i := now]> (vm_last_fire v)) v.

(** ** Exits *)

Definition close_side (p : VmPosition) : Side := if vp_side p =? side_byte Bid then Ask else Bid.
Definition two_leg_exit (p : VmPosition) (r : RuleRowV2) : bool := (0 <? vp_qty_ref p) && negb (rr_ref_sym r =? SYMBOL_ID_NONE).

(** The closers at their live mids; an unpriceable leg or a refused first leg
    holds the position. *)
Definition emit_exit (i : nat) (now : Z) (v : VmStrategy) (c : C) : VmStrategy * C * bool :=
  let r := row_at v i in
  let p := pos_at v i in
  match mid_1e6 (rr_sym r) now v with
  | (v, None) => (bump ExitBlocked v, c, false)
  | (v, Some sym_px) =>
      let '(v, ref_px) := if two_leg_exit p r then mid_1e6 (rr_ref_sym r) now v else (v, Some 0) in
      match ref_px with
      | None => (bump ExitBlocked v, c, false)
      | Some ref_px =>
          match submit_leg (rr_sym r) (close_side p) sym_px (vp_qty_sym p) now v c with
          | (v, c, false) => (v, c, false)
          | (v, c, true) =>
              let '(v, c) :=
                if two_leg_exit p r
                then let '(v, c, ok) := submit_leg (rr_ref_sym r) (opposite (close_side p)) ref_px (vp_qty_ref p) now v c in
                     ((if (ok : bool) then v else bump LegDrops v), c)
                else (v, c) in
              (stamp i now (bump RoundTrips (set_pos i FLAT v)), c, true)
          end
      end
  end.

Definition age_ns (now : Z) (p : VmPosition) : Z := sat_u64 (now - vp_entry_ts p).

(** An entered position row: age-out, hard-off, minimum hold, reversion. *)
Definition exit_path (i : nat) (now : Z) (v : VmStrategy) (c : C) : VmStrategy * C :=
  let r := row_at v i in
  let p := pos_at v i in
  if (0 <? rr_max_hold_s r) && (rr_max_hold_s r * 1000000000 <=? age_ns now p)
  then (emit_exit i now v c).1
  else if has_bit (get (vm_row_gate v) i) ROW_GATE_HARD
  then match emit_exit i now v c with
       | (v, c, true) => (bump RegimeHardExits v, c)
       | (v, c, false) => (v, c)
       end
  else if age_ns now p <? rr_min_hold_s r * 1000000000 then (v, c)
  else match signal_of r now v with
       | (v, None) => (v, c)
       | (v, Some signal) =>
           if sat_i64 (signal * vp_entry_sign p) <=? rr_exit_1e9 r then (emit_exit i now v c).1 else (v, c)
       end.

(** ** Entries *)

(** A single-leg order at the live mid; the stamp moves only on accept. *)
Definition refire (i : nat) (side : Side) (now : Z) (v : VmStrategy) (c : C) : VmStrategy * C :=
  let r := row_at v i in
  match mid_1e6 (rr_sym r) now v with
  | (v, None) => (bump EntryBlocked v, c)
  | (v, Some px) =>
      let qty := sized_qty_1e6 (rr_max_risk_1e6 r) px in
      if 0 <? qty
      then match submit_leg (rr_sym r) side px qty now v c with
           | (v, c, true) => (stamp i now v, c)
           | (v, c, false) => (v, c)
           end
      else (v, c)
  end.

(** The both-sides level breach: the bid leg is tried first. *)
Definition sugar_path (i : nat) (now : Z) (v : VmStrategy) (c : C) : VmStrategy * C :=
  let r := row_at v i in
  let '(v, ask) := read BestAsk (rr_sym r) 0 now v in
  let bid_leg := match ask with Some a => a <=? rr_enter_1e9 r | None => false end in
  let '(v, bid) := read BestBid (rr_sym r) 0 now v in
  let ask_leg := match bid with Some b => rr_enter_1e9 r <=? b | None => false end in
  match (if bid_leg then Some Bid else if ask_leg then Some Ask else None) with
  | Some side => refire i side now (bump Fires v) c
  | None => (v, c)
  end.

Definition is_position_row (r : RuleRowV2) : bool := has_bit (rr_flags r) ROW_FLAG_POSITION.
Definition is_lhs_only (r : RuleRowV2) : bool := rr_combine r =? COMBINE_LHS_ONLY.

(** The side a signal enters; [None] is the side filter's refusal. *)
Definition entry_side (r : RuleRowV2) (signal : Z) : option Side :=
  let dir := if 0 <? signal then Ask else Bid in
  if is_lhs_only r then
    Some (if rr_side r =? side_byte Bid then Bid else if rr_side r =? side_byte Ask then Ask else dir)
  else if negb (rr_side r =? SIDE_BOTH) && negb (rr_side r =? side_byte dir) then None
  else Some dir.

Definition enter_position (i len : nat) (side : Side) (signal now : Z) (v : VmStrategy) (c : C) : VmStrategy * C :=
  let r := row_at v i in
  if group_occupied (rr_group r) i len v then (v, c)
  else match mid_1e6 (rr_sym r) now v with
       | (v, None) => (bump EntryBlocked v, c)
       | (v, Some sym_px) =>
           let two_leg := negb (rr_ref_sym r =? SYMBOL_ID_NONE) in
           let '(v, ref_px) := if two_leg then mid_1e6 (rr_ref_sym r) now v else (v, Some 0) in
           match ref_px with
           | None => (bump EntryBlocked v, c)
           | Some ref_px =>
               let qty_sym := sized_qty_1e6 (rr_max_risk_1e6 r) sym_px in
               if qty_sym <=? 0 then (v, c)
               else match submit_leg (rr_sym r) side sym_px qty_sym now v c with
                    | (v, c, false) => (v, c)
                    | (v, c, true) =>
                        let qty_ref := if two_leg then sized_qty_1e6 (rr_max_risk_1e6 r) ref_px else 0 in
                        let '(v, c) :=
                          if two_leg && (0 <? qty_ref)
                          then let '(v, c, ok) := submit_leg (rr_ref_sym r) (opposite side) ref_px qty_ref now v c in
                               ((if (ok : bool) then v else bump LegDrops v), c)
                          else (v, c) in
                        let p := mkPos qty_sym qty_ref sym_px now true (side_byte side) (if 0 <=? signal then 1 else -1) in
                        (stamp i now (bump Entries (set_pos i p v)), c)
                    end
           end
       end.

Definition entry_path (i len : nat) (now : Z) (v : VmStrategy) (c : C) : VmStrategy * C :=
  let r := row_at v i in
  let horizon_ns := wrap_u64 (rr_horizon_ms r * 1000000) in
  if negb (has_bit (get (vm_row_gate v) i) ROW_GATE_OPEN) then (bump RegimeBlocked v, c)
  else if now <? sat_u64 (get (vm_last_fire v) i + horizon_ns) then (v, c)
  else if is_lhs_only r && (rr_side r =? SIDE_BOTH) && negb (is_position_row r) then sugar_path i now v c
  else match signal_of r now v with
       | (v, None) => (v, c)
       | (v, Some signal) =>
           if negb (entry_fires r signal) then (v, c)
           else match entry_side r signal with
                | None => (v, c)
                | Some side =>
                    match confirm_ok r now v with
                    | (v, false) => (v, c)
                    | (v, true) =>
                        let v := bump Fires v in
                        if is_position_row r then enter_position i len side signal now v c
                        else refire i side now v c
                    end
                end
       end.

(** ** The callbacks *)

Definition row_turn (len : nat) (t_sym now : Z) (i : nat) (vc : VmStrategy * C) : VmStrategy * C :=
  let '(v, c) := vc in
  let r := row_at v i in
  if negb (rr_sym r =? t_sym) && negb (rr_ref_sym r =? t_sym) then (v, c)
  else
    let v := bump Evals v in
    if is_position_row r && vp_entered (pos_at v i) then exit_path i now v c
    else entry_path i len now v c.

Definition vm_on_tick (t : Tick) (v : VmStrategy) (c : C) : VmStrategy * C :=
  let v := set_feats (feat_on_tick t (ctx_now_ns c) (vm_feats v)) v in
  let len := Z.to_nat (rows_active v) in
  let now := ctx_now_ns c in
  foldl (fun vc i => row_turn len (tk_sym t) now i vc) (v, c) (seq 0 len).

Definition vm_on_venue_event (e : ChannelEvent) (v : VmStrategy) (c : C) : VmStrategy :=
  set_feats (feat_on_venue_event e (ctx_now_ns c) (vm_feats v)) v.
Definition vm_on_depth (d : DepthTopK) (v : VmStrategy) (c : C) : VmStrategy :=
  set_feats (feat_on_depth d (ctx_now_ns c) (vm_feats v)) v.
Definition vm_on_opt_summary (o : OptSummary) (v : VmStrategy) (c : C) : VmStrategy :=
  set_feats (feat_on_opt_summary o (ctx_now_ns c) (vm_feats v)) v.

Definition seed_ok (cmd : AiCmd) (v : VmStrategy) : bool :=
  let i := Z.to_nat (ac_param_id cmd) in
  let len := Z.to_nat (rows_active v) in
  (i <? len)%nat && is_position_row (row_at v i) && (rr_sym (row_at v i) =? ac_sym cmd)
  && negb (vp_entered (pos_at v i)) && negb (group_occupied (rr_group (row_at v i)) i len v).

Definition position_seed (cmd : AiCmd) (v : VmStrategy) (c : C) : VmStrategy :=
  let i := Z.to_nat (ac_param_id cmd) in
  let now := ctx_now_ns c in
  if seed_ok cmd v then
    let r := row_at v i in
    let qty_sym := sized_qty_1e6 (rr_max_risk_1e6 r) (ac_px cmd) in
    let '(v, qty_ref) :=
      if negb (rr_ref_sym r =? SYMBOL_ID_NONE)
      then let '(v, m) := mid_1e6 (rr_ref_sym r) now v in
           (v, sized_qty_1e6 (rr_max_risk_1e6 r) (default (ac_px cmd) m))
      else (v, 0) in
    if 0 <? qty_sym then
      let age := sat_u64 (wrap_u64 (ac_qty cmd) * 1000000000) in
      let p := mkPos qty_sym qty_ref (ac_px cmd) (sat_u64 (now - age)) true (ac_side cmd)
                 (if ac_side cmd =? side_byte Ask then 1 else -1) in
      bump PositionSeedsApplied (set_pos i p v)
    else bump PositionSeedsRefused v
  else bump PositionSeedsRefused v.

Definition ruleset_commit (cmd : AiCmd) (v : VmStrategy) : VmStrategy :=
  if vm_staged_valid v && bool_decide (rt_hash128 (staged_table v) = ruleset_hash128 cmd)
  then on_table_flipped (bump CommitsApplied (set_flip (negb (vm_active v)) false v))
  else bump CommitsDropped v.

Definition vm_on_ai (cmd : AiCmd) (v : VmStrategy) (c : C) : VmStrategy :=
  if ac_kind cmd =? AI_KIND_FUNDING_SEED
  then bump FundingSeedsApplied (set_feats (feat_funding_seed (ac_sym cmd) (ac_qty cmd) (ac_px cmd) (vm_feats v)) v)
  else if ac_kind cmd =? AI_KIND_POSITION_SEED then position_seed cmd v c
  else if ac_kind cmd =? AI_KIND_RULESET_COMMIT then ruleset_commit cmd v
  else v.
End Vm.

Arguments VmStrategy : clear implicits.
