(* ===== verification/VmProofs.v ===== *)
(** * What the ruleset VM may send

    Each row's turn on a tick is one of six lawful moves; a tick is one turn
    per row. From it: the book of positions stays well formed, a group never
    holds two, every order is inside its caps or closes exactly what is held. *)

From S2P Require Import Prelude CoreTypes Regime RuleTable Router Vm.

(** ** The log of submits *)

Record Logged (C : Type) := mkLogged { lg_ctx : C; lg_log : list (Order * bool) }.
Arguments mkLogged {C}.
Arguments lg_ctx {C}.
Arguments lg_log {C}.

#[export] Instance ctx_logged {C} `{Ctx C} : Ctx (Logged C) := {
  ctx_submit o l :=
    let '(c, r) := ctx_submit o (lg_ctx l) in (mkLogged c (lg_log l ++ [(o, is_ok r)]), r);
  ctx_now_ns l := ctx_now_ns (lg_ctx l)
}.

Section Proofs.
Context {F : Type} `{Features F} {C : Type} `{Ctx C}.

#[local] Abbreviation St := (VmStrategy F).
#[local] Abbreviation Cx := (Logged C).

(** ** What a read, a counter or a submit leaves alone *)

(** All but positions, stamps, oid, features and counters. *)
Definition fixed (v : St) : (RuleTableV2 * RuleTableV2) * bool * bool * list Z * RegimeView :=
  (vm_tables v, vm_active v, vm_staged_valid v, vm_row_gate v, vm_view v).

Definition core (v : St) := (fixed v, vm_positions v, vm_last_fire v).

Lemma core_inv (v v' : St) : core v' = core v ->
  fixed v' = fixed v /\ vm_positions v' = vm_positions v /\ vm_last_fire v' = vm_last_fire v.
Proof. intros E. exact (conj (f_equal (fun x => x.1.1) E) (conj (f_equal (fun x => x.1.2) E) (f_equal snd E))). Qed.

Lemma core_row (v v' : St) i : core v' = core v -> row_at v' i = row_at v i.
Proof. unfold core, fixed, row_at, active_table, table_at. intros [= E1 E2 _ _ _ _ _]. by rewrite E1, E2. Qed.

Lemma core_pos (v v' : St) i : core v' = core v -> pos_at v' i = pos_at v i.
Proof. unfold core, pos_at. intros [= _ _ _ _ _ E _]. by rewrite E. Qed.

Lemma core_gate (v v' : St) : core v' = core v -> vm_row_gate v' = vm_row_gate v.
Proof. unfold core, fixed. by intros [= _ _ _ E _ _ _]. Qed.

Lemma core_last (v v' : St) : core v' = core v -> vm_last_fire v' = vm_last_fire v.
Proof. unfold core. by intros [= _ _ _ _ _ _ E]. Qed.

Lemma bump_core k (v : St) : core (bump k v) = core v.
Proof. done. Qed.

Lemma read_core id sym win now (v : St) : core (read id sym win now v).1 = core v.
Proof. unfold read. by destruct (feat_read id sym win now (vm_feats v)). Qed.

Lemma read_byte_core b sym win now (v : St) : core (read_byte b sym win now v).1 = core v.
Proof. unfold read_byte. destruct (feat_from_u8 b); [apply read_core|done]. Qed.

Lemma mid_core sym now (v : St) : core (mid_1e6 sym now v).1 = core v.
Proof. unfold mid_1e6. pose proof (read_core Mid sym 0 now v). by destruct (read Mid sym 0 now v). Qed.

(** Runs a read and keeps what it left alone. *)
Ltac reads lem :=
  match type of lem with
  | core (fst ?m) = _ => let E := fresh "K" in pose proof lem as E; destruct m as [? [?|]]; cbn [fst] in E
  end.

Lemma signal_core r now (v : St) : core (signal_of r now v).1 = core v.
Proof.
  unfold signal_of. reads (read_byte_core (rr_feat_a r) (rr_sym r) (rr_win_a r) now v); [|done].
  assert (forall op, core (match read_byte (rr_feat_b r) (rr_ref_sym r) (rr_win_b r) now v0 with
    | (v, Some b) => (v, combine_1e9 op z b) | (v, None) => (v, None) end).1 = core v) as X.
  { intros op. reads (read_byte_core (rr_feat_b r) (rr_ref_sym r) (rr_win_b r) now v0); cbn; congruence. }
  destruct (combine_from_u8 (rr_combine r)) as [[]|]; try apply X; done.
Qed.

Lemma confirm_core r now (v : St) : core (confirm_ok r now v).1 = core v.
Proof.
  unfold confirm_ok. destruct (rr_feat_c r =? FEAT_NONE); [done|].
  reads (read_byte_core (rr_feat_c r) (rr_sym r) (rr_win_c r) now v); [|done].
  destruct (has_bit (rr_cmp_bits r) CMP_CONFIRM_PAIR); [|done].
  reads (read_byte_core (rr_feat_c r) (rr_ref_sym r) (rr_win_c r) now v0); [|cbn; congruence].
  destruct (combine_from_u8 (rr_combine r)); [|cbn; congruence]. destruct (combine_1e9 _ _ _); cbn; congruence.
Qed.

(** ** One leg *)

(** The symbol names a venue there is. *)
Definition routable (sym : Z) : bool := negb ((symbol_venue_byte sym <? 0) || (Z.of_nat VENUE_COUNT <=? symbol_venue_byte sym)).

(** What a submit of a leg logs, and whether it was taken: the dispatcher's
    answer to the order, or nothing where the symbol names no venue. *)
Inductive leg_sent (sym : Z) (side : Side) (px qty now : Z) : list (Order * bool) -> bool -> Prop :=
| leg_answered oid b : routable sym = true -> leg_sent sym side px qty now [(vm_order now sym side px qty oid, b)] b
| leg_unroutable : routable sym = false -> leg_sent sym side px qty now [] false.

Lemma submit_spec sym side px qty now (v : St) (c : Cx) :
  let '(v', c', ok) := submit_leg sym side px qty now v c in
  core v' = core v /\ exists seg, lg_log c' = lg_log c ++ seg /\ leg_sent sym side px qty now seg ok.
Proof.
  unfold submit_leg. destruct ((symbol_venue_byte sym <? 0) || (Z.of_nat VENUE_COUNT <=? symbol_venue_byte sym)) eqn:E.
  { split; [done|]. exists []. rewrite app_nil_r. split; [done|]. constructor. unfold routable. by rewrite E. }
  assert (routable sym = true) as Hr by (unfold routable; by rewrite E).
  cbv zeta. cbn [ctx_submit ctx_logged]. set (o := vm_order _ _ _ _ _ _).
  destruct (ctx_submit o (lg_ctx c)) as [c' [u|[]]]; (split; [done|]);
    eexists; (split; [reflexivity|by constructor]).
Qed.

(** A refusal of the dispatcher is counted, and only that. *)
Lemma submit_dropped sym side px qty now (v : St) (c : Cx) :
  let '(v', _, ok) := submit_leg sym side px qty now v c in
  vm_counts v' OrdersDropped = if negb ok && routable sym then wrap_u64 (vm_counts v OrdersDropped + 1) else vm_counts v OrdersDropped.
Proof.
  unfold submit_leg, routable. destruct (_ || _); [done|]. cbv zeta. by destruct (ctx_submit _ c) as [c' [u|[]]].
Qed.

Definition bounded (cap px qty : Z) : Prop :=
  0 < px /\ 0 < qty /\ 1000000 <= px * qty <= Z.min cap POLICY_SINGLE_ORDER_CAP_1E6 * 1000000.

Lemma sized_bounded cap px : 0 < sized_qty_1e6 cap px -> bounded cap px (sized_qty_1e6 cap px).
Proof.
  unfold sized_qty_1e6. set (a := Z.min cap POLICY_SINGLE_ORDER_CAP_1E6). cbv zeta.
  destruct (Z.leb_spec a 0); [done|]. destruct (Z.leb_spec px 0); [done|]. cbn [orb].
  assert (a <= POLICY_SINGLE_ORDER_CAP_1E6) as Ha by (subst a; lia). unfold POLICY_SINGLE_ORDER_CAP_1E6 in Ha.
  assert (Z.quot (a * 1000000) px = a * 1000000 / px) as -> by (apply Z.quot_div_nonneg; lia).
  pose proof (Z.mul_div_le (a * 1000000) px ltac:(lia)). pose proof (Z.div_pos (a * 1000000) px ltac:(lia) ltac:(lia)).
  assert (a * 1000000 / px <= a * 1000000) by (apply Z.div_le_upper_bound; nia).
  rewrite wrap_i64_id by ilia. destruct (Z.ltb_spec (px * (a * 1000000 / px)) 1000000); [done|].
  intros Hq. fold a. split_and!; lia.
Qed.

Lemma sized_nonneg cap px : 0 <= sized_qty_1e6 cap px.
Proof.
  unfold sized_qty_1e6. cbv zeta. destruct (_ || _) eqn:E; [done|]. case_match; [done|]. apply Z.ltb_ge in H1.
  apply orb_false_iff in E as [_ Hp%Z.leb_gt]. nia.
Qed.

(** ** One row's turn *)

(** The ref leg of a two-leg move: sent, or there is none. *)
Definition ref_sent (two : bool) (r : RuleRowV2) (side : Side) (qty now : Z) (seg : list (Order * bool)) : Prop :=
  if two then exists px ok, leg_sent (rr_ref_sym r) side px qty now seg ok else seg = [].

Definition entry_free (r : RuleRowV2) (gate last now : Z) : Prop :=
  has_bit gate ROW_GATE_OPEN = true /\ sat_u64 (last + wrap_u64 (rr_horizon_ms r * 1000000)) <= now.

(** What one turn may do to its row's position and stamp, and what it sends.
    [busy] is the group's verdict at that turn. *)
Inductive turn_law (r : RuleRowV2) (gate last now : Z) (p : VmPosition) (busy : bool) :
  VmPosition -> Z -> list (Order * bool) -> Prop :=
| turn_hold : turn_law r gate last now p busy p last []
| turn_close_refused px seg :
    is_position_row r = true -> vp_entered p = true ->
    leg_sent (rr_sym r) (close_side p) px (vp_qty_sym p) now seg false ->
    turn_law r gate last now p busy p last seg
| turn_close px seg seg' :
    is_position_row r = true -> vp_entered p = true ->
    leg_sent (rr_sym r) (close_side p) px (vp_qty_sym p) now seg true ->
    ref_sent (two_leg_exit p r) r (opposite (close_side p)) (vp_qty_ref p) now seg' ->
    turn_law r gate last now p busy FLAT now (seg ++ seg')
| turn_refire side px qty seg ok :
    is_position_row r = false -> entry_free r gate last now -> bounded (rr_max_risk_1e6 r) px qty ->
    leg_sent (rr_sym r) side px qty now seg ok ->
    turn_law r gate last now p busy p (if ok then now else last) seg
| turn_enter_refused side px qty seg :
    is_position_row r = true -> vp_entered p = false -> entry_free r gate last now -> busy = false ->
    bounded (rr_max_risk_1e6 r) px qty -> leg_sent (rr_sym r) side px qty now seg false ->
    turn_law r gate last now p busy p last seg
| turn_enter side px qty qty_ref px_ref sign seg seg' :
    is_position_row r = true -> vp_entered p = false -> entry_free r gate last now -> busy = false ->
    bounded (rr_max_risk_1e6 r) px qty -> (0 < qty_ref -> bounded (rr_max_risk_1e6 r) px_ref qty_ref) -> 0 <= qty_ref ->
    sign = 1 \/ sign = -1 ->
    leg_sent (rr_sym r) side px qty now seg true ->
    (if negb (rr_ref_sym r =? SYMBOL_ID_NONE) && (0 <? qty_ref)
     then exists ok, leg_sent (rr_ref_sym r) (opposite side) px_ref qty_ref now seg' ok
     else seg' = [] /\ (rr_ref_sym r = SYMBOL_ID_NONE -> qty_ref = 0)) ->
    turn_law r gate last now p busy (mkPos qty qty_ref px now true (side_byte side) sign) now (seg ++ seg').

(** [v'] and [c'] after a turn of row [i]. *)
Definition turned (i : nat) (now : Z) (busy : bool) (v : St) (c : Cx) (v' : St) (c' : Cx) : Prop :=
  exists p s seg,
    fixed v' = fixed v /\ vm_positions v' = <[i := p]> (vm_positions v) /\ vm_last_fire v' = <[i := s]> (vm_last_fire v) /\
    lg_log c' = lg_log c ++ seg /\
    turn_law (row_at v i) (get (vm_row_gate v) i) (get (vm_last_fire v) i) now (pos_at v i) busy p s seg.

(** The turn left the position and the stamp: what it sent decides. *)
Definition row_ok (v : St) (i : nat) : Prop := (i < length (vm_positions v))%nat /\ (i < length (vm_last_fire v))%nat.

Lemma get_insert_id (l : list Z) i : (i < length l)%nat -> <[i := get l i]> l = l.
Proof. intros Hi. apply list_insert_id. by apply get_lookup. Qed.

Lemma turned_still i now busy (v v' : St) (c c' : Cx) seg :
  row_ok v i -> core v' = core v -> lg_log c' = lg_log c ++ seg ->
  turn_law (row_at v i) (get (vm_row_gate v) i) (get (vm_last_fire v) i) now (pos_at v i) busy
    (pos_at v i) (get (vm_last_fire v) i) seg ->
  turned i now busy v c v' c'.
Proof.
  intros [Hp Hl] E El T. exists (pos_at v i), (get (vm_last_fire v) i), seg. destruct (core_inv v v' E) as (Ef & Ep & Es).
  split_and!; [done| |by rewrite get_insert_id|done|done].
  rewrite Ep. symmetry. apply list_insert_id. by apply list_lookup_lookup_total_lt.
Qed.

Lemma turned_hold i now busy (v v' : St) (c : Cx) : row_ok v i -> core v' = core v -> turned i now busy v c v' c.
Proof. intros W E. eapply turned_still; [done|done|by rewrite app_nil_r|constructor]. Qed.

(** Two equal cores have the same turns. *)
Lemma turned_core i now busy (v v1 v' : St) (c c' : Cx) :
  core v1 = core v -> turned i now busy v1 c v' c' -> turned i now busy v c v' c'.
Proof.
  intros E (p & s & seg & Ef & Ep & Es & El & T). exists p, s, seg.
  rewrite (core_row v v1), (core_gate v v1), (core_last v v1), (core_pos v v1) in T by done.
  destruct (core_inv v v1 E) as (E1 & E2 & E3). split_and!; congruence.
Qed.

Lemma row_ok_core (v v1 : St) i : core v1 = core v -> row_ok v i -> row_ok v1 i.
Proof. intros (_ & E1 & E2)%core_inv. unfold row_ok. by rewrite E1, E2. Qed.

Lemma set_pos_stamp i p s (v v1 : St) : core v1 = core v ->
  fixed (stamp i s (set_pos i p v1)) = fixed v /\
  vm_positions (stamp i s (set_pos i p v1)) = <[i := p]> (vm_positions v) /\
  vm_last_fire (stamp i s (set_pos i p v1)) = <[i := s]> (vm_last_fire v).
Proof.
  intros (E1 & E2 & E3)%core_inv. split_and!; [exact E1|cbn; by rewrite E2|cbn; by rewrite E3].
Qed.

Lemma exit_turned i now busy (v : St) (c : Cx) :
  row_ok v i -> is_position_row (row_at v i) = true -> vp_entered (pos_at v i) = true ->
  let '(v', c', ok) := emit_exit i now v c in
  turned i now busy v c v' c' /\ pos_at v' i = (if ok then FLAT else pos_at v i).
Proof.
  intros W Hr Hp. unfold emit_exit. cbv zeta. set (r := row_at v i) in *. set (p := pos_at v i) in *.
  reads (mid_core (rr_sym r) now v).
  2: { split; [by apply turned_hold|by rewrite (core_pos v)]. }
  assert (core (if two_leg_exit p r then mid_1e6 (rr_ref_sym r) now v0 else (v0, Some 0)).1 = core v0) as K1
    by (destruct (two_leg_exit p r); [apply mid_core|done]).
  destruct (if two_leg_exit p r then mid_1e6 (rr_ref_sym r) now v0 else (v0, Some 0)) as [v1 [ref_px|]]; cbn [fst] in K1.
  2: { assert (core (bump ExitBlocked v1) = core v) as K2 by (rewrite bump_core; congruence).
       split; [by apply turned_hold|by rewrite (core_pos v)]. }
  pose proof (submit_spec (rr_sym r) (close_side p) z (vp_qty_sym p) now v1 c) as S.
  destruct (submit_leg (rr_sym r) (close_side p) z (vp_qty_sym p) now v1 c) as [[v2 c2] ok].
  destruct S as (K2 & seg & El & L). destruct ok.
  2: { split; [|apply core_pos; congruence]. eapply turned_still; [done|congruence|exact El|by eapply turn_close_refused]. }
  assert (exists v3 c3 seg', (if two_leg_exit p r
    then let '(v, c, ok) := submit_leg (rr_ref_sym r) (opposite (close_side p)) ref_px (vp_qty_ref p) now v2 c2 in
         ((if (ok : bool) then v else bump LegDrops v), c) else (v2, c2)) = (v3, c3) /\ core v3 = core v /\
    lg_log c3 = lg_log c2 ++ seg' /\ ref_sent (two_leg_exit p r) r (opposite (close_side p)) (vp_qty_ref p) now seg')
    as (v3 & c3 & seg' & -> & K3 & El' & R).
  { unfold ref_sent. destruct (two_leg_exit p r); [|exists v2, c2, []; rewrite app_nil_r; split_and!; [done|congruence|done|done]].
    pose proof (submit_spec (rr_ref_sym r) (opposite (close_side p)) ref_px (vp_qty_ref p) now v2 c2) as S.
    destruct (submit_leg (rr_ref_sym r) (opposite (close_side p)) ref_px (vp_qty_ref p) now v2 c2) as [[v3 c3] ok].
    destruct S as (K3 & seg' & El' & L'). exists (if ok then v3 else bump LegDrops v3), c3, seg'.
    split_and!; [by destruct ok|destruct ok; rewrite ?bump_core; congruence|done|by exists ref_px, ok]. }
  destruct (set_pos_stamp i FLAT now v (bump RoundTrips v3) ltac:(by rewrite bump_core)) as (X1 & X2 & X3).
  split.
  - exists FLAT, now, (seg ++ seg'). split_and!; [exact X1|exact X2|exact X3|by rewrite El', El, app_assoc|].
    by eapply turn_close.
  - unfold pos_at. change (vm_positions (stamp i now (bump RoundTrips (set_pos i FLAT v3)))) with
      (vm_positions (stamp i now (set_pos i FLAT (bump RoundTrips v3)))). rewrite X2.
    apply list_lookup_total_insert_eq. apply W.
Qed.

Lemma exit_path_turned i now busy (v : St) (c : Cx) :
  row_ok v i -> is_position_row (row_at v i) = true -> vp_entered (pos_at v i) = true ->
  let '(v', c') := exit_path i now v c in turned i now busy v c v' c'.
Proof.
  intros W Hr Hp. unfold exit_path. cbv zeta.
  assert (forall v1 : St, core v1 = core v -> let '(v', c') := (emit_exit i now v1 c).1 in turned i now busy v c v' c') as X.
  { intros v1 E. pose proof (exit_turned i now busy v1 c (row_ok_core v v1 i E W)) as T.
    rewrite (core_row v v1), (core_pos v v1) in T by done. specialize (T Hr Hp).
    destruct (emit_exit i now v1 c) as [[v' c'] ok]. cbn. apply (turned_core i now busy v v1); [done|apply T]. }
  case_ifs; [by apply X| |by apply turned_hold|].
  - pose proof (X v eq_refl) as T. destruct (emit_exit i now v c) as [[v' c'] []]; [|exact T].
    destruct T as (q & s & seg & T). exists q, s, seg. exact T.
  - reads (signal_core (row_at v i) now v); [|by apply turned_hold].
    case_ifs; [|by apply turned_hold]. by apply X.
Qed.

Lemma refire_turned i side now busy (v : St) (c : Cx) :
  row_ok v i -> is_position_row (row_at v i) = false ->
  entry_free (row_at v i) (get (vm_row_gate v) i) (get (vm_last_fire v) i) now ->
  let '(v', c') := refire i side now v c in turned i now busy v c v' c'.
Proof.
  intros W Hr Hf. unfold refire. cbv zeta. set (r := row_at v i) in *.
  reads (mid_core (rr_sym r) now v); [|by apply turned_hold].
  destruct (Z.ltb_spec 0 (sized_qty_1e6 (rr_max_risk_1e6 r) z)) as [Hq|]; [|by apply turned_hold].
  pose proof (submit_spec (rr_sym r) side z (sized_qty_1e6 (rr_max_risk_1e6 r) z) now v0 c) as S.
  destruct (submit_leg (rr_sym r) side z (sized_qty_1e6 (rr_max_risk_1e6 r) z) now v0 c) as [[v1 c1] ok].
  destruct S as (K1 & seg & El & L). assert (core v1 = core v) as K2 by congruence.
  pose proof (turn_refire r (get (vm_row_gate v) i) (get (vm_last_fire v) i) now (pos_at v i) busy side z _ seg ok Hr Hf
    (sized_bounded _ _ Hq) L) as T.
  destruct ok; [|by eapply turned_still].
  destruct (core_inv v v1 K2) as (E1 & E2 & E3). exists (pos_at v i), now, seg.
  split_and!; [exact E1| |cbn; by rewrite E3|exact El|exact T].
  cbn. rewrite E2. symmetry. apply list_insert_id. apply list_lookup_lookup_total_lt. apply W.
Qed.

Lemma sugar_turned i now busy (v : St) (c : Cx) :
  row_ok v i -> is_position_row (row_at v i) = false ->
  entry_free (row_at v i) (get (vm_row_gate v) i) (get (vm_last_fire v) i) now ->
  let '(v', c') := sugar_path i now v c in turned i now busy v c v' c'.
Proof.
  intros W Hr Hf. unfold sugar_path. cbv zeta. set (r := row_at v i) in *.
  pose proof (read_core BestAsk (rr_sym r) 0 now v) as K1. destruct (read BestAsk (rr_sym r) 0 now v) as [v1 ask]. cbn [fst] in K1.
  pose proof (read_core BestBid (rr_sym r) 0 now v1) as K2. destruct (read BestBid (rr_sym r) 0 now v1) as [v2 bid]. cbn [fst] in K2.
  assert (forall side, let '(v', c') := refire i side now (bump Fires v2) c in turned i now busy v c v' c') as X.
  { intros side. assert (core (bump Fires v2) = core v) as K3 by (rewrite bump_core; congruence).
    pose proof (refire_turned i side now busy (bump Fires v2) c (row_ok_core v _ i K3 W)) as T.
    rewrite (core_row v), (core_gate v), (core_last v) in T by done. specialize (T Hr Hf).
    destruct (refire i side now (bump Fires v2) c) as [v' c']. by apply (turned_core i now busy v (bump Fires v2)). }
  destruct (match ask with Some a => a <=? rr_enter_1e9 r | None => false end); [by apply X|].
  destruct (match bid with Some b => rr_enter_1e9 r <=? b | None => false end); [by apply X|].
  apply turned_hold; [done|congruence].
Qed.

Lemma group_core group i len (v v1 : St) : core v1 = core v -> group_occupied group i len v1 = group_occupied group i len v.
Proof.
  intros E. unfold group_occupied. destruct (group =? GROUP_NONE); [done|]. induction (seq 0 len) as [|j l IH]; [done|].
  cbn [existsb]. by rewrite IH, (core_pos v v1), (core_row v v1).
Qed.

Lemma enter_turned i len side signal now (v : St) (c : Cx) :
  row_ok v i -> is_position_row (row_at v i) = true -> vp_entered (pos_at v i) = false ->
  entry_free (row_at v i) (get (vm_row_gate v) i) (get (vm_last_fire v) i) now ->
  let '(v', c') := enter_position i len side signal now v c in
  turned i now (group_occupied (rr_group (row_at v i)) i len v) v c v' c'.
Proof.
  intros W Hr Hp Hf. unfold enter_position. cbv zeta. set (r := row_at v i) in *.
  destruct (group_occupied (rr_group r) i len v); [by apply turned_hold|].
  reads (mid_core (rr_sym r) now v); [|by apply turned_hold].
  set (two := negb (rr_ref_sym r =? SYMBOL_ID_NONE)).
  assert (core (if two then mid_1e6 (rr_ref_sym r) now v0 else (v0, Some 0)).1 = core v0) as K1
    by (destruct two; [apply mid_core|done]).
  destruct (if two then mid_1e6 (rr_ref_sym r) now v0 else (v0, Some 0)) as [v1 [ref_px|]]; cbn [fst] in K1.
  2: { apply turned_hold; [done|]. rewrite bump_core. congruence. }
  destruct (Z.leb_spec (sized_qty_1e6 (rr_max_risk_1e6 r) z) 0) as [|Hq]; [apply turned_hold; [done|congruence]|].
  pose proof (sized_bounded _ _ Hq) as B. set (qty := sized_qty_1e6 (rr_max_risk_1e6 r) z) in *.
  pose proof (submit_spec (rr_sym r) side z qty now v1 c) as S.
  destruct (submit_leg (rr_sym r) side z qty now v1 c) as [[v2 c2] ok]. destruct S as (K2 & seg & El & L). destruct ok.
  2: { eapply turned_still; [done|congruence|exact El|by eapply turn_enter_refused]. }
  set (qty_ref := if two then sized_qty_1e6 (rr_max_risk_1e6 r) ref_px else 0).
  assert (exists v3 c3 seg', (if two && (0 <? qty_ref)
    then let '(v, c, ok) := submit_leg (rr_ref_sym r) (opposite side) ref_px qty_ref now v2 c2 in
         ((if (ok : bool) then v else bump LegDrops v), c) else (v2, c2)) = (v3, c3) /\ core v3 = core v /\
    lg_log c3 = lg_log c2 ++ seg' /\
    (if two && (0 <? qty_ref)
     then exists ok, leg_sent (rr_ref_sym r) (opposite side) ref_px qty_ref now seg' ok
     else seg' = [] /\ (rr_ref_sym r = SYMBOL_ID_NONE -> qty_ref = 0)))
    as (v3 & c3 & seg' & -> & K3 & El' & R).
  { destruct (two && (0 <? qty_ref)) eqn:E2.
    - pose proof (submit_spec (rr_ref_sym r) (opposite side) ref_px qty_ref now v2 c2) as S.
      destruct (submit_leg (rr_ref_sym r) (opposite side) ref_px qty_ref now v2 c2) as [[v3 c3] ok].
      destruct S as (K3 & seg' & El' & L'). exists (if ok then v3 else bump LegDrops v3), c3, seg'.
      split_and!; [by destruct ok|destruct ok; rewrite ?bump_core; congruence|done|by exists ok].
    - exists v2, c2, []. rewrite app_nil_r. split_and!; [done|congruence|done|done|].
      intros E. subst qty_ref two. by rewrite E. }
  destruct (set_pos_stamp i (mkPos qty qty_ref z now true (side_byte side) (if 0 <=? signal then 1 else -1)) now v
    (bump Entries v3) ltac:(by rewrite bump_core)) as (X1 & X2 & X3).
  eexists _, now, (seg ++ seg'). split_and!; [exact X1|exact X2|exact X3|by rewrite El', El, app_assoc|].
  eapply turn_enter; try done.
  - subst qty_ref. destruct two; [apply sized_bounded|lia].
  - subst qty_ref. destruct two; [|lia]. apply sized_nonneg.
  - destruct (0 <=? signal); auto.
Qed.

Lemma entry_path_turned i len now (v : St) (c : Cx) :
  row_ok v i -> is_position_row (row_at v i) && vp_entered (pos_at v i) = false ->
  let '(v', c') := entry_path i len now v c in
  turned i now (group_occupied (rr_group (row_at v i)) i len v) v c v' c'.
Proof.
  intros W Hn. unfold entry_path. cbv zeta. set (r := row_at v i) in *.
  destruct (has_bit (get (vm_row_gate v) i) ROW_GATE_OPEN) eqn:Hg; cbn [negb]; [|by apply turned_hold].
  destruct (Z.ltb_spec now (sat_u64 (get (vm_last_fire v) i + wrap_u64 (rr_horizon_ms r * 1000000)))) as [|Hc]; [by apply turned_hold|].
  assert (entry_free r (get (vm_row_gate v) i) (get (vm_last_fire v) i) now) as Hf by done.
  destruct (is_lhs_only r && (rr_side r =? SIDE_BOTH) && negb (is_position_row r)) eqn:Es.
  { apply andb_true_iff in Es as [_ Es]. apply negb_true_iff in Es. by apply sugar_turned. }
  reads (signal_core r now v); [|by apply turned_hold].
  destruct (entry_fires r z); cbn [negb]; [|by apply turned_hold].
  destruct (entry_side r z) as [side|]; [|by apply turned_hold].
  pose proof (confirm_core r now v0) as K1. destruct (confirm_ok r now v0) as [v1 []]; cbn [fst] in K1;
    [|apply turned_hold; [done|congruence]].
  assert (core (bump Fires v1) = core v) as K2 by (rewrite bump_core; congruence).
  destruct (is_position_row r) eqn:Hr.
  - pose proof (enter_turned i len side z now (bump Fires v1) c (row_ok_core v _ i K2 W)) as T.
    rewrite (core_row v), (core_pos v), (core_gate v), (core_last v), (group_core _ _ _ v) in T by done.
    specialize (T Hr Hn Hf). destruct (enter_position i len side z now (bump Fires v1) c) as [v' c'].
    by apply (turned_core _ _ _ v (bump Fires v1)).
  - pose proof (refire_turned i side now (group_occupied (rr_group r) i len v) (bump Fires v1) c (row_ok_core v _ i K2 W)) as T.
    rewrite (core_row v), (core_gate v), (core_last v) in T by done.
    specialize (T Hr Hf). destruct (refire i side now (bump Fires v1) c) as [v' c'].
    by apply (turned_core _ _ _ v (bump Fires v1)).
Qed.

Definition touched (r : RuleRowV2) (t_sym : Z) : bool := (rr_sym r =? t_sym) || (rr_ref_sym r =? t_sym).

Lemma row_turn_turned i len t_sym now (v : St) (c : Cx) :
  row_ok v i ->
  let '(v', c') := row_turn len t_sym now i (v, c) in
  turned i now (group_occupied (rr_group (row_at v i)) i len v) v c v' c'
  /\ (touched (row_at v i) t_sym = false -> v' = v /\ c' = c).
Proof.
  intros W. unfold row_turn, touched.
  destruct ((rr_sym (row_at v i) =? t_sym)) eqn:E1, ((rr_ref_sym (row_at v i) =? t_sym)) eqn:E2; cbn [negb andb orb].
  4: { split; [by apply turned_hold|done]. }
  all: assert (core (bump Evals v) = core v) as K by done; pose proof (row_ok_core v _ i K W) as W';
    rewrite (core_pos v (bump Evals v)) by done;
    destruct (is_position_row (row_at v i) && vp_entered (pos_at v i)) eqn:Ep.
  all: match goal with
    | |- context [exit_path _ _ _ _] =>
        apply andb_true_iff in Ep as [Hr Hp];
        pose proof (exit_path_turned i now (group_occupied (rr_group (row_at v i)) i len v) (bump Evals v) c W' Hr Hp) as T;
        destruct (exit_path i now (bump Evals v) c) as [v' c']
    | _ => pose proof (entry_path_turned i len now (bump Evals v) c W' Ep) as T;
        destruct (entry_path i len now (bump Evals v) c) as [v' c']
    end; split; [by apply (turned_core _ _ _ v (bump Evals v))|done].
Qed.

(** ** A tick is one turn per row *)

(** The table fits the arrays. *)
Record sized (v : St) : Prop := {
  sz_pos : length (vm_positions v) = RULE_TABLE_ROWS;
  sz_last : length (vm_last_fire v) = RULE_TABLE_ROWS;
  sz_gate : length (vm_row_gate v) = RULE_TABLE_ROWS;
  sz_rows : forall b, length (rt_rows (table_at b v)) = RULE_TABLE_ROWS;
  sz_len : forall b, 0 <= rt_len (table_at b v) <= Z.of_nat RULE_TABLE_ROWS
}.

(** Whether row [i]'s group holds at its turn: earlier rows have had theirs. *)
Definition group_busy (v v' : St) (len i : nat) : bool :=
  if rr_group (row_at v i) =? GROUP_NONE then false
  else existsb (fun j => negb (j =? i)%nat && vp_entered (if (j <? i)%nat then pos_at v' j else pos_at v j)
                         && (rr_group (row_at v j) =? rr_group (row_at v i))) (seq 0 len).

Definition ticked (len n : nat) (now t_sym : Z) (v : St) (c : Cx) (v' : St) (c' : Cx) : Prop :=
  exists segs,
    fixed v' = fixed v /\ length (vm_positions v') = length (vm_positions v) /\ length (vm_last_fire v') = length (vm_last_fire v) /\
    length segs = n /\ lg_log c' = lg_log c ++ concat segs /\
    (forall i, (n <= i)%nat -> pos_at v' i = pos_at v i /\ get (vm_last_fire v') i = get (vm_last_fire v) i) /\
    forall i, (i < n)%nat ->
      turn_law (row_at v i) (get (vm_row_gate v) i) (get (vm_last_fire v) i) now (pos_at v i) (group_busy v v' len i)
        (pos_at v' i) (get (vm_last_fire v') i) (segs !!! i)
      /\ (touched (row_at v i) t_sym = false -> segs !!! i = [] /\ pos_at v' i = pos_at v i).

Lemma fixed_row (v v' : St) i : fixed v' = fixed v -> row_at v' i = row_at v i.
Proof. unfold fixed, row_at, active_table, table_at. intros [= E1 E2 _ _ _]. by rewrite E1, E2. Qed.

Lemma fixed_gate (v v' : St) : fixed v' = fixed v -> vm_row_gate v' = vm_row_gate v.
Proof. unfold fixed. by intros [= _ _ _ E _]. Qed.

Lemma existsb_ext_in {A} (f g : A -> bool) (l : list A) : (forall x, x ∈ l -> f x = g x) -> existsb f l = existsb g l.
Proof.
  induction l as [|x l IH]; intros E; [done|]. cbn. rewrite E by by left. rewrite IH; [done|]. intros y Hy. apply E. by right.
Qed.

Lemma group_busy_at (v vi v' : St) len i :
  (forall j, row_at vi j = row_at v j) ->
  (forall j, j <> i -> pos_at vi j = if (j <? i)%nat then pos_at v' j else pos_at v j) ->
  group_occupied (rr_group (row_at v i)) i len vi = group_busy v v' len i.
Proof.
  intros Er Ep. unfold group_occupied, group_busy. case_match; [done|]. apply existsb_ext_in. intros j _.
  rewrite Er. destruct (Nat.eqb_spec j i); [done|]. by rewrite Ep.
Qed.

Lemma turns_tick len now t_sym (v : St) (c : Cx) n :
  (n <= length (vm_positions v))%nat -> (n <= length (vm_last_fire v))%nat ->
  let '(v', c') := foldl (fun vc i => row_turn len t_sym now i vc) (v, c) (seq 0 n) in
  ticked len n now t_sym v c v' c'.
Proof.
  intros Lp Ll. induction n as [|n IH].
  - exists []. rewrite app_nil_r. split_and!; try done. intros i Hi. lia.
  - rewrite seq_S, foldl_app. cbn [foldl Nat.add].
    destruct (foldl (fun vc i => row_turn len t_sym now i vc) (v, c) (seq 0 n)) as [v1 c1].
    destruct (IH ltac:(lia) ltac:(lia)) as (segs & Ef & El1 & El2 & En & Elog & Rest & Law).
    assert (row_ok v1 n) as W by (split; lia).
    pose proof (row_turn_turned n len t_sym now v1 c1 W) as T.
    destruct (row_turn len t_sym now n (v1, c1)) as [v' c']. destruct T as [(p & s & seg & Tf & Tp & Ts & Tl & T) Still].
    assert (forall j, pos_at v' j = if decide (j = n) then p else pos_at v1 j) as Ep.
    { intros j. unfold pos_at. rewrite Tp. case_decide; [subst; apply list_lookup_total_insert_eq, W|].
      by rewrite list_lookup_total_insert_ne. }
    assert (forall j, get (vm_last_fire v') j = if decide (j = n) then s else get (vm_last_fire v1) j) as Es.
    { intros j. rewrite Ts. case_decide; [subst; apply get_insert_eq, W|]. by rewrite get_insert_ne. }
    destruct (Rest n ltac:(lia)) as [Rp Rl].
    rewrite (fixed_row v v1), (fixed_gate v v1), Rp, Rl in T by done.
    rewrite (group_busy_at v v1 v' len n) in T.
    2: { intros j. by apply fixed_row. }
    2: { intros j Hj. rewrite Ep, decide_False by done. destruct (Nat.ltb_spec j n); [done|]. by apply Rest. }
    exists (segs ++ [seg]). split_and!.
    + congruence.
    + rewrite Tp, length_insert. done.
    + rewrite Ts, length_insert. done.
    + rewrite length_app, En. cbn. lia.
    + rewrite Tl, Elog, concat_app, <- app_assoc. cbn. by rewrite app_nil_r.
    + intros i Hi. rewrite Ep, Es, !decide_False by lia. apply Rest. lia.
    + intros i Hi. rewrite Ep, Es. case_decide as Ei.
      * subst i. rewrite list_lookup_total_middle by done. split; [done|]. intros Ht.
        rewrite <- (fixed_row v v1) in Ht by done. destruct (Still Ht) as [-> ->]. split.
        -- apply (f_equal length) in Tl. rewrite length_app in Tl. by destruct seg; [|cbn in Tl; lia].
        -- rewrite <- Rp. specialize (Ep n). by rewrite decide_True in Ep.
      * rewrite lookup_total_app_l by lia. destruct (Law i ltac:(lia)) as [L Lt]. split; [|done].
        replace (group_busy v v' len i) with (group_busy v v1 len i); [done|]. unfold group_busy. case_match; [done|].
        apply existsb_ext_in. intros j _. destruct (Nat.ltb_spec j i); [|done]. by rewrite Ep, decide_False by lia.
Qed.

Lemma tick_law (t : Tick) (v : St) (c : Cx) :
  sized v ->
  let '(v', c') := vm_on_tick t v c in
  let len := Z.to_nat (rows_active v) in
  ticked len len (ctx_now_ns c) (tk_sym t) v c v' c' /\ sized v'.
Proof.
  intros W. unfold vm_on_tick. cbv zeta. set (v1 := set_feats _ v).
  assert (core v1 = core v) as E1 by done. destruct (core_inv v v1 E1) as (F1 & P1 & L1).
  assert ((Z.to_nat (rows_active v) <= RULE_TABLE_ROWS)%nat) as Hl.
  { pose proof (sz_len v W (vm_active v)) as X. unfold rows_active, active_table in *. lia. }
  pose proof (turns_tick (Z.to_nat (rows_active v)) (ctx_now_ns c) (tk_sym t) v1 c (Z.to_nat (rows_active v1))) as T.
  rewrite P1, L1, (sz_pos v W), (sz_last v W) in T. specialize (T Hl Hl).
  change (rows_active v1) with (rows_active v) in *.
  destruct (foldl _ _ _) as [v' c']. destruct T as (segs & Ef & El1 & El2 & T). rewrite F1 in Ef. split.
  - exists segs. exact (conj Ef (conj El1 (conj El2 T))).
  - destruct W as [W1 W2 W3 W4 W5]. unfold fixed in Ef. injection Ef as G1 G2 G3 G4 G5.
    split; [rewrite El1; exact W1|rewrite El2; exact W2|by rewrite G4|unfold table_at; by rewrite G1|unfold table_at; by rewrite G1].
Qed.
End Proofs.

(** On every tick, whatever the features read and the dispatcher
    answers, each row of the active table makes one lawful move and nothing
    else is sent: it holds; it closes its position, sending the opposite
    side of exactly what it holds; it refires an order inside its caps, its
    gate open and its horizon over; or it enters, gate open, cooled and its
    group empty, recording exactly the sized orders it sent. A row whose
    legs do not tick does nothing, and tables, gates and flips are
    untouched. *)
Theorem every_tick_moves_each_row_lawfully {F : Type} `{Features F} {C : Type} `{Ctx C}
  (t : Tick) (v : VmStrategy F) (c : Logged C) :
  sized v ->
  let '(v', c') := vm_on_tick t v c in
  let len := Z.to_nat (rows_active v) in
  ticked len len (ctx_now_ns c) (tk_sym t) v c v' c' /\ sized v'.
Proof. apply tick_law. Qed.
