(* ===== verification/VmLaws.v ===== *)
(** * The ruleset VM's book over any history

    The reachable states under any run of callbacks, and the lawful book of
    positions each of them keeps. *)

From S2P Require Import Prelude CoreTypes Regime RuleTable Ladder Router Vm VmProofs.

(** The callbacks; between two of them the context moves on by itself. *)
Inductive VmOp (C : Type) : Type :=
| OpTick (t : Tick) | OpEvent (e : ChannelEvent) | OpDepth (d : DepthTopK) | OpOpt (o : OptSummary)
| OpAi (cmd : AiCmd) | OpReceive (t : RuleTableV2) | OpView (view : RegimeView) | OpWait (ctx : C).
Arguments OpTick {C}.
Arguments OpEvent {C}.
Arguments OpDepth {C}.
Arguments OpOpt {C}.
Arguments OpAi {C}.
Arguments OpReceive {C}.
Arguments OpView {C}.
Arguments OpWait {C}.

Section Laws.
Context {F : Type} `{Features F} {C : Type} `{Ctx C}.

#[local] Abbreviation St := (VmStrategy F).
#[local] Abbreviation Cx := (Logged C).

Definition vm_step (op : VmOp C) (vc : St * Cx) : St * Cx :=
  let '(v, c) := vc in
  match op with
  | OpTick t => vm_on_tick t v c
  | OpEvent e => (vm_on_venue_event e v c, c)
  | OpDepth d => (vm_on_depth d v c, c)
  | OpOpt o => (vm_on_opt_summary o v c, c)
  | OpAi cmd => (vm_on_ai cmd v c, c)
  | OpReceive t => (receive_table_v2 t v, c)
  | OpView view => (set_regime_view view v, c)
  | OpWait ctx => (v, mkLogged ctx (lg_log c))
  end.

(** A command past the shape gate; a table whose array is whole. *)
Definition op_ok (op : VmOp C) : Prop :=
  match op with
  | OpAi cmd => ac_kind cmd = AI_KIND_POSITION_SEED -> seed_shape_ok cmd = true
  | OpReceive t => length (rt_rows t) = RULE_TABLE_ROWS /\ 0 <= rt_len t
  | _ => True
  end.

Inductive vm_reachable (f0 : F) (c0 : Cx) : St -> Cx -> Prop :=
| vm_boot : vm_reachable f0 c0 (Vm_new f0) c0
| vm_next v c op : vm_reachable f0 c0 v c -> op_ok op ->
    vm_reachable f0 c0 (vm_step op (v, c)).1 (vm_step op (v, c)).2.

(** ** The book *)

Definition pos_ok (p : VmPosition) : Prop :=
  0 < vp_qty_sym p /\ 0 <= vp_qty_ref p /\ 0 < vp_entry_px p
  /\ (vp_side p = side_byte Bid \/ vp_side p = side_byte Ask) /\ (vp_entry_sign p = 1 \/ vp_entry_sign p = -1).

Record book_ok (v : St) : Prop := {
  bk_sized : sized v;
  bk_held : forall i, vp_entered (pos_at v i) = true ->
    Z.of_nat i < rows_active v /\ is_position_row (row_at v i) = true /\ pos_ok (pos_at v i);
  bk_group : forall i j, vp_entered (pos_at v i) = true -> vp_entered (pos_at v j) = true ->
    rr_group (row_at v i) = rr_group (row_at v j) -> rr_group (row_at v i) <> GROUP_NONE -> i = j;
  bk_gate : forall i, Z.of_nat i < rows_active v -> get (vm_row_gate v) i = judge_row (vm_view v) (row_at v i)
}.

Lemma sized_fixed (v v' : St) :
  fixed v' = fixed v -> length (vm_positions v') = length (vm_positions v) ->
  length (vm_last_fire v') = length (vm_last_fire v) -> sized v -> sized v'.
Proof.
  unfold fixed. intros [= E1 E2 E3 E4 E5] L1 L2 [W1 W2 W3 W4 W5].
  split; [by rewrite L1|by rewrite L2|by rewrite E4|unfold table_at; by rewrite E1|unfold table_at; by rewrite E1].
Qed.

Lemma fixed_rows_active (v v' : St) : fixed v' = fixed v -> rows_active v' = rows_active v.
Proof. unfold fixed, rows_active, active_table, table_at. intros [= E1 E2 _ _ _]. by rewrite E1, E2. Qed.

(** Same positions under the same tables. *)
Lemma book_core (v v' : St) : core v' = core v -> book_ok v -> book_ok v'.
Proof.
  intros E [W Hh Hg Gt]. destruct (core_inv v v' E) as (Ef & Ep & Es). pose proof (fixed_rows_active v v' Ef) as Er.
  split.
  - apply (sized_fixed v); congruence.
  - intros i. rewrite (core_pos v v'), (core_row v v'), Er by done. apply Hh.
  - intros i j. rewrite !(core_pos v v'), !(core_row v v') by done. apply Hg.
  - intros i. rewrite Er, (core_gate v v'), (core_row v v') by done.
    assert (vm_view v' = vm_view v) as -> by (unfold fixed in Ef; by injection Ef). apply Gt.
Qed.

(** An empty book is lawful under any judged table. *)
Lemma book_flat (v : St) :
  sized v -> (forall i, pos_at v i = FLAT) ->
  (forall i, Z.of_nat i < rows_active v -> get (vm_row_gate v) i = judge_row (vm_view v) (row_at v i)) -> book_ok v.
Proof. intros W Ef G. split; [done| | |done]; intros i; rewrite !Ef; done. Qed.

Lemma busy_free (v v' : St) len i j :
  group_busy v v' len i = false -> (j < len)%nat -> j <> i -> rr_group (row_at v i) <> GROUP_NONE ->
  rr_group (row_at v j) = rr_group (row_at v i) -> vp_entered (if (j <? i)%nat then pos_at v' j else pos_at v j) = false.
Proof.
  unfold group_busy. intros B Hj Hne Hg E. rewrite (proj2 (Z.eqb_neq _ _)) in B by done.
  apply not_true_iff_false. intros X. apply not_true_iff_false in B. apply B. apply existsb_exists. exists j.
  split; [apply in_seq; lia|]. rewrite X, (proj2 (Nat.eqb_neq j i)), (proj2 (Z.eqb_eq _ _)) by done. done.
Qed.

(** A move that leaves a position held either kept it or entered it. *)
Lemma law_entered r gate last now p busy p' s seg :
  turn_law r gate last now p busy p' s seg -> vp_entered p' = true ->
  p' = p \/ (vp_entered p = false /\ busy = false /\ is_position_row r = true /\ pos_ok p').
Proof.
  intros T E. destruct T as [| | |side px qty seg ok Hr Hf B L| |side px qty qty_ref px_ref sign seg seg' Hr Hp Hf Hb B Br Hq Hs L R];
    auto; [done|]. right. split_and!; try done. destruct B as (B1 & B2 & _). unfold pos_ok. cbn.
  split_and!; try done. destruct side; auto.
Qed.

Lemma book_tick t (v : St) (c : Cx) : book_ok v -> book_ok (vm_on_tick t v c).1.
Proof.
  intros [W Hh Hg Gt]. pose proof (tick_law t v c W) as T. destruct (vm_on_tick t v c) as [v' c']. cbn [fst].
  destruct T as [(segs & Ef & L1 & L2 & En & El & Rest & Law) W'].
  pose proof (fixed_rows_active v v' Ef) as Er. set (len := Z.to_nat (rows_active v)) in *.
  assert (forall i, vp_entered (pos_at v' i) = true -> (pos_at v' i = pos_at v i /\ vp_entered (pos_at v i) = true) \/
    ((i < len)%nat /\ vp_entered (pos_at v i) = false /\ group_busy v v' len i = false /\ is_position_row (row_at v i) = true
     /\ pos_ok (pos_at v' i))) as Cases.
  { intros i Hi. destruct (decide (i < len)%nat) as [Hl|Hl].
    - destruct (law_entered _ _ _ _ _ _ _ _ _ (proj1 (Law i Hl)) Hi) as [E|(?&?&?&?)]; [left; split; congruence|by right].
    - left. destruct (Rest i ltac:(lia)) as [E _]. split; congruence. }
  split; [done| | |].
  - intros i Hi. rewrite Er, (fixed_row v v') by done. destruct (Cases i Hi) as [[E X]|(Hl & _ & _ & Hr & Hp)].
    + rewrite E. by apply Hh.
    + split_and!; [unfold len in Hl; lia|done|done].
  - intros i j Hi Hj. rewrite !(fixed_row v v') by done. intros Eg Hn.
    assert (forall a b, (a < b)%nat -> vp_entered (pos_at v' a) = true -> vp_entered (pos_at v' b) = true ->
      rr_group (row_at v a) = rr_group (row_at v b) -> rr_group (row_at v a) <> GROUP_NONE -> False) as X.
    { intros a b Hab Ha Hb Ex Hx. destruct (Cases a Ha) as [[Ea Xa]|(La & _ & Ba & _)].
      - destruct (Cases b Hb) as [[Eb Xb]|(Lb & _ & Bb & _)]; [by specialize (Hg a b Xa Xb Ex Hx); lia|].
        apply (busy_free v v' len b a) in Bb; [|lia|lia|congruence|done]. rewrite (proj2 (Nat.ltb_lt a b)) in Bb by done. congruence.
      - destruct (Cases b Hb) as [[Eb Xb]|(Lb & _ & Bb & _)].
        + assert (b < len)%nat by (destruct (Hh b Xb) as [? _]; unfold len; lia).
          apply (busy_free v v' len a b) in Ba; [|lia|lia|done|done]. rewrite (proj2 (Nat.ltb_ge b a)) in Ba by lia. congruence.
        + apply (busy_free v v' len b a) in Bb; [|lia|lia|congruence|done]. rewrite (proj2 (Nat.ltb_lt a b)) in Bb by done. congruence. }
    destruct (Nat.lt_trichotomy i j) as [?|[?|?]]; [exfalso|done|exfalso]; [by apply (X i j)|].
    apply (X j i); congruence.
  - intros i. rewrite Er, (fixed_gate v v'), (fixed_row v v') by done.
    assert (vm_view v' = vm_view v) as -> by (unfold fixed in Ef; by injection Ef). apply Gt.
Qed.

(** ** Views, tables and seeds *)

Lemma judge_rows_spec (v : St) :
  sized v ->
  let v' := judge_rows v in
  sized v' /\ vm_tables v' = vm_tables v /\ vm_active v' = vm_active v /\ vm_staged_valid v' = vm_staged_valid v
  /\ vm_positions v' = vm_positions v /\ vm_last_fire v' = vm_last_fire v /\ vm_view v' = vm_view v
  /\ forall i, Z.of_nat i < rows_active v' -> get (vm_row_gate v') i = judge_row (vm_view v') (row_at v' i).
Proof.
  intros [W1 W2 W3 W4 W5]. cbv zeta.
  pose proof (W4 (vm_active v)) as Lr. pose proof (W5 (vm_active v)) as Ll. fold (active_table v) in Lr, Ll.
  assert (Nat.min (Z.to_nat (rows_active v)) RULE_TABLE_ROWS = Z.to_nat (rows_active v)) as En by (unfold rows_active; lia).
  split_and!; try done.
  - split; [done|done| |done|done]. cbn [judge_rows set_gates vm_row_gate]. cbv zeta. rewrite En.
    rewrite length_app, length_fmap, length_take, length_drop, W3, Lr. unfold rows_active. lia.
  - intros i Hi. change (rows_active (judge_rows v)) with (rows_active v) in Hi.
    change (row_at (judge_rows v) i) with (row_at v i). cbn [judge_rows set_gates vm_row_gate vm_view]. cbv zeta. rewrite En.
    unfold get. rewrite lookup_app_l by (rewrite length_fmap, length_take, Lr; unfold rows_active in *; lia).
    rewrite list_lookup_fmap, lookup_take_lt by lia.
    rewrite (list_lookup_lookup_total_lt (rt_rows (active_table v)) i) by (rewrite Lr; unfold rows_active in *; lia). done.
Qed.

Lemma book_view view (v : St) : book_ok v -> book_ok (set_regime_view view v).
Proof.
  intros [W Hh Hg Gt]. unfold set_regime_view. set (v1 := set_gates (vm_row_gate v) view v).
  assert (sized v1) as W1 by (destruct W; by split).
  destruct (judge_rows_spec v1 W1) as (W' & E1 & E2 & E3 & E4 & E5 & E6 & G).
  assert (forall i, row_at (judge_rows v1) i = row_at v i) as Er by (intros i; unfold row_at, active_table, table_at; by rewrite E1, E2).
  assert (forall i, pos_at (judge_rows v1) i = pos_at v i) as Ep by (intros i; unfold pos_at; by rewrite E4).
  assert (rows_active (judge_rows v1) = rows_active v) as Ea by (unfold rows_active, active_table, table_at; by rewrite E1, E2).
  split; [done| | |done].
  - intros i. rewrite Er, Ep, Ea. apply Hh.
  - intros i j. rewrite !Er, !Ep. apply Hg.
Qed.

Lemma book_receive t (v : St) :
  length (rt_rows t) = RULE_TABLE_ROWS -> 0 <= rt_len t -> book_ok v -> book_ok (receive_table_v2 t v).
Proof.
  intros Ht Hl [W Hh Hg Gt]. unfold receive_table_v2. set (t' := if _ <? _ then _ else t).
  assert (length (rt_rows t') = RULE_TABLE_ROWS /\ 0 <= rt_len t' <= Z.of_nat RULE_TABLE_ROWS) as [Ht' Hl'].
  { subst t'. destruct (Z.ltb_spec (Z.of_nat RULE_TABLE_ROWS) (rt_len t)); cbn [rt_rows rt_len]; split; done || lia. }
  assert (active_table (set_flip (vm_active v) true (set_table (negb (vm_active v)) t' v)) = active_table v) as Ea
    by (unfold active_table, table_at; cbn; by destruct (vm_active v)).
  split.
  - destruct W as [W1 W2 W3 W4 W5]. split; try done; intros b; unfold table_at in *; cbn;
      specialize (W4 b); specialize (W5 b); destruct b, (vm_active v); done.
  - unfold row_at, pos_at, rows_active. rewrite Ea. apply Hh.
  - unfold row_at, pos_at. rewrite Ea. apply Hg.
  - unfold row_at, rows_active. rewrite Ea. apply Gt.
Qed.

Lemma flipped_spec (v : St) :
  sized v ->
  let v' := on_table_flipped v in
  sized v' /\ active_table v' = active_table v /\ vm_staged_valid v' = vm_staged_valid v /\ vm_view v' = vm_view v
  /\ vm_positions v' = replicate RULE_TABLE_ROWS FLAT /\ vm_last_fire v' = replicate RULE_TABLE_ROWS 0
  /\ forall i, Z.of_nat i < rows_active v' -> get (vm_row_gate v') i = judge_row (vm_view v') (row_at v' i).
Proof.
  intros [W1 W2 W3 W4 W5]. unfold on_table_flipped. cbv zeta. set (f := foldl _ _ _).
  set (v1 := set_positions _ _).
  assert (sized v1) as S by (by split).
  destruct (judge_rows_spec v1 S) as (S' & E1 & E2 & E3 & E4 & E5 & E6 & G).
  split_and!; try done.
Qed.

Lemma flat_positions (v : St) : vm_positions v = replicate RULE_TABLE_ROWS FLAT -> forall i, pos_at v i = FLAT.
Proof.
  intros E i. unfold pos_at. rewrite E. destruct (decide (i < RULE_TABLE_ROWS)%nat) as [Hi|Hi].
  - by apply lookup_total_replicate_2.
  - rewrite list_lookup_total_alt, lookup_ge_None_2; [done|]. rewrite length_replicate. lia.
Qed.

Lemma book_commit cmd (v : St) : book_ok v -> book_ok (ruleset_commit cmd v).
Proof.
  intros B. unfold ruleset_commit. case_match; [|by apply (book_core v)].
  set (v1 := bump CommitsApplied _). assert (sized v1) as W by (destruct B as [[] _ _ _]; by split).
  destruct (flipped_spec v1 W) as (W' & _ & _ & _ & Ep & _ & G). apply book_flat; [done|by apply flat_positions|done].
Qed.

Lemma group_occupied_false (v : St) len i j group :
  group_occupied group i len v = false -> (j < len)%nat -> j <> i -> group <> GROUP_NONE ->
  rr_group (row_at v j) = group -> vp_entered (pos_at v j) = false.
Proof.
  unfold group_occupied. intros B Hj Hne Hg E. rewrite (proj2 (Z.eqb_neq _ _)) in B by done.
  apply not_true_iff_false. intros X. apply not_true_iff_false in B. apply B. apply existsb_exists. exists j.
  split; [apply in_seq; lia|]. rewrite X, (proj2 (Nat.eqb_neq j i)), (proj2 (Z.eqb_eq _ _)) by done. done.
Qed.

Lemma book_enter (v v' : St) i p :
  book_ok v -> fixed v' = fixed v -> vm_positions v' = <[i := p]> (vm_positions v) ->
  length (vm_last_fire v') = length (vm_last_fire v) ->
  (i < Z.to_nat (rows_active v))%nat -> is_position_row (row_at v i) = true ->
  group_occupied (rr_group (row_at v i)) i (Z.to_nat (rows_active v)) v = false -> pos_ok p ->
  book_ok v'.
Proof.
  intros [W Hh Hg Gt] Ef Ep El Hi Hr Hb Hp. pose proof (fixed_rows_active v v' Ef) as Er.
  assert (i < length (vm_positions v))%nat as Hlen.
  { rewrite (sz_pos v W). pose proof (sz_len v W (vm_active v)) as X. unfold rows_active, active_table in Hi. lia. }
  assert (forall j, pos_at v' j = if decide (j = i) then p else pos_at v j) as Ea.
  { intros j. unfold pos_at. rewrite Ep. case_decide; [subst; by apply list_lookup_total_insert_eq|].
    by rewrite list_lookup_total_insert_ne. }
  split.
  - apply (sized_fixed v); [done|by rewrite Ep, length_insert|done|done].
  - intros j. rewrite Ea, Er, (fixed_row v v') by done. case_decide as E; [|apply Hh]. subst j. intros _.
    split_and!; [lia|done|done].
  - intros j k. rewrite !Ea, !(fixed_row v v') by done. intros Xj Xk Eg Hn.
    destruct (decide (j = i)) as [->|Hj], (decide (k = i)) as [->|Hk]; try done; [| |by apply Hg].
    + destruct (Hh k Xk) as [Hkl _].
      rewrite (group_occupied_false v _ i k _ Hb) in Xk; [done|lia|done|done|by rewrite Eg].
    + destruct (Hh j Xj) as [Hjl _].
      rewrite (group_occupied_false v _ i j _ Hb) in Xj; [done|lia|done|by rewrite <- Eg|done].
  - intros j. rewrite Er, (fixed_gate v v'), (fixed_row v v') by done.
    assert (vm_view v' = vm_view v) as -> by (unfold fixed in Ef; by injection Ef). apply Gt.
Qed.

Lemma book_seed cmd (v : St) (c : Cx) : seed_shape_ok cmd = true -> book_ok v -> book_ok (position_seed cmd v c).
Proof.
  intros Sh B. unfold position_seed. cbv zeta. destruct (seed_ok cmd v) eqn:So; [|by apply (book_core v)].
  unfold seed_ok in So. cbv zeta in So. set (i := Z.to_nat (ac_param_id cmd)) in *.
  apply andb_true_iff in So as [So Hb%negb_true_iff]. apply andb_true_iff in So as [So _].
  apply andb_true_iff in So as [So _]. apply andb_true_iff in So as [Hi%Nat.ltb_lt Hr].
  set (r := row_at v i) in *.
  assert (core (if negb (rr_ref_sym r =? SYMBOL_ID_NONE)
    then let '(v, m) := mid_1e6 (rr_ref_sym r) (ctx_now_ns c) v in
         (v, sized_qty_1e6 (rr_max_risk_1e6 r) (default (ac_px cmd) m)) else (v, 0)).1 = core v /\
    0 <= (if negb (rr_ref_sym r =? SYMBOL_ID_NONE)
    then let '(v, m) := mid_1e6 (rr_ref_sym r) (ctx_now_ns c) v in
         (v, sized_qty_1e6 (rr_max_risk_1e6 r) (default (ac_px cmd) m)) else (v, 0)).2) as [K Hq].
  { destruct (negb _); [|done]. pose proof (mid_core (rr_ref_sym r) (ctx_now_ns c) v) as K.
    destruct (mid_1e6 (rr_ref_sym r) (ctx_now_ns c) v) as [v1 m]. split; [done|apply sized_nonneg]. }
  destruct (if negb (rr_ref_sym r =? SYMBOL_ID_NONE) then _ else _) as [v1 qty_ref]. cbn [fst snd] in K, Hq.
  destruct (Z.ltb_spec 0 (sized_qty_1e6 (rr_max_risk_1e6 r) (ac_px cmd))) as [Hs|Hs]; [|apply (book_core v); [done|done]].
  destruct (core_inv v v1 K) as (Ef & Ep & El).
  apply (book_enter v _ i (mkPos (sized_qty_1e6 (rr_max_risk_1e6 r) (ac_px cmd)) qty_ref (ac_px cmd)
    (sat_u64 (ctx_now_ns c - sat_u64 (wrap_u64 (ac_qty cmd) * 1000000000))) true (ac_side cmd)
    (if ac_side cmd =? side_byte Ask then 1 else -1))); [done|exact Ef| | |done|done|done|].
  - cbn. by rewrite Ep.
  - cbn. by rewrite El.
  - unfold seed_shape_ok in Sh. apply andb_true_iff in Sh as [Sh _]. apply andb_true_iff in Sh as [Sh Hside].
    apply andb_true_iff in Sh as [Sh _]. apply andb_true_iff in Sh as [_ Hpx%Z.ltb_lt].
    apply orb_true_iff in Hside as [Hside%Z.eqb_eq|Hside%Z.eqb_eq]; unfold pos_ok; cbn; split_and!; try done; try lia;
      try (by left); try (by right); rewrite Hside; auto.
Qed.

Lemma book_step op (v : St) (c : Cx) : op_ok op -> book_ok v -> book_ok (vm_step op (v, c)).1.
Proof.
  intros Ok B. destruct op as [t|e|d|o|cmd|t|view|x]; cbn [vm_step fst op_ok] in *; try by apply (book_core v).
  - by apply book_tick.
  - unfold vm_on_ai. case_ifs; [by apply (book_core v)| |by apply book_commit|done].
    apply book_seed; [|done]. apply Ok. by apply Z.eqb_eq.
  - destruct Ok. by apply book_receive.
  - by apply book_view.
Qed.

Lemma book_new f : book_ok (Vm_new f).
Proof.
  apply book_flat.
  - split; try done; intros []; done.
  - by apply flat_positions.
  - intros i Hi. cbn in Hi. lia.
Qed.

Lemma reachable_book f0 c0 v c : vm_reachable f0 c0 v c -> book_ok v.
Proof. induction 1; [apply book_new|by apply book_step]. Qed.

Lemma reachable_run f0 c0 v c ops :
  vm_reachable f0 c0 v c -> Forall op_ok ops ->
  let '(v', c') := foldl (fun vc op => vm_step op vc) (v, c) ops in vm_reachable f0 c0 v' c'.
Proof.
  intros R Ok. revert v c R. induction Ok as [|op ops Ho _ IH]; intros v c R; [done|]. cbn [foldl].
  pose proof (vm_next f0 c0 v c op R Ho) as R'. destruct (vm_step op (v, c)) as [v1 c1]. by apply IH.
Qed.
End Laws.
