(* ===== verification/VmOrders.v ===== *)
(** * What the ruleset VM sends and installs

    Every order of a reachable VM opens under its row's gate, horizon and caps
    or takes back exactly what is held; a due exit is sent or its refusal is
    counted; a commit installs the last table received and nothing else. *)

From S2P Require Import Prelude CoreTypes Regime RuleTable Ladder Router Vm VmProofs VmLaws.

Section Orders.
Context {F : Type} `{Features F} {C : Type} `{Ctx C}.

#[local] Abbreviation St := (VmStrategy F).
#[local] Abbreviation Cx := (Logged C).

(** ** Orders *)

Lemma gate_bits view r :
  has_bit (judge_row view r) ROW_GATE_OPEN = row_open view r
  /\ has_bit (judge_row view r) ROW_GATE_HARD = negb (row_open view r) && (rr_regime_off r =? REGIME_OFF_HARD).
Proof. unfold judge_row. by destruct (row_open view r), (rr_regime_off r =? REGIME_OFF_HARD). Qed.

(** An order of row [i] on a tick: it opens under the row's gate, horizon and
    caps, or it takes back what the position holds. *)
Inductive order_law (v : St) (now : Z) (i : nat) (o : Order) : Prop :=
| order_opens :
    row_open (vm_view v) (row_at v i) = true ->
    sat_u64 (get (vm_last_fire v) i + wrap_u64 (rr_horizon_ms (row_at v i) * 1000000)) <= now ->
    (is_position_row (row_at v i) = true -> vp_entered (pos_at v i) = false) ->
    bounded (rr_max_risk_1e6 (row_at v i)) (o_px o) (o_qty o) ->
    o_sym o = rr_sym (row_at v i) \/ (is_position_row (row_at v i) = true /\ o_sym o = rr_ref_sym (row_at v i)) ->
    order_law v now i o
| order_closes :
    is_position_row (row_at v i) = true -> vp_entered (pos_at v i) = true ->
    (o_sym o, o_side o, o_qty o) = (rr_sym (row_at v i), close_side (pos_at v i), vp_qty_sym (pos_at v i)) \/
    (0 < vp_qty_ref (pos_at v i) /\
     (o_sym o, o_side o, o_qty o) = (rr_ref_sym (row_at v i), opposite (close_side (pos_at v i)), vp_qty_ref (pos_at v i))) ->
    order_law v now i o.

Lemma leg_sent_order sym side px qty now seg ok (o : Order) b :
  leg_sent sym side px qty now seg ok -> (o, b) ∈ seg ->
  o_sym o = sym /\ o_side o = side /\ o_px o = px /\ o_qty o = qty.
Proof. intros []; [|by intros ?%elem_of_nil]. by intros [= -> ->]%list_elem_of_singleton. Qed.

Lemma turn_orders (v : St) i now busy p s seg (o : Order) b :
  get (vm_row_gate v) i = judge_row (vm_view v) (row_at v i) ->
  turn_law (row_at v i) (get (vm_row_gate v) i) (get (vm_last_fire v) i) now (pos_at v i) busy p s seg ->
  (o, b) ∈ seg -> order_law v now i o.
Proof.
  intros G T Ho. pose proof (proj1 (gate_bits (vm_view v) (row_at v i))) as Gb. rewrite <- G in Gb. unfold entry_free in *.
  destruct T as [|px seg Hr Hp L|px seg seg' Hr Hp L R|side px qty seg ok Hr [Ho' Hf] B L
    |side px qty seg Hr Hp [Ho' Hf] _ B L|side px qty qty_ref px_ref sign seg seg' Hr Hp [Ho' Hf] _ B Br Hq Hs L R].
  - by apply elem_of_nil in Ho.
  - destruct (leg_sent_order _ _ _ _ _ _ _ o b L Ho) as (E1 & E2 & _ & E4).
    apply order_closes; [done|done|left; congruence].
  - apply elem_of_app in Ho as [Ho|Ho]; (apply order_closes; [done|done|]).
    + destruct (leg_sent_order _ _ _ _ _ _ _ o b L Ho) as (E1 & E2 & _ & E4). left; congruence.
    + unfold ref_sent in R. destruct (two_leg_exit _ _) eqn:E; [|subst; by apply elem_of_nil in Ho].
      destruct R as (px' & ok & R). destruct (leg_sent_order _ _ _ _ _ _ _ o b R Ho) as (E1 & E2 & _ & E4).
      unfold two_leg_exit in E. apply andb_true_iff in E as [E%Z.ltb_lt _]. right. split; [done|congruence].
  - destruct (leg_sent_order _ _ _ _ _ _ _ o b L Ho) as (E1 & E2 & E3 & E4).
    apply order_opens; [congruence|done|congruence|congruence|by left].
  - destruct (leg_sent_order _ _ _ _ _ _ _ o b L Ho) as (E1 & E2 & E3 & E4).
    apply order_opens; [congruence|done|done|congruence|by left].
  - apply elem_of_app in Ho as [Ho|Ho].
    + destruct (leg_sent_order _ _ _ _ _ _ _ o b L Ho) as (E1 & E2 & E3 & E4).
      apply order_opens; [congruence|done|done|congruence|by left].
    + destruct (negb _ && (0 <? qty_ref)) eqn:E; [|destruct R; subst; by apply elem_of_nil in Ho].
      destruct R as (ok & R). destruct (leg_sent_order _ _ _ _ _ _ _ o b R Ho) as (E1 & E2 & E3 & E4).
      apply andb_true_iff in E as [_ E%Z.ltb_lt].
      apply order_opens; [congruence|done|done|rewrite E3, E4; by apply Br|right; by split].
Qed.

Lemma tick_orders t (v : St) (c : Cx) :
  book_ok v ->
  let '(v', c') := vm_on_tick t v c in
  exists sent, lg_log c' = lg_log c ++ sent /\
    forall o b, (o, b) ∈ sent -> exists i, Z.of_nat i < rows_active v /\ touched (row_at v i) (tk_sym t) = true
      /\ order_law v (ctx_now_ns c) i o.
Proof.
  intros B. pose proof (tick_law t v c (bk_sized v B)) as T. destruct (vm_on_tick t v c) as [v' c'].
  destruct T as [(segs & _ & _ & _ & En & El & _ & Law) _]. exists (concat segs). split; [done|].
  intros o b Ho. apply list_elem_of_In, in_concat in Ho as (seg & Hseg & Ho). apply list_elem_of_In in Hseg, Ho.
  apply list_elem_of_lookup in Hseg as (i & Hi). pose proof (lookup_lt_Some _ _ _ Hi) as Hl. rewrite En in Hl.
  destruct (Law i Hl) as [T Ht]. apply list_lookup_total_correct in Hi. rewrite Hi in T, Ht. exists i.
  split; [lia|]. split.
  - destruct (touched _ _) eqn:E; [done|]. destruct (Ht eq_refl) as [-> _]. by apply elem_of_nil in Ho.
  - eapply turn_orders; [apply (bk_gate v B); lia|exact T|exact Ho].
Qed.

(** ** Exits *)

Lemma mid_counts sym now (v : St) k : vm_counts (mid_1e6 sym now v).1 k = vm_counts v k.
Proof.
  unfold mid_1e6, read. destruct (feat_read Mid sym 0 now (vm_feats v)). done.
Qed.

Lemma read_byte_counts b sym win now (v : St) k : vm_counts (read_byte b sym win now v).1 k = vm_counts v k.
Proof. unfold read_byte, read. destruct (feat_from_u8 b); [|done]. by destruct (feat_read _ _ _ _ _). Qed.

Lemma signal_counts r now (v : St) k : vm_counts (signal_of r now v).1 k = vm_counts v k.
Proof.
  unfold signal_of. pose proof (read_byte_counts (rr_feat_a r) (rr_sym r) (rr_win_a r) now v k) as E.
  destruct (read_byte (rr_feat_a r) (rr_sym r) (rr_win_a r) now v) as [v0 [a|]]; [|done]. cbn [fst] in E.
  pose proof (read_byte_counts (rr_feat_b r) (rr_ref_sym r) (rr_win_b r) now v0 k) as E'.
  destruct (combine_from_u8 (rr_combine r)) as [[]|]; try done;
    destruct (read_byte (rr_feat_b r) (rr_ref_sym r) (rr_win_b r) now v0) as [v1 [b|]]; cbn in *; congruence.
Qed.

(** The prices an exit is judged by, read where it is: the closing leg's, and
    the ref leg's where there is one. *)
Definition exit_prices (i : nat) (now : Z) (v vr : St) : option (Z * Z) :=
  let r := row_at v i in
  let '(v1, px) := mid_1e6 (rr_sym r) now vr in
  match px, (if two_leg_exit (pos_at v i) r then (mid_1e6 (rr_ref_sym r) now v1).2 else Some 0) with
  | Some px, Some ref_px => Some (px, ref_px)
  | _, _ => None
  end.

(** Closed, or why not. With no live price for a leg, held and counted. With
    the prices, the closing leg at its price: of a symbol that names no venue,
    nothing can be sent and the position is held; refused by the dispatcher,
    held and counted; taken, closed, and the ref leg sent after it. *)
Definition exit_outcome (i : nat) (now : Z) (v vr : St) (c : Cx) (v' : St) (c' : Cx) : Prop :=
  let r := row_at v i in
  let p := pos_at v i in
  match exit_prices i now v vr with
  | None => pos_at v' i = p /\ vm_counts v' ExitBlocked = wrap_u64 (vm_counts v ExitBlocked + 1) /\ lg_log c' = lg_log c
  | Some (px, ref_px) =>
      if negb (routable (rr_sym r)) then pos_at v' i = p /\ lg_log c' = lg_log c
      else exists oid ok seg,
        lg_log c' = lg_log c ++ (vm_order now (rr_sym r) (close_side p) px (vp_qty_sym p) oid, ok) :: seg /\
        if ok : bool then pos_at v' i = FLAT /\
          (if two_leg_exit p r then exists taken, leg_sent (rr_ref_sym r) (opposite (close_side p)) ref_px (vp_qty_ref p) now seg taken
           else seg = [])
        else pos_at v' i = p /\ seg = [] /\ vm_counts v' OrdersDropped = wrap_u64 (vm_counts v OrdersDropped + 1)
  end.

Lemma emit_exit_outcome i now (v vr : St) (c : Cx) :
  core vr = core v -> vm_counts vr ExitBlocked = vm_counts v ExitBlocked -> vm_counts vr OrdersDropped = vm_counts v OrdersDropped ->
  row_ok v i -> is_position_row (row_at v i) = true -> vp_entered (pos_at v i) = true ->
  let '(v', c', ok) := emit_exit i now vr c in exit_outcome i now v vr c v' c'.
Proof.
  intros K NB ND W Hr Hp. pose proof (exit_turned i now false vr c (row_ok_core v vr i K W)) as T.
  rewrite (core_row v vr), (core_pos v vr) in T by done. specialize (T Hr Hp).
  unfold exit_outcome, exit_prices. cbv zeta. destruct (emit_exit i now vr c) as [[v' c'] ok] eqn:E.
  destruct T as [_ Ep]. rewrite Ep. revert E. unfold emit_exit. cbv zeta. rewrite (core_row v vr), (core_pos v vr) by done.
  set (r := row_at v i) in *. set (p := pos_at v i) in *. pose proof (mid_counts (rr_sym r) now vr) as N0.
  destruct (mid_1e6 (rr_sym r) now vr) as [v0 [px|]]; cbn [fst] in N0.
  2: { intros [= <- <- <-]. split_and!; [done| |done]. cbn. by rewrite N0, NB. }
  assert (forall k, vm_counts (if two_leg_exit p r then mid_1e6 (rr_ref_sym r) now v0 else (v0, Some 0)).1 k = vm_counts vr k) as N1
    by (intros k; destruct (two_leg_exit p r); [rewrite mid_counts|]; done).
  replace (if two_leg_exit p r then (mid_1e6 (rr_ref_sym r) now v0).2 else Some 0)
    with (if two_leg_exit p r then mid_1e6 (rr_ref_sym r) now v0 else (v0, Some 0)).2 by (by destruct (two_leg_exit p r)).
  destruct (if two_leg_exit p r then mid_1e6 (rr_ref_sym r) now v0 else (v0, Some 0)) as [v1 [ref_px|]]; cbn [fst snd] in *.
  2: { intros [= <- <- <-]. split_and!; [done| |done]. cbn. by rewrite N1, NB. }
  pose proof (submit_spec (rr_sym r) (close_side p) px (vp_qty_sym p) now v1 c) as S.
  pose proof (submit_dropped (rr_sym r) (close_side p) px (vp_qty_sym p) now v1 c) as D.
  destruct (submit_leg (rr_sym r) (close_side p) px (vp_qty_sym p) now v1 c) as [[v2 c2] ok2].
  destruct S as (_ & seg1 & El1 & L). destruct L as [oid b Er|Er]; rewrite Er in *; cbn [negb andb] in D.
  2: { intros [= <- <- <-]. split; [done|]. by rewrite El1, app_nil_r. }
  destruct b; cbn [negb andb] in D.
  2: { intros [= <- <- <-]. exists oid, false, []. by rewrite D, N1, ND. }
  intros X. exists oid, true. destruct (two_leg_exit p r).
  - pose proof (submit_spec (rr_ref_sym r) (opposite (close_side p)) ref_px (vp_qty_ref p) now v2 c2) as S.
    destruct (submit_leg (rr_ref_sym r) (opposite (close_side p)) ref_px (vp_qty_ref p) now v2 c2) as [[v3 c3] ok3].
    destruct S as (_ & seg3 & El3 & L3). injection X as <- <- <-. exists seg3. rewrite El3, El1, <- app_assoc. eauto.
  - injection X as <- <- <-. exists []. by rewrite El1.
Qed.

(** When a held position must go: aged out or hard-closed, whatever its
    signal, or reverted after its minimum hold. *)
Definition exit_forced (view : RegimeView) (r : RuleRowV2) (p : VmPosition) (now : Z) : bool :=
  ((0 <? rr_max_hold_s r) && (rr_max_hold_s r * 1000000000 <=? age_ns now p))
  || (negb (row_open view r) && (rr_regime_off r =? REGIME_OFF_HARD)).

Definition exit_due (view : RegimeView) (r : RuleRowV2) (p : VmPosition) (now : Z) (signal : option Z) : bool :=
  exit_forced view r p now
  || (negb (age_ns now p <? rr_min_hold_s r * 1000000000)
      && match signal with Some s => sat_i64 (s * vp_entry_sign p) <=? rr_exit_1e9 r | None => false end).

(** The VM when an exit of row [i] reads its prices: at once when it is forced,
    after the signal is read otherwise. *)
Definition exit_reader (i : nat) (now : Z) (v : St) : St :=
  if exit_forced (vm_view v) (row_at v i) (pos_at v i) now then bump Evals v else (signal_of (row_at v i) now (bump Evals v)).1.

Lemma exit_turn i t_sym now (v : St) (c : Cx) :
  book_ok v -> vp_entered (pos_at v i) = true -> touched (row_at v i) t_sym = true ->
  let '(v', c') := row_turn (Z.to_nat (rows_active v)) t_sym now i (v, c) in
  if exit_due (vm_view v) (row_at v i) (pos_at v i) now (signal_of (row_at v i) now (bump Evals v)).2
  then exit_outcome i now v (exit_reader i now v) c v' c' else pos_at v' i = pos_at v i /\ lg_log c' = lg_log c.
Proof.
  intros B Hp Ht. destruct (bk_held v B i Hp) as (Hi & Hr & _).
  assert (row_ok v i) as W.
  { unfold row_ok. rewrite (sz_pos v (bk_sized v B)), (sz_last v (bk_sized v B)).
    pose proof (sz_len v (bk_sized v B) (vm_active v)) as X. unfold rows_active, active_table in Hi. lia. }
  pose proof (bk_gate v B i Hi) as G. destruct (gate_bits (vm_view v) (row_at v i)) as [_ Gh]. rewrite <- G in Gh.
  set (v1 := bump Evals v). assert (core v1 = core v) as K by done.
  unfold row_turn. unfold touched in Ht.
  replace (negb (rr_sym (row_at v i) =? t_sym) && negb (rr_ref_sym (row_at v i) =? t_sym)) with false
    by (by destruct (rr_sym (row_at v i) =? t_sym), (rr_ref_sym (row_at v i) =? t_sym)).
  cbv zeta. fold v1. rewrite (core_pos v v1), Hr, Hp by done. cbn [andb]. unfold exit_path, exit_due, exit_reader, exit_forced. cbv zeta.
  fold v1. rewrite (core_row v v1), (core_pos v v1) by done. change (vm_row_gate v1) with (vm_row_gate v). rewrite Gh.
  pose proof (emit_exit_outcome i now v v1 c K eq_refl eq_refl W Hr Hp) as X.
  destruct (_ && (rr_max_hold_s (row_at v i) * 1000000000 <=? age_ns now (pos_at v i))); cbn [orb].
  { by destruct (emit_exit i now v1 c) as [[v' c'] ok]. }
  destruct (_ && (rr_regime_off (row_at v i) =? REGIME_OFF_HARD)); cbn [orb].
  { by destruct (emit_exit i now v1 c) as [[v' c'] []]. }
  destruct (age_ns now (pos_at v i) <? rr_min_hold_s (row_at v i) * 1000000000); cbn [negb andb]; [done|].
  pose proof (signal_core (row_at v i) now v1) as Ks. pose proof (signal_counts (row_at v i) now v1) as Ns.
  destruct (signal_of (row_at v i) now v1) as [v2 [s|]]; cbn [fst snd] in *; [|by rewrite (core_pos v)].
  destruct (sat_i64 (s * vp_entry_sign (pos_at v i)) <=? rr_exit_1e9 (row_at v i)); [|by rewrite (core_pos v)].
  pose proof (emit_exit_outcome i now v v2 c Ks (Ns _) (Ns _) W Hr Hp) as X2. by destruct (emit_exit i now v2 c) as [[v' c'] ok].
Qed.

(** ** What a commit installs *)

(** A table as the VM stores it: the length never past the array. *)
Definition clamped (t : RuleTableV2) : RuleTableV2 :=
  mkTable (rt_rows t) (Z.min (rt_len t) (Z.of_nat RULE_TABLE_ROWS)) (rt_epoch t) (rt_hash128 t).

(** Not a table, and not the commit of [t]. *)
Definition leaves_staged (t : RuleTableV2) (op : VmOp C) : Prop :=
  match op with
  | OpReceive _ => False
  | OpAi cmd => ac_kind cmd = AI_KIND_RULESET_COMMIT -> ruleset_hash128 cmd <> rt_hash128 t
  | _ => True
  end.

Definition tables_of (v : St) := (vm_tables v, vm_active v, vm_staged_valid v).

Lemma seed_fixed cmd (v : St) (c : Cx) : fixed (position_seed cmd v c) = fixed v.
Proof.
  unfold position_seed. cbv zeta. destruct (seed_ok cmd v); [|done].
  destruct (negb (rr_ref_sym (row_at v (Z.to_nat (ac_param_id cmd))) =? SYMBOL_ID_NONE)); [|by case_ifs].
  pose proof (mid_core (rr_ref_sym (row_at v (Z.to_nat (ac_param_id cmd)))) (ctx_now_ns c) v) as K.
  destruct (mid_1e6 _ _ v) as [v1 m]. cbn [fst] in K. destruct (core_inv v v1 K) as [Ef _]. by case_ifs.
Qed.

Lemma receive_stages t (v : St) :
  let v' := receive_table_v2 t v in
  vm_staged_valid v' = true /\ staged_table v' = clamped t /\ active_table v' = active_table v.
Proof.
  unfold receive_table_v2, staged_table, active_table, table_at, clamped. cbv zeta. cbn.
  split; [done|]. destruct (Z.ltb_spec (Z.of_nat RULE_TABLE_ROWS) (rt_len t)).
  - rewrite Z.min_r by lia. by destruct (vm_active v).
  - rewrite Z.min_l by lia. destruct (vm_active v), t; done.
Qed.

Lemma quiet_tables t op (v : St) (c : Cx) :
  book_ok v -> leaves_staged t op -> rt_hash128 (staged_table v) = rt_hash128 t ->
  tables_of (vm_step op (v, c)).1 = tables_of v.
Proof.
  intros B L E. unfold tables_of. destruct op as [tk|e|d|o|cmd|t'|view|x]; cbn [vm_step fst leaves_staged] in *; try done.
  - pose proof (tick_law tk v c (bk_sized v B)) as T. destruct (vm_on_tick tk v c) as [v' c'].
    destruct T as [(segs & Ef & _) _]. unfold fixed in Ef. cbn [fst]. by injection Ef as -> -> -> _ _.
  - unfold vm_on_ai. destruct (ac_kind cmd =? AI_KIND_FUNDING_SEED); [done|].
    destruct (ac_kind cmd =? AI_KIND_POSITION_SEED).
    { pose proof (seed_fixed cmd v c) as Ef. unfold fixed in Ef. by injection Ef as -> -> -> _ _. }
    destruct (Z.eqb_spec (ac_kind cmd) AI_KIND_RULESET_COMMIT) as [Hk|]; [|done]. specialize (L Hk).
    unfold ruleset_commit. rewrite bool_decide_false by congruence. by rewrite andb_false_r.
Qed.

Lemma quiet_run t ops f0 c0 (v : St) (c : Cx) :
  vm_reachable f0 c0 v c -> rt_hash128 (staged_table v) = rt_hash128 t ->
  Forall (fun op => op_ok op /\ leaves_staged t op) ops ->
  let '(v', c') := foldl (fun vc op => vm_step op vc) (v, c) ops in
  vm_reachable f0 c0 v' c' /\ tables_of v' = tables_of v.
Proof.
  intros R E Hops. revert v c R E. induction Hops as [|op ops [Ok L] _ IH]; intros v c R E; [done|]. cbn [foldl].
  pose proof (vm_next f0 c0 v c op R Ok) as R'.
  pose proof (quiet_tables t op v c (reachable_book f0 c0 v c R) L E) as K.
  destruct (vm_step op (v, c)) as [v1 c1]. cbn [fst snd] in *.
  assert (rt_hash128 (staged_table v1) = rt_hash128 t) as E1.
  { rewrite <- E. unfold staged_table, table_at. by injection K as -> -> _. }
  specialize (IH v1 c1 R' E1). destruct (foldl _ _ _) as [v' c']. destruct IH as [? IH]. by rewrite IH.
Qed.

(** [v2] is [v1] after the commit of its staged table. *)
Definition installed (t : RuleTableV2) (v1 v2 : St) : Prop :=
  active_table v2 = t /\ staged_hash128 v2 = None
  /\ (forall i, pos_at v2 i = FLAT) /\ vm_last_fire v2 = replicate RULE_TABLE_ROWS 0
  /\ forall i, Z.of_nat i < rows_active v2 -> get (vm_row_gate v2) i = judge_row (vm_view v1) (row_at v2 i).

Definition untouched (v1 v2 : St) : Prop :=
  tables_of v2 = tables_of v1 /\ vm_positions v2 = vm_positions v1 /\ vm_last_fire v2 = vm_last_fire v1.

Lemma commit_spec cmd (v : St) (c : Cx) :
  sized v -> ac_kind cmd = AI_KIND_RULESET_COMMIT -> vm_staged_valid v = true ->
  let v' := vm_on_ai cmd v c in
  if bool_decide (rt_hash128 (staged_table v) = ruleset_hash128 cmd) then installed (staged_table v) v v'
  else untouched v v'.
Proof.
  intros W Hk Hs. unfold vm_on_ai. cbv zeta. rewrite Hk. cbn [Z.eqb AI_KIND_RULESET_COMMIT AI_KIND_FUNDING_SEED
    AI_KIND_POSITION_SEED Pos.eqb]. unfold ruleset_commit. rewrite Hs. cbn [andb].
  destruct (bool_decide _); [|done].
  set (v1 := bump CommitsApplied (set_flip (negb (vm_active v)) false v)).
  assert (sized v1) as W1 by (destruct W; by split).
  destruct (flipped_spec v1 W1) as (_ & E1 & E2 & E3 & E4 & E5 & G). unfold installed.
  split_and!; [by rewrite E1| |by apply flat_positions|done|].
  - unfold staged_hash128. by rewrite E2.
  - intros i Hi. rewrite (G i Hi), E3. done.
Qed.

Lemma receive_run t ops f0 c0 (v : St) (c : Cx) :
  vm_reachable f0 c0 v c -> length (rt_rows t) = RULE_TABLE_ROWS -> 0 <= rt_len t ->
  Forall (fun op => op_ok op /\ leaves_staged t op) ops ->
  let '(v1, c1) := foldl (fun vc op => vm_step op vc) (receive_table_v2 t v, c) ops in
  vm_reachable f0 c0 v1 c1 /\ active_table v1 = active_table v /\ vm_staged_valid v1 = true
  /\ staged_table v1 = clamped t.
Proof.
  intros R Ht Hl Hops. destruct (receive_stages t v) as (E1 & E2 & E3).
  pose proof (quiet_run t ops f0 c0 (receive_table_v2 t v) c (vm_next f0 c0 v c (OpReceive t) R (conj Ht Hl))) as Q.
  rewrite E2 in Q. specialize (Q eq_refl Hops). destruct (foldl _ _ _) as [v1 c1]. destruct Q as [R1 K].
  split; [done|]. rewrite <- E1, <- E2, <- E3. unfold active_table, staged_table, table_at.
  by injection K as -> -> ->.
Qed.
End Orders.

(** In every state a run of the ruleset VM's callbacks can reach, its
    book is lawful: the arrays keep their size, only active position rows
    hold, each holding is a positive quantity entered at a positive price on
    a real side, no exclusive group holds twice, and every active row's gate
    byte is the verdict of the current regime view. *)
Theorem vm_book_stays_lawful {F : Type} `{Features F} {C : Type} `{Ctx C}
  (f0 : F) (c0 : Logged C) (v : VmStrategy F) (c : Logged C) :
  vm_reachable f0 c0 v c -> book_ok v.
Proof. apply reachable_book. Qed.

(** C22. From every state the ruleset VM can reach, every order a tick sends
    belongs to an active row the tick touches, and either opens (the regime
    view allows the row now, its horizon since the last fire is over, it
    holds nothing, and price times quantity is within the row's risk and the
    policy cap) or closes a held leg, on the opposite side, of exactly the
    held quantity. *)
Theorem every_order_opens_in_law_or_closes_what_is_held {F : Type} `{Features F} {C : Type} `{Ctx C}
  (f0 : F) (c0 : Logged C) (t : Tick) (v : VmStrategy F) (c : Logged C) :
  vm_reachable f0 c0 v c ->
  let '(v', c') := vm_on_tick t v c in
  exists sent, lg_log c' = lg_log c ++ sent /\
    forall o b, (o, b) ∈ sent -> exists i, Z.of_nat i < rows_active v /\ touched (row_at v i) (tk_sym t) = true
      /\ order_law v (ctx_now_ns c) i o.
Proof. intros R. apply tick_orders, (reachable_book f0 c0 v c R). Qed.

(** C23. In the turn of a held VM position whose row is touched when it is
    due (aged out, hard closed by the regime, or reverted after its minimum
    hold), the prices of its legs are read, and: where a leg has no live
    price it stays held, sends nothing and is counted as blocked; else,
    where its symbol names no venue, it stays held and sends nothing; else
    exactly one closing order goes out, of the held quantity on the opposite
    side at the price read, and the dispatcher's answer decides - taken, the
    position is flat and the ref leg, where there is one, is submitted after
    it at its own price; refused, the position stays held and the drop is
    counted. One not due stays and sends nothing. *)
Theorem a_due_exit_closes_or_says_why {F : Type} `{Features F} {C : Type} `{Ctx C}
  (f0 : F) (c0 : Logged C) (i : nat) (t_sym now : Z) (v : VmStrategy F) (c : Logged C) :
  vm_reachable f0 c0 v c -> vp_entered (pos_at v i) = true -> touched (row_at v i) t_sym = true ->
  let '(v', c') := row_turn (Z.to_nat (rows_active v)) t_sym now i (v, c) in
  if exit_due (vm_view v) (row_at v i) (pos_at v i) now (signal_of (row_at v i) now (bump Evals v)).2
  then exit_outcome i now v (exit_reader i now v) c v' c' else pos_at v' i = pos_at v i /\ lg_log c' = lg_log c.
Proof. intros R. apply exit_turn, (reachable_book f0 c0 v c R). Qed.

(** A rule table the VM receives replaces nothing until a commit
    carrying its hash arrives, however many other callbacks come between;
    that commit makes exactly that table active, its length clamped to the
    array, with an empty book, cold stamps and every gate judged, and spends
    the stage; a commit with another hash changes no table, position or
    stamp. *)
Theorem commit_installs_the_last_received_table {F : Type} `{Features F} {C : Type} `{Ctx C}
  (f0 : F) (c0 : Logged C) (v : VmStrategy F) (c : Logged C) (t : RuleTableV2) (ops : list (VmOp C)) (cmd : AiCmd) :
  vm_reachable f0 c0 v c -> length (rt_rows t) = RULE_TABLE_ROWS -> 0 <= rt_len t ->
  Forall (fun op => op_ok op /\ leaves_staged t op) ops -> ac_kind cmd = AI_KIND_RULESET_COMMIT ->
  let '(v1, c1) := foldl (fun vc op => vm_step op vc) (receive_table_v2 t v, c) ops in
  active_table v1 = active_table v /\ staged_hash128 v1 = Some (rt_hash128 t) /\
  let v2 := vm_on_ai cmd v1 c1 in
  if bool_decide (rt_hash128 t = ruleset_hash128 cmd) then installed (clamped t) v1 v2 else untouched v1 v2.
Proof.
  intros R Ht Hl Hops Hk. pose proof (receive_run t ops f0 c0 v c R Ht Hl Hops) as Q.
  destruct (foldl _ _ _) as [v1 c1]. destruct Q as (R1 & Ea & Es & Et).
  split; [done|]. split; [unfold staged_hash128; by rewrite Es, Et|].
  pose proof (commit_spec cmd v1 c1 (bk_sized v1 (reachable_book f0 c0 v1 c1 R1)) Hk Es) as S. by rewrite Et in S.
Qed.
