(* ===== verification/VmSamples.v ===== *)
(** * The ruleset VM on concrete inputs

    A feature engine that keeps the last book per symbol and a scripted
    dispatcher; the VM's theorems at a run of theirs, and two behaviours
    evaluated: an exit past the entry's cap, and a seeded entry's sign. *)

From S2P Require Import Prelude CoreTypes Regime RuleTable Ladder Router Vm VmProofs VmLaws VmOrders.

Definition Books : Type := list (Z * (Z * Z)).

Definition books_read (id : FeatId) (sym : Z) (f : Books) : option Z :=
  match find (fun b => b.1 =? sym) f with
  | Some (_, (bid, ask)) =>
      match id with
      | Mid => Some ((bid + ask) * 500)
      | BestBid => Some (bid * 1000)
      | BestAsk => Some (ask * 1000)
      | _ => None
      end
  | None => None
  end.

#[export] Instance books_features : Features Books := {
  feat_read id sym _ _ f := (f, books_read id sym f);
  feat_on_tick t _ f := (tk_sym t, (tk_bid_px t, tk_ask_px t)) :: f;
  feat_on_venue_event _ _ f := f;
  feat_on_depth _ _ f := f;
  feat_on_opt_summary _ _ f := f;
  feat_funding_seed _ _ _ f := f;
  feat_clear_roll_bindings f := f;
  feat_bind_roll _ _ f := (f, true)
}.

(** The clock, and the answers to come: when they run out, accept. *)
Definition Scripted : Type := Z * list bool.

#[export] Instance scripted_ctx : Ctx Scripted := {
  ctx_submit _ c := match c.2 with
    | [] => (c, Ok tt)
    | true :: l => ((c.1, l), Ok tt)
    | false :: l => ((c.1, l), Err RingFull)
    end;
  ctx_now_ns c := c.1
}.

Definition sym_a : Z := 16777217.
Definition sym_b : Z := 33554434.

(** A pair spread entered past 2, left under 1, one at a time in group 1. *)
Definition pair_row (group : Z) : RuleRowV2 :=
  mkRow 2 ROW_FLAG_POSITION SIDE_BOTH group 0 0 FEAT_NONE 0 sym_a sym_b 0 0 0 CMP_ENTRY_ABS
    2000000000 1000000000 0 10 1000 0 100000000 7 3600 0 0 0 0 0.

Definition sample_cmd (kind px qty : Z) : AiCmd := mkAiCmd 0 SYMBOL_ID_NONE px qty 0 kind 0 0 0.
Definition commit_7 : AiCmd := sample_cmd AI_KIND_RULESET_COMMIT 7 9.

Definition table_of (rows : list RuleRowV2) : RuleTableV2 :=
  mkTable (rows ++ replicate (RULE_TABLE_ROWS - length rows) ROW_ZERO) (Z.of_nat (length rows)) 1 (ruleset_hash128 commit_7).

Definition sample_tick (sym px : Z) : Tick := mkTick sym 1 (px - 10000) 1000000 (px + 10000) 1000000 0.

Definition boot_ops (rows : list RuleRowV2) : list (VmOp Scripted) :=
  [OpReceive (table_of rows); OpAi commit_7; OpTick (sample_tick sym_b 100000000)].

Definition sec (s : Z) : Scripted := (s * 1000000000, []).

Definition boot_vm : VmStrategy Books * Logged Scripted := (Vm_new [], mkLogged (sec 1000) []).

Definition run_vm (ops : list (VmOp Scripted)) : VmStrategy Books * Logged Scripted :=
  foldl (fun vc op => vm_step op vc) boot_vm ops.

Definition pair_rows : list RuleRowV2 := [pair_row 1; pair_row 1; pair_row GROUP_NONE].
Definition enter_ops : list (VmOp Scripted) := boot_ops pair_rows ++ [OpTick (sample_tick sym_a 103000000)].

(** Rows 0 and 2 enter; row 1 waits for its group. *)
Lemma pair_enters :
  let '(v, c) := run_vm enter_ops in
  map (fun e => (o_sym e.1, o_side e.1, o_px e.1, o_qty e.1, e.2)) (lg_log c) =
    [(sym_a, Ask, 103000000, 970873, true); (sym_b, Bid, 100000000, 1000000, true);
     (sym_a, Ask, 103000000, 970873, true); (sym_b, Bid, 100000000, 1000000, true)]
  /\ map vp_entered (take 3 (vm_positions v)) = [true; false; true].
Proof. vm_compute. done. Qed.

Lemma boot_ops_ok rows : (length rows <= RULE_TABLE_ROWS)%nat -> Forall op_ok (boot_ops rows).
Proof.
  intros L. repeat constructor; [|cbn; lia|discriminate]. cbn [rt_rows table_of].
  rewrite length_app, length_replicate. lia.
Qed.

Lemma enter_ops_ok : Forall op_ok enter_ops.
Proof. apply Forall_app_2; [apply boot_ops_ok; cbn; unfold RULE_TABLE_ROWS; lia|repeat constructor]. Qed.

Lemma run_reachable ops : Forall op_ok ops ->
  vm_reachable [] (mkLogged (sec 1000) []) (run_vm ops).1 (run_vm ops).2.
Proof.
  intros Ok. pose proof (reachable_run [] (mkLogged (sec 1000) []) (Vm_new []) _ ops (vm_boot _ _) Ok) as R.
  unfold run_vm, boot_vm. by destruct (foldl _ _ _).
Qed.

Lemma entered_reachable : vm_reachable [] (mkLogged (sec 1000) []) (run_vm enter_ops).1 (run_vm enter_ops).2.
Proof. apply run_reachable, enter_ops_ok. Qed.

Lemma every_tick_moves_each_row_lawfully_witness :
  let '(v, c) := run_vm enter_ops in
  let '(v', c') := vm_on_tick (sample_tick sym_a 100500000) v c in sized v'.
Proof.
  pose proof (bk_sized _ (reachable_book _ _ _ _ entered_reachable)) as W. destruct (run_vm enter_ops) as [v c].
  pose proof (every_tick_moves_each_row_lawfully (sample_tick sym_a 100500000) v c W) as T.
  destruct (vm_on_tick (sample_tick sym_a 100500000) v c) as [v' c']. cbv zeta in T. exact (proj2 T).
Defined.

Lemma vm_book_stays_lawful_witness :
  vp_entered (pos_at (run_vm enter_ops).1 0) = true /\ book_ok (run_vm enter_ops).1.
Proof.
  split; [vm_compute; reflexivity|]. exact (vm_book_stays_lawful _ _ _ _ entered_reachable).
Defined.

Lemma every_order_opens_in_law_or_closes_what_is_held_witness :
  let '(v, c) := run_vm enter_ops in
  let '(v', c') := vm_on_tick (sample_tick sym_a 100500000) v (mkLogged (sec 1100) (lg_log c)) in
  length (lg_log c') = 8%nat /\ exists sent, lg_log c' = lg_log c ++ sent.
Proof.
  pose proof (vm_next _ _ _ _ (OpWait (sec 1100)) entered_reachable I) as R.
  assert (length (lg_log (vm_on_tick (sample_tick sym_a 100500000) (run_vm enter_ops).1
    (mkLogged (sec 1100) (lg_log (run_vm enter_ops).2))).2) = 8%nat) as L by (vm_compute; reflexivity).
  destruct (run_vm enter_ops) as [v c]. cbn [vm_step fst snd] in R, L.
  pose proof (@every_order_opens_in_law_or_closes_what_is_held Books _ Scripted _ _ _ (sample_tick sym_a 100500000) _ _ R) as T.
  destruct (vm_on_tick (sample_tick sym_a 100500000) v (mkLogged (sec 1100) (lg_log c))) as [v' c'].
  destruct T as (sent & T & _). split; [exact L|]. exists sent. exact T.
Defined.

(** The close of an aged position: flat, its closing order first. *)
Lemma a_due_exit_closes_or_says_why_witness :
  let '(v, c) := run_vm enter_ops in
  let '(v', c') := row_turn (Z.to_nat (rows_active v)) sym_a 5000000000000 0 (v, c) in
  vp_entered (pos_at v 0) = true /\ pos_at v' 0 = FLAT /\
  exists oid ok seg, lg_log c' = lg_log c ++
    (vm_order 5000000000000 (rr_sym (row_at v 0)) (close_side (pos_at v 0)) 103000000 (vp_qty_sym (pos_at v 0)) oid, ok) :: seg.
Proof.
  pose proof entered_reachable as R.
  assert (vp_entered (pos_at (run_vm enter_ops).1 0) = true) as E1 by (vm_compute; reflexivity).
  assert (touched (row_at (run_vm enter_ops).1 0) sym_a = true) as E2 by (vm_compute; reflexivity).
  assert (exit_due (vm_view (run_vm enter_ops).1) (row_at (run_vm enter_ops).1 0) (pos_at (run_vm enter_ops).1 0)
    5000000000000 (signal_of (row_at (run_vm enter_ops).1 0) 5000000000000 (bump Evals (run_vm enter_ops).1)).2 = true) as E3
    by (vm_compute; reflexivity).
  assert (exit_prices 0 5000000000000 (run_vm enter_ops).1 (exit_reader 0 5000000000000 (run_vm enter_ops).1) = Some (103000000, 100000000)) as E4
    by (vm_compute; reflexivity).
  assert (routable (rr_sym (row_at (run_vm enter_ops).1 0)) = true) as E5 by (vm_compute; reflexivity).
  assert (pos_at (row_turn (Z.to_nat (rows_active (run_vm enter_ops).1)) sym_a 5000000000000 0 (run_vm enter_ops)).1 0 = FLAT) as E6
    by (vm_compute; reflexivity).
  destruct (run_vm enter_ops) as [v c]. cbn [fst snd] in *.
  pose proof (@a_due_exit_closes_or_says_why Books _ Scripted _ _ _ 0 sym_a 5000000000000 v c R E1 E2) as T.
  destruct (row_turn (Z.to_nat (rows_active v)) sym_a 5000000000000 0 (v, c)) as [v' c'].
  rewrite E3 in T. unfold exit_outcome in T. rewrite E4, E5 in T. destruct T as (oid & ok & seg & T & _).
  split; [exact E1|split; [exact E6|]]. exists oid, ok, seg. exact T.
Defined.

Lemma commit_installs_the_last_received_table_witness :
  let '(v1, c1) := foldl (fun vc op => vm_step op vc) (receive_table_v2 (table_of pair_rows) (Vm_new []), mkLogged (sec 1000) [])
                     [OpTick (sample_tick sym_a 5)] in
  installed (clamped (table_of pair_rows)) v1 (vm_on_ai commit_7 v1 c1).
Proof.
  assert (length (rt_rows (table_of pair_rows)) = RULE_TABLE_ROWS) as L by (vm_compute; reflexivity).
  assert (0 <= rt_len (table_of pair_rows)) as P by (vm_compute; discriminate).
  pose proof (@commit_installs_the_last_received_table Books _ Scripted _ [] (mkLogged (sec 1000) []) (Vm_new []) (mkLogged (sec 1000) [])
    (table_of pair_rows) [OpTick (sample_tick sym_a 5)] commit_7 (vm_boot _ _) L P
    ltac:(repeat constructor) eq_refl) as T.
  destruct (foldl _ _ _) as [v1 c1]. cbv zeta in T. destruct T as (_ & _ & T). exact T.
Defined.

(** ** Two behaviours *)

(** A position is closed at its held quantity and the live price: after a
    rise, the closing order is worth more than the row's cap. *)
Lemma exit_order_past_the_cap :
  let '(v, c) := run_vm (enter_ops ++ [OpTick (sample_tick sym_b 400000000); OpWait (sec 9000);
                                       OpTick (sample_tick sym_a 400000000)]) in
  existsb (fun e => rr_max_risk_1e6 (row_at v 0) * 1000000 <? o_px e.1 * o_qty e.1) (lg_log c) = true
  /\ existsb (fun e => (o_px e.1 =? 400000000) && (o_qty e.1 =? 1000000) && bool_decide (o_sym e.1 = sym_b)) (lg_log c) = true.
Proof. vm_compute. done. Qed.

(** A one-sided level row of its own symbol: enters bid past 90, leaves under 80. *)
Definition level_row : RuleRowV2 :=
  mkRow 2 ROW_FLAG_POSITION 0 GROUP_NONE 0 0 FEAT_NONE COMBINE_LHS_ONLY sym_a SYMBOL_ID_NONE 0 0 0 0
    90000000000 80000000000 0 0 1000 0 100000000 7 0 0 0 0 0 0.

Definition seed_cmd : AiCmd := mkAiCmd 0 sym_a 103000000 60 0 AI_KIND_POSITION_SEED 0 0 0.

(** The live entry and the seed of the same holding disagree on the sign the
    exit law multiplies the signal by. *)
Lemma seeded_sign_differs_from_the_entry :
  let live := (run_vm (boot_ops [level_row] ++ [OpTick (sample_tick sym_a 103000000)])).1 in
  let seeded := (run_vm (boot_ops [level_row] ++ [OpAi seed_cmd])).1 in
  seed_shape_ok seed_cmd = true /\
  (vp_side (pos_at live 0), vp_qty_sym (pos_at live 0), vp_entry_px (pos_at live 0))
    = (vp_side (pos_at seeded 0), vp_qty_sym (pos_at seeded 0), vp_entry_px (pos_at seeded 0)) /\
  (vp_entry_sign (pos_at live 0), vp_entry_sign (pos_at seeded 0)) = (1, -1).
Proof. vm_compute. done. Qed.

(** So the next tick closes the seeded one, at once, where the live one holds. *)
Lemma seeded_position_leaves_early :
  let live := run_vm (boot_ops [level_row] ++ [OpTick (sample_tick sym_a 103000000); OpTick (sample_tick sym_a 104000000)]) in
  let seeded := run_vm (boot_ops [level_row] ++ [OpAi seed_cmd; OpTick (sample_tick sym_a 104000000)]) in
  vp_entered (pos_at live.1 0) = true /\ vp_entered (pos_at seeded.1 0) = false.
Proof. vm_compute. done. Qed.
