(* ===== verification/FeatureEngine.v ===== *)
(** * The feature engine of the ruleset VM ([crates/strategy-vm/src/features.rs],
    [crates/core-regime/src/math.rs])

    Per-symbol latest values in an open-addressed table; rolling last-of-minute
    windows and funding prints in pools claimed on first use. Reads are
    [None] when the feature is absent. *)

From S2P Require Import Prelude CoreTypes Ladder RuleTable Router Vm.

#[local] Open Scope machine_scope.

(** ** Integer primitives *)

Definition floor_div (n d : Z) : Z := n / d.

Definition ret_bps_1e9 (from to : Z) : Z :=
  if from <=? 0 then 0 else wrap_i64 (floor_div ((to - from) * 10000000000000) from).

Fixpoint newton (fuel : nat) (v x y : Z) : Z :=
  match fuel with
  | O => x
  | S f => if y <? x then newton f v y (Z.shiftr (y + v /t y) 1) else x
  end.

(** A step halves the distance to the root: [i128]'s width is enough fuel. *)
Definition ISQRT_FUEL : nat := 129.

Definition isqrt_i128 (v : Z) : Z :=
  if v <=? 0 then 0
  else if v <? 4 then 1
  else
    let x := newton ISQRT_FUEL v v (Z.shiftr v 1 + 1) in
    if i64_max <? x then i64_max else x.

(** ** The pools *)

Definition FEAT_SYM_SLOTS : nat := 4096.
Definition ROLL_POOL_ENTRIES : nat := 256.
Definition ROLL_WINDOW_MAX_MIN : Z := 4320.
Definition ROLL_RING_MINUTES : nat := Z.to_nat ROLL_WINDOW_MAX_MIN.
Definition FUNDING_BLOCKS : nat := 256.
Definition FUNDING_RING_PRINTS : nat := 640.
Definition MAX_ROLL_PER_SYM : nat := 8.
Definition FUNDING_WINDOW_24H_MIN : Z := 1440.
Definition FUNDING_WINDOW_72H_MIN : Z := 4320.
Definition DEPTH_FLAG_STALE : Z := 1.
Definition MS_PER_MIN : Z := 60000.
Definition MS_PER_HOUR : Z := 3600000.
Definition MS_PER_DAY : Z := 86400000.

Record RollStats := mkStats { st_n : Z; st_mean : Z; st_ema : Z; st_min : Z; st_max : Z; st_std : Z }.
Definition NO_STATS : RollStats := mkStats 0 0 0 0 0 0.

(** The cached statistics are one record. *)
Record RollEntry := mkRoll {
  re_ring : list Z; re_newest : Z; re_cache : Z; re_stats : RollStats; re_sym : Z; re_win : Z
}.
Definition ROLL_ZERO : RollEntry := mkRoll (replicate ROLL_RING_MINUTES 0) 0 0 NO_STATS 0 0.
#[export] Instance roll_inhabited : Inhabited RollEntry := populate ROLL_ZERO.

Record FundingBlock := mkBlock {
  fb_prints : list (Z * Z); fb_head : nat; fb_count : nat; fb_cache : Z;
  fb_apr24 : Z; fb_apr72 : Z; fb_n24 : Z; fb_n72 : Z; fb_sym : Z; fb_used : bool
}.
Definition BLOCK_ZERO : FundingBlock := mkBlock (replicate FUNDING_RING_PRINTS (0, 0)) 0 0 0 0 0 0 0 0 false.
#[export] Instance block_inhabited : Inhabited FundingBlock := populate BLOCK_ZERO.

(** The latest values of one symbol; [fs_fblock1] and [fs_roll1] are indices
    plus one, 0 for none. *)
Record Bbo := mkBbo { bb_bid : Z; bb_ask : Z; bb_mid : Z; bb_ns : Z }.
Record DepthFeat := mkDF { df_imb : Z; df_spread : Z; df_near : Z; df_ns : Z }.
Record OptFeat := mkOF { of_flags : Z; of_mark_px : Z; of_mark_iv : Z; of_ns : Z }.
Record FundFeat := mkFF { ff_next_ms : Z; ff_pend_rate : Z; ff_last_hour : Z }.

Record FeatSym := mkFeatSym {
  fs_sym : Z; fs_used : bool;
  fs_tick_stale : bool; fs_bbo : Bbo;
  fs_depth_stale : bool; fs_depth : DepthFeat;
  fs_opt : OptFeat;
  fs_fund : FundFeat; fs_fblock1 : nat;
  fs_roll1 : list nat
}.
Definition FEAT_SYM_ZERO : FeatSym :=
  mkFeatSym 0 false false (mkBbo 0 0 0 0) false (mkDF 0 0 0 0) (mkOF 0 0 0 0) (mkFF 0 0 0) 0 (replicate MAX_ROLL_PER_SYM 0%nat).
#[export] Instance feat_sym_inhabited : Inhabited FeatSym := populate FEAT_SYM_ZERO.

Definition set_bbo (stale : bool) (b : Bbo) (s : FeatSym) : FeatSym :=
  mkFeatSym (fs_sym s) (fs_used s) stale b (fs_depth_stale s) (fs_depth s) (fs_opt s) (fs_fund s) (fs_fblock1 s) (fs_roll1 s).
Definition set_depth_feat (stale : bool) (d : DepthFeat) (s : FeatSym) : FeatSym :=
  mkFeatSym (fs_sym s) (fs_used s) (fs_tick_stale s) (fs_bbo s) stale d (fs_opt s) (fs_fund s) (fs_fblock1 s) (fs_roll1 s).
Definition set_opt_feat (o : OptFeat) (s : FeatSym) : FeatSym :=
  mkFeatSym (fs_sym s) (fs_used s) (fs_tick_stale s) (fs_bbo s) (fs_depth_stale s) (fs_depth s) o (fs_fund s) (fs_fblock1 s) (fs_roll1 s).
Definition set_fund (f : FundFeat) (s : FeatSym) : FeatSym :=
  mkFeatSym (fs_sym s) (fs_used s) (fs_tick_stale s) (fs_bbo s) (fs_depth_stale s) (fs_depth s) (fs_opt s) f (fs_fblock1 s) (fs_roll1 s).
Definition set_fblock1 (b : nat) (s : FeatSym) : FeatSym :=
  mkFeatSym (fs_sym s) (fs_used s) (fs_tick_stale s) (fs_bbo s) (fs_depth_stale s) (fs_depth s) (fs_opt s) (fs_fund s) b (fs_roll1 s).
Definition set_roll1 (l : list nat) (s : FeatSym) : FeatSym :=
  mkFeatSym (fs_sym s) (fs_used s) (fs_tick_stale s) (fs_bbo s) (fs_depth_stale s) (fs_depth s) (fs_opt s) (fs_fund s) (fs_fblock1 s) l.
Definition claim_sym (sym : Z) (s : FeatSym) : FeatSym :=
  mkFeatSym sym true (fs_tick_stale s) (fs_bbo s) (fs_depth_stale s) (fs_depth s) (fs_opt s) (fs_fund s) (fs_fblock1 s) (fs_roll1 s).

(** How much of each pool is taken. *)
Record PoolsUsed := mkUsed { us_syms : Z; us_rolls : Z; us_blocks : Z }.

(** [off_ms] when [off_set]. *)
Record FeatureState := mkFeat {
  ft_syms : list FeatSym;
  ft_roll : list RollEntry;
  ft_funding : list FundingBlock;
  ft_off : option Z;
  ft_sym_exhausted : Z; ft_roll_exhausted : Z; ft_funding_exhausted : Z;
  ft_seeds_deduped : Z; ft_prints_recorded : Z;
  ft_used : PoolsUsed
}.

Definition FeatureState_new : FeatureState :=
  mkFeat (replicate FEAT_SYM_SLOTS FEAT_SYM_ZERO) (replicate ROLL_POOL_ENTRIES ROLL_ZERO)
    (replicate FUNDING_BLOCKS BLOCK_ZERO) None 0 0 0 0 0 (mkUsed 0 0 0).

Definition set_syms (l : list FeatSym) (f : FeatureState) : FeatureState :=
  mkFeat l (ft_roll f) (ft_funding f) (ft_off f) (ft_sym_exhausted f) (ft_roll_exhausted f) (ft_funding_exhausted f)
    (ft_seeds_deduped f) (ft_prints_recorded f) (ft_used f).
Definition set_rolls (l : list RollEntry) (f : FeatureState) : FeatureState :=
  mkFeat (ft_syms f) l (ft_funding f) (ft_off f) (ft_sym_exhausted f) (ft_roll_exhausted f) (ft_funding_exhausted f)
    (ft_seeds_deduped f) (ft_prints_recorded f) (ft_used f).
Definition set_funding (l : list FundingBlock) (f : FeatureState) : FeatureState :=
  mkFeat (ft_syms f) (ft_roll f) l (ft_off f) (ft_sym_exhausted f) (ft_roll_exhausted f) (ft_funding_exhausted f)
    (ft_seeds_deduped f) (ft_prints_recorded f) (ft_used f).
Definition set_off (o : option Z) (f : FeatureState) : FeatureState :=
  mkFeat (ft_syms f) (ft_roll f) (ft_funding f) o (ft_sym_exhausted f) (ft_roll_exhausted f) (ft_funding_exhausted f)
    (ft_seeds_deduped f) (ft_prints_recorded f) (ft_used f).
Definition count_sym_exhausted (f : FeatureState) : FeatureState :=
  mkFeat (ft_syms f) (ft_roll f) (ft_funding f) (ft_off f) (wrap_u64 (ft_sym_exhausted f + 1)) (ft_roll_exhausted f)
    (ft_funding_exhausted f) (ft_seeds_deduped f) (ft_prints_recorded f) (ft_used f).
Definition count_roll_exhausted (f : FeatureState) : FeatureState :=
  mkFeat (ft_syms f) (ft_roll f) (ft_funding f) (ft_off f) (ft_sym_exhausted f) (wrap_u64 (ft_roll_exhausted f + 1))
    (ft_funding_exhausted f) (ft_seeds_deduped f) (ft_prints_recorded f) (ft_used f).
Definition count_funding_exhausted (f : FeatureState) : FeatureState :=
  mkFeat (ft_syms f) (ft_roll f) (ft_funding f) (ft_off f) (ft_sym_exhausted f) (ft_roll_exhausted f)
    (wrap_u64 (ft_funding_exhausted f + 1)) (ft_seeds_deduped f) (ft_prints_recorded f) (ft_used f).
Definition count_seed_deduped (f : FeatureState) : FeatureState :=
  mkFeat (ft_syms f) (ft_roll f) (ft_funding f) (ft_off f) (ft_sym_exhausted f) (ft_roll_exhausted f)
    (ft_funding_exhausted f) (wrap_u64 (ft_seeds_deduped f + 1)) (ft_prints_recorded f) (ft_used f).
Definition count_print (f : FeatureState) : FeatureState :=
  mkFeat (ft_syms f) (ft_roll f) (ft_funding f) (ft_off f) (ft_sym_exhausted f) (ft_roll_exhausted f)
    (ft_funding_exhausted f) (ft_seeds_deduped f) (wrap_u64 (ft_prints_recorded f + 1)) (ft_used f).

Definition set_used (u : PoolsUsed) (f : FeatureState) : FeatureState :=
  mkFeat (ft_syms f) (ft_roll f) (ft_funding f) (ft_off f) (ft_sym_exhausted f) (ft_roll_exhausted f)
    (ft_funding_exhausted f) (ft_seeds_deduped f) (ft_prints_recorded f) u.
Definition count_sym_used (f : FeatureState) : FeatureState :=
  set_used (mkUsed (wrap_u32 (us_syms (ft_used f) + 1)) (us_rolls (ft_used f)) (us_blocks (ft_used f))) f.
Definition count_roll_used (f : FeatureState) : FeatureState :=
  set_used (mkUsed (us_syms (ft_used f)) (wrap_u32 (us_rolls (ft_used f) + 1)) (us_blocks (ft_used f))) f.
Definition count_block_used (f : FeatureState) : FeatureState :=
  set_used (mkUsed (us_syms (ft_used f)) (us_rolls (ft_used f)) (wrap_u32 (us_blocks (ft_used f) + 1))) f.
Definition clear_roll_used (f : FeatureState) : FeatureState :=
  set_used (mkUsed (us_syms (ft_used f)) 0 (us_blocks (ft_used f))) f.

Definition sym_at (f : FeatureState) (i : nat) : FeatSym := ft_syms f !!! i.
Definition upd_sym (i : nat) (g : FeatSym -> FeatSym) (f : FeatureState) : FeatureState :=
  set_syms (alter g i (ft_syms f)) f.

(** ** Symbol slots *)

Definition slot_hash (sym : Z) : nat :=
  Z.to_nat (Z.land (symbol_bucket_mix sym) (Z.of_nat FEAT_SYM_SLOTS - 1)).

(** The probe both walks share: the symbol's slot, the first free one, or
    neither in a whole turn. *)
Inductive Probed : Type := P_found (i : nat) | P_free (i : nat) | P_full.

Fixpoint probe_slots (sym : Z) (l : list FeatSym) (i probes : nat) : Probed :=
  match probes with
  | O => P_full
  | S n =>
      let s := l !!! i in
      if negb (fs_used s) then P_free i
      else if fs_sym s =? sym then P_found i
      else probe_slots sym l (Nat.modulo (S i) FEAT_SYM_SLOTS) n
  end.

Definition find_sym (sym : Z) (f : FeatureState) : option nat :=
  match probe_slots sym (ft_syms f) (slot_hash sym) FEAT_SYM_SLOTS with P_found i => Some i | _ => None end.

Definition find_or_claim (sym : Z) (f : FeatureState) : FeatureState * option nat :=
  match probe_slots sym (ft_syms f) (slot_hash sym) FEAT_SYM_SLOTS with
  | P_found i => (f, Some i)
  | P_free i => (count_sym_used (upd_sym i (claim_sym sym) f), Some i)
  | P_full => (count_sym_exhausted f, None)
  end.

(** ** The wall clock *)

Definition learn_wall (venue_time_ms mono_ns : Z) (f : FeatureState) : FeatureState :=
  if venue_time_ms =? 0 then f
  else set_off (Some (wrap_i64 (wrap_i64 venue_time_ms - wrap_i64 (mono_ns / 1000000)))) f.

Definition wall_ms (mono_ns : Z) (f : FeatureState) : option Z :=
  (fun off => wrap_i64 (wrap_i64 (mono_ns / 1000000) + off)) <$> ft_off f.

(** ** Ticks *)

Definition ring_slot (m w : Z) : nat := Nat.modulo (Z.to_nat (Z.rem m w)) ROLL_RING_MINUTES.

(** One minute sample into one bound ring: a fresh minute clears the skipped
    ones, an older minute is dropped. *)
Definition sample_entry (minute mid : Z) (e : RollEntry) : RollEntry :=
  let w := re_win e in
  let e :=
    if re_newest e <? minute then
      let clear_n := Z.min (minute - re_newest e - 1) w in
      mkRoll (foldl (fun ring g => <[ring_slot (re_newest e + g) w := 0]> ring) (re_ring e) (seqZ 1 clear_n))
        minute (re_cache e) (re_stats e) (re_sym e) w
    else e in
  if minute =? re_newest e
  then mkRoll (<[ring_slot minute (Z.max w 1) := mid]> (re_ring e)) (re_newest e) (re_cache e) (re_stats e) (re_sym e) w
  else e.

Definition sample_rolls (minute mid : Z) (roll1 : list nat) (rolls : list RollEntry) : list RollEntry :=
  foldl (fun rolls r1 => if (r1 =? 0)%nat then rolls else alter (sample_entry minute mid) (r1 - 1)%nat rolls) rolls roll1.

Definition feat_tick (t : Tick) (mono_ns : Z) (f : FeatureState) : FeatureState :=
  let bid := tk_bid_px t in
  let ask := tk_ask_px t in
  match find_or_claim (tk_sym t) f with
  | (f, None) => f
  | (f, Some idx) =>
      if is_stale t then upd_sym idx (fun s => set_bbo true (fs_bbo s) s) f
      else
        let two_sided := (0 <? bid) && (0 <? ask) in
        let mid := if two_sided then wrap_i64 (wrap_i64 (bid + ask) /t 2 * 1000) else 0 in
        let wall := wall_ms mono_ns f in
        let f := upd_sym idx (set_bbo false (mkBbo (if 0 <? bid then wrap_i64 (bid * 1000) else 0)
                                                   (if 0 <? ask then wrap_i64 (ask * 1000) else 0) mid mono_ns)) f in
        if two_sided then
          match wall with
          | None => f
          | Some w => set_rolls (sample_rolls (w /t MS_PER_MIN) mid (fs_roll1 (sym_at f idx)) (ft_roll f)) f
          end
        else f
  end.

(** ** Funding *)

Definition fblock_of (idx : nat) (f : FeatureState) : option nat :=
  let b1 := fs_fblock1 (sym_at f idx) in if (b1 =? 0)%nat then None else Some (b1 - 1)%nat.

Definition push_print (ts rate : Z) (b : FundingBlock) : FundingBlock :=
  mkBlock (<[fb_head b := (ts, rate)]> (fb_prints b)) (Nat.modulo (S (fb_head b)) FUNDING_RING_PRINTS)
    (if (fb_count b <? FUNDING_RING_PRINTS)%nat then S (fb_count b) else fb_count b) 0
    (fb_apr24 b) (fb_apr72 b) (fb_n24 b) (fb_n72 b) (fb_sym b) (fb_used b).

Definition claim_block (sym : Z) (b : FundingBlock) : FundingBlock :=
  mkBlock (fb_prints b) (fb_head b) (fb_count b) (fb_cache b) (fb_apr24 b) (fb_apr72 b) (fb_n24 b) (fb_n72 b) sym true.

Definition record_print (idx : nat) (ts rate : Z) (f : FeatureState) : FeatureState :=
  let '(f, b) :=
    match fblock_of idx f with
    | Some b => (f, Some b)
    | None =>
        match first_index (fun b => negb (fb_used b)) (ft_funding f) with
        | None => (count_funding_exhausted f, None)
        | Some b =>
            (count_block_used (upd_sym idx (set_fblock1 (S b))
               (set_funding (alter (claim_block (fs_sym (sym_at f idx))) b (ft_funding f)) f)), Some b)
        end
    end in
  match b with
  | None => f
  | Some b => count_print (set_funding (alter (push_print ts rate) b (ft_funding f)) f)
  end.

(** The venues whose funding events carry the next funding time. *)
Definition advance_venue (venue : Z) : bool :=
  existsb (Z.eqb venue) [VENUE_OKX; VENUE_BYBIT; VENUE_BINANCE; VENUE_MEXC].

Definition funding_advance (e : ChannelEvent) (f : FeatureState) : FeatureState :=
  match find_or_claim (ev_sym e) f with
  | (f, None) => f
  | (f, Some idx) =>
      let ff := fs_fund (sym_at f idx) in
      let f := if (0 <? ff_next_ms ff) && (ff_next_ms ff <? ev_v1 e)
               then record_print idx (ff_next_ms ff) (ff_pend_rate ff) f else f in
      upd_sym idx (fun s => set_fund (mkFF (if 0 <? ev_v1 e then ev_v1 e else ff_next_ms (fs_fund s)) (ev_v0 e)
                                          (ff_last_hour (fs_fund s))) s) f
  end.

(** An hourly sample: once per hour of [at_ms]. *)
Definition funding_sample (sym at_ms rate : Z) (f : FeatureState) : FeatureState :=
  match find_or_claim sym f with
  | (f, None) => f
  | (f, Some idx) =>
      let hour := at_ms /t MS_PER_HOUR in
      let ff := fs_fund (sym_at f idx) in
      if ff_last_hour ff =? hour then f
      else record_print idx (hour * MS_PER_HOUR) rate
             (upd_sym idx (set_fund (mkFF (ff_next_ms ff) (ff_pend_rate ff) hour)) f)
  end.

Definition feat_event (e : ChannelEvent) (mono_ns : Z) (f : FeatureState) : FeatureState :=
  let f := learn_wall (ev_venue_time_ms e) mono_ns f in
  if advance_venue (ev_venue e) && (ev_channel e =? CHANNEL_FUNDING) then funding_advance e f
  else if (ev_venue e =? VENUE_DERIBIT) && (ev_channel e =? CHANNEL_FUNDING) then
    if ev_venue_time_ms e =? 0 then f
    else funding_sample (ev_sym e) (wrap_i64 (ev_venue_time_ms e)) (if negb (ev_v1 e =? 0) then ev_v1 e else ev_v0 e) f
  else if (ev_venue e =? VENUE_HYPERLIQUID) && (ev_channel e =? CHANNEL_ASSET_CTX) then
    match wall_ms mono_ns f with
    | None => f
    | Some wall => funding_sample (ev_sym e) wall (ev_v0 e) f
    end
  else f.

(** Within half a period of a known print, a seed is that print. *)
Definition seed_tolerance_ms (sym : Z) : Z :=
  let period_ms := funding_period_s (symbol_venue_byte sym) * 1000 in
  if 0 <? period_ms then period_ms /t 2 else 30 * MS_PER_MIN.

Definition funding_seed (sym ts rate : Z) (f : FeatureState) : FeatureState :=
  match find_or_claim sym f with
  | (f, None) => f
  | (f, Some idx) =>
      let known :=
        match fblock_of idx f with
        | None => false
        | Some b =>
            let blk := ft_funding f !!! b in
            existsb (fun p => wrap_i64 (Z.abs (wrap_i64 (p.1 - ts))) <? seed_tolerance_ms sym) (take (fb_count blk) (fb_prints blk))
        end in
      if known then count_seed_deduped f else record_print idx ts rate f
  end.

(** ** Depth and options *)

Definition notional (l : list DepthLevel) : Z :=
  foldl (fun acc x => wrap_i128 (acc + dl_px x * dl_qty x)) 0 (take DEPTH_K l).

Definition feat_depth (d : DepthTopK) (mono_ns : Z) (f : FeatureState) : FeatureState :=
  match find_or_claim (dk_sym d) f with
  | (f, None) => f
  | (f, Some idx) =>
      if negb (Z.land (dk_flags d) DEPTH_FLAG_STALE =? 0)
      then upd_sym idx (fun s => set_depth_feat true (fs_depth s) s) f
      else
        let bid_not := notional (dk_bids d) in
        let ask_not := notional (dk_asks d) in
        let total := wrap_i128 (bid_not + ask_not) in
        let bb := dl_px (nth 0 (dk_bids d) LEVEL_EMPTY) in
        let ba := dl_px (nth 0 (dk_asks d) LEVEL_EMPTY) in
        let mid := wrap_i64 (bb + ba) /t 2 in
        let spread old :=
          if (0 <? bb) && (0 <? ba) && (0 <? dl_qty (nth 0 (dk_bids d) LEVEL_EMPTY))
             && (0 <? dl_qty (nth 0 (dk_asks d) LEVEL_EMPTY))
          then if 0 <? mid then wrap_i64 (wrap_i64 (ba - bb) * 10000 * 1000000000 /t mid) else old
          else 0 in
        upd_sym idx (fun s => set_depth_feat false
          (mkDF (if 0 <? total then wrap_i64 (wrap_i128 (wrap_i128 (bid_not - ask_not) * 1000000000) /t total) else 0)
             (spread (df_spread (fs_depth s))) (wrap_i64 (total /t 1000)) mono_ns) s) f
  end.

Definition feat_opt (o : OptSummary) (mono_ns : Z) (f : FeatureState) : FeatureState :=
  match find_or_claim (os_sym o) f with
  | (f, None) => f
  | (f, Some idx) => upd_sym idx (set_opt_feat (mkOF (os_flags o) (os_mark_px_1e9 o) (os_mark_iv_1e9 o) mono_ns)) f
  end.

(** ** Binding windows *)

Definition bind_entry (sym win : Z) (e : RollEntry) : RollEntry :=
  mkRoll (re_ring e) 0 0 (mkStats 0 (st_mean (re_stats e)) (st_ema (re_stats e)) (st_min (re_stats e)) (st_max (re_stats e))
    (st_std (re_stats e))) sym win.

(** Is the entry at [r1 - 1] the window [win]? *)
Definition is_win (rolls : list RollEntry) (win : Z) (r1 : nat) : bool :=
  negb (r1 =? 0)%nat && (re_win (rolls !!! (r1 - 1)%nat) =? win).

Definition bind_roll (sym win : Z) (f : FeatureState) : FeatureState * bool :=
  if (win =? 0) || (ROLL_WINDOW_MAX_MIN <? win) then (f, false)
  else match find_or_claim sym f with
       | (f, None) => (f, false)
       | (f, Some idx) =>
           let roll1 := fs_roll1 (sym_at f idx) in
           if existsb (is_win (ft_roll f) win) roll1 then (f, true)
           else match first_index (fun r1 => (r1 =? 0)%nat) roll1 with
                | None => (count_roll_exhausted f, false)
                | Some k =>
                    match first_index (fun e => re_win e =? 0) (ft_roll f) with
                    | None => (count_roll_exhausted f, false)
                    | Some e =>
                        (count_roll_used (upd_sym idx (fun s => set_roll1 (<[k := S e]> (fs_roll1 s)) s)
                           (set_rolls (alter (bind_entry sym win) e (ft_roll f)) f)), true)
                    end
                end
       end.

Definition unbind_entry (e : RollEntry) : RollEntry :=
  mkRoll (re_ring e) 0 0 (mkStats 0 (st_mean (re_stats e)) (st_ema (re_stats e)) (st_min (re_stats e)) (st_max (re_stats e))
    (st_std (re_stats e))) (re_sym e) 0.

Definition clear_roll_bindings (f : FeatureState) : FeatureState :=
  clear_roll_used (set_syms (set_roll1 (replicate MAX_ROLL_PER_SYM 0%nat) <$> ft_syms f) (set_rolls (unbind_entry <$> ft_roll f) f)).

(** ** Reads *)

(** The sample of minute [m] in the window ending now; 0 is none. *)
Definition ring_sample (e : RollEntry) (m : Z) : option Z :=
  if (0 <? m) && (re_newest e - re_win e <? m) && (m <=? re_newest e) then
    let v := get (re_ring e) (ring_slot m (re_win e)) in
    if 0 <? v then Some v else None
  else None.

Record RollAcc := mkAcc { ac_n : Z; ac_sum : Z; ac_sumsq : Z; ac_mn : Z; ac_mx : Z; ac_ema : Z }.
Definition ACC_ZERO : RollAcc := mkAcc 0 0 0 i64_max i64_min 0.

Definition acc_sample (alpha : Z) (a : RollAcc) (v : Z) : RollAcc :=
  let n := ac_n a + 1 in
  mkAcc n (wrap_i64 (ac_sum a + v)) (wrap_i128 (ac_sumsq a + v * v))
    (if v <? ac_mn a then v else ac_mn a) (if ac_mx a <? v then v else ac_mx a)
    (if n =? 1 then v else wrap_i64 (ac_ema a + wrap_i64 (alpha * wrap_i64 (v - ac_ema a) /t 1000000000))).

Definition window_stats (w : Z) (samples : list Z) : RollStats :=
  let a := foldl (acc_sample (2000000000 /t (w + 1))) ACC_ZERO samples in
  if ac_n a =? 0 then NO_STATS
  else
    let mean := ac_sum a /t ac_n a in
    let var := ac_sumsq a /t ac_n a - mean * mean in
    mkStats (ac_n a) mean (ac_ema a) (ac_mn a) (ac_mx a) (isqrt_i128 (Z.max var 0)).

Definition refresh_roll (minute : Z) (e : RollEntry) : RollEntry :=
  if re_cache e =? minute then e
  else mkRoll (re_ring e) (re_newest e) minute
         (window_stats (re_win e) (omap (ring_sample e) (seqZ (minute - re_win e + 1) (re_win e)))) (re_sym e) (re_win e).

(** The sum and count of the prints in [[lo, wall]]. *)
Definition prints_in (lo wall : Z) (ps : list (Z * Z)) : Z * Z :=
  let kept := filter (fun p => lo <= p.1 /\ p.1 <= wall) ps in
  (foldr Z.add 0 (snd <$> kept), Z.of_nat (length kept)).

Definition refresh_apr (wall : Z) (b : FundingBlock) : FundingBlock :=
  let minute := wall /t MS_PER_MIN in
  if fb_cache b =? minute then b
  else
    let div := funding_print_divisor (symbol_venue_byte (fb_sym b)) in
    let ps := take (fb_count b) (fb_prints b) in
    let '(sum24, n24) := prints_in (wrap_i64 (wall - FUNDING_WINDOW_24H_MIN * MS_PER_MIN)) wall ps in
    let '(sum72, n72) := prints_in (wrap_i64 (wall - FUNDING_WINDOW_72H_MIN * MS_PER_MIN)) wall ps in
    mkBlock (fb_prints b) (fb_head b) (fb_count b) minute (wrap_i64 (sum24 * 365 /t div)) (wrap_i64 (sum72 * 365 /t (div * 3)))
      n24 n72 (fb_sym b) (fb_used b).

Definition roll_entry_of (idx : nat) (win : Z) (f : FeatureState) : option nat :=
  if win =? 0 then None
  else (fun r1 => (r1 - 1)%nat) <$> (find (is_win (ft_roll f) win) (fs_roll1 (sym_at f idx))).

Definition stat_of (id : FeatId) (s : RollStats) : Z :=
  match id with
  | RollMean => st_mean s
  | RollEma => st_ema s
  | RollMin => st_min s
  | RollMax => st_max s
  | _ => st_std s
  end.

Definition read_roll (id : FeatId) (idx : nat) (win mono_ns : Z) (f : FeatureState) : FeatureState * option Z :=
  match wall_ms mono_ns f with
  | None => (f, None)
  | Some wall =>
      match roll_entry_of idx win f with
      | None => (f, None)
      | Some e =>
          let f := set_rolls (alter (refresh_roll (wall /t MS_PER_MIN)) e (ft_roll f)) f in
          let s := re_stats (ft_roll f !!! e) in
          (f, if st_n s =? 0 then None else Some (stat_of id s))
      end
  end.

Definition read_apr (short : bool) (idx : nat) (mono_ns : Z) (f : FeatureState) : FeatureState * option Z :=
  match wall_ms mono_ns f with
  | None => (f, None)
  | Some wall =>
      match fblock_of idx f with
      | None => (f, None)
      | Some b =>
          let f := set_funding (alter (refresh_apr wall) b (ft_funding f)) f in
          let blk := ft_funding f !!! b in
          (f, if short then (if fb_n24 blk =? 0 then None else Some (fb_apr24 blk))
              else (if fb_n72 blk =? 0 then None else Some (fb_apr72 blk)))
      end
  end.

Definition clock_to_funding (sym : Z) (idx : nat) (mono_ns : Z) (f : FeatureState) : option Z :=
  match wall_ms mono_ns f with
  | None => None
  | Some wall =>
      let venue := symbol_venue_byte sym in
      if funding_period_s venue =? 0 then None
      else
        let next :=
          if venue =? VENUE_HYPERLIQUID then Some ((wall /t MS_PER_HOUR + 1) * MS_PER_HOUR)
          else let n := ff_next_ms (fs_fund (sym_at f idx)) in if n <=? 0 then None else Some n in
        (fun n => wrap_i64 (Z.max (wrap_i64 (n - wall)) 0 * 1000000)) <$> next
  end.

Definition feat_get (id : FeatId) (sym win mono_ns : Z) (f : FeatureState) : FeatureState * option Z :=
  match find_sym sym f with
  | None => (f, None)
  | Some idx =>
      let s := sym_at f idx in
      let live v := if (0 <? bb_ns (fs_bbo s)) && negb (fs_tick_stale s) && (0 <? v) then Some v else None in
      let depth v := if (df_ns (fs_depth s) =? 0) || fs_depth_stale s then None else Some v in
      match id with
      | Mid => (f, live (bb_mid (fs_bbo s)))
      | BestBid => (f, live (bb_bid (fs_bbo s)))
      | BestAsk => (f, live (bb_ask (fs_bbo s)))
      | RollMean | RollEma | RollMin | RollMax | RollStd => read_roll id idx win mono_ns f
      | Apr24 => read_apr true idx mono_ns f
      | Apr72 => read_apr false idx mono_ns f
      | MarkPx => (f, if (0 <? of_ns (fs_opt s)) && negb (Z.land (of_flags (fs_opt s)) OPT_SUMMARY_FLAG_MARK_PX =? 0)
                      then Some (of_mark_px (fs_opt s)) else None)
      | MarkIv => (f, if 0 <? of_ns (fs_opt s) then Some (of_mark_iv (fs_opt s)) else None)
      | DepthImb => (f, depth (df_imb (fs_depth s)))
      | DepthSpreadBps => (f, depth (df_spread (fs_depth s)))
      | DepthNearNotional => (f, depth (df_near (fs_depth s)))
      | ClockToFunding => (f, clock_to_funding sym idx mono_ns f)
      | ClockUtcSod => (f, (fun wall => wrap_i64 (wall mod MS_PER_DAY * 1000000)) <$> wall_ms mono_ns f)
      end
  end.

Definition funding_prints (sym : Z) (f : FeatureState) : nat :=
  match find_sym sym f with
  | None => 0%nat
  | Some idx => match fblock_of idx f with None => 0%nat | Some b => fb_count (ft_funding f !!! b) end
  end.

(** ** The engine behind the VM's interface *)

#[export] Instance engine_features : Features FeatureState := {
  feat_read id sym win now f := feat_get id sym win now f;
  feat_on_tick := feat_tick;
  feat_on_venue_event := feat_event;
  feat_on_depth := feat_depth;
  feat_on_opt_summary := feat_opt;
  feat_funding_seed := funding_seed;
  feat_clear_roll_bindings := clear_roll_bindings;
  feat_bind_roll := bind_roll
}.
