(* ===== verification/FeatureProofs.v ===== *)
(** * The feature engine keeps what it was shown

    The integer root is the floor root; the symbol table is a map until it is
    full; a rolling read is the statistics of the window's last-of-minute
    mids, whatever the ring held before. *)

From S2P Require Import Prelude CoreTypes RuleTable FeatureEngine.

(** ** The integer root *)

(** Each step halves the distance, so [fuel] steps cover [2 ^ fuel]. *)
Lemma newton_sqrt v fuel x y :
  0 < v -> Z.sqrt v <= x -> Z.sqrt v <= y -> 0 < y ->
  (Z.sqrt v < x -> y - Z.sqrt v <= (x - Z.sqrt v) / 2) -> x - Z.sqrt v < 2 ^ Z.of_nat fuel ->
  newton fuel v x y = Z.sqrt v.
Proof.
  intros Hv. revert x y. induction fuel as [|fuel IH]; intros x y Hx Hy Hp Hstep Hf.
  - cbn [newton]. change (2 ^ Z.of_nat 0) with 1 in Hf. lia.
  - cbn [newton]. destruct (Z.ltb_spec y x) as [Hl|Hl].
    + specialize (Hstep ltac:(lia)). apply IH; [done| | | |].
      * apply newton_above; lia.
      * pose proof (newton_above v y Hp ltac:(lia)). pose proof (Z.sqrt_pos v) as [_ Hs]. specialize (Hs Hv). lia.
      * intros G. apply newton_below; lia.
      * rewrite Nat2Z.inj_succ, Z.pow_succ_r in Hf by lia.
        assert ((x - Z.sqrt v) / 2 < 2 ^ Z.of_nat fuel) by (apply Z.div_lt_upper_bound; lia). lia.
    + destruct (Z.le_gt_cases x (Z.sqrt v)) as [|G]; [lia|]. specialize (Hstep G).
      assert ((x - Z.sqrt v) / 2 < x - Z.sqrt v) by (apply Z.div_lt; lia). lia.
Qed.

Lemma isqrt_floor v : v <= i128_max -> isqrt_i128 v = Z.min i64_max (Z.sqrt v).
Proof.
  intros Hv. unfold isqrt_i128. destruct (Z.leb_spec v 0) as [H0|H0].
  { destruct (Z.eq_dec v 0) as [->|]; [done|]. by rewrite Z.sqrt_neg by lia. }
  destruct (Z.ltb_spec v 4) as [H4|H4].
  { assert (v = 1 \/ v = 2 \/ v = 3) as [-> |[-> | ->]] by lia; done. }
  cbv zeta. rewrite newton_sqrt; [destruct (Z.ltb_spec i64_max (Z.sqrt v)); lia|done| | | | |].
  - apply Z.sqrt_le_lin. lia.
  - pose proof (newton_above v 2 ltac:(lia) ltac:(lia)). rewrite Z.quot_div_nonneg in * by lia.
    rewrite !Z.shiftr_div_pow2 in * by lia. change (2 ^ 1) with 2 in *.
    assert ((2 + v / 2) / 2 <= v / 2 + 1); [|lia]. pose proof (Z.div_pos v 2 ltac:(lia) ltac:(lia)).
    apply Z.div_le_upper_bound; lia.
  - rewrite Z.shiftr_div_pow2 by lia. change (2 ^ 1) with 2. pose proof (Z.div_pos v 2 ltac:(lia) ltac:(lia)). lia.
  - intros _. rewrite Z.shiftr_div_pow2 by lia. change (2 ^ 1) with 2.
    assert (2 <= Z.sqrt v) by (apply (Z.sqrt_le_mono 4); lia).
    assert ((v - 2 * (Z.sqrt v - 1) + (Z.sqrt v - 1) * 2) / 2 = (v - 2 * (Z.sqrt v - 1)) / 2 + (Z.sqrt v - 1)) as E
      by (apply Z.div_add; lia).
    replace (v - 2 * (Z.sqrt v - 1) + (Z.sqrt v - 1) * 2) with v in E by lia.
    assert ((v - 2 * (Z.sqrt v - 1)) / 2 <= (v - Z.sqrt v) / 2) by (apply Z.div_le_mono; lia). lia.
  - unfold ISQRT_FUEL, i128_max in *. pose proof (Z.sqrt_nonneg v). change (Z.of_nat 129) with 129. lia.
Qed.

(** ** The symbol table *)

Lemma slots_pos : (0 < FEAT_SYM_SLOTS)%nat.
Proof. unfold FEAT_SYM_SLOTS. lia. Qed.

Lemma slot_hash_lt sym : (slot_hash sym < FEAT_SYM_SLOTS)%nat.
Proof.
  unfold slot_hash. change (Z.of_nat FEAT_SYM_SLOTS - 1) with (Z.ones 12). rewrite Z.land_ones by lia.
  pose proof (Z.mod_pos_bound (symbol_bucket_mix sym) (2 ^ 12) ltac:(lia)). unfold FEAT_SYM_SLOTS. lia.
Qed.

(** Every pool fits the width of its count. *)
Lemma pool_count n : (n < Nat.max FEAT_SYM_SLOTS (Nat.max ROLL_POOL_ENTRIES FUNDING_BLOCKS))%nat -> wrap_u32 (Z.of_nat n + 1) = Z.of_nat (S n).
Proof.
  intros Hn. apply Nat2Z.inj_lt in Hn. change (Z.of_nat (Nat.max _ _)) with 4096 in Hn.
  unfold wrap_u32. rewrite Z.mod_small by lia. lia.
Qed.

#[local] Opaque FEAT_SYM_SLOTS.

(** The slot [d] probes after [i]. *)
Definition nth_probe (i d : nat) : nat := Nat.modulo (i + d) FEAT_SYM_SLOTS.

Lemma nth_probe_lt i d : (nth_probe i d < FEAT_SYM_SLOTS)%nat.
Proof. apply Nat.mod_upper_bound. pose proof slots_pos. lia. Qed.

Lemma nth_probe_S i d : nth_probe (Nat.modulo (S i) FEAT_SYM_SLOTS) d = nth_probe i (S d).
Proof.
  unfold nth_probe. pose proof slots_pos. rewrite Nat.Div0.add_mod_idemp_l. f_equal. lia.
Qed.

Definition taken_by_other (l : list FeatSym) (sym : Z) (j : nat) : Prop :=
  fs_used (l !!! j) = true /\ fs_sym (l !!! j) <> sym.

(** Where a probe stops, and what it passed. *)
Lemma probe_spec sym l i n : (i < FEAT_SYM_SLOTS)%nat ->
  match probe_slots sym l i n with
  | P_found j => exists d, (d < n)%nat /\ j = nth_probe i d /\ fs_used (l !!! j) = true /\ fs_sym (l !!! j) = sym
                  /\ forall d', (d' < d)%nat -> taken_by_other l sym (nth_probe i d')
  | P_free j => exists d, (d < n)%nat /\ j = nth_probe i d /\ fs_used (l !!! j) = false
                  /\ forall d', (d' < d)%nat -> taken_by_other l sym (nth_probe i d')
  | P_full => forall d', (d' < n)%nat -> taken_by_other l sym (nth_probe i d')
  end.
Proof.
  revert i. induction n as [|n IH]; intros i Hi; cbn [probe_slots]; [intros d' Hd; lia|].
  assert (nth_probe i 0 = i) as E0 by (unfold nth_probe; rewrite Nat.add_0_r; by apply Nat.mod_small).
  destruct (fs_used (l !!! i)) eqn:Eu; cbn [negb].
  2: { exists 0%nat. rewrite E0. split_and!; [lia|done|done|intros d' Hd; lia]. }
  destruct (Z.eqb_spec (fs_sym (l !!! i)) sym) as [Es|Es].
  { exists 0%nat. rewrite E0. split_and!; [lia|done|done|done|intros d' Hd; lia]. }
  assert (Nat.modulo (S i) FEAT_SYM_SLOTS < FEAT_SYM_SLOTS)%nat as Hi' by (apply Nat.mod_upper_bound; lia).
  specialize (IH _ Hi'). assert (taken_by_other l sym (nth_probe i 0)) as T0 by (rewrite E0; done).
  assert (forall d, (forall d', (d' < d)%nat -> taken_by_other l sym (nth_probe (Nat.modulo (S i) FEAT_SYM_SLOTS) d')) ->
    forall d', (d' < S d)%nat -> taken_by_other l sym (nth_probe i d')) as Shift.
  { intros d Hd [|d'] Hl; [done|]. rewrite <- nth_probe_S. apply Hd. lia. }
  destruct (probe_slots sym l (Nat.modulo (S i) FEAT_SYM_SLOTS) n) as [j|j|].
  - destruct IH as (d & Hd & Ej & Ej1 & Ej2 & Path). exists (S d). rewrite <- nth_probe_S.
    refine (conj _ (conj Ej (conj Ej1 (conj Ej2 (Shift d Path))))). lia.
  - destruct IH as (d & Hd & Ej & Ej1 & Path). exists (S d). rewrite <- nth_probe_S.
    refine (conj _ (conj Ej (conj Ej1 (Shift d Path)))). lia.
  - by apply Shift.
Qed.

(** Every claimed symbol is where its own probe ends. *)
Record slots_ok (l : list FeatSym) : Prop := {
  so_len : length l = FEAT_SYM_SLOTS;
  so_path : forall i, (i < FEAT_SYM_SLOTS)%nat -> fs_used (l !!! i) = true ->
    exists d, (d < FEAT_SYM_SLOTS)%nat /\ i = nth_probe (slot_hash (fs_sym (l !!! i))) d /\
      forall d', (d' < d)%nat -> taken_by_other l (fs_sym (l !!! i)) (nth_probe (slot_hash (fs_sym (l !!! i))) d')
}.

Lemma first_stop (P : nat -> Prop) (d e : nat) :
  (forall d', (d' < d)%nat -> P d') -> (forall d', (d' < e)%nat -> P d') -> ~ P d -> ~ P e -> d = e.
Proof.
  intros Hd He Nd Ne. destruct (Nat.lt_trichotomy d e) as [L|[L|L]]; [|done|]; exfalso; auto.
Qed.

Lemma probe_found sym l i : slots_ok l -> (i < FEAT_SYM_SLOTS)%nat -> fs_used (l !!! i) = true -> fs_sym (l !!! i) = sym ->
  probe_slots sym l (slot_hash sym) FEAT_SYM_SLOTS = P_found i.
Proof.
  intros [_ Path] Hi Hu Hs. destruct (Path i Hi Hu) as (d & Hd & Ei & Pd). rewrite Hs in *.
  pose proof (probe_spec sym l (slot_hash sym) FEAT_SYM_SLOTS (slot_hash_lt sym)) as Sp.
  assert (~ taken_by_other l sym (nth_probe (slot_hash sym) d)) as Nd by (rewrite <- Ei; intros [_ ?]; done).
  destruct (probe_slots sym l (slot_hash sym) FEAT_SYM_SLOTS) as [j|j|].
  - destruct Sp as (e & _ & Ej & _ & Es & Pe).
    assert (d = e) as <-; [|by rewrite Ej, Ei].
    apply (first_stop (fun d' => taken_by_other l sym (nth_probe (slot_hash sym) d')) d e Pd Pe Nd).
    rewrite <- Ej. by intros [_ ?].
  - destruct Sp as (e & _ & Ej & Eu & Pe).
    assert (d = e) as E; [|rewrite E, <- Ej in Ei; congruence].
    apply (first_stop (fun d' => taken_by_other l sym (nth_probe (slot_hash sym) d')) d e Pd Pe Nd).
    rewrite <- Ej. intros [? _]. congruence.
  - exfalso. by apply Nd, Sp.
Qed.

Lemma find_sym_spec sym f i : slots_ok (ft_syms f) ->
  find_sym sym f = Some i <-> (i < FEAT_SYM_SLOTS)%nat /\ fs_used (sym_at f i) = true /\ fs_sym (sym_at f i) = sym.
Proof.
  intros K. unfold find_sym, sym_at. split.
  - pose proof (probe_spec sym (ft_syms f) (slot_hash sym) FEAT_SYM_SLOTS (slot_hash_lt sym)) as Sp.
    destruct (probe_slots _ _ _ _); [|done|done]. intros [= ->]. destruct Sp as (d & _ & -> & ? & ? & _).
    split_and!; auto using nth_probe_lt.
  - intros (Hi & Hu & Hs). by rewrite (probe_found sym (ft_syms f) i K Hi Hu Hs).
Qed.

Lemma slot_lookup (l : list FeatSym) i : (i < length l)%nat -> l !! i = Some (l !!! i).
Proof. apply list_lookup_lookup_total_lt. Qed.

Lemma alter_at {A} `{!Inhabited A} (g : A -> A) i j (l : list A) : (i < length l)%nat ->
  alter g i l !!! j = if decide (j = i) then g (l !!! i) else l !!! j.
Proof.
  intros Hi. rewrite !list_lookup_total_alt. case_decide as E; [subst|by rewrite list_lookup_alter_ne].
  rewrite list_lookup_alter_eq, (list_lookup_lookup_total_lt l i) by done. done.
Qed.

(** Changing what a slot holds leaves the table. *)
Lemma slots_upd g i l : slots_ok l -> (forall s, fs_sym (g s) = fs_sym s /\ fs_used (g s) = fs_used s) -> slots_ok (alter g i l).
Proof.
  intros [L P] G.
  assert (forall j, fs_sym (alter g i l !!! j) = fs_sym (l !!! j) /\ fs_used (alter g i l !!! j) = fs_used (l !!! j)) as E.
  { intros j. destruct (decide (i < length l)%nat) as [Hi|Hi].
    - rewrite alter_at by done. case_decide; [subst; apply G|done].
    - rewrite !list_lookup_total_alt. destruct (decide (j = i)) as [->|Hne]; [|by rewrite list_lookup_alter_ne].
      by rewrite list_lookup_alter_eq, lookup_ge_None_2 by lia. }
  split; [by rewrite length_alter|]. intros j Hj. destruct (E j) as [-> ->]. intros Hu. destruct (P j Hj Hu) as (d & Hd & Ej & Pd).
  exists d. split_and!; [done|done|]. intros d' Hd'. unfold taken_by_other in *.
  destruct (E (nth_probe (slot_hash (fs_sym (l !!! j))) d')) as [-> ->]. by apply Pd.
Qed.

Lemma nth_probe_onto i k : (i < FEAT_SYM_SLOTS)%nat -> (k < FEAT_SYM_SLOTS)%nat ->
  exists d, (d < FEAT_SYM_SLOTS)%nat /\ nth_probe i d = k.
Proof.
  intros Hi Hk. unfold nth_probe. destruct (Nat.le_gt_cases i k).
  - exists (k - i)%nat. split; [lia|]. replace (i + (k - i))%nat with k by lia. by apply Nat.mod_small.
  - exists (k + FEAT_SYM_SLOTS - i)%nat. split; [lia|].
    replace (i + (k + FEAT_SYM_SLOTS - i))%nat with (k + 1 * FEAT_SYM_SLOTS)%nat by lia.
    rewrite Nat.Div0.mod_add. by apply Nat.mod_small.
Qed.

Lemma probe_full_used sym l i : (i < FEAT_SYM_SLOTS)%nat -> probe_slots sym l i FEAT_SYM_SLOTS = P_full ->
  forall k, (k < FEAT_SYM_SLOTS)%nat -> taken_by_other l sym k.
Proof.
  intros Hi E k Hk. pose proof (probe_spec sym l i FEAT_SYM_SLOTS Hi) as Sp. rewrite E in Sp.
  destruct (nth_probe_onto i k Hi Hk) as (d & Hd & <-). by apply Sp.
Qed.

Lemma probe_free sym l i j : (i < FEAT_SYM_SLOTS)%nat -> probe_slots sym l i FEAT_SYM_SLOTS = P_free j ->
  (j < FEAT_SYM_SLOTS)%nat /\ fs_used (l !!! j) = false.
Proof.
  intros Hi E. pose proof (probe_spec sym l i FEAT_SYM_SLOTS Hi) as Sp. rewrite E in Sp.
  destruct Sp as (d & _ & -> & Hu & _). auto using nth_probe_lt.
Qed.

Lemma slots_claim sym l i : slots_ok l -> probe_slots sym l (slot_hash sym) FEAT_SYM_SLOTS = P_free i ->
  slots_ok (alter (claim_sym sym) i l).
Proof.
  intros [L P] E. pose proof (probe_free sym l _ i (slot_hash_lt sym) E) as [Hi Hu].
  assert (i < length l)%nat as Hil by lia.
  assert (forall s j, taken_by_other l s j -> taken_by_other (alter (claim_sym sym) i l) s j) as Keep.
  { intros s j [Ju Js]. unfold taken_by_other. rewrite alter_at by done. case_decide as D; [|done]. subst j. congruence. }
  split; [by rewrite length_alter|]. intros j Hj. rewrite alter_at by done. case_decide as D.
  - subst j. intros _. cbn [fs_sym claim_sym]. pose proof (probe_spec sym l _ FEAT_SYM_SLOTS (slot_hash_lt sym)) as Sp. rewrite E in Sp.
    destruct Sp as (d & Hd & Ei & _ & Pd). exists d. split_and!; auto.
  - intros Ju. destruct (P j Hj Ju) as (d & Hd & Ej & Pd). exists d. split_and!; auto.
Qed.

Lemma slots_same l i j : slots_ok l -> (i < FEAT_SYM_SLOTS)%nat -> (j < FEAT_SYM_SLOTS)%nat ->
  fs_used (l !!! i) = true -> fs_used (l !!! j) = true -> fs_sym (l !!! i) = fs_sym (l !!! j) -> i = j.
Proof.
  intros K Hi Hj Ui Uj E. pose proof (probe_found _ l i K Hi Ui E) as A.
  pose proof (probe_found _ l j K Hj Uj eq_refl) as B. congruence.
Qed.

(** ** Pools are taken in order *)

Lemma first_index_prefix {A} `{!Inhabited A} (p : A -> bool) (l : list A) n :
  (n <= length l)%nat -> (forall e, (e < length l)%nat -> p (l !!! e) = bool_decide (n <= e)%nat) ->
  first_index p l = if (n <? length l)%nat then Some n else None.
Proof.
  revert n. induction l as [|x l IH]; intros n Hn Hp; [cbn in Hn; assert (n = 0%nat) as -> by lia; done|].
  cbn [first_index]. pose proof (Hp 0%nat ltac:(cbn; lia)) as H0. cbn in H0. rewrite H0. case_bool_decide as D.
  - assert (n = 0%nat) as -> by lia. done.
  - destruct n as [|n]; [lia|]. cbn [length] in *. rewrite (IH n); [|lia|].
    { change (S n <? S (length l))%nat with (n <? length l)%nat. by destruct (n <? length l)%nat. }
    intros e He. specialize (Hp (S e) ltac:(lia)). change ((x :: l) !!! S e) with (l !!! e) in Hp.
    rewrite Hp. by repeat case_bool_decide; try lia.
Qed.
