(* ===== verification/FeatureSpec.v ===== *)
(** * What the feature engine promises

    A map from symbols to their latest values, the settled funding prints and
    the bound windows, each window a history of last-of-minute mids. No ring,
    no slot, no index: only the three pool sizes remain. *)

From stdpp Require Import gmap.
From S2P Require Import Prelude CoreTypes Ladder RuleTable Router Vm FeatureEngine.

#[local] Open Scope machine_scope.

(** ** A window's history *)

Record Hist := mkHist { hi_mids : gmap Z Z; hi_newest : Z; hi_cache : Z; hi_stats : RollStats }.
Definition HIST_EMPTY : Hist := mkHist ∅ 0 0 NO_STATS.

(** The last mid of a minute stands; a minute already passed is dropped. *)
Definition h_sample (minute mid : Z) (h : Hist) : Hist :=
  if minute <? hi_newest h then h
  else mkHist (<[minute := mid]> (hi_mids h)) minute (hi_cache h) (hi_stats h).

(** A minute counts while it is within [w] of the newest one. *)
Definition h_mid (w : Z) (h : Hist) (m : Z) : option Z :=
  if (0 <? m) && (hi_newest h - w <? m)
  then match hi_mids h !! m with Some v => if 0 <? v then Some v else None | None => None end
  else None.

(** The mids of the last [w] minutes, oldest first. *)
Definition h_window (minute w : Z) (h : Hist) : list Z := omap (h_mid w h) (seqZ (minute - w + 1) w).

(** Statistics are those of the minute's first read. *)
Definition h_refresh (minute w : Z) (h : Hist) : Hist :=
  if hi_cache h =? minute then h
  else mkHist (hi_mids h) (hi_newest h) minute (window_stats w (h_window minute w h)).

(** ** Funding prints, newest first *)

Record Prints := mkPrints { pr_all : list (Z * Z); pr_cache : Z; pr_apr24 : Z; pr_apr72 : Z; pr_n24 : Z; pr_n72 : Z }.
Definition PRINTS_EMPTY : Prints := mkPrints [] 0 0 0 0 0.

(** Only the newest prints are kept. *)
Definition pr_kept (p : Prints) : list (Z * Z) := take FUNDING_RING_PRINTS (pr_all p).

Definition p_push (ts rate : Z) (p : Prints) : Prints :=
  mkPrints ((ts, rate) :: pr_all p) 0 (pr_apr24 p) (pr_apr72 p) (pr_n24 p) (pr_n72 p).

(** The annualised sum of a window of [days] days, and its prints. *)
Definition p_apr (sym wall win_min days : Z) (p : Prints) : Z * Z :=
  let '(sum, n) := prints_in (wrap_i64 (wall - win_min * MS_PER_MIN)) wall (pr_kept p) in
  (wrap_i64 (sum * 365 /t (funding_print_divisor (symbol_venue_byte sym) * days)), n).

Definition p_refresh (sym wall : Z) (p : Prints) : Prints :=
  let minute := wall /t MS_PER_MIN in
  if pr_cache p =? minute then p
  else
    let s := p_apr sym wall FUNDING_WINDOW_24H_MIN 1 p in
    let l := p_apr sym wall FUNDING_WINDOW_72H_MIN 3 p in
    mkPrints (pr_all p) minute s.1 l.1 s.2 l.2.

(** ** A symbol *)

Record Latest := mkLatest {
  la_stale : bool; la_bbo : Bbo; la_depth_stale : bool; la_depth : DepthFeat; la_opt : OptFeat; la_fund : FundFeat
}.
Definition LATEST_ZERO : Latest := mkLatest false (mkBbo 0 0 0 0) false (mkDF 0 0 0 0) (mkOF 0 0 0 0) (mkFF 0 0 0).

Record SymSpec := mkSS { ss_latest : Latest; ss_prints : option Prints; ss_wins : list (Z * Hist) }.
Definition SS_ZERO : SymSpec := mkSS LATEST_ZERO None [].

Definition on_latest (g : Latest -> Latest) (s : SymSpec) : SymSpec := mkSS (g (ss_latest s)) (ss_prints s) (ss_wins s).
Definition on_wins (g : list (Z * Hist) -> list (Z * Hist)) (s : SymSpec) : SymSpec :=
  mkSS (ss_latest s) (ss_prints s) (g (ss_wins s)).
Definition with_prints (p : Prints) (s : SymSpec) : SymSpec := mkSS (ss_latest s) (Some p) (ss_wins s).

Definition la_set_bbo (stale : bool) (b : Bbo) (l : Latest) : Latest :=
  mkLatest stale b (la_depth_stale l) (la_depth l) (la_opt l) (la_fund l).
Definition la_set_depth (stale : bool) (d : DepthFeat) (l : Latest) : Latest :=
  mkLatest (la_stale l) (la_bbo l) stale d (la_opt l) (la_fund l).
Definition la_set_opt (o : OptFeat) (l : Latest) : Latest :=
  mkLatest (la_stale l) (la_bbo l) (la_depth_stale l) (la_depth l) o (la_fund l).
Definition la_set_fund (f : FundFeat) (l : Latest) : Latest :=
  mkLatest (la_stale l) (la_bbo l) (la_depth_stale l) (la_depth l) (la_opt l) f.

(** ** The whole *)

Record Tally := mkTally { ta_sym_full : Z; ta_roll_full : Z; ta_funding_full : Z; ta_deduped : Z; ta_prints : Z }.

Record SFeat := mkSFeat { sp_syms : gmap Z SymSpec; sp_off : option Z; sp_nwins : nat; sp_nblocks : nat; sp_tally : Tally }.

Definition SFeat_new : SFeat := mkSFeat ∅ None 0 0 (mkTally 0 0 0 0 0).

Definition sp_upd (sym : Z) (g : SymSpec -> SymSpec) (a : SFeat) : SFeat :=
  mkSFeat (alter g sym (sp_syms a)) (sp_off a) (sp_nwins a) (sp_nblocks a) (sp_tally a).
Definition sp_set_off (o : option Z) (a : SFeat) : SFeat :=
  mkSFeat (sp_syms a) o (sp_nwins a) (sp_nblocks a) (sp_tally a).
Definition sp_more_wins (a : SFeat) : SFeat := mkSFeat (sp_syms a) (sp_off a) (S (sp_nwins a)) (sp_nblocks a) (sp_tally a).
Definition sp_more_blocks (a : SFeat) : SFeat := mkSFeat (sp_syms a) (sp_off a) (sp_nwins a) (S (sp_nblocks a)) (sp_tally a).
Definition sp_count (g : Tally -> Tally) (a : SFeat) : SFeat :=
  mkSFeat (sp_syms a) (sp_off a) (sp_nwins a) (sp_nblocks a) (g (sp_tally a)).

Definition ta_sym (t : Tally) : Tally :=
  mkTally (wrap_u64 (ta_sym_full t + 1)) (ta_roll_full t) (ta_funding_full t) (ta_deduped t) (ta_prints t).
Definition ta_roll (t : Tally) : Tally :=
  mkTally (ta_sym_full t) (wrap_u64 (ta_roll_full t + 1)) (ta_funding_full t) (ta_deduped t) (ta_prints t).
Definition ta_funding (t : Tally) : Tally :=
  mkTally (ta_sym_full t) (ta_roll_full t) (wrap_u64 (ta_funding_full t + 1)) (ta_deduped t) (ta_prints t).
Definition ta_dedup (t : Tally) : Tally :=
  mkTally (ta_sym_full t) (ta_roll_full t) (ta_funding_full t) (wrap_u64 (ta_deduped t + 1)) (ta_prints t).
Definition ta_print (t : Tally) : Tally :=
  mkTally (ta_sym_full t) (ta_roll_full t) (ta_funding_full t) (ta_deduped t) (wrap_u64 (ta_prints t + 1)).

Definition sp_wall (mono_ns : Z) (a : SFeat) : option Z :=
  (fun off => wrap_i64 (wrap_i64 (mono_ns / 1000000) + off)) <$> sp_off a.

(** A symbol is admitted while the table has room. *)
Definition s_claim (sym : Z) (a : SFeat) : SFeat * option SymSpec :=
  match sp_syms a !! sym with
  | Some s => (a, Some s)
  | None =>
      if (size (sp_syms a) <? FEAT_SYM_SLOTS)%nat
      then (mkSFeat (<[sym := SS_ZERO]> (sp_syms a)) (sp_off a) (sp_nwins a) (sp_nblocks a) (sp_tally a), Some SS_ZERO)
      else (sp_count ta_sym a, None)
  end.

(** ** Feeds *)

Definition quote_mid (bid ask : Z) : Z := wrap_i64 (wrap_i64 (bid + ask) /t 2 * 1000).

Definition s_tick (t : Tick) (mono_ns : Z) (a : SFeat) : SFeat :=
  match s_claim (tk_sym t) a with
  | (a, None) => a
  | (a, Some _) =>
      if is_stale t then sp_upd (tk_sym t) (on_latest (fun l => la_set_bbo true (la_bbo l) l)) a
      else
        let '(bid, ask) := (tk_bid_px t, tk_ask_px t) in
        let two_sided := (0 <? bid) && (0 <? ask) in
        let mid := if two_sided then quote_mid bid ask else 0 in
        let quoted := on_latest (la_set_bbo false (mkBbo (if 0 <? bid then wrap_i64 (bid * 1000) else 0)
                                                      (if 0 <? ask then wrap_i64 (ask * 1000) else 0) mid mono_ns)) in
        match sp_wall mono_ns a with
        | Some wall =>
            if two_sided
            then sp_upd (tk_sym t) (fun s => on_wins (fmap (prod_map id (h_sample (wall /t MS_PER_MIN) mid))) (quoted s)) a
            else sp_upd (tk_sym t) quoted a
        | None => sp_upd (tk_sym t) quoted a
        end
  end.

Definition s_record (sym ts rate : Z) (a : SFeat) : SFeat :=
  match sp_syms a !! sym with
  | None => a
  | Some s =>
      match ss_prints s with
      | Some p => sp_count ta_print (sp_upd sym (with_prints (p_push ts rate p)) a)
      | None =>
          if (sp_nblocks a <? FUNDING_BLOCKS)%nat
          then sp_count ta_print (sp_upd sym (with_prints (p_push ts rate PRINTS_EMPTY)) (sp_more_blocks a))
          else sp_count ta_funding a
      end
  end.

(** The pending rate settles when the next funding time moves on. *)
Definition s_advance (e : ChannelEvent) (a : SFeat) : SFeat :=
  match s_claim (ev_sym e) a with
  | (a, None) => a
  | (a, Some s) =>
      let ff := la_fund (ss_latest s) in
      let a := if (0 <? ff_next_ms ff) && (ff_next_ms ff <? ev_v1 e)
               then s_record (ev_sym e) (ff_next_ms ff) (ff_pend_rate ff) a else a in
      sp_upd (ev_sym e) (on_latest (fun l => la_set_fund (mkFF (if 0 <? ev_v1 e then ev_v1 e else ff_next_ms (la_fund l)) (ev_v0 e)
                                                            (ff_last_hour (la_fund l))) l)) a
  end.

Definition s_hourly (sym at_ms rate : Z) (a : SFeat) : SFeat :=
  match s_claim sym a with
  | (a, None) => a
  | (a, Some s) =>
      let hour := at_ms /t MS_PER_HOUR in
      let ff := la_fund (ss_latest s) in
      if ff_last_hour ff =? hour then a
      else s_record sym (hour * MS_PER_HOUR) rate
             (sp_upd sym (on_latest (la_set_fund (mkFF (ff_next_ms ff) (ff_pend_rate ff) hour))) a)
  end.

Definition s_event (e : ChannelEvent) (mono_ns : Z) (a : SFeat) : SFeat :=
  let vt := ev_venue_time_ms e in
  let a := if vt =? 0 then a else sp_set_off (Some (wrap_i64 (wrap_i64 vt - wrap_i64 (mono_ns / 1000000)))) a in
  if advance_venue (ev_venue e) && (ev_channel e =? CHANNEL_FUNDING) then s_advance e a
  else if (ev_venue e =? VENUE_DERIBIT) && (ev_channel e =? CHANNEL_FUNDING) then
    if vt =? 0 then a else s_hourly (ev_sym e) (wrap_i64 vt) (if negb (ev_v1 e =? 0) then ev_v1 e else ev_v0 e) a
  else if (ev_venue e =? VENUE_HYPERLIQUID) && (ev_channel e =? CHANNEL_ASSET_CTX) then
    match sp_wall mono_ns a with Some wall => s_hourly (ev_sym e) wall (ev_v0 e) a | None => a end
  else a.

(** A seed near a kept print is that print. *)
Definition p_known (sym ts : Z) (p : Prints) : bool :=
  existsb (fun q => wrap_i64 (Z.abs (wrap_i64 (q.1 - ts))) <? seed_tolerance_ms sym) (pr_kept p).

Definition s_seed (sym ts rate : Z) (a : SFeat) : SFeat :=
  match s_claim sym a with
  | (a, None) => a
  | (a, Some s) =>
      if match ss_prints s with Some p => p_known sym ts p | None => false end
      then sp_count ta_dedup a else s_record sym ts rate a
  end.

Definition depth_of (d : DepthTopK) (mono_ns : Z) (old : DepthFeat) : DepthFeat :=
  let bid_not := notional (dk_bids d) in
  let ask_not := notional (dk_asks d) in
  let total := wrap_i128 (bid_not + ask_not) in
  let '(b, k) := (nth 0 (dk_bids d) LEVEL_EMPTY, nth 0 (dk_asks d) LEVEL_EMPTY) in
  let mid := wrap_i64 (dl_px b + dl_px k) /t 2 in
  mkDF (if 0 <? total then wrap_i64 (wrap_i128 (wrap_i128 (bid_not - ask_not) * 1000000000) /t total) else 0)
    (if (0 <? dl_px b) && (0 <? dl_px k) && (0 <? dl_qty b) && (0 <? dl_qty k)
     then if 0 <? mid then wrap_i64 (wrap_i64 (dl_px k - dl_px b) * 10000 * 1000000000 /t mid) else df_spread old
     else 0)
    (wrap_i64 (total /t 1000)) mono_ns.

Definition s_depth (d : DepthTopK) (mono_ns : Z) (a : SFeat) : SFeat :=
  match s_claim (dk_sym d) a with
  | (a, None) => a
  | (a, Some _) =>
      sp_upd (dk_sym d) (on_latest (fun l =>
        if negb (Z.land (dk_flags d) DEPTH_FLAG_STALE =? 0) then la_set_depth true (la_depth l) l
        else la_set_depth false (depth_of d mono_ns (la_depth l)) l)) a
  end.

Definition s_opt (o : OptSummary) (mono_ns : Z) (a : SFeat) : SFeat :=
  match s_claim (os_sym o) a with
  | (a, None) => a
  | (a, Some _) =>
      sp_upd (os_sym o) (on_latest (la_set_opt (mkOF (os_flags o) (os_mark_px_1e9 o) (os_mark_iv_1e9 o) mono_ns))) a
  end.

(** ** Windows *)

Definition s_bind (sym win : Z) (a : SFeat) : SFeat * bool :=
  if (win =? 0) || (ROLL_WINDOW_MAX_MIN <? win) then (a, false)
  else match s_claim sym a with
       | (a, None) => (a, false)
       | (a, Some s) =>
           if existsb (fun p => p.1 =? win) (ss_wins s) then (a, true)
           else if (length (ss_wins s) <? MAX_ROLL_PER_SYM)%nat && (sp_nwins a <? ROLL_POOL_ENTRIES)%nat
           then (sp_upd sym (on_wins (fun l => l ++ [(win, HIST_EMPTY)])) (sp_more_wins a), true)
           else (sp_count ta_roll a, false)
       end.

Definition s_clear (a : SFeat) : SFeat :=
  mkSFeat (on_wins (fun _ => []) <$> sp_syms a) (sp_off a) 0 (sp_nblocks a) (sp_tally a).

(** ** Reads *)

Definition on_win (win : Z) (g : Hist -> Hist) (l : list (Z * Hist)) : list (Z * Hist) :=
  (fun p => if p.1 =? win then (p.1, g p.2) else p) <$> l.

Definition s_roll (id : FeatId) (sym win mono_ns : Z) (s : SymSpec) (a : SFeat) : SFeat * option Z :=
  match sp_wall mono_ns a, (if win =? 0 then None else find (fun p => p.1 =? win) (ss_wins s)) with
  | Some wall, Some p =>
      let h := h_refresh (wall /t MS_PER_MIN) win p.2 in
      (sp_upd sym (on_wins (on_win win (fun _ => h))) a,
       if st_n (hi_stats h) =? 0 then None else Some (stat_of id (hi_stats h)))
  | _, _ => (a, None)
  end.

Definition s_apr (short : bool) (sym mono_ns : Z) (s : SymSpec) (a : SFeat) : SFeat * option Z :=
  match sp_wall mono_ns a, ss_prints s with
  | Some wall, Some p =>
      let p := p_refresh sym wall p in
      (sp_upd sym (with_prints p) a,
       if short then (if pr_n24 p =? 0 then None else Some (pr_apr24 p))
       else (if pr_n72 p =? 0 then None else Some (pr_apr72 p)))
  | _, _ => (a, None)
  end.

(** Time to the venue's next funding, never negative. *)
Definition s_clock (sym mono_ns : Z) (s : SymSpec) (a : SFeat) : option Z :=
  match sp_wall mono_ns a with
  | None => None
  | Some wall =>
      let venue := symbol_venue_byte sym in
      let next := ff_next_ms (la_fund (ss_latest s)) in
      if funding_period_s venue =? 0 then None
      else if venue =? VENUE_HYPERLIQUID
      then Some (wrap_i64 (Z.max (wrap_i64 ((wall /t MS_PER_HOUR + 1) * MS_PER_HOUR - wall)) 0 * 1000000))
      else if next <=? 0 then None
      else Some (wrap_i64 (Z.max (wrap_i64 (next - wall)) 0 * 1000000))
  end.

Definition s_get (id : FeatId) (sym win mono_ns : Z) (a : SFeat) : SFeat * option Z :=
  match sp_syms a !! sym with
  | None => (a, None)
  | Some s =>
      let l := ss_latest s in
      let live v := if (0 <? bb_ns (la_bbo l)) && negb (la_stale l) && (0 <? v) then Some v else None in
      let depth v := if (df_ns (la_depth l) =? 0) || la_depth_stale l then None else Some v in
      match id with
      | Mid => (a, live (bb_mid (la_bbo l)))
      | BestBid => (a, live (bb_bid (la_bbo l)))
      | BestAsk => (a, live (bb_ask (la_bbo l)))
      | RollMean | RollEma | RollMin | RollMax | RollStd => s_roll id sym win mono_ns s a
      | Apr24 => s_apr true sym mono_ns s a
      | Apr72 => s_apr false sym mono_ns s a
      | MarkPx => (a, if (0 <? of_ns (la_opt l)) && negb (Z.land (of_flags (la_opt l)) OPT_SUMMARY_FLAG_MARK_PX =? 0)
                      then Some (of_mark_px (la_opt l)) else None)
      | MarkIv => (a, if 0 <? of_ns (la_opt l) then Some (of_mark_iv (la_opt l)) else None)
      | DepthImb => (a, depth (df_imb (la_depth l)))
      | DepthSpreadBps => (a, depth (df_spread (la_depth l)))
      | DepthNearNotional => (a, depth (df_near (la_depth l)))
      | ClockToFunding => (a, s_clock sym mono_ns s a)
      | ClockUtcSod => (a, (fun wall => wrap_i64 (wall mod MS_PER_DAY * 1000000)) <$> sp_wall mono_ns a)
      end
  end.

Definition s_funding_prints (sym : Z) (a : SFeat) : nat :=
  match sp_syms a !! sym ≫= ss_prints with None => 0%nat | Some p => length (pr_kept p) end.
