(* ===== verification/FeatureRings.v ===== *)
(** * Rings and blocks of the feature engine

    A minute ring holds the history of its window; a block's ring holds the
    newest funding prints. *)

From stdpp Require Import gmap.
From S2P Require Import Prelude CoreTypes Ladder RuleTable Router Vm FeatureEngine FeatureProofs FeatureSpec.

#[local] Open Scope machine_scope.

(** ** A ring holds its history *)

Lemma ring_slot_rem m w : 0 < w <= ROLL_WINDOW_MAX_MIN -> 0 < m -> ring_slot m w = Z.to_nat (m mod w).
Proof.
  intros Hw Hm. unfold ring_slot, ROLL_RING_MINUTES. rewrite Z.rem_mod_nonneg by lia. apply Nat.mod_small.
  pose proof (Z.mod_pos_bound m w). lia.
Qed.

Lemma ring_slot_lt m w : (ring_slot m w < ROLL_RING_MINUTES)%nat.
Proof. apply Nat.mod_upper_bound. unfold ROLL_RING_MINUTES, ROLL_WINDOW_MAX_MIN. lia. Qed.

Lemma funding_pos : (0 < FUNDING_RING_PRINTS)%nat.
Proof. unfold FUNDING_RING_PRINTS. lia. Qed.

#[local] Opaque ROLL_RING_MINUTES FUNDING_RING_PRINTS ROLL_POOL_ENTRIES FUNDING_BLOCKS.

(** Minutes less than a window apart have their own slots. *)
Lemma ring_slot_inj m m' w : 0 < w <= ROLL_WINDOW_MAX_MIN -> 0 < m -> 0 < m' -> Z.abs (m - m') < w ->
  ring_slot m w = ring_slot m' w -> m = m'.
Proof.
  intros Hw Hm Hm' Hd. rewrite !ring_slot_rem by lia. pose proof (Z.mod_pos_bound m w). pose proof (Z.mod_pos_bound m' w).
  intros E. assert (m mod w = m' mod w) as Em by lia.
  pose proof (Z.div_mod m w ltac:(lia)). pose proof (Z.div_mod m' w ltac:(lia)).
  assert (m - m' = w * (m / w - m' / w)) as D by lia. assert (m / w - m' / w = 0) as Z0 by nia. rewrite Z0 in D. lia.
Qed.

Lemma ring_slot_shift m k w : 0 < w <= ROLL_WINDOW_MAX_MIN -> 0 < m -> 0 < m + k * w ->
  ring_slot (m + k * w) w = ring_slot m w.
Proof. intros. rewrite !ring_slot_rem by lia. by rewrite Z.mod_add by lia. Qed.

Fixpoint wipe (f : Z -> nat) (ring : list Z) (gs : list Z) : list Z :=
  match gs with [] => ring | g :: gs => wipe f (<[f g := 0]> ring) gs end.

Lemma wipe_foldl f ring gs : foldl (fun r g => <[f g := 0]> r) ring gs = wipe f ring gs.
Proof. revert ring. induction gs as [|g gs IH]; intros ring; [done|]. apply IH. Qed.

Lemma length_wipe f ring gs : length (wipe f ring gs) = length ring.
Proof. revert ring. induction gs as [|g gs IH]; intros ring; cbn [wipe]; [done|]. rewrite IH. apply length_insert. Qed.

Lemma wipe_miss f ring gs s : (forall g, g ∈ gs -> f g <> s) -> get (wipe f ring gs) s = get ring s.
Proof.
  revert ring. induction gs as [|g gs IH]; intros ring N; cbn [wipe]; [done|].
  rewrite IH by (intros; apply N; by right). apply get_insert_ne. apply N. by left.
Qed.

Lemma wipe_hit f ring gs g : g ∈ gs -> (f g < length ring)%nat -> get (wipe f ring gs) (f g) = 0.
Proof.
  revert g ring. induction gs as [|x gs IH]; intros g ring Hg L; [by apply not_elem_of_nil in Hg|]. cbn [wipe].
  destruct (decide (g ∈ gs)) as [E|E]; [apply IH; [done|by rewrite length_insert]|].
  apply elem_of_cons in Hg as [<-|Hg]; [|done]. destruct (decide (f g ∈ f <$> gs)) as [(y & Ey & Hy)%list_elem_of_fmap|N].
  - rewrite Ey. apply IH; [done|]. by rewrite length_insert, <- Ey.
  - rewrite wipe_miss by (intros y Hy Ey; apply N, list_elem_of_fmap; eauto). by apply get_insert_eq.
Qed.

Definition same_stats (s s' : RollStats) : Prop := s = s' \/ st_n s = 0 /\ st_n s' = 0.

Record mirrors (e : RollEntry) (h : Hist) : Prop := {
  mi_win : 0 < re_win e <= ROLL_WINDOW_MAX_MIN;
  mi_len : length (re_ring e) = ROLL_RING_MINUTES;
  mi_newest : 0 <= re_newest e /\ re_newest e = hi_newest h;
  mi_cache : re_cache e = hi_cache h;
  mi_stats : same_stats (re_stats e) (hi_stats h);
  mi_mid m : 0 < m -> re_newest e - re_win e < m <= re_newest e ->
    get (re_ring e) (ring_slot m (re_win e)) = default 0 (hi_mids h !! m);
  mi_future m : re_newest e < m -> hi_mids h !! m = None
}.

(** The wiped minutes are those a new sample makes visible. *)
Lemma wipe_gap newest minute w ring m :
  0 < w <= ROLL_WINDOW_MAX_MIN -> 0 <= newest < minute -> length ring = ROLL_RING_MINUTES ->
  0 < m -> minute - w < m < minute ->
  get (wipe (fun g => ring_slot (newest + g) w) ring (seqZ 1 (Z.min (minute - newest - 1) w))) (ring_slot m w) =
    if decide (newest < m) then 0 else get ring (ring_slot m w).
Proof.
  intros Hw Hn Hl Hm Hr. case_decide as D.
  - destruct (decide (m - newest <= w)) as [Near|Far].
    + replace m with (newest + (m - newest)) by lia.
      apply (wipe_hit (fun g => ring_slot (newest + g) w)); [apply elem_of_seqZ; lia|rewrite Hl; apply ring_slot_lt].
    + set (g := (m - newest - 1) mod w + 1). pose proof (Z.mod_pos_bound (m - newest - 1) w ltac:(lia)) as B.
      pose proof (Z.div_mod (m - newest - 1) w ltac:(lia)) as Dm.
      assert (ring_slot m w = ring_slot (newest + g) w) as ->.
      { replace m with (newest + g + (m - newest - 1) / w * w) at 1 by (unfold g; lia).
        apply ring_slot_shift; [done|unfold g; lia|unfold g; lia]. }
      apply (wipe_hit (fun g => ring_slot (newest + g) w)); [apply elem_of_seqZ; unfold g; lia|rewrite Hl; apply ring_slot_lt].
  - apply wipe_miss. intros g Hg%elem_of_seqZ E. apply ring_slot_inj in E; lia.
Qed.

Lemma mirrors_sample minute mid e h : mirrors e h -> mirrors (sample_entry minute mid e) (h_sample minute mid h).
Proof.
  intros [W L [N0 N] C T M F]. unfold sample_entry, h_sample. rewrite <- N.
  destruct (Z.ltb_spec minute (re_newest e)) as [Old|New].
  { destruct (Z.ltb_spec (re_newest e) minute); [lia|]. destruct (Z.eqb_spec minute (re_newest e)); [lia|]. by split. }
  rewrite Z.max_l by lia. destruct (Z.ltb_spec (re_newest e) minute) as [Adv|Same].
  - cbn [re_newest]. rewrite Z.eqb_refl, wipe_foldl. split; cbn [re_win re_ring re_newest re_cache re_stats hi_newest hi_mids hi_cache hi_stats]; try done.
    + by rewrite length_insert, length_wipe.
    + lia.
    + intros m Hm Hr. destruct (decide (m = minute)) as [->|Ne].
      * rewrite lookup_insert_eq. apply get_insert_eq. rewrite length_wipe, L. apply ring_slot_lt.
      * rewrite lookup_insert_ne by done. rewrite get_insert_ne by (intros E; apply ring_slot_inj in E; lia).
        rewrite wipe_gap by lia. case_decide; [by rewrite F|]. apply M; lia.
    + intros m Hm. rewrite lookup_insert_ne by lia. apply F. lia.
  - assert (minute = re_newest e) as -> by lia. rewrite Z.eqb_refl.
    split; cbn [re_win re_ring re_newest re_cache re_stats hi_newest hi_mids hi_cache hi_stats]; try done.
    + by rewrite length_insert.
    + intros m Hm Hr. destruct (decide (m = re_newest e)) as [->|Ne].
      * rewrite lookup_insert_eq. apply get_insert_eq. rewrite L. apply ring_slot_lt.
      * rewrite lookup_insert_ne by done. rewrite get_insert_ne by (intros E; apply ring_slot_inj in E; lia). by apply M.
    + intros m Hm. rewrite lookup_insert_ne by lia. by apply F.
Qed.

Lemma ring_sample_mid e h m : mirrors e h -> ring_sample e m = h_mid (re_win e) h m.
Proof.
  intros [W L [N0 N] C T M F]. unfold ring_sample, h_mid. rewrite <- N.
  destruct (Z.ltb_spec 0 m) as [Hm|Hm]; [|done]. destruct (Z.ltb_spec (re_newest e - re_win e) m) as [Hr|Hr]; [|done]. cbn [andb].
  destruct (Z.leb_spec m (re_newest e)) as [Hs|Hs]; [|by rewrite F].
  rewrite M by lia. by destruct (hi_mids h !! m).
Qed.

Lemma mirrors_refresh minute e h : mirrors e h -> mirrors (refresh_roll minute e) (h_refresh minute (re_win e) h).
Proof.
  intros K. pose proof (fun m => ring_sample_mid e h m K) as Same. destruct K as [W L N C T M F].
  unfold refresh_roll, h_refresh. rewrite <- C. destruct (re_cache e =? minute); [by split|].
  split; cbn [re_win re_ring re_newest re_cache re_stats hi_newest hi_mids hi_cache hi_stats]; try done.
  left. unfold h_window. by rewrite (list_omap_ext _ (h_mid (re_win e) h) _ (seqZ (minute - re_win e + 1) (re_win e))) by
    (apply Forall2_same_length_lookup_2; [done|]; intros; simplify_eq; apply Same).
Qed.

Definition stats_read (id : FeatId) (s : RollStats) : option Z := if st_n s =? 0 then None else Some (stat_of id s).

Lemma same_stats_read id s s' : same_stats s s' -> stats_read id s = stats_read id s'.
Proof. unfold stats_read. intros [->|[-> ->]]; done. Qed.

Lemma mirrors_bound sym win e : 0 < win <= ROLL_WINDOW_MAX_MIN -> length (re_ring e) = ROLL_RING_MINUTES ->
  mirrors (bind_entry sym win e) HIST_EMPTY.
Proof.
  intros W L. split; cbn [re_win re_ring re_newest re_cache re_stats bind_entry HIST_EMPTY hi_newest hi_mids hi_cache hi_stats]; try done.
  - by right.
  - intros m Hm Hr. lia.
Qed.

(** ** A block holds the newest prints *)

Inductive ring_of (b : FundingBlock) (l : list (Z * Z)) : Prop :=
| R_filling : (fb_count b < FUNDING_RING_PRINTS)%nat -> fb_head b = fb_count b ->
    take (fb_count b) (fb_prints b) = reverse l -> ring_of b l
| R_full : fb_count b = FUNDING_RING_PRINTS -> (fb_head b < FUNDING_RING_PRINTS)%nat ->
    drop (fb_head b) (fb_prints b) ++ take (fb_head b) (fb_prints b) = reverse (take FUNDING_RING_PRINTS l) -> ring_of b l.

Lemma ring_of_kept b l : length (fb_prints b) = FUNDING_RING_PRINTS -> ring_of b l ->
  take (fb_count b) (fb_prints b) ≡ₚ take FUNDING_RING_PRINTS l.
Proof.
  intros L [C Hh E|C Hh E].
  - rewrite E, reverse_Permutation, take_ge; [done|].
    rewrite <- length_reverse, <- E, length_take. lia.
  - rewrite C, (take_ge (fb_prints b)) by lia. rewrite <- (reverse_Permutation (take _ l)), <- E.
    rewrite Permutation_app_comm. by rewrite take_drop.
Qed.

Lemma ring_of_push ts rate b l : length (fb_prints b) = FUNDING_RING_PRINTS -> ring_of b l ->
  ring_of (push_print ts rate b) ((ts, rate) :: l).
Proof.
  intros L [C Hh E|C Hh E]; unfold push_print.
  - assert (length l = fb_count b) as Ll by (rewrite <- length_reverse, <- E, length_take; lia).
    assert (take (S (fb_count b)) (<[fb_count b := (ts, rate)]> (fb_prints b)) = reverse ((ts, rate) :: l)) as E'.
    { rewrite (take_S_r _ _ (ts, rate)) by (apply list_lookup_insert_eq; lia). by rewrite take_insert_ge, E, reverse_cons by lia. }
    destruct (Nat.ltb_spec (fb_count b) FUNDING_RING_PRINTS) as [_|]; [|lia].
    destruct (decide (S (fb_count b) = FUNDING_RING_PRINTS)) as [Full|].
    + apply R_full; cbn [fb_count fb_head fb_prints]; rewrite ?Hh, ?Full, ?Nat.Div0.mod_same; [done|lia|].
      rewrite drop_0, take_0, app_nil_r. rewrite (take_ge (_ :: l)) by (cbn [length]; lia). rewrite <- E'.
      symmetry. apply take_ge. rewrite length_insert. lia.
    + apply R_filling; cbn [fb_count fb_head fb_prints]; rewrite ?Hh; [lia|apply Nat.mod_small; lia|done].
  - destruct (Nat.ltb_spec (fb_count b) FUNDING_RING_PRINTS) as [|_]; [lia|].
    assert (exists x, fb_prints b !! fb_head b = Some x) as [x Hx] by (apply lookup_lt_is_Some_2; lia).
    rewrite (drop_S _ x) in E by done.
    assert (reverse (take FUNDING_RING_PRINTS ((ts, rate) :: l)) = drop (S (fb_head b)) (fb_prints b) ++ take (fb_head b) (fb_prints b) ++ [(ts, rate)]) as E'.
    { destruct FUNDING_RING_PRINTS as [|n] eqn:En; [lia|]. cbn [take]. rewrite reverse_cons, app_assoc. f_equal.
      assert (take (S n) l = take n l ++ [x]) as T.
      { apply (f_equal reverse) in E. rewrite reverse_involutive in E. rewrite <- E.
        assert (take n l = take n (take (S n) l)) as -> by (rewrite take_take; f_equal; lia). rewrite <- E.
        cbn [app]. rewrite reverse_cons. rewrite take_app_length'; [done|];
          rewrite length_reverse, length_app, length_drop, length_take; lia. }
      rewrite T, reverse_app in E. cbn in E. by injection E as E. }
    apply R_full; cbn [fb_count fb_head fb_prints]; [done|apply Nat.mod_upper_bound; lia|]. rewrite E'.
    destruct (decide (S (fb_head b) = FUNDING_RING_PRINTS)) as [Last|].
    + rewrite Last, Nat.Div0.mod_same, drop_0, take_0, app_nil_r, (drop_ge (fb_prints b)) by lia. cbn [app].
      rewrite <- (take_ge (<[_ := _]> _) (S (fb_head b))) by (rewrite length_insert; lia).
      rewrite (take_S_r _ _ (ts, rate)) by (apply list_lookup_insert_eq; lia). by rewrite take_insert_ge by lia.
    + rewrite Nat.mod_small, drop_insert_lt by lia. f_equal.
      rewrite (take_S_r _ _ (ts, rate)) by (apply list_lookup_insert_eq; lia). by rewrite take_insert_ge by lia.
Qed.

Record holds (b : FundingBlock) (p : Prints) : Prop := {
  ho_len : length (fb_prints b) = FUNDING_RING_PRINTS;
  ho_ring : ring_of b (pr_all p);
  ho_cache : fb_cache b = pr_cache p;
  ho_apr : (fb_apr24 b, fb_apr72 b, fb_n24 b, fb_n72 b) = (pr_apr24 p, pr_apr72 p, pr_n24 p, pr_n72 p)
}.

Lemma holds_kept b p : holds b p -> take (fb_count b) (fb_prints b) ≡ₚ pr_kept p.
Proof. intros [L R _ _]. by apply ring_of_kept. Qed.

Lemma holds_count b p : holds b p -> fb_count b = length (pr_kept p).
Proof.
  intros K. rewrite <- (Permutation_length (holds_kept b p K)), length_take, (ho_len b p K).
  destruct (ho_ring b p K); lia.
Qed.

Lemma holds_push ts rate b p : holds b p -> holds (push_print ts rate b) (p_push ts rate p).
Proof.
  intros [L R C A]. split; [by cbn; rewrite length_insert|by apply ring_of_push|done|done].
Qed.

Lemma holds_empty sym b : b = BLOCK_ZERO -> holds (claim_block sym b) PRINTS_EMPTY.
Proof.
  intros ->. split; [apply length_replicate| |done|done].
  apply R_filling; [apply funding_pos|done|done].
Qed.

Lemma sum_perm (l l' : list Z) : l ≡ₚ l' -> foldr Z.add 0 l = foldr Z.add 0 l'.
Proof. induction 1; cbn [foldr]; lia. Qed.

Lemma prints_in_perm lo wall l l' : l ≡ₚ l' -> prints_in lo wall l = prints_in lo wall l'.
Proof.
  intros P. unfold prints_in. cbv zeta.
  assert (filter (fun p : Z * Z => lo <= p.1 <= wall) l ≡ₚ filter (fun p => lo <= p.1 <= wall) l') as F by (by rewrite P).
  f_equal; [by apply sum_perm, fmap_Permutation|by rewrite (Permutation_length F)].
Qed.

Lemma existsb_perm {A} (f : A -> bool) l l' : l ≡ₚ l' -> existsb f l = existsb f l'.
Proof. induction 1; cbn [existsb]; try congruence. destruct (f x), (f y); done. Qed.

Lemma holds_refresh wall b p : holds b p -> holds (refresh_apr wall b) (p_refresh (fb_sym b) wall p).
Proof.
  intros K. pose proof (holds_kept b p K) as P. destruct K as [L R C A]. unfold refresh_apr, p_refresh. cbv zeta. rewrite <- C.
  destruct (fb_cache b =? wall /t MS_PER_MIN); [by split|].
  unfold p_apr. rewrite !(prints_in_perm _ _ _ _ P).
  destruct (prints_in (wrap_i64 (wall - FUNDING_WINDOW_24H_MIN * MS_PER_MIN)) wall (pr_kept p)) as [s24 n24].
  destruct (prints_in (wrap_i64 (wall - FUNDING_WINDOW_72H_MIN * MS_PER_MIN)) wall (pr_kept p)) as [s72 n72].
  split; cbn [fb_prints fb_head fb_count fb_cache fb_apr24 fb_apr72 fb_n24 fb_n72 pr_all pr_cache pr_apr24 pr_apr72 pr_n24 pr_n72 fst snd]; try done.
  - destruct R as [Rc Rh Rt|Rc Rh Rt]; [by apply R_filling|by apply R_full].
  - by rewrite Z.mul_1_r.
Qed.

Lemma holds_known sym ts b p : holds b p ->
  existsb (fun q => wrap_i64 (Z.abs (wrap_i64 (q.1 - ts))) <? seed_tolerance_ms sym) (take (fb_count b) (fb_prints b)) = p_known sym ts p.
Proof. intros K. apply existsb_perm, holds_kept, K. Qed.
