(* ===== verification/FeatureRefine.v ===== *)
(** * The feature engine is its specification

    Indices hold their pools, slots hold their symbols: every feed, binding
    and read of the engine answers as the map of [FeatureSpec] does. *)

From stdpp Require Import gmap.
From S2P Require Import Prelude CoreTypes Ladder RuleTable Router Vm FeatureEngine FeatureProofs FeatureSpec FeatureRings.

#[local] Open Scope machine_scope.
#[local] Opaque FEAT_SYM_SLOTS ROLL_RING_MINUTES FUNDING_RING_PRINTS ROLL_POOL_ENTRIES FUNDING_BLOCKS.

(** ** A slot holds its symbol *)

Definition latest_of (s : FeatSym) : Latest :=
  mkLatest (fs_tick_stale s) (fs_bbo s) (fs_depth_stale s) (fs_depth s) (fs_opt s) (fs_fund s).

(** Entry [r1 - 1] is the window [p] of [sym]. *)
Definition owns (rolls : list RollEntry) (sym : Z) (r1 : nat) (p : Z * Hist) : Prop :=
  exists e, r1 = S e /\ (e < ROLL_POOL_ENTRIES)%nat /\ re_sym (rolls !!! e) = sym /\ re_win (rolls !!! e) = p.1 /\ mirrors (rolls !!! e) p.2.

Definition block_of (blocks : list FundingBlock) (sym : Z) (b1 : nat) (p : option Prints) : Prop :=
  match p with
  | None => b1 = 0%nat
  | Some p => exists b, b1 = S b /\ (b < FUNDING_BLOCKS)%nat /\ fb_used (blocks !!! b) = true /\ fb_sym (blocks !!! b) = sym /\ holds (blocks !!! b) p
  end.

Record sym_rel (rolls : list RollEntry) (blocks : list FundingBlock) (s : FeatSym) (ss : SymSpec) : Prop := {
  sr_latest : latest_of s = ss_latest ss;
  sr_block : block_of blocks (fs_sym s) (fs_fblock1 s) (ss_prints ss);
  sr_ptrs : exists ptrs, fs_roll1 s = ptrs ++ replicate (MAX_ROLL_PER_SYM - length ptrs) 0%nat /\ (length ptrs <= MAX_ROLL_PER_SYM)%nat
              /\ Forall2 (owns rolls (fs_sym s)) ptrs (ss_wins ss);
  sr_wins : NoDup ((ss_wins ss).*1)
}.

Definition tally_of (f : FeatureState) : Tally :=
  mkTally (ft_sym_exhausted f) (ft_roll_exhausted f) (ft_funding_exhausted f) (ft_seeds_deduped f) (ft_prints_recorded f).

Record rolls_ok (rolls : list RollEntry) (n : nat) : Prop := {
  ro_len : length rolls = ROLL_POOL_ENTRIES;
  ro_le : (n <= ROLL_POOL_ENTRIES)%nat;
  ro_ring e : (e < ROLL_POOL_ENTRIES)%nat -> length (re_ring (rolls !!! e)) = ROLL_RING_MINUTES;
  ro_free e : (e < ROLL_POOL_ENTRIES)%nat -> re_win (rolls !!! e) = 0 <-> (n <= e)%nat
}.

Record blocks_ok (blocks : list FundingBlock) (n : nat) : Prop := {
  bo_len : length blocks = FUNDING_BLOCKS;
  bo_le : (n <= FUNDING_BLOCKS)%nat;
  bo_used e : (e < n)%nat -> fb_used (blocks !!! e) = true;
  bo_free e : (n <= e < FUNDING_BLOCKS)%nat -> blocks !!! e = BLOCK_ZERO
}.

(** Slot [i] is claimed by [sym]. *)
Definition claimed (f : FeatureState) (sym : Z) (i : nat) : Prop :=
  (i < FEAT_SYM_SLOTS)%nat /\ fs_used (sym_at f i) = true /\ fs_sym (sym_at f i) = sym.

Definition used_of (syms : nat) (a : SFeat) : PoolsUsed :=
  mkUsed (Z.of_nat syms) (Z.of_nat (sp_nwins a)) (Z.of_nat (sp_nblocks a)).

Record refines (f : FeatureState) (a : SFeat) : Prop := {
  rf_slots : slots_ok (ft_syms f);
  rf_zero i : (i < FEAT_SYM_SLOTS)%nat -> fs_used (sym_at f i) = false -> sym_at f i = FEAT_SYM_ZERO;
  rf_sym sym i : claimed f sym i -> exists ss, sp_syms a !! sym = Some ss /\ sym_rel (ft_roll f) (ft_funding f) (sym_at f i) ss;
  rf_dom sym ss : sp_syms a !! sym = Some ss -> exists i, claimed f sym i;
  rf_size : size (sp_syms a) = countb fs_used (ft_syms f);
  rf_rolls : rolls_ok (ft_roll f) (sp_nwins a);
  rf_blocks : blocks_ok (ft_funding f) (sp_nblocks a);
  rf_off : ft_off f = sp_off a;
  rf_tally : tally_of f = sp_tally a;
  rf_used : ft_used f = used_of (size (sp_syms a)) a
}.

(** ** One symbol changes, the others stand *)

Definition keeps (g : FeatSym -> FeatSym) : Prop := forall s, fs_sym (g s) = fs_sym s /\ fs_used (g s) = fs_used s.

Lemma claimed_alter (f f' : FeatureState) (sym' : Z) (i j : nat) g : slots_ok (ft_syms f) -> (i < FEAT_SYM_SLOTS)%nat -> keeps g ->
  ft_syms f' = alter g i (ft_syms f) -> claimed f' sym' j <-> claimed f sym' j.
Proof.
  intros [L _] Hi G E. unfold claimed, sym_at. rewrite E, alter_at by lia. case_decide as D; [|done].
  subst j. destruct (G (ft_syms f !!! i)) as [-> ->]. done.
Qed.

Lemma countb_alter {A} (p : A -> bool) (g : A -> A) i (l : list A) : (forall x, p (g x) = p x) -> countb p (alter g i l) = countb p l.
Proof.
  intros G. revert i. induction l as [|x l IH]; intros [|i]; cbn; rewrite ?G, ?IH; done.
Qed.

Lemma owns_keep rolls rolls' n sym r1 p : rolls_ok rolls n ->
  (forall e, (e < n)%nat -> re_sym (rolls !!! e) = sym -> rolls' !!! e = rolls !!! e) -> owns rolls sym r1 p -> owns rolls' sym r1 p.
Proof.
  intros [_ _ _ Fr] K (e & -> & He & Es & Ew & M). assert (e < n)%nat as Hn.
  { destruct (Nat.lt_ge_cases e n) as [|G]; [done|]. apply Fr in G; [|done]. pose proof (mi_win _ _ M). lia. }
  exists e. rewrite (K e Hn Es). by split_and!.
Qed.

Lemma block_keep blocks blocks' n sym b1 p : blocks_ok blocks n ->
  (forall e, (e < n)%nat -> fb_sym (blocks !!! e) = sym -> blocks' !!! e = blocks !!! e) -> block_of blocks sym b1 p -> block_of blocks' sym b1 p.
Proof.
  intros [_ _ _ Fr] K. destruct p as [p|]; [|done]. intros (e & -> & He & Eu & Es & M). assert (e < n)%nat as Hn.
  { destruct (Nat.lt_ge_cases e n) as [|G]; [done|]. rewrite Fr in Eu by lia. done. }
  exists e. rewrite (K e Hn Es). by split_and!.
Qed.

Lemma sym_rel_keep rolls rolls' n blocks blocks' m s ss : rolls_ok rolls n -> blocks_ok blocks m ->
  (forall e, (e < n)%nat -> re_sym (rolls !!! e) = fs_sym s -> rolls' !!! e = rolls !!! e) ->
  (forall e, (e < m)%nat -> fb_sym (blocks !!! e) = fs_sym s -> blocks' !!! e = blocks !!! e) ->
  sym_rel rolls blocks s ss -> sym_rel rolls' blocks' s ss.
Proof.
  intros Ro Bo Kr Kb [La Bl (ptrs & Ep & Lp & Ow) Nd]. split; [done|by eapply block_keep|exists ptrs; split_and!; try done|done].
  eapply Forall2_impl; [exact Ow|]. intros r1 p. by apply (owns_keep rolls rolls' n).
Qed.

Section local.
Context (f f' : FeatureState) (a a' : SFeat) (sym : Z) (i : nat) (ss : SymSpec).
Context (g : FeatSym -> FeatSym) (h : SymSpec -> SymSpec).
Hypothesis Rel : refines f a.
Hypothesis Cl : claimed f sym i.
Hypothesis Ss : sp_syms a !! sym = Some ss.
Hypothesis G : keeps g.
Hypothesis Ef : ft_syms f' = alter g i (ft_syms f).
Hypothesis Ea : sp_syms a' = alter h sym (sp_syms a).
Hypothesis Ro : rolls_ok (ft_roll f') (sp_nwins a').
Hypothesis Bo : blocks_ok (ft_funding f') (sp_nblocks a').
Hypothesis Kr : forall e, (e < sp_nwins a)%nat -> re_sym (ft_roll f !!! e) <> sym -> ft_roll f' !!! e = ft_roll f !!! e.
Hypothesis Kb : forall e, (e < sp_nblocks a)%nat -> fb_sym (ft_funding f !!! e) <> sym -> ft_funding f' !!! e = ft_funding f !!! e.
Hypothesis Off : ft_off f' = sp_off a'.
Hypothesis Ta : tally_of f' = sp_tally a'.
Hypothesis Us : ft_used f' = used_of (size (sp_syms a)) a'.
Hypothesis New : sym_rel (ft_roll f') (ft_funding f') (g (sym_at f i)) (h ss).

Lemma refines_local : refines f' a' /\ claimed f' sym i /\ sp_syms a' !! sym = Some (h ss).
Proof.
  destruct Rel as [Sl Ze Sy Do Si Ro0 Bo0 Of0 Ta0 Us0]. pose proof Cl as (Hi & Hu & Hs).
  assert (i < length (ft_syms f))%nat as Hil by (rewrite (so_len _ Sl); done).
  assert (forall s' j, claimed f' s' j <-> claimed f s' j) as Same by (intros; by eapply claimed_alter).
  assert (size (sp_syms a') = size (sp_syms a)) as Size.
  { assert (sp_syms a' = <[sym := h ss]> (sp_syms a)) as -> by (rewrite Ea; apply map_eq; intros k;
      destruct (decide (k = sym)) as [->|]; rewrite ?lookup_alter_eq, ?lookup_insert_eq, ?lookup_alter_ne, ?lookup_insert_ne, ?Ss by done; done).
    by eapply map_size_insert_Some. }
  split; [split; try done|split; [by apply Same|by rewrite Ea, lookup_alter_eq, Ss]].
  - rewrite Ef. by apply slots_upd.
  - intros j Hj. unfold sym_at in *. rewrite Ef, alter_at by done. case_decide; [|by apply Ze].
    rewrite (proj2 (G _)). congruence.
  - intros s' j Cj. assert (claimed f s' j) as Cj0 by (by apply Same).
    destruct (decide (j = i)) as [->|Ne].
    + assert (s' = sym) as -> by (destruct Cj0 as (_ & _ & <-); done). exists (h ss).
      split; [by rewrite Ea, lookup_alter_eq, Ss|]. unfold sym_at at 1. rewrite Ef, alter_at, decide_True by done. done.
    + destruct (Sy s' j Cj0) as (ss' & Es & Rs). destruct Cj0 as (Hj & Uj & Sj).
      assert (s' <> sym) as Nes by (intros ->; apply Ne; eapply (slots_same (ft_syms f)); try done; by rewrite <- Hs in Sj).
      exists ss'. split; [by rewrite Ea, lookup_alter_ne|].
      unfold sym_at at 1. rewrite Ef, alter_at, decide_False by done. fold (sym_at f j).
      eapply sym_rel_keep; [exact Ro0|exact Bo0| | |exact Rs]; intros e He Ee; [apply Kr|apply Kb]; congruence.
  - intros s' ss'. rewrite Ea, lookup_alter_Some. intros E.
    assert (exists x, sp_syms a !! s' = Some x) as [x Ex] by (destruct E as [(<- & x & Ex & _)|[_ Ex]]; eauto).
    destruct (Do s' x Ex) as [j Cj]. exists j. by apply Same.
  - rewrite Ef, countb_alter by (intros; apply G). by rewrite Size.
  - by rewrite Us, Size.
Qed.

Lemma refines_local_ex : refines f' a' /\ claimed f' sym i /\ exists ss', sp_syms a' !! sym = Some ss'.
Proof. destruct refines_local as (A & B & C). eauto. Qed.
End local.

(** The common case: only the symbol's own values change. *)
Lemma refines_upd f a sym i ss g h : refines f a -> claimed f sym i -> sp_syms a !! sym = Some ss -> keeps g ->
  (sym_rel (ft_roll f) (ft_funding f) (sym_at f i) ss -> sym_rel (ft_roll f) (ft_funding f) (g (sym_at f i)) (h ss)) ->
  refines (upd_sym i g f) (sp_upd sym h a) /\ claimed (upd_sym i g f) sym i /\ sp_syms (sp_upd sym h a) !! sym = Some (h ss).
Proof.
  intros Rel Cl Ss G New. destruct (rf_sym _ _ Rel sym i Cl) as (ss' & Ess & Rs). simplify_eq.
  destruct Rel as [Sl Ze Sy Do Si Ro Bo Of Ta Us].
  eapply (refines_local f (upd_sym i g f) a (sp_upd sym h a) sym i ss g h); try done. by apply New.
Qed.

Lemma sym_rel_latest rolls blocks s ss g h : fs_sym (g s) = fs_sym s -> fs_fblock1 (g s) = fs_fblock1 s -> fs_roll1 (g s) = fs_roll1 s ->
  latest_of (g s) = h (ss_latest ss) -> sym_rel rolls blocks s ss -> sym_rel rolls blocks (g s) (on_latest h ss).
Proof. intros E1 E2 E3 E4 [La Bl Pt Nd]. by split; cbn [on_latest ss_latest ss_prints ss_wins]; rewrite ?E1, ?E2, ?E3. Qed.

(** ** Finding and claiming *)

Lemma refines_find f a sym : refines f a ->
  match sp_syms a !! sym with
  | Some ss => exists i, find_sym sym f = Some i /\ claimed f sym i /\ sym_rel (ft_roll f) (ft_funding f) (sym_at f i) ss
  | None => find_sym sym f = None
  end.
Proof.
  intros Rel. destruct (sp_syms a !! sym) as [ss|] eqn:E.
  - destruct (rf_dom _ _ Rel sym ss E) as [i Ci]. exists i. destruct (rf_sym _ _ Rel sym i Ci) as (ss' & E' & Rs). simplify_eq.
    split_and!; [apply find_sym_spec; [apply Rel|apply Ci]|done|done].
  - destruct (find_sym sym f) as [i|] eqn:Fi; [|done]. apply find_sym_spec in Fi; [|apply Rel].
    destruct (rf_sym _ _ Rel sym i Fi) as (ss & ? & _). congruence.
Qed.

Lemma countb_all_used f a : refines f a ->
  (countb fs_used (ft_syms f) < FEAT_SYM_SLOTS)%nat <-> exists i, (i < FEAT_SYM_SLOTS)%nat /\ fs_used (sym_at f i) = false.
Proof.
  intros Rel. pose proof (so_len _ (rf_slots _ _ Rel)) as L. split.
  - intros C. destruct (first_index (fun s => negb (fs_used s)) (ft_syms f)) as [i|] eqn:Fi.
    + apply first_index_Some in Fi as (x & Hx & Hu & _). exists i. unfold sym_at.
      rewrite (list_lookup_total_correct _ _ _ Hx). apply lookup_lt_Some in Hx. split; [lia|by destruct (fs_used x)].
    + rewrite first_index_None in Fi. rewrite countb_all in C; [lia|]. intros x Hx%Fi. by destruct (fs_used x).
  - intros (i & Hi & Hu). pose proof (countb_insert fs_used (ft_syms f) i (sym_at f i) (claim_sym 0 (sym_at f i))) as C.
    rewrite slot_lookup in C by lia. specialize (C eq_refl). rewrite Hu in C. cbn [fs_used claim_sym] in C.
    pose proof (countb_le fs_used (<[i := claim_sym 0 (sym_at f i)]> (ft_syms f))) as Le. rewrite length_insert in Le. lia.
Qed.

Lemma refines_boot : refines FeatureState_new SFeat_new.
Proof.
  assert (forall i, (i < FEAT_SYM_SLOTS)%nat -> sym_at FeatureState_new i = FEAT_SYM_ZERO) as Z0.
  { intros i Hi. unfold sym_at. cbn [ft_syms FeatureState_new]. by apply lookup_total_replicate_2. }
  split; try done.
  - split; [apply length_replicate|]. intros i Hi. pose proof (Z0 i Hi) as E. unfold sym_at in E. by rewrite E.
  - intros; by apply Z0.
  - intros sym i (Hi & Hu & _). by rewrite Z0 in Hu.
  - split; cbn [ft_roll FeatureState_new sp_nwins SFeat_new]; [apply length_replicate|lia| |];
      intros e He; rewrite lookup_total_replicate_2 by done; [apply length_replicate|split; [lia|done]].
  - split; cbn [ft_funding FeatureState_new sp_nblocks SFeat_new]; [apply length_replicate|lia|lia|].
    intros e He. apply lookup_total_replicate_2. lia.
Qed.

(** A count moves nothing else. *)
Lemma refines_same f f' a a' : refines f a -> ft_syms f' = ft_syms f -> ft_roll f' = ft_roll f -> ft_funding f' = ft_funding f ->
  sp_syms a' = sp_syms a -> sp_nwins a' = sp_nwins a -> sp_nblocks a' = sp_nblocks a ->
  ft_off f' = sp_off a' -> tally_of f' = sp_tally a' -> ft_used f' = ft_used f -> refines f' a'.
Proof.
  intros [Sl Ze Sy Do Si Ro Bo Of Ta Us] E1 E2 E3 E4 E5 E6 E7 E8 E9.
  split; unfold claimed, sym_at, used_of in *; rewrite ?E1, ?E2, ?E3, ?E4, ?E5, ?E6, ?E9; done.
Qed.

Lemma sym_rel_zero rolls blocks sym : sym_rel rolls blocks (claim_sym sym FEAT_SYM_ZERO) SS_ZERO.
Proof.
  split; [done|done| |constructor]. exists []. split_and!; [done|cbn; lia|constructor].
Qed.

Lemma refines_claim_free f a sym i : refines f a -> sp_syms a !! sym = None ->
  probe_slots sym (ft_syms f) (slot_hash sym) FEAT_SYM_SLOTS = P_free i ->
  refines (count_sym_used (upd_sym i (claim_sym sym) f)) (mkSFeat (<[sym := SS_ZERO]> (sp_syms a)) (sp_off a) (sp_nwins a) (sp_nblocks a) (sp_tally a)).
Proof.
  intros Rel No P. pose proof (probe_free sym _ _ i (slot_hash_lt sym) P) as [Hi Hu].
  pose proof Rel as [Sl Ze Sy Do Si Ro Bo Of Ta Us]. assert (i < length (ft_syms f))%nat as Hil by (rewrite (so_len _ Sl); done).
  assert (forall j, sym_at (count_sym_used (upd_sym i (claim_sym sym) f)) j = if decide (j = i) then claim_sym sym (sym_at f i) else sym_at f j) as At
    by (intros; unfold sym_at; cbn [count_sym_used set_used ft_syms upd_sym set_syms]; by apply alter_at).
  split; cbn [sp_syms sp_nwins sp_nblocks sp_off sp_tally]; try done.
  - by apply slots_claim.
  - intros j Hj. rewrite At. case_decide; [done|]. by apply Ze.
  - intros s' j (Hj & Uj & Ej). rewrite At in *. case_decide as D.
    + subst j. cbn [claim_sym fs_sym] in Ej. subst s'. exists SS_ZERO. rewrite lookup_insert_eq. split; [done|].
      rewrite (Ze i Hi Hu). apply sym_rel_zero.
    + destruct (Sy s' j) as (ss & Es & Rs); [done|]. exists ss. rewrite lookup_insert_ne by congruence. done.
  - intros s' ss'. destruct (decide (s' = sym)) as [->|Ne].
    + intros _. exists i. split; [done|]. by rewrite At, decide_True by done.
    + rewrite lookup_insert_ne by done. intros (j & Hj & Uj & Ej)%Do. exists j. split; [done|].
      rewrite At, decide_False by (intros ->; unfold sym_at in *; congruence). done.
  - rewrite map_size_insert_None by done. cbn [count_sym_used set_used upd_sym set_syms ft_syms].
    rewrite (alter_as_insert (claim_sym sym) _ i (sym_at f i)) by (by apply slot_lookup).
    pose proof (countb_insert fs_used (ft_syms f) i (sym_at f i) (claim_sym sym (sym_at f i))) as C.
    rewrite slot_lookup in C by done. specialize (C eq_refl). unfold sym_at in *. rewrite Hu in C. cbn [fs_used claim_sym] in C. lia.
  - cbn [count_sym_used set_used ft_used upd_sym set_syms]. rewrite Us, map_size_insert_None by done. unfold used_of. cbn [us_syms us_rolls us_blocks sp_nwins sp_nblocks].
    rewrite pool_count; [done|]. pose proof (proj2 (countb_all_used f a Rel) (ex_intro _ i (conj Hi Hu))). lia.
Qed.

(** Claiming agrees, and yields the symbol's slot. *)
Lemma refines_claim f a sym : refines f a ->
  let '(f', o) := find_or_claim sym f in
  let '(a', o') := s_claim sym a in
  refines f' a' /\
  match o, o' with
  | Some i, Some ss => claimed f' sym i /\ sp_syms a' !! sym = Some ss
  | None, None => True
  | _, _ => False
  end.
Proof.
  intros Rel. unfold find_or_claim, s_claim. pose proof (refines_find f a sym Rel) as Fi.
  destruct (sp_syms a !! sym) as [ss|] eqn:E.
  { destruct Fi as (i & Fi & Ci & _). unfold find_sym in Fi. destruct (probe_slots _ _ _ _); simplify_eq. done. }
  pose proof (countb_all_used f a Rel) as Un. rewrite <- (rf_size _ _ Rel) in Un.
  unfold find_sym in Fi. destruct (probe_slots sym (ft_syms f) (slot_hash sym) FEAT_SYM_SLOTS) as [i|i|] eqn:P; [done| |].
  - pose proof (probe_free sym _ _ i (slot_hash_lt sym) P) as [Hi Hu].
    destruct (Nat.ltb_spec (size (sp_syms a)) FEAT_SYM_SLOTS) as [_|Full]; [|assert (size (sp_syms a) < FEAT_SYM_SLOTS)%nat by (apply Un; eauto); lia].
    split; [by apply refines_claim_free|]. cbn [sp_syms]. rewrite lookup_insert_eq. split; [|done].
    split; [done|]. unfold sym_at. cbn [count_sym_used set_used upd_sym set_syms ft_syms].
    rewrite alter_at, decide_True by (try done; rewrite (so_len _ (rf_slots _ _ Rel)); done). done.
  - pose proof (probe_full_used sym _ _ (slot_hash_lt sym) P) as All.
    destruct (Nat.ltb_spec (size (sp_syms a)) FEAT_SYM_SLOTS) as [Room|_].
    { apply Un in Room as (i & Hi & Hu). destruct (All i Hi) as [Hu' _]. unfold sym_at in Hu. congruence. }
    split; [|done]. eapply refines_same; try done; [apply Rel|]. unfold tally_of. cbn. rewrite <- (rf_tally _ _ Rel). done.
Qed.

(** ** Windows behind pointers *)

Lemma owns_nodup rolls sym ptrs wins : Forall2 (owns rolls sym) ptrs wins -> NoDup wins.*1 -> NoDup ptrs.
Proof.
  induction 1 as [|r1 p ptrs wins Ow F IH]; [constructor|]. rewrite fmap_cons, NoDup_cons. intros [Ni Nd].
  constructor; [|by apply IH]. intros Hin. apply Ni. destruct Ow as (e & -> & _ & _ & Ew & _).
  apply list_elem_of_lookup in Hin as [k Hk]. destruct (Forall2_lookup_l _ _ _ _ _ F Hk) as (p' & Hp & e' & Ee & _ & _ & Ew' & _).
  simplify_eq. rewrite <- Ew, Ew'. apply list_elem_of_fmap. exists p'. split; [done|]. by apply list_elem_of_lookup_2 in Hp.
Qed.

Definition alter_ptrs (g : RollEntry -> RollEntry) (rolls : list RollEntry) (l : list nat) : list RollEntry :=
  foldl (fun rolls r1 => if (r1 =? 0)%nat then rolls else alter g (r1 - 1)%nat rolls) rolls l.

Lemma length_alter_ptrs g rolls l : length (alter_ptrs g rolls l) = length rolls.
Proof.
  revert rolls. induction l as [|r1 l IH]; intros rolls; [done|]. cbn. unfold alter_ptrs in *. rewrite IH.
  destruct r1; [done|]. apply length_alter.
Qed.

Lemma alter_ptrs_zeros g rolls k : alter_ptrs g rolls (replicate k 0%nat) = rolls.
Proof. induction k as [|k IH]; [done|]. exact IH. Qed.

(** Each pointed entry is altered once, the others not at all. *)
Lemma alter_ptrs_at g rolls l e : NoDup l -> (forall r1, r1 ∈ l -> (0 < r1 <= length rolls)%nat) -> (e < length rolls)%nat ->
  alter_ptrs g rolls l !!! e = if decide (S e ∈ l) then g (rolls !!! e) else rolls !!! e.
Proof.
  revert rolls. induction l as [|r1 l IH]; intros rolls Nd B He; [done|]. apply NoDup_cons in Nd as [Ni Nd].
  pose proof (B r1 ltac:(by left)) as Br. destruct r1 as [|e']; [lia|].
  change (alter_ptrs g rolls (S e' :: l)) with (alter_ptrs g (alter g (S e' - 1)%nat rolls) l).
  replace (S e' - 1)%nat with e' by lia. rewrite IH; [|done| |by rewrite length_alter].
  - rewrite alter_at by lia. destruct (decide (e = e')) as [->|Ne].
    + rewrite (decide_False (P := S e' ∈ l)) by done. rewrite decide_True by by left. done.
    + destruct (decide (S e ∈ l)) as [I|I]; [rewrite decide_True by (by right); done|].
      rewrite decide_False; [done|]. intros [[= ?]|?]%elem_of_cons; done.
  - intros r1 Hr. rewrite length_alter. apply B. by right.
Qed.

Lemma owns_bounds rolls sym ptrs wins r1 : length rolls = ROLL_POOL_ENTRIES -> Forall2 (owns rolls sym) ptrs wins ->
  r1 ∈ ptrs -> (0 < r1 <= length rolls)%nat.
Proof.
  intros L F Hr. apply list_elem_of_lookup in Hr as [k Hk]. destruct (Forall2_lookup_l _ _ _ _ _ F Hk) as (p & _ & e & -> & He & _). lia.
Qed.

Lemma rolls_ok_same rolls rolls' n : rolls_ok rolls n -> length rolls' = length rolls ->
  (forall e, (e < ROLL_POOL_ENTRIES)%nat -> re_win (rolls' !!! e) = re_win (rolls !!! e) /\ length (re_ring (rolls' !!! e)) = length (re_ring (rolls !!! e))) ->
  rolls_ok rolls' n.
Proof.
  intros [L Le Ri Fr] E K. split; [by rewrite E|done| |]; intros e He; destruct (K e He) as [Kw Kl]; rewrite ?Kw, ?Kl; auto.
Qed.

Lemma find_owned rolls sym ptrs wins win k : Forall2 (owns rolls sym) ptrs wins ->
  match find (fun p => p.1 =? win) wins with
  | Some p => exists j r1, find (is_win rolls win) (ptrs ++ replicate k 0%nat) = Some r1 /\ ptrs !! j = Some r1 /\ wins !! j = Some p /\ p.1 = win
  | None => find (is_win rolls win) (ptrs ++ replicate k 0%nat) = None
  end.
Proof.
  induction 1 as [|r1 p ptrs wins Ow F IH]; [induction k as [|k IH]; [done|exact IH]|]. cbn [find app].
  assert (is_win rolls win r1 = (p.1 =? win)) as ->.
  { destruct Ow as (e & -> & _ & _ & Ew & _). unfold is_win. cbn [Nat.eqb negb andb]. replace (S e - 1)%nat with e by lia. by rewrite Ew. }
  destruct (Z.eqb_spec p.1 win) as [E|E]; [by exists 0%nat, r1|].
  destruct (find (fun p => p.1 =? win) wins) as [q|]; [|done]. destruct IH as (j & r & ? & ? & ? & ?). by exists (S j), r.
Qed.

Lemma existsb_find {A} (f : A -> bool) l : existsb f l = match find f l with Some _ => true | None => false end.
Proof. induction l as [|x l IH]; [done|]. cbn. by destruct (f x). Qed.

(** ** Funding *)

Lemma set_fblock1_keeps b : keeps (set_fblock1 b).
Proof. done. Qed.

(** The symbol's block is the one its index names. *)
Lemma block_of_fblock f a sym i ss : refines f a -> claimed f sym i -> sp_syms a !! sym = Some ss ->
  match ss_prints ss with
  | None => fblock_of i f = None
  | Some p => exists b, fblock_of i f = Some b /\ fs_fblock1 (sym_at f i) = S b /\ (b < sp_nblocks a)%nat /\ fb_sym (ft_funding f !!! b) = sym /\ holds (ft_funding f !!! b) p
  end.
Proof.
  intros Rel Cl Ss. destruct (rf_sym _ _ Rel sym i Cl) as (ss' & Ess & [_ Bl _ _]). simplify_eq. unfold fblock_of.
  destruct Cl as (_ & _ & Es). rewrite Es in Bl. destruct (ss_prints ss) as [p|]; cbn [block_of] in Bl; [|by rewrite Bl].
  destruct Bl as (b & Eb & Hb & Hu & Hs & K). exists b. rewrite Eb. cbn [Nat.eqb]. replace (S b - 1)%nat with b by lia. split_and!; try done.
  destruct (Nat.lt_ge_cases b (sp_nblocks a)) as [|G]; [done|]. rewrite (bo_free _ _ (rf_blocks _ _ Rel)) in Hu by lia. done.
Qed.

Lemma sym_rel_block rolls blocks blocks' s ss b p : sym_rel rolls blocks s ss -> (b < FUNDING_BLOCKS)%nat ->
  fb_used (blocks' !!! b) = true -> fb_sym (blocks' !!! b) = fs_sym s -> holds (blocks' !!! b) p ->
  sym_rel rolls blocks' (set_fblock1 (S b) s) (with_prints p ss).
Proof. intros [La Bl Pt Nd] Hb Hu Hs K. split; try done. exists b. done. Qed.

Lemma alter_alter {A} (g h : A -> A) i (l : list A) : alter g i (alter h i l) = alter (fun x => g (h x)) i l.
Proof. revert i. induction l as [|x l IH]; intros [|i]; cbn; f_equal; auto. Qed.

Lemma set_fblock1_same b s : fs_fblock1 s = b -> set_fblock1 b s = s.
Proof. intros <-. by destruct s. Qed.

Lemma blocks_ok_alter blocks n g b : blocks_ok blocks n -> (b < n)%nat -> fb_used (g (blocks !!! b)) = true ->
  blocks_ok (alter g b blocks) n.
Proof.
  intros [L Le Us Fr] Hb Hu. split; [by rewrite length_alter|done| |]; intros e He; rewrite alter_at by lia; case_decide; subst; auto; lia.
Qed.

Lemma blocks_ok_claim blocks n g : blocks_ok blocks n -> (n < FUNDING_BLOCKS)%nat -> fb_used (g (blocks !!! n)) = true ->
  blocks_ok (alter g n blocks) (S n).
Proof.
  intros [L Le Us Fr] Hb Hu. split; [by rewrite length_alter|lia| |]; intros e He; rewrite alter_at by lia; case_decide; subst; try done.
  - apply Us. lia.
  - lia.
  - apply Fr. lia.
Qed.

Lemma refines_record f a sym i ss ts rate : refines f a -> claimed f sym i -> sp_syms a !! sym = Some ss ->
  refines (record_print i ts rate f) (s_record sym ts rate a) /\ claimed (record_print i ts rate f) sym i
  /\ exists ss', sp_syms (s_record sym ts rate a) !! sym = Some ss'.
Proof.
  intros Rel Cl Ss. pose proof (block_of_fblock f a sym i ss Rel Cl Ss) as Bl.
  pose proof (rf_sym _ _ Rel sym i Cl) as (ss' & Ess & Rs). simplify_eq. pose proof (rf_tally _ _ Rel) as Ta. pose proof (rf_off _ _ Rel) as Of.
  pose proof (rf_rolls _ _ Rel) as Ro. pose proof (rf_blocks _ _ Rel) as Bo. pose proof Cl as (Hi & Hu & Hs).
  unfold record_print, s_record. rewrite Ss. pose proof (bo_len _ _ Bo) as Lb. pose proof (bo_le _ _ Bo) as Le.
  destruct (ss_prints ss) as [p|] eqn:Ep.
  - destruct Bl as (b & -> & Eb1 & Hb & Eb & K). assert (b < length (ft_funding f))%nat as Hbl by lia.
    eapply (refines_local_ex f _ a _ sym i ss (fun s => s) (with_prints (p_push ts rate p))); try done.
    + symmetry. by apply list_alter_id.
    + apply blocks_ok_alter; [done|done|]. by apply (bo_used _ _ Bo).
    + intros e He Ne. cbn [count_print set_funding ft_funding]. rewrite alter_at by done.
      by rewrite decide_False by congruence.
    + unfold tally_of in *. cbn. by rewrite <- Ta.
    + apply (rf_used _ _ Rel).
    + rewrite <- (set_fblock1_same _ _ Eb1). eapply sym_rel_block; [exact Rs|lia|..]; cbn [count_print set_funding ft_funding];
        rewrite alter_at, decide_True by done; [by apply (bo_used _ _ Bo)|cbn; congruence|by apply holds_push].
  - rewrite Bl. rewrite (first_index_prefix _ _ (sp_nblocks a)), Lb; [|lia|].
    2: { intros e He. case_bool_decide; [rewrite (bo_free _ _ Bo) by lia; done|by rewrite (bo_used _ _ Bo) by lia]. }
    destruct (Nat.ltb_spec (sp_nblocks a) FUNDING_BLOCKS) as [Hb|Hb].
    + set (b := sp_nblocks a) in *. assert (b < length (ft_funding f))%nat as Hbl by lia.
      pose proof (bo_free _ _ Bo b ltac:(lia)) as Eb.
      set (g := fun x => push_print ts rate (claim_block sym x)).
      eapply (refines_local_ex f _ a _ sym i ss (set_fblock1 (S b)) (with_prints (p_push ts rate PRINTS_EMPTY))); try done;
        cbn [count_print count_block_used set_used set_funding ft_funding upd_sym set_syms ft_roll sp_count sp_upd sp_more_blocks sp_nblocks]; rewrite ?Hs, ?alter_alter.
      * by apply (blocks_ok_claim _ _ g).
      * intros e He Ne. rewrite alter_at, decide_False by lia. done.
      * unfold tally_of in *. cbn. by rewrite <- Ta.
      * change (mkUsed (us_syms (ft_used f)) (us_rolls (ft_used f)) (wrap_u32 (us_blocks (ft_used f) + 1)) =
          used_of (size (sp_syms a)) (sp_more_blocks a)). rewrite (rf_used _ _ Rel). unfold used_of. cbn [us_syms us_rolls us_blocks sp_nwins sp_nblocks sp_count sp_upd sp_more_blocks].
        by rewrite pool_count by lia.
      * eapply sym_rel_block; [exact Rs|done|..]; rewrite alter_at, decide_True by done; try done.
        apply holds_push. by apply holds_empty.
    + split_and!; [|done|eauto]. eapply refines_same; try done. unfold tally_of in *. cbn. by rewrite <- Ta.
Qed.

(** ** Feeds *)

Lemma refines_upd_latest f a sym i g h : refines f a -> claimed f sym i ->
  (forall s, fs_sym (g s) = fs_sym s /\ fs_used (g s) = fs_used s /\ fs_fblock1 (g s) = fs_fblock1 s /\ fs_roll1 (g s) = fs_roll1 s) ->
  latest_of (g (sym_at f i)) = h (latest_of (sym_at f i)) ->
  refines (upd_sym i g f) (sp_upd sym (on_latest h) a) /\ claimed (upd_sym i g f) sym i.
Proof.
  intros Rel Cl G E. destruct (rf_sym _ _ Rel sym i Cl) as (ss & Ss & Rs).
  destruct (refines_upd f a sym i ss g (on_latest h)) as (A & B & _); try done.
  - intros s. destruct (G s) as (? & ? & _). done.
  - destruct (G (sym_at f i)) as (E1 & E2 & E3 & E4). apply sym_rel_latest; try done. by rewrite <- (sr_latest _ _ _ _ Rs).
Qed.

(** After a claim, the slot's latest values are the specification's. *)
Lemma claimed_latest f a sym i ss : refines f a -> claimed f sym i -> sp_syms a !! sym = Some ss -> latest_of (sym_at f i) = ss_latest ss.
Proof. intros Rel Cl Ss. destruct (rf_sym _ _ Rel sym i Cl) as (ss' & Ess & [La _ _ _]). by simplify_eq. Qed.

Tactic Notation "claim_as" constr(Rel) constr(sym) ident(R) ident(i) ident(ss) ident(Cl) ident(Ss) :=
  let K := fresh in pose proof (refines_claim _ _ sym Rel) as K;
  destruct (find_or_claim sym _) as [? [i|]], (s_claim sym _) as [? [ss|]]; destruct K as [R K]; try done; destruct K as [Cl Ss].

Lemma refines_depth d mono f a : refines f a -> refines (feat_depth d mono f) (s_depth d mono a).
Proof.
  intros Rel. unfold feat_depth, s_depth. claim_as Rel (dk_sym d) R i ss Cl Ss.
  destruct (negb (Z.land (dk_flags d) DEPTH_FLAG_STALE =? 0)); by apply (refines_upd_latest _ _ (dk_sym d) i).
Qed.

Lemma refines_opt o mono f a : refines f a -> refines (feat_opt o mono f) (s_opt o mono a).
Proof.
  intros Rel. unfold feat_opt, s_opt. claim_as Rel (os_sym o) R i ss Cl Ss. by apply (refines_upd_latest _ _ (os_sym o) i).
Qed.

Lemma refines_off f a o : refines f a -> refines (set_off o f) (sp_set_off o a).
Proof. intros Rel. eapply refines_same; try done. apply (rf_tally _ _ Rel). Qed.

Lemma refines_wall f a mono : refines f a -> wall_ms mono f = sp_wall mono a.
Proof. intros Rel. unfold wall_ms, sp_wall. by rewrite (rf_off _ _ Rel). Qed.

Lemma refines_advance e f a : refines f a -> refines (funding_advance e f) (s_advance e a).
Proof.
  intros Rel. unfold funding_advance, s_advance. claim_as Rel (ev_sym e) R i ss Cl Ss.
  assert (fs_fund (sym_at f0 i) = la_fund (ss_latest ss)) as -> by (by rewrite <- (claimed_latest f0 s _ i ss R Cl Ss)).
  destruct ((0 <? ff_next_ms (la_fund (ss_latest ss))) && (ff_next_ms (la_fund (ss_latest ss)) <? ev_v1 e)).
  - destruct (refines_record f0 s (ev_sym e) i ss (ff_next_ms (la_fund (ss_latest ss))) (ff_pend_rate (la_fund (ss_latest ss))) R Cl Ss)
      as (R1 & C1 & _). by apply (refines_upd_latest _ _ (ev_sym e) i).
  - by apply (refines_upd_latest _ _ (ev_sym e) i).
Qed.

Lemma refines_hourly sym at_ms rate f a : refines f a -> refines (funding_sample sym at_ms rate f) (s_hourly sym at_ms rate a).
Proof.
  intros Rel. unfold funding_sample, s_hourly. claim_as Rel sym R i ss Cl Ss.
  assert (fs_fund (sym_at f0 i) = la_fund (ss_latest ss)) as -> by (by rewrite <- (claimed_latest f0 s _ i ss R Cl Ss)).
  destruct (ff_last_hour (la_fund (ss_latest ss)) =? at_ms /t MS_PER_HOUR); [done|].
  edestruct (refines_upd_latest f0 s sym i) as [R1 C1]; [done|done| | |].
  3: eapply refines_record; [exact R1|exact C1|]; cbn [sp_upd sp_syms]; rewrite lookup_alter_eq, Ss; done.
  all: done.
Qed.

Lemma refines_event e mono f a : refines f a -> refines (feat_event e mono f) (s_event e mono a).
Proof.
  intros Rel. unfold feat_event, s_event, learn_wall.
  assert (refines (if ev_venue_time_ms e =? 0 then f else set_off (Some (wrap_i64 (wrap_i64 (ev_venue_time_ms e) - wrap_i64 (mono / 1000000)))) f)
    (if ev_venue_time_ms e =? 0 then a else sp_set_off (Some (wrap_i64 (wrap_i64 (ev_venue_time_ms e) - wrap_i64 (mono / 1000000)))) a)) as R
    by (destruct (ev_venue_time_ms e =? 0); [done|by apply refines_off]).
  destruct (advance_venue (ev_venue e) && (ev_channel e =? CHANNEL_FUNDING)); [by apply refines_advance|].
  destruct ((ev_venue e =? VENUE_DERIBIT) && (ev_channel e =? CHANNEL_FUNDING)).
  - destruct (ev_venue_time_ms e =? 0); [done|]. by apply refines_hourly.
  - destruct ((ev_venue e =? VENUE_HYPERLIQUID) && (ev_channel e =? CHANNEL_ASSET_CTX)); [|done].
    rewrite (refines_wall _ _ mono R). destruct (sp_wall mono _); [by apply refines_hourly|done].
Qed.

Lemma refines_seed sym ts rate f a : refines f a -> refines (funding_seed sym ts rate f) (s_seed sym ts rate a).
Proof.
  intros Rel. unfold funding_seed, s_seed. claim_as Rel sym R i ss Cl Ss.
  pose proof (block_of_fblock _ _ _ _ _ R Cl Ss) as Bl. destruct (ss_prints ss) as [p|].
  - destruct Bl as (b & -> & _ & _ & _ & K). rewrite (holds_known sym ts _ _ K). destruct (p_known sym ts p).
    + eapply refines_same; try done; [apply R|]. cbn [sp_count sp_tally]. by rewrite <- (rf_tally _ _ R).
    + by eapply refines_record.
  - rewrite Bl. by eapply refines_record.
Qed.

(** ** Ticks *)

Lemma sym_rel_wins rolls rolls' blocks s ss (K : Z * Hist -> Z * Hist) : sym_rel rolls blocks s ss -> (forall p, (K p).1 = p.1) ->
  (forall k r1 p, ss_wins ss !! k = Some p -> fs_roll1 s !! k = Some r1 -> owns rolls (fs_sym s) r1 p -> owns rolls' (fs_sym s) r1 (K p)) ->
  sym_rel rolls' blocks s (on_wins (fmap K) ss).
Proof.
  intros [La Bl (ptrs & Ep & Lp & Ow) Nd] Kf Ko. split; cbn [on_wins ss_latest ss_prints ss_wins]; [done|done| |].
  - exists ptrs. split_and!; [done|done|]. apply Forall2_fmap_r. apply Forall2_same_length_lookup_2; [by eapply Forall2_length|].
    intros k r1 p Hr Hp. apply (Ko k); [done| |by eapply Forall2_lookup_lr]. rewrite Ep. by apply lookup_app_l_Some.
  - rewrite <- list_fmap_compose. by rewrite (list_fmap_ext _ fst) by (intros; apply Kf).
Qed.

(** Every entry a symbol points to is altered once, no other is. *)
Lemma alter_owned g rolls blocks s ss e : sym_rel rolls blocks s ss -> length rolls = ROLL_POOL_ENTRIES -> (e < ROLL_POOL_ENTRIES)%nat ->
  alter_ptrs g rolls (fs_roll1 s) !!! e = if decide (S e ∈ fs_roll1 s) then g (rolls !!! e) else rolls !!! e.
Proof.
  intros [_ _ (ptrs & -> & _ & Ow) Nd] L He. unfold alter_ptrs. rewrite foldl_app. fold (alter_ptrs g rolls ptrs).
  fold (alter_ptrs g (alter_ptrs g rolls ptrs) (replicate (MAX_ROLL_PER_SYM - length ptrs) 0%nat)). rewrite alter_ptrs_zeros.
  rewrite alter_ptrs_at; [|by eapply owns_nodup|by intros; eapply owns_bounds|lia].
  destruct (decide (S e ∈ ptrs)) as [I|I]; [rewrite decide_True by (apply elem_of_app; by left); done|].
  rewrite decide_False; [done|]. intros [?|Hz]%elem_of_app; [done|]. apply elem_of_replicate in Hz as [? _]. done.
Qed.

Lemma owned_sym rolls blocks s ss e : sym_rel rolls blocks s ss -> S e ∈ fs_roll1 s -> re_sym (rolls !!! e) = fs_sym s.
Proof.
  intros [_ _ (ptrs & -> & _ & Ow) Nd] [Hin|Hz]%elem_of_app; [|by apply elem_of_replicate in Hz as [? _]].
  apply list_elem_of_lookup in Hin as [k Hk]. by destruct (Forall2_lookup_l _ _ _ _ _ Ow Hk) as (p & _ & e' & [= <-] & _ & ? & _).
Qed.

Lemma sample_entry_frame minute mid e : re_win (sample_entry minute mid e) = re_win e /\ re_sym (sample_entry minute mid e) = re_sym e
  /\ length (re_ring (sample_entry minute mid e)) = length (re_ring e).
Proof.
  unfold sample_entry. destruct (re_newest e <? minute).
  - cbn [re_newest re_win re_ring re_sym]. rewrite wipe_foldl. case_ifs; cbn [re_win re_ring re_sym]; by rewrite ?length_insert, length_wipe.
  - case_ifs; cbn [re_win re_ring re_sym]; by rewrite ?length_insert.
Qed.

Lemma sample_rolls_ptrs minute mid l rolls : sample_rolls minute mid l rolls = alter_ptrs (sample_entry minute mid) rolls l.
Proof. done. Qed.

Lemma refines_tick t mono f a : refines f a -> refines (feat_tick t mono f) (s_tick t mono a).
Proof.
  intros Rel. unfold feat_tick, s_tick. claim_as Rel (tk_sym t) R i ss Cl Ss.
  destruct (is_stale t); [by apply (refines_upd_latest _ _ (tk_sym t) i)|].
  rewrite (refines_wall _ _ mono R). set (mid := if _ && _ then _ else 0). fold (quote_mid (tk_bid_px t) (tk_ask_px t)). fold mid.
  set (b := mkBbo _ _ mid mono).
  destruct ((0 <? tk_bid_px t) && (0 <? tk_ask_px t)), (sp_wall mono s) as [wall|];
    try (by apply (refines_upd_latest _ _ (tk_sym t) i)).
  destruct (rf_sym _ _ R _ i Cl) as (ss' & Ess & Rs). simplify_eq. destruct Cl as (Hi & Hu & Hs).
  pose proof (rf_rolls _ _ R) as Ro. pose proof (ro_len _ _ Ro) as Lr. set (minute := wall /t MS_PER_MIN).
  set (g := set_bbo false b). assert (sym_at (upd_sym i g f0) i = g (sym_at f0 i)) as At.
  { unfold sym_at. cbn [count_sym_used set_used upd_sym set_syms ft_syms]. rewrite alter_at, decide_True; [done|done|by rewrite (so_len _ (rf_slots _ _ R))]. }
  rewrite At. change (fs_roll1 (g (sym_at f0 i))) with (fs_roll1 (sym_at f0 i)).
  eapply (refines_local f0 _ s _ (tk_sym t) i ss g (fun s => on_wins (fmap (prod_map id (h_sample minute mid))) (on_latest (la_set_bbo false b) s)));
    try done; cbn [set_rolls upd_sym set_syms ft_roll ft_funding sp_upd sp_nwins sp_nblocks].
  - eapply rolls_ok_same; [exact Ro|apply length_alter_ptrs|]. intros e He. rewrite sample_rolls_ptrs, (alter_owned _ _ _ _ _ e Rs Lr He).
    case_decide; [|done]. by destruct (sample_entry_frame minute mid (ft_roll f0 !!! e)) as (-> & _ & ->).
  - apply (rf_blocks _ _ R).
  - intros e He Ne. assert (e < ROLL_POOL_ENTRIES)%nat by (pose proof (ro_le _ _ Ro); lia).
    rewrite sample_rolls_ptrs, (alter_owned _ _ _ _ _ e Rs Lr) by done. rewrite decide_False; [done|]. intros I.
    apply Ne. by rewrite (owned_sym _ _ _ _ _ Rs I).
  - apply (rf_off _ _ R).
  - apply (rf_tally _ _ R).
  - apply (rf_used _ _ R).
  - apply (sym_rel_wins (ft_roll f0)); [|done|].
    + apply sym_rel_latest; try done. by rewrite <- (sr_latest _ _ _ _ Rs).
    + intros k r1 p Hp Hr%list_elem_of_lookup_2 (e & -> & He & Es & Ew & M). exists e. rewrite sample_rolls_ptrs, (alter_owned _ _ _ _ _ e Rs Lr He).
      rewrite decide_True by done. destruct (sample_entry_frame minute mid (ft_roll f0 !!! e)) as (-> & -> & _).
      split_and!; try done. by apply mirrors_sample.
Qed.

(** ** Windows *)

Lemma first_zero ptrs k : (forall r1, r1 ∈ ptrs -> (0 < r1)%nat) ->
  first_index (fun r1 => (r1 =? 0)%nat) (ptrs ++ replicate k 0%nat) = if (k =? 0)%nat then None else Some (length ptrs).
Proof.
  induction ptrs as [|r1 ptrs IH]; intros Pos; [by destruct k|]. cbn [app first_index length].
  destruct (Nat.eqb_spec r1 0) as [E|E]; [pose proof (Pos r1 ltac:(by left)); lia|].
  rewrite IH by (intros; apply Pos; by right). by destruct (k =? 0)%nat.
Qed.

Lemma insert_zero ptrs k x : <[length ptrs := x]> (ptrs ++ replicate (S k) 0%nat) = (ptrs ++ [x]) ++ replicate k 0%nat.
Proof. rewrite insert_app_r_alt, Nat.sub_diag, <- app_assoc by done. done. Qed.

Lemma find_none_notin win (l : list (Z * Hist)) : find (fun p => p.1 =? win) l = None -> win ∉ l.*1.
Proof.
  intros F (p & -> & Hp)%list_elem_of_fmap. apply list_elem_of_In, (find_none _ _ F) in Hp. lia.
Qed.

(** A fresh entry becomes the symbol's next window. *)
Lemma sym_rel_bind rolls blocks s ss n win : sym_rel rolls blocks s ss -> rolls_ok rolls n -> (n < ROLL_POOL_ENTRIES)%nat ->
  (length (ss_wins ss) < MAX_ROLL_PER_SYM)%nat -> 0 < win <= ROLL_WINDOW_MAX_MIN -> win ∉ (ss_wins ss).*1 ->
  sym_rel (alter (bind_entry (fs_sym s) win) n rolls) blocks
    (set_roll1 (<[length (ss_wins ss) := S n]> (fs_roll1 s)) s) (on_wins (fun l => l ++ [(win, HIST_EMPTY)]) ss).
Proof.
  intros [La Bl (ptrs & Ep & Lp & Ow) Nd] Ro Hn Hl Hw Ni. pose proof (Forall2_length _ _ _ Ow) as Lw. pose proof (ro_len _ _ Ro) as Lr.
  split; cbn [on_wins ss_latest ss_prints ss_wins]; [done|done| |].
  - exists (ptrs ++ [S n]). cbn [set_roll1 fs_roll1 fs_sym]. rewrite Ep, length_app. cbn [length]. split_and!; [|lia|].
    + replace (MAX_ROLL_PER_SYM - length ptrs)%nat with (S (MAX_ROLL_PER_SYM - (length ptrs + 1))) by lia.
      rewrite <- Lw. apply insert_zero.
    + apply Forall2_app.
      * eapply Forall2_impl; [exact Ow|]. intros r1 p. apply (owns_keep _ _ n); [done|]. intros e He _. by rewrite alter_at, decide_False by lia.
      * constructor; [|constructor]. exists n. rewrite alter_at, decide_True by (try done; lia). cbn [fst snd]. split_and!; try done.
        apply mirrors_bound; [done|by apply (ro_ring _ _ Ro)].
  - rewrite fmap_app. apply NoDup_app. split_and!; [done| |apply NoDup_singleton].
    intros x Hx Hy. apply list_elem_of_singleton in Hy. by subst x.
Qed.

Lemma rolls_ok_bind rolls n sym win : rolls_ok rolls n -> (n < ROLL_POOL_ENTRIES)%nat -> win <> 0 ->
  rolls_ok (alter (bind_entry sym win) n rolls) (S n).
Proof.
  intros [L Le Ri Fr] Hn Hw. split; [by rewrite length_alter|lia| |]; intros e He; rewrite alter_at by lia; case_decide as D; subst.
  - cbn. by apply Ri.
  - by apply Ri.
  - cbn. split; [done|lia].
  - rewrite Fr by done. lia.
Qed.

Lemma refines_bind sym win f a : 0 <= win -> refines f a ->
  refines (bind_roll sym win f).1 (s_bind sym win a).1 /\ (bind_roll sym win f).2 = (s_bind sym win a).2.
Proof.
  intros Hw Rel. unfold bind_roll, s_bind. destruct ((win =? 0) || (ROLL_WINDOW_MAX_MIN <? win)) eqn:Ew; [done|].
  apply orb_false_iff in Ew as [E1%Z.eqb_neq E2%Z.ltb_ge]. claim_as Rel sym R i ss Cl Ss.
  destruct (rf_sym _ _ R _ i Cl) as (ss' & Ess & Rs). simplify_eq. pose proof Cl as (Hi & Hu & Hs).
  pose proof (rf_rolls _ _ R) as Ro. pose proof (ro_len _ _ Ro) as Lr. pose proof Rs as [_ _ (ptrs & Ep & Lp & Ow) _].
  rewrite !existsb_find. pose proof (find_owned _ _ _ _ win (MAX_ROLL_PER_SYM - length ptrs) Ow) as Fo. rewrite Ep.
  destruct (find (fun p => p.1 =? win) (ss_wins ss)) as [p|] eqn:Fp; [by destruct Fo as (j & r1 & -> & _)|]. rewrite Fo.
  rewrite first_zero by (intros r1 Hr; apply (owns_bounds _ _ _ _ r1 Lr Ow) in Hr; lia). rewrite <- (Forall2_length _ _ _ Ow).
  assert (refines (count_roll_exhausted f0) (sp_count ta_roll s)) as Full
    by (eapply refines_same; try done; [apply R|]; cbn [sp_count sp_tally]; by rewrite <- (rf_tally _ _ R)).
  destruct (Nat.eqb_spec (MAX_ROLL_PER_SYM - length ptrs) 0) as [E0|E0];
    destruct (Nat.ltb_spec (length ptrs) MAX_ROLL_PER_SYM); try lia; [done|]. cbn [andb].
  rewrite (first_index_prefix _ _ (sp_nwins s)), Lr; [|rewrite Lr; apply (ro_le _ _ Ro)|].
  2: { intros e He. rewrite Lr in He. pose proof (ro_free _ _ Ro e He) as Fe.
       destruct (Z.eqb_spec (re_win (ft_roll f0 !!! e)) 0); case_bool_decide; tauto. }
  destruct (Nat.ltb_spec (sp_nwins s) ROLL_POOL_ENTRIES) as [Hn|Hn]; [|done]. split; [|done]. cbn [fst].
  rewrite (Forall2_length _ _ _ Ow).
  eapply (refines_local f0 _ s _ sym i ss (fun x => set_roll1 (<[length (ss_wins ss) := S (sp_nwins s)]> (fs_roll1 x)) x)
    (on_wins (fun l => l ++ [(win, HIST_EMPTY)]))); try done;
    cbn [count_roll_used set_used set_rolls upd_sym set_syms ft_roll ft_funding sp_upd sp_more_wins sp_nwins sp_nblocks].
  - by apply rolls_ok_bind.
  - apply (rf_blocks _ _ R).
  - intros e He Ne. by rewrite alter_at, decide_False by lia.
  - apply (rf_off _ _ R).
  - apply (rf_tally _ _ R).
  - change (mkUsed (us_syms (ft_used f0)) (wrap_u32 (us_rolls (ft_used f0) + 1)) (us_blocks (ft_used f0)) =
      used_of (size (sp_syms s)) (sp_more_wins s)). rewrite (rf_used _ _ R).
    unfold used_of. cbn [us_syms us_rolls us_blocks sp_nwins sp_nblocks sp_more_wins]. by rewrite pool_count by lia.
  - rewrite <- Hs. apply sym_rel_bind; try done; [by rewrite <- (Forall2_length _ _ _ Ow)|lia|by apply find_none_notin].
Qed.

Lemma list_fmap_at {A B} `{!Inhabited A, !Inhabited B} (g : A -> B) i (l : list A) : (i < length l)%nat -> (g <$> l) !!! i = g (l !!! i).
Proof.
  intros Hi. rewrite (list_lookup_total_alt (g <$> l)), list_lookup_fmap, (list_lookup_lookup_total_lt l i) by done. done.
Qed.

Lemma slots_fmap g l : slots_ok l -> keeps g -> slots_ok (g <$> l).
Proof.
  intros [L P] G. split; [by rewrite length_fmap|].
  assert (forall j, (j < FEAT_SYM_SLOTS)%nat -> (g <$> l) !!! j = g (l !!! j)) as At by (intros; apply list_fmap_at; lia).
  intros i Hi. rewrite At by done. destruct (G (l !!! i)) as [-> ->]. intros Hu. destruct (P i Hi Hu) as (d & Hd & Ei & Pd).
  exists d. split_and!; [done|done|]. intros d' Hd'. unfold taken_by_other. rewrite At by apply nth_probe_lt.
  destruct (G (l !!! nth_probe (slot_hash (fs_sym (l !!! i))) d')) as [-> ->]. by apply Pd.
Qed.

Lemma refines_unbind f a : refines f a -> refines (clear_roll_bindings f) (s_clear a).
Proof.
  intros [Sl Ze Sy Do Si Ro Bo Of Ta Us]. unfold clear_roll_bindings, s_clear. set (g := set_roll1 _).
  assert (forall j, (j < FEAT_SYM_SLOTS)%nat -> (g <$> ft_syms f) !!! j = g (sym_at f j)) as At
    by (intros; apply list_fmap_at; rewrite (so_len _ Sl); done).
  set (f' := clear_roll_used _). assert (forall s j, claimed f' s j <-> claimed f s j) as Same
    by (intros s j; unfold claimed, sym_at at 1 2; split; intros (Hj & K); (split; [done|]); cbn [f' clear_roll_used set_used set_syms ft_syms] in *; rewrite At in *; done).
  split; cbn [sp_syms sp_nwins sp_nblocks sp_off sp_tally f' clear_roll_used set_used ft_used set_syms set_rolls ft_syms ft_roll ft_funding ft_off]; try done.
  - by apply slots_fmap.
  - intros i Hi. unfold sym_at at 1 2. cbn [f' clear_roll_used set_used set_syms ft_syms]. rewrite At by done. intros Hu. by rewrite Ze.
  - intros s i Ci%Same. destruct (Sy s i Ci) as (ss & Es & [La Bl _ _]). eexists. rewrite lookup_fmap, Es. split; [done|].
    unfold sym_at. cbn [f' clear_roll_used set_used set_syms ft_syms]. rewrite At by apply Ci. split; [done|done| |constructor].
    exists []. split_and!; [done|cbn; lia|constructor].
  - intros s ss. rewrite lookup_fmap. destruct (sp_syms a !! s) as [ss0|] eqn:E; [|done]. intros _.
    destruct (Do s ss0 E) as [j Cj]. exists j. by apply Same.
  - rewrite map_size_fmap, Si. symmetry. clear. induction (ft_syms f) as [|s l IH]; [done|]. cbn. by rewrite IH.
  - destruct Ro as [L Le Ri Fr]. split; [by rewrite length_fmap|lia| |]; intros e He; rewrite list_fmap_at by lia; [by apply Ri|].
    cbn. split; [lia|done].
  - rewrite Us, map_size_fmap. done.
Qed.

(** ** Reads *)

Lemma refresh_frame minute e : re_win (refresh_roll minute e) = re_win e /\ re_sym (refresh_roll minute e) = re_sym e
  /\ re_ring (refresh_roll minute e) = re_ring e.
Proof. unfold refresh_roll. by destruct (re_cache e =? minute). Qed.

Lemma refresh_block_frame wall b : fb_sym (refresh_apr wall b) = fb_sym b /\ fb_used (refresh_apr wall b) = fb_used b.
Proof. unfold refresh_apr. cbv zeta. destruct (fb_cache b =? wall /t MS_PER_MIN); [done|]. by do 2 destruct (prints_in _ _ _). Qed.

Lemma refines_roll id f a sym i ss win mono : refines f a -> claimed f sym i -> sp_syms a !! sym = Some ss ->
  refines (read_roll id i win mono f).1 (s_roll id sym win mono ss a).1 /\
  (read_roll id i win mono f).2 = (s_roll id sym win mono ss a).2.
Proof.
  intros Rel Cl Ss. unfold read_roll, s_roll, roll_entry_of. rewrite (refines_wall _ _ mono Rel).
  destruct (sp_wall mono a) as [wall|]; [|done]. destruct (win =? 0); [done|]. set (minute := wall /t MS_PER_MIN).
  destruct (rf_sym _ _ Rel _ i Cl) as (ss' & Ess & Rs). simplify_eq. pose proof Cl as (Hi & Hu & Hs).
  pose proof (rf_rolls _ _ Rel) as Ro. pose proof (ro_len _ _ Ro) as Lr. pose proof Rs as [_ _ (ptrs & Ep & Lp & Ow) Nd].
  pose proof (find_owned _ _ _ _ win (MAX_ROLL_PER_SYM - length ptrs) Ow) as Fo. rewrite Ep.
  destruct (find (fun p => p.1 =? win) (ss_wins ss)) as [p|]; [|by rewrite Fo].
  destruct Fo as (j & r1 & -> & Hj & Hp & Ew). destruct (Forall2_lookup_lr _ _ _ _ _ _ Ow Hj Hp) as (e & -> & He & Es & Ewe & M).
  cbn [fmap option_fmap option_map]. replace (S e - 1)%nat with e by lia.
  pose proof (mirrors_refresh minute _ _ M) as M'. rewrite Ewe, Ew in M'.
  assert (alter (refresh_roll minute) e (ft_roll f) !!! e = refresh_roll minute (ft_roll f !!! e)) as At by (by rewrite alter_at, decide_True by (try done; lia)).
  cbn [fst snd set_rolls ft_roll]. rewrite At. split.
  2: { fold (stats_read id (re_stats (refresh_roll minute (ft_roll f !!! e)))) (stats_read id (hi_stats (h_refresh minute win p.2))).
       apply same_stats_read, (mi_stats _ _ M'). }
  eapply (refines_local f _ a _ sym i ss (fun s => s) (on_wins (on_win win (fun _ => h_refresh minute win p.2)))); try done;
    cbn [set_rolls ft_syms ft_roll ft_funding ft_off sp_upd sp_nwins sp_nblocks sp_off].
  - symmetry. by apply list_alter_id.
  - eapply rolls_ok_same; [exact Ro|by rewrite length_alter|]. intros e' He'. rewrite alter_at by lia. case_decide as D; [subst e'|done].
    by destruct (refresh_frame minute (ft_roll f !!! e)) as (-> & _ & ->).
  - apply (rf_blocks _ _ Rel).
  - intros e' He' Ne. rewrite alter_at by lia. by rewrite decide_False by congruence.
  - apply (rf_off _ _ Rel).
  - apply (rf_tally _ _ Rel).
  - apply (rf_used _ _ Rel).
  - unfold on_win. apply (sym_rel_wins (ft_roll f)); [done|by intros [w h]; cbn; destruct (w =? win)|].
    intros k r1' q Hq Hr (e' & -> & He' & Es' & Ew' & M''). destruct (refresh_frame minute (ft_roll f !!! e)) as (F1 & F2 & _).
    exists e'. rewrite alter_at by lia. destruct (Z.eqb_spec q.1 win) as [Eq|Nq].
    + assert (k = j) as ->.
      { apply (NoDup_lookup _ _ _ win Nd); rewrite list_lookup_fmap, ?Hq, ?Hp; cbn; congruence. }
      rewrite Ep in Hr. rewrite (lookup_app_l_Some _ _ _ _ Hj) in Hr. simplify_eq. rewrite decide_True, F1, F2 by done. done.
    + rewrite decide_False by congruence. done.
Qed.

Lemma refines_apr short f a sym i ss mono : refines f a -> claimed f sym i -> sp_syms a !! sym = Some ss ->
  refines (read_apr short i mono f).1 (s_apr short sym mono ss a).1 /\
  (read_apr short i mono f).2 = (s_apr short sym mono ss a).2.
Proof.
  intros Rel Cl Ss. unfold read_apr, s_apr. rewrite (refines_wall _ _ mono Rel).
  destruct (sp_wall mono a) as [wall|]; [|done]. pose proof (block_of_fblock _ _ _ _ _ Rel Cl Ss) as Bl.
  destruct (ss_prints ss) as [p|] eqn:Ep; [|by rewrite Bl]. destruct Bl as (b & -> & Eb1 & Hb & Eb & K).
  pose proof (rf_blocks _ _ Rel) as Bo. pose proof (bo_len _ _ Bo) as Lb. pose proof (bo_le _ _ Bo) as Le.
  assert (b < length (ft_funding f))%nat as Hbl by lia. destruct (rf_sym _ _ Rel _ i Cl) as (ss' & Ess & Rs). assert (ss' = ss) as -> by congruence. pose proof Cl as (Hi & Hu & Hs).
  assert (alter (refresh_apr wall) b (ft_funding f) !!! b = refresh_apr wall (ft_funding f !!! b)) as At by (by rewrite alter_at, decide_True by done).
  pose proof (holds_refresh wall _ _ K) as K'. rewrite Eb in K'. destruct (refresh_block_frame wall (ft_funding f !!! b)) as [F1 F2].
  cbn [fst snd set_funding ft_funding]. rewrite At. split.
  2: { pose proof (ho_apr _ _ K') as E. injection E as -> -> -> ->. done. }
  eapply (refines_local f _ a _ sym i ss (fun s => s) (with_prints (p_refresh sym wall p))); try done;
    cbn [set_funding ft_syms ft_roll ft_funding ft_off sp_upd sp_nwins sp_nblocks sp_off].
  - symmetry. by apply list_alter_id.
  - apply (rf_rolls _ _ Rel).
  - apply blocks_ok_alter; [done|done|]. rewrite F2. by apply (bo_used _ _ Bo).
  - intros e He Ne. rewrite alter_at by done. by rewrite decide_False by congruence.
  - apply (rf_off _ _ Rel).
  - apply (rf_tally _ _ Rel).
  - apply (rf_used _ _ Rel).
  - rewrite <- (set_fblock1_same _ _ Eb1). eapply sym_rel_block; [exact Rs|lia|..]; rewrite At;
      [rewrite F2; by apply (bo_used _ _ Bo)|congruence|done].
Qed.

Lemma refines_clock sym f a i ss mono : refines f a -> claimed f sym i -> sp_syms a !! sym = Some ss ->
  clock_to_funding sym i mono f = s_clock sym mono ss a.
Proof.
  intros Rel Cl Ss. unfold clock_to_funding, s_clock. rewrite (refines_wall _ _ mono Rel).
  destruct (sp_wall mono a) as [wall|]; [|done]. destruct (funding_period_s (symbol_venue_byte sym) =? 0); [done|].
  rewrite <- (claimed_latest _ _ _ _ _ Rel Cl Ss). cbn [latest_of la_fund].
  destruct (symbol_venue_byte sym =? VENUE_HYPERLIQUID); [done|]. by destruct (ff_next_ms (fs_fund (sym_at f i)) <=? 0).
Qed.

Lemma refines_get id sym win mono f a : refines f a ->
  refines (feat_get id sym win mono f).1 (s_get id sym win mono a).1 /\ (feat_get id sym win mono f).2 = (s_get id sym win mono a).2.
Proof.
  intros Rel. unfold feat_get, s_get. pose proof (refines_find f a sym Rel) as Fi.
  destruct (sp_syms a !! sym) as [ss|] eqn:Ss; [|by rewrite Fi]. destruct Fi as (i & -> & Cl & Rs).
  rewrite <- (claimed_latest _ _ _ _ _ Rel Cl Ss).
  destruct id; try done; try (by apply refines_roll); try (by apply refines_apr).
  - cbn [fst snd]. by rewrite (refines_clock _ _ _ _ _ _ Rel Cl Ss).
  - cbn [fst snd]. by rewrite (refines_wall _ _ mono Rel).
Qed.

Lemma refines_prints sym f a : refines f a -> funding_prints sym f = s_funding_prints sym a.
Proof.
  intros Rel. unfold funding_prints, s_funding_prints. pose proof (refines_find f a sym Rel) as Fi.
  destruct (sp_syms a !! sym) as [ss|] eqn:Ss; [|by rewrite Fi]. destruct Fi as (i & -> & Cl & Rs). cbn [mbind option_bind].
  pose proof (block_of_fblock _ _ _ _ _ Rel Cl Ss) as Bl. destruct (ss_prints ss) as [p|]; [|by rewrite Bl].
  destruct Bl as (b & -> & _ & _ & _ & K). by apply holds_count.
Qed.
