(* ===== verification/VmSim.v ===== *)
(** * The machine sees its features through their interface only

    Two feature stores that answer alike drive the machine alike: the orders,
    the books and the counters are the same. *)

From S2P Require Import Prelude CoreTypes Regime RuleTable Ladder Router Vm VmProofs VmLaws.

Create HintDb sim.

(** Related stores answer alike and stay related. *)
Class FeatSim {F1 F2 : Type} `{Features F1} `{Features F2} (R : F1 -> F2 -> Prop) : Prop := {
  fsim_read id sym win now f g : R f g ->
    R (feat_read id sym win now f).1 (feat_read id sym win now g).1 /\ (feat_read id sym win now f).2 = (feat_read id sym win now g).2;
  fsim_tick t now f g : R f g -> R (feat_on_tick t now f) (feat_on_tick t now g);
  fsim_event e now f g : R f g -> R (feat_on_venue_event e now f) (feat_on_venue_event e now g);
  fsim_depth d now f g : R f g -> R (feat_on_depth d now f) (feat_on_depth d now g);
  fsim_opt o now f g : R f g -> R (feat_on_opt_summary o now f) (feat_on_opt_summary o now g);
  fsim_seed sym ts rate f g : R f g -> R (feat_funding_seed sym ts rate f) (feat_funding_seed sym ts rate g);
  fsim_clear f g : R f g -> R (feat_clear_roll_bindings f) (feat_clear_roll_bindings g);
  fsim_bind sym win f g : 0 <= win -> R f g -> R (feat_bind_roll sym win f).1 (feat_bind_roll sym win g).1
}.

Section Sim.
Context {F1 F2 : Type} `{Features F1} `{Features F2} (R : F1 -> F2 -> Prop) `{!FeatSim R} {C : Type} `{Ctx C}.

#[local] Abbreviation V1 := (VmStrategy F1).
#[local] Abbreviation V2 := (VmStrategy F2).

(** Everything but the features. *)
Definition but_feats {F} (v : VmStrategy F) :=
  (vm_tables v, vm_active v, vm_staged_valid v, vm_last_fire v, vm_positions v, vm_row_gate v, vm_view v, vm_next_oid v, vm_counts v).

Definition same (v : V1) (w : V2) : Prop := R (vm_feats v) (vm_feats w) /\ but_feats v = but_feats w.

(** The right machine is the left one over its own features. *)
Definition over (v : V1) (g : F2) : V2 :=
  mkVm (vm_tables v) (vm_active v) (vm_staged_valid v) (vm_last_fire v) (vm_positions v) (vm_row_gate v) (vm_view v) (vm_next_oid v)
    g (vm_counts v).

Lemma same_over v w : same v w <-> exists g, R (vm_feats v) g /\ w = over v g.
Proof.
  split.
  - intros [Rf E]. exists (vm_feats w). split; [done|]. destruct v, w. unfold but_feats in E. cbn in *. by simplify_eq.
  - intros (g & Rf & ->). done.
Qed.

Definition pairs {A} (p : V1 * A) (q : V2 * A) : Prop := same p.1 q.1 /\ p.2 = q.2.

Lemma pairs_ret {A} v w (x : A) : same v w -> pairs (v, x) (w, x).
Proof. done. Qed.

Lemma pairs_bind {A B} (p : V1 * A) (q : V2 * A) (k : V1 -> A -> V1 * B) (l : V2 -> A -> V2 * B) :
  pairs p q -> (forall v w x, same v w -> pairs (k v x) (l w x)) -> pairs (let '(v, x) := p in k v x) (let '(w, x) := q in l w x).
Proof. destruct p as [v x], q as [w y]. intros [S0 E] K. cbn in *. subst y. by apply K. Qed.

Lemma sim_read id sym win now v w : same v w -> pairs (read id sym win now v) (read id sym win now w).
Proof.
  intros (g & Rf & ->)%same_over. unfold read. cbn [vm_feats over]. destruct (fsim_read id sym win now _ _ Rf) as [R1 E].
  destruct (feat_read id sym win now (vm_feats v)) as [f x], (feat_read id sym win now g) as [g' y]. cbn in *. subst y. done.
Qed.

Lemma sim_read_byte b sym win now v w : same v w -> pairs (read_byte b sym win now v) (read_byte b sym win now w).
Proof. intros. unfold read_byte. destruct (feat_from_u8 b); [by apply sim_read|done]. Qed.

(** *** What the setters keep *)

Lemma row_same v w i : same v w -> row_at w i = row_at v i.
Proof. by intros (g & Rf & ->)%same_over. Qed.
Lemma pos_same v w i : same v w -> pos_at w i = pos_at v i.
Proof. by intros (g & Rf & ->)%same_over. Qed.
Lemma gate_same v w : same v w -> vm_row_gate w = vm_row_gate v.
Proof. by intros (g & Rf & ->)%same_over. Qed.
Lemma fire_same v w : same v w -> vm_last_fire w = vm_last_fire v.
Proof. by intros (g & Rf & ->)%same_over. Qed.
Lemma oid_same v w : same v w -> vm_next_oid w = vm_next_oid v.
Proof. by intros (g & Rf & ->)%same_over. Qed.
Lemma rows_same v w : same v w -> rows_active w = rows_active v.
Proof. by intros (g & Rf & ->)%same_over. Qed.
Lemma group_same group me len v w : same v w -> group_occupied group me len w = group_occupied group me len v.
Proof. by intros (g & Rf & ->)%same_over. Qed.
Lemma same_bump k v w : same v w -> same (bump k v) (bump k w).
Proof. by intros (g & Rf & ->)%same_over. Qed.
Lemma same_set_pos i p v w : same v w -> same (set_pos i p v) (set_pos i p w).
Proof. by intros (g & Rf & ->)%same_over. Qed.
Lemma same_stamp i now v w : same v w -> same (stamp i now v) (stamp i now w).
Proof. by intros (g & Rf & ->)%same_over. Qed.
Lemma same_set_oid o v w : same v w -> same (set_oid o v) (set_oid o w).
Proof. by intros (g & Rf & ->)%same_over. Qed.
Lemma same_feats f g v w : same v w -> R f g -> same (set_feats f v) (set_feats g w).
Proof. by intros (g' & Rf & ->)%same_over. Qed.
#[local] Hint Resolve same_bump same_set_pos same_stamp same_set_oid same_feats : sim.

(** Read off the right machine what the left one has. *)
Ltac align S := rewrite ?(row_same _ _ _ S), ?(pos_same _ _ _ S), ?(gate_same _ _ S), ?(fire_same _ _ S), ?(oid_same _ _ S),
  ?(rows_same _ _ S), ?(group_same _ _ _ _ _ S).

(** Both sides make the same call: name what comes out. *)
Tactic Notation "call" constr(L) "as" ident(v') ident(w') ident(x) ident(S') :=
  let Q := fresh in pose proof L as Q;
  match type of Q with pairs ?p ?q =>
    let y := fresh in destruct p as [v' x], q as [w' y]; destruct Q as [S' Q]; cbn [fst snd] in S', Q; subst y end.

Lemma sim_signal r now v w : same v w -> pairs (signal_of r now v) (signal_of r now w).
Proof.
  intros Sm. unfold signal_of. call (sim_read_byte (rr_feat_a r) (rr_sym r) (rr_win_a r) now v w Sm) as v1 w1 a S1.
  destruct a as [a|]; [|done]. destruct (combine_from_u8 (rr_combine r)) as [op|]; [|done].
  call (sim_read_byte (rr_feat_b r) (rr_ref_sym r) (rr_win_b r) now v1 w1 S1) as v2 w2 b S2. by destruct op, b.
Qed.

Lemma sim_confirm r now v w : same v w -> pairs (confirm_ok r now v) (confirm_ok r now w).
Proof.
  intros Sm. unfold confirm_ok. destruct (rr_feat_c r =? FEAT_NONE); [done|].
  call (sim_read_byte (rr_feat_c r) (rr_sym r) (rr_win_c r) now v w Sm) as v1 w1 a S1. destruct a as [a|]; [|done].
  destruct (has_bit (rr_cmp_bits r) CMP_CONFIRM_PAIR); [|done].
  call (sim_read_byte (rr_feat_c r) (rr_ref_sym r) (rr_win_c r) now v1 w1 S1) as v2 w2 b S2. destruct b as [b|]; [|done].
  destruct (combine_from_u8 (rr_combine r)) as [op|]; [|done]. by destruct (combine_1e9 op a b).
Qed.

Lemma sim_mid sym now v w : same v w -> pairs (mid_1e6 sym now v) (mid_1e6 sym now w).
Proof. intros Sm. unfold mid_1e6. by call (sim_read Mid sym 0 now v w Sm) as v1 w1 m S1. Qed.

(** A submission: the same order, the same answer, the same context. *)
Definition triples {A B} (p : V1 * A * B) (q : V2 * A * B) : Prop := same p.1.1 q.1.1 /\ p.1.2 = q.1.2 /\ p.2 = q.2.

Tactic Notation "send" constr(L) "as" ident(v') ident(w') ident(c') ident(x) ident(S') :=
  let Q := fresh in pose proof L as Q;
  match type of Q with triples ?p ?q =>
    let y := fresh in let d := fresh in let E := fresh in
    destruct p as [[v' c'] x], q as [[w' d] y]; destruct Q as (S' & E & Q); cbn [fst snd] in S', E, Q; subst d y end.

Lemma sim_submit sym side px qty now v w (c : C) : same v w -> triples (submit_leg sym side px qty now v c) (submit_leg sym side px qty now w c).
Proof.
  intros Sm. unfold submit_leg. destruct ((symbol_venue_byte sym <? 0) || (Z.of_nat VENUE_COUNT <=? symbol_venue_byte sym)); [done|].
  align Sm. destruct (ctx_submit _ c) as [c' [u|[]]]; (split; [cbn; auto with sim|done]).
Qed.

Lemma sim_exit i now v w (c : C) : same v w -> triples (emit_exit i now v c) (emit_exit i now w c).
Proof.
  intros Sm. unfold emit_exit. align Sm. call (sim_mid (rr_sym (row_at v i)) now v w Sm) as v1 w1 m S1.
  destruct m as [sym_px|]; [|by split; [apply same_bump|]].
  set (two := two_leg_exit (pos_at v i) (row_at v i)).
  assert (pairs (if two then mid_1e6 (rr_ref_sym (row_at v i)) now v1 else (v1, Some 0))
                (if two then mid_1e6 (rr_ref_sym (row_at v i)) now w1 else (w1, Some 0))) as P by (destruct two; [by apply sim_mid|done]).
  call P as v2 w2 m2 S2. destruct m2 as [ref_px|]; [|by split; [apply same_bump|]].
  send (sim_submit (rr_sym (row_at v i)) (close_side (pos_at v i)) sym_px (vp_qty_sym (pos_at v i)) now v2 w2 c S2) as v3 w3 c3 ok S3.
  destruct ok; [|done]. destruct two; [|split; [cbn; auto with sim|done]].
  send (sim_submit (rr_ref_sym (row_at v i)) (opposite (close_side (pos_at v i))) ref_px (vp_qty_ref (pos_at v i)) now v3 w3 c3 S3) as v4 w4 c4 ok4 S4.
  split; [destruct ok4; cbn; auto with sim|done].
Qed.

(** A path: related machines, one context. *)
Definition path_eq (p : V1 * C) (q : V2 * C) : Prop := same p.1 q.1 /\ p.2 = q.2.

Lemma drop_flag (p : V1 * C * bool) (q : V2 * C * bool) : triples p q -> path_eq p.1 q.1.
Proof. intros (A & B & _). done. Qed.

Lemma sim_exit_path i now v w (c : C) : same v w -> path_eq (exit_path i now v c) (exit_path i now w c).
Proof.
  intros Sm. unfold exit_path. align Sm. set (r := row_at v i). set (p := pos_at v i).
  destruct ((0 <? rr_max_hold_s r) && (rr_max_hold_s r * 1000000000 <=? age_ns now p)); [by apply drop_flag, sim_exit|].
  destruct (has_bit (get (vm_row_gate v) i) ROW_GATE_HARD).
  { send (sim_exit i now v w c Sm) as v1 w1 c1 ok S1. destruct ok; split; cbn; auto with sim. }
  destruct (age_ns now p <? rr_min_hold_s r * 1000000000); [done|].
  call (sim_signal r now v w Sm) as v1 w1 sig S1. destruct sig as [signal|]; [|done].
  destruct (sat_i64 (signal * vp_entry_sign p) <=? rr_exit_1e9 r); [by apply drop_flag, sim_exit|done].
Qed.

Lemma sim_refire i side now v w (c : C) : same v w -> path_eq (refire i side now v c) (refire i side now w c).
Proof.
  intros Sm. unfold refire. align Sm. call (sim_mid (rr_sym (row_at v i)) now v w Sm) as v1 w1 m S1.
  destruct m as [px|]; [|split; [cbn; auto with sim|done]]. destruct (0 <? sized_qty_1e6 (rr_max_risk_1e6 (row_at v i)) px); [|done].
  send (sim_submit (rr_sym (row_at v i)) side px (sized_qty_1e6 (rr_max_risk_1e6 (row_at v i)) px) now v1 w1 c S1) as v2 w2 c2 ok S2.
  destruct ok; split; cbn; auto with sim.
Qed.

Lemma sim_sugar i now v w (c : C) : same v w -> path_eq (sugar_path i now v c) (sugar_path i now w c).
Proof.
  intros Sm. unfold sugar_path. align Sm. set (r := row_at v i).
  call (sim_read BestAsk (rr_sym r) 0 now v w Sm) as v1 w1 ask S1. call (sim_read BestBid (rr_sym r) 0 now v1 w1 S1) as v2 w2 bid S2.
  case_match; [|done]. apply sim_refire. auto with sim.
Qed.

Lemma sim_enter i len side signal now v w (c : C) : same v w ->
  path_eq (enter_position i len side signal now v c) (enter_position i len side signal now w c).
Proof.
  intros Sm. unfold enter_position. align Sm. set (r := row_at v i). destruct (group_occupied (rr_group r) i len v); [done|].
  call (sim_mid (rr_sym r) now v w Sm) as v1 w1 m S1. destruct m as [sym_px|]; [|split; [cbn; auto with sim|done]].
  set (two := negb (rr_ref_sym r =? SYMBOL_ID_NONE)).
  assert (pairs (if two then mid_1e6 (rr_ref_sym r) now v1 else (v1, Some 0))
                (if two then mid_1e6 (rr_ref_sym r) now w1 else (w1, Some 0))) as P by (destruct two; [by apply sim_mid|done]).
  call P as v2 w2 m2 S2. destruct m2 as [ref_px|]; [|split; [cbn; auto with sim|done]].
  destruct (sized_qty_1e6 (rr_max_risk_1e6 r) sym_px <=? 0); [done|].
  send (sim_submit (rr_sym r) side sym_px (sized_qty_1e6 (rr_max_risk_1e6 r) sym_px) now v2 w2 c S2) as v3 w3 c3 ok S3.
  destruct ok; [|done]. set (q := if two then _ else 0). destruct (two && (0 <? q)); [|split; [cbn; auto with sim|done]].
  send (sim_submit (rr_ref_sym r) (opposite side) ref_px q now v3 w3 c3 S3) as v4 w4 c4 ok4 S4.
  destruct ok4; split; cbn; auto with sim.
Qed.

Lemma sim_entry_path i len now v w (c : C) : same v w -> path_eq (entry_path i len now v c) (entry_path i len now w c).
Proof.
  intros Sm. unfold entry_path. align Sm. set (r := row_at v i).
  destruct (negb (has_bit (get (vm_row_gate v) i) ROW_GATE_OPEN)); [split; [cbn; auto with sim|done]|].
  destruct (now <? _); [done|].
  destruct (is_lhs_only r && (rr_side r =? SIDE_BOTH) && negb (is_position_row r)); [by apply sim_sugar|].
  call (sim_signal r now v w Sm) as v1 w1 sig S1. destruct sig as [signal|]; [|done].
  destruct (negb (entry_fires r signal)); [done|]. destruct (entry_side r signal) as [side|]; [|done].
  call (sim_confirm r now v1 w1 S1) as v2 w2 ok S2. destruct ok; [|done].
  destruct (is_position_row r); [apply sim_enter|apply sim_refire]; auto with sim.
Qed.

Lemma sim_row_turn len t_sym now i p q : path_eq p q -> path_eq (row_turn len t_sym now i p) (row_turn len t_sym now i q).
Proof.
  destruct p as [v c], q as [w d]. intros [Sm E]. cbn [fst snd] in Sm, E. subst d. unfold row_turn. align Sm.
  destruct (negb (rr_sym (row_at v i) =? t_sym) && negb (rr_ref_sym (row_at v i) =? t_sym)); [done|].
  assert (same (bump Evals v) (bump Evals w)) as Sb by auto with sim. align Sb.
  destruct (is_position_row (row_at v i) && vp_entered (pos_at (bump Evals v) i)); [by apply sim_exit_path|by apply sim_entry_path].
Qed.

Lemma sim_on_tick t v w (c : C) : same v w -> path_eq (vm_on_tick t v c) (vm_on_tick t w c).
Proof.
  intros Sm. unfold vm_on_tick.
  assert (same (set_feats (feat_on_tick t (ctx_now_ns c) (vm_feats v)) v) (set_feats (feat_on_tick t (ctx_now_ns c) (vm_feats w)) w)) as S1
    by (apply same_feats; [done|apply fsim_tick, Sm]).
  align S1. set (len := Z.to_nat _). assert (forall l p q, path_eq p q ->
    path_eq (foldl (fun vc i => row_turn len (tk_sym t) (ctx_now_ns c) i vc) p l) (foldl (fun vc i => row_turn len (tk_sym t) (ctx_now_ns c) i vc) q l)) as Go.
  { induction l as [|i l IH]; intros p q Pq; [done|]. cbn [foldl]. by apply IH, sim_row_turn. }
  by apply Go.
Qed.

Lemma sim_bind_leg f g leg : R f g -> R (bind_leg f leg) (bind_leg g leg).
Proof.
  intros Rf. destruct leg as [[fb win] sym]. unfold bind_leg. destruct (negb (sym =? SYMBOL_ID_NONE)); [|done].
  destruct (Z.ltb_spec 0 win); [|done]. cbn [andb]. destruct (feat_from_u8 fb) as [id|]; [|done].
  destruct (requires_window id); [apply fsim_bind; [lia|done]|done].
Qed.

Lemma sim_flipped v w : same v w -> same (on_table_flipped v) (on_table_flipped w).
Proof.
  intros (g & Rf & ->)%same_over. unfold on_table_flipped.
  assert (forall rows f g, R f g -> R (foldl (fun f r => foldl bind_leg f (row_legs r)) f rows) (foldl (fun f r => foldl bind_leg f (row_legs r)) g rows)) as Go.
  { induction rows as [|r rows IH]; intros f0 g0 R0; [done|]. cbn [foldl]. apply IH. revert f0 g0 R0.
    induction (row_legs r) as [|leg legs IHl]; intros f0 g0 R0; [done|]. cbn [foldl]. by apply IHl, sim_bind_leg. }
  split; [|done]. cbn. apply Go. by apply fsim_clear.
Qed.

Lemma sim_seed cmd v w (c : C) : same v w -> same (position_seed cmd v c) (position_seed cmd w c).
Proof.
  intros Sm. unfold position_seed, seed_ok. align Sm. set (i := Z.to_nat (ac_param_id cmd)). set (r := row_at v i).
  destruct (_ && _); [|auto with sim].
  assert (pairs (if negb (rr_ref_sym r =? SYMBOL_ID_NONE)
                 then let '(v, m) := mid_1e6 (rr_ref_sym r) (ctx_now_ns c) v in (v, sized_qty_1e6 (rr_max_risk_1e6 r) (default (ac_px cmd) m))
                 else (v, 0))
                (if negb (rr_ref_sym r =? SYMBOL_ID_NONE)
                 then let '(v, m) := mid_1e6 (rr_ref_sym r) (ctx_now_ns c) w in (v, sized_qty_1e6 (rr_max_risk_1e6 r) (default (ac_px cmd) m))
                 else (w, 0))) as P.
  { destruct (negb (rr_ref_sym r =? SYMBOL_ID_NONE)); [|done]. by call (sim_mid (rr_ref_sym r) (ctx_now_ns c) v w Sm) as v1 w1 m S1. }
  call P as v1 w1 q S1. destruct (0 <? sized_qty_1e6 (rr_max_risk_1e6 r) (ac_px cmd)); auto with sim.
Qed.

Lemma sim_on_ai cmd v w (c : C) : same v w -> same (vm_on_ai cmd v c) (vm_on_ai cmd w c).
Proof.
  intros Sm. unfold vm_on_ai. destruct (ac_kind cmd =? AI_KIND_FUNDING_SEED); [apply same_bump, same_feats; [done|apply fsim_seed, Sm]|].
  destruct (ac_kind cmd =? AI_KIND_POSITION_SEED); [by apply sim_seed|]. destruct (ac_kind cmd =? AI_KIND_RULESET_COMMIT); [|done].
  unfold ruleset_commit. destruct (proj1 (same_over v w) Sm) as (g & Rf & ->).
  change (vm_staged_valid (over v g)) with (vm_staged_valid v). change (staged_table (over v g)) with (staged_table v).
  destruct (vm_staged_valid v && _); [|by apply same_bump]. by apply sim_flipped.
Qed.
End Sim.

(** *** Whole runs *)

Section Runs.
Context {F1 F2 : Type} `{Features F1} `{Features F2} (R : F1 -> F2 -> Prop) `{!FeatSim R} {C : Type} `{Ctx C}.

Lemma sim_step op (p : VmStrategy F1 * Logged C) (q : VmStrategy F2 * Logged C) : path_eq R p q -> path_eq R (vm_step op p) (vm_step op q).
Proof.
  destruct p as [v c], q as [w d]. intros [Sm E]. cbn [fst snd] in Sm, E. subst d. destruct op; cbn [vm_step].
  - by apply sim_on_tick.
  - split; [|done]. apply same_feats; [done|apply fsim_event, Sm].
  - split; [|done]. apply same_feats; [done|apply fsim_depth, Sm].
  - split; [|done]. apply same_feats; [done|apply fsim_opt, Sm].
  - split; [|done]. by apply sim_on_ai.
  - split; [|done]. by destruct (proj1 (same_over R v w) Sm) as (g & Rf & ->).
  - split; [|done]. by destruct (proj1 (same_over R v w) Sm) as (g & Rf & ->).
  - done.
Qed.

Lemma sim_run ops (p : VmStrategy F1 * Logged C) (q : VmStrategy F2 * Logged C) : path_eq R p q ->
  path_eq R (foldl (fun vc op => vm_step op vc) p ops) (foldl (fun vc op => vm_step op vc) q ops).
Proof. revert p q. induction ops as [|op ops IH]; intros p q Pq; [done|]. cbn [foldl]. by apply IH, sim_step. Qed.
End Runs.
