(* ===== verification/FeatureLaws.v ===== *)
(** * The laws of the feature engine

    Behind the machine's interface the engine answers as its specification
    does, whatever it was fed; a window's statistics are the statistics of its
    samples. *)

From stdpp Require Import gmap.
From S2P Require Import Prelude CoreTypes Ladder RuleTable Router Vm VmProofs VmLaws VmSim FeatureEngine FeatureProofs FeatureSpec FeatureRefine.

#[local] Open Scope machine_scope.

(** ** Behind the interface *)

#[export] Instance spec_features : Features SFeat := {
  feat_read id sym win now a := s_get id sym win now a;
  feat_on_tick := s_tick;
  feat_on_venue_event := s_event;
  feat_on_depth := s_depth;
  feat_on_opt_summary := s_opt;
  feat_funding_seed := s_seed;
  feat_clear_roll_bindings := s_clear;
  feat_bind_roll := s_bind
}.

Inductive FeatOp : Type :=
| F_tick (t : Tick) (mono : Z) | F_event (e : ChannelEvent) (mono : Z) | F_depth (d : DepthTopK) (mono : Z)
| F_opt (o : OptSummary) (mono : Z) | F_seed (sym ts rate : Z) | F_bind (sym win : Z) | F_clear
| F_read (feat : FeatId) (sym win mono : Z).

Inductive FeatOut : Type := O_none | O_bound (b : bool) | O_value (v : option Z).

(** Windows are [u16]. *)
Definition op_typed (op : FeatOp) : Prop := match op with F_bind _ win => 0 <= win | _ => True end.

Definition feat_step {F} `{Features F} (op : FeatOp) (f : F) : F * FeatOut :=
  match op with
  | F_tick t mono => (feat_on_tick t mono f, O_none)
  | F_event e mono => (feat_on_venue_event e mono f, O_none)
  | F_depth d mono => (feat_on_depth d mono f, O_none)
  | F_opt o mono => (feat_on_opt_summary o mono f, O_none)
  | F_seed sym ts rate => (feat_funding_seed sym ts rate f, O_none)
  | F_bind sym win => prod_map id O_bound (feat_bind_roll sym win f)
  | F_clear => (feat_clear_roll_bindings f, O_none)
  | F_read feat sym win mono => prod_map id O_value (feat_read feat sym win mono f)
  end.

Fixpoint feat_run {F} `{Features F} (ops : list FeatOp) (f : F) : F * list FeatOut :=
  match ops with
  | [] => (f, [])
  | op :: ops => let '(f, o) := feat_step op f in prod_map id (cons o) (feat_run ops f)
  end.

Lemma map_snd {A B C} (g : B -> C) (p : A * B) : (prod_map id g p).1 = p.1 /\ (prod_map id g p).2 = g p.2.
Proof. done. Qed.

Lemma step_refines op f a : op_typed op -> refines f a ->
  refines (feat_step op f).1 (feat_step op a).1 /\ (feat_step op f).2 = (feat_step op a).2.
Proof.
  intros T Rel. destruct op; cbn [feat_step op_typed] in *.
  - split; [by apply refines_tick|done].
  - split; [by apply refines_event|done].
  - split; [by apply refines_depth|done].
  - split; [by apply refines_opt|done].
  - split; [by apply refines_seed|done].
  - destruct (refines_bind sym win f a T Rel) as [R E].
    destruct (map_snd O_bound (feat_bind_roll sym win f)) as [-> ->], (map_snd O_bound (feat_bind_roll sym win a)) as [-> ->].
    cbn [feat_bind_roll engine_features spec_features]. by rewrite E.
  - split; [by apply refines_unbind|done].
  - destruct (refines_get feat sym win mono f a Rel) as [R E].
    destruct (map_snd O_value (feat_read feat sym win mono f)) as [-> ->], (map_snd O_value (feat_read feat sym win mono a)) as [-> ->].
    cbn [feat_read engine_features spec_features]. by rewrite E.
Qed.

Lemma feat_run_refines ops f a : Forall op_typed ops -> refines f a ->
  refines (feat_run ops f).1 (feat_run ops a).1 /\ (feat_run ops f).2 = (feat_run ops a).2.
Proof.
  intros T. revert f a. induction T as [|op ops To T IH]; intros f a Rel; [done|]. cbn [feat_run].
  destruct (step_refines op f a To Rel) as [R E]. destruct (feat_step op f) as [f' o], (feat_step op a) as [a' o'].
  cbn [fst snd] in *. subst o'. destruct (IH f' a' R) as [R' E']. unfold prod_map, id. cbn [fst snd]. by rewrite E'.
Qed.

(** C25. Fed any sequence of ticks, venue events, depth and option records,
    seeds, bindings, clears and reads, the engine with its hashed slots,
    shared minute rings and print rings gives every read and every binding
    the answer of the map of symbols; its exhaustion counters, pool counts
    and print counts agree. *)
Theorem feature_engine_is_a_map_of_symbols ops sym :
  Forall op_typed ops ->
  let '(f, answers) := feat_run ops FeatureState_new in
  let '(a, answers') := feat_run ops SFeat_new in
  answers = answers' /\ tally_of f = sp_tally a /\ ft_used f = used_of (size (sp_syms a)) a /\ funding_prints sym f = s_funding_prints sym a.
Proof.
  intros T. destruct (feat_run_refines ops _ _ T refines_boot) as [R E].
  destruct (feat_run ops FeatureState_new) as [f o], (feat_run ops SFeat_new) as [a o'].
  split_and!; [done|apply (rf_tally _ _ R)|apply (rf_used _ _ R)|by apply refines_prints].
Qed.

(** ** Under the machine *)

#[export] Instance refines_sim : FeatSim refines.
Proof.
  split; intros.
  - by apply refines_get.
  - by apply refines_tick.
  - by apply refines_event.
  - by apply refines_depth.
  - by apply refines_opt.
  - by apply refines_seed.
  - by apply refines_unbind.
  - by apply refines_bind.
Qed.

Definition vm_run {F} `{Features F} {C} `{Ctx C} (ops : list (VmOp C)) (f0 : F) (c0 : Logged C) : VmStrategy F * Logged C :=
  foldl (fun vc op => vm_step op vc) (Vm_new f0, c0) ops.

(** C24. The rule machine over the feature engine and the same machine over
    the engine's specification (a map of symbols holding latest values,
    prints and minute histories), given the same tables, ticks, events,
    views and commands in any order, submit the same orders in the same
    context and hold the same positions, stamps, gates, order ids and
    counters; the stores stay in the refinement relation. *)
Theorem machine_over_the_engine_trades_as_over_the_map {C : Type} `{Ctx C} (c0 : Logged C) (ops : list (VmOp C)) :
  let '(v, c) := vm_run ops FeatureState_new c0 in
  let '(w, d) := vm_run ops SFeat_new c0 in
  c = d /\ vm_positions v = vm_positions w /\ vm_last_fire v = vm_last_fire w /\ vm_row_gate v = vm_row_gate w /\
  vm_next_oid v = vm_next_oid w /\ vm_counts v = vm_counts w /\ refines (vm_feats v) (vm_feats w).
Proof.
  assert (path_eq refines (vm_run ops FeatureState_new c0) (vm_run ops SFeat_new c0)) as [[Rf E] Ec].
  { apply sim_run; [apply refines_sim|]. split; [split; [apply refines_boot|done]|done]. }
  destruct (vm_run ops FeatureState_new c0) as [v c], (vm_run ops SFeat_new c0) as [w d]. cbn [fst snd] in *.
  unfold but_feats in E. simplify_eq. by split_and!.
Qed.

(** ** The statistics of a window *)

Definition total (l : list Z) : Z := sumZ (fun v => v) l.
Definition squares (l : list Z) : Z := sumZ (fun v => v * v) l.

(** What the accumulator holds after the samples [l]. *)
Record acc_of (l : list Z) (a : RollAcc) : Prop := {
  ao_n : ac_n a = Z.of_nat (length l);
  ao_sum : ac_sum a = total l;
  ao_sq : ac_sumsq a = squares l;
  ao_mn : l <> [] -> ac_mn a ∈ l;
  ao_mx : l <> [] -> ac_mx a ∈ l;
  ao_bounds v : v ∈ l -> ac_mn a <= v <= ac_mx a;
  ao_ema : l <> [] -> ac_mn a <= ac_ema a <= ac_mx a;
  ao_start : l = [] -> ac_mn a = i64_max /\ ac_mx a = i64_min
}.

Lemma total_nonneg l : Forall (fun v => 0 < v) l -> 0 <= total l.
Proof. intros P. apply sumZ_nonneg. intros x Hx. rewrite Forall_forall in P. specialize (P x Hx). lia. Qed.

Lemma squares_le l : Forall (fun v => 0 < v) l -> squares l <= total l * total l.
Proof.
  induction 1 as [|x l P F IH]; [done|]. pose proof (total_nonneg l F). cbn. fold (total l) (squares l). nia.
Qed.

(** One smoothing step lands between the old value and the sample. *)
Lemma ema_between alpha e v : 0 <= alpha <= 1000000000 -> 0 < e <= i64_max -> 0 < v <= i64_max ->
  let e' := wrap_i64 (e + wrap_i64 (alpha * wrap_i64 (v - e) /t 1000000000)) in Z.min e v <= e' <= Z.max e v.
Proof.
  intros Ha He Hv. cbv zeta. rewrite (wrap_i64_id (v - e)) by ilia. set (d := v - e).
  assert (Z.min 0 d <= (alpha * d) /t 1000000000 <= Z.max 0 d) as Q.
  { destruct (Z.le_gt_cases 0 d).
    - rewrite Z.quot_div_nonneg by nia. split; [pose proof (Z.div_pos (alpha * d) 1000000000); nia|].
      apply Z.div_le_upper_bound; [lia|nia].
    - rewrite <- (Z.opp_involutive (alpha * d)), Z.quot_opp_l, Z.quot_div_nonneg by nia.
      assert (0 <= - (alpha * d) / 1000000000 <= - d); [|lia]. split; [apply Z.div_pos; nia|].
      apply Z.div_le_upper_bound; [lia|nia]. }
  rewrite (wrap_i64_id ((alpha * d) /t 1000000000)) by (unfold d in *; ilia). rewrite wrap_i64_id by (unfold d in *; ilia). unfold d in *. lia.
Qed.

Lemma acc_sample_of alpha l a v : 0 <= alpha <= 1000000000 -> Forall (fun v => 0 < v) (l ++ [v]) -> total (l ++ [v]) <= i64_max ->
  acc_of l a -> acc_of (l ++ [v]) (acc_sample alpha a v).
Proof.
  intros Ha P B [N Su Q Mn Mx Bo E St]. pose proof P as [Pl Pv]%Forall_app. apply Forall_inv in Pv. cbn beta in Pv.
  pose proof (total_nonneg l Pl) as T0. pose proof (squares_le _ P) as Sq. pose proof (total_nonneg _ P) as T1.
  assert (total (l ++ [v]) = total l + v) as Et by (unfold total; rewrite sumZ_app; cbn; lia).
  assert (squares (l ++ [v]) = squares l + v * v) as Es by (unfold squares; rewrite sumZ_app; cbn; lia).
  assert (0 <= squares l) as S0 by (apply sumZ_nonneg; intros; nia).
  assert (squares (l ++ [v]) <= i64_max * i64_max) as Sb by nia.
  assert (forall x, x ∈ l -> 0 < x <= i64_max) as Pos.
  { intros x Hx. rewrite Forall_forall in Pl. specialize (Pl x Hx). apply list_elem_of_lookup in Hx as [k Hk].
    pose proof (sumZ_lookup_le (fun v => v) l k x) as Sl. fold (total l) in Sl. rewrite Forall_forall in P.
    assert (x <= total l); [|lia]. apply Sl; [|done]. intros y Hy. specialize (P y ltac:(apply elem_of_app; by left)). lia. }
  unfold acc_sample. split; cbn [ac_n ac_sum ac_sumsq ac_mn ac_mx ac_ema].
  - rewrite N, length_app. cbn. lia.
  - rewrite Su, wrap_i64_id by (unfold_int; lia). done.
  - rewrite Q, wrap_i128_id; [done|]. rewrite <- Es. unfold i128_min, i128_max, i64_max in *. nia.
  - intros _. destruct (Z.ltb_spec v (ac_mn a)) as [Lt|Ge]; apply elem_of_app; [right; by left|]. destruct l as [|x l]; [|left; by apply Mn].
    destruct (St eq_refl) as [E0 _]. rewrite E0 in *. right. apply list_elem_of_singleton. lia.
  - intros _. destruct (Z.ltb_spec (ac_mx a) v) as [Lt|Ge]; apply elem_of_app; [right; by left|]. destruct l as [|x l]; [|left; by apply Mx].
    destruct (St eq_refl) as [_ E0]. rewrite E0 in Ge. unfold i64_min in Ge. lia.
  - intros x [Hx|Hx]%elem_of_app; [apply Bo in Hx|apply list_elem_of_singleton in Hx; subst x];
      destruct (Z.ltb_spec v (ac_mn a)), (Z.ltb_spec (ac_mx a) v); lia.
  - intros _. destruct l as [|x l].
    + rewrite N. change (Z.of_nat (length []) + 1 =? 1) with true. cbv iota. destruct (Z.ltb_spec v (ac_mn a)), (Z.ltb_spec (ac_mx a) v); lia.
    + rewrite N. cbn [length]. destruct (Z.eqb_spec (Z.of_nat (S (length l)) + 1) 1); [lia|].
      specialize (E ltac:(done)). specialize (Mn ltac:(done)). specialize (Mx ltac:(done)). pose proof (Pos _ Mn). pose proof (Pos _ Mx).
      pose proof (ema_between alpha (ac_ema a) v Ha ltac:(lia) ltac:(lia)) as Eb. cbv zeta in Eb.
      destruct (Z.ltb_spec v (ac_mn a)), (Z.ltb_spec (ac_mx a) v); lia.
  - intros E0. by destruct l.
Qed.

Lemma acc_samples_of alpha l : 0 <= alpha <= 1000000000 -> Forall (fun v => 0 < v) l -> total l <= i64_max ->
  acc_of l (foldl (acc_sample alpha) ACC_ZERO l).
Proof.
  intros Ha. induction l as [|v l IH] using rev_ind; intros P B; [by split; try done; intros v Hv; inversion Hv|].
  rewrite foldl_snoc. apply acc_sample_of; [done|done|done|]. pose proof P as [Pl Pv]%Forall_app. apply Forall_inv in Pv. cbn beta in Pv.
  apply IH; [done|]. unfold total in *. rewrite sumZ_app in B. cbn in B. lia.
Qed.

(** Every sample's square lies under the chord of the extremes. *)
Lemma squares_chord mn mx l : (forall v, v ∈ l -> mn <= v <= mx) -> squares l <= (mn + mx) * total l - Z.of_nat (length l) * (mn * mx).
Proof.
  induction l as [|x l IH]; intros B; [cbn; lia|]. specialize (IH ltac:(intros; apply B; by right)). pose proof (B x ltac:(by left)).
  cbn [length]. change (squares (x :: l)) with (x * x + squares l). change (total (x :: l)) with (x + total l). nia.
Qed.

Lemma total_bounds mn mx l : (forall v, v ∈ l -> mn <= v <= mx) -> mn * Z.of_nat (length l) <= total l <= mx * Z.of_nat (length l).
Proof.
  induction l as [|x l IH]; intros B; [cbn; lia|]. specialize (IH ltac:(intros; apply B; by right)). pose proof (B x ltac:(by left)).
  cbn [length]. change (total (x :: l)) with (x + total l). nia.
Qed.

(** The statistics of a non-empty window of positive mids whose sum
    fits 64 bits: the count, the truncated mean, extremes that are samples
    and bound every sample, the integer root of the second moment less the
    squared mean; the mean and the moving average lie between the extremes,
    and the squared deviation exceeds the squared distance of the extremes
    by at most their sum (the rounding of the mean). *)
Theorem window_statistics_are_those_of_its_samples w l :
  1 <= w <= ROLL_WINDOW_MAX_MIN -> l <> [] -> Forall (fun v => 0 < v) l -> total l <= i64_max ->
  let s := window_stats w l in
  let n := Z.of_nat (length l) in
  st_n s = n /\ st_mean s = total l / n /\
  st_std s = Z.sqrt (Z.max 0 (squares l / n - st_mean s * st_mean s)) /\
  st_min s ∈ l /\ st_max s ∈ l /\ (forall v, v ∈ l -> st_min s <= v <= st_max s) /\
  st_min s <= st_mean s <= st_max s /\ st_min s <= st_ema s <= st_max s /\
  st_std s * st_std s <= (st_max s - st_min s) * (st_max s - st_min s) + st_max s + st_min s.
Proof.
  intros Hw Hl P B. cbv zeta. unfold window_stats.
  assert (0 <= 2000000000 /t (w + 1) <= 1000000000) as Ha.
  { rewrite Z.quot_div_nonneg by lia. split; [apply Z.div_pos; lia|apply Z.div_le_upper_bound; lia]. }
  destruct (acc_samples_of _ l Ha P B) as [N Su Sq Mn Mx Bo Em _]. set (a := foldl _ _ _) in *. clearbody a.
  assert (0 < Z.of_nat (length l)) as Ln by (destruct l; [done|cbn; lia]).
  destruct (Z.eqb_spec (ac_n a) 0) as [E0|_]; [lia|]. cbn [st_n st_mean st_std st_min st_max st_ema].
  pose proof (total_nonneg l P) as T0. pose proof (squares_le l P) as Sl. assert (0 <= squares l) as S0 by (apply sumZ_nonneg; intros; nia).
  specialize (Mn Hl). specialize (Mx Hl). specialize (Em Hl).
  rewrite N, Su, Sq, !Z.quot_div_nonneg by lia. set (n := Z.of_nat (length l)) in *. set (m := total l / n).
  pose proof (total_bounds _ _ l Bo) as [Tl Th]. fold n in Tl, Th.
  assert (ac_mn a <= m) as Ml by (apply Z.div_le_lower_bound; lia). assert (m <= ac_mx a) as Mh by (apply Z.div_le_upper_bound; lia).
  set (var := squares l / n - m * m).
  assert (isqrt_i128 (Z.max var 0) = Z.sqrt (Z.max 0 var)) as Eq.
  { assert (squares l / n <= i64_max * i64_max) by (apply Z.div_le_upper_bound; nia).
    assert (0 <= m * m) by nia. assert (var <= i64_max * i64_max) by (unfold var; lia).
    rewrite isqrt_floor by (unfold i128_max, i64_max in *; lia). rewrite (Z.max_comm var). apply Z.min_r.
    rewrite <- (Z.sqrt_square i64_max) by (unfold i64_max; lia). apply Z.sqrt_le_mono.
    unfold i64_max in *. lia. }
  rewrite Eq. split_and!; try done; try lia.
  pose proof (Z.sqrt_spec (Z.max 0 var) ltac:(lia)) as [Sv _]. rewrite Forall_forall in P. pose proof (P _ Mn) as Pmn. pose proof (P _ Mx) as Pmx.
  assert (var <= (m - ac_mn a) * (ac_mx a - m) + ac_mn a + ac_mx a); [|nia].
  assert (squares l / n <= (ac_mn a + ac_mx a) * (m + 1) - ac_mn a * ac_mx a); [|unfold var; nia].
  apply Z.div_le_upper_bound; [done|]. pose proof (squares_chord _ _ l Bo) as Sc. fold n in Sc.
  assert (total l <= n * (m + 1)) by (pose proof (Z.mul_succ_div_gt (total l) n Ln); unfold m; lia). nia.
Qed.

(** ** Witnesses *)

Definition quote_at (px mono : Z) : FeatOp := F_tick (mkTick 7 0 (px - 1) 1 (px + 1) 1 0) mono.
Definition minute_ns (k : Z) : Z := k * 60000000000.

Definition sample_feed : list FeatOp :=
  [F_event (mkEvent 0 7 VENUE_OKX 0 0 600000 0 0) 0; F_bind 7 2; quote_at 100000000 0; quote_at 200000000 1;
   quote_at 400000000 (minute_ns 1); F_read RollMean 7 2 (minute_ns 1); quote_at 100000000 (minute_ns 3);
   F_read RollMean 7 2 (minute_ns 3 + 1); F_read RollStd 7 2 (minute_ns 1); F_read Mid 7 0 0; F_bind 7 0].

Lemma feature_engine_is_a_map_of_symbols_witness :
  (feat_run sample_feed FeatureState_new).2 =
    [O_none; O_bound true; O_none; O_none; O_none; O_value (Some 300000000000); O_none; O_value (Some 100000000000);
     O_value None; O_value (Some 100000000000); O_bound false] /\
  let '(f, answers) := feat_run sample_feed FeatureState_new in
  let '(a, answers') := feat_run sample_feed SFeat_new in
  answers = answers' /\ tally_of f = sp_tally a /\ ft_used f = used_of (size (sp_syms a)) a /\ funding_prints 7 f = s_funding_prints 7 a.
Proof.
  split; [vm_compute; reflexivity|].
  apply (feature_engine_is_a_map_of_symbols sample_feed 7). repeat constructor; cbn; lia.
Defined.

Lemma window_statistics_are_those_of_its_samples_witness :
  let s := window_stats 3 [100; 400; 100] in
  let n := Z.of_nat (length [100; 400; 100]) in
  st_n s = n /\ st_mean s = total [100; 400; 100] / n /\
  st_std s = Z.sqrt (Z.max 0 (squares [100; 400; 100] / n - st_mean s * st_mean s)) /\
  st_min s ∈ [100; 400; 100] /\ st_max s ∈ [100; 400; 100] /\ (forall v, v ∈ [100; 400; 100] -> st_min s <= v <= st_max s) /\
  st_min s <= st_mean s <= st_max s /\ st_min s <= st_ema s <= st_max s /\
  st_std s * st_std s <= (st_max s - st_min s) * (st_max s - st_min s) + st_max s + st_min s.
Proof.
  apply (window_statistics_are_those_of_its_samples 3 [100; 400; 100]);
    [split; [lia|vm_compute; discriminate]|discriminate|repeat constructor|vm_compute; discriminate].
Defined.

(** The truncated mean is squared: three mids within 1000 of each other read
    a deviation of millions, which the distance of the extremes does not bound. *)
Lemma deviation_exceeds_the_range :
  let s := window_stats 3 [100000000000000; 100000000000000; 100000000001000] in
  st_max s - st_min s = 1000 /\ st_std s = 8164965.
Proof. vm_compute. done. Qed.
