(* ===== verification/Settle.v ===== *)
(** * The settlement law ([crates/core-settle/src/lib.rs])

    The sample-and-hold grid of an expiring series and the median of means
    over it. [select_nth_unstable] of the standard library promises where
    one element lands and says nothing of the order of the others: it is an
    interface here, [SelectNth], and the law is proved against it. *)

From stdpp Require Import sorting.
From S2P Require Import Prelude.

Definition SETTLE_WINDOW_MS : Z := 30 * 60 * 1000.
Definition GRID_STEP_MS : Z := 1000.
Definition GRID_POINTS : nat := 1800.
Definition TRIM_PER_MILLE : nat := 50.
Definition MAX_BUCKETS : nat := 64.

Inductive BucketOrder : Type := Sorted | Time.

(** ** Partial sorting *)

Definition at_ (l : list Z) (i : nat) : Z := default 0 (l !! i).

(** The documented contract of [slice::select_nth_unstable]: a reordering
    in which the element at [i] is no smaller than those before it and no
    larger than those after it. *)
Class SelectNth (select : nat -> list Z -> list Z) : Prop := {
  select_perm i l : (i < length l)%nat -> select i l ≡ₚ l;
  select_before i l x : (i < length l)%nat -> x ∈ take i (select i l) -> x <= at_ (select i l) i;
  select_after i l x : (i < length l)%nat -> x ∈ drop (i + 1) (select i l) -> at_ (select i l) i <= x
}.

(** ** The law *)

(** [while (k + 1) * (k + 1) <= n { k += 1 }]; [n] turns are enough. *)
Fixpoint isqrt_from (n k fuel : nat) : nat :=
  match fuel with
  | O => k
  | S f => if ((k + 1) * (k + 1) <=? n)%nat then isqrt_from n (k + 1) f else k
  end.

Definition isqrt (n : nat) : nat := isqrt_from n 0 n.

(** The mean of [band[lo..hi]], truncated, cast to [i64]. *)
Definition bucket_mean (band : list Z) (lo hi : nat) : Z :=
  wrap_i64 (Z.quot (sumZ id (take (hi - lo) (drop lo band))) (Z.of_nat (hi - lo))).

Section Law.
Context (select : nat -> list Z -> list Z).

(** [a[lo..].select_nth_unstable(i)] *)
Definition select_from (lo i : nat) (a : list Z) : list Z := take lo a ++ select i (drop lo a).

Definition trim_count (n : nat) : nat := (n * TRIM_PER_MILLE / 1000)%nat.

(** The values the buckets are cut from. *)
Definition trimmed (samples : list Z) (order : BucketOrder) : list Z :=
  let n := length samples in
  let c := trim_count n in
  match order with
  | Sorted =>
      let work := if (0 <? c)%nat then select_from c (n - 2 * c - 1) (select c samples) else samples in
      take (n - 2 * c) (drop c work)
  | Time =>
      let work := select c samples in
      let lo := at_ work c in
      let work := select (n - c - 1) work in
      let hi := at_ work (n - c - 1) in
      filter (fun x => lo <= x <= hi) samples
  end.

(** [Sorted] partitions at every bucket boundary, on the uncut suffix. *)
Definition cut_buckets (k size : nat) (band : list Z) : list Z :=
  foldl (fun band b => select_from ((b - 1) * size) size band) band (seq 1 (k - 1)).

(** The bucket means, written into the fixed array and read back. Past 4224
    samples in the band there are more buckets than cells and the code's index
    panics; a window holds at most [GRID_POINTS], as its theorems assume. *)
Definition bucket_means (band : list Z) (k size : nat) : list Z :=
  let n2 := length band in
  take k (foldl (fun means b =>
             <[b := bucket_mean band (b * size) (if (b + 1 <? k)%nat then b * size + size else n2)%nat]> means)
            (replicate MAX_BUCKETS 0) (seq 0 k)).

Definition median (means : list Z) : Z :=
  let k := length means in
  let mid := (k / 2)%nat in
  let work := select mid means in
  let upper := at_ work mid in
  if (k mod 2 =? 1)%nat then upper
  else
    let lower := at_ (select (mid - 1) (take mid work)) (mid - 1) in
    wrap_i64 (Z.quot (lower + upper) 2).

Definition median_of_means (samples : list Z) (order : BucketOrder) (scratch_len : nat) : option Z :=
  if (length samples =? 0)%nat || (scratch_len <? length samples)%nat then None
  else
    let band := trimmed samples order in
    let n2 := length band in
    let k := Nat.max (isqrt n2) 1 in
    let size := (n2 / k)%nat in
    let band := match order with Sorted => cut_buckets k size band | Time => band end in
    Some (median (bucket_means band k size)).
End Law.

(** ** The window *)

Inductive PushRefused : Type := NonPositive | OutOfOrder | AfterExpiry.

Record SettleWindow := mkWindow {
  sw_samples : list Z;
  sw_t_end_ms : Z;
  sw_last_ts_ms : Z;
  sw_last_px : Z;
  sw_next : nat;
  sw_n : nat
}.

Definition SettleWindow_new (t_end_ms : Z) : SettleWindow :=
  mkWindow (replicate GRID_POINTS 0) t_end_ms 0 0 0 0.

Definition sw_reset (t_end_ms : Z) (w : SettleWindow) : SettleWindow :=
  mkWindow (sw_samples w) t_end_ms 0 0 0 0.

Definition grid_ms (t_end_ms : Z) (i : nat) : Z :=
  wrap_u64 (t_end_ms - SETTLE_WINDOW_MS + (Z.of_nat i + 1) * GRID_STEP_MS).

Definition grid_fill (w : SettleWindow) : SettleWindow :=
  if 0 <? sw_last_px w
  then mkWindow (<[sw_n w := sw_last_px w]> (sw_samples w)) (sw_t_end_ms w) (sw_last_ts_ms w) (sw_last_px w)
         (sw_next w + 1) (sw_n w + 1)
  else mkWindow (sw_samples w) (sw_t_end_ms w) (sw_last_ts_ms w) (sw_last_px w) (sw_next w + 1) (sw_n w).

(** The [while] of [advance_to]; every turn moves [next] up to the grid's
    end, so the points left are enough fuel. *)
Fixpoint advance_from (ts_ms : Z) (fuel : nat) (w : SettleWindow) : SettleWindow :=
  match fuel with
  | O => w
  | S f =>
      if (sw_next w <? GRID_POINTS)%nat && (grid_ms (sw_t_end_ms w) (sw_next w) <? ts_ms)
      then advance_from ts_ms f (grid_fill w)
      else w
  end.

Definition advance_to (ts_ms : Z) (w : SettleWindow) : SettleWindow :=
  advance_from ts_ms (GRID_POINTS - sw_next w) w.

Definition sw_push (ts_ms px_1e6 : Z) (w : SettleWindow) : SettleWindow * result unit PushRefused :=
  if px_1e6 <=? 0 then (w, Err NonPositive)
  else if ts_ms <? sw_last_ts_ms w then (w, Err OutOfOrder)
  else if sw_t_end_ms w <? ts_ms then (w, Err AfterExpiry)
  else
    let w := advance_to ts_ms w in
    (mkWindow (sw_samples w) (sw_t_end_ms w) ts_ms px_1e6 (sw_next w) (sw_n w), Ok tt).

Definition sw_grid (w : SettleWindow) : list Z := take (sw_n w) (sw_samples w).

Definition sw_finish (w : SettleWindow) : SettleWindow := advance_to (wrap_u64 (sw_t_end_ms w + 1)) w.

(** What a state file gets wrong, in the order the code checks it. *)
Inductive RestoreErr : Type := MorePoints | NoSuchWindow | BadPrice.

Definition sw_restore (t_end_ms : Z) (next : nat) (last_ts_ms : Z) (samples : list Z) (w : SettleWindow)
  : SettleWindow * result unit RestoreErr :=
  let n := length samples in
  if (GRID_POINTS <? next)%nat || (next <? n)%nat then (w, Err MorePoints)
  else if (t_end_ms <? SETTLE_WINDOW_MS) || (t_end_ms <? last_ts_ms) then (w, Err NoSuchWindow)
  else if existsb (fun x => x <=? 0) samples then (w, Err BadPrice)
  else (mkWindow (samples ++ drop n (sw_samples w)) t_end_ms last_ts_ms 0 next n, Ok tt).

Definition settle_1e6 (select : nat -> list Z -> list Z) (order : BucketOrder) (w : SettleWindow)
  : SettleWindow * option Z :=
  let w := sw_finish w in
  (w, median_of_means select (sw_grid w) order GRID_POINTS).
