(* ===== verification/SettleProofs.v ===== *)
(** * What the settlement law computes

    The partition-based law agrees with the full-sort reference for every
    lawful [select_nth_unstable]; samples outside a band cannot move it out
    of the band while they are within the trim; the window's grid is the
    sample-and-hold of the accepted prints. *)

From stdpp Require Import sorting.
From S2P Require Import Prelude Settle.

(** ** Sorted lists of integers *)

Definition sort (l : list Z) : list Z := merge_sort Z.le l.

Lemma sort_perm l : sort l ≡ₚ l.
Proof. apply merge_sort_Permutation. Qed.

Lemma elem_of_sort x l : x ∈ sort l <-> x ∈ l.
Proof. by rewrite sort_perm. Qed.

Lemma sort_sorted l : StronglySorted Z.le (sort l).
Proof. apply StronglySorted_merge_sort; [exact _|]. intros x y. lia. Qed.

Lemma sorted_unique l1 l2 : StronglySorted Z.le l1 -> StronglySorted Z.le l2 -> l1 ≡ₚ l2 -> l1 = l2.
Proof. apply (StronglySorted_unique Z.le). Qed.

Lemma sort_unique l s : StronglySorted Z.le s -> s ≡ₚ l -> sort l = s.
Proof. intros Hs Hp. apply sorted_unique; [apply sort_sorted|done|]. by rewrite sort_perm. Qed.

Lemma sort_eq l1 l2 : l1 ≡ₚ l2 -> sort l1 = sort l2.
Proof. intros H. apply sort_unique; [apply sort_sorted|]. by rewrite sort_perm. Qed.

Lemma length_sort l : length (sort l) = length l.
Proof. by rewrite (Permutation_length (sort_perm l)). Qed.

Lemma sorted_app l1 l2 :
  StronglySorted Z.le (l1 ++ l2) <->
  StronglySorted Z.le l1 /\ StronglySorted Z.le l2 /\ forall x y, x ∈ l1 -> y ∈ l2 -> x <= y.
Proof.
  induction l1 as [|x l1 IH]; cbn [app].
  - split; [|tauto]. intros H. split_and!; [constructor|done|set_solver].
  - split.
    + intros [H1 H2]%StronglySorted_inv. apply IH in H1 as (? & ? & Hb). apply Forall_app in H2 as [F1 F2].
      rewrite Forall_forall in F2. split_and!; [by constructor|done|]. intros a b [->|Ha]%elem_of_cons Hbb; auto.
    + intros ([H1 F1]%StronglySorted_inv & H2 & Hb). constructor.
      * apply IH. split_and!; [done..|]. intros a b Ha. apply Hb. by right.
      * apply Forall_app. split; [done|]. apply Forall_forall. intros y. apply Hb. left.
Qed.

Section Select.
Context `{!SelectNth select}.

Lemma length_select i l : (i < length l)%nat -> length (select i l) = length l.
Proof. intros H. apply Permutation_length. by apply select_perm. Qed.

Lemma select_split i l :
  (i < length l)%nat -> select i l = take i (select i l) ++ at_ (select i l) i :: drop (i + 1) (select i l).
Proof.
  intros H. rewrite <- (take_drop i (select i l)) at 1. f_equal. rewrite Nat.add_1_r. apply drop_S.
  destruct (lookup_lt_is_Some_2 (select i l) i) as [x Hx]; [by rewrite length_select|].
  unfold at_. by rewrite Hx.
Qed.

(** Around the selected element the two halves sort separately. *)
Lemma sort_around i l :
  (i < length l)%nat ->
  sort l = sort (take i (select i l)) ++ at_ (select i l) i :: sort (drop (i + 1) (select i l)).
Proof.
  intros H. apply sort_unique.
  - apply sorted_app. split_and!; [apply sort_sorted| |].
    + constructor; [apply sort_sorted|]. apply Forall_forall. intros x Hx. rewrite sort_perm in Hx.
      by apply (select_after i l).
    + intros x y Hx Hy. rewrite sort_perm in Hx. pose proof (select_before i l x H Hx).
      apply elem_of_cons in Hy as [->|Hy]; [done|]. rewrite sort_perm in Hy.
      pose proof (select_after i l y H Hy). lia.
  - rewrite !sort_perm. rewrite <- (select_perm i l H) at 4. by rewrite <- select_split.
Qed.
Lemma length_before i l : (i < length l)%nat -> length (sort (take i (select i l))) = i.
Proof. intros H. rewrite length_sort, length_take, length_select by done. lia. Qed.

Lemma selected i l : (i < length l)%nat -> at_ (select i l) i = at_ (sort l) i.
Proof.
  intros H. rewrite (sort_around i l H). unfold at_ at 2. by rewrite list_lookup_middle by (by rewrite length_before).
Qed.

Lemma sort_before i l : (i < length l)%nat -> sort (take i (select i l)) = take i (sort l).
Proof. intros H. rewrite (sort_around i l H). by rewrite take_app_length' by (by rewrite length_before). Qed.

Lemma sort_from i l : (i < length l)%nat -> sort (drop i (select i l)) = drop i (sort l).
Proof.
  intros H. rewrite (sort_around i l H), drop_app_length' by (by rewrite length_before).
  rewrite (select_split i l H) at 1. rewrite drop_app_length' by (rewrite length_take, length_select by done; lia).
  apply sort_unique.
  - constructor; [apply sort_sorted|]. apply Forall_forall. intros x Hx. rewrite sort_perm in Hx. by apply (select_after i l).
  - by rewrite sort_perm.
Qed.

Lemma take_through (a b : list Z) x i : length a = i -> take (i + 1) (a ++ x :: b) = a ++ [x].
Proof.
  intros <-. rewrite cons_middle, app_assoc. apply take_app_length'. rewrite length_app. cbn [length]. lia.
Qed.

Lemma sort_upto i l : (i < length l)%nat -> sort (take (i + 1) (select i l)) = take (i + 1) (sort l).
Proof.
  intros H. pose proof (sort_around i l H) as Hs. rewrite (select_split i l H).
  pose proof (length_before i l H) as Hb. rewrite length_sort in Hb.
  rewrite take_through by done. rewrite Hs, take_through by (by rewrite length_sort).
  apply sort_unique; [|by rewrite !sort_perm].
  pose proof (sort_sorted l) as Hl. rewrite Hs, cons_middle, app_assoc in Hl. by apply sorted_app in Hl as (? & _).
Qed.

(** *** Trimming *)

Lemma trim_count_le n : (0 < n)%nat -> (2 * trim_count n < n)%nat /\ (20 * trim_count n <= n)%nat.
Proof.
  intros H. unfold trim_count, TRIM_PER_MILLE.
  pose proof (Nat.div_mod (n * 50) 1000 ltac:(lia)). pose proof (Nat.mod_upper_bound (n * 50) 1000 ltac:(lia)). lia.
Qed.

(** The middle of the sorted samples: ranks [[c, n - c)]. *)
Definition middle (samples : list Z) : list Z :=
  let n := length samples in
  take (n - 2 * trim_count n) (drop (trim_count n) (sort samples)).

Lemma trimmed_sorted samples :
  samples <> [] -> sort (trimmed select samples Sorted) = middle samples.
Proof.
  intros Hne. assert (Hn : (0 < length samples)%nat) by (destruct samples; [done|cbn; lia]).
  pose proof (trim_count_le _ Hn) as [Hc _]. unfold trimmed, middle.
  set (n := length samples) in *. set (c := trim_count n) in *.
  destruct (Nat.ltb_spec 0 c) as [Hpos|Hz].
  - unfold select_from. set (w := select c samples).
    assert (Hw : length w = n) by (unfold w; rewrite length_select by (fold n; lia); done).
    rewrite drop_app_length' by (rewrite length_take; lia).
    replace (n - 2 * c)%nat with (n - 2 * c - 1 + 1)%nat at 1 by lia.
    rewrite sort_upto by (rewrite length_drop; lia). unfold w. rewrite sort_from by (fold n; lia). f_equal. lia.
  - replace c with 0%nat by lia. rewrite !drop_0, Nat.mul_0_r, Nat.sub_0_r, !take_ge by (rewrite ?length_sort; lia). done.
Qed.

Lemma trimmed_time samples :
  samples <> [] ->
  let n := length samples in
  let c := trim_count n in
  trimmed select samples Time =
  filter (fun x => at_ (sort samples) c <= x <= at_ (sort samples) (n - c - 1)) samples.
Proof.
  intros Hne n c. assert (Hn : (0 < n)%nat) by (destruct samples; [done|cbn; lia]).
  pose proof (trim_count_le _ Hn) as [Hc _]. fold c in Hc. unfold trimmed. fold n. fold c.
  rewrite (selected c samples) by (fold n; lia).
  rewrite (selected (n - c - 1) (select c samples)) by (rewrite length_select by (fold n; lia); fold n; lia).
  by rewrite (sort_eq _ _ (select_perm c samples ltac:(fold n; lia))).
Qed.

(** *** Cutting *)

(** A band whose buckets, up to the last boundary cut, hold the ranks of a
    sorted list. *)
Definition cut_upto (size b : nat) (band s : list Z) : Prop :=
  band ≡ₚ s /\
  (forall j, (j < b)%nat -> sort (take size (drop (j * size) band)) = take size (drop (j * size) s)) /\
  sort (drop (b * size) band) = drop (b * size) s.

Lemma cut_step size b band s :
  (0 < size)%nat -> ((b + 1) * size < length s)%nat -> cut_upto size b band s ->
  cut_upto size (b + 1) (select_from select (b * size) size band) s.
Proof.
  intros Hsz Hlt (Hp & Hj & Hd). pose proof (Permutation_length Hp) as Hl. unfold select_from. set (suf := drop (b * size) band) in *.
  assert (Hsuf : length suf = (length s - b * size)%nat) by (unfold suf; rewrite length_drop; lia).
  assert (Hin : (size < length suf)%nat) by lia.
  assert (Hpre : length (take (b * size) band) = (b * size)%nat) by (rewrite length_take; lia).
  split_and!.
  - rewrite (select_perm size suf Hin). unfold suf. by rewrite take_drop.
  - intros j Hjb. destruct (decide (j = b)) as [->|Hne].
    + rewrite drop_app_length' by done. rewrite sort_before by done. by rewrite Hd.
    + assert (Hjs : ((j + 1) * size <= b * size)%nat) by (apply Nat.mul_le_mono_r; lia).
      rewrite drop_app_le by lia. rewrite take_app_le by (rewrite length_drop; lia).
      rewrite <- (Hj j ltac:(lia)). rewrite skipn_firstn_comm. rewrite take_take. do 2 f_equal. lia.
  - replace ((b + 1) * size)%nat with (b * size + size)%nat by lia.
    rewrite <- !drop_drop, drop_app_length' by done. rewrite sort_from by done. by rewrite Hd.
Qed.

Lemma cut_buckets_spec size k band :
  (0 < size)%nat -> (k * size <= length band)%nat -> (0 < k)%nat ->
  cut_upto size (k - 1) (cut_buckets select k size band) (sort band).
Proof.
  intros Hsz Hk Hpos. unfold cut_buckets.
  assert (H : forall m, (m <= k - 1)%nat ->
    cut_upto size m (foldl (fun band b => select_from select ((b - 1) * size) size band) band (seq 1 m)) (sort band)).
  { induction m as [|m IH]; intros Hm.
    - cbn [seq foldl]. split_and!; [by rewrite sort_perm|lia|done].
    - rewrite seq_S, foldl_snoc. replace (S m) with (m + 1)%nat at 1 by lia.
      replace (1 + m - 1)%nat with m by lia. apply cut_step; [done| |apply IH; lia]. rewrite length_sort.
      apply Nat.lt_le_trans with (k * size)%nat; [|done]. apply Nat.mul_lt_mono_pos_r; lia. }
  apply H. lia.
Qed.
End Select.

(** ** The reference: full sorts, mathematical means *)

Definition mean (l : list Z) : Z := Z.quot (sumZ id l) (Z.of_nat (length l)).

Definition buckets_of (band : list Z) : list (list Z) :=
  let n2 := length band in
  let k := Nat.max (Nat.sqrt n2) 1 in
  let size := (n2 / k)%nat in
  (fun b => take (if (b + 1 <? k)%nat then size else n2 - b * size)%nat (drop (b * size) band)) <$> seq 0 k.

Definition median_ref (l : list Z) : Z :=
  let s := sort l in
  let mid := (length l / 2)%nat in
  if (length l mod 2 =? 1)%nat then at_ s mid else Z.quot (at_ s (mid - 1) + at_ s mid) 2.

(** The values inside the trim band, in rank or in time order. *)
Definition band_ref (samples : list Z) (order : BucketOrder) : list Z :=
  match order with
  | Sorted => middle samples
  | Time =>
      let n := length samples in
      let c := trim_count n in
      filter (fun x => at_ (sort samples) c <= x <= at_ (sort samples) (n - c - 1)) samples
  end.

Definition median_of_means_ref (samples : list Z) (order : BucketOrder) : Z :=
  median_ref (mean <$> buckets_of (band_ref samples order)).

(** *** Sums, counts and ranks *)

Lemma sumZ_perm (l1 l2 : list Z) : l1 ≡ₚ l2 -> sumZ id l1 = sumZ id l2.
Proof. induction 1; cbn [sumZ]; lia. Qed.

Lemma countb_perm (f : Z -> bool) (l1 l2 : list Z) : l1 ≡ₚ l2 -> countb f l1 = countb f l2.
Proof. induction 1; cbn [countb]; lia. Qed.

Lemma sumZ_between l a b :
  (forall x, x ∈ l -> a <= x <= b) -> Z.of_nat (length l) * a <= sumZ id l <= Z.of_nat (length l) * b.
Proof.
  induction l as [|x l IH]; intros H; cbn [sumZ length]; [lia|].
  pose proof (H x ltac:(left)). specialize (IH ltac:(intros y Hy; apply H; by right)). unfold id at 1 3. lia.
Qed.

Lemma quot_between s n a b : 0 < n -> n * a <= s <= n * b -> a <= Z.quot s n <= b.
Proof.
  intros Hn [H1 H2]. split.
  - rewrite <- (Z.quot_mul a n) by lia. apply Z.quot_le_mono; lia.
  - rewrite <- (Z.quot_mul b n) by lia. apply Z.quot_le_mono; lia.
Qed.

Lemma mean_between l a b : l <> [] -> (forall x, x ∈ l -> a <= x <= b) -> a <= mean l <= b.
Proof.
  intros Hne H. apply quot_between; [destruct l; [done|cbn [length]; lia]|by apply sumZ_between].
Qed.

Lemma mean_perm l1 l2 : l1 ≡ₚ l2 -> mean l1 = mean l2.
Proof. intros H. unfold mean. by rewrite (sumZ_perm l1 l2 H), (Permutation_length H). Qed.

Lemma at_elem l i : (i < length l)%nat -> at_ l i ∈ l.
Proof.
  intros H. destruct (lookup_lt_is_Some_2 l i H) as [x Hx]. unfold at_. rewrite Hx. by apply list_elem_of_lookup_2 in Hx.
Qed.

Lemma sorted_ranks s i j : StronglySorted Z.le s -> (i <= j < length s)%nat -> at_ s i <= at_ s j.
Proof.
  intros Hs Hij. destruct (decide (i = j)) as [->|Hne]; [lia|].
  rewrite <- (take_drop (i + 1) s) in Hs. apply sorted_app in Hs as (_ & _ & H). apply H.
  - apply list_elem_of_lookup. exists i. rewrite lookup_take_lt by lia.
    destruct (lookup_lt_is_Some_2 s i ltac:(lia)) as [x Hx]. unfold at_. by rewrite Hx.
  - apply list_elem_of_lookup. exists (j - (i + 1))%nat. rewrite lookup_drop.
    replace (i + 1 + (j - (i + 1)))%nat with j by lia.
    destruct (lookup_lt_is_Some_2 s j ltac:(lia)) as [x Hx]. unfold at_. by rewrite Hx.
Qed.

Lemma countb_forall (f : Z -> bool) l : (forall x, x ∈ l -> f x = true) -> countb f l = length l.
Proof.
  induction l as [|x l IH]; intros H; cbn [countb length]; [done|].
  rewrite (H x ltac:(left)), IH; [lia|]. intros y Hy. apply H. by right.
Qed.

(** When few samples fall outside a bound, the ranks inside do not. *)
Lemma rank_above l a i :
  (i < length l)%nat -> (countb (fun x => x <? a)%Z l <= i)%nat -> a <= at_ (sort l) i.
Proof.
  intros Hi Hc. destruct (Z.le_gt_cases a (at_ (sort l) i)) as [|Hlt]; [done|exfalso].
  assert (H : (i + 1 <= countb (fun x => x <? a)%Z (sort l))%nat); [|rewrite (countb_perm _ _ _ (sort_perm l)) in H; lia].
  rewrite <- (take_drop (i + 1) (sort l)), countb_app, countb_forall.
  - rewrite length_take, length_sort. lia.
  - intros x Hx. apply list_elem_of_lookup in Hx as [j [Hx Hj]%lookup_take_Some].
    pose proof (sorted_ranks _ j i (sort_sorted l)) as Hr. rewrite length_sort in Hr. specialize (Hr ltac:(lia)).
    unfold at_ at 1 in Hr. rewrite Hx in Hr. cbn in Hr. lia.
Qed.

Lemma rank_below l b i :
  (i < length l)%nat -> (countb (fun x => b <? x)%Z l <= length l - 1 - i)%nat -> at_ (sort l) i <= b.
Proof.
  intros Hi Hc. destruct (Z.le_gt_cases (at_ (sort l) i) b) as [|Hlt]; [done|exfalso].
  assert (H : (length l - i <= countb (fun x => b <? x)%Z (sort l))%nat); [|rewrite (countb_perm _ _ _ (sort_perm l)) in H; lia].
  rewrite <- (take_drop i (sort l)), countb_app, (countb_forall _ (drop i (sort l))).
  - rewrite length_drop, length_sort. lia.
  - intros x Hx. apply list_elem_of_lookup in Hx as [j Hx]. rewrite lookup_drop in Hx.
    pose proof (lookup_lt_Some _ _ _ Hx) as Hj. pose proof (sorted_ranks _ i (i + j) (sort_sorted l) ltac:(lia)) as Hr.
    unfold at_ at 2 in Hr. rewrite Hx in Hr. cbn in Hr. lia.
Qed.

(** *** Buckets and the square root *)

Lemma isqrt_from_spec n k f :
  (k * k <= n)%nat -> (n < (k + f + 1) * (k + f + 1))%nat ->
  (isqrt_from n k f * isqrt_from n k f <= n < (isqrt_from n k f + 1) * (isqrt_from n k f + 1))%nat.
Proof.
  revert k. induction f as [|f IH]; intros k Hk Hf; cbn [isqrt_from].
  - rewrite Nat.add_0_r in Hf. lia.
  - destruct (Nat.leb_spec ((k + 1) * (k + 1)) n) as [H|H]; [|lia].
    apply IH; [done|]. by replace (k + 1 + f + 1)%nat with (k + S f + 1)%nat by lia.
Qed.

Lemma isqrt_sqrt n : isqrt n = Nat.sqrt n.
Proof.
  symmetry. apply Nat.sqrt_unique. unfold isqrt. rewrite <- Nat.add_1_r.
  apply isqrt_from_spec; nia.
Qed.

Lemma bucket_count n : (0 < n)%nat ->
  let k := Nat.max (Nat.sqrt n) 1 in (1 <= k <= n)%nat /\ (1 <= n / k)%nat /\ (k * (n / k) <= n)%nat.
Proof.
  intros Hn k. pose proof (Nat.sqrt_spec n ltac:(lia)) as Hs. assert (Hk : (1 <= k <= n)%nat) by nia.
  split_and!; [lia|lia| |apply Nat.Div0.mul_div_le]. apply Nat.div_le_lower_bound; lia.
Qed.

Lemma insert_all (f : nat -> Z) l k :
  (k <= length l)%nat -> foldl (fun m b => <[b := f b]> m) l (seq 0 k) = (f <$> seq 0 k) ++ drop k l.
Proof.
  intros Hk. induction k as [|k IH]; [by rewrite drop_0|]. rewrite seq_S, foldl_snoc, IH by lia.
  rewrite fmap_app. cbn [Nat.add fmap list_fmap]. destruct (lookup_lt_is_Some_2 l k ltac:(lia)) as [x Hx].
  rewrite (drop_S _ _ _ Hx). rewrite insert_app_r_alt by (by rewrite length_fmap, length_seq).
  rewrite length_fmap, length_seq, Nat.sub_diag. cbn. by rewrite <- app_assoc.
Qed.

(** The [b]-th bucket of a band, and the ranks a partition leaves in it. *)
Definition bucket (band : list Z) (k size b : nat) : list Z :=
  take (if (b + 1 <? k)%nat then size else length band - b * size)%nat (drop (b * size) band).

Lemma bucket_length band k size b :
  (b < k)%nat -> (1 <= size)%nat -> (k * size <= length band)%nat ->
  length (bucket band k size b) =
    ((if (b + 1 <? k)%nat then b * size + size else length band) - b * size)%nat /\
  (0 < length (bucket band k size b))%nat.
Proof.
  intros Hb Hs Hk. unfold bucket. rewrite length_take, length_drop.
  destruct (Nat.ltb_spec (b + 1) k) as [H|H]; [nia|]. replace b with (k - 1)%nat in * by lia. nia.
Qed.

Lemma bucket_elem band k size b x : x ∈ bucket band k size b -> x ∈ band.
Proof.
  unfold bucket. intros [j Hj]%list_elem_of_lookup. apply lookup_take_Some in Hj as [Hj _].
  rewrite lookup_drop in Hj. by apply list_elem_of_lookup_2 in Hj.
Qed.

Lemma bucket_means_spec band k size :
  Forall (fun x => in_i64 x) band -> (k <= MAX_BUCKETS)%nat -> (1 <= size)%nat -> (k * size <= length band)%nat ->
  bucket_means band k size = (fun b => mean (bucket band k size b)) <$> seq 0 k.
Proof.
  intros Hr Hk Hs Hn. unfold bucket_means. rewrite insert_all by (rewrite length_replicate; lia).
  rewrite take_app_length' by (by rewrite length_fmap, length_seq).
  apply list_fmap_ext. intros i b [-> Hi]%lookup_seq. cbn [Nat.add]. destruct (bucket_length band k size i) as [Hl Hp]; [lia..|].
  unfold bucket_mean. rewrite <- Hl.
  assert (Hb : take (length (bucket band k size i)) (drop (i * size) band) = bucket band k size i).
  { rewrite Hl. unfold bucket. destruct (i + 1 <? k)%nat; [|done]. f_equal. lia. }
  rewrite Hb. apply wrap_i64_id. apply (mean_between (bucket band k size i)).
  - intros He. rewrite He in Hp. cbn in Hp. lia.
  - intros x Hx%bucket_elem. by apply (proj1 (Forall_forall _ _) Hr).
Qed.

(** Buckets of the same ranks have the same means. *)
Lemma cut_buckets_means size k band s :
  (1 <= size)%nat -> (0 < k)%nat -> (k * size <= length band)%nat ->
  cut_upto size (k - 1) band s ->
  forall b, (b < k)%nat -> mean (bucket band k size b) = mean (bucket s k size b).
Proof.
  intros Hs Hk Hn (Hp & Hj & Hd) b Hb. pose proof (Permutation_length Hp) as Hl. apply mean_perm. unfold bucket. rewrite Hl.
  destruct (Nat.ltb_spec (b + 1) k) as [H|H].
  - rewrite <- (Hj b ltac:(lia)). by rewrite sort_perm.
  - replace b with (k - 1)%nat by lia. rewrite !take_ge by (rewrite length_drop; lia). rewrite <- Hd. by rewrite sort_perm.
Qed.

Lemma means_between s a b :
  (0 < length s)%nat -> (forall x, x ∈ s -> a <= x <= b) -> forall m, m ∈ mean <$> buckets_of s -> a <= m <= b.
Proof.
  intros H0 H m. unfold buckets_of. intros (l & -> & Hl)%list_elem_of_fmap.
  apply list_elem_of_fmap in Hl as (i & -> & [_ Hi]%elem_of_seq).
  destruct (bucket_count (length s) H0) as (Hk & Hs & Hks).
  set (k := Nat.max (Nat.sqrt (length s)) 1) in *. set (size := (length s / k)%nat) in *.
  fold (bucket s k size i). destruct (bucket_length s k size i) as [_ Hp]; [lia..|].
  apply mean_between; [intros He; rewrite He in Hp; cbn in Hp; lia|].
  intros x Hx%bucket_elem. by apply H.
Qed.

Lemma buckets_nonempty s : (0 < length s)%nat -> (0 < length (mean <$> buckets_of s))%nat.
Proof.
  intros H. unfold buckets_of. rewrite !length_fmap, length_seq. lia.
Qed.

Lemma median_ref_between l a b :
  (0 < length l)%nat -> (forall x, x ∈ l -> a <= x <= b) -> a <= median_ref l <= b.
Proof.
  intros H0 H. unfold median_ref. pose proof (Nat.div_mod (length l) 2 ltac:(lia)) as Hd.
  pose proof (Nat.mod_upper_bound (length l) 2 ltac:(lia)) as Hm.
  assert (Hi : forall i, (i < length l)%nat -> a <= at_ (sort l) i <= b).
  { intros i Hi. apply H. apply (proj1 (elem_of_sort _ _)), at_elem. by rewrite length_sort. }
  set (mid := (length l / 2)%nat) in *. destruct (Nat.eqb_spec (length l mod 2) 1); [apply Hi; lia|].
  pose proof (Hi mid ltac:(lia)). pose proof (Hi (mid - 1)%nat ltac:(lia)). apply quot_between; lia.
Qed.

Section Equivalence.
Context `{!SelectNth select}.

Lemma median_spec l :
  Forall (fun x => in_i64 x) l -> l <> [] -> median select l = median_ref l.
Proof.
  intros Hr Hne. assert (Hn : (0 < length l)%nat) by (destruct l; [done|cbn; lia]).
  unfold median, median_ref. pose proof (Nat.div_mod (length l) 2 ltac:(lia)) as Hd.
  pose proof (Nat.mod_upper_bound (length l) 2 ltac:(lia)) as Hm.
  set (mid := (length l / 2)%nat) in *. rewrite (selected mid l) by lia.
  destruct (Nat.eqb_spec (length l mod 2) 1) as [|Hev]; [done|].
  assert (Hmid : (1 <= mid < length l)%nat) by lia.
  rewrite (selected (mid - 1)) by (rewrite length_take, length_select by lia; lia).
  rewrite sort_before by lia. replace (at_ (take mid (sort l)) (mid - 1)) with (at_ (sort l) (mid - 1))
    by (unfold at_; by rewrite lookup_take_lt by lia).
  apply wrap_i64_id.
  assert (H : forall i, (i < length l)%nat -> in_i64 (at_ (sort l) i)).
  { intros i Hi. pose proof (at_elem (sort l) i ltac:(by rewrite length_sort)) as Hin. apply (proj1 (elem_of_sort _ _)) in Hin.
    by apply (proj1 (Forall_forall _ _) Hr). }
  pose proof (H (mid - 1)%nat ltac:(lia)). pose proof (H mid ltac:(lia)).
  apply (quot_between _ 2); lia.
Qed.

Lemma trimmed_ref samples order :
  samples <> [] -> trimmed select samples order ≡ₚ band_ref samples order /\
  (order = Time -> trimmed select samples order = band_ref samples order).
Proof.
  intros Hne. destruct order; cbn [band_ref].
  - split; [|done]. rewrite <- trimmed_sorted by done. by rewrite sort_perm.
  - rewrite trimmed_time by done. done.
Qed.

Lemma middle_elem samples x : x ∈ middle samples -> x ∈ samples.
Proof.
  unfold middle. intros [j Hj]%list_elem_of_lookup. apply lookup_take_Some in Hj as [Hj _]. rewrite lookup_drop in Hj.
  apply list_elem_of_lookup_2 in Hj. by apply (proj1 (elem_of_sort _ _)) in Hj.
Qed.

Lemma band_elem samples order x : x ∈ band_ref samples order -> x ∈ samples.
Proof. destruct order; cbn [band_ref]; [apply middle_elem|]. by intros [_ ?]%list_elem_of_filter. Qed.

(** The band is never empty and no longer than the samples. *)
Lemma band_length samples order :
  samples <> [] -> (0 < length (band_ref samples order) <= length samples)%nat.
Proof.
  intros Hne. assert (Hn : (0 < length samples)%nat) by (destruct samples; [done|cbn; lia]).
  pose proof (trim_count_le _ Hn) as [Hc _]. destruct order; cbn [band_ref].
  - unfold middle. rewrite length_take, length_drop, length_sort. lia.
  - split; [|apply length_filter]. set (c := trim_count (length samples)) in *.
    assert (Hin : at_ (sort samples) c ∈ samples).
    { apply (proj1 (elem_of_sort _ _)), at_elem. rewrite length_sort. lia. }
    assert (Hf : at_ (sort samples) c ∈ filter (fun x => at_ (sort samples) c <= x <=
       at_ (sort samples) (length samples - c - 1)) samples).
    { apply list_elem_of_filter. split; [|done]. split; [lia|]. apply sorted_ranks; [apply sort_sorted|].
      rewrite length_sort. lia. }
    destruct (filter _ samples); [by apply not_elem_of_nil in Hf|cbn; lia].
Qed.

(** The shape of the buckets a band is cut into. *)
Definition n_buckets (band : list Z) : nat := Nat.max (Nat.sqrt (length band)) 1.
Definition bucket_size (band : list Z) : nat := (length band / n_buckets band)%nat.

Lemma buckets_of_spec band :
  mean <$> buckets_of band = (fun b => mean (bucket band (n_buckets band) (bucket_size band) b)) <$> seq 0 (n_buckets band).
Proof. unfold buckets_of. rewrite <- list_fmap_compose. done. Qed.

Lemma n_buckets_fit band : (length band <= GRID_POINTS)%nat -> (n_buckets band <= MAX_BUCKETS)%nat.
Proof.
  intros H. pose proof (Nat.sqrt_le_mono _ _ H) as Hq. change (Nat.sqrt GRID_POINTS) with 42%nat in Hq.
  unfold n_buckets, MAX_BUCKETS. lia.
Qed.

(** What the cut band's buckets average to. *)
Lemma cut_band_means band work (s : list Z) :
  (0 < length s <= GRID_POINTS)%nat -> Forall (fun x => in_i64 x) s -> work ≡ₚ s ->
  band = n_buckets s ->
  (forall b, (b < n_buckets s)%nat -> mean (bucket work (n_buckets s) (bucket_size s) b) =
                                       mean (bucket s (n_buckets s) (bucket_size s) b)) ->
  bucket_means work band (bucket_size s) = mean <$> buckets_of s.
Proof.
  intros [H0 H1] Hr Hp -> Hm. destruct (bucket_count (length s) H0) as (Hk & Hs & Hks).
  fold (n_buckets s) in Hk, Hs, Hks. fold (bucket_size s) in Hs, Hks.
  rewrite bucket_means_spec.
  - rewrite buckets_of_spec. apply list_fmap_ext. intros i b [-> Hb]%lookup_seq. by apply Hm.
  - by rewrite Hp.
  - by apply n_buckets_fit.
  - done.
  - by rewrite (Permutation_length Hp).
Qed.

Lemma cut_work samples order :
  samples <> [] ->
  let s := band_ref samples order in
  let work := trimmed select samples order in
  let cut := match order with Sorted => cut_buckets select (n_buckets s) (bucket_size s) work | Time => work end in
  cut ≡ₚ s /\
  (forall b, (b < n_buckets s)%nat -> mean (bucket cut (n_buckets s) (bucket_size s) b) =
                                       mean (bucket s (n_buckets s) (bucket_size s) b)).
Proof.
  intros Hne. cbv zeta. pose proof (trimmed_ref samples order Hne) as [Hp Ht].
  destruct order; [|by rewrite Ht by done].
  pose proof (band_length samples Sorted Hne) as [H0 _]. pose proof (Permutation_length Hp) as Hl.
  set (s := band_ref samples Sorted) in *. destruct (bucket_count (length s) H0) as (Hk & Hs & Hks).
  fold (n_buckets s) in Hk, Hs, Hks. fold (bucket_size s) in Hs, Hks.
  pose proof (cut_buckets_spec (bucket_size s) (n_buckets s) (trimmed select samples Sorted)
    ltac:(lia) ltac:(lia) ltac:(lia)) as Hc.
  rewrite trimmed_sorted in Hc by done. change (middle samples) with s in Hc.
  split; [apply Hc|]. apply cut_buckets_means; [lia|lia| |done]. rewrite (Permutation_length (proj1 Hc)). lia.
Qed.

Lemma median_of_means_spec samples order scratch_len :
  samples <> [] -> Forall (fun x => in_i64 x) samples ->
  (length samples <= GRID_POINTS)%nat -> (length samples <= scratch_len)%nat ->
  median_of_means select samples order scratch_len = Some (median_of_means_ref samples order).
Proof.
  intros Hne Hr Hg Hsc. unfold median_of_means.
  rewrite (proj2 (Nat.eqb_neq _ _)) by (destruct samples; [done|cbn; lia]).
  rewrite (proj2 (Nat.ltb_ge _ _)) by done. cbn [orb]. f_equal.
  pose proof (trimmed_ref samples order Hne) as [Hp _]. pose proof (band_length samples order Hne) as [H0 H1].
  pose proof (cut_work samples order Hne) as [Hcp Hcm]. cbv zeta in Hcp, Hcm.
  assert (Hrb : forall x, x ∈ band_ref samples order -> in_i64 x).
  { intros x Hx%band_elem. by apply (proj1 (Forall_forall _ _) Hr). }
  rewrite isqrt_sqrt, (Permutation_length Hp). fold (n_buckets (band_ref samples order)).
  fold (bucket_size (band_ref samples order)).
  rewrite (cut_band_means (n_buckets (band_ref samples order)) _ (band_ref samples order));
    [|lia|by apply Forall_forall|done..].
  apply median_spec; [apply Forall_forall; by apply means_between|].
  pose proof (buckets_nonempty _ H0) as Hb. intros He. rewrite He in Hb. cbn in Hb. lia.
Qed.
End Equivalence.

(** Sorting is a lawful selection. *)
Definition select_by_sort (_ : nat) (l : list Z) : list Z := sort l.

#[export] Instance select_by_sort_lawful : SelectNth select_by_sort.
Proof.
  split; unfold select_by_sort; intros i l; [intros _; apply sort_perm|..]; intros x Hi [j Hj]%list_elem_of_lookup.
  - apply lookup_take_Some in Hj as [Hj Hlt]. replace x with (at_ (sort l) j) by (unfold at_; by rewrite Hj).
    apply sorted_ranks; [apply sort_sorted|]. rewrite length_sort. lia.
  - rewrite lookup_drop in Hj. pose proof (lookup_lt_Some _ _ _ Hj).
    replace x with (at_ (sort l) (i + 1 + j)) by (unfold at_; by rewrite Hj).
    apply sorted_ranks; [apply sort_sorted|]. lia.
Qed.

(** C35. For every lawful select_nth_unstable, whatever order it leaves, on
    the at most 1800 samples a window holds, the in-place partition law
    returns what full sorts, mathematical means and the median do, and None
    exactly when there are no samples or the scratch is too short. *)
Theorem settlement_is_the_sorted_law (select : nat -> list Z -> list Z) `{!SelectNth select}
    (samples : list Z) (order : BucketOrder) (scratch_len : nat)
    (Hr : Forall (fun x => in_i64 x) samples) (Hg : (length samples <= GRID_POINTS)%nat) :
  median_of_means select samples order scratch_len =
    if bool_decide (samples = []) || (scratch_len <? length samples)%nat then None
    else Some (median_of_means_ref samples order).
Proof.
  case_bool_decide as He; [by subst|]. cbn [orb]. destruct (Nat.ltb_spec scratch_len (length samples)) as [H|H].
  - unfold median_of_means. rewrite (proj2 (Nat.ltb_lt _ _) H), orb_true_r. done.
  - by apply median_of_means_spec.
Qed.

Lemma band_between samples order a b :
  samples <> [] ->
  (countb (fun x => x <? a)%Z samples <= trim_count (length samples))%nat ->
  (countb (fun x => b <? x)%Z samples <= trim_count (length samples))%nat ->
  forall x, x ∈ band_ref samples order -> a <= x <= b.
Proof.
  intros Hne Ha Hb x. assert (Hn : (0 < length samples)%nat) by (destruct samples; [done|cbn; lia]).
  pose proof (trim_count_le _ Hn) as [Hc _]. set (c := trim_count (length samples)) in *.
  pose proof (rank_above samples a c ltac:(lia) Ha) as Hlo.
  pose proof (rank_below samples b (length samples - c - 1) ltac:(lia) ltac:(lia)) as Hhi.
  destruct order; cbn [band_ref]; [|fold c; intros [? _]%list_elem_of_filter; lia].
  unfold middle. fold c. intros [j Hj]%list_elem_of_lookup. apply lookup_take_Some in Hj as [Hj Hlt].
  rewrite lookup_drop in Hj. replace x with (at_ (sort samples) (c + j)) by (unfold at_; by rewrite Hj).
  pose proof (sorted_ranks (sort samples) c (c + j) (sort_sorted _)) as H1.
  pose proof (sorted_ranks (sort samples) (c + j) (length samples - c - 1) (sort_sorted _)) as H2.
  rewrite length_sort in H1, H2. specialize (H1 ltac:(lia)). specialize (H2 ltac:(lia)). lia.
Qed.

(** C34. Whenever the law settles up to 1800 samples, in either bucket
    order, a band that at most five percent of the samples lie below and at
    most five percent above contains the settlement: that few outliers,
    however extreme, never move it out. *)
Theorem settlement_resists_outliers (select : nat -> list Z -> list Z) `{!SelectNth select}
    (samples : list Z) (order : BucketOrder) (scratch_len : nat) (a b v : Z)
    (Hr : Forall (fun x => in_i64 x) samples) (Hg : (length samples <= GRID_POINTS)%nat)
    (Ha : (countb (fun x => x <? a)%Z samples <= trim_count (length samples))%nat)
    (Hb : (countb (fun x => b <? x)%Z samples <= trim_count (length samples))%nat)
    (Hv : median_of_means select samples order scratch_len = Some v) :
  a <= v <= b.
Proof.
  assert (Hne : samples <> []) by (intros ->; discriminate).
  assert (Hsc : (length samples <= scratch_len)%nat).
  { destruct (Nat.ltb_spec scratch_len (length samples)) as [H|]; [|done]. unfold median_of_means in Hv.
    rewrite (proj2 (Nat.ltb_lt _ _) H), orb_true_r in Hv. discriminate. }
  rewrite (median_of_means_spec samples order scratch_len Hne Hr Hg Hsc) in Hv. injection Hv as <-.
  pose proof (band_length samples order Hne) as [H0 _]. unfold median_of_means_ref.
  apply median_ref_between; [by apply buckets_nonempty|]. apply means_between; [done|]. by apply band_between.
Qed.

(** ** The grid is the sample-and-hold of the accepted prints *)

(** The last accepted price stamped at or before [g]. *)
Definition held_at (acc : list (Z * Z)) (g : Z) : option Z := snd <$> last (filter (fun p => p.1 <= g) acc).

Definition feed (st : SettleWindow * list (Z * Z)) (p : Z * Z) : SettleWindow * list (Z * Z) :=
  let '(w, r) := sw_push p.1 p.2 st.1 in (w, match r with Ok _ => st.2 ++ [p] | Err _ => st.2 end).

Lemma advance_from_spec ts fuel w :
  (GRID_POINTS - sw_next w <= fuel)%nat -> length (sw_samples w) = GRID_POINTS ->
  (sw_n w <= sw_next w <= GRID_POINTS)%nat ->
  exists d w', advance_from ts fuel w = w' /\
    sw_t_end_ms w' = sw_t_end_ms w /\ sw_last_ts_ms w' = sw_last_ts_ms w /\ sw_last_px w' = sw_last_px w /\
    sw_next w' = (sw_next w + d)%nat /\ (sw_n w' <= sw_next w' <= GRID_POINTS)%nat /\
    length (sw_samples w') = GRID_POINTS /\
    sw_grid w' = sw_grid w ++ (if 0 <? sw_last_px w then replicate d (sw_last_px w) else []) /\
    (forall i, (sw_next w <= i < sw_next w')%nat -> grid_ms (sw_t_end_ms w) i < ts) /\
    (sw_next w' = GRID_POINTS \/ ts <= grid_ms (sw_t_end_ms w) (sw_next w')).
Proof.
  revert w. induction fuel as [|f IH]; intros w Hf Hl Hn; cbn [advance_from].
  - exists 0%nat, w. split_and!; try lia; try done. destruct (0 <? _); by rewrite ?app_nil_r.
  - destruct (Nat.ltb_spec (sw_next w) GRID_POINTS) as [H|H]; cbn [andb].
    2: { exists 0%nat, w. split_and!; try lia; try done. destruct (0 <? _); by rewrite ?app_nil_r. }
    destruct (Z.ltb_spec (grid_ms (sw_t_end_ms w) (sw_next w)) ts) as [Hg|Hg].
    2: { exists 0%nat, w. split_and!; try lia; try done. destruct (0 <? _); by rewrite ?app_nil_r. }
    assert (Hfill : sw_t_end_ms (grid_fill w) = sw_t_end_ms w /\ sw_last_ts_ms (grid_fill w) = sw_last_ts_ms w /\
      sw_last_px (grid_fill w) = sw_last_px w /\ sw_next (grid_fill w) = (sw_next w + 1)%nat /\
      (sw_n (grid_fill w) <= sw_next (grid_fill w))%nat /\ length (sw_samples (grid_fill w)) = GRID_POINTS /\
      sw_grid (grid_fill w) = sw_grid w ++ (if 0 <? sw_last_px w then [sw_last_px w] else [])).
    { unfold grid_fill, sw_grid. destruct (0 <? sw_last_px w);
        cbn [sw_samples sw_t_end_ms sw_last_ts_ms sw_last_px sw_next sw_n]; rewrite ?length_insert, ?app_nil_r;
        split_and!; try done; try lia.
      rewrite Nat.add_1_r, (take_S_r _ _ (sw_last_px w)) by (apply list_lookup_insert_eq; lia).
      by rewrite take_insert_ge by lia. }
    destruct Hfill as (E1 & E2 & E3 & E4 & E5 & E6 & E7).
    destruct (IH (grid_fill w)) as (d & w' & <- & F1 & F2 & F3 & F4 & F5 & F6 & F7 & F8 & F9); [lia|done|lia|].
    rewrite E1 in *. rewrite E3, E7 in F7. rewrite E4 in *. eexists (S d), _. split; [done|].
    split_and!; try done; try congruence; try lia.
    + rewrite F7, <- app_assoc. by destruct (0 <? sw_last_px w).
    + intros i Hi. destruct (decide (i = sw_next w)) as [->|]; [done|]. apply F8. lia.
Qed.

Section Grid.
Context (T : Z) (next0 : nat) (ts0 : Z) (saved : list Z) (HT : SETTLE_WINDOW_MS <= T < u64_max).

Definition slots_from (acc : list (Z * Z)) (n : nat) : list Z :=
  omap (fun i => held_at acc (grid_ms T i)) (seq next0 (n - next0)).

Record window_ok (w : SettleWindow) (acc : list (Z * Z)) : Prop := {
  wo_end : sw_t_end_ms w = T;
  wo_len : length (sw_samples w) = GRID_POINTS;
  wo_next : (next0 <= sw_next w <= GRID_POINTS)%nat;
  wo_n : (sw_n w <= sw_next w)%nat;
  wo_grid : sw_grid w = saved ++ slots_from acc (sw_next w);
  wo_last : (acc = [] /\ sw_last_px w = 0 /\ sw_next w = next0) \/
            (exists pre, acc = pre ++ [(sw_last_ts_ms w, sw_last_px w)] /\ 0 < sw_last_px w /\
               (forall i, (next0 <= i < sw_next w)%nat -> grid_ms T i < sw_last_ts_ms w) /\
               (sw_next w = GRID_POINTS \/ sw_last_ts_ms w <= grid_ms T (sw_next w)) /\
               (forall p, p ∈ acc -> p.1 <= sw_last_ts_ms w) /\ sw_last_ts_ms w <= T)
}.

Lemma grid_exact i : (i < GRID_POINTS)%nat -> grid_ms T i = T - SETTLE_WINDOW_MS + (Z.of_nat i + 1) * 1000.
Proof.
  intros H. unfold grid_ms, GRID_STEP_MS, SETTLE_WINDOW_MS, GRID_POINTS, u64_max in *. apply wrap_u64_id.
  unfold u64_max. lia.
Qed.

Lemma grid_mono i j : (i <= j < GRID_POINTS)%nat -> grid_ms T i <= grid_ms T j.
Proof. intros H. rewrite !grid_exact by lia. lia. Qed.

Lemma grid_before_end i : (i < GRID_POINTS)%nat -> grid_ms T i <= T.
Proof. intros H. rewrite grid_exact by lia. unfold SETTLE_WINDOW_MS, GRID_POINTS in *. lia. Qed.

Lemma held_later acc p g : g < p.1 -> held_at (acc ++ [p]) g = held_at acc g.
Proof. intros H. unfold held_at. rewrite filter_app, filter_cons_False, filter_nil, app_nil_r by lia. done. Qed.

Lemma held_last pre p g : p.1 <= g -> held_at (pre ++ [p]) g = Some p.2.
Proof. intros H. unfold held_at. rewrite filter_app, filter_cons_True, filter_nil, last_snoc by lia. done. Qed.

Lemma omap_const {A} (f : nat -> option A) x n m :
  (forall i, (n <= i < n + m)%nat -> f i = Some x) -> omap f (seq n m) = replicate m x.
Proof.
  revert n. induction m as [|m IH]; intros n H; [done|]. cbn [seq omap list_omap]. rewrite (H n) by lia.
  cbn [replicate]. f_equal. apply IH. intros i Hi. apply H. lia.
Qed.

Lemma omap_ext_seq {A} (f g : nat -> option A) n m :
  (forall i, (n <= i < n + m)%nat -> f i = g i) -> omap f (seq n m) = omap g (seq n m).
Proof.
  revert n. induction m as [|m IH]; intros n H; [done|]. cbn [seq omap list_omap]. rewrite (H n) by lia.
  rewrite (IH (S n)) by (intros i Hi; apply H; lia). done.
Qed.

(** Advancing fills every passed instant with the price held there. *)
Lemma advance_ok ts w acc :
  (forall p, p ∈ acc -> p.1 <= ts) -> window_ok w acc ->
  let w' := advance_to ts w in
  sw_t_end_ms w' = T /\ length (sw_samples w') = GRID_POINTS /\ (next0 <= sw_next w' <= GRID_POINTS)%nat /\
  (sw_n w' <= sw_next w')%nat /\ sw_grid w' = saved ++ slots_from acc (sw_next w') /\
  (forall i, (next0 <= i < sw_next w')%nat -> grid_ms T i < ts) /\
  (sw_next w' = GRID_POINTS \/ ts <= grid_ms T (sw_next w')).
Proof.
  intros Hts [H1 H2 H3 H4 H5 H6]. cbv zeta. unfold advance_to.
  destruct (advance_from_spec ts (GRID_POINTS - sw_next w) w) as (d & w' & -> & F1 & F2 & F3 & F4 & F5 & F6 & F7 & F8 & F9);
    [lia|done|lia|].
  rewrite H1 in *. split_and!; try done; try lia.
  - rewrite F7, H5, <- app_assoc. f_equal. unfold slots_from. rewrite F4.
    replace (sw_next w + d - next0)%nat with ((sw_next w - next0) + d)%nat by lia.
    rewrite seq_app, omap_app. f_equal. replace (next0 + (sw_next w - next0))%nat with (sw_next w) by lia.
    destruct H6 as [(-> & -> & _)|(pre & -> & Hpos & _ & Hnx & _ & _)].
    + cbn. clear. generalize (sw_next w). induction d as [|d IH]; intros n; [done|]. cbn. apply IH.
    + rewrite (proj2 (Z.ltb_lt _ _) Hpos). symmetry. apply omap_const. intros i Hi. apply held_last. cbn [fst].
      destruct Hnx as [Hnx|Hnx]; [lia|]. etrans; [exact Hnx|]. apply grid_mono. lia.
  - destruct H6 as [(-> & _ & Hn)|(pre & -> & _ & Hlt & _ & _ & _)]; intros i Hi; [apply F8; lia|].
    destruct (decide (i < sw_next w)%nat); [|apply F8; lia].
    specialize (Hlt i ltac:(lia)). specialize (Hts (sw_last_ts_ms w, sw_last_px w) ltac:(set_solver)). cbn in Hts. lia.
Qed.

(** No print of a run is stamped after the last accepted one. *)
Lemma stamps_bounded w acc ts :
  window_ok w acc -> sw_last_ts_ms w <= ts -> forall p, p ∈ acc -> p.1 <= ts.
Proof.
  intros [_ _ _ _ _ H6] Hts p Hp. destruct H6 as [(-> & _)|(pre & _ & _ & _ & _ & Hle & _)].
  - by apply not_elem_of_nil in Hp.
  - specialize (Hle p Hp). lia.
Qed.

Lemma feed_ok w acc p :
  window_ok w acc -> let '(w', acc') := feed (w, acc) p in window_ok w' acc'.
Proof.
  intros Hw. destruct p as [ts px]. unfold feed, sw_push. cbn [fst snd].
  destruct (Z.leb_spec px 0); [done|]. destruct (Z.ltb_spec ts (sw_last_ts_ms w)) as [|Hts]; [done|].
  destruct (Z.ltb_spec (sw_t_end_ms w) ts); [done|].
  pose proof (stamps_bounded w acc ts Hw Hts) as Hb.
  destruct (advance_ok ts w acc Hb Hw) as (E1 & E2 & E3 & E4 & E5 & E6 & E7).
  split; cbn [sw_t_end_ms sw_samples sw_next sw_n sw_last_px sw_last_ts_ms]; try done.
  - unfold sw_grid in *. cbn [sw_n sw_samples]. rewrite E5. f_equal. unfold slots_from.
    apply omap_ext_seq. intros i Hi. symmetry. apply held_later. cbn [fst]. apply E6. lia.
  - right. exists acc. split_and!; [done|lia|done|done| |by rewrite (wo_end w acc Hw) in *].
    intros q [Hq|Hq]%elem_of_app; [by apply Hb|]. apply list_elem_of_singleton in Hq as ->. done.
Qed.

Lemma feeds_ok prints st : window_ok st.1 st.2 -> window_ok (foldl feed st prints).1 (foldl feed st prints).2.
Proof.
  apply (foldl_keeps (fun st => window_ok st.1 st.2)). intros [w acc] p _ Hw. pose proof (feed_ok w acc p Hw) as H.
  by destruct (feed (w, acc) p).
Qed.

Lemma finish_grid w acc : window_ok w acc -> sw_grid (sw_finish w) = saved ++ slots_from acc GRID_POINTS.
Proof.
  intros Hw. unfold sw_finish. rewrite (wo_end w acc Hw), wrap_u64_id by (unfold SETTLE_WINDOW_MS, u64_max in *; lia).
  assert (Hb : forall p, p ∈ acc -> p.1 <= T + 1).
  { intros p Hp. destruct (wo_last w acc Hw) as [(-> & _)|(pre & _ & _ & _ & _ & Hle & Hend)].
    - by apply not_elem_of_nil in Hp.
    - specialize (Hle p Hp). lia. }
  destruct (advance_ok (T + 1) w acc Hb Hw) as (_ & _ & E3 & _ & -> & _ & E7). f_equal.
  destruct E7 as [->|E7]; [done|].
  destruct (decide (sw_next (advance_to (T + 1) w) = GRID_POINTS)) as [->|Hne]; [done|exfalso].
  pose proof (grid_before_end (sw_next (advance_to (T + 1) w)) ltac:(lia)). lia.
Qed.
End Grid.

Lemma restored_ok T next ts0 saved w w' :
  SETTLE_WINDOW_MS <= T -> length (sw_samples w) = GRID_POINTS ->
  sw_restore T next ts0 saved w = (w', Ok tt) -> window_ok T next saved w' [].
Proof.
  intros HT Hl. unfold sw_restore. destruct (Nat.ltb_spec GRID_POINTS next); [done|].
  destruct (Nat.ltb_spec next (length saved)); [done|]. cbn [orb].
  destruct (_ || _); [done|]. destruct (existsb _ _); [done|]. intros [= <-].
  split; cbn [sw_t_end_ms sw_samples sw_next sw_n sw_last_px sw_last_ts_ms].
  - done.
  - rewrite length_app, length_drop. lia.
  - lia.
  - lia.
  - unfold sw_grid, slots_from. cbn [sw_n sw_samples sw_next]. rewrite take_app_length, Nat.sub_diag.
    cbn. by rewrite app_nil_r.
  - by left.
Qed.

(** A settlement window, new or restored from a state file, closes with
    its saved points followed by, for each later grid instant, the last
    accepted price stamped at or before it, and nothing where none was: an
    outage is never bridged by the price held before it. *)
Theorem window_samples_and_holds (T : Z) (next : nat) (ts0 : Z) (saved : list Z) (w w' : SettleWindow) (prints : list (Z * Z))
    (HT : SETTLE_WINDOW_MS <= T < u64_max) (Hl : length (sw_samples w) = GRID_POINTS)
    (Hr : sw_restore T next ts0 saved w = (w', Ok tt)) :
  let '(wf, acc) := foldl feed (w', []) prints in
  sw_grid (sw_finish wf) =
    saved ++ omap (fun i => held_at acc (T - SETTLE_WINDOW_MS + (Z.of_nat i + 1) * 1000)) (seq next (GRID_POINTS - next)).
Proof.
  assert (H0 : window_ok T next saved w' []) by (apply (restored_ok T next ts0 saved w); [lia|done..]).
  pose proof (feeds_ok T next saved HT prints (w', []) H0) as H. destruct (foldl feed (w', []) prints) as [wf acc].
  cbn [fst snd] in H. rewrite (finish_grid T next saved HT wf acc H). f_equal. unfold slots_from.
  apply omap_ext_seq. intros i Hi. rewrite grid_exact; [done|done|].
  pose proof (wo_next T next saved wf acc H). lia.
Qed.

(** A five-sample settlement and a window restored with two points. *)
Lemma settlement_is_the_sorted_law_witness :
  median_of_means select_by_sort [5; 1; 9; 3; 7] Sorted 1800 = Some 4 /\
  median_of_means select_by_sort [5; 1; 9; 3; 7] Sorted 1800 =
    (if bool_decide ([5; 1; 9; 3; 7] = []) || (1800 <? 5)%nat then None
     else Some (median_of_means_ref [5; 1; 9; 3; 7] Sorted)).
Proof.
  split; [vm_compute; reflexivity|]. apply (settlement_is_the_sorted_law select_by_sort).
  - repeat (apply Forall_cons; split; [vm_compute; split; discriminate|]). apply Forall_nil. exact I.
  - apply Nat.leb_le. vm_compute. reflexivity.
Defined.

Lemma settlement_resists_outliers_witness :
  median_of_means select_by_sort (999999 :: replicate 19 100 ++ [1]) Time 1800 = Some 100 /\ 100 <= 100 <= 100.
Proof.
  assert (Hv : median_of_means select_by_sort (999999 :: replicate 19 100 ++ [1]) Time 1800 = Some 100)
    by (vm_compute; reflexivity).
  split; [exact Hv|].
  apply (settlement_resists_outliers select_by_sort (999999 :: replicate 19 100 ++ [1]) Time 1800 100 100 100);
    [| | | |exact Hv]; [|apply Nat.leb_le; vm_compute; reflexivity..].
  cbn. repeat (apply Forall_cons; split; [vm_compute; split; discriminate|]). apply Forall_nil. exact I.
Defined.

Lemma window_samples_and_holds_witness :
  let w := SettleWindow_new 5000000 in
  let w' := mkWindow ([70; 71] ++ drop 2 (replicate GRID_POINTS 0)) 5000000 3203000 0 3 2 in
  sw_restore 5000000 3 3203000 [70; 71] w = (w', Ok tt) /\
  let '(wf, acc) := foldl feed (w', []) [(4998500, 80); (4997000, 81); (4999500, 82)] in
  acc = [(4998500, 80); (4999500, 82)] /\
  sw_grid (sw_finish wf) = [70; 71] ++
    omap (fun i => held_at acc (5000000 - SETTLE_WINDOW_MS + (Z.of_nat i + 1) * 1000)) (seq 3 (GRID_POINTS - 3)).
Proof.
  cbv zeta. set (w := SettleWindow_new 5000000).
  assert (Hr : sw_restore 5000000 3 3203000 [70; 71] w =
    (mkWindow ([70; 71] ++ drop 2 (replicate GRID_POINTS 0)) 5000000 3203000 0 3 2, Ok tt)) by (vm_compute; reflexivity).
  split; [exact Hr|].
  pose proof (window_samples_and_holds 5000000 3 3203000 [70; 71] w _ [(4998500, 80); (4997000, 81); (4999500, 82)]
    ltac:(unfold SETTLE_WINDOW_MS, u64_max; lia) ltac:(vm_compute; reflexivity) Hr) as H.
  assert (Ha : snd (foldl feed (mkWindow ([70; 71] ++ drop 2 (replicate GRID_POINTS 0)) 5000000 3203000 0 3 2, [])
    [(4998500, 80); (4997000, 81); (4999500, 82)]) = [(4998500, 80); (4999500, 82)]) by (vm_compute; reflexivity).
  destruct (foldl feed _ _) as [wf acc]. split; [exact Ha|exact H].
Defined.
